(* ===== verification/_CoqProject ===== *)
-Q . S2P
Prelude.v
Reader.v
LebSpec.v
ReaderLaws.v
ReaderExport.v
Types.v
TypesLaws.v
Decode.v
DecodeLaws.v
Kinds.v
Instr.v
InstrLaws.v
Skip.v
SkipLaws.v
Walk.v
Encode.v
ExprRoundtrip.v
Module.v
ModuleLaws.v
TypeResolve.v
TypeEq.v
ModuleMeta.v
ModuleDecode.v
TypeBounds.v
ModuleSafe.v
DecodeTotal.v
Fused.v
SectionOrder.v
TypeEquiv.v
TypeEquivLaws.v
TypeEquivSpec.v
Subtyping.v
Effects.v
Validator.v
Step.v
ValidatorLaws.v
Streaming.v
FastPath.v
StreamLaws.v
TypeValid.v
ModuleValid.v
Stamps.v
BranchTable.v
Parallel.v
Ancestry.v
SuperLaws.v
ModuleTotal.v
DirectEquiv.v
FrontEnd.v
Sha256.v
Structural.v
StructuralLaws.v
StructuralScope.v
StructuralCode.v
StructuralSpec.v
StructuralKeys.v
Bits.v
RegMoves.v
IntFold.v
Tiny.v
TinyLayout.v
TinyLaws.v
TinyRefines.v
Semver.v
SemverOrder.v
SemverParse.v
SemverRange.v
MagicNum.v
DivConst.v
DivConstUnsigned.v
DivConstSigned.v
DivConstRefines.v
RvAsm.v
RvIsa.v
RvEncode.v
RvCode.v
RvLower.v
RvLowerLaws.v
RvRun.v
RvOps.v
