(* ===== verification/Prelude.v ===== *)
(** * The wago WebAssembly engine: front end and core algorithms

    wago decodes a WebAssembly binary, validates it, compiles it to machine code,
    links it and runs it.  This library verifies the part every module passes
    through first: the package [src/core/compiler/wasm] (under [src/]), which turns
    bytes into a [Module] and answers the questions the compiler and the runtime
    ask about it.  File names below are those of that package.  Behind the front end
    it verifies the parts of the compiler, the runtime and the package manager whose
    correctness is that of an algorithm; their files are named in full.

    ** The program and its model

    - [Reader], [LebSpec], [ReaderLaws] — the cursor of reader.go with the metadata
      budget of decode_budget.go.  A Go method on [*reader] is a computation in the
      state/error monad of this file; its outcome is a value, an error or a panic
      (an index or slice bound out of range), so "no panic" is a statement and not
      an assumption.  [LebSpec] is the reference definition of LEB128, [ReaderLaws]
      the [safe] logic: never a panic, the position only grows and stays in the
      input, the budget only shrinks.
    - [ReaderExport] — the exported cursor of reader_export.go, a second
      implementation of the same format, and the LEB128 writers of encode.go.
    - [Types], [TypesLaws] — the packed two-word heap, reference, value, storage,
      field and external types of types.go, bit by bit.
    - [Decode], [DecodeLaws], [TypeBounds] — the type, import, export, limit and
      local decoders of decode.go, decode_budget.go and decode_recidx.go.  [TypeBounds]
      has the grammar of the type section on byte lists, stated without the decoder and
      shown to be unambiguous, which the decoders of types are proved against.
    - [Kinds], [Instr], [InstrLaws] — instruction kinds and opcode tables; the
      tree decoder of instruction_decode.go, the four prefixed instruction spaces
      of prefix_decode.go, and [decodeDirectOp] of validate_bytebacked.go, the
      decoder the validator streams bodies through.
    - [Skip], [SkipLaws], [Walk] — the allocation-free classifier of
      bytecode_skip.go and the walker and skipper over the exported cursor of
      bytecode_walk.go.
    - [Encode], [ExprRoundtrip] — the expression encoder of encode.go.
    - [Module], [ModuleLaws], [ModuleMeta], [TypeResolve], [TypeEq] — the module
      record and its queries: index spaces, recursive-group resolution, local types
      (with the adaptive lookup of validate.go), memory widths, branch hints, names,
      type equality (module_helpers.go, types.go, equal.go, name_helpers.go).
    - [ModuleDecode], [ModuleSafe], [DecodeTotal], [SectionOrder], [Fused] — the byte-backed module decoder of validate_bytebacked.go with
      the name and branch-hint sections (name_section_decode.go,
      branch_hint_section.go), in both code-section modes.
    - [TypeEquiv], [TypeEquivLaws], [TypeEquivSpec] — the type index and the
      coinductive comparison of types of validate_gc_helpers.go, with the pair map a
      batch of comparisons shares.
    - [Subtyping] — subtypes of heap, reference and value types, declared supertypes,
      cast families, scopes of type indexes (validate_gc_helpers.go), and the record
      of the module validator.  The supertype test has an outcome, with a panic for an
      interval index out of range; the subtype relations take the answer it returns.
    - [Effects], [Validator], [Step], [ValidatorLaws] — the effect tables
      of validate_ops.go and validate_proposal.go; the operand and control stacks of
      validate.go; [step] and [proposalStep], instruction by instruction.
    - [Streaming], [FastPath], [StreamLaws], [BranchTable], [Stamps] — validation of a
      body streamed from its bytes (validate_bytebacked.go) or walked as a tree, with
      the short paths of common instructions and the stamps of branch tables.
    - [TypeValid], [Ancestry], [SuperLaws] — the type section: scopes, supertype
      declarations, descriptors, the search for cycles and the numbering of the
      supertype forest.
    - [ModuleValid], [ModuleTotal], [DirectEquiv] — [validateModule] and its entry
      points: declared functions, every section, constant expressions.
    - [Parallel] — function validation by workers over a shared
      counter, as a step relation on a pool.
    - [FrontEnd] — decoder and validator composed.
    - [Sha256], [Structural], [StructuralLaws], [StructuralScope], [StructuralCode],
      [StructuralSpec], [StructuralKeys] — the canonical keys of
      function types across modules (structural_type_id.go, module_helpers.go): the
      serializer that hashes recursive groups, with its budget and caches.

    Under [src/core/compiler/backend/railshot], for the code generator:

    - [Bits], [RegMoves] — the scheduling of parallel register moves as moves and
      swaps over masks (shared/regcopy.go).
    - [IntFold] — constant folding, algebraic simplification and strength reduction of
      the trees of deferred integer operations (shared/intfold.go, amd64/stack.go,
      amd64/fold.go, amd64/op.go), with the meaning of the operations.
    - [MagicNum], [DivConst], [DivConstUnsigned], [DivConstSigned],
      [DivConstRefines] — division and remainder by constants: the reciprocals of
      magicnum.go, the code of amd64/magicdiv.go and amd64/bounded_unsigned_div.go, the
      registers it runs on, and a small logic of what emitted code does.

    - [RvLower], [RvLowerLaws], [RvRun], [RvOps] — the integer operations of the riscv64
      target: the opcode table, the code of each operation and of comparisons that
      branch, the trap sites (riscv64/scalar.go, riscv64/integer.go, shared/scalar.go),
      that this code does not depend on its place, and what it does when it runs.

    Elsewhere:

    - [RvAsm], [RvIsa], [RvEncode], [RvCode] — the RISC-V assembler
      (src/core/encoder/riscv64: asm.go, constant.go, branch.go, atomic.go, float.go);
      the instruction set as a decoder of words and a machine of a program counter and
      registers, the reference for what is emitted; each method against the decoder;
      constants and long branches run on the machine.
    - [Tiny], [TinyLayout], [TinyLaws], [TinyRefines] — the block allocator
      of the tiny garbage-collected heap (src/core/runtime/gc/native/tiny_alloc.go):
      boundary tags in the bytes of the heap, segregated free lists, size classes with
      bit maps, merging.
    - [Semver], [SemverOrder], [SemverParse], [SemverRange] — versions
      and range constraints of packages (src/core/semver).

    A decoder calls the cursor; the module decoder calls every section decoder on a
    cursor of its own over the section's payload that shares the budget ([on_sub]);
    the classifier and the two instruction decoders read the same instruction
    stream; the encoder writes what the tree decoder reads; the queries run on the
    module the decoder returns.  The validator checks the types, numbers their
    supertypes, checks every other section with the constant expressions in it, and
    hands itself to the function phase; a function validator pulls operations from
    the cursor and steps its stacks.  A Go validator is a record ([moduleValidator],
    [fenv]) that does not change while functions are checked, and a state
    ([fvState]) that does.  The structural keys are asked of the module the validator
    accepted.  The generator pushes operations on the trees [IntFold] rewrites, and a
    division left in a tree with a constant divisor is compiled by [DivConst], whose
    specification is the meaning [IntFold] gives to the node; the register allocator and
    the code of the dividend are the classes [RegAlloc] and [Condense] there, with what
    they promise.  The riscv64 target calls the assembler [RvAsm] and records the sites
    that are patched later; the bytes it leaves are the code image of the machine of
    [RvIsa], and the operations they must compute are those of [IntFold].

    ** What the theorems show

    - Every input gets a verdict: [FrontEnd.front_end_total] for whole binaries,
      [DecodeTotal.decodeModule_total], [StreamLaws.validateFunction_total],
      [Parallel.parallel_liveness], [TypeEquivSpec.typeIdxEquivalent_decides];
      with the shape of what is accepted: [SectionOrder.accepted_section_order],
      [TypeBounds.type_section_bounded].
    - The stack discipline of the function validator, as an invariant of its loop:
      [StreamLaws.loop_invariant].
    - Optimised paths against their reference: the short paths
      ([FastPath.fast_paths_equiv]), branch tables that skip labels seen before
      ([BranchTable.br_table_once]), workers ([Parallel.parallel_is_serial]), the
      side record of initializers ([FrontEnd.direct_is_module_validation]), the
      intervals of the supertype forest ([SuperLaws.supertype_test_decides]), the
      shared pair map ([TypeEquivSpec.batch_transactions]).
      [SuperLaws.supertype_test_decides] also shows that the supertype test returns for
      every module, on the validator of a module before and after its types are
      numbered, and [TypeEquivSpec.typeIdxEquivalent_decides] that the comparison of
      types does: these are the two tests whose outcomes the subtype relations read as
      booleans, so the verdicts of the validator hide no panic of theirs.
    - Types: equivalence is an equivalence and decides bisimilarity
      ([TypeEquivSpec]), the packed words are faithful ([TypesLaws]).
    - Agreement of implementations of one format: the two cursors
      ([ReaderExport.leb_correct], [ReaderExport.leb128_equiv]), the classifier, the
      walker, the skipper and the decoder ([SkipLaws.classifier_reads_like_decoder],
      [Walk.classifyInto_agrees], [Walk.skip_is_classify]), the walking and the
      slicing mode of the code section ([Fused.fused_decode_parity]).
    - Round trips: integers, value types, external types, expressions, and the
      group-relative type indexes ([ExprRoundtrip.encodeExpr_roundtrip],
      [Encode.valtype_roundtrip], [TypeResolve.mark_resolve] and others).
    - From bytes to signatures: [SectionOrder.decoded_signatures] relates the input of the
      decoder, split into sections and read by the grammar of types, to what the
      signature queries answer on the decoded module.
    - Refinement of optimised queries to their meaning: the import and type
      directories, the adaptive local lookup, the compact width table, the halving
      hint search ([ModuleLaws.index_spaces], [ModuleLaws.localType_correct],
      [ModuleMeta.memarg_widths_exact], [ModuleMeta.branch_hints_found]).
    - Structural keys: equivalent types always get equal keys, and equal keys of types
      that are not equivalent exhibit a collision of SHA-256 truncated to 64 bits among
      the texts of the module ([StructuralKeys.structural_keys_decide]).
    - Generated code: simplification preserves the meaning of every tree
      ([IntFold.simplification_sound]), a schedule of moves acts as all its moves at once
      ([RegMoves.moves_parallel]), the code for a division by a constant computes the
      division and traps when it does ([DivConstRefines.division_by_constant]).
    - RISC-V, from opcode to execution: each method of the assembler appends the word the
      architecture decodes as its instruction ([RvEncode.methods_encode]); constants are
      loaded exactly within the documented length ([RvCode.constants_load]); long branches
      land where they are patched to ([RvCode.long_branch_lands]); the code of every
      integer opcode computes the operation or stops at the recorded trap site, loops
      terminating ([RvOps.operation_correct]); a comparison branches on its false edge
      exactly when it does not hold ([RvOps.compare_branches]).
    - The tiny heap refines an allocator of disjoint spans, for every sequence of
      allocations and releases: [TinyRefines.tiny_heap_refines].
    - Versions: parsing inverts printing ([SemverParse.Parse_String]), comparison is
      precedence, a strict total order up to rank ([SemverOrder.Compare_precedence]), a
      constraint accepts the versions its text describes
      ([SemverRange.constraint_meaning]).

    ** Conventions and bounds

    Integers are [Z] at the width of the Go type, with conversions written out
    ([to_u32], [to_i64], ...).  Bytes are [Z] in [0, 256); [bytes_ok] states it.  Go
    loops bounded by the input run on fuel: the length of the buffer for the loops
    over sections, bodies and constant expressions (each round reads a byte), the
    nesting limit 20000 for the tree decoder, the number of types for the search for
    supertype cycles (a nested call meets a type not visited yet), twice that number
    for the walk that numbers the forest, the number of pairs of types for type
    equivalence (a nested call adds a pair), the number of types for the search of the
    supertype test (a nested call marks a type).  Fuel that runs out is a panic of the
    model, so the totality theorems show that it never does.  [unsafe.Sizeof] of a
    struct is its size on a 64-bit target.  A slice of the input is the list of its
    bytes.  The lazily cached directories of a module are computed on demand.  A
    function validator of the pool claims an index, or validates a function, in one
    step of the relation: a function touches no state of another worker.

    The serializer of structural keys nests at most as deep as there are groups, and its
    budget is the 2^20 bytes of the source.  Nothing is assumed of SHA-256, which is
    defined in [Sha256]: where keys agree and types do not, the theorem names the colliding
    texts ([collision]).  Loops over masks of registers or bits run 64 rounds, the search for a
    short reciprocal 32, a free list of the tiny heap at most the number of its blocks, a
    list of constraint tokens at most the length of its text, the digits of a [uint64]
    20 rounds; each bound is that of the loop in the source or is shown never to be
    reached.  A register of the machine of [DivConst] is a number; spilled values go to a
    frame that is not shown.  The recursion of [Constant64] has fuel 4, enough for 64 bits
    since a call drops twelve and the last one keeps 32.  The machine of [RvIsa] has no
    memory and no floating-point registers: instructions on those are decoded and not
    executed.  Code lies below address 2^62, so that no program counter wraps.  The words
    of a trap site are left open in the image, as they are patched after the operation.

    ** Not modelled

    The facts the validator gathers for the code generator (validation_analysis.go),
    element initializers at instantiation, the side tables for the code generator,
    display strings and the text of errors.  Of structural keys, the recursive
    serializer kept for a benchmark and the invalidation of the cache of a module that
    changes.  Of the trees of the generator, reference counts, the cap on their height
    and the registers their values live in.  Of division, the general path by [idiv], the
    code of spills and reloads and the encoding of the amd64 instructions.  Of the riscv64
    target, frames, calls, control structures and floating-point operations, and in its
    assembler the checks of register allocation of a diagnostic build.  Of the tiny heap, the
    pacing of the collector that uses it.  The rest of the machine-code back ends, the
    runtime, the engine API and the command line: code about machine state, raw memory,
    assembly and I/O.

    ** This file

    Shared by every component: the outcome type and the state/error monad in
    which the Go functions are written, the machine integers of Go at their
    width, the tactics and hint databases of the development and the generic
    lemmas on lists, options and integers. *)

From stdpp Require Import base tactics numbers list gmap.
From Stdlib Require Import ZArith Lia.

#[export] Set Default Goal Selector "!".

Declare Scope go_scope.
Delimit Scope go_scope with go.
Global Open Scope go_scope.
Local Open Scope Z_scope.

(** ** Outcomes of a Go call

    A Go function of the front end returns a value, returns a non-nil [error],
    or panics (an index or a slice bound out of range).  The error type is a
    parameter: components fix it. *)

Inductive outcome (E A : Type) : Type :=
| Ok (a : A)
| Err (e : E)
| Panic.
Arguments Ok {E A} a.
Arguments Err {E A} e.
Arguments Panic {E A}.

Definition is_ok {E A} (o : outcome E A) : bool :=
  match o with Ok _ => true | _ => false end.

Definition is_panic {E A} (o : outcome E A) : bool :=
  match o with Panic => true | _ => false end.

(** ** The state/error monad

    [M S E A]: a Go method with a mutable receiver of type [S].  The state
    reached is part of the result also when the call fails, since the Go code
    keeps the receiver (a cursor that stopped in the middle of an immediate is
    observable through the offset of the next error). *)

Definition M (S E A : Type) : Type := S -> outcome E A * S.

Section Monad.
Context {S E : Type}.

Definition ret {A} (a : A) : M S E A := fun s => (Ok a, s).

Definition fail {A} (e : E) : M S E A := fun s => (Err e, s).

Definition panic {A} : M S E A := fun s => (Panic, s).

Definition bind {A B} (m : M S E A) (k : A -> M S E B) : M S E B :=
  fun s =>
    match m s with
    | (Ok a, s') => k a s'
    | (Err e, s') => (Err e, s')
    | (Panic, s') => (Panic, s')
    end.

Definition get : M S E S := fun s => (Ok s, s).

Definition put (s' : S) : M S E unit := fun _ => (Ok tt, s').

Definition modify (f : S -> S) : M S E unit := fun s => (Ok tt, f s).

(** [for i := 0; i < n; i++ { out = append(out, fn()) }] with the early
    return of the first error. *)
Fixpoint repeatM {A} (n : nat) (m : M S E A) : M S E (list A) :=
  match n with
  | O => ret []
  | Datatypes.S n' =>
      bind m (fun a => bind (repeatM n' m) (fun l => ret (a :: l)))
  end.

(** [for _, x := range l { if err := f(x); err != nil { return err } }] *)
Fixpoint forM {A} (l : list A) (f : A -> M S E unit) : M S E unit :=
  match l with
  | [] => ret tt
  | x :: l' => bind (f x) (fun _ => forM l' f)
  end.

(** A loop that threads an accumulator. *)
Fixpoint foldM {A B} (l : list A) (f : B -> A -> M S E B) (b : B) : M S E B :=
  match l with
  | [] => ret b
  | x :: l' => bind (f b x) (fun b' => foldM l' f b')
  end.
End Monad.

Notation "'let!' x := m 'in' k" := (bind m (fun x => k))
  (at level 10, x pattern, m at level 100, k at level 200)
  : go_scope.
Notation "m ;;; k" := (bind m (fun _ => k))
  (at level 199, right associativity) : go_scope.

(** ** Machine integers *)

Definition byte_ok (b : Z) : Prop := 0 <= b < 256.
Definition bytes_ok (l : list Z) : Prop := Forall byte_ok l.

Definition to_u8 (x : Z) : Z := x mod 2 ^ 8.
Definition to_u16 (x : Z) : Z := x mod 2 ^ 16.
Definition to_u32 (x : Z) : Z := x mod 2 ^ 32.
Definition to_u64 (x : Z) : Z := x mod 2 ^ 64.

(** Conversion of a word to the signed type of the same width. *)
Definition to_i32 (x : Z) : Z := (x + 2 ^ 31) mod 2 ^ 32 - 2 ^ 31.
Definition to_i64 (x : Z) : Z := (x + 2 ^ 63) mod 2 ^ 64 - 2 ^ 63.

Definition u32_ok (x : Z) : Prop := 0 <= x < 2 ^ 32.
Definition u64_ok (x : Z) : Prop := 0 <= x < 2 ^ 64.

(** ** Tactics *)

(** Case analysis on the scrutinee of a [match] or [if] of the goal or of a
    hypothesis, innermost first, with the equation kept. *)
Ltac case_go :=
  match goal with
  | |- context [match ?x with _ => _ end] =>
      lazymatch x with
      | context [match _ with _ => _ end] => fail
      | _ => let E := fresh "E" in destruct x eqn:E
      end
  | H : context [match ?x with _ => _ end] |- _ =>
      lazymatch x with
      | context [match _ with _ => _ end] => fail
      | _ => let E := fresh "E" in destruct x eqn:E
      end
  end.

(** Boolean facts to propositional ones, for [lia]. *)
Ltac bool_to_prop :=
  repeat match goal with
  | H : (_ && _) = true |- _ => apply andb_prop in H; destruct H
  | H : (_ || _) = false |- _ => apply orb_false_elim in H; destruct H
  | H : negb _ = true |- _ => apply negb_true_iff in H
  | H : negb _ = false |- _ => apply negb_false_iff in H
  | H : (_ =? _) = true |- _ => apply Z.eqb_eq in H
  | H : (_ =? _) = false |- _ => apply Z.eqb_neq in H
  | H : (_ <=? _) = true |- _ => apply Z.leb_le in H
  | H : (_ <=? _) = false |- _ => apply Z.leb_gt in H
  | H : (_ <? _) = true |- _ => apply Z.ltb_lt in H
  | H : (_ <? _) = false |- _ => apply Z.ltb_ge in H
  end.

(** Goals [false = (_ <? _) || _] and the like, by arithmetic. *)
Ltac zbool :=
  try symmetry;
  rewrite ?orb_true_iff, ?orb_false_iff, ?andb_true_iff, ?andb_false_iff, ?Z.ltb_lt, ?Z.ltb_ge,
    ?Z.leb_le, ?Z.leb_gt, ?Z.eqb_eq, ?Z.eqb_neq; lia.

Create HintDb go discriminated.

(** ** Monad lemmas *)

Section MonadLemmas.
Context {S E : Type}.

Lemma bind_ok {A B} (m : M S E A) (k : A -> M S E B) s b s'' :
  bind m k s = (Ok b, s'') ->
  exists a s', m s = (Ok a, s') /\ k a s' = (Ok b, s'').
Proof.
  unfold bind. destruct (m s) as [[a|e|] s']; intros H; [eauto| |];
    discriminate H.
Qed.

Lemma bind_ret_l {A B} (a : A) (k : A -> M S E B) s : bind (ret a) k s = k a s.
Proof. reflexivity. Qed.

Lemma bind_eq {A B} (m : M S E A) (k : A -> M S E B) s a s' :
  m s = (Ok a, s') -> bind m k s = k a s'.
Proof. unfold bind. intros ->. reflexivity. Qed.

Lemma bind_err {A B} (m : M S E A) (k : A -> M S E B) s e s' :
  m s = (Err e, s') -> bind m k s = (Err e, s').
Proof. unfold bind. intros ->. reflexivity. Qed.

Lemma bind_assoc {A B C} (m : M S E A) (f : A -> M S E B) (g : B -> M S E C) s :
  bind (bind m f) g s = bind m (fun a => bind (f a) g) s.
Proof. unfold bind. destruct (m s) as [[a|e|] s']; reflexivity. Qed.

Lemma bind_ext {A B} (m : M S E A) (f g : A -> M S E B) s :
  (forall a s', m s = (Ok a, s') -> f a s' = g a s') ->
  bind m f s = bind m g s.
Proof.
  unfold bind. destruct (m s) as [[a|e|] s']; intros H; [|reflexivity..].
  by apply H.
Qed.

Lemma repeatM_length {A} n (m : M S E A) s l s' :
  repeatM n m s = (Ok l, s') -> length l = n.
Proof.
  revert s l s'. induction n as [|n IH]; simpl; intros s l s' H.
  - injection H as <- <-. reflexivity.
  - apply bind_ok in H as (a & s1 & _ & H).
    apply bind_ok in H as (l1 & s2 & H1 & H2).
    injection H2 as <- <-. simpl. f_equal. eauto.
Qed.
End MonadLemmas.

(** Decompose a hypothesis that a monadic computation succeeded. *)
Ltac mon_inv H :=
  repeat match type of H with
  | bind _ _ _ = (Ok _, _) =>
      let a := fresh "a" in let s := fresh "s" in let H1 := fresh "Hm" in
      apply bind_ok in H as (a & s & H1 & H)
  end.

(** ** Integer lemmas *)

Lemma to_u64_small x : 0 <= x < 2 ^ 64 -> to_u64 x = x.
Proof. apply Z.mod_small. Qed.

Lemma to_u32_small x : 0 <= x < 2 ^ 32 -> to_u32 x = x.
Proof. apply Z.mod_small. Qed.

Lemma to_u64_range x : 0 <= to_u64 x < 2 ^ 64.
Proof. apply Z.mod_pos_bound. reflexivity. Qed.

Lemma to_u32_range x : 0 <= to_u32 x < 2 ^ 32.
Proof. apply Z.mod_pos_bound. reflexivity. Qed.

Lemma to_i64_range x : - 2 ^ 63 <= to_i64 x < 2 ^ 63.
Proof. unfold to_i64. pose proof (Z.mod_pos_bound (x + 2 ^ 63) (2 ^ 64)). lia. Qed.

Lemma to_i64_of_u64 v : - 2 ^ 63 <= v < 2 ^ 63 -> to_i64 (v mod 2 ^ 64) = v.
Proof.
  intros Hv. unfold to_i64.
  rewrite Z.add_mod_idemp_l by lia. rewrite Z.mod_small; lia.
Qed.

Lemma to_i32_of_u64 v : - 2 ^ 31 <= v < 2 ^ 31 -> to_i32 (v mod 2 ^ 64) = v.
Proof.
  intros Hv. unfold to_i32.
  rewrite <- Z.add_mod_idemp_l by lia.
  rewrite Z.mod_mod_divide by (by exists (2 ^ 32)).
  rewrite Z.add_mod_idemp_l by lia. rewrite Z.mod_small; lia.
Qed.

Lemma land_7f b : Z.land b 127 = b mod 128.
Proof. change 127 with (Z.ones 7). rewrite Z.land_ones; [reflexivity|lia]. Qed.

#[export] Hint Resolve to_u64_small to_u32_small : go.

Lemma testbit_above a n i : 0 <= a < 2 ^ n -> n <= i -> 0 <= i -> Z.testbit a i = false.
Proof.
  intros Ha Hn Hi. destruct (Z.eq_dec a 0) as [->|Ha0]; [by rewrite Z.bits_0|].
  apply Z.bits_above_log2; [lia|]. apply Z.log2_lt_pow2; [lia|].
  apply Z.lt_le_trans with (2 ^ n); [lia|]. apply Z.pow_le_mono_r; lia.
Qed.

Lemma lor_shiftl_add a b n :
  0 <= n -> 0 <= a < 2 ^ n -> Z.lor a (Z.shiftl b n) = a + b * 2 ^ n.
Proof.
  intros Hn Ha. rewrite <- Z.shiftl_mul_pow2 by lia.
  assert (Hd : Z.land a (Z.shiftl b n) = 0).
  { apply Z.bits_inj'. intros i Hi. rewrite Z.land_spec, Z.bits_0.
    destruct (Z.lt_ge_cases i n).
    - rewrite Z.shiftl_spec_low, andb_false_r by lia. reflexivity.
    - by rewrite (testbit_above a n). }
  rewrite Z.add_nocarry_lxor, <- Z.lxor_lor by exact Hd. reflexivity.
Qed.

(** A boolean fact on a small integer, checked on every value of its range. *)
Lemma Zrange_forallb (P : Z -> bool) (lo : Z) (n : nat) :
  forallb (fun i => P (lo + Z.of_nat i)) (seq 0 n) = true ->
  forall z, lo <= z < lo + Z.of_nat n -> P z = true.
Proof.
  intros H z Hz. rewrite forallb_forall in H.
  specialize (H (Z.to_nat (z - lo))).
  rewrite Z2Nat.id in H by lia. replace (lo + (z - lo)) with z in H by lia.
  apply H. apply in_seq. lia.
Qed.
