(* ===== verification/Reader.v ===== *)
(** * The byte cursor of the front end

    [src/core/compiler/wasm/reader.go], [decode_budget.go] and [errors.go]: the
    decode errors, the bounds-checked cursor, its LEB128 reader and the
    metadata budget every allocation of the decoder is charged to.

    The Go [int] positions are [nat] (a slice index is never negative), bytes
    and words are [Z] at their width.  A decoder is a computation in the state
    monad over [reader.t]. *)

From stdpp Require Import base tactics numbers list.
From Stdlib Require Import ZArith Lia.
From S2P Require Import Prelude.
Local Open Scope Z_scope.

(** ** Errors (errors.go) *)

Inductive DecodeErrorCode : Set :=
| ErrIndexOutOfBounds
| ErrMalformedLEB
| ErrBadMagic
| ErrBadVersion
| ErrInvalidSection
| ErrSectionOrder
| ErrDuplicateSection
| ErrSectionSizeMismatch
| ErrInvalidType
| ErrInvalidLimits
| ErrInvalidImport
| ErrInvalidExport
| ErrInvalidInstruction
| ErrInvalidBlockType
| ErrInstructionNestingLimitExceeded
| ErrInvalidModule
| ErrLegacyExceptionHandling.

#[export] Instance DecodeErrorCode_eq_dec : EqDecision DecodeErrorCode.
Proof. solve_decision. Defined.

Record DecodeError : Set := {
  Code : DecodeErrorCode;
  Offset : Z;
  SectionID : Z;
  SectionStart : Z;
  SectionEnd : Z
}.

Inductive ValidationErrorCode : Set :=
| ErrTypeMismatch
| ErrUnknownType
| ErrUnknownFunc
| ErrUnknownTable
| ErrUnknownMemory
| ErrUnknownGlobal
| ErrUnknownTag
| ErrUnknownLabel
| ErrUnknownLocal
| ErrUninitializedLocal
| ErrImmutableGlobal
| ErrInvalidAlignment
| ErrInvalidSharedMemory
| ErrInvalidLimitRange
| ErrInvalidDataCount
| ErrConstExprRequired
| ErrDuplicateExport
| ErrUnsupportedValidationOpcode
| ErrUnsupportedFeature
| ErrResourceLimitExceeded.

#[export] Instance ValidationErrorCode_eq_dec : EqDecision ValidationErrorCode.
Proof. solve_decision. Defined.

(** The [Detail] text of a validation error is a diagnostic and is left out. *)
Record ValidationError : Set := { VCode : ValidationErrorCode; VFunc : Z }.

(** The values of Go's [error] the front end returns: the two structured
    errors, and the three [fmt.Errorf] errors of the decode budget. *)
Inductive error : Set :=
| EDecode (e : DecodeError)
| EValidation (e : ValidationError)
| EMetadataLimit (limit off : Z)
| ETypeLimit (limit : Z)
| EGroupLimit (limit : Z).

(** [&DecodeError{Code: code, Offset: off}] *)
Definition decode_error (code : DecodeErrorCode) (off : Z) : error :=
  EDecode {| Code := code; Offset := off; SectionID := 0; SectionStart := 0;
             SectionEnd := 0 |}.

(** ** Decode budget (decode_budget.go) *)

Record DecodeLimits : Set := { MaxTypes : Z; MaxMetadataBytes : Z }.

Definition DefaultDecodeLimits : DecodeLimits :=
  {| MaxTypes := 100000; MaxMetadataBytes := Z.shiftl 256 20 |}.

Record decodeBudget : Set := {
  remaining : Z;
  types : Z;
  limits : DecodeLimits
}.

Definition newDecodeBudget (l : DecodeLimits) : decodeBudget :=
  let l := {| MaxTypes := if MaxTypes l =? 0 then MaxTypes DefaultDecodeLimits else MaxTypes l;
              MaxMetadataBytes :=
                if MaxMetadataBytes l =? 0 then MaxMetadataBytes DefaultDecodeLimits
                else MaxMetadataBytes l |} in
  {| remaining := MaxMetadataBytes l; types := 0; limits := l |}.

(** ** Library functions of Go the cursor uses *)

(** [binary.LittleEndian.Uint32/Uint64] of a byte slice. *)
Fixpoint le_uint (l : list Z) : Z :=
  match l with
  | [] => 0
  | b :: l' => Z.lor b (Z.shiftl (le_uint l') 8)
  end.

Definition utf8_cont (lo hi b : Z) : bool := (lo <=? b) && (b <=? hi).

(** [utf8.Valid]: well-formed UTF-8 (RFC 3629): no overlong form, no surrogate,
    nothing above U+10FFFF. *)
Fixpoint utf8_Valid (l : list Z) : bool :=
  match l with
  | [] => true
  | b0 :: l1 =>
      if b0 <? 0x80 then utf8_Valid l1
      else if utf8_cont 0xC2 0xDF b0 then
        match l1 with
        | b1 :: l2 => utf8_cont 0x80 0xBF b1 && utf8_Valid l2
        | _ => false
        end
      else if utf8_cont 0xE0 0xEF b0 then
        match l1 with
        | b1 :: b2 :: l3 =>
            utf8_cont (if b0 =? 0xE0 then 0xA0 else 0x80)
                      (if b0 =? 0xED then 0x9F else 0xBF) b1
            && utf8_cont 0x80 0xBF b2 && utf8_Valid l3
        | _ => false
        end
      else if utf8_cont 0xF0 0xF4 b0 then
        match l1 with
        | b1 :: b2 :: b3 :: l4 =>
            utf8_cont (if b0 =? 0xF0 then 0x90 else 0x80)
                      (if b0 =? 0xF4 then 0x8F else 0xBF) b1
            && utf8_cont 0x80 0xBF b2 && utf8_cont 0x80 0xBF b3 && utf8_Valid l4
        | _ => false
        end
      else false
  end.

(** ** The cursor (reader.go) *)

Module reader.

Record t : Set := { data : list Z; pos : nat; budget : option decodeBudget }.

Definition newReader (d : list Z) : t := {| data := d; pos := 0; budget := None |}.

Definition reset (d : list Z) (r : t) : t :=
  {| data := d; pos := 0; budget := budget r |}.

Definition advance (n : nat) (r : t) : t :=
  {| data := data r; pos := pos r + n; budget := budget r |}.

Definition with_budget (b : decodeBudget) (r : t) : t :=
  {| data := data r; pos := pos r; budget := Some b |}.

Definition off (r : t) : Z := Z.of_nat (pos r).

Definition left (r : t) : Z := Z.of_nat (length (data r)) - Z.of_nat (pos r).

Definition has (r : t) : bool := 0 <? left r.

Definition peek (r : t) : option Z := data r !! pos r.

End reader.

Abbreviation R := (M reader.t error).

(** [return ..., &DecodeError{Code: code, Offset: r.off() + d}] *)
Definition fail_at {A} (code : DecodeErrorCode) (d : Z) : R A :=
  fun r => (Err (decode_error code (reader.off r + d)), r).

Module rd.

Definition byte : R Z := fun r =>
  match reader.data r !! reader.pos r with
  | None => fail_at ErrIndexOutOfBounds 0 r
  | Some b => (Ok b, reader.advance 1 r)
  end.

Definition bytes (n : Z) : R (list Z) := fun r =>
  if (n <? 0) || (reader.left r <? n) then fail_at ErrIndexOutOfBounds 0 r
  else (Ok (take (Z.to_nat n) (drop (reader.pos r) (reader.data r))),
        reader.advance (Z.to_nat n) r).

Definition le32 : R Z := let! b := bytes 4 in ret (le_uint b).

Definition le64 : R Z := let! b := bytes 8 in ret (le_uint b).

(** The loop of [leb]: [k] is [(maxBits+6)/7 - i], the bytes the encoding may
    still take, so [k = 0] is the check [i >= int((maxBits+6)/7)]. *)
Fixpoint leb_loop (k : nat) (signed : bool) (maxBits result shift : Z) : R Z :=
  match k with
  | O => fail_at ErrMalformedLEB 0
  | S k' =>
      let! b := byte in
      if (64 <=? shift) && negb (Z.land b 0x7f =? 0) then fail_at ErrMalformedLEB 0
      else
        let result :=
          if shift <? 64 then Z.lor result (to_u64 (Z.shiftl (Z.land b 0x7f) shift))
          else result in
        let cont := negb (Z.land b 0x80 =? 0) in
        let shift := shift + 7 in
        if negb cont then
          let extra := shift - maxBits in
          let used := 7 - extra in
          let mask := to_u8 (Z.shiftl (Z.shiftl 1 extra - 1) used) in
          let bad :=
            if maxBits <? shift then
              if signed && negb (Z.land b (Z.shiftl 1 (used - 1)) =? 0)
              then negb (Z.land b mask =? mask)
              else negb (Z.land b mask =? 0)
            else false in
          if bad then fail_at ErrMalformedLEB 0
          else
            ret (if signed && (shift <? 64) && negb (Z.land b 0x40 =? 0)
                 then Z.lor result (to_u64 (Z.shiftl (2 ^ 64 - 1) shift))
                 else result)
        else if maxBits + 7 <=? shift then fail_at ErrMalformedLEB 0
        else leb_loop k' signed maxBits result shift
  end.

Definition leb (signed : bool) (maxBits : Z) : R Z :=
  leb_loop (Z.to_nat ((maxBits + 6) / 7)) signed maxBits 0 0.

Definition u32 : R Z := fun r =>
  match reader.peek r with
  | Some b =>
      if b <? 0x80 then (Ok b, reader.advance 1 r)
      else (let! v := leb false 32 in ret (to_u32 v)) r
  | None => (let! v := leb false 32 in ret (to_u32 v)) r
  end.

Definition u33 : R Z := leb false 33.

Definition u64 : R Z := leb false 64.

Definition s33 : R Z := let! v := leb true 33 in ret (to_i64 v).

Definition i32 : R Z := fun r =>
  match reader.peek r with
  | Some b =>
      if b <? 0x80 then
        (Ok (if negb (Z.land b 0x40 =? 0) then Z.lor b (Z.lnot 0x7f) else b),
         reader.advance 1 r)
      else (let! v := leb true 32 in ret (to_i32 v)) r
  | None => (let! v := leb true 32 in ret (to_i32 v)) r
  end.

Definition i64 : R Z := let! v := leb true 64 in ret (to_i64 v).

(** [if r.budget == nil { r.budget = newDecodeBudget(DecodeLimits{}) }] *)
Definition the_budget (r : reader.t) : decodeBudget :=
  match reader.budget r with
  | Some b => b
  | None => newDecodeBudget {| MaxTypes := 0; MaxMetadataBytes := 0 |}
  end.

Definition reserve (count width : Z) : R unit := fun r =>
  let b := the_budget r in
  if negb (width =? 0) && (remaining b / width <? count)
  then (Err (EMetadataLimit (MaxMetadataBytes (limits b)) (reader.off r)),
        reader.with_budget b r)
  else (Ok tt,
        reader.with_budget
          {| remaining := remaining b - count * width; types := types b;
             limits := limits b |} r).

(** The argument [size] is [unsafe.Sizeof(value)] of the element type. *)
Definition reserveDecodedSlice (size n : Z) : R unit := reserve n (size * 8 + 16).

Definition reserveMetadataStorage (size n : Z) : R unit :=
  if n =? 0 then ret tt
  else
    reserve n size ;;;
    reserve 1 (Z.min (n * size) 8192).

Definition reserveType : R unit := fun r =>
  let b := the_budget r in
  if MaxTypes (limits b) <=? types b
  then (Err (ETypeLimit (MaxTypes (limits b))), reader.with_budget b r)
  else (Ok tt,
        reader.with_budget
          {| remaining := remaining b; types := types b + 1; limits := limits b |} r).

Definition name : R (list Z) :=
  let! n := u32 in
  let! r := get in
  let start := reader.off r in
  let! b := bytes n in
  if negb (utf8_Valid b) then fail (decode_error ErrInvalidSection start)
  else
    reserve (Z.of_nat (length b)) 2 ;;;
    ret b.

Definition readVec {A} (size : Z) (fn : R A) : R (list A) :=
  let! n := u32 in
  reserveDecodedSlice size n ;;;
  repeatM (Z.to_nat n) fn.

Definition readMetadataVec {A} (size : Z) (fn : R A) : R (list A) :=
  let! n := u32 in
  let! r := get in
  if reader.left r <? n then fail_at ErrIndexOutOfBounds 0
  else
    reserveMetadataStorage size n ;;;
    repeatM (Z.to_nat n) fn.

End rd.

(** [boundedVecCap] sizes the first allocation of [readVec]. *)
Definition boundedVecCap (n : Z) (remainingBytes : Z) : Z :=
  let capHint := if 1024 <? remainingBytes then 1024 else remainingBytes in
  if n <? to_u64 capHint then n else capHint.
