(* ===== verification/LebSpec.v ===== *)
(** * LEB128: reference semantics and correctness of the two readers

    The front end has two LEB128 readers: [reader.leb] ([reader.go]), which the
    decoder and the validator use, and [Reader.leb128] ([reader_export.go]),
    which the back ends use.  Both are shown to accept exactly the encodings of
    the WebAssembly binary format at the requested width and to return the
    encoded value. *)

From stdpp Require Import base tactics numbers list.
From Stdlib Require Import ZArith Lia.
From S2P Require Import Prelude Reader.
Local Open Scope Z_scope.

(** ** Reference semantics *)

(** The digits of an encoding: seven bits per byte, least significant first. *)
Fixpoint leb_digits (bs : list Z) : Z :=
  match bs with
  | [] => 0
  | b :: bs' => b mod 128 + 128 * leb_digits bs'
  end.

(** Every byte but the last has its continuation bit, the last has not. *)
Fixpoint leb_terminated (bs : list Z) : bool :=
  match bs with
  | [] => false
  | [b] => b <? 128
  | b :: bs' => (128 <=? b) && leb_terminated bs'
  end.

(** Two's complement reading: the sign is bit 6 of the last byte. *)
Definition leb_value (signed : bool) (bs : list Z) : Z :=
  if signed && (64 <=? List.last bs 0 mod 128)
  then leb_digits bs - 2 ^ (7 * Z.of_nat (length bs))
  else leb_digits bs.

Definition leb_in_range (signed : bool) (N v : Z) : Prop :=
  if signed then - 2 ^ (N - 1) <= v < 2 ^ (N - 1) else 0 <= v < 2 ^ N.

(** [bs] is an encoding of [v] as an [N]-bit integer of the binary format. *)
Definition leb_encodes (signed : bool) (N : Z) (bs : list Z) (v : Z) : Prop :=
  leb_terminated bs = true /\ Z.of_nat (length bs) <= (N + 6) / 7 /\
  v = leb_value signed bs /\ leb_in_range signed N v.

(** ** The check on the last byte *)

Definition leb_bad (signed : bool) (used b : Z) : bool :=
  let mask := to_u8 (Z.shiftl (Z.shiftl 1 (7 - used) - 1) used) in
  if signed && negb (Z.land b (Z.shiftl 1 (used - 1)) =? 0)
  then negb (Z.land b mask =? mask) else negb (Z.land b mask =? 0).

Definition leb_fits (signed : bool) (used b : Z) : bool :=
  if signed then
    let s := if 64 <=? b then b - 128 else b in
    (- 2 ^ (used - 1) <=? s) && (s <? 2 ^ (used - 1))
  else b <? 2 ^ used.

Lemma leb_bad_fits signed used b :
  1 <= used <= 6 -> 0 <= b < 128 -> leb_bad signed used b = negb (leb_fits signed used b).
Proof.
  intros Hu Hb.
  apply eqb_true_iff.
  refine (Zrange_forallb
    (fun b => Bool.eqb (leb_bad signed used b) (negb (leb_fits signed used b)))
    0 128 _ b ltac:(lia)).
  refine (Zrange_forallb
    (fun used => forallb (fun i => Bool.eqb (leb_bad signed used (0 + Z.of_nat i))
       (negb (leb_fits signed used (0 + Z.of_nat i)))) (seq 0 128))
    1 6 _ used ltac:(lia)).
  destruct signed; vm_compute; reflexivity.
Qed.

Lemma land_bit_128 b : 0 <= b < 256 -> (Z.land b 128 =? 0) = (b <? 128).
Proof.
  intros Hb. apply eqb_true_iff.
  refine (Zrange_forallb (fun b => Bool.eqb (Z.land b 128 =? 0) (b <? 128)) 0 256 _ b ltac:(lia)).
  vm_compute. reflexivity.
Qed.

Lemma land_bit_64 b : 0 <= b < 128 -> (Z.land b 64 =? 0) = negb (64 <=? b).
Proof.
  intros Hb. apply eqb_true_iff.
  refine (Zrange_forallb (fun b => Bool.eqb (Z.land b 64 =? 0) (negb (64 <=? b))) 0 128 _ b ltac:(lia)).
  vm_compute. reflexivity.
Qed.

(** ** Arithmetic of the accumulator *)

(** One step of the accumulation, in 64-bit arithmetic: the bits shifted past
    bit 63 are lost. *)
Lemma lor_u64_shiftl acc x n :
  0 <= n <= 64 -> 0 <= acc < 2 ^ n ->
  Z.lor acc (to_u64 (Z.shiftl x n)) = (acc + x * 2 ^ n) mod 2 ^ 64.
Proof.
  intros Hn Hacc.
  assert (Hs : to_u64 (Z.shiftl x n) = Z.shiftl (x mod 2 ^ (64 - n)) n).
  { unfold to_u64. rewrite !Z.shiftl_mul_pow2 by lia.
    replace (2 ^ 64) with (2 ^ (64 - n) * 2 ^ n) by (rewrite <- Z.pow_add_r by lia; f_equal; lia).
    apply Z.mul_mod_distr_r; lia. }
  rewrite Hs, lor_shiftl_add by lia.
  assert (Hp : 2 ^ 64 = 2 ^ (64 - n) * 2 ^ n) by (rewrite <- Z.pow_add_r by lia; f_equal; lia).
  apply Z.mod_unique with (q := x / 2 ^ (64 - n)).
  - left. pose proof (Z.mod_pos_bound x (2 ^ (64 - n)) ltac:(lia)).
    rewrite Hp. nia.
  - pose proof (Z.div_mod x (2 ^ (64 - n)) ltac:(lia)). rewrite Hp. nia.
Qed.

Lemma pow7_succ i : 2 ^ (7 * Z.of_nat (S i)) = 128 * 2 ^ (7 * Z.of_nat i).
Proof.
  replace (7 * Z.of_nat (S i)) with (7 + 7 * Z.of_nat i) by lia.
  rewrite Z.pow_add_r by lia. reflexivity.
Qed.

Lemma pow2_pos n : 0 <= n -> 0 < 2 ^ n.
Proof. intros. apply Z.pow_pos_nonneg; lia. Qed.

#[export] Hint Resolve pow2_pos : go.

(** ** Structure of encodings *)

Lemma leb_terminated_cons_lt b bs :
  b < 128 -> leb_terminated (b :: bs) = true -> bs = [].
Proof.
  intros Hb H. destruct bs as [|c bs]; [done|]. simpl in H.
  bool_to_prop. lia.
Qed.

Lemma leb_terminated_cons_ge b bs :
  128 <= b -> leb_terminated (b :: bs) = true <-> bs <> [] /\ leb_terminated bs = true.
Proof.
  intros Hb. destruct bs as [|c bs].
  - simpl. split; [|tauto]. intros; bool_to_prop; lia.
  - cbn -[Z.leb]. replace (128 <=? b) with true by lia. simpl. split; [done|tauto].
Qed.

Lemma leb_value_cons signed b bs :
  bs <> [] ->
  leb_value signed (b :: bs) = b mod 128 + 128 * leb_value signed bs.
Proof.
  intros Hne. unfold leb_value. destruct bs as [|c bs]; [done|].
  change (List.last (b :: c :: bs) 0) with (List.last (c :: bs) 0).
  change (length (b :: c :: bs)) with (S (length (c :: bs))).
  change (leb_digits (b :: c :: bs)) with (b mod 128 + 128 * leb_digits (c :: bs)).
  destruct (signed && _); [|lia]. rewrite pow7_succ. lia.
Qed.

Lemma leb_in_range_cons signed N b x :
  7 < N -> leb_in_range signed N (b mod 128 + 128 * x) <-> leb_in_range signed (N - 7) x.
Proof.
  intros HN. pose proof (Z.mod_pos_bound b 128 ltac:(lia)).
  assert (Hp : 2 ^ N = 128 * 2 ^ (N - 7)).
  { change 128 with (2 ^ 7). rewrite <- Z.pow_add_r by lia. f_equal; lia. }
  assert (Hq : 2 ^ (N - 1) = 128 * 2 ^ (N - 7 - 1)).
  { change 128 with (2 ^ 7). rewrite <- Z.pow_add_r by lia. f_equal; lia. }
  pose proof (pow2_pos (N - 7) ltac:(lia)). pose proof (pow2_pos (N - 7 - 1) ltac:(lia)).
  unfold leb_in_range. destruct signed; rewrite ?Hp, ?Hq; nia.
Qed.

Lemma leb_value_single signed b :
  0 <= b < 128 ->
  leb_value signed [b] = if signed && (64 <=? b) then b - 128 else b.
Proof.
  intros Hb. unfold leb_value. simpl. rewrite !Z.mod_small by lia.
  destruct (signed && _); lia.
Qed.

Lemma leb_in_range_single signed N b :
  0 <= b < 128 -> 1 <= N ->
  leb_in_range signed N (leb_value signed [b]) <->
  (N < 7 -> leb_fits signed N b = true).
Proof.
  intros Hb HN. rewrite leb_value_single by done. unfold leb_in_range, leb_fits.
  destruct (Z.lt_ge_cases N 7) as [HN7|HN7].
  - destruct signed; simpl; [|lia]. destruct (64 <=? b); lia.
  - assert (2 ^ 7 <= 2 ^ N) by (apply Z.pow_le_mono_r; lia).
    assert (2 ^ 6 <= 2 ^ (N - 1)) by (apply Z.pow_le_mono_r; lia).
    destruct signed; simpl; [|lia]. destruct (64 <=? b) eqn:?; lia.
Qed.

(** ** Correctness of [reader.leb] *)

(** The test of the last byte in the source, against the range of the value. *)
Lemma leb_last_check signed N i b :
  0 <= b < 128 -> 0 <= 7 * i < N ->
  (if N <? 7 * i + 7 then leb_bad signed (7 - (7 * i + 7 - N)) b else false) = false <->
  leb_in_range signed (N - 7 * i) (leb_value signed [b]).
Proof.
  intros Hb Hi. rewrite leb_in_range_single by lia.
  replace (7 - (7 * i + 7 - N)) with (N - 7 * i) by lia.
  destruct (N <? 7 * i + 7) eqn:E; bool_to_prop; [|split; [lia|done]].
  rewrite leb_bad_fits, negb_false_iff by lia. split; [done|intros H; apply H; lia].
Qed.

(** The value the source returns on the last byte. *)
Lemma leb_last_value signed acc i b :
  0 <= b < 128 -> 0 <= 7 * i < 64 -> 0 <= acc < 2 ^ (7 * i) ->
  let result := Z.lor acc (to_u64 (Z.shiftl b (7 * i))) in
  (if signed && (7 * i + 7 <? 64) && negb (Z.land b 64 =? 0)
   then Z.lor result (to_u64 (Z.shiftl (2 ^ 64 - 1) (7 * i + 7)))
   else result)
  = (acc + 2 ^ (7 * i) * leb_value signed [b]) mod 2 ^ 64.
Proof.
  intros Hb Hi Hacc result. unfold result.
  rewrite land_bit_64, negb_involutive, leb_value_single, (lor_u64_shiftl acc) by lia.
  assert (Hp : 2 ^ (7 * i + 7) = 128 * 2 ^ (7 * i)).
  { rewrite Z.pow_add_r by lia. lia. }
  destruct signed; simpl; [|f_equal; lia].
  destruct (7 * i + 7 <? 64) eqn:Hlt; simpl; destruct (64 <=? b) eqn:H64; simpl;
    try (f_equal; lia).
  - bool_to_prop.
    assert (Hsm : 0 <= acc + b * 2 ^ (7 * i) < 2 ^ (7 * i + 7)) by nia.
    rewrite (Z.mod_small (acc + _)).
    + rewrite lor_u64_shiftl by lia.
      rewrite <- (Z.mod_add (acc + 2 ^ (7 * i) * (b - 128)) (2 ^ (7 * i + 7))) by lia.
      f_equal. nia.
    + assert (2 ^ (7 * i + 7) <= 2 ^ 64) by (apply Z.pow_le_mono_r; lia). lia.
  - assert (i = 9) as -> by lia.
    rewrite <- (Z.mod_add (acc + 2 ^ (7 * 9) * (b - 128)) (2 ^ 6)) by lia.
    f_equal. change (2 ^ (7 * 9)) with (2 ^ 63). lia.
Qed.

Lemma byte_Some r b :
  reader.data r !! reader.pos r = Some b -> rd.byte r = (Ok b, reader.advance 1 r).
Proof. unfold rd.byte. intros ->. reflexivity. Qed.

Lemma advance_advance m n r :
  reader.advance m (reader.advance n r) = reader.advance (n + m) r.
Proof. unfold reader.advance. simpl. f_equal. lia. Qed.

(** What a successful read of an encoding at the cursor means. *)
Definition leb_reads (signed : bool) (N : Z) (r r' : reader.t) (v : Z) : Prop :=
  exists bs rest,
    drop (reader.pos r) (reader.data r) = bs ++ rest /\
    leb_encodes signed N bs v /\ r' = reader.advance (length bs) r.

Lemma leb_reads_nil signed N r r' v :
  reader.data r !! reader.pos r = None -> ~ leb_reads signed N r r' v.
Proof.
  intros Hn (bs & rest & Hd & (Ht & _) & _).
  apply lookup_ge_None in Hn. rewrite drop_ge in Hd by lia.
  destruct bs; [discriminate Ht|discriminate Hd].
Qed.

Lemma leb_reads_last signed N r r' v b :
  reader.data r !! reader.pos r = Some b -> 0 <= b < 128 -> 1 <= N ->
  leb_reads signed N r r' v <->
  r' = reader.advance 1 r /\ v = leb_value signed [b] /\
  leb_in_range signed N (leb_value signed [b]).
Proof.
  intros Hb Hr HN. unfold leb_reads, leb_encodes.
  pose proof (drop_S _ _ _ Hb) as Hd. split.
  - intros (bs & rest & Heq & (Ht & _ & Hv & Hin) & ->).
    rewrite Hd in Heq. destruct bs as [|c bs]; [discriminate Ht|].
    injection Heq as <- Heq. apply leb_terminated_cons_lt in Ht as ->; [|lia].
    by subst.
  - intros (-> & -> & Hin). exists [b], (drop (S (reader.pos r)) (reader.data r)).
    split; [done|]. split; [|done]. split; [simpl; lia|]. split; [|done].
    simpl. apply Z.div_le_lower_bound; lia.
Qed.

Lemma leb_reads_more signed N r r' v b :
  reader.data r !! reader.pos r = Some b -> 128 <= b -> 7 < N ->
  leb_reads signed N r r' v <->
  exists x, v = b mod 128 + 128 * x /\ leb_reads signed (N - 7) (reader.advance 1 r) r' x.
Proof.
  intros Hb Hr HN. unfold leb_reads, leb_encodes.
  pose proof (drop_S _ _ _ Hb) as Hd.
  assert (HN7 : (N + 6) / 7 = (N - 7 + 6) / 7 + 1).
  { rewrite <- Z.div_add by lia. f_equal. lia. }
  split.
  - intros (bs & rest & Heq & (Ht & Hl & -> & Hin) & ->).
    rewrite Hd in Heq. destruct bs as [|c bs]; [discriminate Ht|].
    injection Heq as <- Heq. apply leb_terminated_cons_ge in Ht as [Hne Ht]; [|lia].
    rewrite leb_value_cons in Hin |- * by done.
    eexists. split; [done|]. exists bs, rest.
    rewrite advance_advance. simpl in *. rewrite Nat.add_comm. simpl.
    rewrite leb_in_range_cons in Hin by lia.
    split; [exact Heq|]. split; [|done]. repeat split; [done|lia|done].
  - intros (x & -> & bs & rest & Heq & (Ht & Hl & -> & Hin) & ->).
    assert (Hne : bs <> []) by (intros ->; discriminate Ht).
    exists (b :: bs), rest. rewrite leb_value_cons by done. rewrite leb_in_range_cons by lia.
    rewrite advance_advance. simpl in Heq |- *. rewrite Nat.add_comm in Heq. simpl in Heq.
    rewrite Hd, Heq. split; [done|]. split; [|done].
    split; [by apply leb_terminated_cons_ge|]. repeat split; [|done].
    simpl in *; lia.
Qed.

Lemma leb_reads_short signed N r r' v b :
  reader.data r !! reader.pos r = Some b -> 128 <= b -> 0 < N <= 7 ->
  ~ leb_reads signed N r r' v.
Proof.
  intros Hb Hr HN (bs & rest & Heq & (Ht & Hl & _) & _).
  rewrite (drop_S _ _ _ Hb) in Heq. destruct bs as [|c bs]; [discriminate Ht|].
  injection Heq as <- Heq. apply leb_terminated_cons_ge in Ht as [Hne Ht]; [|lia].
  assert ((N + 6) / 7 < 2) by (apply Z.div_lt_upper_bound; lia).
  destruct bs; [done|]. simpl in Hl. lia.
Qed.

(** One iteration of the loop in terms of the byte read. *)
Lemma leb_loop_step k signed N acc i r b :
  reader.data r !! reader.pos r = Some b -> byte_ok b ->
  0 <= 7 * i < N -> N <= 64 -> 0 <= acc < 2 ^ (7 * i) ->
  rd.leb_loop (S k) signed N acc (7 * i) r =
  if b <? 128 then
    if if N <? 7 * i + 7 then leb_bad signed (7 - (7 * i + 7 - N)) b else false
    then fail_at ErrMalformedLEB 0 (reader.advance 1 r)
    else (Ok ((acc + 2 ^ (7 * i) * leb_value signed [b]) mod 2 ^ 64), reader.advance 1 r)
  else rd.leb_loop k signed N ((acc + b mod 128 * 2 ^ (7 * i)) mod 2 ^ 64) (7 * (i + 1))
         (reader.advance 1 r).
Proof.
  intros Hb Hok Hi HN Hacc. unfold byte_ok in Hok.
  cbn [rd.leb_loop]. rewrite (bind_eq _ _ _ _ _ (byte_Some _ _ Hb)).
  rewrite land_7f, land_bit_128, negb_involutive by lia.
  replace (64 <=? 7 * i) with false by lia. replace (7 * i <? 64) with true by lia. simpl.
  destruct (b <? 128) eqn:Hlt.
  - simpl. rewrite (Z.mod_small b) by lia.
    fold (leb_bad signed (7 - (7 * i + 7 - N)) b).
    replace (Z.shiftl 1 (7 * i + 7 - N)) with (Z.shiftl 1 (7 - (7 - (7 * i + 7 - N)))) by (f_equal; lia).
    fold (leb_bad signed (7 - (7 * i + 7 - N)) b).
    destruct (if N <? 7 * i + 7 then _ else false); [done|].
    unfold ret. rewrite leb_last_value by lia. done.
  - simpl. replace (N + 7 <=? 7 * i + 7) with false by lia.
    rewrite lor_u64_shiftl by lia. do 2 f_equal. lia.
Qed.

Lemma leb_loop_spec k signed N acc i r v r' :
  bytes_ok (reader.data r) -> 0 <= 7 * i < N -> N <= 64 ->
  0 <= acc < 2 ^ (7 * i) -> Z.of_nat k = (N - 7 * i + 6) / 7 ->
  rd.leb_loop k signed N acc (7 * i) r = (Ok v, r') <->
  exists x, v = (acc + 2 ^ (7 * i) * x) mod 2 ^ 64 /\ leb_reads signed (N - 7 * i) r r' x.
Proof.
  revert acc i r. induction k as [|k IH]; intros acc i r Hd Hi HN Hacc Hk.
  { assert (1 <= (N - 7 * i + 6) / 7) by (apply Z.div_le_lower_bound; lia). lia. }
  destruct (reader.data r !! reader.pos r) as [b|] eqn:Hb; last first.
  { simpl. unfold rd.byte, bind. rewrite Hb. split; [discriminate|].
    intros (x & _ & Hx). by apply leb_reads_nil in Hx. }
  pose proof (Forall_lookup_1 _ _ _ _ Hd Hb) as Hok.
  rewrite (leb_loop_step _ _ _ _ _ _ b) by done. unfold byte_ok in Hok.
  destruct (b <? 128) eqn:Hlt; bool_to_prop.
  - pose proof (leb_last_check signed N i b ltac:(lia) Hi) as Hc.
    setoid_rewrite leb_reads_last; [|done|lia|lia].
    destruct (if N <? 7 * i + 7 then _ else false).
    + split; [discriminate|]. intros (x & _ & _ & _ & Hin). by apply Hc in Hin.
    + split; [intros [= <- <-]|].
      * eexists. split; [done|]. by rewrite <- Hc.
      * intros (x & -> & -> & -> & _). done.
  - destruct (Z.le_gt_cases (N - 7 * i) 7) as [Hs|Hs].
    + assert (k = 0%nat) as ->.
      { assert ((N - 7 * i + 6) / 7 < 2) by (apply Z.div_lt_upper_bound; lia). lia. }
      simpl. split; [discriminate|].
      intros (x & _ & Hx). by apply (leb_reads_short _ _ _ _ _ b) in Hx; [|done|lia|lia].
    + assert (Hp : 2 ^ (7 * (i + 1)) = 128 * 2 ^ (7 * i)).
      { replace (7 * (i + 1)) with (7 * i + 7) by lia. rewrite Z.pow_add_r by lia. lia. }
      assert (H64 : 2 ^ (7 * (i + 1)) <= 2 ^ 64) by (apply Z.pow_le_mono_r; lia).
      pose proof (Z.mod_pos_bound b 128 ltac:(lia)).
      assert (Hacc' : 0 <= acc + b mod 128 * 2 ^ (7 * i) < 2 ^ (7 * (i + 1))) by nia.
      rewrite (Z.mod_small (acc + _)) by lia.
      rewrite IH; [|done|lia|lia|done|].
      * setoid_rewrite (leb_reads_more _ _ r _ _ b); [|done|lia|lia].
        replace (N - 7 * (i + 1)) with (N - 7 * i - 7) by lia.
        split.
        -- intros (x & -> & Hx). eexists. split; [|eauto]. f_equal. nia.
        -- intros (x & -> & y & -> & Hx). eexists. split; [|eauto]. f_equal. nia.
      * replace (N - 7 * i + 6) with (N - 7 * (i + 1) + 6 + 1 * 7) in Hk by lia.
        rewrite Z.div_add in Hk by lia. lia.
Qed.

(** [leb] accepts exactly the encodings of the binary format at width [N],
    consumes exactly the encoding and returns the value as a 64-bit word. *)
Lemma leb_spec signed N r v r' :
  bytes_ok (reader.data r) -> 1 <= N <= 64 ->
  rd.leb signed N r = (Ok v, r') <->
  exists x, v = x mod 2 ^ 64 /\ leb_reads signed N r r' x.
Proof.
  intros Hd HN. unfold rd.leb.
  rewrite (leb_loop_spec _ _ _ _ 0); [|done|lia|lia|lia|].
  - replace (N - 7 * 0) with N by lia. change (2 ^ (7 * 0)) with 1.
    by setoid_rewrite (Z.mul_1_l).
  - rewrite Z2Nat.id; [f_equal; lia|]. apply Z.div_pos; lia.
Qed.
