(* ===== verification/ReaderLaws.v ===== *)
(** * Safety of the decoders

    A Hoare-style predicate for computations over the cursor.  [safe k m Q]
    says that from every well-formed cursor [m] does not panic, leaves the
    cursor well formed over the same data, never moves it back, never grows the
    metadata budget, and on success has consumed at least [k] bytes and returns
    a value satisfying [Q].  One rule per construct and one lemma per cursor
    operation let every decoder be proved safe by the tactic [safe_go]. *)

From stdpp Require Import base tactics numbers list.
From Stdlib Require Import ZArith Lia.
From S2P Require Import Prelude Reader LebSpec.
Local Open Scope Z_scope.

Definition budget_ok (b : decodeBudget) : Prop :=
  0 <= remaining b <= MaxMetadataBytes (limits b) /\
  0 <= types b <= MaxTypes (limits b).

Record reader_ok (r : reader.t) : Prop := {
  rok_bytes : bytes_ok (reader.data r);
  rok_pos : (reader.pos r <= length (reader.data r))%nat;
  rok_budget : budget_ok (rd.the_budget r)
}.

(** [r'] is reached from [r] by reading at least [k] bytes. *)
Record reader_ext (k : nat) (r r' : reader.t) : Prop := {
  ext_data : reader.data r' = reader.data r;
  ext_pos : (reader.pos r + k <= reader.pos r')%nat;
  ext_remaining : remaining (rd.the_budget r') <= remaining (rd.the_budget r);
  ext_types : types (rd.the_budget r) <= types (rd.the_budget r');
  ext_limits : limits (rd.the_budget r') = limits (rd.the_budget r)
}.

Lemma reader_ext_refl r : reader_ext 0 r r.
Proof. split; reflexivity || lia. Qed.

Lemma reader_ext_trans k1 k2 r1 r2 r3 :
  reader_ext k1 r1 r2 -> reader_ext k2 r2 r3 -> reader_ext (k1 + k2) r1 r3.
Proof. intros [] []. split; congruence || lia. Qed.

Lemma reader_ext_le k1 k2 r r' : (k2 <= k1)%nat -> reader_ext k1 r r' -> reader_ext k2 r r'.
Proof. intros ? []. split; done || lia. Qed.

Definition safe {A} (k : nat) (m : R A) (Q : A -> Prop) : Prop :=
  forall r, reader_ok r ->
    match m r with
    | (Ok a, r') => reader_ok r' /\ reader_ext k r r' /\ Q a
    | (Err _, r') => reader_ok r' /\ reader_ext 0 r r'
    | (Panic, _) => False
    end.

(** ** Rules *)

Lemma safe_ret {A} k (a : A) (Q : A -> Prop) : k = 0%nat -> Q a -> safe k (ret a) Q.
Proof. intros -> Ha r Hr. split; [done|]. split; [apply reader_ext_refl|done]. Qed.

Lemma safe_fail {A} k e (Q : A -> Prop) : safe k (fail e) Q.
Proof. intros r Hr. split; [done|apply reader_ext_refl]. Qed.

Lemma safe_fail_at {A} k code d (Q : A -> Prop) : safe k (fail_at code d) Q.
Proof. intros r Hr. split; [done|apply reader_ext_refl]. Qed.

Lemma safe_bind {A B} k k1 (m : R A) (f : A -> R B) Q1 Q :
  safe k1 m Q1 -> (forall a, Q1 a -> safe (k - k1) (f a) Q) -> safe k (bind m f) Q.
Proof.
  intros Hm Hf r Hr. unfold bind. specialize (Hm r Hr).
  destruct (m r) as [[a|e|] r1]; [|done|done].
  destruct Hm as (Hr1 & He1 & Ha). specialize (Hf a Ha r1 Hr1).
  destruct (f a r1) as [[b|e|] r2]; [| |done].
  - destruct Hf as (Hr2 & He2 & Hb). split; [done|]. split; [|done].
    eapply reader_ext_le; [|eapply reader_ext_trans; eauto]. lia.
  - destruct Hf as (Hr2 & He2). split; [done|].
    eapply reader_ext_le; [|eapply reader_ext_trans; eauto]. lia.
Qed.

Lemma safe_get {A} k (f : reader.t -> R A) Q :
  (forall r, reader_ok r -> safe k (f r) Q) -> safe k (bind get f) Q.
Proof. intros H r Hr. apply H; done. Qed.

Lemma safe_mono {A} k1 k2 (m : R A) (Q1 Q2 : A -> Prop) :
  safe k1 m Q1 -> (k2 <= k1)%nat -> (forall a, Q1 a -> Q2 a) -> safe k2 m Q2.
Proof.
  intros H Hk HQ r Hr. specialize (H r Hr). destruct (m r) as [[a|e|] r']; [|done|done].
  destruct H as (? & ? & ?). split; [done|]. split; [|auto]. by eapply reader_ext_le.
Qed.

Lemma safe_true {A} k (m : R A) Q : safe k m Q -> safe k m (fun _ => True).
Proof. intros H. eapply safe_mono; [exact H|lia|done]. Qed.

Lemma safe_zero {A} k (m : R A) Q : safe k m Q -> safe 0 m Q.
Proof. intros H. eapply safe_mono; [exact H|lia|done]. Qed.

Lemma safe_if {A} k (b : bool) (m1 m2 : R A) Q :
  (b = true -> safe k m1 Q) -> (b = false -> safe k m2 Q) ->
  safe k (if b then m1 else m2) Q.
Proof. destruct b; auto. Qed.

Lemma safe_repeatM {A} n k (m : R A) Q :
  safe k m Q -> safe (n * k) (repeatM n m) (fun l => length l = n /\ Forall Q l).
Proof.
  intros Hm. induction n as [|n IH]; simpl.
  - by apply safe_ret.
  - eapply safe_bind; [exact Hm|]. intros a Ha.
    eapply safe_bind; [exact IH|]. intros l [Hl HF].
    apply safe_ret; [lia|]. simpl. auto.
Qed.

Lemma safe_forM {A} (l : list A) (f : A -> R unit) Q :
  (forall x, x ∈ l -> safe 0 (f x) Q) -> safe 0 (forM l f) (fun _ => True).
Proof.
  induction l as [|x l IH]; intros H; simpl.
  - by apply safe_ret.
  - eapply safe_bind; [apply H; left|]. intros _ _. apply IH. intros y Hy. apply H. by right.
Qed.

Lemma safe_foldM {A B} (l : list A) (f : B -> A -> R B) Q b :
  (forall b x, Q b -> x ∈ l -> safe 0 (f b x) Q) -> Q b -> safe 0 (foldM l f b) Q.
Proof.
  revert b. induction l as [|x l IH]; intros b H Hb; simpl.
  - by apply safe_ret.
  - eapply safe_bind; [apply H; [done|left]|]. intros b' Hb'. apply IH; [|done].
    intros b2 y Hb2 Hy. apply H; [done|]. by right.
Qed.

Create HintDb safe discriminated.

(** Decompose a monadic decoder; leaves the arithmetic and the postconditions. *)
Ltac safe_step :=
  lazymatch goal with
  | |- safe _ (bind get _) _ => apply safe_get; intros
  | |- safe _ (bind _ _) _ => eapply safe_bind; [solve [eauto with safe nocore]|intros; cbv beta in *]
  | |- safe _ (let _ := _ in _) _ => cbv zeta
  | |- safe _ (if _ then _ else _) _ => apply safe_if; intros
  | |- safe _ (match ?x with _ => _ end) _ => destruct x eqn:?
  | |- safe _ (ret _) _ => apply safe_ret
  | |- safe _ (fail _) _ => apply safe_fail
  | |- safe _ (fail_at _ _) _ => apply safe_fail_at
  | |- safe _ _ _ =>
      solve [eauto with safe nocore
            | eapply safe_mono; [solve [eauto with safe nocore]|lia|tauto]]
  end.
Ltac safe_go := repeat safe_step.

(** ** The cursor operations *)

Lemma reader_ok_advance n r :
  reader_ok r -> Z.of_nat n <= reader.left r -> reader_ok (reader.advance n r).
Proof. intros [] Hn. unfold reader.left in Hn. split; simpl; [done|lia|done]. Qed.

Lemma reader_ext_advance k n r : (k <= n)%nat -> reader_ext k r (reader.advance n r).
Proof. intros. split; simpl; reflexivity || lia. Qed.

Lemma safe_byte : safe 1 rd.byte byte_ok.
Proof.
  intros r Hr. unfold rd.byte. destruct (_ !! _) as [b|] eqn:Hb.
  - pose proof (lookup_lt_Some _ _ _ Hb). split; [|split].
    + apply reader_ok_advance; [done|]. unfold reader.left. lia.
    + by apply reader_ext_advance.
    + by apply (Forall_lookup_1 _ _ _ _ (rok_bytes _ Hr) Hb).
  - split; [done|apply reader_ext_refl].
Qed.

Lemma safe_bytes n :
  safe (Z.to_nat n) (rd.bytes n) (fun l => 0 <= n /\ length l = Z.to_nat n /\ bytes_ok l).
Proof.
  intros r Hr. unfold rd.bytes. destruct (_ || _) eqn:Hn.
  - split; [done|apply reader_ext_refl].
  - bool_to_prop. unfold reader.left in *. split; [|split].
    + apply reader_ok_advance; [done|]. unfold reader.left. lia.
    + by apply reader_ext_advance.
    + split; [lia|]. split.
      * rewrite length_take, length_drop. pose proof (rok_pos _ Hr). lia.
      * apply Forall_take, Forall_drop, rok_bytes, Hr.
Qed.

Lemma safe_leb_loop k signed N acc shift : safe 1 (rd.leb_loop k signed N acc shift) (fun _ => True).
Proof.
  revert acc shift. induction k as [|k IH]; intros acc shift; simpl; [safe_go|].
  eapply safe_bind; [apply safe_byte|]. intros b _. cbv zeta.
  safe_go; try done.
  all: eapply safe_mono; [apply IH|lia|done].
Qed.

Lemma leb_reads_range signed N r r' x : leb_reads signed N r r' x -> leb_in_range signed N x.
Proof. intros (? & ? & _ & (_ & _ & _ & ?) & _). done. Qed.

(** The word returned is the residue of a value in the range of the width. *)
Lemma safe_leb signed N :
  1 <= N <= 64 ->
  safe 1 (rd.leb signed N) (fun v => exists x, v = x mod 2 ^ 64 /\ leb_in_range signed N x).
Proof.
  intros HN r Hr. pose proof (safe_leb_loop (Z.to_nat ((N + 6) / 7)) signed N 0 0 r Hr) as H.
  fold (rd.leb signed N) in H. destruct (rd.leb signed N r) as [[v|e|] r'] eqn:E; [|done|done].
  destruct H as (? & ? & _). split; [done|]. split; [done|].
  apply leb_spec in E as (x & Hx & Hl); [|apply Hr|done].
  exists x. eauto using leb_reads_range.
Qed.

Lemma safe_peeked {A} (f : Z -> A) (c : Z -> bool) (m : R A) Q :
  safe 1 m Q -> (forall b, byte_ok b -> c b = true -> Q (f b)) ->
  safe 1 (fun r => match reader.peek r with
                   | Some b => if c b then (Ok (f b), reader.advance 1 r) else m r
                   | None => m r
                   end) Q.
Proof.
  intros Hm Hf r Hr. specialize (Hm r Hr). unfold reader.peek.
  destruct (_ !! _) as [b|] eqn:Hb; [|done]. destruct (c b) eqn:Hc; [|done].
  pose proof (safe_byte r Hr) as H1. rewrite (byte_Some _ _ Hb) in H1.
  destruct H1 as (? & ? & ?). auto.
Qed.

Definition in_i32 (v : Z) : Prop := - 2 ^ 31 <= v < 2 ^ 31.
Definition in_i64 (v : Z) : Prop := - 2 ^ 63 <= v < 2 ^ 63.
Definition in_s33 (v : Z) : Prop := - 2 ^ 32 <= v < 2 ^ 32.

Lemma safe_u32 : safe 1 rd.u32 u32_ok.
Proof.
  apply safe_peeked.
  - eapply safe_bind; [by apply safe_leb|]. intros v _. apply safe_ret; [done|].
    apply to_u32_range.
  - unfold byte_ok, u32_ok. intros; bool_to_prop; lia.
Qed.

Lemma i32_small_range b :
  byte_ok b -> b < 128 ->
  (if negb (Z.land b 64 =? 0) then Z.lor b (Z.lnot 127) else b) = leb_value true [b].
Proof.
  unfold byte_ok. intros Hb Hlt. rewrite leb_value_single by lia. apply Z.eqb_eq.
  refine (Zrange_forallb (fun b =>
    (if negb (Z.land b 64 =? 0) then Z.lor b (Z.lnot 127) else b) =?
    (if true && (64 <=? b) then b - 128 else b)) 0 128 _ b ltac:(lia)).
  vm_compute. reflexivity.
Qed.

Lemma safe_i32 : safe 1 rd.i32 in_i32.
Proof.
  unfold in_i32. apply safe_peeked.
  - eapply safe_bind; [by apply safe_leb|]. intros v (x & -> & Hx).
    simpl in Hx. apply safe_ret; [done|]. rewrite to_i32_of_u64; simpl in *; lia.
  - intros b Hb Hlt. bool_to_prop. rewrite i32_small_range by done.
    unfold byte_ok in Hb. rewrite leb_value_single by lia. destruct (_ && _); lia.
Qed.

Lemma safe_u64 : safe 1 rd.u64 u64_ok.
Proof.
  eapply safe_mono; [by apply safe_leb|done|]. intros v (x & -> & _).
  apply Z.mod_pos_bound. lia.
Qed.

Lemma safe_u33 : safe 1 rd.u33 (fun v => 0 <= v < 2 ^ 33).
Proof.
  eapply safe_mono; [by apply safe_leb|done|]. intros v (x & -> & Hx). simpl in *.
  rewrite Z.mod_small; lia.
Qed.

Lemma safe_s33 : safe 1 rd.s33 in_s33.
Proof.
  eapply safe_bind; [by apply safe_leb|]. intros v (x & -> & Hx). simpl in Hx.
  apply safe_ret; [done|]. unfold in_s33. rewrite to_i64_of_u64; lia.
Qed.

Lemma safe_i64 : safe 1 rd.i64 in_i64.
Proof.
  eapply safe_bind; [by apply safe_leb|]. intros v (x & -> & Hx). simpl in Hx.
  apply safe_ret; [done|]. unfold in_i64. rewrite to_i64_of_u64; lia.
Qed.

Lemma le_uint_range l : bytes_ok l -> 0 <= le_uint l < 2 ^ (8 * Z.of_nat (length l)).
Proof.
  induction l as [|b l IH]; intros H; [simpl; lia|].
  apply Forall_cons in H as [Hb H]. specialize (IH H). unfold byte_ok in Hb.
  simpl le_uint. rewrite lor_shiftl_add by lia.
  replace (8 * Z.of_nat (length (b :: l))) with (8 * Z.of_nat (length l) + 8) by (simpl length; lia).
  rewrite Z.pow_add_r by lia. lia.
Qed.

Lemma safe_le n k :
  n = Z.of_nat k -> safe k (let! b := rd.bytes n in ret (le_uint b)) (fun v => 0 <= v < 2 ^ (8 * n)).
Proof.
  intros ->. eapply safe_bind; [apply safe_bytes|]. intros l (_ & Hl & Hb).
  apply safe_ret; [lia|]. apply le_uint_range in Hb. rewrite Hl in Hb.
  by replace (Z.of_nat (Z.to_nat (Z.of_nat k))) with (Z.of_nat k) in Hb by lia.
Qed.

Lemma safe_le32 : safe 4 rd.le32 u32_ok.
Proof. by apply (safe_le 4 4). Qed.

Lemma safe_le64 : safe 8 rd.le64 u64_ok.
Proof. by apply (safe_le 8 8). Qed.

#[export] Hint Resolve safe_byte safe_bytes safe_u32 safe_i32 safe_u64 safe_u33 safe_s33
  safe_i64 safe_le32 safe_le64 : safe.

(** ** The metadata budget *)

Lemma reader_ok_with_budget b r :
  reader_ok r -> budget_ok b -> reader_ok (reader.with_budget b r).
Proof. intros [] ?. by split. Qed.

(** [reserve] charges exactly [count * width] bytes or fails without charging. *)
Lemma reserve_spec count width r :
  0 <= count -> 0 <= width -> budget_ok (rd.the_budget r) ->
  let b := rd.the_budget r in
  rd.reserve count width r =
  if count * width <=? remaining b
  then (Ok tt, reader.with_budget {| remaining := remaining b - count * width;
                                     types := types b; limits := limits b |} r)
  else (Err (EMetadataLimit (MaxMetadataBytes (limits b)) (reader.off r)),
        reader.with_budget b r).
Proof.
  intros Hc Hw Hb b. unfold rd.reserve. fold b.
  destruct Hb as [[Hr _] _]. fold b in Hr.
  destruct (width =? 0) eqn:Hz; simpl; bool_to_prop.
  - subst. rewrite Z.mul_0_r. by replace (0 <=? remaining b) with true by lia.
  - assert (Hd : (remaining b / width <? count) = negb (count * width <=? remaining b)).
    { apply eq_true_iff_eq. rewrite negb_true_iff, Z.ltb_lt, Z.leb_gt.
      pose proof (Z.div_mod (remaining b) width Hz).
      pose proof (Z.mod_pos_bound (remaining b) width ltac:(lia)). nia. }
    rewrite Hd. by destruct (count * width <=? remaining b).
Qed.

Lemma safe_reserve count width :
  0 <= count -> 0 <= width -> safe 0 (rd.reserve count width) (fun _ => True).
Proof.
  intros Hc Hw r Hr. rewrite reserve_spec by (done || apply Hr). cbv zeta.
  pose proof (rok_budget _ Hr) as Hb. unfold budget_ok in Hb.
  destruct (_ <=? _) eqn:E; bool_to_prop.
  - split; [|split; [|done]].
    + apply reader_ok_with_budget; [done|]. unfold budget_ok. simpl. nia.
    + split; simpl; reflexivity || nia.
  - split; [by apply reader_ok_with_budget|]. split; simpl; reflexivity || lia.
Qed.

Lemma safe_reserveDecodedSlice size n :
  0 <= size -> 0 <= n -> safe 0 (rd.reserveDecodedSlice size n) (fun _ => True).
Proof. intros. apply safe_reserve; lia. Qed.

Lemma safe_reserveMetadataStorage size n :
  0 <= size -> 0 <= n -> safe 0 (rd.reserveMetadataStorage size n) (fun _ => True).
Proof.
  intros. unfold rd.reserveMetadataStorage. apply safe_if; intros; [by apply safe_ret|].
  eapply safe_bind; [by apply safe_reserve|]. intros. apply safe_reserve; lia.
Qed.

Lemma safe_reserveType : safe 0 rd.reserveType (fun _ => True).
Proof.
  intros r Hr. unfold rd.reserveType. pose proof (rok_budget _ Hr) as Hb.
  unfold budget_ok in Hb. destruct (_ <=? _) eqn:E; bool_to_prop.
  - split; [by apply reader_ok_with_budget|]. split; simpl; reflexivity || lia.
  - split; [|split; [|done]].
    + apply reader_ok_with_budget; [done|]. unfold budget_ok. simpl. lia.
    + split; simpl; reflexivity || lia.
Qed.

Lemma safe_name : safe 1 rd.name (fun s => bytes_ok s /\ utf8_Valid s = true).
Proof.
  unfold rd.name. safe_step. safe_step. safe_step. safe_step.
  - safe_step.
  - eapply safe_bind; [apply safe_reserve; lia|]. intros. apply safe_ret; [lia|].
    bool_to_prop. tauto.
Qed.

(** Fewer elements than a 32-bit count can say. *)
Definition short {A} (l : list A) : Prop := Z.of_nat (length l) < 2 ^ 32.

Lemma safe_readVec_short {A} size k (fn : R A) Q :
  0 <= size -> safe k fn Q -> safe 1 (rd.readVec size fn) (fun l => Forall Q l /\ short l).
Proof.
  intros Hs Hf. unfold rd.readVec. eapply safe_bind; [apply safe_u32|]. intros n [Hn Hn2].
  eapply safe_bind; [by apply safe_reserveDecodedSlice|]. intros _ _.
  eapply safe_mono; [by apply safe_repeatM|lia|]. intros l [E ?]. split; [done|]. unfold short. lia.
Qed.

Lemma safe_readVec {A} size k (fn : R A) Q :
  0 <= size -> safe k fn Q -> safe 1 (rd.readVec size fn) (Forall Q).
Proof. intros Hs Hf. eapply safe_mono; [by eapply safe_readVec_short|lia|]. by intros l [? _]. Qed.

Lemma safe_readMetadataVec {A} size k (fn : R A) Q :
  0 <= size -> safe k fn Q -> safe 1 (rd.readMetadataVec size fn) (Forall Q).
Proof.
  intros Hs Hf. unfold rd.readMetadataVec. eapply safe_bind; [apply safe_u32|]. intros n [Hn _].
  safe_step. safe_step; [safe_step|].
  eapply safe_bind; [by apply safe_reserveMetadataStorage|]. intros _ _.
  eapply safe_mono; [by apply safe_repeatM|lia|]. by intros l [_ ?].
Qed.

#[export] Hint Resolve safe_reserveType safe_name : safe.
#[export] Hint Extern 1 (safe _ (rd.reserve _ _) _) =>
  apply safe_reserve; unfold u32_ok in *; lia : safe.
#[export] Hint Extern 1 (safe _ (rd.reserveDecodedSlice _ _) _) =>
  apply safe_reserveDecodedSlice; [done|unfold u32_ok in *; lia] : safe.
#[export] Hint Extern 1 (safe _ (rd.reserveMetadataStorage _ _) _) =>
  apply safe_reserveMetadataStorage; [done|unfold u32_ok in *; lia] : safe.
#[export] Hint Extern 1 (safe _ (rd.readVec _ _) _) =>
  eapply safe_readVec; [done|] : safe.
#[export] Hint Extern 1 (safe _ (rd.readMetadataVec _ _) _) =>
  eapply safe_readMetadataVec; [done|] : safe.
