(* ===== verification/ReaderExport.v ===== *)
(** * The exported cursor and the LEB128 encoders

    [reader_export.go]: [Reader], the cursor the back ends walk validated bodies
    with, and its own LEB128 reader [leb128]; the LEB128 encoders of
    [encode.go].  [leb128] is shown to accept the same encodings as [reader.leb]
    with the same values, and the encoders to produce the shortest encoding of
    their argument, so that both readers give it back. *)

From stdpp Require Import base tactics numbers list.
From Stdlib Require Import ZArith Lia.
From S2P Require Import Prelude Reader LebSpec ReaderLaws.
Local Open Scope Z_scope.

Module Reader_.

Record t : Set := { data : list Z; pos : nat }.

Definition NewReader (bytecode : list Z) : t := {| data := bytecode; pos := 0 |}.
Definition Offset_ (r : t) : Z := Z.of_nat (pos r).
Definition BytesLeft (r : t) : Z := Z.of_nat (length (data r)) - Z.of_nat (pos r).
Definition HasNext (r : t) : bool := 0 <? BytesLeft r.

Definition fail_here {A} (code : DecodeErrorCode) : M t error A :=
  fun r => (Err (decode_error code (Offset_ r)), r).

Definition JumpTo (p : Z) : M t error unit := fun r =>
  if (p <? 0) || (Z.of_nat (length (data r)) <? p) then fail_here ErrIndexOutOfBounds r
  else (Ok tt, {| data := data r; pos := Z.to_nat p |}).

(** The sum of two [int] values wraps at 64 bits. *)
Definition Step (count : Z) : M t error unit := fun r =>
  JumpTo (to_i64 (Offset_ r + count)) r.

Definition Byte : M t error Z := fun r =>
  match data r !! pos r with
  | None => fail_here ErrIndexOutOfBounds r
  | Some b => (Ok b, {| data := data r; pos := pos r + 1 |})
  end.

(** [r.data[old:r.pos]], which panics when [old > r.pos]. *)
Definition slice (old new : nat) (l : list Z) : option (list Z) :=
  if (old <=? new)%nat then Some (take (new - old) (drop old l)) else None.

Definition Bytes (n : Z) : M t error (list Z) :=
  let! r0 := get in
  Step n ;;;
  let! r1 := get in
  match slice (pos r0) (pos r1) (data r1) with
  | Some l => ret l
  | None => panic
  end.

(** [binary.LittleEndian.Uint32(r.data[old:])] reads the first bytes of the
    slice and panics when there are fewer. *)
Definition le_at (k old : nat) : M t error Z := fun r =>
  let l := take k (drop old (data r)) in
  if (length l =? k)%nat then (Ok (le_uint l), r) else (Panic, r).

Definition LEU32 : M t error Z :=
  let! r0 := get in Step 4 ;;; le_at 4 (pos r0).

Definition LEU64 : M t error Z :=
  let! r0 := get in Step 8 ;;; le_at 8 (pos r0).

(** The test on the byte that crosses [maxBits] ([over = bitsWritten -
    maxBits]), in 32-bit arithmetic. *)
Definition bad_byte (signedInt : bool) (over b : Z) : bool :=
  let bitMask := Z.land (to_u32 (Z.shiftl 0xFF (6 - over + 1))) 0x7F in
  if signedInt && negb (Z.land b (Z.shiftl 1 (6 - over)) =? 0)
  then negb (Z.land b bitMask =? bitMask)
  else negb (Z.land b bitMask =? 0).

(** [fuel] bounds the iterations; running out of it is a [Panic], which
    [leb128_agrees] rules out. *)
Fixpoint leb128_loop (fuel : nat) (signedInt : bool) (maxBits result bitsWritten : Z)
  : M t error Z :=
  match fuel with
  | O => panic
  | S fuel' =>
      let! b := Byte in
      if maxBits <=? bitsWritten then fail_here ErrMalformedLEB
      else
        let lowByte := Z.land b 0x7F in
        let result := Z.lor result (to_u64 (Z.shiftl lowByte bitsWritten)) in
        let bitsWritten := bitsWritten + 7 in
        if (maxBits <? bitsWritten) && bad_byte signedInt (bitsWritten - maxBits) b
        then fail_here ErrMalformedLEB
        else if negb (Z.land b 0x80 =? 0)
        then leb128_loop fuel' signedInt maxBits result bitsWritten
        else ret (if signedInt && negb (Z.land b 0x40 =? 0) && (bitsWritten <? 64)
                  then Z.lor result (to_u64 (Z.shiftl (2 ^ 64 - 1) bitsWritten))
                  else result)
  end.

Definition leb128 (signedInt : bool) (maxBits : Z) : M t error Z :=
  leb128_loop (S (Z.to_nat ((maxBits + 6) / 7))) signedInt maxBits 0 0.

Definition Peek (r : t) : option Z := data r !! pos r.

Definition U32 : M t error Z := fun r =>
  match Peek r with
  | Some b =>
      if b <? 0x80 then (Ok b, {| data := data r; pos := pos r + 1 |})
      else (let! v := leb128 false 32 in ret (to_u32 v)) r
  | None => (let! v := leb128 false 32 in ret (to_u32 v)) r
  end.

Definition U64 : M t error Z := leb128 false 64.

Definition S33 : M t error Z := let! v := leb128 true 33 in ret (to_i64 v).

Definition I32 : M t error Z := fun r =>
  match Peek r with
  | Some b =>
      if b <? 0x80 then
        (Ok (if negb (Z.land b 0x40 =? 0) then Z.lor b (Z.lnot 0x7f) else b),
         {| data := data r; pos := pos r + 1 |})
      else (let! v := leb128 true 32 in ret (to_i32 (to_u32 v))) r
  | None => (let! v := leb128 true 32 in ret (to_i32 (to_u32 v))) r
  end.

Definition I64 : M t error Z := let! v := leb128 true 64 in ret (to_i64 v).

Definition RefHeapType : M t error (bool * Z) :=
  let! r := get in
  let exact := match Peek r with Some b => b =? 0x62 | None => false end in
  (if exact then Byte else ret 0) ;;;
  let! heap := S33 in
  ret (exact, heap).

Definition SkipU32N (n : Z) : M t error unit :=
  repeatM (Z.to_nat n) U32 ;;; ret tt.

End Reader_.

(** ** Encoders (encode.go)

    The bytes appended to [*out].  The loops end after at most five and ten
    rounds, which the [fuel] is ([appendU32_encodes], [appendS64_encodes]). *)

Fixpoint appendU32_loop (fuel : nat) (v : Z) : list Z :=
  match fuel with
  | O => []
  | S fuel' =>
      let b := Z.land v 0x7f in
      let v := Z.shiftr v 7 in
      if v =? 0 then [b] else Z.lor b 0x80 :: appendU32_loop fuel' v
  end.

Definition appendU32 (v : Z) : list Z := appendU32_loop 5 v.

Fixpoint appendS64_loop (fuel : nat) (v : Z) : list Z :=
  match fuel with
  | O => []
  | S fuel' =>
      let b := Z.land v 0x7f in
      let v := Z.shiftr v 7 in
      let sign := negb (Z.land b 0x40 =? 0) in
      if ((v =? 0) && negb sign) || ((v =? -1) && sign)
      then [b] else Z.lor b 0x80 :: appendS64_loop fuel' v
  end.

Definition appendS64 (v : Z) : list Z := appendS64_loop 10 v.

Definition appendS32 (v : Z) : list Z := appendS64 v.

(** ** [leb128] against [leb] *)

(** The cursor of the decoder at the same place. *)
Definition as_reader (x : Reader_.t) : reader.t :=
  {| reader.data := Reader_.data x; reader.pos := Reader_.pos x; reader.budget := None |}.

Lemma bad_byte_leb_bad signed used b :
  1 <= used <= 6 -> byte_ok b ->
  Reader_.bad_byte signed (7 - used) b = leb_bad signed used (b mod 128).
Proof.
  intros Hu Hb. unfold byte_ok in Hb. apply eqb_true_iff.
  refine (Zrange_forallb
    (fun b => Bool.eqb (Reader_.bad_byte signed (7 - used) b) (leb_bad signed used (b mod 128)))
    0 256 _ b ltac:(lia)).
  refine (Zrange_forallb
    (fun used => forallb (fun i => Bool.eqb (Reader_.bad_byte signed (7 - used) (0 + Z.of_nat i))
       (leb_bad signed used ((0 + Z.of_nat i) mod 128))) (seq 0 256))
    1 6 _ used ltac:(lia)).
  destruct signed; vm_compute; reflexivity.
Qed.

Lemma bad_byte_guard signed N i b :
  byte_ok b -> 0 <= 7 * i < N ->
  (N <? 7 * i + 7) && Reader_.bad_byte signed (7 * i + 7 - N) b =
  (if N <? 7 * i + 7 then leb_bad signed (7 - (7 * i + 7 - N)) (b mod 128) else false).
Proof.
  intros Hb Hi. destruct (N <? 7 * i + 7) eqn:E; [|done]. simpl. bool_to_prop.
  rewrite <- bad_byte_leb_bad; [|lia|done]. f_equal. lia.
Qed.

(** After the last admissible byte the loop ends with an error. *)
Lemma leb128_loop_overrun k signed N acc sh x :
  N <= sh -> exists e x', Reader_.leb128_loop (S k) signed N acc sh x = (Err e, x').
Proof.
  intros Hsh. cbn. unfold bind, Reader_.Byte.
  destruct (_ !! _); [|by repeat eexists].
  replace (N <=? sh) with true by lia. by repeat eexists.
Qed.

(** One iteration of the loop of [leb128]. *)
Lemma leb128_loop_step k signed N acc i x b :
  Reader_.data x !! Reader_.pos x = Some b -> byte_ok b ->
  0 <= 7 * i < N -> N <= 64 -> 0 <= acc < 2 ^ (7 * i) ->
  let x1 := {| Reader_.data := Reader_.data x; Reader_.pos := Reader_.pos x + 1 |} in
  Reader_.leb128_loop (S k) signed N acc (7 * i) x =
  if if N <? 7 * i + 7 then leb_bad signed (7 - (7 * i + 7 - N)) (b mod 128) else false
  then Reader_.fail_here ErrMalformedLEB x1
  else if b <? 128
  then (Ok ((acc + 2 ^ (7 * i) * leb_value signed [b]) mod 2 ^ 64), x1)
  else Reader_.leb128_loop k signed N ((acc + b mod 128 * 2 ^ (7 * i)) mod 2 ^ 64)
         (7 * (i + 1)) x1.
Proof.
  intros Hb Hok Hi HN Hacc x1. cbn [Reader_.leb128_loop].
  unfold bind, Reader_.Byte. rewrite Hb. fold x1.
  replace (N <=? 7 * i) with false by lia.
  rewrite bad_byte_guard by (done || lia).
  destruct (if N <? 7 * i + 7 then _ else false); [done|].
  unfold byte_ok in Hok. rewrite land_7f, land_bit_128 by lia.
  destruct (b <? 128) eqn:Hlt; bool_to_prop; simpl.
  - unfold ret. rewrite (Z.mod_small b) by lia.
    rewrite <- (leb_last_value signed acc i b) by lia.
    by rewrite <- !andb_assoc, (andb_comm (negb _)).
  - rewrite lor_u64_shiftl by lia. f_equal. lia.
Qed.

Lemma leb128_loop_agrees k signed N acc i x v y :
  bytes_ok (Reader_.data x) -> 0 <= 7 * i < N -> N <= 64 ->
  0 <= acc < 2 ^ (7 * i) -> Z.of_nat k = (N - 7 * i + 6) / 7 ->
  Reader_.leb128_loop (S k) signed N acc (7 * i) x = (Ok v, y) <->
  rd.leb_loop k signed N acc (7 * i) (as_reader x) = (Ok v, as_reader y).
Proof.
  revert acc i x. induction k as [|k IH]; intros acc i x Hd Hi HN Hacc Hk.
  { assert (1 <= (N - 7 * i + 6) / 7) by (apply Z.div_le_lower_bound; lia). lia. }
  destruct (Reader_.data x !! Reader_.pos x) as [b|] eqn:Hb; last first.
  { cbn. unfold bind, Reader_.Byte, rd.byte. cbn. rewrite Hb. split; discriminate. }
  pose proof (Forall_lookup_1 _ _ _ _ Hd Hb) as Hok.
  rewrite (leb128_loop_step _ _ _ _ _ _ b) by done. cbv zeta.
  rewrite (leb_loop_step _ _ _ _ _ _ b) by done.
  unfold reader.advance. simpl reader.data. simpl reader.pos. simpl reader.budget.
  unfold byte_ok in Hok.
  destruct (b <? 128) eqn:Hlt; bool_to_prop.
  - rewrite (Z.mod_small b) by lia.
    destruct (if N <? 7 * i + 7 then _ else false); [split; discriminate|].
    destruct y as [yd yp]. unfold as_reader. simpl. split; intros [=]; by subst.
  - destruct (Z.le_gt_cases (N - 7 * i) 7) as [Hs|Hs].
    + assert (k = 0%nat) as ->.
      { assert ((N - 7 * i + 6) / 7 < 2) by (apply Z.div_lt_upper_bound; lia). lia. }
      match goal with |- context [Reader_.leb128_loop 1 ?s ?n ?a ?h ?z] =>
        destruct (leb128_loop_overrun 0 s n a h z ltac:(lia)) as (e & x' & ->) end.
      destruct (if N <? 7 * i + 7 then _ else false); split; discriminate.
    + replace (N <? 7 * i + 7) with false by lia.
      pose proof (Z.mod_pos_bound b 128 ltac:(lia)).
      assert (Hp : 2 ^ (7 * (i + 1)) = 128 * 2 ^ (7 * i)).
      { replace (7 * (i + 1)) with (7 * i + 7) by lia. rewrite Z.pow_add_r by lia. lia. }
      assert (H64 : 2 ^ (7 * (i + 1)) <= 2 ^ 64) by (apply Z.pow_le_mono_r; lia).
      rewrite (Z.mod_small (acc + _)) by nia.
      apply IH; [done|lia|lia|nia|].
      replace (N - 7 * i + 6) with (N - 7 * (i + 1) + 6 + 1 * 7) in Hk by lia.
      rewrite Z.div_add in Hk by lia. lia.
Qed.

Lemma leb128_agrees signed N x v y :
  bytes_ok (Reader_.data x) -> 1 <= N <= 64 ->
  Reader_.leb128 signed N x = (Ok v, y) <->
  rd.leb signed N (as_reader x) = (Ok v, as_reader y).
Proof.
  intros Hd HN. unfold Reader_.leb128, rd.leb.
  apply (leb128_loop_agrees _ signed N 0 0); [done|lia|lia|lia|].
  rewrite Z2Nat.id; [f_equal; lia|]. apply Z.div_pos; lia.
Qed.

(** The fuel of [leb128] is enough: the loop returns a value or an error. *)
Lemma leb128_loop_no_panic k signed N acc i x :
  0 <= 7 * i -> N <= 7 * (i + Z.of_nat k) ->
  fst (Reader_.leb128_loop (S k) signed N acc (7 * i) x) <> Panic.
Proof.
  revert acc i x. induction k as [|k IH]; intros acc i x Hi Hk.
  { destruct (leb128_loop_overrun 0 signed N acc (7 * i) x ltac:(lia)) as (e & x' & ->). done. }
  remember (S k) as n eqn:Hn. cbn [Reader_.leb128_loop]. unfold bind, Reader_.Byte.
  destruct (_ !! _) as [b|]; [|done]. destruct (_ <=? _); [done|].
  destruct (_ && _); [done|]. destruct (negb _); [|done].
  subst n. replace (7 * i + 7) with (7 * (i + 1)) by lia. apply IH; lia.
Qed.

Lemma leb128_no_panic signed N x :
  0 <= N -> fst (Reader_.leb128 signed N x) <> Panic.
Proof.
  intros HN. apply (leb128_loop_no_panic _ signed N 0 0); [lia|].
  rewrite Z2Nat.id by (apply Z.div_pos; lia).
  pose proof (Z.div_mod (N + 6) 7 ltac:(lia)). pose proof (Z.mod_pos_bound (N + 6) 7 ltac:(lia)).
  lia.
Qed.

(** ** The encoders *)

Lemma lor_128 b : 0 <= b < 128 -> Z.lor b 128 = b + 128.
Proof. intros Hb. change 128 with (Z.shiftl 1 7) at 1. rewrite lor_shiftl_add by lia. lia. Qed.

Lemma shiftr_7 v : Z.shiftr v 7 = v / 128.
Proof. rewrite Z.shiftr_div_pow2 by lia. reflexivity. Qed.

Lemma land_bit_64_mod v : (Z.land (v mod 128) 64 =? 0) = negb (64 <=? v mod 128).
Proof. apply land_bit_64, Z.mod_pos_bound. lia. Qed.

(** A multi-byte encoding put together from its first byte and the rest. *)
Lemma leb_encodes_cons signed N b bs x :
  0 <= b < 128 -> 7 < N -> leb_encodes signed (N - 7) bs x ->
  leb_encodes signed N (b + 128 :: bs) (b + 128 * x).
Proof.
  intros Hb HN (Ht & Hl & -> & Hin).
  assert (Hne : bs <> []) by (intros ->; discriminate Ht).
  assert (HN7 : (N + 6) / 7 = (N - 7 + 6) / 7 + 1).
  { rewrite <- Z.div_add by lia. f_equal. lia. }
  assert (Hm : (b + 128) mod 128 = b).
  { replace (b + 128) with (b + 1 * 128) by lia. rewrite Z.mod_add, Z.mod_small by lia. lia. }
  split; [apply leb_terminated_cons_ge; [lia|done]|].
  split; [simpl; lia|]. rewrite leb_value_cons, Hm by done. split; [done|].
  rewrite <- Hm at 1. by apply leb_in_range_cons.
Qed.

Lemma leb_encodes_single signed N b :
  0 <= b < 128 -> 7 <= N -> leb_encodes signed N [b] (leb_value signed [b]).
Proof.
  intros Hb HN. split; [simpl; lia|]. split; [simpl; apply Z.div_le_lower_bound; lia|].
  split; [done|]. apply leb_in_range_single; lia.
Qed.

(** A width of [7 * n] bits is encoded in at most [n] bytes. *)
Lemma appendU32_loop_encodes n fuel v :
  (1 <= n <= fuel)%nat -> 0 <= v < 2 ^ (7 * Z.of_nat n) ->
  leb_encodes false (7 * Z.of_nat n) (appendU32_loop fuel v) v.
Proof.
  revert n v. induction fuel as [|fuel IH]; intros n v Hn Hv; [lia|].
  cbn [appendU32_loop]. rewrite land_7f, shiftr_7.
  pose proof (Z.div_mod v 128 ltac:(lia)). pose proof (Z.mod_pos_bound v 128 ltac:(lia)).
  destruct (v / 128 =? 0) eqn:Hq; bool_to_prop.
  - replace v with (v mod 128) at 2 by lia.
    replace (v mod 128) with (leb_value false [v mod 128]) at 2.
    + apply leb_encodes_single; lia.
    + by apply leb_value_single.
  - rewrite lor_128 by lia. destruct n as [|n]; [lia|].
    rewrite pow7_succ in Hv. destruct n as [|n]; [change (2 ^ (7 * Z.of_nat 0)) with 1 in Hv; lia|].
    replace v with (v mod 128 + 128 * (v / 128)) at 3 by lia.
    apply leb_encodes_cons; [lia|lia|].
    replace (7 * Z.of_nat (S (S n)) - 7) with (7 * Z.of_nat (S n)) by lia.
    apply IH; [lia|lia].
Qed.

Lemma appendS64_loop_encodes n fuel v :
  (1 <= n <= fuel)%nat -> - 2 ^ (7 * Z.of_nat n - 1) <= v < 2 ^ (7 * Z.of_nat n - 1) ->
  leb_encodes true (7 * Z.of_nat n) (appendS64_loop fuel v) v.
Proof.
  revert n v. induction fuel as [|fuel IH]; intros n v Hn Hv; [lia|].
  cbn [appendS64_loop]. rewrite land_7f, shiftr_7, land_bit_64_mod, negb_involutive.
  pose proof (Z.div_mod v 128 ltac:(lia)). pose proof (Z.mod_pos_bound v 128 ltac:(lia)).
  destruct (_ || _) eqn:Hq.
  - assert (leb_value true [v mod 128] = v) as Hval.
    { rewrite leb_value_single by lia. simpl.
      apply orb_true_iff in Hq as [Hq|Hq]; bool_to_prop;
        destruct (64 <=? v mod 128) eqn:?; bool_to_prop; lia || congruence. }
    rewrite <- Hval at 2. apply leb_encodes_single; lia.
  - rewrite lor_128 by lia. destruct n as [|n]; [lia|].
    destruct n as [|n].
    { change (2 ^ (7 * Z.of_nat 1 - 1)) with 64 in Hv.
      destruct (64 <=? v mod 128) eqn:?; bool_to_prop; simpl in *; bool_to_prop; lia. }
    assert (Hp : 2 ^ (7 * Z.of_nat (S (S n)) - 1) = 128 * 2 ^ (7 * Z.of_nat (S n) - 1)).
    { replace (7 * Z.of_nat (S (S n)) - 1) with (7 + (7 * Z.of_nat (S n) - 1)) by lia.
      rewrite Z.pow_add_r by lia. reflexivity. }
    rewrite Hp in Hv.
    replace v with (v mod 128 + 128 * (v / 128)) at 3 by lia.
    apply leb_encodes_cons; [lia|lia|].
    replace (7 * Z.of_nat (S (S n)) - 7) with (7 * Z.of_nat (S n)) by lia.
    apply IH; [lia|]. split; [apply Z.div_le_lower_bound|apply Z.div_lt_upper_bound]; lia.
Qed.

(** Narrowing the width of an encoding to the width of its value. *)
Lemma leb_encodes_narrow signed N N' bs v :
  leb_encodes signed N bs v -> (N + 6) / 7 <= (N' + 6) / 7 -> leb_in_range signed N' v ->
  leb_encodes signed N' bs v.
Proof. intros (? & ? & ? & ?) ? ?. repeat split; done || lia. Qed.

Lemma appendU32_encodes v : 0 <= v < 2 ^ 32 -> leb_encodes false 32 (appendU32 v) v.
Proof.
  intros Hv. eapply leb_encodes_narrow; [apply (appendU32_loop_encodes 5); simpl; lia|done|done].
Qed.

Lemma appendS64_encodes v : in_i64 v -> leb_encodes true 64 (appendS64 v) v.
Proof.
  unfold in_i64. intros Hv.
  eapply leb_encodes_narrow; [apply (appendS64_loop_encodes 10); simpl; lia|done|done].
Qed.

Lemma appendS32_encodes v : in_i32 v -> leb_encodes true 32 (appendS32 v) v.
Proof.
  unfold in_i32. intros Hv.
  eapply leb_encodes_narrow; [apply (appendS64_loop_encodes 5); simpl; lia|done|done].
Qed.

Lemma appendS64_encodes_s33 v : in_s33 v -> leb_encodes true 33 (appendS64 v) v.
Proof.
  unfold in_s33. intros Hv.
  eapply leb_encodes_narrow; [apply (appendS64_loop_encodes 5); simpl; lia|done|done].
Qed.

(** An encoding of [n] bytes holds a value of [7 * n] bits. *)
Lemma leb_digits_bound bs : 0 <= leb_digits bs < 2 ^ (7 * Z.of_nat (length bs)).
Proof.
  induction bs as [|b bs IH]; [simpl; lia|].
  simpl leb_digits. simpl length. rewrite pow7_succ.
  pose proof (Z.mod_pos_bound b 128 ltac:(lia)). lia.
Qed.

Lemma leb_value_bound signed bs :
  leb_terminated bs = true -> leb_in_range signed (7 * Z.of_nat (length bs)) (leb_value signed bs).
Proof.
  induction bs as [|b bs IH]; intros Ht; [discriminate Ht|].
  destruct (decide (bs = [])) as [->|Hne].
  - unfold leb_value, leb_in_range. simpl.
    pose proof (Z.mod_pos_bound b 128 ltac:(lia)).
    destruct signed; simpl; [|change (2 ^ (7 * 1)) with 128; lia].
    destruct (64 <=? b mod 128) eqn:?; bool_to_prop;
      change (Z.pow_pos 2 7) with 128; change (Z.pow_pos 2 6) with 64; lia.
  - rewrite leb_value_cons by done. destruct bs as [|c bs]; [done|].
    apply leb_in_range_cons; [simpl length; lia|].
    replace (7 * Z.of_nat (length (b :: c :: bs)) - 7) with (7 * Z.of_nat (length (c :: bs)))
      by (simpl length; lia).
    apply IH. simpl in Ht. by bool_to_prop.
Qed.

Lemma leb_encodes_length signed n bs v :
  leb_encodes signed (7 * Z.of_nat n) bs v -> (length bs <= n)%nat.
Proof.
  intros (_ & Hl & _ & _).
  replace (7 * Z.of_nat n + 6) with (6 + Z.of_nat n * 7) in Hl by lia.
  rewrite Z.div_add in Hl by lia. change (6 / 7) with 0 in Hl. lia.
Qed.

Lemma leb_terminated_nonempty bs : leb_terminated bs = true -> (1 <= length bs)%nat.
Proof. destruct bs; [discriminate|simpl; lia]. Qed.

(** ** What the readers of fixed width accept *)

Lemma leb_bind_spec {A} signed N (f : Z -> A) r (v : A) r' :
  bytes_ok (reader.data r) -> 1 <= N <= 64 ->
  (let! w := rd.leb signed N in ret (f w)) r = (Ok v, r') <->
  exists x, v = f (x mod 2 ^ 64) /\ leb_reads signed N r r' x.
Proof.
  intros Hd HN. unfold bind. split.
  - destruct (rd.leb signed N r) as [[w|e|] r1] eqn:E; [|discriminate..].
    apply leb_spec in E as (x & -> & Hx); [|done|done]. intros [= <- <-]. eauto.
  - intros (x & -> & Hx).
    assert (rd.leb signed N r = (Ok (x mod 2 ^ 64), r')) as ->; [|done].
    apply leb_spec; eauto.
Qed.

(** The one-byte fast path of [u32] and [i32] agrees with the general reader. *)
Lemma peek_fast_spec signed N f r v r' :
  bytes_ok (reader.data r) -> 7 <= N <= 64 ->
  (forall b, 0 <= b < 128 -> f b = leb_value signed [b]) ->
  forall b, reader.peek r = Some b -> b < 128 ->
  (Ok (f b), reader.advance 1 r) = (Ok v : outcome error Z, r') <-> leb_reads signed N r r' v.
Proof.
  intros Hd HN Hf b Hp Hb. unfold reader.peek in Hp.
  pose proof (Forall_lookup_1 _ _ _ _ Hd Hp) as Hok. unfold byte_ok in Hok.
  rewrite leb_reads_last; [|done|lia|lia]. rewrite <- Hf by lia. split.
  - intros [= <- <-]. split; [done|]. split; [done|]. rewrite Hf by lia.
    apply leb_in_range_single; lia.
  - by intros (-> & -> & _).
Qed.

Lemma leb_reads_bind_exact signed N (f : Z -> Z) r v r' :
  bytes_ok (reader.data r) -> 1 <= N <= 64 ->
  (forall x, leb_in_range signed N x -> f (x mod 2 ^ 64) = x) ->
  (let! w := rd.leb signed N in ret (f w)) r = (Ok v, r') <-> leb_reads signed N r r' v.
Proof.
  intros Hd HN Hf. rewrite leb_bind_spec by done. split.
  - intros (x & -> & Hx). rewrite Hf; [done|]. by eapply leb_reads_range.
  - intros Hx. exists v. rewrite Hf; [done|]. by eapply leb_reads_range.
Qed.

Lemma u32_of_u64 x : leb_in_range false 32 x -> to_u32 (x mod 2 ^ 64) = x.
Proof. unfold leb_in_range, to_u32. intros. rewrite (Z.mod_small x), Z.mod_small; lia. Qed.

Lemma u32_spec r v r' :
  bytes_ok (reader.data r) -> rd.u32 r = (Ok v, r') <-> leb_reads false 32 r r' v.
Proof.
  intros Hd. unfold rd.u32.
  pose proof (leb_reads_bind_exact false 32 to_u32 r v r' Hd ltac:(lia) u32_of_u64) as Hgen.
  destruct (reader.peek r) as [b|] eqn:Hp; [|done].
  destruct (b <? 128) eqn:Hb; bool_to_prop; [|done].
  apply (peek_fast_spec false 32 (fun b => b)); try done || lia.
  intros c Hc. by rewrite leb_value_single.
Qed.

Lemma i32_spec r v r' :
  bytes_ok (reader.data r) -> rd.i32 r = (Ok v, r') <-> leb_reads true 32 r r' v.
Proof.
  intros Hd. unfold rd.i32.
  pose proof (leb_reads_bind_exact true 32 to_i32 r v r' Hd ltac:(lia) to_i32_of_u64) as Hgen.
  destruct (reader.peek r) as [b|] eqn:Hp; [|done].
  destruct (b <? 128) eqn:Hb; bool_to_prop; [|done].
  apply (peek_fast_spec true 32
    (fun b => if negb (Z.land b 64 =? 0) then Z.lor b (Z.lnot 127) else b)); try done || lia.
  intros c Hc. apply i32_small_range; unfold byte_ok; lia.
Qed.

Lemma i64_spec r v r' :
  bytes_ok (reader.data r) -> rd.i64 r = (Ok v, r') <-> leb_reads true 64 r r' v.
Proof. intros Hd. by apply leb_reads_bind_exact; [| |apply to_i64_of_u64]. Qed.

Lemma s33_spec r v r' :
  bytes_ok (reader.data r) -> rd.s33 r = (Ok v, r') <-> leb_reads true 33 r r' v.
Proof.
  intros Hd. apply leb_reads_bind_exact; [done|done|]. unfold leb_in_range. intros x Hx.
  apply to_i64_of_u64. lia.
Qed.

Lemma u64_spec r v r' :
  bytes_ok (reader.data r) -> rd.u64 r = (Ok v, r') <-> leb_reads false 64 r r' v.
Proof.
  intros Hd. unfold rd.u64. rewrite leb_spec by (done || lia). split.
  - intros (x & -> & Hx). pose proof (leb_reads_range _ _ _ _ _ Hx) as Hr. simpl in Hr.
    by rewrite Z.mod_small by lia.
  - intros Hx. pose proof (leb_reads_range _ _ _ _ _ Hx) as Hr. simpl in Hr.
    exists v. by rewrite Z.mod_small by lia.
Qed.

(** ** Properties *)

(** The cursor at [bs] inside a buffer. *)
Definition cursor_at (pre bs rest : list Z) : reader.t :=
  {| reader.data := pre ++ bs ++ rest; reader.pos := length pre; reader.budget := None |}.

Lemma leb_reads_at signed N pre bs rest v :
  leb_encodes signed N bs v ->
  leb_reads signed N (cursor_at pre bs rest) (reader.advance (length bs) (cursor_at pre bs rest)) v.
Proof.
  intros He. exists bs, rest. split; [|done]. unfold cursor_at. simpl.
  by rewrite drop_app_length.
Qed.

Lemma appendU32_bytes v : bytes_ok (appendU32 v).
Proof.
  unfold appendU32. generalize 5%nat as n. intros n. revert v.
  induction n as [|n IH]; intros v; [constructor|]. cbn [appendU32_loop].
  pose proof (Z.mod_pos_bound v 128 ltac:(lia)).
  rewrite land_7f. destruct (_ =? _).
  - repeat constructor; lia.
  - rewrite lor_128 by lia. constructor; [unfold byte_ok; lia|]. apply IH.
Qed.

Lemma appendS64_bytes v : bytes_ok (appendS64 v).
Proof.
  unfold appendS64. generalize 10%nat as n. intros n. revert v.
  induction n as [|n IH]; intros v; [constructor|]. cbn [appendS64_loop].
  pose proof (Z.mod_pos_bound v 128 ltac:(lia)).
  rewrite land_7f. destruct (_ || _).
  - repeat constructor; lia.
  - rewrite lor_128 by lia. constructor; [unfold byte_ok; lia|]. apply IH.
Qed.

#[export] Hint Resolve appendU32_bytes appendS64_bytes : go.

Lemma cursor_at_bytes pre bs rest :
  bytes_ok pre -> bytes_ok bs -> bytes_ok rest -> bytes_ok (reader.data (cursor_at pre bs rest)).
Proof. intros. simpl. unfold bytes_ok in *. rewrite !Forall_app. auto. Qed.

(** C33: [reader.leb] at every width of at most 64 bits accepts exactly the LEB128
    encodings of the binary format (at most [ceil(N/7)] bytes, value in the range
    of the width, so no overlong or out-of-range encoding), consumes exactly the
    bytes of the encoding and returns the value as a 64-bit word. *)
Theorem leb_correct signed N r v r' :
  bytes_ok (reader.data r) -> 1 <= N <= 64 ->
  rd.leb signed N r = (Ok v, r') <->
  exists bs rest x,
    drop (reader.pos r) (reader.data r) = bs ++ rest /\
    leb_encodes signed N bs x /\ v = x mod 2 ^ 64 /\
    r' = reader.advance (length bs) r.
Proof.
  intros Hd HN. rewrite leb_spec by done. unfold leb_reads. split.
  - intros (x & -> & bs & rest & Hb & He & ->). by exists bs, rest, x.
  - intros (bs & rest & x & Hb & He & -> & ->). exists x. split; [done|]. by exists bs, rest.
Qed.

Lemma leb_correct_witness :
  rd.leb true 33 (cursor_at [0] [0x80; 0x7f] [1]) =
    (Ok (2 ^ 64 - 128), reader.advance 2 (cursor_at [0] [0x80; 0x7f] [1])).
Proof.
  apply leb_correct; [repeat constructor; lia|lia|].
  exists [0x80; 0x7f], [1], (-128). repeat split; vm_compute; congruence.
Defined.

(** C34: the exported cursor's [leb128], which the back ends read validated bodies
    with, returns a value exactly when the decoder's [leb] does, and then the
    same value at the same position; it never runs out of its iteration bound. *)
Theorem leb128_equiv signed N x v y :
  bytes_ok (Reader_.data x) -> 1 <= N <= 64 ->
  (Reader_.leb128 signed N x = (Ok v, y) <->
   rd.leb signed N (as_reader x) = (Ok v, as_reader y)) /\
  fst (Reader_.leb128 signed N x) <> Panic.
Proof.
  intros Hd HN. split; [by apply leb128_agrees|]. apply leb128_no_panic. lia.
Qed.

Lemma leb128_equiv_witness :
  let x := Reader_.NewReader [0xE5; 0x8E; 0x26] in
  Reader_.leb128 false 32 x = (Ok 624485, {| Reader_.data := [0xE5; 0x8E; 0x26]; Reader_.pos := 3 |}).
Proof.
  apply (leb128_equiv false 32); [repeat constructor; lia|lia|]. reflexivity.
Defined.

(** [u32] reads back what [appendU32] wrote, wherever it stands in a buffer,
    and no encoding of the same value is shorter than the one written. *)
Theorem appendU32_roundtrip pre rest v :
  bytes_ok pre -> bytes_ok rest -> u32_ok v ->
  let r := cursor_at pre (appendU32 v) rest in
  rd.u32 r = (Ok v, reader.advance (length (appendU32 v)) r) /\
  (forall bs, leb_encodes false 32 bs v -> (length (appendU32 v) <= length bs)%nat).
Proof.
  intros Hp Hr Hv r. pose proof (appendU32_encodes v Hv) as He. split.
  - apply u32_spec; [apply cursor_at_bytes; auto with go|]. by apply leb_reads_at.
  - intros bs (Ht & Hl & -> & Hin). apply (leb_encodes_length false _ _ (leb_value false bs)).
    change ((32 + 6) / 7) with 5 in Hl. pose proof (leb_terminated_nonempty _ Ht).
    apply appendU32_loop_encodes; [lia|]. apply (leb_value_bound false bs Ht).
Qed.

Lemma appendU32_roundtrip_witness :
  rd.u32 (cursor_at [7] (appendU32 624485) [9]) =
    (Ok 624485, reader.advance 3 (cursor_at [7] (appendU32 624485) [9])).
Proof.
  refine (proj1 (appendU32_roundtrip [7] [9] 624485 _ _ _));
    [repeat constructor; lia|repeat constructor; lia|unfold u32_ok; lia].
Defined.

(** The signed readers [i32], [s33] and [i64] read back what [appendS64]
    wrote for a value of their width, and no encoding of it is shorter. *)
Theorem appendS64_roundtrip pre rest v :
  bytes_ok pre -> bytes_ok rest -> in_i64 v ->
  let bs := appendS64 v in
  let r := cursor_at pre bs rest in
  let r' := reader.advance (length bs) r in
  rd.i64 r = (Ok v, r') /\
  (in_s33 v -> rd.s33 r = (Ok v, r')) /\
  (in_i32 v -> rd.i32 r = (Ok v, r')) /\
  (forall bs', leb_encodes true 64 bs' v -> (length bs <= length bs')%nat).
Proof.
  intros Hp Hr Hv bs r r'.
  assert (Hd : bytes_ok (reader.data r)) by (apply cursor_at_bytes; unfold bs; auto with go).
  split; [|split; [|split]].
  - apply i64_spec; [done|]. by apply leb_reads_at, appendS64_encodes.
  - intros H. apply s33_spec; [done|]. by apply leb_reads_at, appendS64_encodes_s33.
  - intros H. apply i32_spec; [done|]. by apply leb_reads_at, appendS32_encodes.
  - intros bs' (Ht & Hl & -> & Hin). apply (leb_encodes_length true _ _ (leb_value true bs')).
    change ((64 + 6) / 7) with 10 in Hl. pose proof (leb_terminated_nonempty _ Ht).
    apply appendS64_loop_encodes; [lia|]. apply (leb_value_bound true bs' Ht).
Qed.

Lemma appendS64_roundtrip_witness :
  rd.i32 (cursor_at [7] (appendS64 (-129)) [9]) =
    (Ok (-129), reader.advance 2 (cursor_at [7] (appendS64 (-129)) [9])).
Proof.
  refine (proj1 (proj2 (proj2 (appendS64_roundtrip [7] [9] (-129) _ _ _))) _);
    [repeat constructor; lia|repeat constructor; lia|unfold in_i64; lia|unfold in_i32; lia].
Defined.
