(* ===== verification/Types.v ===== *)
(** * Types of the front end (types.go)

    Value, reference, heap, storage and field types share one two-word packed
    encoding; type indexes, composite types, limits and external types are
    records, the last one packed again into flag bits.  The constructors and
    the accessors are the source's; the laws at the end show that the packed
    words behave as the tagged unions they stand for. *)

From stdpp Require Import base tactics numbers list.
From Stdlib Require Import ZArith Lia.
From S2P Require Import Prelude.
Local Open Scope Z_scope.

(** ** Byte codes *)

Definition NumI32 : Z := 0x7F.
Definition NumI64 : Z := 0x7E.
Definition NumF32 : Z := 0x7D.
Definition NumF64 : Z := 0x7C.

Definition HeapString : Z := 0x64.
Definition HeapExn : Z := 0x69.
Definition HeapArray : Z := 0x6A.
Definition HeapStruct : Z := 0x6B.
Definition HeapI31 : Z := 0x6C.
Definition HeapEq : Z := 0x6D.
Definition HeapAny : Z := 0x6E.
Definition HeapExtern : Z := 0x6F.
Definition HeapFunc : Z := 0x70.
Definition HeapNone : Z := 0x71.
Definition HeapNoExtern : Z := 0x72.
Definition HeapNoFunc : Z := 0x73.
Definition HeapNoExn : Z := 0x74.

(** [HeapTypeKind], [ValTypeKind], [CompTypeKind]: the values are fields of the
    packed words. *)
Definition HeapAbs : Z := 0.
Definition HeapTypeIndex : Z := 1.
Definition HeapDefType : Z := 2.
Definition heapBottom : Z := 3.

Definition ValNum : Z := 0.
Definition ValVec : Z := 1.
Definition ValRef : Z := 2.
Definition ValBot : Z := 3.

Definition CompArray : Z := 0.
Definition CompStruct : Z := 1.
Definition CompFunc : Z := 2.

Definition Const : Z := 0.
Definition Var : Z := 1.

Definition PackI16 : Z := 0x77.
Definition PackI8 : Z := 0x78.

(** ** The packed words *)

Record word2 : Set := mkWord { lo : Z; hi : Z }.

#[export] Instance word2_eq_dec : EqDecision word2.
Proof. solve_decision. Defined.

(** Go's [==] on the structs. *)
Definition word2_eqb (a b : word2) : bool := (lo a =? lo b) && (hi a =? hi b).

Definition HeapType := word2.
Definition RefType := word2.
Definition ValType := word2.
Definition StorageType := word2.
Definition FieldType := word2.

Definition heapKindShift : Z := 0.
Definition heapKindMask : Z := 0x3.
Definition heapAbsShift : Z := 8.
Definition heapAbsMask : Z := Z.shiftl 0xff heapAbsShift.
Definition typeRecBit : Z := Z.shiftl 1 16.
Definition defPresentBit : Z := Z.shiftl 1 17.
Definition defKindShift : Z := 18.
Definition defKindMask : Z := Z.shiftl 0x3 defKindShift.
Definition nullableBit : Z := Z.shiftl 1 20.
Definition exactBit : Z := Z.shiftl 1 21.
Definition bareBit : Z := Z.shiftl 1 22.
Definition defKindValidBit : Z := Z.shiftl 1 23.
Definition valKindShift : Z := 24.
Definition valKindMask : Z := Z.shiftl 0x3 valKindShift.
Definition numTypeShift : Z := 32.
Definition numTypeMask : Z := Z.shiftl 0xff numTypeShift.
Definition packedBit : Z := Z.shiftl 1 40.
Definition packTypeShift : Z := 41.
Definition packTypeMask : Z := Z.shiftl 0xff packTypeShift.
Definition mutableBit : Z := Z.shiftl 1 49.

(** [x & bit != 0] *)
Definition has_bit (x bit : Z) : bool := negb (Z.land x bit =? 0).

(** [if b { lo |= bit }] *)
Definition set_if (b : bool) (bit x : Z) : Z := if b then Z.lor x bit else x.

Record TypeIdx : Set := { Index : Z; Rec : bool }.

#[export] Instance TypeIdx_eq_dec : EqDecision TypeIdx.
Proof. solve_decision. Defined.

Definition TypeIdx_eqb (a b : TypeIdx) : bool :=
  (Index a =? Index b) && Bool.eqb (Rec a) (Rec b).

Record CompType : Set := {
  CKind : Z;
  Array : FieldType;
  Fields : list FieldType;
  Params : list ValType;
  Results : list ValType
}.

(** [OptionalTypeIdx]: bits 0..31 the index, bit 32 [Rec], bit 33 presence. *)
Definition OptionalTypeIdx := Z.

Definition optionalTypeIdxRec : Z := Z.shiftl 1 32.
Definition optionalTypeIdxPresent : Z := Z.shiftl 1 33.

Definition SomeTypeIdx (idx : TypeIdx) : OptionalTypeIdx :=
  set_if (Rec idx) optionalTypeIdxRec (Z.lor optionalTypeIdxPresent (Index idx)).

Definition OptionalTypeIdx_Get (o : OptionalTypeIdx) : TypeIdx * bool :=
  ({| Index := to_u32 o; Rec := has_bit o optionalTypeIdxRec |},
   has_bit o optionalTypeIdxPresent).

Definition OptionalTypeIdx_Present (o : OptionalTypeIdx) : bool :=
  has_bit o optionalTypeIdxPresent.

Record TypeMetadata : Set := { Describes : OptionalTypeIdx; Descriptor : OptionalTypeIdx }.

Record SubType : Set := {
  Final : bool;
  Supers : list TypeIdx;
  Metadata : TypeMetadata;
  Comp : CompType;
  HasPrefix : bool
}.

Record RecType : Set := { SubTypes : list SubType }.

Record DefType : Set := { DRec : RecType; DGroupIndex : Z; DIndex : Z }.

(** ** Heap types *)

Definition AbsHeap (abs : Z) : HeapType :=
  mkWord (Z.lor (Z.shiftl HeapAbs heapKindShift) (Z.shiftl abs heapAbsShift)) 0.

Definition IndexedHeap (idx : TypeIdx) : HeapType :=
  mkWord (set_if (Rec idx) typeRecBit (Z.shiftl HeapTypeIndex heapKindShift)) (Index idx).

Definition DefinedHeap (def : option DefType) : HeapType :=
  let l := Z.shiftl HeapDefType heapKindShift in
  match def with
  | None => mkWord l 0
  | Some d =>
      let l := Z.lor l defPresentBit in
      mkWord
        (match SubTypes (DRec d) !! Z.to_nat (DIndex d) with
         | Some st =>
             Z.lor l (Z.lor defKindValidBit (Z.shiftl (CKind (Comp st)) defKindShift))
         | None => l
         end)
        (Z.lor (DGroupIndex d) (Z.shiftl (DIndex d) 32))
  end.

Definition HeapType_Kind (h : HeapType) : Z :=
  Z.land (Z.shiftr (lo h) heapKindShift) heapKindMask.

Definition HeapType_Abs (h : HeapType) : Z :=
  Z.shiftr (Z.land (lo h) heapAbsMask) heapAbsShift.

Definition HeapType_Type (h : HeapType) : TypeIdx :=
  {| Index := to_u32 (hi h); Rec := has_bit (lo h) typeRecBit |}.

Definition HeapType_Def (h : HeapType) : Z * Z * Z * bool :=
  (to_u32 (hi h), to_u32 (Z.shiftr (hi h) 32),
   Z.shiftr (Z.land (lo h) defKindMask) defKindShift, has_bit (lo h) defPresentBit).

Definition HeapType_DefCompKind (h : HeapType) : Z * bool :=
  (Z.shiftr (Z.land (lo h) defKindMask) defKindShift, has_bit (lo h) defKindValidBit).

(** ** Reference types *)

Definition AbsRef (abs : Z) : RefType :=
  let h := AbsHeap abs in
  mkWord (Z.lor (Z.lor (lo h) nullableBit) bareBit) (hi h).

Definition Ref (nullable : bool) (heap : HeapType) (exact : bool) : RefType :=
  mkWord (set_if exact exactBit (set_if nullable nullableBit (lo heap))) (hi heap).

Definition RefType_Nullable (rt : RefType) : bool := has_bit (lo rt) nullableBit.
Definition RefType_Exact (rt : RefType) : bool := has_bit (lo rt) exactBit.
Definition RefType_Bare (rt : RefType) : bool := has_bit (lo rt) bareBit.

Definition heapMask : Z :=
  Z.lor heapKindMask (Z.lor heapAbsMask (Z.lor typeRecBit
    (Z.lor defPresentBit (Z.lor defKindMask defKindValidBit)))).

Definition RefType_Heap (rt : RefType) : HeapType :=
  mkWord (Z.land (lo rt) heapMask) (hi rt).

Definition RefType_WithNullable (rt : RefType) (nullable : bool) : RefType :=
  if nullable then mkWord (Z.lor (lo rt) nullableBit) (hi rt)
  else mkWord (Z.ldiff (lo rt) nullableBit) (hi rt).

Definition RefType_WithHeap (rt : RefType) (heap : HeapType) : RefType :=
  mkWord (Z.lor (lo heap)
            (Z.land (lo rt) (Z.lor nullableBit (Z.lor exactBit bareBit)))) (hi heap).

Definition RefType_IsDefaultable (rt : RefType) : bool := RefType_Nullable rt.

(** ** Value types *)

Definition newValType (kind num : Z) : ValType :=
  mkWord (Z.lor (Z.shiftl kind valKindShift) (Z.shiftl num numTypeShift)) 0.

Definition RefVal (rt : RefType) : ValType :=
  mkWord (Z.lor (lo rt) (Z.shiftl ValRef valKindShift)) (hi rt).

Definition I32 : ValType := newValType ValNum NumI32.
Definition I64 : ValType := newValType ValNum NumI64.
Definition F32 : ValType := newValType ValNum NumF32.
Definition F64 : ValType := newValType ValNum NumF64.
Definition V128 : ValType := newValType ValVec 0.
Definition Bot : ValType := newValType ValBot 0.
Definition FuncRef : ValType := RefVal (AbsRef HeapFunc).
Definition ExternRef : ValType := RefVal (AbsRef HeapExtern).
Definition AnyRef : ValType := RefVal (AbsRef HeapAny).
Definition EqRef : ValType := RefVal (AbsRef HeapEq).
Definition I31Ref : ValType := RefVal (AbsRef HeapI31).
Definition StringRef : ValType := RefVal (Ref true (AbsHeap HeapString) false).

Definition ValType_Kind (v : ValType) : Z :=
  Z.shiftr (Z.land (lo v) valKindMask) valKindShift.

Definition ValType_Num (v : ValType) : Z :=
  Z.shiftr (Z.land (lo v) numTypeMask) numTypeShift.

Definition ValType_Ref (v : ValType) : RefType :=
  mkWord (Z.ldiff (lo v) (Z.lor valKindMask (Z.lor numTypeMask
            (Z.lor packedBit (Z.lor packTypeMask mutableBit))))) (hi v).

(** ** Storage and field types *)

Definition StorageVal (v : ValType) : StorageType := v.

Definition StoragePacked (pack : Z) : StorageType :=
  mkWord (Z.lor packedBit (Z.shiftl pack packTypeShift)) 0.

Definition StorageType_Packed (s : StorageType) : bool := has_bit (lo s) packedBit.

Definition StorageType_Val (s : StorageType) : ValType :=
  mkWord (Z.ldiff (lo s) (Z.lor packedBit (Z.lor packTypeMask mutableBit))) (hi s).

Definition StorageType_Pack (s : StorageType) : Z :=
  Z.shiftr (Z.land (lo s) packTypeMask) packTypeShift.

Definition NewFieldType (storage : StorageType) (mut : Z) : FieldType :=
  mkWord (set_if (mut =? Var) mutableBit (lo storage)) (hi storage).

Definition FieldType_Storage (f : FieldType) : StorageType :=
  mkWord (Z.ldiff (lo f) mutableBit) (hi f).

Definition FieldType_Mut (f : FieldType) : Z :=
  if has_bit (lo f) mutableBit then Var else Const.

(** ** Limits and external types *)

Record Limits : Set := { Min : Z; Max : Z; HasMax : bool; Addr64 : bool }.
Record TagType : Set := { TagIdx_ : TypeIdx }.
Record GlobalType : Set := { GType : ValType; Mutable : bool }.
Record MemType : Set := { MLimits : Limits; Shared : bool }.
Record TableType : Set := { TRef : RefType; TLimits : Limits }.

Definition ExternFunc : Z := 0.
Definition ExternTable : Z := 1.
Definition ExternMem : Z := 2.
Definition ExternGlobal : Z := 3.
Definition ExternTag : Z := 4.

Record ExternType : Set := {
  EKind : Z;
  eflags : Z;
  eindex : Z;
  evalue : ValType;
  emin : Z;
  emax : Z
}.

Definition externTypeRecursive : Z := 1.
Definition externTypeHasMax : Z := 2.
Definition externTypeAddr64 : Z := 4.
Definition externTypeShared : Z := 8.
Definition externTypeMutable : Z := 16.

Definition zeroWord : word2 := mkWord 0 0.

Definition NewFuncExternType (t : TypeIdx) : ExternType :=
  {| EKind := ExternFunc; eflags := set_if (Rec t) externTypeRecursive 0;
     eindex := Index t; evalue := zeroWord; emin := 0; emax := 0 |}.

(** [setLimitFlags] on the flags of a fresh value. *)
Definition setLimitFlags (flags : Z) (l : Limits) : Z :=
  set_if (Addr64 l) externTypeAddr64 (set_if (HasMax l) externTypeHasMax flags).

Definition NewTableExternType (t : TableType) : ExternType :=
  {| EKind := ExternTable; eflags := setLimitFlags 0 (TLimits t); eindex := 0;
     evalue := RefVal (TRef t); emin := Min (TLimits t); emax := Max (TLimits t) |}.

Definition NewMemExternType (t : MemType) : ExternType :=
  {| EKind := ExternMem;
     eflags := set_if (Shared t) externTypeShared (setLimitFlags 0 (MLimits t));
     eindex := 0; evalue := zeroWord; emin := Min (MLimits t); emax := Max (MLimits t) |}.

Definition NewGlobalExternType (t : GlobalType) : ExternType :=
  {| EKind := ExternGlobal; eflags := set_if (Mutable t) externTypeMutable 0;
     eindex := 0; evalue := GType t; emin := 0; emax := 0 |}.

Definition NewTagExternType (t : TagType) : ExternType :=
  {| EKind := ExternTag; eflags := set_if (Rec (TagIdx_ t)) externTypeRecursive 0;
     eindex := Index (TagIdx_ t); evalue := zeroWord; emin := 0; emax := 0 |}.

Definition ExternType_limits (e : ExternType) : Limits :=
  {| Min := emin e; Max := emax e; HasMax := has_bit (eflags e) externTypeHasMax;
     Addr64 := has_bit (eflags e) externTypeAddr64 |}.

Definition ExternType_FuncType (e : ExternType) : TypeIdx :=
  {| Index := eindex e; Rec := has_bit (eflags e) externTypeRecursive |}.

Definition ExternType_TableType (e : ExternType) : TableType :=
  {| TRef := ValType_Ref (evalue e); TLimits := ExternType_limits e |}.

Definition ExternType_MemType (e : ExternType) : MemType :=
  {| MLimits := ExternType_limits e; Shared := has_bit (eflags e) externTypeShared |}.

Definition ExternType_GlobalType (e : ExternType) : GlobalType :=
  {| GType := evalue e; Mutable := has_bit (eflags e) externTypeMutable |}.

Definition ExternType_TagType (e : ExternType) : TagType :=
  {| TagIdx_ := {| Index := eindex e; Rec := has_bit (eflags e) externTypeRecursive |} |}.

(** ** Well-formed words

    A word is well formed for a type when it uses only the bits of the type and
    its second word is a 64-bit value. *)

Definition within (mask x : Z) : Prop := Z.land x mask = x.

Definition refMask : Z := Z.lor heapMask (Z.lor nullableBit (Z.lor exactBit bareBit)).

(** The bits of a value type that is not a reference: kind and numeric type. *)
Definition valMask : Z := Z.lor refMask (Z.lor valKindMask numTypeMask).

Definition heap_ok (h : HeapType) : Prop := within heapMask (lo h) /\ u64_ok (hi h).
Definition ref_ok (rt : RefType) : Prop := within refMask (lo rt) /\ u64_ok (hi rt).
Definition val_ok (v : ValType) : Prop := within valMask (lo v) /\ u64_ok (hi v).

(** ** Bit algebra *)

Lemma within_land mask x m : within mask x -> Z.land x m = Z.land x (Z.land mask m).
Proof. intros <-. rewrite <- !Z.land_assoc, (Z.land_assoc mask mask), Z.land_diag. done. Qed.

Lemma within_disjoint mask x m : within mask x -> Z.land mask m = 0 -> Z.land x m = 0.
Proof. intros H Hm. rewrite (within_land mask), Hm, Z.land_0_r by done. done. Qed.

Lemma within_sub mask mask' x : within mask x -> Z.land mask mask' = mask -> within mask' x.
Proof. intros H Hm. unfold within. rewrite (within_land mask), Hm by done. exact H. Qed.

Lemma within_lor mask x y : within mask x -> within mask y -> within mask (Z.lor x y).
Proof. unfold within. intros H1 H2. by rewrite Z.land_lor_distr_l, H1, H2. Qed.

Lemma within_land_l mask x y : within mask y -> within mask (Z.land x y).
Proof. unfold within. intros H. by rewrite <- Z.land_assoc, H. Qed.

Lemma within_set_if mask b bit x : within mask x -> within mask bit -> within mask (set_if b bit x).
Proof. intros. destruct b; simpl; [by apply within_lor|done]. Qed.

Lemma has_bit_set_if b bit x :
  bit <> 0 -> Z.land x bit = 0 -> has_bit (set_if b bit x) bit = b.
Proof.
  intros Hb Hx. unfold has_bit, set_if. destruct b.
  - rewrite Z.land_lor_distr_l, Hx, Z.land_diag, Z.lor_0_l.
    by replace (bit =? 0) with false by lia.
  - by rewrite Hx.
Qed.

Lemma has_bit_set_if_other b bit bit' x :
  Z.land bit bit' = 0 -> has_bit (set_if b bit x) bit' = has_bit x bit'.
Proof.
  intros Hb. unfold has_bit, set_if. destruct b; [|done].
  by rewrite Z.land_lor_distr_l, Hb, Z.lor_0_r.
Qed.

Lemma land_set_if b bit mask x :
  Z.land bit mask = 0 -> Z.land (set_if b bit x) mask = Z.land x mask.
Proof. intros H. destruct b; simpl; [|done]. by rewrite Z.land_lor_distr_l, H, Z.lor_0_r. Qed.

(** A field stored at [s] and read back. *)
Lemma field_read x w s :
  0 <= w -> 0 <= s -> 0 <= x < 2 ^ w ->
  Z.shiftr (Z.land (Z.shiftl x s) (Z.shiftl (Z.ones w) s)) s = x.
Proof.
  intros Hw Hs Hx. rewrite <- Z.shiftl_land, Z.shiftr_shiftl_l by lia.
  replace (s - s) with 0 by lia. rewrite Z.shiftl_0_r, Z.land_ones, Z.mod_small by lia. done.
Qed.

Lemma within_field x w s :
  0 <= w -> 0 <= s -> 0 <= x < 2 ^ w -> within (Z.shiftl (Z.ones w) s) (Z.shiftl x s).
Proof.
  intros. unfold within. rewrite <- Z.shiftl_land, Z.land_ones, Z.mod_small by lia. done.
Qed.

Lemma word2_eta w : mkWord (lo w) (hi w) = w.
Proof. by destruct w. Qed.
