(* ===== verification/TypesLaws.v ===== *)
(** * The packed types refine tagged unions

    The laws of the packed encoding of types.go: every accessor gives back what
    the constructor was given, whatever the other fields hold, and Go's [==] on
    the words is equality of the types they stand for. *)

From stdpp Require Import base tactics numbers list.
From Stdlib Require Import ZArith Lia.
From S2P Require Import Prelude Types.
Local Open Scope Z_scope.

(** Closes goals [Z.land c1 c2 = c3] on constants. *)
Ltac bits := first [reflexivity | discriminate | vm_compute; congruence].

(** A word within [mask] has nothing in the disjoint constant [m]. *)
Ltac disjoint H := apply (within_disjoint _ _ _ H); bits.

Definition idx_ok (i : TypeIdx) : Prop := u32_ok (Index i).

Lemma to_u32_ok x : u32_ok x -> to_u32 x = x.
Proof. apply to_u32_small. Qed.

(** ** Heap types *)

Lemma AbsHeap_ok abs :
  byte_ok abs -> heap_ok (AbsHeap abs) /\ HeapType_Kind (AbsHeap abs) = HeapAbs /\
  HeapType_Abs (AbsHeap abs) = abs.
Proof.
  unfold byte_ok. intros Ha.
  pose proof (within_field abs 8 8 ltac:(lia) ltac:(lia) ltac:(lia)) as Hw.
  split; [split|split].
  - apply within_lor; [bits|]. eapply within_sub; [exact Hw|bits].
  - unfold u64_ok. simpl. lia.
  - unfold HeapType_Kind, AbsHeap, heapKindShift. cbn [lo].
    rewrite Z.shiftr_0_r, Z.land_lor_distr_l. change (Z.land (Z.shiftl HeapAbs 0) heapKindMask) with 0.
    rewrite Z.lor_0_l. unfold heapAbsShift. disjoint Hw.
  - unfold HeapType_Abs, AbsHeap. cbn [lo]. rewrite Z.land_lor_distr_l.
    apply (field_read abs 8 8); lia.
Qed.

Lemma IndexedHeap_ok idx :
  idx_ok idx -> heap_ok (IndexedHeap idx) /\ HeapType_Kind (IndexedHeap idx) = HeapTypeIndex /\
  HeapType_Type (IndexedHeap idx) = idx.
Proof.
  intros Hi. unfold idx_ok, u32_ok in Hi. destruct idx as [i rec]. simpl in Hi.
  split; [split; [by destruct rec|unfold u64_ok; simpl; lia]|].
  split; [by destruct rec|]. unfold HeapType_Type, IndexedHeap. simpl.
  rewrite to_u32_small by lia. by destruct rec.
Qed.

(** What a [DefType] contributes to a heap type. *)
Definition def_kind (d : DefType) : option Z :=
  CKind ∘ Comp <$> SubTypes (DRec d) !! Z.to_nat (DIndex d).

Definition def_ok (d : DefType) : Prop :=
  u32_ok (DGroupIndex d) /\ u32_ok (DIndex d) /\
  forall k, def_kind d = Some k -> 0 <= k < 3.

Lemma u32_pair_split a b :
  u32_ok a -> u32_ok b ->
  to_u32 (Z.lor a (Z.shiftl b 32)) = a /\ to_u32 (Z.shiftr (Z.lor a (Z.shiftl b 32)) 32) = b /\
  u64_ok (Z.lor a (Z.shiftl b 32)).
Proof.
  unfold u32_ok, u64_ok. intros Ha Hb. rewrite lor_shiftl_add by lia. split; [|split].
  - unfold to_u32. rewrite Z.mod_add, Z.mod_small by lia. done.
  - rewrite Z.shiftr_div_pow2 by lia. rewrite Z.div_add, Z.div_small by lia.
    apply to_u32_small. lia.
  - change (2 ^ 64) with (2 ^ 32 * 2 ^ 32). nia.
Qed.

Lemma def_kind_cases k : 0 <= k < 3 -> k = 0 \/ k = 1 \/ k = 2.
Proof. lia. Qed.

Lemma DefinedHeap_Some_ok d :
  def_ok d -> heap_ok (DefinedHeap (Some d)) /\
  HeapType_Kind (DefinedHeap (Some d)) = HeapDefType /\
  HeapType_Def (DefinedHeap (Some d)) =
    (DGroupIndex d, DIndex d, default 0 (def_kind d), true) /\
  HeapType_DefCompKind (DefinedHeap (Some d)) =
    (default 0 (def_kind d), bool_decide (is_Some (def_kind d))).
Proof.
  intros (Hg & Hm & Hk).
  destruct (u32_pair_split _ _ Hg Hm) as (H1 & H2 & H3).
  unfold def_kind in *. unfold heap_ok, HeapType_Def, HeapType_DefCompKind, DefinedHeap.
  cbn [lo hi]. rewrite H1, H2.
  destruct (SubTypes (DRec d) !! Z.to_nat (DIndex d)) as [st|].
  - specialize (Hk _ eq_refl). simpl in Hk |- *.
    destruct (def_kind_cases _ Hk) as [-> | [-> | ->]]; by (split; [split; [bits|exact H3]|]).
  - by (split; [split; [bits|exact H3]|]).
Qed.

(** ** Reference types *)

Lemma Ref_ok nullable h exact :
  heap_ok h ->
  let rt := Ref nullable h exact in
  ref_ok rt /\ RefType_Nullable rt = nullable /\ RefType_Exact rt = exact /\
  RefType_Bare rt = false /\ RefType_Heap rt = h.
Proof.
  intros [Hw Hh] rt.
  assert (Hd : forall m, Z.land heapMask m = 0 -> Z.land (lo h) m = 0).
  { intros m Hm. by apply (within_disjoint _ _ _ Hw). }
  split; [split; [|done]|].
  { repeat apply within_set_if; [eapply within_sub; [exact Hw|bits]|bits|bits]. }
  unfold rt, RefType_Nullable, RefType_Exact, RefType_Bare, RefType_Heap, Ref. cbn [lo hi].
  split; [|split; [|split]].
  - rewrite has_bit_set_if_other by bits. apply has_bit_set_if; [bits|apply Hd; bits].
  - apply has_bit_set_if; [bits|]. rewrite land_set_if by bits. apply Hd; bits.
  - rewrite !has_bit_set_if_other by bits. unfold has_bit. by rewrite Hd by bits.
  - rewrite !land_set_if by bits. rewrite Hw. apply word2_eta.
Qed.

Lemma AbsRef_ok abs :
  byte_ok abs ->
  let rt := AbsRef abs in
  ref_ok rt /\ RefType_Nullable rt = true /\ RefType_Exact rt = false /\
  RefType_Bare rt = true /\ RefType_Heap rt = AbsHeap abs.
Proof.
  intros Ha rt. destruct (AbsHeap_ok abs Ha) as ([Hw Hh] & _).
  assert (Hd : forall m, Z.land heapMask m = 0 -> Z.land (lo (AbsHeap abs)) m = 0).
  { intros m Hm. by apply (within_disjoint _ _ _ Hw). }
  split; [split; [|done]|].
  { apply within_lor; [apply within_lor|]; [eapply within_sub; [exact Hw|bits]|bits|bits]. }
  unfold rt, RefType_Nullable, RefType_Exact, RefType_Bare, RefType_Heap, AbsRef, has_bit.
  cbv zeta. cbn [lo hi]. rewrite !Z.land_lor_distr_l, !Hd by bits.
  split; [reflexivity|]. split; [reflexivity|]. split; [reflexivity|].
  rewrite Hw. change (Z.land nullableBit heapMask) with 0. change (Z.land bareBit heapMask) with 0.
  rewrite !Z.lor_0_r. apply word2_eta.
Qed.

Lemma WithHeap_ok rt h :
  ref_ok rt -> heap_ok h ->
  let rt' := RefType_WithHeap rt h in
  ref_ok rt' /\ RefType_Nullable rt' = RefType_Nullable rt /\
  RefType_Exact rt' = RefType_Exact rt /\ RefType_Bare rt' = RefType_Bare rt /\
  RefType_Heap rt' = h.
Proof.
  intros [Hw _] [Hwh Hh] rt'.
  assert (Hd : forall m, Z.land heapMask m = 0 -> Z.land (lo h) m = 0).
  { intros m Hm. by apply (within_disjoint _ _ _ Hwh). }
  split; [split; [|done]|].
  { apply within_lor; [eapply within_sub; [exact Hwh|bits]|]. apply within_land_l. bits. }
  unfold rt', RefType_Nullable, RefType_Exact, RefType_Bare, RefType_Heap, RefType_WithHeap, has_bit.
  cbn [lo hi]. rewrite !Z.land_lor_distr_l, !Hd, !Z.lor_0_l, <- !Z.land_assoc by bits.
  split; [reflexivity|]. split; [reflexivity|]. split; [reflexivity|].
  rewrite Hwh. change (Z.land (Z.lor nullableBit (Z.lor exactBit bareBit)) heapMask) with 0.
  rewrite Z.land_0_r, Z.lor_0_r. apply word2_eta.
Qed.

Lemma WithNullable_ok rt b :
  ref_ok rt ->
  let rt' := RefType_WithNullable rt b in
  ref_ok rt' /\ RefType_Nullable rt' = b /\ RefType_Exact rt' = RefType_Exact rt /\
  RefType_Bare rt' = RefType_Bare rt /\ RefType_Heap rt' = RefType_Heap rt.
Proof.
  intros [Hw Hh] rt'. unfold rt', RefType_WithNullable.
  destruct b; unfold ref_ok, RefType_Nullable, RefType_Exact, RefType_Bare, RefType_Heap, has_bit;
    cbn [lo hi].
  - split; [split; [apply within_lor; [done|bits]|done]|].
    rewrite !Z.land_lor_distr_l, Z.land_diag.
    change (Z.land nullableBit exactBit) with 0. change (Z.land nullableBit bareBit) with 0.
    change (Z.land nullableBit heapMask) with 0. rewrite !Z.lor_0_r.
    split; [|done]. apply negb_true_iff, Z.eqb_neq. intros E.
    apply Z.lor_eq_0_iff in E as [_ E]. discriminate E.
  - rewrite !Z.ldiff_land, <- !Z.land_assoc.
    change (Z.land (Z.lnot nullableBit) nullableBit) with 0.
    change (Z.land (Z.lnot nullableBit) exactBit) with exactBit.
    change (Z.land (Z.lnot nullableBit) bareBit) with bareBit.
    change (Z.land (Z.lnot nullableBit) heapMask) with heapMask.
    rewrite Z.land_0_r. split; [|done]. split; [|done].
    unfold within. rewrite (Z.land_comm (lo rt)), <- Z.land_assoc. by rewrite Hw.
Qed.

(** ** Value, storage and field types *)

Lemma RefVal_ok rt :
  ref_ok rt ->
  val_ok (RefVal rt) /\ ValType_Kind (RefVal rt) = ValRef /\ ValType_Ref (RefVal rt) = rt.
Proof.
  intros [Hw Hh]. split; [split; [|done]|split].
  - apply within_lor; [eapply within_sub; [exact Hw|bits]|bits].
  - unfold ValType_Kind, RefVal. cbn [lo]. rewrite Z.land_lor_distr_l.
    rewrite (within_disjoint _ _ _ Hw) by bits. reflexivity.
  - unfold ValType_Ref, RefVal. cbn [lo hi]. rewrite Z.ldiff_land, Z.land_lor_distr_l.
    rewrite (within_land _ _ _ Hw).
    match goal with |- context [Z.land refMask ?m] => change (Z.land refMask m) with refMask end.
    rewrite Hw.
    match goal with |- context [Z.lor (lo rt) ?m] => change m with 0 end.
    rewrite Z.lor_0_r. apply word2_eta.
Qed.

Lemma newValType_ok kind num :
  0 <= kind < 4 -> byte_ok num ->
  val_ok (newValType kind num) /\ ValType_Kind (newValType kind num) = kind /\
  ValType_Num (newValType kind num) = num.
Proof.
  unfold byte_ok. intros Hk Hn.
  pose proof (within_field num 8 32 ltac:(lia) ltac:(lia) ltac:(lia)) as Hwn.
  pose proof (within_field kind 2 24 ltac:(lia) ltac:(lia) ltac:(lia)) as Hwk.
  split; [split; [|unfold u64_ok; simpl; lia]|split].
  - apply within_lor; [eapply within_sub; [exact Hwk|bits]|eapply within_sub; [exact Hwn|bits]].
  - unfold ValType_Kind, newValType, valKindShift, numTypeShift. cbn [lo]. rewrite Z.land_lor_distr_l.
    rewrite (within_disjoint _ (Z.shiftl num _) valKindMask Hwn) by bits.
    rewrite Z.lor_0_r. apply (field_read kind 2 24); lia.
  - unfold ValType_Num, newValType, valKindShift, numTypeShift. cbn [lo]. rewrite Z.land_lor_distr_l.
    rewrite (within_disjoint _ (Z.shiftl kind _) numTypeMask Hwk) by bits.
    apply (field_read num 8 32); lia.
Qed.

Lemma ldiff_outside mask x m : within mask x -> Z.land mask m = 0 -> Z.ldiff x m = x.
Proof.
  intros Hw Hm. apply Z.bits_inj'. intros i Hi. rewrite Z.ldiff_spec.
  destruct (Z.testbit x i) eqn:Hx; [|done]. simpl. apply negb_true_iff.
  assert (H0 : Z.testbit (Z.land mask m) i = false) by (rewrite Hm; apply Z.bits_0).
  rewrite <- Hw, Z.land_spec in Hx. apply andb_prop in Hx as [_ Hx].
  by rewrite Z.land_spec, Hx in H0.
Qed.

Lemma ldiff_set_if b bit m x : within m bit -> Z.ldiff (set_if b bit x) m = Z.ldiff x m.
Proof.
  unfold within. intros Hb. destruct b; simpl; [|done]. rewrite !Z.ldiff_land, Z.land_lor_distr_l.
  rewrite <- Hb at 1. rewrite <- Z.land_assoc, Z.land_lnot_diag, Z.land_0_r, Z.lor_0_r. done.
Qed.

(** A storage type is a value type or a packed integer. *)
Definition storageMask : Z := Z.lor valMask (Z.lor packedBit packTypeMask).
Definition storage_ok (s : StorageType) : Prop := within storageMask (lo s) /\ u64_ok (hi s).

Lemma StorageVal_ok v :
  val_ok v -> storage_ok (StorageVal v) /\ StorageType_Packed (StorageVal v) = false /\
  StorageType_Val (StorageVal v) = v.
Proof.
  intros [Hw Hh]. split; [split; [|done]|split].
  - eapply within_sub; [exact Hw|bits].
  - unfold StorageType_Packed, has_bit, StorageVal.
    by rewrite (within_disjoint _ _ _ Hw) by bits.
  - unfold StorageType_Val, StorageVal.
    rewrite (ldiff_outside _ _ _ Hw) by bits. apply word2_eta.
Qed.

Lemma StoragePacked_ok pack :
  byte_ok pack ->
  storage_ok (StoragePacked pack) /\ StorageType_Packed (StoragePacked pack) = true /\
  StorageType_Pack (StoragePacked pack) = pack.
Proof.
  unfold byte_ok. intros Hp.
  pose proof (within_field pack 8 41 ltac:(lia) ltac:(lia) ltac:(lia)) as Hw.
  split; [split; [|unfold u64_ok; simpl; lia]|split].
  - apply within_lor; [bits|]. eapply within_sub; [exact Hw|bits].
  - unfold StorageType_Packed, has_bit, StoragePacked, packTypeShift. cbn [lo].
    rewrite Z.land_lor_distr_l, (within_disjoint _ (Z.shiftl pack _) packedBit Hw) by bits.
    reflexivity.
  - unfold StorageType_Pack, StoragePacked. cbn [lo]. rewrite Z.land_lor_distr_l.
    change (Z.land packedBit packTypeMask) with 0. rewrite Z.lor_0_l.
    apply (field_read pack 8 41); lia.
Qed.

Lemma NewFieldType_ok s mut :
  storage_ok s -> mut = Const \/ mut = Var ->
  FieldType_Storage (NewFieldType s mut) = s /\ FieldType_Mut (NewFieldType s mut) = mut.
Proof.
  intros [Hw Hh] Hm. unfold FieldType_Storage, FieldType_Mut, NewFieldType. cbn [lo hi].
  rewrite ldiff_set_if, (ldiff_outside _ _ _ Hw) by bits.
  rewrite has_bit_set_if; [|bits|apply (within_disjoint _ _ _ Hw); bits].
  split; [apply word2_eta|]. by destruct Hm as [-> | ->].
Qed.

(** ** External types *)

Lemma ExternType_limits_ok l kind idx v (sh : bool) :
  let e := {| EKind := kind;
              eflags := set_if sh externTypeShared (setLimitFlags 0 l);
              eindex := idx; evalue := v; emin := Min l; emax := Max l |} in
  ExternType_limits e = l /\ has_bit (eflags e) externTypeShared = sh.
Proof.
  destruct l as [mn mx [] []], sh; split; reflexivity.
Qed.

(** ** The tagged unions the words stand for *)

Inductive heap_ty : Set :=
| HTabs (abs : Z)
| HTidx (idx : TypeIdx).

Inductive val_ty : Set :=
| VTnum (num : Z)
| VTvec
| VTbot
| VTbare (abs : Z)
| VTref (nullable exact : bool) (heap : heap_ty).

Inductive field_ty : Set :=
| FTpacked (pack : Z) (mutable : bool)
| FTval (v : val_ty) (mutable : bool).

#[export] Instance heap_ty_eq_dec : EqDecision heap_ty.
Proof. solve_decision. Defined.
#[export] Instance val_ty_eq_dec : EqDecision val_ty.
Proof. solve_decision. Defined.
#[export] Instance field_ty_eq_dec : EqDecision field_ty.
Proof. solve_decision. Defined.

Definition heap_ty_ok (h : heap_ty) : Prop :=
  match h with HTabs a => byte_ok a | HTidx i => idx_ok i end.

Definition val_ty_ok (t : val_ty) : Prop :=
  match t with
  | VTnum n => byte_ok n
  | VTvec | VTbot => True
  | VTbare a => byte_ok a
  | VTref _ _ h => heap_ty_ok h
  end.

Definition field_ty_ok (f : field_ty) : Prop :=
  match f with FTpacked p _ => byte_ok p | FTval v _ => val_ty_ok v end.

(** Packed with the constructors of the source. *)
Definition pack_heap (h : heap_ty) : HeapType :=
  match h with HTabs a => AbsHeap a | HTidx i => IndexedHeap i end.

Definition pack_val (t : val_ty) : ValType :=
  match t with
  | VTnum n => newValType ValNum n
  | VTvec => V128
  | VTbot => Bot
  | VTbare a => RefVal (AbsRef a)
  | VTref n e h => RefVal (Ref n (pack_heap h) e)
  end.

Definition pack_field (f : field_ty) : FieldType :=
  match f with
  | FTpacked p m => NewFieldType (StoragePacked p) (if m then Var else Const)
  | FTval v m => NewFieldType (StorageVal (pack_val v)) (if m then Var else Const)
  end.

(** Read with the accessors of the source. *)
Definition view_heap (h : HeapType) : heap_ty :=
  if HeapType_Kind h =? HeapAbs then HTabs (HeapType_Abs h) else HTidx (HeapType_Type h).

Definition view_val (v : ValType) : val_ty :=
  if ValType_Kind v =? ValNum then VTnum (ValType_Num v)
  else if ValType_Kind v =? ValVec then VTvec
  else if ValType_Kind v =? ValBot then VTbot
  else
    let rt := ValType_Ref v in
    if RefType_Bare rt then VTbare (HeapType_Abs (RefType_Heap rt))
    else VTref (RefType_Nullable rt) (RefType_Exact rt) (view_heap (RefType_Heap rt)).

Definition view_field (f : FieldType) : field_ty :=
  let s := FieldType_Storage f in
  let m := FieldType_Mut f =? Var in
  if StorageType_Packed s then FTpacked (StorageType_Pack s) m
  else FTval (view_val (StorageType_Val s)) m.

Lemma pack_heap_ok h : heap_ty_ok h -> heap_ok (pack_heap h).
Proof. destruct h; intros H; [apply AbsHeap_ok|apply IndexedHeap_ok]; done. Qed.

Lemma view_pack_heap h : heap_ty_ok h -> view_heap (pack_heap h) = h.
Proof.
  destruct h as [a|i]; intros H; unfold view_heap; simpl.
  - destruct (AbsHeap_ok a H) as (_ & -> & ->). done.
  - destruct (IndexedHeap_ok i H) as (_ & -> & ->). done.
Qed.

Lemma pack_val_ok t : val_ty_ok t -> val_ok (pack_val t).
Proof.
  destruct t as [n| | |a|nl ex h]; simpl; intros H.
  - by apply newValType_ok.
  - by apply newValType_ok.
  - by apply newValType_ok.
  - by apply RefVal_ok, AbsRef_ok.
  - by apply RefVal_ok, Ref_ok, pack_heap_ok.
Qed.

Lemma view_pack_val t : val_ty_ok t -> view_val (pack_val t) = t.
Proof.
  destruct t as [n| | |a|nl ex h]; simpl; intros H; try reflexivity; unfold view_val.
  - destruct (newValType_ok ValNum n ltac:(done) H) as (_ & -> & ->). done.
  - destruct (AbsRef_ok a H) as (Hr & _ & _ & Hb & Hh).
    destruct (RefVal_ok _ Hr) as (_ & -> & ->). simpl. rewrite Hb, Hh.
    destruct (AbsHeap_ok a H) as (_ & _ & ->). done.
  - destruct (Ref_ok nl _ ex (pack_heap_ok h H)) as (Hr & Hn & He & Hb & Hh).
    destruct (RefVal_ok _ Hr) as (_ & -> & ->). simpl.
    by rewrite Hb, Hn, He, Hh, view_pack_heap.
Qed.

Lemma view_pack_field f : field_ty_ok f -> view_field (pack_field f) = f.
Proof.
  assert (Hm : forall m : bool, (if m then Var else Const) = Const \/
                               (if m then Var else Const) = Var) by (intros []; auto).
  destruct f as [p m|v m]; simpl; intros H; unfold view_field.
  - destruct (StoragePacked_ok p H) as (Hs & Hp & Hk).
    destruct (NewFieldType_ok _ _ Hs (Hm m)) as [-> ->].
    rewrite Hp, Hk. by destruct m.
  - destruct (StorageVal_ok _ (pack_val_ok v H)) as (Hs & Hp & Hk).
    destruct (NewFieldType_ok _ _ Hs (Hm m)) as [-> ->].
    rewrite Hp, Hk, view_pack_val by done. by destruct m.
Qed.

Lemma word2_eqb_spec a b : word2_eqb a b = true <-> a = b.
Proof.
  destruct a, b. unfold word2_eqb. simpl. rewrite andb_true_iff, !Z.eqb_eq.
  split; [by intros [-> ->]|by intros [=]].
Qed.

(** C39: the packed two-word encoding is faithful: the accessors read back every
    field of a value or field type built by the constructors, so Go's [==] on
    the words decides equality of the types. *)
Theorem packed_types_faithful t1 t2 f1 f2 :
  val_ty_ok t1 -> val_ty_ok t2 -> field_ty_ok f1 -> field_ty_ok f2 ->
  view_val (pack_val t1) = t1 /\ view_field (pack_field f1) = f1 /\
  (word2_eqb (pack_val t1) (pack_val t2) = true <-> t1 = t2) /\
  (word2_eqb (pack_field f1) (pack_field f2) = true <-> f1 = f2).
Proof.
  intros H1 H2 H3 H4. split; [by apply view_pack_val|]. split; [by apply view_pack_field|].
  rewrite !word2_eqb_spec. split.
  - split; [|by intros ->]. intros E. by rewrite <- (view_pack_val t1), E, view_pack_val.
  - split; [|by intros ->]. intros E. by rewrite <- (view_pack_field f1), E, view_pack_field.
Qed.

Lemma packed_types_faithful_witness :
  word2_eqb (pack_val (VTref true false (HTidx {| Index := 7; Rec := true |})))
            (pack_val (VTref true false (HTidx {| Index := 7; Rec := false |}))) = false.
Proof.
  apply not_true_is_false. intros E.
  eapply (packed_types_faithful _ _ (FTpacked PackI8 true) (FTpacked PackI8 true)) in E;
    [discriminate E|unfold val_ty_ok, heap_ty_ok, idx_ok, u32_ok, field_ty_ok, byte_ok, PackI8;
      simpl; lia..].
Defined.

(** An external type built from a function, table, memory, global or tag type
    gives that type back: the flag bits of limits, sharing and mutability do not
    interfere. *)
Theorem extern_type_roundtrip f tb mm g tg :
  ref_ok (TRef tb) ->
  ExternType_FuncType (NewFuncExternType f) = f /\
  ExternType_TableType (NewTableExternType tb) = tb /\
  ExternType_MemType (NewMemExternType mm) = mm /\
  ExternType_GlobalType (NewGlobalExternType g) = g /\
  ExternType_TagType (NewTagExternType tg) = tg.
Proof.
  intros Hr. split; [by destruct f as [? []]|]. split; [|split; [|split]].
  - destruct tb as [rt l]. unfold ExternType_TableType. f_equal.
    + by apply RefVal_ok.
    + by apply (ExternType_limits_ok l ExternTable 0 (RefVal rt) false).
  - destruct mm as [l sh]. unfold ExternType_MemType. f_equal;
      by apply (ExternType_limits_ok l ExternMem 0 zeroWord sh).
  - by destruct g as [? []].
  - by destruct tg as [[? []]].
Qed.

Lemma extern_type_roundtrip_witness :
  let tb := {| TRef := AbsRef HeapFunc;
               TLimits := {| Min := 3; Max := 9; HasMax := true; Addr64 := true |} |} in
  ExternType_TableType (NewTableExternType tb) = tb.
Proof.
  refine (proj1 (proj2 (extern_type_roundtrip {| Index := 0; Rec := false |} _
    {| MLimits := {| Min := 0; Max := 0; HasMax := false; Addr64 := false |}; Shared := true |}
    {| GType := I32; Mutable := true |} {| TagIdx_ := {| Index := 1; Rec := true |} |} _))).
  by apply (AbsRef_ok HeapFunc).
Defined.
