(* ===== verification/Decode.v ===== *)
(** * Decoding of types and declarations (decode.go, decode_budget.go)

    One definition per decoder of the source, in the cursor monad.  The sizes
    passed to the budget are [unsafe.Sizeof] of the element types on a 64-bit
    target. *)

From stdpp Require Import base tactics numbers list.
From Stdlib Require Import ZArith Lia.
From S2P Require Import Prelude Reader Types.
Local Open Scope Z_scope.

Definition sizeof_TypeIdx : Z := 8.
Definition sizeof_ValType : Z := 16.
Definition sizeof_FieldType : Z := 16.
Definition sizeof_SubType : Z := 152.
Definition sizeof_RecType : Z := 24.
Definition sizeof_Import : Z := 72.
Definition sizeof_MemType : Z := 32.
Definition sizeof_TagType : Z := 8.
Definition sizeof_Export : Z := 24.
Definition sizeof_LocalRun : Z := 24.

(** [b, ok := r.peek()] *)
Definition peekM : R (option Z) := fun r => (Ok (reader.peek r), r).

(** [if b, ok := r.peek(); ok && p(b)] *)
Definition peek_is (p : Z -> bool) (o : option Z) : bool :=
  match o with Some b => p b | None => false end.

(** ** Value types *)

Definition isNumType (b : Z) : bool :=
  (b =? NumI32) || (b =? NumI64) || (b =? NumF32) || (b =? NumF64).

Definition decodeNumType : R Z :=
  let! b := rd.byte in
  if isNumType b then ret b else fail_at ErrInvalidType (-1).

Definition isAbsHeapByte (b : Z) : bool :=
  ((0x69 <=? b) && (b <=? 0x74)) || (b =? 0x64).

Definition decodeAbsHeapType : R Z :=
  let! b := rd.byte in
  if isAbsHeapByte b then ret b else fail_at ErrInvalidType (-1).

Definition decodeTypeIdx : R TypeIdx :=
  let! x := rd.u32 in ret {| Index := x; Rec := false |}.

Definition decodeS33TypeIdx : R TypeIdx :=
  let! x := rd.s33 in
  if x <? 0 then fail_at ErrInvalidType 0
  else ret {| Index := to_u32 x; Rec := false |}.

Definition decodeHeapType : R HeapType :=
  let! o := peekM in
  if peek_is (fun b => (b =? 0x64) || ((0x69 <=? b) && (b <=? 0x74))) o then
    let! a := decodeAbsHeapType in ret (AbsHeap a)
  else
    let! idx := decodeS33TypeIdx in ret (IndexedHeap idx).

Definition decodeRefHeapType : R (bool * HeapType) :=
  let! o := peekM in
  if peek_is (fun b => b =? 0x62) o then
    rd.byte ;;;
    let! idx := decodeS33TypeIdx in ret (true, IndexedHeap idx)
  else
    let! ht := decodeHeapType in ret (false, ht).

Definition decodeRefType : R RefType :=
  let! b := rd.byte in
  if b =? 0x63 then
    let! p := decodeRefHeapType in
    ret (Ref true (snd p) (fst p))
  else if b =? 0x64 then
    let! p := decodeRefHeapType in
    ret (Ref false (snd p) (fst p))
  else if (b =? 0x64) || ((0x69 <=? b) && (b <=? 0x74)) then ret (AbsRef b)
  else fail_at ErrInvalidType (-1).

(** The bytes that start a reference type in [decodeValType]. *)
Definition refTypeLeads : list Z :=
  [0x63; 0x64; 0x6f; 0x70; 0x6e; 0x6d; 0x6c; 0x6b; 0x6a; 0x69; 0x71; 0x72; 0x73; 0x74].

Definition decodeValType : R ValType :=
  let! o := peekM in
  match o with
  | None => fail_at ErrIndexOutOfBounds 0
  | Some b =>
      if existsb (Z.eqb b) [0x7f; 0x7e; 0x7d; 0x7c] then
        let! n := decodeNumType in ret (newValType ValNum n)
      else if b =? 0x7b then rd.byte ;;; ret V128
      else if existsb (Z.eqb b) refTypeLeads then
        let! rt := decodeRefType in ret (RefVal rt)
      else fail_at ErrInvalidType 0
  end.

Definition decodeResultType : R (list ValType) := rd.readVec sizeof_ValType decodeValType.

Definition decodeMut : R Z :=
  let! b := rd.byte in
  if (b =? 0) || (b =? 1) then ret b else fail_at ErrInvalidType (-1).

Definition decodeStorageType : R StorageType :=
  let! o := peekM in
  match o with
  | Some b =>
      if (b =? 0x77) || (b =? 0x78) then rd.byte ;;; ret (StoragePacked b)
      else let! vt := decodeValType in ret (StorageVal vt)
  | None => let! vt := decodeValType in ret (StorageVal vt)
  end.

Definition decodeFieldType : R FieldType :=
  let! st := decodeStorageType in
  let! m := decodeMut in
  ret (NewFieldType st m).

(** ** Composite and recursive types *)

Definition emptyCompType (kind : Z) : CompType :=
  {| CKind := kind; Array := zeroWord; Fields := []; Params := []; Results := [] |}.

Definition decodeCompType : R CompType :=
  let! b := rd.byte in
  if b =? 0x5e then
    let! ft := decodeFieldType in
    ret {| CKind := CompArray; Array := ft; Fields := []; Params := []; Results := [] |}
  else if b =? 0x5f then
    let! f := rd.readVec sizeof_FieldType decodeFieldType in
    ret {| CKind := CompStruct; Array := zeroWord; Fields := f; Params := []; Results := [] |}
  else if b =? 0x60 then
    let! p := decodeResultType in
    let! res := decodeResultType in
    ret {| CKind := CompFunc; Array := zeroWord; Fields := []; Params := p; Results := res |}
  else fail_at ErrInvalidType (-1).

(** Each round of the loop sets one of the two fields or fails, so three rounds
    are enough ([decodeTypeMetadata] never panics: [safe_decodeTypeMetadata]). *)
Fixpoint decodeTypeMetadata_loop (fuel : nat) (tm : TypeMetadata) : R TypeMetadata :=
  match fuel with
  | O => panic
  | S fuel' =>
      let! o := peekM in
      match o with
      | None => ret tm
      | Some b =>
          if negb (b =? 0x4c) && negb (b =? 0x4d) then ret tm
          else
            rd.byte ;;;
            let! idx := decodeTypeIdx in
            if b =? 0x4c then
              if OptionalTypeIdx_Present (Describes tm) || OptionalTypeIdx_Present (Descriptor tm)
              then fail_at ErrInvalidType 0
              else decodeTypeMetadata_loop fuel'
                     {| Describes := SomeTypeIdx idx; Descriptor := Descriptor tm |}
            else
              if OptionalTypeIdx_Present (Descriptor tm)
              then fail_at ErrInvalidType 0
              else decodeTypeMetadata_loop fuel'
                     {| Describes := Describes tm; Descriptor := SomeTypeIdx idx |}
      end
  end.

Definition decodeTypeMetadata : R TypeMetadata :=
  decodeTypeMetadata_loop 3 {| Describes := 0; Descriptor := 0 |}.

Definition decodeSubType : R SubType :=
  rd.reserveType ;;;
  let! o := peekM in
  match o with
  | None => fail_at ErrIndexOutOfBounds 0
  | Some b =>
      let hasPrefix := (b =? 0x4f) || (b =? 0x50) in
      let! supers :=
        (if hasPrefix then rd.byte ;;; rd.readVec sizeof_TypeIdx decodeTypeIdx
         else ret []) in
      let! meta := decodeTypeMetadata in
      let! ct := decodeCompType in
      ret {| Final := if hasPrefix then b =? 0x4f else true; Supers := supers;
             Metadata := meta; Comp := ct; HasPrefix := hasPrefix |}
  end.

Definition decodeRecType : R RecType :=
  let! o := peekM in
  if peek_is (fun b => b =? 0x4e) o then
    rd.byte ;;;
    let! sts := rd.readMetadataVec sizeof_SubType decodeSubType in
    ret {| SubTypes := sts |}
  else
    let! st := decodeSubType in
    ret {| SubTypes := [st] |}.

(** The loop of [decodeTypeSection]: [avail] is [len(singletons) - used]. *)
Fixpoint decodeTypeSection_loop (n : nat) (avail nextSlab : Z) : R (list RecType) :=
  match n with
  | O => ret []
  | S n' =>
      let! o := peekM in
      if peek_is (fun b => b =? 0x4e) o then
        let! g := decodeRecType in
        let! gs := decodeTypeSection_loop n' avail nextSlab in
        ret (g :: gs)
      else
        let fresh := avail =? 0 in
        let count := Z.min nextSlab (Z.of_nat n) in
        (if fresh then rd.reserveMetadataStorage sizeof_SubType (to_u32 count) else ret tt) ;;;
        let avail := if fresh then count else avail in
        let nextSlab := if fresh then Z.min (nextSlab * 2) 1024 else nextSlab in
        let! st := decodeSubType in
        let! gs := decodeTypeSection_loop n' (avail - 1) nextSlab in
        ret ({| SubTypes := [st] |} :: gs)
  end.

(** [if r.budget == nil { r.budget = newDecodeBudget(DecodeLimits{}) }] *)
Definition ensureBudget : R decodeBudget := fun r =>
  (Ok (rd.the_budget r), reader.with_budget (rd.the_budget r) r).

Definition decodeTypeSection : R (list RecType) :=
  let! n := rd.u32 in
  let! b := ensureBudget in
  let! r := get in
  if MaxTypes (limits b) <? n then fail (EGroupLimit (MaxTypes (limits b)))
  else if reader.left r <? n then fail_at ErrIndexOutOfBounds 0
  else
    rd.reserveMetadataStorage sizeof_RecType n ;;;
    decodeTypeSection_loop (Z.to_nat n) 0 16.

(** ** Limits, memories, tables, globals, tags *)

Definition decodeLimits : R Limits :=
  let! flag := rd.byte in
  if (flag =? 0x00) || (flag =? 0x01) then
    let! min := rd.u32 in
    if flag =? 0x01 then
      let! max := rd.u32 in
      ret {| Min := min; Max := max; HasMax := true; Addr64 := false |}
    else ret {| Min := min; Max := 0; HasMax := false; Addr64 := false |}
  else if (flag =? 0x04) || (flag =? 0x05) then
    let! min := rd.u64 in
    if flag =? 0x05 then
      let! max := rd.u64 in
      ret {| Min := min; Max := max; HasMax := true; Addr64 := true |}
    else ret {| Min := min; Max := 0; HasMax := false; Addr64 := true |}
  else fail_at ErrInvalidLimits (-1).

Definition decodeMemType : R MemType :=
  let! flag := rd.byte in
  let! r := get in
  let flagOffset := reader.off r - 1 in
  if (0 <=? flag) && (flag <=? 3) then
    let shared := (flag =? 2) || (flag =? 3) in
    let! min := rd.u32 in
    if flag =? 2 then fail (decode_error ErrInvalidLimits flagOffset)
    else if (flag =? 1) || (flag =? 3) then
      let! max := rd.u32 in
      ret {| MLimits := {| Min := min; Max := max; HasMax := true; Addr64 := false |};
             Shared := shared |}
    else
      ret {| MLimits := {| Min := min; Max := 0; HasMax := false; Addr64 := false |};
             Shared := shared |}
  else if (4 <=? flag) && (flag <=? 7) then
    let shared := (flag =? 6) || (flag =? 7) in
    let! min := rd.u64 in
    if flag =? 6 then fail (decode_error ErrInvalidLimits flagOffset)
    else if (flag =? 5) || (flag =? 7) then
      let! max := rd.u64 in
      ret {| MLimits := {| Min := min; Max := max; HasMax := true; Addr64 := true |};
             Shared := shared |}
    else
      ret {| MLimits := {| Min := min; Max := 0; HasMax := false; Addr64 := true |};
             Shared := shared |}
  else fail_at ErrInvalidLimits (-1).

Definition decodeTableType : R TableType :=
  let! rt := decodeRefType in
  let! lim := decodeLimits in
  ret {| TRef := rt; TLimits := lim |}.

Definition decodeGlobalType : R GlobalType :=
  let! vt := decodeValType in
  let! m := decodeMut in
  ret {| GType := vt; Mutable := m =? Var |}.

Definition decodeTagType : R TagType :=
  let! b := rd.byte in
  if negb (b =? 0) then fail_at ErrInvalidType (-1)
  else
    let! idx := decodeTypeIdx in ret {| TagIdx_ := idx |}.

(** ** Imports and exports *)

Definition decodeExternTypeKind (kind : Z) : R ExternType :=
  if kind =? ExternFunc then let! t := decodeTypeIdx in ret (NewFuncExternType t)
  else if kind =? ExternTable then let! t := decodeTableType in ret (NewTableExternType t)
  else if kind =? ExternMem then let! t := decodeMemType in ret (NewMemExternType t)
  else if kind =? ExternGlobal then let! t := decodeGlobalType in ret (NewGlobalExternType t)
  else if kind =? ExternTag then let! t := decodeTagType in ret (NewTagExternType t)
  else fail_at ErrInvalidImport (-1).

Definition decodeExternType : R ExternType :=
  let! k := rd.byte in decodeExternTypeKind k.

(** Go strings are byte lists. *)
Record Import : Set := { IModule : list Z; IName : list Z; IType : ExternType }.

(** The items of a compact group: each has a name, and its own type when the
    group is of kind 0x7f. *)
Definition decodeCompactItem (modname : list Z) (sharedType : option ExternType) : R Import :=
  let! field := rd.name in
  let! et := (match sharedType with
              | Some t => ret t
              | None => let! k := rd.byte in decodeExternTypeKind k
              end) in
  ret {| IModule := modname; IName := field; IType := et |}.

(** One encoded group: its imports, and whether it uses the compact form. *)
Definition decodeImportGroup : R (list Import * bool) :=
  let! modname := rd.name in
  let! name := rd.name in
  let! kindByte := rd.byte in
  if negb (bool_decide (name = [])) || (negb (kindByte =? 0x7e) && negb (kindByte =? 0x7f)) then
    let! et := decodeExternTypeKind kindByte in
    ret ([{| IModule := modname; IName := name; IType := et |}], false)
  else
    let! sharedType :=
      (if kindByte =? 0x7e then
         let! k := rd.byte in
         let! t := decodeExternTypeKind k in ret (Some t)
       else ret None) in
    let! count := rd.u32 in
    let! r := get in
    if reader.left r <? count then fail_at ErrIndexOutOfBounds 0
    else
      rd.reserveDecodedSlice sizeof_Import count ;;;
      let! items := repeatM (Z.to_nat count) (decodeCompactItem modname sharedType) in
      ret (items, true).

(** The section vector counts encoded groups, not expanded imports. *)
Definition decodeImports : R (list Import * bool) :=
  let! n := rd.u32 in
  rd.reserveDecodedSlice sizeof_Import n ;;;
  let! groups := repeatM (Z.to_nat n) decodeImportGroup in
  ret (concat (map fst groups), existsb snd groups).

Record ExternIdx : Set := { XKind : Z; XIndex : Z }.

Definition decodeExternIdx : R ExternIdx :=
  let! k := rd.byte in
  let! idx := rd.u32 in
  if 4 <? k then fail_at ErrInvalidExport 0
  else ret {| XKind := k; XIndex := idx |}.

Record Export : Set := { XName : list Z; XIdx : ExternIdx }.

Definition decodeExport : R Export :=
  let! nm := rd.name in
  let! idx := decodeExternIdx in
  ret {| XName := nm; XIdx := idx |}.

(** ** Local declarations *)

Record LocalRun : Set := { Count : Z; LType : ValType }.

(** The vector of runs with the running [total] of the closure. *)
Fixpoint decodeLocals_loop (n : nat) (total : Z) : R (list LocalRun) :=
  match n with
  | O => ret []
  | S n' =>
      let! c := rd.u32 in
      let! vt := decodeValType in
      if (2 ^ 32 - 1) - total <? c then fail_at ErrInvalidModule 0
      else
        let! rest := decodeLocals_loop n' (total + c) in
        ret ({| Count := c; LType := vt |} :: rest)
  end.

Definition decodeLocals : R (list LocalRun) :=
  let! n := rd.u32 in
  rd.reserveDecodedSlice sizeof_LocalRun n ;;;
  decodeLocals_loop (Z.to_nat n) 0.

(** ** Recursive type indexes (decode_recidx.go) *)

Definition markRecursiveTypeIdx (base limit : Z) (idx : TypeIdx) : TypeIdx :=
  if Rec idx || (Index idx <? base) || (limit <=? Index idx) then idx
  else {| Index := Index idx - base; Rec := true |}.

Definition markRecursiveRefTypeIndexes (base limit : Z) (rt : RefType) : RefType :=
  let heap := RefType_Heap rt in
  if negb (HeapType_Kind heap =? HeapTypeIndex) then rt
  else RefType_WithHeap rt (IndexedHeap (markRecursiveTypeIdx base limit (HeapType_Type heap))).

Definition markRecursiveValTypeIndexes (base limit : Z) (vt : ValType) : ValType :=
  if negb (ValType_Kind vt =? ValRef) then vt
  else RefVal (markRecursiveRefTypeIndexes base limit (ValType_Ref vt)).

Definition markRecursiveFieldTypeIndexes (base limit : Z) (ft : FieldType) : FieldType :=
  let storage := FieldType_Storage ft in
  if StorageType_Packed storage then ft
  else NewFieldType
         (StorageVal (markRecursiveValTypeIndexes base limit (StorageType_Val storage)))
         (FieldType_Mut ft).

Definition markRecursiveCompTypeIndexes (base limit : Z) (ct : CompType) : CompType :=
  if CKind ct =? CompFunc then
    {| CKind := CKind ct; Array := Array ct; Fields := Fields ct;
       Params := map (markRecursiveValTypeIndexes base limit) (Params ct);
       Results := map (markRecursiveValTypeIndexes base limit) (Results ct) |}
  else if CKind ct =? CompStruct then
    {| CKind := CKind ct; Array := Array ct;
       Fields := map (markRecursiveFieldTypeIndexes base limit) (Fields ct);
       Params := Params ct; Results := Results ct |}
  else if CKind ct =? CompArray then
    {| CKind := CKind ct; Array := markRecursiveFieldTypeIndexes base limit (Array ct);
       Fields := Fields ct; Params := Params ct; Results := Results ct |}
  else ct.

Definition markOptional (base limit : Z) (o : OptionalTypeIdx) : OptionalTypeIdx :=
  let (idx, ok) := OptionalTypeIdx_Get o in
  if ok then SomeTypeIdx (markRecursiveTypeIdx base limit idx) else o.

Definition markRecursiveSubTypeIndexes (base limit : Z) (st : SubType) : SubType :=
  {| Final := Final st;
     Supers := map (markRecursiveTypeIdx base limit) (Supers st);
     Metadata := {| Describes := markOptional base limit (Describes (Metadata st));
                    Descriptor := markOptional base limit (Descriptor (Metadata st)) |};
     Comp := markRecursiveCompTypeIndexes base limit (Comp st);
     HasPrefix := HasPrefix st |}.

Fixpoint markRecursiveTypeIndexes_from (base : Z) (types : list RecType) : list RecType :=
  match types with
  | [] => []
  | rt :: rest =>
      let limit := to_u32 (base + Z.of_nat (length (SubTypes rt))) in
      {| SubTypes := map (markRecursiveSubTypeIndexes base limit) (SubTypes rt) |}
      :: markRecursiveTypeIndexes_from limit rest
  end.

Definition markRecursiveTypeIndexes (types : list RecType) : list RecType :=
  markRecursiveTypeIndexes_from 0 types.
