(* ===== verification/DecodeLaws.v ===== *)
(** * Safety of the type and declaration decoders

    Every decoder of [Decode] is [safe]: on any input it returns a well-formed
    value or an error, reads forward only, stays within the buffer and within
    the metadata budget, and never panics. *)

From stdpp Require Import base tactics numbers list.
From Stdlib Require Import ZArith Lia.
From S2P Require Import Prelude Reader LebSpec ReaderLaws Types TypesLaws Decode.
Local Open Scope Z_scope.

(** The value types the binary format can express. *)
Definition heap_decodable (exact : bool) (h : heap_ty) : Prop :=
  match h with
  | HTabs a => exact = false /\ isAbsHeapByte a = true
  | HTidx i => u32_ok (Index i) /\ Rec i = false
  end.

Definition val_decodable (t : val_ty) : Prop :=
  match t with
  | VTnum n => isNumType n = true
  | VTvec => True
  | VTbot => False
  | VTbare a => 0x69 <= a <= 0x74
  | VTref _ e h => heap_decodable e h
  end.

Definition decoded_val (v : ValType) : Prop := exists t, val_decodable t /\ v = pack_val t.

Definition decoded_ref (rt : RefType) : Prop :=
  exists t, val_decodable t /\ RefVal rt = pack_val t /\ ref_ok rt.

Lemma isAbsHeapByte_byte b : isAbsHeapByte b = true -> byte_ok b.
Proof.
  unfold isAbsHeapByte, byte_ok. intros H. apply orb_true_iff in H as [H|H]; bool_to_prop; lia.
Qed.

Lemma isNumType_byte b : isNumType b = true -> byte_ok b.
Proof.
  unfold isNumType, byte_ok, NumI32, NumI64, NumF32, NumF64.
  intros H. rewrite !orb_true_iff, !Z.eqb_eq in H. lia.
Qed.

Lemma heap_decodable_ok e h : heap_decodable e h -> heap_ty_ok h.
Proof.
  destruct h; simpl.
  - intros [_ H]. by apply isAbsHeapByte_byte.
  - by intros [H _].
Qed.

Lemma val_decodable_ok t : val_decodable t -> val_ty_ok t.
Proof.
  destruct t; simpl.
  - apply isNumType_byte.
  - done.
  - done.
  - unfold byte_ok. lia.
  - apply heap_decodable_ok.
Qed.

Lemma decoded_val_ok v : decoded_val v -> val_ok v.
Proof. intros (t & Ht & ->). by apply pack_val_ok, val_decodable_ok. Qed.

Lemma safe_peekM : safe 0 peekM (fun o => forall b, o = Some b -> byte_ok b).
Proof.
  intros r Hr. split; [done|]. split; [apply reader_ext_refl|].
  intros b Hb. by apply (Forall_lookup_1 _ _ _ _ (rok_bytes _ Hr) Hb).
Qed.
#[export] Hint Resolve safe_peekM : safe.

Lemma safe_decodeNumType : safe 1 decodeNumType (fun n => isNumType n = true).
Proof. unfold decodeNumType. safe_go; done. Qed.

Lemma safe_decodeAbsHeapType : safe 1 decodeAbsHeapType (fun n => isAbsHeapByte n = true).
Proof. unfold decodeAbsHeapType. safe_go; done. Qed.

Definition plain_idx (i : TypeIdx) : Prop := u32_ok (Index i) /\ Rec i = false.

Lemma safe_decodeTypeIdx : safe 1 decodeTypeIdx plain_idx.
Proof. unfold decodeTypeIdx. safe_go; done. Qed.

Lemma safe_decodeS33TypeIdx : safe 1 decodeS33TypeIdx plain_idx.
Proof. unfold decodeS33TypeIdx. safe_go; [done|]. split; [apply to_u32_range|done]. Qed.

#[export] Hint Resolve safe_decodeNumType safe_decodeAbsHeapType safe_decodeTypeIdx
  safe_decodeS33TypeIdx : safe.

Lemma safe_decodeHeapType :
  safe 1 decodeHeapType (fun h => exists h', heap_decodable false h' /\ h = pack_heap h').
Proof.
  unfold decodeHeapType. safe_go; try done.
  - exists (HTabs a0). done.
  - exists (HTidx a0). done.
Qed.
#[export] Hint Resolve safe_decodeHeapType : safe.

Lemma safe_decodeRefHeapType :
  safe 1 decodeRefHeapType
    (fun p => exists h', heap_decodable (fst p) h' /\ snd p = pack_heap h').
Proof.
  unfold decodeRefHeapType. safe_go; try done.
  exists (HTidx a1). done.
Qed.
#[export] Hint Resolve safe_decodeRefHeapType : safe.

Lemma decoded_Ref n h e :
  heap_decodable e h -> decoded_ref (Ref n (pack_heap h) e).
Proof.
  intros H. exists (VTref n e h). split; [done|]. split; [done|].
  by apply Ref_ok, pack_heap_ok, (heap_decodable_ok e).
Qed.

Lemma safe_decodeRefType : safe 1 decodeRefType decoded_ref.
Proof.
  unfold decodeRefType. safe_go; try done.
  - destruct H1 as (h & Hh & ->). by apply decoded_Ref.
  - destruct H2 as (h & Hh & ->). by apply decoded_Ref.
  - assert (0x69 <= a <= 0x74).
    { apply orb_true_iff in H2 as [H2|H2]; bool_to_prop; [congruence|lia]. }
    exists (VTbare a). split; [done|]. split; [done|]. by apply AbsRef_ok.
Qed.
#[export] Hint Resolve safe_decodeRefType : safe.

Lemma safe_decodeValType : safe 1 decodeValType decoded_val.
Proof.
  unfold decodeValType. safe_go; try done.
  - by exists (VTnum a0).
  - by exists VTvec.
  - destruct H3 as (t & Ht & E & _). by exists t.
Qed.
#[export] Hint Resolve safe_decodeValType : safe.

Lemma safe_decodeResultType_short : safe 1 decodeResultType (fun l => Forall decoded_val l /\ short l).
Proof. unfold decodeResultType. eapply safe_readVec_short; [done|]. apply safe_decodeValType. Qed.

Lemma safe_decodeResultType : safe 1 decodeResultType (Forall decoded_val).
Proof. eapply safe_mono; [apply safe_decodeResultType_short|lia|]. by intros l [? _]. Qed.

Lemma safe_decodeMut : safe 1 decodeMut (fun m => m = Const \/ m = Var).
Proof.
  unfold decodeMut. safe_go; [done|]. apply orb_true_iff in H0 as [E|E]; bool_to_prop; auto.
Qed.
#[export] Hint Resolve safe_decodeResultType safe_decodeMut : safe.

(** A decoded field type is the packing of a storage type and a mutability. *)
Definition decoded_storage (s : StorageType) : Prop :=
  s = StoragePacked PackI8 \/ s = StoragePacked PackI16 \/ decoded_val s.

Definition decoded_field (f : FieldType) : Prop :=
  exists s m, decoded_storage s /\ (m = Const \/ m = Var) /\ f = NewFieldType s m.

Lemma decoded_storage_ok s : decoded_storage s -> storage_ok s.
Proof.
  intros [-> | [-> | H]]; [by apply StoragePacked_ok..|].
  by apply StorageVal_ok, decoded_val_ok.
Qed.

Lemma safe_decodeStorageType : safe 1 decodeStorageType decoded_storage.
Proof.
  unfold decodeStorageType. safe_go; try done.
  - apply orb_true_iff in H0 as [E|E]; bool_to_prop; subst; unfold decoded_storage; auto.
  - right; right; done.
  - right; right; done.
Qed.
#[export] Hint Resolve safe_decodeStorageType : safe.

Lemma safe_decodeFieldType : safe 2 decodeFieldType decoded_field.
Proof. unfold decodeFieldType. safe_go; [done|]. by eexists _, _. Qed.
#[export] Hint Resolve safe_decodeFieldType : safe.

(** ** Composite types and the type section *)

Record comp_decoded (ct : CompType) : Prop := {
  cd_kind : CKind ct = CompArray \/ CKind ct = CompStruct \/ CKind ct = CompFunc;
  cd_array : CKind ct = CompArray -> decoded_field (Array ct);
  cd_fields : Forall decoded_field (Fields ct);
  cd_params : Forall decoded_val (Params ct);
  cd_results : Forall decoded_val (Results ct);
  cd_short : short (Params ct) /\ short (Results ct) /\ short (Fields ct)
}.

Lemma short_nil {A} : short ([] : list A).
Proof. done. Qed.
#[export] Hint Resolve short_nil : core.

Lemma safe_decodeCompType : safe 2 decodeCompType comp_decoded.
Proof.
  unfold decodeCompType. safe_step. safe_step; [|safe_step].
  - safe_go; [done|]. split; simpl; auto.
  - eapply safe_bind; [eapply safe_readVec_short; [done|apply safe_decodeFieldType]|]. intros f [Hf Hs].
    apply safe_ret; [lia|]. split; simpl; auto; first [discriminate|split_and!; done].
  - safe_step; [|safe_step]. eapply safe_bind; [apply safe_decodeResultType_short|]. intros p [Hp Hp'].
    eapply safe_bind; [eapply safe_zero, safe_decodeResultType_short|]. intros res [Hr Hr'].
    apply safe_ret; [lia|]. split; simpl; auto; discriminate.
Qed.
#[export] Hint Resolve safe_decodeCompType : safe.

Lemma SomeTypeIdx_spec i :
  u32_ok (Index i) -> OptionalTypeIdx_Get (SomeTypeIdx i) = (i, true).
Proof.
  unfold u32_ok. intros Hi. destruct i as [x rec]. simpl in Hi.
  assert (E : SomeTypeIdx {| Index := x; Rec := rec |} =
              Z.lor x (Z.shiftl (if rec then 3 else 2) 32)).
  { destruct rec; unfold SomeTypeIdx; simpl set_if; rewrite (Z.lor_comm _ x); [|done].
    by rewrite <- Z.lor_assoc. }
  unfold OptionalTypeIdx_Get, has_bit. rewrite E.
  assert (Hx : forall n, 32 <= n -> Z.land x (Z.shiftl 1 n) = 0).
  { intros n Hn. apply Z.bits_inj'. intros k Hk. rewrite Z.land_spec, Z.bits_0.
    destruct (Z.eq_dec k n) as [->|Hne].
    - by rewrite (testbit_above x 32) by lia.
    - rewrite Z.shiftl_1_l, Z.pow2_bits_false by lia. apply andb_false_r. }
  unfold optionalTypeIdxRec, optionalTypeIdxPresent.
  rewrite !Z.land_lor_distr_l, !Hx by lia. f_equal; [|by destruct rec].
  f_equal; [|by destruct rec].
  rewrite lor_shiftl_add by lia. unfold to_u32. rewrite Z.mod_add, Z.mod_small by lia. done.
Qed.

Lemma SomeTypeIdx_Present i : u32_ok (Index i) -> OptionalTypeIdx_Present (SomeTypeIdx i) = true.
Proof. intros H. apply SomeTypeIdx_spec in H. by injection H. Qed.

(** Rounds left before both fields are set. *)
Definition metadata_rounds (tm : TypeMetadata) : nat :=
  if OptionalTypeIdx_Present (Descriptor tm) then 0
  else if OptionalTypeIdx_Present (Describes tm) then 1 else 2.

Lemma safe_decodeTypeMetadata_loop fuel tm :
  (metadata_rounds tm < fuel)%nat -> safe 0 (decodeTypeMetadata_loop fuel tm) (fun _ => True).
Proof.
  revert tm. induction fuel as [|fuel IH]; intros tm Hf; [lia|]. simpl.
  safe_step. safe_step; [|by apply safe_ret].
  safe_step; [by apply safe_ret|]. safe_step.
  eapply safe_bind; [eapply safe_zero, safe_decodeTypeIdx|]. intros idx [Hu _].
  pose proof (SomeTypeIdx_Present _ Hu) as Hp.
  destruct (z =? 0x4c); apply safe_if; intros Hb; try apply safe_fail_at;
    (eapply safe_mono; [apply IH|lia|done]); unfold metadata_rounds in *; simpl.
  - apply orb_false_elim in Hb as [Hb1 Hb2]. rewrite Hb1, Hb2 in Hf. rewrite Hb2, Hp. lia.
  - rewrite Hp. rewrite Hb in Hf. destruct (OptionalTypeIdx_Present (Describes tm)); lia.
Qed.

Lemma safe_decodeTypeMetadata : safe 0 decodeTypeMetadata (fun _ => True).
Proof. apply safe_decodeTypeMetadata_loop. vm_compute. lia. Qed.
#[export] Hint Resolve safe_decodeTypeMetadata : safe.

Record sub_decoded (st : SubType) : Prop := {
  sd_supers : Forall plain_idx (Supers st);
  sd_comp : comp_decoded (Comp st);
  sd_form : HasPrefix st = false -> Final st = true /\ Supers st = [];
  sd_short : short (Supers st)
}.

Lemma safe_decodeSubType : safe 2 decodeSubType sub_decoded.
Proof.
  unfold decodeSubType. safe_step. safe_step. safe_step; [|safe_step]. cbv zeta.
  eapply (safe_bind _ 0 _ _ (fun l => Forall plain_idx l /\
            ((z =? 0x4f) || (z =? 0x50) = false -> l = []) /\ short l)).
  - safe_step.
    + eapply safe_bind; [eapply safe_zero, safe_byte|]. intros b Hb.
      eapply safe_mono; [eapply safe_readVec_short; [done|apply safe_decodeTypeIdx]|lia|].
      intros l [Hl Hs]. split; [done|]. split; [congruence|done].
    + apply safe_ret; [done|]. split; [constructor|]. split; done.
  - intros l (Hl & Hnil & Hs). safe_go; [done|]. split; simpl; [done|done| |done].
    intros E. rewrite E. auto.
Qed.
#[export] Hint Resolve safe_decodeSubType : safe.

Definition rec_decoded (rt : RecType) : Prop := Forall sub_decoded (SubTypes rt).

Lemma safe_decodeRecType : safe 2 decodeRecType rec_decoded.
Proof.
  unfold decodeRecType. safe_step. safe_step.
  - eapply safe_bind; [apply safe_byte|]. intros b _.
    eapply safe_bind; [eapply safe_readMetadataVec; [done|apply safe_decodeSubType]|].
    intros sts Hs. by apply safe_ret.
  - safe_go; [done|]. by constructor.
Qed.
#[export] Hint Resolve safe_decodeRecType : safe.

Lemma safe_decodeTypeSection_loop n avail nextSlab :
  0 <= nextSlab ->
  safe n (decodeTypeSection_loop n avail nextSlab)
    (fun l => length l = n /\ Forall rec_decoded l).
Proof.
  revert avail nextSlab. induction n as [|n IH]; intros avail nextSlab Hs.
  - by apply safe_ret.
  - cbn [decodeTypeSection_loop]. safe_step. safe_step.
    + eapply safe_bind; [apply safe_decodeRecType|]. intros g Hg.
      eapply safe_bind; [eapply safe_mono; [by apply IH|reflexivity|done]|].
      intros gs [Hl Hgs]. apply safe_ret; [lia|]. simpl. auto.
    + cbv zeta. eapply (safe_bind _ 0 _ _ (fun _ => True)).
      * safe_step; [|by apply safe_ret].
        apply safe_reserveMetadataStorage; [done|apply to_u32_range].
      * intros _ _. eapply safe_bind; [apply safe_decodeSubType|]. intros st Hst.
        eapply safe_bind; [apply IH; destruct (avail =? 0); lia|].
        intros gs [Hl Hgs]. apply safe_ret; [lia|]. simpl. split; [lia|].
        constructor; [by constructor|done].
Qed.

Lemma safe_ensureBudget : safe 0 ensureBudget (fun _ => True).
Proof.
  intros r Hr. split; [apply reader_ok_with_budget; [done|apply Hr]|].
  split; [|done]. split; simpl; reflexivity || lia.
Qed.
#[export] Hint Resolve safe_ensureBudget : safe.

Lemma safe_decodeTypeSection : safe 1 decodeTypeSection (Forall rec_decoded).
Proof.
  unfold decodeTypeSection. do 5 safe_step; [safe_step|]. safe_step.
  eapply safe_mono; [by apply safe_decodeTypeSection_loop|lia|]. by intros l [_ ?].
Qed.
#[export] Hint Resolve safe_decodeTypeSection : safe.

(** ** Limits, memories, tables, globals, tags *)

(** The bounds fit the address width. *)
Definition limits_decoded (l : Limits) : Prop :=
  (if Addr64 l then u64_ok (Min l) /\ u64_ok (Max l) else u32_ok (Min l) /\ u32_ok (Max l)) /\
  (HasMax l = false -> Max l = 0).

Lemma safe_decodeLimits : safe 2 decodeLimits limits_decoded.
Proof.
  unfold decodeLimits. safe_go; try done;
    (split; simpl; [split; [done|]|]; done || (unfold u32_ok, u64_ok; lia)).
Qed.

(** A shared memory always has a maximum. *)
Definition mem_decoded (m : MemType) : Prop :=
  limits_decoded (MLimits m) /\ (Shared m = true -> HasMax (MLimits m) = true).

Lemma safe_decodeMemType : safe 2 decodeMemType mem_decoded.
Proof.
  unfold decodeMemType. safe_go; try done;
    (split; [split; simpl; [split; [done|]|]; done || (unfold u32_ok, u64_ok; lia)|]);
    simpl; try done.
  all: intros E; rewrite orb_true_iff, !Z.eqb_eq in E; bool_to_prop; lia.
Qed.
#[export] Hint Resolve safe_decodeLimits safe_decodeMemType : safe.

Definition table_decoded (t : TableType) : Prop :=
  decoded_ref (TRef t) /\ limits_decoded (TLimits t).

Lemma safe_decodeTableType : safe 3 decodeTableType table_decoded.
Proof. unfold decodeTableType. by safe_go. Qed.

Lemma safe_decodeGlobalType : safe 2 decodeGlobalType (fun g => decoded_val (GType g)).
Proof. unfold decodeGlobalType. by safe_go. Qed.

Lemma safe_decodeTagType : safe 2 decodeTagType (fun t => plain_idx (TagIdx_ t)).
Proof. unfold decodeTagType. by safe_go. Qed.
#[export] Hint Resolve safe_decodeTableType safe_decodeGlobalType safe_decodeTagType : safe.

(** ** Imports, exports, locals *)

(** The external type is the packing of a decoded type of its kind. *)
Definition extern_decoded (e : ExternType) : Prop :=
  (exists t, plain_idx t /\ e = NewFuncExternType t) \/
  (exists t, table_decoded t /\ e = NewTableExternType t) \/
  (exists t, mem_decoded t /\ e = NewMemExternType t) \/
  (exists t, decoded_val (GType t) /\ e = NewGlobalExternType t) \/
  (exists t, plain_idx (TagIdx_ t) /\ e = NewTagExternType t).

Lemma safe_decodeExternTypeKind kind : safe 1 (decodeExternTypeKind kind) extern_decoded.
Proof. unfold decodeExternTypeKind, extern_decoded. safe_go; done || eauto 10. Qed.
#[export] Hint Resolve safe_decodeExternTypeKind : safe.

Lemma safe_decodeExternType : safe 2 decodeExternType extern_decoded.
Proof.
  unfold decodeExternType. eapply safe_bind; [apply safe_byte|]. intros.
  apply safe_decodeExternTypeKind.
Qed.

Definition import_decoded (i : Import) : Prop :=
  utf8_Valid (IModule i) = true /\ utf8_Valid (IName i) = true /\ extern_decoded (IType i).

Lemma safe_decodeCompactItem m st :
  utf8_Valid m = true -> (forall t, st = Some t -> extern_decoded t) ->
  safe 1 (decodeCompactItem m st) import_decoded.
Proof.
  intros Hm Hst. unfold decodeCompactItem.
  eapply safe_bind; [apply safe_name|]. intros n [_ Hn].
  eapply (safe_bind _ 0 _ _ extern_decoded).
  - destruct st as [t|]; [apply safe_ret; auto|].
    eapply safe_zero, safe_decodeExternType.
  - intros et Het. by apply safe_ret.
Qed.

Lemma safe_decodeImportGroup :
  safe 3 decodeImportGroup (fun p => Forall import_decoded (fst p)).
Proof.
  unfold decodeImportGroup.
  eapply safe_bind; [apply safe_name|]. intros m [_ Hm].
  eapply safe_bind; [apply safe_name|]. intros n [_ Hn].
  eapply safe_bind; [apply safe_byte|]. intros k _. apply safe_if; intros _.
  - safe_go; [done|]. by constructor.
  - eapply (safe_bind _ 0 _ _ (fun o => forall t, o = Some t -> extern_decoded t)).
    + safe_go; try done. all: by intros t [= <-].
    + intros st Hst. do 3 safe_step; [safe_step|]. safe_step.
      eapply safe_bind; [eapply safe_zero, safe_repeatM, safe_decodeCompactItem; done|].
      intros items [_ Hi]. by apply safe_ret.
Qed.

Lemma safe_decodeImports :
  safe 1 decodeImports (fun p => Forall import_decoded (fst p)).
Proof.
  unfold decodeImports. safe_step. safe_step.
  eapply safe_bind; [eapply safe_zero, safe_repeatM, safe_decodeImportGroup|].
  intros gs [_ Hg]. apply safe_ret; [done|]. simpl.
  apply Forall_concat, Forall_map. exact Hg.
Qed.

Lemma safe_decodeExternIdx :
  safe 2 decodeExternIdx (fun x => 0 <= XKind x <= 4 /\ u32_ok (XIndex x)).
Proof.
  unfold decodeExternIdx. safe_go; [done|]. unfold byte_ok in *. simpl. bool_to_prop.
  split; [lia|done].
Qed.
#[export] Hint Resolve safe_decodeExternIdx : safe.

Lemma safe_decodeExport :
  safe 3 decodeExport (fun x => utf8_Valid (XName x) = true /\ 0 <= XKind (XIdx x) <= 4 /\
                               u32_ok (XIndex (XIdx x))).
Proof. unfold decodeExport. safe_go; [done|]. simpl. tauto. Qed.

(** The number of locals a list of runs stands for. *)
Definition run_total (rs : list LocalRun) : Z := foldr (fun r n => Count r + n) 0 rs.

Definition run_decoded (r : LocalRun) : Prop := u32_ok (Count r) /\ decoded_val (LType r).

Lemma safe_decodeLocals_loop n total :
  0 <= total < 2 ^ 32 ->
  safe (2 * n) (decodeLocals_loop n total)
    (fun l => Forall run_decoded l /\ total + run_total l < 2 ^ 32).
Proof.
  revert total. induction n as [|n IH]; intros total Ht.
  - apply safe_ret; [done|]. simpl. split; [constructor|lia].
  - cbn [decodeLocals_loop]. eapply safe_bind; [apply safe_u32|]. intros c Hc.
    eapply safe_bind; [apply safe_decodeValType|]. intros vt Hvt.
    apply safe_if; intros Hle; [apply safe_fail_at|]. bool_to_prop. unfold u32_ok in Hc.
    eapply safe_bind; [apply IH; lia|]. intros l [Hl Hs].
    apply safe_ret; [lia|]. split; [by constructor|]. simpl. lia.
Qed.

Lemma safe_decodeLocals :
  safe 1 decodeLocals (fun l => Forall run_decoded l /\ run_total l < 2 ^ 32).
Proof.
  unfold decodeLocals. safe_step. safe_step.
  eapply safe_mono; [by apply safe_decodeLocals_loop|lia|]. intros l [? ?]. split; [done|lia].
Qed.
#[export] Hint Resolve safe_decodeExternType safe_decodeImports safe_decodeExport
  safe_decodeLocals : safe.
