(* ===== verification/Kinds.v ===== *)
(** * Instruction kinds and opcode tables

    [InstrKind] of types.go as integers in declaration order (the source indexes
    tables and compares ranges with them), and the dense opcode tables of
    instruction_decode.go and prefix_decode.go. *)

From stdpp Require Import base tactics numbers list.
From Stdlib Require Import ZArith Lia.
From S2P Require Import Prelude.
Local Open Scope Z_scope.

Definition InstrInvalid : Z := 0.
Definition InstrUnreachable : Z := 1.
Definition InstrNop : Z := 2.
Definition InstrBlock : Z := 3.
Definition InstrLoop : Z := 4.
Definition InstrIf : Z := 5.
Definition InstrThrow : Z := 6.
Definition InstrThrowRef : Z := 7.
Definition InstrBr : Z := 8.
Definition InstrBrIf : Z := 9.
Definition InstrBrTable : Z := 10.
Definition InstrReturn : Z := 11.
Definition InstrCall : Z := 12.
Definition InstrCallIndirect : Z := 13.
Definition InstrReturnCall : Z := 14.
Definition InstrReturnCallIndirect : Z := 15.
Definition InstrCallRef : Z := 16.
Definition InstrReturnCallRef : Z := 17.
Definition InstrDrop : Z := 18.
Definition InstrSelect : Z := 19.
Definition InstrTryTable : Z := 20.
Definition InstrLocalGet : Z := 21.
Definition InstrLocalSet : Z := 22.
Definition InstrLocalTee : Z := 23.
Definition InstrGlobalGet : Z := 24.
Definition InstrGlobalSet : Z := 25.
Definition InstrTableGet : Z := 26.
Definition InstrTableSet : Z := 27.
Definition InstrI32Load : Z := 28.
Definition InstrI64Load : Z := 29.
Definition InstrF32Load : Z := 30.
Definition InstrF64Load : Z := 31.
Definition InstrI32Load8S : Z := 32.
Definition InstrI32Load8U : Z := 33.
Definition InstrI32Load16S : Z := 34.
Definition InstrI32Load16U : Z := 35.
Definition InstrI64Load8S : Z := 36.
Definition InstrI64Load8U : Z := 37.
Definition InstrI64Load16S : Z := 38.
Definition InstrI64Load16U : Z := 39.
Definition InstrI64Load32S : Z := 40.
Definition InstrI64Load32U : Z := 41.
Definition InstrI32Store : Z := 42.
Definition InstrI64Store : Z := 43.
Definition InstrF32Store : Z := 44.
Definition InstrF64Store : Z := 45.
Definition InstrI32Store8 : Z := 46.
Definition InstrI32Store16 : Z := 47.
Definition InstrI64Store8 : Z := 48.
Definition InstrI64Store16 : Z := 49.
Definition InstrI64Store32 : Z := 50.
Definition InstrMemorySize : Z := 51.
Definition InstrMemoryGrow : Z := 52.
Definition InstrMemoryAtomicNotify : Z := 53.
Definition InstrMemoryAtomicWait32 : Z := 54.
Definition InstrMemoryAtomicWait64 : Z := 55.
Definition InstrAtomicFence : Z := 56.
Definition InstrI32AtomicLoad : Z := 57.
Definition InstrI64AtomicLoad : Z := 58.
Definition InstrI32AtomicLoad8U : Z := 59.
Definition InstrI32AtomicLoad16U : Z := 60.
Definition InstrI64AtomicLoad8U : Z := 61.
Definition InstrI64AtomicLoad16U : Z := 62.
Definition InstrI64AtomicLoad32U : Z := 63.
Definition InstrI32AtomicStore : Z := 64.
Definition InstrI64AtomicStore : Z := 65.
Definition InstrI32AtomicStore8 : Z := 66.
Definition InstrI32AtomicStore16 : Z := 67.
Definition InstrI64AtomicStore8 : Z := 68.
Definition InstrI64AtomicStore16 : Z := 69.
Definition InstrI64AtomicStore32 : Z := 70.
Definition InstrAtomicRmw : Z := 71.
Definition InstrAtomicCmpxchg : Z := 72.
Definition InstrI32Const : Z := 73.
Definition InstrI64Const : Z := 74.
Definition InstrF32Const : Z := 75.
Definition InstrF64Const : Z := 76.
Definition InstrI32Eqz : Z := 77.
Definition InstrI32Eq : Z := 78.
Definition InstrI32Ne : Z := 79.
Definition InstrI32LtS : Z := 80.
Definition InstrI32LtU : Z := 81.
Definition InstrI32GtS : Z := 82.
Definition InstrI32GtU : Z := 83.
Definition InstrI32LeS : Z := 84.
Definition InstrI32LeU : Z := 85.
Definition InstrI32GeS : Z := 86.
Definition InstrI32GeU : Z := 87.
Definition InstrI64Eqz : Z := 88.
Definition InstrI64Eq : Z := 89.
Definition InstrI64Ne : Z := 90.
Definition InstrI64LtS : Z := 91.
Definition InstrI64LtU : Z := 92.
Definition InstrI64GtS : Z := 93.
Definition InstrI64GtU : Z := 94.
Definition InstrI64LeS : Z := 95.
Definition InstrI64LeU : Z := 96.
Definition InstrI64GeS : Z := 97.
Definition InstrI64GeU : Z := 98.
Definition InstrF32Eq : Z := 99.
Definition InstrF32Ne : Z := 100.
Definition InstrF32Lt : Z := 101.
Definition InstrF32Gt : Z := 102.
Definition InstrF32Le : Z := 103.
Definition InstrF32Ge : Z := 104.
Definition InstrF64Eq : Z := 105.
Definition InstrF64Ne : Z := 106.
Definition InstrF64Lt : Z := 107.
Definition InstrF64Gt : Z := 108.
Definition InstrF64Le : Z := 109.
Definition InstrF64Ge : Z := 110.
Definition InstrI32Clz : Z := 111.
Definition InstrI32Ctz : Z := 112.
Definition InstrI32Popcnt : Z := 113.
Definition InstrI32Add : Z := 114.
Definition InstrI32Sub : Z := 115.
Definition InstrI32Mul : Z := 116.
Definition InstrI32DivS : Z := 117.
Definition InstrI32DivU : Z := 118.
Definition InstrI32RemS : Z := 119.
Definition InstrI32RemU : Z := 120.
Definition InstrI32And : Z := 121.
Definition InstrI32Or : Z := 122.
Definition InstrI32Xor : Z := 123.
Definition InstrI32Shl : Z := 124.
Definition InstrI32ShrS : Z := 125.
Definition InstrI32ShrU : Z := 126.
Definition InstrI32Rotl : Z := 127.
Definition InstrI32Rotr : Z := 128.
Definition InstrI64Clz : Z := 129.
Definition InstrI64Ctz : Z := 130.
Definition InstrI64Popcnt : Z := 131.
Definition InstrI64Add : Z := 132.
Definition InstrI64Sub : Z := 133.
Definition InstrI64Mul : Z := 134.
Definition InstrI64DivS : Z := 135.
Definition InstrI64DivU : Z := 136.
Definition InstrI64RemS : Z := 137.
Definition InstrI64RemU : Z := 138.
Definition InstrI64And : Z := 139.
Definition InstrI64Or : Z := 140.
Definition InstrI64Xor : Z := 141.
Definition InstrI64Shl : Z := 142.
Definition InstrI64ShrS : Z := 143.
Definition InstrI64ShrU : Z := 144.
Definition InstrI64Rotl : Z := 145.
Definition InstrI64Rotr : Z := 146.
Definition InstrF32Abs : Z := 147.
Definition InstrF32Neg : Z := 148.
Definition InstrF32Ceil : Z := 149.
Definition InstrF32Floor : Z := 150.
Definition InstrF32Trunc : Z := 151.
Definition InstrF32Nearest : Z := 152.
Definition InstrF32Sqrt : Z := 153.
Definition InstrF32Add : Z := 154.
Definition InstrF32Sub : Z := 155.
Definition InstrF32Mul : Z := 156.
Definition InstrF32Div : Z := 157.
Definition InstrF32Min : Z := 158.
Definition InstrF32Max : Z := 159.
Definition InstrF32Copysign : Z := 160.
Definition InstrF64Abs : Z := 161.
Definition InstrF64Neg : Z := 162.
Definition InstrF64Ceil : Z := 163.
Definition InstrF64Floor : Z := 164.
Definition InstrF64Trunc : Z := 165.
Definition InstrF64Nearest : Z := 166.
Definition InstrF64Sqrt : Z := 167.
Definition InstrF64Add : Z := 168.
Definition InstrF64Sub : Z := 169.
Definition InstrF64Mul : Z := 170.
Definition InstrF64Div : Z := 171.
Definition InstrF64Min : Z := 172.
Definition InstrF64Max : Z := 173.
Definition InstrF64Copysign : Z := 174.
Definition InstrI32WrapI64 : Z := 175.
Definition InstrI32TruncF32S : Z := 176.
Definition InstrI32TruncF32U : Z := 177.
Definition InstrI32TruncF64S : Z := 178.
Definition InstrI32TruncF64U : Z := 179.
Definition InstrI64ExtendI32S : Z := 180.
Definition InstrI64ExtendI32U : Z := 181.
Definition InstrI64TruncF32S : Z := 182.
Definition InstrI64TruncF32U : Z := 183.
Definition InstrI64TruncF64S : Z := 184.
Definition InstrI64TruncF64U : Z := 185.
Definition InstrF32ConvertI32S : Z := 186.
Definition InstrF32ConvertI32U : Z := 187.
Definition InstrF32ConvertI64S : Z := 188.
Definition InstrF32ConvertI64U : Z := 189.
Definition InstrF32DemoteF64 : Z := 190.
Definition InstrF64ConvertI32S : Z := 191.
Definition InstrF64ConvertI32U : Z := 192.
Definition InstrF64ConvertI64S : Z := 193.
Definition InstrF64ConvertI64U : Z := 194.
Definition InstrF64PromoteF32 : Z := 195.
Definition InstrI32ReinterpretF32 : Z := 196.
Definition InstrI64ReinterpretF64 : Z := 197.
Definition InstrF32ReinterpretI32 : Z := 198.
Definition InstrF64ReinterpretI64 : Z := 199.
Definition InstrI32Extend8S : Z := 200.
Definition InstrI32Extend16S : Z := 201.
Definition InstrI64Extend8S : Z := 202.
Definition InstrI64Extend16S : Z := 203.
Definition InstrI64Extend32S : Z := 204.
Definition InstrRefNull : Z := 205.
Definition InstrRefIsNull : Z := 206.
Definition InstrRefFunc : Z := 207.
Definition InstrRefEq : Z := 208.
Definition InstrRefAsNonNull : Z := 209.
Definition InstrStringConst : Z := 210.
Definition InstrBrOnNull : Z := 211.
Definition InstrBrOnNonNull : Z := 212.
Definition InstrStringNewUtf8Array : Z := 213.
Definition InstrStringNewWtf16Array : Z := 214.
Definition InstrStringEncodeUtf8Array : Z := 215.
Definition InstrStringEncodeWtf16Array : Z := 216.
Definition InstrStringNewLossyUtf8Array : Z := 217.
Definition InstrStringNewWtf8Array : Z := 218.
Definition InstrStringEncodeLossyUtf8Array : Z := 219.
Definition InstrStringEncodeWtf8Array : Z := 220.
Definition InstrStructNew : Z := 221.
Definition InstrStructNewDefault : Z := 222.
Definition InstrStructNewDesc : Z := 223.
Definition InstrStructNewDefaultDesc : Z := 224.
Definition InstrStructGet : Z := 225.
Definition InstrStructGetS : Z := 226.
Definition InstrStructGetU : Z := 227.
Definition InstrStructAtomicGet : Z := 228.
Definition InstrStructAtomicGetS : Z := 229.
Definition InstrStructAtomicGetU : Z := 230.
Definition InstrStructSet : Z := 231.
Definition InstrArrayNew : Z := 232.
Definition InstrArrayNewDefault : Z := 233.
Definition InstrArrayNewFixed : Z := 234.
Definition InstrArrayNewData : Z := 235.
Definition InstrArrayNewElem : Z := 236.
Definition InstrArrayGet : Z := 237.
Definition InstrArrayGetS : Z := 238.
Definition InstrArrayGetU : Z := 239.
Definition InstrArraySet : Z := 240.
Definition InstrArrayLen : Z := 241.
Definition InstrArrayFill : Z := 242.
Definition InstrArrayCopy : Z := 243.
Definition InstrArrayInitData : Z := 244.
Definition InstrArrayInitElem : Z := 245.
Definition InstrRefGetDesc : Z := 246.
Definition InstrRefTest : Z := 247.
Definition InstrRefCast : Z := 248.
Definition InstrRefTestDesc : Z := 249.
Definition InstrRefCastDescEq : Z := 250.
Definition InstrBrOnCast : Z := 251.
Definition InstrBrOnCastFail : Z := 252.
Definition InstrAnyConvertExtern : Z := 253.
Definition InstrExternConvertAny : Z := 254.
Definition InstrRefI31 : Z := 255.
Definition InstrI31GetS : Z := 256.
Definition InstrI31GetU : Z := 257.
Definition InstrI32TruncSatF32S : Z := 258.
Definition InstrI32TruncSatF32U : Z := 259.
Definition InstrI32TruncSatF64S : Z := 260.
Definition InstrI32TruncSatF64U : Z := 261.
Definition InstrI64TruncSatF32S : Z := 262.
Definition InstrI64TruncSatF32U : Z := 263.
Definition InstrI64TruncSatF64S : Z := 264.
Definition InstrI64TruncSatF64U : Z := 265.
Definition InstrMemoryInit : Z := 266.
Definition InstrDataDrop : Z := 267.
Definition InstrMemoryCopy : Z := 268.
Definition InstrMemoryFill : Z := 269.
Definition InstrTableInit : Z := 270.
Definition InstrElemDrop : Z := 271.
Definition InstrTableCopy : Z := 272.
Definition InstrTableGrow : Z := 273.
Definition InstrTableSize : Z := 274.
Definition InstrTableFill : Z := 275.
Definition InstrV128Load : Z := 276.
Definition InstrV128Load8x8S : Z := 277.
Definition InstrV128Load8x8U : Z := 278.
Definition InstrV128Load16x4S : Z := 279.
Definition InstrV128Load16x4U : Z := 280.
Definition InstrV128Load32x2S : Z := 281.
Definition InstrV128Load32x2U : Z := 282.
Definition InstrV128Load8Splat : Z := 283.
Definition InstrV128Load16Splat : Z := 284.
Definition InstrV128Load32Splat : Z := 285.
Definition InstrV128Load64Splat : Z := 286.
Definition InstrV128Store : Z := 287.
Definition InstrV128Const : Z := 288.
Definition InstrByte : Z := 289.
Definition InstrI8x16Shuffle : Z := 290.
Definition InstrLaneIdx : Z := 291.
Definition InstrI8x16Swizzle : Z := 292.
Definition InstrI8x16Splat : Z := 293.
Definition InstrI16x8Splat : Z := 294.
Definition InstrI32x4Splat : Z := 295.
Definition InstrI64x2Splat : Z := 296.
Definition InstrF32x4Splat : Z := 297.
Definition InstrF64x2Splat : Z := 298.
Definition InstrI8x16ExtractLaneS : Z := 299.
Definition InstrI8x16ExtractLaneU : Z := 300.
Definition InstrI8x16ReplaceLane : Z := 301.
Definition InstrI16x8ExtractLaneS : Z := 302.
Definition InstrI16x8ExtractLaneU : Z := 303.
Definition InstrI16x8ReplaceLane : Z := 304.
Definition InstrI32x4ExtractLane : Z := 305.
Definition InstrI32x4ReplaceLane : Z := 306.
Definition InstrI64x2ExtractLane : Z := 307.
Definition InstrI64x2ReplaceLane : Z := 308.
Definition InstrF32x4ExtractLane : Z := 309.
Definition InstrF32x4ReplaceLane : Z := 310.
Definition InstrF64x2ExtractLane : Z := 311.
Definition InstrF64x2ReplaceLane : Z := 312.
Definition InstrI8x16Eq : Z := 313.
Definition InstrI8x16Ne : Z := 314.
Definition InstrI8x16LtS : Z := 315.
Definition InstrI8x16LtU : Z := 316.
Definition InstrI8x16GtS : Z := 317.
Definition InstrI8x16GtU : Z := 318.
Definition InstrI8x16LeS : Z := 319.
Definition InstrI8x16LeU : Z := 320.
Definition InstrI8x16GeS : Z := 321.
Definition InstrI8x16GeU : Z := 322.
Definition InstrI16x8Eq : Z := 323.
Definition InstrI16x8Ne : Z := 324.
Definition InstrI16x8LtS : Z := 325.
Definition InstrI16x8LtU : Z := 326.
Definition InstrI16x8GtS : Z := 327.
Definition InstrI16x8GtU : Z := 328.
Definition InstrI16x8LeS : Z := 329.
Definition InstrI16x8LeU : Z := 330.
Definition InstrI16x8GeS : Z := 331.
Definition InstrI16x8GeU : Z := 332.
Definition InstrI32x4Eq : Z := 333.
Definition InstrI32x4Ne : Z := 334.
Definition InstrI32x4LtS : Z := 335.
Definition InstrI32x4LtU : Z := 336.
Definition InstrI32x4GtS : Z := 337.
Definition InstrI32x4GtU : Z := 338.
Definition InstrI32x4LeS : Z := 339.
Definition InstrI32x4LeU : Z := 340.
Definition InstrI32x4GeS : Z := 341.
Definition InstrI32x4GeU : Z := 342.
Definition InstrF32x4Eq : Z := 343.
Definition InstrF32x4Ne : Z := 344.
Definition InstrF32x4Lt : Z := 345.
Definition InstrF32x4Gt : Z := 346.
Definition InstrF32x4Le : Z := 347.
Definition InstrF32x4Ge : Z := 348.
Definition InstrF64x2Eq : Z := 349.
Definition InstrF64x2Ne : Z := 350.
Definition InstrF64x2Lt : Z := 351.
Definition InstrF64x2Gt : Z := 352.
Definition InstrF64x2Le : Z := 353.
Definition InstrF64x2Ge : Z := 354.
Definition InstrV128Not : Z := 355.
Definition InstrV128And : Z := 356.
Definition InstrV128Andnot : Z := 357.
Definition InstrV128Or : Z := 358.
Definition InstrV128Xor : Z := 359.
Definition InstrV128Bitselect : Z := 360.
Definition InstrV128AnyTrue : Z := 361.
Definition InstrV128Load8Lane : Z := 362.
Definition InstrV128Load16Lane : Z := 363.
Definition InstrV128Load32Lane : Z := 364.
Definition InstrV128Load64Lane : Z := 365.
Definition InstrV128Store8Lane : Z := 366.
Definition InstrV128Store16Lane : Z := 367.
Definition InstrV128Store32Lane : Z := 368.
Definition InstrV128Store64Lane : Z := 369.
Definition InstrV128Load32Zero : Z := 370.
Definition InstrV128Load64Zero : Z := 371.
Definition InstrF32x4DemoteF64x2Zero : Z := 372.
Definition InstrF64x2PromoteLowF32x4 : Z := 373.
Definition InstrI8x16Abs : Z := 374.
Definition InstrI8x16Neg : Z := 375.
Definition InstrI8x16Popcnt : Z := 376.
Definition InstrI8x16AllTrue : Z := 377.
Definition InstrI8x16Bitmask : Z := 378.
Definition InstrI8x16NarrowI16x8S : Z := 379.
Definition InstrI8x16NarrowI16x8U : Z := 380.
Definition InstrF32x4Ceil : Z := 381.
Definition InstrF32x4Floor : Z := 382.
Definition InstrF32x4Trunc : Z := 383.
Definition InstrF32x4Nearest : Z := 384.
Definition InstrI8x16Shl : Z := 385.
Definition InstrI8x16ShrS : Z := 386.
Definition InstrI8x16ShrU : Z := 387.
Definition InstrI8x16Add : Z := 388.
Definition InstrI8x16AddSatS : Z := 389.
Definition InstrI8x16AddSatU : Z := 390.
Definition InstrI8x16Sub : Z := 391.
Definition InstrI8x16SubSatS : Z := 392.
Definition InstrI8x16SubSatU : Z := 393.
Definition InstrF64x2Ceil : Z := 394.
Definition InstrF64x2Floor : Z := 395.
Definition InstrI8x16MinS : Z := 396.
Definition InstrI8x16MinU : Z := 397.
Definition InstrI8x16MaxS : Z := 398.
Definition InstrI8x16MaxU : Z := 399.
Definition InstrF64x2Trunc : Z := 400.
Definition InstrI8x16AvgrU : Z := 401.
Definition InstrI16x8ExtaddPairwiseI8x16S : Z := 402.
Definition InstrI16x8ExtaddPairwiseI8x16U : Z := 403.
Definition InstrI32x4ExtaddPairwiseI16x8S : Z := 404.
Definition InstrI32x4ExtaddPairwiseI16x8U : Z := 405.
Definition InstrI16x8Abs : Z := 406.
Definition InstrI16x8Neg : Z := 407.
Definition InstrI16x8Q15mulrSatS : Z := 408.
Definition InstrI16x8AllTrue : Z := 409.
Definition InstrI16x8Bitmask : Z := 410.
Definition InstrI16x8NarrowI32x4S : Z := 411.
Definition InstrI16x8NarrowI32x4U : Z := 412.
Definition InstrI16x8ExtendLowI8x16S : Z := 413.
Definition InstrI16x8ExtendHighI8x16S : Z := 414.
Definition InstrI16x8ExtendLowI8x16U : Z := 415.
Definition InstrI16x8ExtendHighI8x16U : Z := 416.
Definition InstrI16x8Shl : Z := 417.
Definition InstrI16x8ShrS : Z := 418.
Definition InstrI16x8ShrU : Z := 419.
Definition InstrI16x8Add : Z := 420.
Definition InstrI16x8AddSatS : Z := 421.
Definition InstrI16x8AddSatU : Z := 422.
Definition InstrI16x8Sub : Z := 423.
Definition InstrI16x8SubSatS : Z := 424.
Definition InstrI16x8SubSatU : Z := 425.
Definition InstrF64x2Nearest : Z := 426.
Definition InstrI16x8Mul : Z := 427.
Definition InstrI16x8MinS : Z := 428.
Definition InstrI16x8MinU : Z := 429.
Definition InstrI16x8MaxS : Z := 430.
Definition InstrI16x8MaxU : Z := 431.
Definition InstrI16x8AvgrU : Z := 432.
Definition InstrI16x8ExtmulLowI8x16S : Z := 433.
Definition InstrI16x8ExtmulHighI8x16S : Z := 434.
Definition InstrI16x8ExtmulLowI8x16U : Z := 435.
Definition InstrI16x8ExtmulHighI8x16U : Z := 436.
Definition InstrI32x4Abs : Z := 437.
Definition InstrI32x4Neg : Z := 438.
Definition InstrI32x4AllTrue : Z := 439.
Definition InstrI32x4Bitmask : Z := 440.
Definition InstrI32x4ExtendLowI16x8S : Z := 441.
Definition InstrI32x4ExtendHighI16x8S : Z := 442.
Definition InstrI32x4ExtendLowI16x8U : Z := 443.
Definition InstrI32x4ExtendHighI16x8U : Z := 444.
Definition InstrI32x4Shl : Z := 445.
Definition InstrI32x4ShrS : Z := 446.
Definition InstrI32x4ShrU : Z := 447.
Definition InstrI32x4Add : Z := 448.
Definition InstrI32x4Sub : Z := 449.
Definition InstrI32x4Mul : Z := 450.
Definition InstrI32x4MinS : Z := 451.
Definition InstrI32x4MinU : Z := 452.
Definition InstrI32x4MaxS : Z := 453.
Definition InstrI32x4MaxU : Z := 454.
Definition InstrI32x4DotI16x8S : Z := 455.
Definition InstrI32x4ExtmulLowI16x8S : Z := 456.
Definition InstrI32x4ExtmulHighI16x8S : Z := 457.
Definition InstrI32x4ExtmulLowI16x8U : Z := 458.
Definition InstrI32x4ExtmulHighI16x8U : Z := 459.
Definition InstrI64x2Abs : Z := 460.
Definition InstrI64x2Neg : Z := 461.
Definition InstrI64x2AllTrue : Z := 462.
Definition InstrI64x2Bitmask : Z := 463.
Definition InstrI64x2ExtendLowI32x4S : Z := 464.
Definition InstrI64x2ExtendHighI32x4S : Z := 465.
Definition InstrI64x2ExtendLowI32x4U : Z := 466.
Definition InstrI64x2ExtendHighI32x4U : Z := 467.
Definition InstrI64x2Shl : Z := 468.
Definition InstrI64x2ShrS : Z := 469.
Definition InstrI64x2ShrU : Z := 470.
Definition InstrI64x2Add : Z := 471.
Definition InstrI64x2Sub : Z := 472.
Definition InstrI64x2Mul : Z := 473.
Definition InstrI64x2Eq : Z := 474.
Definition InstrI64x2Ne : Z := 475.
Definition InstrI64x2LtS : Z := 476.
Definition InstrI64x2GtS : Z := 477.
Definition InstrI64x2LeS : Z := 478.
Definition InstrI64x2GeS : Z := 479.
Definition InstrI64x2ExtmulLowI32x4S : Z := 480.
Definition InstrI64x2ExtmulHighI32x4S : Z := 481.
Definition InstrI64x2ExtmulLowI32x4U : Z := 482.
Definition InstrI64x2ExtmulHighI32x4U : Z := 483.
Definition InstrF32x4Abs : Z := 484.
Definition InstrF32x4Neg : Z := 485.
Definition InstrF32x4Sqrt : Z := 486.
Definition InstrF32x4Add : Z := 487.
Definition InstrF32x4Sub : Z := 488.
Definition InstrF32x4Mul : Z := 489.
Definition InstrF32x4Div : Z := 490.
Definition InstrF32x4Min : Z := 491.
Definition InstrF32x4Max : Z := 492.
Definition InstrF32x4Pmin : Z := 493.
Definition InstrF32x4Pmax : Z := 494.
Definition InstrF64x2Abs : Z := 495.
Definition InstrF64x2Neg : Z := 496.
Definition InstrF64x2Sqrt : Z := 497.
Definition InstrF64x2Add : Z := 498.
Definition InstrF64x2Sub : Z := 499.
Definition InstrF64x2Mul : Z := 500.
Definition InstrF64x2Div : Z := 501.
Definition InstrF64x2Min : Z := 502.
Definition InstrF64x2Max : Z := 503.
Definition InstrF64x2Pmin : Z := 504.
Definition InstrF64x2Pmax : Z := 505.
Definition InstrI32x4TruncSatF32x4S : Z := 506.
Definition InstrI32x4TruncSatF32x4U : Z := 507.
Definition InstrF32x4ConvertI32x4S : Z := 508.
Definition InstrF32x4ConvertI32x4U : Z := 509.
Definition InstrI32x4TruncSatF64x2SZero : Z := 510.
Definition InstrI32x4TruncSatF64x2UZero : Z := 511.
Definition InstrF64x2ConvertLowI32x4S : Z := 512.
Definition InstrF64x2ConvertLowI32x4U : Z := 513.
Definition InstrI8x16RelaxedSwizzle : Z := 514.
Definition InstrI32x4RelaxedTruncF32x4S : Z := 515.
Definition InstrI32x4RelaxedTruncF32x4U : Z := 516.
Definition InstrI32x4RelaxedTruncZeroF64x2S : Z := 517.
Definition InstrI32x4RelaxedTruncZeroF64x2U : Z := 518.
Definition InstrF32x4RelaxedMadd : Z := 519.
Definition InstrF32x4RelaxedNmadd : Z := 520.
Definition InstrF64x2RelaxedMadd : Z := 521.
Definition InstrF64x2RelaxedNmadd : Z := 522.
Definition InstrI8x16RelaxedLaneselect : Z := 523.
Definition InstrI16x8RelaxedLaneselect : Z := 524.
Definition InstrI32x4RelaxedLaneselect : Z := 525.
Definition InstrI64x2RelaxedLaneselect : Z := 526.
Definition InstrF32x4RelaxedMin : Z := 527.
Definition InstrF32x4RelaxedMax : Z := 528.
Definition InstrF64x2RelaxedMin : Z := 529.
Definition InstrF64x2RelaxedMax : Z := 530.
Definition InstrI16x8RelaxedQ15mulrS : Z := 531.
Definition InstrI16x8RelaxedDotI8x16I7x16S : Z := 532.
Definition InstrI32x4RelaxedDotI8x16I7x16AddS : Z := 533.
Definition InstrI64Add128 : Z := 534.
Definition InstrI64Sub128 : Z := 535.
Definition InstrI64MulWideS : Z := 536.
Definition InstrI64MulWideU : Z := 537.
Definition numInstrKinds : Z := 538.

(** ** Tables

    A table is its list of initialised entries; an index outside the array or
    without an entry reads [InstrInvalid], the zero value. *)

Fixpoint table_get (t : list (Z * Z)) (i : Z) : Z :=
  match t with
  | [] => InstrInvalid
  | (k, v) :: t' => if i =? k then v else table_get t' i
  end.

Definition simpleOpcodeTable : list (Z * Z) :=
  [(0x00, InstrUnreachable); (0x01, InstrNop); (0x0a, InstrThrowRef); (0x0f, InstrReturn);
   (0x1a, InstrDrop); (0x1b, InstrSelect); (0xd1, InstrRefIsNull); (0x45, InstrI32Eqz);
   (0x46, InstrI32Eq); (0x47, InstrI32Ne); (0x48, InstrI32LtS); (0x49, InstrI32LtU);
   (0x4a, InstrI32GtS); (0x4b, InstrI32GtU); (0x4c, InstrI32LeS); (0x4d, InstrI32LeU);
   (0x4e, InstrI32GeS); (0x4f, InstrI32GeU); (0x50, InstrI64Eqz); (0x51, InstrI64Eq);
   (0x52, InstrI64Ne); (0x53, InstrI64LtS); (0x54, InstrI64LtU); (0x55, InstrI64GtS);
   (0x56, InstrI64GtU); (0x57, InstrI64LeS); (0x58, InstrI64LeU); (0x59, InstrI64GeS);
   (0x5a, InstrI64GeU); (0x5b, InstrF32Eq); (0x5c, InstrF32Ne); (0x5d, InstrF32Lt);
   (0x5e, InstrF32Gt); (0x5f, InstrF32Le); (0x60, InstrF32Ge); (0x61, InstrF64Eq);
   (0x62, InstrF64Ne); (0x63, InstrF64Lt); (0x64, InstrF64Gt); (0x65, InstrF64Le);
   (0x66, InstrF64Ge); (0x67, InstrI32Clz); (0x68, InstrI32Ctz); (0x69, InstrI32Popcnt);
   (0x6a, InstrI32Add); (0x6b, InstrI32Sub); (0x6c, InstrI32Mul); (0x6d, InstrI32DivS);
   (0x6e, InstrI32DivU); (0x6f, InstrI32RemS); (0x70, InstrI32RemU); (0x71, InstrI32And);
   (0x72, InstrI32Or); (0x73, InstrI32Xor); (0x74, InstrI32Shl); (0x75, InstrI32ShrS);
   (0x76, InstrI32ShrU); (0x77, InstrI32Rotl); (0x78, InstrI32Rotr); (0x79, InstrI64Clz);
   (0x7a, InstrI64Ctz); (0x7b, InstrI64Popcnt); (0x7c, InstrI64Add); (0x7d, InstrI64Sub);
   (0x7e, InstrI64Mul); (0x7f, InstrI64DivS); (0x80, InstrI64DivU); (0x81, InstrI64RemS);
   (0x82, InstrI64RemU); (0x83, InstrI64And); (0x84, InstrI64Or); (0x85, InstrI64Xor);
   (0x86, InstrI64Shl); (0x87, InstrI64ShrS); (0x88, InstrI64ShrU); (0x89, InstrI64Rotl);
   (0x8a, InstrI64Rotr); (0x8b, InstrF32Abs); (0x8c, InstrF32Neg); (0x8d, InstrF32Ceil);
   (0x8e, InstrF32Floor); (0x8f, InstrF32Trunc); (0x90, InstrF32Nearest);
   (0x91, InstrF32Sqrt); (0x92, InstrF32Add); (0x93, InstrF32Sub); (0x94, InstrF32Mul);
   (0x95, InstrF32Div); (0x96, InstrF32Min); (0x97, InstrF32Max); (0x98, InstrF32Copysign);
   (0x99, InstrF64Abs); (0x9a, InstrF64Neg); (0x9b, InstrF64Ceil); (0x9c, InstrF64Floor);
   (0x9d, InstrF64Trunc); (0x9e, InstrF64Nearest); (0x9f, InstrF64Sqrt);
   (0xa0, InstrF64Add); (0xa1, InstrF64Sub); (0xa2, InstrF64Mul); (0xa3, InstrF64Div);
   (0xa4, InstrF64Min); (0xa5, InstrF64Max); (0xa6, InstrF64Copysign);
   (0xa7, InstrI32WrapI64); (0xa8, InstrI32TruncF32S); (0xa9, InstrI32TruncF32U);
   (0xaa, InstrI32TruncF64S); (0xab, InstrI32TruncF64U); (0xac, InstrI64ExtendI32S);
   (0xad, InstrI64ExtendI32U); (0xae, InstrI64TruncF32S); (0xaf, InstrI64TruncF32U);
   (0xb0, InstrI64TruncF64S); (0xb1, InstrI64TruncF64U); (0xb2, InstrF32ConvertI32S);
   (0xb3, InstrF32ConvertI32U); (0xb4, InstrF32ConvertI64S); (0xb5, InstrF32ConvertI64U);
   (0xb6, InstrF32DemoteF64); (0xb7, InstrF64ConvertI32S); (0xb8, InstrF64ConvertI32U);
   (0xb9, InstrF64ConvertI64S); (0xba, InstrF64ConvertI64U); (0xbb, InstrF64PromoteF32);
   (0xbc, InstrI32ReinterpretF32); (0xbd, InstrI64ReinterpretF64);
   (0xbe, InstrF32ReinterpretI32); (0xbf, InstrF64ReinterpretI64); (0xc0, InstrI32Extend8S);
   (0xc1, InstrI32Extend16S); (0xc2, InstrI64Extend8S); (0xc3, InstrI64Extend16S);
   (0xc4, InstrI64Extend32S)].

Definition memOpcodeTable : list (Z * Z) :=
  [(0x28, InstrI32Load); (0x29, InstrI64Load); (0x2a, InstrF32Load); (0x2b, InstrF64Load);
   (0x2c, InstrI32Load8S); (0x2d, InstrI32Load8U); (0x2e, InstrI32Load16S);
   (0x2f, InstrI32Load16U); (0x30, InstrI64Load8S); (0x31, InstrI64Load8U);
   (0x32, InstrI64Load16S); (0x33, InstrI64Load16U); (0x34, InstrI64Load32S);
   (0x35, InstrI64Load32U); (0x36, InstrI32Store); (0x37, InstrI64Store);
   (0x38, InstrF32Store); (0x39, InstrF64Store); (0x3a, InstrI32Store8);
   (0x3b, InstrI32Store16); (0x3c, InstrI64Store8); (0x3d, InstrI64Store16);
   (0x3e, InstrI64Store32)].

Definition fcNoImm : list (Z * Z) :=
  [(0, InstrI32TruncSatF32S); (1, InstrI32TruncSatF32U); (2, InstrI32TruncSatF64S);
   (3, InstrI32TruncSatF64U); (4, InstrI64TruncSatF32S); (5, InstrI64TruncSatF32U);
   (6, InstrI64TruncSatF64S); (7, InstrI64TruncSatF64U); (19, InstrI64Add128);
   (20, InstrI64Sub128); (21, InstrI64MulWideS); (22, InstrI64MulWideU)].

Definition fbNoImm : list (Z * Z) :=
  [(15, InstrArrayLen); (26, InstrAnyConvertExtern); (27, InstrExternConvertAny);
   (28, InstrRefI31); (29, InstrI31GetS); (30, InstrI31GetU)].

Definition feMem : list (Z * Z) :=
  [(0x00, InstrMemoryAtomicNotify); (0x01, InstrMemoryAtomicWait32);
   (0x02, InstrMemoryAtomicWait64); (0x10, InstrI32AtomicLoad); (0x11, InstrI64AtomicLoad);
   (0x12, InstrI32AtomicLoad8U); (0x13, InstrI32AtomicLoad16U);
   (0x14, InstrI64AtomicLoad8U); (0x15, InstrI64AtomicLoad16U);
   (0x16, InstrI64AtomicLoad32U); (0x17, InstrI32AtomicStore); (0x18, InstrI64AtomicStore);
   (0x19, InstrI32AtomicStore8); (0x1a, InstrI32AtomicStore16);
   (0x1b, InstrI64AtomicStore8); (0x1c, InstrI64AtomicStore16);
   (0x1d, InstrI64AtomicStore32)].

Definition fdMem : list (Z * Z) :=
  [(0, InstrV128Load); (1, InstrV128Load8x8S); (2, InstrV128Load8x8U);
   (3, InstrV128Load16x4S); (4, InstrV128Load16x4U); (5, InstrV128Load32x2S);
   (6, InstrV128Load32x2U); (7, InstrV128Load8Splat); (8, InstrV128Load16Splat);
   (9, InstrV128Load32Splat); (10, InstrV128Load64Splat); (11, InstrV128Store);
   (84, InstrV128Load8Lane); (85, InstrV128Load16Lane); (86, InstrV128Load32Lane);
   (87, InstrV128Load64Lane); (88, InstrV128Store8Lane); (89, InstrV128Store16Lane);
   (90, InstrV128Store32Lane); (91, InstrV128Store64Lane); (92, InstrV128Load32Zero);
   (93, InstrV128Load64Zero)].

Definition fdLane : list (Z * Z) :=
  [(21, InstrI8x16ExtractLaneS); (22, InstrI8x16ExtractLaneU); (23, InstrI8x16ReplaceLane);
   (24, InstrI16x8ExtractLaneS); (25, InstrI16x8ExtractLaneU); (26, InstrI16x8ReplaceLane);
   (27, InstrI32x4ExtractLane); (28, InstrI32x4ReplaceLane); (29, InstrI64x2ExtractLane);
   (30, InstrI64x2ReplaceLane); (31, InstrF32x4ExtractLane); (32, InstrF32x4ReplaceLane);
   (33, InstrF64x2ExtractLane); (34, InstrF64x2ReplaceLane)].

Definition fdNoImm : list (Z * Z) :=
  [(14, InstrI8x16Swizzle); (15, InstrI8x16Splat); (16, InstrI16x8Splat);
   (17, InstrI32x4Splat); (18, InstrI64x2Splat); (19, InstrF32x4Splat);
   (20, InstrF64x2Splat); (35, InstrI8x16Eq); (36, InstrI8x16Ne); (37, InstrI8x16LtS);
   (38, InstrI8x16LtU); (39, InstrI8x16GtS); (40, InstrI8x16GtU); (41, InstrI8x16LeS);
   (42, InstrI8x16LeU); (43, InstrI8x16GeS); (44, InstrI8x16GeU); (45, InstrI16x8Eq);
   (46, InstrI16x8Ne); (47, InstrI16x8LtS); (48, InstrI16x8LtU); (49, InstrI16x8GtS);
   (50, InstrI16x8GtU); (51, InstrI16x8LeS); (52, InstrI16x8LeU); (53, InstrI16x8GeS);
   (54, InstrI16x8GeU); (55, InstrI32x4Eq); (56, InstrI32x4Ne); (57, InstrI32x4LtS);
   (58, InstrI32x4LtU); (59, InstrI32x4GtS); (60, InstrI32x4GtU); (61, InstrI32x4LeS);
   (62, InstrI32x4LeU); (63, InstrI32x4GeS); (64, InstrI32x4GeU); (65, InstrF32x4Eq);
   (66, InstrF32x4Ne); (67, InstrF32x4Lt); (68, InstrF32x4Gt); (69, InstrF32x4Le);
   (70, InstrF32x4Ge); (71, InstrF64x2Eq); (72, InstrF64x2Ne); (73, InstrF64x2Lt);
   (74, InstrF64x2Gt); (75, InstrF64x2Le); (76, InstrF64x2Ge); (77, InstrV128Not);
   (78, InstrV128And); (79, InstrV128Andnot); (80, InstrV128Or); (81, InstrV128Xor);
   (82, InstrV128Bitselect); (83, InstrV128AnyTrue); (94, InstrF32x4DemoteF64x2Zero);
   (95, InstrF64x2PromoteLowF32x4); (96, InstrI8x16Abs); (97, InstrI8x16Neg);
   (98, InstrI8x16Popcnt); (99, InstrI8x16AllTrue); (100, InstrI8x16Bitmask);
   (101, InstrI8x16NarrowI16x8S); (102, InstrI8x16NarrowI16x8U); (103, InstrF32x4Ceil);
   (104, InstrF32x4Floor); (105, InstrF32x4Trunc); (106, InstrF32x4Nearest);
   (107, InstrI8x16Shl); (108, InstrI8x16ShrS); (109, InstrI8x16ShrU); (110, InstrI8x16Add);
   (111, InstrI8x16AddSatS); (112, InstrI8x16AddSatU); (113, InstrI8x16Sub);
   (114, InstrI8x16SubSatS); (115, InstrI8x16SubSatU); (116, InstrF64x2Ceil);
   (117, InstrF64x2Floor); (118, InstrI8x16MinS); (119, InstrI8x16MinU);
   (120, InstrI8x16MaxS); (121, InstrI8x16MaxU); (122, InstrF64x2Trunc);
   (123, InstrI8x16AvgrU); (124, InstrI16x8ExtaddPairwiseI8x16S);
   (125, InstrI16x8ExtaddPairwiseI8x16U); (126, InstrI32x4ExtaddPairwiseI16x8S);
   (127, InstrI32x4ExtaddPairwiseI16x8U); (128, InstrI16x8Abs); (129, InstrI16x8Neg);
   (130, InstrI16x8Q15mulrSatS); (131, InstrI16x8AllTrue); (132, InstrI16x8Bitmask);
   (133, InstrI16x8NarrowI32x4S); (134, InstrI16x8NarrowI32x4U);
   (135, InstrI16x8ExtendLowI8x16S); (136, InstrI16x8ExtendHighI8x16S);
   (137, InstrI16x8ExtendLowI8x16U); (138, InstrI16x8ExtendHighI8x16U);
   (139, InstrI16x8Shl); (140, InstrI16x8ShrS); (141, InstrI16x8ShrU); (142, InstrI16x8Add);
   (143, InstrI16x8AddSatS); (144, InstrI16x8AddSatU); (145, InstrI16x8Sub);
   (146, InstrI16x8SubSatS); (147, InstrI16x8SubSatU); (148, InstrF64x2Nearest);
   (149, InstrI16x8Mul); (150, InstrI16x8MinS); (151, InstrI16x8MinU);
   (152, InstrI16x8MaxS); (153, InstrI16x8MaxU); (155, InstrI16x8AvgrU);
   (156, InstrI16x8ExtmulLowI8x16S); (157, InstrI16x8ExtmulHighI8x16S);
   (158, InstrI16x8ExtmulLowI8x16U); (159, InstrI16x8ExtmulHighI8x16U);
   (160, InstrI32x4Abs); (161, InstrI32x4Neg); (163, InstrI32x4AllTrue);
   (164, InstrI32x4Bitmask); (167, InstrI32x4ExtendLowI16x8S);
   (168, InstrI32x4ExtendHighI16x8S); (169, InstrI32x4ExtendLowI16x8U);
   (170, InstrI32x4ExtendHighI16x8U); (171, InstrI32x4Shl); (172, InstrI32x4ShrS);
   (173, InstrI32x4ShrU); (174, InstrI32x4Add); (177, InstrI32x4Sub); (181, InstrI32x4Mul);
   (182, InstrI32x4MinS); (183, InstrI32x4MinU); (184, InstrI32x4MaxS);
   (185, InstrI32x4MaxU); (186, InstrI32x4DotI16x8S); (188, InstrI32x4ExtmulLowI16x8S);
   (189, InstrI32x4ExtmulHighI16x8S); (190, InstrI32x4ExtmulLowI16x8U);
   (191, InstrI32x4ExtmulHighI16x8U); (192, InstrI64x2Abs); (193, InstrI64x2Neg);
   (195, InstrI64x2AllTrue); (196, InstrI64x2Bitmask); (199, InstrI64x2ExtendLowI32x4S);
   (200, InstrI64x2ExtendHighI32x4S); (201, InstrI64x2ExtendLowI32x4U);
   (202, InstrI64x2ExtendHighI32x4U); (203, InstrI64x2Shl); (204, InstrI64x2ShrS);
   (205, InstrI64x2ShrU); (206, InstrI64x2Add); (209, InstrI64x2Sub); (213, InstrI64x2Mul);
   (214, InstrI64x2Eq); (215, InstrI64x2Ne); (216, InstrI64x2LtS); (217, InstrI64x2GtS);
   (218, InstrI64x2LeS); (219, InstrI64x2GeS); (220, InstrI64x2ExtmulLowI32x4S);
   (221, InstrI64x2ExtmulHighI32x4S); (222, InstrI64x2ExtmulLowI32x4U);
   (223, InstrI64x2ExtmulHighI32x4U); (224, InstrF32x4Abs); (225, InstrF32x4Neg);
   (227, InstrF32x4Sqrt); (228, InstrF32x4Add); (229, InstrF32x4Sub); (230, InstrF32x4Mul);
   (231, InstrF32x4Div); (232, InstrF32x4Min); (233, InstrF32x4Max); (234, InstrF32x4Pmin);
   (235, InstrF32x4Pmax); (236, InstrF64x2Abs); (237, InstrF64x2Neg); (239, InstrF64x2Sqrt);
   (240, InstrF64x2Add); (241, InstrF64x2Sub); (242, InstrF64x2Mul); (243, InstrF64x2Div);
   (244, InstrF64x2Min); (245, InstrF64x2Max); (246, InstrF64x2Pmin); (247, InstrF64x2Pmax);
   (248, InstrI32x4TruncSatF32x4S); (249, InstrI32x4TruncSatF32x4U);
   (250, InstrF32x4ConvertI32x4S); (251, InstrF32x4ConvertI32x4U);
   (252, InstrI32x4TruncSatF64x2SZero); (253, InstrI32x4TruncSatF64x2UZero);
   (254, InstrF64x2ConvertLowI32x4S); (255, InstrF64x2ConvertLowI32x4U);
   (256, InstrI8x16RelaxedSwizzle); (257, InstrI32x4RelaxedTruncF32x4S);
   (258, InstrI32x4RelaxedTruncF32x4U); (259, InstrI32x4RelaxedTruncZeroF64x2S);
   (260, InstrI32x4RelaxedTruncZeroF64x2U); (261, InstrF32x4RelaxedMadd);
   (262, InstrF32x4RelaxedNmadd); (263, InstrF64x2RelaxedMadd);
   (264, InstrF64x2RelaxedNmadd); (265, InstrI8x16RelaxedLaneselect);
   (266, InstrI16x8RelaxedLaneselect); (267, InstrI32x4RelaxedLaneselect);
   (268, InstrI64x2RelaxedLaneselect); (269, InstrF32x4RelaxedMin);
   (270, InstrF32x4RelaxedMax); (271, InstrF64x2RelaxedMin); (272, InstrF64x2RelaxedMax);
   (273, InstrI16x8RelaxedQ15mulrS); (274, InstrI16x8RelaxedDotI8x16I7x16S);
   (275, InstrI32x4RelaxedDotI8x16I7x16AddS)].

Definition simpleOpcode (op : Z) : Z := table_get simpleOpcodeTable op.
Definition memOpcodeKind (op : Z) : Z := table_get memOpcodeTable op.

Definition lookupPrefixKind (table : list (Z * Z)) (sub : Z) : option Z :=
  let kind := table_get table sub in
  if kind =? InstrInvalid then None else Some kind.
