(* ===== verification/Instr.v ===== *)
(** * Decoded instructions (types.go, instruction_decode.go, prefix_decode.go)

    The instruction payload, the decoders of every opcode and prefix, and the
    tree decoder.  A decoder that recurses through instruction bodies takes a
    fuel; [decodeExpr_fuel] shows that the length of the input is enough. *)

From stdpp Require Import base tactics numbers list.
From Stdlib Require Import ZArith Lia.
From S2P Require Import Prelude Reader Types Decode Kinds.
Local Open Scope Z_scope.

(** ** Payload *)

Record MemArg : Set := { Align : Z; Mem : option Z; MOffset : Z }.
Definition zeroMemArg : MemArg := {| Align := 0; Mem := None; MOffset := 0 |}.

Definition SeqCst : Z := 0.
Definition AcqRel : Z := 1.

Definition BlockVoid : Z := 0.
Definition BlockVal : Z := 1.
Definition BlockTypeIndex : Z := 2.

Record BlockType : Set := { BKind : Z; BVal : ValType; BType : TypeIdx }.
Definition zeroIdx : TypeIdx := {| Index := 0; Rec := false |}.
Definition zeroBlockType : BlockType := {| BKind := BlockVoid; BVal := zeroWord; BType :=
     zeroIdx |}.

Definition CatchTag : Z := 0.
Definition CatchRef : Z := 1.
Definition CatchAll : Z := 2.
Definition CatchAllRef : Z := 3.

Record Catch : Set := { CatchKind : Z; CTag : Z; CLabel : Z }.

Record CastOp : Set := { SourceNullable : bool; TargetNullable : bool }.
Definition zeroCast : CastOp := {| SourceNullable := false; TargetNullable := false |}.

(** The scalar fields of [Instruction] and of its [instrExt]: the accessors of
    the source return the zero value when there is no [ext], so an absent
    extension and a zero one are the same payload.  The one instruction that asks
    whether it has an extension is [select]: [ITyped] is [ext != nil] there. *)
Record payload : Set := {
  IKind : Z;
  IIndex : Z;
  IIndex2 : Z;
  II32 : Z;
  II64 : Z;
  IF32Bits : Z;
  IF64Bits : Z;
  IAtomicOp : Z;
  ILane : Z;
  IAtomicOrder : Z;
  ICast : CastOp;
  IBlockType : BlockType;
  ICatches : list Catch;
  IIndices : list Z;
  IValTypes : list ValType;
  ITyped : bool;
  IMemArg : MemArg;
  ILanes : list Z;
  IRefType : RefType;
  IHeapType : HeapType;
  IHeapType2 : HeapType
}.

(** [Instruction{Kind: k}] *)
Definition kind (k : Z) : payload :=
  {| IKind := k; IIndex := 0; IIndex2 := 0; II32 := 0; II64 := 0; IF32Bits := 0; IF64Bits := 0;
     IAtomicOp := 0; ILane := 0; IAtomicOrder := SeqCst; ICast := zeroCast; IBlockType :=
     zeroBlockType; ICatches := []; IIndices := []; IValTypes := []; ITyped := false; IMemArg := zeroMemArg;
     ILanes := replicate 16 0; IRefType := zeroWord; IHeapType := zeroWord; IHeapType2 :=
     zeroWord |}.

(** Field updates: [with_F v p] is [p] with the field [F] set to [v]. *)
Definition with_Index (v : Z) (p : payload) : payload :=
  {| IKind := IKind p; IIndex := v; IIndex2 := IIndex2 p; II32 := II32 p; II64 := II64 p;
     IF32Bits := IF32Bits p; IF64Bits := IF64Bits p; IAtomicOp := IAtomicOp p; ILane := ILane p;
     IAtomicOrder := IAtomicOrder p; ICast := ICast p; IBlockType := IBlockType p; ICatches :=
     ICatches p; IIndices := IIndices p; IValTypes := IValTypes p; ITyped := ITyped p; IMemArg := IMemArg p; ILanes
     := ILanes p; IRefType := IRefType p; IHeapType := IHeapType p; IHeapType2 := IHeapType2 p
     |}.
Definition with_Index2 (v : Z) (p : payload) : payload :=
  {| IKind := IKind p; IIndex := IIndex p; IIndex2 := v; II32 := II32 p; II64 := II64 p;
     IF32Bits := IF32Bits p; IF64Bits := IF64Bits p; IAtomicOp := IAtomicOp p; ILane := ILane p;
     IAtomicOrder := IAtomicOrder p; ICast := ICast p; IBlockType := IBlockType p; ICatches :=
     ICatches p; IIndices := IIndices p; IValTypes := IValTypes p; ITyped := ITyped p; IMemArg := IMemArg p; ILanes
     := ILanes p; IRefType := IRefType p; IHeapType := IHeapType p; IHeapType2 := IHeapType2 p
     |}.
Definition with_I32 (v : Z) (p : payload) : payload :=
  {| IKind := IKind p; IIndex := IIndex p; IIndex2 := IIndex2 p; II32 := v; II64 := II64 p;
     IF32Bits := IF32Bits p; IF64Bits := IF64Bits p; IAtomicOp := IAtomicOp p; ILane := ILane p;
     IAtomicOrder := IAtomicOrder p; ICast := ICast p; IBlockType := IBlockType p; ICatches :=
     ICatches p; IIndices := IIndices p; IValTypes := IValTypes p; ITyped := ITyped p; IMemArg := IMemArg p; ILanes
     := ILanes p; IRefType := IRefType p; IHeapType := IHeapType p; IHeapType2 := IHeapType2 p
     |}.
Definition with_I64 (v : Z) (p : payload) : payload :=
  {| IKind := IKind p; IIndex := IIndex p; IIndex2 := IIndex2 p; II32 := II32 p; II64 := v;
     IF32Bits := IF32Bits p; IF64Bits := IF64Bits p; IAtomicOp := IAtomicOp p; ILane := ILane p;
     IAtomicOrder := IAtomicOrder p; ICast := ICast p; IBlockType := IBlockType p; ICatches :=
     ICatches p; IIndices := IIndices p; IValTypes := IValTypes p; ITyped := ITyped p; IMemArg := IMemArg p; ILanes
     := ILanes p; IRefType := IRefType p; IHeapType := IHeapType p; IHeapType2 := IHeapType2 p
     |}.
Definition with_F32Bits (v : Z) (p : payload) : payload :=
  {| IKind := IKind p; IIndex := IIndex p; IIndex2 := IIndex2 p; II32 := II32 p; II64 := II64 p;
     IF32Bits := v; IF64Bits := IF64Bits p; IAtomicOp := IAtomicOp p; ILane := ILane p;
     IAtomicOrder := IAtomicOrder p; ICast := ICast p; IBlockType := IBlockType p; ICatches :=
     ICatches p; IIndices := IIndices p; IValTypes := IValTypes p; ITyped := ITyped p; IMemArg := IMemArg p; ILanes
     := ILanes p; IRefType := IRefType p; IHeapType := IHeapType p; IHeapType2 := IHeapType2 p
     |}.
Definition with_F64Bits (v : Z) (p : payload) : payload :=
  {| IKind := IKind p; IIndex := IIndex p; IIndex2 := IIndex2 p; II32 := II32 p; II64 := II64 p;
     IF32Bits := IF32Bits p; IF64Bits := v; IAtomicOp := IAtomicOp p; ILane := ILane p;
     IAtomicOrder := IAtomicOrder p; ICast := ICast p; IBlockType := IBlockType p; ICatches :=
     ICatches p; IIndices := IIndices p; IValTypes := IValTypes p; ITyped := ITyped p; IMemArg := IMemArg p; ILanes
     := ILanes p; IRefType := IRefType p; IHeapType := IHeapType p; IHeapType2 := IHeapType2 p
     |}.
Definition with_AtomicOp (v : Z) (p : payload) : payload :=
  {| IKind := IKind p; IIndex := IIndex p; IIndex2 := IIndex2 p; II32 := II32 p; II64 := II64 p;
     IF32Bits := IF32Bits p; IF64Bits := IF64Bits p; IAtomicOp := v; ILane := ILane p;
     IAtomicOrder := IAtomicOrder p; ICast := ICast p; IBlockType := IBlockType p; ICatches :=
     ICatches p; IIndices := IIndices p; IValTypes := IValTypes p; ITyped := ITyped p; IMemArg := IMemArg p; ILanes
     := ILanes p; IRefType := IRefType p; IHeapType := IHeapType p; IHeapType2 := IHeapType2 p
     |}.
Definition with_Lane (v : Z) (p : payload) : payload :=
  {| IKind := IKind p; IIndex := IIndex p; IIndex2 := IIndex2 p; II32 := II32 p; II64 := II64 p;
     IF32Bits := IF32Bits p; IF64Bits := IF64Bits p; IAtomicOp := IAtomicOp p; ILane := v;
     IAtomicOrder := IAtomicOrder p; ICast := ICast p; IBlockType := IBlockType p; ICatches :=
     ICatches p; IIndices := IIndices p; IValTypes := IValTypes p; ITyped := ITyped p; IMemArg := IMemArg p; ILanes
     := ILanes p; IRefType := IRefType p; IHeapType := IHeapType p; IHeapType2 := IHeapType2 p
     |}.
Definition with_AtomicOrder (v : Z) (p : payload) : payload :=
  {| IKind := IKind p; IIndex := IIndex p; IIndex2 := IIndex2 p; II32 := II32 p; II64 := II64 p;
     IF32Bits := IF32Bits p; IF64Bits := IF64Bits p; IAtomicOp := IAtomicOp p; ILane := ILane p;
     IAtomicOrder := v; ICast := ICast p; IBlockType := IBlockType p; ICatches := ICatches p;
     IIndices := IIndices p; IValTypes := IValTypes p; ITyped := ITyped p; IMemArg := IMemArg p; ILanes := ILanes p;
     IRefType := IRefType p; IHeapType := IHeapType p; IHeapType2 := IHeapType2 p |}.
Definition with_Cast (v : CastOp) (p : payload) : payload :=
  {| IKind := IKind p; IIndex := IIndex p; IIndex2 := IIndex2 p; II32 := II32 p; II64 := II64 p;
     IF32Bits := IF32Bits p; IF64Bits := IF64Bits p; IAtomicOp := IAtomicOp p; ILane := ILane p;
     IAtomicOrder := IAtomicOrder p; ICast := v; IBlockType := IBlockType p; ICatches :=
     ICatches p; IIndices := IIndices p; IValTypes := IValTypes p; ITyped := ITyped p; IMemArg := IMemArg p; ILanes
     := ILanes p; IRefType := IRefType p; IHeapType := IHeapType p; IHeapType2 := IHeapType2 p
     |}.
Definition with_BlockType (v : BlockType) (p : payload) : payload :=
  {| IKind := IKind p; IIndex := IIndex p; IIndex2 := IIndex2 p; II32 := II32 p; II64 := II64 p;
     IF32Bits := IF32Bits p; IF64Bits := IF64Bits p; IAtomicOp := IAtomicOp p; ILane := ILane p;
     IAtomicOrder := IAtomicOrder p; ICast := ICast p; IBlockType := v; ICatches := ICatches p;
     IIndices := IIndices p; IValTypes := IValTypes p; ITyped := ITyped p; IMemArg := IMemArg p; ILanes := ILanes p;
     IRefType := IRefType p; IHeapType := IHeapType p; IHeapType2 := IHeapType2 p |}.
Definition with_Catches (v : list Catch) (p : payload) : payload :=
  {| IKind := IKind p; IIndex := IIndex p; IIndex2 := IIndex2 p; II32 := II32 p; II64 := II64 p;
     IF32Bits := IF32Bits p; IF64Bits := IF64Bits p; IAtomicOp := IAtomicOp p; ILane := ILane p;
     IAtomicOrder := IAtomicOrder p; ICast := ICast p; IBlockType := IBlockType p; ICatches :=
     v; IIndices := IIndices p; IValTypes := IValTypes p; ITyped := ITyped p; IMemArg := IMemArg p; ILanes := ILanes
     p; IRefType := IRefType p; IHeapType := IHeapType p; IHeapType2 := IHeapType2 p |}.
Definition with_Indices (v : list Z) (p : payload) : payload :=
  {| IKind := IKind p; IIndex := IIndex p; IIndex2 := IIndex2 p; II32 := II32 p; II64 := II64 p;
     IF32Bits := IF32Bits p; IF64Bits := IF64Bits p; IAtomicOp := IAtomicOp p; ILane := ILane p;
     IAtomicOrder := IAtomicOrder p; ICast := ICast p; IBlockType := IBlockType p; ICatches :=
     ICatches p; IIndices := v; IValTypes := IValTypes p; ITyped := ITyped p; IMemArg := IMemArg p; ILanes := ILanes
     p; IRefType := IRefType p; IHeapType := IHeapType p; IHeapType2 := IHeapType2 p |}.
Definition with_ValTypes (v : list ValType) (p : payload) : payload :=
  {| IKind := IKind p; IIndex := IIndex p; IIndex2 := IIndex2 p; II32 := II32 p; II64 := II64 p;
     IF32Bits := IF32Bits p; IF64Bits := IF64Bits p; IAtomicOp := IAtomicOp p; ILane := ILane p;
     IAtomicOrder := IAtomicOrder p; ICast := ICast p; IBlockType := IBlockType p; ICatches :=
     ICatches p; IIndices := IIndices p; IValTypes := v; ITyped := true; IMemArg := IMemArg p; ILanes := ILanes
     p; IRefType := IRefType p; IHeapType := IHeapType p; IHeapType2 := IHeapType2 p |}.
Definition with_MemArg (v : MemArg) (p : payload) : payload :=
  {| IKind := IKind p; IIndex := IIndex p; IIndex2 := IIndex2 p; II32 := II32 p; II64 := II64 p;
     IF32Bits := IF32Bits p; IF64Bits := IF64Bits p; IAtomicOp := IAtomicOp p; ILane := ILane p;
     IAtomicOrder := IAtomicOrder p; ICast := ICast p; IBlockType := IBlockType p; ICatches :=
     ICatches p; IIndices := IIndices p; IValTypes := IValTypes p; ITyped := ITyped p; IMemArg := v; ILanes :=
     ILanes p; IRefType := IRefType p; IHeapType := IHeapType p; IHeapType2 := IHeapType2 p |}.
Definition with_Lanes (v : list Z) (p : payload) : payload :=
  {| IKind := IKind p; IIndex := IIndex p; IIndex2 := IIndex2 p; II32 := II32 p; II64 := II64 p;
     IF32Bits := IF32Bits p; IF64Bits := IF64Bits p; IAtomicOp := IAtomicOp p; ILane := ILane p;
     IAtomicOrder := IAtomicOrder p; ICast := ICast p; IBlockType := IBlockType p; ICatches :=
     ICatches p; IIndices := IIndices p; IValTypes := IValTypes p; ITyped := ITyped p; IMemArg := IMemArg p; ILanes
     := v; IRefType := IRefType p; IHeapType := IHeapType p; IHeapType2 := IHeapType2 p |}.
Definition with_RefType (v : RefType) (p : payload) : payload :=
  {| IKind := IKind p; IIndex := IIndex p; IIndex2 := IIndex2 p; II32 := II32 p; II64 := II64 p;
     IF32Bits := IF32Bits p; IF64Bits := IF64Bits p; IAtomicOp := IAtomicOp p; ILane := ILane p;
     IAtomicOrder := IAtomicOrder p; ICast := ICast p; IBlockType := IBlockType p; ICatches :=
     ICatches p; IIndices := IIndices p; IValTypes := IValTypes p; ITyped := ITyped p; IMemArg := IMemArg p; ILanes
     := ILanes p; IRefType := v; IHeapType := IHeapType p; IHeapType2 := IHeapType2 p |}.
Definition with_HeapType (v : HeapType) (p : payload) : payload :=
  {| IKind := IKind p; IIndex := IIndex p; IIndex2 := IIndex2 p; II32 := II32 p; II64 := II64 p;
     IF32Bits := IF32Bits p; IF64Bits := IF64Bits p; IAtomicOp := IAtomicOp p; ILane := ILane p;
     IAtomicOrder := IAtomicOrder p; ICast := ICast p; IBlockType := IBlockType p; ICatches :=
     ICatches p; IIndices := IIndices p; IValTypes := IValTypes p; ITyped := ITyped p; IMemArg := IMemArg p; ILanes
     := ILanes p; IRefType := IRefType p; IHeapType := v; IHeapType2 := IHeapType2 p |}.
Definition with_HeapType2 (v : HeapType) (p : payload) : payload :=
  {| IKind := IKind p; IIndex := IIndex p; IIndex2 := IIndex2 p; II32 := II32 p; II64 := II64 p;
     IF32Bits := IF32Bits p; IF64Bits := IF64Bits p; IAtomicOp := IAtomicOp p; ILane := ILane p;
     IAtomicOrder := IAtomicOrder p; ICast := ICast p; IBlockType := IBlockType p; ICatches :=
     ICatches p; IIndices := IIndices p; IValTypes := IValTypes p; ITyped := ITyped p; IMemArg := IMemArg p; ILanes
     := ILanes p; IRefType := IRefType p; IHeapType := IHeapType p; IHeapType2 := v |}.

(** An instruction with the bodies of the structured ones: [Body], [Then],
    [Else]. *)
#[warnings="-register-all"]
Inductive Instruction : Set :=
| Node (p : payload) (body thn els : list Instruction).

Definition leaf (p : payload) : Instruction := Node p [] [] [].

(** ** Errors (errors.go) *)

Definition invalidInstructionError (op off : Z) : error :=
  decode_error
    (if existsb (Z.eqb op) [0x06; 0x07; 0x09; 0x18; 0x19]
     then ErrLegacyExceptionHandling else ErrInvalidInstruction) off.

(** [return ..., invalidInstructionError(op, r.off()-1)] *)
Definition fail_opcode {A} (op : Z) : R A :=
  fun r => (Err (invalidInstructionError op (reader.off r - 1)), r).

(** ** Immediates *)

Definition isValTypeLead (b : Z) : bool :=
  existsb (Z.eqb b)
    [0x7f; 0x7e; 0x7d; 0x7c; 0x7b; 0x63; 0x64; 0x6f; 0x70; 0x6e; 0x6d; 0x6c; 0x6b; 0x6a; 0x69;
     0x71; 0x72; 0x73; 0x74].

(** Any failure of the type index, also the error of [s33], is reported as
    [ErrInvalidBlockType] where the cursor stopped. *)
Definition decodeBlockType : R BlockType :=
  let! o := peekM in
  match o with
  | None => fail_at ErrInvalidBlockType 0
  | Some b =>
      if b =? 0x40 then
        rd.byte ;;; ret {| BKind := BlockVoid; BVal := zeroWord; BType := zeroIdx |}
      else if isValTypeLead b then
        let! vt := decodeValType in
        ret {| BKind := BlockVal; BVal := vt; BType := zeroIdx |}
      else fun r =>
        match rd.s33 r with
        | (Ok x, r') =>
            if x <? 0 then fail_at ErrInvalidBlockType 0 r'
            else (Ok {| BKind := BlockTypeIndex; BVal := zeroWord;
                        BType := {| Index := to_u32 x; Rec := false |} |}, r')
        | (Err _, r') => fail_at ErrInvalidBlockType 0 r'
        | (Panic, r') => (Panic, r')
        end
  end.

Definition indexInst (k : Z) : R payload :=
  let! x := rd.u32 in ret (with_Index x (kind k)).

Definition twoIndexInst (k : Z) : R payload :=
  let! a := rd.u32 in
  let! b := rd.u32 in
  ret (with_Index2 b (with_Index a (kind k))).

Definition readReservedZeroByte : R unit :=
  let! b := rd.byte in
  if negb (b =? 0) then fail_at ErrInvalidInstruction (-1) else ret tt.

Definition reservedZeroInst (k : Z) : R payload :=
  readReservedZeroByte ;;; ret (kind k).

(** [memargWidths]: per-memory offset widths as a bit set, or one width. *)
Record memargWidths : Set := { multiMemory : bool; indexed64 : list Z; fixed64 : bool }.

Definition fixedMemargWidths (addr64 : bool) : memargWidths :=
  {| multiMemory := true; indexed64 := []; fixed64 := addr64 |}.

Definition offset64 (w : memargWidths) (memoryIndex : Z) : bool :=
  match indexed64 w !! Z.to_nat (Z.shiftr memoryIndex 6) with
  | Some word => negb (Z.land word (to_u64 (Z.shiftl 1 (Z.land memoryIndex 63))) =? 0)
  | None => fixed64 w
  end.

Definition decodeMemArgWithWidths (widths : memargWidths) : R MemArg :=
  let! n := rd.u32 in
  let! am :=
    (if (64 <=? n) && (n <? 128) then
       if negb (multiMemory widths) then fail_at ErrInvalidInstruction 0
       else
         let! mi := rd.u32 in ret (n - 64, Some mi)
     else if n <? 64 then ret (n, None)
     else fail_at ErrInvalidInstruction 0) in
  let memoryIndex := match snd am with Some mi => mi | None => 0 end in
  let! off := (if offset64 widths memoryIndex then rd.u64 else rd.u32) in
  ret {| Align := fst am; Mem := snd am; MOffset := off |}.

Definition sizeof_Catch : Z := 12.

Definition decodeCatch : R Catch :=
  let! b := rd.byte in
  if (b =? 0) || (b =? 1) then
    let! t := rd.u32 in
    let! l := rd.u32 in
    ret {| CatchKind := b; CTag := t; CLabel := l |}
  else if (b =? 2) || (b =? 3) then
    let! l := rd.u32 in
    ret {| CatchKind := b; CTag := 0; CLabel := l |}
  else fail_at ErrInvalidInstruction (-1).

Definition decodeRefTypeForNull : R RefType :=
  let! p := decodeRefHeapType in
  ret (Ref true (snd p) (fst p)).

(** ** Prefixed instructions *)

Definition readMemoryIndex (multi : bool) : R Z :=
  if multi then rd.u32 else (readReservedZeroByte ;;; ret 0).

Definition decodeFCWithMultiMemory (multi : bool) : R payload :=
  let! sub := rd.u32 in
  match lookupPrefixKind fcNoImm sub with
  | Some k => ret (kind k)
  | None =>
      if sub =? 8 then
        let! a := rd.u32 in
        let! b := readMemoryIndex multi in
        ret (with_Index2 b (with_Index a (kind InstrMemoryInit)))
      else if sub =? 9 then indexInst InstrDataDrop
      else if sub =? 10 then
        let! a := readMemoryIndex multi in
        let! b := readMemoryIndex multi in
        ret (with_Index2 b (with_Index a (kind InstrMemoryCopy)))
      else if sub =? 11 then
        let! mi := readMemoryIndex multi in
        ret (with_Index mi (kind InstrMemoryFill))
      else if sub =? 12 then twoIndexInst InstrTableInit
      else if sub =? 13 then indexInst InstrElemDrop
      else if sub =? 14 then twoIndexInst InstrTableCopy
      else if sub =? 15 then indexInst InstrTableGrow
      else if sub =? 16 then indexInst InstrTableSize
      else if sub =? 17 then indexInst InstrTableFill
      else fail_at ErrInvalidInstruction 0
  end.

Definition decodeCastOp : R CastOp :=
  let! b := rd.byte in
  if b =? 0 then ret {| SourceNullable := false; TargetNullable := false |}
  else if b =? 1 then ret {| SourceNullable := true; TargetNullable := false |}
  else if b =? 2 then ret {| SourceNullable := false; TargetNullable := true |}
  else if b =? 3 then ret {| SourceNullable := true; TargetNullable := true |}
  else fail_at ErrInvalidInstruction (-1).

(** The cases of [decodeFB] that read one index, two indexes or nothing. *)
Definition fbOneIndexCases : list (Z * Z) :=
  [(0, InstrStructNew); (1, InstrStructNewDefault); (32, InstrStructNewDesc);
   (33, InstrStructNewDefaultDesc); (6, InstrArrayNew); (7, InstrArrayNewDefault);
   (11, InstrArrayGet); (12, InstrArrayGetS); (13, InstrArrayGetU); (14, InstrArraySet);
   (16, InstrArrayFill); (0x82, InstrStringConst); (34, InstrRefGetDesc)].

Definition fbTwoIndexCases : list (Z * Z) :=
  [(2, InstrStructGet); (3, InstrStructGetS); (4, InstrStructGetU); (5, InstrStructSet);
   (8, InstrArrayNewFixed); (9, InstrArrayNewData); (10, InstrArrayNewElem);
   (17, InstrArrayCopy); (18, InstrArrayInitData); (19, InstrArrayInitElem)].

Definition fbStringCases : list (Z * Z) :=
  [(0xb0, InstrStringNewUtf8Array); (0xb1, InstrStringNewWtf16Array);
   (0xb2, InstrStringEncodeUtf8Array); (0xb3, InstrStringEncodeWtf16Array);
   (0xb4, InstrStringNewLossyUtf8Array); (0xb5, InstrStringNewWtf8Array);
   (0xb6, InstrStringEncodeLossyUtf8Array); (0xb7, InstrStringEncodeWtf8Array)].

(** [case c: ...] over a table of cases. *)
Notation "'switch' t 'on' x 'case' k '=>' m 'default' d" :=
  (match lookupPrefixKind t x with Some k => m | None => d end)
  (at level 10, t at level 9, x at level 9, k name, m at level 200, d at level 200).

Definition decodeFB : R payload :=
  let! sub := rd.u32 in
  switch fbNoImm on sub case k => ret (kind k) default
  switch fbOneIndexCases on sub case k => indexInst k default
  switch fbTwoIndexCases on sub case k => twoIndexInst k default
  switch fbStringCases on sub case k => ret (kind k) default
  if (sub =? 20) || (sub =? 21) then
    let! ht := decodeHeapType in
    ret (with_HeapType ht
          (with_Cast {| SourceNullable := false; TargetNullable := sub =? 21 |}
            (kind InstrRefTest)))
  else if (sub =? 22) || (sub =? 23) then
    let! p := decodeRefHeapType in
    ret (with_HeapType (snd p)
          (with_Cast {| SourceNullable := fst p; TargetNullable := sub =? 23 |}
            (kind InstrRefCast)))
  else if (sub =? 24) || (sub =? 25) then
    let! cast := decodeCastOp in
    let! l := rd.u32 in
    let! ht1 := decodeHeapType in
    let! ht2 := decodeHeapType in
    ret (with_HeapType2 ht2 (with_HeapType ht1 (with_Cast cast (with_Index l
          (kind (if sub =? 25 then InstrBrOnCastFail else InstrBrOnCast))))))
  else if (sub =? 35) || (sub =? 36) then
    let! p := decodeRefHeapType in
    ret (with_HeapType (snd p)
          (with_Cast {| SourceNullable := fst p; TargetNullable := sub =? 36 |}
            (kind InstrRefCastDescEq)))
  else fail_at ErrInvalidInstruction 0.

Definition decodeAtomicOrder : R Z :=
  let! b := rd.byte in
  if (b =? SeqCst) || (b =? AcqRel) then ret b else fail_at ErrInvalidInstruction (-1).

Definition decodeFEWithMemargWidths (widths : memargWidths) : R payload :=
  let! sub := rd.u32 in
  if sub =? 0x03 then
    let! b := rd.byte in
    if negb (b =? 0) then fail_at ErrInvalidInstruction (-1)
    else ret (kind InstrAtomicFence)
  else if (0x5c <=? sub) && (sub <=? 0x5e) then
    let! order := decodeAtomicOrder in
    let! typeIdx := rd.u32 in
    let! fieldIdx := rd.u32 in
    let k := if sub =? 0x5d then InstrStructAtomicGetS
             else if sub =? 0x5e then InstrStructAtomicGetU else InstrStructAtomicGet in
    ret (with_Index2 fieldIdx (with_Index typeIdx (with_AtomicOrder order (kind k))))
  else
  switch feMem on sub case k =>
    (let! ma := decodeMemArgWithWidths widths in
     ret (with_MemArg ma (with_AtomicOp sub (kind k))))
  default
  if (30 <=? sub) && (sub <=? 71) then
    let! ma := decodeMemArgWithWidths widths in
    ret (with_MemArg ma (with_AtomicOp sub (kind InstrAtomicRmw)))
  else if (72 <=? sub) && (sub <=? 78) then
    let! ma := decodeMemArgWithWidths widths in
    ret (with_MemArg ma (with_AtomicOp sub (kind InstrAtomicCmpxchg)))
  else fail_at ErrInvalidInstruction 0.

Definition decodeFDWithMemargWidths (widths : memargWidths) : R payload :=
  let! sub := rd.u32 in
  if sub =? 12 then
    let! bs := repeatM 16 rd.byte in ret (with_Lanes bs (kind InstrV128Const))
  else if sub =? 13 then
    let! lanes := repeatM 16 rd.byte in ret (with_Lanes lanes (kind InstrI8x16Shuffle))
  else
  switch fdNoImm on sub case k => ret (kind k) default
  switch fdMem on sub case k =>
    (let! ma := decodeMemArgWithWidths widths in
     let p := with_MemArg ma (kind k) in
     if (84 <=? sub) && (sub <=? 91) then
       let! lane := rd.byte in ret (with_Lane lane p)
     else ret p)
  default
  switch fdLane on sub case k => (let! lane := rd.byte in ret (with_Lane lane (kind k))) default
  fail_at ErrInvalidInstruction 0.

(** ** Instructions without a body *)

(** The cases that read one index, two indexes or nothing. *)
Definition oneIndexCases : list (Z * Z) :=
  [(0x08, InstrThrow); (0x0c, InstrBr); (0x0d, InstrBrIf); (0x10, InstrCall);
   (0x12, InstrReturnCall); (0x14, InstrCallRef); (0x15, InstrReturnCallRef);
   (0x20, InstrLocalGet); (0x21, InstrLocalSet); (0x22, InstrLocalTee);
   (0x23, InstrGlobalGet); (0x24, InstrGlobalSet); (0x25, InstrTableGet);
   (0x26, InstrTableSet); (0xd2, InstrRefFunc); (0xd5, InstrBrOnNull);
   (0xd6, InstrBrOnNonNull)].

Definition twoIndexCases : list (Z * Z) :=
  [(0x11, InstrCallIndirect); (0x13, InstrReturnCallIndirect)].

Definition refNoImmCases : list (Z * Z) := [(0xd3, InstrRefEq); (0xd4, InstrRefAsNonNull)].

Definition sizeof_uint32 : Z := 4.

(** The cases [decodeInstructionWithMemargWidths] and [decodeDirectOp] share:
    every opcode that neither opens nor closes a block.  [otherwise] is the
    default of the enclosing switch. *)
Definition decodeLeafOp (widths : memargWidths) (op : Z) (otherwise : R payload) : R payload :=
  switch oneIndexCases on op case k => indexInst k default
  switch twoIndexCases on op case k => twoIndexInst k default
  switch refNoImmCases on op case k => ret (kind k) default
  switch memOpcodeTable on op case k =>
    (let! ma := decodeMemArgWithWidths widths in ret (with_MemArg ma (kind k)))
  default
  if op =? 0x0e then
    let! labels := rd.readVec sizeof_uint32 rd.u32 in
    let! def := rd.u32 in
    ret (with_Indices labels (with_Index def (kind InstrBrTable)))
  else if op =? 0x1c then
    let! vts := decodeResultType in ret (with_ValTypes vts (kind InstrSelect))
  else if (op =? 0x3f) || (op =? 0x40) then
    let k := if op =? 0x40 then InstrMemoryGrow else InstrMemorySize in
    if multiMemory widths then indexInst k else reservedZeroInst k
  else if op =? 0x41 then let! x := rd.i32 in ret (with_I32 x (kind InstrI32Const))
  else if op =? 0x42 then let! x := rd.i64 in ret (with_I64 x (kind InstrI64Const))
  else if op =? 0x43 then let! x := rd.le32 in ret (with_F32Bits x (kind InstrF32Const))
  else if op =? 0x44 then let! x := rd.le64 in ret (with_F64Bits x (kind InstrF64Const))
  else if op =? 0xd0 then
    let! rt := decodeRefTypeForNull in ret (with_RefType rt (kind InstrRefNull))
  else if op =? 0xfb then decodeFB
  else if op =? 0xfc then decodeFCWithMultiMemory (multiMemory widths)
  else if op =? 0xfd then decodeFDWithMemargWidths widths
  else if op =? 0xfe then decodeFEWithMemargWidths widths
  else otherwise.

(** ** The tree decoder *)

Definition maxInstructionNestingDepth : Z := 20000.

Definition simpleKind (op : Z) : option Z :=
  let k := simpleOpcode op in if k =? InstrInvalid then None else Some k.

(** [decodeInstructionWithMemargWidths], the loop of [decodeExprWithMemargWidths]
    and the loop of [decodeIfBodies].  A round of a loop that decodes an
    instruction consumes at least one byte, so a fuel of twice the bytes left is
    enough; without fuel the result is a [Panic]. *)
Fixpoint decodeInstructionW (fuel : nat) (widths : memargWidths) (depth : Z) : R Instruction :=
  match fuel with
  | O => panic
  | S fuel' =>
      if maxInstructionNestingDepth <? depth
      then fail_at ErrInstructionNestingLimitExceeded 0
      else
        let! op := rd.byte in
        match simpleKind op with
        | Some k => ret (leaf (kind k))
        | None =>
            if (op =? 0x02) || (op =? 0x03) || (op =? 0x04) then
              let! bt := decodeBlockType in
              if op =? 0x04 then
                let! te := decodeIfBodiesW fuel' widths (depth + 1) false in
                ret (Node (with_BlockType bt (kind InstrIf)) [] (fst te) (snd te))
              else
                let! body := decodeExprW fuel' widths (depth + 1) in
                ret (Node (with_BlockType bt
                            (kind (if op =? 0x02 then InstrBlock else InstrLoop))) body [] [])
            else if op =? 0x1f then
              let! bt := decodeBlockType in
              let! catches := rd.readVec sizeof_Catch decodeCatch in
              let! body := decodeExprW fuel' widths (depth + 1) in
              ret (Node (with_Catches catches (with_BlockType bt (kind InstrTryTable))) body [] [])
            else
              let! p := decodeLeafOp widths op (fail_opcode op) in
              ret (leaf p)
        end
  end
with decodeExprW (fuel : nat) (widths : memargWidths) (depth : Z) : R (list Instruction) :=
  match fuel with
  | O => panic
  | S fuel' =>
      if maxInstructionNestingDepth <? depth
      then fail_at ErrInstructionNestingLimitExceeded 0
      else
        let! o := peekM in
        match o with
        | None => fail_at ErrIndexOutOfBounds 0
        | Some b =>
            if b =? 0x0b then rd.byte ;;; ret []
            else
              let! inst := decodeInstructionW fuel' widths (depth + 1) in
              let! rest := decodeExprW fuel' widths depth in
              ret (inst :: rest)
        end
  end
with decodeIfBodiesW (fuel : nat) (widths : memargWidths) (depth : Z) (inElse : bool)
  : R (list Instruction * list Instruction) :=
  match fuel with
  | O => panic
  | S fuel' =>
      let! o := peekM in
      match o with
      | None => fail_at ErrIndexOutOfBounds 0
      | Some b =>
          if b =? 0x05 then
            if inElse then fail_at ErrInvalidInstruction 0
            else rd.byte ;;; decodeIfBodiesW fuel' widths depth true
          else if b =? 0x0b then rd.byte ;;; ret ([], [])
          else
            let! inst := decodeInstructionW fuel' widths (depth + 1) in
            let! te := decodeIfBodiesW fuel' widths depth inElse in
            ret (if inElse then (fst te, inst :: snd te) else (inst :: fst te, snd te))
      end
  end.

Definition treeFuel (r : reader.t) : nat := 2 * (length (reader.data r) - reader.pos r) + 2.

Definition decodeExprWithMemargWidths (depth : Z) (widths : memargWidths) : R (list Instruction) :=
  fun r => decodeExprW (treeFuel r) widths depth r.

Definition decodeExprWithMemarg64 (depth : Z) (memarg64 : bool) : R (list Instruction) :=
  decodeExprWithMemargWidths depth (fixedMemargWidths memarg64).

Definition decodeExpr (depth : Z) : R (list Instruction) :=
  decodeExprWithMemargWidths depth (fixedMemargWidths false).

(** ** One operation of a body (validate_bytebacked.go) *)

Inductive directOpKind : Set :=
| directInstr
| directBlock
| directLoop
| directIf
| directTryTable
| directElse
| directEnd.

#[export] Instance directOpKind_eq_dec : EqDecision directOpKind.
Proof. solve_decision. Defined.

Record directOp : Set := {
  dkind : directOpKind;
  dinstr : payload;
  dblockType : BlockType;
  dcatches : list Catch
}.

Definition direct (k : directOpKind) (p : payload) (bt : BlockType) (cs : list Catch) : directOp :=
  {| dkind := k; dinstr := p; dblockType := bt; dcatches := cs |}.

Definition zeroPayload : payload := kind InstrInvalid.

Definition with_multiMemory (multi : bool) (w : memargWidths) : memargWidths :=
  {| multiMemory := multi; indexed64 := indexed64 w; fixed64 := fixed64 w |}.

(** The switch of [decodeDirectOp] on the opcode it has read. *)
Definition decodeDirectOpcode (widths : memargWidths) (multi : bool) (op : Z) : R directOp :=
  match simpleKind op with
  | Some k => ret (direct directInstr (kind k) zeroBlockType [])
  | None =>
      if (op =? 0x02) || (op =? 0x03) || (op =? 0x04) then
        let! bt := decodeBlockType in
        ret (direct (if op =? 0x03 then directLoop
                     else if op =? 0x04 then directIf else directBlock) zeroPayload bt [])
      else if op =? 0x05 then ret (direct directElse zeroPayload zeroBlockType [])
      else if op =? 0x0b then ret (direct directEnd zeroPayload zeroBlockType [])
      else if op =? 0x1f then
        let! bt := decodeBlockType in
        let! catches := rd.readVec sizeof_Catch decodeCatch in
        ret (direct directTryTable zeroPayload bt catches)
      else
        let! p := decodeLeafOp (with_multiMemory multi widths) op
                    (fail_at ErrInvalidInstruction (-1)) in
        ret (direct directInstr p zeroBlockType [])
  end.

Definition decodeDirectOp (widths : memargWidths) (multi : bool) : R directOp :=
  let! op := rd.byte in decodeDirectOpcode widths multi op.
