(* ===== verification/InstrLaws.v ===== *)
(** * Safety of the instruction decoders

    Every decoder of [Instr] is [safe] and returns a well-formed payload; the
    tree decoder has fuel enough. *)

From stdpp Require Import base tactics numbers list.
From Stdlib Require Import ZArith Lia.
From S2P Require Import Prelude Reader LebSpec ReaderLaws Types TypesLaws Decode DecodeLaws.
From S2P Require Import Kinds Instr.
Local Open Scope Z_scope.

(** ** Well-formed payloads *)

Definition memarg_ok (ma : MemArg) : Prop :=
  0 <= Align ma < 64 /\ (forall m, Mem ma = Some m -> u32_ok m) /\ u64_ok (MOffset ma).

Definition blocktype_ok (bt : BlockType) : Prop :=
  (BKind bt = BlockVoid \/ (BKind bt = BlockVal /\ decoded_val (BVal bt)) \/
   BKind bt = BlockTypeIndex) /\ plain_idx (BType bt).

Definition catch_ok (c : Catch) : Prop :=
  0 <= CatchKind c <= 3 /\ u32_ok (CTag c) /\ u32_ok (CLabel c).

Definition kind_ok (k : Z) : Prop := InstrInvalid < k < numInstrKinds.

Record payload_ok (p : payload) : Prop := {
  pok_kind : kind_ok (IKind p);
  pok_index : u32_ok (IIndex p);
  pok_index2 : u32_ok (IIndex2 p);
  pok_i32 : in_i32 (II32 p);
  pok_i64 : in_i64 (II64 p);
  pok_f32 : u32_ok (IF32Bits p);
  pok_f64 : u64_ok (IF64Bits p);
  pok_lane : byte_ok (ILane p);
  pok_block : blocktype_ok (IBlockType p);
  pok_catches : Forall catch_ok (ICatches p);
  pok_indices : Forall u32_ok (IIndices p);
  pok_valtypes : Forall decoded_val (IValTypes p);
  pok_memarg : memarg_ok (IMemArg p);
  pok_lanes : length (ILanes p) = 16%nat /\ bytes_ok (ILanes p);
  pok_ref : ref_ok (IRefType p);
  pok_heap : heap_ok (IHeapType p);
  pok_heap2 : heap_ok (IHeapType2 p)
}.

Lemma zero_block_ok : blocktype_ok zeroBlockType.
Proof. split; [by left|]. split; done. Qed.

Lemma payload_ok_kind k : kind_ok k -> payload_ok (kind k).
Proof.
  intros Hk. split; simpl; try done; try apply zero_block_ok;
    try (unfold u32_ok, u64_ok, in_i32, in_i64, byte_ok; lia).
  all: repeat match goal with |- _ /\ _ => split end; simpl; try done; repeat constructor; lia.
Qed.

(** One lemma per field update. *)
Ltac update := intros; match goal with H : payload_ok _ |- _ => destruct H end; by split.

Lemma with_Index_ok v p : u32_ok v -> payload_ok p -> payload_ok (with_Index v p).
Proof. update. Qed.
Lemma with_Index2_ok v p : u32_ok v -> payload_ok p -> payload_ok (with_Index2 v p).
Proof. update. Qed.
Lemma with_I32_ok v p : in_i32 v -> payload_ok p -> payload_ok (with_I32 v p).
Proof. update. Qed.
Lemma with_I64_ok v p : in_i64 v -> payload_ok p -> payload_ok (with_I64 v p).
Proof. update. Qed.
Lemma with_F32Bits_ok v p : u32_ok v -> payload_ok p -> payload_ok (with_F32Bits v p).
Proof. update. Qed.
Lemma with_F64Bits_ok v p : u64_ok v -> payload_ok p -> payload_ok (with_F64Bits v p).
Proof. update. Qed.
Lemma with_AtomicOp_ok v p : payload_ok p -> payload_ok (with_AtomicOp v p).
Proof. update. Qed.
Lemma with_Lane_ok v p : byte_ok v -> payload_ok p -> payload_ok (with_Lane v p).
Proof. update. Qed.
Lemma with_AtomicOrder_ok v p : payload_ok p -> payload_ok (with_AtomicOrder v p).
Proof. update. Qed.
Lemma with_Cast_ok v p : payload_ok p -> payload_ok (with_Cast v p).
Proof. update. Qed.
Lemma with_BlockType_ok v p : blocktype_ok v -> payload_ok p -> payload_ok (with_BlockType v p).
Proof. update. Qed.
Lemma with_Catches_ok v p : Forall catch_ok v -> payload_ok p -> payload_ok (with_Catches v p).
Proof. update. Qed.
Lemma with_Indices_ok v p : Forall u32_ok v -> payload_ok p -> payload_ok (with_Indices v p).
Proof. update. Qed.
Lemma with_ValTypes_ok v p : Forall decoded_val v -> payload_ok p -> payload_ok (with_ValTypes v p).
Proof. update. Qed.
Lemma with_MemArg_ok v p : memarg_ok v -> payload_ok p -> payload_ok (with_MemArg v p).
Proof. update. Qed.
Lemma with_Lanes_ok v p :
  length v = 16%nat -> bytes_ok v -> payload_ok p -> payload_ok (with_Lanes v p).
Proof. update. Qed.
Lemma with_RefType_ok v p : ref_ok v -> payload_ok p -> payload_ok (with_RefType v p).
Proof. update. Qed.
Lemma with_HeapType_ok v p : heap_ok v -> payload_ok p -> payload_ok (with_HeapType v p).
Proof. update. Qed.
Lemma with_HeapType2_ok v p : heap_ok v -> payload_ok p -> payload_ok (with_HeapType2 v p).
Proof. update. Qed.

Create HintDb payload discriminated.
#[export] Hint Resolve payload_ok_kind with_Index_ok with_Index2_ok with_I32_ok with_I64_ok
  with_F32Bits_ok with_F64Bits_ok with_AtomicOp_ok with_Lane_ok with_AtomicOrder_ok with_Cast_ok
  with_BlockType_ok with_Catches_ok with_Indices_ok with_ValTypes_ok with_MemArg_ok with_Lanes_ok
  with_RefType_ok with_HeapType_ok with_HeapType2_ok : payload.

(** ** Tables *)

Definition table_ok (t : list (Z * Z)) : bool :=
  forallb (fun e => (InstrInvalid <? snd e) && (snd e <? numInstrKinds)) t.

Lemma lookupPrefixKind_ok t sub k :
  table_ok t = true -> lookupPrefixKind t sub = Some k -> kind_ok k.
Proof.
  unfold lookupPrefixKind. intros Ht H. destruct (table_get t sub =? InstrInvalid) eqn:E; [done|].
  injection H as <-. induction t as [|[a b] t IH]; simpl in *; [done|].
  apply andb_prop in Ht as [Hb Ht]. destruct (sub =? a); [|by apply IH].
  unfold kind_ok. bool_to_prop. simpl in *. lia.
Qed.

Ltac table_kind :=
  match goal with
  | H : lookupPrefixKind ?t _ = Some ?k |- kind_ok ?k =>
      exact (lookupPrefixKind_ok t _ k (eq_refl (A := bool)) H)
  end.
#[export] Hint Extern 1 (kind_ok ?k) => first [table_kind | done] : payload.
#[export] Hint Extern 5 (kind_ok (if _ then _ else _)) => repeat case_match; done : payload.

Ltac payload := solve [eauto 12 with payload nocore].

(** ** Immediates *)

Lemma safe_fail_opcode {A} k op (Q : A -> Prop) : safe k (fail_opcode op) Q.
Proof. intros r Hr. split; [done|apply reader_ext_refl]. Qed.

Lemma safe_decodeBlockType : safe 1 decodeBlockType blocktype_ok.
Proof.
  unfold decodeBlockType. safe_step. safe_step; [|safe_step]. safe_step.
  - safe_go; [done|]. split; [by left|done].
  - safe_step.
    + safe_go; [done|]. split; [by right; left|done].
    + intros r Hr. pose proof (safe_s33 r Hr) as Hs. simpl.
      destruct (rd.s33 r) as [[x|e|] r']; [|done|done].
      destruct Hs as (Hr' & He & Hx). destruct (x <? 0).
      * split; [done|]. by eapply reader_ext_le; [|exact He]; lia.
      * split; [done|]. split; [done|]. split; [by right; right|].
        split; [apply to_u32_range|done].
Qed.

Lemma safe_indexInst k : kind_ok k -> safe 1 (indexInst k) payload_ok.
Proof. intros. unfold indexInst. safe_go; [done|]. payload. Qed.

Lemma safe_twoIndexInst k : kind_ok k -> safe 2 (twoIndexInst k) payload_ok.
Proof. intros. unfold twoIndexInst. safe_go; [done|]. payload. Qed.

Lemma safe_readReservedZeroByte : safe 1 readReservedZeroByte (fun _ => True).
Proof. unfold readReservedZeroByte. safe_go; done. Qed.
#[export] Hint Resolve safe_decodeBlockType safe_readReservedZeroByte : safe.

Lemma safe_reservedZeroInst k : kind_ok k -> safe 1 (reservedZeroInst k) payload_ok.
Proof. intros. unfold reservedZeroInst. safe_go; [done|]. payload. Qed.

Lemma u32_u64 v : u32_ok v -> u64_ok v.
Proof. unfold u32_ok, u64_ok. lia. Qed.

Lemma safe_decodeMemArgWithWidths w : safe 2 (decodeMemArgWithWidths w) memarg_ok.
Proof.
  unfold decodeMemArgWithWidths. eapply safe_bind; [apply safe_u32|]. intros n Hn.
  eapply (safe_bind _ 0 _ _ (fun am => 0 <= fst am < 64 /\ forall m, snd am = Some m -> u32_ok m)).
  - unfold u32_ok in Hn. safe_go; try lia; try done.
    + simpl. bool_to_prop. split; [lia|]. by intros m [= <-].
    + simpl. bool_to_prop. split; [lia|done].
  - intros [a m] [Ha Hm]. cbv zeta.
    eapply (safe_bind _ 1 _ _ u64_ok).
    + safe_go. eapply safe_mono; [apply safe_u32|lia|apply u32_u64].
    + intros off Ho. apply safe_ret; [lia|]. by split.
Qed.

Lemma safe_decodeCatch : safe 2 decodeCatch catch_ok.
Proof.
  unfold decodeCatch. safe_go; try lia; unfold byte_ok in *; (split; [simpl; lia|]); simpl; done.
Qed.

Lemma decoded_pack_heap_ok (h : HeapType) e :
  (exists h', heap_decodable e h' /\ h = pack_heap h') -> heap_ok h.
Proof. intros (h' & Hh & ->). by eapply pack_heap_ok, heap_decodable_ok. Qed.

Lemma safe_decodeRefTypeForNull : safe 1 decodeRefTypeForNull ref_ok.
Proof.
  unfold decodeRefTypeForNull. safe_go; [done|].
  by eapply Ref_ok, decoded_pack_heap_ok.
Qed.

Lemma safe_readMemoryIndex b : safe 1 (readMemoryIndex b) u32_ok.
Proof. unfold readMemoryIndex. safe_go; done. Qed.

Lemma safe_decodeCastOp : safe 1 decodeCastOp (fun _ => True).
Proof. unfold decodeCastOp. safe_go; done. Qed.

Lemma safe_decodeAtomicOrder : safe 1 decodeAtomicOrder (fun _ => True).
Proof. unfold decodeAtomicOrder. safe_go; done. Qed.

#[export] Hint Resolve safe_decodeMemArgWithWidths safe_decodeCatch safe_decodeRefTypeForNull
  safe_readMemoryIndex safe_decodeCastOp safe_decodeAtomicOrder : safe.
#[export] Hint Extern 1 (safe _ (indexInst _) _) =>
  apply safe_indexInst; solve [eauto with payload nocore] : safe.
#[export] Hint Extern 1 (safe _ (twoIndexInst _) _) =>
  apply safe_twoIndexInst; solve [eauto with payload nocore] : safe.
#[export] Hint Extern 1 (safe _ (reservedZeroInst _) _) =>
  apply safe_reservedZeroInst; solve [eauto with payload nocore] : safe.

(** ** Prefixed and leaf instructions *)

Lemma safe_decodeFCWithMultiMemory b : safe 1 (decodeFCWithMultiMemory b) payload_ok.
Proof. unfold decodeFCWithMultiMemory. safe_go; try lia; payload. Qed.

#[export] Hint Extern 2 (heap_ok _) => eapply decoded_pack_heap_ok; eassumption : payload.

Lemma safe_decodeFB : safe 1 decodeFB payload_ok.
Proof. unfold decodeFB. safe_go; try lia; payload. Qed.

Lemma safe_decodeFEWithMemargWidths w : safe 1 (decodeFEWithMemargWidths w) payload_ok.
Proof. unfold decodeFEWithMemargWidths. safe_go; try lia; payload. Qed.

Lemma safe_lanes : safe 16 (repeatM 16 rd.byte) (fun l => length l = 16%nat /\ bytes_ok l).
Proof. apply (safe_repeatM 16 1), safe_byte. Qed.
#[export] Hint Resolve safe_lanes : safe.

Lemma safe_decodeFDWithMemargWidths w : safe 1 (decodeFDWithMemargWidths w) payload_ok.
Proof.
  unfold decodeFDWithMemargWidths. eapply safe_bind; [apply safe_u32|]. intros sub _.
  apply safe_if; intros _.
  - eapply safe_bind; [apply safe_lanes|]. intros l [? ?]. apply safe_ret; [done|]. payload.
  - apply safe_if; intros _.
    + eapply safe_bind; [apply safe_lanes|]. intros l [? ?]. apply safe_ret; [done|]. payload.
    + safe_go; try lia; payload.
Qed.
#[export] Hint Resolve safe_decodeFCWithMultiMemory safe_decodeFB safe_decodeFEWithMemargWidths
  safe_decodeFDWithMemargWidths : safe.

Lemma safe_decodeLeafOp w op m : safe 0 m payload_ok -> safe 0 (decodeLeafOp w op m) payload_ok.
Proof.
  intros Hm. unfold decodeLeafOp.
  safe_go; try lia; try payload; try (eapply safe_zero; eauto with safe nocore).
  all: eapply safe_zero; first [apply safe_indexInst | apply safe_reservedZeroInst]; payload.
Qed.

Definition direct_ok (d : directOp) : Prop :=
  (dkind d = directInstr -> payload_ok (dinstr d)) /\ blocktype_ok (dblockType d) /\
  Forall catch_ok (dcatches d).

Lemma simpleKind_ok op k : simpleKind op = Some k -> kind_ok k.
Proof. apply (lookupPrefixKind_ok simpleOpcodeTable). reflexivity. Qed.
#[export] Hint Extern 1 (kind_ok _) => eapply simpleKind_ok; eassumption : payload.

Lemma safe_decodeDirectOp w multi : safe 1 (decodeDirectOp w multi) direct_ok.
Proof.
  unfold decodeDirectOp. eapply safe_bind; [apply safe_byte|]. intros op _.
  unfold decodeDirectOpcode.
  destruct (simpleKind op) as [k|] eqn:E.
  { apply safe_ret; [done|]. split; [simpl; intros; payload|]. split; [apply zero_block_ok|done]. }
  repeat (apply safe_if; intros _).
  - safe_go; [done|]. split; [simpl; by repeat case_match|]. by split.
  - apply safe_ret; [done|]. split; [done|]. split; [apply zero_block_ok|done].
  - apply safe_ret; [done|]. split; [done|]. split; [apply zero_block_ok|done].
  - safe_go; [done|]. split; [done|]. by split.
  - eapply safe_bind; [apply safe_decodeLeafOp, safe_fail_at|]. intros p Hp.
    apply safe_ret; [done|]. split; [done|]. split; [apply zero_block_ok|done].
Qed.
#[export] Hint Resolve safe_decodeDirectOp : safe.

(** ** The tree decoder has fuel enough *)

(** [fsafe n f m Q]: [m] is safe when at most [n] bytes are left. *)
Definition fsafe {A} (n : nat) (k : nat) (m : R A) (Q : A -> Prop) : Prop :=
  forall r, reader_ok r -> (length (reader.data r) - reader.pos r <= n)%nat ->
    match m r with
    | (Ok a, r') => reader_ok r' /\ reader_ext k r r' /\ Q a
    | (Err _, r') => reader_ok r' /\ reader_ext 0 r r'
    | (Panic, _) => False
    end.

Lemma safe_fsafe {A} n k (m : R A) Q : safe k m Q -> fsafe n k m Q.
Proof. intros H r Hr _. by apply H. Qed.

Lemma fsafe_bind {A B} n k k1 (m : R A) (f : A -> R B) Q1 Q :
  fsafe n k1 m Q1 ->
  ((k1 <= n)%nat -> forall a, Q1 a -> fsafe (n - k1) (k - k1) (f a) Q) ->
  fsafe n k (bind m f) Q.
Proof.
  intros Hm Hf r Hr Hn. unfold bind. specialize (Hm r Hr Hn).
  destruct (m r) as [[a|e|] r1]; [|done|done].
  destruct Hm as (Hr1 & He1 & Ha).
  assert (Hk : (k1 <= n)%nat).
  { pose proof (ext_pos _ _ _ He1). pose proof (rok_pos _ Hr1) as Hp.
    rewrite (ext_data _ _ _ He1) in Hp. lia. }
  specialize (Hf Hk a Ha r1 Hr1).
  assert (Hn1 : (length (reader.data r1) - reader.pos r1 <= n - k1)%nat).
  { pose proof (ext_pos _ _ _ He1). rewrite (ext_data _ _ _ He1). lia. }
  specialize (Hf Hn1). destruct (f a r1) as [[b|e|] r2]; [| |done].
  - destruct Hf as (Hr2 & He2 & Hb). split; [done|]. split; [|done].
    eapply reader_ext_le; [|eapply reader_ext_trans; eauto]. lia.
  - destruct Hf as (Hr2 & He2). split; [done|].
    eapply reader_ext_le; [|eapply reader_ext_trans; eauto]. lia.
Qed.

Lemma fsafe_mono {A} n k1 k2 (m : R A) (Q : A -> Prop) :
  fsafe n k1 m Q -> (k2 <= k1)%nat -> fsafe n k2 m Q.
Proof.
  intros H Hk r Hr Hn. specialize (H r Hr Hn). destruct (m r) as [[a|e|] r']; [|done|done].
  destruct H as (? & ? & ?). split; [done|]. split; [by eapply reader_ext_le|done].
Qed.

Lemma fsafe_if {A} n k (b : bool) (m1 m2 : R A) Q :
  fsafe n k m1 Q -> fsafe n k m2 Q -> fsafe n k (if b then m1 else m2) Q.
Proof. by destruct b. Qed.

(** Every instruction of a decoded tree is well formed. *)
#[warnings="-register-all"]
Inductive tree_ok : Instruction -> Prop :=
| tree_ok_node p body thn els :
    payload_ok p -> Forall tree_ok body -> Forall tree_ok thn -> Forall tree_ok els ->
    tree_ok (Node p body thn els).

Lemma tree_ok_leaf p : payload_ok p -> tree_ok (leaf p).
Proof. by constructor. Qed.

Lemma fsafe_ret {A} n (a : A) (Q : A -> Prop) : Q a -> fsafe n 0 (ret a) Q.
Proof. intros. by apply safe_fsafe, safe_ret. Qed.

(** The three decoders on [n] bytes left, given their fuel. *)
Definition inst_fuel (fuel : nat) : Prop := forall n w depth,
  (2 * n + 1 <= fuel)%nat -> fsafe n 1 (decodeInstructionW fuel w depth) tree_ok.

Definition expr_fuel (fuel : nat) : Prop := forall n w depth,
  (2 * n + 2 <= fuel)%nat -> fsafe n 1 (decodeExprW fuel w depth) (Forall tree_ok).

Definition if_fuel (fuel : nat) : Prop := forall n w depth inElse,
  (2 * n + 2 <= fuel)%nat ->
  fsafe n 1 (decodeIfBodiesW fuel w depth inElse)
    (fun te => Forall tree_ok (fst te) /\ Forall tree_ok (snd te)).

(** Steps through a decoder under [fsafe] with the [safe] lemmas. *)
Ltac fsafe_bind_with L :=
  eapply fsafe_bind; [eapply safe_fsafe; L|]; let H := fresh "Hn" in intros H.

Lemma inst_fuel_step fuel : expr_fuel fuel -> if_fuel fuel -> inst_fuel (S fuel).
Proof.
  intros He Hi n w depth Hf. cbn [decodeInstructionW].
  apply fsafe_if; [apply safe_fsafe, safe_fail_at|].
  fsafe_bind_with ltac:(apply safe_byte). intros op _.
  destruct (simpleKind op) as [k|] eqn:E.
  { apply fsafe_ret, tree_ok_leaf. payload. }
  apply fsafe_if; [|apply fsafe_if].
  - fsafe_bind_with ltac:(apply safe_decodeBlockType). intros bt Hbt.
    destruct (op =? 0x04).
    + eapply fsafe_bind; [apply Hi; lia|]. intros _ [t e] [Ht Hel]. apply fsafe_ret.
      constructor; [payload|done|done|done].
    + eapply fsafe_bind; [apply He; lia|]. intros _ body Hb. apply fsafe_ret.
      constructor; [|done|done|done]. apply with_BlockType_ok; [done|]. by destruct (op =? 2); payload.
  - fsafe_bind_with ltac:(apply safe_decodeBlockType). intros bt Hbt.
    fsafe_bind_with ltac:(eapply safe_readVec; [done|apply safe_decodeCatch]). intros cs Hcs.
    eapply fsafe_bind; [apply He; lia|]. intros _ body Hb. apply fsafe_ret.
    constructor; [payload|done|done|done].
  - fsafe_bind_with ltac:(apply safe_decodeLeafOp, safe_fail_opcode). intros p Hp.
    by apply fsafe_ret, tree_ok_leaf.
Qed.

Lemma expr_fuel_step fuel : inst_fuel fuel -> expr_fuel fuel -> expr_fuel (S fuel).
Proof.
  intros Hi He n w depth Hf. cbn [decodeExprW].
  apply fsafe_if; [apply safe_fsafe, safe_fail_at|].
  fsafe_bind_with ltac:(apply safe_peekM). intros [b|] _; [|apply safe_fsafe, safe_fail_at].
  apply fsafe_if.
  - fsafe_bind_with ltac:(apply safe_byte). intros _ _. by apply fsafe_ret.
  - eapply fsafe_bind; [apply Hi; lia|]. intros Hn1 inst Ht.
    eapply fsafe_bind; [apply He; lia|]. intros _ rest Hrest.
    apply fsafe_ret. by constructor.
Qed.

Lemma if_fuel_step fuel : inst_fuel fuel -> if_fuel fuel -> if_fuel (S fuel).
Proof.
  intros Hi Hl n w depth inElse Hf. cbn [decodeIfBodiesW].
  fsafe_bind_with ltac:(apply safe_peekM). intros [b|] _; [|apply safe_fsafe, safe_fail_at].
  apply fsafe_if; [destruct inElse; [apply safe_fsafe, safe_fail_at|]|apply fsafe_if].
  - fsafe_bind_with ltac:(apply safe_byte). intros _ _.
    eapply fsafe_mono; [apply Hl; lia|lia].
  - fsafe_bind_with ltac:(apply safe_byte). intros _ _. by apply fsafe_ret.
  - eapply fsafe_bind; [apply Hi; lia|]. intros Hn1 inst Ht.
    eapply fsafe_bind; [apply Hl; lia|]. intros _ [t e] [H1 H2].
    apply fsafe_ret. destruct inElse; simpl in *; auto.
Qed.

Lemma tree_fuel fuel : inst_fuel fuel /\ expr_fuel fuel /\ if_fuel fuel.
Proof.
  induction fuel as [|fuel (Hi & He & Hl)].
  - split; [|split]; intros n w depth; [intros Hf; lia|intros Hf; lia|intros ? Hf; lia].
  - split; [by apply inst_fuel_step|]. split; [by apply expr_fuel_step|by apply if_fuel_step].
Qed.

Lemma safe_decodeExprWithMemargWidths depth w :
  safe 1 (decodeExprWithMemargWidths depth w) (Forall tree_ok).
Proof.
  intros r Hr. unfold decodeExprWithMemargWidths.
  destruct (tree_fuel (treeFuel r)) as (_ & He & _).
  apply (He (length (reader.data r) - reader.pos r)%nat); [unfold treeFuel; lia|done|done].
Qed.
