(* ===== verification/Skip.v ===== *)
(** * Skipping and classifying immediates (bytecode_skip.go, bytecode_walk.go)

    The allocation-free walkers of a body: [classifyExprOpAfterOpcodeWithWidths]
    consumes the immediates of an opcode and writes metadata through a pointer,
    [skipInstructionImmediateWithWidths] only consumes them.  The immediate
    record is part of the state, so that what an error path has already written
    is visible. *)

From stdpp Require Import base tactics numbers list.
From Stdlib Require Import ZArith Lia.
From S2P Require Import Prelude Reader Types Decode Kinds Instr.
Local Open Scope Z_scope.

Record InstructionImmediate : Set := {
  mKind : Z;
  mPrefix : Z;
  mSubopcode : Z;
  mIndex : Z;
  mIndex2 : Z;
  mHasMemIndex : bool;
  mMemIndex : Z;
  mMemAlign : Z;
  mMemOffset : Z;
  mTouchesMemory : bool;
  mUsesBulkMemory : bool;
  mHasHeapType : bool;
  mHeapType : HeapType;
  mHasHeapType2 : bool;
  mHeapType2 : HeapType;
  mCast : CastOp
}.

Definition zeroImm : InstructionImmediate :=
  {| mKind := InstrInvalid; mPrefix := 0; mSubopcode := 0; mIndex := 0; mIndex2 := 0;
     mHasMemIndex := false; mMemIndex := 0; mMemAlign := 0; mMemOffset := 0; mTouchesMemory :=
     false; mUsesBulkMemory := false; mHasHeapType := false; mHeapType := zeroWord;
     mHasHeapType2 := false; mHeapType2 := zeroWord; mCast := zeroCast |}.

(** [set_F v i] is [imm.F = v]. *)
Definition set_Kind (v : Z) (i : InstructionImmediate) : InstructionImmediate :=
  {| mKind := v; mPrefix := mPrefix i; mSubopcode := mSubopcode i; mIndex := mIndex i; mIndex2
     := mIndex2 i; mHasMemIndex := mHasMemIndex i; mMemIndex := mMemIndex i; mMemAlign :=
     mMemAlign i; mMemOffset := mMemOffset i; mTouchesMemory := mTouchesMemory i;
     mUsesBulkMemory := mUsesBulkMemory i; mHasHeapType := mHasHeapType i; mHeapType :=
     mHeapType i; mHasHeapType2 := mHasHeapType2 i; mHeapType2 := mHeapType2 i; mCast := mCast i
     |}.
Definition set_Prefix (v : Z) (i : InstructionImmediate) : InstructionImmediate :=
  {| mKind := mKind i; mPrefix := v; mSubopcode := mSubopcode i; mIndex := mIndex i; mIndex2 :=
     mIndex2 i; mHasMemIndex := mHasMemIndex i; mMemIndex := mMemIndex i; mMemAlign := mMemAlign
     i; mMemOffset := mMemOffset i; mTouchesMemory := mTouchesMemory i; mUsesBulkMemory :=
     mUsesBulkMemory i; mHasHeapType := mHasHeapType i; mHeapType := mHeapType i; mHasHeapType2
     := mHasHeapType2 i; mHeapType2 := mHeapType2 i; mCast := mCast i |}.
Definition set_Subopcode (v : Z) (i : InstructionImmediate) : InstructionImmediate :=
  {| mKind := mKind i; mPrefix := mPrefix i; mSubopcode := v; mIndex := mIndex i; mIndex2 :=
     mIndex2 i; mHasMemIndex := mHasMemIndex i; mMemIndex := mMemIndex i; mMemAlign := mMemAlign
     i; mMemOffset := mMemOffset i; mTouchesMemory := mTouchesMemory i; mUsesBulkMemory :=
     mUsesBulkMemory i; mHasHeapType := mHasHeapType i; mHeapType := mHeapType i; mHasHeapType2
     := mHasHeapType2 i; mHeapType2 := mHeapType2 i; mCast := mCast i |}.
Definition set_Index (v : Z) (i : InstructionImmediate) : InstructionImmediate :=
  {| mKind := mKind i; mPrefix := mPrefix i; mSubopcode := mSubopcode i; mIndex := v; mIndex2 :=
     mIndex2 i; mHasMemIndex := mHasMemIndex i; mMemIndex := mMemIndex i; mMemAlign := mMemAlign
     i; mMemOffset := mMemOffset i; mTouchesMemory := mTouchesMemory i; mUsesBulkMemory :=
     mUsesBulkMemory i; mHasHeapType := mHasHeapType i; mHeapType := mHeapType i; mHasHeapType2
     := mHasHeapType2 i; mHeapType2 := mHeapType2 i; mCast := mCast i |}.
Definition set_Index2 (v : Z) (i : InstructionImmediate) : InstructionImmediate :=
  {| mKind := mKind i; mPrefix := mPrefix i; mSubopcode := mSubopcode i; mIndex := mIndex i;
     mIndex2 := v; mHasMemIndex := mHasMemIndex i; mMemIndex := mMemIndex i; mMemAlign :=
     mMemAlign i; mMemOffset := mMemOffset i; mTouchesMemory := mTouchesMemory i;
     mUsesBulkMemory := mUsesBulkMemory i; mHasHeapType := mHasHeapType i; mHeapType :=
     mHeapType i; mHasHeapType2 := mHasHeapType2 i; mHeapType2 := mHeapType2 i; mCast := mCast i
     |}.
Definition set_HasMemIndex (v : bool) (i : InstructionImmediate) : InstructionImmediate :=
  {| mKind := mKind i; mPrefix := mPrefix i; mSubopcode := mSubopcode i; mIndex := mIndex i;
     mIndex2 := mIndex2 i; mHasMemIndex := v; mMemIndex := mMemIndex i; mMemAlign := mMemAlign
     i; mMemOffset := mMemOffset i; mTouchesMemory := mTouchesMemory i; mUsesBulkMemory :=
     mUsesBulkMemory i; mHasHeapType := mHasHeapType i; mHeapType := mHeapType i; mHasHeapType2
     := mHasHeapType2 i; mHeapType2 := mHeapType2 i; mCast := mCast i |}.
Definition set_MemIndex (v : Z) (i : InstructionImmediate) : InstructionImmediate :=
  {| mKind := mKind i; mPrefix := mPrefix i; mSubopcode := mSubopcode i; mIndex := mIndex i;
     mIndex2 := mIndex2 i; mHasMemIndex := mHasMemIndex i; mMemIndex := v; mMemAlign :=
     mMemAlign i; mMemOffset := mMemOffset i; mTouchesMemory := mTouchesMemory i;
     mUsesBulkMemory := mUsesBulkMemory i; mHasHeapType := mHasHeapType i; mHeapType :=
     mHeapType i; mHasHeapType2 := mHasHeapType2 i; mHeapType2 := mHeapType2 i; mCast := mCast i
     |}.
Definition set_MemAlign (v : Z) (i : InstructionImmediate) : InstructionImmediate :=
  {| mKind := mKind i; mPrefix := mPrefix i; mSubopcode := mSubopcode i; mIndex := mIndex i;
     mIndex2 := mIndex2 i; mHasMemIndex := mHasMemIndex i; mMemIndex := mMemIndex i; mMemAlign
     := v; mMemOffset := mMemOffset i; mTouchesMemory := mTouchesMemory i; mUsesBulkMemory :=
     mUsesBulkMemory i; mHasHeapType := mHasHeapType i; mHeapType := mHeapType i; mHasHeapType2
     := mHasHeapType2 i; mHeapType2 := mHeapType2 i; mCast := mCast i |}.
Definition set_MemOffset (v : Z) (i : InstructionImmediate) : InstructionImmediate :=
  {| mKind := mKind i; mPrefix := mPrefix i; mSubopcode := mSubopcode i; mIndex := mIndex i;
     mIndex2 := mIndex2 i; mHasMemIndex := mHasMemIndex i; mMemIndex := mMemIndex i; mMemAlign
     := mMemAlign i; mMemOffset := v; mTouchesMemory := mTouchesMemory i; mUsesBulkMemory :=
     mUsesBulkMemory i; mHasHeapType := mHasHeapType i; mHeapType := mHeapType i; mHasHeapType2
     := mHasHeapType2 i; mHeapType2 := mHeapType2 i; mCast := mCast i |}.
Definition set_TouchesMemory (v : bool) (i : InstructionImmediate) : InstructionImmediate :=
  {| mKind := mKind i; mPrefix := mPrefix i; mSubopcode := mSubopcode i; mIndex := mIndex i;
     mIndex2 := mIndex2 i; mHasMemIndex := mHasMemIndex i; mMemIndex := mMemIndex i; mMemAlign
     := mMemAlign i; mMemOffset := mMemOffset i; mTouchesMemory := v; mUsesBulkMemory :=
     mUsesBulkMemory i; mHasHeapType := mHasHeapType i; mHeapType := mHeapType i; mHasHeapType2
     := mHasHeapType2 i; mHeapType2 := mHeapType2 i; mCast := mCast i |}.
Definition set_UsesBulkMemory (v : bool) (i : InstructionImmediate) : InstructionImmediate :=
  {| mKind := mKind i; mPrefix := mPrefix i; mSubopcode := mSubopcode i; mIndex := mIndex i;
     mIndex2 := mIndex2 i; mHasMemIndex := mHasMemIndex i; mMemIndex := mMemIndex i; mMemAlign
     := mMemAlign i; mMemOffset := mMemOffset i; mTouchesMemory := mTouchesMemory i;
     mUsesBulkMemory := v; mHasHeapType := mHasHeapType i; mHeapType := mHeapType i;
     mHasHeapType2 := mHasHeapType2 i; mHeapType2 := mHeapType2 i; mCast := mCast i |}.
Definition set_HasHeapType (v : bool) (i : InstructionImmediate) : InstructionImmediate :=
  {| mKind := mKind i; mPrefix := mPrefix i; mSubopcode := mSubopcode i; mIndex := mIndex i;
     mIndex2 := mIndex2 i; mHasMemIndex := mHasMemIndex i; mMemIndex := mMemIndex i; mMemAlign
     := mMemAlign i; mMemOffset := mMemOffset i; mTouchesMemory := mTouchesMemory i;
     mUsesBulkMemory := mUsesBulkMemory i; mHasHeapType := v; mHeapType := mHeapType i;
     mHasHeapType2 := mHasHeapType2 i; mHeapType2 := mHeapType2 i; mCast := mCast i |}.
Definition set_HeapType (v : HeapType) (i : InstructionImmediate) : InstructionImmediate :=
  {| mKind := mKind i; mPrefix := mPrefix i; mSubopcode := mSubopcode i; mIndex := mIndex i;
     mIndex2 := mIndex2 i; mHasMemIndex := mHasMemIndex i; mMemIndex := mMemIndex i; mMemAlign
     := mMemAlign i; mMemOffset := mMemOffset i; mTouchesMemory := mTouchesMemory i;
     mUsesBulkMemory := mUsesBulkMemory i; mHasHeapType := mHasHeapType i; mHeapType := v;
     mHasHeapType2 := mHasHeapType2 i; mHeapType2 := mHeapType2 i; mCast := mCast i |}.
Definition set_HasHeapType2 (v : bool) (i : InstructionImmediate) : InstructionImmediate :=
  {| mKind := mKind i; mPrefix := mPrefix i; mSubopcode := mSubopcode i; mIndex := mIndex i;
     mIndex2 := mIndex2 i; mHasMemIndex := mHasMemIndex i; mMemIndex := mMemIndex i; mMemAlign
     := mMemAlign i; mMemOffset := mMemOffset i; mTouchesMemory := mTouchesMemory i;
     mUsesBulkMemory := mUsesBulkMemory i; mHasHeapType := mHasHeapType i; mHeapType :=
     mHeapType i; mHasHeapType2 := v; mHeapType2 := mHeapType2 i; mCast := mCast i |}.
Definition set_HeapType2 (v : HeapType) (i : InstructionImmediate) : InstructionImmediate :=
  {| mKind := mKind i; mPrefix := mPrefix i; mSubopcode := mSubopcode i; mIndex := mIndex i;
     mIndex2 := mIndex2 i; mHasMemIndex := mHasMemIndex i; mMemIndex := mMemIndex i; mMemAlign
     := mMemAlign i; mMemOffset := mMemOffset i; mTouchesMemory := mTouchesMemory i;
     mUsesBulkMemory := mUsesBulkMemory i; mHasHeapType := mHasHeapType i; mHeapType :=
     mHeapType i; mHasHeapType2 := mHasHeapType2 i; mHeapType2 := v; mCast := mCast i |}.
Definition set_Cast (v : CastOp) (i : InstructionImmediate) : InstructionImmediate :=
  {| mKind := mKind i; mPrefix := mPrefix i; mSubopcode := mSubopcode i; mIndex := mIndex i;
     mIndex2 := mIndex2 i; mHasMemIndex := mHasMemIndex i; mMemIndex := mMemIndex i; mMemAlign
     := mMemAlign i; mMemOffset := mMemOffset i; mTouchesMemory := mTouchesMemory i;
     mUsesBulkMemory := mUsesBulkMemory i; mHasHeapType := mHasHeapType i; mHeapType :=
     mHeapType i; mHasHeapType2 := mHasHeapType2 i; mHeapType2 := mHeapType2 i; mCast := v |}.

(** ** The cursor together with [*imm] *)

Definition CState : Set := reader.t * InstructionImmediate.
Abbreviation C := (M CState error).

(** A call on the cursor that does not touch [*imm]. *)
Definition lift {A} (m : R A) : C A := fun s =>
  let (o, r') := m (fst s) in
  match o with
  | Ok a => (Ok a, (r', snd s))
  | Err e => (Err e, (r', snd s))
  | Panic => (Panic, (r', snd s))
  end.

(** [imm.F = v] *)
Definition setImm (f : InstructionImmediate -> InstructionImmediate) : C unit := fun s =>
  (Ok tt, (fst s, f (snd s))).

(** [x, err := m(r); imm.F = x; if err != nil { return err }]: the assignment is
    made before the error is looked at, and a failed call returned [zero]. *)
Definition assign {A} (m : R A) (zero : A) (f : A -> InstructionImmediate -> InstructionImmediate)
  : C unit := fun s =>
  let (o, r') := m (fst s) in
  match o with
  | Ok a => (Ok tt, (r', f a (snd s)))
  | Err e => (Err e, (r', f zero (snd s)))
  | Panic => (Panic, (r', snd s))
  end.

(** [imm.H, err = m(r); imm.HasH = err == nil; return err] *)
Definition assign_ok {A} (m : R A) (zero : A)
  (f : A -> InstructionImmediate -> InstructionImmediate)
  (ok : bool -> InstructionImmediate -> InstructionImmediate) : C unit := fun s =>
  let (o, r') := m (fst s) in
  match o with
  | Ok a => (Ok tt, (r', ok true (f a (snd s))))
  | Err e => (Err e, (r', ok false (f zero (snd s))))
  | Panic => (Panic, (r', snd s))
  end.

(** ** bytecode_skip.go *)

(** The switches of [oneIndexImmediateKind], [fcIndexedKind], [fbOneIndexKind],
    [fbTwoIndexKind] and [fbStringArrayKind]: [InstrInvalid] by default. *)
Definition oneIndexImmediateKind (op : Z) : Z :=
  table_get
    [(0x08, InstrThrow); (0x0c, InstrBr); (0x0d, InstrBrIf); (0x10, InstrCall);
     (0x12, InstrReturnCall); (0x14, InstrCallRef); (0x15, InstrReturnCallRef);
     (0x20, InstrLocalGet); (0x21, InstrLocalSet); (0x22, InstrLocalTee);
     (0x23, InstrGlobalGet); (0x24, InstrGlobalSet); (0x25, InstrTableGet);
     (0x26, InstrTableSet); (0xd2, InstrRefFunc); (0xd5, InstrBrOnNull);
     (0xd6, InstrBrOnNonNull)] op.

Definition fcIndexedKind (sub : Z) : Z :=
  table_get
    [(8, InstrMemoryInit); (9, InstrDataDrop); (10, InstrMemoryCopy); (12, InstrTableInit);
     (13, InstrElemDrop); (14, InstrTableCopy); (15, InstrTableGrow); (16, InstrTableSize);
     (17, InstrTableFill)] sub.

Definition fbOneIndexKind (sub : Z) : Z :=
  table_get
    [(0, InstrStructNew); (1, InstrStructNewDefault); (6, InstrArrayNew);
     (7, InstrArrayNewDefault); (11, InstrArrayGet); (12, InstrArrayGetS);
     (13, InstrArrayGetU); (14, InstrArraySet); (16, InstrArrayFill);
     (32, InstrStructNewDesc); (33, InstrStructNewDefaultDesc); (34, InstrRefGetDesc);
     (0x82, InstrStringConst)] sub.

Definition fbTwoIndexKind (sub : Z) : Z :=
  table_get
    [(2, InstrStructGet); (3, InstrStructGetS); (4, InstrStructGetU); (5, InstrStructSet);
     (8, InstrArrayNewFixed); (9, InstrArrayNewData); (10, InstrArrayNewElem);
     (17, InstrArrayCopy); (18, InstrArrayInitData); (19, InstrArrayInitElem)] sub.

Definition fbStringArrayKind (sub : Z) : Z :=
  table_get
    [(0xb0, InstrStringNewUtf8Array); (0xb1, InstrStringNewWtf16Array);
     (0xb2, InstrStringEncodeUtf8Array); (0xb3, InstrStringEncodeWtf16Array);
     (0xb4, InstrStringNewLossyUtf8Array); (0xb5, InstrStringNewWtf8Array);
     (0xb6, InstrStringEncodeLossyUtf8Array); (0xb7, InstrStringEncodeWtf8Array)] sub.

(** [case c1, c2, ...:] *)
Definition one_of (x : Z) (l : list Z) : bool := existsb (Z.eqb x) l.

Definition oneIndexOpcodes : list Z :=
  [0x08; 0x0c; 0x0d; 0x10; 0x12; 0x14; 0x15; 0x20; 0x21; 0x22; 0x23; 0x24; 0x25; 0x26; 0xd2;
   0xd5; 0xd6].

Definition skipValTypeBytes : R unit := decodeValType ;;; ret tt.

Definition skipResultTypeBytes : R unit :=
  let! n := rd.u32 in
  repeatM (Z.to_nat n) skipValTypeBytes ;;; ret tt.

Definition skipRefHeapTypeBytes : R unit := decodeRefHeapType ;;; ret tt.

Definition classifyMemArgBytes (widths : memargWidths) : C unit :=
  let! n := lift rd.u32 in
  let! memoryIndex :=
    (if n <? 64 then setImm (set_MemAlign n) ;;; ret 0
     else if n <? 128 then
       if negb (multiMemory widths) then lift (fail_at ErrInvalidInstruction 0)
       else
         setImm (set_MemAlign (n - 64)) ;;;
         let! memoryIndex := lift rd.u32 in
         setImm (set_HasMemIndex true) ;;;
         setImm (set_MemIndex memoryIndex) ;;;
         ret memoryIndex
     else lift (fail_at ErrInvalidInstruction 0)) in
  if offset64 widths memoryIndex then assign rd.u64 0 set_MemOffset
  else assign rd.u32 0 set_MemOffset.

Definition skipCatchBytes : R unit :=
  let! k := rd.byte in
  if (k =? CatchTag) || (k =? CatchRef) then rd.u32 ;;; rd.u32 ;;; ret tt
  else if (k =? CatchAll) || (k =? CatchAllRef) then rd.u32 ;;; ret tt
  else fail_at ErrInvalidInstruction (-1).

Definition skipCatchVecBytes : R unit :=
  let! n := rd.u32 in
  repeatM (Z.to_nat n) skipCatchBytes ;;; ret tt.

(** [sub, err := r.u32(); imm.Prefix, imm.Subopcode = p, sub; if err != nil ...] *)
Definition readSubopcode (p : Z) : C Z := fun s =>
  let (o, r') := rd.u32 (fst s) in
  match o with
  | Ok sub => (Ok sub, (r', set_Subopcode sub (set_Prefix p (snd s))))
  | Err e => (Err e, (r', set_Subopcode 0 (set_Prefix p (snd s))))
  | Panic => (Panic, (r', snd s))
  end.

Definition classifyFCBytes (multi : bool) : C unit :=
  let! sub := readSubopcode 0xfc in
  match lookupPrefixKind fcNoImm sub with
  | Some k => setImm (set_Kind k)
  | None =>
      if one_of sub [8; 10; 12; 14] then
        setImm (set_Kind (fcIndexedKind sub)) ;;;
        assign (if sub =? 10 then readMemoryIndex multi else rd.u32) 0 set_Index ;;;
        (fun s =>
           let (o, s') := assign (if (sub =? 8) || (sub =? 10) then readMemoryIndex multi
                                  else rd.u32) 0 set_Index2 s in
           (o, (fst s', set_UsesBulkMemory (sub =? 10)
                          (set_TouchesMemory ((sub =? 8) || (sub =? 10)) (snd s')))))
      else if one_of sub [9; 13; 15; 16; 17] then
        setImm (set_Kind (fcIndexedKind sub)) ;;; assign rd.u32 0 set_Index
      else if sub =? 11 then
        setImm (set_Kind InstrMemoryFill) ;;;
        (fun s =>
           let (o, s') := assign (readMemoryIndex multi) 0 set_Index s in
           (o, (fst s', set_UsesBulkMemory true (set_TouchesMemory true (snd s')))))
      else lift (fail_at ErrInvalidInstruction 0)
  end.

Definition classifyFBBytes : C unit :=
  let! sub := readSubopcode 0xfb in
  match lookupPrefixKind fbNoImm sub with
  | Some k => setImm (set_Kind k)
  | None =>
      if one_of sub [0xb0; 0xb1; 0xb2; 0xb3; 0xb4; 0xb5; 0xb6; 0xb7] then
        setImm (set_Kind (fbStringArrayKind sub))
      else if one_of sub [0; 1; 6; 7; 11; 12; 13; 14; 16; 32; 33; 34; 0x82] then
        setImm (set_Kind (fbOneIndexKind sub)) ;;; assign rd.u32 0 set_Index
      else if one_of sub [2; 3; 4; 5; 8; 9; 10; 17; 18; 19] then
        setImm (set_Kind (fbTwoIndexKind sub)) ;;;
        assign rd.u32 0 set_Index ;;; assign rd.u32 0 set_Index2
      else if one_of sub [20; 21] then
        setImm (set_Kind InstrRefTest) ;;;
        assign_ok decodeHeapType zeroWord set_HeapType set_HasHeapType
      else if one_of sub [22; 23] then
        setImm (set_Kind InstrRefCast) ;;;
        assign_ok decodeRefHeapType (false, zeroWord)
          (fun p i => set_HeapType (snd p)
             (set_Cast {| SourceNullable := fst p; TargetNullable := TargetNullable (mCast i) |} i))
          set_HasHeapType
      else if one_of sub [24; 25] then
        setImm (set_Kind (if sub =? 24 then InstrBrOnCast else InstrBrOnCastFail)) ;;;
        assign decodeCastOp zeroCast set_Cast ;;;
        assign rd.u32 0 set_Index ;;;
        assign decodeHeapType zeroWord set_HeapType ;;;
        setImm (set_HasHeapType true) ;;;
        assign_ok decodeHeapType zeroWord set_HeapType2 set_HasHeapType2
      else if one_of sub [35; 36] then
        setImm (set_Kind InstrRefCastDescEq) ;;; lift skipRefHeapTypeBytes
      else lift (fail_at ErrInvalidInstruction 0)
  end.

Definition classifyFDBytes (widths : memargWidths) : C unit :=
  let! sub := readSubopcode 0xfd in
  if (sub =? 12) || (sub =? 13) then lift (rd.bytes 16 ;;; ret tt)
  else
    match lookupPrefixKind fdNoImm sub with
    | Some k => setImm (set_Kind k)
    | None =>
        match lookupPrefixKind fdMem sub with
        | Some k =>
            setImm (set_Kind k) ;;;
            setImm (set_TouchesMemory true) ;;;
            classifyMemArgBytes widths ;;;
            if (84 <=? sub) && (sub <=? 91) then lift (rd.byte ;;; ret tt) else ret tt
        | None =>
            match lookupPrefixKind fdLane sub with
            | Some k => setImm (set_Kind k) ;;; lift (rd.byte ;;; ret tt)
            | None => lift (fail_at ErrInvalidInstruction 0)
            end
        end
    end.

Definition classifyFEBytes (widths : memargWidths) : C unit :=
  let! sub := readSubopcode 0xfe in
  if sub =? 0x03 then
    let! b := lift rd.byte in
    if negb (b =? 0) then lift (fail_at ErrInvalidInstruction (-1))
    else setImm (set_Kind InstrAtomicFence)
  else if (0x5c <=? sub) && (sub <=? 0x5e) then
    lift decodeAtomicOrder ;;;
    assign rd.u32 0 set_Index ;;; assign rd.u32 0 set_Index2
  else
    match lookupPrefixKind feMem sub with
    | Some k =>
        setImm (set_Kind k) ;;; setImm (set_TouchesMemory true) ;;; classifyMemArgBytes widths
    | None =>
        if (30 <=? sub) && (sub <=? 71) then
          setImm (set_Kind InstrAtomicRmw) ;;; setImm (set_TouchesMemory true) ;;;
          classifyMemArgBytes widths
        else if (72 <=? sub) && (sub <=? 78) then
          setImm (set_Kind InstrAtomicCmpxchg) ;;; setImm (set_TouchesMemory true) ;;;
          classifyMemArgBytes widths
        else lift (fail_at ErrInvalidInstruction 0)
    end.

Definition classifyExprOpAfterOpcodeWithWidths (op : Z) (widths : memargWidths) (multi : bool)
  : C directOpKind :=
  let widths := with_multiMemory multi widths in
  match simpleKind op with
  | Some k => setImm (set_Kind k) ;;; ret directInstr
  | None =>
      if one_of op [0x02; 0x03; 0x04] then
        lift decodeBlockType ;;;
        if op =? 0x02 then setImm (set_Kind InstrBlock) ;;; ret directBlock
        else if op =? 0x03 then setImm (set_Kind InstrLoop) ;;; ret directLoop
        else setImm (set_Kind InstrIf) ;;; ret directIf
      else if op =? 0x05 then ret directElse
      else if one_of op oneIndexOpcodes then
        assign rd.u32 0 (fun idx i => set_Index idx (set_Kind (oneIndexImmediateKind op) i)) ;;;
        ret directInstr
      else if op =? 0x0b then ret directEnd
      else if op =? 0x0e then
        let! n := lift rd.u32 in
        lift (repeatM (Z.to_nat n) rd.u32) ;;;
        assign rd.u32 0 (fun idx i => set_Index idx (set_Kind InstrBrTable i)) ;;;
        ret directInstr
      else if one_of op [0x11; 0x13] then
        let! idx := lift rd.u32 in
        assign rd.u32 0 (fun idx2 i =>
          set_Index2 idx2 (set_Index idx
            (set_Kind (if op =? 0x13 then InstrReturnCallIndirect else InstrCallIndirect) i))) ;;;
        ret directInstr
      else if op =? 0x1c then
        setImm (set_Kind InstrSelect) ;;; lift skipResultTypeBytes ;;; ret directInstr
      else if op =? 0x1f then
        lift decodeBlockType ;;; lift skipCatchVecBytes ;;;
        setImm (set_Kind InstrTryTable) ;;; ret directTryTable
      else if (0x28 <=? op) && (op <=? 0x3e) then
        setImm (set_Kind (memOpcodeKind op)) ;;; setImm (set_TouchesMemory true) ;;;
        classifyMemArgBytes widths ;;; ret directInstr
      else if one_of op [0x3f; 0x40] then
        let! idx := lift (if multi then rd.u32 else (readReservedZeroByte ;;; ret 0)) in
        setImm (fun i => set_TouchesMemory true (set_Index idx
                  (set_Kind (if op =? 0x40 then InstrMemoryGrow else InstrMemorySize) i))) ;;;
        ret directInstr
      else if op =? 0x41 then
        assign rd.i32 0 (fun _ => set_Kind InstrI32Const) ;;; ret directInstr
      else if op =? 0x42 then
        assign rd.i64 0 (fun _ => set_Kind InstrI64Const) ;;; ret directInstr
      else if op =? 0x43 then
        assign (rd.bytes 4) [] (fun _ => set_Kind InstrF32Const) ;;; ret directInstr
      else if op =? 0x44 then
        assign (rd.bytes 8) [] (fun _ => set_Kind InstrF64Const) ;;; ret directInstr
      else if op =? 0xd0 then
        setImm (set_Kind InstrRefNull) ;;; lift skipRefHeapTypeBytes ;;; ret directInstr
      else if op =? 0xd3 then setImm (set_Kind InstrRefEq) ;;; ret directInstr
      else if op =? 0xd4 then setImm (set_Kind InstrRefAsNonNull) ;;; ret directInstr
      else if op =? 0xfb then classifyFBBytes ;;; ret directInstr
      else if op =? 0xfc then classifyFCBytes multi ;;; ret directInstr
      else if op =? 0xfd then classifyFDBytes widths ;;; ret directInstr
      else if op =? 0xfe then classifyFEBytes widths ;;; ret directInstr
      else lift (fail_opcode op)
  end.

(** [skipExprOp] and the entry points with a fixed width or a module's widths. *)
Definition skipExprOpAfterOpcode (op : Z) : R directOpKind := fun r =>
  let (o, s) := classifyExprOpAfterOpcodeWithWidths op (fixedMemargWidths false) false (r, zeroImm) in
  (o, fst s).

Definition skipExprOp : R directOpKind :=
  let! op := rd.byte in skipExprOpAfterOpcode op.
