(* ===== verification/SkipLaws.v ===== *)
(** * The walkers read what the decoder reads

    The classifier of bytecode_skip.go is compared with the decoder the
    validator uses ([decodeDirectOp]).  The two read the same bytes; the decoder
    also charges vectors to the metadata budget, so it may stop earlier with a
    budget error.  [agrees] relates a classifier step and a decoder step run from
    the same place. *)

From stdpp Require Import base tactics numbers list.
From Stdlib Require Import ZArith Lia.
From S2P Require Import Prelude Reader LebSpec ReaderLaws Types TypesLaws Decode DecodeLaws.
From S2P Require Import Kinds Instr InstrLaws Skip.
Local Open Scope Z_scope.

(** ** Computations that do not look at the budget *)

Definition set_budget (b : option decodeBudget) (r : reader.t) : reader.t :=
  {| reader.data := reader.data r; reader.pos := reader.pos r; reader.budget := b |}.

Definition same_place (r r' : reader.t) : Prop :=
  reader.data r = reader.data r' /\ reader.pos r = reader.pos r'.

Lemma same_place_set_budget b r : same_place r (set_budget b r).
Proof. by split. Qed.

Lemma same_place_eq r r' : same_place r r' -> r' = set_budget (reader.budget r') r.
Proof. destruct r, r'. unfold same_place. simpl. by intros [-> ->]. Qed.

Lemma same_place_refl r : same_place r r.
Proof. by split. Qed.

Lemma same_place_trans r1 r2 r3 : same_place r1 r2 -> same_place r2 r3 -> same_place r1 r3.
Proof. unfold same_place. intuition congruence. Qed.

(** [m] neither reads nor writes the budget. *)
Definition oblivious {A} (m : R A) : Prop :=
  forall r b, m (set_budget b r) = (fst (m r), set_budget b (snd (m r))).

Lemma obl_ret {A} (a : A) : oblivious (ret a).
Proof. by intros r b. Qed.

Lemma obl_fail_at {A} c d : oblivious (A := A) (fail_at c d).
Proof. by intros r b. Qed.

Lemma obl_fail_opcode {A} op : oblivious (A := A) (fail_opcode op).
Proof. by intros r b. Qed.

Lemma obl_bind {A B} (m : R A) (f : A -> R B) :
  oblivious m -> (forall a, oblivious (f a)) -> oblivious (bind m f).
Proof.
  intros Hm Hf r b. unfold bind. rewrite Hm. destruct (m r) as [[a|e|] r1]; simpl; [|done|done].
  apply Hf.
Qed.

Lemma obl_if {A} (c : bool) (m1 m2 : R A) : oblivious m1 -> oblivious m2 ->
  oblivious (if c then m1 else m2).
Proof. by destruct c. Qed.

Lemma obl_byte : oblivious rd.byte.
Proof. intros r b. unfold rd.byte. simpl. by destruct (_ !! _). Qed.

Lemma obl_bytes n : oblivious (rd.bytes n).
Proof.
  intros r b. unfold rd.bytes, reader.left. simpl. by destruct (_ || _).
Qed.

Lemma obl_peekM : oblivious peekM.
Proof. by intros r b. Qed.

Lemma obl_repeatM {A} n (m : R A) : oblivious m -> oblivious (repeatM n m).
Proof.
  intros Hm. induction n as [|n IH]; simpl; [apply obl_ret|].
  apply obl_bind; [done|]. intros a. apply obl_bind; [done|]. intros l. apply obl_ret.
Qed.

Create HintDb obl discriminated.
#[export] Hint Resolve obl_ret obl_fail_at obl_fail_opcode obl_byte obl_bytes obl_peekM
  obl_repeatM : obl.

Ltac obl_step :=
  lazymatch goal with
  | |- oblivious (bind _ _) => apply obl_bind; [|intros]
  | |- oblivious (let _ := _ in _) => cbv zeta
  | |- oblivious (if _ then _ else _) => apply obl_if
  | |- oblivious (match ?x with _ => _ end) => destruct x
  | |- oblivious _ => solve [eauto with obl nocore]
  end.
Ltac obl_go := repeat obl_step.

Lemma obl_leb_loop k signed N acc sh : oblivious (rd.leb_loop k signed N acc sh).
Proof. revert acc sh. induction k; intros acc sh; simpl; obl_go; auto. Qed.

Lemma obl_leb signed N : oblivious (rd.leb signed N).
Proof. apply obl_leb_loop. Qed.
#[export] Hint Resolve obl_leb : obl.

Lemma obl_peeked {A} (f : Z -> A) (c : Z -> bool) (m : R A) :
  oblivious m ->
  oblivious (fun r => match reader.peek r with
                      | Some b => if c b then (Ok (f b), reader.advance 1 r) else m r
                      | None => m r
                      end).
Proof.
  intros Hm r b. unfold reader.peek. simpl. rewrite Hm.
  destruct (_ !! _) as [x|]; [|done]. by destruct (c x).
Qed.

Lemma obl_u32 : oblivious rd.u32.
Proof. apply obl_peeked. obl_go. Qed.
Lemma obl_i32 : oblivious rd.i32.
Proof.
  apply (obl_peeked (fun b => if negb (Z.land b 0x40 =? 0) then Z.lor b (Z.lnot 0x7f) else b)).
  obl_go.
Qed.
Lemma obl_u64 : oblivious rd.u64.
Proof. apply obl_leb. Qed.
Lemma obl_i64 : oblivious rd.i64.
Proof. unfold rd.i64. obl_go. Qed.
Lemma obl_s33 : oblivious rd.s33.
Proof. unfold rd.s33. obl_go. Qed.
Lemma obl_le32 : oblivious rd.le32.
Proof. unfold rd.le32. obl_go. Qed.
Lemma obl_le64 : oblivious rd.le64.
Proof. unfold rd.le64. obl_go. Qed.
#[export] Hint Resolve obl_u32 obl_i32 obl_u64 obl_i64 obl_s33 obl_le32 obl_le64 : obl.

Lemma obl_decodeHeapType : oblivious decodeHeapType.
Proof. unfold decodeHeapType, decodeAbsHeapType, decodeS33TypeIdx. obl_go. Qed.
#[export] Hint Resolve obl_decodeHeapType : obl.
Lemma obl_decodeRefHeapType : oblivious decodeRefHeapType.
Proof. unfold decodeRefHeapType, decodeS33TypeIdx. obl_go. Qed.
#[export] Hint Resolve obl_decodeRefHeapType : obl.
Lemma obl_decodeValType : oblivious decodeValType.
Proof. unfold decodeValType, decodeNumType, decodeRefType. obl_go. Qed.
#[export] Hint Resolve obl_decodeValType : obl.
Lemma obl_decodeBlockType : oblivious decodeBlockType.
Proof.
  unfold decodeBlockType. obl_step; [obl_step|]. obl_step; [|obl_step]. obl_step; [obl_go|].
  obl_step; [obl_go|]. intros r b. rewrite obl_s33.
  destruct (rd.s33 r) as [[x|e|] r1]; simpl; [|done|done]. by destruct (x <? 0).
Qed.
Lemma obl_readMemoryIndex multi : oblivious (readMemoryIndex multi).
Proof. unfold readMemoryIndex, readReservedZeroByte. obl_go. Qed.
Lemma obl_decodeCastOp : oblivious decodeCastOp.
Proof. unfold decodeCastOp. obl_go. Qed.
Lemma obl_decodeAtomicOrder : oblivious decodeAtomicOrder.
Proof. unfold decodeAtomicOrder. obl_go. Qed.
Lemma obl_decodeCatch : oblivious decodeCatch.
Proof. unfold decodeCatch. obl_go. Qed.
Lemma obl_readReservedZeroByte : oblivious readReservedZeroByte.
Proof. unfold readReservedZeroByte. obl_go. Qed.
#[export] Hint Resolve obl_decodeBlockType obl_readMemoryIndex obl_decodeCastOp
  obl_decodeAtomicOrder obl_decodeCatch obl_readReservedZeroByte : obl.

(** ** The relation *)

Definition is_budget_error (e : error) : bool :=
  match e with EMetadataLimit _ _ => true | _ => false end.

Definition agrees {A B} (i : InstructionImmediate) (m : C A) (d : R B)
  (Q : A -> B -> InstructionImmediate -> Prop) : Prop :=
  forall r r', same_place r r' ->
    match d r' with
    | (Ok b, s') => exists a s i', m (r, i) = (Ok a, (s, i')) /\ same_place s s' /\ Q a b i'
    | (Err e, _) => is_budget_error e = true \/ exists e' s, m (r, i) = (Err e', s)
    | (Panic, _) => exists s, m (r, i) = (Panic, s)
    end.

Lemma agrees_ret {A B} i (a : A) (b : B) (Q : A -> B -> InstructionImmediate -> Prop) :
  Q a b i -> agrees i (ret a) (ret b) Q.
Proof. intros HQ r r' Hs. exists a, r, i. done. Qed.

Lemma agrees_bind {A A' B B'} i (m : C A) (k : A -> C A') (d : R B) (kd : B -> R B') Q1 Q :
  agrees i m d Q1 ->
  (forall a b i', Q1 a b i' -> agrees i' (k a) (kd b) Q) ->
  agrees i (bind m k) (bind d kd) Q.
Proof.
  intros Hm Hk r r' Hs. specialize (Hm r r' Hs). unfold bind at 1 3 4.
  destruct (d r') as [[b|e|] s'].
  - destruct Hm as (a & s & i' & Hm & Hs' & HQ).
    specialize (Hk a b i' HQ s s' Hs').
    destruct (kd b s') as [[b'|e|] s2'].
    + destruct Hk as (a2 & s2 & i2 & Hk & ? & ?). exists a2, s2, i2.
      unfold bind. by rewrite Hm.
    + destruct Hk as [?|(e' & s2 & Hk)]; [by left|]. right. exists e', s2.
      unfold bind. by rewrite Hm.
    + destruct Hk as (s2 & Hk). exists s2. unfold bind. by rewrite Hm.
  - destruct Hm as [?|(e' & s & Hm)]; [by left|]. right. exists e', s. unfold bind. by rewrite Hm.
  - destruct Hm as (s & Hm). exists s. unfold bind. by rewrite Hm.
Qed.

Lemma agrees_setImm {A B} i f (k : C A) (d : R B) Q :
  agrees (f i) k d Q -> agrees i (setImm f ;;; k) d Q.
Proof. intros H r r' Hs. apply (H r r' Hs). Qed.

Lemma agrees_setImm_last {B} i f (b : B) (Q : unit -> B -> InstructionImmediate -> Prop) :
  Q tt b (f i) -> agrees i (setImm f) (ret b) Q.
Proof. intros H r r' Hs. exists tt, r, (f i). done. Qed.

Lemma agrees_assign {A} i (m : R A) z f :
  oblivious m -> agrees i (assign m z f) m (fun _ b i' => i' = f b i).
Proof.
  intros Hm r r' Hs. rewrite (same_place_eq _ _ Hs), Hm. unfold assign. simpl.
  destruct (m r) as [[a|e|] s]; simpl.
  - exists tt, s, (f a i). split; [done|]. split; [apply same_place_set_budget|done].
  - right. eauto.
  - eauto.
Qed.

Lemma agrees_assign_ok {A} i (m : R A) z f ok :
  oblivious m -> agrees i (assign_ok m z f ok) m (fun _ b i' => i' = ok true (f b i)).
Proof.
  intros Hm r r' Hs. rewrite (same_place_eq _ _ Hs), Hm. unfold assign_ok. simpl.
  destruct (m r) as [[a|e|] s]; simpl.
  - exists tt, s, (ok true (f a i)). split; [done|]. split; [apply same_place_set_budget|done].
  - right. eauto.
  - eauto.
Qed.

Lemma agrees_lift {A} i (m : R A) :
  oblivious m -> agrees i (lift m) m (fun a b i' => a = b /\ i' = i).
Proof.
  intros Hm r r' Hs. rewrite (same_place_eq _ _ Hs), Hm. unfold lift. simpl.
  destruct (m r) as [[a|e|] s]; simpl.
  - exists a, s, i. split; [done|]. split; [apply same_place_set_budget|done].
  - right. eauto.
  - eauto.
Qed.

Lemma agrees_subopcode i p :
  agrees i (readSubopcode p) rd.u32 (fun a b i' => a = b /\ i' = set_Subopcode a (set_Prefix p i)).
Proof.
  intros r r' Hs. rewrite (same_place_eq _ _ Hs), obl_u32. unfold readSubopcode. simpl.
  destruct (rd.u32 r) as [[a|e|] s]; simpl.
  - eexists _, s, _. split; [done|]. split; [apply same_place_set_budget|done].
  - right. eauto.
  - eauto.
Qed.

(** Both sides fail. *)
Lemma agrees_fail {A B} i c d c' d' (Q : A -> B -> InstructionImmediate -> Prop) :
  agrees i (lift (fail_at c d)) (fail_at c' d') Q.
Proof. intros r r' Hs. right. unfold lift. simpl. eauto. Qed.

(** A charge to the budget by the decoder alone. *)
Lemma agrees_reserve {A B} i (m : C A) count width (kd : R B) Q :
  agrees i m kd Q -> agrees i m (rd.reserve count width ;;; kd) Q.
Proof.
  intros H r r' Hs. unfold bind, rd.reserve. destruct (_ && _); [by left|].
  apply H. eapply same_place_trans; [exact Hs|]. by split.
Qed.

Lemma agrees_ext {A B} i (m m' : C A) (d d' : R B) Q :
  (forall s, m s = m' s) -> (forall r, d r = d' r) -> agrees i m' d' Q -> agrees i m d Q.
Proof. intros Hm Hd H r r' Hs. rewrite Hm, Hd. by apply H. Qed.

Lemma agrees_assoc_r {A B B1 B2} i (m : C A) (d : R B1) (f : B1 -> R B2) (g : B2 -> R B) Q :
  agrees i m (bind d (fun x => bind (f x) g)) Q -> agrees i m (bind (bind d f) g) Q.
Proof. apply agrees_ext; [done|]. intros r. apply bind_assoc. Qed.

Lemma agrees_assoc_l {A A1 A2 B} i (m : C A1) (f : A1 -> C A2) (g : A2 -> C A) (d : R B) Q :
  agrees i (bind m (fun x => bind (f x) g)) d Q -> agrees i (bind (bind m f) g) d Q.
Proof. apply agrees_ext; [|done]. intros r. apply bind_assoc. Qed.

(** The classifier drops the value: [m ;;; ret tt] against [m] used later. *)
Lemma agrees_mono {A B} i (m : C A) (d : R B) Q1 Q2 :
  agrees i m d Q1 -> (forall a b i', Q1 a b i' -> Q2 a b i') -> agrees i m d Q2.
Proof.
  intros H HQ r r' Hs. specialize (H r r' Hs). destruct (d r') as [[b|e|] s']; [|done|done].
  destruct H as (a & s & i' & ? & ? & ?). eauto 10.
Qed.

Lemma lift_bind {A B} (m : R A) (f : A -> R B) s :
  lift (bind m f) s = bind (lift m) (fun a => lift (f a)) s.
Proof.
  unfold lift, bind. destruct s as [r i]. simpl. destruct (m r) as [[a|e|] r1]; reflexivity.
Qed.

(** [lift] of a computation that simulates the decoder's without its result. *)
Lemma agrees_lift_drop {A} i (m : R A) :
  oblivious m -> agrees i (lift (m ;;; ret tt)) m (fun _ _ i' => i' = i).
Proof.
  intros Hm. eapply agrees_ext; [apply lift_bind|intros r; symmetry|].
  { instantiate (1 := fun r => (let! x := m in ret x) r). unfold bind.
    by destruct (m r) as [[?|?|] ?]. }
  eapply agrees_bind; [by apply agrees_lift|]. intros a b i' [-> ->].
  intros r r' Hs. exists tt, r, i. done.
Qed.

Lemma agrees_repeatM {A B} i n (m : R A) (d : R B) :
  agrees i (lift m) d (fun _ _ i' => i' = i) ->
  agrees i (lift (repeatM n m)) (repeatM n d) (fun _ _ i' => i' = i).
Proof.
  intros H. induction n as [|n IH]; simpl.
  - intros r r' Hs. exists [], r, i. done.
  - eapply agrees_ext; [apply lift_bind|done|]. eapply agrees_bind; [exact H|].
    intros a b i' ->. eapply agrees_ext; [apply lift_bind|done|].
    eapply agrees_bind; [exact IH|]. intros l l' i' ->.
    intros r r' Hs. eexists _, r, i. done.
Qed.

(** ** Immediates *)

(** The kinds the classifier leaves unset: it records their prefix and
    subopcode only. *)
Definition unclassified (k : Z) : Prop :=
  k = InstrV128Const \/ k = InstrI8x16Shuffle \/ k = InstrStructAtomicGet \/
  k = InstrStructAtomicGetS \/ k = InstrStructAtomicGetU.

(** The metadata describes the decoded instruction. *)
Record imm_matches (p : payload) (i : InstructionImmediate) : Prop := {
  im_kind : mKind i = IKind p \/ (mKind i = InstrInvalid /\ unclassified (IKind p));
  im_index : mIndex i = IIndex p;
  im_index2 : mIndex2 i = IIndex2 p;
  im_align : mMemAlign i = Align (IMemArg p);
  im_mem : (if mHasMemIndex i then Some (mMemIndex i) else None) = Mem (IMemArg p);
  im_offset : mMemOffset i = MOffset (IMemArg p);
  im_heap : mHasHeapType i = true -> mHeapType i = IHeapType p;
  im_heap2 : mHasHeapType2 i = true -> mHeapType2 i = IHeapType2 p
}.

Ltac matches := split; simpl; try done; try (by left); try (right; split; [done|]; unfold unclassified; tauto).

(** The postconditions used below. *)
Definition post_leaf : unit -> payload -> InstructionImmediate -> Prop :=
  fun _ p i => imm_matches p i.
Definition post_imm (i' : InstructionImmediate) {A} : unit -> A -> InstructionImmediate -> Prop :=
  fun _ _ i => i = i'.

(** An immediate with a memory argument written into it. *)
Definition imm_memarg (ma : MemArg) (i : InstructionImmediate) : InstructionImmediate :=
  set_MemOffset (MOffset ma)
    (match Mem ma with
     | Some m => set_MemIndex m (set_HasMemIndex true (set_MemAlign (Align ma) i))
     | None => set_MemAlign (Align ma) i
     end).

Lemma agrees_memarg i w :
  agrees i (classifyMemArgBytes w) (decodeMemArgWithWidths w)
    (fun _ ma i' => i' = imm_memarg ma i).
Proof.
  unfold classifyMemArgBytes, decodeMemArgWithWidths.
  eapply agrees_bind; [apply agrees_lift, obl_u32|]. intros n ? ? [<- ->].
  eapply agrees_bind
    with (Q1 := fun mi am i' => mi = match snd am with Some m => m | None => 0 end /\
                 i' = match snd am with
                      | Some m => set_MemIndex m (set_HasMemIndex true (set_MemAlign (fst am) i))
                      | None => set_MemAlign (fst am) i
                      end).
  - destruct (n <? 64) eqn:H1; bool_to_prop.
    + replace ((64 <=? n) && (n <? 128)) with false by lia.
      apply agrees_setImm. by apply agrees_ret.
    + replace (64 <=? n) with true by lia. destruct (n <? 128); [|apply agrees_fail].
      destruct (negb (multiMemory w)); [apply agrees_fail|]. simpl.
      apply agrees_setImm. eapply agrees_bind; [apply agrees_lift, obl_u32|].
      intros mi ? ? [<- ->]. do 2 apply agrees_setImm. by apply agrees_ret.
  - intros mi [a m] i' [-> ->]. cbv zeta. simpl fst. simpl snd.
    destruct (offset64 w _).
    + eapply agrees_ext with (m' := assign rd.u64 0 set_MemOffset ;;; ret tt); [|done|].
      { intros s. unfold bind. destruct (assign _ _ _ s) as [[[]|?|] ?]; done. }
      eapply agrees_bind; [apply agrees_assign, obl_u64|]. intros [] off i' ->.
      apply agrees_ret. unfold imm_memarg. simpl. by destruct m.
    + eapply agrees_ext with (m' := assign rd.u32 0 set_MemOffset ;;; ret tt); [|done|].
      { intros s. unfold bind. destruct (assign _ _ _ s) as [[[]|?|] ?]; done. }
      eapply agrees_bind; [apply agrees_assign, obl_u32|]. intros [] off i' ->.
      apply agrees_ret. unfold imm_memarg. simpl. by destruct m.
Qed.

(** A step of the classifier that ends with the call against a decoder that
    still builds its result. *)
Lemma agrees_tail {B B'} i (m : C unit) (d : R B) (f : B -> B') Q1 Q :
  agrees i m d Q1 -> (forall b i', Q1 tt b i' -> Q tt (f b) i') ->
  agrees i m (let! b := d in ret (f b)) Q.
Proof.
  intros Hm HQ. eapply agrees_ext with (m' := m ;;; ret tt); [|done|].
  { intros s. unfold bind. destruct (m s) as [[[]|?|] ?]; done. }
  eapply agrees_bind; [exact Hm|]. intros [] b i' HQ1. apply agrees_ret. auto.
Qed.

(** [repeatM n byte] and [bytes n] read the same. *)
Lemma repeat_byte_bytes n r :
  (n = 0 -> reader.pos r <= length (reader.data r))%nat ->
  match repeatM n rd.byte r with
  | (Ok l, s) => rd.bytes (Z.of_nat n) r = (Ok l, s)
  | (Err _, _) => exists e, rd.bytes (Z.of_nat n) r = (Err e, r)
  | (Panic, _) => False
  end.
Proof.
  revert r. induction n as [|n IH]; intros r Hp.
  - specialize (Hp eq_refl). change (Z.of_nat 0) with 0. simpl. unfold rd.bytes, reader.left.
    match goal with |- context [if ?c then _ else _] => replace c with false by zbool end.
    f_equal. unfold reader.advance. destruct r; simpl. by rewrite Nat.add_0_r.
  - cbn [repeatM]. unfold bind at 1. unfold rd.byte at 1.
    destruct (reader.data r !! reader.pos r) as [b|] eqn:Hb; simpl.
    + pose proof (lookup_lt_Some _ _ _ Hb) as Hlt.
      specialize (IH (reader.advance 1 r) ltac:(simpl; lia)).
      unfold bind. unfold rd.bytes, reader.left in *. simpl in IH.
      destruct (repeatM n rd.byte (reader.advance 1 r)) as [[l|e|] s]; [| |done].
      * destruct (_ || _) eqn:E in IH; [discriminate IH|]. injection IH as <- <-.
        bool_to_prop.
        match goal with |- context [if ?c then _ else _] => replace c with false by zbool end.
        rewrite (drop_S _ _ _ Hb). rewrite !Nat2Z.id. simpl.
        replace (reader.pos r + 1)%nat with (S (reader.pos r)) by lia.
        rewrite advance_advance. done.
      * destruct IH as [e' IH]. destruct (_ || _) eqn:E in IH; [|discriminate IH].
        rewrite orb_true_iff, !Z.ltb_lt in E.
        match goal with |- context [if ?c then _ else _] => replace c with true by zbool end.
        eexists. reflexivity.
    + apply lookup_ge_None in Hb. unfold rd.bytes, reader.left. simpl.
      match goal with |- context [if ?c then _ else _] => replace c with true by zbool end.
      eexists. reflexivity.
Qed.

Lemma agrees_lanes i :
  agrees i (lift (rd.bytes 16 ;;; ret tt)) (repeatM 16 rd.byte) (fun _ _ i' => i' = i).
Proof.
  intros r r' Hs. pose proof (repeat_byte_bytes 16 r' ltac:(done)) as H.
  pose proof (obl_bytes 16 r (reader.budget r')) as Ho. rewrite <- (same_place_eq _ _ Hs) in Ho.
  change (Z.of_nat 16) with 16 in H. unfold lift, bind. simpl fst. simpl snd.
  destruct (repeatM 16 rd.byte r') as [[l|e|] s]; [| |done].
  - rewrite H in Ho. destruct (rd.bytes 16 r) as [o s0]. simpl in Ho. injection Ho as <- ->.
    exists tt, s0, i. split; [done|]. split; [apply same_place_set_budget|done].
  - destruct H as [e' H]. rewrite H in Ho. destruct (rd.bytes 16 r) as [o s0].
    simpl in Ho. injection Ho as <- _. right. eauto.
Qed.

(** ** Case analysis on opcodes *)

(** Evaluates the tests of a switch on a concrete opcode. *)
Ltac eval_const t :=
  let v := eval vm_compute in t in
  lazymatch v with
  | true => change t with v
  | false => change t with v
  | None => change t with v
  | Some _ => change t with v
  end.
Ltac eval_consts :=
  repeat match goal with
  | |- context [simpleKind ?c] => eval_const (simpleKind c)
  | |- context [lookupPrefixKind ?t ?c] => eval_const (lookupPrefixKind t c)
  | |- context [one_of ?c ?l] => eval_const (one_of c l)
  | |- context [?a =? ?b] => eval_const (a =? b)
  | |- context [?a <=? ?b] => eval_const (a <=? b)
  end; cbn [orb andb negb].

(** Splits on whether [x] is one of the listed constants. *)
Ltac split_on x l :=
  lazymatch l with
  | nil => idtac
  | cons ?c ?l' => destruct (Z.eq_dec x c) as [->|?]; [|split_on x l']
  end.

(** With [x] none of the constants of a switch, all its tests are false. *)
Ltac all_false :=
  repeat match goal with
  | |- context [?x =? ?c] => replace (x =? c) with false by lia
  end; cbn [orb andb negb].

Lemma table_get_not_in t x : ~ In x (map fst t) -> table_get t x = InstrInvalid.
Proof.
  induction t as [|[a b] t IH]; intros H; [done|]. simpl in *.
  destruct (x =? a) eqn:E; bool_to_prop; [subst; tauto|]. apply IH. tauto.
Qed.

Lemma lookup_not_in t x : ~ In x (map fst t) -> lookupPrefixKind t x = None.
Proof. intros H. unfold lookupPrefixKind. by rewrite table_get_not_in. Qed.

Lemma one_of_not_in x l : ~ In x l -> one_of x l = false.
Proof.
  intros H. unfold one_of. apply not_true_is_false. rewrite existsb_exists.
  intros (y & Hy & E). bool_to_prop. by subst.
Qed.

Ltac not_listed :=
  repeat match goal with
  | |- context [lookupPrefixKind ?t ?x] => rewrite (lookup_not_in t x) by (simpl; lia)
  | |- context [one_of ?x ?l] => rewrite (one_of_not_in x l) by (simpl; lia)
  end.

(** Runs both sides. *)
Ltac agree_step :=
  lazymatch goal with
  | |- agrees _ (bind (bind _ _) _) _ _ => apply agrees_assoc_l
  | |- agrees _ _ (bind (bind _ _) _) _ => apply agrees_assoc_r
  | |- agrees _ (bind (setImm _) _) _ _ => apply agrees_setImm
  | |- agrees _ (setImm _) (ret _) _ => apply agrees_setImm_last
  | |- agrees _ (ret _) (ret _) _ => apply agrees_ret
  | |- agrees _ (lift (fail_at _ _)) (fail_at _ _) _ => apply agrees_fail
  | |- agrees _ (bind (assign _ _ _) _) (bind _ _) _ =>
      eapply agrees_bind; [apply agrees_assign; eauto with obl nocore|intros ? ? ? ->]
  | |- agrees _ (bind (lift _) _) (bind _ _) _ =>
      eapply agrees_bind; [apply agrees_lift; eauto with obl nocore|intros ? ? ? [<- ->]]
  | |- agrees _ (bind (classifyMemArgBytes _) _) (bind _ _) _ =>
      eapply agrees_bind; [apply agrees_memarg|intros ? ? ? ->]
  | |- agrees _ (assign _ _ _) (bind _ (fun _ => ret _)) _ =>
      eapply agrees_tail; [apply agrees_assign; eauto with obl nocore|intros ? ? ->]
  | |- agrees _ (assign_ok _ _ _ _) (bind _ (fun _ => ret _)) _ =>
      eapply agrees_tail; [apply agrees_assign_ok; eauto with obl nocore|intros ? ? ->]
  | |- agrees _ (classifyMemArgBytes _) (bind _ (fun _ => ret _)) _ =>
      eapply agrees_tail; [apply agrees_memarg|intros ? ? ->]
  | |- agrees _ (lift (bind _ (fun _ => ret tt))) (bind _ (fun _ => ret _)) _ =>
      eapply agrees_tail; [apply agrees_lift_drop; eauto with obl nocore|intros ? ? ->]
  end.
Ltac agree := repeat agree_step.

(** Like [fun s => let (o, s') := assign m z f s in (o, (fst s', g (snd s')))]. *)
Lemma agrees_assign_then {A} i (m : R A) z f g :
  oblivious m ->
  agrees i (fun s => let (o, s') := assign m z f s in (o, (fst s', g (snd s')))) m
    (fun _ b i' => i' = g (f b i)).
Proof.
  intros Hm r r' Hs. rewrite (same_place_eq _ _ Hs), Hm. unfold assign. simpl.
  destruct (m r) as [[a|e|] s]; simpl.
  - exists tt, s, (g (f a i)). split; [done|]. split; [apply same_place_set_budget|done].
  - right. eauto.
  - eauto.
Qed.

Lemma agrees_FC multi :
  agrees zeroImm (classifyFCBytes multi) (decodeFCWithMultiMemory multi) post_leaf.
Proof.
  unfold classifyFCBytes, decodeFCWithMultiMemory.
  eapply agrees_bind; [apply agrees_subopcode|]. intros sub ? ? [<- ->].
  destruct (lookupPrefixKind fcNoImm sub) as [k|] eqn:Ek; [agree; matches|].
  split_on sub [8; 9; 10; 11; 12; 13; 14; 15; 16; 17]; unfold indexInst, twoIndexInst;
    [eval_consts; agree..|not_listed; all_false; agree].
  all: try (eapply agrees_tail; [apply (agrees_assign_then _ _ _ _ (fun i => set_UsesBulkMemory _ (set_TouchesMemory _ i))); eauto with obl nocore|intros ? ? ->]).
  all: matches.
Qed.

Lemma agrees_FB : agrees zeroImm classifyFBBytes decodeFB post_leaf.
Proof.
  unfold classifyFBBytes, decodeFB.
  eapply agrees_bind; [apply agrees_subopcode|]. intros sub ? ? [<- ->].
  destruct (lookupPrefixKind fbNoImm sub) as [k|] eqn:Ek; [agree; matches|].
  split_on sub [0; 1; 2; 3; 4; 5; 6; 7; 8; 9; 10; 11; 12; 13; 14; 16; 17; 18; 19; 20; 21; 22; 23;
    24; 25; 32; 33; 34; 35; 36; 0x82; 0xb0; 0xb1; 0xb2; 0xb3; 0xb4; 0xb5; 0xb6; 0xb7];
    unfold indexInst, twoIndexInst, skipRefHeapTypeBytes;
    [eval_consts; agree; matches..|not_listed; all_false; agree].
Qed.

Lemma matches_memarg ma p i :
  imm_matches p i -> IMemArg p = zeroMemArg -> mHasMemIndex i = false ->
  imm_matches (with_MemArg ma p) (imm_memarg ma i).
Proof.
  intros [] Hp Hi. unfold imm_memarg. destruct ma as [al [m|] off]; split; simpl; try done.
  by rewrite Hi.
Qed.

Lemma agrees_FD w : agrees zeroImm (classifyFDBytes w) (decodeFDWithMemargWidths w) post_leaf.
Proof.
  unfold classifyFDBytes, decodeFDWithMemargWidths.
  eapply agrees_bind; [apply agrees_subopcode|]. intros sub ? ? [<- ->].
  destruct (sub =? 12); [|destruct (sub =? 13)]; cbn [orb].
  - eapply agrees_tail; [apply agrees_lanes|]. intros ? ? ->. matches.
  - eapply agrees_tail; [apply agrees_lanes|]. intros ? ? ->. matches.
  - destruct (lookupPrefixKind fdNoImm sub) as [k|]; [agree; matches|].
    destruct (lookupPrefixKind fdMem sub) as [k|].
    + agree. destruct (_ && _); agree.
      * apply (matches_memarg _ (with_Lane _ (kind k))); [matches|done|done].
      * apply matches_memarg; [matches|done|done].
    + destruct (lookupPrefixKind fdLane sub) as [k|]; agree. matches.
Qed.

Lemma agrees_FE w : agrees zeroImm (classifyFEBytes w) (decodeFEWithMemargWidths w) post_leaf.
Proof.
  unfold classifyFEBytes, decodeFEWithMemargWidths.
  eapply agrees_bind; [apply agrees_subopcode|]. intros sub ? ? [<- ->].
  destruct (sub =? 3).
  { agree_step. destruct (negb _); agree. matches. }
  destruct (_ && _).
  { agree. destruct (sub =? 0x5d); [matches|]. destruct (sub =? 0x5e); matches. }
  destruct (lookupPrefixKind feMem sub) as [k|].
  - agree. apply (matches_memarg _ (with_AtomicOp sub (kind k))); [matches|done|done].
  - destruct (_ && _); [|destruct (_ && _)]; agree.
    + apply (matches_memarg _ (with_AtomicOp sub (kind InstrAtomicRmw))); [matches|done|done].
    + apply (matches_memarg _ (with_AtomicOp sub (kind InstrAtomicCmpxchg))); [matches|done|done].
Qed.

(** ** Vectors *)

Lemma agrees_ret_r {A B B'} i (m : C A) (b : B) (f : B -> R B') Q :
  agrees i m (f b) Q -> agrees i m (bind (ret b) f) Q.
Proof. by apply agrees_ext. Qed.

Lemma agrees_lift_assoc {A B D} i (m : R A) (f : A -> R B) (k : B -> C D) {B'} (d : R B') Q :
  agrees i (bind (lift m) (fun a => bind (lift (f a)) k)) d Q ->
  agrees i (bind (lift (bind m f)) k) d Q.
Proof.
  apply agrees_ext; [|done]. intros s. unfold bind, lift. destruct s as [r j]. simpl.
  destruct (m r) as [[a|e|] r1]; simpl; done.
Qed.

Lemma agrees_lift_ret {A D B'} i (a : A) (k : A -> C D) (d : R B') Q :
  agrees i (k a) d Q -> agrees i (bind (lift (ret a)) k) d Q.
Proof. apply agrees_ext; intros [? ?]; done. Qed.

(** A skipped vector against a decoded one. *)
Lemma agrees_vec {A B D D'} i size (sk : R A) (fn : R B) (k : C D) (kd : list B -> R D') Q :
  agrees i (lift sk) fn (fun _ _ i' => i' = i) ->
  (forall l, agrees i k (kd l) Q) ->
  agrees i (let! n := lift rd.u32 in lift (repeatM (Z.to_nat n) sk) ;;; k)
    (let! l := rd.readVec size fn in kd l) Q.
Proof.
  intros Hf Hk. unfold rd.readVec. apply agrees_assoc_r.
  eapply agrees_bind; [apply agrees_lift, obl_u32|]. intros n ? ? [<- ->].
  apply agrees_assoc_r, agrees_reserve.
  eapply agrees_bind; [by apply agrees_repeatM|]. intros _ l ? ->. apply Hk.
Qed.

Lemma agrees_skip_vec {A B D D'} i size (sk : R A) (fn : R B) (k : C D) (kd : list B -> R D') Q :
  agrees i (lift sk) fn (fun _ _ i' => i' = i) ->
  (forall l, agrees i k (kd l) Q) ->
  agrees i (lift (let! n := rd.u32 in repeatM (Z.to_nat n) sk ;;; ret tt) ;;; k)
    (let! l := rd.readVec size fn in kd l) Q.
Proof.
  intros Hf Hk. eapply agrees_ext; [|done|exact (agrees_vec i size sk fn k kd Q Hf Hk)].
  intros [r j]. unfold bind, lift. simpl. destruct (rd.u32 r) as [[x|e|] r1]; simpl; [|done|done].
  destruct (repeatM _ _ r1) as [[?|?|] ?]; done.
Qed.

Lemma agrees_catch i : agrees i (lift skipCatchBytes) decodeCatch (fun _ _ i' => i' = i).
Proof.
  unfold skipCatchBytes, decodeCatch. eapply agrees_ext; [apply lift_bind|done|].
  eapply agrees_bind; [apply agrees_lift, obl_byte|]. intros b ? ? [<- ->].
  unfold CatchTag, CatchRef, CatchAll, CatchAllRef.
  destruct ((b =? 0) || (b =? 1)); [|destruct ((b =? 2) || (b =? 3))].
  - eapply agrees_ext; [apply lift_bind|done|].
    eapply agrees_bind; [apply agrees_lift, obl_u32|]. intros t ? ? [<- ->].
    eapply agrees_tail; [apply agrees_lift_drop, obl_u32|]. by intros ? ? ->.
  - eapply agrees_tail; [apply agrees_lift_drop, obl_u32|]. by intros ? ? ->.
  - apply agrees_fail.
Qed.

(** ** The switch *)

Definition post_op (k : directOpKind) (d : directOp) (i : InstructionImmediate) : Prop :=
  k = dkind d /\ (k = directInstr -> imm_matches (dinstr d) i).

Lemma agrees_leaf i (m : C unit) (d : R payload) :
  agrees i m d post_leaf ->
  agrees i (m ;;; ret directInstr) (let! p := d in ret (direct directInstr p zeroBlockType []))
    post_op.
Proof.
  intros H. eapply agrees_bind; [exact H|]. intros [] p i' Hp. apply agrees_ret. by split.
Qed.

Ltac leaf := apply agrees_leaf; unfold indexInst, twoIndexInst, reservedZeroInst.

Lemma agrees_mem_op k w :
  agrees zeroImm
    (setImm (set_Kind k) ;;; setImm (set_TouchesMemory true) ;;; classifyMemArgBytes w ;;;
     ret directInstr)
    (let! p := (let! ma := decodeMemArgWithWidths w in ret (with_MemArg ma (kind k))) in
     ret (direct directInstr p zeroBlockType [])) post_op.
Proof.
  agree. apply agrees_ret_r, agrees_ret. split; [done|]. intros _.
  apply matches_memarg; [matches|done|done].
Qed.

Lemma agrees_size_op k (multi : bool) w :
  agrees zeroImm
    (let! idx := lift (if multi then rd.u32 else (readReservedZeroByte ;;; ret 0)) in
     setImm (fun i => set_TouchesMemory true (set_Index idx (set_Kind k i))) ;;; ret directInstr)
    (let! p := (if multiMemory (with_multiMemory multi w) then indexInst k else reservedZeroInst k) in
     ret (direct directInstr p zeroBlockType [])) post_op.
Proof.
  unfold indexInst, reservedZeroInst. simpl multiMemory. destruct multi.
  - agree. apply agrees_ret_r, agrees_ret. split; [done|matches].
  - apply agrees_lift_assoc, agrees_assoc_r.
    eapply agrees_bind; [apply agrees_lift, obl_readReservedZeroByte|]. intros [] [] ? [_ ->].
    apply agrees_lift_ret, agrees_setImm, agrees_ret_r, agrees_ret. split; [done|matches].
Qed.

(** Opcodes outside the tables and the constants of the switches. *)
Lemma not_mem_range op : ~ In op (map fst memOpcodeTable) -> (0x28 <=? op) && (op <=? 0x3e) = false.
Proof. simpl. intros H. zbool. Qed.

Ltac finish_op :=
  try first [apply agrees_ret_r, agrees_ret | apply agrees_ret]; split; [done|]; intros;
  first [done | matches].

Lemma classify_agrees op w multi :
  agrees zeroImm (classifyExprOpAfterOpcodeWithWidths op w multi)
    (decodeDirectOpcode w multi op) post_op.
Proof.
  unfold classifyExprOpAfterOpcodeWithWidths, decodeDirectOpcode, decodeLeafOp. cbv zeta.
  destruct (simpleKind op) as [k|] eqn:Ek; [agree; by split; [|intros _; matches]|].
  split_on op [0x08; 0x0c; 0x0d; 0x10; 0x12; 0x14; 0x15; 0x20; 0x21; 0x22; 0x23; 0x24; 0x25; 0x26;
    0xd2; 0xd5; 0xd6]; [eval_consts; unfold indexInst; agree; finish_op..|].
  split_on op [0x28; 0x29; 0x2a; 0x2b; 0x2c; 0x2d; 0x2e; 0x2f; 0x30; 0x31; 0x32; 0x33; 0x34; 0x35;
    0x36; 0x37; 0x38; 0x39; 0x3a; 0x3b; 0x3c; 0x3d; 0x3e]; [eval_consts; apply agrees_mem_op..|].
  split_on op [0x02; 0x03; 0x04; 0x05; 0x0b; 0x11; 0x13; 0x41; 0x42; 0xd3; 0xd4];
    [eval_consts; unfold twoIndexInst; agree; finish_op..|].
  split_on op [0xfb; 0xfc; 0xfd; 0xfe];
    [eval_consts; apply agrees_leaf;
     first [apply agrees_FB | apply agrees_FC | apply agrees_FD | apply agrees_FE]..|].
  split_on op [0x0e; 0x1c; 0x1f; 0x3f; 0x40; 0x43; 0x44; 0xd0]; eval_consts.
  - apply agrees_assoc_r. eapply agrees_vec.
    { eapply agrees_mono; [apply agrees_lift, obl_u32|]. by intros ? ? ? [_ ->]. }
    intros l. agree. finish_op.
  - apply agrees_setImm, agrees_assoc_r. apply agrees_skip_vec.
    + apply agrees_lift_drop, obl_decodeValType.
    + intros l. finish_op.
  - agree_step. apply agrees_skip_vec; [apply agrees_catch|]. intros l. agree. finish_op.
  - by apply agrees_size_op.
  - by apply agrees_size_op.
  - unfold rd.le32. agree. apply agrees_ret_r, agrees_ret_r, agrees_ret. split; [done|matches].
  - unfold rd.le64. agree. apply agrees_ret_r, agrees_ret_r, agrees_ret. split; [done|matches].
  - apply agrees_setImm. unfold skipRefHeapTypeBytes, decodeRefTypeForNull.
    apply agrees_lift_assoc. do 2 apply agrees_assoc_r.
    eapply agrees_bind; [apply agrees_lift, obl_decodeRefHeapType|]. intros ? ? ? [<- ->].
    intros r r' Hs. eexists _, _, _. split; [reflexivity|]. split; [exact Hs|].
    split; [done|matches].
  - not_listed. rewrite not_mem_range by (simpl; lia). all_false.
    intros r r' Hs. right. unfold lift. simpl. eauto.
Qed.

(** ** Properties *)

(** The classifier run on the opcode at the cursor. *)
Definition classify_next (w : memargWidths) (multi : bool) : C directOpKind :=
  let! op := lift rd.byte in classifyExprOpAfterOpcodeWithWidths op w multi.

Lemma classify_next_agrees w multi :
  agrees zeroImm (classify_next w multi) (decodeDirectOp w multi) post_op.
Proof.
  unfold classify_next, decodeDirectOp.
  eapply agrees_bind; [apply agrees_lift, obl_byte|]. intros op ? ? [<- ->].
  apply classify_agrees.
Qed.

(** C26: walking a body with the allocation-free classifier and decoding it as the
    validator does read the same bytes: where the decoder succeeds the classifier
    succeeds, stops at the same position, and reports the same structural kind,
    indexes, memory argument and heap types; where the classifier succeeds the
    decoder succeeds or has run out of its metadata budget. *)
Theorem classifier_reads_like_decoder w multi r :
  (forall d r1, decodeDirectOp w multi r = (Ok d, r1) ->
     exists k i r2, classify_next w multi (r, zeroImm) = (Ok k, (r2, i)) /\
       same_place r2 r1 /\ k = dkind d /\ (k = directInstr -> imm_matches (dinstr d) i)) /\
  (forall k s, classify_next w multi (r, zeroImm) = (Ok k, s) ->
     (exists d r1, decodeDirectOp w multi r = (Ok d, r1)) \/
     (exists e r1, decodeDirectOp w multi r = (Err e, r1) /\ is_budget_error e = true)).
Proof.
  pose proof (classify_next_agrees w multi r r (same_place_refl r)) as H. split.
  - intros d r1 E. rewrite E in H. destruct H as (k & s & i & ? & ? & ? & ?). eauto 10.
  - intros k s E. rewrite E in H. destruct (decodeDirectOp w multi r) as [[d|e|] r1].
    + eauto.
    + destruct H as [?|(e' & s' & ?)]; [eauto|discriminate].
    + destruct H as (? & ?). discriminate.
Qed.

Lemma classifier_reads_like_decoder_witness :
  exists d r1, decodeDirectOp (fixedMemargWidths false) true
                 (reader.newReader [0x28; 0x02; 0x90; 0x03]) = (Ok d, r1) /\
    exists k i r2, classify_next (fixedMemargWidths false) true
                     (reader.newReader [0x28; 0x02; 0x90; 0x03], zeroImm) = (Ok k, (r2, i)) /\
      mKind i = InstrI32Load /\ mMemOffset i = 400.
Proof.
  eexists _, _. split; [reflexivity|].
  destruct (proj1 (classifier_reads_like_decoder (fixedMemargWidths false) true
    (reader.newReader [0x28; 0x02; 0x90; 0x03])) _ _ eq_refl) as (k & i & r2 & H & _ & Hk & Hi).
  exists k, i, r2. split; [exact H|]. specialize (Hi Hk).
  split; [destruct (im_kind _ _ Hi) as [E|[_ E]]; [exact E|]|exact (im_offset _ _ Hi)].
  exfalso. destruct E as [E|[E|[E|[E|E]]]]; discriminate E.
Defined.

(** C40: an opcode with one index whose index cannot be read reports the reader's
    error and leaves its kind in the metadata record: callers must not rely on a
    zero record after an error, contrary to the comment of
    [classifyExprOpAfterOpcode]. *)
Theorem classify_error_writes_imm op w multi r e r' :
  one_of op oneIndexOpcodes = true -> rd.u32 r = (Err e, r') ->
  exists i, classifyExprOpAfterOpcodeWithWidths op w multi (r, zeroImm) = (Err e, (r', i)) /\
    mKind i = oneIndexImmediateKind op /\ mKind i <> InstrInvalid.
Proof.
  intros Hop Hu. unfold one_of in Hop. apply existsb_exists in Hop as (c & Hin & Hc).
  apply Z.eqb_eq in Hc as ->. unfold oneIndexOpcodes in Hin.
  repeat (destruct Hin as [<-|Hin]; [eexists; split;
    [unfold classifyExprOpAfterOpcodeWithWidths; cbn; unfold bind, assign; cbn [fst snd]; by rewrite Hu
    |split; [reflexivity|discriminate]]|]).
  destruct Hin.
Qed.

Lemma classify_error_writes_imm_witness :
  exists e r i, classifyExprOpAfterOpcodeWithWidths 0x10 (fixedMemargWidths false) false
                  (reader.newReader [], zeroImm) = (Err e, (r, i)) /\ mKind i = InstrCall.
Proof.
  destruct (classify_error_writes_imm 0x10 (fixedMemargWidths false) false (reader.newReader [])
    _ _ eq_refl eq_refl) as (i & H1 & H2 & _).
  eexists _, _, i. split; [exact H1|exact H2].
Defined.
