(* ===== verification/Walk.v ===== *)
(** * Exported walkers of a body (bytecode_walk.go)

    The classifier and the skipper the back ends and analyses use on the
    exported cursor.  Common scalar immediates stay on the exported cursor, the
    others go through the decoder's cursor at the same place. *)

From stdpp Require Import base tactics numbers list.
From Stdlib Require Import ZArith Lia.
From S2P Require Import Prelude Reader LebSpec ReaderLaws ReaderExport Types Decode Kinds Instr.
From S2P Require Import Skip SkipLaws.
Local Open Scope Z_scope.

Definition WState : Set := Reader_.t * InstructionImmediate.
Abbreviation W := (M WState error).

(** A call on the exported cursor, then an assignment to [*imm] made whether or
    not the call failed. *)
Definition assignW {A} (m : M Reader_.t error A) (zero : A)
  (f : A -> InstructionImmediate -> InstructionImmediate) : W unit := fun s =>
  let (o, x') := m (fst s) in
  match o with
  | Ok a => (Ok tt, (x', f a (snd s)))
  | Err e => (Err e, (x', f zero (snd s)))
  | Panic => (Panic, (x', snd s))
  end.

(** [ir := reader{data: r.data, pos: r.pos}; ...; r.pos = ir.pos] *)
Definition back (x : Reader_.t) (r : reader.t) : Reader_.t :=
  {| Reader_.data := Reader_.data x; Reader_.pos := reader.pos r |}.

Definition ImmediateFreeInstructionKind (op : Z) : Z * bool :=
  let k := simpleOpcode op in (k, negb (k =? InstrInvalid)).

Definition classifyInstructionImmediateIntoWithWidths (op : Z) (widths : memargWidths)
  (multi : bool) : W unit := fun s0 =>
  let s := (fst s0, zeroImm) in
  match simpleKind op with
  | Some k => (Ok tt, (fst s, set_Kind k (snd s)))
  | None =>
      if one_of op [0x05; 0x0b] then (Ok tt, s)
      else if one_of op oneIndexOpcodes then
        assignW Reader_.U32 0 (fun idx i => set_Index idx (set_Kind (oneIndexImmediateKind op) i)) s
      else if op =? 0x41 then assignW Reader_.I32 0 (fun _ => set_Kind InstrI32Const) s
      else if op =? 0x42 then assignW Reader_.I64 0 (fun _ => set_Kind InstrI64Const) s
      else if op =? 0x43 then assignW (Reader_.Bytes 4) [] (fun _ => set_Kind InstrF32Const) s
      else if op =? 0x44 then assignW (Reader_.Bytes 8) [] (fun _ => set_Kind InstrF64Const) s
      else
        let (o, s') := classifyExprOpAfterOpcodeWithWidths op widths multi
                         (as_reader (fst s), snd s) in
        (match o with Ok _ => Ok tt | Err e => Err e | Panic => Panic end,
         (back (fst s) (fst s'), snd s'))
  end.

Definition skipScalarMemoryImmediate (widths : memargWidths) (multi : bool) : R unit :=
  let! alignment := rd.u32 in
  let! index :=
    (if alignment <? 64 then ret 0
     else if (alignment <? 128) && multi then rd.u32
     else fail_at ErrInvalidInstruction 0) in
  (if offset64 widths index then rd.u64 else rd.u32) ;;; ret tt.

Definition drop_value {S A} (m : M S error A) : M S error unit := m ;;; ret tt.

Definition skipInstructionImmediateWithWidths (op : Z) (widths : memargWidths) (multi : bool)
  : M Reader_.t error unit := fun x =>
  match simpleKind op with
  | Some _ => (Ok tt, x)
  | None =>
      if one_of op [0x05; 0x0b] then (Ok tt, x)
      else if one_of op oneIndexOpcodes then drop_value Reader_.U32 x
      else if op =? 0x41 then drop_value Reader_.I32 x
      else if op =? 0x42 then drop_value Reader_.I64 x
      else if op =? 0x43 then drop_value (Reader_.Bytes 4) x
      else if op =? 0x44 then drop_value (Reader_.Bytes 8) x
      else if (0x28 <=? op) && (op <=? 0x3e) then
        let (o, r) := skipScalarMemoryImmediate widths multi (as_reader x) in (o, back x r)
      else
        let (o, s) := classifyInstructionImmediateIntoWithWidths op widths multi (x, zeroImm) in
        (o, fst s)
  end.

(** [ModuleInstructionClassifier] *)
Record ModuleInstructionClassifier : Set := { cwidths : memargWidths; cmultiMemory : bool }.

Definition ClassifyInto (c : ModuleInstructionClassifier) (op : Z) : W unit :=
  classifyInstructionImmediateIntoWithWidths op (cwidths c) (cmultiMemory c).

Definition SkipImmediate (c : ModuleInstructionClassifier) (op : Z) : M Reader_.t error unit :=
  skipInstructionImmediateWithWidths op (cwidths c) (cmultiMemory c).

Definition SkipScalarMemoryImmediate (c : ModuleInstructionClassifier) : M Reader_.t error unit :=
  fun x =>
    let (o, r) := skipScalarMemoryImmediate (cwidths c) (cmultiMemory c) (as_reader x) in
    (o, back x r).

(** ** Skipping is classifying without the metadata *)

Lemma assignW_drop {A} (m : M Reader_.t error A) z f x i :
  let (o, s) := assignW m z f (x, i) in drop_value m x = (o, fst s).
Proof. unfold assignW, drop_value, bind. simpl. destruct (m x) as [[a|e|] x']; done. Qed.

(** The scalar memory skipper reads what the classifier reads. *)
Lemma skip_memarg widths (multi : bool) r i :
  let (o, s) := classifyMemArgBytes (with_multiMemory multi widths) (r, i) in
  skipScalarMemoryImmediate widths multi r = (o, fst s).
Proof.
  unfold classifyMemArgBytes, skipScalarMemoryImmediate, bind, lift. simpl fst. simpl snd.
  destruct (rd.u32 r) as [[n|e|] r1]; [|done|done].
  destruct (n <? 64); [|destruct (n <? 128); [destruct multi|]]; simpl; try done.
  - change (offset64 (with_multiMemory multi widths) 0) with (offset64 widths 0).
    destruct (offset64 widths 0); unfold assign; simpl;
      [destruct (rd.u64 r1) as [[?|?|] ?]|destruct (rd.u32 r1) as [[?|?|] ?]]; done.
  - destruct (rd.u32 r1) as [[mi|e|] r2]; simpl; [|done|done].
    change (offset64 (with_multiMemory true widths) mi) with (offset64 widths mi).
    destruct (offset64 widths mi); unfold assign; simpl;
      [destruct (rd.u64 r2) as [[?|?|] ?]|destruct (rd.u32 r2) as [[?|?|] ?]]; done.
Qed.

Lemma mem_opcodes_classify op widths multi s :
  simpleKind op = None -> (0x28 <=? op) && (op <=? 0x3e) = true ->
  classifyExprOpAfterOpcodeWithWidths op widths multi s =
  (setImm (set_Kind (memOpcodeKind op)) ;;; setImm (set_TouchesMemory true) ;;;
   classifyMemArgBytes (with_multiMemory multi widths) ;;; ret directInstr) s.
Proof.
  intros Hs Hm. unfold classifyExprOpAfterOpcodeWithWidths. rewrite Hs. cbv zeta.
  bool_to_prop. rewrite !(one_of_not_in op) by (simpl; lia).
  repeat match goal with |- context [op =? ?c] => replace (op =? c) with false by lia end.
  replace (0x28 <=? op) with true by lia. replace (op <=? 0x3e) with true by lia. done.
Qed.

(** [SkipImmediate] consumes exactly what [ClassifyInto] consumes: for every
    opcode, input and memory configuration the two return the same error or
    success and leave the cursor at the same position. *)
Theorem skip_is_classify c op x i :
  let (o, s) := ClassifyInto c op (x, i) in SkipImmediate c op x = (o, fst s).
Proof.
  unfold ClassifyInto, SkipImmediate, skipInstructionImmediateWithWidths.
  destruct (simpleKind op) as [k|] eqn:Hs.
  { unfold classifyInstructionImmediateIntoWithWidths. by rewrite Hs. }
  destruct (one_of op [5; 11]) eqn:E1.
  { unfold classifyInstructionImmediateIntoWithWidths. by rewrite Hs, E1. }
  destruct (((0x28 <=? op) && (op <=? 0x3e))) eqn:Em.
  - unfold classifyInstructionImmediateIntoWithWidths. rewrite Hs, E1. bool_to_prop.
    rewrite !(one_of_not_in op) by (simpl; lia).
    repeat match goal with |- context [op =? ?k] => replace (op =? k) with false by lia end.
    rewrite mem_opcodes_classify by (done || zbool). cbn [fst snd].
    unfold bind at 1 2 3, setImm. cbn [fst snd].
    pose proof (skip_memarg (cwidths c) (cmultiMemory c) (as_reader x)
      (set_TouchesMemory true (set_Kind (memOpcodeKind op) zeroImm))) as Hsk.
    destruct (classifyMemArgBytes _ _) as [[[]|?|] s]; rewrite Hsk; done.
  - unfold classifyInstructionImmediateIntoWithWidths. rewrite Hs, E1. simpl fst. simpl snd.
    destruct (one_of op oneIndexOpcodes); [apply assignW_drop|].
    destruct (op =? 0x41); [apply assignW_drop|]. destruct (op =? 0x42); [apply assignW_drop|].
    destruct (op =? 0x43); [apply assignW_drop|]. destruct (op =? 0x44); [apply assignW_drop|].
    destruct (classifyExprOpAfterOpcodeWithWidths _ _ _ _) as [o s']. done.
Qed.

(** ** The exported cursor reads what the decoder's cursor reads *)

(** A cursor inside a buffer that fits the address space. *)
Record place_ok (x : Reader_.t) : Prop := {
  pl_bytes : bytes_ok (Reader_.data x);
  pl_pos : (Reader_.pos x <= length (Reader_.data x))%nat;
  pl_size : Z.of_nat (length (Reader_.data x)) < 2 ^ 62
}.

(** The two calls succeed together, with the same value and position. *)
Definition reads_alike {A} (m : M Reader_.t error A) (d : R A) : Prop :=
  forall x a y, place_ok x ->
    m x = (Ok a, y) <-> d (as_reader x) = (Ok a, as_reader y).

Lemma alike_bind_ret {A B} (m : M Reader_.t error A) (d : R A) (f g : A -> B) :
  reads_alike m d -> (forall a, f a = g a) -> (forall x, exists y, snd (d (as_reader x)) = as_reader y) ->
  reads_alike (let! v := m in ret (f v)) (let! v := d in ret (g v)).
Proof.
  intros H Hfg Hd x b y Hx. unfold bind. split.
  - destruct (m x) as [[a|e|] x'] eqn:E; [|discriminate..]. intros [= <- <-].
    apply H in E; [|done]. rewrite E. unfold ret. by rewrite Hfg.
  - destruct (d (as_reader x)) as [[a|e|] r'] eqn:E; [|discriminate..].
    destruct (Hd x) as [z Hz]. rewrite E in Hz. simpl in Hz. subst r'.
    unfold ret. intros [= <- Hp]. apply H in E; [|done]. rewrite E. unfold ret. rewrite Hfg.
    f_equal. destruct z, y. unfold as_reader in *. simpl in *. congruence.
Qed.

Lemma leb_as_reader signed N x : exists y, snd (rd.leb signed N (as_reader x)) = as_reader y.
Proof.
  pose proof (obl_leb signed N (as_reader x) None) as H.
  change (set_budget None (as_reader x)) with (as_reader x) in H.
  destruct (rd.leb signed N (as_reader x)) as [o r']. simpl in *. injection H as Hr.
  exists {| Reader_.data := reader.data r'; Reader_.pos := reader.pos r' |}.
  rewrite Hr. done.
Qed.

Lemma alike_leb signed N (f g : Z -> Z) :
  1 <= N <= 64 -> (forall v, f v = g v) ->
  reads_alike (let! v := Reader_.leb128 signed N in ret (f v)) (let! v := rd.leb signed N in ret (g v)).
Proof.
  intros HN Hfg. apply alike_bind_ret; [|done|apply leb_as_reader].
  intros x a y Hx. apply leb128_agrees; [apply Hx|done].
Qed.

Lemma alike_peeked (f : Z -> Z) m d :
  reads_alike m d ->
  reads_alike
    (fun x => match Reader_.Peek x with
              | Some b => if b <? 0x80 then
                            (Ok (f b), {| Reader_.data := Reader_.data x; Reader_.pos := Reader_.pos x + 1 |})
                          else m x
              | None => m x
              end)
    (fun r => match reader.peek r with
              | Some b => if b <? 0x80 then (Ok (f b), reader.advance 1 r) else d r
              | None => d r
              end).
Proof.
  intros H x a y Hx. unfold Reader_.Peek, reader.peek. simpl.
  destruct (Reader_.data x !! Reader_.pos x) as [b|]; [|by apply H].
  destruct (b <? 128); [|by apply H].
  unfold reader.advance, as_reader. destruct y. simpl. split; intros [=]; by subst.
Qed.

Lemma to_i32_to_u32 v : to_i32 (to_u32 v) = to_i32 v.
Proof.
  unfold to_i32, to_u32. rewrite Z.add_mod_idemp_l by lia. done.
Qed.

Lemma alike_U32 : reads_alike Reader_.U32 rd.u32.
Proof. apply (alike_peeked (fun b => b)), alike_leb; [lia|done]. Qed.

Lemma alike_I32 : reads_alike Reader_.I32 rd.i32.
Proof. apply alike_peeked, alike_leb; [lia|]. intros v. apply to_i32_to_u32. Qed.

Lemma alike_I64 : reads_alike Reader_.I64 rd.i64.
Proof. by apply alike_leb. Qed.

Lemma alike_Bytes n : 0 <= n < 2 ^ 32 -> reads_alike (Reader_.Bytes n) (rd.bytes n).
Proof.
  intros Hn x l y [_ Hp Hz]. unfold Reader_.Bytes, Reader_.Step, Reader_.JumpTo, rd.bytes, bind.
  cbn [get fst snd]. unfold reader.left, Reader_.Offset_. simpl.
  assert (Hsum : to_i64 (Z.of_nat (Reader_.pos x) + n) = Z.of_nat (Reader_.pos x) + n).
  { rewrite <- (to_i64_of_u64 (Z.of_nat (Reader_.pos x) + n)) at 2 by lia.
    unfold to_i64. rewrite Z.add_mod_idemp_l by lia. done. }
  rewrite Hsum.
  destruct (Z.lt_ge_cases (Z.of_nat (length (Reader_.data x)) - Z.of_nat (Reader_.pos x)) n) as [Hl|Hl].
  - replace ((_ <? 0) || _) with true by zbool. replace ((n <? 0) || _) with true by zbool.
    split; discriminate.
  - replace ((Z.of_nat (Reader_.pos x) + n <? 0) || _) with false by zbool.
    replace ((n <? 0) || _) with false by zbool. simpl.
    unfold Reader_.slice.
    replace (_ <=? _)%nat with true by (symmetry; apply Nat.leb_le; lia).
    replace (Z.to_nat (Z.of_nat (Reader_.pos x) + n) - Reader_.pos x)%nat with (Z.to_nat n) by lia.
    unfold ret, reader.advance, as_reader. destruct y. simpl.
    replace (Z.to_nat (Z.of_nat (Reader_.pos x) + n)) with (Reader_.pos x + Z.to_nat n)%nat by lia.
    split; intros [=]; by subst.
Qed.

Lemma obl_as_reader {A} (d : R A) x :
  oblivious d -> exists y, snd (d (as_reader x)) = as_reader y.
Proof.
  intros Hd. pose proof (Hd (as_reader x) None) as H.
  change (set_budget None (as_reader x)) with (as_reader x) in H.
  destruct (d (as_reader x)) as [o r']. simpl in *. injection H as Hr.
  exists {| Reader_.data := reader.data r'; Reader_.pos := reader.pos r' |}. by rewrite Hr.
Qed.

Lemma place_reader_ok x : place_ok x -> reader_ok (as_reader x).
Proof. intros []. split; [done|done|]. vm_compute. split; split; congruence. Qed.

(** One fast path: the exported read and the assignment against the decoder's. *)
Lemma fast_path_agrees {A} (m : M Reader_.t error A) (d : R A) z f k Q x x' i :
  reads_alike m d -> oblivious d -> safe 0 d Q -> place_ok x ->
  assignW m z f (x, zeroImm) = (Ok tt, (x', i)) <->
  exists k' r', (assign d z f ;;; ret k) (as_reader x, zeroImm) = (Ok k' : outcome error directOpKind, (r', i)) /\
    Reader_.pos x' = reader.pos r' /\ Reader_.data x' = Reader_.data x.
Proof.
  intros Hm Ho Hs Hx. specialize (Hs _ (place_reader_ok _ Hx)).
  destruct (obl_as_reader d x Ho) as [y Hy]. unfold assignW, assign, bind. simpl.
  destruct (d (as_reader x)) as [[a|e|] r'] eqn:E; simpl in Hy; subst; simpl.
  - destruct Hs as (_ & He & _). apply ext_data in He. simpl in He.
    pose proof (proj2 (Hm x a y Hx) E) as Em. rewrite Em. split.
    + intros [= <- <-]. eexists _, _. split; [reflexivity|]. done.
    + intros (k' & r' & [= <- <- <-] & Hp & Hd). f_equal. f_equal.
      destruct x', y. simpl in *. congruence.
  - split.
    + destruct (m x) as [[a|e'|] x1] eqn:Em; [|discriminate..].
      apply Hm in Em; [|done]. congruence.
    + intros (k' & r' & H & _). discriminate.
  - by split.
Qed.

(** The walker over the exported cursor against the decoder's classifier. *)
Lemma classifyInto_iff c op x x' i i0 :
  place_ok x ->
  ClassifyInto c op (x, i0) = (Ok tt, (x', i)) <->
  exists k r', classifyExprOpAfterOpcodeWithWidths op (cwidths c) (cmultiMemory c)
                 (as_reader x, zeroImm) = (Ok k, (r', i)) /\
    Reader_.pos x' = reader.pos r' /\ Reader_.data x' = Reader_.data x.
Proof.
  intros Hx. unfold ClassifyInto, classifyInstructionImmediateIntoWithWidths,
    classifyExprOpAfterOpcodeWithWidths. cbv zeta. cbn [fst snd].
  destruct (simpleKind op) as [k|] eqn:Hs.
  { split; [intros [= <- <-]; eexists _, _; split; [reflexivity|done]|].
    intros (k' & r' & [= <- <- <-] & Hp & Hd). do 2 f_equal. destruct x, x'. simpl in *. congruence. }
  destruct (one_of op [5; 11]) eqn:E1; [|destruct (one_of op oneIndexOpcodes) eqn:E2].
  3: split_on op [0x41; 0x42; 0x43; 0x44].
  - unfold one_of in E1. simpl in E1. rewrite !orb_true_iff in E1.
    assert (op = 5 \/ op = 11) as [-> | ->] by lia; eval_consts;
    (split; [intros [= <- <-]; eexists _, _; split; [reflexivity|done]|]);
    (intros (k' & r' & [= <- <- <-] & Hp & Hd); do 2 f_equal; destruct x, x'; simpl in *; congruence).
  - assert (H1 : one_of op [2; 3; 4] = false /\ (op =? 5) = false).
    { unfold one_of, oneIndexOpcodes in *. simpl in *. rewrite !orb_true_iff in E2. split; zbool. }
    destruct H1 as [-> ->]. 
    apply (fast_path_agrees _ _ _ _ _ u32_ok); [apply alike_U32|apply obl_u32| |done].
    eapply safe_zero, safe_u32.
  - eval_consts. apply (fast_path_agrees _ _ _ _ _ in_i32); [apply alike_I32|apply obl_i32| |done].
    eapply safe_zero, safe_i32.
  - eval_consts. apply (fast_path_agrees _ _ _ _ _ in_i64); [apply alike_I64|apply obl_i64| |done].
    eapply safe_zero, safe_i64.
  - eval_consts. eapply fast_path_agrees; [by apply alike_Bytes|apply obl_bytes| |done].
    eapply safe_zero, safe_bytes.
  - eval_consts. eapply fast_path_agrees; [by apply alike_Bytes|apply obl_bytes| |done].
    eapply safe_zero, safe_bytes.
  - replace (op =? 0x41) with false by lia. replace (op =? 0x42) with false by lia.
    replace (op =? 0x43) with false by lia. replace (op =? 0x44) with false by lia.
    match goal with |- context [let (o, s') := ?m in _] => destruct m as [[k|e|] [r' j]] eqn:E end;
      simpl; split; try discriminate.
    + intros [= <- <-]. eexists _, _. done.
    + intros (k' & r2 & [= <- <- <-] & Hp & Hd). unfold back. do 2 f_equal.
      destruct x'. simpl in *. congruence.
    + intros (k' & r2 & H & _). discriminate.
    + intros (k' & r2 & H & _). discriminate.
Qed.

(** C35: the walker over the exported cursor classifies an instruction exactly when
    the decoder's classifier does, with the same metadata and the same extent:
    the fast paths for indexes and constants and the adapter for the other
    opcodes are interchangeable. *)
Theorem classifyInto_agrees c op x x' i i0 :
  place_ok x ->
  ClassifyInto c op (x, i0) = (Ok tt, (x', i)) <->
  exists k r', classifyExprOpAfterOpcodeWithWidths op (cwidths c) (cmultiMemory c)
                 (as_reader x, zeroImm) = (Ok k, (r', i)) /\
    Reader_.pos x' = reader.pos r' /\ Reader_.data x' = Reader_.data x.
Proof. apply classifyInto_iff. Qed.

Lemma classifyInto_agrees_witness :
  let c := {| cwidths := fixedMemargWidths false; cmultiMemory := true |} in
  exists i, ClassifyInto c 0x20 ({| Reader_.data := [0x20; 0x81; 0x01]; Reader_.pos := 1 |}, zeroImm) =
              (Ok tt, ({| Reader_.data := [0x20; 0x81; 0x01]; Reader_.pos := 3 |}, i)) /\
            mKind i = InstrLocalGet /\ mIndex i = 129.
Proof.
  eexists. split; [|split].
  - apply classifyInto_agrees.
    + split; [repeat constructor; lia|simpl; lia|simpl; lia].
    + eexists _, _. split; [reflexivity|]. split; reflexivity.
  - reflexivity.
  - reflexivity.
Defined.
