(* ===== verification/Encode.v ===== *)
(** * Encoding of expressions (encode.go)

    [EncodeExpr] serializes a decoded expression; a value it writes is a list of
    bytes.  The encoders of LEB128 are in [ReaderExport].  An unsupported
    instruction or type is an error ([None]). *)

From stdpp Require Import base tactics numbers list.
From Stdlib Require Import ZArith Lia.
From S2P Require Import Prelude Reader LebSpec ReaderLaws ReaderExport Types TypesLaws Decode DecodeLaws Kinds.
From S2P Require Import Instr InstrLaws Skip SkipLaws.
Local Open Scope Z_scope.

(** ** Types *)

Definition EncodeValType (t : ValType) : option Z :=
  if ValType_Kind t =? ValNum then
    if (ValType_Num t =? NumI32) || (ValType_Num t =? NumI64) || (ValType_Num t =? NumF32)
       || (ValType_Num t =? NumF64)
    then Some (ValType_Num t) else None
  else if ValType_Kind t =? ValVec then Some 0x7b
  else if ValType_Kind t =? ValRef then
    let rt := ValType_Ref t in
    if RefType_Bare rt && RefType_Nullable rt && negb (RefType_Exact rt)
       && (HeapType_Kind (RefType_Heap rt) =? HeapAbs)
    then Some (HeapType_Abs (RefType_Heap rt)) else None
  else None.

Definition appendValType (t : ValType) : option (list Z) :=
  match EncodeValType t with
  | Some b => Some [b]
  | None =>
      if negb (ValType_Kind t =? ValRef) || RefType_Bare (ValType_Ref t) then None
      else
        let rt := ValType_Ref t in
        let lead := (if RefType_Nullable rt then 0x63 else 0x64) ::
                    (if RefType_Exact rt then [0x62] else []) in
        let heap := RefType_Heap rt in
        if HeapType_Kind heap =? HeapAbs then Some (lead ++ [HeapType_Abs heap])
        else if HeapType_Kind heap =? HeapTypeIndex then
          let idx := HeapType_Type heap in
          if Rec idx then None else Some (lead ++ appendS64 (Index idx))
        else None
  end.

Definition appendBlockType (bt : BlockType) : option (list Z) :=
  if BKind bt =? BlockVoid then Some [0x40]
  else if BKind bt =? BlockVal then appendValType (BVal bt)
  else if BKind bt =? BlockTypeIndex then
    if Rec (BType bt) then None else Some (appendS64 (Index (BType bt)))
  else None.

(** ** Opcodes of kinds

    The inverse tables [init] builds; the opcode 0 of [unreachable] is found by
    its kind. *)

Fixpoint table_find (t : list (Z * Z)) (k : Z) : option Z :=
  match t with
  | [] => None
  | (op, k') :: t' => if k =? k' then Some op else table_find t' k
  end.

Definition simpleKindOpcode : list (Z * Z) :=
  filter (fun e => snd e <> InstrSelect) simpleOpcodeTable.

Definition lookupSimpleOpcode (k : Z) : option Z :=
  if numInstrKinds <=? k then None else table_find simpleKindOpcode k.

Definition lookupMemOpcode (k : Z) : option Z :=
  if numInstrKinds <=? k then None else table_find memOpcodeTable k.

(** ** Instructions *)

Definition appendU64AsU32 (v : Z) : option (list Z) :=
  if 2 ^ 32 - 1 <? v then None else Some (appendU32 v).

Definition appendMemArg (arg : MemArg) : option (list Z) :=
  let align := match Mem arg with Some _ => Z.lor (Align arg) 0x40 | None => Align arg end in
  off ← appendU64AsU32 (MOffset arg);
  Some (appendU32 align ++ (match Mem arg with Some m => appendU32 m | None => [] end) ++ off).

(** [binary.LittleEndian.PutUint32/PutUint64] *)
Fixpoint put_le (n : nat) (v : Z) : list Z :=
  match n with
  | O => []
  | S n' => Z.land v 0xff :: put_le n' (Z.shiftr v 8)
  end.

Definition appendValTypes (ts : list ValType) : option (list Z) :=
  bss ← mapM appendValType ts;
  Some (appendU32 (Z.of_nat (length ts)) ++ concat bss).

(** The kinds that are an opcode and one index. *)
Definition encOneIndex : list (Z * Z) :=
  [(0x0c, InstrBr); (0x0d, InstrBrIf); (0x10, InstrCall); (0x20, InstrLocalGet);
   (0x21, InstrLocalSet); (0x22, InstrLocalTee); (0x23, InstrGlobalGet); (0x24, InstrGlobalSet);
   (0x3f, InstrMemorySize); (0x40, InstrMemoryGrow)].

Definition appendLeaf (p : payload) : option (list Z) :=
  let k := IKind p in
  match lookupSimpleOpcode k with
  | Some op => Some [op]
  | None =>
  match lookupMemOpcode k with
  | Some op => ma ← appendMemArg (IMemArg p); Some (op :: ma)
  | None =>
  match table_find encOneIndex k with
  | Some op => Some (op :: appendU32 (IIndex p))
  | None =>
      if k =? InstrBrTable then
        Some (0x0e :: appendU32 (Z.of_nat (length (IIndices p)))
                ++ concat (map appendU32 (IIndices p)) ++ appendU32 (IIndex p))
      else if k =? InstrCallIndirect then
        Some (0x11 :: appendU32 (IIndex p) ++ appendU32 (IIndex2 p))
      else if k =? InstrSelect then
        if (length (IValTypes p) =? 0)%nat then Some [0x1b]
        else ts ← appendValTypes (IValTypes p); Some (0x1c :: ts)
      else if k =? InstrI32Const then Some (0x41 :: appendS32 (II32 p))
      else if k =? InstrI64Const then Some (0x42 :: appendS64 (II64 p))
      else if k =? InstrF32Const then Some (0x43 :: put_le 4 (IF32Bits p))
      else if k =? InstrF64Const then Some (0x44 :: put_le 8 (IF64Bits p))
      else if (k =? InstrI64Add128) || (k =? InstrI64Sub128) || (k =? InstrI64MulWideS)
              || (k =? InstrI64MulWideU) then
        Some (0xfc :: appendU32 (19 + (k - InstrI64Add128)))
      else if k =? InstrMemoryCopy then
        Some (0xfc :: appendU32 10 ++ appendU32 (IIndex p) ++ appendU32 (IIndex2 p))
      else if k =? InstrMemoryFill then
        Some (0xfc :: appendU32 11 ++ appendU32 (IIndex p))
      else None
  end
  end
  end.

(** [appendInstr] and [appendInstrs]: the kinds with a body first, since they are
    in none of the opcode tables. *)
Fixpoint appendInstr (ins : Instruction) : option (list Z) :=
  let fix appendInstrs (l : list Instruction) : option (list Z) :=
    match l with
    | [] => Some []
    | x :: l' => bs ← appendInstr x; rest ← appendInstrs l'; Some (bs ++ rest)
    end in
  let '(Node p body thn els) := ins in
  let k := IKind p in
  if (k =? InstrBlock) || (k =? InstrLoop) then
    bt ← appendBlockType (IBlockType p);
    b ← appendInstrs body;
    Some ((if k =? InstrBlock then 0x02 else 0x03) :: bt ++ b ++ [0x0b])
  else if k =? InstrIf then
    bt ← appendBlockType (IBlockType p);
    t ← appendInstrs thn;
    e ← (if (length els =? 0)%nat then Some []
         else e ← appendInstrs els; Some (0x05 :: e));
    Some (0x04 :: bt ++ t ++ e ++ [0x0b])
  else appendLeaf p.

Fixpoint appendInstrs (l : list Instruction) : option (list Z) :=
  match l with
  | [] => Some []
  | x :: l' => bs ← appendInstr x; rest ← appendInstrs l'; Some (bs ++ rest)
  end.

(** [EncodeExpr] on an expression given by its instructions. *)
Definition EncodeExpr (instrs : list Instruction) : option (list Z) :=
  bs ← appendInstrs instrs; Some (bs ++ [0x0b]).

(** ** Laws of the encoder *)

Definition charge (c : Z) (b : decodeBudget) : decodeBudget :=
  {| remaining := remaining b - c; types := types b; limits := limits b |}.

Definition reads {A} (c : Z) (m : R A) (bs : list Z) (a : A) : Prop :=
  0 <= c /\
  forall r rest, reader_ok r -> drop (reader.pos r) (reader.data r) = bs ++ rest ->
    c <= remaining (rd.the_budget r) ->
    exists r', m r = (Ok a, r') /\ reader.data r' = reader.data r /\
      reader.pos r' = (reader.pos r + length bs)%nat /\
      rd.the_budget r' = charge c (rd.the_budget r).

Lemma charge_0 b : charge 0 b = b.
Proof. destruct b. unfold charge. simpl. f_equal. lia. Qed.

Lemma charge_add c d b : charge d (charge c b) = charge (c + d) b.
Proof. unfold charge. simpl. f_equal. lia. Qed.

(** The reader after a read is well formed again. *)
Lemma reads_reader_ok r r' bs rest c :
  reader_ok r -> drop (reader.pos r) (reader.data r) = bs ++ rest -> 0 <= c ->
  c <= remaining (rd.the_budget r) ->
  reader.data r' = reader.data r -> reader.pos r' = (reader.pos r + length bs)%nat ->
  rd.the_budget r' = charge c (rd.the_budget r) ->
  reader_ok r' /\ drop (reader.pos r') (reader.data r') = rest.
Proof.
  intros Hr Hd Hc0 Hc Hdata Hpos Hb. split.
  - split.
    + rewrite Hdata. apply Hr.
    + rewrite Hdata, Hpos. apply (f_equal length) in Hd.
      rewrite length_drop, length_app in Hd. pose proof (rok_pos _ Hr). lia.
    + rewrite Hb. pose proof (rok_budget _ Hr) as Hok. unfold budget_ok, charge in *. simpl. lia.
  - rewrite Hdata, Hpos, <- drop_drop, Hd, drop_app_length. done.
Qed.

Lemma reads_ret {A} (a : A) : reads 0 (ret a) [] a.
Proof.
  split; [lia|]. intros r rest Hr Hd Hc. exists r. rewrite charge_0. simpl. by rewrite Nat.add_0_r.
Qed.

Lemma reads_bind {A B} c1 c2 (m : R A) (k : A -> R B) bs1 bs2 a b :
  reads c1 m bs1 a -> reads c2 (k a) bs2 b -> reads (c1 + c2) (bind m k) (bs1 ++ bs2) b.
Proof.
  intros [Hc1 Hm] [Hc2 Hk]. split; [lia|]. intros r rest Hr Hd Hc.
  rewrite <- app_assoc in Hd.
  destruct (Hm r (bs2 ++ rest) Hr Hd ltac:(lia)) as (r1 & E1 & Hdata1 & Hpos1 & Hb1).
  destruct (reads_reader_ok r r1 bs1 (bs2 ++ rest) c1) as [Hr1 Hd1]; try done; [lia|].
  destruct (Hk r1 rest Hr1 Hd1) as (r2 & E2 & Hdata2 & Hpos2 & Hb2).
  { rewrite Hb1. unfold charge. simpl. lia. }
  exists r2. split; [by rewrite (bind_eq _ _ _ _ _ E1)|]. split; [congruence|].
  split; [rewrite length_app; lia|]. by rewrite Hb2, Hb1, charge_add.
Qed.

(** The same with a tail that reads nothing. *)
Lemma reads_bind_ret {A B} c (m : R A) (f : A -> B) bs a :
  reads c m bs a -> reads c (let! x := m in ret (f x)) bs (f a).
Proof.
  intros H. rewrite <- (app_nil_r bs). replace c with (c + 0) by lia.
  eapply reads_bind; [exact H|apply reads_ret].
Qed.

Lemma reads_byte b : reads 0 rd.byte [b] b.
Proof.
  split; [lia|]. intros r rest Hr Hd _. exists (reader.advance 1 r).
  rewrite charge_0. split; [|done].
  apply byte_Some. apply (f_equal (fun l => l !! 0%nat)) in Hd.
  rewrite lookup_drop, Nat.add_0_r in Hd. exact Hd.
Qed.

(** A decoder that looks at the next byte. *)
Lemma reads_peek {A} c (k : option Z -> R A) b bs a :
  reads c (k (Some b)) (b :: bs) a -> reads c (bind peekM k) (b :: bs) a.
Proof.
  intros [Hc H]. split; [done|]. intros r rest Hr Hd Hle.
  destruct (H r rest Hr Hd Hle) as (r' & E & ?). exists r'. split; [|done].
  unfold bind, peekM, reader.peek.
  apply (f_equal (fun l => l !! 0%nat)) in Hd. rewrite lookup_drop, Nat.add_0_r in Hd.
  rewrite Hd. exact E.
Qed.

Lemma reads_leb (m : R Z) signed N bs v :
  (forall r r', bytes_ok (reader.data r) -> m r = (Ok v, r') <-> leb_reads signed N r r' v) ->
  leb_encodes signed N bs v -> reads 0 m bs v.
Proof.
  intros Hm He. split; [lia|]. intros r rest Hr Hd _. exists (reader.advance (length bs) r).
  rewrite charge_0. split; [|done]. apply Hm; [apply Hr|]. exists bs, rest. done.
Qed.

Lemma reads_u32 v : u32_ok v -> reads 0 rd.u32 (appendU32 v) v.
Proof.
  intros Hv. eapply (reads_leb _ false 32); [intros; by apply u32_spec|]. by apply appendU32_encodes.
Qed.

Lemma reads_i32 v : in_i32 v -> reads 0 rd.i32 (appendS32 v) v.
Proof.
  intros Hv. eapply (reads_leb _ true 32); [intros; by apply i32_spec|]. by apply appendS32_encodes.
Qed.

Lemma reads_i64 v : in_i64 v -> reads 0 rd.i64 (appendS64 v) v.
Proof.
  intros Hv. eapply (reads_leb _ true 64); [intros; by apply i64_spec|]. by apply appendS64_encodes.
Qed.

Lemma reads_s33 v : in_s33 v -> reads 0 rd.s33 (appendS64 v) v.
Proof.
  intros Hv. eapply (reads_leb _ true 33); [intros; by apply s33_spec|]. by apply appendS64_encodes_s33.
Qed.

(** ** Types *)

(** The first byte of a type index is never taken for a heap type or a marker. *)
Lemma appendS64_head v :
  0 <= v -> exists b bs, appendS64 v = b :: bs /\ (b < 64 \/ 128 <= b).
Proof.
  intros Hv. unfold appendS64. cbn [appendS64_loop].
  rewrite land_7f, shiftr_7, land_bit_64_mod, negb_involutive.
  pose proof (Z.mod_pos_bound v 128 ltac:(lia)). pose proof (Z.div_pos v 128 ltac:(lia) ltac:(lia)).
  destruct (_ || _) eqn:E.
  - eexists _, _. split; [reflexivity|]. left.
    apply orb_true_iff in E as [E|E]; bool_to_prop; lia.
  - eexists _, _. split; [reflexivity|]. right. rewrite lor_128 by lia. lia.
Qed.

Lemma reads_s33_idx i :
  u32_ok (Index i) -> Rec i = false -> reads 0 decodeS33TypeIdx (appendS64 (Index i)) i.
Proof.
  unfold u32_ok. intros Hi Hrec. unfold decodeS33TypeIdx. rewrite <- (app_nil_r (appendS64 _)).
  change 0 with (0 + 0) at 1. eapply reads_bind; [apply reads_s33; unfold in_s33; lia|].
  replace (Index i <? 0) with false by lia. rewrite to_u32_small by lia.
  destruct i as [x []]; simpl in *; [discriminate|apply reads_ret].
Qed.

Lemma reads_absheap a : isAbsHeapByte a = true -> reads 0 decodeAbsHeapType [a] a.
Proof.
  intros Ha. unfold decodeAbsHeapType. change [a] with ([a] ++ []). change 0 with (0 + 0).
  eapply reads_bind; [apply reads_byte|]. rewrite Ha. apply reads_ret.
Qed.

(** The bytes of a heap type. *)
Definition heap_bytes (h : heap_ty) : list Z :=
  match h with HTabs a => [a] | HTidx i => appendS64 (Index i) end.

Lemma reads_heap h :
  heap_decodable false h -> reads 0 decodeHeapType (heap_bytes h) (pack_heap h).
Proof.
  intros H. unfold decodeHeapType. destruct h as [a|i]; simpl in H |- *.
  - destruct H as [_ Ha]. apply reads_peek. simpl.
    replace ((a =? 100) || _) with true by (unfold isAbsHeapByte in Ha; rewrite orb_comm; auto).
    by apply (reads_bind_ret 0 decodeAbsHeapType AbsHeap), reads_absheap.
  - destruct H as [Hu Hr]. unfold u32_ok in Hu.
    destruct (appendS64_head (Index i) ltac:(lia)) as (b & bs & E & Hb).
    pose proof (reads_s33_idx i Hu Hr) as Hi. rewrite E in *. apply reads_peek. simpl.
    replace ((b =? 100) || _) with false by zbool.
    by apply (reads_bind_ret 0 decodeS33TypeIdx IndexedHeap).
Qed.

Lemma heap_bytes_head h :
  heap_decodable false h -> exists b bs, heap_bytes h = b :: bs /\ (b =? 0x62) = false.
Proof.
  destruct h as [a|i]; simpl.
  - intros [_ Ha]. exists a, []. split; [done|]. unfold isAbsHeapByte in Ha.
    apply orb_true_iff in Ha as [Ha|Ha]; bool_to_prop; lia.
  - intros [Hu _]. unfold u32_ok in Hu.
    destruct (appendS64_head (Index i) ltac:(lia)) as (b & bs & E & Hb). exists b, bs.
    split; [done|]. lia.
Qed.

Definition ref_heap_bytes (e : bool) (h : heap_ty) : list Z :=
  (if e then [0x62] else []) ++ heap_bytes h.

Lemma reads_ref_heap e h :
  heap_decodable e h -> reads 0 decodeRefHeapType (ref_heap_bytes e h) (e, pack_heap h).
Proof.
  intros H. unfold decodeRefHeapType, ref_heap_bytes. destruct e; simpl app.
  - destruct h as [a|i]; simpl in H; [by destruct H|]. destruct H as [Hu Hr].
    apply reads_peek. simpl. change (0x62 :: ?l) with ([0x62] ++ l). change 0 with (0 + 0).
    eapply reads_bind; [apply reads_byte|].
    by apply (reads_bind_ret 0 decodeS33TypeIdx (fun i => (true, IndexedHeap i))), reads_s33_idx.
  - destruct (heap_bytes_head h H) as (b & bs & E & Hb).
    pose proof (reads_heap h H) as Hh. rewrite E in *. apply reads_peek. simpl. rewrite Hb.
    by apply (reads_bind_ret 0 decodeHeapType (fun x => (false, x))).
Qed.

(** The bytes of a value type. *)
Definition val_bytes (t : val_ty) : list Z :=
  match t with
  | VTnum n => [n]
  | VTvec => [0x7b]
  | VTbot => []
  | VTbare a => [a]
  | VTref n e h => (if n then 0x63 else 0x64) :: ref_heap_bytes e h
  end.

Lemma isNumType_cases n :
  isNumType n = true -> n = 0x7f \/ n = 0x7e \/ n = 0x7d \/ n = 0x7c.
Proof.
  unfold isNumType, NumI32, NumI64, NumF32, NumF64. rewrite !orb_true_iff, !Z.eqb_eq. tauto.
Qed.

Lemma reads_bare a : 0x69 <= a <= 0x74 -> reads 0 decodeRefType [a] (AbsRef a).
Proof.
  intros Ha. unfold decodeRefType. change [a] with ([a] ++ []). change 0 with (0 + 0).
  eapply reads_bind; [apply reads_byte|].
  replace (a =? 0x63) with false by lia. replace (a =? 0x64) with false by lia.
  replace (_ || _) with true by zbool. apply reads_ret.
Qed.

Lemma reads_explicit_ref (n : bool) e h :
  heap_decodable e h ->
  reads 0 decodeRefType ((if n then 0x63 else 0x64) :: ref_heap_bytes e h) (Ref n (pack_heap h) e).
Proof.
  intros H. unfold decodeRefType. change (?x :: ?l) with ([x] ++ l). change 0 with (0 + 0).
  eapply reads_bind; [apply reads_byte|]. pose proof (reads_ref_heap e h H) as Hh.
  destruct n; simpl.
  - by apply (reads_bind_ret 0 _ (fun p => Ref true (snd p) (fst p)) _ (e, pack_heap h)).
  - by apply (reads_bind_ret 0 _ (fun p => Ref false (snd p) (fst p)) _ (e, pack_heap h)).
Qed.

Lemma ref_lead_range a : 0x69 <= a <= 0x74 ->
  existsb (Z.eqb a) [0x7f; 0x7e; 0x7d; 0x7c] = false /\ (a =? 0x7b) = false /\
  existsb (Z.eqb a) refTypeLeads = true.
Proof.
  intros Ha. assert (a = 0x69 \/ a = 0x6a \/ a = 0x6b \/ a = 0x6c \/ a = 0x6d \/ a = 0x6e \/
    a = 0x6f \/ a = 0x70 \/ a = 0x71 \/ a = 0x72 \/ a = 0x73 \/ a = 0x74) by lia.
  by destruct_or!; subst.
Qed.

Lemma reads_val t : val_decodable t -> reads 0 decodeValType (val_bytes t) (pack_val t).
Proof.
  intros H. unfold decodeValType. destruct t as [n| | |a|n e h];
    cbn [val_bytes pack_val val_decodable] in *; [| |done| |].
  - apply reads_peek. destruct (isNumType_cases n H) as [-> | [-> | [-> | ->]]]; simpl;
      apply (reads_bind_ret 0 decodeNumType (newValType ValNum)); unfold decodeNumType;
      change [?x] with ([x] ++ []); change 0 with (0 + 0); (eapply reads_bind; [apply reads_byte|]);
      apply reads_ret.
  - apply reads_peek. simpl. change [0x7b] with ([0x7b] ++ []). change 0 with (0 + 0).
    eapply reads_bind; [apply reads_byte|apply reads_ret].
  - apply reads_peek. destruct (ref_lead_range a H) as (-> & -> & ->).
    by apply (reads_bind_ret 0 decodeRefType RefVal), reads_bare.
  - apply reads_peek.
    assert (forall x, x = 0x63 \/ x = 0x64 ->
      existsb (Z.eqb x) [0x7f; 0x7e; 0x7d; 0x7c] = false /\ (x =? 0x7b) = false /\
      existsb (Z.eqb x) refTypeLeads = true) as Hl by (intros x [-> | ->]; done).
    destruct (Hl (if n then 0x63 else 0x64)) as (-> & -> & ->); [by destruct n; auto|].
    by apply (reads_bind_ret 0 decodeRefType RefVal), reads_explicit_ref.
Qed.

Lemma appendValType_pack t : val_decodable t -> appendValType (pack_val t) = Some (val_bytes t).
Proof.
  intros H. unfold appendValType, EncodeValType.
  destruct t as [n| | |a|n e h]; cbn [val_bytes pack_val val_decodable] in *; [|done|done| |].
  - destruct (newValType_ok ValNum n ltac:(done) (isNumType_byte _ H)) as (_ & -> & ->).
    simpl. unfold isNumType in H. by rewrite H.
  - destruct (AbsRef_ok a ltac:(unfold byte_ok; lia)) as (Hr & Hn & He & Hb & Hh).
    destruct (RefVal_ok _ Hr) as (_ & -> & ->). simpl. rewrite Hb, Hn, He, Hh.
    destruct (AbsHeap_ok a ltac:(unfold byte_ok; lia)) as (_ & -> & ->). done.
  - pose proof (heap_decodable_ok e h H) as Hok.
    destruct (Ref_ok n _ e (pack_heap_ok h Hok)) as (Hr & Hn & He & Hb & Hh).
    destruct (RefVal_ok _ Hr) as (_ & -> & ->).
    change (ValRef =? ValNum) with false. change (ValRef =? ValVec) with false.
    change (ValRef =? ValRef) with true. cbv iota zeta. rewrite Hb, Hn, He, Hh. cbn [andb orb negb].
    unfold ref_heap_bytes.
    destruct h as [a|i]; cbn [pack_heap heap_bytes heap_decodable heap_ty_ok] in *.
    + destruct H as [-> Ha]. destruct (AbsHeap_ok a Hok) as (_ & -> & ->). done.
    + destruct H as [Hu Hrec]. destruct (IndexedHeap_ok i Hok) as (_ & -> & ->). cbn.
      by rewrite Hrec.
Qed.

(** Value types survive the binary format: the decoder accepts the bytes
    [appendValType] writes for every value type the format can express, wherever
    they stand, and gives the same type back; and it never yields a type outside
    that set. *)
Theorem valtype_roundtrip t :
  val_decodable t ->
  exists bs, appendValType (pack_val t) = Some bs /\ reads 0 decodeValType bs (pack_val t) /\
    safe 1 decodeValType decoded_val.
Proof.
  intros H. exists (val_bytes t). split; [by apply appendValType_pack|].
  split; [by apply reads_val|apply safe_decodeValType].
Qed.

Lemma valtype_roundtrip_witness :
  exists bs, appendValType (pack_val (VTref true true (HTidx {| Index := 300; Rec := false |}))) = Some bs /\
    bs = [0x63; 0x62; 0xac; 0x02].
Proof.
  destruct (valtype_roundtrip (VTref true true (HTidx {| Index := 300; Rec := false |})))
    as (bs & E & _); [simpl; unfold u32_ok; simpl; lia|].
  exists bs. split; [exact E|]. vm_compute in E. congruence.
Defined.

(** ** Instructions *)

Lemma reads_indexInst k v : u32_ok v -> reads 0 (indexInst k) (appendU32 v) (with_Index v (kind k)).
Proof. intros. by apply (reads_bind_ret 0 rd.u32 (fun x => with_Index x (kind k))), reads_u32. Qed.

Lemma reads_seq {A B} (m : R A) (k : A -> R B) bs1 bs2 a b c2 c :
  reads 0 m bs1 a -> reads c2 (k a) bs2 b -> c = c2 -> reads c (bind m k) (bs1 ++ bs2) b.
Proof. intros H1 H2 ->. replace c2 with (0 + c2) by lia. by eapply reads_bind. Qed.

Lemma reads_cons {B} (k : Z -> R B) x bs b c :
  reads c (k x) bs b -> reads c (bind rd.byte k) (x :: bs) b.
Proof. intros H. change (x :: bs) with ([x] ++ bs). by eapply reads_seq; [apply reads_byte|exact H|]. Qed.

Lemma reads_twoIndexInst k v w :
  u32_ok v -> u32_ok w ->
  reads 0 (twoIndexInst k) (appendU32 v ++ appendU32 w) (with_Index2 w (with_Index v (kind k))).
Proof.
  intros. unfold twoIndexInst. eapply reads_seq; [by apply reads_u32| |done].
  by apply (reads_bind_ret 0 rd.u32 (fun b => with_Index2 b (with_Index v (kind k)))), reads_u32.
Qed.

(** A vector of [n] elements of [size] bytes is charged [n * (8 * size + 16)]. *)
Definition vec_charge (size n : Z) : Z := n * (size * 8 + 16).

Lemma reads_repeatM {A} (fn : R A) (bss : list (list Z)) (l : list A) :
  Forall2 (reads 0 fn) bss l -> reads 0 (repeatM (length l) fn) (concat bss) l.
Proof.
  induction 1 as [|bs a bss l Ha Hl IH]; simpl; [apply reads_ret|].
  eapply reads_seq; [exact Ha| |done]. by apply (reads_bind_ret 0 _ (cons a)).
Qed.

Lemma reads_reserve count width :
  0 <= count -> 0 <= width -> reads (count * width) (rd.reserve count width) [] tt.
Proof.
  intros Hc Hw. split; [nia|]. intros r rest Hr Hd Hle.
  rewrite reserve_spec by (done || apply Hr). cbv zeta.
  replace (count * width <=? _) with true by lia.
  eexists. split; [reflexivity|]. simpl. by rewrite Nat.add_0_r.
Qed.

Lemma reads_readVec {A} size (fn : R A) bss l :
  0 <= size -> Z.of_nat (length l) < 2 ^ 32 -> Forall2 (reads 0 fn) bss l ->
  reads (vec_charge size (Z.of_nat (length l))) (rd.readVec size fn)
    (appendU32 (Z.of_nat (length l)) ++ concat bss) l.
Proof.
  intros Hs Hn Hf. unfold rd.readVec, rd.reserveDecodedSlice, vec_charge.
  eapply reads_seq; [apply reads_u32; unfold u32_ok; lia| |reflexivity].
  rewrite <- (app_nil_l (concat bss)).
  replace (Z.of_nat (length l) * (size * 8 + 16))
    with (Z.of_nat (length l) * (size * 8 + 16) + 0) by lia.
  eapply reads_bind; [apply reads_reserve; lia|].
  rewrite Nat2Z.id. by apply reads_repeatM.
Qed.

Lemma le_uint_put_le n v : 0 <= v < 2 ^ (8 * Z.of_nat n) -> le_uint (put_le n v) = v.
Proof.
  revert v. induction n as [|n IH]; intros v Hv.
  { change (2 ^ (8 * Z.of_nat 0)) with 1 in Hv. simpl. lia. }
  cbn [put_le le_uint]. change 0xff with (Z.ones 8).
  replace (8 * Z.of_nat (S n)) with (8 * Z.of_nat n + 8) in Hv by lia.
  rewrite Z.pow_add_r in Hv by lia.
  rewrite Z.land_ones, Z.shiftr_div_pow2 by lia.
  pose proof (Z.div_mod v (2 ^ 8) ltac:(lia)). pose proof (Z.mod_pos_bound v (2 ^ 8) ltac:(lia)).
  rewrite IH, lor_shiftl_add by (try split; try apply Z.div_pos; try apply Z.div_lt_upper_bound; lia).
  lia.
Qed.

Lemma put_le_length n v : length (put_le n v) = n.
Proof. revert v. induction n; intros v; simpl; [done|]. by rewrite IHn. Qed.

Lemma reads_bytes n bs :
  n = Z.of_nat (length bs) -> reads 0 (rd.bytes n) bs bs.
Proof.
  intros ->. split; [lia|]. intros r rest Hr Hd _. unfold rd.bytes, reader.left.
  pose proof (f_equal length Hd) as Hl. rewrite length_drop, length_app in Hl.
  pose proof (rok_pos _ Hr).
  match goal with |- context [if ?c then _ else _] => replace c with false by zbool end.
  rewrite Hd, Nat2Z.id, take_app_length, charge_0. by eexists.
Qed.

Lemma reads_le n (k : nat) v :
  n = Z.of_nat k -> 0 <= v < 2 ^ (8 * n) ->
  reads 0 (let! b := rd.bytes n in ret (le_uint b)) (put_le k v) v.
Proof.
  intros -> Hv. rewrite <- (le_uint_put_le k v) at 2 by done.
  apply (reads_bind_ret 0 _ le_uint), reads_bytes. by rewrite put_le_length.
Qed.

Lemma reads_le32 v : u32_ok v -> reads 0 rd.le32 (put_le 4 v) v.
Proof. intros Hv. unfold rd.le32. apply (reads_le 4 4 v); [done|]. exact Hv. Qed.

Lemma reads_le64 v : u64_ok v -> reads 0 rd.le64 (put_le 8 v) v.
Proof. intros Hv. unfold rd.le64. apply (reads_le 8 8 v); [done|]. exact Hv. Qed.

(** The leaf instructions the encoder supports, in the form the decoder gives
    them, with the charge of their vectors. *)
Inductive enc_leaf : payload -> Z -> Prop :=
| el_simple op k : simpleOpcode op = k -> In (op, k) simpleOpcodeTable -> enc_leaf (kind k) 0
| el_mem op k ma :
    In (op, k) memOpcodeTable -> memarg_ok ma -> u32_ok (MOffset ma) ->
    enc_leaf (with_MemArg ma (kind k)) 0
| el_index op k i : In (op, k) encOneIndex -> u32_ok i -> enc_leaf (with_Index i (kind k)) 0
| el_brtable ls d :
    Forall u32_ok ls -> Z.of_nat (length ls) < 2 ^ 32 -> u32_ok d ->
    enc_leaf (with_Indices ls (with_Index d (kind InstrBrTable)))
      (vec_charge sizeof_uint32 (Z.of_nat (length ls)))
| el_callind i j :
    u32_ok i -> u32_ok j -> enc_leaf (with_Index2 j (with_Index i (kind InstrCallIndirect))) 0
| el_select ts :
    ts <> [] -> Forall val_decodable ts -> Z.of_nat (length ts) < 2 ^ 32 ->
    enc_leaf (with_ValTypes (map pack_val ts) (kind InstrSelect))
      (vec_charge sizeof_ValType (Z.of_nat (length ts)))
| el_i32 v : in_i32 v -> enc_leaf (with_I32 v (kind InstrI32Const)) 0
| el_i64 v : in_i64 v -> enc_leaf (with_I64 v (kind InstrI64Const)) 0
| el_f32 v : u32_ok v -> enc_leaf (with_F32Bits v (kind InstrF32Const)) 0
| el_f64 v : u64_ok v -> enc_leaf (with_F64Bits v (kind InstrF64Const)) 0
| el_wide k : InstrI64Add128 <= k <= InstrI64MulWideU -> enc_leaf (kind k) 0
| el_copy i j :
    u32_ok i -> u32_ok j -> enc_leaf (with_Index2 j (with_Index i (kind InstrMemoryCopy))) 0
| el_fill i : u32_ok i -> enc_leaf (with_Index i (kind InstrMemoryFill)) 0.

(** The widths of [decodeExpr]: memory indexes are allowed, offsets are 32 bits. *)
Definition flatWidths : memargWidths := fixedMemargWidths false.

(** The opcodes that neither open nor close a block. *)
Definition leaf_op (op : Z) : bool := negb (one_of op [0x02; 0x03; 0x04; 0x05; 0x0b; 0x1f]).

(** [bs] is an opcode and its operands, read as the leaf [p]. *)
Inductive op_reads (p : payload) (c : Z) : list Z -> Prop :=
| op_simple op : simpleKind op = Some (IKind p) -> p = kind (IKind p) -> c = 0 -> op_reads p c [op]
| op_leaf op bs :
    simpleKind op = None -> leaf_op op = true ->
    (forall o, reads c (decodeLeafOp flatWidths op o) bs p) -> op_reads p c (op :: bs).

Definition leaf_roundtrips (p : payload) (c : Z) : Prop :=
  exists bs, appendLeaf p = Some bs /\ op_reads p c bs.

(** A finite table of opcodes checked entry by entry. *)
Lemma forall_table (P : Z * Z -> Prop) (t : list (Z * Z)) : Forall P t -> forall e, In e t -> P e.
Proof. intros H e He. rewrite List.Forall_forall in H. auto. Qed.

Ltac run_op :=
  apply op_leaf; [reflexivity|reflexivity|]; intros o; unfold decodeLeafOp; eval_consts.

Lemma simple_roundtrips : forall e, In e simpleOpcodeTable -> leaf_roundtrips (kind (snd e)) 0.
Proof.
  apply forall_table.
  assert (Hr : forall op k, appendLeaf (kind k) = Some [op] -> simpleKind op = Some k ->
                            leaf_roundtrips (kind k) 0).
  { intros op k Ha Hs. exists [op]. split; [done|]. by apply op_simple. }
  unfold simpleOpcodeTable. repeat constructor; eapply Hr; vm_compute; reflexivity.
Qed.

Lemma memarg_bytes_reads w ma ab :
  multiMemory w = true -> (forall m, offset64 w m = false) ->
  memarg_ok ma -> appendMemArg ma = Some ab -> reads 0 (decodeMemArgWithWidths w) ab ma.
Proof.
  intros Hw Ho (Ha & Hm & Hoff) E. unfold appendMemArg, appendU64AsU32 in E.
  destruct (2 ^ 32 - 1 <? MOffset ma) eqn:Hlt; [discriminate|]. bool_to_prop.
  destruct ma as [al m off]. simpl in *. injection E as <-.
  unfold decodeMemArgWithWidths. unfold u64_ok in Hoff.
  assert (Hend : forall mi, reads 0 (let! o := (if offset64 w mi then rd.u64 else rd.u32) in
            ret {| Align := al; Mem := m; MOffset := o |}) (appendU32 off)
            {| Align := al; Mem := m; MOffset := off |}).
  { intros mi. rewrite Ho.
    apply (reads_bind_ret 0 rd.u32 (fun o => {| Align := al; Mem := m; MOffset := o |})).
    apply reads_u32. unfold u32_ok. lia. }
  destruct m as [mi|].
  - assert (Hl : Z.lor al 64 = al + 64).
    { change 64 with (Z.shiftl 1 6) at 1. rewrite lor_shiftl_add by lia. lia. }
    rewrite Hl. eapply reads_seq; [apply reads_u32; unfold u32_ok; lia| |done].
    replace (64 <=? al + 64) with true by lia. replace (al + 64 <? 128) with true by lia.
    rewrite Hw. simpl. eapply (reads_seq _ _ _ _ (al, Some mi)); [|apply Hend|done].
    replace (al + 64 - 64) with al by lia.
    apply (reads_bind_ret 0 rd.u32 (fun mi => (al, Some mi))), reads_u32. by apply Hm.
  - simpl. eapply reads_seq; [apply reads_u32; unfold u32_ok; lia| |done].
    replace (64 <=? al) with false by lia. replace (al <? 64) with true by lia. simpl.
    rewrite <- (app_nil_l (appendU32 off)).
    eapply (reads_seq _ _ _ _ (al, None)); [apply reads_ret|apply Hend|done].
Qed.

Lemma mem_roundtrips ma :
  memarg_ok ma -> u32_ok (MOffset ma) ->
  forall e, In e memOpcodeTable -> leaf_roundtrips (with_MemArg ma (kind (snd e))) 0.
Proof.
  intros Hma Ho. apply forall_table.
  assert (exists ab, appendMemArg ma = Some ab) as [ab Hab].
  { unfold appendMemArg, appendU64AsU32. unfold u32_ok in Ho.
    replace (2 ^ 32 - 1 <? MOffset ma) with false by lia. simpl. eauto. }
  assert (Hr : reads 0 (decodeMemArgWithWidths flatWidths) ab ma).
  { by apply memarg_bytes_reads. }
  assert (Hone : forall op k,
    lookupSimpleOpcode k = None -> lookupMemOpcode k = Some op ->
    simpleKind op = None -> leaf_op op = true ->
    (forall o, reads 0 (decodeLeafOp flatWidths op o) ab (with_MemArg ma (kind k))) ->
    leaf_roundtrips (with_MemArg ma (kind k)) 0).
  { intros op k H1 H2 H3 H4 H5. exists (op :: ab). split; [|by apply op_leaf].
    unfold appendLeaf. simpl. rewrite H1, H2, Hab. done. }
  unfold memOpcodeTable.
  repeat constructor; (eapply Hone; [reflexivity|reflexivity|reflexivity|reflexivity|]); cbn [snd];
    intros o; unfold decodeLeafOp; eval_consts;
    match goal with |- context [with_MemArg _ (kind ?k)] =>
      by apply (reads_bind_ret 0 _ (fun m => with_MemArg m (kind k))) end.
Qed.

Lemma index_roundtrips i :
  u32_ok i -> forall e, In e encOneIndex -> leaf_roundtrips (with_Index i (kind (snd e))) 0.
Proof.
  intros Hi. apply forall_table. unfold encOneIndex.
  repeat constructor; cbn [snd];
    (eexists; split; [unfold appendLeaf; simpl IKind; reflexivity|]);
    run_op; by apply reads_indexInst.
Qed.

(** Concrete subopcodes of the prefixes. *)
Ltac sub_op := eapply reads_seq; [apply reads_u32; unfold u32_ok; lia| |done]; eval_consts.

Lemma appendLeaf_select ts :
  ts <> [] ->
  appendLeaf (with_ValTypes ts (kind InstrSelect)) = (bs ← appendValTypes ts; Some (0x1c :: bs)).
Proof.
  intros Hne. unfold appendLeaf.
  change (IKind (with_ValTypes ts (kind InstrSelect))) with InstrSelect.
  change (IValTypes (with_ValTypes ts (kind InstrSelect))) with ts.
  change (lookupSimpleOpcode InstrSelect) with (@None Z).
  change (lookupMemOpcode InstrSelect) with (@None Z).
  change (table_find encOneIndex InstrSelect) with (@None Z).
  eval_consts. by destruct ts.
Qed.

Lemma appendValTypes_pack ts :
  Forall val_decodable ts ->
  appendValTypes (map pack_val ts) =
    Some (appendU32 (Z.of_nat (length ts)) ++ concat (map val_bytes ts)).
Proof.
  intros H. unfold appendValTypes. rewrite length_map.
  replace (mapM appendValType (map pack_val ts)) with (Some (map val_bytes ts)); [done|].
  symmetry. induction H as [|x l Hx Hl IH]; [done|]. cbn [map mapM].
  rewrite appendValType_pack by done. cbn [mbind option_bind]. by rewrite IH.
Qed.

Lemma leaf_encodes p c : enc_leaf p c -> leaf_roundtrips p c.
Proof.
  destruct 1 as [op k _ Hin|op k ma Hin Hma Ho|op k i Hin Hi|ls d Hls Hlen Hd|i j Hi Hj|ts Hne Hts Hlen
    |v Hv|v Hv|v Hv|v Hv|k Hk|i j Hi Hj|i Hi].
  - apply (simple_roundtrips _ Hin).
  - apply (mem_roundtrips _ Hma Ho _ Hin).
  - apply (index_roundtrips _ Hi _ Hin).
  - eexists. split; [reflexivity|]. run_op.
    cbn [IIndices IIndex with_Indices with_Index]. rewrite app_assoc.
    replace (vec_charge _ _) with (vec_charge sizeof_uint32 (Z.of_nat (length ls)) + 0) by lia.
    eapply reads_bind.
    + apply reads_readVec; [done|done|]. induction Hls; simpl; constructor; auto using reads_u32.
      apply IHHls. simpl in Hlen. lia.
    + by apply (reads_bind_ret 0 rd.u32 (fun d => with_Indices ls (with_Index d (kind InstrBrTable)))),
        reads_u32.
  - eexists. split; [reflexivity|]. run_op.
    by apply reads_twoIndexInst.
  - exists (0x1c :: appendU32 (Z.of_nat (length ts)) ++ concat (map val_bytes ts)). split.
    + rewrite appendLeaf_select by (by destruct ts). by rewrite appendValTypes_pack.
    + run_op.
      apply (reads_bind_ret _ _ (fun vts => with_ValTypes vts (kind InstrSelect))).
      rewrite <- (length_map pack_val ts). apply reads_readVec; [done|by rewrite length_map|].
      clear Hne Hlen. induction Hts; simpl; constructor; auto using reads_val.
  - eexists. split; [reflexivity|]. run_op.
    by apply (reads_bind_ret 0 rd.i32 (fun x => with_I32 x (kind InstrI32Const))), reads_i32.
  - eexists. split; [reflexivity|]. run_op.
    by apply (reads_bind_ret 0 rd.i64 (fun x => with_I64 x (kind InstrI64Const))), reads_i64.
  - eexists. split; [reflexivity|]. run_op.
    by apply (reads_bind_ret 0 rd.le32 (fun x => with_F32Bits x (kind InstrF32Const))), reads_le32.
  - eexists. split; [reflexivity|]. run_op.
    by apply (reads_bind_ret 0 rd.le64 (fun x => with_F64Bits x (kind InstrF64Const))), reads_le64.
  - assert (k = InstrI64Add128 \/ k = InstrI64Sub128 \/ k = InstrI64MulWideS \/ k = InstrI64MulWideU)
      as [-> | [-> | [-> | ->]]]
      by (unfold InstrI64Add128, InstrI64Sub128, InstrI64MulWideS, InstrI64MulWideU in *; lia);
    (eexists; split; [reflexivity|]); run_op;
      rewrite <- (app_nil_r (appendU32 _));
      (eapply reads_seq; [apply reads_u32; unfold u32_ok; vm_compute; split; congruence| |done]);
      eval_consts; apply reads_ret.
  - eexists. split; [reflexivity|]. run_op.
    unfold decodeFCWithMultiMemory. sub_op. eapply reads_seq; [by apply reads_u32| |done].
    by apply (reads_bind_ret 0 rd.u32 (fun b => with_Index2 b (with_Index i (kind InstrMemoryCopy)))),
      reads_u32.
  - eexists. split; [reflexivity|]. run_op.
    unfold decodeFCWithMultiMemory. sub_op.
    by apply (reads_bind_ret 0 rd.u32 (fun b => with_Index b (kind InstrMemoryFill))), reads_u32.
Qed.

Lemma leaf_op_false op :
  leaf_op op = true ->
  (op =? 0x02) = false /\ (op =? 0x03) = false /\ (op =? 0x04) = false /\
  (op =? 0x05) = false /\ (op =? 0x0b) = false /\ (op =? 0x1f) = false.
Proof. unfold leaf_op, one_of. simpl. intros H. bool_to_prop. lia. Qed.

Lemma op_reads_direct p c bs :
  op_reads p c bs ->
  reads c (decodeDirectOp flatWidths true) bs (direct directInstr p zeroBlockType []).
Proof.
  intros [op Hk Hp ->|op l Hk Hop Hr]; unfold decodeDirectOp; apply reads_cons;
    unfold decodeDirectOpcode; rewrite Hk.
  - rewrite Hp at 2. apply reads_ret.
  - destruct (leaf_op_false op Hop) as (-> & -> & -> & -> & -> & ->). simpl.
    apply (reads_bind_ret c _ (fun p => direct directInstr p zeroBlockType [])), Hr.
Qed.

(** ** Expressions *)

(** The block types of the format. *)
Inductive block_decodable : BlockType -> Prop :=
| bd_void : block_decodable zeroBlockType
| bd_val t : val_decodable t ->
    block_decodable {| BKind := BlockVal; BVal := pack_val t; BType := zeroIdx |}
| bd_idx i : u32_ok i ->
    block_decodable {| BKind := BlockTypeIndex; BVal := zeroWord;
                       BType := {| Index := i; Rec := false |} |}.

Lemma val_bytes_lead t :
  val_decodable t -> exists b bs, val_bytes t = b :: bs /\ isValTypeLead b = true.
Proof.
  destruct t as [n| | |a|n e h]; cbn [val_bytes val_decodable]; intros H; try done.
  - exists n, []. split; [done|]. by destruct (isNumType_cases n H) as [-> | [-> | [-> | ->]]].
  - by exists 0x7b, [].
  - exists a, []. split; [done|]. unfold isValTypeLead.
    destruct (ref_lead_range a H) as (_ & _ & Ha). unfold refTypeLeads in Ha. simpl in Ha |- *.
    bool_to_prop. zbool.
  - eexists _, _. split; [reflexivity|]. by destruct n.
Qed.

Lemma isValTypeLead_not_void b : isValTypeLead b = true -> (b =? 0x40) = false.
Proof. intros H. destruct (Z.eqb_spec b 0x40) as [->|]; [discriminate|done]. Qed.

Lemma index_not_lead b : b < 64 \/ 128 <= b -> isValTypeLead b = false.
Proof.
  intros H. unfold isValTypeLead. apply not_true_is_false. rewrite existsb_exists.
  intros (x & Hin & E). apply Z.eqb_eq in E. subst x. simpl in Hin. lia.
Qed.

Lemma block_roundtrips bt :
  block_decodable bt -> exists bs, appendBlockType bt = Some bs /\ reads 0 decodeBlockType bs bt.
Proof.
  intros [|t Ht|i Hi].
  - exists [0x40]. split; [done|]. apply reads_peek. simpl. apply reads_cons, reads_ret.
  - exists (val_bytes t). split; [by apply appendValType_pack|].
    destruct (val_bytes_lead t Ht) as (b & bs & E & Hl). pose proof (reads_val t Ht) as Hr.
    rewrite E in *. apply reads_peek. rewrite isValTypeLead_not_void, Hl by done.
    by apply (reads_bind_ret 0 decodeValType
      (fun vt => {| BKind := BlockVal; BVal := vt; BType := zeroIdx |})).
  - exists (appendS64 i). split; [done|]. unfold u32_ok in Hi.
    destruct (appendS64_head i ltac:(lia)) as (b & bs & E & Hb).
    destruct (reads_s33 i ltac:(unfold in_s33; lia)) as [_ Hs]. rewrite E in *. apply reads_peek.
    rewrite index_not_lead by done. replace (b =? 0x40) with false by lia.
    split; [lia|]. intros r rest Hr Hd Hc. destruct (Hs r rest Hr Hd Hc) as (r' & Er & Hrest).
    exists r'. rewrite Er. replace (i <? 0) with false by lia. by rewrite to_u32_small by lia.
Qed.
