(* ===== verification/ExprRoundtrip.v ===== *)
(** * Expressions survive the binary format

    [EncodeExpr] followed by the tree decoder gives the expression back, for
    every tree over the leaf instructions of [enc_leaf] within the nesting
    limit, with the memory the vectors of its leaves are charged. *)

From stdpp Require Import base tactics numbers list.
From Stdlib Require Import ZArith Lia.
From S2P Require Import Prelude Reader LebSpec ReaderLaws ReaderExport Types TypesLaws Decode.
From S2P Require Import DecodeLaws Kinds Instr InstrLaws Skip SkipLaws Encode.
Local Open Scope Z_scope.

(** The trees the encoder supports at a nesting depth, with the charge of
    decoding them. *)
Inductive enc_instr : Z -> Instruction -> Z -> Prop :=
| ei_leaf d p c : d <= maxInstructionNestingDepth -> enc_leaf p c -> enc_instr d (leaf p) c
| ei_block d k bt body c :
    k = InstrBlock \/ k = InstrLoop -> block_decodable bt ->
    d + 1 <= maxInstructionNestingDepth -> enc_instrs (d + 2) body c ->
    enc_instr d (Node (with_BlockType bt (kind k)) body [] []) c
| ei_if d bt thn els c1 c2 :
    block_decodable bt -> d <= maxInstructionNestingDepth ->
    enc_instrs (d + 2) thn c1 -> enc_instrs (d + 2) els c2 ->
    enc_instr d (Node (with_BlockType bt (kind InstrIf)) [] thn els) (c1 + c2)
with enc_instrs : Z -> list Instruction -> Z -> Prop :=
| es_nil d : enc_instrs d [] 0
| es_cons d i l c1 c2 : enc_instr d i c1 -> enc_instrs d l c2 -> enc_instrs d (i :: l) (c1 + c2).

Scheme enc_instr_mut := Induction for enc_instr Sort Prop
with enc_instrs_mut := Induction for enc_instrs Sort Prop.
Combined Scheme enc_tree_ind from enc_instr_mut, enc_instrs_mut.

(** A byte that is neither [else] nor [end] starts an instruction. *)
Definition starts_instr (bs : list Z) : Prop :=
  exists b bs', bs = b :: bs' /\ (b =? 0x05) = false /\ (b =? 0x0b) = false.

Definition instr_reads (d : Z) (i : Instruction) (c : Z) : Prop :=
  exists bs, appendInstr i = Some bs /\ starts_instr bs /\
    forall fuel, (2 * length bs <= fuel)%nat -> reads c (decodeInstructionW fuel flatWidths d) bs i.

(** The three loops that read a list of instructions: the body of a block, the
    [else] branch, and the [then] branch followed by the rest [bs2] of the [if]. *)
Record list_reads (d : Z) (l : list Instruction) (c : Z) (bs : list Z) : Prop := {
  lr_expr fuel e :
    d = e + 1 -> e <= maxInstructionNestingDepth -> (2 * length bs + 2 <= fuel)%nat ->
    reads c (decodeExprW fuel flatWidths e) (bs ++ [0x0b]) l;
  lr_else fuel e :
    d = e + 1 -> (2 * length bs + 2 <= fuel)%nat ->
    reads c (decodeIfBodiesW fuel flatWidths e true) (bs ++ [0x0b]) ([], l);
  lr_then fuel e n c2 bs2 els :
    d = e + 1 -> (1 <= n)%nat -> (2 * length bs + n <= fuel)%nat ->
    (forall fuel2, (n <= fuel2)%nat ->
       reads c2 (decodeIfBodiesW fuel2 flatWidths e false) bs2 ([], els)) ->
    reads (c + c2) (decodeIfBodiesW fuel flatWidths e false) (bs ++ bs2) (l, els)
}.

Definition instrs_read (d : Z) (l : list Instruction) (c : Z) : Prop :=
  exists bs, appendInstrs l = Some bs /\ list_reads d l c bs.

(** ** The rules of the encoder *)

Definition else_bytes (els : list Instruction) (eb : list Z) : list Z :=
  if (length els =? 0)%nat then [] else 0x05 :: eb.

Lemma appendLeaf_block p :
  IKind p = InstrBlock \/ IKind p = InstrLoop \/ IKind p = InstrIf -> appendLeaf p = None.
Proof. intros [E|[E|E]]; unfold appendLeaf; rewrite E; reflexivity. Qed.

Lemma appendInstr_leaf p bs : appendLeaf p = Some bs -> appendInstr (leaf p) = Some bs.
Proof.
  intros H. cbn [appendInstr leaf].
  destruct (Z.eqb_spec (IKind p) InstrBlock); [rewrite appendLeaf_block in H by auto; done|].
  destruct (Z.eqb_spec (IKind p) InstrLoop); [rewrite appendLeaf_block in H by auto; done|].
  destruct (Z.eqb_spec (IKind p) InstrIf); [rewrite appendLeaf_block in H by auto; done|].
  exact H.
Qed.

Lemma appendInstr_block bt k body bs ib :
  k = InstrBlock \/ k = InstrLoop ->
  appendBlockType bt = Some bs -> appendInstrs body = Some ib ->
  appendInstr (Node (with_BlockType bt (kind k)) body [] []) =
    Some ((if k =? InstrBlock then 0x02 else 0x03) :: bs ++ ib ++ [0x0b]).
Proof.
  intros Hk Hb Hi. cbn [appendInstr with_BlockType kind IKind IBlockType].
  replace ((k =? InstrBlock) || (k =? InstrLoop)) with true by (destruct Hk as [-> | ->]; done).
  rewrite Hb. cbn [mbind option_bind]. change (appendInstrs body = Some ib) in Hi.
  unfold appendInstrs in Hi. rewrite Hi. done.
Qed.

Lemma appendInstr_if bt thn els bs tb eb :
  appendBlockType bt = Some bs -> appendInstrs thn = Some tb -> appendInstrs els = Some eb ->
  appendInstr (Node (with_BlockType bt (kind InstrIf)) [] thn els) =
    Some (0x04 :: bs ++ tb ++ else_bytes els eb ++ [0x0b]).
Proof.
  intros Hb Ht He. cbn [appendInstr with_BlockType kind IKind IBlockType].
  change ((InstrIf =? InstrBlock) || (InstrIf =? InstrLoop)) with false.
  change (InstrIf =? InstrIf) with true. cbv iota. rewrite Hb. cbn [mbind option_bind].
  unfold appendInstrs in Ht, He. rewrite Ht. cbn [mbind option_bind].
  unfold else_bytes. destruct (length els =? 0)%nat; [done|]. rewrite He. done.
Qed.

(** ** The rules of the decoder *)

Lemma reads_peek_start {A} c (k : option Z -> R A) bs rest a :
  starts_instr bs ->
  (forall b, (b =? 0x05) = false -> (b =? 0x0b) = false -> reads c (k (Some b)) (bs ++ rest) a) ->
  reads c (bind peekM k) (bs ++ rest) a.
Proof.
  intros (b & bs' & -> & H5 & Hb) H. simpl. apply reads_peek. by apply H.
Qed.

Lemma reads_end {A} (a : A) : reads 0 (rd.byte ;;; ret a) [0x0b] a.
Proof. apply reads_cons, reads_ret. Qed.

Lemma starts_leaf p c bs : op_reads p c bs -> starts_instr bs.
Proof.
  intros [op Hk _ _|op l _ Hop _]; eexists _, _; (split; [reflexivity|]).
  - split; apply Z.eqb_neq; intros ->; vm_compute in Hk; discriminate.
  - destruct (leaf_op_false op Hop) as (_ & _ & _ & H5 & Hb & _). done.
Qed.

Lemma leaf_read d p c bs fuel :
  d <= maxInstructionNestingDepth -> op_reads p c bs -> (0 < fuel)%nat ->
  reads c (decodeInstructionW fuel flatWidths d) bs (leaf p).
Proof.
  intros Hd Ho Hf. destruct fuel as [|fuel]; [lia|]. cbn [decodeInstructionW].
  replace (maxInstructionNestingDepth <? d) with false by lia.
  destruct Ho as [op Hk Hp ->|op l Hk Hop Hr]; apply reads_cons; rewrite Hk.
  - rewrite Hp at 2. apply reads_ret.
  - destruct (leaf_op_false op Hop) as (-> & -> & -> & _ & _ & ->). simpl.
    apply (reads_bind_ret c _ leaf), Hr.
Qed.

Lemma instrs_nil d : list_reads d [] 0 [].
Proof.
  split.
  - intros [|fuel] e -> He Hf; [simpl in Hf; lia|]. cbn [decodeExprW app].
    replace (maxInstructionNestingDepth <? e) with false by lia. apply reads_peek. simpl.
    apply reads_end.
  - intros [|fuel] e -> Hf; [simpl in Hf; lia|]. cbn [decodeIfBodiesW app].
    apply reads_peek. simpl. apply reads_end.
  - intros fuel e n c2 bs2 els -> Hn Hf H. simpl in *. apply H. lia.
Qed.

Lemma starts_length bs : starts_instr bs -> (1 <= length bs)%nat.
Proof. intros (b & l & -> & _). simpl. lia. Qed.

Lemma instrs_cons d i l c1 c2 bs1 bs2 :
  starts_instr bs1 ->
  (forall fuel, (2 * length bs1 <= fuel)%nat -> reads c1 (decodeInstructionW fuel flatWidths d) bs1 i) ->
  list_reads d l c2 bs2 -> list_reads d (i :: l) (c1 + c2) (bs1 ++ bs2).
Proof.
  intros Hs Hi Hl. pose proof (starts_length _ Hs).
  split; [intros [|fuel] e -> He Hf|intros [|fuel] e -> Hf|intros [|fuel] e n c' bs' els -> Hn Hf H'];
    rewrite length_app in Hf; try lia; rewrite <- app_assoc.
  - cbn [decodeExprW]. replace (maxInstructionNestingDepth <? e) with false by lia.
    apply reads_peek_start; [done|]. intros b H5 Hb. rewrite Hb. eapply reads_bind; [apply Hi; lia|].
    apply (reads_bind_ret c2 _ (cons i)). apply (lr_expr _ _ _ _ Hl); lia.
  - cbn [decodeIfBodiesW]. apply reads_peek_start; [done|]. intros b H5 Hb. rewrite H5, Hb.
    eapply reads_bind; [apply Hi; lia|].
    apply (reads_bind_ret c2 _ (fun te => (fst te, i :: snd te)) _ ([], l)).
    apply (lr_else _ _ _ _ Hl); lia.
  - cbn [decodeIfBodiesW]. apply reads_peek_start; [done|]. intros b H5 Hb. rewrite H5, Hb.
    rewrite <- Z.add_assoc. eapply reads_bind; [apply Hi; lia|].
    apply (reads_bind_ret (c2 + c') _ (fun te => (i :: fst te, snd te)) _ (l, els)).
    apply (lr_then _ _ _ _ Hl fuel e n); [done|done|lia|done].
Qed.

(** The part of an [if] after its [then] branch. *)
Lemma if_tail_reads d els c eb e :
  d = e + 1 -> list_reads d els c eb -> appendInstrs els = Some eb ->
  forall fuel, (2 * length (else_bytes els eb ++ [0x0b%Z]) <= fuel)%nat ->
  reads c (decodeIfBodiesW fuel flatWidths e false)
    (else_bytes els eb ++ [0x0b]) ([], els).
Proof.
  unfold else_bytes. intros -> Hl Ha fuel. destruct fuel as [|fuel]; [rewrite length_app; simpl; lia|].
  destruct els as [|x els].
  - simpl in Ha. injection Ha as <-. intros Hf.
    replace c with (c + 0) by lia.
    apply (lr_then _ _ _ _ Hl (S fuel) e 2 0 [0x0b] []); [done|lia|simpl in *; lia|].
    intros [|fuel2] Hf2; [lia|]. cbn [decodeIfBodiesW]. apply reads_peek. simpl. apply reads_end.
  - cbn [Nat.eqb length app]. intros Hf. cbn [decodeIfBodiesW]. apply reads_peek. simpl.
    apply reads_cons. apply (lr_else _ _ _ _ Hl); [done|]. rewrite length_app in Hf. simpl in Hf. lia.
Qed.

Lemma block_reads d k bt body c bs ib fuel :
  k = InstrBlock \/ k = InstrLoop -> d + 1 <= maxInstructionNestingDepth ->
  reads 0 decodeBlockType bs bt -> list_reads (d + 2) body c ib ->
  (2 * length ib + 3 <= fuel)%nat ->
  reads c (decodeInstructionW fuel flatWidths d)
    ((if k =? InstrBlock then 0x02 else 0x03) :: bs ++ ib ++ [0x0b])
    (Node (with_BlockType bt (kind k)) body [] []).
Proof.
  intros Hk Hd Hb Hl Hf. destruct fuel as [|fuel]; [lia|]. cbn [decodeInstructionW].
  replace (maxInstructionNestingDepth <? d) with false by lia. apply reads_cons.
  assert (Hbody : reads c (decodeExprW fuel flatWidths (d + 1)) (ib ++ [0x0b]) body).
  { apply (lr_expr _ _ _ _ Hl); lia. }
  destruct Hk as [-> | ->]; eval_consts; (eapply reads_seq; [exact Hb| |reflexivity]);
    [apply (reads_bind_ret c _ (fun body => Node (with_BlockType bt (kind InstrBlock)) body [] []))
    |apply (reads_bind_ret c _ (fun body => Node (with_BlockType bt (kind InstrLoop)) body [] []))];
    exact Hbody.
Qed.

Lemma if_reads d bt thn els c1 c2 bs tb eb fuel :
  d <= maxInstructionNestingDepth -> reads 0 decodeBlockType bs bt ->
  list_reads (d + 2) thn c1 tb -> list_reads (d + 2) els c2 eb -> appendInstrs els = Some eb ->
  (2 * length (0x04%Z :: bs ++ tb ++ else_bytes els eb ++ [0x0b%Z]) <= fuel)%nat ->
  reads (c1 + c2) (decodeInstructionW fuel flatWidths d)
    (0x04 :: bs ++ tb ++ else_bytes els eb ++ [0x0b])
    (Node (with_BlockType bt (kind InstrIf)) [] thn els).
Proof.
  intros Hd Hb Ht He Ha Hf. destruct fuel as [|fuel]; [simpl in Hf; lia|]. cbn [decodeInstructionW].
  replace (maxInstructionNestingDepth <? d) with false by lia. apply reads_cons. eval_consts.
  eapply reads_seq; [exact Hb| |reflexivity].
  apply (reads_bind_ret (c1 + c2) _
    (fun te => Node (with_BlockType bt (kind InstrIf)) [] (fst te) (snd te)) _ (thn, els)).
  cbn [length] in Hf. rewrite !(length_app bs), (length_app tb) in Hf.
  eapply (lr_then _ _ _ _ Ht fuel (d + 1)); [lia| | |].
  3: { apply (if_tail_reads (d + 2)); [lia|done|done]. }
  - rewrite length_app. simpl. lia.
  - lia.
Qed.

Lemma tree_roundtrips :
  (forall d i c, enc_instr d i c -> instr_reads d i c) /\
  (forall d l c, enc_instrs d l c -> instrs_read d l c).
Proof.
  apply enc_tree_ind.
  - intros d p c Hd Hp. destruct (leaf_encodes p c Hp) as (bs & Ha & Ho).
    exists bs. split; [by apply appendInstr_leaf|]. split; [by eapply starts_leaf|].
    intros fuel Hf. apply leaf_read; [done|done|].
    pose proof (starts_length _ (starts_leaf _ _ _ Ho)). lia.
  - intros d k bt body c Hk Hbt Hd _ (ib & Hib & Hl).
    destruct (block_roundtrips bt Hbt) as (bs & Hbs & Hr).
    eexists. split; [by apply appendInstr_block|]. split.
    + eexists _, _. split; [reflexivity|]. by destruct (k =? InstrBlock).
    + intros fuel Hf. apply block_reads; try done. cbn [length] in Hf. rewrite !length_app in Hf. simpl in Hf. lia.
  - intros d bt thn els c1 c2 Hbt Hd _ (tb & Htb & Hlt) _ (eb & Heb & Hle).
    destruct (block_roundtrips bt Hbt) as (bs & Hbs & Hr).
    eexists. split; [by apply appendInstr_if|]. split; [by eexists _, _|].
    intros fuel Hf. by apply if_reads.
  - intros d. exists []. split; [done|apply instrs_nil].
  - intros d i l c1 c2 _ (bs1 & H1 & Hs & Hi) _ (bs2 & H2 & Hl). exists (bs1 ++ bs2). split.
    + cbn [appendInstrs]. rewrite H1. cbn [mbind option_bind]. rewrite H2. done.
    + by apply instrs_cons.
Qed.

(** ** Theorems *)

Lemma reads_treeFuel c d bs l :
  (forall fuel, (2 * length bs <= fuel)%nat -> reads c (decodeExprW fuel flatWidths d) bs l) ->
  reads c (decodeExpr d) bs l.
Proof.
  intros H. destruct (H (2 * length bs)%nat ltac:(lia)) as [Hc _]. split; [done|].
  intros r rest Hr Hd Hle. unfold decodeExpr, decodeExprWithMemargWidths.
  destruct (H (treeFuel r)) as [_ Hrun]; [|by apply (Hrun r rest)].
  apply (f_equal length) in Hd. rewrite length_drop, length_app in Hd. unfold treeFuel. lia.
Qed.

(** C27: the canonical bytecode of [EncodeExpr] is decoded back to the same
    expression: for every tree of blocks, loops, ifs and encodable leaves within
    the nesting limit, the encoder succeeds, and the tree decoder, run anywhere
    these bytes stand, returns the tree, consumes exactly the bytes and charges
    exactly the vectors of the leaves to the decode budget. *)
Theorem encodeExpr_roundtrip d l c :
  d <= maxInstructionNestingDepth -> enc_instrs (d + 1) l c ->
  exists bs, EncodeExpr l = Some bs /\ reads c (decodeExpr d) bs l.
Proof.
  intros Hd H. destruct tree_roundtrips as [_ Hl]. destruct (Hl _ _ _ H) as (bs & Ha & Hr).
  exists (bs ++ [0x0b]). split; [unfold EncodeExpr; by rewrite Ha|].
  apply reads_treeFuel. intros fuel Hf. rewrite length_app in Hf. simpl in Hf.
  apply (lr_expr _ _ _ _ Hr); [done|done|lia].
Qed.

(** The body [block (result i32) (if (i32.const 1) (then) (else nop)) i32.const -5 end]. *)
Definition sample_expr : list Instruction :=
  [Node (with_BlockType {| BKind := BlockVal; BVal := pack_val (VTnum NumI32); BType := zeroIdx |}
          (kind InstrBlock))
    [leaf (with_I32 1 (kind InstrI32Const));
     Node (with_BlockType zeroBlockType (kind InstrIf)) [] []
       [leaf (with_Index 3 (kind InstrLocalGet))];
     leaf (with_I32 (-5) (kind InstrI32Const))] [] []].

Lemma encodeExpr_roundtrip_witness :
  exists bs, EncodeExpr sample_expr = Some bs /\
    bs = [0x02; 0x7f; 0x41; 0x01; 0x04; 0x40; 0x05; 0x20; 0x03; 0x0b; 0x41; 0x7b; 0x0b; 0x0b].
Proof.
  destruct (encodeExpr_roundtrip 0 sample_expr (0 + (0 + 0 + (0 + 0)) + 0)) as (bs & E & _).
  - vm_compute. discriminate.
  - unfold sample_expr. replace (0 + (0 + 0 + (0 + 0)) + 0) with ((0 + ((0 + (0 + 0)) + (0 + 0))) + 0) by lia.
    assert (Hi : forall d v, d <= 100 -> in_i32 v -> enc_instr d (leaf (with_I32 v (kind InstrI32Const))) 0).
    { intros d v Hd Hv. apply ei_leaf; [unfold maxInstructionNestingDepth; lia|by constructor]. }
    apply es_cons; [|apply es_nil]. apply ei_block; [by left|by apply (bd_val (VTnum NumI32))
      |unfold maxInstructionNestingDepth; lia|].
    apply es_cons; [apply Hi; unfold in_i32; lia|]. apply es_cons; [|apply es_cons;
      [apply Hi; unfold in_i32; lia|apply es_nil]].
    apply (ei_if _ _ _ _ 0 (0 + 0)); [constructor|unfold maxInstructionNestingDepth; lia|apply es_nil|].
    apply es_cons; [|apply es_nil]. apply ei_leaf; [unfold maxInstructionNestingDepth; lia|].
    apply (el_index 0x20); [vm_compute; tauto|unfold u32_ok; lia].
  - exists bs. split; [exact E|]. vm_compute in E. congruence.
Defined.
