(* ===== verification/Module.v ===== *)
(** * The decoded module (types.go, module_helpers.go, equal.go, name_helpers.go)

    The module record and the queries other components make of it: index spaces
    over imports and definitions, the flattened type space, local types from
    run-length declarations, the widths of memory offsets, hints and names.  The
    cached directories are functions of the slices they index (a decoded module
    is not mutated between the construction of a directory and its use). *)

From stdpp Require Import base tactics numbers list.
From Stdlib Require Import ZArith Lia.
From S2P Require Import Prelude Reader Types Decode Kinds Instr.
Local Open Scope Z_scope.

(** ** Data *)

Record Expr : Set := { Instrs : list Instruction; BodyBytes : list Z }.
Definition zeroExpr : Expr := {| Instrs := []; BodyBytes := [] |}.

Definition ElemPassive : Z := 0.
Definition ElemActive : Z := 1.
Definition ElemDeclarative : Z := 2.

Definition ElemFuncs : Z := 0.
Definition ElemFuncExprs : Z := 1.
Definition ElemTypedExprs : Z := 2.

Record ElemMode : Set := { EMKind : Z; EMTable : Z; EMOffset : Expr }.
Record ElemKind : Set := { EKKind : Z; EKFuncs : list Z; EKRef : RefType; EKExprs : list Expr }.
Record Elem : Set := { EMode : ElemMode; EElems : ElemKind }.

Record Table : Set := { TType : TableType; TInit : option Expr }.
Record Global : Set := { GTy : GlobalType; GInit : Expr }.

Definition DataActive : Z := 0.
Definition DataPassive : Z := 1.

Record DataMode : Set := { DMKind : Z; DMMem : Z; DMOffset : Expr }.
Record Data : Set := { DMode : DataMode; DInit : list Z }.

Record Func : Set := {
  FLocals : list LocalRun;
  FBody : Expr;
  LocalDeclBytes : Z;
  FBodyBytes : list Z
}.

Record CustomSec : Set := { CSName : list Z; CSData : list Z }.
Record BranchHint : Set := { BHOffset : Z; Likely : bool }.
Record FuncBranchHints : Set := { FuncIndex : Z; Hints : list BranchHint }.

Record NameAssoc : Set := { NIndex : Z; NName : list Z }.
Definition NameMap := list NameAssoc.
Record IndirectNameAssoc : Set := { INIndex : Z; Names : NameMap }.
Definition IndirectNameMap := list IndirectNameAssoc.

Record NameSec : Set := {
  ModuleName : option (list Z);
  FunctionNames : NameMap;
  LocalNames : IndirectNameMap;
  LabelNames : IndirectNameMap;
  TypeNames : NameMap;
  TableNames : NameMap;
  MemoryNames : NameMap;
  GlobalNames : NameMap;
  ElementNames : NameMap;
  DataNames : NameMap;
  FieldNames : IndirectNameMap;
  TagNames : NameMap
}.

Record Module_ : Set := {
  Customs : list CustomSec;
  NameSec_ : option NameSec;
  RawNameSecPayload : list Z;
  Types_ : list RecType;
  Imports : list Import;
  FuncTypes : list TypeIdx;
  Tables : list Table;
  Memories : list MemType;
  Tags : list TagType;
  StringRefs : list (list Z);
  Globals : list Global;
  Exports : list Export;
  Start : option Z;
  Elements : list Elem;
  DataCount : option Z;
  Code_ : list Func;
  Data_ : list Data;
  UsesCompactImports : bool;
  BranchHints : list FuncBranchHints
}.

Definition zeroModule : Module_ :=
  {| Customs := []; NameSec_ := None; RawNameSecPayload := []; Types_ := []; Imports := [];
     FuncTypes := []; Tables := []; Memories := []; Tags := []; StringRefs := []; Globals := [];
     Exports := []; Start := None; Elements := []; DataCount := None; Code_ := []; Data_ := [];
     UsesCompactImports := false; BranchHints := [] |}.

(** ** Imports *)

Definition import_kind (i : Import) : Z := EKind (IType i).

(** The scan of [importEntry]: the entry in [Imports] from position [i] on, or
    what is left of the index. *)
Fixpoint importEntry_scan (imports : list Import) (i : nat) (kind : Z) (remaining : Z)
  : option nat * Z :=
  match imports with
  | [] => (None, remaining)
  | im :: rest =>
      if import_kind im =? kind then
        if remaining =? 0 then (Some i, 0) else importEntry_scan rest (S i) kind (remaining - 1)
      else importEntry_scan rest (S i) kind remaining
  end.

Record moduleImportIndexDirectory : Set := {
  dfuncs : list Z;
  dtables : list Z;
  dmemories : list Z;
  dglobals : list Z;
  dtags : Z
}.

(** The loop of [importIndex] over the entries from position [i] on. *)
Fixpoint importIndex_loop (imports : list Import) (i : nat) (d : moduleImportIndexDirectory)
  : moduleImportIndexDirectory :=
  match imports with
  | [] => d
  | im :: rest =>
      let k := import_kind im in
      let x := [to_u32 (Z.of_nat i)] in
      importIndex_loop rest (S i)
        {| dfuncs := if k =? ExternFunc then dfuncs d ++ x else dfuncs d;
           dtables := if k =? ExternTable then dtables d ++ x else dtables d;
           dmemories := if k =? ExternMem then dmemories d ++ x else dmemories d;
           dglobals := if k =? ExternGlobal then dglobals d ++ x else dglobals d;
           dtags := if k =? ExternTag then dtags d + 1 else dtags d |}
  end.

Definition importIndex (m : Module_) : moduleImportIndexDirectory :=
  importIndex_loop (Imports m) 0
    {| dfuncs := []; dtables := []; dmemories := []; dglobals := []; dtags := 0 |}.

Definition directory_of (d : moduleImportIndexDirectory) (kind : Z) : list Z :=
  if kind =? ExternFunc then dfuncs d
  else if kind =? ExternTable then dtables d
  else if kind =? ExternMem then dmemories d
  else if kind =? ExternGlobal then dglobals d
  else [].

Definition importEntry (m : Module_) (kind : Z) (idx : Z) : option nat * Z :=
  if (length (Imports m) <=? 32)%nat then importEntry_scan (Imports m) 0 kind idx
  else
    let indexes := directory_of (importIndex m) kind in
    match (if idx <? Z.of_nat (length indexes) then indexes !! Z.to_nat idx else None) with
    | Some e => (Some (Z.to_nat e), 0)
    | None => (None, idx - Z.of_nat (length indexes))
    end.

Definition importCount (m : Module_) (k : Z) : Z :=
  if (length (Imports m) <=? 32)%nat
  then Z.of_nat (length (filter (fun im => import_kind im = k) (Imports m)))
  else
    let d := importIndex m in
    if k =? ExternTag then dtags d else Z.of_nat (length (directory_of d k)).

Definition ImportedFuncCount (m : Module_) : Z := importCount m ExternFunc.

(** The index spaces: imports of the kind, then definitions. *)
Definition by_index {A} (m : Module_) (kind : Z) (of_import : ExternType -> A) (defined : list A)
  (idx : Z) : option A :=
  match importEntry m kind idx with
  | (Some e, _) => of_import ∘ IType <$> Imports m !! e
  | (None, local) =>
      if Z.of_nat (length defined) <=? local then None else defined !! Z.to_nat local
  end.

Definition FuncTypeIndex (m : Module_) : Z -> option TypeIdx :=
  by_index m ExternFunc ExternType_FuncType (FuncTypes m).
Definition TableType_ (m : Module_) : Z -> option TableType :=
  by_index m ExternTable ExternType_TableType (map TType (Tables m)).
Definition MemoryType (m : Module_) : Z -> option MemType :=
  by_index m ExternMem ExternType_MemType (Memories m).
Definition GlobalTypeByIndex (m : Module_) : Z -> option GlobalType :=
  by_index m ExternGlobal ExternType_GlobalType (map GTy (Globals m)).

Definition TableAddrType (tt : TableType) : ValType := if Addr64 (TLimits tt) then I64 else I32.
Definition MemoryAddrType (mt : MemType) : ValType := if Addr64 (MLimits mt) then I64 else I32.

(** ** Types *)

(** The directory of [typeIndex]: the bases of the groups and the flattened
    subtypes with their group. *)
Fixpoint type_bases (base : Z) (types : list RecType) : list Z :=
  match types with
  | [] => [base]
  | g :: rest => base :: type_bases (base + Z.of_nat (length (SubTypes g))) rest
  end.

Fixpoint type_flat (group : nat) (types : list RecType) : list (SubType * nat) :=
  match types with
  | [] => []
  | g :: rest => map (fun st => (st, group)) (SubTypes g) ++ type_flat (S group) rest
  end.

Definition typeIndex_bases (m : Module_) : list Z := type_bases 0 (Types_ m).
Definition typeIndex_flat (m : Module_) : list (SubType * nat) := type_flat 0 (Types_ m).

(** The scan of [subtypeByTypeIdxWithRecGroup] over at most eight groups. *)
Fixpoint subtype_scan (group : nat) (types : list RecType) (remaining : Z)
  : option (SubType * nat) :=
  match types with
  | [] => None
  | g :: rest =>
      let n := Z.of_nat (length (SubTypes g)) in
      if remaining <? n
      then (fun st => (st, group)) <$> SubTypes g !! Z.to_nat remaining
      else subtype_scan (S group) rest (remaining - n)
  end.

Definition subtypeByTypeIdxWithRecGroup (m : Module_) (idx : TypeIdx) : option (SubType * nat) :=
  if Rec idx then None
  else if (length (Types_ m) <=? 8)%nat then subtype_scan 0 (Types_ m) (Index idx)
  else if Z.of_nat (length (typeIndex_flat m)) <=? Index idx then None
  else typeIndex_flat m !! Z.to_nat (Index idx).

Definition subtypeByTypeIdx (m : Module_) (idx : TypeIdx) : option SubType :=
  fst <$> subtypeByTypeIdxWithRecGroup m idx.

Definition typeFunc (m : Module_) (idx : TypeIdx) : option CompType :=
  match subtypeByTypeIdx m idx with
  | Some st => if CKind (Comp st) =? CompFunc then Some (Comp st) else None
  | None => None
  end.

Definition FuncSignature (m : Module_) (idx : Z) : option CompType :=
  match FuncTypeIndex m idx with Some t => typeFunc m t | None => None end.

Definition flatTypeIdxInRecGroup (m : Module_) (idx : TypeIdx) (recGroup : nat) : option Z :=
  if negb (Rec idx) then
    if Z.of_nat (length (typeIndex_flat m)) <=? Index idx then None else Some (Index idx)
  else
    match Types_ m !! recGroup with
    | None => None
    | Some g =>
        if to_u32 (Z.of_nat (length (SubTypes g))) <=? Index idx then None
        else (fun b => b + Index idx) <$> typeIndex_bases m !! recGroup
    end.

Definition resolveTypeIdxRecIndex (m : Module_) (recGroup : nat) (idx : TypeIdx) : TypeIdx :=
  match flatTypeIdxInRecGroup m idx recGroup with
  | None => idx
  | Some flat => {| Index := to_u32 flat; Rec := false |}
  end.

Definition resolveRefTypeRecIndexes (m : Module_) (recGroup : nat) (rt : RefType) : RefType :=
  let heap := RefType_Heap rt in
  if negb (HeapType_Kind heap =? HeapTypeIndex) then rt
  else RefType_WithHeap rt (IndexedHeap (resolveTypeIdxRecIndex m recGroup (HeapType_Type heap))).

Definition resolveValTypeRecIndexes (m : Module_) (recGroup : nat) (t : ValType) : ValType :=
  if negb (ValType_Kind t =? ValRef) then t
  else RefVal (resolveRefTypeRecIndexes m recGroup (ValType_Ref t)).

Definition resolveFieldTypeRecIndexes (m : Module_) (recGroup : nat) (ft : FieldType) : FieldType :=
  let storage := FieldType_Storage ft in
  if StorageType_Packed storage then ft
  else NewFieldType (StorageVal (resolveValTypeRecIndexes m recGroup (StorageType_Val storage)))
         (FieldType_Mut ft).

Definition resolveCompTypeRecIndexes (m : Module_) (ct : CompType) (recGroup : nat) : CompType :=
  if CKind ct =? CompFunc then
    {| CKind := CKind ct; Array := Array ct; Fields := Fields ct;
       Params := map (resolveValTypeRecIndexes m recGroup) (Params ct);
       Results := map (resolveValTypeRecIndexes m recGroup) (Results ct) |}
  else if CKind ct =? CompStruct then
    {| CKind := CKind ct; Array := Array ct;
       Fields := map (resolveFieldTypeRecIndexes m recGroup) (Fields ct);
       Params := Params ct; Results := Results ct |}
  else if CKind ct =? CompArray then
    {| CKind := CKind ct; Array := resolveFieldTypeRecIndexes m recGroup (Array ct);
       Fields := Fields ct; Params := Params ct; Results := Results ct |}
  else ct.

Definition has_rec_index (t : ValType) : bool :=
  (ValType_Kind t =? ValRef) &&
  (HeapType_Kind (RefType_Heap (ValType_Ref t)) =? HeapTypeIndex) &&
  Rec (HeapType_Type (RefType_Heap (ValType_Ref t))).

Definition funcTypeHasRecIndexes (ct : CompType) : bool :=
  existsb has_rec_index (Params ct) || existsb has_rec_index (Results ct).

Definition resolveTypeFunc (m : Module_) (idx : TypeIdx) (aliasNonRecursive : bool)
  : option CompType :=
  match subtypeByTypeIdxWithRecGroup m idx with
  | None => None
  | Some (st, recGroup) =>
      if negb (CKind (Comp st) =? CompFunc) then None
      else if aliasNonRecursive && negb (funcTypeHasRecIndexes (Comp st)) then Some (Comp st)
      else Some (resolveCompTypeRecIndexes m (Comp st) recGroup)
  end.

Definition ResolveLocalFuncType (m : Module_) (localIdx : Z) : option CompType :=
  if (localIdx <? 0) || (Z.of_nat (length (FuncTypes m)) <=? localIdx) then None
  else
    match FuncTypes m !! Z.to_nat localIdx with
    | None => None
    | Some t =>
        match subtypeByTypeIdxWithRecGroup m t with
        | None => None
        | Some (st, recGroup) =>
            if negb (CKind (Comp st) =? CompFunc) then None
            else if funcTypeHasRecIndexes (Comp st)
            then Some (resolveCompTypeRecIndexes m (Comp st) recGroup)
            else Some (Comp st)
        end
    end.

(** ** Locals *)

(** The pair [(count, overflow)]. *)
Fixpoint LocalCount_loop (count : Z) (runs : list LocalRun) : Z * bool :=
  match runs with
  | [] => (count, false)
  | r :: rest =>
      if (2 ^ 64 - 1) - count <? Count r then (0, true)
      else LocalCount_loop (to_u64 (count + Count r)) rest
  end.

Definition LocalCount (params : list ValType) (runs : list LocalRun) : Z * bool :=
  LocalCount_loop (Z.of_nat (length params)) runs.

Fixpoint LocalType_scan (runs : list LocalRun) (rem : Z) : option ValType :=
  match runs with
  | [] => None
  | r :: rest => if rem <? Count r then Some (LType r) else LocalType_scan rest (rem - Count r)
  end.

Definition LocalType (params : list ValType) (runs : list LocalRun) (idx : Z) : option ValType :=
  if idx <? Z.of_nat (length params) then params !! Z.to_nat idx
  else LocalType_scan runs (idx - Z.of_nat (length params)).

(** [sort.Search]: the loop on the interval [i, j); its length halves in each
    round, so [j - i] rounds are enough. *)
Fixpoint sort_Search_loop (fuel i j : nat) (f : nat -> bool) : nat :=
  match fuel with
  | O => i
  | S fuel' =>
      if (i <? j)%nat then
        let h := ((i + j) / 2)%nat in
        if negb (f h) then sort_Search_loop fuel' (S h) j f else sort_Search_loop fuel' i h f
      else i
  end.

Definition sort_Search (n : nat) (f : nat -> bool) : nat := sort_Search_loop n 0 n f.

Definition LocalTypeIndexed (params : list ValType) (runs : list LocalRun) (runEnds : list Z)
  (idx : Z) : option ValType :=
  if idx <? Z.of_nat (length params) then params !! Z.to_nat idx
  else if (length runs <=? 2)%nat || negb (length runEnds =? length runs)%nat
  then LocalType params runs idx
  else
    let i := sort_Search (length runEnds)
               (fun i => match runEnds !! i with Some e => idx <? e | None => false end) in
    if (i =? length runs)%nat then None else LType <$> runs !! i.

(** The loop of [indexLocalRuns] (validate.go): the absolute ends of the runs. *)
Fixpoint run_ends (end_ : Z) (runs : list LocalRun) : list Z :=
  match runs with
  | [] => []
  | r :: rest => let e := to_u64 (end_ + Count r) in e :: run_ends e rest
  end.

(** The lookup state of a [funcValidator] (validate.go). *)
Record localLookup : Set := {
  localParams : list ValType;
  localRuns : list LocalRun;
  localCount : Z;
  localRunEnds : list Z;
  localLookupWork : Z
}.

(** [prepareLocalLookup]: the capacity policy of the buffer is left out. *)
Definition prepareLocalLookup (v : localLookup) : localLookup :=
  {| localParams := localParams v; localRuns := localRuns v; localCount := localCount v;
     localRunEnds := []; localLookupWork := 0 |}.

Definition indexLocalRuns (v : localLookup) : localLookup :=
  {| localParams := localParams v; localRuns := localRuns v; localCount := localCount v;
     localRunEnds :=
       if (length (localRuns v) <=? 2)%nat then []
       else run_ends (Z.of_nat (length (localParams v))) (localRuns v);
     localLookupWork := localLookupWork v |}.

Definition add_work (n : Z) (v : localLookup) : localLookup :=
  {| localParams := localParams v; localRuns := localRuns v; localCount := localCount v;
     localRunEnds := localRunEnds v; localLookupWork := to_u64 (localLookupWork v + n) |}.

(** The first loop of [localType], over [localRuns[:2]]: a type, or what is left
    of the index. *)
Fixpoint scan_prefix (runs : list LocalRun) (rem : Z) : ValType + Z :=
  match runs with
  | [] => inr rem
  | r :: rest => if rem <? Count r then inl (LType r) else scan_prefix rest (rem - Count r)
  end.

(** The second loop, over [localRuns[2:]]: the type and its position. *)
Fixpoint scan_rest (i : Z) (runs : list LocalRun) (rem : Z) : option (ValType * Z) :=
  match runs with
  | [] => None
  | r :: rest =>
      if rem <? Count r then Some (LType r, i) else scan_rest (i + 1) rest (rem - Count r)
  end.

Definition localType (v : localLookup) (idx : Z) : option ValType * localLookup :=
  let params := localParams v in
  let runs := localRuns v in
  if (length runs <=? 2)%nat then (LocalType params runs idx, v)
  else if negb (length (localRunEnds v) =? 0)%nat
  then (LocalTypeIndexed params runs (localRunEnds v) idx, v)
  else if idx <? Z.of_nat (length params) then (params !! Z.to_nat idx, v)
  else if localCount v <=? idx then (None, v)
  else
    match scan_prefix (take 2 runs) (idx - Z.of_nat (length params)) with
    | inl t => (Some t, v)
    | inr rem =>
        if 2 * Z.of_nat (length runs) <=? localLookupWork v then
          let v' := indexLocalRuns v in
          (LocalTypeIndexed params runs (localRunEnds v') idx, v')
        else
          match scan_rest 0 (drop 2 runs) rem with
          | Some (t, i) => (Some t, add_work (i + 1) v)
          | None => (None, v)
          end
    end.

(** ** Structural equality (equal.go) *)

Definition equalHeapType (a b : HeapType) : bool :=
  if negb (HeapType_Kind a =? HeapType_Kind b) || negb (HeapType_Abs a =? HeapType_Abs b)
     || negb (TypeIdx_eqb (HeapType_Type a) (HeapType_Type b))
  then false
  else if HeapType_Kind a =? HeapDefType then
    let '(ag, ai, _, av) := HeapType_Def a in
    let '(bg, bi, _, bv) := HeapType_Def b in
    Bool.eqb av bv && (negb av || ((ag =? bg) && (ai =? bi)))
  else true.

Definition equalRefType (a b : RefType) : bool :=
  Bool.eqb (RefType_Nullable a) (RefType_Nullable b)
  && Bool.eqb (RefType_Exact a) (RefType_Exact b)
  && equalHeapType (RefType_Heap a) (RefType_Heap b).

Definition equalValType (a b : ValType) : bool :=
  if negb (ValType_Kind a =? ValType_Kind b) || negb (ValType_Num a =? ValType_Num b) then false
  else if ValType_Kind a =? ValRef then equalRefType (ValType_Ref a) (ValType_Ref b)
  else true.

Definition equalStorageType (a b : StorageType) : bool :=
  if negb (Bool.eqb (StorageType_Packed a) (StorageType_Packed b))
     || negb (StorageType_Pack a =? StorageType_Pack b)
  then false
  else if negb (StorageType_Packed a)
          && negb (equalValType (StorageType_Val a) (StorageType_Val b))
  then false
  else true.

Definition equalFieldType (a b : FieldType) : bool :=
  (FieldType_Mut a =? FieldType_Mut b)
  && equalStorageType (FieldType_Storage a) (FieldType_Storage b).

(** [for i := range a { if !eq(a[i], b[i]) { return false } }] on slices of the
    same length. *)
Fixpoint equal_all {A} (eq : A -> A -> bool) (a b : list A) : bool :=
  match a, b with
  | x :: a', y :: b' => eq x y && equal_all eq a' b'
  | _, _ => true
  end.

Definition equalCompType (a b : CompType) : bool :=
  if negb (CKind a =? CKind b) || negb (length (Params a) =? length (Params b))%nat
     || negb (length (Results a) =? length (Results b))%nat
     || negb (length (Fields a) =? length (Fields b))%nat
  then false
  else
    equal_all equalValType (Params a) (Params b)
    && equal_all equalValType (Results a) (Results b)
    && equal_all equalFieldType (Fields a) (Fields b)
    && negb ((CKind a =? CompArray) && negb (equalFieldType (Array a) (Array b))).

Definition FuncTypeEqual (a b : CompType) : bool :=
  if negb (CKind a =? CompFunc) || negb (CKind b =? CompFunc)
     || negb (length (Params a) =? length (Params b))%nat
     || negb (length (Results a) =? length (Results b))%nat
  then false
  else equal_all equalValType (Params a) (Params b)
       && equal_all equalValType (Results a) (Results b).

(** ** Widths of memory offsets (instruction_decode.go) *)

(** [Addr64] of the memories in index order. *)
Definition mem_addr64s (m : Module_) : list bool :=
  map (fun im => Addr64 (MLimits (ExternType_MemType (IType im))))
    (filter (fun im => import_kind im = ExternMem) (Imports m))
  ++ map (fun mt => Addr64 (MLimits mt)) (Memories m).

(** The two counting loops: [(seen, mixed, addr64, count)]. *)
Fixpoint widths_scan (l : list bool) (seen mixed addr64 : bool) (count : nat)
  : bool * bool * bool * nat :=
  match l with
  | [] => (seen, mixed, addr64, count)
  | got :: l' =>
      widths_scan l' true (mixed || (seen && negb (Bool.eqb got addr64))) got (S count)
  end.

(** The two filling loops. *)
Fixpoint widths_fill (l : list bool) (index : nat) (words : list Z) : list Z :=
  match l with
  | [] => words
  | got :: l' =>
      let words :=
        if got then
          alter (fun w => Z.lor w (to_u64 (Z.shiftl 1 (Z.land (Z.of_nat index) 63))))
            (index / 64)%nat words
        else words in
      widths_fill l' (S index) words
  end.

Definition moduleMemargWidths (m : Module_) : memargWidths :=
  let l := mem_addr64s m in
  let '(seen, mixed, addr64, count) := widths_scan l false false false 0 in
  if negb seen then {| multiMemory := true; indexed64 := []; fixed64 := false |}
  else if negb mixed then {| multiMemory := true; indexed64 := []; fixed64 := addr64 |}
  else {| multiMemory := true;
          indexed64 := widths_fill l 0 (replicate ((count + 63) / 64) 0);
          fixed64 := false |}.

(** ** Hints and names *)

(** [BranchHintsForFunc]: halving while more than eight entries are left (the
    length is a fuel for it), then a scan.  A missing entry is [None]. *)
Fixpoint hints_narrow (fuel : nat) (hints : list FuncBranchHints) (funcIndex : Z)
  : list FuncBranchHints :=
  match fuel with
  | O => hints
  | S fuel' =>
      if (8 <? length hints)%nat then
        let mid := (length hints / 2)%nat in
        match hints !! mid with
        | None => hints
        | Some h =>
            if FuncIndex h <? funcIndex then hints_narrow fuel' (drop (S mid) hints) funcIndex
            else hints_narrow fuel' (take (S mid) hints) funcIndex
        end
      else hints
  end.

Fixpoint hints_scan (hints : list FuncBranchHints) (funcIndex : Z) : option (list BranchHint) :=
  match hints with
  | [] => None
  | h :: rest =>
      if FuncIndex h =? funcIndex then Some (Hints h)
      else if funcIndex <? FuncIndex h then None
      else hints_scan rest funcIndex
  end.

Definition BranchHintsForFunc (m : Module_) (funcIndex : Z) : option (list BranchHint) :=
  hints_scan (hints_narrow (length (BranchHints m)) (BranchHints m) funcIndex) funcIndex.

Fixpoint name_find (l : NameMap) (idx : Z) : option (list Z) :=
  match l with
  | [] => None
  | a :: rest => if NIndex a =? idx then Some (NName a) else name_find rest idx
  end.

Definition FuncName (n : option NameSec) (idx : Z) : option (list Z) :=
  match n with None => None | Some n => name_find (FunctionNames n) idx end.

Fixpoint local_name_find (l : IndirectNameMap) (funcIdx localIdx : Z) : option (list Z) :=
  match l with
  | [] => None
  | a :: rest =>
      if negb (INIndex a =? funcIdx) then local_name_find rest funcIdx localIdx
      else match name_find (Names a) localIdx with
           | Some n => Some n
           | None => local_name_find rest funcIdx localIdx
           end
  end.

Definition LocalName (n : option NameSec) (funcIdx localIdx : Z) : option (list Z) :=
  match n with None => None | Some n => local_name_find (LocalNames n) funcIdx localIdx end.
