(* ===== verification/ModuleLaws.v ===== *)
(** * Index spaces and lookups of a module

    The queries of [Module] against their plain meaning: an index space is the
    imports of a kind followed by the definitions, the type space is the
    concatenation of the recursion groups, the locals of a function are the
    parameters followed by the expansion of the declared runs.  Each optimised
    route (scan or directory, binary search, lazily built index) gives the
    element of that sequence. *)

From stdpp Require Import base tactics numbers list.
From Stdlib Require Import ZArith Lia.
From S2P Require Import Prelude Reader ReaderLaws Types TypesLaws Decode DecodeLaws Kinds Instr Module.
Local Open Scope Z_scope.

(** ** Imports *)

(** The positions of the imports of a kind. *)
Fixpoint positions (kind : Z) (i : nat) (imports : list Import) : list nat :=
  match imports with
  | [] => []
  | im :: rest =>
      if import_kind im =? kind then i :: positions kind (S i) rest else positions kind (S i) rest
  end.

Lemma positions_lookup kind imports i n :
  positions kind i imports !! n = None /\
    filter (fun im => import_kind im = kind) imports !! n = None \/
  exists e, positions kind i imports !! n = Some (i + e)%nat /\
    filter (fun im => import_kind im = kind) imports !! n = imports !! e /\ (e < length imports)%nat.
Proof.
  revert i n. induction imports as [|im rest IH]; intros i n; simpl; [by left|].
  rewrite filter_cons. destruct (Z.eqb_spec (import_kind im) kind) as [E|E]; case_decide; try done.
  - destruct n as [|n]; simpl.
    + right. exists 0%nat. rewrite Nat.add_0_r. simpl. split; [done|]. split; [done|lia].
    + destruct (IH (S i) n) as [?|(e & H1 & H2 & H3)]; [by left|]. right. exists (S e).
      rewrite H1, H2. simpl. rewrite Nat.add_succ_r. split; [done|]. split; [done|lia].
  - destruct (IH (S i) n) as [?|(e & H1 & H2 & H3)]; [by left|]. right. exists (S e).
    rewrite H1, H2. simpl. rewrite Nat.add_succ_r. split; [done|]. split; [done|lia].
Qed.

Lemma positions_length kind i imports :
  length (positions kind i imports) = length (filter (fun im => import_kind im = kind) imports).
Proof.
  revert i. induction imports as [|im rest IH]; intros i; simpl; [done|].
  rewrite filter_cons. destruct (Z.eqb_spec (import_kind im) kind); case_decide; try done; simpl;
    by rewrite IH.
Qed.

(** What both routes of [importEntry] compute. *)
Definition entry_of (ps : list nat) (idx : Z) : option nat * Z :=
  match ps !! Z.to_nat idx with
  | Some e => (Some e, 0)
  | None => (None, idx - Z.of_nat (length ps))
  end.

Lemma importEntry_scan_spec imports i kind rem :
  0 <= rem -> importEntry_scan imports i kind rem = entry_of (positions kind i imports) rem.
Proof.
  revert i rem. induction imports as [|im rest IH]; intros i rem Hrem; simpl.
  - unfold entry_of. simpl. f_equal. lia.
  - destruct (import_kind im =? kind); [|by apply IH].
    destruct (Z.eqb_spec rem 0) as [->|Hne]; [done|]. rewrite IH by lia. unfold entry_of.
    replace (Z.to_nat rem) with (S (Z.to_nat (rem - 1))) by lia. simpl.
    destruct (positions kind (S i) rest !! Z.to_nat (rem - 1)); [done|]. f_equal. lia.
Qed.

(** The kinds [importEntry] is called with: tags have no directory. *)
Definition entry_kind (kind : Z) : Prop :=
  kind = ExternFunc \/ kind = ExternTable \/ kind = ExternMem \/ kind = ExternGlobal.

Lemma importIndex_loop_spec imports i d kind :
  entry_kind kind -> Z.of_nat (i + length imports) <= 2 ^ 32 ->
  directory_of (importIndex_loop imports i d) kind =
    directory_of d kind ++ map Z.of_nat (positions kind i imports).
Proof.
  intros Hk. revert i d. induction imports as [|im rest IH]; intros i d Hl; simpl.
  - by rewrite app_nil_r.
  - simpl in Hl. rewrite IH by lia. rewrite to_u32_small by lia.
    destruct Hk as [-> | [-> | [-> | ->]]]; cbn [directory_of];
      unfold directory_of; simpl;
      match goal with |- context [import_kind im =? ?k] => destruct (import_kind im =? k) end;
      simpl; rewrite <- ?app_assoc; done.
Qed.

Lemma importEntry_spec m kind idx :
  entry_kind kind -> Z.of_nat (length (Imports m)) <= 2 ^ 32 -> 0 <= idx ->
  importEntry m kind idx = entry_of (positions kind 0 (Imports m)) idx.
Proof.
  intros Hk Hl Hi. unfold importEntry. destruct (_ <=? _)%nat; [by apply importEntry_scan_spec|].
  unfold importIndex. rewrite importIndex_loop_spec by done.
  replace (directory_of _ kind) with (@nil Z)
    by (destruct Hk as [-> | [-> | [-> | ->]]]; reflexivity).
  simpl. rewrite length_map, list_lookup_fmap. unfold entry_of.
  destruct (Z.ltb_spec idx (Z.of_nat (length (positions kind 0 (Imports m))))) as [Hlt|Hge].
  - destruct (positions kind 0 (Imports m) !! Z.to_nat idx); simpl; [|done]. by rewrite Nat2Z.id.
  - by rewrite (lookup_ge_None_2 (positions kind 0 (Imports m))) by lia.
Qed.

(** The index space of a kind. *)
Definition space {A} (m : Module_) (kind : Z) (of_import : ExternType -> A) (defined : list A)
  : list A :=
  map (of_import ∘ IType) (filter (fun im => import_kind im = kind) (Imports m)) ++ defined.

Lemma by_index_spec {A} m kind (f : ExternType -> A) defined idx :
  entry_kind kind -> Z.of_nat (length (Imports m)) <= 2 ^ 32 -> 0 <= idx ->
  by_index m kind f defined idx = space m kind f defined !! Z.to_nat idx.
Proof.
  intros Hk Hl Hi. unfold by_index, space. rewrite importEntry_spec by done. unfold entry_of.
  rewrite positions_length. set (n := Z.to_nat idx).
  destruct (positions_lookup kind (Imports m) 0 n) as [[H1 H2]|(e & H1 & H2 & H3)]; rewrite H1.
  - apply lookup_ge_None in H2. rewrite lookup_app_r by (rewrite length_map; lia).
    rewrite length_map. destruct (Z.leb_spec (Z.of_nat (length defined))
      (idx - Z.of_nat (length (filter (fun im => import_kind im = kind) (Imports m))))).
    + rewrite lookup_ge_None_2 by lia. done.
    + f_equal. lia.
  - simpl. destruct (lookup_lt_is_Some_2 (Imports m) e H3) as [x Hx]. rewrite Hx in *. simpl.
    rewrite lookup_app_l.
    + by rewrite list_lookup_fmap, H2.
    + rewrite length_map. by apply (lookup_lt_Some _ _ x).
Qed.

Lemma importCount_spec m kind :
  entry_kind kind -> Z.of_nat (length (Imports m)) <= 2 ^ 32 ->
  importCount m kind = Z.of_nat (length (filter (fun im => import_kind im = kind) (Imports m))).
Proof.
  intros Hk Hl. unfold importCount. destruct (_ <=? _)%nat; [done|]. cbv zeta.
  replace (kind =? ExternTag) with false
    by (destruct Hk as [-> | [-> | [-> | ->]]]; reflexivity).
  unfold importIndex. rewrite importIndex_loop_spec by done.
  replace (directory_of _ kind) with (@nil Z)
    by (destruct Hk as [-> | [-> | [-> | ->]]]; reflexivity).
  simpl. by rewrite length_map, positions_length.
Qed.

(** C31: every index space of a module is its imports of that kind followed by
    its definitions, whichever route the lookup takes (the linear scan of up to
    32 imports or the directory beyond), and the import counts agree with it. *)
Theorem index_spaces m idx :
  Z.of_nat (length (Imports m)) <= 2 ^ 32 -> 0 <= idx ->
  FuncTypeIndex m idx = space m ExternFunc ExternType_FuncType (FuncTypes m) !! Z.to_nat idx /\
  TableType_ m idx = space m ExternTable ExternType_TableType (map TType (Tables m)) !! Z.to_nat idx /\
  MemoryType m idx = space m ExternMem ExternType_MemType (Memories m) !! Z.to_nat idx /\
  GlobalTypeByIndex m idx =
    space m ExternGlobal ExternType_GlobalType (map GTy (Globals m)) !! Z.to_nat idx /\
  forall kind, entry_kind kind ->
    importCount m kind = Z.of_nat (length (space m kind id [])).
Proof.
  intros Hl Hi. split; [by apply by_index_spec; [left| |]|].
  split; [by apply by_index_spec; [right; left| |]|].
  split; [by apply by_index_spec; [right; right; left| |]|].
  split; [by apply by_index_spec; [right; right; right| |]|].
  intros kind Hk. unfold space. rewrite app_nil_r, length_map. by apply importCount_spec.
Qed.

(** A module with 33 imports: memories and functions in turn, one defined function. *)
Definition sample_imports : list Import :=
  let mem := {| MLimits := {| Min := 1; Max := 0; HasMax := false; Addr64 := false |}; Shared := false |} in
  concat (replicate 16 [
    {| IModule := []; IName := []; IType := NewMemExternType mem |};
    {| IModule := []; IName := []; IType := NewFuncExternType {| Index := 5; Rec := false |} |}])
  ++ [{| IModule := []; IName := []; IType := NewMemExternType mem |}].

Definition sample_module : Module_ :=
  {| Customs := []; NameSec_ := None; RawNameSecPayload := []; Types_ := [];
     Imports := sample_imports; FuncTypes := [{| Index := 9; Rec := false |}]; Tables := [];
     Memories := []; Tags := []; StringRefs := []; Globals := []; Exports := []; Start := None;
     Elements := []; DataCount := None; Code_ := []; Data_ := []; UsesCompactImports := false;
     BranchHints := [] |}.

Lemma index_spaces_witness :
  length (Imports sample_module) = 33%nat /\
  FuncTypeIndex sample_module 16 = Some {| Index := 9; Rec := false |}.
Proof.
  split; [reflexivity|].
  destruct (index_spaces sample_module 16) as (E & _); [vm_compute; discriminate|lia|].
  etransitivity; [exact E|]. vm_compute. reflexivity.
Defined.

(** ** The type space *)

Lemma subtype_scan_spec types group rem :
  0 <= rem -> subtype_scan group types rem = type_flat group types !! Z.to_nat rem.
Proof.
  revert group rem. induction types as [|g rest IH]; intros group rem Hrem; simpl; [done|].
  destruct (Z.ltb_spec rem (Z.of_nat (length (SubTypes g)))).
  - rewrite lookup_app_l by (rewrite length_map; lia). by rewrite list_lookup_fmap.
  - rewrite IH by lia. rewrite lookup_app_r by (rewrite length_map; lia).
    rewrite length_map. f_equal. lia.
Qed.

Lemma subtypeByTypeIdx_flat m idx :
  0 <= Index idx ->
  subtypeByTypeIdxWithRecGroup m idx =
    if Rec idx then None else typeIndex_flat m !! Z.to_nat (Index idx).
Proof.
  intros Hi. unfold subtypeByTypeIdxWithRecGroup. destruct (Rec idx); [done|].
  destruct (_ <=? _)%nat; [by apply subtype_scan_spec|].
  destruct (Z.leb_spec (Z.of_nat (length (typeIndex_flat m))) (Index idx)); [|done].
  by rewrite lookup_ge_None_2 by lia.
Qed.

(** ** Locals *)

(** The locals of a function, expanded. *)
Definition expand_runs (runs : list LocalRun) : list ValType :=
  concat (map (fun r => replicate (Z.to_nat (Count r)) (LType r)) runs).

Definition locals_of (params : list ValType) (runs : list LocalRun) : list ValType :=
  params ++ expand_runs runs.

Definition counts_ok (runs : list LocalRun) : Prop := Forall (fun r => 0 <= Count r) runs.

Lemma LocalType_scan_spec runs rem :
  counts_ok runs -> 0 <= rem -> LocalType_scan runs rem = expand_runs runs !! Z.to_nat rem.
Proof.
  intros Hc. revert rem. induction Hc as [|r rest Hr Hc IH]; intros rem Hrem; simpl; [done|].
  unfold expand_runs. simpl. destruct (Z.ltb_spec rem (Count r)).
  - rewrite lookup_app_l by (rewrite length_replicate; lia).
    symmetry. apply lookup_replicate. split; [done|lia].
  - rewrite IH by lia. rewrite lookup_app_r by (rewrite length_replicate; lia).
    rewrite length_replicate. unfold expand_runs. f_equal. lia.
Qed.

Lemma LocalType_spec params runs idx :
  counts_ok runs -> 0 <= idx ->
  LocalType params runs idx = locals_of params runs !! Z.to_nat idx.
Proof.
  intros Hc Hi. unfold LocalType, locals_of.
  destruct (Z.ltb_spec idx (Z.of_nat (length params))).
  - by rewrite lookup_app_l by lia.
  - rewrite LocalType_scan_spec by (done || lia). rewrite lookup_app_r by lia. f_equal. lia.
Qed.

(** [sort.Search] finds the first index at which a monotone predicate holds. *)
Lemma sort_Search_loop_spec n fuel i j f :
  (j - i <= fuel)%nat -> (i <= j)%nat -> (j <= n)%nat ->
  (forall a b, (a <= b < n)%nat -> f a = true -> f b = true) ->
  (forall a, (a < i)%nat -> f a = false) ->
  let r := sort_Search_loop fuel i j f in
  (i <= r <= j)%nat /\ (forall a, (a < r)%nat -> f a = false) /\ ((r < j)%nat -> f r = true).
Proof.
  intros Hf Hij Hn Hm. revert i j Hf Hij Hn.
  induction fuel as [|fuel IH]; intros i j Hf Hij Hn Hlow; cbn [sort_Search_loop].
  - split; [lia|]. split; [done|]. intros; lia.
  - destruct (Nat.ltb_spec i j) as [Hlt|Hge]; [|split; [lia|]; split; [done|]; intros; lia].
    pose proof (Nat.div_mod_eq (i + j) 2). pose proof (Nat.mod_upper_bound (i + j) 2 ltac:(lia)).
    cbv zeta. set (h := ((i + j) / 2)%nat) in *. destruct (f h) eqn:Eh; cbn [negb].
    + destruct (IH i h ltac:(lia) ltac:(lia) ltac:(lia) Hlow) as (H1 & H2 & H3).
      split; [lia|]. split; [done|]. intros Hr.
      destruct (Nat.lt_ge_cases (sort_Search_loop fuel i h f) h); [auto|].
      by replace (sort_Search_loop fuel i h f) with h by lia.
    + destruct (IH (S h) j ltac:(lia) ltac:(lia) ltac:(lia)) as (H1 & H2 & H3);
        [|split; [lia|done]].
      intros a Ha. destruct (f a) eqn:Ea; [|done]. exfalso.
      rewrite (Hm a h) in Eh by (lia || done). discriminate.
Qed.

Lemma sort_Search_spec n f :
  (forall a b, (a <= b < n)%nat -> f a = true -> f b = true) ->
  let r := sort_Search n f in
  (r <= n)%nat /\ (forall a, (a < r)%nat -> f a = false) /\ ((r < n)%nat -> f r = true).
Proof.
  intros Hm. destruct (sort_Search_loop_spec n n 0 n f) as (H1 & H2 & H3);
    [lia|lia|lia|done|intros; lia|]. unfold sort_Search. split; [lia|done].
Qed.

(** The end of run [i] counts the locals up to and including it. *)
Lemma run_ends_lookup runs e i x :
  counts_ok runs -> 0 <= e -> e + run_total runs < 2 ^ 64 -> run_ends e runs !! i = Some x ->
  x = e + run_total (take (S i) runs).
Proof.
  intros Hc. revert e i. induction Hc as [|r rest Hr Hc IH]; intros e i He Ht Hi; [done|].
  simpl in Ht, Hi.
  assert (Hrt : 0 <= run_total rest).
  { clear -Hc. induction Hc; simpl; lia. }
  rewrite to_u64_small in Hi by lia. destruct i as [|i]; simpl in Hi |- *.
  - injection Hi as <-. lia.
  - apply IH in Hi; [|lia|lia]. simpl in Hi. lia.
Qed.

Lemma run_ends_length runs e : length (run_ends e runs) = length runs.
Proof. revert e. induction runs; intros e; simpl; [done|]. by rewrite IHruns. Qed.

Lemma run_total_nonneg runs : counts_ok runs -> 0 <= run_total runs.
Proof. induction 1; simpl; lia. Qed.

Lemma run_total_take_mono runs a b :
  counts_ok runs -> (a <= b)%nat -> run_total (take a runs) <= run_total (take b runs).
Proof.
  intros Hc. revert a b. induction Hc as [|r rest Hr Hc IH]; intros a b Hab; [by rewrite !take_nil|].
  destruct a as [|a]; [rewrite take_0; apply run_total_nonneg, Forall_take; by constructor|].
  destruct b as [|b]; [lia|]. simpl. specialize (IH a b ltac:(lia)). lia.
Qed.

Lemma expand_runs_length runs :
  counts_ok runs -> Z.of_nat (length (expand_runs runs)) = run_total runs.
Proof.
  unfold expand_runs. induction 1 as [|r rest Hr Hc IH]; simpl; [done|].
  rewrite length_app, length_replicate. lia.
Qed.

(** Position [k] of the expansion belongs to the run whose ends surround it. *)
Lemma expand_runs_in_run runs i r k :
  counts_ok runs -> runs !! i = Some r ->
  run_total (take i runs) <= k < run_total (take (S i) runs) ->
  expand_runs runs !! Z.to_nat k = Some (LType r).
Proof.
  intros Hc. revert i k. induction Hc as [|r0 rest Hr Hc IH]; intros i k Hi Hk; [done|].
  unfold expand_runs. simpl. destruct i as [|i]; simpl in Hi, Hk.
  - injection Hi as ->. 
    rewrite lookup_app_l by (rewrite length_replicate; lia). apply lookup_replicate. split; [done|lia].
  - pose proof (run_total_nonneg _ (Forall_take _ i _ Hc)).
    rewrite lookup_app_r by (rewrite length_replicate; lia). rewrite length_replicate.
    replace (Z.to_nat k - Z.to_nat (Count r0))%nat with (Z.to_nat (k - Count r0)) by lia.
    apply (IH i); [done|]. simpl in Hk |- *. lia.
Qed.

Lemma LocalTypeIndexed_spec params runs idx :
  counts_ok runs -> Z.of_nat (length params) + run_total runs < 2 ^ 64 -> 0 <= idx ->
  LocalTypeIndexed params runs (run_ends (Z.of_nat (length params)) runs) idx =
    locals_of params runs !! Z.to_nat idx.
Proof.
  intros Hc Ht Hi. unfold LocalTypeIndexed. rewrite run_ends_length, Nat.eqb_refl.
  destruct (Z.ltb_spec idx (Z.of_nat (length params))) as [Hp|Hp].
  { unfold locals_of. by rewrite lookup_app_l by lia. }
  rewrite orb_false_r. destruct (length runs <=? 2)%nat; [by apply LocalType_spec|].
  set (ends := run_ends (Z.of_nat (length params)) runs).
  set (f := fun i => match ends !! i with Some e => idx <? e | None => false end).
  assert (Hf : forall i, (i < length runs)%nat ->
            f i = (idx <? Z.of_nat (length params) + run_total (take (S i) runs))).
  { intros i Hlt. unfold f. destruct (lookup_lt_is_Some_2 ends i) as [x Hx].
    { unfold ends. by rewrite run_ends_length. }
    rewrite Hx. apply run_ends_lookup in Hx; [by rewrite Hx|done|lia|done]. }
  destruct (sort_Search_spec (length runs) f) as (H1 & H2 & H3).
  { intros a b Hab. rewrite !Hf by lia. rewrite !Z.ltb_lt.
    pose proof (run_total_take_mono runs (S a) (S b) Hc ltac:(lia)). lia. }
  cbv zeta. fold f. set (i := sort_Search (length runs) f) in *.
  unfold locals_of. rewrite lookup_app_r by lia.
  replace (Z.to_nat idx - length params)%nat with (Z.to_nat (idx - Z.of_nat (length params))) by lia.
  assert (Hlow : forall a, (a <= i)%nat -> run_total (take a runs) <= idx - Z.of_nat (length params)).
  { intros [|a] Ha; [rewrite take_0; simpl; lia|].
    specialize (H2 a ltac:(lia)). rewrite Hf in H2 by lia. bool_to_prop. lia. }
  destruct (Nat.eqb_spec i (length runs)) as [E|E].
  - rewrite lookup_ge_None_2; [done|]. specialize (Hlow i ltac:(lia)).
    rewrite E, firstn_all in Hlow. pose proof (expand_runs_length runs Hc). lia.
  - destruct (lookup_lt_is_Some_2 runs i ltac:(lia)) as [r Hr]. rewrite Hr. simpl.
    symmetry. apply (expand_runs_in_run _ i); [done|done|]. split; [apply Hlow; lia|].
    specialize (H3 ltac:(lia)). rewrite Hf in H3 by lia. bool_to_prop. lia.
Qed.

(** The state [localType] keeps: the index is not built or is the ends of the
    runs, and the count is the size of the local space. *)
Record lookup_ok (v : localLookup) : Prop := {
  lk_counts : counts_ok (localRuns v);
  lk_count : localCount v = Z.of_nat (length (locals_of (localParams v) (localRuns v)));
  lk_bound : localCount v < 2 ^ 64;
  lk_ends : localRunEnds v = [] \/
            localRunEnds v = run_ends (Z.of_nat (length (localParams v))) (localRuns v)
}.

Lemma scan_prefix_rest runs n rem :
  match scan_prefix (take n runs) rem with
  | inl t => LocalType_scan runs rem = Some t
  | inr rem' => LocalType_scan runs rem = LocalType_scan (drop n runs) rem'
  end.
Proof.
  revert n rem. induction runs as [|r rest IH]; intros n rem; [by rewrite take_nil, drop_nil|].
  destruct n as [|n]; [done|]. simpl. destruct (rem <? Count r); [done|]. apply IH.
Qed.

Lemma scan_rest_fst i runs rem : fst <$> scan_rest i runs rem = LocalType_scan runs rem.
Proof.
  revert i rem. induction runs as [|r rest IH]; intros i rem; simpl; [done|].
  destruct (rem <? Count r); [done|]. apply IH.
Qed.

Lemma locals_of_length params runs :
  counts_ok runs ->
  Z.of_nat (length (locals_of params runs)) = Z.of_nat (length params) + run_total runs.
Proof. intros Hc. unfold locals_of. rewrite length_app. rewrite <- expand_runs_length by done. lia. Qed.

Lemma localType_slow v idx :
  lookup_ok v -> Z.of_nat (length (localParams v)) <= idx ->
  LocalType_scan (localRuns v) (idx - Z.of_nat (length (localParams v))) =
    locals_of (localParams v) (localRuns v) !! Z.to_nat idx.
Proof.
  intros Hv Hi. rewrite <- LocalType_spec by (apply Hv || lia). unfold LocalType.
  by replace (idx <? _) with false by lia.
Qed.

(** C28: the types of locals: whatever index is asked for and however much work
    earlier lookups have done (scan of the first runs, scan with a work count,
    lazily built table of run ends with binary search), [localType] returns the
    type at that position of the parameters followed by the expanded runs, and
    keeps its state well formed. *)
Theorem localType_correct v idx :
  lookup_ok v -> 0 <= idx ->
  fst (localType v idx) = locals_of (localParams v) (localRuns v) !! Z.to_nat idx /\
  lookup_ok (snd (localType v idx)) /\
  localParams (snd (localType v idx)) = localParams v /\ localRuns (snd (localType v idx)) = localRuns v.
Proof.
  intros Hv Hi. pose proof Hv as [Hc Hn Hb He]. unfold localType.
  pose proof (locals_of_length (localParams v) (localRuns v) Hc) as Hlen.
  destruct (length (localRuns v) <=? 2)%nat eqn:E2; [by rewrite LocalType_spec|].
  assert (Hidx : LocalTypeIndexed (localParams v) (localRuns v)
            (run_ends (Z.of_nat (length (localParams v))) (localRuns v)) idx =
          locals_of (localParams v) (localRuns v) !! Z.to_nat idx).
  { apply LocalTypeIndexed_spec; [done|lia|done]. }
  destruct (length (localRunEnds v) =? 0)%nat eqn:Ez; simpl.
  2: { split; [|done]. destruct He as [He|He]; rewrite He in *; [discriminate|done]. }
  destruct (Z.ltb_spec idx (Z.of_nat (length (localParams v)))) as [Hp|Hp].
  { split; [|done]. unfold locals_of. by rewrite lookup_app_l by lia. }
  destruct (Z.leb_spec (localCount v) idx) as [Hge|Hlt].
  { split; [|done]. rewrite lookup_ge_None_2 by lia. done. }
  pose proof (localType_slow v idx Hv Hp) as Hslow.
  pose proof (scan_prefix_rest (localRuns v) 2 (idx - Z.of_nat (length (localParams v)))) as Hpre.
  destruct (scan_prefix _ _) as [t|rem]; [split; [by rewrite <- Hslow, Hpre|done]|].
  destruct (2 * _ <=? _).
  - simpl. rewrite E2. split; [done|]. split; [|done].
    split; simpl; [done|done|done|]. rewrite E2. by right.
  - pose proof (scan_rest_fst 0 (drop 2 (localRuns v)) rem) as Hrest.
    rewrite <- Hslow, Hpre, <- Hrest. destruct (scan_rest _ _ _) as [[t i]|]; simpl; done.
Qed.

Definition sample_lookup : localLookup :=
  {| localParams := [I32]; localRuns := [{| Count := 2; LType := I64 |}; {| Count := 0; LType := F32 |};
       {| Count := 3; LType := F64 |}]; localCount := 6; localRunEnds := []; localLookupWork := 9 |}.

Lemma localType_correct_witness :
  fst (localType sample_lookup 5) = Some F64 /\
  localRunEnds (snd (localType sample_lookup 5)) = [3; 3; 6].
Proof.
  destruct (localType_correct sample_lookup 5) as (E & _); [|lia|].
  - split; [repeat constructor; simpl; lia|reflexivity|simpl; lia|by left].
  - split; [etransitivity; [exact E|]; reflexivity|reflexivity].
Defined.
