(* ===== verification/TypeResolve.v ===== *)
(** * Recursive type indexes are marked and resolved back

    [markRecursiveTypeIndexes] rewrites references into the own recursion group
    to group-relative indexes, [resolveCompTypeRecIndexes] turns them into
    flattened indexes again.  Both traverse a composite type in the same way;
    [map_comp] is that traversal for any map of type indexes. *)

From stdpp Require Import base tactics numbers list.
From Stdlib Require Import ZArith Lia.
From S2P Require Import Prelude Reader ReaderLaws Types TypesLaws Decode DecodeLaws Kinds Instr Module ModuleLaws.
Local Open Scope Z_scope.

(** ** The traversal *)

Section Traversal.
Context (f : TypeIdx -> TypeIdx).

Definition map_ref (rt : RefType) : RefType :=
  let heap := RefType_Heap rt in
  if negb (HeapType_Kind heap =? HeapTypeIndex) then rt
  else RefType_WithHeap rt (IndexedHeap (f (HeapType_Type heap))).

Definition map_val (t : ValType) : ValType :=
  if negb (ValType_Kind t =? ValRef) then t else RefVal (map_ref (ValType_Ref t)).

Definition map_field (ft : FieldType) : FieldType :=
  let storage := FieldType_Storage ft in
  if StorageType_Packed storage then ft
  else NewFieldType (StorageVal (map_val (StorageType_Val storage))) (FieldType_Mut ft).

Definition map_comp (ct : CompType) : CompType :=
  if CKind ct =? CompFunc then
    {| CKind := CKind ct; Array := Array ct; Fields := Fields ct;
       Params := map map_val (Params ct); Results := map map_val (Results ct) |}
  else if CKind ct =? CompStruct then
    {| CKind := CKind ct; Array := Array ct; Fields := map map_field (Fields ct);
       Params := Params ct; Results := Results ct |}
  else if CKind ct =? CompArray then
    {| CKind := CKind ct; Array := map_field (Array ct); Fields := Fields ct;
       Params := Params ct; Results := Results ct |}
  else ct.

(** On the unpacked types. *)
Definition map_heap_ty (h : heap_ty) : heap_ty :=
  match h with HTabs a => HTabs a | HTidx i => HTidx (f i) end.

Definition map_val_ty (t : val_ty) : val_ty :=
  match t with VTref n e h => VTref n e (map_heap_ty h) | _ => t end.

Lemma WithHeap_Ref n e i j :
  RefType_WithHeap (Ref n (IndexedHeap i) e) (IndexedHeap j) = Ref n (IndexedHeap j) e.
Proof. destruct i as [x ri], j as [y rj], n, e, ri, rj; reflexivity. Qed.

Lemma map_val_pack t : val_ty_ok t -> map_val (pack_val t) = pack_val (map_val_ty t).
Proof.
  intros H. unfold map_val. destruct t as [n| | |a|n e h]; cbn [pack_val map_val_ty val_ty_ok] in *.
  - by destruct (newValType_ok ValNum n ltac:(done) H) as (_ & -> & _).
  - done.
  - done.
  - destruct (AbsRef_ok a H) as (Hr & _ & _ & _ & Hh).
    destruct (RefVal_ok _ Hr) as (_ & -> & ->). cbn [negb Z.eqb Pos.eqb ValRef].
    unfold map_ref. rewrite Hh. by destruct (AbsHeap_ok a H) as (_ & -> & _).
  - destruct (Ref_ok n _ e (pack_heap_ok h H)) as (Hr & _ & _ & _ & Hh).
    destruct (RefVal_ok _ Hr) as (_ & -> & ->). cbn [negb Z.eqb Pos.eqb ValRef].
    unfold map_ref. rewrite Hh. destruct h as [a|i]; cbn [pack_heap map_heap_ty heap_ty_ok] in *.
    + by destruct (AbsHeap_ok a H) as (_ & -> & _).
    + destruct (IndexedHeap_ok i H) as (_ & -> & ->).
      cbn [negb Z.eqb Pos.eqb HeapTypeIndex]. by rewrite WithHeap_Ref.
Qed.

Lemma map_field_pack v m :
  val_ok v -> m = Const \/ m = Var ->
  map_field (NewFieldType (StorageVal v) m) = NewFieldType (StorageVal (map_val v)) m.
Proof.
  intros Hv Hm. destruct (StorageVal_ok v Hv) as (Hs & Hp & Hval). unfold map_field.
  destruct (NewFieldType_ok _ m Hs Hm) as (-> & ->). by rewrite Hp, Hval.
Qed.

Lemma map_field_packed p m :
  byte_ok p -> m = Const \/ m = Var ->
  map_field (NewFieldType (StoragePacked p) m) = NewFieldType (StoragePacked p) m.
Proof.
  intros Hb Hm. destruct (StoragePacked_ok p Hb) as (Hs & Hp & _). unfold map_field.
  destruct (NewFieldType_ok _ m Hs Hm) as (-> & _). by rewrite Hp.
Qed.
End Traversal.

Lemma markRecursiveComp_map base limit ct :
  markRecursiveCompTypeIndexes base limit ct = map_comp (markRecursiveTypeIdx base limit) ct.
Proof. reflexivity. Qed.

Lemma resolveComp_map m ct g :
  resolveCompTypeRecIndexes m ct g = map_comp (resolveTypeIdxRecIndex m g) ct.
Proof. reflexivity. Qed.

Lemma map_val_ty_ok f t :
  (forall i, idx_ok i -> idx_ok (f i)) -> val_ty_ok t -> val_ty_ok (map_val_ty f t).
Proof. intros Hf. destruct t as [| | | |n e [|]]; simpl; auto. Qed.

(** Two maps that cancel on the plain indexes cancel on decoded types. *)
Section Cancel.
Context (f g : TypeIdx -> TypeIdx).
Context (Hok : forall i, idx_ok i -> idx_ok (f i)).
Context (Hcancel : forall i, plain_idx i -> g (f i) = i).

Lemma cancel_val v : decoded_val v -> map_val g (map_val f v) = v.
Proof.
  intros (t & Ht & ->). pose proof (val_decodable_ok t Ht) as Hv.
  rewrite map_val_pack by done. rewrite map_val_pack by (by apply map_val_ty_ok).
  f_equal. destruct t as [n| | |a|n e [a|i]]; simpl in *; try done. by rewrite Hcancel.
Qed.

Lemma cancel_field ft : decoded_field ft -> map_field g (map_field f ft) = ft.
Proof.
  intros (s & m & Hs & Hm & ->). destruct Hs as [-> | [-> | Hv]].
  - by rewrite !map_field_packed.
  - by rewrite !map_field_packed.
  - change s with (StorageVal s). pose proof (decoded_val_ok s Hv).
    rewrite map_field_pack by done. rewrite map_field_pack; [by rewrite cancel_val| |done].
    destruct Hv as (t & Ht & ->). rewrite map_val_pack by (by apply val_decodable_ok).
    by apply pack_val_ok, map_val_ty_ok, val_decodable_ok.
Qed.

Lemma cancel_map {A} (P : A -> Prop) (h k : A -> A) l :
  (forall x, P x -> h (k x) = x) -> Forall P l -> map h (map k l) = l.
Proof. intros H. induction 1; simpl; [done|]. by rewrite H, IHForall. Qed.

Lemma cancel_comp ct : comp_decoded ct -> map_comp g (map_comp f ct) = ct.
Proof.
  intros [Hk Ha Hf Hp Hr _]. unfold map_comp at 2. destruct ct as [k a fs ps rs]. simpl in *.
  destruct Hk as [-> | [-> | ->]]; simpl; unfold map_comp; simpl.
  - by rewrite cancel_field by auto.
  - by rewrite (cancel_map decoded_field) by (done || apply cancel_field).
  - by rewrite !(cancel_map decoded_val) by (done || apply cancel_val).
Qed.
End Cancel.

(** ** The type section *)

Lemma mark_from_flat types base group :
  0 <= base -> base + Z.of_nat (length (type_flat 0 types)) < 2 ^ 32 ->
  forall n st g, type_flat group types !! n = Some (st, g) ->
  exists b k gr,
    type_flat group (markRecursiveTypeIndexes_from base types) !! n =
      Some (markRecursiveSubTypeIndexes b (b + Z.of_nat k) st, g) /\
    (group <= g)%nat /\
    type_bases base (markRecursiveTypeIndexes_from base types) !! (g - group)%nat = Some b /\
    markRecursiveTypeIndexes_from base types !! (g - group)%nat = Some gr /\
    length (SubTypes gr) = k /\
    0 <= b /\ b + Z.of_nat k < 2 ^ 32.
Proof.
  revert base group. induction types as [|rt rest IH]; intros base group Hb Ht n st g Hn; [done|].
  assert (Hlen : forall a b, length (type_flat a rest) = length (type_flat b rest)).
  { clear. induction rest as [|x l IHl]; intros a b; simpl; [done|].
    rewrite !length_app, !length_map. by rewrite (IHl (S a) (S b)). }
  simpl in Ht. rewrite length_app, length_map, (Hlen _ 0%nat) in Ht.
  simpl in Hn |- *. rewrite to_u32_small by lia.
  destruct (Nat.lt_ge_cases n (length (SubTypes rt))) as [Hlt|Hge].
  - rewrite lookup_app_l in Hn by (by rewrite length_map).
    rewrite list_lookup_fmap in Hn. destruct (SubTypes rt !! n) as [s|] eqn:Es; [|done].
    injection Hn as -> <-. eexists base, (length (SubTypes rt)), _.
    rewrite Nat.sub_diag, lookup_app_l by (by rewrite !length_map).
    rewrite !list_lookup_fmap, Es. simpl.
    split; [done|]. split; [lia|]. split; [done|]. split; [reflexivity|]. simpl.
    rewrite length_map. split; [done|]. split; [done|lia].
  - rewrite lookup_app_r in Hn by (rewrite length_map; lia). rewrite length_map in Hn.
    destruct (IH (base + Z.of_nat (length (SubTypes rt))) (S group) ltac:(lia) ltac:(lia) _ _ _ Hn)
      as (b & k & gr & H1 & H2 & H3 & H4 & H5 & H6 & H7).
    exists b, k, gr. rewrite lookup_app_r by (rewrite !length_map; lia). rewrite !length_map.
    split; [done|]. split; [lia|].
    replace (g - group)%nat with (S (g - S group)) by lia. simpl. done.
Qed.

Lemma mark_flat_length types base group :
  length (type_flat group (markRecursiveTypeIndexes_from base types)) = length (type_flat group types).
Proof.
  revert base group. induction types as [|rt rest IH]; intros base group; simpl; [done|].
  by rewrite !length_app, !length_map, IH.
Qed.

Lemma mark_idx_ok base limit i :
  0 <= base -> idx_ok i -> idx_ok (markRecursiveTypeIdx base limit i).
Proof.
  unfold markRecursiveTypeIdx, idx_ok, u32_ok. intros Hb Hi.
  destruct (Rec i || _ || _) eqn:E; [done|]. bool_to_prop. simpl. lia.
Qed.

(** A marked index resolves to the index it was marked from. *)
Lemma resolve_mark m g b k gr i :
  typeIndex_bases m !! g = Some b -> Types_ m !! g = Some gr -> length (SubTypes gr) = k ->
  0 <= b -> b + Z.of_nat k < 2 ^ 32 -> plain_idx i ->
  resolveTypeIdxRecIndex m g (markRecursiveTypeIdx b (b + Z.of_nat k) i) = i.
Proof.
  intros Hb Hg Hk Hb0 Hlim [Hi Hr]. unfold u32_ok in Hi. destruct i as [x r]. simpl in *. subst r.
  unfold markRecursiveTypeIdx, resolveTypeIdxRecIndex, flatTypeIdxInRecGroup. simpl.
  destruct ((x <? b) || (b + Z.of_nat k <=? x)) eqn:E; simpl.
  - destruct (Z.of_nat (length (typeIndex_flat m)) <=? x); [done|]. by rewrite to_u32_small by lia.
  - bool_to_prop. rewrite Hg, Hb, to_u32_small by lia.
    replace (Z.of_nat (length (SubTypes gr)) <=? x - b) with false by lia. simpl.
    replace (b + (x - b)) with x by lia. by rewrite to_u32_small by lia.
Qed.

(** Resolving changes nothing where there is no relative index. *)
Lemma resolve_plain m g i : plain_idx i -> resolveTypeIdxRecIndex m g i = i.
Proof.
  intros [Hi Hr]. unfold resolveTypeIdxRecIndex, flatTypeIdxInRecGroup. rewrite Hr. simpl.
  destruct (_ <=? _); [done|]. rewrite to_u32_small by done. destruct i. simpl in *. by subst.
Qed.

Definition marked_module (types : list RecType) : Module_ :=
  {| Customs := []; NameSec_ := None; RawNameSecPayload := [];
     Types_ := markRecursiveTypeIndexes types; Imports := []; FuncTypes := []; Tables := [];
     Memories := []; Tags := []; StringRefs := []; Globals := []; Exports := []; Start := None;
     Elements := []; DataCount := None; Code_ := []; Data_ := []; UsesCompactImports := false;
     BranchHints := [] |}.

Lemma has_rec_index_map f v t :
  v = pack_val t -> val_ty_ok t -> (forall i, idx_ok i -> idx_ok (f i)) ->
  has_rec_index (map_val f v) = false ->
  match t with VTref _ _ (HTidx i) => Rec (f i) = false | _ => True end.
Proof.
  intros -> Ht Hf. destruct t as [| | | |n e [a|i]]; try done. simpl in Ht.
  rewrite map_val_pack by done. unfold has_rec_index.
  cbn [map_val_ty map_heap_ty pack_val pack_heap].
  destruct (Ref_ok n _ e (pack_heap_ok (HTidx (f i)) (Hf i Ht))) as (Hr & _ & _ & _ & Hh).
  cbn [pack_heap] in Hr, Hh. destruct (RefVal_ok _ Hr) as (_ & -> & ->). rewrite Hh.
  by destruct (IndexedHeap_ok (f i) (Hf i Ht)) as (_ & -> & ->).
Qed.

(** When no mark is relative, marking a decoded type changed nothing. *)
Lemma mark_val_id base limit v :
  0 <= base -> decoded_val v ->
  has_rec_index (map_val (markRecursiveTypeIdx base limit) v) = false ->
  map_val (markRecursiveTypeIdx base limit) v = v.
Proof.
  intros Hb (t & Ht & ->) Hr. pose proof (val_decodable_ok t Ht) as Hok.
  assert (Hm : forall i, idx_ok i -> idx_ok (markRecursiveTypeIdx base limit i))
    by (intros; by apply mark_idx_ok).
  pose proof (has_rec_index_map _ _ t eq_refl Hok Hm Hr) as H.
  rewrite map_val_pack by done. f_equal. destruct t as [| | | |n e [a|i]]; try done. simpl.
  unfold markRecursiveTypeIdx in *. by destruct (Rec i || _ || _).
Qed.

Lemma mark_comp_id base limit ct :
  0 <= base -> comp_decoded ct -> CKind ct = CompFunc ->
  funcTypeHasRecIndexes (map_comp (markRecursiveTypeIdx base limit) ct) = false ->
  map_comp (markRecursiveTypeIdx base limit) ct = ct.
Proof.
  intros Hb [_ _ _ Hp Hr _] Hk. unfold map_comp. rewrite Hk. cbn [Z.eqb Pos.eqb CompFunc].
  unfold funcTypeHasRecIndexes. cbn [Params Results].
  intros H. apply orb_false_iff in H as [H1 H2]. destruct ct as [k a fs ps rs].
  cbn [CKind Params Results Array Fields] in *. subst k.
  assert (Hl : forall l, Forall decoded_val l ->
    existsb has_rec_index (map (map_val (markRecursiveTypeIdx base limit)) l) = false ->
    map (map_val (markRecursiveTypeIdx base limit)) l = l).
  { induction 1 as [|v l Hv _ IH]; [done|]. cbn [map existsb]. intros E. apply orb_false_iff in E as [E1 E2].
    by rewrite mark_val_id, IH. }
  by rewrite !Hl.
Qed.

Lemma resolve_marked m types n st g alias :
  Types_ m = markRecursiveTypeIndexes types ->
  Forall rec_decoded types -> Z.of_nat (length (type_flat 0 types)) < 2 ^ 32 ->
  type_flat 0 types !! n = Some (st, g) ->
  resolveTypeFunc m {| Index := Z.of_nat n; Rec := false |} alias =
    (if CKind (Comp st) =? CompFunc then Some (Comp st) else None) /\
  exists st', subtypeByTypeIdxWithRecGroup m
                {| Index := Z.of_nat n; Rec := false |} = Some (st', g) /\
    resolveCompTypeRecIndexes m (Comp st') g = Comp st.
Proof.
  intros Hm Hd Hlen Hn.
  assert (Hst : comp_decoded (Comp st)).
  { clear Hlen Hm. revert n Hn. generalize 0%nat. induction Hd as [|rt rest Hrt _ IH]; intros j n Hn; [done|].
    simpl in Hn. apply lookup_app_Some in Hn as [Hn|[_ Hn]]; [|by eapply IH].
    rewrite list_lookup_fmap in Hn. destruct (SubTypes rt !! n) as [s|] eqn:Es; [|done].
    injection Hn as -> _. apply sd_comp. by eapply Forall_lookup_1 in Es. }
  destruct (mark_from_flat types 0 0 ltac:(lia) ltac:(lia) n st g Hn)
    as (b & k & gr & H1 & _ & H3 & H4 & H5 & H6 & H7). rewrite Nat.sub_0_r in H3, H4.
  change (markRecursiveTypeIndexes_from 0 types) with (markRecursiveTypeIndexes types) in *.
  rewrite <- Hm in H1, H3, H4.
  set (st' := markRecursiveSubTypeIndexes b (b + Z.of_nat k) st) in *.
  assert (Hsub : subtypeByTypeIdxWithRecGroup m {| Index := Z.of_nat n; Rec := false |} = Some (st', g)).
  { rewrite subtypeByTypeIdx_flat by (simpl; lia). simpl. rewrite Nat2Z.id. exact H1. }
  assert (Hres : resolveCompTypeRecIndexes m (Comp st') g = Comp st).
  { rewrite resolveComp_map. unfold st'. simpl. rewrite markRecursiveComp_map.
    apply cancel_comp; [intros; by apply mark_idx_ok| |done].
    intros i Hi. by apply (resolve_mark m g b k gr). }
  split; [|by eexists].
  assert (Hck : CKind (Comp st') = CKind (Comp st)).
  { unfold st'. simpl. rewrite markRecursiveComp_map. unfold map_comp.
    by repeat destruct (CKind (Comp st) =? _). }
  unfold resolveTypeFunc. rewrite Hsub, Hck. destruct (Z.eqb_spec (CKind (Comp st)) CompFunc) as [Ek|]; [|done].
  cbn [negb]. rewrite Hres. destruct alias; [|done]. cbn [andb].
  destruct (funcTypeHasRecIndexes (Comp st')) eqn:Er; [done|]. cbn [negb]. f_equal.
  change (Comp st') with (markRecursiveCompTypeIndexes b (b + Z.of_nat k) (Comp st)) in *.
  rewrite markRecursiveComp_map in *. by apply mark_comp_id.
Qed.

(** C30: recursive type indexes are transparent: in a type section of fewer than
    2^32 types, the signature [resolveTypeFunc] returns for a flattened type index,
    with or without aliasing of the stored slices, is the signature as it was
    decoded, before references into the own group were made relative. *)
Theorem mark_resolve types n st g alias :
  Forall rec_decoded types -> Z.of_nat (length (type_flat 0 types)) < 2 ^ 32 ->
  type_flat 0 types !! n = Some (st, g) ->
  resolveTypeFunc (marked_module types) {| Index := Z.of_nat n; Rec := false |} alias =
    (if CKind (Comp st) =? CompFunc then Some (Comp st) else None) /\
  exists st', subtypeByTypeIdxWithRecGroup (marked_module types)
                {| Index := Z.of_nat n; Rec := false |} = Some (st', g) /\
    resolveCompTypeRecIndexes (marked_module types) (Comp st') g = Comp st.
Proof. by apply resolve_marked. Qed.

(** Two groups: one plain function type, then a group of two functions that refer
    to each other. *)
Definition sample_types : list RecType :=
  let fn ps := {| CKind := CompFunc; Array := zeroWord; Fields := []; Params := ps; Results := [] |} in
  let sub ps := {| Final := true; Supers := []; Metadata := {| Describes := 0; Descriptor := 0 |};
                   Comp := fn ps; HasPrefix := false |} in
  let idx i := pack_val (VTref true false (HTidx {| Index := i; Rec := false |})) in
  [{| SubTypes := [sub [I32]] |}; {| SubTypes := [sub [idx 2; idx 0]; sub [idx 1]] |}].

Lemma mark_resolve_witness :
  (exists st g, type_flat 0 sample_types !! 1%nat = Some (st, g) /\
    resolveTypeFunc (marked_module sample_types) {| Index := 1; Rec := false |} true =
      Some (Comp st)) /\
  (forall st, typeIndex_flat (marked_module sample_types) !! 1%nat = Some (st, 1%nat) ->
    funcTypeHasRecIndexes (Comp st) = true).
Proof.
  split.
  - eexists _, _. split; [reflexivity|].
    edestruct (mark_resolve sample_types 1) as [E _];
      [|vm_compute; reflexivity|reflexivity|exact E].
    assert (Hsub : forall ps, Forall decoded_val ps -> short ps ->
      sub_decoded {| Final := true; Supers := []; Metadata := {| Describes := 0; Descriptor := 0 |};
        Comp := {| CKind := CompFunc; Array := zeroWord; Fields := []; Params := ps; Results := [] |};
        HasPrefix := false |}).
    { intros ps Hps Hs. split; [constructor| |done|done]. split; simpl; auto; discriminate. }
    assert (Hv : forall i, u32_ok i ->
      decoded_val (pack_val (VTref true false (HTidx {| Index := i; Rec := false |})))).
    { intros i Hi. eexists. split; [|reflexivity]. done. }
    assert (H32 : decoded_val I32) by (by exists (VTnum NumI32)).
    constructor; [constructor; [by apply Hsub; [repeat constructor|]|constructor]|].
    constructor; [|constructor]. constructor; [|constructor; [|constructor]]; (apply Hsub; [|done]);
      repeat (constructor; [apply Hv; unfold u32_ok; lia|]); constructor.
  - intros st E. vm_compute in E. injection E as <-. vm_compute. reflexivity.
Defined.
