(* ===== verification/TypeEq.v ===== *)
(** * Structural equality of types (equal.go)

    [equalValType] is equality of types up to the shorthand bit of one-byte
    reference types; [FuncTypeEqual] and [equalCompType] lift it. *)

From stdpp Require Import base tactics numbers list.
From Stdlib Require Import ZArith Lia.
From S2P Require Import Prelude Reader ReaderLaws Types TypesLaws Decode DecodeLaws Kinds Instr Module.
Local Open Scope Z_scope.

(** The type a shorthand stands for. *)
Definition erase (t : val_ty) : val_ty :=
  match t with VTbare a => VTref true false (HTabs a) | _ => t end.

Lemma TypeIdx_eqb_spec a b : TypeIdx_eqb a b = true <-> a = b.
Proof.
  destruct a as [x r], b as [y s]. unfold TypeIdx_eqb. simpl.
  rewrite andb_true_iff, Z.eqb_eq, Bool.eqb_true_iff. split; [by intros [-> ->]|by intros [=]].
Qed.

Lemma AbsHeap_Type a : byte_ok a -> HeapType_Type (AbsHeap a) = zeroIdx.
Proof.
  intros Ha. unfold HeapType_Type, AbsHeap, zeroIdx. cbn [lo hi]. f_equal.
  unfold has_bit. replace (Z.land _ typeRecBit) with 0; [done|]. symmetry.
  apply (within_disjoint (Z.shiftl (Z.ones 8) 8)); [|reflexivity].
  unfold HeapAbs, heapKindShift, heapAbsShift. rewrite Z.shiftl_0_l, Z.lor_0_l.
  apply within_field; [lia|lia|exact Ha].
Qed.

Lemma IndexedHeap_Abs i : HeapType_Abs (IndexedHeap i) = 0.
Proof. unfold IndexedHeap. by destruct (Rec i). Qed.

Lemma equalHeapType_pack a b :
  heap_ty_ok a -> heap_ty_ok b -> equalHeapType (pack_heap a) (pack_heap b) = true <-> a = b.
Proof.
  intros Ha Hb. unfold equalHeapType.
  destruct a as [x|i], b as [y|j]; cbn [pack_heap heap_ty_ok] in *.
  - destruct (AbsHeap_ok x Ha) as (_ & -> & ->), (AbsHeap_ok y Hb) as (_ & -> & ->).
    rewrite !AbsHeap_Type by done. cbn [HeapAbs HeapDefType Z.eqb negb orb].
    destruct (Z.eqb_spec x y) as [->|Hne]; [done|]. split; [done|by intros [=]].
  - destruct (AbsHeap_ok x Ha) as (_ & -> & _), (IndexedHeap_ok j Hb) as (_ & -> & _). done.
  - destruct (AbsHeap_ok y Hb) as (_ & -> & _), (IndexedHeap_ok i Ha) as (_ & -> & _). done.
  - destruct (IndexedHeap_ok i Ha) as (_ & -> & ->), (IndexedHeap_ok j Hb) as (_ & -> & ->).
    rewrite !IndexedHeap_Abs. cbn [HeapTypeIndex HeapDefType Z.eqb Pos.eqb negb orb].
    pose proof (TypeIdx_eqb_spec i j) as Hs. destruct (TypeIdx_eqb i j); cbn [negb].
    + split; [|done]. intros _. f_equal. by apply Hs.
    + split; [done|]. intros [= ->]. by apply Hs.
Qed.

Lemma RefVal_Num rt : ref_ok rt -> ValType_Num (RefVal rt) = 0.
Proof.
  intros [Hw _]. unfold ValType_Num, RefVal. cbn [lo].
  rewrite Z.land_lor_distr_l, (within_disjoint refMask _ _ Hw); done.
Qed.

(** The reference type of a reference. *)
Definition ref_of (t : val_ty) : option (bool * bool * heap_ty) :=
  match t with
  | VTbare a => Some (true, false, HTabs a)
  | VTref n e h => Some (n, e, h)
  | _ => None
  end.

Lemma ref_of_erase t n e h : ref_of t = Some (n, e, h) -> erase t = VTref n e h.
Proof. destruct t; simpl; intros; by simplify_eq. Qed.

Lemma ref_of_view t n e h :
  val_ty_ok t -> ref_of t = Some (n, e, h) ->
  heap_ty_ok h /\ exists rt, pack_val t = RefVal rt /\ ref_ok rt /\
    RefType_Nullable rt = n /\ RefType_Exact rt = e /\ RefType_Heap rt = pack_heap h.
Proof.
  intros Ht. destruct t as [k| | |a|n' e' h']; simpl; try done; intros [= <- <- <-].
  - split; [done|]. exists (AbsRef a). destruct (AbsRef_ok a Ht) as (? & ? & ? & ? & ?). done.
  - split; [done|]. exists (Ref n' (pack_heap h') e').
    destruct (Ref_ok n' _ e' (pack_heap_ok h' Ht)) as (? & ? & ? & ? & ?). done.
Qed.

Lemma nonref_view t :
  val_ty_ok t -> ref_of t = None ->
  ValType_Kind (pack_val t) <> ValRef /\
  forall u, val_ty_ok u -> ref_of u = None ->
    (ValType_Kind (pack_val t) = ValType_Kind (pack_val u) /\
     ValType_Num (pack_val t) = ValType_Num (pack_val u)) <-> t = u.
Proof.
  assert (Hn : forall n, byte_ok n -> ValType_Kind (newValType ValNum n) = ValNum /\
                                     ValType_Num (newValType ValNum n) = n).
  { intros n Hn. by destruct (newValType_ok ValNum n ltac:(done) Hn) as (_ & ? & ?). }
  intros Ht Hr. split.
  - destruct t as [n| | | |]; simpl in *; try done. by destruct (Hn n Ht) as [-> _].
  - intros u Hu Hru. destruct t as [n| | | |], u as [k| | | |]; simpl in *; try done;
      repeat match goal with H : byte_ok ?x |- _ => destruct (Hn x H) as [-> ->]; clear H end;
      split; try done; try (by intros [? _]); try (by intros [= ->]).
    intros [_ ->]. done.
Qed.

(** [equalValType] decides equality of value types up to the encoding
    shorthand: bare [funcref] and explicit [(ref null func)] are equal, and
    nothing else is identified. *)
Theorem equalValType_erase a b :
  val_ty_ok a -> val_ty_ok b ->
  equalValType (pack_val a) (pack_val b) = true <-> erase a = erase b.
Proof.
  intros Ha Hb. unfold equalValType.
  destruct (ref_of a) as [[[n e] h]|] eqn:Ra.
  - destruct (ref_of_view a n e h Ha Ra) as (Hh & rt & Ea & Hrt & Hn & He & Hheap).
    rewrite Ea, RefVal_Num by done. destruct (RefVal_ok rt Hrt) as (_ & -> & ->).
    destruct (ref_of b) as [[[n' e'] h']|] eqn:Rb.
    + destruct (ref_of_view b n' e' h' Hb Rb) as (Hh' & rt' & Eb & Hrt' & Hn' & He' & Hheap').
      rewrite Eb, RefVal_Num by done. destruct (RefVal_ok rt' Hrt') as (_ & -> & ->).
      cbn [ValRef Z.eqb Pos.eqb negb orb]. unfold equalRefType.
      rewrite Hn, Hn', He, He', Hheap, Hheap'.
      rewrite !andb_true_iff, !Bool.eqb_true_iff, equalHeapType_pack by done.
      rewrite (ref_of_erase _ _ _ _ Ra), (ref_of_erase _ _ _ _ Rb).
      split; [by intros [[-> ->] ->]|by intros [=]].
    + destruct (nonref_view b Hb Rb) as [Hk _].
      replace (ValRef =? ValType_Kind (pack_val b)) with false by (symmetry; apply Z.eqb_neq; congruence).
      cbn [negb orb]. split; [done|]. destruct a, b; try done.
  - destruct (nonref_view a Ha Ra) as [Hk Hiff]. destruct (ref_of b) as [[[n' e'] h']|] eqn:Rb.
    + destruct (ref_of_view b n' e' h' Hb Rb) as (Hh' & rt' & Eb & Hrt' & _).
      rewrite Eb. destruct (RefVal_ok rt' Hrt') as (_ & -> & _).
      replace (ValType_Kind (pack_val a) =? ValRef) with false by (symmetry; by apply Z.eqb_neq).
      cbn [negb orb]. split; [done|]. destruct a, b; try done.
    + specialize (Hiff b Hb Rb).
      replace (ValType_Kind (pack_val a) =? ValRef) with false by (symmetry; by apply Z.eqb_neq).
      assert (Herase : erase a = erase b <-> a = b) by (destruct a, b; done).
      rewrite Herase, <- Hiff.
      destruct (Z.eqb_spec (ValType_Kind (pack_val a)) (ValType_Kind (pack_val b))),
        (Z.eqb_spec (ValType_Num (pack_val a)) (ValType_Num (pack_val b))); simpl;
        split; (tauto || done).
Qed.

Lemma equalValType_erase_witness :
  word2_eqb FuncRef (pack_val (VTref true false (HTabs HeapFunc))) = false /\
  equalValType FuncRef (pack_val (VTref true false (HTabs HeapFunc))) = true /\
  equalValType FuncRef (pack_val (VTref false false (HTabs HeapFunc))) = false.
Proof.
  split; [reflexivity|]. split.
  - apply (equalValType_erase (VTbare HeapFunc) (VTref true false (HTabs HeapFunc)));
      [split; vm_compute; congruence|split; vm_compute; congruence|reflexivity].
  - reflexivity.
Defined.

Lemma equal_all_Forall2 {A} (eq : A -> A -> bool) a b :
  length a = length b -> equal_all eq a b = true <-> Forall2 (fun x y => eq x y = true) a b.
Proof.
  revert b. induction a as [|x a IH]; intros [|y b] Hl; try done; simpl.
  rewrite andb_true_iff, IH by (simpl in Hl; lia).
  split; [intros [? ?]; by constructor|by inversion 1].
Qed.

Lemma FuncTypeEqual_spec a b :
  FuncTypeEqual a b = true <->
  CKind a = CompFunc /\ CKind b = CompFunc /\
  Forall2 (fun x y => equalValType x y = true) (Params a) (Params b) /\
  Forall2 (fun x y => equalValType x y = true) (Results a) (Results b).
Proof.
  unfold FuncTypeEqual.
  destruct (Z.eqb_spec (CKind a) CompFunc); cbn [negb orb]; [|by split; [|intros (? & _)]].
  destruct (Z.eqb_spec (CKind b) CompFunc); cbn [negb orb]; [|by split; [|intros (_ & ? & _)]].
  destruct (Nat.eqb_spec (length (Params a)) (length (Params b))); cbn [negb orb].
  2: { split; [done|]. intros (_ & _ & H%Forall2_length & _). done. }
  destruct (Nat.eqb_spec (length (Results a)) (length (Results b))); cbn [negb orb].
  2: { split; [done|]. intros (_ & _ & _ & H%Forall2_length). done. }
  rewrite andb_true_iff, !equal_all_Forall2 by done. tauto.
Qed.
