(* ===== verification/ModuleMeta.v ===== *)
(** * Widths of memory offsets and branch hints of a module

    [moduleMemargWidths] packs the address widths of all memories into a bit set
    (or one flag when they agree); [BranchHintsForFunc] searches the ordered hint
    table by halving.  Both are compared with the plain sequence they stand for. *)

From stdpp Require Import base tactics numbers list.
From Stdlib Require Import ZArith Lia Sorted.
From S2P Require Import Prelude Reader ReaderLaws Types TypesLaws Decode DecodeLaws Kinds Instr Module ModuleLaws.
Local Open Scope Z_scope.

(** ** Memory offset widths *)

Lemma land_pow2 w k : 0 <= k -> negb (Z.land w (2 ^ k) =? 0) = Z.testbit w k.
Proof.
  intros Hk. destruct (Z.testbit w k) eqn:E.
  - apply negb_true_iff, Z.eqb_neq. intros H0. apply (f_equal (fun x => Z.testbit x k)) in H0.
    rewrite Z.land_spec, E, Z.pow2_bits_true, Z.testbit_0_l in H0 by lia. discriminate.
  - apply negb_false_iff, Z.eqb_eq. apply Z.bits_inj'. intros n Hn.
    rewrite Z.land_spec, Z.testbit_0_l. destruct (Z.eq_dec n k) as [->|Hne]; [by rewrite E|].
    by rewrite Z.pow2_bits_false, andb_false_r by lia.
Qed.

Lemma one_bit i : 0 <= i -> to_u64 (Z.shiftl 1 (Z.land i 63)) = 2 ^ (i mod 64).
Proof.
  intros Hi. change 63 with (Z.ones 6). rewrite Z.land_ones by lia. change (2 ^ 6) with 64.
  pose proof (Z.mod_pos_bound i 64 ltac:(lia)).
  rewrite Z.shiftl_1_l. apply to_u64_small. split; [apply Z.pow_nonneg; lia|].
  apply Z.pow_lt_mono_r; lia.
Qed.

(** Bit [j] of the words of the set. *)
Definition set_bit (words : list Z) (j : nat) : bool :=
  match words !! (j / 64)%nat with
  | Some w => Z.testbit w (Z.of_nat j mod 64)
  | None => false
  end.

Lemma offset64_set_bit words i :
  (i / 64 < length words)%nat ->
  offset64 {| multiMemory := true; indexed64 := words; fixed64 := false |} (Z.of_nat i) =
    set_bit words i.
Proof.
  intros Hi. unfold offset64, set_bit. cbn [indexed64 fixed64].
  rewrite Z.shiftr_div_pow2 by lia. change (2 ^ 6) with (Z.of_nat 64).
  rewrite <- Nat2Z.inj_div, Nat2Z.id. destruct (lookup_lt_is_Some_2 _ _ Hi) as [w ->].
  rewrite one_bit by lia. apply land_pow2. apply Z.mod_pos_bound. lia.
Qed.

Lemma widths_fill_length l index words : length (widths_fill l index words) = length words.
Proof.
  revert index words. induction l as [|got l IH]; intros index words; cbn [widths_fill]; [done|].
  rewrite IH. destruct got; [by rewrite length_alter|done].
Qed.

Lemma set_bit_alter words index j :
  (index / 64 < length words)%nat ->
  set_bit (alter (fun w => Z.lor w (to_u64 (Z.shiftl 1 (Z.land (Z.of_nat index) 63))))
             (index / 64)%nat words) j
  = set_bit words j || (j =? index)%nat.
Proof.
  intros Hi. unfold set_bit. rewrite one_bit by lia.
  destruct (Nat.eq_dec (index / 64) (j / 64)) as [E|E].
  - rewrite <- E, list_lookup_alter_eq. destruct (lookup_lt_is_Some_2 _ _ Hi) as [w ->]. simpl.
    rewrite Z.lor_spec. f_equal.
    pose proof (Z.mod_pos_bound (Z.of_nat index) 64 ltac:(lia)).
    pose proof (Z.mod_pos_bound (Z.of_nat j) 64 ltac:(lia)).
    pose proof (Nat.div_mod_eq index 64). pose proof (Nat.div_mod_eq j 64).
    rewrite Z.pow2_bits_eqb by lia.
    change 64 with (Z.of_nat 64). rewrite <- !Nat2Z.inj_mod.
    destruct (Nat.eqb_spec j index) as [->|Hne]; [by rewrite Z.eqb_refl|].
    apply Z.eqb_neq. intros Heq. lia.
  - rewrite list_lookup_alter_ne by done.
    replace (j =? index)%nat with false; [by rewrite orb_false_r|].
    symmetry. apply Nat.eqb_neq. by intros ->.
Qed.

Lemma widths_fill_bit l index words j :
  (index + length l <= 64 * length words)%nat ->
  set_bit (widths_fill l index words) j =
    set_bit words j || ((index <=? j)%nat && bool_decide (l !! (j - index)%nat = Some true)).
Proof.
  revert index words. induction l as [|got l IH]; intros index words Hl; cbn [widths_fill].
  - rewrite lookup_nil. by rewrite bool_decide_false, andb_false_r, orb_false_r.
  - simpl in Hl.
    assert (Hidx : (index / 64 < length words)%nat) by (apply Nat.Div0.div_lt_upper_bound; lia).
    rewrite IH by (destruct got; rewrite ?length_alter; lia).
    assert (Hw : set_bit (if got then alter (fun w => Z.lor w (to_u64 (Z.shiftl 1
                   (Z.land (Z.of_nat index) 63)))) (index / 64)%nat words else words) j
                 = set_bit words j || (got && (j =? index)%nat)).
    { destruct got; [by apply set_bit_alter|by rewrite orb_false_r]. }
    rewrite Hw, <- orb_assoc. f_equal.
    destruct (Nat.leb_spec index j) as [Hle|Hgt]; [|
      replace (S index <=? j)%nat with false by (symmetry; apply Nat.leb_gt; lia);
      replace (j =? index)%nat with false by (symmetry; apply Nat.eqb_neq; lia);
      by rewrite andb_false_r].
    destruct (Nat.eqb_spec j index) as [->|Hne].
    + rewrite Nat.sub_diag. replace (S index <=? index)%nat with false by (symmetry; apply Nat.leb_gt; lia).
      simpl. by destruct got.
    + replace (S index <=? j)%nat with true by (symmetry; apply Nat.leb_le; lia).
      replace (j - index)%nat with (S (j - S index)) by lia. by rewrite andb_false_r.
Qed.

Lemma widths_scan_seen l mixed a c :
  exists mixed' a', widths_scan l true mixed a c = (true, mixed', a', (c + length l)%nat) /\
    (mixed' = false -> mixed = false /\ a' = a /\ Forall (eq a) l).
Proof.
  revert mixed a c. induction l as [|got l IH]; intros mixed a c; simpl.
  - exists mixed, a. rewrite Nat.add_0_r. split; [done|]. intros ->. done.
  - destruct (IH (mixed || negb (Bool.eqb got a)) got (S c)) as (mx & a' & E & H).
    exists mx, a'. rewrite E, Nat.add_succ_r. split; [done|]. intros Hm.
    destruct (H Hm) as (H1 & -> & H2). apply orb_false_iff in H1 as [-> H1].
    apply negb_false_iff, Bool.eqb_prop in H1 as ->. split; [done|]. split; [done|]. by constructor.
Qed.

(** The compact width table is exact: for every memory of the module,
    imported or defined, the width the decoder uses for the offset of a memory
    argument is the address width of that memory's type. *)
Theorem memarg_widths_exact m i mt :
  0 <= i -> Z.of_nat (length (Imports m)) <= 2 ^ 32 ->
  MemoryType m i = Some mt ->
  multiMemory (moduleMemargWidths m) = true /\
  offset64 (moduleMemargWidths m) i = Addr64 (MLimits mt).
Proof.
  intros Hi Hl Hm.
  assert (Hb : mem_addr64s m !! Z.to_nat i = Some (Addr64 (MLimits mt))).
  { unfold MemoryType in Hm. rewrite by_index_spec in Hm by (try done; right; right; by left).
    unfold mem_addr64s. unfold space in Hm.
    replace (map _ (filter _ (Imports m)) ++ _)
      with (map (fun t => Addr64 (MLimits t))
             (map (ExternType_MemType ∘ IType) (filter (fun im => import_kind im = ExternMem) (Imports m))
              ++ Memories m)) by (rewrite map_app, map_map; done).
    rewrite list_lookup_fmap, Hm. done. }
  set (l := mem_addr64s m) in *. set (b := Addr64 (MLimits mt)) in *.
  unfold moduleMemargWidths. fold l. destruct l as [|got l'] eqn:El; [done|].
  cbn [widths_scan]. destruct (widths_scan_seen l' (false || (false && negb (Bool.eqb got false))) got 1)
    as (mixed & a' & E & Huni). rewrite E. cbn [negb]. split; [by destruct mixed|].
  destruct mixed; cbn [negb].
  - rewrite <- (Z2Nat.id i) by done.
    pose proof (lookup_lt_Some _ _ _ Hb) as Hlt. cbn [length] in Hlt.
    pose proof (Nat.div_mod_eq (1 + length l' + 63) 64) as Hd.
    pose proof (Nat.mod_upper_bound (1 + length l' + 63) 64 ltac:(lia)) as Hu.
    rewrite offset64_set_bit.
    + rewrite widths_fill_bit by (rewrite length_replicate; cbn [length]; lia).
      replace (set_bit (replicate _ 0) (Z.to_nat i)) with false.
      2: { unfold set_bit. destruct (replicate _ _ !! _) eqn:Er; [|done].
           apply lookup_replicate in Er as [-> _]. by rewrite Z.testbit_0_l. }
      cbn [orb]. rewrite Nat.sub_0_r, Hb. simpl. by destruct b.
    + rewrite widths_fill_length, length_replicate.
      apply Nat.Div0.div_lt_upper_bound. lia.
  - destruct (Huni eq_refl) as (_ & -> & Hall). unfold offset64. simpl.
    destruct (Z.to_nat i) as [|n]; simpl in Hb; [congruence|].
    apply (Forall_lookup_1 _ _ _ _ Hall Hb).
Qed.

Definition width_module : Module_ :=
  let mem b := {| MLimits := {| Min := 1; Max := 0; HasMax := false; Addr64 := b |}; Shared := false |} in
  {| Customs := []; NameSec_ := None; RawNameSecPayload := []; Types_ := [];
     Imports := [{| IModule := []; IName := []; IType := NewMemExternType (mem false) |}];
     FuncTypes := []; Tables := []; Memories := replicate 64 (mem false) ++ [mem true]; Tags := [];
     StringRefs := []; Globals := []; Exports := []; Start := None; Elements := [];
     DataCount := None; Code_ := []; Data_ := []; UsesCompactImports := false; BranchHints := [] |}.

Lemma memarg_widths_exact_witness :
  offset64 (moduleMemargWidths width_module) 65 = true /\
  indexed64 (moduleMemargWidths width_module) = [0; 2].
Proof.
  split; [|vm_compute; reflexivity].
  eapply (memarg_widths_exact width_module 65); [lia|vm_compute; discriminate|vm_compute; reflexivity].
Defined.

(** ** Branch hints *)

Definition hints_sorted (l : list FuncBranchHints) : Prop :=
  StronglySorted (fun a b => FuncIndex a < FuncIndex b) l.

Lemma hints_scan_skip l1 l2 f :
  Forall (fun h => FuncIndex h < f) l1 -> hints_scan (l1 ++ l2) f = hints_scan l2 f.
Proof.
  induction 1 as [|h l Hh _ IH]; [done|]. simpl.
  replace (FuncIndex h =? f) with false by lia. by replace (f <? FuncIndex h) with false by lia.
Qed.

Lemma hints_scan_stop l1 l2 f h :
  f <= FuncIndex h -> hints_scan (l1 ++ h :: l2) f = hints_scan (l1 ++ [h]) f.
Proof.
  intros Hf. induction l1 as [|x l IH]; simpl.
  - destruct (Z.eqb_spec (FuncIndex h) f); [done|]. by replace (f <? FuncIndex h) with true by lia.
  - by rewrite IH.
Qed.

Lemma sorted_app_lt l1 h l2 :
  hints_sorted (l1 ++ h :: l2) -> Forall (fun x => FuncIndex x < FuncIndex h) l1.
Proof.
  unfold hints_sorted. induction l1 as [|x l IH]; [constructor|]. simpl. intros H. apply StronglySorted_inv in H as [H1 H2].
  constructor; [|by apply IH]. rewrite Forall_app in H2. by destruct H2 as [_ [H2 _]%Forall_cons_1].
Qed.

Lemma hints_sorted_app l1 l2 : hints_sorted (l1 ++ l2) -> hints_sorted l1 /\ hints_sorted l2.
Proof.
  unfold hints_sorted. induction l1 as [|x l IH]; simpl; [split; [constructor|done]|].
  intros H. apply StronglySorted_inv in H as [H1 H2]. apply IH in H1 as [H1 H3].
  split; [|done]. constructor; [done|]. apply Forall_app in H2. tauto.
Qed.

Lemma hints_narrow_spec fuel l f :
  hints_sorted l -> (length l <= fuel)%nat ->
  hints_scan (hints_narrow fuel l f) f = hints_scan l f /\ (length (hints_narrow fuel l f) <= 8)%nat.
Proof.
  revert l. induction fuel as [|fuel IH]; intros l Hs Hf; cbn [hints_narrow].
  - split; [done|lia].
  - destruct (Nat.ltb_spec 8 (length l)) as [Hlt|Hge]; [|split; [done|lia]]. cbv zeta.
    pose proof (Nat.div_mod_eq (length l) 2). pose proof (Nat.mod_upper_bound (length l) 2 ltac:(lia)).
    set (mid := (length l / 2)%nat) in *.
    destruct (lookup_lt_is_Some_2 l mid ltac:(lia)) as [h Hh]. rewrite Hh.
    pose proof (take_drop_middle l mid h Hh) as Hsplit. rewrite <- Hsplit in Hs.
    destruct (hints_sorted_app _ _ Hs) as [Hs1 Hs2].
    destruct (Z.ltb_spec (FuncIndex h) f) as [Hlf|Hgf].
    + destruct (IH (drop (S mid) l)) as [H1 H2]; [by apply StronglySorted_inv in Hs2 as [? _]
        |rewrite length_drop; lia|]. split; [|done]. rewrite H1.
      rewrite <- Hsplit at 2. change (h :: ?x) with ([h] ++ x). rewrite app_assoc.
      symmetry. apply hints_scan_skip. rewrite Forall_app. split; [|by constructor].
      eapply Forall_impl; [by eapply sorted_app_lt|]. simpl. intros; lia.
    + assert (Ht : take (S mid) l = take mid l ++ [h]) by (by rewrite take_S_r with (x := h)).
      destruct (IH (take (S mid) l)) as [H1 H2].
      * rewrite Ht. rewrite <- (app_nil_r [h]).
        change (h :: drop (S mid) l) with ([h] ++ drop (S mid) l) in Hs. rewrite app_assoc in Hs.
        rewrite app_nil_r. by apply hints_sorted_app in Hs as [? _].
      * rewrite length_take. lia.
      * split; [|done]. rewrite H1, Ht. rewrite <- Hsplit at 2. symmetry. by apply hints_scan_stop.
Qed.

Lemma hints_scan_find l f hs :
  hints_sorted l ->
  hints_scan l f = Some hs <-> exists h, h ∈ l /\ FuncIndex h = f /\ Hints h = hs.
Proof.
  induction 1 as [|h l Hs IH Hlt]; simpl.
  - split; [done|]. intros (h & Hin & _). by apply not_elem_of_nil in Hin.
  - destruct (Z.eqb_spec (FuncIndex h) f) as [Heq|Hne].
    + split.
      * intros [= <-]. exists h. split; [left|done].
      * intros (h' & Hin & Hf & <-). apply elem_of_cons in Hin as [->|Hin]; [done|].
        rewrite Forall_forall in Hlt. specialize (Hlt h' Hin). lia.
    + destruct (Z.ltb_spec f (FuncIndex h)) as [Hlf|Hge].
      * split; [done|]. intros (h' & Hin & Hf & _). apply elem_of_cons in Hin as [->|Hin]; [done|].
        rewrite Forall_forall in Hlt. specialize (Hlt h' Hin). lia.
      * rewrite IH. split; intros (h' & Hin & Hrest); exists h'; (split; [|done]).
        -- by right.
        -- apply elem_of_cons in Hin as [->|Hin]; [by destruct Hrest|done].
Qed.

(** The halving search of [BranchHintsForFunc] ends and returns exactly the
    hints listed for the function, in every hint table ordered as the decoder
    requires. *)
Theorem branch_hints_found m f hs :
  hints_sorted (BranchHints m) ->
  BranchHintsForFunc m f = Some hs <->
    exists h, h ∈ BranchHints m /\ FuncIndex h = f /\ Hints h = hs.
Proof.
  intros Hs. unfold BranchHintsForFunc.
  destruct (hints_narrow_spec (length (BranchHints m)) (BranchHints m) f Hs ltac:(lia)) as [-> _].
  by apply hints_scan_find.
Qed.

Definition hints_module : Module_ :=
  {| Customs := []; NameSec_ := None; RawNameSecPayload := []; Types_ := []; Imports := [];
     FuncTypes := []; Tables := []; Memories := []; Tags := []; StringRefs := []; Globals := [];
     Exports := []; Start := None; Elements := []; DataCount := None; Code_ := []; Data_ := [];
     UsesCompactImports := false;
     BranchHints := map (fun i => {| FuncIndex := 2 * Z.of_nat i;
                                     Hints := [{| BHOffset := Z.of_nat i; Likely := true |}] |})
                      (seq 0 20) |}.

Lemma branch_hints_found_witness :
  BranchHintsForFunc hints_module 26 = Some [{| BHOffset := 13; Likely := true |}] /\
  BranchHintsForFunc hints_module 27 = None.
Proof.
  split; [|reflexivity]. apply (branch_hints_found hints_module 26).
  - unfold hints_sorted, hints_module. cbn [BranchHints].
    assert (H : forall n s, StronglySorted (fun a b => FuncIndex a < FuncIndex b)
      (map (fun i => {| FuncIndex := 2 * Z.of_nat i;
              Hints := [{| BHOffset := Z.of_nat i; Likely := true |}] |}) (seq s n))).
    { induction n as [|n IH]; intros s; simpl; constructor; [apply IH|].
      apply Forall_map, Forall_forall. intros x Hx. apply elem_of_seq in Hx. simpl. lia. }
    apply H.
  - exists {| FuncIndex := 26; Hints := [{| BHOffset := 13; Likely := true |}] |}.
    split; [|split; reflexivity]. apply (list_elem_of_lookup_2 _ 13). reflexivity.
Defined.
