(* ===== verification/ModuleDecode.v ===== *)
(** * Decoding a module (validate_bytebacked.go, decode.go, name_section_decode.go,
      branch_hint_section.go)

    The section loop and the decoder of every section.  Function bodies and
    constant expressions keep their bytes; their syntax is checked by the skipper
    ([decodeDirectCodeSectionWithWidths]) or left to validation
    ([decodePendingCodeSection]).  A section is decoded by a cursor of its own
    that shares the budget of the module ([on_sub]).  Loops that end when the
    input does take the bytes left as fuel and are shown not to run out of it. *)

From stdpp Require Import base tactics numbers list.
From Stdlib Require Import ZArith Lia.
From S2P Require Import Prelude Reader ReaderExport Types Decode Kinds Instr Skip Walk Module.
Local Open Scope Z_scope.

(** ** Updates of a module under construction

    [set_F_ v m] is [m.F = v]. *)

Definition set_Customs_ (v : list CustomSec) (m : Module_) : Module_ :=
  {| Customs := v; NameSec_ := NameSec_ m; RawNameSecPayload := RawNameSecPayload m; Types_ :=
     Types_ m; Imports := Imports m; FuncTypes := FuncTypes m; Tables := Tables m; Memories :=
     Memories m; Tags := Tags m; StringRefs := StringRefs m; Globals := Globals m; Exports :=
     Exports m; Start := Start m; Elements := Elements m; DataCount := DataCount m; Code_ :=
     Code_ m; Data_ := Data_ m; UsesCompactImports := UsesCompactImports m; BranchHints :=
     BranchHints m |}.
Definition set_NameSec_ (v : option NameSec) (m : Module_) : Module_ :=
  {| Customs := Customs m; NameSec_ := v; RawNameSecPayload := RawNameSecPayload m; Types_ :=
     Types_ m; Imports := Imports m; FuncTypes := FuncTypes m; Tables := Tables m; Memories :=
     Memories m; Tags := Tags m; StringRefs := StringRefs m; Globals := Globals m; Exports :=
     Exports m; Start := Start m; Elements := Elements m; DataCount := DataCount m; Code_ :=
     Code_ m; Data_ := Data_ m; UsesCompactImports := UsesCompactImports m; BranchHints :=
     BranchHints m |}.
Definition set_RawNameSecPayload_ (v : list Z) (m : Module_) : Module_ :=
  {| Customs := Customs m; NameSec_ := NameSec_ m; RawNameSecPayload := v; Types_ := Types_ m;
     Imports := Imports m; FuncTypes := FuncTypes m; Tables := Tables m; Memories := Memories
     m; Tags := Tags m; StringRefs := StringRefs m; Globals := Globals m; Exports := Exports
     m; Start := Start m; Elements := Elements m; DataCount := DataCount m; Code_ := Code_ m;
     Data_ := Data_ m; UsesCompactImports := UsesCompactImports m; BranchHints := BranchHints
     m |}.
Definition set_Types_ (v : list RecType) (m : Module_) : Module_ :=
  {| Customs := Customs m; NameSec_ := NameSec_ m; RawNameSecPayload := RawNameSecPayload m;
     Types_ := v; Imports := Imports m; FuncTypes := FuncTypes m; Tables := Tables m; Memories
     := Memories m; Tags := Tags m; StringRefs := StringRefs m; Globals := Globals m; Exports
     := Exports m; Start := Start m; Elements := Elements m; DataCount := DataCount m; Code_
     := Code_ m; Data_ := Data_ m; UsesCompactImports := UsesCompactImports m; BranchHints :=
     BranchHints m |}.
Definition set_Imports_ (v : list Import) (m : Module_) : Module_ :=
  {| Customs := Customs m; NameSec_ := NameSec_ m; RawNameSecPayload := RawNameSecPayload m;
     Types_ := Types_ m; Imports := v; FuncTypes := FuncTypes m; Tables := Tables m; Memories
     := Memories m; Tags := Tags m; StringRefs := StringRefs m; Globals := Globals m; Exports
     := Exports m; Start := Start m; Elements := Elements m; DataCount := DataCount m; Code_
     := Code_ m; Data_ := Data_ m; UsesCompactImports := UsesCompactImports m; BranchHints :=
     BranchHints m |}.
Definition set_FuncTypes_ (v : list TypeIdx) (m : Module_) : Module_ :=
  {| Customs := Customs m; NameSec_ := NameSec_ m; RawNameSecPayload := RawNameSecPayload m;
     Types_ := Types_ m; Imports := Imports m; FuncTypes := v; Tables := Tables m; Memories :=
     Memories m; Tags := Tags m; StringRefs := StringRefs m; Globals := Globals m; Exports :=
     Exports m; Start := Start m; Elements := Elements m; DataCount := DataCount m; Code_ :=
     Code_ m; Data_ := Data_ m; UsesCompactImports := UsesCompactImports m; BranchHints :=
     BranchHints m |}.
Definition set_Tables_ (v : list Table) (m : Module_) : Module_ :=
  {| Customs := Customs m; NameSec_ := NameSec_ m; RawNameSecPayload := RawNameSecPayload m;
     Types_ := Types_ m; Imports := Imports m; FuncTypes := FuncTypes m; Tables := v; Memories
     := Memories m; Tags := Tags m; StringRefs := StringRefs m; Globals := Globals m; Exports
     := Exports m; Start := Start m; Elements := Elements m; DataCount := DataCount m; Code_
     := Code_ m; Data_ := Data_ m; UsesCompactImports := UsesCompactImports m; BranchHints :=
     BranchHints m |}.
Definition set_Memories_ (v : list MemType) (m : Module_) : Module_ :=
  {| Customs := Customs m; NameSec_ := NameSec_ m; RawNameSecPayload := RawNameSecPayload m;
     Types_ := Types_ m; Imports := Imports m; FuncTypes := FuncTypes m; Tables := Tables m;
     Memories := v; Tags := Tags m; StringRefs := StringRefs m; Globals := Globals m; Exports
     := Exports m; Start := Start m; Elements := Elements m; DataCount := DataCount m; Code_
     := Code_ m; Data_ := Data_ m; UsesCompactImports := UsesCompactImports m; BranchHints :=
     BranchHints m |}.
Definition set_Tags_ (v : list TagType) (m : Module_) : Module_ :=
  {| Customs := Customs m; NameSec_ := NameSec_ m; RawNameSecPayload := RawNameSecPayload m;
     Types_ := Types_ m; Imports := Imports m; FuncTypes := FuncTypes m; Tables := Tables m;
     Memories := Memories m; Tags := v; StringRefs := StringRefs m; Globals := Globals m;
     Exports := Exports m; Start := Start m; Elements := Elements m; DataCount := DataCount m;
     Code_ := Code_ m; Data_ := Data_ m; UsesCompactImports := UsesCompactImports m;
     BranchHints := BranchHints m |}.
Definition set_Globals_ (v : list Global) (m : Module_) : Module_ :=
  {| Customs := Customs m; NameSec_ := NameSec_ m; RawNameSecPayload := RawNameSecPayload m;
     Types_ := Types_ m; Imports := Imports m; FuncTypes := FuncTypes m; Tables := Tables m;
     Memories := Memories m; Tags := Tags m; StringRefs := StringRefs m; Globals := v; Exports
     := Exports m; Start := Start m; Elements := Elements m; DataCount := DataCount m; Code_
     := Code_ m; Data_ := Data_ m; UsesCompactImports := UsesCompactImports m; BranchHints :=
     BranchHints m |}.
Definition set_Exports_ (v : list Export) (m : Module_) : Module_ :=
  {| Customs := Customs m; NameSec_ := NameSec_ m; RawNameSecPayload := RawNameSecPayload m;
     Types_ := Types_ m; Imports := Imports m; FuncTypes := FuncTypes m; Tables := Tables m;
     Memories := Memories m; Tags := Tags m; StringRefs := StringRefs m; Globals := Globals m;
     Exports := v; Start := Start m; Elements := Elements m; DataCount := DataCount m; Code_
     := Code_ m; Data_ := Data_ m; UsesCompactImports := UsesCompactImports m; BranchHints :=
     BranchHints m |}.
Definition set_Start_ (v : option Z) (m : Module_) : Module_ :=
  {| Customs := Customs m; NameSec_ := NameSec_ m; RawNameSecPayload := RawNameSecPayload m;
     Types_ := Types_ m; Imports := Imports m; FuncTypes := FuncTypes m; Tables := Tables m;
     Memories := Memories m; Tags := Tags m; StringRefs := StringRefs m; Globals := Globals m;
     Exports := Exports m; Start := v; Elements := Elements m; DataCount := DataCount m; Code_
     := Code_ m; Data_ := Data_ m; UsesCompactImports := UsesCompactImports m; BranchHints :=
     BranchHints m |}.
Definition set_Elements_ (v : list Elem) (m : Module_) : Module_ :=
  {| Customs := Customs m; NameSec_ := NameSec_ m; RawNameSecPayload := RawNameSecPayload m;
     Types_ := Types_ m; Imports := Imports m; FuncTypes := FuncTypes m; Tables := Tables m;
     Memories := Memories m; Tags := Tags m; StringRefs := StringRefs m; Globals := Globals m;
     Exports := Exports m; Start := Start m; Elements := v; DataCount := DataCount m; Code_ :=
     Code_ m; Data_ := Data_ m; UsesCompactImports := UsesCompactImports m; BranchHints :=
     BranchHints m |}.
Definition set_DataCount_ (v : option Z) (m : Module_) : Module_ :=
  {| Customs := Customs m; NameSec_ := NameSec_ m; RawNameSecPayload := RawNameSecPayload m;
     Types_ := Types_ m; Imports := Imports m; FuncTypes := FuncTypes m; Tables := Tables m;
     Memories := Memories m; Tags := Tags m; StringRefs := StringRefs m; Globals := Globals m;
     Exports := Exports m; Start := Start m; Elements := Elements m; DataCount := v; Code_ :=
     Code_ m; Data_ := Data_ m; UsesCompactImports := UsesCompactImports m; BranchHints :=
     BranchHints m |}.
Definition set_Code_ (v : list Func) (m : Module_) : Module_ :=
  {| Customs := Customs m; NameSec_ := NameSec_ m; RawNameSecPayload := RawNameSecPayload m;
     Types_ := Types_ m; Imports := Imports m; FuncTypes := FuncTypes m; Tables := Tables m;
     Memories := Memories m; Tags := Tags m; StringRefs := StringRefs m; Globals := Globals m;
     Exports := Exports m; Start := Start m; Elements := Elements m; DataCount := DataCount m;
     Code_ := v; Data_ := Data_ m; UsesCompactImports := UsesCompactImports m; BranchHints :=
     BranchHints m |}.
Definition set_Data_ (v : list Data) (m : Module_) : Module_ :=
  {| Customs := Customs m; NameSec_ := NameSec_ m; RawNameSecPayload := RawNameSecPayload m;
     Types_ := Types_ m; Imports := Imports m; FuncTypes := FuncTypes m; Tables := Tables m;
     Memories := Memories m; Tags := Tags m; StringRefs := StringRefs m; Globals := Globals m;
     Exports := Exports m; Start := Start m; Elements := Elements m; DataCount := DataCount m;
     Code_ := Code_ m; Data_ := v; UsesCompactImports := UsesCompactImports m; BranchHints :=
     BranchHints m |}.
Definition set_UsesCompactImports_ (v : bool) (m : Module_) : Module_ :=
  {| Customs := Customs m; NameSec_ := NameSec_ m; RawNameSecPayload := RawNameSecPayload m;
     Types_ := Types_ m; Imports := Imports m; FuncTypes := FuncTypes m; Tables := Tables m;
     Memories := Memories m; Tags := Tags m; StringRefs := StringRefs m; Globals := Globals m;
     Exports := Exports m; Start := Start m; Elements := Elements m; DataCount := DataCount m;
     Code_ := Code_ m; Data_ := Data_ m; UsesCompactImports := v; BranchHints := BranchHints m
     |}.
Definition set_BranchHints_ (v : list FuncBranchHints) (m : Module_) : Module_ :=
  {| Customs := Customs m; NameSec_ := NameSec_ m; RawNameSecPayload := RawNameSecPayload m;
     Types_ := Types_ m; Imports := Imports m; FuncTypes := FuncTypes m; Tables := Tables m;
     Memories := Memories m; Tags := Tags m; StringRefs := StringRefs m; Globals := Globals m;
     Exports := Exports m; Start := Start m; Elements := Elements m; DataCount := DataCount m;
     Code_ := Code_ m; Data_ := Data_ m; UsesCompactImports := UsesCompactImports m;
     BranchHints := v |}.

(** ** Cursors over a part of the input *)

(** A computation on a fresh cursor over [payload] that shares the budget: its
    value with the cursor it leaves.  A cursor without budget would create one
    of its own. *)
Definition on_sub {A} (payload : list Z) (m : R A) : R (A * reader.t) := fun r =>
  let (o, sub) := m {| reader.data := payload; reader.pos := 0; reader.budget := reader.budget r |} in
  let r' := match reader.budget r with
            | Some _ => {| reader.data := reader.data r; reader.pos := reader.pos r;
                           reader.budget := reader.budget sub |}
            | None => r
            end in
  (match o with Ok a => Ok (a, sub) | Err e => Err e | Panic => Panic end, r').

(** A call whose error is changed on the way out. *)
Definition with_error {A} (f : error -> error) (m : R A) : R A := fun r =>
  match m r with
  | (Err e, r') => (Err (f e), r')
  | x => x
  end.

Definition rebaseDecodeError (base : Z) (e : error) : error :=
  match e with
  | EDecode d => EDecode {| Code := Code d; Offset := Offset d + base; SectionID := SectionID d;
                            SectionStart := SectionStart d; SectionEnd := SectionEnd d |}
  | _ => e
  end.

(** ** Names (name_section_decode.go) *)

Definition sizeof_NameSec : Z := 272.
Definition sizeof_NameAssoc : Z := 24.
Definition sizeof_IndirectNameAssoc : Z := 32.

(** [for i := 1; i < len(l); i++ { if key(l[i]) <= key(l[i-1]) { fail } }] *)
Fixpoint ascending {A} (key : A -> Z) (l : list A) : bool :=
  match l with
  | [] => true
  | x :: l' =>
      match l' with
      | [] => true
      | y :: _ => negb (key y <=? key x) && ascending key l'
      end
  end.

Definition decodeNameMap : R NameMap :=
  let! entries := rd.readMetadataVec sizeof_NameAssoc
                    (let! i := rd.u32 in
                     let! n := rd.name in ret {| NIndex := i; NName := n |}) in
  if ascending NIndex entries then ret entries else fail_at ErrInvalidSection 0.

Definition decodeIndirectNameMap : R IndirectNameMap :=
  let! entries := rd.readMetadataVec sizeof_IndirectNameAssoc
                    (let! i := rd.u32 in
                     let! m := decodeNameMap in ret {| INIndex := i; Names := m |}) in
  if ascending INIndex entries then ret entries else fail_at ErrInvalidSection 0.

Definition zeroNameSec : NameSec :=
  {| ModuleName := None; FunctionNames := []; LocalNames := []; LabelNames := []; TypeNames := [];
     TableNames := []; MemoryNames := []; GlobalNames := []; ElementNames := []; DataNames := [];
     FieldNames := []; TagNames := [] |}.

(** [ns.F = v], for the field that the subsection [id] fills. *)
Definition set_name_map (id : Z) (v : NameMap) (n : NameSec) : NameSec :=
  {| ModuleName := ModuleName n;
     FunctionNames := if id =? 1 then v else FunctionNames n;
     LocalNames := LocalNames n; LabelNames := LabelNames n;
     TypeNames := if id =? 4 then v else TypeNames n;
     TableNames := if id =? 5 then v else TableNames n;
     MemoryNames := if id =? 6 then v else MemoryNames n;
     GlobalNames := if id =? 7 then v else GlobalNames n;
     ElementNames := if id =? 8 then v else ElementNames n;
     DataNames := if id =? 9 then v else DataNames n;
     FieldNames := FieldNames n;
     TagNames := if id =? 11 then v else TagNames n |}.

Definition set_indirect_map (id : Z) (v : IndirectNameMap) (n : NameSec) : NameSec :=
  {| ModuleName := ModuleName n; FunctionNames := FunctionNames n;
     LocalNames := if id =? 2 then v else LocalNames n;
     LabelNames := if id =? 3 then v else LabelNames n;
     TypeNames := TypeNames n; TableNames := TableNames n; MemoryNames := MemoryNames n;
     GlobalNames := GlobalNames n; ElementNames := ElementNames n; DataNames := DataNames n;
     FieldNames := if id =? 10 then v else FieldNames n; TagNames := TagNames n |}.

Definition set_module_name (v : list Z) (n : NameSec) : NameSec :=
  {| ModuleName := Some v; FunctionNames := FunctionNames n; LocalNames := LocalNames n;
     LabelNames := LabelNames n; TypeNames := TypeNames n; TableNames := TableNames n;
     MemoryNames := MemoryNames n; GlobalNames := GlobalNames n; ElementNames := ElementNames n;
     DataNames := DataNames n; FieldNames := FieldNames n; TagNames := TagNames n |}.

(** The switch on the subsection: the new name section and whether it is known. *)
Definition decodeNameSubsection (id : Z) (ns : NameSec) : R (NameSec * bool) :=
  if id =? 0 then let! name := rd.name in ret (set_module_name name ns, true)
  else if (id =? 1) || ((4 <=? id) && (id <=? 9)) || (id =? 11) then
    let! m := decodeNameMap in ret (set_name_map id m ns, true)
  else if (id =? 2) || (id =? 3) || (id =? 10) then
    let! m := decodeIndirectNameMap in ret (set_indirect_map id m ns, true)
  else ret (ns, false).

(** The loop of [decodeNameSecWithBudget]; [prev] is [None] before the first
    subsection. *)
Fixpoint decodeNameSec_loop (fuel : nat) (prev : option Z) (ns : NameSec) : R NameSec :=
  let! r0 := get in
  if negb (reader.has r0) then ret ns
  else
    match fuel with
    | O => panic
    | S fuel' =>
        let! id := rd.byte in
        if match prev with Some p => id <=? p | None => false end
        then fail_at ErrInvalidSection (-1)
        else
          let! size := rd.u32 in
          let! subb := rd.bytes size in
          let! res := on_sub subb (decodeNameSubsection id ns) in
          let '((ns', known), sub) := res in
          if known && reader.has sub then fail_at ErrSectionSizeMismatch (- reader.left sub)
          else decodeNameSec_loop fuel' (Some id) ns'
    end.

Definition decodeNameSecWithBudget : R NameSec :=
  rd.reserveMetadataStorage sizeof_NameSec 1 ;;;
  let! r := get in
  decodeNameSec_loop (length (reader.data r)) None zeroNameSec.

(** Malformed names are dropped, a budget error is not. *)
Definition decodeOptionalNameSec (payload : list Z) : R (option NameSec) := fun r =>
  match on_sub payload decodeNameSecWithBudget r with
  | (Ok (ns, _), r') => (Ok (Some ns), r')
  | (Err (EDecode _), r') => (Ok None, r')
  | (Err e, r') => (Err e, r')
  | (Panic, r') => (Panic, r')
  end.

(** ** Branch hints (branch_hint_section.go) *)

(** "metadata.code.branch_hint" *)
Definition branchHintSectionName : list Z :=
  [109; 101; 116; 97; 100; 97; 116; 97; 46; 99; 111; 100; 101; 46; 98; 114; 97; 110; 99; 104; 95;
   104; 105; 110; 116].

(** "name" *)
Definition nameSectionName : list Z := [110; 97; 109; 101].

Definition sizeof_FuncBranchHints : Z := 32.
Definition sizeof_BranchHint : Z := 8.

Definition decodeBranchHint : R BranchHint :=
  let! offset := rd.u32 in
  let! size := rd.u32 in
  if negb (size =? 1) then fail_at ErrInvalidSection 0
  else
    let! direction := rd.byte in
    if 1 <? direction then fail_at ErrInvalidSection (-1)
    else ret {| BHOffset := offset; Likely := direction =? 1 |}.

Definition decodeBranchHintSectionWithBudget : R (list FuncBranchHints) :=
  let! funcs := rd.readMetadataVec sizeof_FuncBranchHints
    (let! funcIndex := rd.u32 in
     let! hints := rd.readMetadataVec sizeof_BranchHint decodeBranchHint in
     ret {| FuncIndex := funcIndex; Hints := hints |}) in
  let! r := get in
  if reader.has r then fail_at ErrSectionSizeMismatch 0
  else if negb (ascending FuncIndex funcs) then fail_at ErrInvalidSection 0
  else if negb (forallb (fun f => ascending BHOffset (Hints f)) funcs)
  then fail_at ErrInvalidSection 0
  else ret funcs.

(** [validateBranchHints]: every failure is the same error. *)
Definition hintError : error := decode_error ErrInvalidSection 0.

Definition NewModuleInstructionClassifier (m : Module_) (multi : bool)
  : ModuleInstructionClassifier := {| cwidths := moduleMemargWidths m; cmultiMemory := multi |}.

(** [if err != nil { return &DecodeError{Code: ErrInvalidSection} }] *)
Definition as_hint_error {A} (o : outcome error A) : outcome error A :=
  match o with Err _ => Err hintError | _ => o end.

(** [op, err := r.Byte()] and [classifier.ClassifyInto(r, op, &imm)] *)
Definition hint_op (s : WState) : outcome error Z * WState :=
  let (o, x) := Reader_.Byte (fst s) in (as_hint_error o, (x, snd s)).

Definition hint_imm (c : ModuleInstructionClassifier) (op : Z) (s : WState)
  : outcome error unit * WState :=
  let (o, s') := ClassifyInto c op s in (as_hint_error o, s').

(** [for r.Offset() < want] *)
Fixpoint hint_walk (fuel : nat) (c : ModuleInstructionClassifier) (want : Z) : W unit :=
  let! s := get in
  if Reader_.Offset_ (fst s) <? want then
    match fuel with
    | O => panic
    | S fuel' =>
        let! op := hint_op in
        hint_imm c op ;;;
        hint_walk fuel' c want
    end
  else ret tt.

Definition hint_check (c : ModuleInstructionClassifier) (declBytes : Z) (hint : BranchHint) : W unit :=
  let want := BHOffset hint - declBytes in
  if want <? 0 then fail hintError
  else
    let! s0 := get in
    hint_walk (S (length (Reader_.data (fst s0)))) c want ;;;
    let! s := get in
    if negb (Reader_.Offset_ (fst s) =? want) then fail hintError
    else
      let! op := hint_op in
      if negb (op =? 0x04) && negb (op =? 0x0d) then fail hintError
      else hint_imm c op.

Definition validateFuncHints (m : Module_) (funcs : FuncBranchHints) : outcome error unit :=
  let imported := ImportedFuncCount m in
  if FuncIndex funcs <? to_u32 imported then Err hintError
  else
    let localIndex := FuncIndex funcs - imported in
    if (localIndex <? 0) || (Z.of_nat (length (Code_ m)) <=? localIndex) then Err hintError
    else
      match Code_ m !! Z.to_nat localIndex with
      | None => Panic
      | Some fn =>
          fst (forM (Hints funcs)
                 (hint_check (NewModuleInstructionClassifier m true) (LocalDeclBytes fn))
                 (Reader_.NewReader (FBodyBytes fn), zeroImm))
      end.

Fixpoint validateBranchHints_loop (m : Module_) (l : list FuncBranchHints) : outcome error unit :=
  match l with
  | [] => Ok tt
  | f :: rest =>
      match validateFuncHints m f with
      | Ok _ => validateBranchHints_loop m rest
      | Err e => Err e
      | Panic => Panic
      end
  end.

Definition validateBranchHints (m : Module_) : outcome error unit :=
  validateBranchHints_loop m (BranchHints m).

(** ** Expressions kept as bytes *)

(** The loop of [readDirectConstExprBytes]: it leaves the cursor after the [end]
    of the expression. *)
Fixpoint skipConstExpr (fuel : nat) (depth : Z) : R unit :=
  let! r := get in
  if negb (reader.has r) then fail_at ErrSectionSizeMismatch 0
  else
    match fuel with
    | O => panic
    | S fuel' =>
        let! op := skipExprOp in
        match op with
        | directBlock | directLoop | directIf | directTryTable =>
            if maxInstructionNestingDepth <? depth + 1
            then fail_at ErrInstructionNestingLimitExceeded 0
            else skipConstExpr fuel' (depth + 1)
        | directEnd => if depth =? 0 then ret tt else skipConstExpr fuel' (depth - 1)
        | _ => skipConstExpr fuel' depth
        end
    end.

(** [r.data[start:r.off()]] *)
Definition taken (start : nat) (r : reader.t) : list Z :=
  take (reader.pos r - start) (drop start (reader.data r)).

Definition readDirectConstExprBytes : R (list Z) :=
  let! r0 := get in
  skipConstExpr (length (reader.data r0)) 0 ;;;
  let! r := get in
  ret (taken (reader.pos r0) r).

Definition sizeof_Expr : Z := 48.

Definition readDirectConstExprVec : R (list (list Z)) :=
  let! n := rd.u32 in
  rd.reserveDecodedSlice sizeof_Expr n ;;;
  repeatM (Z.to_nat n) readDirectConstExprBytes.

Definition directExpr (body : list Z) : Expr := {| Instrs := []; BodyBytes := body |}.

(** ** The module under construction *)

Record directElem : Set := {
  deMode : Z;
  deTable : Z;
  deOffset : list Z;
  deKind : Z;
  deRef : RefType;
  deHasFuncs : bool;
  deMaxFunc : Z;
  deFuncs : list Z;
  deLen : Z;
  deExprs : list (list Z)
}.

Definition zeroElem : directElem :=
  {| deMode := ElemPassive; deTable := 0; deOffset := []; deKind := ElemFuncs; deRef := zeroWord;
     deHasFuncs := false; deMaxFunc := 0; deFuncs := []; deLen := 0; deExprs := [] |}.

Record directValidationEnv : Set := {
  tableHasInit : list bool;
  tableInits : list (list Z);
  globalInits : list (list Z);
  elements : list directElem
}.

Record directModule : Set := {
  dm : Module_;
  direct_ : directValidationEnv;
  seenName : bool;
  seenBranchHints : bool;
  seenCode : bool;
  usesDataCountInstr : bool
}.

Definition with_dm (f : Module_ -> Module_) (d : directModule) : directModule :=
  {| dm := f (dm d); direct_ := direct_ d; seenName := seenName d;
     seenBranchHints := seenBranchHints d; seenCode := seenCode d;
     usesDataCountInstr := usesDataCountInstr d |}.

Definition with_env (f : directValidationEnv -> directValidationEnv) (d : directModule)
  : directModule :=
  {| dm := dm d; direct_ := f (direct_ d); seenName := seenName d;
     seenBranchHints := seenBranchHints d; seenCode := seenCode d;
     usesDataCountInstr := usesDataCountInstr d |}.

Definition zeroDirectModule : directModule :=
  {| dm := zeroModule;
     direct_ := {| tableHasInit := []; tableInits := []; globalInits := []; elements := [] |};
     seenName := false; seenBranchHints := false; seenCode := false; usesDataCountInstr := false |}.

(** ** Sections (decode.go) *)

Definition secCustom : Z := 0.
Definition secType : Z := 1.
Definition secImport : Z := 2.
Definition secFunction : Z := 3.
Definition secTable : Z := 4.
Definition secMemory : Z := 5.
Definition secGlobal : Z := 6.
Definition secExport : Z := 7.
Definition secStart : Z := 8.
Definition secElement : Z := 9.
Definition secCode : Z := 10.
Definition secData : Z := 11.
Definition secDataCount : Z := 12.
Definition secTag : Z := 13.

Definition sectionOrder : list (Z * Z) :=
  [(secType, 1); (secImport, 2); (secFunction, 3); (secTable, 4); (secMemory, 5); (secTag, 6);
   (secGlobal, 7); (secExport, 8); (secStart, 9); (secElement, 10); (secDataCount, 11);
   (secCode, 12); (secData, 13)].

Fixpoint assoc (l : list (Z * Z)) (x : Z) : option Z :=
  match l with
  | [] => None
  | (k, v) :: l' => if x =? k then Some v else assoc l' x
  end.

Definition lookupSectionOrder (id : Z) : option Z := assoc sectionOrder id.

(** The cases of [decodeSection] for the sections that hold no expression; its
    custom case is [decodeDirectCustomSection] here. *)
Definition decodeSection (m : Module_) (id : Z) : R Module_ :=
  if id =? secType then
    let! v := decodeTypeSection in ret (set_Types_ (markRecursiveTypeIndexes v) m)
  else if id =? secImport then
    let! v := decodeImports in
    ret (set_UsesCompactImports_ (snd v) (set_Imports_ (fst v) m))
  else if id =? secFunction then
    let! v := rd.readVec sizeof_TypeIdx decodeTypeIdx in ret (set_FuncTypes_ v m)
  else if id =? secMemory then
    let! v := rd.readVec sizeof_MemType decodeMemType in ret (set_Memories_ v m)
  else if id =? secTag then
    let! v := rd.readVec sizeof_TagType decodeTagType in ret (set_Tags_ v m)
  else if id =? secExport then
    let! v := rd.readVec sizeof_Export decodeExport in ret (set_Exports_ v m)
  else if id =? secStart then
    let! i := rd.u32 in ret (set_Start_ (Some i) m)
  else if id =? secDataCount then
    let! c := rd.u32 in ret (set_DataCount_ (Some c) m)
  else fail_at ErrInvalidSection 0.

(** ** Custom sections *)

Definition decodeDirectCustomSection (d : directModule) : R directModule :=
  rd.reserve 1 512 ;;;
  let! name := rd.name in
  let! r0 := get in
  rd.reserve (reader.left r0) 2 ;;;
  let! r1 := get in
  let! payload := rd.bytes (reader.left r1) in
  let firstName := bool_decide (name = nameSectionName) && negb (seenName d) in
  let! d1 :=
    (if firstName then
       let! ns := decodeOptionalNameSec payload in
       ret {| dm := set_NameSec_ ns (dm d); direct_ := direct_ d; seenName := true;
              seenBranchHints := seenBranchHints d; seenCode := seenCode d;
              usesDataCountInstr := usesDataCountInstr d |}
     else ret d) in
  let! d2 :=
    (if bool_decide (name = branchHintSectionName) then
       if seenBranchHints d1 || seenCode d1 then fail_at ErrInvalidSection 0
       else
         let! r := get in
         let! hints := with_error
                         (rebaseDecodeError (reader.off r - Z.of_nat (length payload)))
                         (on_sub payload decodeBranchHintSectionWithBudget) in
         ret {| dm := set_BranchHints_ (fst hints) (dm d1); direct_ := direct_ d1;
                seenName := seenName d1; seenBranchHints := true; seenCode := seenCode d1;
                usesDataCountInstr := usesDataCountInstr d1 |}
     else ret d1) in
  let d3 := if firstName then with_dm (set_RawNameSecPayload_ payload) d2 else d2 in
  ret (with_dm (fun m => set_Customs_ (Customs m ++ [{| CSName := name; CSData := payload |}]) m) d3).

(** ** Tables, globals, data, elements *)

Definition sizeof_Table : Z := 48.
Definition sizeof_Global : Z := 72.
Definition sizeof_Data : Z := 80.
Definition sizeof_Elem : Z := 128.
Definition sizeof_FuncIdx : Z := 4.
Definition sizeof_Func : Z := 104.

(** An entry of the table section: its type, and its initializer in the long
    form. *)
Definition decodeDirectTable : R (TableType * option (list Z)) :=
  let! o := peekM in
  if peek_is (fun b => b =? 0x40) o then
    rd.byte ;;;
    let! o2 := peekM in
    if negb (peek_is (fun b => b =? 0x00) o2) then fail_at ErrInvalidType 0
    else
      rd.byte ;;;
      let! tt_ := decodeTableType in
      let! init := readDirectConstExprBytes in
      ret (tt_, Some init)
  else
    let! tt_ := decodeTableType in ret (tt_, None).

Definition decodeDirectTableSection (d : directModule) : R directModule :=
  let! n := rd.u32 in
  rd.reserveDecodedSlice sizeof_Table n ;;;
  let! ts := repeatM (Z.to_nat n) decodeDirectTable in
  ret (with_env (fun e => {| tableHasInit := map (fun t => bool_decide (is_Some (snd t))) ts;
                             tableInits := map (fun t => from_option id [] (snd t)) ts;
                             globalInits := globalInits e; elements := elements e |})
        (with_dm (set_Tables_ (map (fun t => {| TType := fst t; TInit := None |}) ts)) d)).

Definition decodeDirectGlobal : R (GlobalType * list Z) :=
  let! gt := decodeGlobalType in
  let! init := readDirectConstExprBytes in
  ret (gt, init).

Definition decodeDirectGlobalSection (d : directModule) : R directModule :=
  let! n := rd.u32 in
  rd.reserveDecodedSlice sizeof_Global n ;;;
  let! gs := repeatM (Z.to_nat n) decodeDirectGlobal in
  ret (with_env (fun e => {| tableHasInit := tableHasInit e; tableInits := tableInits e;
                             globalInits := map snd gs; elements := elements e |})
        (with_dm (set_Globals_ (map (fun g => {| GTy := fst g; GInit := zeroExpr |}) gs)) d)).

(** The mode, the offset expression and the bytes of a data segment. *)
Definition decodeDirectData : R (Data * list Z) :=
  let! flags := rd.u32 in
  let! mo :=
    (if flags =? 0 then
       let! e := readDirectConstExprBytes in
       ret ({| DMKind := DataActive; DMMem := 0; DMOffset := zeroExpr |}, e)
     else if flags =? 1 then
       ret ({| DMKind := DataPassive; DMMem := 0; DMOffset := zeroExpr |}, [])
     else if flags =? 2 then
       let! mi := rd.u32 in
       let! e := readDirectConstExprBytes in
       ret ({| DMKind := DataActive; DMMem := mi; DMOffset := zeroExpr |}, e)
     else fail_at ErrInvalidSection 0) in
  let! n := rd.u32 in
  let! init := rd.bytes n in
  ret ({| DMode := fst mo; DInit := init |}, snd mo).

(** [if d.Mode.Kind == DataActive { d.Mode.Offset = directExpr(off) }] *)
Definition placeData (p : Data * list Z) : Data :=
  let (d, off) := p in
  if DMKind (DMode d) =? DataActive then
    {| DMode := {| DMKind := DMKind (DMode d); DMMem := DMMem (DMode d);
                   DMOffset := directExpr off |};
       DInit := DInit d |}
  else d.

Definition decodeDirectDataSection (d : directModule) : R directModule :=
  let! n := rd.u32 in
  rd.reserveDecodedSlice sizeof_Data n ;;;
  let! r := get in
  if reader.left r / 2 <? n then fail_at ErrIndexOutOfBounds 0
  else
    let! ds := repeatM (Z.to_nat n) decodeDirectData in
    ret (with_dm (set_Data_ (map placeData ds)) d).

Definition readElemKind : R unit :=
  let! b := rd.byte in
  if negb (b =? 0) then fail_at ErrInvalidType (-1) else ret tt.

(** The running maximum of [readDirectFuncIdxSummary]: [(hasFuncs, maxFunc)]. *)
Fixpoint funcs_max (acc : bool * Z) (l : list Z) : bool * Z :=
  match l with
  | [] => acc
  | x :: l' => funcs_max (if negb (fst acc) || (snd acc <? x) then (true, x) else acc) l'
  end.

Definition readDirectFuncIdxSummary : R (list Z) :=
  let! n := rd.u32 in
  rd.reserveDecodedSlice sizeof_FuncIdx n ;;;
  repeatM (Z.to_nat n) rd.u32.

Definition funcsElem (mode table : Z) (off : list Z) (funcs : list Z) : directElem :=
  {| deMode := mode; deTable := table; deOffset := off; deKind := ElemFuncs; deRef := zeroWord;
     deHasFuncs := fst (funcs_max (false, 0) funcs); deMaxFunc := snd (funcs_max (false, 0) funcs);
     deFuncs := funcs; deLen := Z.of_nat (length funcs); deExprs := [] |}.

Definition exprsElem (mode table : Z) (off : list Z) (kind : Z) (ref : RefType)
  (exprs : list (list Z)) : directElem :=
  {| deMode := mode; deTable := table; deOffset := off; deKind := kind; deRef := ref;
     deHasFuncs := false; deMaxFunc := 0; deFuncs := [];
     deLen := to_u32 (Z.of_nat (length exprs)); deExprs := exprs |}.

Definition decodeDirectElem : R directElem :=
  let! flags := rd.u32 in
  if flags =? 0 then
    let! off := readDirectConstExprBytes in
    let! fs := readDirectFuncIdxSummary in ret (funcsElem ElemActive 0 off fs)
  else if flags =? 1 then
    readElemKind ;;;
    let! fs := readDirectFuncIdxSummary in ret (funcsElem ElemPassive 0 [] fs)
  else if flags =? 2 then
    let! t := rd.u32 in
    let! off := readDirectConstExprBytes in
    readElemKind ;;;
    let! fs := readDirectFuncIdxSummary in ret (funcsElem ElemActive t off fs)
  else if flags =? 3 then
    readElemKind ;;;
    let! fs := readDirectFuncIdxSummary in ret (funcsElem ElemDeclarative 0 [] fs)
  else if flags =? 4 then
    let! off := readDirectConstExprBytes in
    let! es := readDirectConstExprVec in
    ret (exprsElem ElemActive 0 off ElemFuncExprs zeroWord es)
  else if flags =? 5 then
    let! rt := decodeRefType in
    let! es := readDirectConstExprVec in
    ret (exprsElem ElemPassive 0 [] ElemTypedExprs rt es)
  else if flags =? 6 then
    let! t := rd.u32 in
    let! off := readDirectConstExprBytes in
    let! rt := decodeRefType in
    let! es := readDirectConstExprVec in
    ret (exprsElem ElemActive t off ElemTypedExprs rt es)
  else if flags =? 7 then
    let! rt := decodeRefType in
    let! es := readDirectConstExprVec in
    ret (exprsElem ElemDeclarative 0 [] ElemTypedExprs rt es)
  else fail_at ErrInvalidSection 0.

(** The [Elem] of the module: mode and kind without expressions. *)
Definition elemHeader (e : directElem) : Elem :=
  {| EMode := {| EMKind := deMode e; EMTable := deTable e; EMOffset := zeroExpr |};
     EElems := {| EKKind := deKind e; EKFuncs := []; EKRef := deRef e; EKExprs := [] |} |}.

Definition decodeDirectElementSection (d : directModule) : R directModule :=
  let! n := rd.u32 in
  rd.reserveDecodedSlice sizeof_Elem n ;;;
  let! es := repeatM (Z.to_nat n) decodeDirectElem in
  ret (with_env (fun e => {| tableHasInit := tableHasInit e; tableInits := tableInits e;
                             globalInits := globalInits e; elements := es |})
        (with_dm (set_Elements_ (map elemHeader es)) d)).

(** ** Code *)

Record exprSkipFrame : Set := { fkind : directOpKind; seenElse : bool }.

(** The instructions that need a data count section. *)
Definition usesDataCount (k : Z) : bool :=
  (k =? InstrMemoryInit) || (k =? InstrDataDrop) || (k =? InstrArrayNewData)
  || (k =? InstrArrayInitData).

(** The loop of [readDirectFuncExprBytes]; the top of the stack is the head. *)
Fixpoint skipFuncExpr (fuel : nat) (stack : list exprSkipFrame) (uses : bool)
  (widths : memargWidths) (multi : bool) : R bool :=
  let! r := get in
  if negb (reader.has r) then fail_at ErrSectionSizeMismatch 0
  else
    match fuel with
    | O => panic
    | S fuel' =>
        let! opcode := rd.byte in
        fun r1 =>
        match classifyExprOpAfterOpcodeWithWidths opcode widths multi (r1, zeroImm) with
        | (Err e, s) => (Err e, fst s)
        | (Panic, s) => (Panic, fst s)
        | (Ok op, (r2, imm)) =>
            let uses := uses || usesDataCount (mKind imm) in
            (match op with
             | directBlock | directLoop | directIf | directTryTable =>
                 if maxInstructionNestingDepth <=? Z.of_nat (length stack)
                 then fail_at ErrInstructionNestingLimitExceeded 0
                 else skipFuncExpr fuel' ({| fkind := op; seenElse := false |} :: stack) uses
                        widths multi
             | directElse =>
                 match stack with
                 | [] => fail_at ErrInvalidInstruction (-1)
                 | top :: rest =>
                     if negb (bool_decide (fkind top = directIf)) || seenElse top
                     then fail_at ErrInvalidInstruction (-1)
                     else skipFuncExpr fuel' ({| fkind := fkind top; seenElse := true |} :: rest)
                            uses widths multi
                 end
             | directEnd =>
                 match stack with
                 | [] => ret uses
                 | _ :: rest => skipFuncExpr fuel' rest uses widths multi
                 end
             | directInstr => skipFuncExpr fuel' stack uses widths multi
             end) r2
        end
    end.

Definition readDirectFuncExprBytes (widths : memargWidths) (multi : bool) : R (list Z * bool) :=
  let! r0 := get in
  let! uses := skipFuncExpr (length (reader.data r0)) [] false widths multi in
  let! r := get in
  ret (taken (reader.pos r0) r, uses).

(** One body: its size, then locals and expression on a cursor of its own. *)
Definition decodeDirectBody (widths : memargWidths) (multi : bool) : R (Func * bool) :=
  let! size := rd.u32 in
  let! body := rd.bytes size in
  let! r := get in
  let bodyStart := reader.off r - Z.of_nat (length body) in
  let! res := with_error (rebaseDecodeError bodyStart)
    (on_sub body (let! locals := decodeLocals in
                  let! ex := readDirectFuncExprBytes widths multi in
                  ret (locals, ex))) in
  let '((locals, (exprBytes, uses)), sub) := res in
  if reader.has sub then fail (decode_error ErrSectionSizeMismatch (bodyStart + reader.off sub))
  else
    ret ({| FLocals := locals; FBody := zeroExpr;
            LocalDeclBytes := to_u32 (reader.off sub - Z.of_nat (length exprBytes));
            FBodyBytes := exprBytes |}, uses).

Definition decodeDirectCodeSectionWithWidths (widths : memargWidths) (multi : bool)
  : R (list Func * bool) :=
  let! n := rd.u32 in
  rd.reserveDecodedSlice sizeof_Func n ;;;
  let! r := get in
  rd.reserve (Z.min (reader.left r) maxInstructionNestingDepth) 32 ;;;
  let! fs := repeatM (Z.to_nat n) (decodeDirectBody widths multi) in
  ret (map fst fs, existsb snd fs).

(** [coalesceCompilerLocalRuns]: [cur] is the run under construction. *)
Fixpoint coalesce_from (cur : LocalRun) (runs : list LocalRun) : list LocalRun :=
  match runs with
  | [] => [cur]
  | r :: rest =>
      if word2_eqb (LType cur) (LType r)
      then coalesce_from {| Count := to_u32 (Count cur + Count r); LType := LType cur |} rest
      else cur :: coalesce_from r rest
  end.

Definition coalesceCompilerLocalRuns (runs : list LocalRun) : list LocalRun :=
  match runs with
  | [] => []
  | r :: rest => coalesce_from r rest
  end.

Definition decodePendingBody : R Func :=
  let! size := rd.u32 in
  let! body := rd.bytes size in
  let! r := get in
  let start := reader.off r - Z.of_nat (length body) in
  let! res := with_error (rebaseDecodeError start) (on_sub body decodeLocals) in
  let (locals, sub) := res in
  let runs := if (1 <? length locals)%nat then coalesceCompilerLocalRuns locals else locals in
  if negb (reader.has sub) then fail (decode_error ErrSectionSizeMismatch (start + reader.off sub))
  else
    (* sub.bytes(sub.left()) takes what is left and cannot fail *)
    ret {| FLocals := runs; FBody := zeroExpr; LocalDeclBytes := to_u32 (reader.off sub);
           FBodyBytes := drop (reader.pos sub) (reader.data sub) |}.

Definition decodePendingCodeSection : R (list Func) :=
  let! count := rd.u32 in
  rd.reserveDecodedSlice sizeof_Func count ;;;
  let! r := get in
  rd.reserve (Z.min (reader.left r) maxInstructionNestingDepth) 32 ;;;
  repeatM (Z.to_nat count) decodePendingBody.

(** ** The section loop *)

Definition decodeDirectSection (multi deferCodeBodies : bool) (d : directModule) (id : Z)
  : R directModule :=
  if id =? secCustom then decodeDirectCustomSection d
  else if id =? secTable then decodeDirectTableSection d
  else if id =? secGlobal then decodeDirectGlobalSection d
  else if id =? secElement then decodeDirectElementSection d
  else if id =? secCode then
    let! cu :=
      (if deferCodeBodies then let! c := decodePendingCodeSection in ret (c, usesDataCountInstr d)
       else decodeDirectCodeSectionWithWidths (moduleMemargWidths (dm d)) multi) in
    ret {| dm := set_Code_ (fst cu) (dm d); direct_ := direct_ d; seenName := seenName d;
           seenBranchHints := seenBranchHints d; seenCode := true; usesDataCountInstr := snd cu |}
  else if id =? secData then decodeDirectDataSection d
  else let! m := decodeSection (dm d) id in ret (with_dm (fun _ => m) d).

(** The error of a section, moved to the offsets of the file. *)
Definition section_error (id start end_ : Z) (e : error) : error :=
  match e with
  | EDecode d => EDecode {| Code := Code d; Offset := Offset d + start; SectionID := id;
                            SectionStart := start; SectionEnd := end_ |}
  | _ => e
  end.

(** The state of the loop: the module, [lastOrder] and [seen]. *)
Record loopState : Set := { lsModule : directModule; lastOrder : Z; seen : Z }.

(** The checks on a section that is not custom. *)
Definition checkSection (id start end_ : Z) (st : loopState) : R loopState :=
  let err code :=
    fail (EDecode {| Code := code; Offset := start - 1; SectionID := id; SectionStart := start;
                     SectionEnd := end_ |}) in
  if id =? secCustom then ret st
  else
    match lookupSectionOrder id with
    | None => err ErrInvalidSection
    | Some ord =>
        if ord <? lastOrder st then err ErrSectionOrder
        else
          let bit := to_u16 (Z.shiftl 1 id) in
          if negb (Z.land (seen st) bit =? 0) then err ErrDuplicateSection
          else ret {| lsModule := lsModule st; lastOrder := ord; seen := Z.lor (seen st) bit |}
    end.

(** One round of the loop. *)
Definition decodeOneSection (multi deferCodeBodies : bool) (st : loopState) : R loopState :=
  let! id := rd.byte in
  let! size := rd.u32 in
  let! r0 := get in
  let start := reader.off r0 in
  let! payload := rd.bytes size in
  let! r1 := get in
  let end_ := reader.off r1 in
  let! st1 := checkSection id start end_ st in
  let! res := with_error (section_error id start end_)
                (on_sub payload (decodeDirectSection multi deferCodeBodies (lsModule st1) id)) in
  let (d, sub) := res in
  if reader.has sub then
    fail (EDecode {| Code := ErrSectionSizeMismatch; Offset := start + reader.off sub;
                     SectionID := id; SectionStart := start; SectionEnd := end_ |})
  else ret {| lsModule := d; lastOrder := lastOrder st1; seen := seen st1 |}.

Fixpoint decodeSections (fuel : nat) (multi deferCodeBodies : bool) (st : loopState) : R loopState :=
  let! r := get in
  if negb (reader.has r) then ret st
  else
    match fuel with
    | O => panic
    | S fuel' =>
        let! st' := decodeOneSection multi deferCodeBodies st in
        decodeSections fuel' multi deferCodeBodies st'
    end.

Definition magicBytes : list Z := [0; 97; 115; 109].

(** The checks across sections. *)
Definition checkModule (size : Z) (d : directModule) : outcome error directModule :=
  let bad := Err (decode_error ErrInvalidModule size) in
  if negb (length (FuncTypes (dm d)) =? length (Code_ (dm d)))%nat then bad
  else
    match DataCount (dm d) with
    | Some c => if negb (c =? Z.of_nat (length (Data_ (dm d)))) then bad else Ok d
    | None => if usesDataCountInstr d then bad else Ok d
    end.

Definition decodeModule (multi deferCodeBodies : bool) : R directModule :=
  let! magic := rd.bytes 4 in
  if negb (bool_decide (magic = magicBytes)) then fail (decode_error ErrBadMagic 0)
  else
    let! ver := rd.le32 in
    if negb (ver =? 1) then fail (decode_error ErrBadVersion 4)
    else
      let! r := get in
      let! st := decodeSections (length (reader.data r)) multi deferCodeBodies
                   {| lsModule := zeroDirectModule; lastOrder := 0; seen := 0 |} in
      fun r' => (checkModule (Z.of_nat (length (reader.data r'))) (lsModule st), r').

Definition decodeDirectModuleInnerLimitsMode (data : list Z) (multi : bool) (limits : DecodeLimits)
  (deferCodeBodies : bool) : outcome error directModule :=
  fst (decodeModule multi deferCodeBodies
         {| reader.data := data; reader.pos := 0; reader.budget := Some (newDecodeBudget limits) |}).

(** [populateCodeBodies]: the initializers, aligned with the declarations they
    were decoded with. *)
Definition populateTable (env : directValidationEnv) (i : nat) (t : Table) : Table :=
  match tableHasInit env !! i, tableInits env !! i with
  | Some true, Some init => {| TType := TType t; TInit := Some (directExpr init) |}
  | _, _ => t
  end.

Definition populateGlobal (env : directValidationEnv) (i : nat) (g : Global) : Global :=
  match globalInits env !! i with
  | Some init => {| GTy := GTy g; GInit := directExpr init |}
  | None => g
  end.

Definition populateElem (env : directValidationEnv) (i : nat) (e : Elem) : Elem :=
  match elements env !! i with
  | None => e
  | Some de =>
      {| EMode := {| EMKind := EMKind (EMode e); EMTable := EMTable (EMode e);
                     EMOffset := if deMode de =? ElemActive then directExpr (deOffset de)
                                 else EMOffset (EMode e) |};
         EElems := {| EKKind := EKKind (EElems e);
                      EKFuncs := if deKind de =? ElemFuncs then deFuncs de else EKFuncs (EElems e);
                      EKRef := EKRef (EElems e);
                      EKExprs := if (deKind de =? ElemFuncExprs) || (deKind de =? ElemTypedExprs)
                                 then map directExpr (deExprs de) else EKExprs (EElems e) |} |}
  end.

Definition populateCodeBodies (d : directModule) : directModule :=
  with_dm (fun m =>
    set_Tables_ (imap (populateTable (direct_ d)) (Tables m))
      (set_Globals_ (imap (populateGlobal (direct_ d)) (Globals m))
        (set_Elements_ (imap (populateElem (direct_ d)) (Elements m)) m))) d.

(** [DecodeModuleByteBackedWithLimits]; with [deferCodeBodies] and the default
    limits, [DecodeModuleForValidationWithFeatures]. *)
Definition decodeAndPopulate (data : list Z) (multi : bool) (limits : DecodeLimits)
  (deferCodeBodies : bool) : outcome error directModule :=
  match decodeDirectModuleInnerLimitsMode data multi limits deferCodeBodies with
  | Ok d =>
      let d := populateCodeBodies d in
      match validateBranchHints (dm d) with
      | Ok _ => Ok d
      | Err e => Err e
      | Panic => Panic
      end
  | Err e => Err e
  | Panic => Panic
  end.

Definition zeroLimits : DecodeLimits := {| MaxTypes := 0; MaxMetadataBytes := 0 |}.

Definition DecodeModuleByteBackedWithLimits (data : list Z) (multi : bool) (limits : DecodeLimits)
  : outcome error directModule := decodeAndPopulate data multi limits false.

Definition DecodeModuleForValidationWithFeatures (data : list Z) (multi : bool)
  : outcome error directModule := decodeAndPopulate data multi zeroLimits true.

Definition DecodeModule (data : list Z) : outcome error directModule :=
  DecodeModuleByteBackedWithLimits data true zeroLimits.
