(* ===== verification/TypeBounds.v ===== *)
(** * The type section: its grammar and its bounds

    The binary format of types is a grammar on byte lists ([types_are]), stated
    without the decoder; what [decodeTypeSection] returns is what the bytes it read
    stand for.  Every subtype costs at least two bytes of input and one unit of the type
    budget, so the flattened index space of an accepted type section is bounded by
    the section's length and by [MaxTypes]. *)

From stdpp Require Import base tactics numbers list.
From Stdlib Require Import ZArith Lia.
From S2P Require Import Prelude Reader LebSpec ReaderLaws ReaderExport Types TypesLaws Decode DecodeLaws Module.
Local Open Scope Z_scope.

(** ** The grammar of the type section

    The binary format of types, as relations between bytes and what they stand
    for.  Integers are the LEB128 encodings of [LebSpec]; an index of a type in a
    heap type is a signed number of 33 bits that is not negative. *)

(** A vector: its length, then its elements. *)
Definition vec_is {A} (G : list Z -> A -> Prop) (bs : list Z) (l : list A) : Prop :=
  exists count parts, bs = count ++ concat parts /\ leb_encodes false 32 count (Z.of_nat (length l)) /\
    Forall2 G parts l.

Definition index_is (bs : list Z) (t : TypeIdx) : Prop := leb_encodes false 32 bs (Index t) /\ Rec t = false.

Definition s33_index_is (bs : list Z) (t : TypeIdx) : Prop :=
  leb_encodes true 33 bs (Index t) /\ 0 <= Index t /\ Rec t = false.

Definition abs_heap (b : Z) : Prop := b = 0x64 \/ 0x69 <= b <= 0x74.

Definition heap_is (bs : list Z) (h : HeapType) : Prop :=
  (exists b, bs = [b] /\ abs_heap b /\ h = AbsHeap b) \/ (exists t, s33_index_is bs t /\ h = IndexedHeap t).

(** The heap type of an explicit reference: 0x62 marks it exact. *)
Definition ref_heap_is (bs : list Z) (exact : bool) (h : HeapType) : Prop :=
  (exact = true /\ exists bs' t, bs = 0x62 :: bs' /\ s33_index_is bs' t /\ h = IndexedHeap t) \/
  (exact = false /\ heap_is bs h).

Definition ref_is (bs : list Z) (rt : RefType) : Prop :=
  (exists bs' exact h, bs = 0x63 :: bs' /\ ref_heap_is bs' exact h /\ rt = Ref true h exact) \/
  (exists bs' exact h, bs = 0x64 :: bs' /\ ref_heap_is bs' exact h /\ rt = Ref false h exact) \/
  (exists b, bs = [b] /\ 0x69 <= b <= 0x74 /\ rt = AbsRef b).

Definition plain_vals : list (Z * ValType) := [(0x7f, I32); (0x7e, I64); (0x7d, F32); (0x7c, F64); (0x7b, V128)].

Definition val_is (bs : list Z) (t : ValType) : Prop :=
  (exists b, bs = [b] /\ (b, t) ∈ plain_vals) \/ (exists rt, ref_is bs rt /\ t = RefVal rt).

Definition storage_is (bs : list Z) (s : StorageType) : Prop :=
  (exists b, bs = [b] /\ (b = 0x77 \/ b = 0x78) /\ s = StoragePacked b) \/
  (exists t, val_is bs t /\ s = StorageVal t).

Definition field_is (bs : list Z) (f : FieldType) : Prop :=
  exists bs' s b, bs = bs' ++ [b] /\ storage_is bs' s /\ (b = 0 \/ b = 1) /\ f = NewFieldType s b.

Definition comp_is (bs : list Z) (ct : CompType) : Prop :=
  (exists bs' f, bs = 0x5e :: bs' /\ field_is bs' f /\
     ct = {| CKind := CompArray; Array := f; Fields := []; Params := []; Results := [] |}) \/
  (exists bs' fs, bs = 0x5f :: bs' /\ vec_is field_is bs' fs /\
     ct = {| CKind := CompStruct; Array := zeroWord; Fields := fs; Params := []; Results := [] |}) \/
  (exists bs1 bs2 ps rs, bs = 0x60 :: bs1 ++ bs2 /\ vec_is val_is bs1 ps /\ vec_is val_is bs2 rs /\
     ct = {| CKind := CompFunc; Array := zeroWord; Fields := []; Params := ps; Results := rs |}).

(** A clause of the metadata: absent, or its tag and an index. *)
Definition clause_is (tag : Z) (bs : list Z) (o : OptionalTypeIdx) : Prop :=
  (bs = [] /\ o = 0) \/ (exists bs' t, bs = tag :: bs' /\ index_is bs' t /\ o = SomeTypeIdx t).

Definition metadata_is (bs : list Z) (tm : TypeMetadata) : Prop :=
  exists bs1 bs2, bs = bs1 ++ bs2 /\ clause_is 0x4c bs1 (Describes tm) /\ clause_is 0x4d bs2 (Descriptor tm).

(** The supertypes, with whether the type is final and declares them. *)
Definition supers_are (bs : list Z) (supers : list TypeIdx) (final prefix : bool) : Prop :=
  (bs = [] /\ supers = [] /\ final = true /\ prefix = false) \/
  (exists bs', bs = 0x50 :: bs' /\ vec_is index_is bs' supers /\ final = false /\ prefix = true) \/
  (exists bs', bs = 0x4f :: bs' /\ vec_is index_is bs' supers /\ final = true /\ prefix = true).

Definition subtype_is (bs : list Z) (st : SubType) : Prop :=
  exists bs1 bs2 bs3, bs = bs1 ++ bs2 ++ bs3 /\ supers_are bs1 (Supers st) (Final st) (HasPrefix st) /\
    metadata_is bs2 (Metadata st) /\ comp_is bs3 (Comp st).

Definition group_is (bs : list Z) (g : RecType) : Prop :=
  (exists bs', bs = 0x4e :: bs' /\ vec_is subtype_is bs' (SubTypes g)) \/
  (exists st, subtype_is bs st /\ SubTypes g = [st]).

Definition types_are : list Z -> list RecType -> Prop := vec_is group_is.

(** ** The grammar is unambiguous

    No text of a type is the beginning of another, and a text stands for one type. *)

Definition unambiguous {A} (G : list Z -> A -> Prop) : Prop :=
  forall x y a b r s, G x a -> G y b -> x ++ r = y ++ s -> x = y /\ a = b.

(** An equation of texts, by first byte and the rest. *)
Ltac split_head E :=
  let E0 := fresh "E0" in
  pose proof (f_equal (List.hd 0) E) as E0; apply (f_equal tail) in E; cbn [app List.hd tail] in E0, E.

Lemma terminated_prefix x y r s :
  leb_terminated x = true -> leb_terminated y = true -> x ++ r = y ++ s -> x = y.
Proof.
  revert y. induction x as [|b x IH]; intros [|c y] Hx Hy E; try done. injection E as <- E.
  destruct x as [|b' x], y as [|c' y]; [done| | |].
  - cbn [leb_terminated] in Hx, Hy. lia.
  - cbn [leb_terminated] in Hx, Hy. lia.
  - f_equal. apply IH; [| |exact E].
    + by apply andb_true_iff in Hx as [_ ?].
    + by apply andb_true_iff in Hy as [_ ?].
Qed.

Lemma unambiguous_leb signed N : unambiguous (leb_encodes signed N).
Proof.
  intros x y a b r s (Tx & _ & -> & _) (Ty & _ & -> & _) E. by rewrite (terminated_prefix x y r s Tx Ty E).
Qed.

Lemma unambiguous_index : unambiguous index_is.
Proof.
  intros x y [i ri] [j rj] r s [Hx Rx] [Hy Ry] E. cbn [Index Rec] in *.
  destruct (unambiguous_leb _ _ _ _ _ _ _ _ Hx Hy E) as [-> ->]. by subst.
Qed.

Lemma unambiguous_s33 : unambiguous s33_index_is.
Proof.
  intros x y [i ri] [j rj] r s (Hx & _ & Rx) (Hy & _ & Ry) E. cbn [Index Rec] in *.
  destruct (unambiguous_leb _ _ _ _ _ _ _ _ Hx Hy E) as [-> ->]. by subst.
Qed.

(** An index does not begin with a byte that stands for a negative number. *)
Lemma s33_head b x t : s33_index_is (b :: x) t -> ~ 64 <= b < 128.
Proof.
  intros ((Ht & _ & Hv & _) & Hpos & _) Hb. destruct x as [|c x]; cbn [leb_terminated] in Ht; [|lia].
  unfold leb_value in Hv. cbn [List.last leb_digits length andb] in Hv. rewrite (Z.mod_small b 128) in Hv by lia.
  rewrite (proj2 (Z.leb_le 64 b)) in Hv by lia. change (2 ^ (7 * Z.of_nat 1)) with 128 in Hv. lia.
Qed.

Lemma s33_nonempty t : ~ s33_index_is [] t.
Proof. by intros ((Ht & _) & _). Qed.

Lemma unambiguous_parts {A} (G : list Z -> A -> Prop) ps qs l k r s :
  unambiguous G -> Forall2 G ps l -> Forall2 G qs k -> length l = length k ->
  concat ps ++ r = concat qs ++ s -> concat ps = concat qs /\ l = k.
Proof.
  intros HG Hp. revert qs k. induction Hp as [|p a ps l Ha Hp IH]; intros qs k Hq Hl E.
  - destruct k; [|done]. by inversion Hq.
  - destruct Hq as [|q b qs k Hb Hq]; [done|]. cbn [concat] in *. rewrite <- !app_assoc in E.
    destruct (HG _ _ _ _ _ _ Ha Hb E) as [-> ->]. apply app_inv_head in E.
    destruct (IH qs k Hq) as [-> ->]; [by injection Hl|done|done].
Qed.

Lemma unambiguous_vec {A} (G : list Z -> A -> Prop) : unambiguous G -> unambiguous (vec_is G).
Proof.
  intros HG x y l k r s (cx & px & -> & Cx & Hx) (cy & py & -> & Cy & Hy) E. rewrite <- !app_assoc in E.
  destruct (unambiguous_leb _ _ _ _ _ _ _ _ Cx Cy E) as [-> El]. apply app_inv_head in E.
  destruct (unambiguous_parts G px py l k r s HG Hx Hy) as [-> ->]; [lia|done|done].
Qed.

Lemma unambiguous_heap : unambiguous heap_is.
Proof.
  intros x y a b r s [(c & -> & Hc & ->)|(t & Ht & ->)] [(d & -> & Hd & ->)|(u & Hu & ->)] E; unfold abs_heap in *.
  - by injection E as ->.
  - destruct y as [|d y]; [by apply s33_nonempty in Hu|]. injection E as <- _. apply s33_head in Hu. lia.
  - destruct x as [|c x]; [by apply s33_nonempty in Ht|]. injection E as -> _. apply s33_head in Ht. lia.
  - by destruct (unambiguous_s33 _ _ _ _ _ _ Ht Hu E) as [-> ->].
Qed.

(** The first bytes of the texts of a grammar. *)
Definition starts {A} (G : list Z -> A -> Prop) (p : Z -> Prop) : Prop :=
  forall x a, G x a -> exists b x', x = b :: x' /\ p b.

Lemma heap_not_62 x h : ~ heap_is (0x62 :: x) h.
Proof.
  intros [(b & [= <- _] & Hb & _)|(t & Ht & _)]; [unfold abs_heap in Hb; lia|]. apply s33_head in Ht. lia.
Qed.

Lemma heap_nonempty h : ~ heap_is [] h.
Proof. intros [(b & ? & _)|(t & Ht & _)]; [done|by apply s33_nonempty in Ht]. Qed.

Lemma unambiguous_ref_heap x y e f h k r s :
  ref_heap_is x e h -> ref_heap_is y f k -> x ++ r = y ++ s -> x = y /\ e = f /\ h = k.
Proof.
  intros [(-> & x' & t & -> & Ht & ->)|[-> Hx]] [(-> & y' & u & -> & Hu & ->)|[-> Hy]] E.
  - injection E as E. by destruct (unambiguous_s33 _ _ _ _ _ _ Ht Hu E) as [-> ->].
  - destruct y as [|b y]; [by apply heap_nonempty in Hy|]. injection E as <- _. by apply heap_not_62 in Hy.
  - destruct x as [|b x]; [by apply heap_nonempty in Hx|]. injection E as -> _. by apply heap_not_62 in Hx.
  - by destruct (unambiguous_heap _ _ _ _ _ _ Hx Hy E) as [-> ->].
Qed.

Lemma unambiguous_ref : unambiguous ref_is.
Proof.
  intros x y a b r s Hx Hy E.
  destruct Hx as [(x' & e & h & -> & Hx & ->)|[(x' & e & h & -> & Hx & ->)|(c & -> & Hc & ->)]],
    Hy as [(y' & f & k & -> & Hy & ->)|[(y' & f & k & -> & Hy & ->)|(d & -> & Hd & ->)]]; split_head E; try lia.
  - by destruct (unambiguous_ref_heap _ _ _ _ _ _ _ _ Hx Hy E) as (-> & -> & ->).
  - by destruct (unambiguous_ref_heap _ _ _ _ _ _ _ _ Hx Hy E) as (-> & -> & ->).
  - by subst.
Qed.

Lemma starts_ref : starts ref_is (fun b => 0x63 <= b <= 0x74).
Proof.
  intros x a [(x' & e & h & -> & _)|[(x' & e & h & -> & _)|(c & -> & Hc & _)]]; eexists _, _; (split; [done|]); lia.
Qed.

Lemma plain_vals_range b t : (b, t) ∈ plain_vals -> 0x7b <= b <= 0x7f.
Proof.
  intros H. assert (Hall : Forall (fun p => 0x7b <= fst p <= 0x7f) plain_vals) by (repeat constructor; vm_compute; congruence).
  exact (proj1 (Forall_forall _ _) Hall _ H).
Qed.

Lemma plain_vals_unique b t u : (b, t) ∈ plain_vals -> (b, u) ∈ plain_vals -> t = u.
Proof.
  intros H1 H2. assert (Hn : NoDup (map fst plain_vals)) by (apply (bool_decide_unpack _); vm_compute; exact I).
  apply list_elem_of_lookup in H1 as [i H1], H2 as [j H2].
  assert (i = j) as -> by (apply (NoDup_lookup _ i j b Hn); by rewrite list_lookup_fmap, ?H1, ?H2).
  rewrite H1 in H2. by injection H2.
Qed.

Lemma unambiguous_val : unambiguous val_is.
Proof.
  intros x y a b r s [(c & -> & Hc)|(t & Ht & ->)] [(d & -> & Hd)|(u & Hu & ->)] E.
  - injection E as -> _. split; [done|by eapply plain_vals_unique].
  - destruct (starts_ref _ _ Hu) as (d & y' & -> & Hd). apply plain_vals_range in Hc. injection E as E _. lia.
  - destruct (starts_ref _ _ Ht) as (c & x' & -> & Hc). apply plain_vals_range in Hd. injection E as E _. lia.
  - by destruct (unambiguous_ref _ _ _ _ _ _ Ht Hu E) as [-> ->].
Qed.

Lemma starts_val : starts val_is (fun b => 0x63 <= b <= 0x74 \/ 0x7b <= b <= 0x7f).
Proof.
  intros x a [(c & -> & Hc)|(t & Ht & ->)].
  - exists c, []. split; [done|]. right. by eapply plain_vals_range.
  - destruct (starts_ref _ _ Ht) as (c & x' & -> & Hc). exists c, x'. split; [done|]. by left.
Qed.

Lemma unambiguous_storage : unambiguous storage_is.
Proof.
  intros x y a b r s [(c & -> & Hc & ->)|(t & Ht & ->)] [(d & -> & Hd & ->)|(u & Hu & ->)] E.
  - by injection E as -> _.
  - destruct (starts_val _ _ Hu) as (d & y' & -> & Hd). injection E as E _. lia.
  - destruct (starts_val _ _ Ht) as (c & x' & -> & Hc). injection E as E _. lia.
  - by destruct (unambiguous_val _ _ _ _ _ _ Ht Hu E) as [-> ->].
Qed.

Lemma unambiguous_field : unambiguous field_is.
Proof.
  intros x y a b r s (x' & sx & c & -> & Hx & _ & ->) (y' & sy & d & -> & Hy & _ & ->) E. rewrite <- !app_assoc in E.
  destruct (unambiguous_storage _ _ _ _ _ _ Hx Hy E) as [-> ->]. apply app_inv_head in E. by injection E as ->.
Qed.

Lemma starts_comp : starts comp_is (fun b => 0x5e <= b <= 0x60).
Proof.
  intros x a [(x' & f & -> & _)|[(x' & fs & -> & _)|(x1 & x2 & ps & rs & -> & _)]]; eexists _, _; (split; [done|]); lia.
Qed.

Lemma unambiguous_comp : unambiguous comp_is.
Proof.
  intros x y a b r s Hx Hy E.
  destruct Hx as [(x' & f & -> & Hx & ->)|[(x' & f & -> & Hx & ->)|(x1 & x2 & ps & rs & -> & Hx1 & Hx2 & ->)]],
    Hy as [(y' & g & -> & Hy & ->)|[(y' & g & -> & Hy & ->)|(y1 & y2 & qs & us & -> & Hy1 & Hy2 & ->)]];
    split_head E; try done.
  - by destruct (unambiguous_field _ _ _ _ _ _ Hx Hy E) as [-> ->].
  - by destruct (unambiguous_vec _ unambiguous_field _ _ _ _ _ _ Hx Hy E) as [-> ->].
  - rewrite <- !app_assoc in E. destruct (unambiguous_vec _ unambiguous_val _ _ _ _ _ _ Hx1 Hy1 E) as [-> ->].
    apply app_inv_head in E. by destruct (unambiguous_vec _ unambiguous_val _ _ _ _ _ _ Hx2 Hy2 E) as [-> ->].
Qed.

(** A clause is there exactly when its tag is. *)
Lemma unambiguous_clause tag x y a b r s :
  clause_is tag x a -> clause_is tag y b -> x ++ r = y ++ s -> head r <> Some tag -> head s <> Some tag -> x = y /\ a = b.
Proof.
  intros [[-> ->]|(x' & t & -> & Ht & ->)] [[-> ->]|(y' & u & -> & Hu & ->)] E Hr Hs; cbn [app] in E.
  - done.
  - by rewrite E in Hr.
  - by rewrite <- E in Hs.
  - injection E as E. by destruct (unambiguous_index _ _ _ _ _ _ Ht Hu E) as [-> ->].
Qed.

(** The text after the supertypes. *)
Definition body_is (x : list Z) (p : TypeMetadata * CompType) : Prop :=
  exists x1 x2, x = x1 ++ x2 /\ metadata_is x1 (fst p) /\ comp_is x2 (snd p).

Lemma head_comp x ct r : comp_is x ct -> exists b, head (x ++ r) = Some b /\ 0x5e <= b <= 0x60.
Proof. intros H. destruct (starts_comp _ _ H) as (b & x' & -> & Hb). by exists b. Qed.

Lemma head_clause tag x o r b : clause_is tag x o -> head (x ++ r) = Some b -> b = tag \/ head r = Some b.
Proof. intros [[-> _]|(x' & t & -> & _)] H; [by right|]. injection H as <-. by left. Qed.

Lemma starts_body : starts body_is (fun b => b = 0x4c \/ b = 0x4d \/ 0x5e <= b <= 0x60).
Proof.
  intros x [tm ct] (x1 & x2 & -> & (c1 & c2 & -> & C1 & C2) & Hc). cbn [fst snd] in *.
  destruct (starts_comp _ _ Hc) as (b & x' & -> & Hb).
  destruct C1 as [[-> _]|(? & ? & -> & _)]; [|eexists _, _; split; [done|by left]].
  destruct C2 as [[-> _]|(? & ? & -> & _)]; [|eexists _, _; split; [done|by right; left]].
  eexists _, _. split; [done|]. by right; right.
Qed.

Lemma unambiguous_body : unambiguous body_is.
Proof.
  intros x y [tx cx] [ty cy] r s (x' & x3 & -> & (x1 & x2 & -> & X1 & X2) & X3) (y' & y3 & -> & (y1 & y2 & -> & Y1 & Y2) & Y3) E.
  cbn [fst snd] in *. rewrite <- !app_assoc in E.
  destruct (head_comp x3 cx r X3) as (b & Hb & Rb), (head_comp y3 cy s Y3) as (c & Hc & Rc).
  assert (N1 : forall z o w e, clause_is 0x4d z o -> head w = Some e -> 0x5e <= e <= 0x60 -> head (z ++ w) <> Some 0x4c).
  { intros z o w e Hz Hw He H. apply (head_clause _ _ _ _ _ Hz) in H as [?|H]; [done|]. rewrite Hw in H. injection H as ->. lia. }
  destruct (unambiguous_clause 0x4c _ _ _ _ _ _ X1 Y1 E) as [-> Ed];
    [by eapply (N1 _ _ _ b)|by eapply (N1 _ _ _ c)|]. apply app_inv_head in E.
  destruct (unambiguous_clause 0x4d _ _ _ _ _ _ X2 Y2 E) as [-> Ed']; [rewrite Hb; intros [= ->]; lia|rewrite Hc; intros [= ->]; lia|].
  apply app_inv_head in E. destruct (unambiguous_comp _ _ _ _ _ _ X3 Y3 E) as [-> ->].
  destruct tx as [dx ex], ty as [dy ey]. cbn [Describes Descriptor] in *. by subst.
Qed.

Lemma unambiguous_subtype : unambiguous subtype_is.
Proof.
  intros x y a b r s (x1 & x2 & x3 & -> & X1 & X2 & X3) (y1 & y2 & y3 & -> & Y1 & Y2 & Y3) E.
  assert (Bx : body_is (x2 ++ x3) (Metadata a, Comp a)) by by exists x2, x3.
  assert (By : body_is (y2 ++ y3) (Metadata b, Comp b)) by by exists y2, y3. clear X2 X3 Y2 Y3.
  rewrite <- !app_assoc, (app_assoc x2), (app_assoc y2) in E. revert E Bx By. generalize (x2 ++ x3) as u, (y2 ++ y3) as w. clear x2 x3 y2 y3.
  intros u w E Bx By.
  assert (H1 : x1 = y1 /\ Supers a = Supers b /\ Final a = Final b /\ HasPrefix a = HasPrefix b).
  { destruct (starts_body _ _ Bx) as (c & u' & -> & Hc), (starts_body _ _ By) as (d & w' & -> & Hd).
    destruct X1 as [(-> & -> & -> & ->)|[(x' & -> & Hx & -> & ->)|(x' & -> & Hx & -> & ->)]],
      Y1 as [(-> & -> & -> & ->)|[(y' & -> & Hy & -> & ->)|(y' & -> & Hy & -> & ->)]]; try done; split_head E; try lia;
      by destruct (unambiguous_vec _ unambiguous_index _ _ _ _ _ _ Hx Hy E) as [-> ->]. }
  destruct H1 as (-> & E1 & E2 & E3). apply app_inv_head in E.
  destruct (unambiguous_body _ _ _ _ _ _ Bx By E) as [-> [= E4 E5]]. split; [done|].
  destruct a as [fa sa ma ca ha], b as [fb sb mb cb hb]. cbn [Supers Final HasPrefix Metadata Comp] in *. by subst.
Qed.

Lemma subtype_not_4e x st : ~ subtype_is (0x4e :: x) st.
Proof.
  intros (x1 & x2 & x3 & E & X1 & X2 & X3). assert (Bx : body_is (x2 ++ x3) (Metadata st, Comp st)) by by exists x2, x3.
  destruct (starts_body _ _ Bx) as (c & u & Eu & Hc). rewrite Eu in E.
  destruct X1 as [(-> & _)|[(x' & -> & _)|(x' & -> & _)]]; [|done|done]. split_head E. lia.
Qed.

Lemma subtype_nonempty st : ~ subtype_is [] st.
Proof.
  intros (x1 & x2 & x3 & E & _ & _ & X3). destruct (starts_comp _ _ X3) as (c & u & -> & _).
  symmetry in E. apply app_nil in E as [_ E]. by apply app_nil in E as [_ ?].
Qed.

Lemma unambiguous_group : unambiguous group_is.
Proof.
  intros x y [a] [b] r s [(x' & -> & Hx)|(t & Ht & Ea)] [(y' & -> & Hy)|(u & Hu & Eb)] E; cbn [SubTypes] in *.
  - injection E as E. by destruct (unambiguous_vec _ unambiguous_subtype _ _ _ _ _ _ Hx Hy E) as [-> ->].
  - destruct y as [|c y]; [by apply subtype_nonempty in Hu|]. injection E as <- _. by apply subtype_not_4e in Hu.
  - destruct x as [|c x]; [by apply subtype_nonempty in Ht|]. injection E as -> _. by apply subtype_not_4e in Ht.
  - destruct (unambiguous_subtype _ _ _ _ _ _ Ht Hu E) as [-> ->]. by subst.
Qed.

Lemma types_are_unique x ts us : types_are x ts -> types_are x us -> ts = us.
Proof. intros Ht Hu. by destruct (unambiguous_vec _ unambiguous_group _ _ _ _ [] [] Ht Hu eq_refl). Qed.

Lemma indices_unique x l k : vec_is index_is x l -> vec_is index_is x k -> l = k.
Proof. intros Hl Hk. by destruct (unambiguous_vec _ unambiguous_index _ _ _ _ [] [] Hl Hk eq_refl). Qed.

(** ** Decoders read their grammar *)

(** [r'] is [r] after the bytes [bs]. *)
Record took (bs : list Z) (r r' : reader.t) : Prop := {
  tk_bytes : exists rest, drop (reader.pos r) (reader.data r) = bs ++ rest;
  tk_data : reader.data r' = reader.data r;
  tk_pos : reader.pos r' = (reader.pos r + length bs)%nat
}.

(** [parses G m]: a success of [m] with value [a] has read bytes that [G] relates
    to [a]. *)
Definition parses {A} (G : list Z -> A -> Prop) (m : R A) : Prop :=
  forall r a r', bytes_ok (reader.data r) -> m r = (Ok a, r') -> exists bs, took bs r r' /\ G bs a.

Lemma took_nil r r' : reader.data r' = reader.data r -> reader.pos r' = reader.pos r -> took [] r r'.
Proof. intros Hd Hp. split; [by eexists|done|]. rewrite Hp. simpl. lia. Qed.

Lemma took_app bs1 bs2 r r1 r2 : took bs1 r r1 -> took bs2 r1 r2 -> took (bs1 ++ bs2) r r2.
Proof.
  intros [[rest1 B1] D1 P1] [[rest2 B2] D2 P2]. split; [|congruence|rewrite length_app; lia].
  exists rest2. rewrite D1, P1, <- drop_drop, B1, drop_app_length in B2. by rewrite B1, B2, app_assoc.
Qed.

Lemma took_head b bs r r' : took (b :: bs) r r' -> reader.peek r = Some b.
Proof. intros [[rest B] _ _]. unfold reader.peek. by rewrite <- (Nat.add_0_r (reader.pos r)), <- lookup_drop, B. Qed.

Lemma parses_impl {A} (G G' : list Z -> A -> Prop) m :
  parses G m -> (forall bs a, G bs a -> G' bs a) -> parses G' m.
Proof. intros Hm H r a r' Hr E. destruct (Hm r a r' Hr E) as (bs & Ht & Hg). exists bs. auto. Qed.

Lemma parses_bind {A B} (G : list Z -> A -> Prop) (H : A -> list Z -> B -> Prop) m (f : A -> R B) :
  parses G m -> (forall a, parses (H a) (f a)) ->
  parses (fun bs b => exists a bs1 bs2, bs = bs1 ++ bs2 /\ G bs1 a /\ H a bs2 b) (bind m f).
Proof.
  intros Hm Hf r b r' Hr E. apply bind_ok in E as (a & r1 & E1 & E2).
  destruct (Hm r a r1 Hr E1) as (bs1 & T1 & G1).
  destruct (Hf a r1 b r') as (bs2 & T2 & G2); [by rewrite (tk_data _ _ _ T1)|done|].
  exists (bs1 ++ bs2). split; [by eapply took_app|]. by exists a, bs1, bs2.
Qed.

(** A step that reads nothing. *)
Definition silent {A} (m : R A) : Prop := parses (fun bs _ => bs = []) m.

Lemma parses_after {A B} (H : list Z -> B -> Prop) (m : R A) (f : A -> R B) :
  silent m -> (forall a, parses H (f a)) -> parses H (bind m f).
Proof.
  intros Hm Hf. eapply parses_impl; [apply (parses_bind (fun bs _ => bs = []) (fun _ => H)); [exact Hm|exact Hf]|].
  by intros bs b (a & bs1 & bs2 & -> & -> & ?).
Qed.

Lemma parses_ret {A} (G : list Z -> A -> Prop) a : G [] a -> parses G (ret a).
Proof. intros H r x r' _ [= <- <-]. exists []. split; [by apply took_nil|done]. Qed.

Lemma parses_map {A B} (G : list Z -> A -> Prop) (G' : list Z -> B -> Prop) m (f : A -> B) :
  parses G m -> (forall bs a, G bs a -> G' bs (f a)) -> parses G' (let! a := m in ret (f a)).
Proof.
  intros Hm H. eapply parses_impl; [eapply (parses_bind _ (fun a bs b => bs = [] /\ b = f a)); [exact Hm|]|].
  - intros a. by apply parses_ret.
  - intros bs b (a & bs1 & bs2 & -> & Hg & -> & ->). rewrite app_nil_r. auto.
Qed.

Lemma parses_if {A} (G : list Z -> A -> Prop) (c : bool) (m1 m2 : R A) :
  (c = true -> parses G m1) -> (c = false -> parses G m2) -> parses G (if c then m1 else m2).
Proof. destruct c; auto. Qed.

Lemma parses_fail {A} (G : list Z -> A -> Prop) e : parses G (fail e).
Proof. by intros r a r' _ H. Qed.

Lemma parses_fail_at {A} (G : list Z -> A -> Prop) c d : parses G (fail_at c d).
Proof. by intros r a r' _ H. Qed.

Lemma silent_get : silent get.
Proof. intros r a r' _ [= _ <-]. exists []. split; [by apply took_nil|done]. Qed.

Lemma silent_reserve c w : silent (rd.reserve c w).
Proof.
  intros r a r' _ H. unfold rd.reserve in H. destruct (_ && _); [done|]. injection H as _ <-.
  exists []. split; [by apply took_nil|done].
Qed.

Lemma silent_reserveMetadataStorage size n : silent (rd.reserveMetadataStorage size n).
Proof.
  unfold rd.reserveMetadataStorage. apply parses_if; intros _; [by apply parses_ret|].
  apply parses_after; [apply silent_reserve|]. intros _. apply silent_reserve.
Qed.

Lemma silent_reserveType : silent rd.reserveType.
Proof.
  intros r a r' _ H. unfold rd.reserveType in H. destruct (_ <=? _); [done|]. injection H as _ <-.
  exists []. split; [by apply took_nil|done].
Qed.

Lemma silent_ensureBudget : silent ensureBudget.
Proof. intros r a r' _ [= _ <-]. exists []. split; [by apply took_nil|done]. Qed.

(** What a peek says of the bytes read next. *)
Definition peeked (o : option Z) (bs : list Z) : Prop := forall b, head bs = Some b -> o = Some b.

Lemma parses_peek {A} (G : list Z -> A -> Prop) f :
  (forall o, parses (fun bs a => peeked o bs -> G bs a) (f o)) -> parses G (bind peekM f).
Proof.
  intros Hf r a r' Hr E. apply bind_ok in E as (o & r1 & [= <- <-] & E).
  destruct (Hf _ r a r' Hr E) as (bs & Ht & Hg). exists bs. split; [done|]. apply Hg.
  intros b Hb. destruct bs as [|c bs]; [done|]. injection Hb as ->. by eapply took_head.
Qed.

Lemma parses_byte : parses (fun bs b => bs = [b]) rd.byte.
Proof.
  intros r b r' _ H. unfold rd.byte in H. destruct (reader.data r !! reader.pos r) as [c|] eqn:E; [|done].
  injection H as -> <-. exists [b]. split; [|done]. split; [|done|simpl; lia].
  eexists. by rewrite (drop_S _ _ _ E).
Qed.

(** A tag announced by a peek, then the rest. *)
Lemma parses_tag {A} (G : Z -> list Z -> A -> Prop) o (m : R A) :
  (forall b, parses (G b) m) ->
  parses (fun bs a => peeked o bs -> exists b bs', o = Some b /\ bs = b :: bs' /\ G b bs' a) (rd.byte ;;; m).
Proof.
  intros Hm. eapply parses_impl; [eapply (parses_bind _ G _ _ parses_byte Hm)|].
  intros bs a (b & bs1 & bs2 & -> & -> & Hg) Hp. exists b, bs2. split; [by apply Hp|done].
Qed.

Lemma parses_leb signed N (m : R Z) :
  (forall r v r', bytes_ok (reader.data r) -> m r = (Ok v, r') -> leb_reads signed N r r' v) ->
  parses (leb_encodes signed N) m.
Proof.
  intros Hm r v r' Hr E. destruct (Hm r v r' Hr E) as (bs & rest & Hd & He & ->).
  exists bs. split; [split; [by exists rest|done|done]|done].
Qed.

Lemma parses_u32 : parses (leb_encodes false 32) rd.u32.
Proof. apply parses_leb. intros r v r' Hr. by apply u32_spec. Qed.

Lemma parses_s33 : parses (leb_encodes true 33) rd.s33.
Proof. apply parses_leb. intros r v r' Hr. by apply s33_spec. Qed.

Lemma parses_repeatM {A} (G : list Z -> A -> Prop) n m :
  parses G m ->
  parses (fun bs l => length l = n /\ exists parts, bs = concat parts /\ Forall2 G parts l) (repeatM n m).
Proof.
  intros Hm. induction n as [|n IH]; cbn [repeatM].
  - apply parses_ret. split; [done|]. by exists [].
  - eapply parses_impl; [apply parses_bind; [exact Hm|]|].
    + intros a. eapply (parses_map _ (fun bs l => exists l', l = a :: l' /\ length l' = n /\
        exists parts, bs = concat parts /\ Forall2 G parts l') _ _ IH).
      intros bs l (? & ?). by exists l.
    + intros bs l (a & bs1 & bs2 & -> & Hg & l' & -> & <- & parts & -> & Hl). split; [done|].
      exists (bs1 :: parts). split; [done|]. by constructor.
Qed.

(** The elements of a vector whose length has been read. *)
Lemma vec_is_intro {A} (G : list Z -> A -> Prop) count n bs l :
  leb_encodes false 32 count n -> length l = Z.to_nat n -> (exists parts, bs = concat parts /\ Forall2 G parts l) ->
  vec_is G (count ++ bs) l.
Proof.
  intros Hc Hl (parts & -> & Hp). exists count, parts. split; [done|]. split; [|done].
  pose proof Hc as (_ & _ & _ & Hr). unfold leb_in_range in Hr. by rewrite Hl, Z2Nat.id by lia.
Qed.

Lemma parses_readVec {A} (G : list Z -> A -> Prop) size m : parses G m -> parses (vec_is G) (rd.readVec size m).
Proof.
  intros Hm. unfold rd.readVec. eapply parses_impl; [apply parses_bind; [apply parses_u32|]|].
  - intros n. apply parses_after; [apply silent_reserve|]. intros _. by apply parses_repeatM.
  - intros bs l (n & bs1 & bs2 & -> & Hn & Hl & Hp). by eapply vec_is_intro.
Qed.

Lemma parses_readMetadataVec {A} (G : list Z -> A -> Prop) size m :
  parses G m -> parses (vec_is G) (rd.readMetadataVec size m).
Proof.
  intros Hm. unfold rd.readMetadataVec. eapply parses_impl; [apply parses_bind; [apply parses_u32|]|].
  - intros n. apply parses_after; [apply silent_get|]. intros r. apply parses_if; intros _; [apply parses_fail_at|].
    apply parses_after; [apply silent_reserveMetadataStorage|]. intros _. by apply parses_repeatM.
  - intros bs l (n & bs1 & bs2 & -> & Hn & Hl & Hp). by eapply vec_is_intro.
Qed.

Lemma parses_decodeTypeIdx : parses index_is decodeTypeIdx.
Proof. eapply parses_map; [apply parses_u32|]. by intros bs x H. Qed.

Lemma parses_decodeS33TypeIdx : parses s33_index_is decodeS33TypeIdx.
Proof.
  unfold decodeS33TypeIdx. eapply parses_impl; [eapply (parses_bind _ (fun x bs t => bs = [] /\ 0 <= x /\
    t = {| Index := to_u32 x; Rec := false |})); [apply parses_s33|]|].
  - intros x. apply parses_if; intros E; [apply parses_fail_at|]. apply parses_ret. split; [done|]. split; [lia|done].
  - intros bs t (x & bs1 & bs2 & -> & Hx & -> & Hpos & ->). rewrite app_nil_r.
    pose proof Hx as (_ & _ & _ & Hr). unfold leb_in_range in Hr. unfold s33_index_is. cbn [Index Rec].
    by rewrite to_u32_small by lia.
Qed.

(** A byte that must satisfy a test. *)
Lemma parses_checked (p : Z -> bool) c d :
  parses (fun bs b => bs = [b] /\ p b = true) (let! b := rd.byte in if p b then ret b else fail_at c d).
Proof.
  eapply parses_impl; [eapply (parses_bind _ (fun b bs b' => bs = [] /\ b' = b /\ p b = true) _ _ parses_byte)|].
  - intros b. apply parses_if; intros E; [by apply parses_ret|apply parses_fail_at].
  - by intros bs b (b' & bs1 & bs2 & -> & -> & -> & -> & ?).
Qed.

Lemma parses_decodeHeapType : parses heap_is decodeHeapType.
Proof.
  unfold decodeHeapType. apply parses_peek. intros o. apply parses_if; intros _.
  - eapply parses_map; [apply (parses_checked isAbsHeapByte)|]. intros bs b [-> Hb] _. left. exists b.
    split; [done|]. split; [|done]. unfold isAbsHeapByte in Hb. unfold abs_heap. lia.
  - eapply parses_map; [apply parses_decodeS33TypeIdx|]. intros bs t Ht _. right. by exists t.
Qed.

Lemma parses_decodeRefHeapType : parses (fun bs p => ref_heap_is bs (fst p) (snd p)) decodeRefHeapType.
Proof.
  unfold decodeRefHeapType. apply parses_peek. intros o. apply parses_if; intros Eo.
  - eapply parses_impl; [apply (parses_tag (fun _ bs p => exists t, s33_index_is bs t /\ p = (true, IndexedHeap t)))|].
    + intros b. eapply parses_map; [apply parses_decodeS33TypeIdx|]. intros bs t Ht. by exists t.
    + intros bs p H Hp. destruct (H Hp) as (b & bs' & -> & -> & t & Ht & ->). left. split; [done|].
      exists bs', t. split; [|done]. simpl in Eo. by apply Z.eqb_eq in Eo as ->.
  - eapply parses_map; [apply parses_decodeHeapType|]. intros bs h Hh _. by right.
Qed.

Lemma parses_decodeRefType : parses ref_is decodeRefType.
Proof.
  unfold decodeRefType. eapply parses_impl; [eapply (parses_bind _ (fun b bs rt => ref_is (b :: bs) rt) _ _ parses_byte)|].
  - intros b. apply parses_if; intros E1; [|apply parses_if; intros E2; [|apply parses_if; intros E3; [|apply parses_fail_at]]].
    + apply Z.eqb_eq in E1 as ->. eapply parses_map; [apply parses_decodeRefHeapType|]. intros bs [e h] H. left. by exists bs, e, h.
    + apply Z.eqb_eq in E2 as ->. eapply parses_map; [apply parses_decodeRefHeapType|]. intros bs [e h] H.
      right; left. by exists bs, e, h.
    + apply parses_ret. right; right. exists b. split; [done|]. split; [lia|done].
  - by intros bs rt (b & bs1 & bs2 & -> & -> & ?).
Qed.

Lemma parses_decodeValType : parses val_is decodeValType.
Proof.
  unfold decodeValType. apply parses_peek. intros [b|]; [|apply parses_fail_at].
  apply parses_if; intros _; [|apply parses_if; intros Eb; [|apply parses_if; intros _; [|apply parses_fail_at]]].
  - eapply parses_map; [apply (parses_checked isNumType)|]. intros bs n [-> Hn] _. left. exists n. split; [done|].
    unfold isNumType in Hn. rewrite !orb_true_iff, !Z.eqb_eq in Hn. unfold plain_vals.
    destruct Hn as [[[-> | ->] | ->] | ->]; repeat first [left|right].
  - apply Z.eqb_eq in Eb as ->.
    eapply parses_impl; [apply (parses_tag (fun _ bs t => bs = [] /\ t = V128)); intros b; by apply parses_ret|].
    intros bs t H Hp. destruct (H Hp) as (b & bs' & [= <-] & -> & -> & ->). left. exists 0x7b. split; [done|]. repeat first [left|right].
  - eapply parses_map; [apply parses_decodeRefType|]. intros bs rt H _. right. by exists rt.
Qed.

Lemma parses_decodeStorageType : parses storage_is decodeStorageType.
Proof.
  assert (Hval : forall o, parses (fun bs s => peeked o bs -> storage_is bs s) (let! vt := decodeValType in ret (StorageVal vt))).
  { intros o. eapply parses_map; [apply parses_decodeValType|]. intros bs t Ht _. right. by exists t. }
  unfold decodeStorageType. apply parses_peek. intros [b|]; [|apply Hval]. apply parses_if; intros Eb; [|apply Hval].
  eapply parses_impl; [apply (parses_tag (fun _ bs s => bs = [] /\ s = StoragePacked b)); intros c; by apply parses_ret|].
  intros bs s H Hp. destruct (H Hp) as (c & bs' & [= <-] & -> & -> & ->). left. exists b. split; [done|]. split; [lia|done].
Qed.

Lemma parses_decodeFieldType : parses field_is decodeFieldType.
Proof.
  unfold decodeFieldType. eapply parses_impl; [apply parses_bind; [apply parses_decodeStorageType|]|].
  - intros s. eapply (parses_map _ (fun bs f => exists b, bs = [b] /\ (b = 0 \/ b = 1) /\ f = NewFieldType s b));
      [apply (parses_checked (fun b => (b =? 0) || (b =? 1)))|].
    intros bs b [-> Hb]. exists b. split; [done|]. split; [lia|done].
  - intros bs f (s & bs1 & bs2 & -> & Hs & b & -> & Hb & ->). by exists bs1, s, b.
Qed.

Lemma parses_decodeCompType : parses comp_is decodeCompType.
Proof.
  unfold decodeCompType. eapply parses_impl; [eapply (parses_bind _ (fun b bs ct => comp_is (b :: bs) ct) _ _ parses_byte)|].
  - intros b. apply parses_if; intros E1; [|apply parses_if; intros E2; [|apply parses_if; intros E3; [|apply parses_fail_at]]].
    + apply Z.eqb_eq in E1 as ->. eapply parses_map; [apply parses_decodeFieldType|]. intros bs f H. left. by exists bs, f.
    + apply Z.eqb_eq in E2 as ->. eapply parses_map; [apply parses_readVec, parses_decodeFieldType|].
      intros bs f H. right; left. by exists bs, f.
    + apply Z.eqb_eq in E3 as ->.
      eapply parses_impl; [apply parses_bind; [apply parses_readVec, parses_decodeValType|]|].
      * intros p. eapply (parses_map _ (fun bs ct => exists rs, vec_is val_is bs rs /\ ct = {| CKind := CompFunc;
          Array := zeroWord; Fields := []; Params := p; Results := rs |})); [apply parses_readVec, parses_decodeValType|].
        intros bs rs H. by exists rs.
      * intros bs ct (p & bs1 & bs2 & -> & Hp & rs & Hr & ->). right; right. by exists bs1, bs2, p, rs.
  - by intros bs ct (b & bs1 & bs2 & -> & -> & ?).
Qed.

(** ** Metadata *)

(** A clause read when the field holds [old]. *)
Definition clause_from (tag : Z) (old : OptionalTypeIdx) (bs : list Z) (new : OptionalTypeIdx) : Prop :=
  (bs = [] /\ new = old) \/
  (OptionalTypeIdx_Present old = false /\ exists bs' t, bs = tag :: bs' /\ index_is bs' t /\ new = SomeTypeIdx t).

Lemma present_some bs t : index_is bs t -> OptionalTypeIdx_Present (SomeTypeIdx t) = true.
Proof.
  intros [(_ & _ & _ & Hi) Hr]. unfold leb_in_range in Hi. unfold OptionalTypeIdx_Present, SomeTypeIdx, has_bit. rewrite Hr.
  apply negb_true_iff, Z.eqb_neq. intros H. apply (f_equal (fun z => Z.testbit z 33)) in H. revert H.
  cbn [set_if]. rewrite Z.land_spec, Z.lor_spec. by vm_compute (Z.testbit optionalTypeIdxPresent 33).
Qed.

(** The loop from the fields of [tm]: the first clause comes before the second. *)
Lemma parses_decodeTypeMetadata_loop fuel tm :
  parses (fun bs tm' => exists bs1 bs2, bs = bs1 ++ bs2 /\ clause_from 0x4c (Describes tm) bs1 (Describes tm') /\
    clause_from 0x4d (Descriptor tm) bs2 (Descriptor tm') /\
    (OptionalTypeIdx_Present (Descriptor tm) = true -> bs1 = [])) (decodeTypeMetadata_loop fuel tm).
Proof.
  revert tm. induction fuel as [|fuel IH]; intros tm r tm' r' Hr H; [done|]. cbn [decodeTypeMetadata_loop] in H.
  assert (Hnone : forall r1, (ret tm : R TypeMetadata) r = (Ok tm', r1) -> exists bs, took bs r r1 /\ exists bs1 bs2, bs = bs1 ++ bs2 /\
    clause_from 0x4c (Describes tm) bs1 (Describes tm') /\ clause_from 0x4d (Descriptor tm) bs2 (Descriptor tm') /\
    (OptionalTypeIdx_Present (Descriptor tm) = true -> bs1 = [])).
  { intros r1 [= <- <-]. exists []. split; [by apply took_nil|]. exists [], []. split; [done|]. split; [by left|]. by split; [left|]. }
  apply bind_ok in H as (o & r0 & [= <- <-] & H). destruct (reader.peek r) as [b|] eqn:Ep; [|by apply Hnone].
  destruct (_ && _) eqn:Eb; [by apply Hnone|]. clear Hnone.
  apply bind_ok in H as (b' & r1 & H1 & H). apply bind_ok in H as (t & r2 & H2 & H).
  destruct (parses_byte r b' r1 Hr H1) as (bs1 & T1 & ->). pose proof (took_head _ _ _ _ T1) as E. rewrite Ep in E. injection E as <-.
  destruct (parses_decodeTypeIdx r1 t r2) as (bt & T2 & Ht); [by rewrite (tk_data _ _ _ T1)|done|].
  pose proof (took_app _ _ _ _ _ T1 T2) as T. assert (Hr2 : bytes_ok (reader.data r2)) by by rewrite (tk_data _ _ _ T).
  pose proof (present_some _ _ Ht) as Hsome.
  destruct (Z.eqb_spec b 0x4c) as [->|Hne]; (destruct (_ : bool) eqn:Eold in H; [done|]).
  - apply orb_false_iff in Eold as [O1 O2].
    destruct (IH _ r2 tm' r' Hr2 H) as (bs & T3 & c1 & c2 & -> & C1 & C2 & _). cbn [Describes Descriptor] in *.
    destruct C1 as [[-> E1]|[E1 _]]; [|congruence]. eexists. split; [by eapply took_app|].
    exists (0x4c :: bt), c2. split; [done|]. split; [|split; [done|congruence]]. right. split; [done|]. by exists bt, t.
  - assert (b = 0x4d) as -> by lia.
    destruct (IH _ r2 tm' r' Hr2 H) as (bs & T3 & c1 & c2 & -> & C1 & C2 & C3). cbn [Describes Descriptor] in *.
    rewrite (C3 Hsome) in *. destruct C2 as [[-> E2]|[E2 _]]; [|congruence]. eexists. split; [by eapply took_app|].
    exists [], (0x4d :: bt). split; [by rewrite app_nil_r|]. split; [done|]. split; [|done].
    right. split; [done|]. by exists bt, t.
Qed.

Lemma parses_decodeTypeMetadata : parses metadata_is decodeTypeMetadata.
Proof.
  eapply parses_impl; [apply parses_decodeTypeMetadata_loop|]. intros bs tm (bs1 & bs2 & -> & H1 & H2 & _).
  exists bs1, bs2. split; [done|].
  split; [destruct H1 as [H|[_ H]]|destruct H2 as [H|[_ H]]]; [by left|by right|by left|by right].
Qed.

(** ** Types, groups and the section *)

Lemma parses_supers (b : Z) (hasPrefix : bool) :
  hasPrefix = (b =? 0x4f) || (b =? 0x50) ->
  parses (fun bs supers => (forall c, head bs = Some c -> c = b) ->
      supers_are bs supers (if hasPrefix then b =? 0x4f else true) hasPrefix)
    (if hasPrefix then rd.byte ;;; rd.readVec sizeof_TypeIdx decodeTypeIdx else ret []).
Proof.
  intros Ep. apply parses_if; intros E; rewrite E in Ep |- *; [|apply parses_ret; intros _; by left].
  eapply parses_impl; [apply (parses_tag (fun _ => vec_is index_is) (Some b)); intros _; apply parses_readVec, parses_decodeTypeIdx|].
  intros bs supers H Hb. destruct H as (c & bs' & [= <-] & -> & H); [intros c Hc; by rewrite (Hb c Hc)|].
  destruct (Z.eqb_spec b 0x4f) as [->|Hne]; [right; right; by exists bs'|].
  right; left. exists bs'. split; [|done]. symmetry in Ep. cbn [orb] in Ep. by apply Z.eqb_eq in Ep as ->.
Qed.

Lemma parses_decodeSubType : parses subtype_is decodeSubType.
Proof.
  unfold decodeSubType. apply parses_after; [apply silent_reserveType|]. intros _. apply parses_peek.
  intros [b|]; [|apply parses_fail_at]. cbv zeta. set (p := (b =? 0x4f) || (b =? 0x50)).
  eapply parses_impl; [apply parses_bind; [by apply (parses_supers b p)|]|].
  - intros supers. apply parses_bind; [apply parses_decodeTypeMetadata|]. intros meta.
    eapply (parses_map _ (fun bs st => exists ct, comp_is bs ct /\ st = {| Final := if p then b =? 0x4f else true;
      Supers := supers; Metadata := meta; Comp := ct; HasPrefix := p |})); [apply parses_decodeCompType|].
    intros bs ct H. by exists ct.
  - intros bs st (supers & bs1 & bs' & -> & Hs & meta & bs2 & bs3 & -> & Hm & ct & Hc & ->) Hp.
    exists bs1, bs2, bs3. split; [done|]. split; [|by split]. apply Hs. intros c Hc'.
    assert (E : Some b = Some c) by (apply Hp; by destruct bs1). by injection E.
Qed.

Lemma parses_decodeRecType : parses group_is decodeRecType.
Proof.
  unfold decodeRecType. apply parses_peek. intros o. apply parses_if; intros Eo.
  - eapply parses_impl; [apply (parses_tag (fun _ bs g => vec_is subtype_is bs (SubTypes g)))|].
    + intros _. eapply parses_map; [apply parses_readMetadataVec, parses_decodeSubType|]. by intros bs sts H.
    + intros bs g H Hp. destruct (H Hp) as (b & bs' & -> & -> & Hv). left. exists bs'. split; [|done].
      simpl in Eo. by apply Z.eqb_eq in Eo as ->.
  - eapply parses_map; [apply parses_decodeSubType|]. intros bs st H _. right. by exists st.
Qed.

Lemma parses_decodeTypeSection_loop n avail nextSlab :
  parses (fun bs l => length l = n /\ exists parts, bs = concat parts /\ Forall2 group_is parts l)
    (decodeTypeSection_loop n avail nextSlab).
Proof.
  revert avail nextSlab. induction n as [|n IH]; intros avail nextSlab; cbn [decodeTypeSection_loop].
  { apply parses_ret. split; [done|]. by exists []. }
  assert (Hcons : forall (m : R RecType) avail nextSlab, parses group_is m ->
    parses (fun bs l => length l = S n /\ exists parts, bs = concat parts /\ Forall2 group_is parts l)
      (let! g := m in let! gs := decodeTypeSection_loop n avail nextSlab in ret (g :: gs))).
  { intros m a s Hm. eapply parses_impl; [apply parses_bind; [exact Hm|]|].
    - intros g. eapply (parses_map _ (fun bs l => exists l', l = g :: l' /\ length l' = n /\
        exists parts, bs = concat parts /\ Forall2 group_is parts l') _ _ (IH a s)).
      intros bs l (? & ?). by exists l.
    - intros bs l (g & bs1 & bs2 & -> & Hg & l' & -> & <- & parts & -> & Hl). split; [done|].
      exists (bs1 :: parts). split; [done|]. by constructor. }
  apply parses_peek. intros o.
  match goal with |- parses (fun bs a => _ -> @?G bs a) _ => apply (parses_impl G); [|by intros] end.
  apply parses_if; intros _; [apply Hcons, parses_decodeRecType|]. cbv zeta.
  apply parses_after; [apply parses_if; intros _; [apply silent_reserveMetadataStorage|by apply parses_ret]|].
  intros _. set (a := _ - 1). set (s := if avail =? 0 then _ else nextSlab).
  pose proof (Hcons (let! st := decodeSubType in ret {| SubTypes := [st] |}) a s) as H.
  intros r l r' Hr E. apply (H ltac:(eapply parses_map; [apply parses_decodeSubType|]; intros bs st Hst; right; by exists st) r l r' Hr).
  apply bind_ok in E as (st & r1 & E1 & E2). unfold bind at 1. unfold bind at 1. by rewrite E1.
Qed.

Lemma parses_decodeTypeSection : parses types_are decodeTypeSection.
Proof.
  unfold decodeTypeSection. eapply parses_impl; [apply parses_bind; [apply parses_u32|]|].
  - intros n. apply parses_after; [apply silent_ensureBudget|]. intros b. apply parses_after; [apply silent_get|]. intros r.
    apply parses_if; intros _; [apply parses_fail|]. apply parses_if; intros _; [apply parses_fail_at|].
    apply parses_after; [apply silent_reserveMetadataStorage|]. intros _. apply parses_decodeTypeSection_loop.
  - intros bs l (n & bs1 & bs2 & -> & Hn & Hl & Hp). by eapply vec_is_intro.
Qed.

(** ** Costs *)

(** [costs w m]: a success with value [a] has read two bytes and counted one type
    for each unit of [w a]. *)
Definition costs {A} (w : A -> nat) (m : R A) : Prop :=
  forall r a r', reader_ok r -> m r = (Ok a, r') ->
    (reader.pos r + 2 * w a <= reader.pos r')%nat /\
    types (rd.the_budget r) + Z.of_nat (w a) <= types (rd.the_budget r').

Lemma costs_safe {A} k (m : R A) Q : safe k m Q -> costs (fun _ => 0%nat) m.
Proof.
  intros H r a r' Hr E. specialize (H r Hr). rewrite E in H. destruct H as (_ & He & _).
  pose proof (ext_pos _ _ _ He). pose proof (ext_types _ _ _ He). lia.
Qed.

(** A free step before a costly one. *)
Lemma costs_bind {A B} k (m : R A) (f : A -> R B) Q (w : B -> nat) :
  safe k m Q -> (forall a, Q a -> costs w (f a)) -> costs w (bind m f).
Proof.
  intros Hm Hf r b r' Hr H. apply bind_ok in H as (a & r1 & H1 & H2).
  specialize (Hm r Hr). rewrite H1 in Hm. destruct Hm as (Hr1 & He & Ha).
  destruct (Hf a Ha r1 b r' Hr1 H2). pose proof (ext_pos _ _ _ He). pose proof (ext_types _ _ _ He). lia.
Qed.

(** Costs add up. *)
Lemma costs_both {A B C} k (m : R A) (f : A -> R B) (g : A -> B -> C) Q wa wb w :
  safe k m Q -> costs wa m -> (forall a, costs wb (f a)) ->
  (forall a b, w (g a b) = (wa a + wb b)%nat) ->
  costs w (let! a := m in let! b := f a in ret (g a b)).
Proof.
  intros Hs Hm Hf Hw r c r' Hr H. apply bind_ok in H as (a & r1 & H1 & H).
  apply bind_ok in H as (b & r2 & H2 & H). injection H as <- <-.
  specialize (Hs r Hr). rewrite H1 in Hs. destruct Hs as (Hr1 & _).
  destruct (Hm r a r1 Hr H1). destruct (Hf a r1 b r2 Hr1 H2). rewrite Hw. lia.
Qed.

Lemma costs_repeatM {A} k n (m : R A) Q :
  safe k m Q -> costs (fun _ => 1%nat) m -> costs (@length A) (repeatM n m).
Proof.
  intros Hs Hm. induction n as [|n IH]; simpl.
  - intros r a r' Hr [= <- <-]. simpl. lia.
  - eapply (costs_both _ _ _ (fun a l => a :: l) _ (fun _ => 1%nat) (@length A)); eauto.
Qed.

Lemma costs_map {A B} (m : R A) (f : A -> B) w w' :
  costs w m -> (forall a, w' (f a) = w a) -> costs w' (let! a := m in ret (f a)).
Proof.
  intros Hm Hw r b r' Hr H. apply bind_ok in H as (a & r1 & H1 & H). injection H as <- <-.
  rewrite Hw. by apply Hm.
Qed.

Lemma costs_if {A} (c : bool) (m1 m2 : R A) w :
  costs w m1 -> costs w m2 -> costs w (if c then m1 else m2).
Proof. by destruct c. Qed.

Lemma costs_decodeSubType : costs (fun _ => 1%nat) decodeSubType.
Proof.
  intros r st r' Hr H. pose proof (safe_decodeSubType r Hr) as Hs. rewrite H in Hs.
  destruct Hs as (_ & He & _). split; [pose proof (ext_pos _ _ _ He); lia|]. clear He.
  unfold decodeSubType in H. apply bind_ok in H as ([] & r1 & H1 & H).
  pose proof (safe_reserveType r Hr) as Hs. rewrite H1 in Hs. destruct Hs as (Hr1 & _ & _).
  assert (Hone : types (rd.the_budget r1) = types (rd.the_budget r) + 1).
  { unfold rd.reserveType in H1. destruct (_ <=? _); [done|]. by injection H1 as <-. }
  match type of H with ?m r1 = _ => assert (Hc : costs (fun _ => 0%nat) m) end.
  { eapply costs_bind; [apply safe_peekM|]. intros [b|] _; [|by intros ? ? ?]. cbv zeta.
    eapply (costs_bind 0 _ _ (fun _ => True)).
    - apply safe_if; intros _; [|by apply safe_ret].
      eapply safe_bind; [eapply safe_zero, safe_byte|]. intros.
      eapply safe_true, safe_zero, safe_readVec; [done|apply safe_decodeTypeIdx].
    - intros supers _. eapply costs_bind; [apply safe_decodeTypeMetadata|]. intros meta _.
      eapply costs_bind; [apply safe_decodeCompType|]. intros ct _.
      eapply (costs_safe 0), (safe_ret 0 _ (fun _ => True)); done. }
  destruct (Hc r1 st r' Hr1 H). lia.
Qed.

Definition group_size (g : RecType) : nat := length (SubTypes g).

Lemma costs_decodeRecType : costs group_size decodeRecType.
Proof.
  unfold decodeRecType. eapply costs_bind; [apply safe_peekM|]. intros o _. apply costs_if.
  - eapply costs_bind; [apply safe_byte|]. intros _ _. eapply (costs_map _ _ (@length SubType)); [|done].
    unfold rd.readMetadataVec. eapply costs_bind; [apply safe_u32|]. intros n Hn.
    eapply costs_bind; [apply (safe_get 0 ret (fun _ => True)); intros; by apply safe_ret|].
    intros r _. apply costs_if; [by intros ? ? ?|].
    eapply costs_bind; [apply safe_reserveMetadataStorage; [done|unfold u32_ok in Hn; lia]|].
    intros _ _. eapply costs_repeatM; [apply safe_decodeSubType|apply costs_decodeSubType].
  - eapply (costs_map _ _ (fun _ => 1%nat)); [apply costs_decodeSubType|done].
Qed.

Definition groups_size (l : list RecType) : nat := sum_list_with group_size l.

Lemma groups_size_flat l g : length (type_flat g l) = groups_size l.
Proof.
  unfold groups_size. revert g. induction l as [|x l IH]; intros g; simpl; [done|].
  by rewrite length_app, length_map, IH.
Qed.

Lemma costs_decodeTypeSection_loop n avail nextSlab :
  costs groups_size (decodeTypeSection_loop n avail nextSlab).
Proof.
  revert avail nextSlab. induction n as [|n IH]; intros avail nextSlab.
  - intros r a r' Hr [= <- <-]. simpl. lia.
  - cbn [decodeTypeSection_loop]. eapply costs_bind; [apply safe_peekM|]. intros o _. apply costs_if.
    + by eapply (costs_both _ _ _ (fun g gs => g :: gs));
        [apply safe_decodeRecType|apply costs_decodeRecType|intros; apply IH|].
    + cbv zeta. eapply (costs_bind 0 _ _ (fun _ => True)).
      * apply safe_if; intros _; [|by apply safe_ret].
        apply safe_reserveMetadataStorage; [done|apply to_u32_range].
      * intros _ _. by eapply (costs_both _ _ _ (fun st gs => {| SubTypes := [st] |} :: gs));
          [apply safe_decodeSubType|apply costs_decodeSubType|intros; apply IH|].
Qed.

Lemma costs_decodeTypeSection : costs groups_size decodeTypeSection.
Proof.
  unfold decodeTypeSection. eapply costs_bind; [apply safe_u32|]. intros n Hn.
  eapply costs_bind; [apply safe_ensureBudget|]. intros b _.
  eapply costs_bind; [apply (safe_get 0 ret (fun _ => True)); intros; by apply safe_ret|].
  intros r _. apply costs_if; [by intros ? ? ?|]. apply costs_if; [by intros ? ? ?|].
  eapply costs_bind; [apply safe_reserveMetadataStorage; [done|unfold u32_ok in Hn; lia]|].
  intros _ _. apply costs_decodeTypeSection_loop.
Qed.

(** C32: the type section is bounded: an accepted section declares at most half as
    many types as it has bytes, and no more than [MaxTypes] over the whole module,
    whatever the group counts in the input claim. *)
Theorem type_section_bounded r ts r' :
  reader_ok r -> decodeTypeSection r = (Ok ts, r') ->
  (2 * length (type_flat 0 ts) <= reader.pos r' - reader.pos r)%nat /\
  types (rd.the_budget r) + Z.of_nat (length (type_flat 0 ts)) <= types (rd.the_budget r') /\
  types (rd.the_budget r') <= MaxTypes (limits (rd.the_budget r)).
Proof.
  intros Hr H. rewrite groups_size_flat. pose proof (costs_decodeTypeSection r ts r' Hr H) as [H1 H2].
  pose proof (safe_decodeTypeSection r Hr) as Hs. rewrite H in Hs. destruct Hs as (Hr' & He & _).
  pose proof (rok_budget _ Hr') as [_ Hb]. rewrite (ext_limits _ _ _ He) in Hb.
  split; [lia|]. split; [done|apply Hb].
Qed.

Lemma type_section_bounded_witness :
  exists ts r', decodeTypeSection (reader.newReader [1; 0x60; 0; 0]) = (Ok ts, r') /\
    length (type_flat 0 ts) = 1%nat /\ (2 * length (type_flat 0 ts) <= reader.pos r' - 0)%nat.
Proof.
  assert (Hrun : match fst (decodeTypeSection (reader.newReader [1; 0x60; 0; 0])) with
                 | Ok ts => length (type_flat 0 ts) | _ => 0%nat end = 1%nat)
    by (vm_compute; reflexivity).
  destruct (decodeTypeSection (reader.newReader [1; 0x60; 0; 0])) as [[ts|e|] r'] eqn:E;
    [|discriminate Hrun..].
  exists ts, r'. split; [reflexivity|]. split; [exact Hrun|].
  apply (type_section_bounded (reader.newReader [1; 0x60; 0; 0]) ts r'); [|exact E].
  split; [|simpl; lia|vm_compute; split; split; discriminate].
  repeat (constructor; [unfold byte_ok; lia|]). constructor.
Defined.
