(* ===== verification/ModuleSafe.v ===== *)
(** * The skipper and the section decoders are safe

    The classifier of [Skip] under the safety logic of [ReaderLaws], and the
    loops of [ModuleDecode] that walk expressions: on every input they return or
    report an error, they never run out of fuel, and they stay in the input. *)

From stdpp Require Import base tactics numbers list.
From Stdlib Require Import ZArith Lia Sorted.
From S2P Require Import Prelude Reader LebSpec ReaderLaws ReaderExport Types TypesLaws Decode DecodeLaws Kinds.
From S2P Require Import Instr InstrLaws Skip SkipLaws Walk Module ModuleMeta ModuleDecode TypeBounds.
Local Open Scope Z_scope.

(** ** Safety of computations that also write the immediate *)

Definition csafe {A} (m : C A) (Q : A -> Prop) : Prop :=
  forall r i, reader_ok r ->
    match m (r, i) with
    | (Ok a, s) => reader_ok (fst s) /\ reader_ext 0 r (fst s) /\ Q a
    | (Err _, s) => reader_ok (fst s) /\ reader_ext 0 r (fst s)
    | (Panic, _) => False
    end.

Lemma csafe_ret {A} (a : A) (Q : A -> Prop) : Q a -> csafe (ret a) Q.
Proof. intros Ha r i Hr. split; [done|]. split; [apply reader_ext_refl|done]. Qed.

Lemma csafe_lift {A} k (m : R A) Q : safe k m Q -> csafe (lift m) Q.
Proof.
  intros H r i Hr. unfold lift. specialize (H r Hr). simpl.
  destruct (m r) as [[a|e|] r']; [|done|done]. destruct H as (? & ? & ?). simpl.
  split; [done|]. split; [|done]. eapply reader_ext_le; [|done]. lia.
Qed.

Lemma csafe_bind {A B} (m : C A) (f : A -> C B) Q1 Q :
  csafe m Q1 -> (forall a, Q1 a -> csafe (f a) Q) -> csafe (bind m f) Q.
Proof.
  intros Hm Hf r i Hr. unfold bind. specialize (Hm r i Hr).
  destruct (m (r, i)) as [[a|e|] [r1 i1]]; [|done|done]. simpl in Hm.
  destruct Hm as (Hr1 & He1 & Ha). specialize (Hf a Ha r1 i1 Hr1).
  destruct (f a (r1, i1)) as [[b|e|] [r2 i2]]; simpl in *; [| |done].
  - destruct Hf as (Hr2 & He2 & Hb). split; [done|]. split; [|done].
    change 0%nat with (0 + 0)%nat. by eapply reader_ext_trans.
  - destruct Hf as (Hr2 & He2). split; [done|]. change 0%nat with (0 + 0)%nat.
    by eapply reader_ext_trans.
Qed.

Lemma csafe_setImm f : csafe (setImm f) (fun _ => True).
Proof. intros r i Hr. simpl. split; [done|]. split; [apply reader_ext_refl|done]. Qed.

Lemma csafe_assign {A} k (m : R A) z f Q : safe k m Q -> csafe (assign m z f) (fun _ => True).
Proof.
  intros H r i Hr. unfold assign. specialize (H r Hr). simpl.
  destruct (m r) as [[a|e|] r']; [|done|done]. destruct H as (? & ? & ?). simpl.
  split; [done|]. split; [|done]. eapply reader_ext_le; [|done]. lia.
Qed.

Lemma csafe_assign_ok {A} k (m : R A) z f ok Q :
  safe k m Q -> csafe (assign_ok m z f ok) (fun _ => True).
Proof.
  intros H r i Hr. unfold assign_ok. specialize (H r Hr). simpl.
  destruct (m r) as [[a|e|] r']; [|done|done]. destruct H as (? & ? & ?). simpl.
  split; [done|]. split; [|done]. eapply reader_ext_le; [|done]. lia.
Qed.

(** A computation whose immediate is changed once more. *)
Lemma csafe_after {A} (m : C A) (g : InstructionImmediate -> InstructionImmediate) Q :
  csafe m Q -> csafe (fun s => let (o, s') := m s in (o, (fst s', g (snd s')))) Q.
Proof.
  intros H r i Hr. specialize (H r i Hr). by destruct (m (r, i)) as [[a|e|] s'].
Qed.

Lemma csafe_readSubopcode p : csafe (readSubopcode p) u32_ok.
Proof.
  intros r i Hr. unfold readSubopcode. pose proof (safe_u32 r Hr) as H. simpl.
  destruct (rd.u32 r) as [[a|e|] r']; [|done|done]. destruct H as (? & ? & ?). simpl.
  split; [done|]. split; [|done]. eapply reader_ext_le; [|done]. lia.
Qed.

Lemma csafe_fail {A} c d (Q : A -> Prop) : csafe (lift (fail_at c d)) Q.
Proof. apply (csafe_lift 0). apply safe_fail_at. Qed.

Lemma csafe_fail_opcode {A} op (Q : A -> Prop) : csafe (lift (fail_opcode op)) Q.
Proof. apply (csafe_lift 0). apply safe_fail_opcode. Qed.

Lemma safe_drop {A} k (m : R A) Q : safe k m Q -> safe k (m ;;; ret tt) (fun _ => True).
Proof. intros H. eapply safe_bind; [exact H|]. intros. apply safe_ret; [lia|done]. Qed.

(** ** The readers the skipper shares with the decoder *)

Lemma safe_skipValTypeBytes : safe 0 skipValTypeBytes (fun _ => True).
Proof. eapply safe_zero, safe_drop, safe_decodeValType. Qed.

Lemma safe_skipResultTypeBytes : safe 0 skipResultTypeBytes (fun _ => True).
Proof.
  unfold skipResultTypeBytes. eapply safe_bind; [eapply safe_zero, safe_u32|]. intros n _.
  eapply safe_drop, safe_zero, safe_repeatM, safe_skipValTypeBytes.
Qed.

Lemma safe_skipRefHeapTypeBytes : safe 0 skipRefHeapTypeBytes (fun _ => True).
Proof. eapply safe_zero, safe_drop, safe_decodeRefHeapType. Qed.

Lemma safe_skipCatchBytes : safe 0 skipCatchBytes (fun _ => True).
Proof. unfold skipCatchBytes. safe_go; done. Qed.

Lemma safe_skipCatchVecBytes : safe 0 skipCatchVecBytes (fun _ => True).
Proof.
  unfold skipCatchVecBytes. eapply safe_bind; [eapply safe_zero, safe_u32|]. intros n _.
  eapply safe_drop, safe_zero, safe_repeatM, safe_skipCatchBytes.
Qed.

Lemma safe_repeat_u32 n : safe 0 (repeatM n rd.u32) (fun _ => True).
Proof. eapply safe_true, safe_zero, safe_repeatM, safe_u32. Qed.

Lemma safe_reserved_or_u32 (multi : bool) :
  safe 0 (if multi then rd.u32 else (readReservedZeroByte ;;; ret 0)) (fun _ => True).
Proof.
  destruct multi; [eapply safe_true, safe_zero, safe_u32|].
  eapply safe_bind; [eapply safe_zero, safe_readReservedZeroByte|]. intros. by apply safe_ret.
Qed.

Create HintDb csafe discriminated.
#[export] Hint Resolve csafe_setImm csafe_readSubopcode csafe_fail csafe_fail_opcode : csafe.
#[export] Hint Resolve safe_skipResultTypeBytes safe_skipRefHeapTypeBytes safe_skipCatchVecBytes
  safe_repeat_u32 safe_reserved_or_u32 safe_drop safe_decodeBlockType safe_readMemoryIndex
  safe_decodeCastOp safe_decodeAtomicOrder safe_decodeHeapType safe_decodeRefHeapType
  safe_u32 safe_u64 safe_i32 safe_i64 safe_bytes safe_byte : csafe.
#[export] Hint Extern 2 (csafe (lift _) _) => eapply csafe_lift : csafe.
#[export] Hint Extern 2 (csafe (assign (if ?b then _ else _) _ _) _) => destruct b : csafe.
#[export] Hint Extern 3 (csafe (assign _ _ _) _) => eapply csafe_assign : csafe.
#[export] Hint Extern 2 (csafe (assign_ok _ _ _ _) _) => eapply csafe_assign_ok : csafe.

(** [csafe] along the structure of a classifier. *)
Ltac csafe_step :=
  lazymatch goal with
  | |- csafe (bind _ _) _ => eapply csafe_bind; [solve [eauto with csafe nocore]|intros]
  | |- csafe (if ?b then _ else _) _ => destruct b
  | |- csafe (match ?x with _ => _ end) _ => destruct x
  | |- csafe (ret _) _ => apply csafe_ret
  | |- csafe _ _ => solve [eauto with csafe nocore]
  end.
Ltac csafe_go := repeat csafe_step; try done.

Lemma csafe_memarg widths : csafe (classifyMemArgBytes widths) (fun _ => True).
Proof.
  unfold classifyMemArgBytes. csafe_step.
  eapply (csafe_bind _ _ (fun _ => True)); [|intros; csafe_go]. csafe_go.
Qed.

Lemma csafe_FC multi : csafe (classifyFCBytes multi) (fun _ => True).
Proof.
  unfold classifyFCBytes. eapply csafe_bind; [apply csafe_readSubopcode|]. intros sub _. csafe_go.
  - apply (csafe_after _ (fun i => set_UsesBulkMemory (sub =? 10)
             (set_TouchesMemory ((sub =? 8) || (sub =? 10)) i))). csafe_go.
  - apply (csafe_after _ (fun i => set_UsesBulkMemory true (set_TouchesMemory true i))). csafe_go.
Qed.

Lemma csafe_FB : csafe classifyFBBytes (fun _ => True).
Proof. unfold classifyFBBytes. csafe_go. Qed.

#[export] Hint Resolve csafe_memarg csafe_FC csafe_FB : csafe.

Lemma csafe_FD w : csafe (classifyFDBytes w) (fun _ => True).
Proof. unfold classifyFDBytes. csafe_go. Qed.

Lemma csafe_FE w : csafe (classifyFEBytes w) (fun _ => True).
Proof. unfold classifyFEBytes. csafe_go. Qed.

#[export] Hint Resolve csafe_FD csafe_FE : csafe.

Lemma csafe_classify op w multi :
  csafe (classifyExprOpAfterOpcodeWithWidths op w multi) (fun _ => True).
Proof. unfold classifyExprOpAfterOpcodeWithWidths. cbv zeta. csafe_go. Qed.

Lemma safe_skipExprOp : safe 1 skipExprOp (fun _ => True).
Proof.
  unfold skipExprOp. eapply safe_bind; [apply safe_byte|]. intros op _ r Hr.
  unfold skipExprOpAfterOpcode.
  pose proof (csafe_classify op (fixedMemargWidths false) false r zeroImm Hr) as H.
  by destruct (classifyExprOpAfterOpcodeWithWidths op _ _ _) as [[a|e|] s].
Qed.

(** ** The module decoder *)

(** ** Rules *)

(** The two cases of a loop [for r.has()] on its fuel. *)
Lemma fsafe_loop_O {A} k (stop : R A) Q :
  safe k stop Q ->
  fsafe 0 k (let! r := get in if negb (reader.has r) then stop else panic) Q.
Proof.
  intros Hs r Hr Hn. unfold bind, get. destruct (reader.has r) eqn:Eh; cbn [negb]; [|by apply Hs].
  unfold reader.has, reader.left in Eh. pose proof (rok_pos _ Hr). lia.
Qed.

Lemma fsafe_loop_S {A} n k (stop body : R A) Q :
  safe k stop Q -> fsafe (S n) k body Q ->
  fsafe (S n) k (let! r := get in if negb (reader.has r) then stop else body) Q.
Proof.
  intros Hs Hb r Hr Hn. unfold bind, get. destruct (reader.has r); cbn [negb]; [by apply Hb|by apply Hs].
Qed.

Lemma fsafe_safe {A} k (m : nat -> R A) Q :
  (forall n, fsafe n k (m n) Q) ->
  safe k (let! r := get in m (length (reader.data r))) Q.
Proof. intros H r Hr. unfold bind, get. apply H; [done|lia]. Qed.

Lemma fsafe_weaken {A} n n' k (m : R A) Q : (n' <= n)%nat -> fsafe n k m Q -> fsafe n' k m Q.
Proof. intros Hle H r Hr Hn. apply H; [done|lia]. Qed.

Lemma reader_ok_taken start r : reader_ok r -> bytes_ok (taken start r).
Proof. intros Hr. apply Forall_take, Forall_drop, Hr. Qed.

Lemma safe_taken (m : R unit) (k : nat) :
  safe k m (fun _ => True) ->
  safe k (let! r0 := get in m ;;; let! r := get in ret (taken (reader.pos r0) r)) bytes_ok.
Proof.
  intros H r Hr. specialize (H r Hr). unfold bind at 1, get at 1. unfold bind.
  destruct (m r) as [[a|e|] r']; [|done|done]. destruct H as (Hr' & He & _). simpl.
  split; [done|]. split; [done|]. by apply reader_ok_taken.
Qed.

(** Safety on the cursors over one buffer. *)
Definition safe_at {A} (data : list Z) (k : nat) (m : R A) (Q : A -> Prop) : Prop :=
  forall r, reader_ok r -> reader.data r = data ->
    match m r with
    | (Ok a, r') => reader_ok r' /\ reader_ext k r r' /\ Q a
    | (Err _, r') => reader_ok r' /\ reader_ext 0 r r'
    | (Panic, _) => False
    end.

Lemma safe_safe_at {A} data k (m : R A) Q : safe k m Q -> safe_at data k m Q.
Proof. intros H r Hr _. by apply H. Qed.

Lemma safe_at_bind {A B} data k k1 (m : R A) (f : A -> R B) Q1 Q :
  safe_at data k1 m Q1 -> (forall a, Q1 a -> safe_at data (k - k1) (f a) Q) ->
  safe_at data k (bind m f) Q.
Proof.
  intros Hm Hf r Hr Hd. unfold bind. specialize (Hm r Hr Hd).
  destruct (m r) as [[a|e|] r1]; [|done|done].
  destruct Hm as (Hr1 & He1 & Ha). pose proof (ext_data _ _ _ He1) as Hd1.
  specialize (Hf a Ha r1 Hr1 ltac:(congruence)).
  destruct (f a r1) as [[b|e|] r2]; [| |done].
  - destruct Hf as (Hr2 & He2 & Hb). split; [done|]. split; [|done].
    eapply reader_ext_le; [|eapply reader_ext_trans; eauto]. lia.
  - destruct Hf as (Hr2 & He2). split; [done|].
    eapply reader_ext_le; [|eapply reader_ext_trans; eauto]. lia.
Qed.

(** The budget a cursor over a part of the input leaves to its parent. *)
Lemma safe_on_sub_at {A} k (m : R A) Q payload :
  bytes_ok payload -> safe_at payload k m Q ->
  safe 0 (on_sub payload m) (fun p => Q (fst p) /\ reader_ok (snd p) /\
    reader.data (snd p) = payload /\ (k <= reader.pos (snd p))%nat).
Proof.
  intros Hp Hm r Hr. unfold on_sub.
  set (sub0 := {| reader.data := payload; reader.pos := 0; reader.budget := reader.budget r |}).
  assert (Hb0 : rd.the_budget sub0 = rd.the_budget r) by done.
  assert (Hs0 : reader_ok sub0).
  { split; [done|simpl; lia|]. rewrite Hb0. apply Hr. }
  specialize (Hm sub0 Hs0 eq_refl). destruct (m sub0) as [o sub].
  assert (Hpart : reader_ok sub -> reader_ext 0 sub0 sub ->
    reader_ok (match reader.budget r with
            | Some _ => {| reader.data := reader.data r; reader.pos := reader.pos r;
                           reader.budget := reader.budget sub |}
            | None => r end) /\
    reader_ext 0 r (match reader.budget r with
            | Some _ => {| reader.data := reader.data r; reader.pos := reader.pos r;
                           reader.budget := reader.budget sub |}
            | None => r end)).
  { intros Hsub [_ _ E3 E4 E5]. rewrite Hb0 in E3, E4, E5.
    destruct (reader.budget r); [|by split; [|apply reader_ext_refl]].
    split; split; simpl; try apply Hr; try done; try lia. apply Hsub. }
  destruct o as [a|e|]; [| |done].
  - destruct Hm as (Hok & Hext & Ha).
    destruct (Hpart Hok ltac:(eapply reader_ext_le; [|exact Hext]; lia)) as [H1 H2].
    split; [done|]. split; [done|]. simpl. split; [done|]. split; [done|].
    destruct Hext as [E1 E2 _ _ _]. split; [done|]. simpl in E2. lia.
  - destruct Hm as (Hok & Hext). by apply Hpart.
Qed.

Lemma safe_on_sub {A} k (m : R A) Q payload :
  bytes_ok payload -> safe k m Q ->
  safe 0 (on_sub payload m) (fun p => Q (fst p) /\ reader_ok (snd p) /\
    reader.data (snd p) = payload /\ (k <= reader.pos (snd p))%nat).
Proof. intros Hp Hm. by apply safe_on_sub_at, safe_safe_at. Qed.

Lemma safe_with_error {A} k f (m : R A) Q : safe k m Q -> safe k (with_error f m) Q.
Proof.
  intros H r Hr. unfold with_error. specialize (H r Hr). by destruct (m r) as [[a|e|] r'].
Qed.

(** ** Ordered tables *)

Lemma ascending_sorted {A} (key : A -> Z) l :
  ascending key l = true -> StronglySorted (fun a b => key a < key b) l.
Proof.
  intros H. apply Sorted_StronglySorted; [intros x y z; lia|].
  induction l as [|x l IH]; [constructor|]. destruct l as [|y l]; [by repeat constructor|].
  cbn [ascending] in H. apply andb_prop in H as [H1 H2]. apply negb_true_iff in H1.
  constructor; [by apply IH|]. constructor. lia.
Qed.

(** ** Names *)

Lemma safe_decodeNameMap :
  safe 1 decodeNameMap (fun m => StronglySorted (fun a b => NIndex a < NIndex b) m).
Proof.
  unfold decodeNameMap. eapply safe_bind.
  - eapply (safe_readMetadataVec _ 0 _ (fun _ => True)); [done|].
    eapply safe_bind; [eapply safe_zero, safe_u32|]. intros i _.
    eapply safe_bind; [eapply safe_zero, safe_name|]. intros n _. by apply safe_ret.
  - intros l _. apply safe_if; intros E; [|apply safe_fail_at].
    apply safe_ret; [lia|]. by apply ascending_sorted.
Qed.

Lemma safe_decodeIndirectNameMap : safe 1 decodeIndirectNameMap (fun _ => True).
Proof.
  unfold decodeIndirectNameMap. eapply safe_bind.
  - eapply (safe_readMetadataVec _ 0 _ (fun _ => True)); [done|].
    eapply safe_bind; [eapply safe_zero, safe_u32|]. intros i _.
    eapply safe_bind; [eapply safe_zero, safe_decodeNameMap|]. intros n _. by apply safe_ret.
  - intros l _. apply safe_if; intros E; [|apply safe_fail_at]. by apply safe_ret.
Qed.

Lemma safe_decodeNameSubsection id ns : safe 0 (decodeNameSubsection id ns) (fun _ => True).
Proof.
  unfold decodeNameSubsection. apply safe_if; intros _.
  { eapply safe_bind; [eapply safe_zero, safe_name|]. intros. by apply safe_ret. }
  apply safe_if; intros _.
  { eapply safe_bind; [eapply safe_zero, safe_decodeNameMap|]. intros. by apply safe_ret. }
  apply safe_if; intros _; [|by apply safe_ret].
  eapply safe_bind; [eapply safe_zero, safe_decodeIndirectNameMap|]. intros. by apply safe_ret.
Qed.

Lemma fsafe_decodeNameSec_loop fuel prev ns :
  fsafe fuel 0 (decodeNameSec_loop fuel prev ns) (fun _ => True).
Proof.
  revert prev ns. induction fuel as [|fuel IH]; intros prev ns; cbn [decodeNameSec_loop].
  - by apply fsafe_loop_O, safe_ret.
  - apply fsafe_loop_S; [by apply safe_ret|].
    eapply fsafe_bind; [eapply safe_fsafe, safe_byte|]. intros _ id _.
    apply fsafe_if; [eapply safe_fsafe, safe_fail_at|].
    eapply fsafe_bind; [eapply safe_fsafe, safe_zero, safe_u32|]. intros _ size Hsize.
    eapply fsafe_bind; [eapply safe_fsafe, safe_zero, safe_bytes|]. intros _ subb (_ & _ & Hb).
    eapply fsafe_bind; [eapply safe_fsafe, safe_on_sub; [done|apply safe_decodeNameSubsection]|].
    intros _ [[ns' known] sub] _. apply fsafe_if; [eapply safe_fsafe, safe_fail_at|].
    eapply fsafe_weaken; [|eapply fsafe_mono; [apply IH|lia]]. lia.
Qed.

Lemma safe_decodeNameSecWithBudget : safe 0 decodeNameSecWithBudget (fun _ => True).
Proof.
  unfold decodeNameSecWithBudget.
  eapply safe_bind; [by apply safe_reserveMetadataStorage|]. intros _ _.
  apply (fsafe_safe 0 (fun n => decodeNameSec_loop n None zeroNameSec)).
  intros n. apply fsafe_decodeNameSec_loop.
Qed.

Lemma safe_decodeOptionalNameSec payload :
  bytes_ok payload -> safe 0 (decodeOptionalNameSec payload) (fun _ => True).
Proof.
  intros Hp r Hr. unfold decodeOptionalNameSec.
  pose proof (safe_on_sub 0 _ _ payload Hp safe_decodeNameSecWithBudget r Hr) as H.
  destruct (on_sub payload decodeNameSecWithBudget r) as [[[ns sub]|e|] r']; [|destruct e|done];
    cbv beta iota in H |- *; tauto.
Qed.

(** ** Hints *)

Lemma safe_decodeBranchHint : safe 2 decodeBranchHint (fun _ => True).
Proof. unfold decodeBranchHint. safe_go; done. Qed.

Definition hints_wf (l : list FuncBranchHints) : Prop :=
  hints_sorted l /\
  Forall (fun f => StronglySorted (fun a b => BHOffset a < BHOffset b) (Hints f)) l.

Lemma safe_decodeBranchHintSection : safe 1 decodeBranchHintSectionWithBudget hints_wf.
Proof.
  unfold decodeBranchHintSectionWithBudget. eapply safe_bind.
  - eapply (safe_readMetadataVec _ 0 _ (fun _ => True)); [done|].
    eapply safe_bind; [eapply safe_zero, safe_u32|]. intros i _.
    eapply safe_bind; [eapply safe_zero, safe_readMetadataVec; [done|apply safe_decodeBranchHint]|].
    intros. by apply safe_ret.
  - intros l _. apply safe_get. intros r _. apply safe_if; intros _; [apply safe_fail_at|].
    apply safe_if; intros E1; [apply safe_fail_at|]. apply safe_if; intros E2; [apply safe_fail_at|].
    apply safe_ret; [lia|]. apply negb_false_iff in E1, E2. split; [by apply ascending_sorted|].
    rewrite forallb_forall in E2. apply Forall_forall. intros f Hf. apply ascending_sorted, E2.
    by apply list_elem_of_In.
Qed.

(** ** Expressions *)

Lemma fsafe_skipConstExpr fuel depth : fsafe fuel 1 (skipConstExpr fuel depth) (fun _ => True).
Proof.
  revert depth. induction fuel as [|fuel IH]; intros depth; cbn [skipConstExpr].
  - apply fsafe_loop_O, safe_fail_at.
  - apply fsafe_loop_S; [apply safe_fail_at|]. eapply fsafe_bind; [eapply safe_fsafe, safe_skipExprOp|].
    intros _ op _. replace (S fuel - 1)%nat with fuel by lia.
    assert (Hrec : forall d, fsafe fuel (1 - 1) (skipConstExpr fuel d) (fun _ => True)).
    { intros d. eapply fsafe_mono; [apply IH|lia]. }
    destruct op; try apply Hrec; apply fsafe_if; try apply Hrec;
      (eapply safe_fsafe, safe_fail_at) || (by apply fsafe_ret).
Qed.

(** The bytes of a constant expression: not empty, like those of a body. *)
Definition const_bytes (l : list Z) : Prop := bytes_ok l /\ l <> [].

Lemma safe_readDirectConstExprBytes : safe 1 readDirectConstExprBytes const_bytes.
Proof.
  intros r Hr. unfold readDirectConstExprBytes.
  pose proof (safe_taken (skipConstExpr (length (reader.data r)) 0) 1) as H.
  unfold bind at 1, get at 1.
  pose proof (fsafe_skipConstExpr (length (reader.data r)) 0 r Hr ltac:(lia)) as Hs.
  unfold bind. destruct (skipConstExpr _ 0 r) as [[a|e|] r']; [|done|done].
  destruct Hs as (Hr' & He & _). simpl. split; [done|]. split; [done|]. split; [by apply reader_ok_taken|].
  pose proof (ext_pos _ _ _ He). pose proof (rok_pos _ Hr'). intros E. apply (f_equal length) in E.
  unfold taken in E. rewrite length_take, length_drop in E. simpl in E. lia.
Qed.

Lemma safe_readDirectConstExprVec : safe 1 readDirectConstExprVec (Forall const_bytes).
Proof.
  unfold readDirectConstExprVec. eapply safe_bind; [apply safe_u32|]. intros n Hn.
  eapply safe_bind; [apply safe_reserveDecodedSlice; [done|unfold u32_ok in Hn; lia]|]. intros _ _.
  eapply safe_mono; [eapply safe_repeatM, safe_readDirectConstExprBytes|lia|]. by intros l [_ ?].
Qed.
#[export] Hint Resolve safe_readDirectConstExprBytes safe_readDirectConstExprVec : safe.

(** ** Tables, globals, data, elements *)

Lemma safe_decodeDirectTable :
  safe 1 decodeDirectTable (fun p => table_decoded (fst p) /\ forall b, snd p = Some b -> const_bytes b).
Proof. unfold decodeDirectTable. safe_go; try lia; split; try done; cbn [snd]; intros; congruence. Qed.

Lemma safe_decodeDirectGlobal :
  safe 1 decodeDirectGlobal (fun p => decoded_val (GType (fst p)) /\ const_bytes (snd p)).
Proof. unfold decodeDirectGlobal. safe_go; try lia; done. Qed.

(** An active segment comes with its offset. *)
Definition data_consts (d : Data) : Prop :=
  DMKind (DMode d) = DataActive -> const_bytes (BodyBytes (DMOffset (DMode d))).

Lemma safe_decodeDirectData :
  safe 1 decodeDirectData (fun p => bytes_ok (DInit (fst p)) /\ data_consts (placeData p)).
Proof.
  unfold decodeDirectData. eapply safe_bind; [apply safe_u32|]. intros flags _.
  eapply (safe_bind _ 0 _ _ (fun mo => DMKind (fst mo) = DataActive -> const_bytes (snd mo))).
  - repeat (apply safe_if; intros _); safe_go; done || lia.
  - intros [mo off] Hmo. eapply safe_bind; [eapply safe_zero, safe_u32|]. intros n _.
    eapply safe_bind; [eapply safe_zero, safe_bytes|]. intros init (_ & _ & Hb).
    apply safe_ret; [done|]. split; [done|]. unfold data_consts, placeData. cbn [fst snd DMode] in *.
    destruct (Z.eqb_spec (DMKind mo) DataActive); [|done]. intros _. cbn. by apply Hmo.
Qed.

Lemma safe_readElemKind : safe 1 readElemKind (fun _ => True).
Proof. unfold readElemKind. safe_go; done. Qed.

Lemma safe_readDirectFuncIdxSummary : safe 1 readDirectFuncIdxSummary (Forall u32_ok).
Proof.
  unfold readDirectFuncIdxSummary. eapply safe_bind; [apply safe_u32|]. intros n Hn.
  eapply safe_bind; [apply safe_reserveDecodedSlice; [done|unfold u32_ok in Hn; lia]|]. intros _ _.
  eapply safe_mono; [eapply safe_repeatM, safe_u32|lia|]. by intros l [_ ?].
Qed.
#[export] Hint Resolve safe_decodeDirectTable safe_decodeDirectGlobal safe_decodeDirectData
  safe_readElemKind safe_readDirectFuncIdxSummary : safe.

(** The summary of a segment agrees with its functions: [maxFunc] bounds them. *)
Definition elem_wf (e : directElem) : Prop :=
  Forall (fun x => x <= deMaxFunc e) (deFuncs e) /\ Forall u32_ok (deFuncs e) /\
  (deHasFuncs e = false -> deFuncs e = []) /\ (deHasFuncs e = true -> deMaxFunc e ∈ deFuncs e).

Lemma funcs_max_spec l acc :
  let '(has, mx) := funcs_max acc l in
  (forall x, x ∈ l -> x <= mx) /\ (fst acc = true -> snd acc <= mx /\ has = true) /\
  (has = false -> l = []) /\ (has = true -> mx ∈ l \/ (fst acc = true /\ mx = snd acc)).
Proof.
  revert acc. induction l as [|x l IH]; intros [h m]; cbn [funcs_max].
  - split; [intros x Hx; by apply not_elem_of_nil in Hx|]. simpl. split; [intros ->; lia|].
    split; [done|]. intros ->. by right.
  - cbn [fst snd]. specialize (IH (if negb h || (m <? x) then (true, x) else (h, m))).
    destruct (funcs_max _ l) as [has mx]. destruct IH as (H1 & H2 & H3 & H4).
    assert (Hx : x <= mx /\ has = true).
    { destruct (negb h || (m <? x)) eqn:E; cbn [fst snd] in H2; [destruct (H2 eq_refl); split; [lia|done]|].
      apply orb_false_iff in E as [E1 E2]. apply negb_false_iff in E1. destruct (H2 E1). split; [lia|done]. }
    split; [|split; [|split]].
    + intros y Hy. apply elem_of_cons in Hy as [->|Hy]; [lia|auto].
    + intros ->. split; [|tauto]. destruct (negb true || (m <? x)) eqn:E; cbn [fst snd] in H2.
      * destruct (H2 eq_refl). simpl in E. lia.
      * destruct (H2 eq_refl). lia.
    + intros ->. destruct Hx. congruence.
    + intros Hh. destruct (H4 Hh) as [Hin|[Hf ->]]; [left; by right|].
      destruct (negb h || (m <? x)) eqn:E; cbn [fst snd] in *; [left; left|].
      by right.
Qed.

(** An active segment comes with its offset, and its entries are expressions. *)
Definition elem_consts (e : directElem) : Prop :=
  (deMode e = ElemActive -> const_bytes (deOffset e)) /\ Forall const_bytes (deExprs e).

Lemma funcsElem_wf mode t off fs : Forall u32_ok fs -> elem_wf (funcsElem mode t off fs).
Proof.
  intros Hf. unfold elem_wf, funcsElem. simpl.
  pose proof (funcs_max_spec fs (false, 0)) as H. destruct (funcs_max (false, 0) fs) as [h m].
  destruct H as (H1 & _ & H3 & H4). simpl. rewrite Forall_forall. split; [done|]. split; [done|].
  split; [done|]. intros Hh. destruct (H4 Hh) as [?|[? _]]; done.
Qed.

Lemma exprsElem_wf mode t off k rt es : elem_wf (exprsElem mode t off k rt es).
Proof. repeat split; simpl; try done; constructor. Qed.

Lemma safe_decodeDirectElem : safe 1 decodeDirectElem (fun e => elem_wf e /\ elem_consts e).
Proof.
  unfold decodeDirectElem. eapply safe_bind; [apply safe_u32|]. intros flags _.
  repeat (apply safe_if; intros _); safe_go; try lia;
    (split; [first [by apply funcsElem_wf|apply exprsElem_wf]|]; split; cbn; try done; apply Forall_nil_2).
Qed.
#[export] Hint Resolve safe_decodeDirectElem : safe.

(** ** Code *)

Lemma fsafe_skipFuncExpr fuel stack uses w multi :
  fsafe fuel 1 (skipFuncExpr fuel stack uses w multi) (fun _ => True).
Proof.
  revert stack uses. induction fuel as [|fuel IH]; intros stack uses; cbn [skipFuncExpr].
  - apply fsafe_loop_O, safe_fail_at.
  - apply fsafe_loop_S; [apply safe_fail_at|]. eapply fsafe_bind; [eapply safe_fsafe, safe_byte|].
    intros _ op _. replace (S fuel - 1)%nat with fuel by lia. intros r Hr Hn.
    pose proof (csafe_classify op w multi r zeroImm Hr) as Hc.
    destruct (classifyExprOpAfterOpcodeWithWidths op w multi (r, zeroImm)) as [[k|e|] [r2 imm]];
      simpl in Hc; [|done|done].
    destruct Hc as (Hr2 & He2 & _). cbv zeta. set (u := uses || usesDataCount (mKind imm)).
    assert (Hrec : forall st, fsafe fuel 0 (skipFuncExpr fuel st u w multi) (fun _ => True)).
    { intros st. eapply fsafe_mono; [apply IH|lia]. }
    match goal with |- match ?m r2 with _ => _ end =>
      assert (Hm : fsafe fuel 0 m (fun _ => True)) end.
    { destruct k; try apply Hrec.
      - apply fsafe_if; [eapply safe_fsafe, safe_fail_at|apply Hrec].
      - apply fsafe_if; [eapply safe_fsafe, safe_fail_at|apply Hrec].
      - apply fsafe_if; [eapply safe_fsafe, safe_fail_at|apply Hrec].
      - apply fsafe_if; [eapply safe_fsafe, safe_fail_at|apply Hrec].
      - destruct stack; [eapply safe_fsafe, safe_fail_at|].
        apply fsafe_if; [eapply safe_fsafe, safe_fail_at|apply Hrec].
      - destruct stack; [by apply fsafe_ret|apply Hrec]. }
    assert (Hn2 : (length (reader.data r2) - reader.pos r2 <= fuel)%nat).
    { pose proof (ext_pos _ _ _ He2). rewrite (ext_data _ _ _ He2). lia. }
    specialize (Hm r2 Hr2 Hn2). destruct (_ r2) as [[a|e|] r3]; [| |done].
    + destruct Hm as (? & ? & ?). split; [done|]. split; [|done].
      change (1 - 1)%nat with (0 + 0)%nat. by eapply reader_ext_trans.
    + destruct Hm as (? & ?). split; [done|]. change 0%nat with (0 + 0)%nat. by eapply reader_ext_trans.
Qed.

(** The bytes of a body: not empty and shorter than 2^32. *)
Definition expr_bytes (l : list Z) : Prop :=
  bytes_ok l /\ l <> [] /\ Z.of_nat (length l) < 2 ^ 32.

Lemma safe_readDirectFuncExprBytes w multi data :
  Z.of_nat (length data) < 2 ^ 32 ->
  safe_at data 1 (readDirectFuncExprBytes w multi) (fun p => expr_bytes (fst p)).
Proof.
  intros Hlen r Hr Hdata. unfold readDirectFuncExprBytes. unfold bind at 1, get at 1. unfold bind.
  pose proof (fsafe_skipFuncExpr (length (reader.data r)) [] false w multi r Hr ltac:(lia)) as H.
  destruct (skipFuncExpr _ _ _ _ _ r) as [[a|e|] r']; [|done|done].
  destruct H as (Hr' & He & _). simpl. split; [done|]. split; [done|].
  pose proof (ext_pos _ _ _ He). pose proof (rok_pos _ Hr') as Hp.
  assert (Hl : length (taken (reader.pos r) r') = (reader.pos r' - reader.pos r)%nat).
  { unfold taken. rewrite length_take, length_drop. lia. }
  rewrite (ext_data _ _ _ He), Hdata in Hp.
  split; [by apply reader_ok_taken|]. rewrite Hl. split; [|lia].
  intros E. rewrite E in Hl. simpl in Hl. lia.
Qed.

Record func_wf (f : Func) : Prop := {
  fw_runs : Forall run_decoded (FLocals f);
  fw_total : run_total (FLocals f) < 2 ^ 32;
  fw_body : expr_bytes (FBodyBytes f)
}.

Lemma safe_decodeDirectBody w multi : safe 1 (decodeDirectBody w multi) (fun p => func_wf (fst p)).
Proof.
  unfold decodeDirectBody. eapply safe_bind; [apply safe_u32|]. intros size Hs. unfold u32_ok in Hs.
  eapply safe_bind; [eapply safe_zero, safe_bytes|]. intros body (_ & Hlen & Hb).
  apply safe_get. intros r _.
  eapply safe_bind.
  - eapply safe_with_error, safe_on_sub_at; [done|].
    eapply (safe_at_bind _ 2 1); [apply safe_safe_at, safe_decodeLocals|]. intros locals Hl.
    eapply safe_at_bind; [apply safe_readDirectFuncExprBytes; lia|]. intros ex Hex.
    apply safe_safe_at.
    apply (safe_ret _ _ (fun p => (Forall run_decoded (fst p) /\ run_total (fst p) < 2 ^ 32) /\
                                 expr_bytes (fst (snd p)))); [lia|done].
  - intros [[locals [ex uses]] sub] ([[H1 H2] H3] & _). simpl in *.
    apply safe_if; intros _; [apply safe_fail|]. apply safe_ret; [lia|]. by split.
Qed.

Lemma safe_decodeDirectCodeSection w multi :
  safe 1 (decodeDirectCodeSectionWithWidths w multi) (fun p => Forall func_wf (fst p)).
Proof.
  unfold decodeDirectCodeSectionWithWidths. eapply safe_bind; [apply safe_u32|]. intros n Hn.
  eapply safe_bind; [apply safe_reserveDecodedSlice; [done|unfold u32_ok in Hn; lia]|]. intros _ _.
  apply safe_get. intros r Hr. eapply safe_bind.
  { apply safe_reserve; [|lia]. unfold reader.left, maxInstructionNestingDepth.
    pose proof (rok_pos _ Hr). lia. }
  intros _ _. eapply safe_bind; [eapply safe_zero, safe_repeatM, safe_decodeDirectBody|].
  intros fs [_ Hf]. apply safe_ret; [lia|]. simpl. by apply Forall_map.
Qed.

(** ** Coalesced runs *)

Definition runs_wf (runs : list LocalRun) : Prop :=
  Forall run_decoded runs /\ run_total runs < 2 ^ 32.

Lemma run_decoded_nonneg runs : Forall run_decoded runs -> 0 <= run_total runs.
Proof. induction 1 as [|r l [[H _] _]]; simpl; lia. Qed.

Lemma coalesce_from_wf runs cur :
  run_decoded cur -> Forall run_decoded runs -> Count cur + run_total runs < 2 ^ 32 ->
  Forall run_decoded (coalesce_from cur runs) /\
  run_total (coalesce_from cur runs) = Count cur + run_total runs.
Proof.
  intros Hc Hr. revert cur Hc. induction Hr as [|r rest Hd Hr IH]; intros cur Hc Ht; simpl in *.
  - split; [constructor; [done|constructor]|lia].
  - pose proof (run_decoded_nonneg rest Hr). destruct Hd as [[Hr0 Hr1] Hv], Hc as [[Hc0 Hc1] Hvc].
    destruct (word2_eqb (LType cur) (LType r)).
    + destruct (IH {| Count := to_u32 (Count cur + Count r); LType := LType cur |}) as [H1 H2]; simpl.
      * rewrite to_u32_small by lia. split; [unfold u32_ok; simpl; lia|done].
      * rewrite to_u32_small by lia. lia.
      * split; [done|]. rewrite H2. simpl. rewrite to_u32_small by lia. lia.
    + destruct (IH r) as [H1 H2]; [done|lia|]. split; [by constructor|]. simpl. rewrite H2. lia.
Qed.

Lemma coalesce_wf runs : runs_wf runs -> runs_wf (coalesceCompilerLocalRuns runs).
Proof.
  intros [Hr Ht]. destruct Hr as [|r rest Hd Hr]; [by split|]. simpl in *.
  destruct (coalesce_from_wf rest r Hd Hr Ht) as [H1 H2]. split; [done|]. by rewrite H2.
Qed.

Lemma safe_decodePendingBody : safe 1 decodePendingBody func_wf.
Proof.
  unfold decodePendingBody. eapply safe_bind; [apply safe_u32|]. intros size Hs. unfold u32_ok in Hs.
  eapply safe_bind; [eapply safe_zero, safe_bytes|]. intros body (_ & Hlen & Hb).
  apply safe_get. intros r _. eapply safe_bind.
  - eapply safe_with_error, safe_on_sub; [done|apply safe_decodeLocals].
  - intros [locals sub] (Hl & Hok & Hd & _). simpl in *. apply safe_if; intros Eh; [apply safe_fail|].
    apply negb_false_iff in Eh. apply safe_ret; [lia|].
    assert (Hruns : runs_wf (if (1 <? length locals)%nat then coalesceCompilerLocalRuns locals else locals)).
    { destruct (_ <? _)%nat; [by apply coalesce_wf|done]. }
    split; simpl; [apply Hruns|apply Hruns|]. split; [apply Forall_drop, Hok|].
    split; [|rewrite length_drop, Hd; lia]. intros E. apply (f_equal length) in E. rewrite length_drop in E. simpl in E.
    unfold reader.has, reader.left in Eh. lia.
Qed.

Lemma safe_decodePendingCodeSection : safe 1 decodePendingCodeSection (Forall func_wf).
Proof.
  unfold decodePendingCodeSection. eapply safe_bind; [apply safe_u32|]. intros n Hn.
  eapply safe_bind; [apply safe_reserveDecodedSlice; [done|unfold u32_ok in Hn; lia]|]. intros _ _.
  apply safe_get. intros r Hr. eapply safe_bind.
  { apply safe_reserve; [|lia]. unfold reader.left, maxInstructionNestingDepth.
    pose proof (rok_pos _ Hr). lia. }
  intros _ _. eapply safe_mono; [eapply safe_repeatM, safe_decodePendingBody|lia|]. by intros l [_ ?].
Qed.

(** ** The invariant of the section loop *)

(** An element segment agrees with its summary on mode, table, kind and type. *)
Definition same_header (e : Elem) (de : directElem) : Prop :=
  EMKind (EMode e) = deMode de /\ EMTable (EMode e) = deTable de /\ EKKind (EElems e) = deKind de /\
  EKRef (EElems e) = deRef de.

(** Initializers: a table whose bit is not set has none. *)
Record consts_wf (d : directModule) : Prop := {
  cw_tables : Forall2 (fun h b => h = true -> const_bytes b) (tableHasInit (direct_ d)) (tableInits (direct_ d));
  cw_plain : forall i t, Tables (dm d) !! i = Some t -> tableHasInit (direct_ d) !! i <> Some true -> TInit t = None;
  cw_globals : Forall const_bytes (globalInits (direct_ d));
  cw_elems : Forall elem_consts (elements (direct_ d));
  cw_headers : Forall2 same_header (Elements (dm d)) (elements (direct_ d));
  cw_data : Forall data_consts (Data_ (dm d))
}.

Record module_wf (d : directModule) : Prop := {
  wf_types : exists ts, Types_ (dm d) = markRecursiveTypeIndexes ts /\ Forall rec_decoded ts /\
    Z.of_nat (length (type_flat 0 ts)) < 2 ^ 32;
  wf_imports : Forall import_decoded (Imports (dm d));
  wf_funcs : Forall plain_idx (FuncTypes (dm d));
  wf_mems : Forall mem_decoded (Memories (dm d));
  wf_tables : Forall (fun t => table_decoded (TType t)) (Tables (dm d));
  wf_globals : Forall (fun g => decoded_val (GType (GTy g))) (Globals (dm d));
  wf_code : Forall func_wf (Code_ (dm d));
  wf_hints : hints_wf (BranchHints (dm d));
  wf_elems : Forall elem_wf (elements (direct_ d));
  wf_env : length (tableHasInit (direct_ d)) = length (Tables (dm d)) /\
           length (tableInits (direct_ d)) = length (Tables (dm d)) /\
           length (globalInits (direct_ d)) = length (Globals (dm d)) /\
           length (elements (direct_ d)) = length (Elements (dm d));
  wf_consts : consts_wf d
}.

Lemma zero_wf : module_wf zeroDirectModule.
Proof.
  split; simpl; try done; try apply Forall_nil_2;
    [by exists []|by split; [apply SSorted_nil|apply Forall_nil_2]].
Qed.

(** Fields a section does not touch. *)
Ltac wf_same H :=
  let Hc := fresh "Hconsts" in
  destruct H as [? ? ? ? ? ? ? ? ? ? Hc]; split; simpl in *;
  try done; try (destruct Hc; split; simpl in *; done).

Lemma safe_decodeDirectCustomSection d :
  module_wf d -> safe 1 (decodeDirectCustomSection d) module_wf.
Proof.
  intros Hd. unfold decodeDirectCustomSection.
  eapply safe_bind; [apply safe_reserve; lia|]. intros _ _.
  eapply safe_bind; [apply safe_name|]. intros name [Hname _].
  apply safe_get. intros r0 Hr0. eapply safe_bind.
  { apply safe_reserve; [|lia]. unfold reader.left. pose proof (rok_pos _ Hr0). lia. }
  intros _ _. apply safe_get. intros r1 _.
  eapply safe_bind; [eapply safe_zero, safe_bytes|]. intros payload (_ & _ & Hp). cbv zeta.
  eapply (safe_bind _ 0 _ _ module_wf).
  { apply safe_if; intros _; [|by apply safe_ret].
    eapply safe_bind; [by apply safe_decodeOptionalNameSec|]. intros ns _.
    apply safe_ret; [done|]. by wf_same Hd. }
  intros d1 Hd1. eapply (safe_bind _ 0 _ _ module_wf).
  { apply safe_if; intros _; [|by apply safe_ret]. apply safe_if; intros _; [apply safe_fail_at|].
    apply safe_get. intros r2 _.
    eapply safe_bind; [eapply safe_with_error, safe_on_sub; [done|apply safe_decodeBranchHintSection]|].
    intros [hints sub] (Hh & _). simpl in Hh. apply safe_ret; [done|]. by wf_same Hd1. }
  intros d2 Hd2. apply safe_ret; [lia|].
  destruct (_ && _); by wf_same Hd2.
Qed.

Lemma safe_decodeDirectTableSection d :
  module_wf d -> safe 1 (decodeDirectTableSection d) module_wf.
Proof.
  intros Hd. unfold decodeDirectTableSection. eapply safe_bind; [apply safe_u32|]. intros n Hn.
  eapply safe_bind; [apply safe_reserveDecodedSlice; [done|unfold u32_ok in Hn; lia]|]. intros _ _.
  eapply safe_bind; [eapply safe_zero, safe_repeatM, safe_decodeDirectTable|]. intros ts [_ Ht].
  apply Forall_and in Ht as [Ht Hi]. apply safe_ret; [lia|]. wf_same Hd.
  - by apply Forall_map.
  - rewrite !length_map. tauto.
  - destruct Hconsts. split; simpl; try done.
    + rewrite Forall2_fmap. apply Forall_Forall2_diag. eapply Forall_impl; [exact Hi|].
      intros [t [b|]] H; cbn; [intros _; by apply H|done].
    + intros i t H _. rewrite list_lookup_fmap in H. destruct (ts !! i); [|done]. by injection H as <-.
Qed.

Lemma safe_decodeDirectGlobalSection d :
  module_wf d -> safe 1 (decodeDirectGlobalSection d) module_wf.
Proof.
  intros Hd. unfold decodeDirectGlobalSection. eapply safe_bind; [apply safe_u32|]. intros n Hn.
  eapply safe_bind; [apply safe_reserveDecodedSlice; [done|unfold u32_ok in Hn; lia]|]. intros _ _.
  eapply safe_bind; [eapply safe_zero, safe_repeatM, safe_decodeDirectGlobal|]. intros ts [_ Ht].
  apply Forall_and in Ht as [Ht Hi]. apply safe_ret; [lia|]. wf_same Hd.
  - by apply Forall_map.
  - rewrite !length_map. tauto.
  - destruct Hconsts. split; simpl; try done. by apply Forall_map.
Qed.

Lemma safe_decodeDirectElementSection d :
  module_wf d -> safe 1 (decodeDirectElementSection d) module_wf.
Proof.
  intros Hd. unfold decodeDirectElementSection. eapply safe_bind; [apply safe_u32|]. intros n Hn.
  eapply safe_bind; [apply safe_reserveDecodedSlice; [done|unfold u32_ok in Hn; lia]|]. intros _ _.
  eapply safe_bind; [eapply safe_zero, safe_repeatM, safe_decodeDirectElem|]. intros ts [_ Ht].
  apply Forall_and in Ht as [Ht Hi]. apply safe_ret; [lia|]. wf_same Hd.
  - rewrite !length_map. tauto.
  - destruct Hconsts. split; simpl; try done. rewrite Forall2_fmap_l. by apply Forall_Forall2_diag, Forall_true.
Qed.

Lemma safe_decodeDirectDataSection d :
  module_wf d -> safe 1 (decodeDirectDataSection d) module_wf.
Proof.
  intros Hd. unfold decodeDirectDataSection. eapply safe_bind; [apply safe_u32|]. intros n Hn.
  eapply safe_bind; [apply safe_reserveDecodedSlice; [done|unfold u32_ok in Hn; lia]|]. intros _ _.
  apply safe_get. intros r _. apply safe_if; intros _; [apply safe_fail_at|].
  eapply safe_bind; [eapply safe_zero, safe_repeatM, safe_decodeDirectData|]. intros ts [_ Ht].
  apply Forall_and in Ht as [_ Ht]. apply safe_ret; [lia|]. wf_same Hd. destruct Hconsts. split; simpl; try done.
  by apply Forall_map.
Qed.

(** The types of a section of less than 2^32 bytes can be numbered in 32 bits. *)
Lemma safe_decodeTypeSection_at data :
  Z.of_nat (length data) < 2 ^ 32 ->
  safe_at data 1 decodeTypeSection
    (fun ts => Forall rec_decoded ts /\ Z.of_nat (length (type_flat 0 ts)) < 2 ^ 32).
Proof.
  intros Hlen r Hr Hd. pose proof (safe_decodeTypeSection r Hr) as H.
  destruct (decodeTypeSection r) as [[ts|e|] r'] eqn:E; [|done|done].
  destruct H as (Hr' & He & Ht). split; [done|]. split; [done|]. split; [done|].
  destruct (costs_decodeTypeSection r ts r' Hr E) as [Hc _]. rewrite groups_size_flat.
  pose proof (rok_pos _ Hr') as Hp. rewrite (ext_data _ _ _ He), Hd in Hp. lia.
Qed.

Lemma safe_decodeSection data d id :
  Z.of_nat (length data) < 2 ^ 32 -> module_wf d ->
  safe_at data 1 (decodeSection (dm d) id) (fun m => module_wf (with_dm (fun _ => m) d)).
Proof.
  intros Hlen Hd. unfold decodeSection.
  destruct (id =? secType).
  { eapply safe_at_bind; [by apply safe_decodeTypeSection_at|]. intros v Hv.
    apply safe_safe_at, safe_ret; [lia|]. wf_same Hd. by exists v. }
  apply safe_safe_at.
  apply safe_if; intros _.
  { eapply safe_bind; [apply safe_decodeImports|]. intros v Hv. apply safe_ret; [lia|]. by wf_same Hd. }
  apply safe_if; intros _.
  { eapply safe_bind; [eapply safe_readVec; [done|apply safe_decodeTypeIdx]|]. intros v Hv.
    apply safe_ret; [lia|]. by wf_same Hd. }
  apply safe_if; intros _.
  { eapply safe_bind; [eapply safe_readVec; [done|apply safe_decodeMemType]|]. intros v Hv.
    apply safe_ret; [lia|]. by wf_same Hd. }
  apply safe_if; intros _.
  { eapply safe_bind; [eapply safe_readVec; [done|apply safe_decodeTagType]|]. intros v Hv.
    apply safe_ret; [lia|]. by wf_same Hd. }
  apply safe_if; intros _.
  { eapply safe_bind; [eapply safe_readVec; [done|apply safe_decodeExport]|]. intros v Hv.
    apply safe_ret; [lia|]. by wf_same Hd. }
  apply safe_if; intros _.
  { eapply safe_bind; [apply safe_u32|]. intros v Hv. apply safe_ret; [lia|]. by wf_same Hd. }
  apply safe_if; intros _; [|apply safe_fail_at].
  eapply safe_bind; [apply safe_u32|]. intros v Hv. apply safe_ret; [lia|]. by wf_same Hd.
Qed.

Lemma safe_decodeDirectSection data multi defer d id :
  Z.of_nat (length data) < 2 ^ 32 -> module_wf d ->
  safe_at data 1 (decodeDirectSection multi defer d id) module_wf.
Proof.
  intros Hlen Hd. unfold decodeDirectSection.
  destruct (id =? secCustom); [by apply safe_safe_at, safe_decodeDirectCustomSection|].
  destruct (id =? secTable); [by apply safe_safe_at, safe_decodeDirectTableSection|].
  destruct (id =? secGlobal); [by apply safe_safe_at, safe_decodeDirectGlobalSection|].
  destruct (id =? secElement); [by apply safe_safe_at, safe_decodeDirectElementSection|].
  destruct (id =? secCode).
  { apply safe_safe_at. eapply (safe_bind _ 1 _ _ (fun p => Forall func_wf (fst p))).
    - apply safe_if; intros _; [|apply safe_decodeDirectCodeSection].
      eapply safe_bind; [apply safe_decodePendingCodeSection|]. intros c Hc. by apply safe_ret.
    - intros cu Hcu. apply safe_ret; [lia|]. by wf_same Hd. }
  destruct (id =? secData); [by apply safe_safe_at, safe_decodeDirectDataSection|].
  eapply safe_at_bind; [by apply safe_decodeSection|]. intros m Hm. by apply safe_safe_at, safe_ret.
Qed.

Lemma safe_decodeOneSection multi defer st :
  module_wf (lsModule st) ->
  safe 2 (decodeOneSection multi defer st) (fun st' => module_wf (lsModule st')).
Proof.
  intros Hd. unfold decodeOneSection. eapply safe_bind; [apply safe_byte|]. intros id _.
  eapply safe_bind; [apply safe_u32|]. intros size Hs. apply safe_get. intros r0 _. cbv zeta.
  eapply safe_bind; [eapply safe_zero, safe_bytes|]. intros payload (_ & Hlen & Hp).
  apply safe_get. intros r1 _.
  eapply (safe_bind _ 0 _ _ (fun st1 => module_wf (lsModule st1))).
  { unfold checkSection. apply safe_if; intros _; [by apply safe_ret|].
    destruct (lookupSectionOrder id); [|apply safe_fail]. apply safe_if; intros _; [apply safe_fail|].
    cbv zeta. apply safe_if; intros _; [apply safe_fail|]. by apply safe_ret. }
  intros st1 Hd1. eapply safe_bind.
  { eapply safe_with_error, safe_on_sub_at; [done|]. apply safe_decodeDirectSection; [|done].
    unfold u32_ok in Hs. lia. }
  intros [d' sub] (Hd' & _). simpl in Hd'. apply safe_if; intros _; [apply safe_fail|].
  apply safe_ret; [lia|]. done.
Qed.

Lemma fsafe_decodeSections fuel multi defer st :
  module_wf (lsModule st) ->
  fsafe fuel 0 (decodeSections fuel multi defer st) (fun st' => module_wf (lsModule st')).
Proof.
  revert st. induction fuel as [|fuel IH]; intros st Hd; cbn [decodeSections].
  - by apply fsafe_loop_O, safe_ret.
  - apply fsafe_loop_S; [by apply safe_ret|].
    eapply fsafe_bind; [by eapply safe_fsafe, safe_decodeOneSection|]. intros _ st' Hst'.
    eapply fsafe_weaken; [|by apply IH]. lia.
Qed.

(** What the checks across sections add. *)
Record module_consistent (d : directModule) : Prop := {
  mc_code : length (FuncTypes (dm d)) = length (Code_ (dm d));
  mc_data : forall c, DataCount (dm d) = Some c -> c = Z.of_nat (length (Data_ (dm d)));
  mc_count : DataCount (dm d) = None -> usesDataCountInstr d = false
}.

Lemma checkModule_spec size d :
  match checkModule size d with
  | Ok d' => d' = d /\ module_consistent d
  | Err _ => True
  | Panic => False
  end.
Proof.
  unfold checkModule. destruct (Nat.eqb_spec (length (FuncTypes (dm d))) (length (Code_ (dm d)))); [|done].
  simpl. destruct (DataCount (dm d)) as [c|] eqn:E.
  - destruct (Z.eqb_spec c (Z.of_nat (length (Data_ (dm d))))); [|done]. simpl. split; [done|].
    split; [done|congruence|congruence].
  - destruct (usesDataCountInstr d) eqn:Eu; [done|]. split; [done|]. split; [done|congruence|done].
Qed.

Lemma safe_decodeModule multi defer :
  safe 0 (decodeModule multi defer) (fun d => module_wf d /\ module_consistent d).
Proof.
  unfold decodeModule. eapply safe_bind; [eapply safe_zero, safe_bytes|]. intros magic _.
  apply safe_if; intros _; [apply safe_fail|].
  eapply safe_bind; [eapply safe_zero, safe_le32|]. intros ver _.
  apply safe_if; intros _; [apply safe_fail|].
  apply (fsafe_safe 0 (fun n => let! st := decodeSections n multi defer
    {| lsModule := zeroDirectModule; lastOrder := 0; seen := 0 |} in
    fun r' => (checkModule (Z.of_nat (length (reader.data r'))) (lsModule st), r'))).
  intros n. eapply fsafe_bind; [apply fsafe_decodeSections, zero_wf|]. intros _ st Hst r Hr _.
  pose proof (checkModule_spec (Z.of_nat (length (reader.data r))) (lsModule st)) as H.
  destruct (checkModule _ _) as [d|e|]; [|split; [done|apply reader_ext_refl]|done].
  destruct H as [-> H]. split; [done|]. split; [apply reader_ext_refl|done].
Qed.
