(* ===== verification/DecodeTotal.v ===== *)
(** * DecodeModule is total

    The check of the branch hints over the exported cursor never panics either,
    so the exported entry points return a well-formed module or an error on every
    input. *)

From stdpp Require Import base tactics numbers list.
From Stdlib Require Import ZArith Lia.
From S2P Require Import Prelude Reader LebSpec ReaderLaws ReaderExport Types TypesLaws Decode DecodeLaws.
From S2P Require Import Kinds Instr InstrLaws Skip SkipLaws Walk Module ModuleMeta ModuleDecode ModuleSafe.
From S2P Require Import ModuleSafe.
Local Open Scope Z_scope.

(** ** The exported cursor *)

Definition nopanic {S E A} (m : M S E A) : Prop := forall s, fst (m s) <> Panic.

Lemma nopanic_bind {S E A B} (m : M S E A) (f : A -> M S E B) :
  nopanic m -> (forall a, nopanic (f a)) -> nopanic (bind m f).
Proof.
  intros Hm Hf s. unfold bind. specialize (Hm s). destruct (m s) as [[a|e|] s']; [apply Hf|done|done].
Qed.

Lemma nopanic_ret {S E A} (a : A) : nopanic (S := S) (E := E) (ret a).
Proof. done. Qed.

Lemma nopanic_Byte : nopanic Reader_.Byte.
Proof. intros x. unfold Reader_.Byte. by destruct (_ !! _). Qed.

Lemma nopanic_leb128_loop fuel signed N acc bits :
  N + 7 <= bits + 7 * Z.of_nat fuel -> bits < N + 7 ->
  nopanic (Reader_.leb128_loop fuel signed N acc bits).
Proof.
  revert acc bits. induction fuel as [|fuel IH]; intros acc bits H1 H2; [lia|].
  cbn [Reader_.leb128_loop]. apply nopanic_bind; [apply nopanic_Byte|]. intros b. cbv zeta.
  destruct (Z.leb_spec N bits); [done|]. destruct (_ && _); [done|].
  destruct (negb _); [apply IH; lia|done].
Qed.

Lemma nopanic_leb128 signed N : 1 <= N -> nopanic (Reader_.leb128 signed N).
Proof.
  intros HN. apply nopanic_leb128_loop; [|lia].
  pose proof (Z.div_mod (N + 6) 7 ltac:(lia)). pose proof (Z.mod_pos_bound (N + 6) 7 ltac:(lia)). lia.
Qed.

Lemma nopanic_peeked (f : Z -> Z) (m : M Reader_.t error Z) :
  nopanic m ->
  nopanic (fun x : Reader_.t => match Reader_.Peek x with
              | Some b => if b <? 0x80 then
                  (Ok (f b), {| Reader_.data := Reader_.data x; Reader_.pos := Reader_.pos x + 1 |})
                          else m x
              | None => m x
              end).
Proof. intros H x. destruct (Reader_.Peek x); [destruct (_ <? _)|]; [done|apply H..]. Qed.

Lemma nopanic_leb_ret signed N (f : Z -> Z) :
  1 <= N -> nopanic (let! v := Reader_.leb128 signed N in ret (f v)).
Proof. intros HN. apply nopanic_bind; [by apply nopanic_leb128|]. intros. apply nopanic_ret. Qed.

Lemma nopanic_U32 : nopanic Reader_.U32.
Proof. apply (nopanic_peeked (fun b => b)), nopanic_leb_ret. lia. Qed.

Lemma nopanic_I32 : nopanic Reader_.I32.
Proof. apply nopanic_peeked, (nopanic_leb_ret true 32 (fun v => to_i32 (to_u32 v))). lia. Qed.

Lemma nopanic_I64 : nopanic Reader_.I64.
Proof. apply (nopanic_leb_ret true 64). lia. Qed.

Lemma nopanic_Bytes n x :
  0 <= n < 2 ^ 32 -> place_ok x -> fst (Reader_.Bytes n x) <> Panic.
Proof.
  intros Hn [_ Hp Hz]. unfold Reader_.Bytes, Reader_.Step, Reader_.JumpTo, bind.
  cbn [get fst snd]. unfold Reader_.Offset_.
  assert (Hsum : to_i64 (Z.of_nat (Reader_.pos x) + n) = Z.of_nat (Reader_.pos x) + n).
  { rewrite <- (to_i64_of_u64 (Z.of_nat (Reader_.pos x) + n)) at 2 by lia.
    unfold to_i64. rewrite Z.add_mod_idemp_l by lia. done. }
  rewrite Hsum. destruct (_ || _); [done|]. simpl. unfold Reader_.slice.
  replace (_ <=? _)%nat with true by (symmetry; apply Nat.leb_le; lia). done.
Qed.

Lemma nopanic_assignW {A} (m : M Reader_.t error A) z f x i :
  fst (m x) <> Panic -> fst (assignW m z f (x, i)) <> Panic.
Proof. intros H. unfold assignW. simpl. by destruct (m x) as [[a|e|] x']. Qed.

(** A classification on the exported cursor returns, stays in the buffer and does
    not go back. *)
Lemma ClassifyInto_safe c op x i :
  place_ok x ->
  match ClassifyInto c op (x, i) with
  | (Ok _, s) => place_ok (fst s) /\ Reader_.data (fst s) = Reader_.data x /\
                 (Reader_.pos x <= Reader_.pos (fst s))%nat
  | (Err _, _) => True
  | (Panic, _) => False
  end.
Proof.
  intros Hx. pose proof (csafe_classify op (cwidths c) (cmultiMemory c) (as_reader x) zeroImm
    (place_reader_ok x Hx)) as Hc.
  destruct (ClassifyInto c op (x, i)) as [[[]|e|] [x' i']] eqn:E; [| done |].
  - apply classifyInto_iff in E as (k & r' & E & Hpos & Hdata); [|done]. rewrite E in Hc.
    destruct Hc as (Hr & He & _). simpl in *. pose proof (ext_pos _ _ _ He) as Hle.
    pose proof (ext_data _ _ _ He) as Hd. simpl in Hle, Hd. pose proof (rok_pos _ Hr) as Hp.
    rewrite Hd in Hp. destruct Hx as [Hb Hp0 Hz].
    split; [|split; [done|lia]]. split; rewrite ?Hdata; [done|lia|done].
  - assert (Hn : fst (ClassifyInto c op (x, i)) <> Panic); [|by rewrite E in Hn].
    clear E. unfold ClassifyInto, classifyInstructionImmediateIntoWithWidths. cbv zeta. cbn [fst snd].
    destruct (simpleKind op); [done|]. destruct (one_of op [5; 11]); [done|].
    destruct (one_of op oneIndexOpcodes); [apply nopanic_assignW, nopanic_U32|].
    destruct (op =? 0x41); [apply nopanic_assignW, nopanic_I32|].
    destruct (op =? 0x42); [apply nopanic_assignW, nopanic_I64|].
    destruct (op =? 0x43); [apply nopanic_assignW, nopanic_Bytes; [lia|done]|].
    destruct (op =? 0x44); [apply nopanic_assignW, nopanic_Bytes; [lia|done]|].
    destruct (classifyExprOpAfterOpcodeWithWidths op _ _ _) as [[k|e|] s]; done.
Qed.

(** ** Hints *)

(** [wsafe k m]: from a place in the buffer, [m] returns at least [k] bytes
    further in the same buffer or reports an error. *)
Definition wsafe {A} (k : nat) (m : W A) : Prop :=
  forall s, place_ok (fst s) ->
    match m s with
    | (Ok _, s') => place_ok (fst s') /\ Reader_.data (fst s') = Reader_.data (fst s) /\
                    (Reader_.pos (fst s) + k <= Reader_.pos (fst s'))%nat
    | (Err _, _) => True
    | (Panic, _) => False
    end.

Lemma wsafe_bind {A B} k k1 (m : W A) (f : A -> W B) :
  wsafe k1 m -> (forall a, wsafe (k - k1) (f a)) -> wsafe k (bind m f).
Proof.
  intros Hm Hf s Hs. unfold bind. specialize (Hm s Hs). destruct (m s) as [[a|e|] s1]; [|done|done].
  destruct Hm as (H1 & H2 & H3). specialize (Hf a s1 H1). destruct (f a s1) as [[b|e|] s2]; [|done|done].
  destruct Hf as (H4 & H5 & H6). split; [done|]. split; [congruence|lia].
Qed.

Lemma wsafe_hint_op : wsafe 1 hint_op.
Proof.
  intros s Hs. unfold hint_op, Reader_.Byte.
  destruct (Reader_.data (fst s) !! Reader_.pos (fst s)) eqn:E; [|done]. simpl.
  pose proof (lookup_lt_Some _ _ _ E). destruct Hs as [Hb Hp Hz].
  split; [|split; [done|lia]]. split; simpl; [done|lia|done].
Qed.

Lemma wsafe_hint_imm c op : wsafe 0 (hint_imm c op).
Proof.
  intros [x i] Hs. unfold hint_imm. pose proof (ClassifyInto_safe c op x i Hs) as H.
  destruct (ClassifyInto c op (x, i)) as [[[]|e|] s]; simpl in *; [|done|done].
  by rewrite Nat.add_0_r.
Qed.

Lemma hint_walk_safe fuel c want s :
  place_ok (fst s) -> (length (Reader_.data (fst s)) - Reader_.pos (fst s) < fuel)%nat ->
  match hint_walk fuel c want s with
  | (Ok _, s') => place_ok (fst s') /\ Reader_.data (fst s') = Reader_.data (fst s) /\
                  (Reader_.pos (fst s) <= Reader_.pos (fst s'))%nat
  | (Err _, _) => True
  | (Panic, _) => False
  end.
Proof.
  revert s. induction fuel as [|fuel IH]; intros s Hs Hf; [lia|].
  cbn [hint_walk]. unfold bind at 1, get at 1. destruct (_ <? want); [|done]. unfold bind.
  pose proof (wsafe_hint_op s Hs) as H1. destruct (hint_op s) as [[op|e|] s1]; [|done|done].
  destruct H1 as (P1 & D1 & L1). pose proof (wsafe_hint_imm c op s1 P1) as H2.
  destruct (hint_imm c op s1) as [[[]|e|] s2]; [|done|done]. destruct H2 as (P2 & D2 & L2).
  specialize (IH s2 P2). pose proof (pl_pos _ P2) as Hp. rewrite D2, D1 in IH, Hp.
  specialize (IH ltac:(lia)).
  destruct (hint_walk fuel c want s2) as [[[]|e|] s3]; [|done|done].
  destruct IH as (P3 & D3 & L3). split; [done|]. split; [congruence|lia].
Qed.

Lemma wsafe_hint_check c decl h : wsafe 0 (hint_check c decl h).
Proof.
  unfold hint_check. destruct (_ <? 0); [done|]. intros s Hs. unfold bind at 1, get at 1.
  unfold bind at 1.
  pose proof (hint_walk_safe (S (length (Reader_.data (fst s)))) c (BHOffset h - decl) s Hs ltac:(lia)) as H.
  destruct (hint_walk _ c _ s) as [[[]|e|] s1]; [|done|done]. destruct H as (P1 & D1 & L1).
  unfold bind at 1, get at 1. destruct (negb _); [done|].
  assert (Hm : wsafe 0 (let! op := hint_op in
    if negb (op =? 0x04) && negb (op =? 0x0d) then fail hintError else hint_imm c op)).
  { apply (wsafe_bind _ 1); [apply wsafe_hint_op|]. intros op. destruct (_ && _); [done|].
    apply wsafe_hint_imm. }
  specialize (Hm s1 P1).
  match goal with |- match ?t with _ => _ end => destruct t as [[[]|e|] s2] end; [|done|done].
  destruct Hm as (P2 & D2 & L2). split; [done|]. split; [congruence|lia].
Qed.

Lemma wsafe_forM {A} (l : list A) (f : A -> W unit) :
  (forall x, wsafe 0 (f x)) -> wsafe 0 (forM l f).
Proof.
  intros Hf. induction l as [|x l IH]; simpl; [|by apply (wsafe_bind _ 0)].
  intros s Hs. simpl. rewrite Nat.add_0_r. done.
Qed.

Lemma validateFuncHints_nopanic m f :
  Forall (fun fn => bytes_ok (FBodyBytes fn) /\ Z.of_nat (length (FBodyBytes fn)) < 2 ^ 62) (Code_ m) ->
  validateFuncHints m f <> Panic.
Proof.
  intros Hc. unfold validateFuncHints. destruct (_ <? _); [done|]. cbv zeta.
  destruct (_ || _) eqn:E; [done|]. bool_to_prop.
  destruct (lookup_lt_is_Some_2 (Code_ m) (Z.to_nat (FuncIndex f - ImportedFuncCount m)))
    as [fn Hfn]; [lia|]. rewrite Hfn. destruct (Forall_lookup_1 _ _ _ _ Hc Hfn) as [Hb Hz].
  pose proof (wsafe_forM (Hints f) _ (wsafe_hint_check (NewModuleInstructionClassifier m true)
    (LocalDeclBytes fn)) (Reader_.NewReader (FBodyBytes fn), zeroImm)) as Hw.
  destruct (forM _ _ _) as [[a|e|] s]; [done|done|]. exfalso. apply Hw.
  split; simpl; [done|lia|done].
Qed.

Lemma validateBranchHints_nopanic m :
  Forall (fun fn => bytes_ok (FBodyBytes fn) /\ Z.of_nat (length (FBodyBytes fn)) < 2 ^ 62) (Code_ m) ->
  validateBranchHints m <> Panic.
Proof.
  intros Hc. unfold validateBranchHints. induction (BranchHints m) as [|f l IH]; simpl; [done|].
  pose proof (validateFuncHints_nopanic m f Hc). by destruct (validateFuncHints m f).
Qed.

(** ** The entry points *)

Lemma populate_consts d : consts_wf d -> consts_wf (populateCodeBodies d).
Proof.
  intros [H1 H2 H3 H4 H5 H6]. split; simpl; try done.
  - intros i t Ht Hi. rewrite list_lookup_imap in Ht. destruct (Tables (dm d) !! i) as [t0|] eqn:E; [|done].
    injection Ht as <-. unfold populateTable.
    destruct (tableHasInit (direct_ d) !! i) as [[]|] eqn:Eh; [done| |]; (eapply H2; [exact E|by rewrite Eh]).
  - apply Forall2_same_length_lookup_2; [by rewrite length_imap, (Forall2_length _ _ _ H5)|].
    intros i e de He Hde. rewrite list_lookup_imap in He. destruct (Elements (dm d) !! i) as [e0|] eqn:E; [|done].
    injection He as <-. unfold populateElem. rewrite Hde. exact (Forall2_lookup_lr _ _ _ _ _ _ H5 E Hde).
Qed.

Lemma populate_wf d : module_wf d -> module_wf (populateCodeBodies d).
Proof.
  intros [H1 H2 H3 H4 H5 H6 H7 H8 H9 H10 H11]. split; simpl; rewrite ?length_imap; try done.
  - apply Forall_lookup_2. intros i t Ht. rewrite list_lookup_imap in Ht.
    destruct (Tables (dm d) !! i) as [t0|] eqn:E; [|done]. injection Ht as <-.
    apply (Forall_lookup_1 _ _ _ _ H5) in E. unfold populateTable.
    by destruct (tableHasInit (direct_ d) !! i) as [[]|], (tableInits (direct_ d) !! i).
  - apply Forall_lookup_2. intros i g Hg. rewrite list_lookup_imap in Hg.
    destruct (Globals (dm d) !! i) as [g0|] eqn:E; [|done]. injection Hg as <-.
    apply (Forall_lookup_1 _ _ _ _ H6) in E. unfold populateGlobal. by destruct (globalInits (direct_ d) !! i).
  - by apply populate_consts.
Qed.

Definition limits_ok (l : DecodeLimits) : Prop := 0 <= MaxTypes l /\ 0 <= MaxMetadataBytes l.

Lemma newDecodeBudget_ok l : limits_ok l -> budget_ok (newDecodeBudget l).
Proof.
  intros [H1 H2]. unfold newDecodeBudget, budget_ok. simpl.
  destruct (Z.eqb_spec (MaxTypes l) 0), (Z.eqb_spec (MaxMetadataBytes l) 0); vm_compute Z.shiftl; lia.
Qed.

Lemma decode_safe data multi limits defer :
  bytes_ok data -> limits_ok limits ->
  match decodeDirectModuleInnerLimitsMode data multi limits defer with
  | Ok d => module_wf d /\ module_consistent d
  | Err _ => True
  | Panic => False
  end.
Proof.
  intros Hd Hl. unfold decodeDirectModuleInnerLimitsMode.
  pose proof (safe_decodeModule multi defer {| reader.data := data; reader.pos := 0;
    reader.budget := Some (newDecodeBudget limits) |}) as H.
  destruct (decodeModule _ _ _) as [[d|e|] r']; simpl; [| done |].
  - apply H. split; simpl; [done|lia|by apply newDecodeBudget_ok].
  - apply H. split; simpl; [done|lia|by apply newDecodeBudget_ok].
Qed.

Lemma decodeAndPopulate_safe data multi limits defer :
  bytes_ok data -> limits_ok limits ->
  match decodeAndPopulate data multi limits defer with
  | Ok d => module_wf d /\ length (FuncTypes (dm d)) = length (Code_ (dm d)) /\
            (forall c, DataCount (dm d) = Some c -> c = Z.of_nat (length (Data_ (dm d)))) /\
            (DataCount (dm d) = None -> usesDataCountInstr d = false)
  | Err _ => True
  | Panic => False
  end.
Proof.
  intros Hd Hl. unfold decodeAndPopulate. pose proof (decode_safe data multi limits defer Hd Hl) as H.
  destruct (decodeDirectModuleInnerLimitsMode data multi limits defer) as [d|e|]; [|done|done].
  destruct H as [Hwf [Hc Hdc Hn]]. cbv zeta.
  assert (Hcode : Forall (fun fn => bytes_ok (FBodyBytes fn) /\
    Z.of_nat (length (FBodyBytes fn)) < 2 ^ 62) (Code_ (dm (populateCodeBodies d)))).
  { eapply Forall_impl; [exact (wf_code _ Hwf)|]. intros f [_ _ (Hb & _ & Hz)]. split; [done|lia]. }
  pose proof (validateBranchHints_nopanic _ Hcode).
  destruct (validateBranchHints _); [|done|done].
  split; [by apply populate_wf|]. done.
Qed.

(** C2: module decoding is total and sound: on every byte string, under every
    feature and limit setting and in both code modes, the decoder returns a
    module or an error (it never panics and never loops), and a module it returns
    is well formed: ordered hints, decodable types, locals below 2^32 per
    function, non-empty bodies, initializers aligned with their declarations, one
    body per declared function and the data count it announced. *)
Theorem decodeModule_total data multi limits defer :
  bytes_ok data -> limits_ok limits ->
  match decodeAndPopulate data multi limits defer with
  | Ok d => module_wf d /\ length (FuncTypes (dm d)) = length (Code_ (dm d)) /\
            (forall c, DataCount (dm d) = Some c -> c = Z.of_nat (length (Data_ (dm d)))) /\
            (DataCount (dm d) = None -> usesDataCountInstr d = false)
  | Err _ => True
  | Panic => False
  end.
Proof. apply decodeAndPopulate_safe. Qed.

(** [(module (type (func (param i32 i32) (result i32)))
      (func (type 0) local.get 0 local.get 1 i32.add))] *)
Definition add_module : list Z :=
  [0; 97; 115; 109; 1; 0; 0; 0;  1; 7; 1; 0x60; 2; 0x7f; 0x7f; 1; 0x7f;  3; 2; 1; 0;
   10; 9; 1; 7; 0; 0x20; 0; 0x20; 1; 0x6a; 0x0b].

Lemma decodeModule_total_witness :
  exists d, DecodeModule add_module = Ok d /\ module_wf d /\
    map FBodyBytes (Code_ (dm d)) = [[0x20; 0; 0x20; 1; 0x6a; 0x0b]].
Proof.
  assert (Hrun : match DecodeModule add_module with
                 | Ok d => map FBodyBytes (Code_ (dm d)) | _ => [] end =
                 [[0x20; 0; 0x20; 1; 0x6a; 0x0b]]) by (vm_compute; reflexivity).
  assert (Hbytes : bytes_ok add_module).
  { repeat (constructor; [unfold byte_ok; lia|]). constructor. }
  pose proof (decodeModule_total add_module true zeroLimits false Hbytes
    ltac:(split; simpl; lia)) as H.
  unfold DecodeModule, DecodeModuleByteBackedWithLimits in *.
  destruct (decodeAndPopulate add_module true zeroLimits false) as [d|e|]; [|discriminate..].
  exists d. split; [reflexivity|]. split; [apply H|exact Hrun].
Defined.
