(* ===== verification/Fused.v ===== *)
(** * The two modes of the code section

    [DecodeModule] walks every function body while it decodes; the entry point
    for fused validation only slices the bodies and leaves the walk to the
    validator.  Whatever the walking decoder accepts, the slicing decoder accepts
    with the same module: the same bytes and declaration lengths per body, and
    local declarations that expand to the same locals. *)

From stdpp Require Import base tactics numbers list.
From Stdlib Require Import ZArith Lia.
From S2P Require Import Prelude Reader LebSpec ReaderLaws ReaderExport Types TypesLaws Decode DecodeLaws.
From S2P Require Import Kinds Instr InstrLaws Skip SkipLaws Walk Module ModuleLaws ModuleMeta ModuleDecode.
From S2P Require Import ModuleSafe DecodeTotal.
Local Open Scope Z_scope.

(** ** The classifier does not touch the budget *)

Definition keeps {A} (m : R A) : Prop := forall r, reader.budget (snd (m r)) = reader.budget r.

Lemma obl_keeps {A} (m : R A) : oblivious m -> keeps m.
Proof.
  intros H r. specialize (H r (reader.budget r)).
  replace (set_budget (reader.budget r) r) with r in H by (by destruct r). by rewrite H.
Qed.

Lemma obl_skipResultTypeBytes : oblivious skipResultTypeBytes.
Proof.
  unfold skipResultTypeBytes. obl_step; [obl_go|]. obl_step; [|obl_go].
  apply obl_repeatM. unfold skipValTypeBytes. obl_go.
Qed.

Lemma obl_skipRefHeapTypeBytes : oblivious skipRefHeapTypeBytes.
Proof. unfold skipRefHeapTypeBytes. obl_go. Qed.

Lemma obl_skipCatchVecBytes : oblivious skipCatchVecBytes.
Proof.
  unfold skipCatchVecBytes. obl_step; [obl_go|]. obl_step; [|obl_go].
  apply obl_repeatM. unfold skipCatchBytes. obl_go.
Qed.
#[export] Hint Resolve obl_skipResultTypeBytes obl_skipRefHeapTypeBytes obl_skipCatchVecBytes : obl.

Definition ckeeps {A} (m : C A) : Prop :=
  forall s, reader.budget (fst (snd (m s))) = reader.budget (fst s).

Lemma ckeeps_ret {A} (a : A) : ckeeps (ret a).
Proof. by intros s. Qed.

Lemma ckeeps_setImm f : ckeeps (setImm f).
Proof. by intros s. Qed.

Lemma ckeeps_bind {A B} (m : C A) (f : A -> C B) :
  ckeeps m -> (forall a, ckeeps (f a)) -> ckeeps (bind m f).
Proof.
  intros Hm Hf s. unfold bind. specialize (Hm s). destruct (m s) as [[a|e|] s1]; [|done|done].
  by rewrite Hf.
Qed.

Lemma ckeeps_lift {A} (m : R A) : oblivious m -> ckeeps (lift m).
Proof. intros H%obl_keeps [r i]. unfold lift. specialize (H r). simpl in *. by destruct (m r) as [[a|e|] r2]. Qed.

Lemma ckeeps_assign {A} (m : R A) z f : oblivious m -> ckeeps (assign m z f).
Proof.
  intros H%obl_keeps [r i]. unfold assign. specialize (H r). simpl. by destruct (m r) as [[a|e|] r'].
Qed.

Lemma ckeeps_assign_ok {A} (m : R A) z f ok : oblivious m -> ckeeps (assign_ok m z f ok).
Proof.
  intros H%obl_keeps [r i]. unfold assign_ok. specialize (H r). simpl. by destruct (m r) as [[a|e|] r'].
Qed.

Lemma ckeeps_after {A} (m : C A) (g : InstructionImmediate -> InstructionImmediate) :
  ckeeps m -> ckeeps (fun s => let (o, s') := m s in (o, (fst s', g (snd s')))).
Proof. intros H s. specialize (H s). by destruct (m s). Qed.

Lemma ckeeps_readSubopcode p : ckeeps (readSubopcode p).
Proof.
  intros [r i]. unfold readSubopcode. pose proof (obl_keeps _ obl_u32 r) as H. simpl.
  by destruct (rd.u32 r) as [[a|e|] r'].
Qed.

Create HintDb ckeeps discriminated.
#[export] Hint Resolve ckeeps_ret ckeeps_setImm ckeeps_readSubopcode : ckeeps.

Ltac ckeeps_step :=
  lazymatch goal with
  | |- ckeeps (bind _ _) => apply ckeeps_bind; [|intros]
  | |- ckeeps (lift _) => apply ckeeps_lift
  | |- ckeeps (assign _ _ _) => apply ckeeps_assign
  | |- ckeeps (assign_ok _ _ _ _) => apply ckeeps_assign_ok
  | |- ckeeps (if _ then _ else _) => case_match
  | |- ckeeps (match ?x with _ => _ end) => destruct x
  | |- ckeeps _ => solve [eauto with ckeeps nocore]
  | |- oblivious _ => solve [obl_go]
  end.
Ltac ckeeps_go := repeat ckeeps_step.

Lemma ckeeps_memarg widths : ckeeps (classifyMemArgBytes widths).
Proof. unfold classifyMemArgBytes. ckeeps_go. Qed.

Lemma ckeeps_FC multi : ckeeps (classifyFCBytes multi).
Proof.
  unfold classifyFCBytes. ckeeps_go.
  - apply (ckeeps_after _ (fun i => set_UsesBulkMemory (_ =? 10)
             (set_TouchesMemory ((_ =? 8) || (_ =? 10)) i))). ckeeps_go.
  - apply (ckeeps_after _ (fun i => set_UsesBulkMemory true (set_TouchesMemory true i))). ckeeps_go.
Qed.

Lemma ckeeps_FB : ckeeps classifyFBBytes.
Proof. unfold classifyFBBytes. ckeeps_go. Qed.

#[export] Hint Resolve ckeeps_memarg ckeeps_FC ckeeps_FB : ckeeps.

Lemma ckeeps_FD w : ckeeps (classifyFDBytes w).
Proof. unfold classifyFDBytes. ckeeps_go. Qed.

Lemma ckeeps_FE w : ckeeps (classifyFEBytes w).
Proof. unfold classifyFEBytes. ckeeps_go. Qed.

#[export] Hint Resolve ckeeps_FD ckeeps_FE : ckeeps.

Lemma ckeeps_classify op w multi : ckeeps (classifyExprOpAfterOpcodeWithWidths op w multi).
Proof. unfold classifyExprOpAfterOpcodeWithWidths. cbv zeta. ckeeps_go. Qed.

(** ** One body *)

Lemma skipFuncExpr_keeps fuel stack uses w multi : keeps (skipFuncExpr fuel stack uses w multi).
Proof.
  revert stack uses. induction fuel as [|fuel IH]; intros stack uses r; cbn [skipFuncExpr];
    unfold bind at 1, get at 1; destruct (reader.has r); try done. cbn [negb].
  unfold bind. pose proof (obl_keeps _ obl_byte r) as Hb.
  destruct (rd.byte r) as [[op|e|] r1]; [|done|done]. simpl in Hb. rewrite <- Hb.
  pose proof (ckeeps_classify op w multi (r1, zeroImm)) as Hc.
  destruct (classifyExprOpAfterOpcodeWithWidths op w multi (r1, zeroImm)) as [[k|e|] [r2 imm]];
    simpl in Hc |- *; [|done|done].
  rewrite <- Hc. destruct k; try apply IH.
  - destruct (_ <=? _); [done|apply IH].
  - destruct (_ <=? _); [done|apply IH].
  - destruct (_ <=? _); [done|apply IH].
  - destruct (_ <=? _); [done|apply IH].
  - destruct stack; [done|]. destruct (_ || _); [done|apply IH].
  - destruct stack; [done|apply IH].
Qed.

(** [f] walked and [f'] sliced from the same body. *)
Record same_body (f f' : Func) : Prop := {
  sb_bytes : FBodyBytes f' = FBodyBytes f;
  sb_decl : LocalDeclBytes f' = LocalDeclBytes f;
  sb_body : FBody f' = FBody f;
  sb_locals : expand_runs (FLocals f') = expand_runs (FLocals f)
}.

Lemma expand_coalesce_from runs cur :
  Forall run_decoded runs -> run_decoded cur -> Count cur + run_total runs < 2 ^ 32 ->
  expand_runs (coalesce_from cur runs) = expand_runs (cur :: runs).
Proof.
  intros Hr. revert cur. induction Hr as [|r rest Hd Hr IH]; intros cur Hc Ht; [done|].
  cbn [coalesce_from]. simpl in Ht. pose proof (run_decoded_nonneg rest Hr).
  pose proof Hd as [[Hr0 Hr1] Hv]. pose proof Hc as [[Hc0 Hc1] Hvc].
  destruct (word2_eqb (LType cur) (LType r)) eqn:E.
  - apply word2_eqb_spec in E. rewrite to_u32_small by lia. rewrite IH.
    + unfold expand_runs. cbn [map concat Count LType]. rewrite <- E, app_assoc. f_equal.
      rewrite <- replicate_add. f_equal. lia.
    + split; [unfold u32_ok; simpl; lia|done].
    + simpl. lia.
  - change (expand_runs (cur :: coalesce_from r rest) = expand_runs (cur :: r :: rest)).
    unfold expand_runs in *. cbn [map concat]. f_equal. apply IH; [done|lia].
Qed.

Lemma expand_coalesce runs :
  runs_wf runs -> expand_runs (coalesceCompilerLocalRuns runs) = expand_runs runs.
Proof.
  intros [Hr Ht]. destruct Hr as [|r rest Hd Hr]; [done|]. by apply expand_coalesce_from.
Qed.

Lemma readDirectFuncExprBytes_ok w multi r ex uses r' :
  reader_ok r -> readDirectFuncExprBytes w multi r = (Ok (ex, uses), r') ->
  reader.has r = true /\ reader_ok r' /\ reader.data r' = reader.data r /\
  reader.budget r' = reader.budget r /\ (reader.pos r <= reader.pos r')%nat /\
  ex = taken (reader.pos r) r'.
Proof.
  intros Hr H. unfold readDirectFuncExprBytes in H. unfold bind at 1, get at 1 in H.
  apply bind_ok in H as (u & s & H & Hret). injection Hret as <- <- <-.
  pose proof (fsafe_skipFuncExpr (length (reader.data r)) [] false w multi r Hr ltac:(lia)) as Hs.
  pose proof (skipFuncExpr_keeps (length (reader.data r)) [] false w multi r) as Hk.
  rewrite H in Hs, Hk. destruct Hs as (Hok & He & _). split.
  - destruct (length (reader.data r)); cbn [skipFuncExpr] in H; unfold bind at 1, get at 1 in H;
      by destruct (reader.has r).
  - split; [done|]. split; [exact (ext_data _ _ _ He)|]. split; [done|].
    split; [pose proof (ext_pos _ _ _ He); lia|done].
Qed.

Lemma pending_body w multi r f uses r' :
  reader_ok r -> decodeDirectBody w multi r = (Ok (f, uses), r') ->
  exists f', decodePendingBody r = (Ok f', r') /\ same_body f f'.
Proof.
  intros Hr H. unfold decodeDirectBody in H. apply bind_ok in H as (size & r1 & E1 & H).
  apply bind_ok in H as (body & r2 & E2 & H). unfold bind at 1, get at 1 in H. cbv zeta in H.
  apply bind_ok in H as ([[locals [ex u]] sub] & r3 & E3 & H).
  pose proof (safe_u32 r Hr) as S1. rewrite E1 in S1. destruct S1 as (Hr1 & _ & _).
  pose proof (safe_bytes size r1 Hr1) as S2. rewrite E2 in S2. destruct S2 as (Hr2 & _ & _ & _ & Hb).
  unfold with_error, on_sub in E3.
  set (sub0 := {| reader.data := body; reader.pos := 0; reader.budget := reader.budget r2 |}) in *.
  assert (Hs0 : reader_ok sub0) by (split; [exact Hb|simpl; lia|exact (rok_budget _ Hr2)]).
  destruct (bind decodeLocals _ sub0) as [o s2] eqn:Ei in E3. destruct o as [p|e|]; [|done|done].
  injection E3 as -> -> <-.
  apply bind_ok in Ei as (locals' & s1 & El & Ei). apply bind_ok in Ei as (q & s2 & Ex & Ei).
  injection Ei as -> -> ->.
  pose proof (safe_decodeLocals sub0 Hs0) as S3. rewrite El in S3. destruct S3 as (Hs1 & He1 & Hl).
  apply readDirectFuncExprBytes_ok in Ex as (Hhas & Hs & Hd & Hbud & Hpos & ->); [|done].
  destruct (reader.has sub) eqn:Eh; [done|]. injection H as <- <- <-.
  pose proof (rok_pos _ Hs) as Hp. assert (Hend : reader.pos sub = length (reader.data sub)).
  { unfold reader.has, reader.left in Eh. lia. }
  eexists. split.
  - unfold decodePendingBody. rewrite (bind_eq _ _ _ _ _ E1), (bind_eq _ _ _ _ _ E2).
    unfold bind at 1, get at 1. cbv zeta. unfold bind, with_error, on_sub. fold sub0. rewrite El.
    rewrite Hhas. cbn [negb]. by rewrite Hbud.
  - assert (Ht : taken (reader.pos s1) sub = drop (reader.pos s1) (reader.data s1)).
    { unfold taken. rewrite Hd in *. apply take_ge. rewrite length_drop. lia. }
    split; cbn [FBodyBytes LocalDeclBytes FBody FLocals].
    + by rewrite Ht.
    + f_equal. rewrite Ht, length_drop. unfold reader.off. rewrite Hd in Hend. lia.
    + done.
    + destruct (1 <? length locals)%nat; [by apply expand_coalesce|done].
Qed.

(** ** The section *)

Lemma pending_bodies w multi n r fs r' :
  reader_ok r -> repeatM n (decodeDirectBody w multi) r = (Ok fs, r') ->
  exists fs', repeatM n decodePendingBody r = (Ok fs', r') /\ Forall2 same_body (map fst fs) fs'.
Proof.
  revert r fs. induction n as [|n IH]; intros r fs Hr H; simpl in *.
  - injection H as <- <-. by exists [].
  - apply bind_ok in H as ([f u] & r1 & H1 & H). apply bind_ok in H as (fs1 & r2 & H2 & H).
    injection H as <- <-. pose proof (safe_decodeDirectBody w multi r Hr) as S1. rewrite H1 in S1.
    apply pending_body in H1 as (f' & H1 & Hf); [|done].
    apply IH in H2 as (fs' & H2 & Hfs); [|apply S1].
    exists (f' :: fs'). rewrite (bind_eq _ _ _ _ _ H1), (bind_eq _ _ _ _ _ H2).
    split; [done|]. by constructor.
Qed.

Lemma pending_section w multi r fs uses r' :
  reader_ok r -> decodeDirectCodeSectionWithWidths w multi r = (Ok (fs, uses), r') ->
  exists fs', decodePendingCodeSection r = (Ok fs', r') /\ Forall2 same_body fs fs'.
Proof.
  intros Hr H. unfold decodeDirectCodeSectionWithWidths in H.
  apply bind_ok in H as (n & r1 & E1 & H). apply bind_ok in H as ([] & r2 & E2 & H).
  unfold bind at 1, get at 1 in H. apply bind_ok in H as ([] & r3 & E3 & H).
  apply bind_ok in H as (fb & r4 & E4 & H). injection H as <- _ <-.
  pose proof (safe_u32 r Hr) as S1. rewrite E1 in S1. destruct S1 as (Hr1 & _ & Hn).
  pose proof (safe_reserveDecodedSlice sizeof_Func n ltac:(unfold sizeof_Func; lia) ltac:(unfold u32_ok in Hn; lia) r1 Hr1) as S2.
  rewrite E2 in S2. destruct S2 as (Hr2 & _).
  pose proof (safe_reserve (Z.min (reader.left r2) maxInstructionNestingDepth) 32) as S3.
  assert (Hr3 : reader_ok r3).
  { pose proof (rok_pos _ Hr2). specialize (S3 ltac:(unfold reader.left, maxInstructionNestingDepth; lia)
      ltac:(lia) r2 Hr2). rewrite E3 in S3. apply S3. }
  apply pending_bodies in E4 as (fs' & E4 & Hfs); [|done].
  exists fs'. split; [|done]. unfold decodePendingCodeSection.
  rewrite (bind_eq _ _ _ _ _ E1), (bind_eq _ _ _ _ _ E2). unfold bind at 1, get at 1.
  by rewrite (bind_eq _ _ _ _ _ E3).
Qed.

(** ** The other sections do not look at the code *)

(** [d] with the function bodies and the data-count flag of [c]. *)
Definition recode (c : list Func * bool) (d : directModule) : directModule :=
  {| dm := set_Code_ (fst c) (dm d); direct_ := direct_ d; seenName := seenName d;
     seenBranchHints := seenBranchHints d; seenCode := seenCode d; usesDataCountInstr := snd c |}.

Definition recoded (c : list Func * bool) (m1 m2 : R directModule) : Prop :=
  forall r, m1 r = match m2 r with
                   | (Ok d, r') => (Ok (recode c d), r')
                   | (Err e, r') => (Err e, r')
                   | (Panic, r') => (Panic, r')
                   end.

Lemma recoded_ret c d1 d2 : d1 = recode c d2 -> recoded c (ret d1) (ret d2).
Proof. by intros ->. Qed.

Lemma recoded_fail c code off_ : recoded c (fail_at code off_) (fail_at code off_).
Proof. by intros r. Qed.

Lemma recoded_bind {A} c (m : R A) f1 f2 :
  (forall a, recoded c (f1 a) (f2 a)) -> recoded c (bind m f1) (bind m f2).
Proof. intros H r. unfold bind. destruct (m r) as [[a|e|] r1]; [apply H|done|done]. Qed.

Lemma recoded_then c m1 m2 f1 f2 :
  recoded c m1 m2 -> (forall d, recoded c (f1 (recode c d)) (f2 d)) ->
  recoded c (bind m1 f1) (bind m2 f2).
Proof.
  intros Hm Hf r. unfold bind. rewrite Hm. destruct (m2 r) as [[d|e|] r1]; [apply Hf|done|done].
Qed.

Lemma recoded_assoc {A B} c (m : R A) (f f' : A -> R B) g g' :
  recoded c (bind m (fun a => bind (f a) g)) (bind m (fun a => bind (f' a) g')) ->
  recoded c (bind (bind m f) g) (bind (bind m f') g').
Proof. intros H r. rewrite !bind_assoc. apply H. Qed.

Ltac recoded_go :=
  repeat match goal with
  | |- recoded ?c (bind (ret ?a) ?g1) (bind (ret ?b) ?g2) => change (recoded c (g1 a) (g2 b)); cbv beta
  | |- recoded _ (bind _ _) (bind _ _) => apply recoded_bind; intros
  | |- recoded _ (if ?b then _ else _) _ => destruct b
  | |- recoded _ (ret _) (ret _) => apply recoded_ret; repeat case_match; reflexivity
  | |- recoded _ (fail_at _ _) (fail_at _ _) => apply recoded_fail
  end.

Lemma recoded_custom c d : recoded c (decodeDirectCustomSection (recode c d)) (decodeDirectCustomSection d).
Proof.
  unfold decodeDirectCustomSection. do 6 (apply recoded_bind; intros). cbv zeta.
  change (seenName (recode c d)) with (seenName d).
  apply recoded_then; [recoded_go|]. intros d1. apply recoded_then; [|intros; recoded_go].
  change (seenBranchHints (recode c d1) || seenCode (recode c d1)) with (seenBranchHints d1 || seenCode d1).
  recoded_go.
Qed.

Lemma recoded_section c d id : id <> secCode -> forall multi,
  recoded c (decodeDirectSection multi true (recode c d) id) (decodeDirectSection multi false d id).
Proof.
  intros Hid multi. unfold decodeDirectSection.
  destruct (id =? secCustom); [apply recoded_custom|].
  destruct (id =? secTable); [unfold decodeDirectTableSection; recoded_go|].
  destruct (id =? secGlobal); [unfold decodeDirectGlobalSection; recoded_go|].
  destruct (id =? secElement); [unfold decodeDirectElementSection; recoded_go|].
  destruct (Z.eqb_spec id secCode); [done|].
  destruct (id =? secData); [unfold decodeDirectDataSection; recoded_go|].
  unfold decodeSection. repeat (destruct (id =? _); [apply recoded_assoc; recoded_go|]).
  by intros r.
Qed.

Lemma defer_irrelevant multi d id :
  id <> secCode -> decodeDirectSection multi true d id = decodeDirectSection multi false d id.
Proof.
  intros Hid. unfold decodeDirectSection. by destruct (Z.eqb_spec id secCode).
Qed.

Lemma recode_self d : recode (Code_ (dm d), usesDataCountInstr d) d = d.
Proof. by destruct d as [[] ? ? ? ? ?]. Qed.

(** Both modes on one section: [d] walked, [recode (c, false) d] sliced. *)
Lemma fused_section multi d id r d1 r1 c :
  reader_ok r -> Forall2 same_body (Code_ (dm d)) c ->
  decodeDirectSection multi false d id r = (Ok d1, r1) ->
  exists c1, decodeDirectSection multi true (recode (c, false) d) id r = (Ok (recode (c1, false) d1), r1) /\
    Forall2 same_body (Code_ (dm d1)) c1.
Proof.
  intros Hr Hc H. destruct (Z.eq_dec id secCode) as [->|Hid].
  - unfold decodeDirectSection in H |- *. cbn in H |- *.
    apply bind_ok in H as ([fs uses] & r2 & H & Hret). injection Hret as <- <-.
    apply pending_section in H as (fs' & H & Hfs); [|done]. exists fs'. split; [|done].
    rewrite bind_assoc. by rewrite (bind_eq _ _ _ _ _ H).
  - exists c. split; [by rewrite (recoded_section (c, false) d id Hid multi r), H|].
    pose proof (recoded_section (Code_ (dm d), usesDataCountInstr d) d id Hid multi r) as Hself.
    rewrite recode_self, (defer_irrelevant _ _ _ Hid), H in Hself.
    injection Hself as ->. exact Hc.
Qed.

(** ** The section loop and the module *)

Definition fused_state (st st' : loopState) : Prop :=
  lastOrder st' = lastOrder st /\ seen st' = seen st /\
  exists c, lsModule st' = recode (c, false) (lsModule st) /\
    Forall2 same_body (Code_ (dm (lsModule st))) c.

Lemma fused_check id start end_ st st' r st1 r1 :
  fused_state st st' -> checkSection id start end_ st r = (Ok st1, r1) ->
  exists st1', checkSection id start end_ st' r = (Ok st1', r1) /\ fused_state st1 st1'.
Proof.
  intros (E1 & E2 & c & E3 & Hc). unfold checkSection. rewrite E1, E2.
  destruct (id =? secCustom); [intros [= <- <-]; exists st'; split; [done|]; split; [done|]; eauto|].
  destruct (lookupSectionOrder id) as [ord|]; [|done]. destruct (ord <? lastOrder st); [done|].
  cbv zeta. destruct (negb _); [done|]. intros [= <- <-]. eexists. split; [done|].
  split; [done|]. split; [done|]. by exists c.
Qed.

Lemma fused_one multi st st' r st1 r1 :
  reader_ok r -> fused_state st st' -> decodeOneSection multi false st r = (Ok st1, r1) ->
  exists st1', decodeOneSection multi true st' r = (Ok st1', r1) /\ fused_state st1 st1'.
Proof.
  intros Hr Hst H. unfold decodeOneSection in H. apply bind_ok in H as (id & ra & H1 & H).
  apply bind_ok in H as (size & rb & H2 & H). unfold bind at 1, get at 1 in H. cbv zeta in H.
  apply bind_ok in H as (payload & rc & H3 & H). unfold bind at 1, get at 1 in H.
  apply bind_ok in H as (st2 & rd_ & H4 & H). apply bind_ok in H as ([d sub] & re & H5 & H).
  pose proof (safe_byte r Hr) as S1. rewrite H1 in S1. destruct S1 as (Hra & _).
  pose proof (safe_u32 ra Hra) as S2. rewrite H2 in S2. destruct S2 as (Hrb & _).
  pose proof (safe_bytes size rb Hrb) as S3. rewrite H3 in S3. destruct S3 as (Hrc & _ & _ & _ & Hp).
  assert (rd_ = rc) as ->.
  { revert H4. unfold checkSection. repeat case_match; by intros [=]. }
  apply (fused_check _ _ _ _ st') in H4 as (st2' & H4 & (E1 & E2 & c & E3 & Hc)); [|done].
  unfold with_error, on_sub in H5.
  set (sub0 := {| reader.data := payload; reader.pos := 0; reader.budget := reader.budget rc |}) in *.
  assert (Hs0 : reader_ok sub0) by (split; [exact Hp|simpl; lia|exact (rok_budget _ Hrc)]).
  destruct (decodeDirectSection multi false (lsModule st2) id sub0) as [[d1|e|] s1] eqn:Ed; [|done|done].
  injection H5 as -> -> <-.
  apply (fused_section _ _ _ _ _ _ c) in Ed as (c1 & Ed & Hc1); [|done|done].
  destruct (reader.has sub) eqn:Eh; [done|]. injection H as <- <-.
  eexists. split.
  - unfold decodeOneSection. rewrite (bind_eq _ _ _ _ _ H1), (bind_eq _ _ _ _ _ H2).
    unfold bind at 1, get at 1. cbv zeta. rewrite (bind_eq _ _ _ _ _ H3). unfold bind at 1, get at 1.
    rewrite (bind_eq _ _ _ _ _ H4), E3. unfold bind, with_error, on_sub. fold sub0. rewrite Ed, Eh.
    reflexivity.
  - split; [done|]. split; [done|]. by exists c1.
Qed.

Lemma fused_loop fuel multi st st' r st1 r1 :
  reader_ok r -> module_wf (lsModule st) -> fused_state st st' ->
  decodeSections fuel multi false st r = (Ok st1, r1) ->
  exists st1', decodeSections fuel multi true st' r = (Ok st1', r1) /\ fused_state st1 st1'.
Proof.
  revert st st' r. induction fuel as [|fuel IH]; intros st st' r Hr Hwf Hst H;
    cbn [decodeSections] in *; unfold bind at 1, get at 1 in H; unfold bind at 1, get at 1;
    destruct (reader.has r); cbn [negb] in *; try done.
  - injection H as <- <-. eauto.
  - apply bind_ok in H as (st2 & r2 & H2 & H).
    pose proof (safe_decodeOneSection multi false st Hwf r Hr) as S. rewrite H2 in S.
    apply (fused_one _ _ st') in H2 as (st2' & H2 & Hst2); [|done|done].
    rewrite (bind_eq _ _ _ _ _ H2). apply (IH st2 st2' r2); [apply S|apply S|done|done].
  - injection H as <- <-. eauto.
Qed.

Lemma fused_check_module size d c d' :
  Forall2 same_body (Code_ (dm d)) c -> checkModule size d = Ok d' ->
  d' = d /\ checkModule size (recode (c, false) d) = Ok (recode (c, false) d).
Proof.
  intros Hc H. pose proof (checkModule_spec size d) as Hs. rewrite H in Hs. destruct Hs as [-> [H1 H2 H3]].
  split; [done|]. unfold checkModule, recode. simpl. rewrite <- (Forall2_length _ _ _ Hc), H1.
  rewrite Nat.eqb_refl. simpl. destruct (DataCount (dm d)) as [n|]; [|done].
  by rewrite (H2 n eq_refl), Z.eqb_refl.
Qed.

(** Hints only look at the bytes of the bodies. *)
Lemma fused_hints m c :
  Forall2 same_body (Code_ m) c -> validateBranchHints (set_Code_ c m) = validateBranchHints m.
Proof.
  intros Hc. unfold validateBranchHints. change (BranchHints (set_Code_ c m)) with (BranchHints m).
  induction (BranchHints m) as [|f l IH]; simpl; [done|]. rewrite IH.
  replace (validateFuncHints (set_Code_ c m) f) with (validateFuncHints m f); [done|].
  unfold validateFuncHints. change (ImportedFuncCount (set_Code_ c m)) with (ImportedFuncCount m).
  change (NewModuleInstructionClassifier (set_Code_ c m) true) with (NewModuleInstructionClassifier m true).
  change (Code_ (set_Code_ c m)) with c. rewrite <- (Forall2_length _ _ _ Hc).
  destruct (_ <? _); [done|]. cbv zeta. destruct (_ || _); [done|].
  destruct (Code_ m !! _) as [fn|] eqn:E.
  - destruct (Forall2_lookup_l _ _ _ _ _ Hc E) as (fn' & -> & [H1 H2 _ _]). by rewrite H1, H2.
  - apply lookup_ge_None_1 in E. rewrite lookup_ge_None_2; [done|].
    by rewrite <- (Forall2_length _ _ _ Hc).
Qed.

(** C11: the fused entry point accepts every module the walking decoder accepts and
    builds the same module: it differs only in the function bodies, which have the
    same bytes, the same declaration length (so the same instruction offsets) and
    local runs that expand to the same locals after coalescing. *)
Theorem fused_decode_parity data multi limits d :
  bytes_ok data -> limits_ok limits ->
  decodeAndPopulate data multi limits false = Ok d ->
  exists c, decodeAndPopulate data multi limits true = Ok (recode (c, false) d) /\
    Forall2 same_body (Code_ (dm d)) c.
Proof.
  intros Hd Hl. unfold decodeAndPopulate, decodeDirectModuleInnerLimitsMode, decodeModule.
  set (r0 := {| reader.data := data; reader.pos := 0; reader.budget := _ |}).
  assert (Hr0 : reader_ok r0) by (split; simpl; [done|lia|by apply newDecodeBudget_ok]).
  intros H. destruct (fst (bind (rd.bytes 4) _ r0)) as [d0|e|] eqn:E in H; [|done|done].
  assert (Hgoal : exists c, fst (decodeModule multi true r0) = Ok (recode (c, false) d0) /\
    Forall2 same_body (Code_ (dm d0)) c).
  { destruct (bind (rd.bytes 4) _ r0) as [o rf] eqn:Em in E. simpl in E. subst o.
    apply bind_ok in Em as (magic & r1 & H1 & Em). destruct (negb _) eqn:Eg in Em; [done|].
    apply bind_ok in Em as (ver & r2 & H2 & Em). destruct (negb (_ =? _)) eqn:Ev in Em; [done|].
    unfold bind at 1, get at 1 in Em. apply bind_ok in Em as (st & r3 & H3 & Em).
    pose proof (safe_bytes 4 r0 Hr0) as S1. rewrite H1 in S1. destruct S1 as (Hr1 & _).
    pose proof (safe_le32 r1 Hr1) as S2. rewrite H2 in S2. destruct S2 as (Hr2 & _).
    eapply fused_loop in H3 as (st' & H3 & (_ & _ & c & E3 & Hc));
      [|exact Hr2|exact zero_wf|by split; [|split; [|exists []]]].
    injection Em as Em _. apply (fused_check_module _ _ c) in Em as [-> Em]; [|done].
    exists c. split; [|done]. unfold decodeModule. rewrite (bind_eq _ _ _ _ _ H1), Eg.
    rewrite (bind_eq _ _ _ _ _ H2), Ev. unfold bind at 1, get at 1. rewrite (bind_eq _ _ _ _ _ H3), E3.
    exact Em. }
  destruct Hgoal as (c & Hdef & Hc). unfold decodeModule in Hdef. rewrite Hdef.
  cbv zeta in *. exists c.
  change (dm (populateCodeBodies (recode (c, false) d0))) with
    (set_Code_ c (dm (populateCodeBodies d0))).
  rewrite fused_hints by exact Hc. destruct (validateBranchHints _) as [[]|e|]; [|done|done].
  injection H as <-. split; [reflexivity|exact Hc].
Qed.

(** Two runs of the same type: [(func (local i32) (local i32))]. *)
Definition runs_module : list Z :=
  [0; 97; 115; 109; 1; 0; 0; 0;  1; 4; 1; 0x60; 0; 0;  3; 2; 1; 0;
   10; 8; 1; 6; 2; 1; 0x7f; 1; 0x7f; 0x0b].

Lemma fused_decode_parity_witness :
  exists d c, DecodeModule runs_module = Ok d /\
    DecodeModuleForValidationWithFeatures runs_module true = Ok (recode (c, false) d) /\
    Forall2 same_body (Code_ (dm d)) c /\ map (fun f => length (FLocals f)) (Code_ (dm d)) = [2%nat].
Proof.
  assert (Hrun : match DecodeModule runs_module with
                 | Ok d => map (fun f => length (FLocals f)) (Code_ (dm d)) | _ => [] end = [2%nat])
    by (vm_compute; reflexivity).
  assert (Hbytes : bytes_ok runs_module).
  { repeat (constructor; [unfold byte_ok; lia|]). constructor. }
  unfold DecodeModule, DecodeModuleByteBackedWithLimits, DecodeModuleForValidationWithFeatures in *.
  destruct (decodeAndPopulate runs_module true zeroLimits false) as [d|e|] eqn:E; [|discriminate..].
  destruct (fused_decode_parity runs_module true zeroLimits d Hbytes ltac:(split; simpl; lia) E)
    as (c & H1 & H2).
  exists d, c. split; [reflexivity|]. split; [exact H1|]. split; [exact H2|exact Hrun].
Defined.
