(* ===== verification/SectionOrder.v ===== *)
(** * The sections of an accepted module

    [scanSections] splits the bytes after the header into section ids, looking
    only at the id and the size of each.  The sections of a module the decoder
    accepts stand in the order of the binary format, none of them twice; and the
    signature queries on it give the signatures written in its type section. *)

From stdpp Require Import base tactics numbers list.
From Stdlib Require Import ZArith Lia Sorted.
From S2P Require Import Prelude Reader LebSpec ReaderLaws ReaderExport Types TypesLaws Decode DecodeLaws Kinds.
From S2P Require Import Instr InstrLaws Skip SkipLaws Walk Module ModuleLaws TypeBounds TypeResolve ModuleMeta ModuleDecode.
From S2P Require Import ModuleSafe DecodeTotal.
Local Open Scope Z_scope.

Fixpoint scanSections (fuel : nat) : R (list Z) :=
  let! r := get in
  if negb (reader.has r) then ret []
  else
    match fuel with
    | O => panic
    | S fuel' =>
        let! id := rd.byte in
        let! size := rd.u32 in
        rd.bytes size ;;;
        let! ids := scanSections fuel' in
        ret (id :: ids)
    end.

Lemma bind_get {A} (k : reader.t -> R A) r : bind get k r = k r r.
Proof. reflexivity. Qed.

Lemma scanSections_unfold fuel :
  scanSections fuel =
  (let! r := get in
   if negb (reader.has r) then ret []
   else
     match fuel with
     | O => panic
     | S fuel' =>
         let! id := rd.byte in
         let! size := rd.u32 in
         rd.bytes size ;;;
         let! ids := scanSections fuel' in
         ret (id :: ids)
     end).
Proof. by destruct fuel. Qed.

Lemma obl_scanSections fuel : oblivious (scanSections fuel).
Proof.
  induction fuel as [|fuel IH]; intros r b; rewrite scanSections_unfold, !bind_get;
    (change (reader.has (set_budget b r)) with (reader.has r)); destruct (reader.has r); try done.
  cbn [negb]. revert r b. apply obl_bind; [apply obl_byte|]. intros id. apply obl_bind; [apply obl_u32|]. intros size.
  apply obl_bind; [apply obl_bytes|]. intros _. apply obl_bind; [exact IH|]. intros ids. apply obl_ret.
Qed.

(** ** One section *)

Lemma on_sub_same_place {A} payload (m : R A) r o r' :
  on_sub payload m r = (o, r') -> same_place r r'.
Proof.
  unfold on_sub. destruct (m _) as [o' sub]. intros [= _ <-].
  destruct (reader.budget r); done.
Qed.

(** The frame of a section read from [r] up to [r']. *)
Definition frame (r : reader.t) (id : Z) (r' : reader.t) : Prop :=
  exists size payload ra rb, rd.byte r = (Ok id, ra) /\ rd.u32 ra = (Ok size, rb) /\
    rd.bytes size rb = (Ok payload, r').

(** What a section does to the state of the order check. *)
Definition order_step (st : loopState) (id : Z) (st' : loopState) : Prop :=
  (id = secCustom /\ lastOrder st' = lastOrder st /\ seen st' = seen st) \/
  (id <> secCustom /\ exists ord, lookupSectionOrder id = Some ord /\ lastOrder st <= ord /\
    Z.land (seen st) (to_u16 (Z.shiftl 1 id)) = 0 /\
    lastOrder st' = ord /\ seen st' = Z.lor (seen st) (to_u16 (Z.shiftl 1 id))).

Lemma checkSection_ok id start end_ st r st' r' :
  checkSection id start end_ st r = (Ok st', r') -> r' = r /\ order_step st id st'.
Proof.
  unfold checkSection. destruct (Z.eqb_spec id secCustom) as [->|Hne].
  - intros [= <- <-]. split; [done|]. by left.
  - destruct (lookupSectionOrder id) as [ord|] eqn:E; [|done].
    destruct (Z.ltb_spec ord (lastOrder st)); [done|]. cbv zeta.
    destruct (Z.eqb_spec (Z.land (seen st) (to_u16 (Z.shiftl 1 id))) 0); [|done].
    intros [= <- <-]. split; [done|]. right. split; [done|]. exists ord. by simpl.
Qed.

Lemma decodeOneSection_ok multi defer st r st' r' :
  decodeOneSection multi defer st r = (Ok st', r') ->
  exists id rc, frame r id rc /\ same_place rc r' /\ order_step st id st'.
Proof.
  unfold decodeOneSection. intros H. apply bind_ok in H as (id & ra & H1 & H).
  apply bind_ok in H as (size & rb & H2 & H). unfold bind at 1, get at 1 in H. cbv zeta in H.
  apply bind_ok in H as (payload & rc & H3 & H). unfold bind at 1, get at 1 in H.
  apply bind_ok in H as (st1 & rd_ & H4 & H). apply checkSection_ok in H4 as [-> Hstep].
  apply bind_ok in H as ([d sub] & re & H5 & H). exists id, rc. split; [by exists size, payload, ra, rb|].
  assert (Hp : same_place rc re).
  { unfold with_error in H5. destruct (on_sub payload _ rc) as [[p|e|] r2] eqn:Eo; [|done|done].
    injection H5 as -> ->. by eapply on_sub_same_place. }
  destruct (reader.has sub); [done|]. injection H as <- <-. split; [done|].
  destruct Hstep as [(? & ? & ?)|(? & ord & ?)]; [by left|right]. split; [done|]. by exists ord.
Qed.

(** ** The order *)

Lemma sectionOrder_inj : Forall (fun p => Forall (fun q => snd p = snd q -> fst p = fst q) sectionOrder) sectionOrder.
Proof. repeat constructor; vm_compute; intros; congruence. Qed.

Lemma assoc_In l x v : assoc l x = Some v -> (x, v) ∈ l.
Proof.
  induction l as [|[k w] l IH]; simpl; [done|]. destruct (Z.eqb_spec x k) as [->|].
  - intros [= ->]. left.
  - intros H. right. auto.
Qed.

Lemma lookupSectionOrder_inj a b o :
  lookupSectionOrder a = Some o -> lookupSectionOrder b = Some o -> a = b.
Proof.
  intros Ha%assoc_In Hb%assoc_In. pose proof sectionOrder_inj as H.
  rewrite Forall_forall in H. specialize (H _ Ha). rewrite Forall_forall in H. by apply (H _ Hb).
Qed.

Lemma lookupSectionOrder_range id o : lookupSectionOrder id = Some o -> 1 <= o <= 13 /\ 1 <= id <= 13.
Proof.
  intros H%assoc_In. assert (Hall : Forall (fun p => 1 <= snd p <= 13 /\ 1 <= fst p <= 13) sectionOrder).
  { repeat constructor; vm_compute; congruence. }
  rewrite Forall_forall in Hall. by apply (Hall _ H).
Qed.

(** The state remembers the last standard section in its set. *)
Definition order_inv (st : loopState) : Prop :=
  lastOrder st = 0 \/
  exists id, lookupSectionOrder id = Some (lastOrder st) /\
    Z.land (seen st) (to_u16 (Z.shiftl 1 id)) <> 0.

Lemma bit_nonzero id : 1 <= id <= 13 -> to_u16 (Z.shiftl 1 id) = 2 ^ id.
Proof.
  intros H. rewrite Z.shiftl_1_l. unfold to_u16. apply Z.mod_small.
  split; [apply Z.pow_nonneg; lia|]. apply Z.pow_lt_mono_r; lia.
Qed.

Lemma order_step_strict st id st' ord :
  order_inv st -> order_step st id st' -> lookupSectionOrder id = Some ord ->
  lastOrder st < ord.
Proof.
  intros Hinv Hstep Hord. pose proof (lookupSectionOrder_range _ _ Hord) as [Ho Hi].
  destruct Hstep as [(-> & _)|(_ & ord' & Hord' & Hle & Hclear & _)]; [done|].
  rewrite Hord in Hord'. injection Hord' as <-.
  destruct (Z.eq_dec (lastOrder st) ord) as [E|]; [|lia].
  destruct Hinv as [H0|(id0 & Hid0 & Hset)]; [lia|]. rewrite E in Hid0.
  by rewrite (lookupSectionOrder_inj id id0 ord) in Hclear by done.
Qed.

Lemma order_step_inv st id st' : order_inv st -> order_step st id st' -> order_inv st'.
Proof.
  intros Hinv [(_ & E1 & E2)|(_ & ord & Hord & _ & _ & E1 & E2)].
  - unfold order_inv. by rewrite E1, E2.
  - right. exists id. rewrite E1, E2. split; [done|].
    pose proof (lookupSectionOrder_range _ _ Hord) as [_ Hi].
    rewrite bit_nonzero by done. rewrite Z.land_lor_distr_l, Z.land_diag.
    intros H. apply Z.lor_eq_0_iff in H as [_ H]. pose proof (Z.pow_pos_nonneg 2 id). lia.
Qed.

(** The orders of the standard sections in a list of ids. *)
Definition orders (ids : list Z) : list Z := omap lookupSectionOrder ids.

Lemma decodeSections_order fuel multi defer st r st' r' :
  order_inv st -> decodeSections fuel multi defer st r = (Ok st', r') ->
  exists ids r2, scanSections fuel r = (Ok ids, r2) /\
    Forall (fun id => id = secCustom \/ is_Some (lookupSectionOrder id)) ids /\
    StronglySorted Z.lt (orders ids) /\ Forall (fun o => lastOrder st < o) (orders ids).
Proof.
  revert st r. induction fuel as [|fuel IH]; intros st r Hinv H;
    cbn [decodeSections scanSections] in *; unfold bind at 1, get at 1 in H; unfold bind at 1, get at 1;
    destruct (reader.has r); cbn [negb] in *; try done; try (by exists [], r; repeat constructor).
  apply bind_ok in H as (st1 & r1 & H1 & H).
  apply decodeOneSection_ok in H1 as (id & rc & (size & payload & ra & rb & F1 & F2 & F3) & Hp & Hstep).
  destruct (IH st1 r1) as (ids & r2 & Hscan & Hknown & Hsorted & Hlow); [by eapply order_step_inv|done|].
  rewrite (bind_eq _ _ _ _ _ F1), (bind_eq _ _ _ _ _ F2), (bind_eq _ _ _ _ _ F3).
  rewrite (same_place_eq _ _ Hp) in Hscan. rewrite obl_scanSections in Hscan.
  destruct (scanSections fuel rc) as [o rs] eqn:Es. simpl in Hscan. injection Hscan as -> _.
  exists (id :: ids), rs. split; [by rewrite (bind_eq _ _ _ _ _ Es)|].
  destruct (lookupSectionOrder id) as [ord|] eqn:Eo.
  - assert (Hlt : lastOrder st < ord) by (by eapply order_step_strict).
    assert (Hlast : lastOrder st1 = ord).
    { destruct Hstep as [(-> & _)|(_ & o' & Ho & _ & _ & E & _)]; [done|congruence]. }
    assert (Hcons : orders (id :: ids) = ord :: orders ids) by (unfold orders; simpl; by rewrite Eo).
    rewrite Hcons, Hlast in *.
    split; [constructor; [right; by exists ord|done]|].
    split; [by constructor|]. constructor; [done|]. eapply Forall_impl; [exact Hlow|]. simpl. lia.
  - destruct Hstep as [(-> & E1 & E2)|(_ & o' & Ho & _)]; [|congruence].
    assert (Hcons : orders (secCustom :: ids) = orders ids) by done.
    rewrite Hcons. rewrite E1 in Hlow. split; [constructor; [by left|done]|]. done.
Qed.

(** The header of an accepted binary, and the loop over what follows it. *)
Lemma accepted_loop data multi limits defer d :
  decodeDirectModuleInnerLimitsMode data multi limits defer = Ok d ->
  (8 <= length data)%nat /\ take 4 data = magicBytes /\ le_uint (take 4 (drop 4 data)) = 1 /\
  exists st r', lsModule st = d /\
    decodeSections (length data) multi defer {| lsModule := zeroDirectModule; lastOrder := 0; seen := 0 |}
      {| reader.data := data; reader.pos := 8; reader.budget := Some (newDecodeBudget limits) |} = (Ok st, r').
Proof.
  unfold decodeDirectModuleInnerLimitsMode, decodeModule.
  set (r0 := {| reader.data := data; reader.pos := 0; reader.budget := _ |}).
  intros H. destruct (bind _ _ r0) as [o rf] eqn:E. simpl in H. subst o.
  apply bind_ok in E as (magic & r1 & Hm & E). unfold rd.bytes in Hm.
  destruct (_ || _) in Hm; [done|]. injection Hm as <- <-.
  destruct (bool_decide _) eqn:Emagic; [|done]. apply bool_decide_eq_true in Emagic. cbn [negb] in E.
  apply bind_ok in E as (ver & r2 & Hv & E). unfold rd.le32 in Hv.
  apply bind_ok in Hv as (vb & r3 & Hvb & Hv). unfold rd.bytes in Hvb.
  destruct (_ || _) eqn:Elen in Hvb; [done|]. injection Hvb as <- <-. injection Hv as <- <-.
  unfold reader.left in Elen. cbn [reader.data reader.pos reader.advance r0] in Elen.
  apply orb_false_iff in Elen as [_ Elen%Z.ltb_ge].
  destruct (negb (_ =? 1)) eqn:Ever in E; [done|]. apply negb_false_iff, Z.eqb_eq in Ever.
  unfold bind at 1, get at 1 in E. apply bind_ok in E as (st & r4 & Hs & Hc).
  split; [lia|]. split; [exact Emagic|]. split; [exact Ever|]. exists st, r4. split; [|exact Hs].
  injection Hc as Hc _. unfold checkModule in Hc. destruct (negb _); [done|].
  destruct (DataCount _); [destruct (negb _)|destruct (usesDataCountInstr _)]; by simplify_eq.
Qed.

(** C10: an accepted binary is a header and a sequence of sections in the order of
    the format: every section id is known, and the standard sections appear in
    strictly increasing order, so none of them twice, with custom sections
    anywhere between. *)
Theorem accepted_section_order data multi limits defer d :
  decodeDirectModuleInnerLimitsMode data multi limits defer = Ok d ->
  exists r ids r2, reader.data r = data /\ reader.pos r = 8%nat /\
    take 4 data = magicBytes /\ le_uint (take 4 (drop 4 data)) = 1 /\
    scanSections (length data) r = (Ok ids, r2) /\
    Forall (fun id => id = secCustom \/ is_Some (lookupSectionOrder id)) ids /\
    StronglySorted Z.lt (orders ids).
Proof.
  intros H. apply accepted_loop in H as (_ & Hm & Hv & st & r' & _ & Hs).
  apply decodeSections_order in Hs as (ids & rs & Hscan & Hk & Hsort & _); [|by left].
  eexists _, ids, rs. split; [|split; [|split; [exact Hm|split; [exact Hv|split; [exact Hscan|done]]]]]; done.
Qed.

Lemma accepted_section_order_witness :
  exists r ids r2, reader.data r = add_module /\ scanSections (length add_module) r = (Ok ids, r2) /\
    StronglySorted Z.lt (orders ids).
Proof.
  assert (Hok : is_ok (decodeDirectModuleInnerLimitsMode add_module true zeroLimits false) = true)
    by (vm_compute; reflexivity).
  destruct (decodeDirectModuleInnerLimitsMode add_module true zeroLimits false) as [d|e|] eqn:E;
    [|discriminate..].
  destruct (accepted_section_order add_module true zeroLimits false d E)
    as (r & ids & r2 & H1 & _ & _ & _ & H2 & _ & H3).
  exists r, ids, r2. split; [exact H1|]. split; [exact H2|exact H3].
Defined.

(** ** The sections of the bytes *)

(** The bytes after the header, split into section ids and payloads. *)
Inductive sections_are : list Z -> list (Z * list Z) -> Prop :=
| sections_end : sections_are [] []
| sections_more id size payload rest secs :
    leb_encodes false 32 size (Z.of_nat (length payload)) -> sections_are rest secs ->
    sections_are (id :: size ++ payload ++ rest) ((id, payload) :: secs).

Definition payloads (id : Z) (secs : list (Z * list Z)) : list (list Z) :=
  map snd (filter (fun s => fst s = id) secs).

(** What the section [id] declares: nothing where there is none. *)
Definition declares {A} (secs : list (Z * list Z)) (id : Z) (G : list Z -> list A -> Prop) (l : list A) : Prop :=
  match payloads id secs with
  | [] => l = []
  | [payload] => G payload l
  | _ => False
  end.

(** [yields P m]: every success of [m] satisfies [P]. *)
Definition yields {A} (P : A -> Prop) (m : R A) : Prop := forall r a r', m r = (Ok a, r') -> P a.

Lemma yields_bind {A B} (P : B -> Prop) (m : R A) (f : A -> R B) : (forall a, yields P (f a)) -> yields P (bind m f).
Proof. intros Hf r b r' H. apply bind_ok in H as (a & r1 & _ & H). by eapply Hf. Qed.

Lemma yields_after {A B} (Q : A -> Prop) (P : B -> Prop) (m : R A) (f : A -> R B) :
  yields Q m -> (forall a, Q a -> yields P (f a)) -> yields P (bind m f).
Proof. intros Hm Hf r b r' H. apply bind_ok in H as (a & r1 & H1 & H). by eapply Hf; [eapply Hm|]. Qed.

Lemma yields_ret {A} (P : A -> Prop) a : P a -> yields P (ret a).
Proof. by intros H r x r' [= <- _]. Qed.

Lemma yields_if {A} (P : A -> Prop) (c : bool) (m1 m2 : R A) : yields P m1 -> yields P m2 -> yields P (if c then m1 else m2).
Proof. by destruct c. Qed.

Lemma yields_fail_at {A} (P : A -> Prop) c d : yields P (fail_at c d).
Proof. by intros r a r' H. Qed.

(** The declarations of types and functions of two modules are the same. *)
Definition same_declarations (d d' : directModule) : Prop :=
  Types_ (dm d') = Types_ (dm d) /\ FuncTypes (dm d') = FuncTypes (dm d).

Ltac keeps_declarations :=
  repeat first [apply yields_bind; intros ?|apply yields_if|apply yields_fail_at|apply yields_ret; by split].

Lemma custom_keeps d : yields (same_declarations d) (decodeDirectCustomSection d).
Proof.
  unfold decodeDirectCustomSection. do 5 (apply yields_bind; intros ?). apply yields_bind; intros payload. cbv zeta.
  apply (yields_after (same_declarations d)); [keeps_declarations|]. intros d1 [T1 F1].
  apply (yields_after (same_declarations d)); [|].
  - apply yields_if; [|by apply yields_ret]. apply yields_if; [apply yields_fail_at|].
    do 2 (apply yields_bind; intros ?). by apply yields_ret.
  - intros d2 [T2 F2]. apply yields_ret. destruct (_ && _); by split.
Qed.

(** The sections that declare neither types nor functions. *)
Lemma section_keeps multi defer d id :
  id <> secType -> id <> secFunction -> yields (same_declarations d) (decodeDirectSection multi defer d id).
Proof.
  intros Ht Hf. unfold decodeDirectSection. apply yields_if; [apply custom_keeps|].
  unfold decodeDirectTableSection, decodeDirectGlobalSection, decodeDirectElementSection, decodeDirectDataSection.
  do 5 (apply yields_if; [keeps_declarations|]). unfold decodeSection.
  rewrite (proj2 (Z.eqb_neq id secType) Ht), (proj2 (Z.eqb_neq id secFunction) Hf).
  apply (yields_after (fun m => Types_ m = Types_ (dm d) /\ FuncTypes m = FuncTypes (dm d))); [keeps_declarations|].
  intros m [? ?]. by apply yields_ret.
Qed.

(** A decoder that has read a whole payload. *)
Lemma parses_all {A} (G : list Z -> A -> Prop) (m : R A) payload b a sub :
  parses G m -> bytes_ok payload ->
  m {| reader.data := payload; reader.pos := 0; reader.budget := b |} = (Ok a, sub) -> reader.has sub = false ->
  G payload a.
Proof.
  intros Hm Hb H Hh. destruct (Hm {| reader.data := payload; reader.pos := 0; reader.budget := b |} a sub Hb H) as (bs & [[rest B] D P] & Hg). cbn [reader.pos reader.data] in *.
  rewrite drop_0 in B. unfold reader.has, reader.left in Hh. rewrite D, P, B, length_app in Hh.
  destruct rest as [|c rest]; [by rewrite B, app_nil_r|]. apply Z.ltb_ge in Hh. cbn [length] in Hh. lia.
Qed.

(** The types a module stores for those a payload encodes. *)
Definition stored_types (payload : list Z) (types : list RecType) : Prop :=
  exists ts, types_are payload ts /\ types = markRecursiveTypeIndexes ts /\ Forall rec_decoded ts /\
    Z.of_nat (length (type_flat 0 ts)) < 2 ^ 32.

(** What a section does to the declarations. *)
Definition declared_by (id : Z) (payload : list Z) (d d' : directModule) : Prop :=
  (if id =? secType then stored_types payload (Types_ (dm d')) else Types_ (dm d') = Types_ (dm d)) /\
  (if id =? secFunction then vec_is index_is payload (FuncTypes (dm d')) else FuncTypes (dm d') = FuncTypes (dm d)).

Lemma section_declares multi defer d id payload b d' sub :
  reader_ok {| reader.data := payload; reader.pos := 0; reader.budget := b |} -> Z.of_nat (length payload) < 2 ^ 32 ->
  decodeDirectSection multi defer d id {| reader.data := payload; reader.pos := 0; reader.budget := b |} = (Ok d', sub) ->
  reader.has sub = false -> declared_by id payload d d'.
Proof.
  intros Hr Hlen H Hh. pose proof (rok_bytes _ Hr) as Hb. cbn [reader.data] in Hb. unfold declared_by. destruct (Z.eqb_spec id secType) as [->|Ht].
  - apply bind_ok in H as (m & r1 & H & [= <- <-]). apply bind_ok in H as (ts & r2 & H & [= <- <-]).
    split; [|done]. exists ts. split; [by eapply parses_all; [apply parses_decodeTypeSection|..]|]. split; [done|].
    pose proof (safe_decodeTypeSection_at payload Hlen _ Hr eq_refl) as Hs. rewrite H in Hs. by destruct Hs as (_ & _ & ?).
  - destruct (Z.eqb_spec id secFunction) as [->|Hf]; [|by eapply section_keeps].
    apply bind_ok in H as (m & r1 & H & [= <- <-]). apply bind_ok in H as (fs & r2 & H & [= <- <-]).
    split; [done|]. by eapply parses_all; [apply parses_readVec, parses_decodeTypeIdx|..].
Qed.

Lemma bytes_took n r payload r' :
  rd.bytes n r = (Ok payload, r') -> took payload r r' /\ n = Z.of_nat (length payload).
Proof.
  unfold rd.bytes. destruct (_ || _) eqn:E; [done|]. intros [= <- <-]. unfold reader.left in E.
  assert (L : length (take (Z.to_nat n) (drop (reader.pos r) (reader.data r))) = Z.to_nat n)
    by (rewrite length_take, length_drop; lia).
  rewrite L. split; [|lia]. split; [|done|simpl; by rewrite L].
  exists (drop (Z.to_nat n) (drop (reader.pos r) (reader.data r))). by rewrite take_drop.
Qed.

Lemma safe_ok {A} k (m : R A) Q r a r' : safe k m Q -> reader_ok r -> m r = (Ok a, r') -> reader_ok r' /\ Q a.
Proof. intros H Hr E. specialize (H r Hr). rewrite E in H. by destruct H as (? & _ & ?). Qed.

(** One round of the loop: a section of the bytes, and its declarations. *)
Lemma decodeOneSection_declares multi defer st r st' r' :
  reader_ok r -> decodeOneSection multi defer st r = (Ok st', r') ->
  exists id size payload, leb_encodes false 32 size (Z.of_nat (length payload)) /\
    took (id :: size ++ payload) r r' /\ order_step st id st' /\
    declared_by id payload (lsModule st) (lsModule st').
Proof.
  intros Hr. unfold decodeOneSection. intros H. apply bind_ok in H as (id & ra & H1 & H).
  apply bind_ok in H as (n & rb & H2 & H). unfold bind at 1, get at 1 in H. cbv zeta in H.
  apply bind_ok in H as (payload & rc & H3 & H). unfold bind at 1, get at 1 in H.
  apply bind_ok in H as (st1 & rd_ & H4 & H).
  assert (Em : lsModule st1 = lsModule st).
  { unfold checkSection in H4. destruct (_ =? _); [by injection H4 as <- _|]. destruct (lookupSectionOrder id); [|done].
    destruct (_ <? _); [done|]. destruct (negb _); [done|]. by injection H4 as <- _. }
  apply checkSection_ok in H4 as [-> Hstep].
  apply bind_ok in H as ([d sub] & re & H5 & H).
  destruct (safe_ok _ _ _ _ _ _ safe_byte Hr H1) as [Hra _], (safe_ok _ _ _ _ _ _ safe_u32 Hra H2) as [Hrb Hu],
    (safe_ok _ _ _ _ _ _ (safe_bytes n) Hrb H3) as (Hrc & _ & _ & Hpay).
  destruct (parses_byte r id ra (rok_bytes _ Hr) H1) as (b1 & T1 & ->).
  destruct (parses_u32 ra n rb (rok_bytes _ Hra) H2) as (size & T2 & Hn).
  apply bytes_took in H3 as [T3 ->]. pose proof (took_app _ _ _ _ _ (took_app _ _ _ _ _ T1 T2) T3) as T.
  rewrite <- app_assoc in T.
  exists id, size, payload. split; [done|].
  unfold with_error in H5. destruct (on_sub payload _ rc) as [[p|e|] r2] eqn:Eo; [|done|done]. injection H5 as -> ->.
  pose proof (on_sub_same_place _ _ _ _ _ Eo) as [P1 P2].
  destruct (reader.has sub) eqn:Eh; [done|]. injection H as <- <-.
  split; [destruct T as [B D P]; split; [done|by rewrite <- P1|by rewrite <- P2]|]. split.
  { destruct Hstep as [(? & ? & ?)|(? & ord & ?)]; [by left|right]. split; [done|]. by exists ord. }
  rewrite <- Em. unfold on_sub in Eo.
  destruct (decodeDirectSection multi defer (lsModule st1) id _) as [[d'|e|] sub'] eqn:Ed; [|done|done].
  injection Eo as -> -> _. unfold u32_ok in Hu. eapply section_declares; [|lia|exact Ed|exact Eh].
  split; [done|simpl; lia|exact (rok_budget _ Hrc)].
Qed.

(** ** All sections *)

(** What the section [id0] among [secs] makes of the value [old]. *)
Definition effect {V} (secs : list (Z * list Z)) (id0 : Z) (P : list Z -> V -> Prop) (old new : V) : Prop :=
  match payloads id0 secs with
  | [] => new = old
  | [payload] => P payload new
  | _ => False
  end.

Lemma effect_more {V} id payload secs id0 (P : list Z -> V -> Prop) old mid new :
  (if id =? id0 then P payload mid else mid = old) -> (id = id0 -> payloads id0 secs = []) ->
  effect secs id0 P mid new -> effect ((id, payload) :: secs) id0 P old new.
Proof.
  unfold effect, payloads. rewrite filter_cons. cbn [fst]. destruct (Z.eqb_spec id id0) as [->|Hne].
  - intros Hp Hn. rewrite decide_True by done. cbn [map snd]. rewrite (Hn eq_refl). by intros ->.
  - intros -> _. by rewrite decide_False by done.
Qed.

Lemma payloads_earlier id ord lo secs :
  lookupSectionOrder id = Some ord -> ord <= lo -> Forall (fun o => lo < o) (orders (map fst secs)) -> payloads id secs = [].
Proof.
  intros Ho Hle. unfold payloads, orders. induction secs as [|[k p] secs IH]; [done|]. cbn [map fst].
  rewrite filter_cons. cbn [fst omap list_omap]. intros H. destruct (decide (k = id)) as [->|].
  - rewrite Ho in H. apply Forall_cons in H as [H _]. lia.
  - apply IH. destruct (lookupSectionOrder k); [by apply Forall_cons in H as [_ ?]|done].
Qed.

Lemma order_step_later st id st' secs :
  order_inv st -> order_step st id st' -> Forall (fun o => lastOrder st' < o) (orders (map fst secs)) ->
  Forall (fun o => lastOrder st < o) (orders (id :: map fst secs)) /\
  (id <> secCustom -> payloads id secs = []).
Proof.
  intros Hinv Hstep H. destruct (lookupSectionOrder id) as [ord|] eqn:Eo.
  - pose proof (order_step_strict _ _ _ _ Hinv Hstep Eo) as Hlt.
    assert (Hlast : lastOrder st' = ord).
    { destruct Hstep as [(-> & _)|(_ & o' & Ho & _ & _ & E & _)]; [done|congruence]. }
    split; [|intros _; eapply payloads_earlier; [exact Eo| |exact H]; lia].
    unfold orders. cbn [omap list_omap]. rewrite Eo. constructor; [done|]. eapply Forall_impl; [exact H|]. simpl. lia.
  - destruct Hstep as [(-> & E & _)|(_ & o' & Ho & _)]; [|congruence]. split; [|done].
    unfold orders. cbn [omap list_omap]. rewrite Eo. by rewrite E in H.
Qed.

Lemma decodeSections_declares fuel multi defer st r st' r' :
  reader_ok r -> module_wf (lsModule st) -> order_inv st -> decodeSections fuel multi defer st r = (Ok st', r') ->
  exists secs, sections_are (drop (reader.pos r) (reader.data r)) secs /\
    Forall (fun o => lastOrder st < o) (orders (map fst secs)) /\
    effect secs secType stored_types (Types_ (dm (lsModule st))) (Types_ (dm (lsModule st'))) /\
    effect secs secFunction (vec_is index_is) (FuncTypes (dm (lsModule st))) (FuncTypes (dm (lsModule st'))).
Proof.
  revert st r. induction fuel as [|fuel IH]; intros st r Hr Hwf Hinv H; cbn [decodeSections] in H;
    unfold bind at 1, get at 1 in H; (destruct (reader.has r) eqn:Eh; cbn [negb] in H; [try done|]).
  all: try (injection H as <- <-; exists []; unfold reader.has, reader.left in Eh;
    rewrite drop_ge by lia; by repeat constructor).
  apply bind_ok in H as (st1 & r1 & H1 & H).
  pose proof (safe_ok _ _ _ _ _ _ (safe_decodeOneSection multi defer st Hwf) Hr H1) as [Hr1 Hwf1].
  apply decodeOneSection_declares in H1 as (id & size & payload & Hsize & T & Hstep & Htypes & Hfuncs); [|done].
  destruct (IH st1 r1 Hr1 Hwf1) as (secs & Hsecs & Hlow & E1 & E2); [by eapply order_step_inv|done|].
  destruct (order_step_later _ _ _ _ Hinv Hstep Hlow) as [Hlow' Honce].
  destruct T as [[rest B] D P]. exists ((id, payload) :: secs). split; [|split; [done|split]].
  - rewrite D, P, <- drop_drop, B, drop_app_length in Hsecs. rewrite B. cbn [app]. rewrite <- app_assoc.
    by constructor.
  - eapply effect_more; [exact Htypes|by intros ->; apply Honce|exact E1].
  - eapply effect_more; [exact Hfuncs|by intros ->; apply Honce|exact E2].
Qed.

(** ** Signatures of a decoded module *)

(** The signature at flattened index [i] of a type section. *)
Definition signature_at (ts : list RecType) (i : Z) : option CompType :=
  match type_flat 0 ts !! Z.to_nat i with
  | Some (st, _) => if CKind (Comp st) =? CompFunc then Some (Comp st) else None
  | None => None
  end.

Lemma resolveTypeFunc_decoded m ts t alias :
  Types_ m = markRecursiveTypeIndexes ts -> Forall rec_decoded ts ->
  Z.of_nat (length (type_flat 0 ts)) < 2 ^ 32 -> plain_idx t ->
  resolveTypeFunc m t alias = signature_at ts (Index t).
Proof.
  intros Hm Hd Hlen [Hi Hr]. destruct t as [i rec]. simpl in Hr, Hi. subst rec. unfold signature_at. simpl.
  unfold u32_ok in Hi.
  destruct (type_flat 0 ts !! Z.to_nat i) as [[st g]|] eqn:E.
  - destruct (resolve_marked m ts (Z.to_nat i) st g alias Hm Hd Hlen E) as [H _].
    by rewrite Z2Nat.id in H by lia.
  - unfold resolveTypeFunc. rewrite subtypeByTypeIdx_flat by (simpl; lia). simpl.
    unfold typeIndex_flat. rewrite Hm. apply lookup_ge_None_1 in E.
    rewrite lookup_ge_None_2; [done|]. by unfold markRecursiveTypeIndexes; rewrite mark_flat_length.
Qed.

Lemma ResolveLocalFuncType_is m i t :
  FuncTypes m !! i = Some t -> ResolveLocalFuncType m (Z.of_nat i) = resolveTypeFunc m t true.
Proof.
  intros H. unfold ResolveLocalFuncType. pose proof (lookup_lt_Some _ _ _ H).
  replace (_ || _) with false by (symmetry; apply orb_false_iff; split; lia).
  rewrite Nat2Z.id, H. unfold resolveTypeFunc.
  destruct (subtypeByTypeIdxWithRecGroup m t) as [[st g]|]; [|done].
  destruct (negb _); [done|]. simpl. by destruct (funcTypeHasRecIndexes (Comp st)).
Qed.

Lemma sections_are_unique bs secs secs' : sections_are bs secs -> sections_are bs secs' -> secs = secs'.
Proof.
  intros H. revert secs'. induction H as [|id size payload rest secs Hn _ IH]; intros secs' H'; [by inversion H'|].
  inversion H' as [|id' size' payload' rest' k Hn' Hk E]; subst.
  destruct (unambiguous_leb _ _ _ _ _ _ _ _ Hn' Hn ltac:(eassumption)) as [-> El].
  match goal with E : size ++ _ = size ++ _ |- _ => apply app_inv_head, app_inj_1 in E as [-> ->]; [|lia] end.
  f_equal. by apply IH.
Qed.

Lemma declares_unique {A} (G : list Z -> list A -> Prop) secs id l k :
  (forall x l k, G x l -> G x k -> l = k) -> declares secs id G l -> declares secs id G k -> l = k.
Proof.
  intros HG. unfold declares. destruct (payloads id secs) as [|p [|q ps]]; [by intros -> ->|by apply HG|done].
Qed.

Lemma populated_declarations data multi limits defer d :
  decodeAndPopulate data multi limits defer = Ok d ->
  exists d0, decodeDirectModuleInnerLimitsMode data multi limits defer = Ok d0 /\
    Types_ (dm d) = Types_ (dm d0) /\ FuncTypes (dm d) = FuncTypes (dm d0).
Proof.
  unfold decodeAndPopulate. destruct (decodeDirectModuleInnerLimitsMode data multi limits defer) as [d0|e|]; [|done|done].
  cbv zeta. destruct (validateBranchHints _); [|done|done]. intros [= <-]. by exists d0.
Qed.

(** The declarations of an accepted binary, from its bytes. *)
Lemma accepted_declarations data multi limits defer d :
  bytes_ok data -> limits_ok limits -> decodeDirectModuleInnerLimitsMode data multi limits defer = Ok d ->
  exists secs ts, sections_are (drop 8 data) secs /\ declares secs secType types_are ts /\
    declares secs secFunction (vec_is index_is) (FuncTypes (dm d)) /\
    Types_ (dm d) = markRecursiveTypeIndexes ts /\ Forall rec_decoded ts /\
    Z.of_nat (length (type_flat 0 ts)) < 2 ^ 32.
Proof.
  intros Hd Hl H. apply accepted_loop in H as (Hlen & _ & _ & st & r' & <- & Hs).
  apply decodeSections_declares in Hs as (secs & Hsecs & _ & E1 & E2); [|split; [done|simpl; lia|by apply newDecodeBudget_ok]|exact zero_wf|by left].
  exists secs. unfold effect in E1, E2. unfold declares.
  destruct (payloads secType secs) as [|p [|? ?]] eqn:Ep; [|destruct E1 as (ts & ?)|done].
  - exists []. split; [done|]. split; [done|]. split; [by destruct (payloads secFunction secs) as [|? [|? ?]]|]. split; [done|].
    split; [constructor|done].
  - exists ts. split; [done|]. split; [tauto|]. split; [by destruct (payloads secFunction secs) as [|? [|? ?]]|]. tauto.
Qed.

(** C29: signatures survive decoding.  The bytes of an accepted module after its header
    split into sections in exactly one way; its type section (at most one) encodes, by
    the grammar of the binary format, exactly one list of types [ts], empty where the
    section is missing, and its function section exactly the list of type indexes the
    module holds.  The query for any type index and for any function's type gives the
    signature as [ts] has it ([None] where there is no function type), although the
    module stores it with group-relative indexes. *)
Theorem decoded_signatures data multi limits defer d :
  bytes_ok data -> limits_ok limits ->
  decodeAndPopulate data multi limits defer = Ok d ->
  exists secs ts, sections_are (drop 8 data) secs /\ declares secs secType types_are ts /\
    declares secs secFunction (vec_is index_is) (FuncTypes (dm d)) /\
    (forall secs' ts' fs, sections_are (drop 8 data) secs' -> declares secs' secType types_are ts' ->
       declares secs' secFunction (vec_is index_is) fs -> secs' = secs /\ ts' = ts /\ fs = FuncTypes (dm d)) /\
    Types_ (dm d) = markRecursiveTypeIndexes ts /\ Forall rec_decoded ts /\
    (forall t alias, plain_idx t -> resolveTypeFunc (dm d) t alias = signature_at ts (Index t)) /\
    (forall i t, FuncTypes (dm d) !! i = Some t ->
       ResolveLocalFuncType (dm d) (Z.of_nat i) = signature_at ts (Index t)).
Proof.
  intros Hd Hl H. pose proof (decodeAndPopulate_safe data multi limits defer Hd Hl) as Hs.
  rewrite H in Hs. destruct Hs as [Hwf _]. apply populated_declarations in H as (d0 & H & Et & Ef).
  apply accepted_declarations in H as (secs & ts & Hsecs & Hts & Hfs & Ht & Hdec & Hlen); [|done|done].
  rewrite <- Et in Ht. rewrite <- Ef in Hfs. exists secs, ts. split; [done|]. split; [done|]. split; [done|]. split.
  { intros secs' ts' fs H1 H2 H3. rewrite (sections_are_unique _ _ _ H1 Hsecs) in *. split; [done|].
    split; [exact (declares_unique _ _ _ _ _ types_are_unique H2 Hts)|exact (declares_unique _ _ _ _ _ indices_unique H3 Hfs)]. }
  split; [done|]. split; [done|]. split.
  - intros t alias Hp. by apply resolveTypeFunc_decoded.
  - intros i t Hi. rewrite (ResolveLocalFuncType_is _ _ _ Hi). apply resolveTypeFunc_decoded; try done.
    by apply (Forall_lookup_1 _ _ _ _ (wf_funcs _ Hwf) Hi).
Qed.

(** [add_module] read by hand: its sections, its one type and its one function. *)
Definition add_sections : list (Z * list Z) :=
  [(1, [1; 0x60; 2; 0x7f; 0x7f; 1; 0x7f]); (3, [1; 0]); (10, [1; 7; 0; 0x20; 0; 0x20; 1; 0x6a; 0x0b])].

Definition add_types : list RecType :=
  [{| SubTypes := [{| Final := true; Supers := []; Metadata := {| Describes := 0; Descriptor := 0 |};
       Comp := {| CKind := CompFunc; Array := zeroWord; Fields := []; Params := [I32; I32]; Results := [I32] |};
       HasPrefix := false |}] |}].

Lemma count_is n : 0 <= n < 128 -> leb_encodes false 32 [n] n.
Proof.
  intros H. pose proof (leb_encodes_single false 32 n H ltac:(lia)) as L. unfold leb_value in L.
  cbn [andb leb_digits] in L. by rewrite Z.mod_small, Z.mul_0_r, Z.add_0_r in L by lia.
Qed.

Lemma add_sections_are : sections_are (drop 8 add_module) add_sections.
Proof.
  apply (sections_more 1 [7] [1; 0x60; 2; 0x7f; 0x7f; 1; 0x7f]); [by apply count_is|].
  apply (sections_more 3 [2] [1; 0]); [by apply count_is|].
  apply (sections_more 10 [9] [1; 7; 0; 0x20; 0; 0x20; 1; 0x6a; 0x0b] []); [by apply count_is|]. constructor.
Qed.

Lemma vals_are (parts : list (list Z)) (l : list ValType) :
  Forall2 val_is parts l -> 0 <= Z.of_nat (length l) < 128 -> vec_is val_is (Z.of_nat (length l) :: concat parts) l.
Proof. intros H Hl. exists [Z.of_nat (length l)], parts. split; [done|]. split; [by apply count_is|done]. Qed.

Lemma add_types_are : types_are [1; 0x60; 2; 0x7f; 0x7f; 1; 0x7f] add_types.
Proof.
  assert (H32 : val_is [0x7f] I32) by (left; exists 0x7f; split; [done|left]).
  exists [1], [[0x60; 2; 0x7f; 0x7f; 1; 0x7f]]. split; [done|]. split; [by apply count_is|]. constructor; [|constructor].
  right. eexists. split; [|done]. exists [], [], [0x60; 2; 0x7f; 0x7f; 1; 0x7f]. split; [done|]. split; [by left|].
  split; [exists [], []; split; [done|]; split; by left|]. right; right.
  exists [2; 0x7f; 0x7f], [1; 0x7f], [I32; I32], [I32]. split; [done|].
  split; [by apply (vals_are [[0x7f]; [0x7f]] [I32; I32]); [repeat (constructor; [exact H32|]); constructor|]|].
  by split; [apply (vals_are [[0x7f]] [I32]); [repeat (constructor; [exact H32|]); constructor|]|].
Qed.

Lemma add_functions_are : vec_is index_is [1; 0] [{| Index := 0; Rec := false |}].
Proof.
  exists [1], [[0]]. split; [done|]. split; [by apply count_is|]. constructor; [|constructor]. by split; [apply count_is|].
Qed.

Lemma decoded_signatures_witness :
  exists d, decodeAndPopulate add_module true zeroLimits false = Ok d /\
    Types_ (dm d) = markRecursiveTypeIndexes add_types /\ FuncTypes (dm d) = [{| Index := 0; Rec := false |}] /\
    ResolveLocalFuncType (dm d) 0 = signature_at add_types 0.
Proof.
  assert (Hrun : is_ok (decodeAndPopulate add_module true zeroLimits false) = true)
    by (vm_compute; reflexivity).
  assert (Hbytes : bytes_ok add_module).
  { repeat (constructor; [unfold byte_ok; lia|]). constructor. }
  destruct (decodeAndPopulate add_module true zeroLimits false) as [d|e|] eqn:E; [|discriminate Hrun..].
  destruct (decoded_signatures add_module true zeroLimits false d Hbytes ltac:(split; simpl; lia) E)
    as (secs & ts & _ & _ & _ & Huniq & Ht & _ & _ & Hfun).
  destruct (Huniq add_sections add_types [{| Index := 0; Rec := false |}] add_sections_are add_types_are add_functions_are)
    as (_ & <- & Ef).
  exists d. split; [reflexivity|]. split; [exact Ht|]. split; [symmetry; exact Ef|].
  apply (Hfun 0%nat {| Index := 0; Rec := false |}). rewrite <- Ef. reflexivity.
Defined.
