(* ===== verification/TypeEquiv.v ===== *)
(** * Equivalence and subtyping of defined types

    The comparison of recursive types in validate_gc_helpers.go and the subtype
    relation of the validator built on it (validate.go).  [eqType] compares two
    flattened types up to the names of their recursive groups: the map of pairs
    makes the comparison coinductive, since a pair under comparison counts as
    equal.  A Go closure that refers to [eqType] takes it as its first argument. *)

From stdpp Require Import base tactics numbers list gmap.
From Stdlib Require Import ZArith Lia.
From S2P Require Import Prelude Types Module.
Local Open Scope Z_scope.

(** [state] and [introduced] of a comparison; [Panic] is fuel that ran out. *)
Record eqState : Set := { pairs : gmap (Z * Z) Z; introduced : list (Z * Z) }.

Definition E (A : Type) : Type := M eqState unit A.

(** [a && b] *)
Definition andM (a b : E bool) : E bool := let! x := a in if x then b else ret false.
Notation "a '&&&' b" := (andM a b) (at level 40, left associativity) : go_scope.

(** [for i := range l { if !f(l[i]) { ok = false; break } }] *)
Fixpoint forallM {A} (f : A -> E bool) (l : list A) : E bool :=
  match l with
  | [] => ret true
  | x :: rest => f x &&& forallM f rest
  end.

(** The same over two slices of equal length. *)
Fixpoint forall2M {A} (f : A -> A -> E bool) (l k : list A) : E bool :=
  match l, k with
  | x :: l', y :: k' => f x y &&& forall2M f l' k'
  | _, _ => ret true
  end.

(** [state[p]], 0 when absent. *)
Definition state_of (s : eqState) (p : Z * Z) : Z := from_option id 0 (pairs s !! p).

Definition setState (p : Z * Z) (v : Z) (s : eqState) : eqState :=
  {| pairs := <[p := v]> (pairs s); introduced := introduced s |}.

Definition introduce (p : Z * Z) (s : eqState) : eqState :=
  {| pairs := <[p := 1]> (pairs s); introduced := introduced s ++ [p] |}.

Module mv.
Section Module.
Context (m : Module_).

(** [ensureTypeIndex]: the local index of tiny modules and the shared directory
    hold the same lists. *)
Definition flatSubTypes : list (SubType * nat) := typeIndex_flat m.
Definition typeGroupBases : list Z := typeIndex_bases m.

Definition subtypeByFlatTypeIdx (idx : Z) : option (SubType * Z) :=
  if (idx <? 0) || (Z.of_nat (length flatSubTypes) <=? idx) then None
  else (fun r => (fst r, Z.of_nat (snd r))) <$> flatSubTypes !! Z.to_nat idx.

Definition subtypeByTypeIdxWithRecGroup (idx : TypeIdx) : option (SubType * Z) :=
  if Rec idx then None else subtypeByFlatTypeIdx (Index idx).

Definition validTypeIdx (idx : TypeIdx) : bool :=
  match subtypeByTypeIdxWithRecGroup idx with Some _ => true | None => false end.

(** [len(v.m.Types[g].SubTypes)] *)
Definition groupSize (g : Z) : option Z :=
  (fun rt => Z.of_nat (length (SubTypes rt))) <$> Types_ m !! Z.to_nat g.

Definition flatTypeIdxInRecGroup (idx : TypeIdx) (recGroup : Z) : option Z :=
  if negb (Rec idx) then
    if negb (validTypeIdx idx) then None else Some (Index idx)
  else if (recGroup <? 0) || (Z.of_nat (length (Types_ m)) <=? recGroup) then None
  else
    match groupSize recGroup, typeGroupBases !! Z.to_nat recGroup with
    | Some n, Some base => if to_u32 n <=? Index idx then None else Some (base + Index idx)
    | _, _ => None
    end.

(** ** The comparison *)

Section Compare.
Context (eqType : Z -> Z -> E bool).

(** Two references to types, compared where both are in scope. *)
Definition eqIndex (x y : TypeIdx) (xGroup yGroup : Z) : E bool :=
  match flatTypeIdxInRecGroup x xGroup, flatTypeIdxInRecGroup y yGroup with
  | Some xi, Some yi => eqType xi yi
  | _, _ => ret false
  end.

Definition eqHeap (x y : HeapType) (xGroup yGroup : Z) : E bool :=
  if negb (HeapType_Kind x =? HeapType_Kind y) then ret false
  else if HeapType_Kind x =? HeapAbs then ret (HeapType_Abs x =? HeapType_Abs y)
  else if HeapType_Kind x =? HeapTypeIndex then
    if negb (Bool.eqb (Rec (HeapType_Type x)) (Rec (HeapType_Type y))) then ret false
    else eqIndex (HeapType_Type x) (HeapType_Type y) xGroup yGroup
  else if HeapType_Kind x =? HeapDefType then
    let '(xg, xi, _, xv) := HeapType_Def x in
    let '(yg, yi, _, yv) := HeapType_Def y in
    ret (Bool.eqb xv yv && (negb xv || ((xg =? yg) && (xi =? yi))))
  else ret false.

Definition eqVal (x y : ValType) (xGroup yGroup : Z) : E bool :=
  if negb (ValType_Kind x =? ValType_Kind y) || negb (ValType_Num x =? ValType_Num y) then ret false
  else if negb (ValType_Kind x =? ValRef) then ret true
  else
    ret (Bool.eqb (RefType_Nullable (ValType_Ref x)) (RefType_Nullable (ValType_Ref y))) &&&
    ret (Bool.eqb (RefType_Exact (ValType_Ref x)) (RefType_Exact (ValType_Ref y))) &&&
    eqHeap (RefType_Heap (ValType_Ref x)) (RefType_Heap (ValType_Ref y)) xGroup yGroup.

Definition eqStorage (x y : StorageType) (xGroup yGroup : Z) : E bool :=
  if negb (Bool.eqb (StorageType_Packed x) (StorageType_Packed y))
     || negb (StorageType_Pack x =? StorageType_Pack y) then ret false
  else if StorageType_Packed x then ret true
  else eqVal (StorageType_Val x) (StorageType_Val y) xGroup yGroup.

Definition eqField (x y : FieldType) (xGroup yGroup : Z) : E bool :=
  ret (FieldType_Mut x =? FieldType_Mut y) &&&
  eqStorage (FieldType_Storage x) (FieldType_Storage y) xGroup yGroup.

Definition eqOptionalType (x y : OptionalTypeIdx) (xGroup yGroup : Z) : E bool :=
  let (xv, xpresent) := OptionalTypeIdx_Get x in
  let (yv, ypresent) := OptionalTypeIdx_Get y in
  if negb xpresent || negb ypresent then ret (Bool.eqb xpresent ypresent)
  else if negb (Bool.eqb (Rec xv) (Rec yv)) then ret false
  else eqIndex xv yv xGroup yGroup.

(** One round of the loop over the supertypes. *)
Definition eqSuper (xGroup yGroup : Z) (x y : TypeIdx) : E bool :=
  if negb (Bool.eqb (Rec x) (Rec y)) then ret false else eqIndex x y xGroup yGroup.

Definition eqComp (x y : CompType) (xGroup yGroup : Z) : E bool :=
  if CKind x =? CompFunc then
    ret ((length (Params x) =? length (Params y))%nat && (length (Results x) =? length (Results y))%nat) &&&
    forall2M (fun a b => eqVal a b xGroup yGroup) (Params x) (Params y) &&&
    forall2M (fun a b => eqVal a b xGroup yGroup) (Results x) (Results y)
  else if CKind x =? CompStruct then
    ret (length (Fields x) =? length (Fields y))%nat &&&
    forall2M (fun a b => eqField a b xGroup yGroup) (Fields x) (Fields y)
  else if CKind x =? CompArray then eqField (Array x) (Array y) xGroup yGroup
  else ret false.

(** What [eqType] checks of a pair once it has recorded it. *)
Definition eqBody (scanGroup : bool) (xBase yBase size : Z) (xs ys : SubType) (xGroup yGroup : Z) : E bool :=
  (if scanGroup
   then forallM (fun i => eqType (xBase + Z.of_nat i) (yBase + Z.of_nat i)) (seq 0 (Z.to_nat size))
   else ret true) &&&
  eqOptionalType (Describes (Metadata xs)) (Describes (Metadata ys)) xGroup yGroup &&&
  eqOptionalType (Descriptor (Metadata xs)) (Descriptor (Metadata ys)) xGroup yGroup &&&
  forall2M (eqSuper xGroup yGroup) (Supers xs) (Supers ys) &&&
  eqComp (Comp xs) (Comp ys) xGroup yGroup.
End Compare.

(** [groupLocation]: group, position in it, base. *)
Definition groupLocation (flat : Z) : option (Z * Z * Z) :=
  if (flat <? 0) || (Z.of_nat (length flatSubTypes) <=? flat) then None
  else
    match flatSubTypes !! Z.to_nat flat with
    | None => None
    | Some (_, group) =>
        if (length typeGroupBases <=? group + 1)%nat then None
        else (fun base => (Z.of_nat group, flat - base, base)) <$> typeGroupBases !! group
    end.

(** The checks before the pair is recorded: the bases and size of the groups and
    the two types with their groups. *)
Definition eqHeader (x y : Z) : option (Z * Z * Z) :=
  match groupLocation x, groupLocation y with
  | Some (xg, xLocal, xBase), Some (yg, yLocal, yBase) =>
      match groupSize xg, groupSize yg with
      | Some xn, Some yn =>
          if negb (xLocal =? yLocal) || negb (xn =? yn) then None else Some (xBase, yBase, xn)
      | _, _ => None
      end
  | _, _ => None
  end.

Definition eqTypes (x y : Z) : option (SubType * Z * SubType * Z) :=
  match subtypeByFlatTypeIdx x, subtypeByFlatTypeIdx y with
  | Some (xs, xGroup), Some (ys, yGroup) =>
      if negb (Bool.eqb (Final xs) (Final ys))
         || negb (length (Supers xs) =? length (Supers ys))%nat
         || negb (CKind (Comp xs) =? CKind (Comp ys)) then None
      else Some (xs, xGroup, ys, yGroup)
  | _, _ => None
  end.

Fixpoint eqType (fuel : nat) (x y : Z) : E bool :=
  if x =? y then ret true
  else
    match fuel with
    | O => panic
    | S fuel' =>
        match eqHeader x y with
        | None => ret false
        | Some (xBase, yBase, size) =>
            let! s := get in
            let st := state_of s (x, y) in
            if (st =? 1) || (st =? 2) then ret true
            else if st =? 3 then ret false
            else
              match eqTypes x y with
              | None => ret false
              | Some (xs, xGroup, ys, yGroup) =>
                  let scanGroup := (1 <? size) && (state_of s (xBase, yBase) =? 0) in
                  modify (introduce (x, y)) ;;;
                  let! ok := eqBody (eqType fuel') scanGroup xBase yBase size xs ys xGroup yGroup in
                  modify (setState (x, y) (if ok then 2 else 3)) ;;;
                  ret ok
              end
        end
    end.

(** Every nested call that does not return at once records a new pair of types. *)
Definition eqFuel : nat := S (length flatSubTypes * length flatSubTypes).

Definition typeIdxEquivalentWithState (a b : TypeIdx) (state : gmap (Z * Z) Z)
  : outcome unit bool * gmap (Z * Z) Z :=
  match flatTypeIdxInRecGroup a (-1), flatTypeIdxInRecGroup b (-1) with
  | Some aFlat, Some bFlat =>
      let (o, s) := eqType eqFuel aFlat bFlat {| pairs := state; introduced := [] |} in
      match o with
      | Ok false => (o, foldr delete (pairs s) (introduced s))
      | _ => (o, pairs s)
      end
  | _, _ => (Ok false, state)
  end.

Definition typeIdxEquivalent (a b : TypeIdx) : outcome unit bool :=
  fst (typeIdxEquivalentWithState a b ∅).

End Module.
End mv.
