(* ===== verification/TypeEquivLaws.v ===== *)
(** * Type equivalence decides bisimilarity

    The specification of [mv.typeIdxEquivalent] is coinductive: two types are
    equivalent when a relation that contains the pair is closed under comparing
    the parts of its pairs, whole recursive groups at a time.  The algorithm ends,
    finds such a relation when it answers yes (the pairs it recorded), and answers
    yes whenever one exists. *)

From stdpp Require Import base tactics numbers list gmap.
From Stdlib Require Import ZArith Lia.
From S2P Require Import Prelude Types Module TypeEquiv.
Local Open Scope Z_scope.

(** One kind, two values. *)
Ltac kind_clash :=
  exfalso; match goal with H : ?x = _, H' : ?x = _ |- _ => rewrite H in H'; discriminate H' end.

(** ** The relation between the parts of two types *)

Section Spec.
Context (m : Module_).
Implicit Types R : Z -> Z -> Prop.

Definition index_rel R (x y : TypeIdx) (gx gy : Z) : Prop :=
  exists xi yi, mv.flatTypeIdxInRecGroup m x gx = Some xi /\
    mv.flatTypeIdxInRecGroup m y gy = Some yi /\ R xi yi.

Definition heap_rel R (x y : HeapType) (gx gy : Z) : Prop :=
  HeapType_Kind x = HeapType_Kind y /\
  ((HeapType_Kind x = HeapAbs /\ HeapType_Abs x = HeapType_Abs y) \/
   (HeapType_Kind x = HeapTypeIndex /\ Rec (HeapType_Type x) = Rec (HeapType_Type y) /\
    index_rel R (HeapType_Type x) (HeapType_Type y) gx gy) \/
   (HeapType_Kind x = HeapDefType /\
    let '(xg, xi, _, xv) := HeapType_Def x in
    let '(yg, yi, _, yv) := HeapType_Def y in
    xv = yv /\ (xv = true -> xg = yg /\ xi = yi))).

Definition val_rel R (gx gy : Z) (x y : ValType) : Prop :=
  ValType_Kind x = ValType_Kind y /\ ValType_Num x = ValType_Num y /\
  (ValType_Kind x = ValRef ->
   RefType_Nullable (ValType_Ref x) = RefType_Nullable (ValType_Ref y) /\
   RefType_Exact (ValType_Ref x) = RefType_Exact (ValType_Ref y) /\
   heap_rel R (RefType_Heap (ValType_Ref x)) (RefType_Heap (ValType_Ref y)) gx gy).

Definition storage_rel R (gx gy : Z) (x y : StorageType) : Prop :=
  StorageType_Packed x = StorageType_Packed y /\ StorageType_Pack x = StorageType_Pack y /\
  (StorageType_Packed x = false -> val_rel R gx gy (StorageType_Val x) (StorageType_Val y)).

Definition field_rel R (gx gy : Z) (x y : FieldType) : Prop :=
  FieldType_Mut x = FieldType_Mut y /\
  storage_rel R gx gy (FieldType_Storage x) (FieldType_Storage y).

Definition super_rel R (gx gy : Z) (x y : TypeIdx) : Prop :=
  Rec x = Rec y /\ index_rel R x y gx gy.

Definition optional_rel R (gx gy : Z) (x y : OptionalTypeIdx) : Prop :=
  let (xv, xp) := OptionalTypeIdx_Get x in
  let (yv, yp) := OptionalTypeIdx_Get y in
  xp = yp /\ (xp = true -> super_rel R gx gy xv yv).

Definition comp_rel R (gx gy : Z) (x y : CompType) : Prop :=
  (CKind x = CompFunc /\ Forall2 (val_rel R gx gy) (Params x) (Params y) /\
     Forall2 (val_rel R gx gy) (Results x) (Results y)) \/
  (CKind x = CompStruct /\ Forall2 (field_rel R gx gy) (Fields x) (Fields y)) \/
  (CKind x = CompArray /\ field_rel R gx gy (Array x) (Array y)).

(** Two types related part by part, and the first member of their groups related
    with all the others. *)
Definition type_rel R (x y : Z) : Prop :=
  exists xBase yBase size xs gx ys gy,
    mv.eqHeader m x y = Some (xBase, yBase, size) /\
    mv.eqTypes m x y = Some (xs, gx, ys, gy) /\
    R xBase yBase /\
    (x = xBase -> forall i, 0 <= i < size -> R (xBase + i) (yBase + i)) /\
    optional_rel R gx gy (Describes (Metadata xs)) (Describes (Metadata ys)) /\
    optional_rel R gx gy (Descriptor (Metadata xs)) (Descriptor (Metadata ys)) /\
    Forall2 (super_rel R gx gy) (Supers xs) (Supers ys) /\
    comp_rel R gx gy (Comp xs) (Comp ys).

(** [R] with the diagonal. *)
Definition diag R (x y : Z) : Prop := x = y \/ R x y.

Definition bisimulation R : Prop := forall x y, R x y -> x = y \/ type_rel (diag R) x y.

Definition bisimilar (x y : Z) : Prop := exists R, bisimulation R /\ diag R x y.

(** ** Monotonicity *)

Definition monotone (Q : (Z -> Z -> Prop) -> Prop) : Prop :=
  forall R R', (forall x y, R x y -> R' x y) -> Q R -> Q R'.

Lemma mono_index x y gx gy : monotone (fun R => index_rel R x y gx gy).
Proof. intros R R' H (i & j & ? & ? & ?). exists i, j. auto. Qed.

Lemma mono_heap x y gx gy : monotone (fun R => heap_rel R x y gx gy).
Proof.
  intros R R' H [Hk Hr]. split; [done|]. destruct Hr as [|[(? & ? & Hi)|]]; [by left| |by right; right].
  right; left. split; [done|]. split; [done|]. by eapply mono_index.
Qed.

Lemma mono_val gx gy x y : monotone (fun R => val_rel R gx gy x y).
Proof.
  intros R R' H (Hk & Hn & Hr). split; [done|]. split; [done|]. intros Hv.
  destruct (Hr Hv) as (? & ? & ?). split; [done|]. split; [done|]. by eapply mono_heap.
Qed.

Lemma mono_field gx gy x y : monotone (fun R => field_rel R gx gy x y).
Proof.
  intros R R' H (Hm & Hp & Hq & Hv). split; [done|]. split; [done|]. split; [done|].
  intros E. eapply mono_val; [exact H|auto].
Qed.

Lemma mono_super gx gy x y : monotone (fun R => super_rel R gx gy x y).
Proof. intros R R' H [? ?]. split; [done|]. by eapply mono_index. Qed.

Lemma mono_optional gx gy x y : monotone (fun R => optional_rel R gx gy x y).
Proof.
  intros R R' H. unfold optional_rel. destruct (OptionalTypeIdx_Get x) as [xv xp], (OptionalTypeIdx_Get y) as [yv yp].
  intros [? Hs]. split; [done|]. intros E. eapply mono_super; [exact H|auto].
Qed.

Lemma mono_forall2 {A} (P : (Z -> Z -> Prop) -> A -> A -> Prop) l k :
  (forall a b, monotone (fun R => P R a b)) -> monotone (fun R => Forall2 (P R) l k).
Proof. intros HP R R' H Hl. eapply Forall2_impl; [exact Hl|]. intros a b. by apply HP. Qed.

Lemma mono_comp gx gy x y : monotone (fun R => comp_rel R gx gy x y).
Proof.
  intros R R' H [(? & H1 & H2)|[(? & H1)|(? & H1)]].
  - left. split; [done|]. split; eapply (mono_forall2 (fun R => val_rel R gx gy)); eauto using mono_val.
  - right; left. split; [done|]. eapply (mono_forall2 (fun R => field_rel R gx gy)); eauto using mono_field.
  - right; right. split; [done|]. by eapply mono_field.
Qed.

Lemma mono_type x y : monotone (fun R => type_rel R x y).
Proof.
  intros R R' H (xb & yb & n & xs & gx & ys & gy & H1 & H2 & H3 & H4 & H5 & H6 & H7 & H8).
  exists xb, yb, n, xs, gx, ys, gy. split; [done|]. split; [done|]. split; [auto|]. split; [auto|].
  split; [by eapply mono_optional|]. split; [by eapply mono_optional|].
  split; [eapply (mono_forall2 (fun R => super_rel R gx gy)); eauto using mono_super|].
  by eapply mono_comp.
Qed.

(** ** A logic of comparisons *)

(** No pair of the state has failed. *)
Definition clean (s : eqState) : Prop := forall p v, pairs s !! p = Some v -> v = 1 \/ v = 2.

(** The pairs the state holds equal. *)
Definition holds (s : eqState) (x y : Z) : Prop := is_Some (pairs s !! (x, y)).

(** Later states hold more, and what they hold in addition has been compared. *)
Record grows (s s' : eqState) : Prop := {
  gr_keep : forall x y, holds s x y -> holds s' x y;
  gr_new : forall x y, holds s' x y -> holds s x y \/ type_rel (diag (holds s')) x y
}.

Lemma grows_refl s : grows s s.
Proof. split; auto. Qed.

Lemma diag_mono R R' x y : (forall x y, R x y -> R' x y) -> diag R x y -> diag R' x y.
Proof. intros H [|]; [by left|right; auto]. Qed.

Lemma grows_trans s1 s2 s3 : grows s1 s2 -> grows s2 s3 -> grows s1 s3.
Proof.
  intros [K1 N1] [K2 N2]. split; [auto|]. intros x y [H|H]%N2; [|by right].
  apply N1 in H as [H|H]; [by left|right]. eapply mono_type; [|exact H].
  intros ? ?. by apply diag_mono.
Qed.

(** The pairs compared are pairs of types of the module. *)
Definition types_count : nat := length (mv.flatSubTypes m).

Definition in_range (s : eqState) : Prop :=
  forall x y v, pairs s !! (x, y) = Some v ->
    0 <= x < Z.of_nat types_count /\ 0 <= y < Z.of_nat types_count /\ (v = 1 \/ v = 2 \/ v = 3).

(** The recursion depth [k] is enough from state [s] on. *)
Definition room (k : nat) (s : eqState) : Prop :=
  (types_count * types_count < k + size (pairs s))%nat.

(** [s'] differs from [s] only in the pairs introduced since, which were new. *)
Definition tracked (s s' : eqState) : Prop :=
  exists l, introduced s' = introduced s ++ l /\
    (forall p, p ∈ l -> ~ (1 <= state_of s p <= 3)) /\
    (forall p, p ∉ l -> pairs s' !! p = pairs s !! p).

Lemma tracked_refl s : tracked s s.
Proof. exists []. rewrite app_nil_r. split; [done|]. split; [by intros p ?%not_elem_of_nil|done]. Qed.

Lemma tracked_trans s1 s2 s3 : tracked s1 s2 -> tracked s2 s3 -> tracked s1 s3.
Proof.
  intros (l1 & E1 & N1 & K1) (l2 & E2 & N2 & K2). exists (l1 ++ l2). split; [by rewrite E2, E1, app_assoc|].
  split.
  - intros p [H|H]%elem_of_app; [by apply N1|]. destruct (decide (p ∈ l1)) as [H1|H1]; [by apply N1|].
    specialize (N2 p H). unfold state_of in *. by rewrite (K1 p H1) in N2.
  - intros p [H1 H2]%not_elem_of_app. by rewrite K2, K1.
Qed.

(** [checks k c Q]: with depth [k], the comparison [c] returns; when it answers yes,
    [Q] holds of the recorded pairs; and where [Q] holds of a bisimulation it
    answers yes. *)
Record checks (k : nat) (c : E bool) (Q : (Z -> Z -> Prop) -> Prop) : Prop := {
  ck_mono : monotone Q;
  ck_sound : forall s s', clean s -> c s = (Ok true, s') ->
    clean s' /\ grows s s' /\ Q (diag (holds s'));
  ck_total : forall s, in_range s -> room k s ->
    exists b s', c s = (Ok b, s') /\ in_range s' /\ (size (pairs s) <= size (pairs s'))%nat;
  ck_complete : forall R s b s', bisimulation R -> clean s -> Q (diag R) -> c s = (Ok b, s') ->
    b = true /\ clean s';
  ck_tracks : forall s, tracked s (snd (c s))
}.

Lemma checks_ret k b : checks k (ret b) (fun _ => b = true).
Proof.
  split.
  - by intros R R' _.
  - intros s s' Hc [= -> <-]. split; [done|]. split; [apply grows_refl|done].
  - intros s Hs Hr. by exists b, s.
  - intros R s b' s' _ Hc -> [= <- <-]. done.
  - intros s. apply tracked_refl.
Qed.

Lemma checks_iff k c Q Q' : checks k c Q -> (forall R, Q R <-> Q' R) -> checks k c Q'.
Proof.
  intros [H1 H2 H3 H4 H5] H. split.
  - intros R R' HR HQ. apply H. eapply H1; [exact HR|]. by apply H.
  - intros s s' Hc E. destruct (H2 s s' Hc E) as (? & ? & ?). split; [done|]. split; [done|]. by apply H.
  - done.
  - intros R s b s' HR Hc HQ. apply H4 with (R := R); [done|done|]. by apply H.
  - done.
Qed.

Lemma room_grow k s s' : room k s -> (size (pairs s) <= size (pairs s'))%nat -> room k s'.
Proof. unfold room. lia. Qed.

Lemma checks_and k c1 c2 Q1 Q2 :
  checks k c1 Q1 -> checks k c2 Q2 -> checks k (c1 &&& c2) (fun R => Q1 R /\ Q2 R).
Proof.
  intros [M1 S1 T1 C1 K1] [M2 S2 T2 C2 K2]. split.
  - intros R R' HR [? ?]. split; eauto.
  - intros s s' Hc H. unfold andM in H. apply bind_ok in H as (b & s1 & H1 & H2). destruct b; [|done].
    destruct (S1 s s1 Hc H1) as (Hc1 & G1 & HQ1). destruct (S2 s1 s' Hc1 H2) as (Hc2 & G2 & HQ2).
    split; [done|]. split; [by eapply grows_trans|]. split; [|done]. eapply M1; [|exact HQ1].
    intros ? ?. apply diag_mono, G2.
  - intros s Hs Hr. destruct (T1 s Hs Hr) as (b & s1 & E1 & Hs1 & Hsz1). unfold andM.
    rewrite (bind_eq _ _ _ _ _ E1). destruct b; [|by exists false, s1].
    destruct (T2 s1 Hs1 ltac:(by eapply room_grow)) as (b2 & s2 & E2 & Hs2 & Hsz2).
    exists b2, s2. split; [done|]. split; [done|lia].
  - intros R s b s' HR Hc [HQ1 HQ2] H. unfold andM in H. apply bind_ok in H as (b1 & s1 & H1 & H2).
    destruct (C1 R s b1 s1 HR Hc HQ1 H1) as [-> Hc1]. by apply (C2 R s1 b s' HR Hc1 HQ2 H2).
  - intros s. unfold andM, bind. specialize (K1 s). destruct (c1 s) as [[[]|e|] s1]; simpl in *; try done.
    eapply tracked_trans; [exact K1|apply K2].
Qed.

Lemma checks_forallM {A} k (f : A -> E bool) (P : A -> (Z -> Z -> Prop) -> Prop) l :
  (forall a, checks k (f a) (P a)) -> checks k (forallM f l) (fun R => Forall (fun a => P a R) l).
Proof.
  intros Hf. induction l as [|a l IH]; simpl.
  - eapply checks_iff; [apply checks_ret|]. intros R. split; [constructor|done].
  - eapply checks_iff; [apply checks_and; [apply Hf|exact IH]|]. intros R. by rewrite Forall_cons.
Qed.

Lemma checks_forall2M {A} k (f : A -> A -> E bool) (P : (Z -> Z -> Prop) -> A -> A -> Prop) l l' :
  length l = length l' -> (forall a b, checks k (f a b) (fun R => P R a b)) ->
  checks k (forall2M f l l') (fun R => Forall2 (P R) l l').
Proof.
  intros Hl Hf. revert l' Hl. induction l as [|a l IH]; intros [|b l'] Hl; try done; simpl.
  - eapply checks_iff; [apply checks_ret|]. intros R. split; [constructor|done].
  - eapply checks_iff; [apply checks_and; [apply Hf|apply IH; by injection Hl]|].
    intros R. by rewrite Forall2_cons.
Qed.

(** A check that fails without looking. *)
Lemma checks_false k Q : (forall R, ~ Q R) -> checks k (ret false) Q.
Proof. intros H. eapply checks_iff; [apply checks_ret|]. intros R. split; [done|]. by intros ?%H. Qed.

Lemma checks_ext k c c' Q : (forall s, c s = c' s) -> checks k c' Q -> checks k c Q.
Proof.
  intros H [H1 H2 H3 H4 H5]. split; [done| | | |].
  - intros s s'. rewrite H. apply H2.
  - intros s. rewrite H. apply H3.
  - intros R s b s'. rewrite H. apply H4.
  - intros s. rewrite H. apply H5.
Qed.

Lemma checks_when k (b : bool) c Q Q' :
  (b = true -> checks k c Q) -> (forall R, Q' R <-> b = true /\ Q R) ->
  checks k (if b then c else ret false) Q'.
Proof.
  intros Hc HQ. destruct b.
  - eapply checks_iff; [by apply Hc|]. intros R. rewrite HQ. tauto.
  - apply checks_false. intros R HR%HQ. by destruct HR.
Qed.

(** ** The parts *)

Section Compare.
Context (k : nat) (eqT : Z -> Z -> E bool).
Hypothesis HT : forall x y, checks k (eqT x y) (fun R => R x y).

Lemma checks_index x y gx gy : checks k (mv.eqIndex m eqT x y gx gy) (fun R => index_rel R x y gx gy).
Proof.
  unfold mv.eqIndex, index_rel.
  destruct (mv.flatTypeIdxInRecGroup m x gx) as [xi|]; [|apply checks_false; by intros R (? & ? & ? & _)].
  destruct (mv.flatTypeIdxInRecGroup m y gy) as [yi|]; [|apply checks_false; by intros R (? & ? & _ & ? & _)].
  eapply checks_iff; [apply HT|]. intros R. split; [by exists xi, yi|]. by intros (? & ? & [= <-] & [= <-] & ?).
Qed.

Lemma checks_heap x y gx gy : checks k (mv.eqHeap m eqT x y gx gy) (fun R => heap_rel R x y gx gy).
Proof.
  unfold mv.eqHeap, heap_rel.
  destruct (Z.eqb_spec (HeapType_Kind x) (HeapType_Kind y)) as [Ek|]; cbn [negb];
    [|apply checks_false; by intros R [? _]].
  destruct (Z.eqb_spec (HeapType_Kind x) HeapAbs) as [Ea|Na].
  { eapply checks_iff; [apply checks_ret|]. intros R. cbv beta. rewrite Z.eqb_eq.
    split; [intros ?; split; [done|]; by left|]. intros [_ [[_ ?]|[[? _]|[? _]]]]; [done|kind_clash..]. }
  destruct (Z.eqb_spec (HeapType_Kind x) HeapTypeIndex) as [Ei|Ni].
  { destruct (Bool.eqb_spec (Rec (HeapType_Type x)) (Rec (HeapType_Type y))) as [Er|Nr]; cbn [negb];
      [|apply checks_false; intros R [_ [[? _]|[(_ & ? & _)|[? _]]]]; [kind_clash|done|kind_clash]].
    eapply checks_iff; [apply checks_index|]. intros R. split; [intros ?; split; [done|]; by right; left|].
    intros [_ [[? _]|[(_ & _ & ?)|[? _]]]]; [kind_clash|done|kind_clash]. }
  destruct (Z.eqb_spec (HeapType_Kind x) HeapDefType) as [Ed|Nd].
  { destruct (HeapType_Def x) as [[[xg xi] xk] xv], (HeapType_Def y) as [[[yg yi] yk] yv].
    eapply checks_iff; [apply checks_ret|]. intros R. cbv beta.
    rewrite !andb_true_iff, orb_true_iff, negb_true_iff, !andb_true_iff, !Z.eqb_eq, Bool.eqb_true_iff.
    split.
    - intros [-> H]. split; [done|]. right; right. split; [done|]. split; [done|].
      intros ->. destruct H; [done|done].
    - intros [_ [[? _]|[[? _]|(_ & -> & H)]]]; [kind_clash|kind_clash|]. split; [done|].
      destruct yv; [right; auto|by left]. }
  apply checks_false. intros R [_ [[? _]|[[? _]|[? _]]]]; done.
Qed.

Lemma checks_val gx gy x y : checks k (mv.eqVal m eqT x y gx gy) (fun R => val_rel R gx gy x y).
Proof.
  unfold mv.eqVal, val_rel.
  destruct (Z.eqb_spec (ValType_Kind x) (ValType_Kind y)) as [Ek|]; cbn [negb orb];
    [|apply checks_false; by intros R [? _]].
  destruct (Z.eqb_spec (ValType_Num x) (ValType_Num y)) as [En|]; cbn [negb];
    [|apply checks_false; by intros R (_ & ? & _)].
  destruct (Z.eqb_spec (ValType_Kind x) ValRef) as [Er|]; cbn [negb].
  - eapply checks_iff; [apply checks_and; [apply checks_and; apply checks_ret|apply checks_heap]|].
    intros R. cbv beta. rewrite !Bool.eqb_true_iff. tauto.
  - eapply checks_iff; [apply checks_ret|]. intros R. tauto.
Qed.

Lemma checks_field gx gy x y : checks k (mv.eqField m eqT x y gx gy) (fun R => field_rel R gx gy x y).
Proof.
  unfold mv.eqField, field_rel. eapply checks_iff.
  { apply checks_and; [apply checks_ret|]. instantiate (1 := fun R => storage_rel R gx gy
      (FieldType_Storage x) (FieldType_Storage y)).
    unfold mv.eqStorage, storage_rel. set (a := FieldType_Storage x). set (b := FieldType_Storage y).
    destruct (Bool.eqb_spec (StorageType_Packed a) (StorageType_Packed b)) as [Ep|]; cbn [negb orb];
      [|apply checks_false; by intros R [? _]].
    destruct (Z.eqb_spec (StorageType_Pack a) (StorageType_Pack b)) as [Eq|]; cbn [negb];
      [|apply checks_false; by intros R (_ & ? & _)].
    destruct (StorageType_Packed a).
    - eapply checks_iff; [apply checks_ret|]. intros R. split; [done|done].
    - eapply checks_iff; [apply checks_val|]. intros R. split; [done|]. intros (_ & _ & H); auto. }
  intros R. cbv beta. by rewrite Z.eqb_eq.
Qed.

Lemma checks_super gx gy x y : checks k (mv.eqSuper m eqT gx gy x y) (fun R => super_rel R gx gy x y).
Proof.
  unfold mv.eqSuper, super_rel. destruct (Bool.eqb_spec (Rec x) (Rec y)) as [Er|]; cbn [negb];
    [|apply checks_false; by intros R [? _]].
  eapply checks_iff; [apply checks_index|]. intros R. tauto.
Qed.

Lemma checks_optional gx gy x y :
  checks k (mv.eqOptionalType m eqT x y gx gy) (fun R => optional_rel R gx gy x y).
Proof.
  unfold mv.eqOptionalType, optional_rel.
  destruct (OptionalTypeIdx_Get x) as [xv xp], (OptionalTypeIdx_Get y) as [yv yp].
  destruct xp, yp; cbn [negb orb Bool.eqb];
    try (eapply checks_iff; [apply checks_ret|]; intros R; split; [done|by intros [? ?]]).
  eapply checks_iff; [apply (checks_super gx gy xv yv)|]. intros R. split; [done|]. intros [_ H]. auto.
Qed.

Lemma checks_comp gx gy x y : CKind x = CKind y ->
  checks k (mv.eqComp m eqT x y gx gy) (fun R => comp_rel R gx gy x y).
Proof.
  intros Ek. unfold mv.eqComp, comp_rel.
  destruct (Z.eqb_spec (CKind x) CompFunc) as [Ef|].
  { destruct (Nat.eqb_spec (length (Params x)) (length (Params y))) as [Hp|Np];
      [destruct (Nat.eqb_spec (length (Results x)) (length (Results y))) as [Hr|Nr]|]; cbn [andb].
    - eapply checks_iff; [apply checks_and; [apply checks_and; [apply checks_ret|]|];
        apply (checks_forall2M _ _ (fun R => val_rel R gx gy)); try done; apply checks_val|].
      intros R. cbv beta. split; [intros [[_ ?] ?]; by left|].
      intros [(_ & ? & ?)|[[? _]|[? _]]]; [done|kind_clash..].
    - eapply checks_ext; [done|]. apply checks_false.
      intros R [(_ & _ & H)|[[? _]|[? _]]]; [|kind_clash..]. by apply Forall2_length in H.
    - eapply checks_ext; [done|]. apply checks_false.
      intros R [(_ & H & _)|[[? _]|[? _]]]; [|kind_clash..]. by apply Forall2_length in H. }
  destruct (Z.eqb_spec (CKind x) CompStruct) as [Es|].
  { destruct (Nat.eqb_spec (length (Fields x)) (length (Fields y))) as [Hf|Nf].
    - eapply checks_iff; [apply checks_and; [apply checks_ret|];
        apply (checks_forall2M _ _ (fun R => field_rel R gx gy)); try done; apply checks_field|].
      intros R. cbv beta. split; [intros [_ ?]; by right; left|].
      intros [[? _]|[[_ ?]|[? _]]]; [kind_clash|done|kind_clash].
    - eapply checks_ext; [done|]. apply checks_false.
      intros R [[? _]|[[_ H]|[? _]]]; [kind_clash| |kind_clash]. by apply Forall2_length in H. }
  destruct (Z.eqb_spec (CKind x) CompArray) as [Ea|].
  - eapply checks_iff; [apply checks_field|]. intros R. split; [intros ?; by right; right|].
    intros [[? _]|[[? _]|[_ ?]]]; [kind_clash|kind_clash|done].
  - apply checks_false. intros R [[? _]|[[? _]|[? _]]]; done.
Qed.

(** The scan of the groups, when it is made. *)
Definition scan_rel (R : Z -> Z -> Prop) (scan : bool) (xBase yBase size : Z) : Prop :=
  scan = true -> forall i, 0 <= i < size -> R (xBase + i) (yBase + i).

Lemma checks_scan (scan : bool) xBase yBase size :
  checks k (if scan then forallM (fun i => eqT (xBase + Z.of_nat i) (yBase + Z.of_nat i))
                           (seq 0 (Z.to_nat size)) else ret true)
    (fun R => scan_rel R scan xBase yBase size).
Proof.
  unfold scan_rel. destruct scan; [|eapply checks_iff; [apply checks_ret|]; done].
  eapply checks_iff.
  { eapply (checks_forallM _ _ (fun i R => R (xBase + Z.of_nat i) (yBase + Z.of_nat i))).
    intros i. apply HT. }
  intros R. cbv beta. rewrite Forall_forall. split.
  - intros H _ i Hi. specialize (H (Z.to_nat i)). rewrite Z2Nat.id in H by lia. apply H.
    apply elem_of_seq. lia.
  - intros H i Hi%elem_of_seq. apply H; [done|lia].
Qed.

Lemma checks_body scan xBase yBase size xs gx ys gy :
  length (Supers xs) = length (Supers ys) -> CKind (Comp xs) = CKind (Comp ys) ->
  checks k (mv.eqBody m eqT scan xBase yBase size xs ys gx gy)
    (fun R => scan_rel R scan xBase yBase size /\
      optional_rel R gx gy (Describes (Metadata xs)) (Describes (Metadata ys)) /\
      optional_rel R gx gy (Descriptor (Metadata xs)) (Descriptor (Metadata ys)) /\
      Forall2 (super_rel R gx gy) (Supers xs) (Supers ys) /\
      comp_rel R gx gy (Comp xs) (Comp ys)).
Proof.
  intros Hl Hk. unfold mv.eqBody. eapply checks_iff.
  { apply checks_and; [|by apply checks_comp]. apply checks_and.
    - apply checks_and; [|apply checks_optional]. apply checks_and; [apply checks_scan|apply checks_optional].
    - apply (checks_forall2M _ _ (fun R => super_rel R gx gy)); [done|]. intros. apply checks_super. }
  intros R. cbv beta. tauto.
Qed.
End Compare.

(** ** Groups and their members *)

(** Position [i] of the flattened types lies in its group. *)
Lemma flat_group types base g0 i st g :
  type_flat g0 types !! i = Some (st, g) ->
  (g0 <= g)%nat /\ exists gr b, types !! (g - g0)%nat = Some gr /\ type_bases base types !! (g - g0)%nat = Some b /\
    b <= base + Z.of_nat i < b + Z.of_nat (length (SubTypes gr)).
Proof.
  revert base g0 i. induction types as [|gr rest IH]; intros base g0 i H; [done|]. simpl in H.
  apply lookup_app_Some in H as [H|[Hle H]].
  - rewrite list_lookup_fmap in H. destruct (SubTypes gr !! i) as [s|] eqn:Es; [|done].
    injection H as -> ->. pose proof (lookup_lt_Some _ _ _ Es). rewrite Nat.sub_diag. split; [done|].
    exists gr, base. simpl. split; [done|]. split; [done|lia].
  - rewrite length_map in H, Hle.
    destruct (IH (base + Z.of_nat (length (SubTypes gr))) (S g0) (i - length (SubTypes gr))%nat H)
      as (Hg & gr' & b & H1 & H2 & H3).
    split; [lia|]. replace (g - g0)%nat with (S (g - S g0)) by lia. exists gr', b. simpl.
    split; [done|]. split; [done|lia].
Qed.

(** Every member of a group is found from its base. *)
Lemma group_flat types base g0 g gr b j :
  types !! g = Some gr -> type_bases base types !! g = Some b -> (j < length (SubTypes gr))%nat ->
  base <= b /\ exists st, type_flat g0 types !! Z.to_nat (b - base + Z.of_nat j) = Some (st, (g0 + g)%nat).
Proof.
  revert base g0 g. induction types as [|gr0 rest IH]; intros base g0 g H1 H2 Hj; [done|].
  destruct g as [|g]; simpl in H1, H2.
  - injection H1 as ->. injection H2 as ->. split; [done|].
    destruct (lookup_lt_is_Some_2 (SubTypes gr) j Hj) as [st Hst]. exists st. simpl.
    rewrite lookup_app_l by (rewrite length_map; lia).
    replace (Z.to_nat (b - b + Z.of_nat j)) with j by lia.
    rewrite list_lookup_fmap, Hst. simpl. do 2 f_equal. lia.
  - destruct (IH _ (S g0) g H1 H2 Hj) as [Hb [st Hst]]. split; [lia|]. exists st. simpl.
    rewrite lookup_app_r by (rewrite length_map; lia). rewrite length_map.
    replace (Z.to_nat (b - base + Z.of_nat j) - length (SubTypes gr0))%nat
      with (Z.to_nat (b - (base + Z.of_nat (length (SubTypes gr0))) + Z.of_nat j)) by lia.
    rewrite Hst. do 2 f_equal. lia.
Qed.

Lemma type_bases_length base types : length (type_bases base types) = S (length types).
Proof. revert base. induction types; intros base; simpl; auto. Qed.

(** Where [groupLocation] finds a type. *)
Lemma groupLocation_Some x g l b :
  mv.groupLocation m x = Some (g, l, b) <->
  exists st gr, 0 <= x /\ mv.flatSubTypes m !! Z.to_nat x = Some (st, Z.to_nat g) /\ 0 <= g /\
    Types_ m !! Z.to_nat g = Some gr /\ mv.typeGroupBases m !! Z.to_nat g = Some b /\ l = x - b /\
    0 <= x - b < Z.of_nat (length (SubTypes gr)).
Proof.
  unfold mv.groupLocation. split.
  - destruct (_ || _) eqn:Eb; [done|]. bool_to_prop.
    destruct (mv.flatSubTypes m !! Z.to_nat x) as [[st g']|] eqn:Ef; [|done].
    destruct (_ <=? _)%nat; [done|].
    destruct (flat_group _ 0 _ _ _ _ Ef) as (_ & gr & b' & H1 & H2 & H3). rewrite Nat.sub_0_r in H1, H2.
    unfold mv.typeGroupBases, typeIndex_bases. rewrite H2. simpl. intros [= <- <- <-].
    exists st, gr. rewrite Nat2Z.id. repeat split; try done; lia.
  - intros (st & gr & Hx & Hf & Hg & H1 & H2 & -> & H3). pose proof (lookup_lt_Some _ _ _ Hf).
    replace (_ || _) with false by (symmetry; apply orb_false_iff; lia). rewrite Hf.
    unfold mv.typeGroupBases, typeIndex_bases in *. rewrite type_bases_length.
    pose proof (lookup_lt_Some _ _ _ H1). destruct (Nat.leb_spec (S (length (Types_ m))) (Z.to_nat g + 1)); [lia|].
    rewrite H2. simpl. by rewrite Z2Nat.id.
Qed.

(** The facts behind a header. *)
Lemma eqHeader_Some x y xb yb n :
  mv.eqHeader m x y = Some (xb, yb, n) ->
  0 <= x - xb < n /\ y - yb = x - xb /\
  0 <= x < Z.of_nat types_count /\ 0 <= y < Z.of_nat types_count /\
  forall i, 0 <= i < n -> mv.eqHeader m (xb + i) (yb + i) = Some (xb, yb, n).
Proof.
  unfold mv.eqHeader.
  destruct (mv.groupLocation m x) as [[[xg xl] xb']|] eqn:Ex; [|done].
  destruct (mv.groupLocation m y) as [[[yg yl] yb']|] eqn:Ey; [|done].
  apply groupLocation_Some in Ex as (sx & grx & Hx & Hfx & Hgx & Tx & Bx & -> & Rx).
  apply groupLocation_Some in Ey as (sy & gry & Hy & Hfy & Hgy & Ty & By & -> & Ry).
  unfold mv.groupSize. rewrite Tx, Ty. simpl. destruct (_ || _) eqn:E; [done|]. bool_to_prop.
  intros [= <- <- <-]. split; [lia|]. split; [lia|]. unfold types_count.
  apply lookup_lt_Some in Hfx, Hfy. split; [lia|]. split; [lia|]. intros i Hi.
  assert (Hloc : forall g b gr, 0 <= g -> Types_ m !! Z.to_nat g = Some gr ->
    mv.typeGroupBases m !! Z.to_nat g = Some b -> i < Z.of_nat (length (SubTypes gr)) ->
    mv.groupLocation m (b + i) = Some (g, i, b)).
  { intros g b gr Hg HT HB Hlt. apply groupLocation_Some.
    destruct (group_flat (Types_ m) 0 0 (Z.to_nat g) gr b (Z.to_nat i) HT HB ltac:(lia)) as [Hb [st Hst]].
    exists st, gr. simpl in Hst.
    replace (Z.to_nat (b - 0 + Z.of_nat (Z.to_nat i))) with (Z.to_nat (b + i)) in Hst by lia.
    repeat split; try done; lia. }
  rewrite (Hloc xg xb' grx), (Hloc yg yb' gry) by (done || lia).
  rewrite Tx, Ty. simpl. rewrite Z.eqb_refl. replace (_ =? _) with true by lia. done.
Qed.

(** ** The comparison *)

Lemma pairs_bound s : in_range s -> (size (pairs s) <= types_count * types_count)%nat.
Proof.
  intros Hs. rewrite <- length_map_to_list, <- (length_map fst).
  set (zs := map Z.of_nat (seq 0 types_count)).
  assert (Hlen : length (list_prod zs zs) = (types_count * types_count)%nat).
  { rewrite length_prod. unfold zs. by rewrite length_map, length_seq. }
  rewrite <- Hlen. apply submseteq_length, NoDup_submseteq; [apply NoDup_fst_map_to_list|].
  intros [x y] H. apply list_elem_of_fmap in H as ([[x' y'] v] & [= <- <-] & H).
  apply elem_of_map_to_list in H. destruct (Hs _ _ _ H) as (Hx & Hy & _).
  assert (Hin : forall z, 0 <= z < Z.of_nat types_count -> In z zs).
  { intros z Hz. apply in_map_iff. exists (Z.to_nat z). rewrite in_seq. lia. }
  apply list_elem_of_In, in_prod; by apply Hin.
Qed.

Lemma holds_insert p v s x y : holds (setState p v s) x y <-> p = (x, y) \/ holds s x y.
Proof.
  unfold holds, setState. simpl. destruct (decide (p = (x, y))) as [->|Hne].
  - rewrite lookup_insert_eq. split; [by left|done].
  - rewrite lookup_insert_ne by done. split; [by right|]. by intros [|].
Qed.

Lemma clean_insert p v s : v = 1 \/ v = 2 -> clean s -> clean (setState p v s).
Proof.
  intros Hv Hs q w. unfold setState. simpl. destruct (decide (p = q)) as [->|Hne].
  - rewrite lookup_insert_eq. by intros [= <-].
  - rewrite lookup_insert_ne by done. apply Hs.
Qed.

Lemma in_range_insert x y v s :
  v = 1 \/ v = 2 \/ v = 3 -> 0 <= x < Z.of_nat types_count -> 0 <= y < Z.of_nat types_count ->
  in_range s -> in_range (setState (x, y) v s).
Proof.
  intros Hv Hx Hy Hs a b w. unfold setState. simpl. destruct (decide ((x, y) = (a, b))) as [[= <- <-]|Hne].
  - rewrite lookup_insert_eq. by intros [= <-].
  - rewrite lookup_insert_ne by done. apply Hs.
Qed.

(** [introduced] is only bookkeeping. *)
Lemma introduce_same p s : pairs (introduce p s) = pairs (setState p 1 s).
Proof. done. Qed.

Lemma state_of_None s p : clean s -> state_of s p <> 1 -> state_of s p <> 2 -> pairs s !! p = None.
Proof.
  intros Hc H1 H2. unfold state_of in *. destruct (pairs s !! p) as [v|] eqn:E; [|done].
  destruct (Hc _ _ E) as [-> | ->]; done.
Qed.

Lemma eqTypes_Some x y xs gx ys gy :
  mv.eqTypes m x y = Some (xs, gx, ys, gy) ->
  length (Supers xs) = length (Supers ys) /\ CKind (Comp xs) = CKind (Comp ys).
Proof.
  unfold mv.eqTypes. destruct (mv.subtypeByFlatTypeIdx m x) as [[xs' gx']|]; [|done].
  destruct (mv.subtypeByFlatTypeIdx m y) as [[ys' gy']|]; [|done].
  destruct (_ || _) eqn:E; [done|]. intros [= <- <- <- <-].
  apply orb_false_iff in E as [E E3]. apply orb_false_iff in E as [_ E2].
  apply negb_false_iff in E2, E3. apply Nat.eqb_eq in E2. by apply Z.eqb_eq in E3.
Qed.

(** What a body that succeeded says about its pair. *)
Lemma body_type_rel s R x y xb yb n xs gx ys gy :
  clean s -> pairs s !! (x, y) = None ->
  (forall a b, holds (introduce (x, y) s) a b -> R a b) ->
  mv.eqHeader m x y = Some (xb, yb, n) -> mv.eqTypes m x y = Some (xs, gx, ys, gy) ->
  scan_rel R ((1 <? n) && (state_of s (xb, yb) =? 0)) xb yb n ->
  optional_rel R gx gy (Describes (Metadata xs)) (Describes (Metadata ys)) ->
  optional_rel R gx gy (Descriptor (Metadata xs)) (Descriptor (Metadata ys)) ->
  Forall2 (super_rel R gx gy) (Supers xs) (Supers ys) ->
  comp_rel R gx gy (Comp xs) (Comp ys) -> type_rel R x y.
Proof.
  intros Hc Hp HR Hh Ht Hscan H1 H2 H3 H4. destruct (eqHeader_Some _ _ _ _ _ Hh) as (Hx & Hy & _).
  assert (Hxy : R x y) by (apply HR; apply (holds_insert (x, y) 1 s); by left).
  assert (Hfirst : x = xb -> forall i, 0 <= i < n -> R (xb + i) (yb + i)).
  { intros -> i Hi. assert (y = yb) as -> by lia.
    destruct (Z.ltb_spec 1 n) as [Hn|Hn].
    - apply Hscan; [|done]. unfold state_of. rewrite Hp. done.
    - replace i with 0 by lia. by rewrite !Z.add_0_r. }
  exists xb, yb, n, xs, gx, ys, gy. split; [done|]. split; [done|]. split; [|done].
  destruct (Z.ltb_spec 1 n) as [Hn|Hn].
  - destruct (Z.eqb_spec (state_of s (xb, yb)) 0) as [E|E].
    + rewrite <- (Z.add_0_r xb), <- (Z.add_0_r yb). apply Hscan; [done|lia].
    + apply HR. apply (holds_insert (x, y) 1 s). right. unfold holds. unfold state_of in E.
      destruct (pairs s !! (xb, yb)); [done|]. by simpl in E.
  - replace xb with x by lia. by replace yb with y by lia.
Qed.

Lemma eqType_unfold k x y :
  mv.eqType m k x y =
  if x =? y then ret true
  else
    match k with
    | O => panic
    | S k' =>
        match mv.eqHeader m x y with
        | None => ret false
        | Some (xBase, yBase, size) =>
            let! s := get in
            let st := state_of s (x, y) in
            if (st =? 1) || (st =? 2) then ret true
            else if st =? 3 then ret false
            else
              match mv.eqTypes m x y with
              | None => ret false
              | Some (xs, xGroup, ys, yGroup) =>
                  let scanGroup := (1 <? size) && (state_of s (xBase, yBase) =? 0) in
                  modify (introduce (x, y)) ;;;
                  let! ok := mv.eqBody m (mv.eqType m k') scanGroup xBase yBase size xs ys xGroup yGroup in
                  modify (setState (x, y) (if ok then 2 else 3)) ;;;
                  ret ok
              end
        end
    end.
Proof. by destruct k. Qed.

Section Step.
Context (k : nat).
Hypothesis IH : forall x y, checks k (mv.eqType m k x y) (fun R => R x y).

Lemma eqType_sound x y s s' :
  clean s -> mv.eqType m (S k) x y s = (Ok true, s') ->
  clean s' /\ grows s s' /\ diag (holds s') x y.
Proof.
  intros Hc. rewrite eqType_unfold. destruct (Z.eqb_spec x y) as [->|Hne].
  { intros [= <-]. split; [done|]. split; [apply grows_refl|by left]. }
  destruct (mv.eqHeader m x y) as [[[xb yb] n]|] eqn:Hh; [|done].
  unfold bind at 1, get at 1. cbv zeta. destruct (_ || _) eqn:E12.
  { intros [= <-]. split; [done|]. split; [apply grows_refl|]. right. unfold holds, state_of in *.
    by destruct (pairs s !! (x, y)). }
  destruct (_ =? 3); [done|]. apply orb_false_iff in E12 as [E1%Z.eqb_neq E2%Z.eqb_neq].
  pose proof (state_of_None s (x, y) Hc E1 E2) as Hp.
  destruct (mv.eqTypes m x y) as [[[[xs gx] ys] gy]|] eqn:Ht; [|done].
  unfold bind at 1, modify at 1. intros H. apply bind_ok in H as (ok & s2 & Hb & H).
  injection H as -> <-. destruct (eqTypes_Some _ _ _ _ _ _ Ht) as [Hl Hk].
  assert (Hc1 : clean (introduce (x, y) s)) by (apply (clean_insert (x, y) 1 s); [by left|done]).
  destruct (ck_sound _ _ _ (checks_body k _ IH _ xb yb n xs gx ys gy Hl Hk) _ _ Hc1 Hb)
    as (Hc2 & [K N] & H1 & H2 & H3 & H4 & H5).
  assert (Hxy : holds s2 x y) by (apply K, (holds_insert (x, y) 1 s); by left).
  assert (Hsame : forall a b, holds (setState (x, y) 2 s2) a b <-> holds s2 a b).
  { intros a b. rewrite holds_insert. split; [|by right]. by intros [[= <- <-]|]. }
  assert (Hup : forall a b, diag (holds s2) a b -> diag (holds (setState (x, y) 2 s2)) a b).
  { intros a b. apply diag_mono. intros. by apply Hsame. }
  assert (Hrel : type_rel (diag (holds s2)) x y).
  { apply (body_type_rel s (diag (holds s2)) x y xb yb n xs gx ys gy); try done.
    intros a b Ha. right. by apply K. }
  split; [apply clean_insert; [by right|done]|]. split; [|right; by apply Hsame].
  split.
  - intros a b Ha. apply Hsame, K, (holds_insert (x, y) 1 s). by right.
  - intros a b Ha%Hsame. apply N in Ha as [Ha|Ha].
    + apply (holds_insert (x, y) 1 s) in Ha as [[= <- <-]|Ha]; [right|by left].
      by eapply mono_type; [exact Hup|].
    + right. by eapply mono_type; [exact Hup|].
Qed.

Lemma eqType_total x y s :
  in_range s -> room (S k) s ->
  exists b s', mv.eqType m (S k) x y s = (Ok b, s') /\ in_range s' /\ (size (pairs s) <= size (pairs s'))%nat.
Proof.
  intros Hs Hr. rewrite eqType_unfold. destruct (x =? y); [by exists true, s|].
  destruct (mv.eqHeader m x y) as [[[xb yb] n]|] eqn:Hh; [|by exists false, s].
  destruct (eqHeader_Some _ _ _ _ _ Hh) as (_ & _ & Hx & Hy & _).
  unfold bind at 1, get at 1. cbv zeta. destruct (_ || _) eqn:E12; [by exists true, s|].
  destruct (_ =? 3) eqn:E3; [by exists false, s|].
  destruct (mv.eqTypes m x y) as [[[[xs gx] ys] gy]|] eqn:Ht; [|by exists false, s].
  destruct (eqTypes_Some _ _ _ _ _ _ Ht) as [Hl Hk].
  assert (Hp : pairs s !! (x, y) = None).
  { unfold state_of in *. destruct (pairs s !! (x, y)) as [v|] eqn:E; [|done]. simpl in *.
    destruct (Hs _ _ _ E) as (_ & _ & [-> |[-> | ->]]); done. }
  unfold bind at 1, modify at 1. set (s1 := introduce (x, y) s).
  assert (Hs1 : in_range s1) by (apply (in_range_insert x y 1 s); auto).
  assert (Hsz : size (pairs s1) = S (size (pairs s))) by (by apply map_size_insert_None).
  destruct (ck_total _ _ _ (checks_body k _ IH ((1 <? n) && (state_of s (xb, yb) =? 0)) xb yb n xs gx ys gy Hl Hk)
    s1 Hs1) as (b & s2 & Hb & Hs2 & Hsz2); [unfold room in *; lia|].
  exists b, (setState (x, y) (if b then 2 else 3) s2). rewrite (bind_eq _ _ _ _ _ Hb). split; [done|].
  split; [apply in_range_insert; [destruct b; auto|done..]|].
  simpl.
  destruct (pairs s2 !! (x, y)) eqn:Ep.
  - rewrite map_size_insert_Some by done. lia.
  - rewrite map_size_insert_None by done. lia.
Qed.

Lemma eqType_complete R x y s b s' :
  bisimulation R -> clean s -> diag R x y -> mv.eqType m (S k) x y s = (Ok b, s') -> b = true /\ clean s'.
Proof.
  intros HR Hc Hxy. rewrite eqType_unfold. destruct (Z.eqb_spec x y) as [->|Hne]; [by intros [= <- <-]|].
  destruct Hxy as [|Hxy]; [done|]. destruct (HR x y Hxy) as [|Hrel]; [done|].
  destruct Hrel as (xb & yb & n & xs & gx & ys & gy & Hh & Ht & Hfirst & Hall & H1 & H2 & H3 & H4).
  rewrite Hh, Ht. unfold bind at 1, get at 1. cbv zeta. destruct (_ || _) eqn:E12; [by intros [= <- <-]|].
  apply orb_false_iff in E12 as [E1%Z.eqb_neq E2%Z.eqb_neq].
  pose proof (state_of_None s (x, y) Hc E1 E2) as Hp.
  replace (state_of s (x, y) =? 3) with false by (unfold state_of; by rewrite Hp).
  destruct (eqTypes_Some _ _ _ _ _ _ Ht) as [Hl Hk].
  unfold bind at 1, modify at 1. intros H. apply bind_ok in H as (ok & s2 & Hb & H). injection H as <- <-.
  assert (Hc1 : clean (introduce (x, y) s)) by (apply (clean_insert (x, y) 1 s); [by left|done]).
  destruct (eqHeader_Some _ _ _ _ _ Hh) as (Hx & _ & _ & _ & Hmem).
  assert (Hgroup : forall i, 0 <= i < n -> diag R (xb + i) (yb + i)).
  { intros i Hi. destruct Hfirst as [->|Hf]; [by left|]. destruct (HR _ _ Hf) as [->|Hrel]; [by left|].
    destruct Hrel as (xb' & yb' & n' & ? & ? & ? & ? & Hh' & _ & _ & Hall' & _).
    specialize (Hmem 0 ltac:(lia)). rewrite !Z.add_0_r, Hh' in Hmem. injection Hmem as -> -> ->.
    by apply Hall'. }
  destruct (ck_complete _ _ _ (checks_body k _ IH _ xb yb n xs gx ys gy Hl Hk) R _ _ _ HR Hc1
    (conj (fun _ => Hgroup) (conj H1 (conj H2 (conj H3 H4)))) Hb) as [-> Hc2].
  split; [done|]. apply clean_insert; [by right|done].
Qed.

Lemma eqType_tracks x y s : tracked s (snd (mv.eqType m (S k) x y s)).
Proof.
  rewrite eqType_unfold. destruct (x =? y); [apply tracked_refl|].
  destruct (mv.eqHeader m x y) as [[[xb yb] n]|]; [|apply tracked_refl].
  unfold bind at 1, get at 1. cbv zeta. destruct (_ || _) eqn:E12; [apply tracked_refl|].
  destruct (_ =? 3) eqn:E3; [apply tracked_refl|].
  destruct (mv.eqTypes m x y) as [[[[xs gx] ys] gy]|] eqn:Ht; [|apply tracked_refl].
  destruct (eqTypes_Some _ _ _ _ _ _ Ht) as [Hl Hk].
  unfold bind at 1, modify at 1. set (s1 := introduce (x, y) s). unfold bind.
  pose proof (ck_tracks _ _ _ (checks_body k _ IH ((1 <? n) && (state_of s (xb, yb) =? 0)) xb yb n xs gx ys gy
    Hl Hk) s1) as (l & El & Nl & Kl).
  assert (Hnew : ~ (1 <= state_of s (x, y) <= 3)).
  { apply orb_false_iff in E12 as [E1%Z.eqb_neq E2%Z.eqb_neq]. apply Z.eqb_neq in E3. lia. }
  assert (Hbody : forall v s2, introduced s2 = introduced s1 ++ l ->
    (forall p, p ∉ l -> pairs s2 !! p = pairs s1 !! p) -> tracked s (setState (x, y) v s2) /\ tracked s s2).
  { intros v s2 E2 K2.
    assert (Hl2 : forall p, p ∈ (x, y) :: l -> ~ (1 <= state_of s p <= 3)).
    { intros p [->|Hp]%elem_of_cons; [done|]. destruct (decide (p = (x, y))) as [->|Hne]; [done|].
      specialize (Nl p Hp). unfold state_of in *. simpl in Nl. by rewrite lookup_insert_ne in Nl. }
    split; exists ((x, y) :: l); (split; [simpl; rewrite E2; simpl; by rewrite <- app_assoc|]);
      (split; [exact Hl2|]); intros p [Hne Hp]%not_elem_of_cons; simpl;
      rewrite ?(lookup_insert_ne _ _ _ _ (not_eq_sym Hne)), (K2 p Hp); simpl; by rewrite lookup_insert_ne. }
  destruct (mv.eqBody _ _ _ _ _ _ _ _ _ _ s1) as [[b|e|] s2]; simpl in *.
  - apply (proj1 (Hbody _ s2 El Kl)).
  - apply (proj2 (Hbody 0 s2 El Kl)).
  - apply (proj2 (Hbody 0 s2 El Kl)).
Qed.
End Step.

Lemma checks_eqType k x y : checks k (mv.eqType m k x y) (fun R => R x y).
Proof.
  revert x y. induction k as [|k IH]; intros x y; split.
  - intros R R' H. apply H.
  - intros s s' Hc. rewrite eqType_unfold. destruct (Z.eqb_spec x y) as [->|]; [|done]. intros [= <-].
    split; [done|]. split; [apply grows_refl|by left].
  - intros s Hs Hr. pose proof (pairs_bound s Hs). unfold room in Hr. lia.
  - intros R s b s' _ Hc _. rewrite eqType_unfold. destruct (x =? y); [|done]. by intros [= <- <-].
  - intros s. rewrite eqType_unfold. destruct (x =? y); apply tracked_refl.
  - intros R R' H. apply H.
  - intros s s'. by apply eqType_sound.
  - intros s. by apply eqType_total.
  - intros R s b s'. by apply eqType_complete.
  - intros s. by apply eqType_tracks.
Qed.

End Spec.
