(* ===== verification/TypeEquivSpec.v ===== *)
(** * Type equivalence, as its callers see it

    Bisimilarity of types is an equivalence relation; [mv.typeIdxEquivalent] ends
    on every module and decides it; and the state shared by a batch of questions
    ([mv.typeIdxEquivalentWithState]) never changes an answer. *)

From stdpp Require Import base tactics numbers list gmap.
From Stdlib Require Import ZArith Lia.
From S2P Require Import Prelude Types Module TypeEquiv TypeEquivLaws.
Local Open Scope Z_scope.

Section Bisimilarity.
Context (m : Module_).
Implicit Types R : Z -> Z -> Prop.

(** ** Bisimilarity is an equivalence *)

Definition flipped R (x y : Z) : Prop := R y x.
Definition composed R S (x z : Z) : Prop := exists y, R x y /\ S y z.

Lemma sym_super R gx gy x y : super_rel m R gx gy x y -> super_rel m (flipped R) gy gx y x.
Proof. intros [? (i & j & ? & ? & ?)]. split; [done|]. by exists j, i. Qed.

Lemma trans_super R S gx gy gz x y z :
  super_rel m R gx gy x y -> super_rel m S gy gz y z -> super_rel m (composed R S) gx gz x z.
Proof.
  intros [E1 (i & j & H1 & H2 & H3)] [E2 (j' & k & H4 & H5 & H6)]. split; [congruence|].
  rewrite H2 in H4. injection H4 as <-. exists i, k. split; [done|]. split; [done|]. by exists j.
Qed.

Lemma sym_heap R gx gy x y : heap_rel m R x y gx gy -> heap_rel m (flipped R) y x gy gx.
Proof.
  intros [Ek H]. split; [done|]. rewrite <- Ek. destruct H as [[? ?]|[(? & H)|(? & H)]]; [by left| |].
  - right; left. split; [done|]. by apply (sym_super R).
  - right; right. split; [done|].
    destruct (HeapType_Def x) as [[[xg xi] xk] xv], (HeapType_Def y) as [[[yg yi] yk] yv].
    destruct H as [-> H]. split; [done|]. intros E. by destruct (H E).
Qed.

Lemma trans_heap R S gx gy gz x y z :
  heap_rel m R x y gx gy -> heap_rel m S y z gy gz -> heap_rel m (composed R S) x z gx gz.
Proof.
  intros [E1 H1] [E2 H2]. split; [congruence|]. rewrite <- E1 in H2.
  destruct H1 as [[K1 H1]|[(K1 & H1)|(K1 & H1)]], H2 as [[K2 H2]|[(K2 & H2)|(K2 & H2)]]; try kind_clash.
  - left. split; congruence.
  - right; left. split; [done|]. by apply (trans_super R S gx gy gz _ (HeapType_Type y)).
  - right; right. split; [done|].
    destruct (HeapType_Def x) as [[[? ?] ?] xv], (HeapType_Def y) as [[[? ?] ?] yv],
      (HeapType_Def z) as [[[? ?] ?] zv].
    destruct H1 as [-> H1], H2 as [-> H2]. split; [done|]. intros E. destruct (H1 E), (H2 E). split; congruence.
Qed.

Lemma sym_val R gx gy x y : val_rel m R gx gy x y -> val_rel m (flipped R) gy gx y x.
Proof.
  intros (E1 & E2 & H). split; [done|]. split; [done|]. rewrite <- E1. intros K.
  destruct (H K) as (? & ? & ?). split; [done|]. split; [done|]. by apply sym_heap.
Qed.

Lemma trans_val R S gx gy gz x y z :
  val_rel m R gx gy x y -> val_rel m S gy gz y z -> val_rel m (composed R S) gx gz x z.
Proof.
  intros (E1 & E2 & H) (E3 & E4 & H'). split; [congruence|]. split; [congruence|]. intros K.
  destruct (H K) as (? & ? & ?). destruct H' as (? & ? & ?); [congruence|].
  split; [congruence|]. split; [congruence|]. by eapply trans_heap.
Qed.

Lemma sym_field R gx gy x y : field_rel m R gx gy x y -> field_rel m (flipped R) gy gx y x.
Proof.
  intros (E1 & E2 & E3 & H). split; [done|]. split; [done|]. split; [done|]. rewrite <- E2.
  intros K. by apply sym_val, H.
Qed.

Lemma trans_field R S gx gy gz x y z :
  field_rel m R gx gy x y -> field_rel m S gy gz y z -> field_rel m (composed R S) gx gz x z.
Proof.
  intros (E1 & E2 & E3 & H) (E4 & E5 & E6 & H'). split; [congruence|]. split; [congruence|].
  split; [congruence|]. intros K. eapply trans_val; [by apply H|]. apply H'. congruence.
Qed.

Lemma sym_optional R gx gy x y : optional_rel m R gx gy x y -> optional_rel m (flipped R) gy gx y x.
Proof.
  unfold optional_rel. destruct (OptionalTypeIdx_Get x), (OptionalTypeIdx_Get y).
  intros [-> H]. split; [done|]. intros K. by apply sym_super, H.
Qed.

Lemma trans_optional R S gx gy gz x y z :
  optional_rel m R gx gy x y -> optional_rel m S gy gz y z -> optional_rel m (composed R S) gx gz x z.
Proof.
  unfold optional_rel. destruct (OptionalTypeIdx_Get x), (OptionalTypeIdx_Get y), (OptionalTypeIdx_Get z).
  intros [-> H] [-> H']. split; [done|]. intros K. eapply trans_super; [by apply H|by apply H'].
Qed.

Lemma Forall2_swap {A} (P Q : A -> A -> Prop) l k :
  (forall a b, P a b -> Q b a) -> Forall2 P l k -> Forall2 Q k l.
Proof. intros H. induction 1; constructor; auto. Qed.

Lemma sym_comp R gx gy x y : CKind x = CKind y -> comp_rel m R gx gy x y -> comp_rel m (flipped R) gy gx y x.
Proof.
  intros E H. unfold comp_rel. rewrite <- E. destruct H as [(K & H1 & H2)|[(K & H1)|(K & H1)]].
  - left. split; [done|]. split; eapply Forall2_swap; eauto using sym_val.
  - right; left. split; [done|]. eapply Forall2_swap; eauto using sym_field.
  - right; right. split; [done|]. by apply sym_field.
Qed.

Lemma trans_comp R S gx gy gz x y z : CKind x = CKind y ->
  comp_rel m R gx gy x y -> comp_rel m S gy gz y z -> comp_rel m (composed R S) gx gz x z.
Proof.
  intros E H H'. unfold comp_rel in H' |- *. rewrite <- E in H'.
  destruct H as [(K & H1 & H2)|[(K & H1)|(K & H1)]], H' as [(K' & H1' & H2')|[(K' & H1')|(K' & H1')]];
    try kind_clash.
  - left. split; [done|]. split; eapply Forall2_trans; eauto using trans_val.
  - right; left. split; [done|]. eapply Forall2_trans; eauto using trans_field.
  - right; right. split; [done|]. by eapply trans_field.
Qed.

Lemma eqHeader_sym x y xb yb n : mv.eqHeader m x y = Some (xb, yb, n) -> mv.eqHeader m y x = Some (yb, xb, n).
Proof.
  unfold mv.eqHeader. destruct (mv.groupLocation m x) as [[[xg xl] xb']|]; [|done].
  destruct (mv.groupLocation m y) as [[[yg yl] yb']|]; [|done].
  destruct (mv.groupSize m xg) as [xn|]; [|done]. destruct (mv.groupSize m yg) as [yn|]; [|done].
  rewrite (Z.eqb_sym yl), (Z.eqb_sym yn). destruct (Z.eqb_spec xl yl); [|done].
  destruct (Z.eqb_spec xn yn); [|done]. simpl. intros [= <- <- <-]. by subst.
Qed.

Lemma eqHeader_trans x y z xb yb yb' zb n n' :
  mv.eqHeader m x y = Some (xb, yb, n) -> mv.eqHeader m y z = Some (yb', zb, n') ->
  yb' = yb /\ n' = n /\ mv.eqHeader m x z = Some (xb, zb, n).
Proof.
  unfold mv.eqHeader. destruct (mv.groupLocation m x) as [[[xg xl] xb0]|]; [|done].
  destruct (mv.groupLocation m y) as [[[yg yl] yb0]|]; [|done].
  destruct (mv.groupSize m xg) as [xn|]; [|done]. destruct (mv.groupSize m yg) as [yn|]; [|done].
  destruct (mv.groupLocation m z) as [[[zg zl] zb0]|]; [|by destruct (_ || _)].
  destruct (mv.groupSize m zg) as [zn|]; [|by destruct (_ || _)].
  destruct (Z.eqb_spec xl yl) as [->|]; [|done]. destruct (Z.eqb_spec xn yn) as [->|]; [|done].
  destruct (Z.eqb_spec yl zl) as [->|]; [|done]. destruct (Z.eqb_spec yn zn) as [->|]; [|done].
  simpl. by intros [= <- <- <-] [= <- <- <-].
Qed.

Lemma eqTypes_spec x y xs gx ys gy :
  mv.eqTypes m x y = Some (xs, gx, ys, gy) <->
  mv.subtypeByFlatTypeIdx m x = Some (xs, gx) /\ mv.subtypeByFlatTypeIdx m y = Some (ys, gy) /\
  Final xs = Final ys /\ length (Supers xs) = length (Supers ys) /\ CKind (Comp xs) = CKind (Comp ys).
Proof.
  unfold mv.eqTypes. destruct (mv.subtypeByFlatTypeIdx m x) as [[xs' gx']|];
    [|split; [done|by intros [? _]]].
  destruct (mv.subtypeByFlatTypeIdx m y) as [[ys' gy']|]; [|split; [done|by intros (_ & ? & _)]].
  destruct (Bool.eqb_spec (Final xs') (Final ys')), (Nat.eqb_spec (length (Supers xs')) (length (Supers ys'))),
    (Z.eqb_spec (CKind (Comp xs')) (CKind (Comp ys'))); simpl;
    (split; [try done; by intros [= <- <- <- <-]|by intros ([= <- <-] & [= <- <-] & ? & ? & ?)]).
Qed.

Lemma sym_type R x y : type_rel m R x y -> type_rel m (flipped R) y x.
Proof.
  intros (xb & yb & n & xs & gx & ys & gy & Hh & Ht & H3 & H4 & H5 & H6 & H7 & H8).
  pose proof (eqHeader_Some _ _ _ _ _ _ Hh) as (_ & Hoff & _).
  apply eqTypes_spec in Ht as (T1 & T2 & T3 & T4 & T5).
  exists yb, xb, n, ys, gy, xs, gx. split; [by apply eqHeader_sym|].
  split; [by apply eqTypes_spec|]. split; [done|].
  split; [intros -> i Hi; apply H4; [lia|done]|].
  split; [by apply sym_optional|]. split; [by apply sym_optional|].
  split; [eapply Forall2_swap; [|exact H7]; intros a b; apply sym_super|]. by apply sym_comp.
Qed.

Lemma trans_type R S x y z : type_rel m R x y -> type_rel m S y z -> type_rel m (composed R S) x z.
Proof.
  intros (xb & yb & n & xs & gx & ys & gy & Hh & Ht & H3 & H4 & H5 & H6 & H7 & H8)
    (yb' & zb & n' & ys' & gy' & zs & gz & Hh' & Ht' & H3' & H4' & H5' & H6' & H7' & H8').
  destruct (eqHeader_trans _ _ _ _ _ _ _ _ _ Hh Hh') as (-> & -> & Hxz).
  pose proof (eqHeader_Some _ _ _ _ _ _ Hh) as (_ & Hoff & _).
  apply eqTypes_spec in Ht as (T1 & T2 & T3 & T4 & T5).
  apply eqTypes_spec in Ht' as (T1' & T2' & T3' & T4' & T5').
  rewrite T2 in T1'. injection T1' as <- <-.
  exists xb, zb, n, xs, gx, zs, gz. split; [done|].
  split; [apply eqTypes_spec; split_and!; congruence|]. split; [by exists yb|].
  split; [intros Ex i Hi; exists (yb + i); split; [by apply H4|apply H4'; [lia|done]]|].
  split; [by eapply trans_optional|]. split; [by eapply trans_optional|].
  split; [eapply Forall2_trans; [|exact H7|exact H7']; intros a b c; apply trans_super|].
  by eapply trans_comp.
Qed.

(** Bisimilarity unfolds, and contains every relation that unfolds into it. *)
Lemma bisimilar_unfold x y : bisimilar m x y -> x = y \/ type_rel m (bisimilar m) x y.
Proof.
  intros (R & HR & [->|H]); [by left|]. destruct (HR x y H) as [->|Ht]; [by left|right].
  eapply mono_type; [|exact Ht]. intros a b Hab. by exists R.
Qed.

Lemma bisimilar_coind R x y :
  (forall a b, R a b -> a = b \/ type_rel m R a b) -> R x y -> bisimilar m x y.
Proof.
  intros HR H. exists R. split; [|by right]. intros a b [->|Ht]%HR; [by left|right].
  eapply mono_type; [|exact Ht]. intros c d ?. by right.
Qed.

#[export] Instance bisimilar_refl : Reflexive (bisimilar m).
Proof. intros x. exists (fun _ _ => False). split; [by intros ? ?|by left]. Qed.

#[export] Instance bisimilar_sym : Symmetric (bisimilar m).
Proof.
  intros x y H. apply (bisimilar_coind (flipped (bisimilar m))); [|done].
  intros a b [->|Ht]%bisimilar_unfold; [by left|right]. by apply sym_type.
Qed.

#[export] Instance bisimilar_trans : Transitive (bisimilar m).
Proof.
  intros x y z H1 H2. apply (bisimilar_coind (composed (bisimilar m) (bisimilar m))); [|by exists y].
  intros a c (b & [->|Hab]%bisimilar_unfold & [->|Hbc]%bisimilar_unfold).
  - by left.
  - right. eapply mono_type; [|exact Hbc]. intros p q ?. by exists p.
  - right. eapply mono_type; [|exact Hab]. intros p q ?. by exists q.
  - right. by eapply trans_type.
Qed.

#[export] Instance bisimilar_equiv : Equivalence (bisimilar m).
Proof. split; apply _. Qed.

(** The specification of the comparison: both indices are in scope and name
    bisimilar types. *)
Definition equivalent (a b : TypeIdx) : Prop :=
  exists x y, mv.flatTypeIdxInRecGroup m a (-1) = Some x /\
    mv.flatTypeIdxInRecGroup m b (-1) = Some y /\ bisimilar m x y.

(** ** The shared state *)

Definition recorded (st : gmap (Z * Z) Z) (x y : Z) : Prop := is_Some (st !! (x, y)).

(** What a batch keeps of its state: pairs of types of the module, none failed,
    each justified by the others. *)
Record closed (st : gmap (Z * Z) Z) : Prop := {
  cl_range : forall x y v, st !! (x, y) = Some v ->
    0 <= x < Z.of_nat (types_count m) /\ 0 <= y < Z.of_nat (types_count m) /\ (v = 1 \/ v = 2);
  cl_pairs : bisimulation m (recorded st)
}.

Lemma closed_empty : closed ∅.
Proof.
  split; [by intros x y v ?%lookup_empty_Some|]. intros x y [v H]. by apply lookup_empty_Some in H.
Qed.

Definition fresh (st : gmap (Z * Z) Z) : eqState := {| pairs := st; introduced := [] |}.

Lemma closed_clean st : closed st -> clean (fresh st).
Proof. intros [H _] [x y] v Hv. by destruct (H x y v Hv) as (_ & _ & ?). Qed.

Lemma closed_in_range st : closed st -> in_range m (fresh st).
Proof. intros [H _] x y v Hv. destruct (H x y v Hv) as (? & ? & ?). tauto. Qed.

(** A successful comparison keeps the state closed. *)
Lemma closed_grow st s' :
  closed st -> in_range m s' -> clean s' -> grows m (fresh st) s' -> closed (pairs s').
Proof.
  intros [_ Hb] Hr Hc [K N]. split.
  - intros x y v Hv. destruct (Hr x y v Hv) as (? & ? & _). split; [done|]. split; [done|]. by eapply Hc.
  - intros x y [H|H]%N; [|by right]. destruct (Hb x y H) as [?|Ht]; [by left|right].
    eapply mono_type; [|exact Ht]. intros a b. by apply diag_mono.
Qed.

Lemma lookup_foldr_delete (st : gmap (Z * Z) Z) l p :
  foldr delete st l !! p = if decide (p ∈ l) then None else st !! p.
Proof.
  induction l as [|q l IH]; cbn [foldr]; [by rewrite decide_False by apply not_elem_of_nil|].
  destruct (decide (q = p)) as [->|Hne].
  - rewrite lookup_delete_eq, decide_True by constructor. done.
  - rewrite lookup_delete_ne, IH by done. apply decide_ext. rewrite elem_of_cons. split; [by right|]. by intros [->|].
Qed.

(** A failed comparison leaves the state as it found it. *)
Lemma rollback st s' :
  closed st -> tracked (fresh st) s' -> foldr delete (pairs s') (introduced s') = st.
Proof.
  intros [Hr _] (l & -> & N & K). simpl. apply map_eq. intros p. rewrite lookup_foldr_delete.
  destruct (decide (p ∈ l)) as [H|H]; [|by apply K]. specialize (N p H).
  destruct (st !! p) as [v|] eqn:Ep; [|done]. destruct p as [x y]. destruct (Hr x y v Ep) as (_ & _ & Hv).
  unfold state_of in N. simpl in N. rewrite Ep in N. simpl in N. lia.
Qed.

Lemma withState_correct a b st :
  closed st ->
  exists r st', mv.typeIdxEquivalentWithState m a b st = (Ok r, st') /\
    (r = true <-> equivalent a b) /\ closed st' /\ (r = false -> st' = st).
Proof.
  intros Hc. unfold mv.typeIdxEquivalentWithState, equivalent.
  destruct (mv.flatTypeIdxInRecGroup m a (-1)) as [x|];
    [|exists false, st; split_and!; [done|by split; [|intros (? & ? & ? & _)]|done|done]].
  destruct (mv.flatTypeIdxInRecGroup m b (-1)) as [y|];
    [|exists false, st; split_and!; [done|by split; [|intros (? & ? & _ & ? & _)]|done|done]].
  pose proof (checks_eqType m (mv.eqFuel m) x y) as H.
  destruct (ck_total _ _ _ _ H (fresh st) (closed_in_range st Hc)) as (r & s' & E & Hr & _).
  { unfold room, mv.eqFuel, types_count. lia. }
  fold (fresh st). rewrite E.
  assert (Hyes : bisimilar m x y -> r = true).
  { intros Hb. destruct Hb as (R & HR & Hxy).
    by destruct (ck_complete _ _ _ _ H R _ _ _ HR (closed_clean st Hc) Hxy E). }
  destruct r.
  - destruct (ck_sound _ _ _ _ H _ _ (closed_clean st Hc) E) as (Hcl & Hg & Hxy).
    assert (Hc' : closed (pairs s')) by by apply (closed_grow st).
    exists true, (pairs s'). split_and!; [done| |done|done]. split; [|done]. intros _.
    exists x, y. split; [done|]. split; [done|]. exists (recorded (pairs s')). split; [apply Hc'|done].
  - pose proof (ck_tracks _ _ _ _ H (fresh st)) as Ht. rewrite E in Ht. simpl in Ht.
    exists false, st. rewrite (rollback st s' Hc Ht). split_and!; [done| |done|done].
    split; [done|]. intros (? & ? & [= <-] & [= <-] & Hb). by apply Hyes.
Qed.

Lemma typeIdxEquivalent_correct a b :
  exists r, mv.typeIdxEquivalent m a b = Ok r /\ (r = true <-> equivalent a b).
Proof.
  destruct (withState_correct a b ∅ closed_empty) as (r & st' & E & H & _).
  exists r. unfold mv.typeIdxEquivalent. by rewrite E.
Qed.

(** The answer alone. *)
Lemma typeIdxEquivalent_iff a b : mv.typeIdxEquivalent m a b = Ok true <-> equivalent a b.
Proof.
  destruct (typeIdxEquivalent_correct a b) as (r & E & H). rewrite E, <- H.
  split; [by intros [= ->]|by intros ->].
Qed.

Lemma equivalent_sym a b : equivalent a b -> equivalent b a.
Proof. intros (x & y & H1 & H2 & H3). exists y, x. by split_and!. Qed.

Lemma equivalent_trans a b c : equivalent a b -> equivalent b c -> equivalent a c.
Proof.
  intros (x & y & H1 & H2 & H3) (y' & z & H4 & H5 & H6). rewrite H2 in H4. injection H4 as <-.
  exists x, z. split_and!; [done|done|]. by transitivity y.
Qed.

(** A batch of comparisons over one state, in order. *)
Fixpoint answers (l : list (TypeIdx * TypeIdx)) (st : gmap (Z * Z) Z) : list (outcome unit bool) :=
  match l with
  | [] => []
  | (a, b) :: rest =>
      let (o, st') := mv.typeIdxEquivalentWithState m a b st in o :: answers rest st'
  end.

Lemma answers_fresh l st : closed st ->
  answers l st = map (fun p => mv.typeIdxEquivalent m (fst p) (snd p)) l.
Proof.
  revert st. induction l as [|[a b] l IH]; intros st Hc; [done|]. simpl.
  destruct (withState_correct a b st Hc) as (r & st' & -> & Hr & Hc' & _).
  destruct (typeIdxEquivalent_correct a b) as (r' & -> & Hr').
  rewrite (IH st' Hc'). do 2 f_equal. apply Bool.eq_iff_eq_true. by rewrite Hr, Hr'.
Qed.
End Bisimilarity.

(** C12: the comparison of two defined types of any module returns (the recursion
    through reference cycles ends within the stated depth), and answers yes exactly
    when both indices are in scope and the types are bisimilar: some relation
    contains the pair and is closed under comparing finality, supertypes,
    descriptors, composite types and whole recursive groups. *)
Theorem typeIdxEquivalent_decides m a b :
  exists r, mv.typeIdxEquivalent m a b = Ok r /\ (r = true <-> equivalent m a b).
Proof. apply typeIdxEquivalent_correct. Qed.

(** C25: type equivalence is an equivalence relation on the indices in scope. *)
Theorem typeIdxEquivalent_equivalence m :
  (forall a, mv.validTypeIdx m a = true -> mv.typeIdxEquivalent m a a = Ok true) /\
  (forall a b, mv.typeIdxEquivalent m a b = mv.typeIdxEquivalent m b a) /\
  (forall a b c, mv.typeIdxEquivalent m a b = Ok true -> mv.typeIdxEquivalent m b c = Ok true ->
     mv.typeIdxEquivalent m a c = Ok true).
Proof.
  split_and!.
  - intros a Ha. apply typeIdxEquivalent_iff. unfold equivalent, mv.flatTypeIdxInRecGroup.
    assert (Rec a = false) as ->.
    { unfold mv.validTypeIdx, mv.subtypeByTypeIdxWithRecGroup in Ha. by destruct (Rec a). }
    rewrite Ha. by exists (Index a), (Index a).
  - intros a b. destruct (typeIdxEquivalent_correct m a b) as (r & -> & H),
      (typeIdxEquivalent_correct m b a) as (r' & -> & H').
    f_equal. apply Bool.eq_iff_eq_true. rewrite H, H'. split; apply equivalent_sym.
  - intros a b c. rewrite !typeIdxEquivalent_iff. apply equivalent_trans.
Qed.

(** C13: the pairs a batch shares are an invariant: from a state whose pairs justify
    each other, every comparison leaves such a state, a comparison that fails leaves
    the state it found (the transaction of its doc comment), and every answer of the
    batch is the one a comparison of its own would give. *)
Theorem batch_transactions m l a b st :
  closed m st ->
  answers m l st = map (fun p => mv.typeIdxEquivalent m (fst p) (snd p)) l /\
  exists r st', mv.typeIdxEquivalentWithState m a b st = (Ok r, st') /\ closed m st' /\
    (r = false -> st' = st) /\ mv.typeIdxEquivalent m a b = Ok r.
Proof.
  intros Hc. split; [by apply answers_fresh|].
  destruct (withState_correct m a b st Hc) as (r & st' & E & Hr & Hc' & Hf).
  destruct (typeIdxEquivalent_correct m a b) as (r' & E' & Hr').
  exists r, st'. split_and!; [done..|]. rewrite E'. f_equal. apply Bool.eq_iff_eq_true. by rewrite Hr, Hr'.
Qed.

(** ** Two pairs of mutually recursive types *)

Definition refTo (i : Z) : FieldType :=
  NewFieldType (StorageVal (RefVal (Ref false (IndexedHeap {| Index := i; Rec := true |}) false))) Var.

Definition structOf (fields : list FieldType) : SubType :=
  {| Final := false; Supers := []; Metadata := {| Describes := 0; Descriptor := 0 |};
     Comp := {| CKind := CompStruct; Array := zeroWord; Fields := fields; Params := []; Results := [] |};
     HasPrefix := true |}.

(** Types 0 and 1 refer to each other, 2 and 3 likewise; 4 refers to itself. *)
Definition cyclicModule : Module_ :=
  let pair := {| SubTypes := [structOf [refTo 1]; structOf [refTo 0]] |} in
  {| Customs := []; NameSec_ := None; RawNameSecPayload := [];
     Types_ := [pair; pair; {| SubTypes := [structOf [refTo 0]] |}]; Imports := [];
     FuncTypes := []; Tables := []; Memories := []; Tags := []; StringRefs := []; Globals := [];
     Exports := []; Start := None; Elements := []; DataCount := None; Code_ := []; Data_ := [];
     UsesCompactImports := false; BranchHints := [] |}.

Definition absIdx (i : Z) : TypeIdx := {| Index := i; Rec := false |}.

Lemma typeIdxEquivalent_equivalence_witness :
  mv.typeIdxEquivalent cyclicModule (absIdx 0) (absIdx 2) = Ok true /\
  mv.typeIdxEquivalent cyclicModule (absIdx 2) (absIdx 0) = Ok true /\
  mv.typeIdxEquivalent cyclicModule (absIdx 0) (absIdx 4) = Ok false /\
  mv.typeIdxEquivalent cyclicModule (absIdx 0) (absIdx 0) = Ok true.
Proof.
  destruct (typeIdxEquivalent_equivalence cyclicModule) as (Hr & Hs & Ht).
  assert (E : mv.typeIdxEquivalent cyclicModule (absIdx 0) (absIdx 2) = Ok true) by (vm_compute; reflexivity).
  split; [exact E|]. split; [rewrite Hs; exact E|]. split; [vm_compute; reflexivity|].
  apply (Ht _ (absIdx 2)); [exact E|]. rewrite Hs. exact E.
Defined.

Lemma batch_transactions_witness :
  answers cyclicModule [(absIdx 0, absIdx 1); (absIdx 0, absIdx 2); (absIdx 1, absIdx 3); (absIdx 4, absIdx 3)] ∅
  = [Ok false; Ok true; Ok true; Ok false].
Proof.
  destruct (batch_transactions cyclicModule
    [(absIdx 0, absIdx 1); (absIdx 0, absIdx 2); (absIdx 1, absIdx 3); (absIdx 4, absIdx 3)]
    (absIdx 0) (absIdx 2) ∅ (closed_empty cyclicModule)) as [H _].
  rewrite H. vm_compute. reflexivity.
Defined.
