(* ===== verification/Subtyping.v ===== *)
(** * Subtyping (validate_gc_helpers.go, validate.go)

    The subtype relation of the validator: abstract heap types, declared
    supertypes searched up to type equivalence, references, values, and the
    compatibility tests of casts.  [v.superEnter] and [v.superExit] are the
    intervals of the supertype forest, empty when they were not built. *)

From stdpp Require Import base tactics numbers list gmap.
From Stdlib Require Import ZArith Lia.
From S2P Require Import Prelude Reader Types Module ModuleDecode TypeEquiv.
Local Open Scope Z_scope.

(** ** The module validator *)

Record ValidationFeatures : Set := {
  CompactImports : bool;
  MultiMemory : bool;
  ExtendedConstGlobals : bool;
  GCConstExpr : bool
}.

Record ValidationLimits : Set := { MaxFunctionLocals : Z; MaxMemoriesPerModule : Z }.

(** The fields of [moduleValidator] that function validation reads.  The caches
    ([compCache], the type and import indexes) are computed on demand from [m]. *)
Record moduleValidator : Set := {
  vm : Module_;
  vdirect : option directValidationEnv;
  features : ValidationFeatures;
  limits : ValidationLimits;
  declaredFuncBits : list Z;
  superEnter : list Z;
  superExit : list Z
}.

(** An [error] result: [None] is nil. *)
Definition gerror : Type := option error.

Definition validation_error (c : ValidationErrorCode) (func : Z) : error :=
  EValidation {| VCode := c; VFunc := func |}.

(** [v.err]: the module validator reports function -1. *)
Definition v_err (c : ValidationErrorCode) : gerror := Some (validation_error c (-1)).

(** ** Abstract heap types *)

Definition absHeapSubtype (a b : Z) : bool :=
  if a =? b then true
  else if a =? HeapNoFunc then b =? HeapFunc
  else if a =? HeapNoExtern then b =? HeapExtern
  else if a =? HeapNoExn then b =? HeapExn
  else if a =? HeapNone then
    (b =? HeapAny) || (b =? HeapEq) || (b =? HeapStruct) || (b =? HeapArray) || (b =? HeapI31)
  else if (a =? HeapI31) || (a =? HeapStruct) || (a =? HeapArray) then (b =? HeapEq) || (b =? HeapAny)
  else if a =? HeapEq then b =? HeapAny
  else false.

Module mt.
Section Validator.
Context (v : moduleValidator).

(** ** Scopes *)

Definition subtypeByTypeIdx (idx : TypeIdx) : option SubType :=
  fst <$> mv.subtypeByTypeIdxWithRecGroup (vm v) idx.

Definition subtypeByTypeIdxInRecGroup (idx : TypeIdx) (recGroup : Z) : option SubType :=
  if negb (Rec idx) then
    if 0 <=? recGroup then
      if Z.of_nat (length (Types_ (vm v))) <=? recGroup then None
      else
        match mv.typeGroupBases (vm v) !! Z.to_nat recGroup with
        | Some base => if base <=? Index idx then None else subtypeByTypeIdx idx
        | None => None
        end
    else subtypeByTypeIdx idx
  else if (recGroup <? 0) || (Z.of_nat (length (Types_ (vm v))) <=? recGroup) then None
  else
    match Types_ (vm v) !! Z.to_nat recGroup with
    | Some g =>
        if to_u32 (Z.of_nat (length (SubTypes g))) <=? Index idx then None
        else SubTypes g !! Z.to_nat (Index idx)
    | None => None
    end.

Definition validTypeIdxInRecGroup (idx : TypeIdx) (recGroup : Z) : bool :=
  match subtypeByTypeIdxInRecGroup idx recGroup with Some _ => true | None => false end.

(** ** Relative indices made absolute *)

Definition resolveTypeIdxRecIndex (idx : TypeIdx) (recGroup : Z) : TypeIdx :=
  match mv.flatTypeIdxInRecGroup (vm v) idx recGroup with
  | None => idx
  | Some flat => {| Index := to_u32 flat; Rec := false |}
  end.

Definition resolveRefTypeRecIndexes (rt : RefType) (recGroup : Z) : RefType :=
  let heap := RefType_Heap rt in
  if negb (HeapType_Kind heap =? HeapTypeIndex) then rt
  else RefType_WithHeap rt (IndexedHeap (resolveTypeIdxRecIndex (HeapType_Type heap) recGroup)).

Definition resolveValTypeRecIndexes (t : ValType) (recGroup : Z) : ValType :=
  if negb (ValType_Kind t =? ValRef) then t
  else RefVal (resolveRefTypeRecIndexes (ValType_Ref t) recGroup).

Definition resolveFieldTypeRecIndexes (ft : FieldType) (recGroup : Z) : FieldType :=
  let storage := FieldType_Storage ft in
  if StorageType_Packed storage then ft
  else NewFieldType (StorageVal (resolveValTypeRecIndexes (StorageType_Val storage) recGroup))
         (FieldType_Mut ft).

Definition resolveCompTypeRecIndexes (ct : CompType) (recGroup : Z) : CompType :=
  if CKind ct =? CompFunc then
    {| CKind := CKind ct; Array := Array ct; Fields := Fields ct;
       Params := map (fun t => resolveValTypeRecIndexes t recGroup) (Params ct);
       Results := map (fun t => resolveValTypeRecIndexes t recGroup) (Results ct) |}
  else if CKind ct =? CompStruct then
    {| CKind := CKind ct; Array := Array ct;
       Fields := map (fun f => resolveFieldTypeRecIndexes f recGroup) (Fields ct);
       Params := Params ct; Results := Results ct |}
  else if CKind ct =? CompArray then
    {| CKind := CKind ct; Array := resolveFieldTypeRecIndexes (Array ct) recGroup;
       Fields := Fields ct; Params := Params ct; Results := Results ct |}
  else ct.

Definition resolvedCompType (idx : TypeIdx) : option CompType :=
  if Rec idx then None
  else
    match mv.subtypeByTypeIdxWithRecGroup (vm v) idx with
    | Some (st, recGroup) => Some (resolveCompTypeRecIndexes (Comp st) recGroup)
    | None => None
    end.

Definition compTypeFromTypeIdx (idx : TypeIdx) : option CompType := resolvedCompType idx.

Definition funcTypeFromTypeIdx (idx : TypeIdx) : option CompType :=
  match resolvedCompType idx with
  | Some ct => if CKind ct =? CompFunc then Some ct else None
  | None => None
  end.

Definition structFields (idx : TypeIdx) : option (list FieldType * SubType * Z) :=
  match mv.subtypeByTypeIdxWithRecGroup (vm v) idx with
  | Some (st, recGroup) =>
      if negb (CKind (Comp st) =? CompStruct) then None
      else Some (map (fun f => resolveFieldTypeRecIndexes f recGroup) (Fields (Comp st)), st, recGroup)
  | None => None
  end.

Definition arrayField (idx : TypeIdx) : option (FieldType * SubType) :=
  match mv.subtypeByTypeIdxWithRecGroup (vm v) idx with
  | Some (st, recGroup) =>
      if negb (CKind (Comp st) =? CompArray) then None
      else Some (resolveFieldTypeRecIndexes (Array (Comp st)) recGroup, st)
  | None => None
  end.

(** ** Declared supertypes *)

(** The answer of a test that returned.  The relations below take the answers of
    [typeIdxEquivalent] and [typeIdxSuperSubtype], which are outcomes: the first
    returns for every module (C12), the second for every validator the module
    validation makes (C24), so that no panic is read as a negative answer. *)
Definition returned (o : outcome unit bool) : bool :=
  match o with Ok r => r | _ => false end.

Definition typeIdxEquivalent (a b : TypeIdx) : bool := returned (mv.typeIdxEquivalent (vm v) a b).

(** [v.superEnter[b] <= v.superEnter[a] && v.superExit[a] <= v.superExit[b]];
    [None] is an index out of range. *)
Definition interval_contains (b a : Z) : option bool :=
  eb ← superEnter v !! Z.to_nat b;
  ea ← superEnter v !! Z.to_nat a;
  if negb (eb <=? ea) then Some false
  else
    xa ← superExit v !! Z.to_nat a;
    xb ← superExit v !! Z.to_nat b;
    Some (xa <=? xb).

(** The loop of [visit] over the supertypes, with [visit] itself as [f]. *)
Fixpoint visit_supers (f : Z -> gset Z -> outcome unit bool * gset Z) (recGroup : Z) (supers : list TypeIdx)
  (seen : gset Z) : outcome unit bool * gset Z :=
  match supers with
  | [] => (Ok false, seen)
  | sup :: rest =>
      match mv.flatTypeIdxInRecGroup (vm v) sup recGroup with
      | None => visit_supers f recGroup rest seen
      | Some supFlat =>
          match f supFlat seen with
          | (Ok false, seen') => visit_supers f recGroup rest seen'
          | r => r
          end
      end
  end.

(** [cur == bFlat || v.typeIdxEquivalent(...)] *)
Definition reached (bFlat cur : Z) : outcome unit bool :=
  if cur =? bFlat then Ok true
  else mv.typeIdxEquivalent (vm v) {| Index := to_u32 cur; Rec := false |} {| Index := to_u32 bFlat; Rec := false |}.

(** [visit] of [typeIdxSuperSubtype]; fuel that runs out is a [Panic]. *)
Fixpoint visit (fuel : nat) (bFlat cur : Z) (seen : gset Z) : outcome unit bool * gset Z :=
  match reached bFlat cur with
  | Ok false =>
      if decide (cur ∈ seen) then (Ok false, seen)
      else
        match fuel with
        | O => (Panic, seen)
        | S fuel' =>
            let seen := {[cur]} ∪ seen in
            match mv.subtypeByFlatTypeIdx (vm v) cur with
            | None => (Ok false, seen)
            | Some (st, recGroup) => visit_supers (visit fuel' bFlat) recGroup (Supers st) seen
            end
        end
  | o => (o, seen)
  end.

(** Every nested call marks a type it has not seen. *)
Definition visitFuel : nat := S (length (mv.flatSubTypes (vm v))).

(** [Panic] is an index out of range, a panic of the comparison of two types or
    fuel that ran out. *)
Definition typeIdxSuperSubtype (a b : TypeIdx) : outcome unit bool :=
  match mv.flatTypeIdxInRecGroup (vm v) a (-1), mv.flatTypeIdxInRecGroup (vm v) b (-1) with
  | Some aFlat, Some bFlat =>
      match (if (length (superEnter v) =? 0)%nat then Some false else interval_contains bFlat aFlat) with
      | None => Panic
      | Some true => Ok true
      | Some false => fst (visit visitFuel bFlat aFlat ∅)
      end
  | _, _ => Ok false
  end.

(** ** References and values *)

Definition heapTypeEquivalent (a b : HeapType) : bool :=
  if equalHeapType a b then true
  else (HeapType_Kind a =? HeapTypeIndex) && (HeapType_Kind b =? HeapTypeIndex)
       && typeIdxEquivalent (HeapType_Type a) (HeapType_Type b).

Definition refSubtype (a b : RefType) : bool :=
  let ah := RefType_Heap a in
  let bh := RefType_Heap b in
  if negb (RefType_Nullable b) && RefType_Nullable a then false
  else if HeapType_Kind ah =? heapBottom then true
  else if heapTypeEquivalent ah bh then negb (RefType_Exact b && negb (RefType_Exact a))
  else if (HeapType_Kind ah =? HeapTypeIndex) && (HeapType_Kind bh =? HeapTypeIndex) then
    negb (RefType_Exact b) && returned (typeIdxSuperSubtype (HeapType_Type ah) (HeapType_Type bh))
  else if (HeapType_Kind ah =? HeapAbs) && (HeapType_Kind bh =? HeapTypeIndex) then
    match compTypeFromTypeIdx (HeapType_Type bh) with
    | None => false
    | Some ct =>
        if CKind ct =? CompFunc then HeapType_Abs ah =? HeapNoFunc
        else if (CKind ct =? CompStruct) || (CKind ct =? CompArray) then HeapType_Abs ah =? HeapNone
        else false
    end
  else if (HeapType_Kind ah =? HeapTypeIndex) && (HeapType_Kind bh =? HeapAbs) then
    match compTypeFromTypeIdx (HeapType_Type ah) with
    | None => false
    | Some ct =>
        if CKind ct =? CompStruct then absHeapSubtype HeapStruct (HeapType_Abs bh)
        else if CKind ct =? CompArray then absHeapSubtype HeapArray (HeapType_Abs bh)
        else if CKind ct =? CompFunc then absHeapSubtype HeapFunc (HeapType_Abs bh)
        else false
    end
  else if (HeapType_Kind ah =? HeapAbs) && (HeapType_Kind bh =? HeapAbs) then
    absHeapSubtype (HeapType_Abs ah) (HeapType_Abs bh)
  else false.

Definition heapSubtype (a b : HeapType) : bool :=
  if heapTypeEquivalent a b then true else refSubtype (Ref false a false) (Ref false b false).

(** [funcValidator.subtype] *)
Definition subtype (a b : ValType) : bool :=
  if (ValType_Kind b =? ValBot) || (ValType_Kind a =? ValBot) then true
  else if equalValType a b then true
  else if (ValType_Kind a =? ValRef) && (ValType_Kind b =? ValRef)
  then refSubtype (ValType_Ref a) (ValType_Ref b)
  else false.

(** [matchValTypes] *)
Definition matchValTypes (actual expected : list ValType) : bool :=
  (length actual =? length expected)%nat && equal_all subtype actual expected.

(** ** Casts *)

Inductive refTestFamily : Set :=
| refTestFamilyData
| refTestFamilyFunc
| refTestFamilyExtern
| refTestFamilyExn
| refTestFamilyString.

#[export] Instance refTestFamily_eq_dec : EqDecision refTestFamily.
Proof. solve_decision. Defined.

(** The family of a composite kind: the last switch of [refTestHeapFamily]. *)
Definition refTestKindFamily (kind : Z) : option refTestFamily :=
  if (kind =? CompStruct) || (kind =? CompArray) then Some refTestFamilyData
  else if kind =? CompFunc then Some refTestFamilyFunc
  else None.

Definition refTestHeapFamily (h : HeapType) : option refTestFamily :=
  if HeapType_Kind h =? HeapAbs then
    let abs := HeapType_Abs h in
    if existsb (Z.eqb abs) [HeapNone; HeapI31; HeapStruct; HeapArray; HeapEq; HeapAny]
    then Some refTestFamilyData
    else if existsb (Z.eqb abs) [HeapNoFunc; HeapFunc] then Some refTestFamilyFunc
    else if existsb (Z.eqb abs) [HeapNoExtern; HeapExtern] then Some refTestFamilyExtern
    else if existsb (Z.eqb abs) [HeapNoExn; HeapExn] then Some refTestFamilyExn
    else if abs =? HeapString then Some refTestFamilyString
    else None
  else if HeapType_Kind h =? HeapTypeIndex then
    match compTypeFromTypeIdx (HeapType_Type h) with
    | Some ct => refTestKindFamily (CKind ct)
    | None => None
    end
  else if HeapType_Kind h =? HeapDefType then
    let (defKind, valid) := HeapType_DefCompKind h in
    if valid then refTestKindFamily defKind else None
  else None.

Definition refTestCompatible (a b : RefType) : bool :=
  if (HeapType_Kind (RefType_Heap a) =? heapBottom) || (HeapType_Kind (RefType_Heap b) =? heapBottom)
  then true
  else
    match refTestHeapFamily (RefType_Heap a), refTestHeapFamily (RefType_Heap b) with
    | Some af, Some bf => bool_decide (af = bf)
    | _, _ => false
    end.

Definition descriptorCompatible (a b : RefType) : bool :=
  let ah := RefType_Heap a in
  let bh := RefType_Heap b in
  if (HeapType_Kind ah =? HeapAbs) && (HeapType_Kind bh =? HeapAbs) then
    absHeapSubtype (HeapType_Abs ah) (HeapType_Abs bh) || absHeapSubtype (HeapType_Abs bh) (HeapType_Abs ah)
  else if RefType_Exact a && RefType_Exact b && (HeapType_Kind ah =? HeapTypeIndex)
          && (HeapType_Kind bh =? HeapTypeIndex)
  then typeIdxEquivalent (HeapType_Type ah) (HeapType_Type bh)
  else refSubtype a b || refSubtype b a.

Definition descriptorTargetRefType (nullable : bool) (ht : HeapType) (exact : bool) : option ValType :=
  if (HeapType_Kind ht =? HeapTypeIndex)
     && match subtypeByTypeIdx (HeapType_Type ht) with Some _ => false | None => true end
  then None
  else Some (RefVal (Ref nullable ht exact)).

(** ** Well-formed types *)

Definition validateHeapTypeInRecGroup (ht : HeapType) (recGroup : Z) : gerror :=
  if HeapType_Kind ht =? HeapAbs then
    if existsb (Z.eqb (HeapType_Abs ht))
         [HeapString; HeapExn; HeapArray; HeapStruct; HeapI31; HeapEq; HeapAny;
          HeapExtern; HeapFunc; HeapNone; HeapNoExtern; HeapNoFunc; HeapNoExn]
    then None else v_err ErrUnknownType
  else if HeapType_Kind ht =? HeapTypeIndex then
    if negb (validTypeIdxInRecGroup (HeapType_Type ht) recGroup) then v_err ErrUnknownType else None
  else if HeapType_Kind ht =? HeapDefType then
    let '(_, _, _, valid) := HeapType_Def ht in if valid then None else v_err ErrUnknownType
  else v_err ErrUnknownType.

Definition validateRefTypeInRecGroup (rt : RefType) (recGroup : Z) : gerror :=
  validateHeapTypeInRecGroup (RefType_Heap rt) recGroup.

Definition validateRefType (rt : RefType) : gerror := validateRefTypeInRecGroup rt (-1).

Definition validateValTypeInRecGroup (t : ValType) (recGroup : Z) : gerror :=
  if (ValType_Kind t =? ValNum) && existsb (word2_eqb t) [I32; I64; F32; F64] then None
  else if (ValType_Kind t =? ValVec) && word2_eqb t V128 then None
  else if ValType_Kind t =? ValRef then validateRefTypeInRecGroup (ValType_Ref t) recGroup
  else v_err ErrUnknownType.

Definition validateValType (t : ValType) : gerror := validateValTypeInRecGroup t (-1).

(** ** Fields *)

Definition storageValType (st : StorageType) : ValType :=
  if negb (StorageType_Packed st) then StorageType_Val st else I32.

Definition valTypeDefaultable (t : ValType) : bool :=
  negb (ValType_Kind t =? ValRef) || RefType_Nullable (ValType_Ref t).

End Validator.
End mt.
