(* ===== verification/Effects.v ===== *)
(** * Stack effects (validate_ops.go, validate_proposal.go)

    The tables [init] builds once: the operand types of the scalar and memory
    instructions ([opEffects]), of the vector instructions ([simdEffects]), and of
    the atomic ones. *)

From stdpp Require Import base tactics numbers list.
From Stdlib Require Import ZArith Lia.
From S2P Require Import Prelude Types Kinds.
Local Open Scope Z_scope.

Inductive opEffectCat : Set :=
| effNone | effUnary | effBinary | effCompare | effTest | effConv | effLoad | effStore.

#[export] Instance opEffectCat_eq_dec : EqDecision opEffectCat.
Proof. solve_decision. Defined.

Inductive effectValue : Set :=
| effectNone | effectI32 | effectI64 | effectF32 | effectF64 | effectV128.

Definition valType (t : effectValue) : ValType :=
  match t with
  | effectNone => zeroWord
  | effectI32 => I32
  | effectI64 => I64
  | effectF32 => F32
  | effectF64 => F64
  | effectV128 => V128
  end.

Record opEffect : Set := mkEffect { cat : opEffectCat; ea : effectValue; eb : effectValue; align : Z }.

Definition zeroEffect : opEffect := mkEffect effNone effectNone effectNone 0.

(** The calls of [setOpEffects] and [setOpEffectRange] in [init]: first and last
    kind of each range. *)
Definition opEffectWrites : list (Z * Z * opEffect) := [
   (InstrI32Eqz, InstrI32Eqz, (mkEffect effTest effectI32 effectNone 0));
   (InstrI64Eqz, InstrI64Eqz, (mkEffect effTest effectI64 effectNone 0));
   (InstrI32Eq, InstrI32GeU, (mkEffect effCompare effectI32 effectNone 0));
   (InstrI64Eq, InstrI64GeU, (mkEffect effCompare effectI64 effectNone 0));
   (InstrF32Eq, InstrF32Ge, (mkEffect effCompare effectF32 effectNone 0));
   (InstrF64Eq, InstrF64Ge, (mkEffect effCompare effectF64 effectNone 0));
   (InstrI32Clz, InstrI32Popcnt, (mkEffect effUnary effectI32 effectNone 0));
   (InstrI64Clz, InstrI64Popcnt, (mkEffect effUnary effectI64 effectNone 0));
   (InstrF32Abs, InstrF32Sqrt, (mkEffect effUnary effectF32 effectNone 0));
   (InstrF64Abs, InstrF64Sqrt, (mkEffect effUnary effectF64 effectNone 0));
   (InstrI32Extend8S, InstrI32Extend16S, (mkEffect effUnary effectI32 effectNone 0));
   (InstrI64Extend8S, InstrI64Extend32S, (mkEffect effUnary effectI64 effectNone 0));
   (InstrI32Add, InstrI32Rotr, (mkEffect effBinary effectI32 effectNone 0));
   (InstrI64Add, InstrI64Rotr, (mkEffect effBinary effectI64 effectNone 0));
   (InstrF32Add, InstrF32Copysign, (mkEffect effBinary effectF32 effectNone 0));
   (InstrF64Add, InstrF64Copysign, (mkEffect effBinary effectF64 effectNone 0));
   (InstrI32WrapI64, InstrI32WrapI64, (mkEffect effConv effectI64 effectI32 0));
   (InstrI32TruncF32S, InstrI32TruncF32S, (mkEffect effConv effectF32 effectI32 0));
   (InstrI32TruncF32U, InstrI32TruncF32U, (mkEffect effConv effectF32 effectI32 0));
   (InstrI32ReinterpretF32, InstrI32ReinterpretF32, (mkEffect effConv effectF32 effectI32 0));
   (InstrI32TruncF64S, InstrI32TruncF64S, (mkEffect effConv effectF64 effectI32 0));
   (InstrI32TruncF64U, InstrI32TruncF64U, (mkEffect effConv effectF64 effectI32 0));
   (InstrI64ExtendI32S, InstrI64ExtendI32S, (mkEffect effConv effectI32 effectI64 0));
   (InstrI64ExtendI32U, InstrI64ExtendI32U, (mkEffect effConv effectI32 effectI64 0));
   (InstrI64TruncF32S, InstrI64TruncF32S, (mkEffect effConv effectF32 effectI64 0));
   (InstrI64TruncF32U, InstrI64TruncF32U, (mkEffect effConv effectF32 effectI64 0));
   (InstrI64TruncF64S, InstrI64TruncF64S, (mkEffect effConv effectF64 effectI64 0));
   (InstrI64TruncF64U, InstrI64TruncF64U, (mkEffect effConv effectF64 effectI64 0));
   (InstrI64ReinterpretF64, InstrI64ReinterpretF64, (mkEffect effConv effectF64 effectI64 0));
   (InstrF32ConvertI32S, InstrF32ConvertI32S, (mkEffect effConv effectI32 effectF32 0));
   (InstrF32ConvertI32U, InstrF32ConvertI32U, (mkEffect effConv effectI32 effectF32 0));
   (InstrF32ReinterpretI32, InstrF32ReinterpretI32, (mkEffect effConv effectI32 effectF32 0));
   (InstrF32ConvertI64S, InstrF32ConvertI64S, (mkEffect effConv effectI64 effectF32 0));
   (InstrF32ConvertI64U, InstrF32ConvertI64U, (mkEffect effConv effectI64 effectF32 0));
   (InstrF32DemoteF64, InstrF32DemoteF64, (mkEffect effConv effectF64 effectF32 0));
   (InstrF64ConvertI32S, InstrF64ConvertI32S, (mkEffect effConv effectI32 effectF64 0));
   (InstrF64ConvertI32U, InstrF64ConvertI32U, (mkEffect effConv effectI32 effectF64 0));
   (InstrF64ConvertI64S, InstrF64ConvertI64S, (mkEffect effConv effectI64 effectF64 0));
   (InstrF64ConvertI64U, InstrF64ConvertI64U, (mkEffect effConv effectI64 effectF64 0));
   (InstrF64ReinterpretI64, InstrF64ReinterpretI64, (mkEffect effConv effectI64 effectF64 0));
   (InstrF64PromoteF32, InstrF64PromoteF32, (mkEffect effConv effectF32 effectF64 0));
   (InstrI32Load, InstrI32Load, (mkEffect effLoad effectI32 effectNone 2));
   (InstrI64Load, InstrI64Load, (mkEffect effLoad effectI64 effectNone 3));
   (InstrF32Load, InstrF32Load, (mkEffect effLoad effectF32 effectNone 2));
   (InstrF64Load, InstrF64Load, (mkEffect effLoad effectF64 effectNone 3));
   (InstrI32Load8S, InstrI32Load8S, (mkEffect effLoad effectI32 effectNone 0));
   (InstrI32Load8U, InstrI32Load8U, (mkEffect effLoad effectI32 effectNone 0));
   (InstrI32Load16S, InstrI32Load16S, (mkEffect effLoad effectI32 effectNone 1));
   (InstrI32Load16U, InstrI32Load16U, (mkEffect effLoad effectI32 effectNone 1));
   (InstrI64Load8S, InstrI64Load8S, (mkEffect effLoad effectI64 effectNone 0));
   (InstrI64Load8U, InstrI64Load8U, (mkEffect effLoad effectI64 effectNone 0));
   (InstrI64Load16S, InstrI64Load16S, (mkEffect effLoad effectI64 effectNone 1));
   (InstrI64Load16U, InstrI64Load16U, (mkEffect effLoad effectI64 effectNone 1));
   (InstrI64Load32S, InstrI64Load32S, (mkEffect effLoad effectI64 effectNone 2));
   (InstrI64Load32U, InstrI64Load32U, (mkEffect effLoad effectI64 effectNone 2));
   (InstrI32Store, InstrI32Store, (mkEffect effStore effectI32 effectNone 2));
   (InstrI64Store, InstrI64Store, (mkEffect effStore effectI64 effectNone 3));
   (InstrF32Store, InstrF32Store, (mkEffect effStore effectF32 effectNone 2));
   (InstrF64Store, InstrF64Store, (mkEffect effStore effectF64 effectNone 3));
   (InstrI32Store8, InstrI32Store8, (mkEffect effStore effectI32 effectNone 0));
   (InstrI32Store16, InstrI32Store16, (mkEffect effStore effectI32 effectNone 1));
   (InstrI64Store8, InstrI64Store8, (mkEffect effStore effectI64 effectNone 0));
   (InstrI64Store16, InstrI64Store16, (mkEffect effStore effectI64 effectNone 1));
   (InstrI64Store32, InstrI64Store32, (mkEffect effStore effectI64 effectNone 2))
].

(** [opEffects[kind]]: the last write that covers the kind. *)
Definition opEffects (kind : Z) : opEffect :=
  foldl (fun e w => let '(first, last, effect) := w in
                    if (first <=? kind) && (kind <=? last) then effect else e)
    zeroEffect opEffectWrites.

(** ** Atomics *)

Record atomicEffect : Set := { atyp : effectValue; aalign : Z }.

Definition atomicLoadEffects : list atomicEffect := [
   {| atyp := effectI32; aalign := 2 |}; {| atyp := effectI64; aalign := 3 |};
   {| atyp := effectI32; aalign := 0 |}; {| atyp := effectI32; aalign := 1 |};
   {| atyp := effectI64; aalign := 0 |}; {| atyp := effectI64; aalign := 1 |};
   {| atyp := effectI64; aalign := 2 |}
].

(** The index wraps below [first]. *)
Definition lookupAtomicEffect (table : list atomicEffect) (first kind : Z) : option atomicEffect :=
  let index := to_u32 (kind - first) in
  if Z.of_nat (length table) <=? index then None else table !! Z.to_nat index.

Definition atomicRmwEffect (op : Z) : atomicEffect :=
  let op := if op =? 0 then 30 else op in
  let pos := to_u32 (op - 30) mod 7 in
  if pos =? 0 then {| atyp := effectI32; aalign := 2 |}
  else if pos =? 1 then {| atyp := effectI64; aalign := 3 |}
  else if (pos =? 2) || (pos =? 3) then {| atyp := effectI32; aalign := to_u8 (pos - 2) |}
  else {| atyp := effectI64; aalign := to_u8 (pos - 4) |}.

Definition atomicCmpxchgEffect (op : Z) : atomicEffect :=
  let op := if op =? 0 then 72 else op in
  if op =? 72 then {| atyp := effectI32; aalign := 2 |}
  else if op =? 73 then {| atyp := effectI64; aalign := 3 |}
  else if (op =? 74) || (op =? 75) then {| atyp := effectI32; aalign := to_u8 (op - 74) |}
  else {| atyp := effectI64; aalign := to_u8 (op - 76) |}.

(** ** Vectors *)

Inductive simdEffectCat : Set :=
| simdNone | simdEffLoad | simdEffStore | simdEffMemLoadLane | simdEffMemStoreLane | simdEffSplat
| simdEffExtract | simdEffReplace | simdEffShift | simdEffUnary | simdEffBinary | simdEffTernary
| simdPopV128PushI32 | simdBitselect | simdConst.

#[export] Instance simdEffectCat_eq_dec : EqDecision simdEffectCat.
Proof. solve_decision. Defined.

Record simdEffect : Set := mkSimd {
  scat : simdEffectCat; scalar : effectValue; salign : Z; laneLimit : Z
}.

Definition simdLoads : list (Z * Z) := [
   (InstrV128Load, 4); (InstrV128Load8x8S, 3); (InstrV128Load8x8U, 3); (InstrV128Load16x4S, 3);
   (InstrV128Load16x4U, 3); (InstrV128Load32x2S, 3); (InstrV128Load32x2U, 3);
   (InstrV128Load8Splat, 0); (InstrV128Load16Splat, 1); (InstrV128Load32Splat, 2);
   (InstrV128Load64Splat, 3); (InstrV128Load32Zero, 2); (InstrV128Load64Zero, 3)
].
Definition simdMemLane : list (Z * Z) := [
   (InstrV128Load8Lane, 0); (InstrV128Load16Lane, 1); (InstrV128Load32Lane, 2);
   (InstrV128Load64Lane, 3); (InstrV128Store8Lane, 0); (InstrV128Store16Lane, 1);
   (InstrV128Store32Lane, 2); (InstrV128Store64Lane, 3)
].
Definition simdLaneLimits : list (Z * Z) := [
   (InstrI8x16ExtractLaneS, 16); (InstrI8x16ExtractLaneU, 16); (InstrI8x16ReplaceLane, 16);
   (InstrI16x8ExtractLaneS, 8); (InstrI16x8ExtractLaneU, 8); (InstrI16x8ReplaceLane, 8);
   (InstrI32x4ExtractLane, 4); (InstrI32x4ReplaceLane, 4); (InstrF32x4ExtractLane, 4);
   (InstrF32x4ReplaceLane, 4); (InstrI64x2ExtractLane, 2); (InstrI64x2ReplaceLane, 2);
   (InstrF64x2ExtractLane, 2); (InstrF64x2ReplaceLane, 2); (InstrV128Load8Lane, 16);
   (InstrV128Store8Lane, 16); (InstrV128Load16Lane, 8); (InstrV128Store16Lane, 8);
   (InstrV128Load32Lane, 4); (InstrV128Store32Lane, 4); (InstrV128Load64Lane, 2);
   (InstrV128Store64Lane, 2)
].
Definition simdSplat : list (Z * effectValue) := [
   (InstrI8x16Splat, effectI32); (InstrI16x8Splat, effectI32); (InstrI32x4Splat, effectI32);
   (InstrI64x2Splat, effectI64); (InstrF32x4Splat, effectF32); (InstrF64x2Splat, effectF64)
].
Definition simdExtract : list (Z * effectValue) := [
   (InstrI8x16ExtractLaneS, effectI32); (InstrI8x16ExtractLaneU, effectI32);
   (InstrI16x8ExtractLaneS, effectI32); (InstrI16x8ExtractLaneU, effectI32);
   (InstrI32x4ExtractLane, effectI32); (InstrI64x2ExtractLane, effectI64);
   (InstrF32x4ExtractLane, effectF32); (InstrF64x2ExtractLane, effectF64)
].
Definition simdReplace : list (Z * effectValue) := [
   (InstrI8x16ReplaceLane, effectI32); (InstrI16x8ReplaceLane, effectI32);
   (InstrI32x4ReplaceLane, effectI32); (InstrI64x2ReplaceLane, effectI64);
   (InstrF32x4ReplaceLane, effectF32); (InstrF64x2ReplaceLane, effectF64)
].
Definition simdShift : list Z := [
   InstrI8x16Shl; InstrI8x16ShrS; InstrI8x16ShrU; InstrI16x8Shl; InstrI16x8ShrS;
   InstrI16x8ShrU; InstrI32x4Shl; InstrI32x4ShrS; InstrI32x4ShrU; InstrI64x2Shl;
   InstrI64x2ShrS; InstrI64x2ShrU
].
Definition simdUnary : list Z := [
   InstrI8x16Swizzle; InstrV128Not; InstrF32x4DemoteF64x2Zero; InstrF64x2PromoteLowF32x4;
   InstrI8x16Abs; InstrI8x16Neg; InstrI8x16Popcnt; InstrI16x8ExtaddPairwiseI8x16S;
   InstrI16x8ExtaddPairwiseI8x16U; InstrI32x4ExtaddPairwiseI16x8S;
   InstrI32x4ExtaddPairwiseI16x8U; InstrF32x4Ceil; InstrF32x4Floor; InstrF32x4Trunc;
   InstrF32x4Nearest; InstrF64x2Ceil; InstrF64x2Floor; InstrF64x2Trunc; InstrF64x2Nearest;
   InstrI16x8Abs; InstrI16x8Neg; InstrI32x4Abs; InstrI32x4Neg; InstrI64x2Abs; InstrI64x2Neg;
   InstrI64x2ExtendLowI32x4S; InstrI64x2ExtendHighI32x4S; InstrI64x2ExtendLowI32x4U;
   InstrI64x2ExtendHighI32x4U; InstrF32x4Abs; InstrF32x4Neg; InstrF32x4Sqrt; InstrF64x2Abs;
   InstrF64x2Neg; InstrF64x2Sqrt; InstrI32x4TruncSatF32x4S; InstrI32x4TruncSatF32x4U;
   InstrF32x4ConvertI32x4S; InstrF32x4ConvertI32x4U; InstrI32x4TruncSatF64x2SZero;
   InstrI32x4TruncSatF64x2UZero; InstrF64x2ConvertLowI32x4S; InstrF64x2ConvertLowI32x4U;
   InstrI32x4RelaxedTruncF32x4S; InstrI32x4RelaxedTruncF32x4U;
   InstrI32x4RelaxedTruncZeroF64x2S; InstrI32x4RelaxedTruncZeroF64x2U;
   InstrI16x8ExtendLowI8x16S; InstrI16x8ExtendHighI8x16S; InstrI16x8ExtendLowI8x16U;
   InstrI16x8ExtendHighI8x16U; InstrI32x4ExtendLowI16x8S; InstrI32x4ExtendHighI16x8S;
   InstrI32x4ExtendLowI16x8U; InstrI32x4ExtendHighI16x8U
].
Definition simdBinary : list Z := [
   InstrI8x16Shuffle; InstrI8x16RelaxedSwizzle; InstrV128And; InstrV128Andnot; InstrV128Or;
   InstrV128Xor; InstrI8x16Eq; InstrI8x16Ne; InstrI8x16LtS; InstrI8x16LtU; InstrI8x16GtS;
   InstrI8x16GtU; InstrI8x16LeS; InstrI8x16LeU; InstrI8x16GeS; InstrI8x16GeU; InstrI16x8Eq;
   InstrI16x8Ne; InstrI16x8LtS; InstrI16x8LtU; InstrI16x8GtS; InstrI16x8GtU; InstrI16x8LeS;
   InstrI16x8LeU; InstrI16x8GeS; InstrI16x8GeU; InstrI32x4Eq; InstrI32x4Ne; InstrI32x4LtS;
   InstrI32x4LtU; InstrI32x4GtS; InstrI32x4GtU; InstrI32x4LeS; InstrI32x4LeU; InstrI32x4GeS;
   InstrI32x4GeU; InstrF32x4Eq; InstrF32x4Ne; InstrF32x4Lt; InstrF32x4Gt; InstrF32x4Le;
   InstrF32x4Ge; InstrF64x2Eq; InstrF64x2Ne; InstrF64x2Lt; InstrF64x2Gt; InstrF64x2Le;
   InstrF64x2Ge; InstrI8x16NarrowI16x8S; InstrI8x16NarrowI16x8U; InstrI8x16Shl; InstrI8x16ShrS;
   InstrI8x16ShrU; InstrI8x16Add; InstrI8x16AddSatS; InstrI8x16AddSatU; InstrI8x16Sub;
   InstrI8x16SubSatS; InstrI8x16SubSatU; InstrI8x16MinS; InstrI8x16MinU; InstrI8x16MaxS;
   InstrI8x16MaxU; InstrI8x16AvgrU; InstrI16x8Q15mulrSatS; InstrI16x8NarrowI32x4S;
   InstrI16x8NarrowI32x4U; InstrI16x8Shl; InstrI16x8ShrS; InstrI16x8ShrU; InstrI16x8Add;
   InstrI16x8AddSatS; InstrI16x8AddSatU; InstrI16x8Sub; InstrI16x8SubSatS; InstrI16x8SubSatU;
   InstrI16x8Mul; InstrI16x8MinS; InstrI16x8MinU; InstrI16x8MaxS; InstrI16x8MaxU;
   InstrI16x8AvgrU; InstrI16x8ExtmulLowI8x16S; InstrI16x8ExtmulHighI8x16S;
   InstrI16x8ExtmulLowI8x16U; InstrI16x8ExtmulHighI8x16U; InstrI32x4Add; InstrI32x4Sub;
   InstrI32x4Mul; InstrI32x4MinS; InstrI32x4MinU; InstrI32x4MaxS; InstrI32x4MaxU;
   InstrI32x4DotI16x8S; InstrI32x4ExtmulLowI16x8S; InstrI32x4ExtmulHighI16x8S;
   InstrI32x4ExtmulLowI16x8U; InstrI32x4ExtmulHighI16x8U; InstrI64x2Add; InstrI64x2Sub;
   InstrI64x2Mul; InstrI64x2ExtmulLowI32x4S; InstrI64x2ExtmulHighI32x4S;
   InstrI64x2ExtmulLowI32x4U; InstrI64x2ExtmulHighI32x4U; InstrI64x2Eq; InstrI64x2Ne;
   InstrI64x2LtS; InstrI64x2GtS; InstrI64x2LeS; InstrI64x2GeS; InstrF32x4Add; InstrF32x4Sub;
   InstrF32x4Mul; InstrF32x4Div; InstrF32x4Min; InstrF32x4Max; InstrF32x4Pmin; InstrF32x4Pmax;
   InstrF64x2Add; InstrF64x2Sub; InstrF64x2Mul; InstrF64x2Div; InstrF64x2Min; InstrF64x2Max;
   InstrF64x2Pmin; InstrF64x2Pmax; InstrF32x4RelaxedMin; InstrF32x4RelaxedMax;
   InstrF64x2RelaxedMin; InstrF64x2RelaxedMax; InstrI16x8RelaxedQ15mulrS;
   InstrI16x8RelaxedDotI8x16I7x16S
].
Definition simdTernary : list Z := [
   InstrF32x4RelaxedMadd; InstrF32x4RelaxedNmadd; InstrF64x2RelaxedMadd;
   InstrF64x2RelaxedNmadd; InstrI32x4RelaxedDotI8x16I7x16AddS
].

(** The two literal lists of [init]. *)
Definition simdTests : list Z := [
   InstrV128AnyTrue; InstrI8x16AllTrue; InstrI16x8AllTrue; InstrI32x4AllTrue;
   InstrI64x2AllTrue; InstrI8x16Bitmask; InstrI16x8Bitmask; InstrI32x4Bitmask; InstrI64x2Bitmask
].
Definition simdSelects : list Z := [
   InstrV128Bitselect; InstrI8x16RelaxedLaneselect; InstrI16x8RelaxedLaneselect;
   InstrI32x4RelaxedLaneselect; InstrI64x2RelaxedLaneselect
].

(** [simdEffects] while [init] fills it. *)
Definition simdTable := Z -> simdEffect.

Definition set_simd (k : Z) (e : simdEffect) (t : simdTable) : simdTable :=
  fun x => if x =? k then e else t x.

(** [for _, x := range l { ... }] *)
Definition each {A} (l : list A) (f : A -> simdTable -> simdTable) (t : simdTable) : simdTable :=
  foldl (fun t x => f x t) t l.

Definition effect (c : simdEffectCat) : simdEffect := mkSimd c effectNone 0 0.

Definition simdEffects : simdTable :=
  let t : simdTable := fun _ => effect simdNone in
  let t := each simdLoads (fun p => set_simd (fst p) (mkSimd simdEffLoad effectNone (snd p) 0)) t in
  let t := set_simd InstrV128Store (effect simdEffStore) t in
  let t := each simdMemLane (fun p =>
    let c := if (InstrV128Store8Lane <=? fst p) && (fst p <=? InstrV128Store64Lane)
             then simdEffMemStoreLane else simdEffMemLoadLane in
    set_simd (fst p) (mkSimd c effectNone (snd p) 0)) t in
  let t := each simdSplat (fun p => set_simd (fst p) (mkSimd simdEffSplat (snd p) 0 0)) t in
  let t := each simdExtract (fun p => set_simd (fst p) (mkSimd simdEffExtract (snd p) 0 0)) t in
  let t := each simdReplace (fun p => set_simd (fst p) (mkSimd simdEffReplace (snd p) 0 0)) t in
  let t := each simdShift (fun k => set_simd k (effect simdEffShift)) t in
  let t := each simdUnary (fun k => set_simd k (effect simdEffUnary)) t in
  let t := set_simd InstrI8x16Swizzle (effect simdEffBinary) t in
  let t := each simdBinary (fun k t =>
    if bool_decide (scat (t k) = simdEffShift) then t else set_simd k (effect simdEffBinary) t) t in
  let t := each simdTernary (fun k => set_simd k (effect simdEffTernary)) t in
  let t := each simdTests (fun k => set_simd k (effect simdPopV128PushI32)) t in
  let t := each simdSelects (fun k => set_simd k (effect simdBitselect)) t in
  let t := set_simd InstrV128Const (effect simdConst) t in
  each simdLaneLimits (fun p t =>
    let e := t (fst p) in set_simd (fst p) (mkSimd (scat e) (scalar e) (salign e) (snd p)) t) t.

Definition IsSIMDValidationInstructionKind (kind : Z) : bool :=
  (kind <? numInstrKinds) && negb (bool_decide (scat (simdEffects kind) = simdNone)).
