(* ===== verification/Validator.v ===== *)
(** * The operand and control stacks (validate.go)

    The state of [funcValidator] and the primitives every instruction is checked
    with.  The slices [vals], [ctrls] and [localInitLog], which the source uses as
    stacks, are lists with the last element first.  An index or a slice bound the
    source would panic on is [panic] here. *)

From stdpp Require Import base tactics numbers list gmap.
From Stdlib Require Import ZArith Lia.
From S2P Require Import Prelude Reader Types Kinds Instr Module ModuleDecode TypeEquiv Subtyping.
Local Open Scope Z_scope.

(** ** State *)

(** [val]: a value type, with the validator's marker of a polymorphic operand. *)
Definition unknownValidationBit : Z := Z.shiftl 1 63.
Definition unknown (x : ValType) : bool := has_bit (lo x) unknownValidationBit.
Definition unknownVal : ValType := mkWord unknownValidationBit 0.

Definition nonNullValidationType (x : ValType) : ValType :=
  if unknown x then RefVal (Ref false (mkWord heapBottom 0) false)
  else RefVal (RefType_WithNullable (ValType_Ref x) false).

Inductive ctrlKind : Set := ctrlFunc | ctrlBlock | ctrlLoop | ctrlIf | ctrlTry.

#[export] Instance ctrlKind_eq_dec : EqDecision ctrlKind.
Proof. solve_decision. Defined.

Record ctrlFrame : Set := {
  fin : list ValType;
  fout : list ValType;
  height : nat;
  initHeight : nat;
  ifThenHeight : nat;
  fepoch : Z;
  fkind : ctrlKind;
  funreachable : bool;
  ifSeenElse : bool
}.

Record fvState : Type := {
  vals : list ValType;
  ctrls : list ctrlFrame;
  lookup : localLookup;
  initializedLocals : gset Z;
  localInitLog : list Z;
  branchTableEpoch : Z
}.

(** The fields of [funcValidator] a body does not change. *)
Record fenv : Set := {
  fmv : moduleValidator;
  funcIndex : Z;
  constOnly : bool;
  constGlobalLimit : Z
}.

Definition V (A : Type) : Type := M fvState error A.

Definition set_vals (l : list ValType) (s : fvState) : fvState :=
  {| vals := l; ctrls := ctrls s; lookup := lookup s; initializedLocals := initializedLocals s;
     localInitLog := localInitLog s; branchTableEpoch := branchTableEpoch s |}.
Definition set_ctrls (l : list ctrlFrame) (s : fvState) : fvState :=
  {| vals := vals s; ctrls := l; lookup := lookup s; initializedLocals := initializedLocals s;
     localInitLog := localInitLog s; branchTableEpoch := branchTableEpoch s |}.
Definition set_lookup (l : localLookup) (s : fvState) : fvState :=
  {| vals := vals s; ctrls := ctrls s; lookup := l; initializedLocals := initializedLocals s;
     localInitLog := localInitLog s; branchTableEpoch := branchTableEpoch s |}.
Definition set_init (i : gset Z) (l : list Z) (s : fvState) : fvState :=
  {| vals := vals s; ctrls := ctrls s; lookup := lookup s; initializedLocals := i;
     localInitLog := l; branchTableEpoch := branchTableEpoch s |}.
Definition set_epoch (e : Z) (s : fvState) : fvState :=
  {| vals := vals s; ctrls := ctrls s; lookup := lookup s; initializedLocals := initializedLocals s;
     localInitLog := localInitLog s; branchTableEpoch := e |}.

Definition with_unreachable (f : ctrlFrame) : ctrlFrame :=
  {| fin := fin f; fout := fout f; height := height f; initHeight := initHeight f;
     ifThenHeight := ifThenHeight f; fepoch := fepoch f; fkind := fkind f; funreachable := true;
     ifSeenElse := ifSeenElse f |}.
Definition with_epoch (e : Z) (f : ctrlFrame) : ctrlFrame :=
  {| fin := fin f; fout := fout f; height := height f; initHeight := initHeight f;
     ifThenHeight := ifThenHeight f; fepoch := e; fkind := fkind f; funreachable := funreachable f;
     ifSeenElse := ifSeenElse f |}.

(** [if err := ...; err != nil { return err }] *)
Definition check (e : gerror) : V unit := match e with Some e => fail e | None => ret tt end.

(** [xs[:n]], which the source only takes below the length. *)
Definition truncate {A} (n : nat) (l : list A) : option (list A) :=
  if (n <=? length l)%nat then Some (drop (length l - n) l) else None.

Module fv.
Section Primitives.
Context (e : fenv).

Definition verr {A} (c : ValidationErrorCode) : V A := fail (validation_error c (funcIndex e)).

(** ** Operands *)

Definition top : V ctrlFrame :=
  let! s := get in match ctrls s with [] => panic | f :: _ => ret f end.

Definition push (t : ValType) : V unit := modify (fun s => set_vals (t :: vals s) s).

Fixpoint pushAll (ts : list ValType) : V unit :=
  match ts with [] => ret tt | t :: rest => push t ;;; pushAll rest end.

Definition pop : V ValType :=
  let! f := top in
  let! s := get in
  if (length (vals s) =? height f)%nat then
    if funreachable f then ret unknownVal else verr ErrTypeMismatch
  else
    match vals s with
    | [] => panic
    | x :: rest => put (set_vals rest s) ;;; ret x
    end.

Definition popExpect (t : ValType) : V unit :=
  let! x := pop in
  if negb (unknown x) && negb (mt.subtype (fmv e) x t) then verr ErrTypeMismatch else ret tt.

(** From the last type to the first. *)
Definition popAll (ts : list ValType) : V unit := forM (rev ts) popExpect.

(** [v.vals = v.vals[:n]] *)
Definition truncateVals (n : nat) : V unit :=
  let! s := get in
  match truncate n (vals s) with Some l => put (set_vals l s) | None => panic end.

Definition unreachable : V unit :=
  let! f := top in
  truncateVals (height f) ;;;
  modify (fun s => match ctrls s with
                   | [] => s
                   | f :: rest => set_ctrls (with_unreachable f :: rest) s
                   end).

(** ** Locals *)

Definition resetLocalInitialization : V unit := modify (set_init ∅ []).

Definition localType (idx : Z) : V (option ValType) :=
  let! s := get in
  let (t, l) := Module.localType (lookup s) idx in
  put (set_lookup l s) ;;; ret t.

(** A local that has a value at function entry. *)
Definition defaulted (s : fvState) (idx : Z) (t : ValType) : bool :=
  (idx <? Z.of_nat (length (localParams (lookup s)))) || negb (ValType_Kind t =? ValRef)
  || RefType_Nullable (ValType_Ref t).

Definition localIsInitialized (idx : Z) (t : ValType) : V bool :=
  let! s := get in
  ret (defaulted s idx t || bool_decide (idx ∈ initializedLocals s)).

Definition initializeLocal (idx : Z) (t : ValType) : V unit :=
  modify (fun s =>
    if defaulted s idx t then s
    else if decide (idx ∈ initializedLocals s) then s
    else set_init ({[idx]} ∪ initializedLocals s) (idx :: localInitLog s) s).

(** The loop of [restoreLocalInitialization] on the log, last entry first. *)
Fixpoint restore_log (height : nat) (log : list Z) (init : gset Z) : gset Z * list Z :=
  match log with
  | [] => (init, [])
  | x :: rest =>
      if (height <? length log)%nat then restore_log height rest (init ∖ {[x]}) else (init, log)
  end.

Definition restoreLocalInitialization (height : nat) : V unit :=
  modify (fun s =>
    let (init, log) := restore_log height (localInitLog s) (initializedLocals s) in set_init init log s).

(** ** Control *)

Definition pushCtrl (k : ctrlKind) (ins outs : list ValType) : V unit :=
  popAll ins ;;;
  modify (fun s => set_ctrls
    ({| fin := ins; fout := outs; height := length (vals s); initHeight := length (localInitLog s);
        ifThenHeight := 0; fepoch := 0; fkind := k; funreachable := false; ifSeenElse := false |}
     :: ctrls s) s) ;;;
  pushAll ins.

Definition popCtrl : V ctrlFrame :=
  let! s := get in
  match ctrls s with
  | [] => verr ErrTypeMismatch
  | f :: _ =>
      popAll (fout f) ;;;
      let! s := get in
      if negb (length (vals s) =? height f)%nat then verr ErrTypeMismatch
      else
        restoreLocalInitialization (initHeight f) ;;;
        modify (fun s => set_ctrls (tail (ctrls s)) s) ;;;
        pushAll (fout f) ;;;
        ret f
  end.

Definition label (depth : Z) : V (list ValType) :=
  let! s := get in
  if Z.of_nat (length (ctrls s)) <=? depth then verr ErrUnknownLabel
  else
    match ctrls s !! Z.to_nat depth with
    | Some f => ret (if bool_decide (fkind f = ctrlLoop) then fin f else fout f)
    | None => panic
    end.

(** [v.ctrls[0]], the frame of the function. *)
Definition outermost : V ctrlFrame :=
  let! s := get in match last (ctrls s) with Some f => ret f | None => panic end.

(** One shared slice per scalar type, a fresh one for a reference. *)
Definition singleValTypeSlice (t : ValType) : list ValType :=
  if ValType_Kind t =? ValNum then
    if ValType_Num t =? NumI32 then [I32]
    else if ValType_Num t =? NumI64 then [I64]
    else if ValType_Num t =? NumF32 then [F32]
    else if ValType_Num t =? NumF64 then [F64]
    else [t]
  else if ValType_Kind t =? ValVec then [V128]
  else [t].

Definition blockSig (bt : BlockType) : V (list ValType * list ValType) :=
  if BKind bt =? BlockVoid then ret ([], [])
  else if BKind bt =? BlockVal then
    check (mt.validateValType (fmv e) (BVal bt)) ;;; ret ([], singleValTypeSlice (BVal bt))
  else if BKind bt =? BlockTypeIndex then
    match mt.funcTypeFromTypeIdx (fmv e) (BType bt) with
    | Some ft => ret (Params ft, Results ft)
    | None => verr ErrUnknownType
    end
  else verr ErrUnknownType.

(** ** Branch tables *)

Definition beginBranchTable : V unit :=
  modify (fun s =>
    let epoch := to_u32 (branchTableEpoch s + 1) in
    if epoch =? 0 then set_epoch 1 (set_ctrls (map (with_epoch 0) (ctrls s)) s)
    else set_epoch epoch s).

Definition markBranchTableLabel (l : Z) : V bool :=
  let! s := get in
  match ctrls s !! Z.to_nat l with
  | None => panic
  | Some f =>
      put (set_ctrls (<[Z.to_nat l := with_epoch (branchTableEpoch s) f]> (ctrls s)) s) ;;;
      ret (negb (fepoch f =? branchTableEpoch s))
  end.

End Primitives.
End fv.
