(* ===== verification/Step.v ===== *)
(** * One instruction (validate_ops.go, validate_proposal.go)

    [step] checks a decoded instruction against the stacks.  [stepNode] is the body
    of the source's [step] with the checks of the nested bodies as arguments, and
    [step] ties the knot over the instruction tree. *)

From stdpp Require Import base tactics numbers list gmap.
From Stdlib Require Import ZArith Lia.
From S2P Require Import Prelude Reader Types Decode Kinds Instr Module ModuleDecode TypeEquiv Subtyping.
From S2P Require Import Effects Validator.
Local Open Scope Z_scope.

(** [case k1, k2, ...:] *)
Definition kind_in (k : Z) (l : list Z) : bool := existsb (Z.eqb k) l.

(** ** Index spaces (validate.go, validate_import_index.go) *)

Module ms.
Section Spaces.
Context (v : moduleValidator).

(** The positions of the imports of a kind, in order. *)
Fixpoint import_positions (i : Z) (kind : Z) (imports : list Import) : list Z :=
  match imports with
  | [] => []
  | im :: rest =>
      if import_kind im =? kind then to_u32 i :: import_positions (i + 1) kind rest
      else import_positions (i + 1) kind rest
  end.

Definition importsOfKind (kind : Z) : list Z := import_positions 0 kind (Imports (vm v)).

(** The shape of the lookups below: an import of the kind, then a definition. *)
Definition imported_or {A} (kind : Z) (of_import : ExternType -> A) (defined : list A) (idx : Z)
  : option A :=
  let indexes := importsOfKind kind in
  let n := to_u32 (Z.of_nat (length indexes)) in
  if idx <? n then
    match indexes !! Z.to_nat idx with
    | Some i => (fun im => of_import (IType im)) <$> Imports (vm v) !! Z.to_nat i
    | None => None
    end
  else
    let local := to_u32 (idx - n) in
    if Z.of_nat (length defined) <=? local then None else defined !! Z.to_nat local.

Definition funcType (idx : Z) : option CompType :=
  match imported_or ExternFunc ExternType_FuncType (FuncTypes (vm v)) idx with
  | Some t => mt.funcTypeFromTypeIdx v t
  | None => None
  end.

Definition tagFuncType (idx : Z) : option CompType :=
  match imported_or ExternTag ExternType_TagType (Tags (vm v)) idx with
  | Some t => mt.funcTypeFromTypeIdx v (TagIdx_ t)
  | None => None
  end.

Definition tableType (idx : Z) : option TableType :=
  imported_or ExternTable ExternType_TableType (map TType (Tables (vm v))) idx.

Definition globalProperties (idx : Z) : option (ValType * bool) :=
  imported_or ExternGlobal (fun et => (evalue et, has_bit (eflags et) externTypeMutable))
    (map (fun g => (GType (GTy g), Mutable (GTy g))) (Globals (vm v))) idx.

Definition memFlags (mt : MemType) : Z :=
  set_if (Shared mt) externTypeShared (set_if (Addr64 (MLimits mt)) externTypeAddr64 0).

Definition memoryProperties (idx : Z) : option Z :=
  imported_or ExternMem eflags (map memFlags (Memories (vm v))) idx.

Definition isDeclaredFunc (idx : Z) : bool :=
  match declaredFuncBits v !! Z.to_nat (idx / 64) with
  | Some word => has_bit word (Z.shiftl 1 (idx mod 64))
  | None => false
  end.

(** [elemRefType] and [directElemRefType]: the type, or the error code. *)
Definition elemRefType (index : Z) : RefType + ValidationErrorCode :=
  let entry :=
    match vdirect v with
    | Some d => (fun e => (deKind e, deRef e)) <$> elements d !! Z.to_nat index
    | None => (fun e => (EKKind (EElems e), EKRef (EElems e))) <$> Elements (vm v) !! Z.to_nat index
    end in
  match entry with
  | None => inr ErrUnknownTable
  | Some (k, r) =>
      if (k =? ElemFuncs) || (k =? ElemFuncExprs) then inl (ValType_Ref FuncRef)
      else if k =? ElemTypedExprs then inl r
      else inr ErrTypeMismatch
  end.

Definition elemCount : Z :=
  Z.of_nat (match vdirect v with Some d => length (elements d) | None => length (Elements (vm v)) end).

End Spaces.
End ms.

Definition ref_to (nullable : bool) (index : Z) (exact : bool) : ValType :=
  RefVal (Ref nullable (IndexedHeap {| Index := index; Rec := false |}) exact).

Definition packedFieldGet (k : Z) : bool :=
  kind_in k [InstrStructGetS; InstrStructGetU; InstrStructAtomicGetS; InstrStructAtomicGetU;
             InstrArrayGetS; InstrArrayGetU].

Definition isConstInstruction (k : Z) : bool :=
  kind_in k [InstrI32Const; InstrI64Const; InstrF32Const; InstrF64Const; InstrV128Const; InstrRefNull;
    InstrRefFunc; InstrGlobalGet; InstrI32Add; InstrI32Sub; InstrI32Mul; InstrI64Add; InstrI64Sub;
    InstrI64Mul; InstrStructNewDefault; InstrArrayNewFixed; InstrStringConst].

Definition gcConstKinds : list Z :=
  [InstrStructNew; InstrArrayNew; InstrArrayNewDefault; InstrRefI31; InstrAnyConvertExtern;
   InstrExternConvertAny].

Definition isImplicitSelectType (t : ValType) : bool :=
  (ValType_Kind t =? ValNum) || (ValType_Kind t =? ValVec).

Definition minAddrType (a b : ValType) : ValType :=
  if equalValType a I32 || equalValType b I32 then I32 else I64.

Definition memArgOf (mem : Z) : MemArg := {| Align := 0; Mem := Some mem; MOffset := 0 |}.

Module fs.
Section Step.
Context (e : fenv).
Local Abbreviation v := (fmv e).
Local Abbreviation verr := (fv.verr e).
Local Abbreviation pop := (fv.pop e).
Local Abbreviation popExpect := (fv.popExpect e).
Local Abbreviation popAll := (fv.popAll e).
Local Abbreviation push := fv.push.
Local Abbreviation pushAll := fv.pushAll.

(** Some value, or the error. *)
Definition get_or {A} (o : option A) (c : ValidationErrorCode) : V A :=
  match o with Some a => ret a | None => verr c end.

Definition require (b : bool) (c : ValidationErrorCode) : V unit :=
  if b then ret tt else verr c.

(** ** Memory and tables *)

Definition checkMemArg (ma : MemArg) (natural : Z) : V ValType :=
  let idx := match Mem ma with Some i => i | None => 0 end in
  let! flags := get_or (ms.memoryProperties v idx) ErrUnknownMemory in
  if natural <? Align ma then verr ErrInvalidAlignment
  else if has_bit flags externTypeAddr64 then ret I64
  else if 2 ^ 32 - 1 <? MOffset ma then verr ErrInvalidAlignment
  else ret I32.

Definition checkAtomicMemArg (ma : MemArg) (natural : Z) : V ValType :=
  let! addr := checkMemArg ma natural in
  require (Align ma =? natural) ErrInvalidAlignment ;;; ret addr.

Definition checkMem (align : Z) : V unit :=
  checkMemArg {| Align := align; Mem := None; MOffset := 0 |} align ;;; ret tt.

Definition checkDataIndex (idx : Z) : V unit :=
  match DataCount (vm v) with
  | Some n => require (negb ((n <=? idx) || (Z.of_nat (length (Data_ (vm v))) <=? idx))) ErrInvalidDataCount
  | None => verr ErrInvalidDataCount
  end.

Definition tableAddrType (idx : Z) : V (ValType * TableType) :=
  let! tbl := get_or (ms.tableType v idx) ErrUnknownTable in ret (TableAddrType tbl, tbl).

Definition elemRefType (index : Z) : V RefType :=
  match ms.elemRefType v index with inl r => ret r | inr c => verr c end.

(** A value that is unknown or satisfies a test. *)
Definition known_is (x : ValType) (b : bool) : bool := unknown x || b.

Definition isRef (x : ValType) : bool := ValType_Kind x =? ValRef.

(** ** Branches and locals *)

Definition stepLocalIndex (kind index : Z) : V unit :=
  let! o := fv.localType index in
  let! typ := get_or o ErrUnknownLocal in
  if kind =? InstrLocalGet then
    let! b := fv.localIsInitialized index typ in
    if negb b then verr ErrUninitializedLocal else push typ
  else
    popExpect typ ;;;
    fv.initializeLocal index typ ;;;
    (if kind =? InstrLocalTee then push typ else ret tt).

Definition stepBranch (kind index : Z) : V unit :=
  (if kind =? InstrBrIf then popExpect I32 else ret tt) ;;;
  let! types := fv.label e index in
  popAll types ;;;
  (if kind =? InstrBr then fv.unreachable else pushAll types).

(** One target of [br_table].  [v.vals[:payloadHeight]] slices the values the
    check popped back in: popping never writes to the array. *)
Definition stepTarget (dt : list ValType) (l : Z) : V unit :=
  let! lt := fv.label e l in
  let! fresh := fv.markBranchTableLabel l in
  if negb fresh then ret tt
  else if negb (length lt =? length dt)%nat then verr ErrTypeMismatch
  else
    let! payload := get in
    popAll lt ;;;
    modify (set_vals (vals payload)).

Definition stepBrTable (p : payload) : V unit :=
  popExpect I32 ;;;
  let! dt := fv.label e (IIndex p) in
  fv.beginBranchTable ;;;
  fv.markBranchTableLabel (IIndex p) ;;;
  forM (IIndices p) (stepTarget dt) ;;;
  popAll dt ;;;
  fv.unreachable.

(** The end of a call: results pushed, or matched with those of the function. *)
Definition returnOrPush (isReturn : bool) (results : list ValType) : V unit :=
  if isReturn then
    let! f := fv.outermost in
    require (mt.matchValTypes v results (fout f)) ErrTypeMismatch ;;;
    fv.unreachable
  else pushAll results.

Definition stepCall (kind index : Z) : V unit :=
  let! ft := get_or (ms.funcType v index) ErrUnknownFunc in
  popAll (Params ft) ;;;
  returnOrPush (kind =? InstrReturnCall) (Results ft).

Definition stepCallIndirect (p : payload) : V unit :=
  let! ft := get_or (mt.funcTypeFromTypeIdx v {| Index := IIndex p; Rec := false |}) ErrUnknownType in
  let! tbl := get_or (ms.tableType v (IIndex2 p)) ErrUnknownTable in
  require (mt.refSubtype v (TRef tbl) (AbsRef HeapFunc)) ErrTypeMismatch ;;;
  popExpect (if Addr64 (TLimits tbl) then I64 else I32) ;;;
  popAll (Params ft) ;;;
  returnOrPush (IKind p =? InstrReturnCallIndirect) (Results ft).

Definition stepSelect (p : payload) : V unit :=
  require (negb (ITyped p && negb (length (IValTypes p) =? 1)%nat)) ErrTypeMismatch ;;;
  popExpect I32 ;;;
  match ITyped p, IValTypes p with
  | true, t :: _ => popExpect t ;;; popExpect t ;;; push t
  | true, [] => panic
  | false, _ =>
      let! a := pop in
      let! b := pop in
      require (known_is a (isImplicitSelectType a) && known_is b (isImplicitSelectType b)) ErrTypeMismatch ;;;
      require (known_is a (known_is b (equalValType a b))) ErrTypeMismatch ;;;
      push (if unknown a then b else a)
  end.

(** ** Structured instructions *)

Definition stepBlock (k : ctrlKind) (bt : BlockType) (body : V unit) : V unit :=
  let! sig := fv.blockSig e bt in
  fv.pushCtrl e k (fst sig) (snd sig) ;;;
  body ;;;
  fv.popCtrl e ;;; ret tt.

Definition stepIf (bt : BlockType) (thn els : V unit) (hasElse : bool) : V unit :=
  let! sig := fv.blockSig e bt in
  let (ins, outs) := sig in
  popExpect I32 ;;;
  let! base := get in
  fv.pushCtrl e ctrlIf ins outs ;;;
  thn ;;;
  fv.popCtrl e ;;;
  let! after := get in
  modify (fun s => set_ctrls (ctrls base) (set_vals (vals base) s)) ;;;
  (if hasElse then
     fv.pushCtrl e ctrlIf ins outs ;;; els ;;; fv.popCtrl e ;;; ret tt
   else require (mt.matchValTypes v ins outs) ErrTypeMismatch) ;;;
  let! s := get in
  require (negb (hasElse && negb (length (vals s) =? length (vals after))%nat)) ErrTypeMismatch ;;;
  modify (set_vals (vals after)).

(** ** Exceptions and typed calls (validate_proposal.go) *)

Definition stepThrow (p : payload) : V unit :=
  let! ft := get_or (ms.tagFuncType v (IIndex p)) ErrUnknownTag in
  popAll (Params ft) ;;; fv.unreachable.

Definition stepCallRef (p : payload) : V unit :=
  let! ft := get_or (mt.funcTypeFromTypeIdx v {| Index := IIndex p; Rec := false |}) ErrUnknownType in
  let! callee := pop in
  require (known_is callee (mt.subtype v callee (ref_to true (IIndex p) false))) ErrTypeMismatch ;;;
  popAll (Params ft) ;;;
  returnOrPush (IKind p =? InstrReturnCallRef) (Results ft).

Definition validateCatchPayload (c : Catch) : V unit :=
  let! lt := fv.label e (CLabel c) in
  let hasTag := (CatchKind c =? CatchTag) || (CatchKind c =? CatchRef) in
  let! params :=
    (if hasTag then
       require (negb (Z.of_nat (length (ms.importsOfKind v ExternTag) + length (Tags (vm v))) <=? CTag c))
         ErrUnknownTag ;;;
       let! ft := get_or (ms.tagFuncType v (CTag c)) ErrUnknownTag in ret (Params ft)
     else ret []) in
  let hasRef := (CatchKind c =? CatchRef) || (CatchKind c =? CatchAllRef) in
  require (negb ((CatchKind c =? CatchAll) && negb (length lt =? 0)%nat)) ErrTypeMismatch ;;;
  require (length params + (if hasRef then 1 else 0) =? length lt)%nat ErrTypeMismatch ;;;
  require (equal_all (mt.subtype v) params lt) ErrTypeMismatch ;;;
  if hasRef then
    match lt !! length params with
    | Some t => require (mt.subtype v (RefVal (Ref false (AbsHeap HeapExn) false)) t) ErrTypeMismatch
    | None => panic
    end
  else ret tt.

Definition stepTryTable (bt : BlockType) (catches : list Catch) (body : V unit) : V unit :=
  let! sig := fv.blockSig e bt in
  forM catches validateCatchPayload ;;;
  fv.pushCtrl e ctrlTry (fst sig) (snd sig) ;;;
  body ;;;
  fv.popCtrl e ;;; ret tt.

(** ** Atomics *)

Definition stepAtomic (p : payload) : V unit :=
  let k := IKind p in
  if k =? InstrAtomicFence then ret tt
  else if k =? InstrMemoryAtomicNotify then
    let! addr := checkAtomicMemArg (IMemArg p) 2 in
    popExpect I32 ;;; popExpect addr ;;; push I32
  else if (k =? InstrMemoryAtomicWait32) || (k =? InstrMemoryAtomicWait64) then
    let! addr := checkAtomicMemArg (IMemArg p) (if k =? InstrMemoryAtomicWait64 then 3 else 2) in
    popExpect I64 ;;;
    popExpect (if k =? InstrMemoryAtomicWait64 then I64 else I32) ;;;
    popExpect addr ;;; push I32
  else
    match lookupAtomicEffect atomicLoadEffects InstrI32AtomicLoad k with
    | Some eff =>
        let! addr := checkAtomicMemArg (IMemArg p) (aalign eff) in
        popExpect addr ;;; push (valType (atyp eff))
    | None =>
        match lookupAtomicEffect atomicLoadEffects InstrI32AtomicStore k with
        | Some eff =>
            let! addr := checkAtomicMemArg (IMemArg p) (aalign eff) in
            popExpect (valType (atyp eff)) ;;; popExpect addr
        | None =>
            if k =? InstrAtomicRmw then
              let eff := atomicRmwEffect (IAtomicOp p) in
              let! addr := checkAtomicMemArg (IMemArg p) (aalign eff) in
              popExpect (valType (atyp eff)) ;;; popExpect addr ;;; push (valType (atyp eff))
            else if k =? InstrAtomicCmpxchg then
              let eff := atomicCmpxchgEffect (IAtomicOp p) in
              let! addr := checkAtomicMemArg (IMemArg p) (aalign eff) in
              popExpect (valType (atyp eff)) ;;; popExpect (valType (atyp eff)) ;;;
              popExpect addr ;;; push (valType (atyp eff))
            else verr ErrUnsupportedValidationOpcode
        end
    end.

(** ** Garbage-collected objects *)

(** The descriptor of a struct type, as an absolute index. *)
Definition descriptorOf (st : SubType) (recGroup : Z) (missing : ValidationErrorCode) : V Z :=
  let (descriptor, present) := OptionalTypeIdx_Get (Descriptor (Metadata st)) in
  if negb present then verr missing
  else get_or (mv.flatTypeIdxInRecGroup (vm v) descriptor recGroup) ErrUnknownType.

Definition at_idx (p : payload) : TypeIdx := {| Index := IIndex p; Rec := false |}.

Definition stepStructNew (p : payload) : V unit :=
  let k := IKind p in
  let! r := get_or (mt.structFields v (at_idx p)) ErrUnknownType in
  let '(fields, st, recGroup) := r in
  require (negb (kind_in k [InstrStructNew; InstrStructNewDefault]
                 && OptionalTypeIdx_Present (Descriptor (Metadata st)))) ErrTypeMismatch ;;;
  (if kind_in k [InstrStructNewDefault; InstrStructNewDefaultDesc] then
     require (forallb (fun f => StorageType_Packed (FieldType_Storage f)
                                || mt.valTypeDefaultable (mt.storageValType (FieldType_Storage f))) fields)
       ErrTypeMismatch
   else popAll (map (fun f => mt.storageValType (FieldType_Storage f)) fields)) ;;;
  (if kind_in k [InstrStructNewDesc; InstrStructNewDefaultDesc] then
     let! descriptorFlat := descriptorOf st recGroup ErrTypeMismatch in
     popExpect (ref_to false (to_u32 descriptorFlat) true)
   else ret tt) ;;;
  push (ref_to false (IIndex p) false).

(** [for range n { if err := v.popExpect(t) ... }] *)
Definition popN (n : nat) (t : ValType) : V unit := forM (replicate n tt) (fun _ => popExpect t).

Definition stepArrayNew (p : payload) : V unit :=
  let k := IKind p in
  let! r := get_or (mt.arrayField v (at_idx p)) ErrUnknownType in
  let f := fst r in
  let storage := FieldType_Storage f in
  let elem := mt.storageValType storage in
  (if k =? InstrArrayNew then popExpect I32 ;;; popExpect elem
   else if k =? InstrArrayNewDefault then
     require (StorageType_Packed storage || mt.valTypeDefaultable elem) ErrTypeMismatch ;;;
     popExpect I32
   else if k =? InstrArrayNewFixed then
     let! f := fv.top in
     let! s := get in
     let available := Z.of_nat (length (vals s)) - Z.of_nat (height f) in
     if (to_u64 available <? IIndex2 p) && negb (funreachable f) then verr ErrTypeMismatch
     else popN (Z.to_nat (if IIndex2 p <? to_u64 available then IIndex2 p else available)) elem
   else if k =? InstrArrayNewData then
     require (negb (negb (StorageType_Packed storage) && isRef (StorageType_Val storage))) ErrTypeMismatch ;;;
     checkDataIndex (IIndex2 p) ;;;
     popExpect I32 ;;; popExpect I32
   else if k =? InstrArrayNewElem then
     require (negb (StorageType_Packed storage || negb (isRef (StorageType_Val storage)))) ErrTypeMismatch ;;;
     let! elemRef := elemRefType (IIndex2 p) in
     require (mt.refSubtype v elemRef (ValType_Ref (StorageType_Val storage))) ErrTypeMismatch ;;;
     popExpect I32 ;;; popExpect I32
   else ret tt) ;;;
  push (ref_to false (IIndex p) false).

Definition stepBrOnCast (p : payload) : V unit :=
  let! lt := fv.label e (IIndex p) in
  match last lt with
  | None => verr ErrTypeMismatch
  | Some labelRef =>
      require (isRef labelRef) ErrTypeMismatch ;;;
      let rt1 := Ref (SourceNullable (ICast p)) (IHeapType p) false in
      let rt2 := Ref (TargetNullable (ICast p)) (IHeapType2 p) false in
      require (mt.refSubtype v rt2 rt1) ErrTypeMismatch ;;;
      let! x := pop in
      require (known_is x (isRef x && mt.refSubtype v (ValType_Ref x) rt1)) ErrTypeMismatch ;;;
      let failed := if RefType_Nullable rt2 then RefType_WithNullable rt1 false else rt1 in
      let prefix := removelast lt in
      if IKind p =? InstrBrOnCastFail then
        require (mt.subtype v (RefVal failed) labelRef) ErrTypeMismatch ;;;
        popAll prefix ;;; pushAll prefix ;;; push (RefVal rt2)
      else
        require (mt.subtype v (RefVal rt2) labelRef) ErrTypeMismatch ;;;
        popAll prefix ;;; pushAll prefix ;;; push (RefVal failed)
  end.

Definition stepConvert (p : payload) : V unit :=
  let operand := if IKind p =? InstrExternConvertAny then AnyRef else ExternRef in
  let result := if IKind p =? InstrExternConvertAny then ExternRef else AnyRef in
  let! x := pop in
  require (known_is x (mt.subtype v x operand)) ErrTypeMismatch ;;;
  push (RefVal (RefType_WithNullable (ValType_Ref result)
                  (negb (unknown x) && RefType_Nullable (ValType_Ref x)))).

Definition stepRefTest (p : payload) : V unit :=
  let! x := pop in
  require (known_is x (isRef x)) ErrTypeMismatch ;;;
  let! target := get_or (mt.descriptorTargetRefType v (TargetNullable (ICast p)) (IHeapType p) false)
                   ErrUnknownType in
  require (known_is x
    (if IKind p =? InstrRefTestDesc then mt.descriptorCompatible v (ValType_Ref x) (ValType_Ref target)
     else mt.refTestCompatible v (ValType_Ref x) (ValType_Ref target))) ErrTypeMismatch ;;;
  push I32.

Definition stepRefCast (p : payload) : V unit :=
  let ht := IHeapType p in
  let exact := SourceNullable (ICast p) in
  let! target := get_or (mt.descriptorTargetRefType v (TargetNullable (ICast p)) ht exact) ErrUnknownType in
  (if IKind p =? InstrRefCastDescEq then
     require (HeapType_Kind ht =? HeapTypeIndex) ErrTypeMismatch ;;;
     let! r := get_or (mv.subtypeByTypeIdxWithRecGroup (vm v) (HeapType_Type ht)) ErrUnknownType in
     let (st, recGroup) := r in
     require (CKind (Comp st) =? CompStruct) ErrTypeMismatch ;;;
     let! descriptorFlat := descriptorOf st recGroup ErrTypeMismatch in
     popExpect (ref_to true (to_u32 descriptorFlat) exact)
   else ret tt) ;;;
  let! x := pop in
  require (known_is x (isRef x)) ErrTypeMismatch ;;;
  require (known_is x
    (if IKind p =? InstrRefCastDescEq then mt.descriptorCompatible v (ValType_Ref x) (ValType_Ref target)
     else mt.refTestCompatible v (ValType_Ref x) (ValType_Ref target))) ErrTypeMismatch ;;;
  push target.

Definition stepRefGetDesc (p : payload) : V unit :=
  let! r := get_or (mt.structFields v (at_idx p)) ErrUnknownType in
  let '(_, st, recGroup) := r in
  let! descriptorFlat := descriptorOf st recGroup ErrTypeMismatch in
  let! x := pop in
  require (known_is x (isRef x)) ErrTypeMismatch ;;;
  require (known_is x (mt.refSubtype v (ValType_Ref x) (ValType_Ref (ref_to true (IIndex p) false))))
    ErrTypeMismatch ;;;
  push (ref_to false (to_u32 descriptorFlat) true).

Definition stepStructGet (p : payload) : V unit :=
  let! r := get_or (mt.structFields v (at_idx p)) ErrUnknownType in
  let '(fields, _, _) := r in
  let! f := get_or (fields !! Z.to_nat (IIndex2 p)) ErrTypeMismatch in
  require (Bool.eqb (StorageType_Packed (FieldType_Storage f)) (packedFieldGet (IKind p))) ErrTypeMismatch ;;;
  popExpect (ref_to true (IIndex p) false) ;;;
  push (mt.storageValType (FieldType_Storage f)).

Definition stepStructSet (p : payload) : V unit :=
  let! r := get_or (mt.structFields v (at_idx p)) ErrUnknownType in
  let '(fields, _, _) := r in
  let! f := get_or (fields !! Z.to_nat (IIndex2 p)) ErrTypeMismatch in
  require (FieldType_Mut f =? Var) ErrTypeMismatch ;;;
  popExpect (mt.storageValType (FieldType_Storage f)) ;;;
  popExpect (ref_to true (IIndex p) false).

Definition stepArrayGet (p : payload) : V unit :=
  let! r := get_or (mt.arrayField v (at_idx p)) ErrUnknownType in
  let f := fst r in
  require (Bool.eqb (StorageType_Packed (FieldType_Storage f)) (packedFieldGet (IKind p))) ErrTypeMismatch ;;;
  popExpect I32 ;;;
  popExpect (ref_to true (IIndex p) false) ;;;
  push (mt.storageValType (FieldType_Storage f)).

(** The field of a mutable array type. *)
Definition mutableArray (p : payload) : V FieldType :=
  let! r := get_or (mt.arrayField v (at_idx p)) ErrUnknownType in
  require (FieldType_Mut (fst r) =? Var) ErrTypeMismatch ;;; ret (fst r).

Definition stepArraySet (p : payload) : V unit :=
  let! f := mutableArray p in
  popExpect (mt.storageValType (FieldType_Storage f)) ;;;
  popExpect I32 ;;;
  popExpect (ref_to true (IIndex p) false).

Definition stepArrayLen : V unit :=
  let! x := pop in
  require (known_is x (isRef x && mt.heapSubtype v (RefType_Heap (ValType_Ref x)) (AbsHeap HeapArray)))
    ErrTypeMismatch ;;;
  push I32.

Definition stepArrayFill (p : payload) : V unit :=
  let! f := mutableArray p in
  popExpect I32 ;;;
  popExpect (mt.storageValType (FieldType_Storage f)) ;;;
  popExpect I32 ;;;
  popExpect (ref_to true (IIndex p) false).

Definition stepArrayCopy (p : payload) : V unit :=
  match mt.arrayField v (at_idx p), mt.arrayField v {| Index := IIndex2 p; Rec := false |} with
  | Some (dst, _), Some (src, _) =>
      require (FieldType_Mut dst =? Var) ErrTypeMismatch ;;;
      let ds := FieldType_Storage dst in
      let ss := FieldType_Storage src in
      require (if StorageType_Packed ds || StorageType_Packed ss
               then StorageType_Packed ds && StorageType_Packed ss && (StorageType_Pack ds =? StorageType_Pack ss)
               else mt.subtype v (StorageType_Val ss) (StorageType_Val ds)) ErrTypeMismatch ;;;
      popExpect I32 ;;;
      popExpect I32 ;;;
      popExpect (ref_to true (IIndex2 p) false) ;;;
      popExpect I32 ;;;
      popExpect (ref_to true (IIndex p) false)
  | _, _ => verr ErrUnknownType
  end.

Definition stepArrayInitData (p : payload) : V unit :=
  let! f := mutableArray p in
  let storage := FieldType_Storage f in
  require (negb (negb (StorageType_Packed storage) && isRef (StorageType_Val storage))) ErrTypeMismatch ;;;
  checkDataIndex (IIndex2 p) ;;;
  popN 3 I32 ;;;
  popExpect (ref_to true (IIndex p) false).

Definition stepArrayInitElem (p : payload) : V unit :=
  let! f := mutableArray p in
  let storage := FieldType_Storage f in
  require (negb (StorageType_Packed storage || negb (isRef (StorageType_Val storage)))) ErrTypeMismatch ;;;
  let! elemRef := elemRefType (IIndex2 p) in
  require (mt.refSubtype v elemRef (ValType_Ref (StorageType_Val storage))) ErrTypeMismatch ;;;
  popN 3 I32 ;;;
  popExpect (ref_to true (IIndex p) false).

Definition structNewKinds : list Z :=
  [InstrStructNew; InstrStructNewDefault; InstrStructNewDesc; InstrStructNewDefaultDesc].
Definition structGetKinds : list Z :=
  [InstrStructGet; InstrStructGetS; InstrStructGetU; InstrStructAtomicGet; InstrStructAtomicGetS;
   InstrStructAtomicGetU].
Definition arrayNewKinds : list Z :=
  [InstrArrayNew; InstrArrayNewDefault; InstrArrayNewFixed; InstrArrayNewData; InstrArrayNewElem].

Definition stepGC (p : payload) : V unit :=
  let k := IKind p in
  if k =? InstrRefI31 then
    popExpect I32 ;;; push (RefVal (Ref false (AbsHeap HeapI31) false))
  else if kind_in k [InstrI31GetS; InstrI31GetU] then popExpect I31Ref ;;; push I32
  else if kind_in k [InstrAnyConvertExtern; InstrExternConvertAny] then stepConvert p
  else if kind_in k [InstrRefTest; InstrRefTestDesc] then stepRefTest p
  else if kind_in k [InstrRefCast; InstrRefCastDescEq] then stepRefCast p
  else if kind_in k [InstrBrOnCast; InstrBrOnCastFail] then stepBrOnCast p
  else if k =? InstrRefGetDesc then stepRefGetDesc p
  else if kind_in k structNewKinds then stepStructNew p
  else if kind_in k structGetKinds then stepStructGet p
  else if k =? InstrStructSet then stepStructSet p
  else if kind_in k arrayNewKinds then stepArrayNew p
  else if kind_in k [InstrArrayGet; InstrArrayGetS; InstrArrayGetU] then stepArrayGet p
  else if k =? InstrArraySet then stepArraySet p
  else if k =? InstrArrayLen then stepArrayLen
  else if k =? InstrArrayFill then stepArrayFill p
  else if k =? InstrArrayCopy then stepArrayCopy p
  else if k =? InstrArrayInitData then stepArrayInitData p
  else if k =? InstrArrayInitElem then stepArrayInitElem p
  else verr ErrUnsupportedValidationOpcode.

(** ** Vectors *)

Definition stepSIMD (p : payload) : V unit :=
  let k := IKind p in
  let eff := simdEffects k in
  require (negb ((k =? InstrI8x16Shuffle) && existsb (fun lane => 32 <=? lane) (ILanes p))) ErrTypeMismatch ;;;
  require (negb (negb (laneLimit eff =? 0) && (laneLimit eff <=? ILane p))) ErrTypeMismatch ;;;
  match scat eff with
  | simdEffLoad =>
      let! addr := checkMemArg (IMemArg p) (salign eff) in popExpect addr ;;; push V128
  | simdEffStore =>
      let! addr := checkMemArg (IMemArg p) 4 in popExpect V128 ;;; popExpect addr
  | simdEffMemLoadLane =>
      let! addr := checkMemArg (IMemArg p) (salign eff) in
      popExpect V128 ;;; popExpect addr ;;; push V128
  | simdEffMemStoreLane =>
      let! addr := checkMemArg (IMemArg p) (salign eff) in popExpect V128 ;;; popExpect addr
  | simdEffSplat => popExpect (valType (scalar eff)) ;;; push V128
  | simdEffExtract => popExpect V128 ;;; push (valType (scalar eff))
  | simdEffReplace => popExpect (valType (scalar eff)) ;;; popExpect V128 ;;; push V128
  | simdEffShift => popExpect I32 ;;; popExpect V128 ;;; push V128
  | simdEffUnary => popExpect V128 ;;; push V128
  | simdEffBinary => popExpect V128 ;;; popExpect V128 ;;; push V128
  | simdEffTernary => popExpect V128 ;;; popExpect V128 ;;; popExpect V128 ;;; push V128
  | simdPopV128PushI32 => popExpect V128 ;;; push I32
  | simdBitselect => popExpect V128 ;;; popExpect V128 ;;; popExpect V128 ;;; push V128
  | simdConst => push V128
  | simdNone => verr ErrUnsupportedValidationOpcode
  end.

Definition wideKinds : list Z := [InstrI64Add128; InstrI64Sub128; InstrI64MulWideS; InstrI64MulWideU].

(** The wide arithmetic instructions, checked in [step] and in [proposalStep]. *)
Definition stepWide (k : Z) : V unit :=
  popN (if kind_in k [InstrI64Add128; InstrI64Sub128] then 4 else 2) I64 ;;; push I64 ;;; push I64.

Definition atomicKinds : list Z :=
  [InstrMemoryAtomicNotify; InstrMemoryAtomicWait32; InstrMemoryAtomicWait64; InstrAtomicFence;
   InstrI32AtomicLoad; InstrI64AtomicLoad; InstrI32AtomicLoad8U; InstrI32AtomicLoad16U;
   InstrI64AtomicLoad8U; InstrI64AtomicLoad16U; InstrI64AtomicLoad32U; InstrI32AtomicStore;
   InstrI64AtomicStore; InstrI32AtomicStore8; InstrI32AtomicStore16; InstrI64AtomicStore8;
   InstrI64AtomicStore16; InstrI64AtomicStore32; InstrAtomicRmw; InstrAtomicCmpxchg].

Definition gcKinds : list Z :=
  [InstrStructNew; InstrStructNewDefault; InstrStructNewDesc; InstrStructNewDefaultDesc;
   InstrStructGet; InstrStructGetS; InstrStructGetU; InstrStructAtomicGet; InstrStructAtomicGetS;
   InstrStructAtomicGetU; InstrStructSet; InstrArrayNew; InstrArrayNewDefault; InstrArrayNewFixed;
   InstrArrayNewData; InstrArrayNewElem; InstrArrayGet; InstrArrayGetS; InstrArrayGetU; InstrArraySet;
   InstrArrayLen; InstrArrayFill; InstrArrayCopy; InstrArrayInitData; InstrArrayInitElem;
   InstrRefGetDesc; InstrRefTest; InstrRefCast; InstrRefTestDesc; InstrRefCastDescEq; InstrBrOnCast;
   InstrBrOnCastFail; InstrAnyConvertExtern; InstrExternConvertAny; InstrRefI31; InstrI31GetS;
   InstrI31GetU].

(** The result tells whether the instruction was handled. *)
Definition proposalStep (p : payload) (body : V unit) : V bool :=
  let k := IKind p in
  if kind_in k wideKinds then stepWide k ;;; ret true
  else if k =? InstrThrow then stepThrow p ;;; ret true
  else if k =? InstrThrowRef then
    popExpect (RefVal (AbsRef HeapExn)) ;;; fv.unreachable ;;; ret true
  else if k =? InstrTryTable then stepTryTable (IBlockType p) (ICatches p) body ;;; ret true
  else if kind_in k [InstrCallRef; InstrReturnCallRef] then stepCallRef p ;;; ret true
  else if kind_in k atomicKinds then stepAtomic p ;;; ret true
  else if kind_in k gcKinds then stepGC p ;;; ret true
  else if IsSIMDValidationInstructionKind k then stepSIMD p ;;; ret true
  else ret false.

(** ** Scalar effects (validate_ops.go) *)

Definition stackEffect (p : payload) : V unit :=
  let k := IKind p in
  let eff := opEffects k in
  let a := valType (ea eff) in
  match cat eff with
  | effUnary => popExpect a ;;; push a
  | effBinary => popExpect a ;;; popExpect a ;;; push a
  | effCompare => popExpect a ;;; popExpect a ;;; push I32
  | effTest => popExpect a ;;; push I32
  | effConv => popExpect a ;;; push (valType (eb eff))
  | effLoad => checkMem (align eff) ;;; popExpect I32 ;;; push a
  | effStore => checkMem (align eff) ;;; popExpect a ;;; popExpect I32
  | effNone =>
      if k =? InstrMemorySize then
        let! addr := checkMemArg (memArgOf (IIndex p)) 0 in push addr
      else if k =? InstrMemoryGrow then
        let! addr := checkMemArg (memArgOf (IIndex p)) 0 in popExpect addr ;;; push addr
      else if kind_in k [InstrI32TruncSatF32S; InstrI32TruncSatF32U] then popExpect F32 ;;; push I32
      else if kind_in k [InstrI32TruncSatF64S; InstrI32TruncSatF64U] then popExpect F64 ;;; push I32
      else if kind_in k [InstrI64TruncSatF32S; InstrI64TruncSatF32U] then popExpect F32 ;;; push I64
      else if kind_in k [InstrI64TruncSatF64S; InstrI64TruncSatF64U] then popExpect F64 ;;; push I64
      else verr ErrUnsupportedValidationOpcode
  end.

(** ** Globals, tables, references, bulk memory *)

Definition stepGlobalGet (p : payload) : V unit :=
  let! g := get_or (ms.globalProperties v (IIndex p)) ErrUnknownGlobal in
  let (typ, mutable) := g in
  require (negb (constOnly e &&
    (mutable || (constGlobalLimit e <=? IIndex p) ||
     ((Z.of_nat (length (ms.importsOfKind v ExternGlobal)) <=? IIndex p)
      && negb (ExtendedConstGlobals (features v)))))) ErrConstExprRequired ;;;
  push typ.

Definition stepGlobalSet (p : payload) : V unit :=
  let! g := get_or (ms.globalProperties v (IIndex p)) ErrUnknownGlobal in
  let (typ, mutable) := g in
  require mutable ErrImmutableGlobal ;;; popExpect typ.

Definition stepTableGet (p : payload) : V unit :=
  let! r := tableAddrType (IIndex p) in
  popExpect (fst r) ;;; push (RefVal (TRef (snd r))).

Definition stepTableSet (p : payload) : V unit :=
  let! r := tableAddrType (IIndex p) in
  popExpect (RefVal (TRef (snd r))) ;;; popExpect (fst r).

Definition stepRefNull (p : payload) : V unit :=
  check (mt.validateRefType v (IRefType p)) ;;; push (RefVal (IRefType p)).

Definition stepRefFunc (p : payload) : V unit :=
  let! typeIdx := get_or (FuncTypeIndex (vm v) (IIndex p)) ErrUnknownFunc in
  require (ms.isDeclaredFunc v (IIndex p)) ErrUnknownFunc ;;;
  push (RefVal (Ref false (IndexedHeap typeIdx) false)).

Definition stepRefIsNull : V unit :=
  let! x := pop in require (known_is x (isRef x)) ErrTypeMismatch ;;; push I32.

Definition stepRefAsNonNull : V unit :=
  let! x := pop in require (known_is x (isRef x)) ErrTypeMismatch ;;; push (nonNullValidationType x).

Definition stepBrOnNull (p : payload) : V unit :=
  let! lt := fv.label e (IIndex p) in
  let! x := pop in
  require (known_is x (isRef x)) ErrTypeMismatch ;;;
  popAll lt ;;; pushAll lt ;;; push (nonNullValidationType x).

Definition stepBrOnNonNull (p : payload) : V unit :=
  let! lt := fv.label e (IIndex p) in
  let! x := pop in
  match last lt with
  | None => verr ErrTypeMismatch
  | Some l =>
      require (isRef l && known_is x (isRef x)) ErrTypeMismatch ;;;
      require (known_is x (mt.subtype v (RefVal (RefType_WithNullable (ValType_Ref x) false)) l))
        ErrTypeMismatch ;;;
      popAll (removelast lt) ;;; pushAll (removelast lt)
  end.

Definition stepMemoryInit (p : payload) : V unit :=
  checkDataIndex (IIndex p) ;;;
  let! addr := checkMemArg (memArgOf (IIndex2 p)) 0 in
  popExpect I32 ;;; popExpect I32 ;;; popExpect addr.

Definition stepMemoryCopy (p : payload) : V unit :=
  let! addrDst := checkMemArg (memArgOf (IIndex p)) 0 in
  let! addrSrc := checkMemArg (memArgOf (IIndex2 p)) 0 in
  popExpect (minAddrType addrDst addrSrc) ;;; popExpect addrSrc ;;; popExpect addrDst.

Definition stepMemoryFill (p : payload) : V unit :=
  let! addr := checkMemArg (memArgOf (IIndex p)) 0 in
  popExpect addr ;;; popExpect I32 ;;; popExpect addr.

Definition stepTableInit (p : payload) : V unit :=
  let! elemRef := elemRefType (IIndex p) in
  let! tbl := get_or (ms.tableType v (IIndex2 p)) ErrUnknownTable in
  require (mt.refSubtype v elemRef (TRef tbl)) ErrTypeMismatch ;;;
  popExpect I32 ;;; popExpect I32 ;;; popExpect (TableAddrType tbl).

Definition stepTableCopy (p : payload) : V unit :=
  let! d := tableAddrType (IIndex p) in
  let! s := tableAddrType (IIndex2 p) in
  require (mt.refSubtype v (TRef (snd s)) (TRef (snd d))) ErrTypeMismatch ;;;
  popExpect (minAddrType (fst d) (fst s)) ;;; popExpect (fst s) ;;; popExpect (fst d).

Definition stepTableGrow (p : payload) : V unit :=
  let! r := tableAddrType (IIndex p) in
  popExpect (fst r) ;;; popExpect (RefVal (TRef (snd r))) ;;; push (fst r).

Definition stepTableFill (p : payload) : V unit :=
  let! r := tableAddrType (IIndex p) in
  popExpect (fst r) ;;; popExpect (RefVal (TRef (snd r))) ;;; popExpect (fst r).

(** ** The instruction *)

(** The switch of [step], after the checks every instruction starts with. *)
Definition stepKind (p : payload) (body thn els : V unit) (hasElse : bool) : V unit :=
  let k := IKind p in
  if kind_in k wideKinds then stepWide k
  else if k =? InstrUnreachable then fv.unreachable
  else if k =? InstrNop then ret tt
  else if kind_in k [InstrBlock; InstrLoop] then
    stepBlock (if k =? InstrLoop then ctrlLoop else ctrlBlock) (IBlockType p) body
  else if k =? InstrIf then stepIf (IBlockType p) thn els hasElse
  else if kind_in k [InstrBr; InstrBrIf] then stepBranch k (IIndex p)
  else if k =? InstrBrTable then stepBrTable p
  else if k =? InstrReturn then
    let! f := fv.outermost in popAll (fout f) ;;; fv.unreachable
  else if kind_in k [InstrCall; InstrReturnCall] then stepCall k (IIndex p)
  else if kind_in k [InstrCallIndirect; InstrReturnCallIndirect] then stepCallIndirect p
  else if k =? InstrDrop then pop ;;; ret tt
  else if k =? InstrSelect then stepSelect p
  else if kind_in k [InstrLocalGet; InstrLocalSet; InstrLocalTee] then stepLocalIndex k (IIndex p)
  else if k =? InstrGlobalGet then stepGlobalGet p
  else if k =? InstrGlobalSet then stepGlobalSet p
  else if k =? InstrTableGet then stepTableGet p
  else if k =? InstrTableSet then stepTableSet p
  else if k =? InstrI32Const then push I32
  else if k =? InstrI64Const then push I64
  else if k =? InstrF32Const then push F32
  else if k =? InstrF64Const then push F64
  else if k =? InstrRefNull then stepRefNull p
  else if k =? InstrRefFunc then stepRefFunc p
  else if k =? InstrRefIsNull then stepRefIsNull
  else if k =? InstrRefEq then popExpect EqRef ;;; popExpect EqRef ;;; push I32
  else if k =? InstrStringConst then
    require (negb (Z.of_nat (length (StringRefs (vm v))) <=? IIndex p)) ErrTypeMismatch ;;; push StringRef
  else if k =? InstrRefAsNonNull then stepRefAsNonNull
  else if k =? InstrBrOnNull then stepBrOnNull p
  else if k =? InstrBrOnNonNull then stepBrOnNonNull p
  else if k =? InstrMemoryInit then stepMemoryInit p
  else if k =? InstrMemoryCopy then stepMemoryCopy p
  else if k =? InstrMemoryFill then stepMemoryFill p
  else if k =? InstrDataDrop then checkDataIndex (IIndex p)
  else if k =? InstrTableInit then stepTableInit p
  else if k =? InstrTableCopy then stepTableCopy p
  else if k =? InstrElemDrop then require (negb (ms.elemCount v <=? IIndex p)) ErrUnknownTable
  else if k =? InstrTableSize then
    let! r := tableAddrType (IIndex p) in push (fst r)
  else if k =? InstrTableGrow then stepTableGrow p
  else if k =? InstrTableFill then stepTableFill p
  else
    let! handled := proposalStep p body in
    if (handled : bool) then ret tt else stackEffect p.

(** Every [ValTypes] entry is checked, then loads and stores before the switch. *)
Definition stepNode (p : payload) (body thn els : V unit) (hasElse : bool) : V unit :=
  let k := IKind p in
  if numInstrKinds <=? k then verr ErrUnsupportedValidationOpcode
  else if constOnly e && negb (isConstInstruction k) && negb (GCConstExpr (features v) && kind_in k gcConstKinds)
  then verr ErrConstExprRequired
  else
    forM (IValTypes p) (fun t => check (mt.validateValType v t)) ;;;
    let eff := opEffects k in
    match cat eff with
    | effLoad =>
        let! addr := checkMemArg (IMemArg p) (align eff) in popExpect addr ;;; push (valType (ea eff))
    | effStore =>
        let! addr := checkMemArg (IMemArg p) (align eff) in popExpect (valType (ea eff)) ;;; popExpect addr
    | _ => stepKind p body thn els hasElse
    end.

(** A body, instruction by instruction. *)
Section Body.
Context (f : Instruction -> V unit).
Fixpoint run (l : list Instruction) : V unit :=
  match l with [] => ret tt | i :: rest => f i ;;; run rest end.
End Body.

Fixpoint step (i : Instruction) : V unit :=
  match i with
  | Node p body thn els =>
      stepNode p (run step body) (run step thn) (run step els) (negb (length els =? 0)%nat)
  end.

End Step.
End fs.
