(* ===== verification/ValidatorLaws.v ===== *)
(** * The stack discipline of the validator

    Every instruction works inside the frame it starts in: it leaves the control
    stack below as it found it, keeps the operands under the height of its frame,
    only adds to the log of initialized locals, and never indexes out of range.
    The proof is compositional: [framed] holds of each primitive, is kept by the
    monad, and so holds of [fs.step] on every instruction tree. *)

From stdpp Require Import base tactics numbers list gmap.
From Stdlib Require Import ZArith Lia.
From S2P Require Import Prelude Reader Types Decode Kinds Instr Module ModuleDecode TypeEquiv Subtyping.
From S2P Require Import Effects Validator Step.
Local Open Scope Z_scope.

(** ** Well-formed states *)

(** Frames from the inside out: each starts above the next. *)
Fixpoint frames_ok (n k : nat) (l : list ctrlFrame) : Prop :=
  match l with
  | [] => True
  | f :: rest =>
      (height f <= n)%nat /\ (initHeight f <= k)%nat /\ frames_ok (height f) (initHeight f) rest
  end.

(** The set of initialized locals is the log. *)
Definition init_ok (s : fvState) : Prop :=
  initializedLocals s = list_to_set (localInitLog s) /\ NoDup (localInitLog s).

Record wf (s : fvState) : Prop := {
  wf_frames : frames_ok (length (vals s)) (length (localInitLog s)) (ctrls s);
  wf_init : init_ok s
}.

(** The first [n] operands of the slice. *)
Definition bottom (n : nat) (l : list ValType) : list ValType := drop (length l - n) l.

Definition top_height (s : fvState) : nat :=
  match ctrls s with [] => 0%nat | f :: _ => height f end.

(** Frames up to the stamps of branch tables, the innermost also up to its
    reachability. *)
Definition unstamped : list ctrlFrame -> list ctrlFrame := map (with_epoch 0).

Definition shape (l : list ctrlFrame) : list ctrlFrame :=
  match l with [] => [] | f :: rest => with_unreachable (with_epoch 0 f) :: unstamped rest end.

(** [s'] is [s] after work inside its innermost frame. *)
Record stays (s s' : fvState) : Prop := {
  st_ctrls : shape (ctrls s') = shape (ctrls s);
  st_len : (top_height s <= length (vals s) -> top_height s <= length (vals s'))%nat;
  st_vals : (top_height s <= length (vals s))%nat ->
            bottom (top_height s) (vals s') = bottom (top_height s) (vals s);
  st_log : exists new, localInitLog s' = new ++ localInitLog s;
  st_init : init_ok s -> init_ok s';
  st_locals : localParams (lookup s') = localParams (lookup s) /\
              localRuns (lookup s') = localRuns (lookup s)
}.

Lemma stays_refl s : stays s s.
Proof. split; auto. by exists []. Qed.

Lemma shape_top_height s s' : shape (ctrls s') = shape (ctrls s) -> top_height s' = top_height s.
Proof.
  unfold top_height. destruct (ctrls s) as [|f l], (ctrls s') as [|f' l']; try done.
  simpl. intros H. injection H as H _. done.
Qed.

Lemma stays_trans s1 s2 s3 : stays s1 s2 -> stays s2 s3 -> stays s1 s3.
Proof.
  intros [C1 L1 V1 [n1 G1] I1 [P1 R1]] [C2 L2 V2 [n2 G2] I2 [P2 R2]].
  rewrite (shape_top_height _ _ C1) in L2, V2. split.
  - congruence.
  - auto.
  - intros H. rewrite V2, V1; auto.
  - exists (n2 ++ n1). by rewrite G2, G1, app_assoc.
  - auto.
  - split; congruence.
Qed.

Lemma frames_ok_mono n n' k k' l : (n <= n')%nat -> (k <= k')%nat -> frames_ok n k l -> frames_ok n' k' l.
Proof. destruct l; simpl; [done|]. intros ? ? (? & ? & ?). split; [lia|]. split; [lia|done]. Qed.

Lemma frames_ok_unstamped n k l l' : unstamped l' = unstamped l -> frames_ok n k l -> frames_ok n k l'.
Proof.
  revert n k l. induction l' as [|f' l' IH]; intros n k [|f l] H; try done. simpl in *.
  injection H as H1 H2 H3 H4 H5 H6 H7 H8 H. rewrite H3, H4. intros (? & ? & ?).
  split; [done|]. split; [done|]. by apply (IH _ _ l).
Qed.

Lemma frames_ok_shape n k n' k' l l' :
  shape l' = shape l -> frames_ok n k l ->
  (match l with [] => True | f :: _ => (height f <= n')%nat /\ (initHeight f <= k')%nat end) ->
  frames_ok n' k' l'.
Proof.
  destruct l as [|f l], l' as [|f' l']; try done. simpl. intros H (? & ? & Hr) [? ?].
  injection H as E1 E2 E3 E4 E5 E6 E7 E. rewrite E3, E4.
  split; [done|]. split; [done|]. by apply (frames_ok_unstamped _ _ l).
Qed.

Lemma stays_wf s s' : wf s -> stays s s' -> wf s'.
Proof.
  intros [Hf Hi] [C L Va [new G] I _]. split; [|auto].
  apply (frames_ok_shape (length (vals s)) (length (localInitLog s)) _ _ (ctrls s)); [done|done|].
  unfold top_height in *. destruct (ctrls s) as [|f l]; [done|]. simpl in Hf. destruct Hf as (? & ? & _).
  rewrite G, length_app. split; [auto|lia].
Qed.

Lemma stays_nonempty s s' : ctrls s <> [] -> stays s s' -> ctrls s' <> [].
Proof. intros H [C _ _ _ _ _]. by destruct (ctrls s), (ctrls s'). Qed.

(** ** A logic for work inside a frame *)

Definition framed {A} (c : V A) : Prop :=
  forall s, wf s -> ctrls s <> [] ->
    match c s with
    | (Ok _, s') => stays s s'
    | (Err _, _) => True
    | (Panic, _) => False
    end.

Lemma framed_ret {A} (a : A) : framed (ret a).
Proof. intros s _ _. apply stays_refl. Qed.

Lemma framed_fail {A} err : framed (@fail fvState error A err).
Proof. done. Qed.

Lemma framed_bind {A B} (c : V A) (k : A -> V B) :
  framed c -> (forall a, framed (k a)) -> framed (bind c k).
Proof.
  intros Hc Hk s Hs Hn. unfold bind. specialize (Hc s Hs Hn). destruct (c s) as [[a|err|] s1]; try done.
  specialize (Hk a s1 (stays_wf _ _ Hs Hc) (stays_nonempty _ _ Hn Hc)).
  destruct (k a s1) as [[b|err|] s2]; try done. by eapply stays_trans.
Qed.

(** Reading the state. *)
Lemma framed_get {B} (k : fvState -> V B) : (forall s, framed (k s)) -> framed (bind get k).
Proof. intros Hk s Hs Hn. apply (Hk s s Hs Hn). Qed.

Lemma framed_check err : framed (check err).
Proof. destruct err; [apply framed_fail|apply framed_ret]. Qed.

Lemma framed_forM {A} (l : list A) (f : A -> V unit) :
  (forall x, framed (f x)) -> framed (forM l f).
Proof.
  intros Hf. induction l as [|x l IH]; simpl; [apply framed_ret|]. apply framed_bind; [apply Hf|done].
Qed.

(** A change of state that stays. *)
Lemma framed_modify (f : fvState -> fvState) : (forall s, wf s -> ctrls s <> [] -> stays s (f s)) -> framed (modify f).
Proof. intros H s Hs Hn. by apply H. Qed.

Lemma framed_verr {A} e c : framed (@fv.verr e A c).
Proof. apply framed_fail. Qed.

Create HintDb framed discriminated.
#[export] Hint Resolve framed_ret framed_fail framed_verr framed_check : framed.

(** ** Operands *)

Lemma bottom_cons n x l : (n <= length l)%nat -> bottom n (x :: l) = bottom n l.
Proof. intros H. unfold bottom. simpl length. by replace (S (length l) - n)%nat with (S (length l - n)) by lia. Qed.

Lemma bottom_app n l k : (n <= length k)%nat -> bottom n (l ++ k) = bottom n k.
Proof. induction l as [|x l IH]; intros H; [done|]. simpl. rewrite bottom_cons; [auto|rewrite length_app; lia]. Qed.

Lemma bottom_all l : bottom (length l) l = l.
Proof. unfold bottom. by rewrite Nat.sub_diag. Qed.

Lemma bottom_length n l : (n <= length l)%nat -> length (bottom n l) = n.
Proof. unfold bottom. rewrite length_drop. lia. Qed.

Lemma bottom_bottom n l : (n <= length l)%nat -> bottom n (bottom n l) = bottom n l.
Proof. intros H. unfold bottom at 1. rewrite bottom_length, Nat.sub_diag by done. done. Qed.

Lemma wf_height s : wf s -> (top_height s <= length (vals s))%nat.
Proof. intros [H _]. unfold top_height. destruct (ctrls s); [lia|]. apply H. Qed.

(** Work on the operands alone. *)
Lemma stays_vals s l :
  (top_height s <= length l)%nat -> bottom (top_height s) l = bottom (top_height s) (vals s) ->
  stays s (set_vals l s).
Proof. intros H1 H2. split; try done. by exists []. Qed.

Lemma stays_init s s' : stays s s' -> init_ok s -> init_ok s'.
Proof. apply st_init. Qed.

Section Primitives.
Context (e : fenv).

Lemma framed_top : framed fv.top.
Proof.
  intros s Hs Hn. unfold fv.top, bind, get. destruct (ctrls s); [done|]. apply stays_refl.
Qed.

Lemma framed_push t : framed (fv.push t).
Proof.
  apply framed_modify. intros s Hs Hn. apply wf_height in Hs. apply stays_vals; [simpl; lia|].
  by apply bottom_cons.
Qed.

Lemma framed_pushAll ts : framed (fv.pushAll ts).
Proof.
  induction ts as [|t ts IH]; simpl; [apply framed_ret|]. apply framed_bind; [apply framed_push|done].
Qed.

Lemma framed_pop : framed (fv.pop e).
Proof.
  intros s Hs Hn. unfold fv.pop, fv.top, bind, get, put. pose proof (wf_height s Hs) as Hh.
  unfold top_height in Hh. destruct (ctrls s) as [|f l] eqn:Ec; [done|]. simpl.
  destruct (Nat.eqb_spec (length (vals s)) (height f)).
  { destruct (funreachable f); [apply stays_refl|done]. }
  destruct (vals s) as [|x rest] eqn:Ev; [simpl in *; lia|]. simpl in *.
  assert (Ht : top_height s = height f) by (unfold top_height; by rewrite Ec).
  apply stays_vals; rewrite Ht; [lia|]. rewrite Ev, bottom_cons by lia. done.
Qed.

Lemma framed_require b c : framed (fs.require e b c).
Proof. unfold fs.require. destruct b; [apply framed_ret|apply framed_fail]. Qed.

(** What was required holds from there on. *)
Lemma framed_require_bind {A} (b : bool) c (k : unit -> V A) :
  (b = true -> framed (k tt)) -> framed (bind (fs.require e b c) k).
Proof. intros H. unfold fs.require. destruct b; [by apply H|]. intros s _ _. done. Qed.

Lemma framed_get_or {A} (o : option A) c : framed (fs.get_or e o c).
Proof. destruct o; [apply framed_ret|apply framed_fail]. Qed.

Lemma framed_popExpect t : framed (fv.popExpect e t).
Proof.
  unfold fv.popExpect. apply framed_bind; [apply framed_pop|]. intros x.
  destruct (_ && _); auto with framed.
Qed.

Lemma framed_popAll ts : framed (fv.popAll e ts).
Proof. apply framed_forM. intros t. apply framed_popExpect. Qed.

Lemma framed_unreachable : framed fv.unreachable.
Proof.
  intros s Hs Hn. pose proof (wf_height s Hs) as Hh.
  unfold fv.unreachable, fv.truncateVals, fv.top, bind, get, modify, truncate.
  destruct (ctrls s) as [|f l] eqn:Ec; [done|]. simpl.
  assert (Ht : top_height s = height f) by (unfold top_height; by rewrite Ec).
  rewrite Ht in Hh. apply Nat.leb_le in Hh as Hb. rewrite Hb. simpl. rewrite Ec.
  split; simpl; try done.
  - by rewrite Ec.
  - intros _. rewrite Ht. fold (bottom (height f) (vals s)). by rewrite bottom_length.
  - intros _. rewrite Ht. fold (bottom (height f) (vals s)). by apply bottom_bottom.
  - by exists [].
Qed.

Lemma framed_label d : framed (fv.label e d).
Proof.
  intros s Hs Hn. unfold fv.label, bind, get.
  destruct (Z.leb_spec (Z.of_nat (length (ctrls s))) d); [done|].
  destruct (lookup_lt_is_Some_2 (ctrls s) (Z.to_nat d)) as [f ->]; [|apply stays_refl].
  destruct (ctrls s); [done|]. simpl in *. lia.
Qed.

Lemma framed_outermost : framed fv.outermost.
Proof.
  intros s Hs Hn. unfold fv.outermost, bind, get. destruct (ctrls s) as [|f l] eqn:E; [done|].
  destruct (last (f :: l)) eqn:El; [apply stays_refl|]. by apply last_None in El.
Qed.

Lemma framed_blockSig bt : framed (fv.blockSig e bt).
Proof.
  unfold fv.blockSig. destruct (_ =? BlockVoid); [apply framed_ret|].
  destruct (_ =? BlockVal); [apply framed_bind; [apply framed_check|intros; apply framed_ret]|].
  destruct (_ =? BlockTypeIndex); [|apply framed_fail].
  destruct (mt.funcTypeFromTypeIdx _ _); [apply framed_ret|apply framed_fail].
Qed.

(** ** Locals *)

Lemma framed_localType idx : framed (fv.localType idx).
Proof.
  intros s Hs Hn. unfold fv.localType, bind, get, put, ret.
  destruct (localType (lookup s) idx) as [t l] eqn:E.
  assert (Hl : localParams l = localParams (lookup s) /\ localRuns l = localRuns (lookup s)).
  { unfold localType in E. repeat case_go; injection E as _ <-; done. }
  split; simpl; try done. by exists [].
Qed.

Lemma framed_localIsInitialized idx t : framed (fv.localIsInitialized idx t).
Proof. apply framed_get. intros s. apply framed_ret. Qed.

Lemma framed_initializeLocal idx t : framed (fv.initializeLocal idx t).
Proof.
  apply framed_modify. intros s Hs Hn. destruct (fv.defaulted _ _ _); [apply stays_refl|].
  destruct (decide _) as [|Hni]; [apply stays_refl|]. split; simpl; try done.
  - by exists [idx].
  - intros [E N]. split; simpl; [by rewrite E|]. constructor; [|done]. rewrite E in Hni.
    intros H. apply Hni. by apply elem_of_list_to_set.
Qed.

(** ** Branch tables *)

Lemma shape_epochs l l' : unstamped l' = unstamped l -> shape l' = shape l.
Proof. destruct l, l'; try done. simpl. intros H. injection H. intros. unfold with_unreachable. simpl. congruence. Qed.

Lemma stays_ctrls s l : unstamped l = unstamped (ctrls s) -> stays s (set_ctrls l s).
Proof. intros H. split; try done; [by apply shape_epochs|by exists []]. Qed.

Lemma framed_beginBranchTable : framed fv.beginBranchTable.
Proof.
  apply framed_modify. intros s _ _. cbv zeta. destruct (_ =? 0); (split; try done); simpl; try by exists [].
  apply shape_epochs. unfold unstamped. rewrite map_map. by apply map_ext.
Qed.

Lemma unstamped_stamp l i f ep : l !! i = Some f -> unstamped (<[i := with_epoch ep f]> l) = unstamped l.
Proof.
  intros H. change (with_epoch 0 <$> <[i := with_epoch ep f]> l = with_epoch 0 <$> l).
  rewrite list_fmap_insert. apply list_insert_id. rewrite list_lookup_fmap, H. done.
Qed.

(** After its bounds check, a label has a frame to stamp. *)
Lemma framed_labelled {B} l (k : list ValType -> bool -> V B) :
  (forall lt b, framed (k lt b)) ->
  framed (let! lt := fv.label e l in let! fresh := fv.markBranchTableLabel l in k lt fresh).
Proof.
  intros Hk s Hs Hn. unfold fv.label, bind at 1, bind at 1, get.
  destruct (Z.leb_spec (Z.of_nat (length (ctrls s))) l); [done|].
  destruct (lookup_lt_is_Some_2 (ctrls s) (Z.to_nat l)) as [f Hf].
  { destruct (ctrls s); [done|]. simpl in *. lia. }
  rewrite Hf. unfold ret at 1, bind, fv.markBranchTableLabel, get, put, ret. unfold bind. rewrite Hf.
  set (s1 := set_ctrls _ s). assert (H1 : stays s s1) by (by apply stays_ctrls, unstamped_stamp).
  specialize (Hk (if bool_decide (fkind f = ctrlLoop) then fin f else fout f)
    (negb (fepoch f =? branchTableEpoch s)) s1 (stays_wf _ _ Hs H1) (stays_nonempty _ _ Hn H1)).
  destruct (k _ _ s1) as [[b|err|] s2]; try done. by eapply stays_trans.
Qed.
End Primitives.

#[export] Hint Resolve framed_top framed_push framed_pushAll framed_pop framed_require framed_get_or
  framed_popExpect framed_popAll framed_unreachable framed_label framed_outermost framed_blockSig
  framed_localType framed_localIsInitialized framed_initializeLocal framed_beginBranchTable : framed.

(** Binds, requirements, branches and the primitives above. *)
Ltac frame_step :=
  lazymatch goal with
  | |- framed (bind (fs.require _ _ _) _) => apply framed_require_bind; intros ?
  | |- framed (bind get _) => apply framed_get; intros ?
  | |- framed (bind _ _) => apply framed_bind; [|intros ?]
  | |- framed (forM _ _) => apply framed_forM; intros ?
  | |- framed (if ?b then _ else _) => destruct b eqn:?
  | |- framed (match ?x with _ => _ end) => destruct x eqn:?
  | |- framed (let (_, _) := ?x in _) => destruct x eqn:?
  | |- framed _ => solve [auto with framed]
  end.
Ltac frame_auto := repeat (cbv zeta; frame_step).

(** ** Blocks *)

Lemma pushAll_eq ts s : fv.pushAll ts s = (Ok tt, set_vals (rev ts ++ vals s) s).
Proof.
  revert s. induction ts as [|t ts IH]; intros s; simpl; [by destruct s|].
  unfold bind, fv.push, modify. rewrite IH. simpl. by rewrite <- app_assoc.
Qed.

(** The log cut back to a length it had. *)
Lemma restore_log_app new old init :
  NoDup (new ++ old) -> init = list_to_set (new ++ old) ->
  fv.restore_log (length old) (new ++ old) init = (list_to_set old, old).
Proof.
  revert init. induction new as [|x new IH]; intros init Hn ->.
  - simpl. destruct old as [|y old]; [done|]. cbn [fv.restore_log]. by rewrite Nat.ltb_irrefl.
  - rewrite <- app_comm_cons in *. apply NoDup_cons in Hn as [Hx Hn]. cbn [fv.restore_log].
    replace (_ <? _)%nat with true by (symmetry; apply Nat.ltb_lt; simpl; rewrite length_app; lia).
    apply IH; [done|]. apply set_eq. intros y. simpl.
    rewrite elem_of_difference, elem_of_union, elem_of_singleton, !elem_of_list_to_set.
    split; [by intros [[->|?] ?]|]. intros ?. split; [by right|]. by intros ->.
Qed.

(** [s] is a state inside the frame [f] that was opened in [s0]. *)
Record inside (f : ctrlFrame) (s0 s : fvState) : Prop := {
  in_ctrls : exists rest, ctrls s = f :: rest /\ unstamped rest = unstamped (ctrls s0);
  in_height : height f = length (vals s0);
  in_initHeight : initHeight f = length (localInitLog s0);
  in_len : (height f <= length (vals s))%nat;
  in_vals : bottom (height f) (vals s) = vals s0;
  in_log : exists new, localInitLog s = new ++ localInitLog s0;
  in_init : init_ok s;
  in_locals : localParams (lookup s) = localParams (lookup s0) /\
              localRuns (lookup s) = localRuns (lookup s0)
}.

(** [s'] is [s0] after the frame [f] was closed. *)
Record leaves (f : ctrlFrame) (s0 s' : fvState) : Prop := {
  lv_vals : vals s' = rev (fout f) ++ vals s0;
  lv_ctrls : unstamped (ctrls s') = unstamped (ctrls s0);
  lv_log : localInitLog s' = localInitLog s0;
  lv_init : init_ok s';
  lv_locals : localParams (lookup s') = localParams (lookup s0) /\
              localRuns (lookup s') = localRuns (lookup s0)
}.

Definition frame_like (f f' : ctrlFrame) : Prop :=
  with_unreachable (with_epoch 0 f') = with_unreachable (with_epoch 0 f).

Lemma frame_like_fields f f' : frame_like f f' ->
  fin f' = fin f /\ fout f' = fout f /\ height f' = height f /\ initHeight f' = initHeight f /\
  ifThenHeight f' = ifThenHeight f /\ fkind f' = fkind f /\ ifSeenElse f' = ifSeenElse f.
Proof. intros H. by injection H. Qed.

Lemma inside_stays f s0 s s' : inside f s0 s -> stays s s' -> exists f', frame_like f f' /\ inside f' s0 s'.
Proof.
  intros [[rest [Ec Er]] H1 H2 H3 H4 [new H5] H6 [H7 H8]] [C L Va [new' G] I [P R]].
  assert (Ht : top_height s = height f) by (unfold top_height; by rewrite Ec). rewrite Ht in L, Va.
  rewrite Ec in C. destruct (ctrls s') as [|f' rest'] eqn:Ec'; [done|]. simpl in C.
  injection C as E1 E2 E3 E4 E5 E6 E7 C.
  assert (Hf : frame_like f f') by (unfold frame_like, with_unreachable; simpl; congruence).
  exists f'. split; [done|]. destruct (frame_like_fields _ _ Hf) as (_ & _ & Eh & Ei & _).
  split; rewrite ?Eh, ?Ei; auto.
  - exists rest'. split; [done|]. by rewrite C.
  - rewrite Va; auto.
  - exists (new' ++ new). by rewrite G, H5, app_assoc.
  - split; congruence.
Qed.

Lemma stays_leaves f s0 s' : leaves f s0 s' -> stays s0 s'.
Proof.
  intros [H1 H2 H3 H4 H5]. split; auto.
  - by apply shape_epochs.
  - rewrite H1, length_app. lia.
  - intros H. rewrite H1. by apply bottom_app.
  - by exists [].
Qed.

Section Blocks.
Context (e : fenv).

Lemma popCtrl_inside f s0 s : wf s -> inside f s0 s ->
  match fv.popCtrl e s with
  | (Ok f', s') => f' = f /\ leaves f s0 s'
  | (Err _, _) => True
  | (Panic, _) => False
  end.
Proof.
  intros Hs Hin. pose proof Hin as [[rest [Ec _]] _ _ _ _ _ _ _].
  unfold fv.popCtrl, bind at 1, get at 1. rewrite Ec.
  pose proof (framed_popAll e (fout f) s Hs) as Hp. rewrite Ec in Hp. specialize (Hp ltac:(done)).
  unfold bind at 1. destruct (fv.popAll e (fout f) s) as [[[]|err|] s3]; try done.
  destruct (inside_stays _ _ _ _ Hin Hp) as (f' & Hlike & [[rest' [Ec' Er']] H1 H2 H3 H4 [new H5] [H6 H6'] H7]).
  destruct (frame_like_fields _ _ Hlike) as (_ & _ & Eh & Ei & _).
  unfold bind at 1, get at 1. destruct (Nat.eqb_spec (length (vals s3)) (height f)) as [El|]; simpl; [|done].
  unfold bind, fv.restoreLocalInitialization, modify. rewrite H5, <- Ei, H2.
  rewrite restore_log_app by (rewrite <- H5; done). rewrite pushAll_eq. simpl. split; [done|].
  rewrite H5 in H6'. apply NoDup_app in H6' as (_ & _ & Hnd).
  split; simpl; try done.
  - f_equal. rewrite <- H4, Eh, <- El. symmetry. apply bottom_all.
  - by rewrite Ec'.
Qed.

(** The state a new frame is entered with. *)
Lemma inside_open k ins outs s0 :
  wf s0 ->
  let f := {| fin := ins; fout := outs; height := length (vals s0); initHeight := length (localInitLog s0);
              ifThenHeight := 0; fepoch := 0; fkind := k; funreachable := false; ifSeenElse := false |} in
  let s1 := set_vals (rev ins ++ vals s0) (set_ctrls (f :: ctrls s0) s0) in
  wf s1 /\ inside f s0 s1.
Proof.
  intros [Hf Hi]. cbv zeta. split.
  - split; [|done]. simpl. rewrite length_app. split; [lia|]. split; [lia|done].
  - split; simpl; try done.
    + by exists (ctrls s0).
    + rewrite length_app. lia.
    + rewrite bottom_app by done. apply bottom_all.
    + by exists [].
Qed.

Lemma pushCtrl_inside k ins outs s : wf s -> ctrls s <> [] ->
  match fv.pushCtrl e k ins outs s with
  | (Ok _, s1) => exists f s0, stays s s0 /\ wf s1 /\ inside f s0 s1 /\ fout f = outs /\ fin f = ins /\
                    fkind f = k /\ ifSeenElse f = false
  | (Err _, _) => True
  | (Panic, _) => False
  end.
Proof.
  intros Hs Hn. unfold fv.pushCtrl, bind at 1.
  pose proof (framed_popAll e ins s Hs Hn) as Hp. destruct (fv.popAll e ins s) as [[[]|err|] s0]; try done.
  unfold bind, modify. rewrite pushAll_eq. simpl.
  destruct (inside_open k ins outs s0 (stays_wf _ _ Hs Hp)) as [Hw Hi].
  eexists _, s0. split; [done|]. split; [exact Hw|]. split; [exact Hi|]. done.
Qed.

Lemma framed_block k ins outs (body : V unit) :
  framed body -> framed (fv.pushCtrl e k ins outs ;;; body ;;; fv.popCtrl e ;;; ret tt).
Proof.
  intros Hb s Hs Hn. unfold bind at 1. pose proof (pushCtrl_inside k ins outs s Hs Hn) as Hp.
  destruct (fv.pushCtrl e k ins outs s) as [[[]|err|] s1]; try done.
  destruct Hp as (f & s0 & H0 & Hw1 & Hi & _). unfold bind at 1.
  assert (Hn1 : ctrls s1 <> []) by (destruct Hi as [[rest [-> _]] _ _ _ _ _ _ _]; done).
  specialize (Hb s1 Hw1 Hn1). destruct (body s1) as [[[]|err|] s2]; try done.
  destruct (inside_stays _ _ _ _ Hi Hb) as (f' & _ & Hi').
  pose proof (popCtrl_inside _ _ _ (stays_wf _ _ Hw1 Hb) Hi') as Hc. unfold bind, ret.
  destruct (fv.popCtrl e s2) as [[f2|err|] s3]; try done. destruct Hc as [_ Hl].
  eapply stays_trans; [exact H0|]. by eapply stays_leaves.
Qed.
End Blocks.

(** ** One instruction *)

Section Leaves.
Context (e : fenv).

Lemma framed_checkMemArg ma n : framed (fs.checkMemArg e ma n).
Proof. unfold fs.checkMemArg. frame_auto. Qed.
Local Hint Resolve framed_checkMemArg : framed.

Lemma framed_checkAtomicMemArg ma n : framed (fs.checkAtomicMemArg e ma n).
Proof. unfold fs.checkAtomicMemArg. frame_auto. Qed.

Lemma framed_checkMem n : framed (fs.checkMem e n).
Proof. unfold fs.checkMem. frame_auto. Qed.

Lemma framed_checkDataIndex i : framed (fs.checkDataIndex e i).
Proof. unfold fs.checkDataIndex. frame_auto. Qed.

Lemma framed_tableAddrType i : framed (fs.tableAddrType e i).
Proof. unfold fs.tableAddrType. frame_auto. Qed.

Lemma framed_elemRefType i : framed (fs.elemRefType e i).
Proof. unfold fs.elemRefType. frame_auto. Qed.

Lemma framed_descriptorOf st g c : framed (fs.descriptorOf e st g c).
Proof. unfold fs.descriptorOf. frame_auto. Qed.

Lemma framed_popN n t : framed (fs.popN e n t).
Proof. unfold fs.popN. frame_auto. Qed.

Lemma framed_mutableArray p : framed (fs.mutableArray e p).
Proof. unfold fs.mutableArray. frame_auto. Qed.

Lemma framed_returnOrPush b ts : framed (fs.returnOrPush e b ts).
Proof. unfold fs.returnOrPush. frame_auto. Qed.

Local Hint Resolve framed_checkAtomicMemArg framed_checkMem framed_checkDataIndex framed_tableAddrType
  framed_elemRefType framed_descriptorOf framed_popN framed_mutableArray framed_returnOrPush : framed.

Lemma framed_stepLocalIndex k i : framed (fs.stepLocalIndex e k i).
Proof. unfold fs.stepLocalIndex. frame_auto. Qed.

Lemma framed_stepBranch k i : framed (fs.stepBranch e k i).
Proof. unfold fs.stepBranch. frame_auto. Qed.

(** The values of a target are restored. *)
Lemma framed_restore (c : V unit) :
  framed c -> framed (let! payload := get in c ;;; modify (set_vals (vals payload))).
Proof.
  intros Hc s Hs Hn. unfold bind at 1, get. unfold bind, modify. specialize (Hc s Hs Hn).
  destruct (c s) as [[[]|err|] s1]; try done. destruct Hc as [C L Va G I P].
  split; try done.
Qed.

Lemma framed_stepTarget dt l : framed (fs.stepTarget e dt l).
Proof.
  apply framed_labelled. intros lt fresh. destruct (negb fresh); [auto with framed|].
  destruct (negb _); [auto with framed|]. apply framed_restore. auto with framed.
Qed.

Lemma framed_stepBrTable p : framed (fs.stepBrTable e p).
Proof.
  unfold fs.stepBrTable. apply framed_bind; [auto with framed|]. intros _.
  intros s Hs Hn. unfold fv.label, bind at 1, bind at 1, get.
  destruct (Z.leb_spec (Z.of_nat (length (ctrls s))) (IIndex p)); [done|].
  destruct (lookup_lt_is_Some_2 (ctrls s) (Z.to_nat (IIndex p))) as [f Hf].
  { destruct (ctrls s); [done|]. simpl in *. lia. }
  rewrite Hf. cbn [ret].
  set (dt := if bool_decide (fkind f = ctrlLoop) then fin f else fout f).
  assert (Hrest : framed (forM (IIndices p) (fs.stepTarget e dt) ;;; fv.popAll e dt ;;; fv.unreachable)).
  { apply framed_bind; [apply framed_forM; intros; apply framed_stepTarget|intros _]. frame_auto. }
  pose proof (framed_beginBranchTable s Hs Hn) as Hb. unfold bind at 1.
  destruct (fv.beginBranchTable s) as [[[]|err|] s1]; try done.
  unfold bind at 1, fv.markBranchTableLabel, bind, get, put, ret.
  assert (Hlen : length (ctrls s1) = length (ctrls s)).
  { destruct Hb as [C _ _ _ _ _]. apply (f_equal length) in C. unfold shape, unstamped in C.
    destruct (ctrls s), (ctrls s1); simpl in *; rewrite ?length_map in C; done. }
  destruct (lookup_lt_is_Some_2 (ctrls s1) (Z.to_nat (IIndex p))) as [f1 Hf1].
  { rewrite Hlen. by eapply lookup_lt_Some. }
  rewrite Hf1. set (s2 := set_ctrls _ s1).
  assert (H2 : stays s s2).
  { eapply stays_trans; [exact Hb|]. by apply stays_ctrls, unstamped_stamp. }
  specialize (Hrest s2 (stays_wf _ _ Hs H2) (stays_nonempty _ _ Hn H2)). unfold bind in Hrest.
  destruct (forM _ _ s2) as [[[]|err|] s3]; try done.
  destruct (fv.popAll e dt s3) as [[[]|err|] s4]; try done.
  destruct (fv.unreachable s4) as [[[]|err|] s5]; try done. by eapply stays_trans.
Qed.

Lemma framed_stepCall k i : framed (fs.stepCall e k i).
Proof. unfold fs.stepCall. frame_auto. Qed.

Lemma framed_stepCallIndirect p : framed (fs.stepCallIndirect e p).
Proof. unfold fs.stepCallIndirect. frame_auto. Qed.

Lemma framed_stepSelect p : framed (fs.stepSelect e p).
Proof.
  unfold fs.stepSelect. apply framed_require_bind. intros H. apply framed_bind; [auto with framed|].
  intros _. destruct (ITyped p); [|frame_auto]. destruct (IValTypes p); [done|]. frame_auto.
Qed.

Lemma framed_stepThrow p : framed (fs.stepThrow e p).
Proof. unfold fs.stepThrow. frame_auto. Qed.

Lemma framed_stepCallRef p : framed (fs.stepCallRef e p).
Proof. unfold fs.stepCallRef. frame_auto. Qed.

Lemma framed_validateCatchPayload c : framed (fs.validateCatchPayload e c).
Proof.
  unfold fs.validateCatchPayload. apply framed_bind; [auto with framed|]. intros lt. cbv zeta.
  apply framed_bind; [frame_auto|]. intros params.
  apply framed_require_bind. intros _. apply framed_require_bind. intros Hl.
  apply framed_require_bind. intros _. destruct (_ || _); [|auto with framed].
  apply Nat.eqb_eq in Hl. destruct (lookup_lt_is_Some_2 lt (length params)) as [t ->]; [lia|]. auto with framed.
Qed.

Lemma framed_stepAtomic p : framed (fs.stepAtomic e p).
Proof. unfold fs.stepAtomic. frame_auto. Qed.

Lemma framed_stepSIMD p : framed (fs.stepSIMD e p).
Proof. unfold fs.stepSIMD. frame_auto. Qed.

Lemma framed_stackEffect p : framed (fs.stackEffect e p).
Proof. unfold fs.stackEffect. frame_auto. Qed.

Lemma framed_stepStructNew p : framed (fs.stepStructNew e p).
Proof. unfold fs.stepStructNew. frame_auto. Qed.

Lemma framed_stepArrayNew p : framed (fs.stepArrayNew e p).
Proof. unfold fs.stepArrayNew. frame_auto. Qed.

Lemma framed_stepBrOnCast p : framed (fs.stepBrOnCast e p).
Proof. unfold fs.stepBrOnCast. frame_auto. Qed.

Lemma framed_stepRefCast p : framed (fs.stepRefCast e p).
Proof. unfold fs.stepRefCast. frame_auto. Qed.

Local Hint Resolve framed_stepLocalIndex framed_stepBranch framed_stepBrTable framed_stepCall
  framed_stepCallIndirect framed_stepSelect framed_stepThrow framed_stepCallRef framed_stepAtomic
  framed_stepSIMD framed_stackEffect framed_stepStructNew framed_stepArrayNew framed_stepBrOnCast
  framed_stepRefCast : framed.

Lemma framed_stepGC p : framed (fs.stepGC e p).
Proof.
  unfold fs.stepGC, fs.stepConvert, fs.stepRefTest, fs.stepRefGetDesc, fs.stepStructGet, fs.stepStructSet,
    fs.stepArrayGet, fs.stepArraySet, fs.stepArrayLen, fs.stepArrayFill, fs.stepArrayCopy,
    fs.stepArrayInitData, fs.stepArrayInitElem. frame_auto.
Qed.
Local Hint Resolve framed_stepGC : framed.

Lemma framed_stepTryTable bt cs (body : V unit) : framed body -> framed (fs.stepTryTable e bt cs body).
Proof.
  intros Hb. unfold fs.stepTryTable. apply framed_bind; [auto with framed|]. intros sig.
  apply framed_bind; [apply framed_forM; intros; apply framed_validateCatchPayload|]. intros _.
  by apply framed_block.
Qed.

Lemma framed_stepIf bt (thn els : V unit) hasElse :
  framed thn -> framed els -> framed (fs.stepIf e bt thn els hasElse).
Proof.
  intros Ht He. unfold fs.stepIf. apply framed_bind; [auto with framed|]. intros [ins outs].
  apply framed_bind; [auto with framed|]. intros _ s Hs Hn. unfold bind at 1, get at 1.
  pose proof (framed_block e ctrlIf ins outs thn Ht s Hs Hn) as Hblock. unfold bind in Hblock |- *.
  destruct (fv.pushCtrl e ctrlIf ins outs s) as [[[]|err|] s1]; try done.
  destruct (thn s1) as [[[]|err|] s2]; try done. destruct (fv.popCtrl e s2) as [[f|err|] s3]; try done.
  unfold get at 1, modify at 1. set (s4 := set_ctrls (ctrls s) (set_vals (vals s) s3)).
  assert (H4 : stays s s4) by (destruct Hblock as [C L Va G I P]; split; done).
  assert (Hback : forall s5, stays s4 s5 -> length (vals s5) = length (vals s3) \/ hasElse = false ->
    stays s (set_vals (vals s3) s5)).
  { intros s5 H5 _. pose proof (stays_trans _ _ _ H4 H5) as [C _ _ G I P].
    destruct Hblock as [_ L Va _ _ _]. split; try done. }
  destruct hasElse; simpl.
  - pose proof (framed_block e ctrlIf ins outs els He s4 (stays_wf _ _ Hs H4) (stays_nonempty _ _ Hn H4)) as Hb2.
    unfold bind in Hb2. destruct (fv.pushCtrl e ctrlIf ins outs s4) as [[[]|err|] s5]; try done.
    destruct (els s5) as [[[]|err|] s6]; try done. destruct (fv.popCtrl e s6) as [[f2|err|] s7]; try done.
    simpl. unfold fs.require. destruct (Nat.eqb_spec (length (vals s7)) (length (vals s3))); simpl; [|done].
    apply Hback; [done|by left].
  - unfold fs.require. destruct (mt.matchValTypes _ _ _); simpl; [|done].
    apply (Hback s4 (stays_refl _)). by right.
Qed.

Lemma framed_proposalStep p (body : V unit) : framed body -> framed (fs.proposalStep e p body).
Proof.
  intros Hb. unfold fs.proposalStep, fs.stepWide.
  repeat (cbv zeta; first [apply framed_bind; [by apply framed_stepTryTable|intros ?]|frame_step]).
Qed.

Lemma framed_stepKind p (body thn els : V unit) hasElse :
  framed body -> framed thn -> framed els -> framed (fs.stepKind e p body thn els hasElse).
Proof.
  intros Hb Ht He.
  unfold fs.stepKind, fs.stepWide, fs.stepGlobalGet, fs.stepGlobalSet, fs.stepTableGet, fs.stepTableSet,
    fs.stepRefNull, fs.stepRefFunc, fs.stepRefIsNull, fs.stepRefAsNonNull, fs.stepBrOnNull,
    fs.stepBrOnNonNull, fs.stepMemoryInit, fs.stepMemoryCopy, fs.stepMemoryFill, fs.stepTableInit,
    fs.stepTableCopy, fs.stepTableGrow, fs.stepTableFill.
  repeat (cbv zeta; first
    [ apply framed_bind; [by apply framed_proposalStep|intros ?]
    | by apply framed_stepIf
    | unfold fs.stepBlock; apply framed_bind; [by auto with framed|intros ?]; by apply framed_block
    | frame_step ]).
Qed.

Lemma framed_stepNode p (body thn els : V unit) hasElse :
  framed body -> framed thn -> framed els -> framed (fs.stepNode e p body thn els hasElse).
Proof.
  intros Hb Ht He. unfold fs.stepNode. cbv zeta.
  destruct (_ <=? _); [auto with framed|]. destruct (_ && _); [auto with framed|].
  apply framed_bind; [frame_auto|]. intros _.
  destruct (cat _); first [by apply framed_stepKind|frame_auto].
Qed.
End Leaves.

(** ** Instruction trees *)

Lemma framed_run (f : Instruction -> V unit) l : Forall (fun i => framed (f i)) l -> framed (fs.run f l).
Proof.
  induction 1; simpl; [apply framed_ret|]. by apply framed_bind.
Qed.

Section Tree.
Context (P : Instruction -> Prop).
Hypothesis Hnode : forall p body thn els, Forall P body -> Forall P thn -> Forall P els -> P (Node p body thn els).

(** Induction over the three bodies of an instruction. *)
Fixpoint Instruction_tree_ind (i : Instruction) : P i :=
  match i with
  | Node p body thn els =>
      let all := fix all (l : list Instruction) : Forall P l :=
        match l with
        | [] => @Forall_nil_2 _ P
        | x :: rest => @Forall_cons_2 _ P x rest (Instruction_tree_ind x) (all rest)
        end in
      Hnode p body thn els (all body) (all thn) (all els)
  end.
End Tree.

Lemma framed_step e i : framed (fs.step e i).
Proof.
  induction i as [p body thn els Hb Ht He] using Instruction_tree_ind. simpl.
  apply framed_stepNode; by apply framed_run.
Qed.
