(* ===== verification/Streaming.v ===== *)
(** * Validation of byte-backed bodies (validate_bytebacked.go)

    The validator of raw bodies: operations are read from the bytes and checked as
    they come, with structured control tracked on the control stack.  The common
    opcodes have paths of their own that neither build an instruction nor go
    through the general dispatch. *)

From stdpp Require Import base tactics numbers list gmap.
From Stdlib Require Import ZArith Lia.
From S2P Require Import Prelude Reader Types Decode Kinds Instr Module ModuleDecode TypeEquiv Subtyping.
From S2P Require Import Effects Validator Step.
Local Open Scope Z_scope.

(** The cursor of the body and the validator. *)
Definition D (A : Type) : Type := M (reader.t * fvState) error A.

Definition on_reader {A} (c : R A) : D A :=
  fun s => let (o, r) := c (fst s) in (o, (r, snd s)).
Definition on_stacks {A} (c : V A) : D A :=
  fun s => let (o, f) := c (snd s) in (o, (fst s, f)).

Definition nestingError : error := decode_error ErrInstructionNestingLimitExceeded 0.
Definition invalidInstruction : error := decode_error ErrInvalidInstruction 0.

Module sd.
Section Stream.
Context (e : fenv).
Local Abbreviation v := (fmv e).

(** ** Structured operations *)

Definition directPushCtrl (k : ctrlKind) (ins outs : list ValType) : V unit :=
  let! s := get in
  if maxInstructionNestingDepth <=? Z.of_nat (length (ctrls s)) then fail nestingError
  else fv.pushCtrl e k ins outs.

Definition directStartIf (bt : BlockType) : V unit :=
  let! sig := fv.blockSig e bt in
  fv.popExpect e I32 ;;;
  directPushCtrl ctrlIf (fst sig) (snd sig).

Definition directStartTryTable (bt : BlockType) (catches : list Catch) : V unit :=
  let! sig := fv.blockSig e bt in
  forM catches (fs.validateCatchPayload e) ;;;
  directPushCtrl ctrlTry (fst sig) (snd sig).

(** The frame of the else arm. *)
Definition elseFrame (f : ctrlFrame) (thenHeight : nat) : ctrlFrame :=
  {| fin := fin f; fout := fout f; height := height f; initHeight := initHeight f;
     ifThenHeight := thenHeight; fepoch := 0; fkind := ctrlIf; funreachable := false;
     ifSeenElse := true |}.

Definition directElse : V unit :=
  let! s := get in
  match ctrls s with
  | [] => fail invalidInstruction
  | f :: _ =>
      if negb (bool_decide (fkind f = ctrlIf)) || ifSeenElse f then fail invalidInstruction
      else
        let! f := fv.popCtrl e in
        let! s := get in
        let thenHeight := length (vals s) in
        fv.truncateVals (height f) ;;;
        if maxInstructionNestingDepth <=? Z.of_nat (length (ctrls s)) then fail nestingError
        else
          modify (fun s => set_ctrls (elseFrame f thenHeight :: ctrls s) s) ;;;
          fv.pushAll (fin f)
  end.

Definition directEnd : V unit :=
  let! s := get in
  match ctrls s with
  | [] => fail invalidInstruction
  | f :: _ =>
      fv.popCtrl e ;;;
      if bool_decide (fkind f = ctrlIf) then
        if ifSeenElse f then
          let! s := get in
          fs.require e (length (vals s) =? ifThenHeight f)%nat ErrTypeMismatch
        else fs.require e (mt.matchValTypes v (fin f) (fout f)) ErrTypeMismatch
      else ret tt
  end.

Definition stepDirectOp (op : directOp) : V unit :=
  match dkind op with
  | directInstr => fs.step e (leaf (dinstr op))
  | directBlock =>
      let! sig := fv.blockSig e (dblockType op) in directPushCtrl ctrlBlock (fst sig) (snd sig)
  | directLoop =>
      let! sig := fv.blockSig e (dblockType op) in directPushCtrl ctrlLoop (fst sig) (snd sig)
  | directIf => directStartIf (dblockType op)
  | directTryTable => directStartTryTable (dblockType op) (dcatches op)
  | Instr.directElse => directElse
  | Instr.directEnd => directEnd
  end.

(** ** Operations with a path of their own *)

(** [value.unknown() || value.t == t] *)
Definition matches (t : ValType) (x : ValType) : bool := unknown x || word2_eqb x t.

(** Operand count and result of an immediate-free effect. *)
Definition numericShape (eff : opEffect) : option (nat * ValType) :=
  let input := valType (ea eff) in
  match cat eff with
  | effUnary => Some (1%nat, input)
  | effBinary => Some (2%nat, input)
  | effCompare => Some (2%nat, I32)
  | effTest => Some (1%nat, I32)
  | effConv => Some (1%nat, valType (eb eff))
  | _ => None
  end.

Definition stepDirectNumeric (k : Z) : V unit :=
  let input := valType (ea (opEffects k)) in
  match numericShape (opEffects k) with
  | None => fs.step e (leaf (kind k))
  | Some (operands, output) =>
      if constOnly e then fs.step e (leaf (kind k))
      else
        let! f := fv.top in
        let! s := get in
        if (operands <=? length (vals s) - height f)%nat && forallb (matches input) (take operands (vals s))
        then put (set_vals (output :: drop operands (vals s)) s)
        else fs.step e (leaf (kind k))
  end.

Definition stepDirectMemory (k : Z) (arg : MemArg) : V unit :=
  let eff := opEffects k in
  let! address := fs.checkMemArg e arg (align eff) in
  let! f := fv.top in
  let! s := get in
  let valueType := valType (ea eff) in
  let n := length (vals s) in
  match cat eff with
  | effLoad =>
      match vals s with
      | x :: rest =>
          if (height f <? n)%nat && matches address x then put (set_vals (valueType :: rest) s)
          else fv.popExpect e address ;;; fv.push valueType
      | [] => fv.popExpect e address ;;; fv.push valueType
      end
  | _ =>
      match vals s with
      | x :: y :: rest =>
          if (2 <=? n - height f)%nat && matches valueType x && matches address y
          then put (set_vals rest s)
          else fv.popExpect e valueType ;;; fv.popExpect e address
      | _ => fv.popExpect e valueType ;;; fv.popExpect e address
      end
  end.

Definition localKind (opcode : Z) : Z :=
  if opcode =? 0x20 then InstrLocalGet else if opcode =? 0x21 then InstrLocalSet else InstrLocalTee.

Definition stepDirectScalarImmediate (opcode : Z) : D unit :=
  if kind_in opcode [0x20; 0x21; 0x22] then
    let! index := on_reader rd.u32 in on_stacks (fs.stepLocalIndex e (localKind opcode) index)
  else if kind_in opcode [0x23; 0x24] then
    let! index := on_reader rd.u32 in
    on_stacks (fs.step e (leaf (with_Index index
      (kind (if opcode =? 0x24 then InstrGlobalSet else InstrGlobalGet)))))
  else if opcode =? 0x41 then on_reader rd.i32 ;;; on_stacks (fv.push I32)
  else if opcode =? 0x42 then on_reader rd.i64 ;;; on_stacks (fv.push I64)
  else if opcode =? 0x43 then on_reader rd.le32 ;;; on_stacks (fv.push F32)
  else if opcode =? 0x44 then on_reader rd.le64 ;;; on_stacks (fv.push F64)
  else on_stacks (fv.push zeroWord).

Definition stepDirectControlImmediate (opcode : Z) : D unit :=
  if opcode =? 0x05 then on_stacks directElse
  else if opcode =? 0x0b then on_stacks directEnd
  else
    let! index := on_reader rd.u32 in
    on_stacks (fs.stepBranch e (if opcode =? 0x0d then InstrBrIf else InstrBr) index).

Definition stepDirectCallImmediate (opcode : Z) : D unit :=
  let! index := on_reader rd.u32 in
  on_stacks
    (let! ft := fs.get_or e (ms.funcType v index) ErrUnknownFunc in
     fv.popAll e (Params ft) ;;;
     fs.returnOrPush e (opcode =? 0x12) (Results ft)).

(** ** The loop *)

(** [decodeDirectOp] and [stepDirectOp], the general path. *)
Definition generalStep (widths : memargWidths) (multi : bool) : D unit :=
  let! op := on_reader (decodeDirectOp widths multi) in on_stacks (stepDirectOp op).

Definition between (a b x : Z) : bool := (a <=? x) && (x <=? b).

(** The dispatch on the opcode under the cursor, before it is consumed. *)
Definition fastPath (widths : memargWidths) (opcode : Z) : option (D unit) :=
  if between 0x20 0x24 opcode || between 0x41 0x44 opcode
  then Some (stepDirectScalarImmediate opcode)
  else if between 0x28 0x3e opcode then
    Some (let! arg := on_reader (decodeMemArgWithWidths widths) in
          on_stacks (stepDirectMemory (memOpcodeKind opcode) arg))
  else if between 0x45 0xc4 opcode then Some (on_stacks (stepDirectNumeric (simpleOpcode opcode)))
  else if (opcode =? 0x05) || between 0x0b 0x0d opcode then Some (stepDirectControlImmediate opcode)
  else if (opcode =? 0x10) || (opcode =? 0x12) then Some (stepDirectCallImmediate opcode)
  else None.

(** One round of the loop.  [r.pos++] leaves the cursor after the opcode. *)
Definition directStep (widths : memargWidths) (multi : bool) : D unit :=
  let! s := get in
  match reader.peek (fst s) with
  | None => generalStep widths multi
  | Some opcode =>
      match fastPath widths opcode with
      | Some c => on_reader rd.byte ;;; c
      | None => generalStep widths multi
      end
  end.

(** The loop over a body with [step] as its round; every round reads a byte. *)
Fixpoint bodyLoop (fuel : nat) (round : D unit) : D unit :=
  let! s := get in
  match ctrls (snd s) with
  | [] =>
      if reader.has (fst s) then fail (decode_error ErrSectionSizeMismatch (reader.off (fst s)))
      else ret tt
  | _ :: _ =>
      match fuel with
      | O => panic
      | S fuel' => round ;;; bodyLoop fuel' round
      end
  end.

(** ** Functions *)

Definition zeroLookup : localLookup :=
  {| localParams := []; localRuns := []; localCount := 0; localRunEnds := []; localLookupWork := 0 |}.

(** The prologue [validateFunc] and [validateFuncDirect] share. *)
Definition enterFunc (locals : list LocalRun) (ft : CompType) : V unit :=
  let (count, overflow) := LocalCount (Params ft) locals in
  modify (fun s => set_lookup {| localParams := Params ft; localRuns := locals; localCount := count;
    localRunEnds := localRunEnds (lookup s); localLookupWork := localLookupWork (lookup s) |} s) ;;;
  fs.require e (negb overflow) ErrInvalidLimitRange ;;;
  fs.require e (negb (MaxFunctionLocals (limits v) <? count)) ErrInvalidLimitRange ;;;
  modify (fun s => set_lookup (prepareLocalLookup (lookup s)) s) ;;;
  forM locals (fun run => check (mt.validateValType v (LType run))) ;;;
  fv.resetLocalInitialization ;;;
  fv.pushCtrl e ctrlFunc [] (Results ft).

(** [validateFunc]: a body given as a tree. *)
Definition validateFunc (fn : Func) (ft : CompType) : V unit :=
  enterFunc (FLocals fn) ft ;;;
  fs.run (fs.step e) (Instrs (FBody fn)) ;;;
  fv.popCtrl e ;;; ret tt.

(** [validateFuncDirect], without the optional facts it gathers for the compiler. *)
Definition validateFuncDirect (locals : list LocalRun) (body : list Z) (ft : CompType)
  (widths : memargWidths) (multi : bool) : V unit :=
  let widths := with_multiMemory multi widths in
  enterFunc locals ft ;;;
  fun s =>
    let (o, rs) := bodyLoop (S (length body)) (directStep widths multi) (reader.newReader body, s) in
    (o, snd rs).

(** [beginFunc]: the stacks of the previous function are emptied. *)
Definition beginFunc : V unit := modify (fun s => set_ctrls [] (set_vals [] s)).

End Stream.

(** [validateFunction] on the function with index [localIndex] of the module. *)
Definition validateFunction (v : moduleValidator) (widths : memargWidths) (localIndex : nat) : V unit :=
  match Code_ (vm v) !! localIndex with
  | None => panic
  | Some fn =>
      let abs := Z.of_nat (length (ms.importsOfKind v ExternFunc)) + Z.of_nat localIndex in
      match ms.funcType v (to_u32 abs) with
      | None => fail (validation_error ErrUnknownType (-1))
      | Some ft =>
          let e := {| fmv := v; funcIndex := abs; constOnly := false; constGlobalLimit := 0 |} in
          beginFunc ;;;
          if negb (length (FBodyBytes fn) =? 0)%nat
          then validateFuncDirect e (FLocals fn) (FBodyBytes fn) ft widths (MultiMemory (features v))
          else validateFunc e fn ft
      end
  end.
End sd.
