(* ===== verification/FastPath.v ===== *)
(** * The short paths of the body loop

    The opcodes the loop treats without building an instruction go through the
    same reads, checks and stack changes as the general path: a round of the loop
    equals [decodeDirectOp] followed by [stepDirectOp], errors included. *)

From stdpp Require Import base tactics numbers list gmap.
From Stdlib Require Import ZArith Lia.
From S2P Require Import Prelude Reader Types Decode Kinds Instr Module ModuleDecode TypeEquiv Subtyping.
From S2P Require Import Effects Validator Step Streaming.
Local Open Scope Z_scope.

(** ** Reflexivity of subtyping *)

Lemma equalHeapType_refl h : equalHeapType h h = true.
Proof.
  unfold equalHeapType, TypeIdx_eqb. rewrite !Z.eqb_refl, Bool.eqb_reflx. cbn [negb orb andb].
  destruct (_ =? HeapDefType); [|done]. destruct (HeapType_Def h) as [[[g i] k] b].
  rewrite Bool.eqb_reflx, !Z.eqb_refl. by destruct b.
Qed.

Lemma equalValType_refl t : equalValType t t = true.
Proof.
  unfold equalValType, equalRefType. rewrite !Z.eqb_refl. cbn [negb orb]. destruct (_ =? ValRef); [|done].
  by rewrite !Bool.eqb_reflx, equalHeapType_refl.
Qed.

Lemma subtype_refl v t : mt.subtype v t t = true.
Proof. unfold mt.subtype. destruct (_ || _); [done|]. by rewrite equalValType_refl. Qed.

(** ** Instructions without a case of their own *)

Lemma kind_neq k l x : kind_in k l = false -> kind_in x l = true -> (k =? x) = false.
Proof.
  intros Hk Hx. destruct (Z.eqb_spec k x) as [->|]; [congruence|done].
Qed.

Lemma kind_in_sub k l l' : kind_in k l = false -> forallb (fun x => kind_in x l) l' = true -> kind_in k l' = false.
Proof.
  intros Hk Hl. unfold kind_in. apply not_true_is_false. intros H. apply existsb_exists in H as (x & Hx & E).
  apply Z.eqb_eq in E as <-. rewrite forallb_forall in Hl. rewrite (Hl k Hx) in Hk. done.
Qed.

(** The kinds that [step] and [proposalStep] test for. *)
Definition switched : list Z :=
  fs.wideKinds ++ fs.atomicKinds ++ fs.gcKinds ++
  [InstrUnreachable; InstrNop; InstrBlock; InstrLoop; InstrIf; InstrBr; InstrBrIf; InstrBrTable;
   InstrReturn; InstrCall; InstrReturnCall; InstrCallIndirect; InstrReturnCallIndirect; InstrDrop;
   InstrSelect; InstrLocalGet; InstrLocalSet; InstrLocalTee; InstrGlobalGet; InstrGlobalSet;
   InstrTableGet; InstrTableSet; InstrI32Const; InstrI64Const; InstrF32Const; InstrF64Const;
   InstrRefNull; InstrRefFunc; InstrRefIsNull; InstrRefEq; InstrStringConst; InstrRefAsNonNull;
   InstrBrOnNull; InstrBrOnNonNull; InstrMemoryInit; InstrMemoryCopy; InstrMemoryFill; InstrDataDrop;
   InstrTableInit; InstrTableCopy; InstrElemDrop; InstrTableSize; InstrTableGrow; InstrTableFill;
   InstrThrow; InstrThrowRef; InstrTryTable; InstrCallRef; InstrReturnCallRef].

Definition plain (k : Z) : bool :=
  (k <? numInstrKinds) && negb (kind_in k switched) && negb (IsSIMDValidationInstructionKind k).

Lemma stepKind_plain e p body thn els h s :
  plain (IKind p) = true -> fs.stepKind e p body thn els h s = fs.stackEffect e p s.
Proof.
  intros H. apply andb_true_iff in H as [H Hs%negb_true_iff].
  apply andb_true_iff in H as [_ Hk%negb_true_iff].
  unfold fs.stepKind, fs.proposalStep. cbv zeta.
  repeat match goal with
  | |- context [if (IKind p =? ?x) then _ else _] => rewrite (kind_neq _ _ x Hk) by (vm_compute; reflexivity)
  | |- context [if kind_in (IKind p) ?l then _ else _] =>
      rewrite (kind_in_sub _ _ l Hk) by (vm_compute; reflexivity)
  end.
  rewrite Hs. reflexivity.
Qed.

Section Paths.
Context (e : fenv).
Hypothesis Hconst : constOnly e = false.

Lemma step_leaf p s : IKind p < numInstrKinds -> IValTypes p = [] ->
  fs.step e (leaf p) s =
  match cat (opEffects (IKind p)) with
  | effLoad =>
      (let! addr := fs.checkMemArg e (IMemArg p) (align (opEffects (IKind p))) in
       fv.popExpect e addr ;;; fv.push (valType (ea (opEffects (IKind p))))) s
  | effStore =>
      (let! addr := fs.checkMemArg e (IMemArg p) (align (opEffects (IKind p))) in
       fv.popExpect e (valType (ea (opEffects (IKind p)))) ;;; fv.popExpect e addr) s
  | _ => fs.stepKind e p (ret tt) (ret tt) (ret tt) false s
  end.
Proof.
  intros Hk Hv. unfold leaf. cbn [fs.step fs.run length Nat.eqb negb]. unfold fs.stepNode. rewrite Hconst, Hv.
  replace (numInstrKinds <=? IKind p) with false by lia. simpl. by destruct (cat _).
Qed.

(** ** Numeric instructions *)

(** An operand that is there and matches is popped. *)
Lemma popExpect_match t s f rest x l :
  ctrls s = f :: rest -> vals s = x :: l -> (height f < length (vals s))%nat -> sd.matches t x = true ->
  fv.popExpect e t s = (Ok tt, set_vals l s).
Proof.
  intros Ec Ev Hh Hm. unfold fv.popExpect, fv.pop, fv.top, bind, get, put, ret. rewrite Ec.
  destruct (Nat.eqb_spec (length (vals s)) (height f)); [lia|]. rewrite Ev.
  unfold sd.matches in Hm. destruct (unknown x); cbn [negb andb orb] in *; [reflexivity|].
  assert (x = t) as ->.
  { unfold word2_eqb in Hm. apply andb_true_iff in Hm as [H1%Z.eqb_eq H2%Z.eqb_eq].
    destruct x, t. cbn in H1, H2. by subst. }
  rewrite subtype_refl. reflexivity.
Qed.

Definition numeric (k : Z) : bool :=
  plain k && match sd.numericShape (opEffects k) with Some _ => true | None => false end.

Lemma numeric_path k s : numeric k = true -> sd.stepDirectNumeric e k s = fs.step e (leaf (kind k)) s.
Proof.
  intros H. apply andb_true_iff in H as [Hp Hsh]. unfold sd.stepDirectNumeric. rewrite Hconst.
  destruct (sd.numericShape (opEffects k)) as [[operands output]|] eqn:Es; [|done].
  unfold fv.top, bind at 1, bind at 1, get at 1.
  assert (Hstep : fs.step e (leaf (kind k)) s = fs.stackEffect e (kind k) s).
  { rewrite step_leaf; [|simpl; apply andb_true_iff in Hp as [Hp _];
      apply andb_true_iff in Hp as [Hp%Z.ltb_lt _]; done|done].
    rewrite <- (stepKind_plain e (kind k) (ret tt) (ret tt) (ret tt) false s Hp).
    change (IKind (kind k)) with k. unfold sd.numericShape in Es. by destruct (cat (opEffects k)). }
  rewrite Hstep. unfold fs.stackEffect. change (IKind (kind k)) with k. cbv zeta.
  destruct (ctrls s) as [|f rest] eqn:Ec.
  { unfold sd.numericShape in Es. destruct (cat (opEffects k)); try done;
      unfold fv.popExpect, fv.pop, fv.top, bind, get; by rewrite Ec. }
  unfold ret, bind at 1, get. destruct (_ && _) eqn:Em; [|rewrite Hstep; done].
  apply andb_true_iff in Em as [Hl%Nat.leb_le Hm]. unfold put.
  unfold sd.numericShape in Es.
  assert (Hone : operands = 1%nat -> exists x l, vals s = x :: l /\ (height f < length (vals s))%nat /\
    sd.matches (valType (ea (opEffects k))) x = true /\ drop operands (vals s) = l).
  { intros ->. destruct (vals s) as [|x l]; [simpl in Hl; lia|]. exists x, l. simpl in *.
    rewrite andb_true_r in Hm. split_and!; try done. lia. }
  assert (Htwo : operands = 2%nat -> exists x y l, vals s = x :: y :: l /\ (S (height f) < length (vals s))%nat /\
    sd.matches (valType (ea (opEffects k))) x = true /\ sd.matches (valType (ea (opEffects k))) y = true /\
    drop operands (vals s) = l).
  { intros ->. destruct (vals s) as [|x [|y l]]; [simpl in Hl; lia..|]. exists x, y, l. simpl in *.
    rewrite andb_true_r in Hm. apply andb_true_iff in Hm as [? ?]. split_and!; try done. lia. }
  destruct (cat (opEffects k)); try done; injection Es as <- <-;
    first
    [ destruct (Hone eq_refl) as (x & l & Ev & Hh & Hx & ->); unfold bind;
      rewrite (popExpect_match _ s f rest x l) by done; done
    | destruct (Htwo eq_refl) as (x & y & l & Ev & Hh & Hx & Hy & ->); unfold bind;
      rewrite (popExpect_match _ s f rest x (y :: l)) by (done || lia); simpl;
      rewrite (popExpect_match _ (set_vals (y :: l) s) f rest y l) by
        (done || (simpl; rewrite Ev in Hh; simpl in Hh; lia)); done ].
Qed.

(** ** Memory instructions *)

Definition memory (k : Z) : bool :=
  (k <? numInstrKinds) && match cat (opEffects k) with effLoad | effStore => true | _ => false end.

Lemma memory_path k arg s : memory k = true ->
  sd.stepDirectMemory e k arg s = fs.step e (leaf (with_MemArg arg (kind k))) s.
Proof.
  intros H. apply andb_true_iff in H as [Hk%Z.ltb_lt Hc].
  rewrite step_leaf by done. change (IKind (with_MemArg arg (kind k))) with k.
  change (IMemArg (with_MemArg arg (kind k))) with arg.
  unfold sd.stepDirectMemory. cbv zeta.
  destruct (cat (opEffects k)); try done; apply bind_ext; intros address s1 _;
    unfold fv.top, bind at 1, bind at 1, get at 1.
  - destruct (ctrls s1) as [|f rest] eqn:Ec.
    { unfold bind, fv.popExpect, fv.pop, fv.top, bind, get. by rewrite Ec. }
    unfold ret, bind at 1, get. destruct (vals s1) as [|x l] eqn:Ev; [done|].
    destruct (_ && _) eqn:Em; [|done]. apply andb_true_iff in Em as [Hh%Nat.ltb_lt Hx].
    unfold bind. rewrite (popExpect_match _ s1 f rest x l) by (done || by rewrite Ev). done.
  - destruct (ctrls s1) as [|f rest] eqn:Ec.
    { unfold bind, fv.popExpect, fv.pop, fv.top, bind, get. by rewrite Ec. }
    unfold ret, bind at 1, get. destruct (vals s1) as [|x [|y l]] eqn:Ev; [done|done|].
    destruct (_ && _) eqn:Em; [|done]. apply andb_true_iff in Em as [Em Hy].
    apply andb_true_iff in Em as [Hh%Nat.leb_le Hx]. cbn [length] in Hh.
    unfold bind. rewrite (popExpect_match _ s1 f rest x (y :: l)) by (done || (rewrite Ev; simpl; lia)).
    rewrite (popExpect_match _ (set_vals (y :: l) s1) f rest y l) by (done || (simpl; lia)). done.
Qed.

(** ** Opcodes *)

(** What the general path does after the opcode [op]. *)
Definition afterOpcode (w : memargWidths) (multi : bool) (op : Z) : D unit :=
  let! d := on_reader (decodeDirectOpcode w multi op) in on_stacks (sd.stepDirectOp e d).

Lemma simple_numeric op : sd.between 0x45 0xc4 op = true ->
  simpleKind op = Some (simpleOpcode op) /\ numeric (simpleOpcode op) = true.
Proof.
  intros H. apply andb_true_iff in H as [H1%Z.leb_le H2%Z.leb_le].
  assert (H : (let k := simpleOpcode op in negb (k =? InstrInvalid) && numeric k) = true).
  { apply (Zrange_forallb (fun op => let k := simpleOpcode op in
      negb (k =? InstrInvalid) && numeric k) 0x45 128); [vm_compute; reflexivity|lia]. }
  apply andb_true_iff in H as [Hk%negb_true_iff Hn]. split; [|done]. unfold simpleKind. by rewrite Hk.
Qed.

Lemma after_numeric w multi op rs : sd.between 0x45 0xc4 op = true ->
  on_stacks (sd.stepDirectNumeric e (simpleOpcode op)) rs = afterOpcode w multi op rs.
Proof.
  intros H. destruct (simple_numeric op H) as [Hs Hn]. unfold afterOpcode, decodeDirectOpcode. rewrite Hs.
  unfold bind, on_reader, ret. destruct rs as [r s]. cbn [fst snd]. unfold on_stacks. cbn [fst snd].
  rewrite numeric_path by done. reflexivity.
Qed.

(** The memory opcodes have no case before the table of memory instructions. *)
Lemma decode_memory w multi op r : sd.between 0x28 0x3e op = true ->
  memory (memOpcodeKind op) = true /\
  decodeDirectOpcode w multi op r =
  (let! p := (let! ma := decodeMemArgWithWidths (with_multiMemory multi w) in
              ret (with_MemArg ma (kind (memOpcodeKind op)))) in
   ret (direct directInstr p zeroBlockType [])) r.
Proof.
  intros H. apply andb_true_iff in H as [H1%Z.leb_le H2%Z.leb_le].
  assert (Hin : In op (map (fun i => 0x28 + Z.of_nat i) (seq 0 23))).
  { apply in_map_iff. exists (Z.to_nat (op - 0x28)). rewrite in_seq. lia. }
  cbn [seq map] in Hin. clear H1 H2.
  repeat (destruct Hin as [<-|Hin]; [split; [vm_compute; reflexivity|reflexivity]|]). destruct Hin.
Qed.

(** A read [c] whose result makes the instruction [g]. *)
Lemma after_leaf {A} (c : R A) (g : A -> payload) (f : A -> V unit) w multi op rs :
  (forall r, decodeDirectOpcode w multi op r =
     (let! p := (let! x := c in ret (g x)) in ret (direct directInstr p zeroBlockType [])) r) ->
  (forall x s, fs.step e (leaf (g x)) s = f x s) ->
  (let! x := on_reader c in on_stacks (f x)) rs = afterOpcode w multi op rs.
Proof.
  intros Hd Hf. destruct rs as [r s]. unfold afterOpcode, bind, on_reader. cbn [fst snd]. rewrite Hd.
  unfold bind. destruct (c r) as [[x|err|] r1]; [|reflexivity..].
  cbn [ret fst snd]. unfold on_stacks, sd.stepDirectOp. cbn [fst snd direct dkind dinstr].
  rewrite Hf. reflexivity.
Qed.

Lemma after_memory w multi op rs : sd.between 0x28 0x3e op = true -> multiMemory w = multi ->
  (let! arg := on_reader (decodeMemArgWithWidths w) in
   on_stacks (sd.stepDirectMemory e (memOpcodeKind op) arg)) rs = afterOpcode w multi op rs.
Proof.
  intros H Hw. apply after_leaf with (g := fun ma => with_MemArg ma (kind (memOpcodeKind op))).
  - intros r. destruct (decode_memory w multi op r H) as [_ ->].
    by replace (with_multiMemory multi w) with w by (destruct w; simpl in *; by subst).
  - intros ma s. destruct (decode_memory w multi op (fst rs) H) as [Hm _]. by rewrite memory_path.
Qed.

(** An instruction that is neither a load nor a store. *)
Lemma step_switch p s : IKind p < numInstrKinds -> IValTypes p = [] -> cat (opEffects (IKind p)) = effNone ->
  fs.step e (leaf p) s = fs.stepKind e p (ret tt) (ret tt) (ret tt) false s.
Proof. intros H1 H2 H3. rewrite step_leaf by done. by rewrite H3. Qed.

Ltac opcode_case mk :=
  apply (after_leaf _ mk); [intros r; reflexivity|];
  intros x s; first [reflexivity|rewrite step_switch by (vm_compute; reflexivity); reflexivity].

Lemma after_scalar w multi op rs : sd.between 0x20 0x24 op || sd.between 0x41 0x44 op = true ->
  sd.stepDirectScalarImmediate e op rs = afterOpcode w multi op rs.
Proof.
  intros H. assert (Hin : In op [0x20; 0x21; 0x22; 0x23; 0x24; 0x41; 0x42; 0x43; 0x44]).
  { unfold sd.between in H. simpl. lia. }
  clear H. repeat destruct Hin as [<-|Hin]; [..|destruct Hin].
  - opcode_case (fun x => with_Index x (kind InstrLocalGet)).
  - opcode_case (fun x => with_Index x (kind InstrLocalSet)).
  - opcode_case (fun x => with_Index x (kind InstrLocalTee)).
  - opcode_case (fun x => with_Index x (kind InstrGlobalGet)).
  - opcode_case (fun x => with_Index x (kind InstrGlobalSet)).
  - opcode_case (fun x => with_I32 x (kind InstrI32Const)).
  - opcode_case (fun x => with_I64 x (kind InstrI64Const)).
  - opcode_case (fun x => with_F32Bits x (kind InstrF32Const)).
  - opcode_case (fun x => with_F64Bits x (kind InstrF64Const)).
Qed.

Lemma after_control w multi op rs : (op =? 0x05) || sd.between 0x0b 0x0d op = true ->
  sd.stepDirectControlImmediate e op rs = afterOpcode w multi op rs.
Proof.
  intros H. assert (Hin : In op [0x05; 0x0b; 0x0c; 0x0d]) by (unfold sd.between in H; simpl; lia).
  clear H. repeat destruct Hin as [<-|Hin]; [..|destruct Hin].
  - by destruct rs.
  - by destruct rs.
  - opcode_case (fun x => with_Index x (kind InstrBr)).
  - opcode_case (fun x => with_Index x (kind InstrBrIf)).
Qed.

Lemma after_call w multi op rs : (op =? 0x10) || (op =? 0x12) = true ->
  sd.stepDirectCallImmediate e op rs = afterOpcode w multi op rs.
Proof.
  intros H. assert (Hin : In op [0x10; 0x12]) by (simpl; lia).
  clear H. repeat destruct Hin as [<-|Hin]; [..|destruct Hin].
  - opcode_case (fun x => with_Index x (kind InstrCall)).
  - opcode_case (fun x => with_Index x (kind InstrReturnCall)).
Qed.

Lemma fastPath_correct w multi op c rs : multiMemory w = multi ->
  sd.fastPath e w op = Some c -> c rs = afterOpcode w multi op rs.
Proof.
  intros Hw. unfold sd.fastPath.
  destruct (_ || sd.between 0x41 0x44 op) eqn:E1; [intros [= <-]; by apply after_scalar|].
  destruct (sd.between 0x28 0x3e op) eqn:E2; [intros [= <-]; by apply after_memory|].
  destruct (sd.between 0x45 0xc4 op) eqn:E3; [intros [= <-]; by apply after_numeric|].
  destruct (_ || sd.between 0x0b 0x0d op) eqn:E4; [intros [= <-]; by apply after_control|].
  destruct (_ || (op =? 0x12)) eqn:E5; [intros [= <-]; by apply after_call|done].
Qed.

(** A round of the loop is a round of the general path. *)
Lemma directStep_general w multi rs : multiMemory w = multi ->
  sd.directStep e w multi rs = sd.generalStep e w multi rs.
Proof.
  intros Hw. destruct rs as [r s]. unfold sd.directStep, bind at 1, get. cbn [fst].
  destruct (reader.peek r) as [op|] eqn:Ep; [|reflexivity].
  destruct (sd.fastPath e w op) as [c|] eqn:Ef; [|reflexivity].
  assert (Hb : rd.byte r = (Ok op, reader.advance 1 r)).
  { unfold rd.byte. unfold reader.peek in Ep. rewrite Ep. reflexivity. }
  unfold sd.generalStep, decodeDirectOp, bind at 1, on_reader at 1. cbn [fst snd]. rewrite Hb.
  rewrite (fastPath_correct _ _ _ _ _ Hw Ef). unfold afterOpcode, bind, on_reader. cbn [fst snd].
  unfold bind. rewrite Hb. reflexivity.
Qed.

Lemma bodyLoop_ext fuel (c c' : D unit) rs : (forall rs, c rs = c' rs) ->
  sd.bodyLoop fuel c rs = sd.bodyLoop fuel c' rs.
Proof.
  intros H. revert rs. induction fuel as [|fuel IH]; intros [r s]; simpl; [done|].
  unfold bind at 1 3, get. cbn [fst snd]. destruct (ctrls s); [done|]. unfold bind. rewrite H.
  destruct (c' (r, s)) as [[[]|err|] rs']; [apply IH|done..].
Qed.
End Paths.

(** The reference validator of a body: the general path alone. *)
Definition validateFuncGeneral (e : fenv) (locals : list LocalRun) (body : list Z) (ft : CompType)
  (widths : memargWidths) (multi : bool) : V unit :=
  sd.enterFunc e locals ft ;;;
  fun s =>
    let (o, rs) := sd.bodyLoop (S (length body))
      (sd.generalStep e (with_multiMemory multi widths) multi) (reader.newReader body, s) in
    (o, snd rs).

Lemma validateFuncDirect_general e locals body ft widths multi s :
  constOnly e = false ->
  sd.validateFuncDirect e locals body ft widths multi s =
  validateFuncGeneral e locals body ft widths multi s.
Proof.
  intros He. unfold sd.validateFuncDirect, validateFuncGeneral. cbv zeta. apply bind_ext. intros [] s1 _.
  rewrite (bodyLoop_ext _ _ (sd.generalStep e (with_multiMemory multi widths) multi)); [done|].
  intros rs. by apply directStep_general.
Qed.

(** C5: the short paths of [validateFuncDirect] (locals, globals, constants, loads
    and stores, numeric instructions on matching operands, branches, calls, [else]
    and [end]) change nothing: on every body and from every state the validator
    returns the verdict, the error and the final stacks of the loop that decodes
    every operation and checks it with [stepDirectOp]. *)
Theorem fast_paths_equiv e locals body ft widths multi s :
  constOnly e = false ->
  sd.validateFuncDirect e locals body ft widths multi s =
  validateFuncGeneral e locals body ft widths multi s.
Proof. apply validateFuncDirect_general. Qed.

(** ** A function on samples *)

Definition sampleFunc : Func :=
  {| FLocals := [{| Count := 1; LType := I64 |}]; FBody := {| Instrs := []; BodyBytes := [] |};
     LocalDeclBytes := 3;
     FBodyBytes := [0x20; 0x00; 0x04; 0x7f; 0x41; 0x01; 0x05; 0x41; 0x02; 0x0b; 0x45; 0x0b] |}.

Definition sampleType : CompType :=
  {| CKind := CompFunc; Array := zeroWord; Fields := []; Params := [I32]; Results := [I32] |}.

(** One function from i32 to i32: an [if] with two arms, then [i32.eqz]. *)
Definition sampleModule : Module_ :=
  {| Customs := []; NameSec_ := None; RawNameSecPayload := [];
     Types_ := [{| SubTypes := [{| Final := true; Supers := [];
       Metadata := {| Describes := 0; Descriptor := 0 |}; Comp := sampleType; HasPrefix := false |}] |}];
     Imports := []; FuncTypes := [{| Index := 0; Rec := false |}]; Tables := []; Memories := []; Tags := [];
     StringRefs := []; Globals := []; Exports := []; Start := None; Elements := []; DataCount := None;
     Code_ := [sampleFunc]; Data_ := []; UsesCompactImports := false; BranchHints := [] |}.

Definition sampleValidator : moduleValidator :=
  {| vm := sampleModule; vdirect := None;
     features := {| CompactImports := false; MultiMemory := false; ExtendedConstGlobals := false;
                    GCConstExpr := false |};
     limits := {| MaxFunctionLocals := 65535; MaxMemoriesPerModule := 100 |};
     declaredFuncBits := []; superEnter := []; superExit := [] |}.

Definition sampleEnv : fenv :=
  {| fmv := sampleValidator; funcIndex := 0; constOnly := false; constGlobalLimit := 0 |}.

(** A validator with leftovers of an earlier function. *)
Definition usedState : fvState :=
  {| vals := [I64]; ctrls := []; lookup := sd.zeroLookup; initializedLocals := {[7]}; localInitLog := [7];
     branchTableEpoch := 3 |}.
Definition emptyState : fvState := set_vals [] usedState.

Lemma fast_paths_equiv_witness :
  fst (validateFuncGeneral sampleEnv (FLocals sampleFunc) (FBodyBytes sampleFunc) sampleType
         (fixedMemargWidths false) false emptyState) = Ok tt.
Proof.
  rewrite <- (fast_paths_equiv sampleEnv (FLocals sampleFunc) (FBodyBytes sampleFunc) sampleType
    (fixedMemargWidths false) false emptyState eq_refl).
  vm_compute. reflexivity.
Defined.
