(* ===== verification/StreamLaws.v ===== *)
(** * Validation of a body ends, within its stacks

    Every round of the body loop reads at least a byte and keeps the stack
    discipline, so the validator returns a verdict on every body: no index out of
    range, no endless loop; and a body it accepts leaves the results of the
    function on the operand stack and nothing else. *)

From stdpp Require Import base tactics numbers list gmap.
From Stdlib Require Import ZArith Lia.
From S2P Require Import Prelude Reader ReaderLaws Types Decode Kinds Instr InstrLaws Module ModuleDecode.
From S2P Require Import TypeEquiv Subtyping Effects Validator Step ValidatorLaws Streaming.
From S2P Require Import FastPath.
Local Open Scope Z_scope.

(** ** The frame of the function *)

(** The outermost frame is the one of a function with results [res], or the body
    has ended and left exactly these. *)
Definition func_frame (res : list ValType) (s : fvState) : Prop :=
  match last (ctrls s) with
  | None => vals s = rev res
  | Some f => fkind f = ctrlFunc /\ fout f = res /\ height f = 0%nat
  end.

Definition disciplined (res : list ValType) (s : fvState) : Prop := wf s /\ func_frame res s.

(** A step of the stacks from a live state. *)
Definition steps_ok (res : list ValType) {A} (c : V A) : Prop :=
  forall s, disciplined res s -> ctrls s <> [] ->
    match c s with
    | (Ok _, s') => disciplined res s'
    | (Err _, _) => True
    | (Panic, _) => False
    end.

Lemma last_cons_ne {A} (x : A) l : l <> [] -> last (x :: l) = last l.
Proof. by destruct l. Qed.

(** What matters of the outermost frame survives in the shape. *)
Definition func_view (f : ctrlFrame) : ctrlKind * list ValType * nat := (fkind f, fout f, height f).

Lemma unstamped_view l l' : unstamped l' = unstamped l -> func_view <$> last l' = func_view <$> last l.
Proof.
  intros H. assert (E : forall k, func_view <$> last k = func_view <$> last (unstamped k)).
  { intros k. change (unstamped k) with (with_epoch 0 <$> k). rewrite fmap_last. by destruct (last k). }
  by rewrite (E l'), (E l), H.
Qed.

Lemma shape_view l l' : shape l' = shape l -> func_view <$> last l' = func_view <$> last l.
Proof.
  destruct l as [|f l], l' as [|f' l']; try done. simpl. intros H.
  injection H as E1 E2 E3 E4 E5 E6 E7 E. destruct l as [|g l], l' as [|g' l']; try done.
  - unfold func_view. simpl. congruence.
  - by apply (unstamped_view (g :: l) (g' :: l')) in E.
Qed.

(** The function's frame, from any state with the same view of it. *)
Lemma func_frame_view res s s' : func_view <$> last (ctrls s') = func_view <$> last (ctrls s) ->
  ctrls s <> [] -> func_frame res s -> func_frame res s'.
Proof.
  unfold func_frame. intros H Hn. destruct (last (ctrls s)) as [f|] eqn:El; [|by apply last_None in El].
  destruct (last (ctrls s')) as [f'|]; [|done]. injection H as E1 E2 E3. intros (? & ? & ?).
  split_and!; congruence.
Qed.

Lemma func_frame_stays res s s' : ctrls s <> [] -> stays s s' -> func_frame res s -> func_frame res s'.
Proof. intros Hn Hs. apply func_frame_view; [|done]. by apply shape_view, st_ctrls. Qed.

Lemma disciplined_stays res s s' : ctrls s <> [] -> stays s s' -> disciplined res s -> disciplined res s'.
Proof. intros Hn Hs [Hw Hf]. split; [by eapply stays_wf|by eapply func_frame_stays]. Qed.

Lemma steps_framed res {A} (c : V A) : framed c -> steps_ok res c.
Proof.
  intros Hc s Hd Hn. specialize (Hc s (proj1 Hd) Hn). destruct (c s) as [[a|err|] s']; try done.
  by eapply disciplined_stays.
Qed.

(** ** Closing a frame *)

(** Every live state lies inside its innermost frame. *)
Lemma wf_inside s f rest : wf s -> ctrls s = f :: rest ->
  exists s0, wf s0 /\ ctrls s0 = rest /\ inside f s0 s.
Proof.
  intros [Hf [Hi Hn]] Ec. rewrite Ec in Hf. destruct Hf as (H1 & H2 & H3).
  set (old := drop (length (localInitLog s) - initHeight f) (localInitLog s)).
  assert (Hold : length old = initHeight f) by (unfold old; rewrite length_drop; lia).
  assert (Hsplit : localInitLog s = take (length (localInitLog s) - initHeight f) (localInitLog s) ++ old)
    by (unfold old; by rewrite take_drop).
  assert (Hnd : NoDup old).
  { rewrite Hsplit in Hn. by apply NoDup_app in Hn as (_ & _ & ?). }
  exists (set_init (list_to_set old) old (set_ctrls rest (set_vals (bottom (height f) (vals s)) s))).
  split; [split|split]; simpl.
  - by rewrite bottom_length, Hold.
  - by split.
  - done.
  - split; simpl; try done.
    + by exists rest.
    + by rewrite bottom_length.
    + by eexists.
Qed.

(** The function's frame, seen from inside and outside an inner one. *)
Lemma func_frame_inside res f s0 s : inside f s0 s -> ctrls s0 <> [] -> func_frame res s -> func_frame res s0.
Proof.
  intros [[rest [Ec Er]] _ _ _ _ _ _ _] Hn. apply func_frame_view.
  - rewrite Ec. destruct rest as [|g rest]; [by destruct (ctrls s0)|]. rewrite last_cons_ne by done.
    symmetry. by apply unstamped_view.
  - by rewrite Ec.
Qed.

(** A closed frame leaves a disciplined state, or ends the function. *)
Lemma disciplined_leaves res f s0 s s' :
  disciplined res s -> wf s0 -> inside f s0 s -> leaves f s0 s' -> disciplined res s'.
Proof.
  intros [Hw Hf] Hw0 Hi Hl. pose proof (stays_leaves _ _ _ Hl) as Hst. split; [by eapply stays_wf|].
  destruct (decide (ctrls s0 = [])) as [E|E].
  - destruct Hl as [Hv Hc _ _ _]. rewrite E in Hc. unfold func_frame in *.
    destruct (ctrls s') as [|g l]; [|done]. simpl.
    destruct Hi as [[rest [Ec Er]] Hh _ _ _ _ _ _]. rewrite E in Er. destruct rest; [|done].
    rewrite Ec in Hf. simpl in Hf. destruct Hf as (_ & <- & H0). rewrite H0 in Hh.
    destruct (vals s0); [|done]. by rewrite Hv, app_nil_r.
  - eapply func_frame_stays; [done|exact Hst|]. by eapply func_frame_inside.
Qed.

Section Direct.
Context (e : fenv) (res : list ValType).

Lemma popCtrl_disciplined s f rest : disciplined res s -> ctrls s = f :: rest ->
  match fv.popCtrl e s with
  | (Ok f', s') => f' = f /\ disciplined res s' /\ exists s0, wf s0 /\ inside f s0 s /\ leaves f s0 s'
  | (Err _, _) => True
  | (Panic, _) => False
  end.
Proof.
  intros Hd Ec. destruct (wf_inside s f rest (proj1 Hd) Ec) as (s0 & Hw0 & _ & Hi).
  pose proof (popCtrl_inside e f s0 s (proj1 Hd) Hi) as H.
  destruct (fv.popCtrl e s) as [[f'|err|] s']; try done. destruct H as [-> Hl]. split; [done|].
  split; [by eapply disciplined_leaves|]. by exists s0.
Qed.

Lemma steps_directPushCtrl k ins outs : steps_ok res (sd.directPushCtrl e k ins outs).
Proof.
  intros s Hd Hn. unfold sd.directPushCtrl, bind at 1, get. destruct (_ <=? _); [done|].
  pose proof (pushCtrl_inside e k ins outs s (proj1 Hd) Hn) as H.
  destruct (fv.pushCtrl e k ins outs s) as [[[]|err|] s1]; try done.
  destruct H as (f & s0 & Hst & Hw1 & [[rest [Ec Er]] _ _ _ _ _ _ _] & _). split; [done|].
  eapply (func_frame_view res s0); [|by eapply stays_nonempty|by eapply func_frame_stays; [..|apply Hd]].
  rewrite Ec. pose proof (stays_nonempty _ _ Hn Hst) as Hn0. rewrite last_cons_ne; [by apply unstamped_view|].
  intros ->. by destruct (ctrls s0).
Qed.

Lemma steps_bind {A B} (c : V A) (k : A -> V B) : framed c -> (forall a, steps_ok res (k a)) ->
  steps_ok res (bind c k).
Proof.
  intros Hc Hk s Hd Hn. unfold bind. specialize (Hc s (proj1 Hd) Hn). destruct (c s) as [[a|err|] s1]; try done.
  apply Hk; [by eapply disciplined_stays|by eapply stays_nonempty].
Qed.

Lemma steps_directEnd : steps_ok res (sd.directEnd e).
Proof.
  intros s Hd Hn. unfold sd.directEnd, bind at 1, get at 1.
  destruct (ctrls s) as [|f rest] eqn:Ec; [done|].
  pose proof (popCtrl_disciplined s f rest Hd Ec) as H. unfold bind at 1.
  destruct (fv.popCtrl e s) as [[f'|err|] s1]; try done. destruct H as (_ & Hd1 & _).
  destruct (bool_decide _); [|done]. unfold fs.require, bind, get.
  destruct (ifSeenElse f); [destruct (_ =? _)%nat|destruct (mt.matchValTypes _ _ _)]; done.
Qed.

Lemma steps_directElse : steps_ok res (sd.directElse e).
Proof.
  intros s Hd Hn. unfold sd.directElse, bind at 1, get at 1.
  destruct (ctrls s) as [|f rest] eqn:Ec; [done|].
  destruct (bool_decide_reflect (fkind f = ctrlIf)) as [Hk|]; [|done]. destruct (ifSeenElse f); [done|]. simpl.
  pose proof (popCtrl_disciplined s f rest Hd Ec) as H. unfold bind at 1.
  destruct (fv.popCtrl e s) as [[f'|err|] s1]; try done.
  destruct H as (-> & Hd1 & s0 & Hw0 & Hi & Hl). unfold bind at 1, get at 1.
  pose proof Hl as [Hv Hc Hlog Hin _]. pose proof Hi as [_ Hh Hih _ _ _ _ _].
  unfold bind at 1, fv.truncateVals, bind at 1, get at 1, truncate.
  rewrite Hv, Hh, length_app. replace (_ <=? _)%nat with true by (symmetry; apply Nat.leb_le; lia).
  unfold put. destruct (_ <=? _); [done|]. unfold bind, modify. rewrite pushAll_eq. simpl.
  set (s2 := set_vals _ _).
  assert (Hfr : frames_ok (length (vals s0)) (length (localInitLog s0)) (ctrls s1)).
  { apply (frames_ok_unstamped _ _ (ctrls s0)); [done|]. apply Hw0. }
  assert (Hn1 : ctrls s1 <> []).
  { intros E. destruct Hd as [_ Hff]. unfold func_frame in Hff. rewrite Ec in Hff.
    assert (rest = []) as ->.
    { destruct Hi as [[rest' [Ec' Er']] _ _ _ _ _ _ _]. rewrite Ec in Ec'. injection Ec' as <-.
      rewrite E in Hc. destruct (ctrls s0); [|done]. by destruct rest. }
    simpl in Hff. destruct Hff as (Hff & _). congruence. }
  split; [split|].
  - unfold s2. simpl. rewrite length_app, length_drop, length_app, Hlog, Hh, Hih.
    split; [lia|]. split; [lia|done].
  - unfold s2, init_ok. simpl. done.
  - eapply (func_frame_view res s1); [|done|apply Hd1]. unfold s2. simpl. by rewrite last_cons_ne.
Qed.

Lemma steps_stepDirectOp op : steps_ok res (sd.stepDirectOp e op).
Proof.
  unfold sd.stepDirectOp. destruct (dkind op).
  - apply steps_framed, framed_step.
  - apply steps_bind; [apply framed_blockSig|]. intros. apply steps_directPushCtrl.
  - apply steps_bind; [apply framed_blockSig|]. intros. apply steps_directPushCtrl.
  - apply steps_bind; [apply framed_blockSig|]. intros. apply steps_bind; [apply framed_popExpect|].
    intros. apply steps_directPushCtrl.
  - apply steps_bind; [apply framed_blockSig|]. intros.
    apply steps_bind; [apply framed_forM; intros; apply framed_validateCatchPayload|]. intros.
    apply steps_directPushCtrl.
  - apply steps_directElse.
  - apply steps_directEnd.
Qed.
End Direct.

(** ** Rounds of the loop *)

(** A computation over the cursor and the stacks that reads at least [k] bytes. *)
Definition rounds_ok (res : list ValType) {A} (k : nat) (c : D A) : Prop :=
  forall r s, reader_ok r -> disciplined res s -> ctrls s <> [] ->
    match c (r, s) with
    | (Ok _, (r', s')) => reader_ok r' /\ reader_ext k r r' /\ disciplined res s'
    | (Err _, _) => True
    | (Panic, _) => False
    end.

Lemma rounds_stacks res {A} (c : V A) : steps_ok res c -> rounds_ok res 0 (on_stacks c).
Proof.
  intros Hc r s Hr Hd Hn. unfold on_stacks. simpl. specialize (Hc s Hd Hn).
  destruct (c s) as [[a|err|] s']; try done. split; [done|]. split; [apply reader_ext_refl|done].
Qed.

(** The cursor is read before the stacks are touched. *)
Lemma rounds_reader res {A B} k k' (c : R A) Q (f : A -> D B) :
  safe k c Q -> (forall a, Q a -> rounds_ok res k' (f a)) -> rounds_ok res (k + k') (bind (on_reader c) f).
Proof.
  intros Hc Hf r s Hr Hd Hn. unfold bind, on_reader. simpl. specialize (Hc r Hr).
  destruct (c r) as [[a|err|] r1]; try done. destruct Hc as (Hr1 & He1 & Ha).
  specialize (Hf a Ha r1 s Hr1 Hd Hn). destruct (f a (r1, s)) as [[b|err|] [r2 s2]]; try done.
  destruct Hf as (Hr2 & He2 & Hd2). split; [done|]. split; [by eapply reader_ext_trans|done].
Qed.

Lemma rounds_le res {A} k k' (c : D A) : (k' <= k)%nat -> rounds_ok res k c -> rounds_ok res k' c.
Proof.
  intros Hk Hc r s Hr Hd Hn. specialize (Hc r s Hr Hd Hn). destruct (c (r, s)) as [[a|err|] [r' s']]; try done.
  destruct Hc as (? & ? & ?). split; [done|]. split; [by eapply reader_ext_le|done].
Qed.

(** Reading an immediate and using it. *)
Lemma rounds_immediate res {A B} k (c : R A) Q (f : A -> V B) :
  safe k c Q -> (forall a, steps_ok res (f a)) -> rounds_ok res 0 (let! a := on_reader c in on_stacks (f a)).
Proof.
  intros Hc Hf. apply (rounds_le _ (k + 0)); [lia|]. eapply rounds_reader; [exact Hc|].
  intros a _. by apply rounds_stacks.
Qed.

Section Rounds.
Context (e : fenv) (res : list ValType).

Lemma rounds_generalStep w multi : rounds_ok res 1 (sd.generalStep e w multi).
Proof.
  apply (rounds_reader res 1 0 _ direct_ok); [apply safe_decodeDirectOp|]. intros op _.
  apply rounds_stacks, steps_stepDirectOp.
Qed.


Lemma rounds_directStep w multi : constOnly e = false -> multiMemory w = multi ->
  rounds_ok res 1 (sd.directStep e w multi).
Proof.
  intros He Hw r s Hr Hd Hn. rewrite directStep_general by done. by apply rounds_generalStep.
Qed.

(** The loop ends: the bytes left bound its rounds. *)
Lemma bodyLoop_total round fuel r s :
  rounds_ok res 1 round -> reader_ok r -> disciplined res s ->
  (length (reader.data r) - reader.pos r < fuel)%nat ->
  match sd.bodyLoop fuel round (r, s) with
  | (Ok _, (_, s')) => disciplined res s' /\ ctrls s' = []
  | (Err _, _) => True
  | (Panic, _) => False
  end.
Proof.
  intros Hround. revert r s. induction fuel as [|fuel IH]; intros r s Hr Hd Hlt; [lia|].
  cbn [sd.bodyLoop]. unfold bind at 1, get. cbn [fst snd]. destruct (ctrls s) as [|f rest] eqn:Ec.
  { destruct (reader.has r); [done|]. split; [exact Hd|done]. }
  unfold bind. specialize (Hround r s Hr Hd). rewrite Ec in Hround. specialize (Hround ltac:(done)).
  destruct (round (r, s)) as [[[]|err|] [r1 s1]]; try done. destruct Hround as (Hr1 & He1 & Hd1).
  apply IH; [done|done|]. destruct He1 as [Hdata Hpos _ _ _]. rewrite Hdata.
  destruct Hr1 as [_ Hp1 _]. rewrite Hdata in Hp1. lia.
Qed.

(** The prologue, from emptied stacks. *)
Lemma enterFunc_disciplined locals ft s :
  vals s = [] -> ctrls s = [] ->
  match sd.enterFunc e locals ft s with
  | (Ok _, s') => disciplined (Results ft) s' /\ length (ctrls s') = 1%nat /\
      localParams (lookup s') = Params ft /\ localRuns (lookup s') = locals
  | (Err _, _) => True
  | (Panic, _) => False
  end.
Proof.
  intros Hv Hc. unfold sd.enterFunc. destruct (LocalCount (Params ft) locals) as [count overflow].
  unfold bind at 1, modify at 1. unfold fs.require. destruct overflow; [done|]. cbn [negb].
  unfold bind at 1, ret at 1. destruct (_ <? _); [done|]. cbn [negb].
  unfold bind at 1, ret at 1. unfold bind at 1, modify at 1.
  set (s1 := set_lookup _ _).
  assert (Hrun : forall l, forM l (fun run => check (mt.validateValType (fmv e) (LType run))) s1 = (Ok tt, s1) \/
    exists err s2, forM l (fun run => check (mt.validateValType (fmv e) (LType run))) s1 = (Err err, s2)).
  { induction l as [|run l IHl]; cbn [forM]; [by left|]. unfold bind, check.
    destruct (mt.validateValType _ _); [right; by eexists _, _|]. cbn [ret]. apply IHl. }
  unfold bind at 1. destruct (Hrun locals) as [-> |(err & s2 & ->)]; [|done].
  unfold bind at 1, fv.resetLocalInitialization, modify at 1. unfold fv.pushCtrl, fv.popAll. cbn [rev forM].
  unfold bind, ret, modify. rewrite pushAll_eq. unfold s1. cbn. rewrite Hv, Hc. cbn.
  split; [|done]. split; [split; cbn; [lia|]|done]. split; [done|constructor].
Qed.
End Rounds.

(** ** Functions *)

Lemma reader_ok_new body : bytes_ok body -> reader_ok (reader.newReader body).
Proof. intros H. split; [done|simpl; lia|]. split; vm_compute; split; congruence. Qed.

Lemma validateFuncDirect_total e locals body ft widths multi s :
  constOnly e = false -> bytes_ok body -> vals s = [] -> ctrls s = [] ->
  match sd.validateFuncDirect e locals body ft widths multi s with
  | (Ok _, s') => disciplined (Results ft) s' /\ ctrls s' = []
  | (Err _, _) => True
  | (Panic, _) => False
  end.
Proof.
  intros He Hb Hv Hc. unfold sd.validateFuncDirect, bind. cbv zeta.
  pose proof (enterFunc_disciplined e locals ft s Hv Hc) as H.
  destruct (sd.enterFunc e locals ft s) as [[[]|err|] s1]; try done. destruct H as (Hd & _ & _).
  pose proof (bodyLoop_total (Results ft) (sd.directStep e (with_multiMemory multi widths) multi)
    (S (length body)) (reader.newReader body) s1) as Hl.
  specialize (Hl (rounds_directStep e (Results ft) _ _ He eq_refl) (reader_ok_new body Hb) Hd).
  specialize (Hl ltac:(simpl; lia)).
  destruct (sd.bodyLoop _ _ _) as [[[]|err|] [r s2]]; done.
Qed.

Lemma validateFunc_total e fn ft s :
  vals s = [] -> ctrls s = [] ->
  match sd.validateFunc e fn ft s with
  | (Ok _, s') => disciplined (Results ft) s' /\ ctrls s' = []
  | (Err _, _) => True
  | (Panic, _) => False
  end.
Proof.
  intros Hv Hc. unfold sd.validateFunc, bind at 1.
  pose proof (enterFunc_disciplined e (FLocals fn) ft s Hv Hc) as H.
  destruct (sd.enterFunc e (FLocals fn) ft s) as [[[]|err|] s1]; try done. destruct H as (Hd & Hn & _).
  unfold bind at 1. assert (Hne : ctrls s1 <> []) by by destruct (ctrls s1).
  pose proof (framed_run (fs.step e) (Instrs (FBody fn))
    ltac:(apply Forall_forall; intros; apply framed_step) s1 (proj1 Hd) Hne) as Hst.
  destruct (fs.run _ _ s1) as [[[]|err|] s2]; try done.
  assert (Hd2 : disciplined (Results ft) s2) by (by eapply disciplined_stays).
  assert (Hone : exists f, ctrls s2 = [f]).
  { pose proof (f_equal length (st_ctrls _ _ Hst)) as E. unfold shape, unstamped in E.
    destruct (ctrls s1) as [|f1 [|g1 l1]], (ctrls s2) as [|f2 [|g2 l2]]; try done. by exists f2. }
  destruct Hone as [f Ef]. pose proof (popCtrl_disciplined e _ s2 f [] Hd2 Ef) as Hp.
  unfold bind, ret. destruct (fv.popCtrl e s2) as [[f'|err|] s3]; try done.
  destruct Hp as (_ & Hd3 & s0 & _ & [[rest [Ec Er]] _ _ _ _ _ _ _] & [_ Hc3 _ _ _]). split; [done|].
  rewrite Ef in Ec. injection Ec as <-. rewrite <- Er in Hc3. by destruct (ctrls s3).
Qed.

(** States of the loop over one body. *)
Inductive reached (e : fenv) (w : memargWidths) (multi : bool) : reader.t * fvState -> reader.t * fvState -> Prop :=
| reached_here rs : reached e w multi rs rs
| reached_round rs r s rs' :
    reached e w multi rs (r, s) -> ctrls s <> [] -> sd.directStep e w multi (r, s) = (Ok tt, rs') ->
    reached e w multi rs rs'.

Lemma reached_disciplined e w multi res rs rs' :
  constOnly e = false -> multiMemory w = multi -> reached e w multi rs rs' ->
  reader_ok (fst rs) -> disciplined res (snd rs) -> reader_ok (fst rs') /\ disciplined res (snd rs').
Proof.
  intros He Hw H Hr Hd. induction H as [|rs r s [r' s'] H IH Hn Hs]; [done|].
  destruct (IH Hr Hd) as [Hr1 Hd1]. pose proof (rounds_directStep e res w multi He Hw r s Hr1 Hd1 Hn) as Hround.
  rewrite Hs in Hround. by destruct Hround as (? & _ & ?).
Qed.

Lemma validateFunction_returns v widths i s fn :
  Code_ (vm v) !! i = Some fn -> bytes_ok (FBodyBytes fn) ->
  match sd.validateFunction v widths i s with
  | (Ok _, s') => ctrls s' = [] /\
      exists ft, ms.funcType v (to_u32 (Z.of_nat (length (ms.importsOfKind v ExternFunc)) + Z.of_nat i)) = Some ft /\
        vals s' = rev (Results ft)
  | (Err _, _) => True
  | (Panic, _) => False
  end.
Proof.
  intros Hfn Hb. unfold sd.validateFunction. rewrite Hfn. destruct (ms.funcType v _) as [ft|]; [|done].
  unfold bind at 1, sd.beginFunc, modify. set (s0 := set_ctrls [] (set_vals [] s)).
  assert (Hend : forall s', disciplined (Results ft) s' /\ ctrls s' = [] ->
    ctrls s' = [] /\ exists ft', Some ft = Some ft' /\ vals s' = rev (Results ft')).
  { intros s' [[_ Hf] Hc]. split; [done|]. exists ft. split; [done|]. unfold func_frame in Hf. by rewrite Hc in Hf. }
  destruct (negb _).
  - set (e := {| fmv := v; funcIndex := _; constOnly := _; constGlobalLimit := _ |}).
    pose proof (validateFuncDirect_total e (FLocals fn) (FBodyBytes fn) ft widths (MultiMemory (features v)) s0
      eq_refl Hb eq_refl eq_refl) as H.
    destruct (sd.validateFuncDirect _ _ _ _ _ _ s0) as [[[]|err|] s1]; try done. by apply Hend.
  - set (e := {| fmv := v; funcIndex := _; constOnly := _; constGlobalLimit := _ |}).
    pose proof (validateFunc_total e fn ft s0 eq_refl eq_refl) as H.
    destruct (sd.validateFunc _ _ _ s0) as [[[]|err|] s1]; try done. by apply Hend.
Qed.

(** C3: validation of a function returns on every body, given as bytes or as a tree,
    and whatever the reused validator holds from the functions before: it neither
    indexes its stacks out of range nor loops.  When it accepts, every block has
    been closed and the operands left are exactly the results of the function. *)
Theorem validateFunction_total v widths i s fn :
  Code_ (vm v) !! i = Some fn -> bytes_ok (FBodyBytes fn) ->
  match sd.validateFunction v widths i s with
  | (Ok _, s') => ctrls s' = [] /\
      exists ft, ms.funcType v (to_u32 (Z.of_nat (length (ms.importsOfKind v ExternFunc)) + Z.of_nat i)) = Some ft /\
        vals s' = rev (Results ft)
  | (Err _, _) => True
  | (Panic, _) => False
  end.
Proof. apply validateFunction_returns. Qed.

(** C4: the stack discipline is an invariant of the body loop.  In every state reached
    from the entry of a function, the frames of the control stack are nested (each
    starts at or above the height and the initialization watermark of the one it is
    in, and none above the operands present), the set of initialized locals is its
    log without repetition, and the outermost frame is the function's, with its
    results, until the last [end] has left exactly these on the stack. *)
Theorem loop_invariant e locals ft s s1 body w multi r' s' :
  constOnly e = false -> multiMemory w = multi -> bytes_ok body ->
  vals s = [] -> ctrls s = [] -> sd.enterFunc e locals ft s = (Ok tt, s1) ->
  reached e w multi (reader.newReader body, s1) (r', s') ->
  frames_ok (length (vals s')) (length (localInitLog s')) (ctrls s') /\
  initializedLocals s' = list_to_set (localInitLog s') /\ NoDup (localInitLog s') /\
  func_frame (Results ft) s'.
Proof.
  intros He Hw Hb Hv Hc Henter Hreach. pose proof (enterFunc_disciplined e locals ft s Hv Hc) as H.
  rewrite Henter in H. destruct H as (Hd & _).
  destruct (reached_disciplined e w multi (Results ft) _ _ He Hw Hreach (reader_ok_new body Hb) Hd)
    as [_ [[Hf [Hi Hn]] Hff]]. done.
Qed.

Lemma sample_bytes : bytes_ok (FBodyBytes sampleFunc).
Proof. unfold sampleFunc. cbn [FBodyBytes]. repeat (apply Forall_cons_2; [unfold byte_ok; lia|]). apply Forall_nil_2. Qed.

Lemma validateFunction_total_witness :
  exists s', sd.validateFunction sampleValidator (fixedMemargWidths false) 0 usedState = (Ok tt, s') /\
    vals s' = [I32].
Proof.
  pose proof (validateFunction_total sampleValidator (fixedMemargWidths false) 0 usedState sampleFunc
    eq_refl sample_bytes) as H.
  assert (E : fst (sd.validateFunction sampleValidator (fixedMemargWidths false) 0 usedState) = Ok tt)
    by (vm_compute; reflexivity).
  assert (Et : ms.funcType sampleValidator
    (to_u32 (Z.of_nat (length (ms.importsOfKind sampleValidator ExternFunc)) + Z.of_nat 0)) = Some sampleType)
    by (vm_compute; reflexivity).
  destruct (sd.validateFunction sampleValidator (fixedMemargWidths false) 0 usedState) as [o s'].
  cbn [fst] in E. subst o. exists s'. split; [reflexivity|]. destruct H as [_ (ft & Hft & Hv)].
  rewrite Et in Hft. injection Hft as <-. exact Hv.
Defined.

Definition sampleWidths : memargWidths := with_multiMemory false (fixedMemargWidths false).

(** Two rounds into the sample: inside the [if]. *)
Lemma loop_invariant_witness :
  exists r' s', reached sampleEnv sampleWidths false
      (reader.newReader (FBodyBytes sampleFunc),
       snd (sd.enterFunc sampleEnv (FLocals sampleFunc) sampleType emptyState)) (r', s') /\
    length (ctrls s') = 2%nat /\
    frames_ok (length (vals s')) (length (localInitLog s')) (ctrls s').
Proof.
  set (s1 := snd (sd.enterFunc sampleEnv (FLocals sampleFunc) sampleType emptyState)).
  set (round := sd.directStep sampleEnv sampleWidths false).
  set (rs0 := (reader.newReader (FBodyBytes sampleFunc), s1)).
  set (rs1 := snd (round rs0)). set (rs2 := snd (round rs1)).
  assert (H0 : round rs0 = (Ok tt, rs1)).
  { rewrite (surjective_pairing (round rs0)). f_equal. }
  assert (H1 : round rs1 = (Ok tt, rs2)).
  { rewrite (surjective_pairing (round rs1)). f_equal. }
  assert (Hr : reached sampleEnv sampleWidths false rs0 rs2).
  { apply (reached_round _ _ _ _ (fst rs1) (snd rs1)); [|vm_compute; congruence|rewrite <- surjective_pairing; exact H1].
    apply (reached_round _ _ _ _ (fst rs0) (snd rs0)); [apply reached_here|vm_compute; congruence|].
    rewrite <- !surjective_pairing. exact H0. }
  exists (fst rs2), (snd rs2). split; [rewrite <- surjective_pairing; exact Hr|].
  split; [vm_compute; reflexivity|].
  assert (He : sd.enterFunc sampleEnv (FLocals sampleFunc) sampleType emptyState = (Ok tt, s1)).
  { unfold s1. rewrite (surjective_pairing (sd.enterFunc _ _ _ _)) at 1. f_equal. }
  rewrite (surjective_pairing rs2) in Hr.
  exact (proj1 (loop_invariant sampleEnv (FLocals sampleFunc) sampleType emptyState s1 (FBodyBytes sampleFunc)
    sampleWidths false (fst rs2) (snd rs2) eq_refl eq_refl sample_bytes eq_refl eq_refl He Hr)).
Defined.
