(* ===== verification/TypeValid.v ===== *)
(** * The type section (validate_gc_helpers.go, validate.go)

    The checks of declared types outside the bodies: scopes of the types a
    definition mentions, the supertype declarations with their structural match,
    descriptor metadata, the search for cycles, and the numbering of the supertype
    forest that answers ancestor queries by intervals. *)

From stdpp Require Import base tactics numbers list gmap.
From Stdlib Require Import ZArith Lia.
From S2P Require Import Prelude Reader Types Module ModuleDecode TypeEquiv Subtyping Validator.
Local Open Scope Z_scope.

(** [return v.err(c, ...)] of the module validator. *)
Definition merr {A} (c : ValidationErrorCode) : V A := fail (validation_error c (-1)).
Definition mrequire (b : bool) (c : ValidationErrorCode) : V unit := if b then ret tt else merr c.

(** [for i, x := range l] *)
Definition indexed {A} (l : list A) : list (Z * A) := imap (fun i x => (Z.of_nat i, x)) l.

Module tv.
Section Types.
Context (v : moduleValidator).
Local Abbreviation m := (vm v).

(** ** Component types *)

Definition validateStorageTypeInRecGroup (st : StorageType) (recGroup : Z) : gerror :=
  if StorageType_Packed st then
    if (StorageType_Pack st =? PackI8) || (StorageType_Pack st =? PackI16) then None
    else v_err ErrUnknownType
  else mt.validateValTypeInRecGroup v (StorageType_Val st) recGroup.

Definition validateFieldTypeInRecGroup (ft : FieldType) (recGroup : Z) : gerror :=
  validateStorageTypeInRecGroup (FieldType_Storage ft) recGroup.

Definition validateCompTypeInRecGroup (ct : CompType) (recGroup : Z) : V unit :=
  if CKind ct =? CompFunc then
    forM (Params ct) (fun t => check (mt.validateValTypeInRecGroup v t recGroup)) ;;;
    forM (Results ct) (fun t => check (mt.validateValTypeInRecGroup v t recGroup))
  else if CKind ct =? CompStruct then
    forM (Fields ct) (fun f => check (validateFieldTypeInRecGroup f recGroup))
  else if CKind ct =? CompArray then check (validateFieldTypeInRecGroup (Array ct) recGroup)
  else merr ErrUnknownType.

(** An optional index of the metadata is absent or in scope. *)
Definition validOptional (o : OptionalTypeIdx) (recGroup : Z) : bool :=
  let (idx, present) := OptionalTypeIdx_Get o in
  negb (present && negb (mt.validTypeIdxInRecGroup v idx recGroup)).

(** One supertype declared by member [si] of group [gi]. *)
Definition validateSuper (gi si : Z) (sup : TypeIdx) : V unit :=
  mrequire (mt.validTypeIdxInRecGroup v sup gi) ErrUnknownType ;;;
  mrequire (negb (Rec sup && (to_u32 si <=? Index sup))) ErrTypeMismatch.

Definition validateSubType (gi si : Z) (st : SubType) : V unit :=
  mrequire (length (Supers st) <=? 1)%nat ErrTypeMismatch ;;;
  forM (Supers st) (validateSuper gi si) ;;;
  mrequire (validOptional (Describes (Metadata st)) gi) ErrUnknownType ;;;
  mrequire (validOptional (Descriptor (Metadata st)) gi) ErrUnknownType ;;;
  validateCompTypeInRecGroup (Comp st) gi.

(** The loop of [validateModule] over the recursive groups. *)
Definition validateTypes : V unit :=
  forM (indexed (Types_ m)) (fun '(gi, rt) =>
    forM (indexed (SubTypes rt)) (fun '(si, st) => validateSubType gi si st)).

(** ** Structural match of a subtype with its supertype *)

Definition subVal (a : ValType) (aGroup : Z) (b : ValType) (bGroup : Z) : bool :=
  let a := mt.resolveValTypeRecIndexes v a aGroup in
  let b := mt.resolveValTypeRecIndexes v b bGroup in
  if ValType_Kind a =? ValBot then true
  else if negb (ValType_Kind a =? ValType_Kind b) || negb (ValType_Num a =? ValType_Num b) then false
  else negb (ValType_Kind a =? ValRef) || mt.refSubtype v (ValType_Ref a) (ValType_Ref b).

Definition storageSubtype (a : StorageType) (aGroup : Z) (b : StorageType) (bGroup : Z) : bool :=
  if StorageType_Packed a || StorageType_Packed b then
    Bool.eqb (StorageType_Packed a) (StorageType_Packed b) && (StorageType_Pack a =? StorageType_Pack b)
  else subVal (StorageType_Val a) aGroup (StorageType_Val b) bGroup.

Definition fieldSubtype (a : FieldType) (aGroup : Z) (b : FieldType) (bGroup : Z) : bool :=
  if negb (FieldType_Mut a =? FieldType_Mut b) then false
  else if negb (storageSubtype (FieldType_Storage a) aGroup (FieldType_Storage b) bGroup) then false
  else (FieldType_Mut a =? Const) || storageSubtype (FieldType_Storage b) bGroup (FieldType_Storage a) aGroup.

Definition compTypeSubtype (sub : CompType) (subGroup : Z) (sup : CompType) (supGroup : Z) : bool :=
  if negb (CKind sub =? CKind sup) then false
  else if CKind sub =? CompFunc then
    (length (Params sub) =? length (Params sup))%nat && (length (Results sub) =? length (Results sup))%nat
    && equal_all (fun b a => subVal b supGroup a subGroup) (Params sup) (Params sub)
    && equal_all (fun a b => subVal a subGroup b supGroup) (Results sub) (Results sup)
  else if CKind sub =? CompStruct then
    (length (Fields sup) <=? length (Fields sub))%nat
    && equal_all (fun b a => fieldSubtype a subGroup b supGroup) (Fields sup)
         (take (length (Fields sup)) (Fields sub))
  else if CKind sub =? CompArray then fieldSubtype (Array sub) subGroup (Array sup) supGroup
  else false.

(** ** Descriptors *)

(** [checkLink] of [validateDescriptorMetadata] *)
Definition checkLink (st : SubType) (recGroup member : Z) (idx : TypeIdx) (describesEdge : bool) : V unit :=
  match Types_ m !! Z.to_nat recGroup with
  | None => panic
  | Some g =>
      mrequire (negb (negb (Rec idx) || (to_u32 (Z.of_nat (length (SubTypes g))) <=? Index idx)))
        ErrTypeMismatch ;;;
      mrequire (negb (describesEdge && (to_u32 member <=? Index idx))) ErrTypeMismatch ;;;
      match SubTypes g !! Z.to_nat (Index idx) with
      | None => panic
      | Some other =>
          mrequire (CKind (Comp other) =? CompStruct) ErrTypeMismatch ;;;
          mrequire (Bool.eqb (Final st) (Final other)) ErrTypeMismatch ;;;
          let (back, present) := OptionalTypeIdx_Get
            (if describesEdge then Descriptor (Metadata other) else Describes (Metadata other)) in
          mrequire (negb (negb present || negb (TypeIdx_eqb back {| Index := to_u32 member; Rec := true |})))
            ErrTypeMismatch
      end
  end.

Definition validateDescriptorMetadata (st : SubType) (recGroup member : Z) : V unit :=
  let (describes, hasDescribes) := OptionalTypeIdx_Get (Describes (Metadata st)) in
  let (descriptor, hasDescriptor) := OptionalTypeIdx_Get (Descriptor (Metadata st)) in
  if negb hasDescribes && negb hasDescriptor then ret tt
  else
    mrequire (CKind (Comp st) =? CompStruct) ErrTypeMismatch ;;;
    (if hasDescribes then checkLink st recGroup member describes true else ret tt) ;;;
    (if hasDescriptor then checkLink st recGroup member descriptor false else ret tt).

Definition validateDescriptorSubtypeEdge (sub : OptionalTypeIdx) (subGroup : Z) (sup : OptionalTypeIdx)
  (supGroup : Z) : V unit :=
  let (subIdx, subPresent) := OptionalTypeIdx_Get sub in
  let (supIdx, supPresent) := OptionalTypeIdx_Get sup in
  if negb (Bool.eqb subPresent supPresent) then merr ErrTypeMismatch
  else if negb subPresent then ret tt
  else
    match mv.flatTypeIdxInRecGroup m subIdx subGroup, mv.flatTypeIdxInRecGroup m supIdx supGroup with
    | Some subFlat, Some supFlat =>
        match mv.subtypeByFlatTypeIdx m subFlat with
        | Some (descriptor, descriptorGroup) =>
            match Supers descriptor with
            | [sup0] =>
                match mv.flatTypeIdxInRecGroup m sup0 descriptorGroup with
                | None => merr ErrUnknownType
                | Some descriptorSuper => mrequire (descriptorSuper =? supFlat) ErrTypeMismatch
                end
            | _ => merr ErrTypeMismatch
            end
        | None => merr ErrTypeMismatch
        end
    | _, _ => merr ErrUnknownType
    end.

Definition validateDescriptorSubtypeMetadata (sub : SubType) (subGroup : Z) (sup : SubType) (supGroup : Z)
  : V unit :=
  validateDescriptorSubtypeEdge (Descriptor (Metadata sub)) subGroup (Descriptor (Metadata sup)) supGroup ;;;
  validateDescriptorSubtypeEdge (Describes (Metadata sub)) subGroup (Describes (Metadata sup)) supGroup.

(** ** Supertype declarations *)

Definition validateSuperEdge (st : SubType) (recGroup : Z) (supIdx : TypeIdx) : V unit :=
  match mv.flatTypeIdxInRecGroup m supIdx recGroup with
  | None => merr ErrUnknownType
  | Some supFlat =>
      match mv.subtypeByFlatTypeIdx m supFlat with
      | None => merr ErrUnknownType
      | Some (sup, supGroup) =>
          mrequire (negb (Final sup)) ErrTypeMismatch ;;;
          mrequire (CKind (Comp st) =? CKind (Comp sup)) ErrTypeMismatch ;;;
          validateDescriptorSubtypeMetadata st recGroup sup supGroup ;;;
          mrequire (compTypeSubtype (Comp st) recGroup (Comp sup) supGroup) ErrTypeMismatch
      end
  end.

(** The first loop of [validateSubtypeMetadata], on one flattened type. *)
Definition validateFlatType (flatIdx : Z) (cur : SubType * nat) : V unit :=
  let (st, g) := cur in
  let recGroup := Z.of_nat g in
  match mv.typeGroupBases m !! g with
  | None => panic
  | Some base =>
      let member := flatIdx - base in
      (if OptionalTypeIdx_Present (Describes (Metadata st)) || OptionalTypeIdx_Present (Descriptor (Metadata st))
       then validateDescriptorMetadata st recGroup member else ret tt) ;;;
      forM (Supers st) (validateSuperEdge st recGroup)
  end.

(** ** The search for cycles *)

Definition ancestryDepth : Z := 32.

(** [state] and [hasDeepSuper]. *)
Definition C (A : Type) : Type := M (list Z * bool) error A.

Definition cerr {A} (c : ValidationErrorCode) : C A := fail (validation_error c (-1)).

(** The depth of a chain through a parent whose state is [x]. *)
Definition parentDepth (x : Z) : Z :=
  let d := to_u8 (x - 2) in if d <? ancestryDepth then to_u8 (d + 1) else d.

(** [visit], with [panic] when the fuel runs out. *)
Fixpoint visitChain (fuel : nat) (i : Z) : C unit :=
  match fuel with
  | O => panic
  | S fuel' =>
      let! s := get in
      match fst s !! Z.to_nat i, mv.flatSubTypes m !! Z.to_nat i with
      | Some x, Some (st, g) =>
          if x =? 1 then cerr ErrTypeMismatch
          else if 2 <=? x then ret tt
          else
            modify (fun s => (<[Z.to_nat i := 1]> (fst s), snd s)) ;;;
            let! depth := foldM (Supers st) (fun depth supIdx =>
              match mv.flatTypeIdxInRecGroup m supIdx (Z.of_nat g) with
              | None => cerr ErrUnknownType
              | Some sup =>
                  visitChain fuel' sup ;;;
                  let! s := get in
                  match fst s !! Z.to_nat sup with
                  | None => panic
                  | Some y => ret (if depth <? parentDepth y then parentDepth y else depth)
                  end
              end) 0 in
            modify (fun s => (<[Z.to_nat i := to_u8 (depth + 2)]> (fst s), snd s || (depth =? ancestryDepth)))
      | _, _ => panic
      end
  end.

(** Every nested call finds a type in state 0 and leaves it in state 1. *)
Definition chainFuel : nat := S (length (mv.flatSubTypes m)).

Definition visitAll : C unit :=
  forM (seqZ 0 (Z.of_nat (length (mv.flatSubTypes m)))) (visitChain chainFuel).

(** ** The numbering of the supertype forest *)

(** [^uint32(0)] *)
Definition none : Z := 2 ^ 32 - 1.

(** The slices [parent], [firstChild] and [nextSibling], each as long as the type
    index. *)
Record links : Set := { parent : list Z; firstChild : list Z; nextSibling : list Z }.

Definition noLinks (n : nat) : links :=
  {| parent := replicate n none; firstChild := replicate n none; nextSibling := replicate n 0 |}.

(** [super, _ := v.flatTypeIdxInRecGroup(...)]: zero when it is out of scope. *)
Definition superOf (sup : TypeIdx) (g : nat) : Z :=
  default 0 (mv.flatTypeIdxInRecGroup m sup (Z.of_nat g)).

(** [None] is an index out of range. *)
Definition addLink (l : links) (entry : Z * (SubType * nat)) : option links :=
  let '(i, (st, g)) := entry in
  match Supers st with
  | [] => Some l
  | sup :: _ =>
      let super := superOf sup g in
      head ← firstChild l !! Z.to_nat super;
      Some {| parent := <[Z.to_nat i := to_u32 super]> (parent l);
              firstChild := <[Z.to_nat super := to_u32 i]> (firstChild l);
              nextSibling := <[Z.to_nat i := head]> (nextSibling l) |}
  end.

(** The state of the walk: the child lists it consumes, the intervals, the clock
    and the current type. *)
Record walk : Set := { children : list Z; enter : list Z; exit : list Z; tick : Z; cur : Z }.

(** [cur = x; tick++; v.superEnter[cur] = tick] *)
Definition enterAt (x : Z) (children : list Z) (w : walk) : walk :=
  let t := to_u32 (tick w + 1) in
  {| children := children; enter := <[Z.to_nat x := t]> (enter w); exit := exit w; tick := t; cur := x |}.

(** The inner loop from a root.  Each round removes a child link or leaves a type. *)
Fixpoint descend (fuel : nat) (l : links) (root : Z) (w : walk) : option walk :=
  match fuel with
  | O => None
  | S fuel' =>
      child ← children w !! Z.to_nat (cur w);
      if negb (child =? none) then
        sibling ← nextSibling l !! Z.to_nat child;
        descend fuel' l root (enterAt child (<[Z.to_nat (cur w) := sibling]> (children w)) w)
      else
        let w := {| children := children w; enter := enter w;
                    exit := <[Z.to_nat (cur w) := tick w]> (exit w); tick := tick w; cur := cur w |} in
        if cur w =? root then Some w
        else
          up ← parent l !! Z.to_nat (cur w);
          descend fuel' l root {| children := children w; enter := enter w; exit := exit w;
                                  tick := tick w; cur := up |}
  end.

Definition descendRoot (l : links) (w : walk) (root : Z) : option walk :=
  p ← parent l !! Z.to_nat root;
  if negb (p =? none) then Some w
  else descend (S (2 * length (parent l))) l root (enterAt root (children w) w).

Definition foldOption {A B} (f : B -> A -> option B) : list A -> B -> option B :=
  fix go l b := match l with [] => Some b | x :: rest => b' ← f b x; go rest b' end.

(** [superEnter] and [superExit] *)
Definition buildSupertypeAncestry : option (list Z * list Z) :=
  let flat := mv.flatSubTypes m in
  let n := length flat in
  l ← foldOption addLink (indexed flat) (noLinks n);
  w ← foldOption (descendRoot l) (seqZ 0 (Z.of_nat n))
        {| children := firstChild l; enter := replicate n 0; exit := replicate n 0; tick := 0; cur := 0 |};
  Some (enter w, exit w).

(** ** The whole check *)

Definition hasSuper : bool :=
  existsb (fun r => negb (length (Supers (fst r)) =? 0)%nat) (mv.flatSubTypes m).

(** [hasDeepSuper && len(flat) >= 64 && ...] *)
Definition wantsAncestry (hasDeepSuper : bool) : bool :=
  let n := Z.of_nat (length (mv.flatSubTypes m)) in
  hasDeepSuper && (64 <=? n) && (n <=? none) && (n <=? (2 ^ 63 - 1) / 3).

Definition with_intervals (i : list Z * list Z) : moduleValidator :=
  {| vm := vm v; vdirect := vdirect v; features := features v; limits := limits v;
     declaredFuncBits := declaredFuncBits v; superEnter := fst i; superExit := snd i |}.

(** [validateSubtypeMetadata]; the result is the validator with its intervals. *)
Definition validateSubtypeMetadata : V moduleValidator :=
  let flat := mv.flatSubTypes m in
  forM (indexed flat) (fun '(i, c) => validateFlatType i c) ;;;
  if negb hasSuper then ret v
  else
    match visitAll (replicate (length flat) 0, false) with
    | (Ok _, (_, hasDeepSuper)) =>
        if wantsAncestry hasDeepSuper then
          match buildSupertypeAncestry with Some i => ret (with_intervals i) | None => panic end
        else ret v
    | (Err e, _) => fail e
    | (Panic, _) => panic
    end.

End Types.
End tv.
