(* ===== verification/ModuleValid.v ===== *)
(** * Validation of a module (validate.go, validate_bytebacked.go)

    The declarations of a module, its constant expressions, and the validation of
    the whole module: declared functions are collected first, then every section
    is checked in the order of the source, then the function bodies.  [V] here
    threads the scratch validator [constFV] the constant expressions share. *)

From stdpp Require Import base tactics numbers list gmap.
From Stdlib Require Import ZArith Lia.
From S2P Require Import Prelude Reader Types Decode Kinds Instr Module ModuleDecode TypeEquiv Subtyping.
From S2P Require Import Effects Validator Step Streaming TypeValid.
Local Open Scope Z_scope.

(** A fresh [funcValidator]. *)
Definition zeroState : fvState :=
  {| vals := []; ctrls := []; lookup := sd.zeroLookup; initializedLocals := ∅; localInitLog := [];
     branchTableEpoch := 0 |}.

Definition maxTable32Limit : Z := 2 ^ 32 - 1.
Definition maxMemory32Pages : Z := 2 ^ 16.
Definition maxMemory64Pages : Z := 2 ^ 48.

Module mm.
Section Declared.
Context (v : moduleValidator).
Local Abbreviation m := (vm v).

Definition count (kind : Z) (defined : nat) : Z :=
  Z.of_nat (length (ms.importsOfKind v kind)) + Z.of_nat defined.
Definition funcCount : Z := count ExternFunc (length (FuncTypes m)).

(** ** Declared function references *)

(** The bit set has a word for every function once it is allocated. *)
Definition declareFunc (bits : list Z) (idx : Z) : list Z :=
  if funcCount <=? idx then bits
  else
    let bits := if (length bits =? 0)%nat then replicate (Z.to_nat ((funcCount + 63) / 64)) 0 else bits in
    alter (fun word => Z.lor word (Z.shiftl 1 (idx mod 64))) (Z.to_nat (idx / 64)) bits.

(** The walk over the bytes of an initializer; a malformed operation ends it.
    [None] is a panic or fuel that ran out. *)
Fixpoint declaredInBytes (fuel : nat) (bits : list Z) (r : reader.t) : option (list Z) :=
  if negb (reader.has r) then Some bits
  else
    match fuel with
    | O => None
    | S fuel' =>
        match decodeDirectOp (fixedMemargWidths false) false r with
        | (Ok op, r') =>
            declaredInBytes fuel'
              (if (match dkind op with directInstr => true | _ => false end)
                  && (IKind (dinstr op) =? InstrRefFunc)
               then declareFunc bits (IIndex (dinstr op)) else bits) r'
        | (Err _, _) => Some bits
        | (Panic, _) => None
        end
    end.

Definition payloadOf (i : Instruction) : payload := match i with Node p _ _ _ => p end.

Definition collectDeclaredFuncsInExpr (bits : list Z) (expr : Expr) : option (list Z) :=
  if (length (BodyBytes expr) =? 0)%nat then
    Some (foldl (fun bits i => if IKind (payloadOf i) =? InstrRefFunc
                               then declareFunc bits (IIndex (payloadOf i)) else bits) bits (Instrs expr))
  else declaredInBytes (length (BodyBytes expr)) bits (reader.newReader (BodyBytes expr)).

Definition collectElem (bits : list Z) (elem : Elem) : option (list Z) :=
  let k := EElems elem in
  if EKKind k =? ElemFuncs then Some (foldl declareFunc bits (EKFuncs k))
  else if (EKKind k =? ElemFuncExprs) || (EKKind k =? ElemTypedExprs)
  then tv.foldOption collectDeclaredFuncsInExpr (EKExprs k) bits
  else Some bits.

Definition collectDeclaredFuncs : option (list Z) :=
  let bits := foldl (fun bits ex => if XKind (XIdx ex) =? ExternFunc
                                    then declareFunc bits (XIndex (XIdx ex)) else bits)
                [] (Exports m) in
  bits ← tv.foldOption (fun bits t => match TInit t with
                                      | Some e => collectDeclaredFuncsInExpr bits e
                                      | None => Some bits
                                      end) (Tables m) bits;
  bits ← tv.foldOption (fun bits g => collectDeclaredFuncsInExpr bits (GInit g)) (Globals m) bits;
  tv.foldOption collectElem (Elements m) bits.

Definition with_declared (bits : list Z) : moduleValidator :=
  {| vm := vm v; vdirect := vdirect v; features := features v; limits := limits v;
     declaredFuncBits := bits; superEnter := superEnter v; superExit := superExit v |}.
End Declared.

Section Sections.
Context (v : moduleValidator).
Local Abbreviation m := (vm v).

(** ** Declared types of tables, memories, globals, tags and imports *)

Definition validateTagType (tag : TagType) : gerror :=
  match mt.funcTypeFromTypeIdx v (TagIdx_ tag) with
  | None => v_err ErrUnknownType
  | Some ft => if negb (length (Results ft) =? 0)%nat then v_err ErrTypeMismatch else None
  end.

(** [limit > bound || (hasMax && max > bound)] *)
Definition exceeds (bound min max : Z) (hasMax : bool) : bool :=
  (bound <? min) || (hasMax && (bound <? max)).

Definition validateTableType (tab : TableType) : gerror :=
  match mt.validateRefType v (TRef tab) with
  | Some e => Some e
  | None =>
      let l := TLimits tab in
      if negb (Addr64 l) && exceeds maxTable32Limit (Min l) (Max l) (HasMax l)
      then v_err ErrInvalidLimitRange
      else if HasMax l && (Max l <? Min l) then v_err ErrInvalidLimitRange
      else None
  end.

Definition validateMemType (mt : MemType) : gerror :=
  let l := MLimits mt in
  if Shared mt && negb (HasMax l) then v_err ErrInvalidSharedMemory
  else if exceeds (if Addr64 l then maxMemory64Pages else maxMemory32Pages) (Min l) (Max l) (HasMax l)
  then v_err ErrInvalidLimitRange
  else if HasMax l && (Max l <? Min l) then v_err ErrInvalidLimitRange
  else None.

Definition validateGlobalType (gt : GlobalType) : gerror := mt.validateValType v (GType gt).

(** The packed form of an import, checked without unpacking it. *)
Definition validateExternType (et : ExternType) : gerror :=
  let has := has_bit (eflags et) in
  let hasMax := has externTypeHasMax in
  if EKind et =? ExternFunc then
    match mt.funcTypeFromTypeIdx v (ExternType_FuncType et) with
    | None => v_err ErrUnknownType
    | Some _ => None
    end
  else if EKind et =? ExternTable then
    match mt.validateRefType v (ValType_Ref (evalue et)) with
    | Some e => Some e
    | None =>
        if negb (has externTypeAddr64) && exceeds maxTable32Limit (emin et) (emax et) hasMax
        then v_err ErrInvalidLimitRange
        else if hasMax && (emax et <? emin et) then v_err ErrInvalidLimitRange
        else None
    end
  else if EKind et =? ExternMem then
    if has externTypeShared && negb hasMax then v_err ErrInvalidSharedMemory
    else if has externTypeAddr64 then
      if exceeds maxMemory64Pages (emin et) (emax et) hasMax then v_err ErrInvalidLimitRange
      else if hasMax && (emax et <? emin et) then v_err ErrInvalidLimitRange
      else None
    else if exceeds maxMemory32Pages (emin et) (emax et) hasMax then v_err ErrInvalidLimitRange
    else if hasMax && (emax et <? emin et) then v_err ErrInvalidLimitRange
    else None
  else if EKind et =? ExternGlobal then mt.validateValType v (evalue et)
  else if EKind et =? ExternTag then validateTagType (ExternType_TagType et)
  else None.

Definition validExternIdx (x : ExternIdx) : bool :=
  let below kind defined := XIndex x <? count v kind defined in
  if XKind x =? ExternFunc then below ExternFunc (length (FuncTypes m))
  else if XKind x =? ExternTable then below ExternTable (length (Tables m))
  else if XKind x =? ExternMem then below ExternMem (length (Memories m))
  else if XKind x =? ExternGlobal then below ExternGlobal (length (Globals m))
  else if XKind x =? ExternTag then below ExternTag (length (Tags m))
  else false.

(** ** Constant expressions *)

Definition constEnv (globalLimit : Z) : fenv :=
  {| fmv := v; funcIndex := -1; constOnly := true; constGlobalLimit := globalLimit |}.

(** One round of the loop over the bytes of a constant expression. *)
Definition constRound (e : fenv) : D unit :=
  let! op := on_reader (decodeDirectOp (fixedMemargWidths false) false) in
  match dkind op with
  | directInstr | directEnd => on_stacks (sd.stepDirectOp e op)
  | _ => on_stacks (fv.verr e ErrConstExprRequired)
  end.

Definition validateConstExprDirectWithGlobalLimit (body : list Z) (want : ValType) (globalLimit : Z) : V unit :=
  let e := constEnv globalLimit in
  sd.beginFunc ;;;
  fv.pushCtrl e ctrlFunc [] [want] ;;;
  fun s =>
    let (o, rs) := sd.bodyLoop (S (length body)) (constRound e) (reader.newReader body, s) in (o, snd rs).

(** A tree is checked by a validator of its own. *)
Definition validateConstExprWithGlobalLimit (ex : Expr) (want : ValType) (globalLimit : Z) : V unit :=
  if negb (length (BodyBytes ex) =? 0)%nat
  then validateConstExprDirectWithGlobalLimit (BodyBytes ex) want globalLimit
  else
    let e := constEnv globalLimit in
    fun s =>
      (fst ((sd.beginFunc ;;;
             fv.pushCtrl e ctrlFunc [] [want] ;;;
             fs.run (fs.step e) (Instrs ex) ;;;
             fv.popCtrl e ;;; ret tt) zeroState), s).

Definition allGlobals : Z := count v ExternGlobal (length (Globals m)).

Definition validateConstExpr (ex : Expr) (want : ValType) : V unit :=
  validateConstExprWithGlobalLimit ex want allGlobals.

Definition validateConstExprDirect (body : list Z) (want : ValType) : V unit :=
  validateConstExprDirectWithGlobalLimit body want allGlobals.

(** ** Element segments *)

Definition addrType (addr64 : bool) : ValType := if addr64 then I64 else I32.

Definition validateElemPayload (e : Elem) : V RefType :=
  let k := EElems e in
  if EKKind k =? ElemFuncs then
    forM (EKFuncs k) (fun f => mrequire (f <? funcCount v) ErrUnknownFunc) ;;;
    ret (Ref false (AbsHeap HeapFunc) false)
  else if EKKind k =? ElemFuncExprs then
    forM (EKExprs k) (fun ex => validateConstExpr ex FuncRef) ;;; ret (ValType_Ref FuncRef)
  else if EKKind k =? ElemTypedExprs then
    check (mt.validateRefType v (EKRef k)) ;;;
    forM (EKExprs k) (fun ex => validateConstExpr ex (RefVal (EKRef k))) ;;; ret (EKRef k)
  else merr ErrTypeMismatch.

Definition validateDirectElemPayload (e : directElem) : V RefType :=
  if deKind e =? ElemFuncs then
    mrequire (negb (deHasFuncs e && (funcCount v <=? deMaxFunc e))) ErrUnknownFunc ;;;
    ret (Ref false (AbsHeap HeapFunc) false)
  else if deKind e =? ElemFuncExprs then
    forM (deExprs e) (fun ex => validateConstExprDirect ex FuncRef) ;;; ret (ValType_Ref FuncRef)
  else if deKind e =? ElemTypedExprs then
    check (mt.validateRefType v (deRef e)) ;;;
    forM (deExprs e) (fun ex => validateConstExprDirect ex (RefVal (deRef e))) ;;; ret (deRef e)
  else merr ErrTypeMismatch.

(** The table of an active segment, its offset and the match of the types. *)
Definition validateActive (table : Z) (offset : ValType -> V unit) (elemRef : RefType) : V unit :=
  match ms.tableType v table with
  | None => merr ErrUnknownTable
  | Some tab =>
      offset (addrType (Addr64 (TLimits tab))) ;;;
      mrequire (mt.refSubtype v elemRef (TRef tab)) ErrTypeMismatch
  end.

Definition validateElem (e : Elem) : V unit :=
  let! elemRef := validateElemPayload e in
  if EMKind (EMode e) =? ElemActive
  then validateActive (EMTable (EMode e)) (validateConstExpr (EMOffset (EMode e))) elemRef
  else ret tt.

Definition validateDirectElem (e : directElem) : V unit :=
  let! elemRef := validateDirectElemPayload e in
  if deMode e =? ElemActive then validateActive (deTable e) (validateConstExprDirect (deOffset e)) elemRef
  else ret tt.

(** ** The loops of [validateModule] after the types *)

Definition importedGlobals : Z := Z.of_nat (length (ms.importsOfKind v ExternGlobal)).

(** [i < len(v.direct.tableHasInit) && v.direct.tableHasInit[i]] *)
Definition directHasInit (d : directValidationEnv) (i : Z) : bool :=
  from_option id false (tableHasInit d !! Z.to_nat i).

Definition validateTable (i : Z) (t : Table) : V unit :=
  check (validateTableType (TType t)) ;;;
  let want := RefVal (TRef (TType t)) in
  let! hasInit :=
    match vdirect v with
    | Some d =>
        if directHasInit d i then
          match tableInits d !! Z.to_nat i with
          | None => panic
          | Some body => validateConstExprDirectWithGlobalLimit body want importedGlobals ;;; ret true
          end
        else ret false
    | None =>
        match TInit t with
        | Some ex => validateConstExprWithGlobalLimit ex want importedGlobals ;;; ret true
        | None => ret false
        end
    end in
  mrequire (negb (negb hasInit && negb (RefType_Nullable (TRef (TType t))))) ErrTypeMismatch.

Definition validateGlobal (i : Z) (g : Global) : V unit :=
  check (validateGlobalType (GTy g)) ;;;
  let globalLimit := importedGlobals + i in
  match vdirect v with
  | Some d =>
      match globalInits d !! Z.to_nat i with
      | None => merr ErrTypeMismatch
      | Some body => validateConstExprDirectWithGlobalLimit body (GType (GTy g)) globalLimit
      end
  | None => validateConstExprWithGlobalLimit (GInit g) (GType (GTy g)) globalLimit
  end.

Definition memoryCount : Z := count v ExternMem (length (Memories m)).

Definition validateMemories : V unit :=
  forM (Memories m) (fun mem => check (validateMemType mem)) ;;;
  mrequire (negb ((1 <? memoryCount) && negb (MultiMemory (features v)))) ErrUnsupportedFeature ;;;
  mrequire (negb (MaxMemoriesPerModule (limits v) <? memoryCount)) ErrResourceLimitExceeded.

(** The exports, with the names seen so far. *)
Fixpoint validateExports (seen : gset (list Z)) (exports : list Export) : V unit :=
  match exports with
  | [] => ret tt
  | ex :: rest =>
      if decide (XName ex ∈ seen) then merr ErrDuplicateExport
      else
        mrequire (validExternIdx (XIdx ex)) ErrUnknownFunc ;;;
        validateExports ({[XName ex]} ∪ seen) rest
  end.

Definition validateStart : V unit :=
  match Start m with
  | None => ret tt
  | Some f =>
      match ms.funcType v (to_u32 f) with
      | None => merr ErrUnknownFunc
      | Some ft =>
          mrequire (negb (negb (length (Params ft) =? 0)%nat || negb (length (Results ft) =? 0)%nat))
            ErrTypeMismatch
      end
  end.

Definition validateElements : V unit :=
  match vdirect v with
  | Some d => forM (elements d) validateDirectElem
  | None => forM (Elements m) validateElem
  end.

Definition validateData (d : Data) : V unit :=
  let mode := DMode d in
  if DMKind mode =? DataActive then
    match ms.memoryProperties v (DMMem mode) with
    | None => merr ErrUnknownMemory
    | Some flags =>
        let want := addrType (has_bit flags externTypeAddr64) in
        match vdirect v with
        | Some _ =>
            let body := BodyBytes (DMOffset mode) in
            mrequire (negb (length body =? 0)%nat) ErrTypeMismatch ;;; validateConstExprDirect body want
        | None => validateConstExpr (DMOffset mode) want
        end
    end
  else ret tt.

Definition validateDataCount : V unit :=
  match DataCount m with
  | Some n => mrequire (n =? Z.of_nat (length (Data_ m))) ErrInvalidDataCount
  | None => ret tt
  end.

(** Every section after the types. *)
Definition validateSections : V unit :=
  forM (Imports m) (fun im => check (validateExternType (IType im))) ;;;
  forM (FuncTypes m) (fun ti =>
    mrequire (negb (negb (mv.validTypeIdx m ti)
              || match mt.funcTypeFromTypeIdx v ti with Some _ => false | None => true end)) ErrUnknownType) ;;;
  forM (indexed (Tables m)) (fun '(i, t) => validateTable i t) ;;;
  validateMemories ;;;
  forM (Tags m) (fun tag => check (validateTagType tag)) ;;;
  forM (indexed (Globals m)) (fun '(i, g) => validateGlobal i g) ;;;
  validateExports ∅ (Exports m) ;;;
  validateStart ;;;
  validateElements ;;;
  forM (Data_ m) validateData ;;;
  validateDataCount.

End Sections.

(** [validateModule]: the validator the functions are then checked with. *)
Definition validateModule (v : moduleValidator) : V moduleValidator :=
  mrequire (length (FuncTypes (vm v)) =? length (Code_ (vm v)))%nat ErrUnknownFunc ;;;
  mrequire (negb (UsesCompactImports (vm v) && negb (CompactImports (features v)))) ErrUnsupportedFeature ;;;
  match collectDeclaredFuncs v with
  | None => panic
  | Some bits =>
      let v := with_declared v bits in
      tv.validateTypes v ;;;
      let! v := tv.validateSubtypeMetadata v in
      validateSections v ;;;
      ret v
  end.

(** ** Function bodies, one after the other *)

Definition widthsOf (v : moduleValidator) : memargWidths := moduleMemargWidths (vm v).

(** [validateFunctionsSerial]: one validator is reused for every body. *)
Definition validateFunctionsSerial (v : moduleValidator) : V unit :=
  forM (seq 0 (length (Code_ (vm v)))) (sd.validateFunction v (widthsOf v)).

(** ** Entry points *)

Definition DefaultMaxFunctionLocals : Z := 2 ^ 16 - 1.
Definition DefaultMaxMemoriesPerModule : Z := 100.
Definition MaximumFunctionLocals : Z := 2 ^ 16 - 1.
Definition MaximumMemoriesPerModule : Z := 4096.

Definition defaultValidationLimits : ValidationLimits :=
  {| MaxFunctionLocals := DefaultMaxFunctionLocals; MaxMemoriesPerModule := DefaultMaxMemoriesPerModule |}.

(** Zero fields select the defaults. *)
Definition effectiveLimits (l : ValidationLimits) : ValidationLimits :=
  {| MaxFunctionLocals :=
       if MaxFunctionLocals l =? 0 then DefaultMaxFunctionLocals else MaxFunctionLocals l;
     MaxMemoriesPerModule :=
       if MaxMemoriesPerModule l =? 0 then DefaultMaxMemoriesPerModule else MaxMemoriesPerModule l |}.

Definition newValidator (m : Module_) (direct : option directValidationEnv) (f : ValidationFeatures)
  (l : ValidationLimits) : moduleValidator :=
  {| vm := m; vdirect := direct; features := f; limits := l; declaredFuncBits := []; superEnter := [];
     superExit := [] |}.

(** [validateModuleWithWorkersFeaturesAndLimits] up to the function phase, with that
    phase as an argument; no module is Go's nil. *)
Definition validateModuleWith (phase : moduleValidator -> outcome error unit) (m : option Module_)
  (direct : option directValidationEnv) (f : ValidationFeatures) (l : ValidationLimits)
  : outcome error unit :=
  match m with
  | None => Err (validation_error ErrTypeMismatch (-1))
  | Some m =>
      let l := effectiveLimits l in
      if MaximumFunctionLocals <? MaxFunctionLocals l then Err (validation_error ErrInvalidLimitRange (-1))
      else if MaximumMemoriesPerModule <? MaxMemoriesPerModule l
      then Err (validation_error ErrInvalidLimitRange (-1))
      else
        match fst (validateModule (newValidator m direct f l) zeroState) with
        | Ok v => phase v
        | Err e => Err e
        | Panic => Panic
        end
  end.

Definition serialPhase (v : moduleValidator) : outcome error unit :=
  fst (validateFunctionsSerial v zeroState).

Definition noFeatures : ValidationFeatures :=
  {| CompactImports := false; MultiMemory := false; ExtendedConstGlobals := false; GCConstExpr := false |}.

Definition ValidateModule (m : option Module_) : outcome error unit :=
  validateModuleWith serialPhase m None noFeatures defaultValidationLimits.

Definition ValidateModuleWithFeatures (m : option Module_) (f : ValidationFeatures) : outcome error unit :=
  validateModuleWith serialPhase m None f defaultValidationLimits.

(** [validateDecodedByteBackedModule] on the result of the byte-backed decoder. *)
Definition validateDecodedByteBackedModule (dm_ : option directModule) (f : ValidationFeatures)
  (l : ValidationLimits) : outcome error unit :=
  match dm_ with
  | None => Err (validation_error ErrTypeMismatch (-1))
  | Some d => validateModuleWith serialPhase (Some (dm d)) (Some (direct_ d)) f l
  end.

(** [validateByteBackedModule]: decoding, then validation, under one set of features. *)
Definition validateByteBackedModule (data : list Z) (f : ValidationFeatures) (l : ValidationLimits)
  : outcome error unit :=
  match DecodeModuleByteBackedWithLimits data (MultiMemory f) zeroLimits with
  | Ok d => validateDecodedByteBackedModule (Some d) f l
  | Err e => Err e
  | Panic => Panic
  end.

Definition ValidateByteBackedModule (data : list Z) : outcome error unit :=
  validateByteBackedModule data noFeatures defaultValidationLimits.
End mm.
