(* ===== verification/Stamps.v ===== *)
(** * Reuse of a validator

    One [funcValidator] checks many functions.  What it keeps from the functions
    before, the counter that stamps the labels of branch tables, does not change
    the outcome: two runs from states that agree but for stamps return the same
    value or the same error and end in states that agree again.  The proof is
    relational and compositional; the stamps matter only inside [br_table], where
    both runs find the same labels marked. *)

From stdpp Require Import base tactics numbers list gmap.
From Stdlib Require Import ZArith Lia.
From S2P Require Import Prelude Reader Types Decode Kinds Instr Module ModuleDecode TypeEquiv Subtyping.
From S2P Require Import Effects Validator Step ValidatorLaws Streaming FastPath.
Local Open Scope Z_scope.

(** ** States that agree but for stamps *)

(** No label carries a stamp of a later table. *)
Definition stamps_ok (s : fvState) : Prop :=
  0 <= branchTableEpoch s < 2 ^ 32 /\ Forall (fun f => 0 <= fepoch f <= branchTableEpoch s) (ctrls s).

Record sim (s s' : fvState) : Prop := {
  sim_vals : vals s = vals s';
  sim_ctrls : unstamped (ctrls s) = unstamped (ctrls s');
  sim_lookup : lookup s = lookup s';
  sim_init : initializedLocals s = initializedLocals s';
  sim_log : localInitLog s = localInitLog s';
  sim_left : stamps_ok s;
  sim_right : stamps_ok s'
}.

Definition feq (f f' : ctrlFrame) : Prop := with_epoch 0 f = with_epoch 0 f'.

Definition marked (s : fvState) (f : ctrlFrame) : bool := fepoch f =? branchTableEpoch s.

(** Inside a branch table: the same labels are marked. *)
Definition sim_marked (s s' : fvState) : Prop :=
  sim s s' /\ Forall2 (fun f f' => marked s f = marked s' f') (ctrls s) (ctrls s').

(** Relations the operand stack can change under. *)
Class StackRel (R : fvState -> fvState -> Prop) : Prop := {
  rel_sim s s' : R s s' -> sim s s';
  rel_vals l s s' : R s s' -> R (set_vals l s) (set_vals l s')
}.

#[export] Instance sim_stack : StackRel sim.
Proof. split; [done|]. intros l s s' []. by split. Qed.

#[export] Instance sim_marked_stack : StackRel sim_marked.
Proof. split; [by intros s s' [? _]|]. intros l s s' [H M]. split; [by apply rel_vals|done]. Qed.

(** ** Two runs *)

(** Runs of [c] and [c'] from related states. *)
Definition same {A} (R : fvState -> fvState -> Prop) (RA : A -> A -> Prop) (c c' : V A) : Prop :=
  forall s s', R s s' ->
  match c s, c' s' with
  | (Ok a, t), (Ok a', t') => RA a a' /\ R t t'
  | (Err e, _), (Err e', _) => e = e'
  | (Panic, _), (Panic, _) => True
  | _, _ => False
  end.

Create HintDb same.

Section Monad.
Context {R : fvState -> fvState -> Prop}.

Lemma same_ret {A} (RA : A -> A -> Prop) a a' : RA a a' -> same R RA (ret a) (ret a').
Proof. intros H s s' Hs. by split. Qed.

Lemma same_ret_eq {A} (a : A) : same R eq (ret a) (ret a).
Proof. by apply same_ret. Qed.

Lemma same_fail {A} (RA : A -> A -> Prop) err : same R RA (fail err) (fail err).
Proof. by intros s s' _. Qed.

Lemma same_panic {A} (RA : A -> A -> Prop) : same R RA panic panic.
Proof. by intros s s' _. Qed.

Lemma same_bind {A B} (RA : A -> A -> Prop) (RB : B -> B -> Prop) c c' k k' :
  same R RA c c' -> (forall a a', RA a a' -> same R RB (k a) (k' a')) ->
  same R RB (bind c k) (bind c' k').
Proof.
  intros Hc Hk s s' Hs. specialize (Hc s s' Hs). unfold bind.
  destruct (c s) as [[a|err|] t], (c' s') as [[a'|err'|] t']; try done.
  destruct Hc as [Ha Ht]. by apply Hk.
Qed.

Lemma same_bind_eq {A B} (RB : B -> B -> Prop) (c c' : V A) k k' :
  same R eq c c' -> (forall a, same R RB (k a) (k' a)) -> same R RB (bind c k) (bind c' k').
Proof. intros Hc Hk. eapply same_bind; [done|]. by intros a _ <-. Qed.

Lemma same_get {B} (RB : B -> B -> Prop) k k' :
  (forall t t', R t t' -> same R RB (k t) (k' t')) -> same R RB (bind get k) (bind get k').
Proof. intros H s s' Hs. unfold bind, get. by apply H. Qed.

Lemma same_modify f f' :
  (forall s s', R s s' -> R (f s) (f' s')) -> same R eq (modify f) (modify f').
Proof. intros H s s' Hs. split; [done|]. by apply H. Qed.

Lemma same_put t t' : R t t' -> same R eq (put t) (put t').
Proof. intros H s s' _. by split. Qed.

Lemma same_forM {A} (f f' : A -> V unit) l :
  (forall a, same R eq (f a) (f' a)) -> same R eq (forM l f) (forM l f').
Proof.
  intros H. induction l; simpl; [apply same_ret_eq|]. by apply same_bind_eq.
Qed.

Lemma same_check e : same R eq (check e) (check e).
Proof. destruct e; [apply same_fail|apply same_ret_eq]. Qed.
End Monad.

#[export] Hint Resolve same_ret_eq same_fail same_panic same_check : same.

(** ** Frames *)

Lemma feq_fields f f' : feq f f' ->
  fin f = fin f' /\ fout f = fout f' /\ height f = height f' /\ initHeight f = initHeight f' /\
  ifThenHeight f = ifThenHeight f' /\ fkind f = fkind f' /\ funreachable f = funreachable f' /\
  ifSeenElse f = ifSeenElse f'.
Proof. destruct f, f'. intros H. injection H. intros. by subst. Qed.

Lemma unstamped_cons f l l' :
  unstamped (f :: l) = unstamped l' -> exists f' k, l' = f' :: k /\ feq f f' /\ unstamped l = unstamped k.
Proof.
  destruct l' as [|f' k]; [done|]. cbn [unstamped map]. intros H. injection H. intros. exists f', k.
  split; [done|]. split; [|done]. unfold feq, with_epoch. by f_equal.
Qed.

Lemma unstamped_length l l' : unstamped l = unstamped l' -> length l = length l'.
Proof. intros H. apply (f_equal length) in H. unfold unstamped in H. by rewrite !length_map in H. Qed.

Lemma unstamped_lookup l l' i f :
  unstamped l = unstamped l' -> l !! i = Some f -> exists f', l' !! i = Some f' /\ feq f f'.
Proof.
  intros H Hf. apply (f_equal (fun k => k !! i)) in H. unfold unstamped in H.
  rewrite !list_lookup_fmap, Hf in H. simpl in H. destruct (l' !! i) as [f'|]; [|done].
  exists f'. split; [done|]. unfold feq. simpl in H. congruence.
Qed.

Lemma unstamped_last l l' :
  unstamped l = unstamped l' ->
  match last l, last l' with
  | Some f, Some f' => feq f f'
  | None, None => True
  | _, _ => False
  end.
Proof.
  intros H. rewrite !last_lookup, (unstamped_length _ _ H).
  destruct (l !! _) as [f|] eqn:E.
  - by destruct (unstamped_lookup _ _ _ _ H E) as (f' & -> & ?).
  - destruct (l' !! _) as [f'|] eqn:E'; [|done].
    destruct (unstamped_lookup _ _ _ _ (eq_sym H) E') as (f & Ef & _). congruence.
Qed.

(** ** Primitives that only touch the operands *)

Section Operands.
Context (e : fenv) (R : fvState -> fvState -> Prop) `{!StackRel R}.

Lemma same_verr {A} (RA : A -> A -> Prop) c : same R RA (fv.verr e c) (fv.verr e c).
Proof. apply same_fail. Qed.

Lemma same_require b c : same R eq (fs.require e b c) (fs.require e b c).
Proof. unfold fs.require. destruct b; [apply same_ret_eq|apply same_verr]. Qed.

Lemma same_get_or {A} (o : option A) c : same R eq (fs.get_or e o c) (fs.get_or e o c).
Proof. destruct o; [apply same_ret_eq|apply same_verr]. Qed.

Lemma same_top : same R feq fv.top fv.top.
Proof.
  apply same_get. intros t t' Ht. apply rel_sim, sim_ctrls in Ht. destruct (ctrls t) as [|f l] eqn:E.
  - destruct (ctrls t'); [|done]. apply same_panic.
  - apply unstamped_cons in Ht as (f' & k & -> & Hf & _). by apply same_ret.
Qed.

Lemma same_outermost : same R feq fv.outermost fv.outermost.
Proof.
  apply same_get. intros t t' Ht. apply rel_sim, sim_ctrls, unstamped_last in Ht.
  by destruct (last (ctrls t)), (last (ctrls t')).
Qed.

Lemma same_push t : same R eq (fv.push t) (fv.push t).
Proof. apply same_modify. intros s s' H. rewrite (sim_vals _ _ (rel_sim _ _ H)). by apply rel_vals. Qed.

Lemma same_pushAll ts : same R eq (fv.pushAll ts) (fv.pushAll ts).
Proof. induction ts; simpl; [apply same_ret_eq|]. apply same_bind_eq; [apply same_push|done]. Qed.

(** [set_vals] of a value taken from the state. *)
Lemma same_set_vals l : same R eq (modify (set_vals l)) (modify (set_vals l)).
Proof. apply same_modify. intros. by apply rel_vals. Qed.

Lemma same_pop : same R eq (fv.pop e) (fv.pop e).
Proof.
  unfold fv.pop. eapply same_bind; [apply same_top|]. intros f f' Hf. apply feq_fields in Hf.
  destruct Hf as (_ & _ & -> & _ & _ & _ & -> & _). apply same_get. intros t t' Ht.
  rewrite (sim_vals _ _ (rel_sim _ _ Ht)).
  destruct (_ =? _)%nat; [destruct (funreachable f'); [apply same_ret_eq|apply same_verr]|].
  destruct (vals t') as [|x rest]; [apply same_panic|].
  apply same_bind_eq; [by apply same_put, rel_vals|]. intros _. apply same_ret_eq.
Qed.

Lemma same_popExpect t : same R eq (fv.popExpect e t) (fv.popExpect e t).
Proof.
  apply same_bind_eq; [apply same_pop|]. intros x. destruct (_ && _); [apply same_verr|apply same_ret_eq].
Qed.

Lemma same_popAll ts : same R eq (fv.popAll e ts) (fv.popAll e ts).
Proof. apply same_forM, same_popExpect. Qed.

Lemma same_label d : same R eq (fv.label e d) (fv.label e d).
Proof.
  apply same_get. intros t t' Ht. apply rel_sim, sim_ctrls in Ht. rewrite (unstamped_length _ _ Ht).
  destruct (_ <=? _); [apply same_verr|]. destruct (ctrls t !! _) as [f|] eqn:E.
  - destruct (unstamped_lookup _ _ _ _ Ht E) as (f' & -> & Hf). apply feq_fields in Hf.
    destruct Hf as (-> & -> & _ & _ & _ & -> & _). apply same_ret_eq.
  - destruct (ctrls t' !! _) as [f'|] eqn:E'; [|apply same_panic].
    destruct (unstamped_lookup _ _ _ _ (eq_sym Ht) E') as (f & Ef & _). congruence.
Qed.

Lemma same_blockSig bt : same R eq (fv.blockSig e bt) (fv.blockSig e bt).
Proof.
  unfold fv.blockSig. destruct (_ =? _); [apply same_ret_eq|]. destruct (_ =? _).
  { apply same_bind_eq; [apply same_check|]. intros _. apply same_ret_eq. }
  destruct (_ =? _); [|apply same_verr]. destruct (mt.funcTypeFromTypeIdx _ _); [apply same_ret_eq|apply same_verr].
Qed.

(** The payload of a branch is put back after it was checked. *)
Lemma same_restore (c : V unit) :
  same R eq c c ->
  same R eq (let! payload := get in c ;;; modify (set_vals (vals payload)))
            (let! payload := get in c ;;; modify (set_vals (vals payload))).
Proof.
  intros Hc. apply same_get. intros t t' Ht. rewrite (sim_vals _ _ (rel_sim _ _ Ht)).
  apply same_bind_eq; [done|]. intros _. apply same_set_vals.
Qed.
End Operands.

#[export] Hint Resolve same_verr same_require same_get_or same_push same_pushAll same_set_vals same_pop
  same_popExpect same_popAll same_label same_blockSig : same.

(** ** Primitives on frames and locals *)

Lemma sim_set_ctrls l l' s s' :
  sim s s' -> unstamped l = unstamped l' ->
  Forall (fun f => 0 <= fepoch f <= branchTableEpoch s) l ->
  Forall (fun f => 0 <= fepoch f <= branchTableEpoch s') l' -> sim (set_ctrls l s) (set_ctrls l' s').
Proof. intros [Hv Hc Hl Hi Hg [B1 F1] [B2 F2]] H H1 H2. by split. Qed.

Lemma sim_tail s s' : sim s s' -> sim (set_ctrls (tail (ctrls s)) s) (set_ctrls (tail (ctrls s')) s').
Proof.
  intros Hs. pose proof (sim_ctrls _ _ Hs) as Hc. destruct (sim_left _ _ Hs) as [_ F1].
  destruct (sim_right _ _ Hs) as [_ F2]. apply sim_set_ctrls; [done|..].
  - destruct (ctrls s) as [|f l]; [by destruct (ctrls s')|].
    by apply unstamped_cons in Hc as (f' & k & -> & _ & ?).
  - destruct (ctrls s); [done|]. by apply Forall_cons_1 in F1 as [_ ?].
  - destruct (ctrls s'); [done|]. by apply Forall_cons_1 in F2 as [_ ?].
Qed.

(** A frame pushed with stamp zero. *)
Lemma sim_push_frame f s s' :
  fepoch f = 0 -> sim s s' -> sim (set_ctrls (f :: ctrls s) s) (set_ctrls (f :: ctrls s') s').
Proof.
  intros Hf Hs. pose proof (sim_ctrls _ _ Hs) as Hc. destruct (sim_left _ _ Hs) as [B1 F1].
  destruct (sim_right _ _ Hs) as [B2 F2]. apply sim_set_ctrls; [done|..].
  - cbn [unstamped map]. f_equal. exact Hc.
  - apply Forall_cons_2; [lia|done].
  - apply Forall_cons_2; [lia|done].
Qed.

Lemma sim_set_lookup l s s' : sim s s' -> sim (set_lookup l s) (set_lookup l s').
Proof. intros []. by split. Qed.

Lemma sim_set_init i l s s' : sim s s' -> sim (set_init i l s) (set_init i l s').
Proof. intros []. by split. Qed.

Section Frames.
Context (e : fenv).

Lemma same_truncateVals n : same sim eq (fv.truncateVals n) (fv.truncateVals n).
Proof.
  apply same_get. intros t t' Ht. rewrite (sim_vals _ _ Ht). destruct (truncate _ _); [|apply same_panic].
  by apply same_put, rel_vals.
Qed.

Lemma same_unreachable : same sim eq fv.unreachable fv.unreachable.
Proof.
  eapply same_bind; [apply same_top, _|]. intros f f' Hf. apply feq_fields in Hf.
  destruct Hf as (_ & _ & -> & _). apply same_bind_eq; [apply same_truncateVals|]. intros _.
  apply same_modify. intros s s' Hs. pose proof (sim_ctrls _ _ Hs) as Hc.
  destruct (sim_left _ _ Hs) as [_ F1]. destruct (sim_right _ _ Hs) as [_ F2].
  destruct (ctrls s) as [|g l]; [by destruct (ctrls s')|].
  apply unstamped_cons in Hc as (g' & k & E & Hg & Hk). rewrite E in F2 |- *.
  apply Forall_cons_1 in F1, F2. apply sim_set_ctrls; [done|..].
  - cbn [unstamped map]. f_equal; [|done]. destruct g, g'. by injection Hg as -> -> -> -> -> -> -> ->.
  - apply Forall_cons_2; tauto.
  - apply Forall_cons_2; tauto.
Qed.

Lemma same_localType i : same sim eq (fv.localType i) (fv.localType i).
Proof.
  apply same_get. intros t t' Ht. rewrite (sim_lookup _ _ Ht). destruct (Module.localType _ _).
  apply same_bind_eq; [by apply same_put, sim_set_lookup|]. intros _. apply same_ret_eq.
Qed.

Lemma defaulted_sim s s' i t : sim s s' -> fv.defaulted s i t = fv.defaulted s' i t.
Proof. intros Hs. unfold fv.defaulted. by rewrite (sim_lookup _ _ Hs). Qed.

Lemma same_localIsInitialized i t : same sim eq (fv.localIsInitialized i t) (fv.localIsInitialized i t).
Proof.
  apply same_get. intros s s' Hs. rewrite (defaulted_sim _ _ _ _ Hs), (sim_init _ _ Hs). apply same_ret_eq.
Qed.

Lemma same_initializeLocal i t : same sim eq (fv.initializeLocal i t) (fv.initializeLocal i t).
Proof.
  apply same_modify. intros s s' Hs. rewrite (defaulted_sim _ _ _ _ Hs), (sim_init _ _ Hs), (sim_log _ _ Hs).
  destruct (fv.defaulted _ _ _); [done|]. case_decide; [done|]. by apply sim_set_init.
Qed.

Lemma same_restoreLocal n : same sim eq (fv.restoreLocalInitialization n) (fv.restoreLocalInitialization n).
Proof.
  apply same_modify. intros s s' Hs. rewrite (sim_init _ _ Hs), (sim_log _ _ Hs).
  destruct (fv.restore_log _ _ _). by apply sim_set_init.
Qed.

Lemma same_pushCtrl k ins outs : same sim eq (fv.pushCtrl e k ins outs) (fv.pushCtrl e k ins outs).
Proof.
  apply same_bind_eq; [apply same_popAll, _|]. intros _. apply same_bind_eq; [|intros _; apply same_pushAll, _].
  apply same_modify. intros s s' Hs. rewrite (sim_vals _ _ Hs), (sim_log _ _ Hs). by apply sim_push_frame.
Qed.

Lemma same_popCtrl : same sim feq (fv.popCtrl e) (fv.popCtrl e).
Proof.
  apply same_get. intros t t' Ht. apply sim_ctrls in Ht. destruct (ctrls t) as [|f l].
  { destruct (ctrls t'); [apply same_verr|done]. }
  apply unstamped_cons in Ht as (f' & k & -> & Hf & _). pose proof (feq_fields _ _ Hf) as Hfs.
  destruct Hfs as (_ & -> & -> & -> & _). apply same_bind_eq; [apply same_popAll, _|]. intros _.
  apply same_get. intros s s' Hs. rewrite (sim_vals _ _ Hs). destruct (negb _); [apply same_verr|].
  apply same_bind_eq; [apply same_restoreLocal|]. intros _.
  apply same_bind_eq; [apply same_modify, sim_tail|]. intros _.
  apply same_bind_eq; [apply same_pushAll, _|]. intros _. by apply same_ret.
Qed.
End Frames.

#[export] Hint Resolve same_unreachable same_localType same_localIsInitialized same_initializeLocal
  same_pushCtrl : same.

(** ** Branch tables *)

Lemma begin_stamps s : stamps_ok s ->
  exists s1, fv.beginBranchTable s = (Ok tt, s1) /\ stamps_ok s1 /\ vals s1 = vals s /\
    unstamped (ctrls s1) = unstamped (ctrls s) /\ lookup s1 = lookup s /\
    initializedLocals s1 = initializedLocals s /\ localInitLog s1 = localInitLog s /\
    Forall (fun f => marked s1 f = false) (ctrls s1).
Proof.
  intros [Hb Hf]. unfold fv.beginBranchTable, modify. eexists. split; [done|].
  destruct (Z.eq_dec (branchTableEpoch s) (2 ^ 32 - 1)) as [E|E].
  - rewrite E. change (to_u32 (2 ^ 32 - 1 + 1) =? 0) with true. cbv iota. unfold stamps_ok, marked. cbn.
    repeat split; try lia.
    + apply Forall_map, Forall_forall. cbn. lia.
    + unfold unstamped. rewrite map_map. by apply map_ext.
    + apply Forall_map, Forall_forall. done.
  - rewrite to_u32_small by lia. replace (branchTableEpoch s + 1 =? 0) with false by lia. cbv iota.
    unfold stamps_ok, marked. cbn. repeat split; try lia; (eapply Forall_impl; [exact Hf|]); cbn; lia.
Qed.

Section BranchTables.
Context (e : fenv).

Lemma same_mark l : same sim_marked eq (fv.markBranchTableLabel l) (fv.markBranchTableLabel l).
Proof.
  intros s s' [Hs Hm]. unfold fv.markBranchTableLabel, bind, get, put, ret.
  destruct (ctrls s !! Z.to_nat l) as [f|] eqn:E.
  - destruct (unstamped_lookup _ _ _ _ (sim_ctrls _ _ Hs) E) as (f' & E' & Hf). rewrite E'.
    split.
    { pose proof (Forall2_lookup_lr _ _ _ _ _ _ Hm E E') as H. unfold marked in H. by rewrite H. }
    destruct Hs as [Hv Hc Hl Hi Hg [Hb1 Hk1] [Hb2 Hk2]]. split; [split|]; try done; cbn.
    + rewrite (unstamped_stamp _ _ _ _ E), (unstamped_stamp _ _ _ _ E'). done.
    + split; [done|]. cbn. apply Forall_insert; [done|]. cbn. lia.
    + split; [done|]. cbn. apply Forall_insert; [done|]. cbn. lia.
    + apply Forall2_insert; [exact Hm|]. unfold marked. cbn. by rewrite !Z.eqb_refl.
  - destruct (ctrls s' !! Z.to_nat l) as [f'|] eqn:E'; [|done].
    destruct (unstamped_lookup _ _ _ _ (eq_sym (sim_ctrls _ _ Hs)) E') as (f & Ef & _). congruence.
Qed.

Lemma same_target dt l : same sim_marked eq (fs.stepTarget e dt l) (fs.stepTarget e dt l).
Proof.
  apply same_bind_eq; [apply same_label, _|]. intros lt.
  apply same_bind_eq; [apply same_mark|]. intros fresh. destruct (negb fresh); [apply same_ret_eq|].
  destruct (negb _); [apply same_verr|]. apply same_restore; [apply _|]. apply same_popAll, _.
Qed.

Lemma same_stepBrTable p : same sim eq (fs.stepBrTable e p) (fs.stepBrTable e p).
Proof.
  apply same_bind_eq; [apply same_popExpect, _|]. intros _. apply same_bind_eq; [apply same_label, _|]. intros dt.
  intros s s' Hs.
  destruct (begin_stamps s (sim_left _ _ Hs)) as (t & Et & Ht & Hv & Hc & Hl & Hi & Hg & Hm).
  destruct (begin_stamps s' (sim_right _ _ Hs)) as (t' & Et' & Ht' & Hv' & Hc' & Hl' & Hi' & Hg' & Hm').
  rewrite (bind_eq _ _ _ _ _ Et), (bind_eq _ _ _ _ _ Et'). clear Et Et'.
  assert (Hst : sim_marked t t').
  { destruct Hs. split; [split; congruence|]. apply Forall2_same_length_lookup_2.
    - apply unstamped_length. congruence.
    - intros i f f' E E'. by rewrite (Forall_lookup_1 _ _ _ _ Hm E), (Forall_lookup_1 _ _ _ _ Hm' E'). }
  set (loop := fv.markBranchTableLabel (IIndex p) ;;; forM (IIndices p) (fs.stepTarget e dt) ;;; fv.popAll e dt).
  assert (Hloop : same sim_marked eq loop loop).
  { apply same_bind_eq; [apply same_mark|]. intros _.
    apply same_bind_eq; [apply same_forM, same_target|]. intros _. apply same_popAll, _. }
  assert (Hassoc : forall r, (fv.markBranchTableLabel (IIndex p) ;;; forM (IIndices p) (fs.stepTarget e dt) ;;;
    fv.popAll e dt ;;; fv.unreachable) r = (loop ;;; fv.unreachable) r).
  { intros r. unfold loop. rewrite bind_assoc. apply bind_ext. intros b r1 _. by rewrite bind_assoc. }
  rewrite !Hassoc. clearbody loop. specialize (Hloop t t' Hst). unfold bind.
  destruct (loop t) as [[?|?|] t1], (loop t') as [[?|?|] t1']; try done.
  destruct Hloop as [_ [Ht1 _]]. by apply same_unreachable.
Qed.
End BranchTables.

#[export] Hint Resolve same_stepBrTable sim_stack : same.

(** ** Instructions *)

Ltac same_frame Hf :=
  let H1 := fresh in let H2 := fresh in let H3 := fresh in let H4 := fresh in
  let H5 := fresh in let H6 := fresh in let H7 := fresh in let H8 := fresh in
  apply feq_fields in Hf; destruct Hf as (H1 & H2 & H3 & H4 & H5 & H6 & H7 & H8);
  rewrite ?H1, ?H2, ?H3, ?H4, ?H5, ?H6, ?H7, ?H8; clear H1 H2 H3 H4 H5 H6 H7 H8.

Ltac same_step :=
  lazymatch goal with
  | |- same _ _ (bind fv.top _) _ =>
      eapply same_bind; [apply same_top, _|]; let f := fresh "f" in let Hf := fresh "Hf" in
      intros f ? Hf; same_frame Hf
  | |- same _ _ (bind fv.outermost _) _ =>
      eapply same_bind; [apply same_outermost, _|]; let f := fresh "f" in let Hf := fresh "Hf" in
      intros f ? Hf; same_frame Hf
  | |- same _ _ (bind (fv.popCtrl _) _) _ =>
      eapply same_bind; [apply same_popCtrl|]; let f := fresh "f" in let Hf := fresh "Hf" in
      intros f ? Hf; same_frame Hf
  | |- same _ _ (bind get _) _ =>
      apply same_get; let t := fresh "t" in let Ht := fresh "Ht" in
      intros t ? Ht; try rewrite (sim_vals _ _ Ht)
  | |- same _ _ (bind _ _) _ => apply same_bind_eq; [|intros ?]
  | |- same _ _ (forM _ _) _ => apply same_forM; intros ?
  | |- same _ _ (if ?b then _ else _) _ => destruct b eqn:?
  | |- same _ _ (match ?x with _ => _ end) _ => destruct x eqn:?
  | |- same _ _ (let (_, _) := ?x in _) _ => destruct x eqn:?
  | |- same _ _ _ _ => solve [auto with same]
  end.
Ltac same_auto := repeat (cbv zeta; same_step).

Section Leaves.
Context (e : fenv).

Lemma same_checkMemArg ma n : same sim eq (fs.checkMemArg e ma n) (fs.checkMemArg e ma n).
Proof. unfold fs.checkMemArg. same_auto. Qed.
Local Hint Resolve same_checkMemArg : same.

Lemma same_checkAtomicMemArg ma n : same sim eq (fs.checkAtomicMemArg e ma n) (fs.checkAtomicMemArg e ma n).
Proof. unfold fs.checkAtomicMemArg. same_auto. Qed.

Lemma same_checkMem n : same sim eq (fs.checkMem e n) (fs.checkMem e n).
Proof. unfold fs.checkMem. same_auto. Qed.

Lemma same_checkDataIndex i : same sim eq (fs.checkDataIndex e i) (fs.checkDataIndex e i).
Proof. unfold fs.checkDataIndex. same_auto. Qed.

Lemma same_tableAddrType i : same sim eq (fs.tableAddrType e i) (fs.tableAddrType e i).
Proof. unfold fs.tableAddrType. same_auto. Qed.

Lemma same_elemRefType i : same sim eq (fs.elemRefType e i) (fs.elemRefType e i).
Proof. unfold fs.elemRefType. same_auto. Qed.

Lemma same_descriptorOf st g c : same sim eq (fs.descriptorOf e st g c) (fs.descriptorOf e st g c).
Proof. unfold fs.descriptorOf. same_auto. Qed.

Lemma same_popN n t : same sim eq (fs.popN e n t) (fs.popN e n t).
Proof. unfold fs.popN. same_auto. Qed.

Lemma same_mutableArray p : same sim eq (fs.mutableArray e p) (fs.mutableArray e p).
Proof. unfold fs.mutableArray. same_auto. Qed.

Lemma same_returnOrPush b ts : same sim eq (fs.returnOrPush e b ts) (fs.returnOrPush e b ts).
Proof. unfold fs.returnOrPush. same_auto. Qed.

Local Hint Resolve same_checkAtomicMemArg same_checkMem same_checkDataIndex same_tableAddrType
  same_elemRefType same_descriptorOf same_popN same_mutableArray same_returnOrPush : same.

Lemma same_stepLocalIndex k i : same sim eq (fs.stepLocalIndex e k i) (fs.stepLocalIndex e k i).
Proof. unfold fs.stepLocalIndex. same_auto. Qed.

Lemma same_stepBranch k i : same sim eq (fs.stepBranch e k i) (fs.stepBranch e k i).
Proof. unfold fs.stepBranch. same_auto. Qed.

Lemma same_stepCall k i : same sim eq (fs.stepCall e k i) (fs.stepCall e k i).
Proof. unfold fs.stepCall. same_auto. Qed.

Lemma same_stepCallIndirect p : same sim eq (fs.stepCallIndirect e p) (fs.stepCallIndirect e p).
Proof. unfold fs.stepCallIndirect. same_auto. Qed.

Lemma same_stepSelect p : same sim eq (fs.stepSelect e p) (fs.stepSelect e p).
Proof. unfold fs.stepSelect. same_auto. Qed.

Lemma same_stepThrow p : same sim eq (fs.stepThrow e p) (fs.stepThrow e p).
Proof. unfold fs.stepThrow. same_auto. Qed.

Lemma same_stepCallRef p : same sim eq (fs.stepCallRef e p) (fs.stepCallRef e p).
Proof. unfold fs.stepCallRef. same_auto. Qed.

Lemma same_validateCatchPayload c : same sim eq (fs.validateCatchPayload e c) (fs.validateCatchPayload e c).
Proof. unfold fs.validateCatchPayload. same_auto. Qed.

Lemma same_stepAtomic p : same sim eq (fs.stepAtomic e p) (fs.stepAtomic e p).
Proof. unfold fs.stepAtomic. same_auto. Qed.

Lemma same_stepSIMD p : same sim eq (fs.stepSIMD e p) (fs.stepSIMD e p).
Proof. unfold fs.stepSIMD. same_auto. Qed.

Lemma same_stackEffect p : same sim eq (fs.stackEffect e p) (fs.stackEffect e p).
Proof. unfold fs.stackEffect. same_auto. Qed.

Lemma same_stepStructNew p : same sim eq (fs.stepStructNew e p) (fs.stepStructNew e p).
Proof. unfold fs.stepStructNew. same_auto. Qed.

Lemma same_stepArrayNew p : same sim eq (fs.stepArrayNew e p) (fs.stepArrayNew e p).
Proof. unfold fs.stepArrayNew. same_auto. Qed.

Lemma same_stepBrOnCast p : same sim eq (fs.stepBrOnCast e p) (fs.stepBrOnCast e p).
Proof. unfold fs.stepBrOnCast. same_auto. Qed.

Lemma same_stepRefCast p : same sim eq (fs.stepRefCast e p) (fs.stepRefCast e p).
Proof. unfold fs.stepRefCast. same_auto. Qed.

Local Hint Resolve same_stepLocalIndex same_stepBranch same_stepCall same_stepCallIndirect same_stepSelect
  same_stepThrow same_stepCallRef same_validateCatchPayload same_stepAtomic same_stepSIMD same_stackEffect
  same_stepStructNew same_stepArrayNew same_stepBrOnCast same_stepRefCast : same.

Lemma same_stepGC p : same sim eq (fs.stepGC e p) (fs.stepGC e p).
Proof.
  unfold fs.stepGC, fs.stepConvert, fs.stepRefTest, fs.stepRefGetDesc, fs.stepStructGet, fs.stepStructSet,
    fs.stepArrayGet, fs.stepArraySet, fs.stepArrayLen, fs.stepArrayFill, fs.stepArrayCopy,
    fs.stepArrayInitData, fs.stepArrayInitElem. same_auto.
Qed.
Local Hint Resolve same_stepGC : same.

(** ** Structured instructions, here only with empty bodies *)

(** [c] does not start a branch table. *)
Definition keeps_epoch {A} (c : V A) : Prop :=
  forall s, match c s with (Ok _, t) => branchTableEpoch t = branchTableEpoch s | _ => True end.

Lemma keeps_bind {A B} (c : V A) (k : A -> V B) :
  keeps_epoch c -> (forall a, keeps_epoch (k a)) -> keeps_epoch (bind c k).
Proof.
  intros Hc Hk s. specialize (Hc s). unfold bind. destruct (c s) as [[a|err|] t]; try done.
  specialize (Hk a t). destruct (k a t) as [[b|err|] t2]; congruence.
Qed.

Lemma keeps_get {B} (k : fvState -> V B) : (forall t, keeps_epoch (k t)) -> keeps_epoch (bind get k).
Proof. intros H s. exact (H s s). Qed.

Lemma keeps_modify f : (forall s, branchTableEpoch (f s) = branchTableEpoch s) -> keeps_epoch (modify f).
Proof. intros H s. apply H. Qed.

Lemma keeps_ret {A} (a : A) : keeps_epoch (ret a).
Proof. done. Qed.

Lemma keeps_pushAll ts : keeps_epoch (fv.pushAll ts).
Proof. intros s. by rewrite pushAll_eq. Qed.

Lemma keeps_pop : keeps_epoch (fv.pop e).
Proof.
  unfold fv.pop. apply keeps_bind; [intros s; unfold fv.top, bind, get; by destruct (ctrls s)|].
  intros f s. unfold bind, get, put, ret. destruct (_ =? _)%nat; [by destruct (funreachable f)|].
  by destruct (vals s).
Qed.

Lemma keeps_popAll ts : keeps_epoch (fv.popAll e ts).
Proof.
  unfold fv.popAll. induction (rev ts); simpl; [apply keeps_ret|]. apply keeps_bind; [|done].
  apply keeps_bind; [apply keeps_pop|]. intros x s. by destruct (_ && _).
Qed.

Lemma keeps_pushCtrl k ins outs : keeps_epoch (fv.pushCtrl e k ins outs).
Proof.
  apply keeps_bind; [apply keeps_popAll|]. intros _. apply keeps_bind; [by apply keeps_modify|].
  intros _. apply keeps_pushAll.
Qed.

Lemma keeps_popCtrl : keeps_epoch (fv.popCtrl e).
Proof.
  apply keeps_get. intros t. destruct (ctrls t); [done|]. apply keeps_bind; [apply keeps_popAll|].
  intros _. apply keeps_get. intros t2. destruct (negb _); [done|].
  apply keeps_bind; [apply keeps_modify; intros s; by destruct (fv.restore_log _ _ _)|]. intros _.
  apply keeps_bind; [by apply keeps_modify|]. intros _. apply keeps_bind; [apply keeps_pushAll|]. done.
Qed.

Lemma same_stepIf bt : same sim eq (fs.stepIf e bt (ret tt) (ret tt) false) (fs.stepIf e bt (ret tt) (ret tt) false).
Proof.
  unfold fs.stepIf. same_step; [auto with same|]. destruct a as [ins outs]. same_step; [auto with same|].
  set (arm := fv.pushCtrl e ctrlIf ins outs ;;; fv.popCtrl e).
  assert (Harm : same sim feq arm arm).
  { apply same_bind_eq; [auto with same|]. intros _. apply same_popCtrl. }
  assert (Hkeep : keeps_epoch arm).
  { apply keeps_bind; [apply keeps_pushCtrl|]. intros _. apply keeps_popCtrl. }
  intros s s' Hs. specialize (Harm s s' Hs). pose proof (Hkeep s) as K. pose proof (Hkeep s') as K'.
  clear Hkeep. unfold arm, bind, get, ret, modify, fs.require in *.
  destruct (fv.pushCtrl e ctrlIf ins outs s) as [[?|?|] s1], (fv.pushCtrl e ctrlIf ins outs s') as [[?|?|] s1'];
    try done; destruct (fv.popCtrl e s1) as [[?|?|] s2]; try done;
    destruct (fv.popCtrl e s1') as [[?|?|] s2']; try done.
  destruct Harm as [_ Ht]. destruct (mt.matchValTypes _ _ _); [|done]. split; [done|]. cbn.
  rewrite (sim_vals _ _ Ht). apply rel_vals. rewrite (sim_vals _ _ Hs).
  pose proof (sim_left _ _ Hs) as [_ F]. pose proof (sim_right _ _ Hs) as [_ F'].
  apply (sim_set_ctrls _ _ (set_vals (vals s') s2) (set_vals (vals s') s2')); cbn; rewrite ?K, ?K'; try done.
  - by apply rel_vals.
  - apply Hs.
Qed.

Lemma same_proposalStep p : same sim eq (fs.proposalStep e p (ret tt)) (fs.proposalStep e p (ret tt)).
Proof. unfold fs.proposalStep, fs.stepWide, fs.stepTryTable. same_auto. Qed.
Local Hint Resolve same_stepIf same_proposalStep : same.

Lemma same_stepKind p :
  same sim eq (fs.stepKind e p (ret tt) (ret tt) (ret tt) false) (fs.stepKind e p (ret tt) (ret tt) (ret tt) false).
Proof.
  unfold fs.stepKind, fs.stepWide, fs.stepGlobalGet, fs.stepGlobalSet, fs.stepTableGet, fs.stepTableSet,
    fs.stepRefNull, fs.stepRefFunc, fs.stepRefIsNull, fs.stepRefAsNonNull, fs.stepBrOnNull,
    fs.stepBrOnNonNull, fs.stepMemoryInit, fs.stepMemoryCopy, fs.stepMemoryFill, fs.stepTableInit,
    fs.stepTableCopy, fs.stepTableGrow, fs.stepTableFill, fs.stepBlock.
  same_auto.
Qed.
Local Hint Resolve same_stepKind : same.

Lemma same_step_leaf p : same sim eq (fs.step e (leaf p)) (fs.step e (leaf p)).
Proof.
  change (fs.step e (leaf p)) with (fs.stepNode e p (ret tt) (ret tt) (ret tt) false).
  unfold fs.stepNode. same_auto.
Qed.
Local Hint Resolve same_step_leaf : same.

(** ** Streaming *)

Lemma same_directPushCtrl k ins outs : same sim eq (sd.directPushCtrl e k ins outs) (sd.directPushCtrl e k ins outs).
Proof.
  apply same_get. intros t t' Ht. rewrite (unstamped_length _ _ (sim_ctrls _ _ Ht)).
  destruct (_ <=? _); auto with same.
Qed.
Local Hint Resolve same_directPushCtrl : same.

Lemma same_directElse : same sim eq (sd.directElse e) (sd.directElse e).
Proof.
  apply same_get. intros t t' Ht. apply sim_ctrls in Ht. destruct (ctrls t) as [|f l].
  { destruct (ctrls t'); [apply same_fail|done]. }
  apply unstamped_cons in Ht as (f' & k & -> & Hf & _). same_frame Hf.
  destruct (_ || _); [apply same_fail|]. eapply same_bind; [apply same_popCtrl|]. intros g g' Hg.
  apply same_get. intros s s' Hs. rewrite (sim_vals _ _ Hs), (unstamped_length _ _ (sim_ctrls _ _ Hs)).
  unfold sd.elseFrame. same_frame Hg. apply same_bind_eq; [apply same_truncateVals|]. intros _.
  destruct (_ <=? _); [apply same_fail|]. apply same_bind_eq; [|intros _; apply same_pushAll, _].
  apply same_modify. intros s0 s0' Hs0. by apply sim_push_frame.
Qed.

Lemma same_directEnd : same sim eq (sd.directEnd e) (sd.directEnd e).
Proof.
  apply same_get. intros t t' Ht. apply sim_ctrls in Ht. destruct (ctrls t) as [|f l].
  { destruct (ctrls t'); [apply same_fail|done]. }
  apply unstamped_cons in Ht as (f' & k & -> & Hf & _). same_frame Hf.
  eapply same_bind; [apply same_popCtrl|]. intros _ _ _. same_auto.
Qed.
Local Hint Resolve same_directElse same_directEnd same_validateCatchPayload : same.

Lemma same_stepDirectOp op : same sim eq (sd.stepDirectOp e op) (sd.stepDirectOp e op).
Proof. unfold sd.stepDirectOp, sd.directStartIf, sd.directStartTryTable. same_auto. Qed.
End Leaves.

(** ** Whole functions *)

(** Outcomes of two runs over the same bytes. *)
Definition same_end {A} (o o' : outcome error A * fvState) : Prop :=
  match o, o' with
  | (Ok a, t), (Ok a', t') => a = a' /\ sim t t'
  | (Err e, _), (Err e', _) => e = e'
  | (Panic, _), (Panic, _) => True
  | _, _ => False
  end.

Lemma same_end_fst {A} (o o' : outcome error A * fvState) : same_end o o' -> fst o = fst o'.
Proof. destruct o as [[?|?|] ?], o' as [[?|?|] ?]; try done; simpl; intros H; [by destruct H as [-> _]|by f_equal]. Qed.

Definition on_snd {A} (o : outcome error A * (reader.t * fvState)) : outcome error A * fvState :=
  (fst o, snd (snd o)).

Section Functions.
Context (e : fenv).

Lemma bodyLoop_same w multi fuel r s s' :
  sim s s' ->
  same_end (on_snd (sd.bodyLoop fuel (sd.generalStep e w multi) (r, s)))
           (on_snd (sd.bodyLoop fuel (sd.generalStep e w multi) (r, s'))).
Proof.
  revert r s s'. induction fuel as [|fuel IH]; intros r s s' Hs; cbn [sd.bodyLoop];
    unfold bind, get; cbn [fst snd]; pose proof (sim_ctrls _ _ Hs) as Hc;
    destruct (ctrls s) as [|f l], (ctrls s') as [|f' l']; try done; try by destruct (reader.has r).
  unfold sd.generalStep, bind, on_reader, on_stacks. cbn [fst snd].
  destruct (decodeDirectOp w multi r) as [[op|err|] r1]; try done. cbn [fst snd].
  pose proof (same_stepDirectOp e op s s' Hs) as Hop.
  destruct (sd.stepDirectOp e op s) as [[[]|err|] t], (sd.stepDirectOp e op s') as [[[]|err'|] t']; try done.
  - apply IH, Hop.
Qed.

(** Checks of declared types leave the state alone. *)
Lemma checks_pure {A} (l : list A) (f : A -> gerror) :
  exists o, forall s, forM l (fun x => check (f x)) s = (o, s).
Proof.
  induction l as [|x l [o IH]]; [by exists (Ok tt)|]. cbn [forM]. unfold bind, check.
  destruct (f x) as [err|]; [by exists (Err err)|]. by exists o.
Qed.

Lemma enterFunc_same locals ft s s' :
  vals s = [] -> vals s' = [] -> ctrls s = [] -> ctrls s' = [] ->
  0 <= branchTableEpoch s < 2 ^ 32 -> 0 <= branchTableEpoch s' < 2 ^ 32 ->
  same_end (sd.enterFunc e locals ft s) (sd.enterFunc e locals ft s').
Proof.
  intros Hv Hv' Hc Hc' Hb Hb'. unfold sd.enterFunc. destruct (LocalCount _ _) as [count overflow].
  destruct (checks_pure locals (fun run => mt.validateValType (fmv e) (LType run))) as [o Ho].
  unfold fs.require, bind, modify, ret. destruct (negb overflow); [|done]. destruct (negb _); [|done].
  rewrite !Ho. destruct o as [[]|err|]; try done.
  unfold fv.resetLocalInitialization, fv.pushCtrl, fv.popAll, modify, bind, ret. cbn. rewrite Hv, Hv', Hc, Hc'.
  split; [done|]. split; try reflexivity.
  - cbn. congruence.
  - split; [done|]. apply Forall_cons_2; [cbn; lia|done].
  - split; [done|]. apply Forall_cons_2; [cbn; lia|done].
Qed.

Lemma validateFuncDirect_same locals body ft w multi s s' :
  constOnly e = false -> vals s = [] -> vals s' = [] -> ctrls s = [] -> ctrls s' = [] ->
  0 <= branchTableEpoch s < 2 ^ 32 -> 0 <= branchTableEpoch s' < 2 ^ 32 ->
  same_end (sd.validateFuncDirect e locals body ft w multi s) (sd.validateFuncDirect e locals body ft w multi s').
Proof.
  intros He Hv Hv' Hc Hc' Hb Hb'. rewrite !validateFuncDirect_general by done. unfold validateFuncGeneral, bind.
  pose proof (enterFunc_same locals ft s s' Hv Hv' Hc Hc' Hb Hb') as H.
  destruct (sd.enterFunc e locals ft s) as [[[]|err|] t], (sd.enterFunc e locals ft s') as [[[]|err'|] t']; try done.
  destruct H as [_ Ht].
  pose proof (bodyLoop_same (with_multiMemory multi w) multi (S (length body)) (reader.newReader body) t t' Ht) as Hl.
  unfold on_snd in Hl.
  destruct (sd.bodyLoop _ _ (_, t)) as [? []], (sd.bodyLoop _ _ (_, t')) as [? []]. exact Hl.
Qed.
End Functions.

(** The epoch of a validator that may be reused. *)
Definition reusable (s : fvState) : Prop := 0 <= branchTableEpoch s < 2 ^ 32.

(** The functions of a module are given as bytes, as the decoder gives them. *)
Definition byte_backed (m : Module_) : Prop := Forall (fun fn => FBodyBytes fn <> []) (Code_ m).

Lemma validateFunction_same v w i s s' :
  byte_backed (vm v) -> reusable s -> reusable s' ->
  same_end (sd.validateFunction v w i s) (sd.validateFunction v w i s').
Proof.
  intros Hm Hs Hs'. unfold sd.validateFunction. destruct (Code_ (vm v) !! i) as [fn|] eqn:Hfn; [|done].
  destruct (ms.funcType v _) as [ft|]; [|done]. unfold bind, sd.beginFunc, modify.
  replace (negb (length (FBodyBytes fn) =? 0)%nat) with true.
  - by apply validateFuncDirect_same.
  - pose proof (Forall_lookup_1 _ _ _ _ Hm Hfn) as H. cbv beta in H. by destruct (FBodyBytes fn).
Qed.
