(* ===== verification/BranchTable.v ===== *)
(** * Branch tables

    [br_table] checks each distinct target once, remembering the checked labels by
    a stamp on their frames.  Checking every target of the list accepts the same
    tables and leaves the same stacks. *)

From stdpp Require Import base tactics numbers list gmap.
From Stdlib Require Import ZArith Lia.
From S2P Require Import Prelude Reader Types Decode Kinds Instr Module ModuleDecode TypeEquiv Subtyping.
From S2P Require Import Effects Validator Step ValidatorLaws Streaming FastPath Stamps.
Local Open Scope Z_scope.

(** ** The reference: every target is checked *)

Section Table.
Context (e : fenv).

Definition everyTarget (dt : list ValType) (l : Z) : V unit :=
  let! lt := fv.label e l in
  if negb (length lt =? length dt)%nat then fv.verr e ErrTypeMismatch
  else
    let! payload := get in
    fv.popAll e lt ;;;
    modify (set_vals (vals payload)).

Definition stepBrTableAll (p : payload) : V unit :=
  fv.popExpect e I32 ;;;
  let! dt := fv.label e (IIndex p) in
  forM (IIndices p) (everyTarget dt) ;;;
  fv.popAll e dt ;;;
  fv.unreachable.

(** ** A check changes nothing but the operands *)

Definition vals_only {A} (s : fvState) (r : outcome error A * fvState) : Prop := exists l, snd r = set_vals l s.

Lemma pop_vals s : vals_only s (fv.pop e s).
Proof.
  assert (E : s = set_vals (vals s) s) by by destruct s.
  unfold vals_only, fv.pop, fv.top, bind, get, put, ret. destruct (ctrls s) as [|f rest]; [by exists (vals s)|].
  destruct (_ =? _)%nat; [destruct (funreachable f); by exists (vals s)|].
  destruct (vals s) as [|x l] eqn:Ev; [by exists []|by exists l].
Qed.

Lemma popAll_vals ts s : vals_only s (fv.popAll e ts s).
Proof.
  unfold fv.popAll. revert s. induction (rev ts) as [|t l IH]; intros s; cbn [forM].
  { exists (vals s). by destruct s. }
  destruct (pop_vals s) as [k Hk]. unfold fv.popExpect, bind.
  destruct (fv.pop e s) as [[x|err|] s1]; simpl in Hk; subst s1; [|by exists k..].
  destruct (_ && _); [by exists k|]. destruct (IH (set_vals k s)) as [k' Hk']. by exists k'.
Qed.

Lemma everyTarget_ok dt l s s' : everyTarget dt l s = (Ok tt, s') -> s' = s.
Proof.
  unfold everyTarget, fv.label, bind, get, ret. intros H. destruct (_ <=? _); [done|].
  destruct (ctrls s !! _) as [f|]; [|done]. destruct (negb _); [done|].
  pose proof (popAll_vals (if bool_decide (fkind f = ctrlLoop) then fin f else fout f) s) as [k Hk].
  destruct (fv.popAll e _ s) as [[[]|err|] s1]; try done. simpl in Hk. subst s1. injection H as <-. by destruct s.
Qed.

Lemma everyTargets_ok dt ls s s' : forM ls (everyTarget dt) s = (Ok tt, s') -> s' = s.
Proof.
  revert s. induction ls as [|l ls IH]; intros s H; [by injection H as <-|].
  apply bind_ok in H as ([] & s1 & H1 & H). apply everyTarget_ok in H1 as ->. by apply IH.
Qed.

(** ** One target *)

Definition labelTypes (f : ctrlFrame) : list ValType := if bool_decide (fkind f = ctrlLoop) then fin f else fout f.

(** The verdict on the payload of a branch to [f]. *)
Definition payloadCheck (dt : list ValType) (f : ctrlFrame) (s : fvState) : outcome error unit :=
  if negb (length (labelTypes f) =? length dt)%nat then fst (fv.verr (A := unit) e ErrTypeMismatch s)
  else fst (fv.popAll e (labelTypes f) s).

Lemma everyTarget_at dt l s f :
  l < Z.of_nat (length (ctrls s)) -> ctrls s !! Z.to_nat l = Some f ->
  fst (everyTarget dt l s) = payloadCheck dt f s.
Proof.
  intros Hr Hf. unfold everyTarget, fv.label, bind, get, payloadCheck, ret. rewrite (proj2 (Z.leb_gt _ _) Hr), Hf.
  fold (labelTypes f). destruct (negb _); [done|]. by destruct (fv.popAll e (labelTypes f) s) as [[[]|err|] s1].
Qed.

Lemma everyTarget_same dt l s : fst (everyTarget dt l s) = Ok tt -> everyTarget dt l s = (Ok tt, s).
Proof.
  destruct (everyTarget dt l s) as [o s'] eqn:E. simpl. intros ->. by rewrite (everyTarget_ok _ _ _ _ E).
Qed.

(** [t] with the label [i] marked. *)
Definition stamp (i : nat) (f : ctrlFrame) (t : fvState) : fvState :=
  set_ctrls (<[i := with_epoch (branchTableEpoch t) f]> (ctrls t)) t.

Lemma stepTarget_at dt l t f :
  l < Z.of_nat (length (ctrls t)) -> ctrls t !! Z.to_nat l = Some f ->
  match fs.stepTarget e dt l t with
  | (Ok _, t') => t' = stamp (Z.to_nat l) f t /\ (marked t f = true \/ payloadCheck dt f t' = Ok tt)
  | (o, _) => payloadCheck dt f (stamp (Z.to_nat l) f t) = o
  end.
Proof.
  intros Hr Hf. unfold fs.stepTarget, fv.label, fv.markBranchTableLabel, bind, get, put, ret.
  rewrite (proj2 (Z.leb_gt _ _) Hr), Hf. cbv beta iota zeta. rewrite Hf. cbv beta iota zeta.
  fold (labelTypes f) (marked t f) (stamp (Z.to_nat l) f t).
  rewrite negb_involutive. destruct (marked t f); [split; [done|by left]|]. unfold payloadCheck.
  destruct (negb _); [done|]. pose proof (popAll_vals (labelTypes f) (stamp (Z.to_nat l) f t)) as [k Hk].
  destruct (fv.popAll e (labelTypes f) (stamp (Z.to_nat l) f t)) as [[[]|err|] t1] eqn:E; try done.
  simpl in Hk. subst t1. unfold modify. split; [by destruct t|]. right.
  change (set_vals _ (set_vals k (stamp (Z.to_nat l) f t))) with (stamp (Z.to_nat l) f t). by rewrite E.
Qed.

(** The labels marked in [t] pass the check in [s]. *)
Definition marks_pass (dt : list ValType) (t s : fvState) : Prop :=
  forall i f, ctrls t !! i = Some f -> marked t f = true -> payloadCheck dt f s = Ok tt.

Lemma sim_stamp t s i f : sim t s -> ctrls t !! i = Some f -> sim (stamp i f t) s.
Proof.
  intros Hs Hf. pose proof (sim_left _ _ Hs) as [B F]. destruct Hs. split; try done.
  - cbn. by rewrite (unstamped_stamp _ _ _ _ Hf).
  - split; [done|]. cbn. apply Forall_insert; [done|]. cbn. lia.
Qed.

Lemma payloadCheck_sim dt f f' t s : sim t s -> feq f f' -> payloadCheck dt f t = payloadCheck dt f' s.
Proof.
  intros Hs Hf. unfold payloadCheck, labelTypes. apply feq_fields in Hf as (-> & -> & _ & _ & _ & -> & _).
  destruct (negb _); [done|]. pose proof (same_popAll e sim (labelTypes f') t s Hs) as H. unfold labelTypes in H.
  destruct (fv.popAll e _ t) as [[[]|err|] t1], (fv.popAll e _ s) as [[[]|err'|] s1]; try done. simpl. by f_equal.
Qed.

Lemma stepTarget_every dt l t s :
  sim t s ->
  match fs.stepTarget e dt l t with
  | (Ok _, t') => sim t' s /\ (marks_pass dt t s -> marks_pass dt t' s /\ everyTarget dt l s = (Ok tt, s))
  | (o, _) => fst (everyTarget dt l s) = o
  end.
Proof.
  intros Hs. pose proof (unstamped_length _ _ (sim_ctrls _ _ Hs)) as Hlen.
  destruct (Z.leb_spec (Z.of_nat (length (ctrls t))) l) as [Hr|Hr].
  { unfold fs.stepTarget, everyTarget, fv.label, bind, get. by rewrite <- Hlen, (proj2 (Z.leb_le _ _) Hr). }
  destruct (ctrls t !! Z.to_nat l) as [f|] eqn:Ef.
  2: { destruct (ctrls s !! Z.to_nat l) as [f'|] eqn:Ef'.
       - destruct (unstamped_lookup _ _ _ _ (eq_sym (sim_ctrls _ _ Hs)) Ef') as (? & ? & _). congruence.
       - unfold fs.stepTarget, everyTarget, fv.label, bind, get.
         by rewrite <- Hlen, (proj2 (Z.leb_gt _ _) Hr), Ef', Ef. }
  destruct (unstamped_lookup _ _ _ _ (sim_ctrls _ _ Hs) Ef) as (f' & Ef' & Hf).
  pose proof (stepTarget_at dt l t f Hr Ef) as Hstep. pose proof (sim_stamp t s _ f Hs Ef) as Hst.
  rewrite Hlen in Hr. pose proof (everyTarget_at dt l s f' Hr Ef') as Hev.
  rewrite (payloadCheck_sim dt f f' _ s Hst Hf) in Hstep.
  destruct (fs.stepTarget e dt l t) as [[[]|err|] t']; [|congruence..]. destruct Hstep as [-> Hpass].
  split; [done|]. intros Hm.
  assert (Hok : payloadCheck dt f' s = Ok tt).
  { destruct Hpass as [Hmk|Hp]; [|by rewrite <- Hp; symmetry; apply payloadCheck_sim].
    rewrite <- (Hm _ _ Ef Hmk). symmetry. apply payloadCheck_sim; [|done].
    split; try done; apply (sim_right _ _ Hs). }
  split; [|apply everyTarget_same; congruence].
  intros i g Hi Hg. cbn in Hi. apply list_lookup_insert_Some in Hi as [(<- & <- & _)|[_ Hi]]; [|by eapply Hm].
  rewrite <- Hok. apply payloadCheck_sim; [|exact Hf]. split; try done; apply (sim_right _ _ Hs).
Qed.

(** ** The whole table *)

Lemma targets_every dt ls t s :
  sim t s ->
  match forM ls (fs.stepTarget e dt) t with
  | (Ok _, t') => sim t' s /\ (marks_pass dt t s -> forM ls (everyTarget dt) s = (Ok tt, s))
  | _ => is_ok (fst (forM ls (everyTarget dt) s)) = false
  end.
Proof.
  revert t. induction ls as [|l ls IH]; intros t Hs; [done|]. cbn [forM]. unfold bind.
  pose proof (stepTarget_every dt l t s Hs) as H.
  destruct (fs.stepTarget e dt l t) as [[[]|err|] t1].
  - destruct H as [Hs1 Hk]. specialize (IH t1 Hs1).
    destruct (forM ls (fs.stepTarget e dt) t1) as [[[]|err|] t2].
    + destruct IH as [Hs2 Hk2]. split; [done|]. intros Hm. destruct (Hk Hm) as [Hm1 ->]. by apply Hk2.
    + destruct (everyTarget dt l s) as [[[]|?|] s1] eqn:E; try done. by rewrite (everyTarget_ok _ _ _ _ E).
    + destruct (everyTarget dt l s) as [[[]|?|] s1] eqn:E; try done. by rewrite (everyTarget_ok _ _ _ _ E).
  - by destruct (everyTarget dt l s) as [[[]|?|] s1].
  - by destruct (everyTarget dt l s) as [[[]|?|] s1].
Qed.

Lemma sim_refl s : stamps_ok s -> sim s s.
Proof. by split. Qed.

Lemma stamps_kept (c : V unit) s s' : same sim eq c c -> stamps_ok s -> c s = (Ok tt, s') -> stamps_ok s'.
Proof. intros Hc Hs E. specialize (Hc s s (sim_refl s Hs)). rewrite E in Hc. apply Hc. Qed.

Lemma unmarked_pass dt t s : Forall (fun f => marked t f = false) (ctrls t) -> marks_pass dt t s.
Proof. intros H i f Hi Hm. pose proof (Forall_lookup_1 _ _ _ _ H Hi). congruence. Qed.

(** Two final outcomes: both accept, with stacks that agree, or neither does. *)
Definition agree (r r' : outcome error unit * fvState) : Prop :=
  match r, r' with
  | (Ok _, t), (Ok _, t') => sim t t'
  | (Ok _, _), _ | _, (Ok _, _) => False
  | _, _ => True
  end.

(** The part after the default label [f] has been found at depth [d]. *)
Lemma table_every d f t s ls :
  sim t s -> ctrls t !! Z.to_nat d = Some f -> Forall (fun f => marked t f = false) (ctrls t) ->
  agree ((forM ls (fs.stepTarget e (labelTypes f)) ;;; fv.popAll e (labelTypes f) ;;; fv.unreachable)
           (stamp (Z.to_nat d) f t))
        ((forM ls (everyTarget (labelTypes f)) ;;; fv.popAll e (labelTypes f) ;;; fv.unreachable) s).
Proof.
  intros Hs Hf Hm. set (dt := labelTypes f). set (t0 := stamp _ _ _).
  assert (Hs0 : sim t0 s) by by apply sim_stamp.
  assert (Hm0 : is_ok (fst (fv.popAll e dt s)) = true -> marks_pass dt t0 s).
  { intros Hok i g Hi Hg. cbn in Hi. apply list_lookup_insert_Some in Hi as [(<- & <- & _)|[_ Hi]].
    - unfold payloadCheck. change (labelTypes (with_epoch _ f)) with dt. rewrite Nat.eqb_refl. cbn [negb].
      by destruct (fv.popAll e dt s) as [[[]|?|] ?].
    - pose proof (Forall_lookup_1 _ _ _ _ Hm Hi). unfold marked in *. cbn in Hg. congruence. }
  pose proof (targets_every dt ls t0 s Hs0) as Hl. unfold agree, bind.
  destruct (forM ls (fs.stepTarget e dt) t0) as [[[]|err|] t1];
    [|by destruct (forM ls (everyTarget dt) s) as [[[]|?|] s1]..].
  destruct Hl as [Hs1 Hl]. pose proof (same_popAll e sim dt t1 s Hs1) as Hp.
  destruct (fv.popAll e dt t1) as [[[]|err|] t2] eqn:Et, (fv.popAll e dt s) as [[[]|err'|] s2] eqn:Es; try done.
  - rewrite (Hl (Hm0 eq_refl)), Es. destruct Hp as [_ Hp]. pose proof (same_unreachable t2 s2 Hp) as Hu.
    destruct (fv.unreachable t2) as [[[]|?|] ?], (fv.unreachable s2) as [[[]|?|] ?]; try done. apply Hu.
  - destruct (forM ls (everyTarget dt) s) as [[[]|?|] s3] eqn:E; try done.
    by rewrite (everyTargets_ok _ _ _ _ E), Es.
  - destruct (forM ls (everyTarget dt) s) as [[[]|?|] s3] eqn:E; try done.
    by rewrite (everyTargets_ok _ _ _ _ E), Es.
Qed.

Lemma label_at d s f :
  d < Z.of_nat (length (ctrls s)) -> ctrls s !! Z.to_nat d = Some f -> fv.label e d s = (Ok (labelTypes f), s).
Proof. intros Hr Hf. unfold fv.label, bind, get. by rewrite (proj2 (Z.leb_gt _ _) Hr), Hf. Qed.

Lemma begin_sim s : stamps_ok s ->
  exists t, fv.beginBranchTable s = (Ok tt, t) /\ sim t s /\ Forall (fun f => marked t f = false) (ctrls t).
Proof.
  intros Hs. destruct (begin_stamps s Hs) as (t & E & Ht & Hv & Hc & Hl & Hi & Hg & Hm). exists t.
  split; [done|]. split; [by split|done].
Qed.

Lemma br_table_agree p s : stamps_ok s -> agree (fs.stepBrTable e p s) (stepBrTableAll p s).
Proof.
  intros Hs. unfold fs.stepBrTable, stepBrTableAll. set (d := IIndex p).
  pose proof (same_popExpect e sim I32 s s (sim_refl s Hs)) as Hp.
  destruct (fv.popExpect e I32 s) as [[[]|?|] s1] eqn:E1;
    [|by unfold bind; rewrite E1..]. rewrite !(bind_eq _ _ _ _ _ E1). destruct Hp as [_ Hp].
  destruct (Z.leb_spec (Z.of_nat (length (ctrls s1))) d) as [Hr|Hr].
  { unfold fv.label, bind, get. by rewrite (proj2 (Z.leb_le _ _) Hr). }
  destruct (ctrls s1 !! Z.to_nat d) as [f|] eqn:Ef.
  2: { unfold fv.label, bind, get. by rewrite (proj2 (Z.leb_gt _ _) Hr), Ef. }
  rewrite !(bind_eq _ _ _ _ _ (label_at d s1 f Hr Ef)).
  destruct (begin_sim s1 (sim_left _ _ Hp)) as (t & Et & Ht & Hm). rewrite (bind_eq _ _ _ _ _ Et).
  destruct (unstamped_lookup _ _ _ _ (eq_sym (sim_ctrls _ _ Ht)) Ef) as (g & Eg & Hfg).
  assert (Emark : exists b, fv.markBranchTableLabel d t = (Ok b, stamp (Z.to_nat d) g t)).
  { unfold fv.markBranchTableLabel, bind, get. rewrite Eg. by eexists. }
  destruct Emark as [b Emark]. rewrite (bind_eq _ _ _ _ _ Emark).
  replace (labelTypes f) with (labelTypes g); [by apply table_every|].
  unfold labelTypes. by apply feq_fields in Hfg as (-> & -> & _ & _ & _ & -> & _).
Qed.
End Table.

(** C9: [br_table] accepts exactly what checking every target accepts, and leaves the
    same operands and frames (up to the stamps): skipping a label already checked
    loses nothing, also when the stamp counter wraps around.  The stamps it relies on
    are kept in order by every operation of a body. *)
Theorem br_table_once e s :
  stamps_ok s ->
  (forall p, agree (fs.stepBrTable e p s) (stepBrTableAll e p s)) /\
  (forall op s', sd.stepDirectOp e op s = (Ok tt, s') -> stamps_ok s').
Proof.
  intros Hs. split; [intros p; by apply br_table_agree|].
  intros op s' H. by eapply stamps_kept; [apply same_stepDirectOp| |exact H].
Qed.

(** A table with a repeated target, at the last epoch before the counter wraps. *)
Definition wrapState : fvState :=
  set_epoch (2 ^ 32 - 1) (set_vals [I32; I32] (set_ctrls
    [{| fin := []; fout := [I32]; height := 0; initHeight := 0; ifThenHeight := 0; fepoch := 1; fkind := ctrlBlock;
        funreachable := false; ifSeenElse := false |};
     {| fin := []; fout := [I32]; height := 0; initHeight := 0; ifThenHeight := 0; fepoch := 2 ^ 32 - 1;
        fkind := ctrlFunc; funreachable := false; ifSeenElse := false |}] emptyState)).

Lemma br_table_once_witness :
  stamps_ok wrapState /\
  agree (fs.stepBrTable sampleEnv (with_Indices [1; 0; 1] (kind InstrBrTable)) wrapState)
        (stepBrTableAll sampleEnv (with_Indices [1; 0; 1] (kind InstrBrTable)) wrapState) /\
  fst (fs.stepBrTable sampleEnv (with_Indices [1; 0; 1] (kind InstrBrTable)) wrapState) = Ok tt.
Proof.
  assert (Hs : stamps_ok wrapState).
  { split; [split; vm_compute; congruence|]. repeat (apply Forall_cons_2; [split; vm_compute; congruence|]).
    apply Forall_nil_2. }
  split; [exact Hs|]. split; [exact (proj1 (br_table_once sampleEnv wrapState Hs) _)|].
  vm_compute. reflexivity.
Defined.
