(* ===== verification/Parallel.v ===== *)
(** * Parallel validation of functions (validate.go)

    [validateFunctionsParallel]: workers take function indices from a shared
    counter and stop at their first error; when all have stopped the error with the
    lowest index is returned.  A worker shares only the counter: the module, the
    declared functions, the frozen type cache and the intervals are read-only, and
    the validator is its own, so taking an index and checking a function are the
    steps that interleave. *)

From stdpp Require Import base tactics numbers list gmap relations well_founded.
From Stdlib Require Import ZArith Lia.
From S2P Require Import Prelude Reader Types Decode Kinds Instr Module ModuleDecode TypeEquiv Subtyping.
From S2P Require Import Effects Validator Step Streaming FastPath StreamLaws TypeValid ModuleValid Stamps.
Local Open Scope Z_scope.

(** ** Workers *)

Inductive worker : Type :=
| Idle (fv : fvState)                      (** about to take an index *)
| Checking (i : nat) (fv : fvState)        (** took [i] *)
| Stopped (r : option (nat * error))       (** returned; the error it recorded *)
| Crashed.

Record pool : Type := { next : nat; workers : list worker }.

Module pv.
Section Pool.
Context (v : moduleValidator).

Definition codeCount : nat := length (Code_ (vm v)).

Definition startPool (n : nat) : pool := {| next := 0; workers := replicate n (Idle zeroState) |}.

(** One step of a worker; the counter advances when an index is taken. *)
Definition stepWorker (next : nat) (w : worker) : option (nat * worker) :=
  match w with
  | Idle fv => Some (S next, if (codeCount <=? next)%nat then Stopped None else Checking next fv)
  | Checking i fv =>
      match sd.validateFunction v (mm.widthsOf v) i fv with
      | (Ok _, fv') => Some (next, Idle fv')
      | (Err e, _) => Some (next, Stopped (Some (i, e)))
      | (Panic, _) => Some (next, Crashed)
      end
  | Stopped _ | Crashed => None
  end.

(** The scheduler lets worker [k] move. *)
Definition stepPool (k : nat) (p : pool) : option pool :=
  w ← workers p !! k;
  r ← stepWorker (next p) w;
  Some {| next := fst r; workers := <[k := snd r]> (workers p) |}.

Definition moves (p p' : pool) : Prop := exists k, stepPool k p = Some p'.

(** A run under a given schedule; a worker that cannot move is passed over. *)
Fixpoint schedule (ks : list nat) (p : pool) : pool :=
  match ks with
  | [] => p
  | k :: rest => schedule rest (match stepPool k p with Some p' => p' | None => p end)
  end.

Definition stopped (w : worker) : bool := match w with Stopped _ => true | _ => false end.
Definition finished (p : pool) : Prop := forallb stopped (workers p) = true.

(** The scan of the results after [wg.Wait]: [lowest] and [first]. *)
Definition scanResult (acc : nat * option error) (w : worker) : nat * option error :=
  match w with
  | Stopped (Some (i, e)) => if (i <? fst acc)%nat then (i, Some e) else acc
  | _ => acc
  end.

Definition firstError (p : pool) : outcome error unit :=
  match snd (foldl scanResult (codeCount, None) (workers p)) with
  | None => Ok tt
  | Some e => Err e
  end.

(** What [validateFunctions] may return with a given number of workers. *)
Inductive validateFunctions (n : Z) : outcome error unit -> Prop :=
| validate_serial :
    (n <=? 1) || (codeCount <=? 1)%nat = true -> validateFunctions n (mm.serialPhase v)
| validate_parallel p :
    (n <=? 1) || (codeCount <=? 1)%nat = false ->
    rtc moves (startPool (Nat.min (Z.to_nat n) codeCount)) p -> finished p ->
    validateFunctions n (firstError p).
End Pool.

(** [validateModuleWithWorkersFeaturesAndLimits]: some outcome of the function phase
    follows an accepted [validateModule]. *)
Definition validateModuleWithWorkers (n : Z) (m : option Module_) (direct : option directValidationEnv)
  (f : ValidationFeatures) (l : ValidationLimits) (o : outcome error unit) : Prop :=
  exists phase, (forall v, Some (vm v) = m -> validateFunctions v n (phase v)) /\
    o = mm.validateModuleWith phase m direct f l.
End pv.

(** ** Laws of the pool *)

(** Bodies as the decoder gives them. *)
Definition code_ok (m : Module_) : Prop :=
  Forall (fun fn => FBodyBytes fn <> [] /\ bytes_ok (FBodyBytes fn)) (Code_ m).

Section Pool.
Context (v : moduleValidator) (Hm : code_ok (vm v)).
Local Abbreviation n := (pv.codeCount v).

(** ** The verdict on one function *)

Definition verdict (i : nat) : outcome error unit := fst (sd.validateFunction v (mm.widthsOf v) i zeroState).

Lemma code_byte_backed : byte_backed (vm v).
Proof. eapply Forall_impl; [exact Hm|]. by intros fn [? _]. Qed.

Lemma zero_reusable : reusable zeroState.
Proof. split; vm_compute; congruence. Qed.

(** The verdict does not depend on what the validator checked before. *)
Lemma validateFunction_verdict i fv :
  reusable fv -> (i < n)%nat ->
  match sd.validateFunction v (mm.widthsOf v) i fv with
  | (Ok _, fv') => verdict i = Ok tt /\ reusable fv'
  | (Err e, _) => verdict i = Err e
  | (Panic, _) => False
  end.
Proof.
  intros Hfv Hi. pose proof (validateFunction_same v (mm.widthsOf v) i fv zeroState code_byte_backed Hfv zero_reusable) as H.
  unfold verdict. destruct (lookup_lt_is_Some_2 (Code_ (vm v)) i Hi) as [fn Hfn].
  pose proof (Forall_lookup_1 _ _ _ _ Hm Hfn) as [_ Hb].
  pose proof (validateFunction_returns v (mm.widthsOf v) i fv fn Hfn Hb) as Ht.
  destruct (sd.validateFunction v _ i fv) as [[[]|e|] s1],
    (sd.validateFunction v _ i zeroState) as [[[]|e'|] s2]; try done.
  - destruct H as [_ Hs]. split; [done|]. apply (sim_left _ _ Hs).
  - simpl. by f_equal.
Qed.

(** ** The serial loop *)

(** The first failure among some functions. *)
Fixpoint firstVerdict (l : list nat) : outcome error unit :=
  match l with
  | [] => Ok tt
  | i :: rest => match verdict i with Ok _ => firstVerdict rest | o => o end
  end.

Lemma serial_loop l s :
  reusable s -> Forall (fun i => (i < n)%nat) l ->
  fst (forM l (sd.validateFunction v (mm.widthsOf v)) s) = firstVerdict l.
Proof.
  intros Hs Hl. revert s Hs. induction Hl as [|i l Hi _ IH]; intros s Hs; [done|]. cbn [forM firstVerdict].
  unfold bind. pose proof (validateFunction_verdict i s Hs Hi) as H.
  destruct (sd.validateFunction v _ i s) as [[[]|e|] s1]; [|by rewrite H|done].
  destruct H as [-> Hr]. by apply IH.
Qed.

Lemma serialPhase_verdict : mm.serialPhase v = firstVerdict (seq 0 n).
Proof.
  apply serial_loop; [apply zero_reusable|]. apply Forall_forall. intros i Hi. apply elem_of_seq in Hi.
  unfold pv.codeCount in *. lia.
Qed.

Lemma firstVerdict_ok l : (forall i, i ∈ l -> verdict i = Ok tt) -> firstVerdict l = Ok tt.
Proof.
  induction l as [|i l IH]; intros H; [done|]. simpl. rewrite H by apply list_elem_of_here.
  apply IH. intros j Hj. by apply H, list_elem_of_further.
Qed.

Lemma firstVerdict_err k m i e :
  (k <= i < k + m)%nat -> (forall j, (k <= j < i)%nat -> verdict j = Ok tt) -> verdict i = Err e ->
  firstVerdict (seq k m) = Err e.
Proof.
  revert k. induction m as [|m IH]; intros k Hi Hj He; [lia|]. cbn [seq firstVerdict].
  destruct (decide (k = i)) as [->|Hk]; [by rewrite He|]. rewrite Hj by lia.
  apply IH; [lia| |done]. intros j Hlt. apply Hj. lia.
Qed.

(** ** The invariant of the pool *)

Definition worker_ok (next : nat) (w : worker) : Prop :=
  match w with
  | Idle fv => reusable fv
  | Checking i fv => reusable fv /\ (i < n)%nat /\ (i < next)%nat
  | Stopped None => (n <= next)%nat
  | Stopped (Some (i, e)) => verdict i = Err e /\ (i < n)%nat /\ (i < next)%nat
  | Crashed => False
  end.

(** An index is settled when its function passed, is being checked, or failed. *)
Definition settles (i : nat) (w : worker) : Prop :=
  match w with Checking j _ | Stopped (Some (j, _)) => j = i | _ => False end.

Record pool_ok (p : pool) : Prop := {
  pool_workers : Forall (worker_ok (next p)) (workers p);
  pool_taken : forall i, (i < n)%nat -> (i < next p)%nat -> verdict i = Ok tt \/ Exists (settles i) (workers p)
}.

Lemma worker_ok_mono a b w : (a <= b)%nat -> worker_ok a w -> worker_ok b w.
Proof. destruct w as [fv|i fv|[[i e]|]|]; simpl; intuition lia. Qed.

Lemma stepWorker_ok a w b w' :
  pv.stepWorker v a w = Some (b, w') -> worker_ok a w ->
  (a <= b)%nat /\ worker_ok b w' /\ (forall i, settles i w -> settles i w' \/ verdict i = Ok tt) /\
  (forall i, (a <= i < b)%nat -> (i < n)%nat -> settles i w').
Proof.
  intros H Hw. destruct w as [fv|i fv|r|]; [| |done|done]; simpl in H, Hw.
  - injection H as <- <-. split; [lia|]. destruct (Nat.leb_spec n a); simpl; (split; [lia || by intuition lia|]);
      (split; [done|]); intros i Hi Hn; lia.
  - destruct Hw as (Hfv & Hi & Hlt). pose proof (validateFunction_verdict i fv Hfv Hi) as Hv.
    destruct (sd.validateFunction v _ i fv) as [[[]|e|] fv']; [| |done]; injection H as <- <-;
      (split; [lia|]); simpl.
    + destruct Hv as [Hv Hr]. split; [done|]. split; [|lia]. intros j <-. by right.
    + split; [done|]. split; [by left|lia].
Qed.

Lemma stepPool_ok k p p' : pv.stepPool v k p = Some p' -> pool_ok p -> pool_ok p'.
Proof.
  unfold pv.stepPool. intros H [Hw Ht]. destruct (workers p !! k) as [w|] eqn:Hk; [|done]. simpl in H.
  destruct (pv.stepWorker v (next p) w) as [[b w']|] eqn:Hs; [|done]. injection H as <-.
  destruct (stepWorker_ok _ _ _ _ Hs (Forall_lookup_1 _ _ _ _ Hw Hk)) as (Hle & Hok & Hkeep & Hnew).
  split; simpl.
  - apply Forall_insert; [|done]. eapply Forall_impl; [exact Hw|]. intros x. by apply worker_ok_mono.
  - assert (Hin : forall i, settles i w' -> Exists (settles i) (<[k := w']> (workers p))).
    { intros i Hi. apply Exists_exists. exists w'. split; [|done]. eapply list_elem_of_lookup_2.
      apply list_lookup_insert_eq. by eapply lookup_lt_Some. }
    intros i Hi Hlt. destruct (decide (i < next p)%nat) as [Hold|Hnext]; [|right; apply Hin, Hnew; lia].
    destruct (Ht i Hi Hold) as [?|He]; [by left|]. apply Exists_exists in He as (x & Hx & Hset).
    apply list_elem_of_lookup_1 in Hx as [k' Hk']. destruct (decide (k = k')) as [<-|Hne].
    + rewrite Hk in Hk'. injection Hk' as <-. destruct (Hkeep i Hset); [right; by apply Hin|by left].
    + right. apply Exists_exists. exists x. split; [|done]. eapply list_elem_of_lookup_2.
      by rewrite list_lookup_insert_ne.
Qed.

Lemma reached_ok w p : rtc (pv.moves v) (pv.startPool w) p -> pool_ok p.
Proof.
  intros H. assert (H0 : pool_ok (pv.startPool w)).
  { split; [|simpl; lia]. apply Forall_replicate, zero_reusable. }
  revert H0. induction H as [|p q r [k Hk] _ IH]; [done|]. intros Hp. by eapply IH, stepPool_ok.
Qed.

(** ** The verdict of a finished pool *)

Lemma scan_spec ws acc :
  let r := foldl pv.scanResult acc ws in
  (fst r <= fst acc)%nat /\
  (forall i e, Stopped (Some (i, e)) ∈ ws -> (fst r <= i)%nat) /\
  (r = acc \/ exists e, Stopped (Some (fst r, e)) ∈ ws /\ snd r = Some e).
Proof.
  revert acc. induction ws as [|w ws IH]; intros acc; cbn zeta; [split; [done|split; [|by left]]|].
  { intros i e H. by apply elem_of_nil in H. }
  cbn [foldl]. specialize (IH (pv.scanResult acc w)). cbn zeta in IH. destruct IH as (Hle & Hall & Hor).
  set (r := foldl pv.scanResult _ ws) in *.
  assert (Hw : (fst (pv.scanResult acc w) <= fst acc)%nat /\
    (forall i e, w = Stopped (Some (i, e)) -> (fst (pv.scanResult acc w) <= i)%nat) /\
    (pv.scanResult acc w = acc \/ exists e, w = Stopped (Some (fst (pv.scanResult acc w), e)) /\
       snd (pv.scanResult acc w) = Some e)).
  { destruct w as [fv|i fv|[[i e]|]|]; simpl; try (split; [lia|split; [done|by left]]).
    destruct (Nat.ltb_spec i (fst acc)); simpl; (split; [lia|split; [intros ? ? [= <- <-]; lia|]]);
      [right; by eexists|by left]. }
  destruct Hw as (Hw1 & Hw2 & Hw3). split; [lia|]. split.
  - intros i e H. apply elem_of_cons in H as [H|H]; [specialize (Hw2 i e (eq_sym H)); lia|by eapply Hall].
  - destruct Hor as [->|(e & He & Hs)]; [|right; exists e; split; [by right|done]].
    destruct Hw3 as [->|(e & Hwe & Hs)]; [by left|]. right. exists e. split; [|done].
    apply elem_of_cons. by left.
Qed.

Lemma finished_verdict p :
  pool_ok p -> workers p <> [] -> pv.finished p -> pv.firstError v p = firstVerdict (seq 0 n).
Proof.
  intros [Hw Ht] Hne Hf. unfold pv.finished in Hf. rewrite forallb_forall in Hf. unfold pv.firstError.
  destruct (scan_spec (workers p) (n, None)) as (_ & Hmin & Hor).
  set (r := foldl pv.scanResult (n, None) (workers p)) in *.
  assert (Hsettled : forall i, (i < n)%nat -> (i < next p)%nat -> (i < fst r)%nat -> verdict i = Ok tt).
  { intros i Hi Hlt Hr. destruct (Ht i Hi Hlt) as [?|He]; [done|]. apply Exists_exists in He as (w & Hin & Hset).
    pose proof (Hf w ltac:(by apply list_elem_of_In)) as Hst. destruct w as [|? ?|[[j e]|]|]; try done.
    simpl in Hset. subst j. specialize (Hmin i e Hin). lia. }
  destruct Hor as [->|(e & Hin & Hs)].
  - cbn [snd]. symmetry. apply firstVerdict_ok. intros i Hi. apply elem_of_seq in Hi.
    destruct (workers p) as [|w ws] eqn:E; [done|].
    pose proof (Forall_inv Hw) as Hok. pose proof (Hf w ltac:(by left)) as Hst.
    destruct w as [|? ?|[[j e]|]|]; try done.
    + destruct Hok as (_ & Hj & _). specialize (Hmin j e ltac:(by left)). cbn [fst] in Hmin. lia.
    + apply Hsettled; cbn in *; lia.
  - rewrite Hs. symmetry. pose proof (proj1 (Forall_forall _ _) Hw _ Hin) as (He & Hi & Hlt).
    apply (firstVerdict_err 0 n (fst r) e); [lia| |done]. intros j Hj. apply Hsettled; lia.
Qed.

(** ** Progress *)

Definition weight (w : worker) : nat :=
  match w with Checking _ _ => 3 | Idle _ => 2 | _ => 0 end.

(** Bounds the steps a pool can still make. *)
Definition remaining (p : pool) : nat := 2 * (n - next p) + sum_list_with weight (workers p).

Lemma sum_insert (f : worker -> nat) k w w' l :
  l !! k = Some w -> (sum_list_with f (<[k := w']> l) + f w = sum_list_with f l + f w')%nat.
Proof. revert k. induction l as [|x l IH]; intros [|k] H; simplify_eq/=; [lia|]. specialize (IH k H). lia. Qed.

Lemma stepPool_remaining k p p' : pv.stepPool v k p = Some p' -> (remaining p' < remaining p)%nat.
Proof.
  unfold pv.stepPool, remaining. intros H. destruct (workers p !! k) as [w|] eqn:Hk; [|done]. simpl in H.
  destruct (pv.stepWorker v (next p) w) as [[b w']|] eqn:Hs; [|done]. injection H as <-. cbn [next workers fst snd].
  pose proof (sum_insert weight k w w' (workers p) Hk) as Hsum.
  destruct w as [fv|i fv|r|]; [| |done|done]; cbn [pv.stepWorker] in Hs.
  - destruct (Nat.leb_spec n (next p)); simplify_eq/=; lia.
  - destruct (sd.validateFunction v _ i fv) as [[[]|e|] fv']; simplify_eq/=; lia.
Qed.

Lemma steps_bounded k p q : nsteps (pv.moves v) k p q -> (k + remaining q <= remaining p)%nat.
Proof.
  induction 1 as [|k p q r [j Hj] _ IH]; [lia|]. apply stepPool_remaining in Hj. lia.
Qed.

Lemma unfinished_moves p : pool_ok p -> pv.finished p \/ exists q, pv.moves v p q.
Proof.
  intros [Hw _]. unfold pv.finished. destruct (forallb pv.stopped (workers p)) eqn:E; [by left|]. right.
  apply not_true_iff_false in E. rewrite forallb_forall in E.
  destruct (decide (Exists (fun w => pv.stopped w = false) (workers p))) as [Hx|Hx].
  - apply Exists_exists in Hx as (w & Hin & Hst). pose proof (proj1 (Forall_forall _ _) Hw _ Hin) as Hok.
    apply list_elem_of_lookup_1 in Hin as [k Hk].
    assert (Hs : is_Some (pv.stepWorker v (next p) w)).
    { destruct w as [fv|i fv|r|]; try done; simpl.
      destruct (sd.validateFunction v _ i fv) as [[[]|e|] fv']; done. }
    destruct Hs as [r Hr]. eexists. exists k. unfold pv.stepPool. rewrite Hk. simpl. by rewrite Hr.
  - exfalso. apply E. intros w Hin. destruct (pv.stopped w) eqn:Hst; [done|]. exfalso. apply Hx, Exists_exists.
    exists w. split; [by apply list_elem_of_In|done].
Qed.

Lemma workers_length p q : rtc (pv.moves v) p q -> length (workers q) = length (workers p).
Proof.
  induction 1 as [|p q r [k Hk] _ IH]; [done|]. rewrite IH. unfold pv.stepPool in Hk.
  destruct (workers p !! k); [|done]. simpl in Hk. destruct (pv.stepWorker v (next p) _); [|done].
  injection Hk as <-. apply length_insert.
Qed.

Lemma reaches_end w p :
  rtc (pv.moves v) (pv.startPool w) p -> exists q, rtc (pv.moves v) p q /\ pv.finished q.
Proof.
  induction p as [p IH] using (well_founded_induction (well_founded_ltof _ remaining)). intros H.
  destruct (unfinished_moves p (reached_ok w p H)) as [Hf|[q Hq]]; [by exists p|].
  destruct (IH q) as (r & Hr & Hf); [by destruct Hq as [k ?%stepPool_remaining]|by eapply rtc_r|].
  exists r. split; [by eapply rtc_l|done].
Qed.
End Pool.

(** ** Whole modules *)

Lemma validateFunctions_serial v n o : code_ok (vm v) -> pv.validateFunctions v n o -> o = mm.serialPhase v.
Proof.
  intros Hm [_|p Hn Hr Hf]; [done|]. rewrite serialPhase_verdict by done.
  apply orb_false_iff in Hn as [Hn Hc]. apply Z.leb_gt in Hn. apply Nat.leb_gt in Hc.
  apply finished_verdict; [by eapply reached_ok| |done].
  intros E. apply workers_length in Hr. rewrite E in Hr. simpl in Hr. rewrite length_replicate in Hr. lia.
Qed.

Lemma validateModule_vm v s v' s' : mm.validateModule v s = (Ok v', s') -> vm v' = vm v.
Proof.
  unfold mm.validateModule. intros H. apply bind_ok in H as (? & ? & _ & H). apply bind_ok in H as (? & ? & _ & H).
  destruct (mm.collectDeclaredFuncs v) as [bits|]; [|done]. apply bind_ok in H as (? & ? & _ & H).
  apply bind_ok in H as (v1 & s1 & Hv & H). apply bind_ok in H as (? & ? & _ & H). injection H as <- <-.
  unfold tv.validateSubtypeMetadata in Hv. apply bind_ok in Hv as (? & ? & _ & Hv).
  destruct (negb _); [by injection Hv as <- <-|].
  destruct (tv.visitAll _ _) as [[?|?|] [? deep]]; try done. destruct (tv.wantsAncestry _ _); [|by injection Hv as <- <-].
  destruct (tv.buildSupertypeAncestry _); [|done]. by injection Hv as <- <-.
Qed.

Lemma validateFunctions_returns v n : code_ok (vm v) -> pv.validateFunctions v n (mm.serialPhase v).
Proof.
  intros Hm. destruct ((n <=? 1) || (pv.codeCount v <=? 1)%nat) eqn:E; [by apply pv.validate_serial|].
  destruct (reaches_end v Hm (Nat.min (Z.to_nat n) (pv.codeCount v)) _ (rtc_refl _ _)) as (p & Hr & Hf).
  pose proof (pv.validate_parallel v n p E Hr Hf) as H. by rewrite <- (validateFunctions_serial v n _ Hm H).
Qed.

(** C6: a module validated with any number of workers, under any schedule of their
    steps, gets the verdict of serial validation and no other: it is accepted exactly
    when every function is, and otherwise the error is that of the lowest failing
    function. *)
Theorem parallel_is_serial n m direct f l o :
  code_ok m ->
  pv.validateModuleWithWorkers n (Some m) direct f l o <->
  o = mm.validateModuleWith mm.serialPhase (Some m) direct f l.
Proof.
  intros Hm. split.
  2: { intros ->. exists mm.serialPhase. split; [|done]. intros v [= Hv].
       apply validateFunctions_returns. by rewrite Hv. }
  intros (phase & Hp & ->). unfold mm.validateModuleWith. destruct (_ <? _); [done|].
  destruct (_ <? _); [done|]. set (v := mm.newValidator _ _ _ _).
  destruct (mm.validateModule v zeroState) as [[v'|e|] s'] eqn:E; try done. simpl.
  apply validateModule_vm in E. apply (validateFunctions_serial v' n); [by rewrite E|]. apply Hp. by rewrite E.
Qed.

(** C7: the workers always finish.  No schedule makes more than two steps per function
    and two per worker, as long as some worker has not stopped one can move, and so
    a state in which all have stopped is always reached. *)
Theorem parallel_liveness v n :
  code_ok (vm v) ->
  (forall k p, nsteps (pv.moves v) k (pv.startPool n) p -> (k <= 2 * pv.codeCount v + 2 * n)%nat) /\
  (forall p, rtc (pv.moves v) (pv.startPool n) p -> pv.finished p \/ exists q, pv.moves v p q) /\
  (forall p, rtc (pv.moves v) (pv.startPool n) p -> exists q, rtc (pv.moves v) p q /\ pv.finished q).
Proof.
  intros Hm. split; [|split].
  - intros k p H. apply steps_bounded in H. unfold remaining in H at 2. simpl in H.
    replace (sum_list_with weight (replicate n (Idle zeroState))) with (2 * n)%nat in H; [lia|].
    clear H. induction n; simpl in *; lia.
  - intros p H. by apply unfinished_moves, (reached_ok v Hm n).
  - intros p. by apply reaches_end.
Qed.

(** ** Samples: the second and the third function fail *)

Definition failing (b : Z) : Func :=
  {| FLocals := []; FBody := zeroExpr; LocalDeclBytes := 1; FBodyBytes := [0x20; 0x00; b; 0x0b] |}.

(** [i32.eqz; drop; end] leaves no result, [i64.eqz] takes another operand. *)
Definition threeFuncs : Module_ :=
  {| Customs := []; NameSec_ := None; RawNameSecPayload := []; Types_ := Types_ sampleModule;
     Imports := []; FuncTypes := replicate 3 {| Index := 0; Rec := false |}; Tables := []; Memories := [];
     Tags := []; StringRefs := []; Globals := []; Exports := []; Start := None; Elements := [];
     DataCount := None; Code_ := [sampleFunc; failing 0x1a; failing 0x50]; Data_ := [];
     UsesCompactImports := false; BranchHints := [] |}.

Definition threeValidator : moduleValidator :=
  mm.newValidator threeFuncs None mm.noFeatures mm.defaultValidationLimits.

Lemma threeFuncs_ok : code_ok threeFuncs.
Proof.
  repeat (apply Forall_cons_2; [split; [done|]; repeat (apply Forall_cons_2; [unfold byte_ok; lia|]); apply Forall_nil_2|]).
  apply Forall_nil_2.
Qed.

(** With two workers, the third function is found to fail first. *)
Example late_error :
  let p := pv.schedule threeValidator [0; 1; 0; 0; 0; 1; 1; 1; 1]%nat (pv.startPool 2) in
  map pv.stopped (workers p) = [true; true] /\
  pv.firstError threeValidator p = Err (validation_error ErrTypeMismatch 1).
Proof. split; vm_compute; reflexivity. Qed.

Lemma parallel_is_serial_witness :
  pv.validateModuleWithWorkers 4 (Some threeFuncs) None mm.noFeatures mm.defaultValidationLimits
    (Err (validation_error ErrTypeMismatch 1)).
Proof.
  apply (parallel_is_serial 4 threeFuncs None mm.noFeatures mm.defaultValidationLimits
    (Err (validation_error ErrTypeMismatch 1)) threeFuncs_ok). vm_compute. reflexivity.
Defined.

Lemma parallel_liveness_witness :
  exists q, rtc (pv.moves threeValidator) (pv.startPool 2) q /\ pv.finished q.
Proof.
  destruct (parallel_liveness threeValidator 2 threeFuncs_ok) as (_ & _ & H).
  exact (H (pv.startPool 2) (rtc_refl _ _)).
Defined.
