(* ===== verification/Ancestry.v ===== *)
(** * The supertype forest

    The numbering of [buildSupertypeAncestry] against a tree model: the types with
    their declared supertypes are a forest, the walk visits it in preorder, and one
    interval contains another exactly when its type is a declared ancestor of the
    other type. *)

From stdpp Require Import base tactics numbers list gmap relations.
From Stdlib Require Import ZArith Lia.
From S2P Require Import Prelude Reader Types Module ModuleDecode TypeEquiv Subtyping Validator TypeValid.
Local Open Scope nat_scope.

(** ** Trees *)

Inductive tree : Set := T (x : nat) (cs : list tree).

Definition root_of (t : tree) : nat := match t with T x _ => x end.

Fixpoint nodes (t : tree) : list nat :=
  match t with T x cs => x :: concat (map nodes cs) end.

Definition nodesF (f : list tree) : list nat := concat (map nodes f).

Definition size (t : tree) : nat := length (nodes t).
Definition sizeF (f : list tree) : nat := length (nodesF f).

Lemma size_T x cs : size (T x cs) = S (sizeF cs).
Proof. done. Qed.

Lemma sizeF_cons t f : sizeF (t :: f) = size t + sizeF f.
Proof. unfold sizeF, nodesF. simpl. by rewrite length_app. Qed.

Lemma nodesF_cons t f : nodesF (t :: f) = nodes t ++ nodesF f.
Proof. done. Qed.

Lemma nodesF_app f g : nodesF (f ++ g) = nodesF f ++ nodesF g.
Proof. unfold nodesF. by rewrite map_app, concat_app. Qed.

(** ** The forest of a parent function *)

Section Forest.
Context (n : nat) (par : nat -> option nat).
Hypothesis par_lt : forall i p, par i = Some p -> p < i.
Hypothesis par_dom : forall i p, par i = Some p -> i < n.

(** The children of [p] among the first [k] types, last first. *)
Definition childrenUpTo (k p : nat) : list nat := reverse (filter (fun i => par i = Some p) (seq 0 k)).
Definition childrenOf (p : nat) : list nat := childrenUpTo n p.

Lemma elem_of_childrenUpTo k p i : i ∈ childrenUpTo k p <-> par i = Some p /\ i < k.
Proof.
  unfold childrenUpTo. rewrite elem_of_reverse, list_elem_of_filter, elem_of_seq.
  split; intros [? ?]; (split; [done|lia]).
Qed.

Lemma elem_of_childrenOf p i : i ∈ childrenOf p <-> par i = Some p.
Proof. unfold childrenOf. rewrite elem_of_childrenUpTo. split; [by intros [? _]|]. intros H. split; [done|eauto]. Qed.

Lemma childrenUpTo_S k p :
  childrenUpTo (S k) p = (if decide (par k = Some p) then [k] else []) ++ childrenUpTo k p.
Proof.
  unfold childrenUpTo. rewrite seq_S, filter_app, reverse_app. simpl. f_equal.
  rewrite filter_cons, filter_nil. by destruct (decide _).
Qed.

Lemma NoDup_childrenOf p : NoDup (childrenOf p).
Proof. unfold childrenOf, childrenUpTo. rewrite reverse_Permutation. apply NoDup_filter, NoDup_seq. Qed.

(** The tree under [i], with fuel for its depth. *)
Fixpoint subtree (fuel i : nat) : tree :=
  match fuel with
  | O => T i []
  | S fuel' => T i (map (subtree fuel') (childrenOf i))
  end.

Definition sub (i : nat) : tree := subtree (n - i) i.

Lemma subtree_enough f g i : n - i <= f -> n - i <= g -> subtree f i = subtree g i.
Proof.
  assert (Hleaf : forall i, n - i = 0 -> childrenOf i = []).
  { intros j Hj. destruct (childrenOf j) as [|c cs] eqn:Ec; [done|]. exfalso.
    assert (Hc : c ∈ childrenOf j) by (rewrite Ec; left). apply elem_of_childrenOf in Hc.
    pose proof (par_lt _ _ Hc). pose proof (par_dom _ _ Hc). lia. }
  revert g i. induction f as [|f IH]; intros [|g] i Hf Hg; simpl; try (by rewrite Hleaf by lia); [done|].
  f_equal. apply map_ext_in. intros c Hc. apply list_elem_of_In, elem_of_childrenOf in Hc.
  pose proof (par_lt _ _ Hc). pose proof (par_dom _ _ Hc). apply IH; lia.
Qed.

Lemma sub_unfold i : sub i = T i (map sub (childrenOf i)).
Proof.
  unfold sub at 1. rewrite (subtree_enough (n - i) (S (n - i)) i) by lia. simpl. f_equal. apply map_ext_in. intros c Hc.
  apply list_elem_of_In, elem_of_childrenOf in Hc. pose proof (par_lt _ _ Hc). apply subtree_enough; lia.
Qed.

(** Induction from the children to the parent. *)
Lemma forest_ind (P : nat -> Prop) : (forall i, (forall c, par c = Some i -> P c) -> P i) -> forall i, P i.
Proof.
  intros H i. remember (n - i) as k eqn:E. revert i E. induction k as [k IH] using lt_wf_ind. intros i ->.
  apply H. intros c Hc. pose proof (par_lt _ _ Hc). pose proof (par_dom _ _ Hc). eapply IH; [|done]. lia.
Qed.

(** Declared ancestors, a type counting as its own. *)
Definition up (i p : nat) : Prop := par i = Some p.

Lemma elem_of_sub x y : x ∈ nodes (sub y) <-> rtc up x y.
Proof.
  induction y as [y IH] using forest_ind. rewrite sub_unfold. simpl. rewrite elem_of_cons. split.
  - intros [->|Hx]; [done|]. apply list_elem_of_In, in_concat in Hx as (l & Hl & Hx).
    apply in_map_iff in Hl as (t & <- & Ht). apply in_map_iff in Ht as (c & <- & Hc).
    apply list_elem_of_In, elem_of_childrenOf in Hc. apply list_elem_of_In, IH in Hx; [|done].
    by eapply rtc_r.
  - intros H. destruct (rtc_inv_r _ _ H) as [->|(c & Hc & Hcy)]; [by left|]. right.
    apply list_elem_of_In, in_concat. exists (nodes (sub c)). split; [|by apply list_elem_of_In, IH].
    apply in_map, in_map. by apply list_elem_of_In, elem_of_childrenOf.
Qed.

Lemma up_le x y : rtc up x y -> y <= x.
Proof. induction 1 as [|x z y Hz _ IH]; [done|]. apply par_lt in Hz. lia. Qed.

(** Two ancestors of a type are on one chain. *)
Lemma up_linear x y z : rtc up x y -> rtc up x z -> rtc up y z \/ rtc up z y.
Proof.
  intros Hy. revert z. induction Hy as [x|x w y Hw Hwy IH]; intros z Hz; [by left|].
  inversion Hz as [|? w' ? Hw' Hwz]; subst; [right; by eapply rtc_l|]. unfold up in *. simplify_eq. by apply IH.
Qed.

Lemma siblings_disjoint p c d x :
  par c = Some p -> par d = Some p -> rtc up x c -> rtc up x d -> c = d.
Proof.
  assert (H : forall c d, par c = Some p -> par d = Some p -> rtc up c d -> c = d).
  { intros a b Ha Hb H. inversion H as [|? q ? Hq Hqb]; [done|]. subst. unfold up in Hq. simplify_eq.
    apply up_le in Hqb. apply par_lt in Hb. lia. }
  intros Hc Hd Hxc Hxd. destruct (up_linear _ _ _ Hxc Hxd) as [Hr|Hr]; [by apply H|symmetry; by apply H].
Qed.

Lemma NoDup_nodesF l :
  NoDup l -> (forall c, c ∈ l -> NoDup (nodes (sub c))) ->
  (forall c d x, c ∈ l -> d ∈ l -> rtc up x c -> rtc up x d -> c = d) -> NoDup (nodesF (map sub l)).
Proof.
  induction 1 as [|c l Hc Hl IH]; intros Hn Hd; [apply NoDup_nil_2|]. simpl. rewrite nodesF_cons.
  apply NoDup_app. split; [apply Hn; left|]. split.
  - intros x Hx Hin. apply list_elem_of_In, in_concat in Hin as (k & Hk & Hin).
    apply in_map_iff in Hk as (t & <- & Ht). apply in_map_iff in Ht as (d & <- & Hd').
    apply list_elem_of_In in Hd', Hin. apply elem_of_sub in Hx, Hin.
    assert (c = d) as <-; [|done]. apply (Hd c d x); [left|by right|done|done].
  - apply IH; [intros; apply Hn; by right|]. intros a b x Ha Hb. apply Hd; by right.
Qed.

Lemma NoDup_sub y : NoDup (nodes (sub y)).
Proof.
  induction y as [y IH] using forest_ind. rewrite sub_unfold. simpl. apply NoDup_cons. split.
  - intros Hin. apply list_elem_of_In, in_concat in Hin as (k & Hk & Hin).
    apply in_map_iff in Hk as (t & <- & Ht). apply in_map_iff in Ht as (c & <- & Hc).
    apply list_elem_of_In, elem_of_childrenOf in Hc. apply list_elem_of_In, elem_of_sub, up_le in Hin.
    apply par_lt in Hc. lia.
  - apply NoDup_nodesF; [apply NoDup_childrenOf|..].
    + intros c Hc. by apply IH, elem_of_childrenOf.
    + intros c d x Hc Hd. apply elem_of_childrenOf in Hc, Hd. by apply siblings_disjoint with y.
Qed.

(** ** The walk *)

(** A list of siblings linked through [nextSibling]. *)
Inductive chain (next : list Z) : Z -> list nat -> Prop :=
| chain_nil : chain next tv.none []
| chain_cons c h cs : next !! c = Some h -> chain next h cs -> chain next (Z.of_nat c) (c :: cs).

Hypothesis n_small : (Z.of_nat n <= tv.none)%Z.

Record links_ok (l : tv.links) : Prop := {
  links_len : length (tv.parent l) = n;
  links_parent x : x < n -> tv.parent l !! x = Some (match par x with Some p => Z.of_nat p | None => tv.none end);
  links_children x : x < n -> exists h, tv.firstChild l !! x = Some h /\ chain (tv.nextSibling l) h (childrenOf x)
}.

(** The numbers of a list of types in preorder, from tick [t]. *)
Definition numbered (t : Z) (order : list nat) (w : tv.walk) : Prop :=
  forall k x, order !! k = Some x ->
  tv.enter w !! x = Some (t + 1 + Z.of_nat k)%Z /\
  tv.exit w !! x = Some (t + Z.of_nat k + Z.of_nat (size (sub x)))%Z.

(** [w'] differs from [w] only on the types of a list. *)
Record touches (l : list nat) (w w' : tv.walk) : Prop := {
  touch_enter x : x ∉ l -> tv.enter w' !! x = tv.enter w !! x;
  touch_exit x : x ∉ l -> tv.exit w' !! x = tv.exit w !! x;
  touch_enter_len : length (tv.enter w') = length (tv.enter w);
  touch_exit_len : length (tv.exit w') = length (tv.exit w);
  touch_children_len : length (tv.children w') = length (tv.children w)
}.

Record walk_ok (w : tv.walk) : Prop := {
  walk_enter : length (tv.enter w) = n;
  walk_exit : length (tv.exit w) = n;
  walk_children : length (tv.children w) = n
}.

Lemma touches_ok l w w' : touches l w w' -> walk_ok w -> walk_ok w'.
Proof. intros [_ _ H1 H2 H3] [E1 E2 E3]. split; congruence. Qed.

Lemma node_small x : x < n -> (Z.of_nat x <> tv.none)%Z.
Proof. intros H E. rewrite <- E in n_small. lia. Qed.

Lemma sub_small c x : c < n -> x ∈ nodes (sub c) -> x < n.
Proof.
  intros Hc Hx. apply elem_of_sub in Hx. inversion Hx as [|? p ? Hp _]; [by subst|]. by eapply par_dom.
Qed.

(** The children of [i] that are left, [cs], are visited and the walk is back at [i]. *)
Record visited (i : nat) (cs : list nat) (w w' : tv.walk) : Prop := {
  vis_cur : tv.cur w' = Z.of_nat i;
  vis_head : tv.children w' !! i = Some tv.none;
  vis_others x : x ∉ nodesF (map sub cs) -> x <> i -> tv.children w' !! x = tv.children w !! x;
  vis_tick : tv.tick w' = (tv.tick w + Z.of_nat (sizeF (map sub cs)))%Z;
  vis_touches : touches (nodesF (map sub cs)) w w';
  vis_numbered : numbered (tv.tick w) (nodesF (map sub cs)) w'
}.

Record unvisited (l : tv.links) (root : Z) (i : nat) (cs : list nat) (w : tv.walk) : Prop := {
  unv_cur : tv.cur w = Z.of_nat i;
  unv_i : i < n;
  unv_head : exists h, tv.children w !! i = Some h /\ chain (tv.nextSibling l) h cs;
  unv_par c : c ∈ cs -> par c = Some i;
  unv_nodup : NoDup (nodesF (map sub cs));
  unv_root x : x ∈ nodesF (map sub cs) -> Z.of_nat x <> root;
  unv_children x : x ∈ nodesF (map sub cs) -> tv.children w !! x = tv.firstChild l !! x;
  unv_ok : walk_ok w;
  unv_tick : (0 <= tv.tick w)%Z /\ (tv.tick w + Z.of_nat (sizeF (map sub cs)) < 2 ^ 32)%Z
}.

Lemma nodes_sub c : nodes (sub c) = c :: nodesF (map sub (childrenOf c)).
Proof. by rewrite sub_unfold. Qed.

Lemma size_sub c : size (sub c) = S (sizeF (map sub (childrenOf c))).
Proof. unfold size. by rewrite nodes_sub. Qed.

Lemma under_lt i cs x : (forall c, c ∈ cs -> par c = Some i) -> x ∈ nodesF (map sub cs) -> i < x < n.
Proof.
  intros Hp Hx. apply list_elem_of_In, in_concat in Hx as (k & Hk & Hx).
  apply in_map_iff in Hk as (t & <- & Ht). apply in_map_iff in Ht as (c & <- & Hc).
  apply list_elem_of_In in Hc, Hx. pose proof (Hp c Hc) as Hpc.
  pose proof (sub_small c x (par_dom _ _ Hpc) Hx). apply elem_of_sub, up_le in Hx. apply par_lt in Hpc. lia.
Qed.

Section Walk.
Context (l : tv.links) (Hl : links_ok l) (root : Z).

(** The round that goes down to a child. *)
Lemma enter_child i c rest w fuel :
  unvisited l root i (c :: rest) w ->
  exists h, let w1 := tv.enterAt (Z.of_nat c) (<[i := h]> (tv.children w)) w in
  tv.descend (S fuel) l root w = tv.descend fuel l root w1 /\ chain (tv.nextSibling l) h rest /\
  unvisited l root c (childrenOf c) w1.
Proof.
  intros [Hc Hi (h & Hh & Hch) Hp Hn Hr Hcs Hok [Ht0 Ht]]. inversion Hch as [|? h' ? Hh' Hrest]; subst.
  pose proof (Hp c ltac:(left)) as Hpc. pose proof (par_dom _ _ Hpc) as Hcn. pose proof (par_lt _ _ Hpc) as Hci.
  exists h'. cbn zeta. split; [|split; [done|]].
  - cbn [tv.descend]. rewrite Hc, !Nat2Z.id, Hh. cbn. rewrite (proj2 (Z.eqb_neq _ _) (node_small c Hcn)). cbn [negb].
    rewrite ?Nat2Z.id, Hh'. done.
  - simpl map in *. rewrite nodesF_cons in *. rewrite nodes_sub in *. rewrite sizeF_cons, size_sub in Ht.
    destruct (links_children l Hl c Hcn) as (hc & Hhc & Hchc).
    rewrite <- app_comm_cons in Hn. apply NoDup_cons in Hn as [Hnc Hn]. apply NoDup_app in Hn as (Hn & _ & _).
    split; cbn [tv.cur tv.children tv.tick tv.enterAt].
    + done.
    + done.
    + exists hc. split; [|done]. rewrite list_lookup_insert_ne by lia. rewrite Hcs; [done|].
      rewrite <- app_comm_cons. left.
    + intros d Hd. by apply elem_of_childrenOf.
    + done.
    + intros x Hx. apply Hr. rewrite <- app_comm_cons. right. apply elem_of_app. by left.
    + intros x Hx. rewrite list_lookup_insert_ne; [apply Hcs; rewrite <- app_comm_cons; right; apply elem_of_app; by left|].
      pose proof (under_lt c (childrenOf c) x ltac:(intros; by apply elem_of_childrenOf) Hx). lia.
    + destruct Hok. split; cbn; rewrite ?length_insert; done.
    + rewrite to_u32_small by lia. lia.
Qed.

(** The state after the round that leaves a type for its parent. *)
Definition leave (i c : nat) (w : tv.walk) : tv.walk :=
  {| tv.children := tv.children w; tv.enter := tv.enter w; tv.exit := <[c := tv.tick w]> (tv.exit w);
     tv.tick := tv.tick w; tv.cur := Z.of_nat i |}.

Lemma leave_child i c w fuel :
  par c = Some i -> Z.of_nat c <> root -> tv.cur w = Z.of_nat c -> tv.children w !! c = Some tv.none ->
  tv.descend (S fuel) l root w = tv.descend fuel l root (leave i c w).
Proof.
  intros Hp Hr Hc Hn. cbn [tv.descend]. rewrite Hc, !Nat2Z.id, Hn. cbn. rewrite (proj2 (Z.eqb_neq _ _) Hr), ?Nat2Z.id.
  rewrite (links_parent l Hl c (par_dom _ _ Hp)), Hp. done.
Qed.

Lemma numbered_app t a b w :
  numbered t a w -> numbered (t + Z.of_nat (length a)) b w -> numbered t (a ++ b) w.
Proof.
  intros Ha Hb k x H. apply lookup_app_Some in H as [H|[Hk H]]; [by apply Ha|].
  destruct (Hb _ _ H) as [-> ->]. split; f_equal; lia.
Qed.

Lemma numbered_touches t a b w w' : touches b w w' -> a ## b -> numbered t a w -> numbered t a w'.
Proof.
  intros [He Hx _ _ _] Hd Ha k x H. rewrite He, Hx; [by apply Ha|..];
    intros Hin; eapply Hd; [by eapply list_elem_of_lookup_2|done|by eapply list_elem_of_lookup_2|done].
Qed.

Lemma touches_weaken a b w w' : (forall x, x ∈ a -> x ∈ b) -> touches a w w' -> touches b w w'.
Proof. intros H [He Hx ? ? ?]. split; try done; intros x Hn; [apply He|apply Hx]; intros Hi; by apply Hn, H. Qed.

Lemma touches_trans a w1 w2 w3 : touches a w1 w2 -> touches a w2 w3 -> touches a w1 w3.
Proof.
  intros [He Hx ? ? ?] [He' Hx' ? ? ?]. split; try congruence; intros x Hn.
  - by rewrite He', He.
  - by rewrite Hx', Hx.
Qed.

(** The state when the walk is back at [i] from its child [c]. *)
Lemma after_child i c rest h w w2 :
  unvisited l root i (c :: rest) w -> chain (tv.nextSibling l) h rest ->
  visited c (childrenOf c) (tv.enterAt (Z.of_nat c) (<[i := h]> (tv.children w)) w) w2 ->
  let w3 := leave i c w2 in
  unvisited l root i rest w3 /\ touches (nodes (sub c)) w w3 /\ numbered (tv.tick w) (nodes (sub c)) w3 /\
  (forall x, x ∉ nodes (sub c) -> x <> i -> tv.children w3 !! x = tv.children w !! x) /\
  tv.tick w3 = (tv.tick w + Z.of_nat (size (sub c)))%Z.
Proof.
  intros [Hc Hi _ Hp Hn Hr Hcs Hok [Ht0 Ht]] Hch [Hcur Hhead Hoth Htick Htou Hnum].
  pose proof (Hp c ltac:(left)) as Hpc. pose proof (par_lt _ _ Hpc) as Hci. pose proof (par_dom _ _ Hpc) as Hcn.
  simpl map in *. rewrite nodesF_cons in *. rewrite sizeF_cons, size_sub in Ht.
  set (w1 := tv.enterAt _ _ _) in *. assert (Hok1 : walk_ok w1).
  { destruct Hok. split; cbn; rewrite ?length_insert; done. }
  pose proof (touches_ok _ _ _ Htou Hok1) as Hok2.
  assert (Ht1 : tv.tick w1 = (tv.tick w + 1)%Z) by (cbn; rewrite to_u32_small by lia; lia).
  rewrite Ht1 in *. apply NoDup_app in Hn as (Hnc & Hdis & Hn). rewrite nodes_sub in Hnc. apply NoDup_cons in Hnc as [Hcc Hnc].
  assert (Hinot : i ∉ nodes (sub c)) by (rewrite elem_of_sub; intros H; apply up_le in H; lia).
  assert (Htick3 : tv.tick (leave i c w2) = (tv.tick w + Z.of_nat (size (sub c)))%Z).
  { cbn. rewrite Htick, size_sub. lia. }
  assert (Hkeep : forall x, x ∉ nodes (sub c) -> x <> i -> tv.children (leave i c w2) !! x = tv.children w !! x).
  { intros x Hx Hxi. cbn. rewrite nodes_sub, not_elem_of_cons in Hx. destruct Hx as [Hxc Hx].
    rewrite Hoth by done. cbn. by rewrite list_lookup_insert_ne by done. }
  cbn zeta. split; [|split; [|split; [|split; [done|done]]]].
  - split; try done.
    + exists h. split; [|done]. cbn. rewrite Hoth; [|rewrite nodes_sub, not_elem_of_cons in Hinot; apply Hinot|lia].
      cbn. apply list_lookup_insert_eq. destruct Hok. lia.
    + intros d Hd. apply Hp. by right.
    + intros x Hx. apply Hr, elem_of_app. by right.
    + intros x Hx. rewrite Hkeep; [apply Hcs, elem_of_app; by right|intros H; by eapply Hdis|].
      pose proof (under_lt i rest x ltac:(intros; apply Hp; by right) Hx). lia.
    + destruct Hok2. split; cbn; rewrite ?length_insert; done.
    + rewrite Htick3, size_sub. lia.
  - destruct Htou as [He Hx Hle Hlx Hlc]. rewrite nodes_sub. split; cbn.
    + intros x Hxn. apply not_elem_of_cons in Hxn as [Hxc Hxn]. rewrite He by done. cbn. rewrite Nat2Z.id.
      by rewrite list_lookup_insert_ne by done.
    + intros x Hxn. apply not_elem_of_cons in Hxn as [Hxc Hxn]. rewrite list_lookup_insert_ne by done. by rewrite Hx.
    + rewrite Hle. cbn. by rewrite length_insert.
    + by rewrite length_insert, Hlx.
    + rewrite Hlc. cbn. by rewrite length_insert.
  - rewrite nodes_sub. intros [|k] x Hx; simpl in Hx.
    + injection Hx as <-. cbn. destruct Htou as [He _ _ _ _]. rewrite He by done. cbn. rewrite Nat2Z.id. split.
      * rewrite list_lookup_insert_eq by (destruct Hok; lia). f_equal. rewrite to_u32_small by lia. lia.
      * rewrite list_lookup_insert_eq by (destruct Hok2; lia). f_equal. rewrite Htick, size_sub. lia.
    + destruct (Hnum _ _ Hx) as [E1 E2]. cbn. rewrite E1. split; [f_equal; lia|].
      rewrite list_lookup_insert_ne; [rewrite E2; f_equal; lia|]. intros ->. by eapply Hcc, list_elem_of_lookup_2.
Qed.

Lemma descend_forest m i cs w fuel :
  sizeF (map sub cs) <= m -> unvisited l root i cs w ->
  exists w', tv.descend (2 * sizeF (map sub cs) + fuel) l root w = tv.descend fuel l root w' /\ visited i cs w w'.
Proof.
  revert i cs w fuel. induction m as [m IH] using lt_wf_ind. intros i [|c rest] w fuel Hm Hu.
  { exists w. split; [done|]. destruct Hu as [Hc _ (h & Hh & Hch) _ _ _ _ _ _]. inversion Hch; subst.
    split; try done. cbn. lia. }
  destruct (enter_child i c rest w (2 * sizeF (map sub (childrenOf c)) + S (2 * sizeF (map sub rest) + fuel)) Hu)
    as (h & E1 & Hch & Hu1).
  simpl map in *. rewrite sizeF_cons, size_sub in Hm |- *.
  replace (2 * (S (sizeF (map sub (childrenOf c))) + sizeF (map sub rest)) + fuel) with
    (S (2 * sizeF (map sub (childrenOf c)) + S (2 * sizeF (map sub rest) + fuel))) by lia.
  rewrite E1. destruct (IH (sizeF (map sub (childrenOf c))) ltac:(lia) c (childrenOf c) _
    (S (2 * sizeF (map sub rest) + fuel)) ltac:(lia) Hu1) as (w2 & -> & Hv).
  destruct (after_child i c rest h w w2 Hu Hch Hv) as (Hu3 & Htou & Hnum & Hkeep & Htick).
  pose proof (unv_par _ _ _ _ _ Hu c ltac:(left)) as Hpc.
  rewrite (leave_child i c w2 _ Hpc); [|eapply unv_root; [exact Hu|]; simpl; rewrite nodesF_cons, nodes_sub; left
    |apply Hv|apply Hv].
  destruct (IH (sizeF (map sub rest)) ltac:(lia) i rest _ fuel ltac:(lia) Hu3) as (w4 & -> & Hv4).
  exists w4. split; [done|]. pose proof (unv_nodup _ _ _ _ _ Hu) as Hn. simpl in Hn. rewrite nodesF_cons in Hn.
  apply NoDup_app in Hn as (_ & Hdis & _). destruct Hv4 as [Hc4 Hh4 Ho4 Ht4 Htou4 Hnum4]. rewrite Htick in *.
  split; simpl map; rewrite ?nodesF_cons, ?sizeF_cons; try done.
  - intros x Hx Hxi. apply not_elem_of_app in Hx as [Hx1 Hx2]. rewrite Ho4 by done. by apply Hkeep.
  - rewrite Ht4. lia.
  - eapply touches_trans; (eapply touches_weaken; [|eassumption]); intros x Hx; apply elem_of_app; [by left|by right].
  - apply numbered_app; [|exact Hnum4]. eapply numbered_touches; [exact Htou4| |exact Hnum].
    intros x Hx Hx'. by eapply Hdis.
Qed.
End Walk.

(** ** All roots *)

Section Roots.
Context (l : tv.links) (Hl : links_ok l).

Lemma size_sub_le k : k < n -> size (sub k) <= n - k.
Proof.
  intros Hk. unfold size. rewrite <- (length_seq (n - k) k). apply submseteq_length, NoDup_submseteq; [apply NoDup_sub|].
  intros x Hx. pose proof (sub_small k x Hk Hx). apply elem_of_sub, up_le in Hx. apply elem_of_seq. lia.
Qed.

Lemma descend_root k w :
  walk_ok w -> k < n -> par k = None -> (forall x, x ∈ nodes (sub k) -> tv.children w !! x = tv.firstChild l !! x) ->
  (0 <= tv.tick w)%Z -> (tv.tick w + Z.of_nat (size (sub k)) < 2 ^ 32)%Z ->
  exists w', tv.descendRoot l w (Z.of_nat k) = Some w' /\ touches (nodes (sub k)) w w' /\
    numbered (tv.tick w) (nodes (sub k)) w' /\
    (forall x, x ∉ nodes (sub k) -> tv.children w' !! x = tv.children w !! x) /\
    tv.tick w' = (tv.tick w + Z.of_nat (size (sub k)))%Z.
Proof.
  intros Hok Hk Hp Hcs Ht0 Ht. pose proof (size_sub_le k Hk) as Hsz. rewrite size_sub in Ht, Hsz |- *.
  set (w1 := tv.enterAt (Z.of_nat k) (tv.children w) w).
  assert (Ht1 : tv.tick w1 = (tv.tick w + 1)%Z) by (cbn; rewrite to_u32_small by lia; lia).
  assert (Hunder : forall x, x ∈ nodesF (map sub (childrenOf k)) -> k < x < n).
  { intros x. apply under_lt. intros c. by apply elem_of_childrenOf. }
  assert (Hu : unvisited l (Z.of_nat k) k (childrenOf k) w1).
  { split; try done.
    - destruct (links_children l Hl k Hk) as (h & Hh & Hch). exists h. split; [|done]. cbn.
      rewrite Hcs; [done|]. rewrite nodes_sub. left.
    - intros c. by apply elem_of_childrenOf.
    - pose proof (NoDup_sub k) as Hn. rewrite nodes_sub in Hn. by apply NoDup_cons in Hn as [_ ?].
    - intros x Hx. apply Hunder in Hx. lia.
    - intros x Hx. cbn. apply Hcs. rewrite nodes_sub. by right.
    - destruct Hok. split; cbn; rewrite ?length_insert; done.
    - rewrite Ht1. lia. }
  destruct (descend_forest l Hl (Z.of_nat k) _ k _ w1 (2 * (n - sizeF (map sub (childrenOf k))) + 1) ltac:(done) Hu)
    as (w2 & E2 & [Hcur Hhead Hoth Htick [He Hx Hle Hlx Hlc] Hnum]). rewrite Ht1 in *.
  unfold tv.descendRoot. rewrite Nat2Z.id, (links_parent l Hl k Hk), Hp, (links_len l Hl). cbn -[tv.descend Nat.mul].
  fold w1. replace (S (2 * n)) with (2 * sizeF (map sub (childrenOf k)) + (2 * (n - sizeF (map sub (childrenOf k))) + 1)) by lia.
  rewrite E2. replace (2 * _ + 1) with (S (2 * (n - sizeF (map sub (childrenOf k))))) by lia. cbn [tv.descend].
  rewrite Hcur, Nat2Z.id, Hhead. cbn -[Z.of_nat Nat.mul]. rewrite !Z.eqb_refl. cbn [negb].
  assert (Hlen : length (tv.enter w1) = n /\ length (tv.exit w1) = n) by (destruct Hok; cbn; by rewrite ?length_insert).
  eexists. split; [done|]. rewrite nodes_sub. split; [|split; [|split]]; cbn -[Z.of_nat].
  - split; cbn; rewrite ?length_insert, ?Hle, ?Hlx, ?Hlc; cbn; rewrite ?length_insert; try done;
      intros x Hxn; apply not_elem_of_cons in Hxn as [Hxk Hxn].
    + rewrite He by done. cbn. rewrite Nat2Z.id. by rewrite list_lookup_insert_ne by done.
    + rewrite list_lookup_insert_ne by done. by rewrite Hx.
  - assert (Hknot : k ∉ nodesF (map sub (childrenOf k))) by (intros H; apply Hunder in H; lia).
    intros [|j] x Hj; cbn -[Z.of_nat] in Hj |- *.
    + injection Hj as <-. rewrite He by done. cbn -[Z.of_nat]. rewrite Nat2Z.id.
      rewrite !list_lookup_insert_eq by (destruct Hok, Hlen; lia).
      split; f_equal; [rewrite to_u32_small by lia|rewrite Htick, size_sub]; lia.
    + destruct (Hnum _ _ Hj) as [-> E]. split; [f_equal; lia|].
      rewrite list_lookup_insert_ne; [rewrite E; f_equal; lia|]. intros ->. by eapply Hknot, list_elem_of_lookup_2.
  - intros x Hxn. apply not_elem_of_cons in Hxn as [Hxk Hxn]. by rewrite Hoth.
  - rewrite Htick. lia.
Qed.

Definition rootsUpTo (k : nat) : list nat := filter (fun i => par i = None) (seq 0 k).
Definition order (k : nat) : list nat := nodesF (map sub (rootsUpTo k)).

Lemma elem_of_roots k r : r ∈ rootsUpTo k <-> par r = None /\ r < k.
Proof. unfold rootsUpTo. rewrite list_elem_of_filter, elem_of_seq. split; intros [? ?]; (split; [done|lia]). Qed.

Lemma elem_of_order k x : x ∈ order k <-> exists r, par r = None /\ r < k /\ rtc up x r.
Proof.
  unfold order, nodesF. rewrite list_elem_of_In, in_concat. split.
  - intros (t & Ht & Hx). apply in_map_iff in Ht as (s & <- & Hs). apply in_map_iff in Hs as (r & <- & Hr).
    apply list_elem_of_In, elem_of_roots in Hr as [? ?]. exists r. split; [done|]. split; [done|].
    by apply elem_of_sub, list_elem_of_In.
  - intros (r & Hr & Hk & Hx). exists (nodes (sub r)). split; [|by apply list_elem_of_In, elem_of_sub].
    apply in_map, in_map. by apply list_elem_of_In, elem_of_roots.
Qed.

Lemma roots_disjoint r q x : par r = None -> par q = None -> rtc up x r -> rtc up x q -> r = q.
Proof.
  assert (H : forall r q, par r = None -> rtc up r q -> r = q).
  { intros a b Ha H. inversion H as [|? c ? Hc]; [done|]. unfold up in Hc. congruence. }
  intros Hr Hq H1 H2. destruct (up_linear _ _ _ H1 H2); [by apply H|symmetry; by apply H].
Qed.

Lemma NoDup_order k : NoDup (order k).
Proof.
  apply NoDup_nodesF; [apply NoDup_filter, NoDup_seq|intros; apply NoDup_sub|].
  intros c d x Hc Hd. apply elem_of_roots in Hc as [? _], Hd as [? _]. by apply roots_disjoint.
Qed.

Lemma order_length k : k <= n -> length (order k) <= n.
Proof.
  intros Hk. rewrite <- (length_seq n 0). apply submseteq_length, NoDup_submseteq; [apply NoDup_order|].
  intros x Hx. apply elem_of_order in Hx as (r & Hr & Hlt & Hx). apply elem_of_seq.
  apply elem_of_sub, sub_small in Hx; lia.
Qed.

Lemma order_S k : order (S k) = order k ++ (if decide (par k = None) then nodes (sub k) else []).
Proof.
  unfold order, rootsUpTo. rewrite seq_S, filter_app, map_app, nodesF_app. f_equal. rewrite filter_cons, filter_nil.
  destruct (decide _); [|done]. unfold nodesF. simpl. apply app_nil_r.
Qed.

Lemma foldOption_snoc {A B} (f : B -> A -> option B) k x b :
  tv.foldOption f (k ++ [x]) b = tv.foldOption f k b ≫= fun b' => f b' x.
Proof.
  revert b. induction k as [|y k IH]; intros b; simpl; [by destruct (f b x)|]. destruct (f b y); [|done]. apply IH.
Qed.

Lemma descend_roots k w :
  k <= n -> walk_ok w -> tv.children w = tv.firstChild l -> tv.tick w = 0%Z ->
  exists w', tv.foldOption (tv.descendRoot l) (map Z.of_nat (seq 0 k)) w = Some w' /\
    walk_ok w' /\ numbered 0 (order k) w' /\ tv.tick w' = Z.of_nat (length (order k)) /\
    (forall x, x ∉ order k -> tv.children w' !! x = tv.firstChild l !! x).
Proof.
  intros Hk Hok Hc Ht. induction k as [|k IH].
  { exists w. split; [done|]. split; [done|]. split; [by intros j x Hj|]. split; [done|]. intros x _. by rewrite Hc. }
  destruct IH as (w1 & E1 & Hok1 & Hnum & Htick & Hcs); [lia|]. rewrite seq_S, map_app. cbn [map]. rewrite foldOption_snoc, E1.
  cbn [mbind option_bind plus]. pose proof (order_length (S k) Hk) as Hlen. rewrite order_S in Hlen |- *.
  destruct (decide (par k = None)) as [Hp|Hp].
  - assert (Hdis : forall x, x ∈ nodes (sub k) -> x ∉ order k).
    { intros x Hx Ho. apply elem_of_order in Ho as (r & Hr & Hlt & Hxr). apply elem_of_sub in Hx.
      pose proof (roots_disjoint _ _ _ Hr Hp Hxr Hx). lia. }
    rewrite length_app in Hlen. fold (size (sub k)) in Hlen. assert (Hn : (2 ^ 32 - 1 >= Z.of_nat n)%Z) by (unfold tv.none in *; lia).
    destruct (descend_root k w1) as (w2 & -> & Htou & Hnum2 & Hcs2 & Htick2); try done; [|lia|lia|].
    { intros x Hx. by apply Hcs, Hdis. }
    exists w2. split; [done|]. split; [by eapply touches_ok|]. split.
    { apply numbered_app; [|by rewrite Htick in Hnum2]. eapply numbered_touches; [exact Htou| |exact Hnum].
      intros x Hx Hx'. by eapply Hdis. }
    split; [rewrite Htick2, length_app; unfold size; lia|]. intros x Hx. apply not_elem_of_app in Hx as [Hx1 Hx2].
    rewrite Hcs2 by done. by apply Hcs.
  - rewrite app_nil_r. unfold tv.descendRoot. rewrite Nat2Z.id, (links_parent l Hl k) by lia.
    destruct (par k) as [p|] eqn:Ep; [|done]. cbn. pose proof (par_lt _ _ Ep).
    rewrite (proj2 (Z.eqb_neq _ _) (node_small p ltac:(lia))). cbn. by exists w1.
Qed.

(** ** Containment of intervals *)

Lemma root_exists x : x < n -> exists r, par r = None /\ r < n /\ rtc up x r.
Proof.
  induction x as [x IH] using lt_wf_ind. intros Hx. destruct (par x) as [p|] eqn:Ep; [|by exists x].
  pose proof (par_lt _ _ Ep). destruct (IH p) as (r & Hr & Hrn & Hpr); [lia|lia|]. exists r.
  split; [done|]. split; [done|]. by eapply rtc_l.
Qed.

(** The subtree of a node is a segment of the preorder of the tree it is in. *)
Lemma sub_segment x z : x ∈ nodes (sub z) -> exists a b, nodes (sub z) = a ++ nodes (sub x) ++ b.
Proof.
  induction z as [z IH] using forest_ind. rewrite nodes_sub. intros Hx. apply elem_of_cons in Hx as [->|Hx].
  { exists [], []. by rewrite nodes_sub, app_nil_r. }
  apply list_elem_of_In, in_concat in Hx as (k & Hk & Hx). apply in_map_iff in Hk as (t & <- & Ht).
  apply in_map_iff in Ht as (c & <- & Hc). apply list_elem_of_In in Hc, Hx.
  destruct (IH c ltac:(by apply elem_of_childrenOf) Hx) as (a & b & E).
  apply list_elem_of_split in Hc as (c1 & c2 & ->). exists (z :: nodesF (map sub c1) ++ a), (b ++ nodesF (map sub c2)).
  rewrite map_app, nodesF_app. simpl. rewrite nodesF_cons, E. simpl. f_equal. by rewrite <- !app_assoc.
Qed.

Lemma order_segment y : y < n -> exists a b, order n = a ++ nodes (sub y) ++ b.
Proof.
  intros Hy. destruct (root_exists y Hy) as (r & Hr & Hrn & Hyr). apply elem_of_sub, sub_segment in Hyr as (a & b & E).
  assert (Hin : r ∈ rootsUpTo n) by by apply elem_of_roots. apply list_elem_of_split in Hin as (l1 & l2 & El).
  exists (nodesF (map sub l1) ++ a), (b ++ nodesF (map sub l2)). unfold order. rewrite El, map_app, nodesF_app.
  simpl. rewrite nodesF_cons, E. by rewrite <- !app_assoc.
Qed.

Lemma numbered_at w y a b :
  numbered 0 (order n) w -> order n = a ++ nodes (sub y) ++ b ->
  tv.enter w !! y = Some (1 + Z.of_nat (length a))%Z /\
  tv.exit w !! y = Some (Z.of_nat (length a) + Z.of_nat (size (sub y)))%Z.
Proof.
  intros Hn E. specialize (Hn (length a) y). destruct Hn as [-> ->]; [|by split; f_equal; lia].
  rewrite E, lookup_app_r, Nat.sub_diag by lia. by rewrite nodes_sub.
Qed.

(** One interval contains another exactly for an ancestor. *)
Lemma contains_iff w x y :
  numbered 0 (order n) w -> x < n -> y < n ->
  (exists ex ey xx xy, tv.enter w !! x = Some ex /\ tv.enter w !! y = Some ey /\
     tv.exit w !! x = Some xx /\ tv.exit w !! y = Some xy /\ (ey <= ex)%Z /\ (xx <= xy)%Z) <->
  rtc up x y.
Proof.
  intros Hn Hx Hy. destruct (order_segment x Hx) as (a & b & Ex). destruct (order_segment y Hy) as (a' & b' & Ey).
  destruct (numbered_at w x a b Hn Ex) as [Hex Hxx]. destruct (numbered_at w y a' b' Hn Ey) as [Hey Hxy].
  pose proof (NoDup_order n) as Hnd. rewrite <- elem_of_sub. split.
  - intros (ex & ey & xx & xy & E1 & E2 & E3 & E4 & H1 & H2). simplify_eq.
    assert (Hs : size (sub x) > 0) by (rewrite size_sub; lia).
    assert (Hpos : order n !! length a = Some x).
    { rewrite Ex, lookup_app_r, Nat.sub_diag by lia. by rewrite nodes_sub. }
    rewrite Ey, lookup_app_r, lookup_app_l in Hpos by (fold (size (sub y)); lia).
    by eapply list_elem_of_lookup_2.
  - intros Hin. destruct (sub_segment x y Hin) as (c & d & Ec).
    assert (Hpos : order n !! length a = Some x).
    { rewrite Ex, lookup_app_r, Nat.sub_diag by lia. by rewrite nodes_sub. }
    assert (Hpos' : order n !! (length a' + length c) = Some x).
    { rewrite Ey, Ec, lookup_app_r by lia. replace (length a' + length c - length a') with (length c) by lia.
      rewrite <- app_assoc, lookup_app_r, Nat.sub_diag by lia. by rewrite nodes_sub. }
    pose proof (NoDup_lookup _ _ _ _ Hnd Hpos Hpos') as El.
    assert (Hsz : size (sub y) = length c + size (sub x) + length d).
    { unfold size. rewrite Ec, !length_app. lia. }
    eexists _, _, _, _. split; [exact Hex|]. split; [exact Hey|]. split; [exact Hxx|]. split; [exact Hxy|]. lia.
Qed.
End Roots.
End Forest.

(** ** The links of a module *)

Section Links.
Context (v : moduleValidator).
Local Abbreviation flat := (mv.flatSubTypes (vm v)).
Local Abbreviation n := (length flat).

(** The declared supertype of a flattened type. *)
Definition parentOf (i : nat) : option nat :=
  match flat !! i with
  | Some (st, g) => match Supers st with sup :: _ => Some (Z.to_nat (tv.superOf v sup g)) | [] => None end
  | None => None
  end.

(** Supertypes come before their subtypes, as [validateModule] checks. *)
Definition supers_below : Prop :=
  forall i st g sup, flat !! i = Some (st, g) -> head (Supers st) = Some sup ->
  exists p, mv.flatTypeIdxInRecGroup (vm v) sup (Z.of_nat g) = Some (Z.of_nat p) /\ p < i.

Hypothesis Hbelow : supers_below.
Hypothesis Hsmall : (Z.of_nat n <= tv.none)%Z.

Lemma parentOf_some i p :
  parentOf i = Some p -> exists st g sup rest, flat !! i = Some (st, g) /\ Supers st = sup :: rest /\
    mv.flatTypeIdxInRecGroup (vm v) sup (Z.of_nat g) = Some (Z.of_nat p) /\ tv.superOf v sup g = Z.of_nat p /\ p < i.
Proof.
  unfold parentOf. intros H. destruct (flat !! i) as [[st g]|] eqn:E; [|done].
  destruct (Supers st) as [|sup rest] eqn:Es; [done|]. injection H as <-.
  destruct (Hbelow i st g sup E ltac:(by rewrite Es)) as (p & Hp & Hlt).
  assert (Hs : tv.superOf v sup g = Z.of_nat p) by (unfold tv.superOf; by rewrite Hp). rewrite Hs, Nat2Z.id.
  by exists st, g, sup, rest.
Qed.

Lemma parentOf_lt i p : parentOf i = Some p -> p < i.
Proof. intros H. by apply parentOf_some in H as (? & ? & ? & ? & _ & _ & _ & _ & ?). Qed.

Lemma parentOf_dom i p : parentOf i = Some p -> i < n.
Proof. intros H. apply parentOf_some in H as (? & ? & ? & ? & H & _). by eapply lookup_lt_Some. Qed.

Lemma chain_insert next h cs k x : k ∉ cs -> chain next h cs -> chain (<[k := x]> next) h cs.
Proof.
  intros Hk. induction 1 as [|c h cs Hc _ IH]; [constructor|]. apply not_elem_of_cons in Hk as [Hk1 Hk2].
  econstructor; [by rewrite list_lookup_insert_ne by done|by apply IH].
Qed.

(** The links after the first [k] types. *)
Record linked (k : nat) (l : tv.links) : Prop := {
  linked_parent x : x < n -> tv.parent l !! x =
    Some (if decide (x < k) then match parentOf x with Some p => Z.of_nat p | None => tv.none end else tv.none);
  linked_children x : x < n ->
    exists h, tv.firstChild l !! x = Some h /\ chain (tv.nextSibling l) h (childrenUpTo parentOf k x);
  linked_len : length (tv.parent l) = n /\ length (tv.firstChild l) = n /\ length (tv.nextSibling l) = n
}.

Lemma linked_none : linked 0 (tv.noLinks n).
Proof.
  split.
  - intros x Hx. simpl. by rewrite lookup_replicate_2.
  - intros x Hx. exists tv.none. split; [by apply lookup_replicate_2|constructor].
  - simpl. by rewrite !length_replicate.
Qed.

Lemma addLink_linked k l st g :
  linked k l -> flat !! k = Some (st, g) ->
  exists l', tv.addLink v l (Z.of_nat k, (st, g)) = Some l' /\ linked (S k) l'.
Proof.
  intros [Hp Hc (L1 & L2 & L3)] Hk. pose proof (lookup_lt_Some _ _ _ Hk) as Hkn. unfold tv.addLink.
  assert (Hkp : parentOf k = match Supers st with sup :: _ => Some (Z.to_nat (tv.superOf v sup g)) | [] => None end).
  { unfold parentOf. by rewrite Hk. }
  destruct (Supers st) as [|sup rest] eqn:Es.
  - exists l. split; [done|]. split; [| |done].
    + intros x Hx. rewrite Hp by done. destruct (decide (x < k)), (decide (x < S k)); try done; [lia|].
      replace x with k by lia. by rewrite Hkp.
    + intros x Hx. rewrite childrenUpTo_S, Hkp. by apply Hc.
  - destruct (parentOf_some k _ Hkp) as (st' & g' & sup' & rest' & E & Es' & _ & Hs & Hlt).
    rewrite Hk in E. injection E as <- <-. rewrite Es in Es'. injection Es' as <- <-.
    set (p := Z.to_nat (tv.superOf v sup g)) in *. rewrite Hs, !Nat2Z.id.
    destruct (Hc p ltac:(lia)) as (h & Hh & Hch). rewrite Hh. cbn. eexists. split; [done|].
    unfold tv.none in Hsmall. rewrite !to_u32_small by lia.
    split; cbn [tv.parent tv.firstChild tv.nextSibling].
    + intros x Hx. destruct (decide (x = k)) as [->|Hxk].
      * rewrite list_lookup_insert_eq, decide_True by lia. by rewrite Hkp.
      * rewrite list_lookup_insert_ne, Hp by done. destruct (decide (x < k)), (decide (x < S k)); try done; lia.
    + intros x Hx. rewrite childrenUpTo_S, Hkp.
      assert (Hnot : forall y, k ∉ childrenUpTo parentOf k y) by (intros y [_ ?]%elem_of_childrenUpTo; lia).
      destruct (decide (x = p)) as [->|Hxp].
      * rewrite decide_True by done. exists (Z.of_nat k). split; [by apply list_lookup_insert_eq; lia|].
        econstructor; [by apply list_lookup_insert_eq; lia|by apply chain_insert].
      * rewrite decide_False by congruence. destruct (Hc x Hx) as (h' & Hh' & Hch'). exists h'.
        split; [by rewrite list_lookup_insert_ne by done|]. cbn [app]. by apply chain_insert.
    + by rewrite !length_insert.
Qed.

Lemma build_links : exists l, tv.foldOption (tv.addLink v) (indexed flat) (tv.noLinks n) = Some l /\ linked n l.
Proof.
  assert (H : forall k, k <= n -> exists l,
    tv.foldOption (tv.addLink v) (indexed (take k flat)) (tv.noLinks n) = Some l /\ linked k l).
  { induction k as [|k IH]; intros Hk; [exists (tv.noLinks n); split; [done|apply linked_none]|].
    destruct IH as (l & E & Hl); [lia|]. destruct (lookup_lt_is_Some_2 flat k ltac:(lia)) as [[st g] Hkg].
    rewrite (take_S_r _ _ _ Hkg). unfold indexed in *. rewrite imap_app. cbn [imap].
    rewrite foldOption_snoc, E. cbn [mbind option_bind]. rewrite Nat.add_0_r, length_take_le by lia. by apply addLink_linked. }
  destruct (H n ltac:(lia)) as (l & E & Hl). exists l. by rewrite take_ge in E by lia.
Qed.

Lemma linked_ok l : linked n l -> links_ok n parentOf l.
Proof.
  intros [Hp Hc (L1 & _)]. split; [done| |done]. intros x Hx. rewrite Hp by done. by rewrite decide_True by done.
Qed.

(** The numbering always succeeds, and its intervals decide the ancestors. *)
Lemma ancestry_built :
  exists en ex, tv.buildSupertypeAncestry v = Some (en, ex) /\ length en = n /\
    forall x y, x < n -> y < n ->
    ((exists a b c d, en !! x = Some a /\ en !! y = Some b /\ ex !! x = Some c /\ ex !! y = Some d /\
       (b <= a)%Z /\ (c <= d)%Z) <-> rtc (up parentOf) x y).
Proof.
  destruct build_links as (l & El & Hl). pose proof (linked_len _ _ Hl) as (_ & L2 & _). apply linked_ok in Hl.
  unfold tv.buildSupertypeAncestry. rewrite El. cbn [mbind option_bind].
  replace (seqZ 0 (Z.of_nat n)) with (map Z.of_nat (seq 0 n)).
  2: { unfold seqZ. rewrite Nat2Z.id. apply map_ext. intros i. lia. }
  set (w0 := tv.Build_walk _ _ _ _ _).
  destruct (descend_roots n parentOf parentOf_lt parentOf_dom Hsmall l Hl n w0) as (w & Ew & Hok & Hnum & _ & _); try done.
  { split; cbn; by rewrite ?length_replicate. }
  rewrite Ew. cbn [mbind option_bind]. eexists _, _. split; [done|]. split; [apply Hok|]. intros x y Hx Hy.
  by apply (contains_iff n parentOf parentOf_lt parentOf_dom w x y).
Qed.
End Links.
