(* ===== verification/SuperLaws.v ===== *)
(** * Declared supertypes

    The search of [typeIdxSuperSubtype] returns for every module, since each nested
    call marks a type it had not seen, and the lookups of the interval index are in
    range for every validator the module validation makes.  Once the types of a
    module are accepted, every supertype comes before its subtypes: the test then
    decides whether a declared ancestor is equivalent to the other type, and the
    interval index gives the same answers. *)

From stdpp Require Import base tactics numbers list gmap relations.
From Stdlib Require Import ZArith Lia.
From S2P Require Import Prelude Reader Types Module ModuleDecode TypeEquiv TypeEquivLaws TypeEquivSpec Subtyping.
From S2P Require Import Decode Kinds Instr Effects Validator Step Streaming TypeValid ModuleValid Ancestry.
Local Open Scope Z_scope.

(** Supertype indices are unsigned. *)
Definition supers_typed (m : Module_) : Prop :=
  Forall (fun rt => Forall (fun st => Forall (fun sup => 0 <= Index sup) (Supers st)) (SubTypes rt)) (Types_ m).

(** ** Accepted declarations *)

Lemma forM_each {S E A} (f : A -> M S E unit) l s s' x :
  forM l f s = (Ok tt, s') -> x ∈ l -> exists s1 s2, f x s1 = (Ok tt, s2).
Proof.
  revert s. induction l as [|y l IH]; intros s H Hx; [by apply elem_of_nil in Hx|].
  apply bind_ok in H as ([] & s1 & H1 & H2). apply elem_of_cons in Hx as [->|Hx]; [by exists s, s1|by eapply IH].
Qed.

Lemma mrequire_ok b c s s' : mrequire b c s = (Ok tt, s') -> b = true.
Proof. by destruct b. Qed.

Lemma elem_of_indexed {A} (l : list A) i x : l !! i = Some x -> (Z.of_nat i, x) ∈ indexed l.
Proof. intros H. apply list_elem_of_lookup. exists i. unfold indexed. by rewrite list_lookup_imap, H. Qed.

(** A flattened type at its place in its group. *)
Lemma flat_member types base g0 i st g :
  type_flat g0 types !! i = Some (st, g) ->
  (g0 <= g)%nat /\ exists gr b j, types !! (g - g0)%nat = Some gr /\
    type_bases base types !! (g - g0)%nat = Some b /\ SubTypes gr !! j = Some st /\
    base + Z.of_nat i = b + Z.of_nat j.
Proof.
  revert base g0 i. induction types as [|gr rest IH]; intros base g0 i H; [done|]. simpl in H.
  apply lookup_app_Some in H as [H|[Hle H]].
  - rewrite list_lookup_fmap in H. destruct (SubTypes gr !! i) as [s|] eqn:Es; [|done].
    injection H as -> ->. rewrite Nat.sub_diag. split; [done|]. by exists gr, base, i.
  - rewrite length_map in H, Hle.
    destruct (IH (base + Z.of_nat (length (SubTypes gr))) _ _ H) as (Hg & gr' & b & j & H1 & H2 & H3 & H4).
    split; [lia|]. exists gr', b, j. replace (g - g0)%nat with (S (g - S g0)) by lia. simpl.
    split; [done|]. split; [done|]. split; [done|lia].
Qed.

Section Accepted.
Context (v : moduleValidator).
Local Abbreviation m := (vm v).
Local Abbreviation flat := (mv.flatSubTypes m).

(** A type with its group, its place in the group and the base of the group. *)
Lemma flat_located i st g :
  flat !! i = Some (st, g) -> exists gr b j, Types_ m !! g = Some gr /\ mv.typeGroupBases m !! g = Some b /\
    SubTypes gr !! j = Some st /\ Z.of_nat i = b + Z.of_nat j.
Proof.
  intros H. apply (flat_member _ 0) in H as (_ & gr & b & j & H1 & H2 & H3 & H4).
  rewrite Nat.sub_0_r in H1, H2. exists gr, b, j. split; [done|]. split; [done|]. split; [done|lia].
Qed.

Lemma validateTypes_super s s' i st g :
  tv.validateTypes v s = (Ok tt, s') -> flat !! i = Some (st, g) ->
  exists j, (length (Supers st) <= 1)%nat /\
    (exists b, mv.typeGroupBases m !! g = Some b /\ Z.of_nat i = b + Z.of_nat j) /\
    Forall (fun sup => mt.validTypeIdxInRecGroup v sup (Z.of_nat g) = true /\
      (Rec sup = true -> Index sup < to_u32 (Z.of_nat j))) (Supers st).
Proof.
  intros H Hi. destruct (flat_located i st g Hi) as (gr & b & j & Hg & Hb & Hj & E). exists j.
  destruct (forM_each _ _ _ _ _ H (elem_of_indexed _ _ _ Hg)) as (s1 & s2 & H1).
  destruct (forM_each _ _ _ _ _ H1 (elem_of_indexed _ _ _ Hj)) as (s3 & s4 & H2). clear H H1.
  apply bind_ok in H2 as ([] & s5 & Hlen & H2). apply mrequire_ok, Nat.leb_le in Hlen.
  apply bind_ok in H2 as ([] & s6 & Hsup & _). split; [done|]. split; [by exists b|].
  apply Forall_forall. intros sup Hin. destruct (forM_each _ _ _ _ _ Hsup Hin) as (s7 & s8 & H3).
  apply bind_ok in H3 as ([] & s9 & H3 & H4). apply mrequire_ok in H3, H4. split; [done|]. intros Hr.
  rewrite Hr in H4. cbn [andb] in H4. apply negb_true_iff, Z.leb_gt in H4. done.
Qed.

Lemma to_u32_le x : 0 <= x -> to_u32 x <= x.
Proof. intros H. unfold to_u32. by apply Z.mod_le. Qed.

Lemma type_bases_nonneg base types g b :
  0 <= base -> type_bases base types !! g = Some b -> 0 <= b.
Proof.
  revert base g. induction types as [|gr rest IH]; intros base [|g] H Hb; simpl in Hb; try by simplify_eq.
  eapply (IH _ _ _ Hb). Unshelve. lia.
Qed.

(** Accepted supertypes come before their subtypes. *)
Lemma validateTypes_below s s' :
  supers_typed m -> tv.validateTypes v s = (Ok tt, s') -> supers_below v.
Proof.
  intros Ht H i st g sup Hi Hs. destruct (flat_located i st g Hi) as (gr & b0 & j0 & Hgr & Hb0 & Hj0 & _).
  destruct (validateTypes_super s s' i st g H Hi) as (j & _ & (b & Hb & Ei) & Hf).
  assert (Hin : sup ∈ Supers st) by (destruct (Supers st); [done|injection Hs as ->; left]).
  destruct (proj1 (Forall_forall _ _) Hf sup Hin) as [Hv Hr].
  assert (Hnn : 0 <= Index sup).
  { pose proof (Forall_lookup_1 _ _ _ _ Ht Hgr) as H1. pose proof (Forall_lookup_1 _ _ _ _ H1 Hj0) as H2.
    exact (proj1 (Forall_forall _ _) H2 sup Hin). }
  pose proof (type_bases_nonneg 0 (Types_ m) g b ltac:(done) Hb) as Hbn.
  unfold mt.validTypeIdxInRecGroup, mt.subtypeByTypeIdxInRecGroup in Hv. unfold mv.flatTypeIdxInRecGroup.
  destruct (Rec sup) eqn:Er; cbn [negb] in Hv |- *.
  - specialize (Hr eq_refl). pose proof (to_u32_le (Z.of_nat j) ltac:(lia)).
    destruct (_ || _); [done|]. unfold mv.groupSize. rewrite Nat2Z.id in Hv |- *. rewrite Hgr in Hv |- *.
    cbn [fmap option_fmap option_map]. rewrite Hb. destruct (_ <=? _); [done|]. exists (Z.to_nat (b + Index sup)). split; [f_equal; lia|lia].
  - rewrite (proj2 (Z.leb_le 0 (Z.of_nat g))), Nat2Z.id, Hb in Hv by lia.
    destruct (_ <=? _); [done|]. destruct (Z.leb_spec b (Index sup)) as [|Hlt]; [done|].
    unfold mt.subtypeByTypeIdx in Hv. unfold mv.validTypeIdx.
    destruct (mv.subtypeByTypeIdxWithRecGroup m sup); [|done]. cbn [negb].
    exists (Z.to_nat (Index sup)). split; [f_equal; lia|lia].
Qed.
End Accepted.

(** ** The test returns *)

Section Returns.
Context (v : moduleValidator).
Local Abbreviation m := (vm v).
Local Abbreviation flat := (mv.flatSubTypes m).

Lemma flatTypeIdx_range a x : mv.flatTypeIdxInRecGroup m a (-1) = Some x ->
  0 <= x < Z.of_nat (length flat) /\ a = {| Index := x; Rec := false |}.
Proof.
  unfold mv.flatTypeIdxInRecGroup. destruct (Rec a) eqn:Er; cbn [negb]; [done|].
  unfold mv.validTypeIdx, mv.subtypeByTypeIdxWithRecGroup, mv.subtypeByFlatTypeIdx. rewrite Er.
  destruct (_ || _) eqn:E; [done|]. apply orb_false_iff in E as [E1 E2].
  apply Z.ltb_ge in E1. apply Z.leb_gt in E2. destruct (_ <$> _); [|done]. intros [= <-]. split; [lia|].
  destruct a. simpl in *. by subst.
Qed.

Lemma reached_returns b c : exists r, mt.reached v b c = Ok r.
Proof.
  unfold mt.reached. destruct (_ =? _); [by exists true|].
  destruct (typeIdxEquivalent_correct m {| Index := to_u32 c; Rec := false |} {| Index := to_u32 b; Rec := false |})
    as (r & -> & _). by exists r.
Qed.

(** The flat indices of the module that a search has not marked. *)
Definition unseen (seen : gset Z) : gset Z := list_to_set (seqZ 0 (Z.of_nat (length flat))) ∖ seen.

Lemma unseen_mono seen seen' : seen ⊆ seen' -> (base.size (unseen seen') <= base.size (unseen seen))%nat.
Proof. intros H. apply subseteq_size. unfold unseen. set_solver. Qed.

Lemma unseen_mark cur seen :
  cur ∉ seen -> 0 <= cur < Z.of_nat (length flat) -> (base.size (unseen ({[cur]} ∪ seen)) < base.size (unseen seen))%nat.
Proof.
  intros Hn Hc. apply subset_size. assert (Hin : cur ∈ unseen seen).
  { apply elem_of_difference. split; [|done]. apply elem_of_list_to_set, elem_of_seqZ. lia. }
  unfold unseen in *. split; [set_solver|]. intros Hs. apply Hs in Hin. set_solver.
Qed.

Lemma visit_supers_returns f g supers seen (P : gset Z -> Prop) :
  (forall x seen1, P seen1 -> exists r seen2, f x seen1 = (Ok r, seen2) /\ P seen2) -> P seen ->
  exists r seen', mt.visit_supers v f g supers seen = (Ok r, seen') /\ P seen'.
Proof.
  intros Hf. revert seen. induction supers as [|sup rest IH]; intros seen Hp; simpl; [by exists false, seen|].
  destruct (mv.flatTypeIdxInRecGroup m sup g) as [x|]; [|by apply IH].
  destruct (Hf x seen Hp) as (r & seen2 & -> & Hp2). destruct r; [by exists true, seen2|by apply IH].
Qed.

Lemma visit_returns b fuel cur seen :
  (base.size (unseen seen) < fuel)%nat ->
  exists r seen', mt.visit v fuel b cur seen = (Ok r, seen') /\ seen ⊆ seen'.
Proof.
  revert cur seen. induction fuel as [|fuel IH]; intros cur seen Hf; [lia|]. cbn [mt.visit].
  destruct (reached_returns b cur) as (r & ->). destruct r; [by exists true, seen|].
  destruct (decide (cur ∈ seen)) as [|Hn]; [by exists false, seen|]. cbv zeta.
  destruct (mv.subtypeByFlatTypeIdx m cur) as [[st g]|] eqn:E; [|eexists false, _; split; [done|set_solver]].
  assert (Hc : 0 <= cur < Z.of_nat (length flat)).
  { unfold mv.subtypeByFlatTypeIdx in E. destruct (_ || _) eqn:Eo; [done|]. lia. }
  pose proof (unseen_mark cur seen Hn Hc) as Hlt.
  destruct (visit_supers_returns (mt.visit v fuel b) g (Supers st) ({[cur]} ∪ seen)
    (fun seen1 => {[cur]} ∪ seen ⊆ seen1)) as (r & seen' & H1 & H2); [|done|exists r, seen'; split; [done|set_solver]].
  intros x seen1 Hs. pose proof (unseen_mono _ _ Hs). destruct (IH x seen1) as (r & seen2 & E1 & E2); [lia|].
  exists r, seen2. split; [done|]. by transitivity seen1.
Qed.

Lemma search_returns b a : exists r, fst (mt.visit v (mt.visitFuel v) b a ∅) = Ok r.
Proof.
  destruct (visit_returns b (mt.visitFuel v) a ∅) as (r & seen' & -> & _); [|by exists r].
  unfold mt.visitFuel, unseen. rewrite difference_empty_L, size_list_to_set by apply NoDup_seqZ.
  rewrite length_seqZ. lia.
Qed.

(** Intervals are absent or there is one for every type. *)
Definition intervals_sized : Prop :=
  superEnter v = [] \/ (length (superEnter v) = length flat /\ length (superExit v) = length flat).

Lemma interval_contains_returns b a :
  length (superEnter v) = length flat -> length (superExit v) = length flat ->
  0 <= a < Z.of_nat (length flat) -> 0 <= b < Z.of_nat (length flat) ->
  exists r, mt.interval_contains v b a = Some r.
Proof.
  intros H1 H2 Ha Hb. unfold mt.interval_contains.
  destruct (lookup_lt_is_Some_2 (superEnter v) (Z.to_nat b)) as [eb ->]; [lia|].
  destruct (lookup_lt_is_Some_2 (superEnter v) (Z.to_nat a)) as [ea ->]; [lia|].
  destruct (lookup_lt_is_Some_2 (superExit v) (Z.to_nat a)) as [xa ->]; [lia|].
  destruct (lookup_lt_is_Some_2 (superExit v) (Z.to_nat b)) as [xb ->]; [lia|].
  simpl. destruct (negb _); eauto.
Qed.

Lemma superSubtype_returns a b : intervals_sized -> exists r, mt.typeIdxSuperSubtype v a b = Ok r.
Proof.
  intros Hi. unfold mt.typeIdxSuperSubtype.
  destruct (mv.flatTypeIdxInRecGroup m a (-1)) as [x|] eqn:Ea; [|by exists false].
  destruct (mv.flatTypeIdxInRecGroup m b (-1)) as [y|] eqn:Eb; [|by exists false].
  apply flatTypeIdx_range in Ea as [Hx _], Eb as [Hy _].
  destruct Hi as [->|[H1 H2]]; [apply search_returns|]. destruct (_ =? _)%nat; [apply search_returns|].
  destruct (interval_contains_returns y x) as [r ->]; try done. destruct r; [by exists true|apply search_returns].
Qed.
End Returns.

(** ** The size of the index *)

Lemma foldOption_keeps {A B} (f : B -> A -> option B) (P : B -> Prop) l b b' :
  (forall b x b', f b x = Some b' -> P b -> P b') -> tv.foldOption f l b = Some b' -> P b -> P b'.
Proof.
  intros Hf. revert b. induction l as [|x l IH]; intros b H Hp; simpl in H; [by simplify_eq|].
  destruct (f b x) as [b1|] eqn:E; [|done]. by eapply IH, Hf.
Qed.

Definition walk_sized (n : nat) (w : tv.walk) : Prop := length (tv.enter w) = n /\ length (tv.exit w) = n.

Lemma descend_sized n fuel l root w w' :
  tv.descend fuel l root w = Some w' -> walk_sized n w -> walk_sized n w'.
Proof.
  revert w. induction fuel as [|fuel IH]; intros w H [H1 H2]; simpl in H; [done|].
  destruct (tv.children w !! _) as [child|]; [|done]. simpl in H. destruct (negb _).
  - destruct (tv.nextSibling l !! _); [|done]. apply IH in H; [done|]. split; simpl; by rewrite ?length_insert.
  - destruct (_ =? _); [injection H as <-; split; simpl; by rewrite ?length_insert|].
    destruct (tv.parent l !! _); [|done]. apply IH in H; [done|]. split; simpl; by rewrite ?length_insert.
Qed.

Lemma buildSupertypeAncestry_sized v en ex :
  tv.buildSupertypeAncestry v = Some (en, ex) ->
  length en = length (mv.flatSubTypes (vm v)) /\ length ex = length (mv.flatSubTypes (vm v)).
Proof.
  unfold tv.buildSupertypeAncestry. intros H. destruct (tv.foldOption _ _ _) as [l|]; [|done]. simpl in H.
  destruct (tv.foldOption _ _ _) as [w|] eqn:E; [|done]. injection H as <- <-.
  apply (foldOption_keeps _ (walk_sized (length (mv.flatSubTypes (vm v))))) in E; [done| |].
  - intros w1 root w2 H. unfold tv.descendRoot in H. destruct (tv.parent l !! _); [|done]. cbn [mbind option_bind] in H.
    destruct (negb _); [by simplify_eq|]. intros [H1 H2]. eapply descend_sized; [exact H|].
    split; simpl; by rewrite ?length_insert.
  - split; simpl; by rewrite length_replicate.
Qed.

(** What [validateSubtypeMetadata] returns: the validator itself, or the validator
    with the intervals of the forest. *)
Lemma validateSubtypeMetadata_intervals v s v' s' :
  tv.validateSubtypeMetadata v s = (Ok v', s') ->
  v' = v \/ exists en ex, Z.of_nat (length (mv.flatSubTypes (vm v))) <= tv.none /\
    tv.buildSupertypeAncestry v = Some (en, ex) /\ v' = tv.with_intervals v (en, ex).
Proof.
  unfold tv.validateSubtypeMetadata. intros H. apply bind_ok in H as ([] & s6 & _ & H).
  destruct (negb _); [injection H as <- _; by left|].
  destruct (tv.visitAll _ _) as [[?|?|] [? deep]]; try done.
  destruct (tv.wantsAncestry v deep) eqn:Ew; [|injection H as <- _; by left].
  destruct (tv.buildSupertypeAncestry v) as [[en ex]|] eqn:Eb; [|done]. injection H as <- _.
  right. exists en, ex. split; [|done]. unfold tv.wantsAncestry in Ew. lia.
Qed.

Lemma validateSubtypeMetadata_sized v s v' s' :
  superEnter v = [] -> tv.validateSubtypeMetadata v s = (Ok v', s') -> intervals_sized v'.
Proof.
  intros He H. apply validateSubtypeMetadata_intervals in H as [->|(en & ex & _ & Hb & ->)]; [by left|right].
  exact (buildSupertypeAncestry_sized v en ex Hb).
Qed.

(** ** The search through the supertypes *)

Section Search.
Context (v : moduleValidator).
Local Abbreviation m := (vm v).
Local Abbreviation flat := (mv.flatSubTypes m).
Hypothesis Hbelow : supers_below v.
Hypothesis Hsingle : forall i st g, flat !! i = Some (st, g) -> (length (Supers st) <= 1)%nat.

(** The test of [visit] on a type it reaches. *)
Definition hit (b : Z) (c : nat) : bool := mt.returned (mt.reached v b (Z.of_nat c)).

Lemma visit_spec b fuel cur seen :
  (cur < fuel)%nat -> (cur < length flat)%nat -> (forall x, x ∈ seen -> Z.of_nat cur < x) ->
  exists r seen', mt.visit v fuel b (Z.of_nat cur) seen = (Ok r, seen') /\
    (r = true <-> exists c, rtc (up (parentOf v)) cur c /\ hit b c = true).
Proof.
  revert cur seen. induction fuel as [|fuel IH]; intros cur seen Hf Hn Hseen; [lia|]. cbn [mt.visit].
  destruct (reached_returns v b (Z.of_nat cur)) as (h & Eh).
  assert (Ehit : hit b cur = h) by (unfold hit; by rewrite Eh). rewrite Eh. destruct h.
  { exists true, seen. split; [done|]. split; [|done]. intros _. by exists cur. }
  destruct (decide (Z.of_nat cur ∈ seen)) as [Hin|_]; [apply Hseen in Hin; lia|].
  destruct (lookup_lt_is_Some_2 flat cur Hn) as [[st g] Hst].
  assert (Ef : mv.subtypeByFlatTypeIdx m (Z.of_nat cur) = Some (st, Z.of_nat g)).
  { unfold mv.subtypeByFlatTypeIdx. rewrite (proj2 (Z.ltb_ge _ _)) by lia. cbn [orb].
    rewrite (proj2 (Z.leb_gt _ _)) by lia. by rewrite Nat2Z.id, Hst. }
  rewrite Ef. pose proof (Hsingle cur st g Hst) as Hone.
  assert (Hup : forall c, rtc (up (parentOf v)) cur c -> c = cur \/
    exists p, parentOf v cur = Some p /\ rtc (up (parentOf v)) p c).
  { intros c Hc. inversion Hc as [|? p ? Hp Hpc]; [by left|right; by exists p]. }
  destruct (Supers st) as [|sup [|? ?]] eqn:Es; [| |simpl in Hone; lia].
  - eexists false, _. split; [done|]. split; [done|]. intros (c & Hc & Hhit).
    destruct (Hup c Hc) as [->|(p & Hp & _)]; [congruence|]. unfold parentOf in Hp. by rewrite Hst, Es in Hp.
  - destruct (Hbelow cur st g sup Hst ltac:(by rewrite Es)) as (p & Hp & Hlt).
    assert (Hpar : parentOf v cur = Some p).
    { unfold parentOf. rewrite Hst, Es. unfold tv.superOf. rewrite Hp. simpl. by rewrite Nat2Z.id. }
    cbn [mt.visit_supers]. rewrite Hp.
    destruct (IH p ({[Z.of_nat cur]} ∪ seen)) as (r & seen' & -> & Hr); [lia|lia|..].
    { intros x Hx. apply elem_of_union in Hx as [->%elem_of_singleton|Hx]; [lia|]. apply Hseen in Hx. lia. }
    exists r, seen'. split; [by destruct r|]. rewrite Hr. split; intros (c & Hc & Hhit).
    + exists c. split; [by eapply rtc_l|done].
    + destruct (Hup c Hc) as [->|(p' & Hp' & Hpc)]; [congruence|]. simplify_eq. by exists c.
Qed.

Hypothesis Hsmall : Z.of_nat (length flat) <= 2 ^ 32.

Lemma flat_valid x : 0 <= x < Z.of_nat (length flat) ->
  mv.flatTypeIdxInRecGroup m {| Index := x; Rec := false |} (-1) = Some x /\
  mv.validTypeIdx m {| Index := x; Rec := false |} = true.
Proof.
  intros Hx. unfold mv.flatTypeIdxInRecGroup, mv.validTypeIdx, mv.subtypeByTypeIdxWithRecGroup, mv.subtypeByFlatTypeIdx.
  simpl. rewrite (proj2 (Z.ltb_ge _ _)) by lia. cbn [orb]. rewrite (proj2 (Z.leb_gt _ _)) by lia.
  destruct (lookup_lt_is_Some_2 flat (Z.to_nat x)) as [r ->]; [lia|]. done.
Qed.

(** A declared ancestor of [a] is equivalent to [b]. *)
Definition declared_super (a b : nat) : Prop :=
  exists c, rtc (up (parentOf v)) a c /\
    mv.typeIdxEquivalent m {| Index := Z.of_nat c; Rec := false |} {| Index := Z.of_nat b; Rec := false |} = Ok true.

Lemma hit_equivalent b c :
  (b < length flat)%nat -> (c < length flat)%nat -> hit (Z.of_nat b) c = true <->
  mv.typeIdxEquivalent m {| Index := Z.of_nat c; Rec := false |} {| Index := Z.of_nat b; Rec := false |} = Ok true.
Proof.
  intros Hb Hc. unfold hit, mt.reached. rewrite !to_u32_small by lia.
  destruct (Z.eqb_spec (Z.of_nat c) (Z.of_nat b)) as [E|E]; cbn [mt.returned].
  - rewrite E. split; [|done]. intros _. apply typeIdxEquivalent_iff. exists (Z.of_nat b), (Z.of_nat b).
    destruct (flat_valid (Z.of_nat b) ltac:(lia)) as [-> _]. split; [done|]. split; [done|]. by apply reflexivity.
  - destruct (mv.typeIdxEquivalent m _ _) as [[]|?|]; simpl; split; congruence.
Qed.

Lemma search_decides a b :
  (a < length flat)%nat -> (b < length flat)%nat ->
  exists r, fst (mt.visit v (mt.visitFuel v) (Z.of_nat b) (Z.of_nat a) ∅) = Ok r /\
    (r = true <-> declared_super a b).
Proof.
  intros Ha Hb. destruct (visit_spec (Z.of_nat b) (mt.visitFuel v) a ∅) as (r & seen' & -> & Hr).
  { unfold mt.visitFuel. lia. }
  { done. }
  { intros x Hx. by apply elem_of_empty in Hx. }
  exists r. split; [done|]. rewrite Hr. unfold declared_super. apply exist_proper. intros c.
  split; intros [Hc H]; (split; [done|]); apply up_le in Hc; try (intros; by eapply parentOf_lt);
    apply hit_equivalent; try lia; done.
Qed.

(** The intervals are absent or those of the forest. *)
Definition intervals_ok : Prop :=
  superEnter v = [] \/
  (Z.of_nat (length flat) <= tv.none /\ tv.buildSupertypeAncestry v = Some (superEnter v, superExit v)).

Lemma interval_declared a b :
  intervals_ok -> (a < length flat)%nat -> (b < length flat)%nat -> (length (superEnter v) =? 0)%nat = false ->
  exists r, mt.interval_contains v (Z.of_nat b) (Z.of_nat a) = Some r /\ (r = true -> declared_super a b).
Proof.
  intros [Hi|[Hn Hi]] Ha Hb H; [by rewrite Hi in H|].
  destruct (buildSupertypeAncestry_sized v _ _ Hi) as [L1 L2].
  destruct (ancestry_built v Hbelow Hn) as (en & ex & E & _ & Hiff). rewrite Hi in E. injection E as <- <-.
  destruct (interval_contains_returns v (Z.of_nat b) (Z.of_nat a) L1 L2) as [r Er]; [lia|lia|].
  exists r. split; [done|]. intros ->. exists b. split.
  - apply Hiff; [done|done|]. unfold mt.interval_contains in Er. rewrite !Nat2Z.id in Er.
    destruct (superEnter v !! b) as [eb|] eqn:E1; [|done]. destruct (superEnter v !! a) as [ea|] eqn:E2; [|done].
    cbn in Er. destruct (Z.leb_spec eb ea) as [H1|]; [|done]. cbn in Er.
    destruct (superExit v !! a) as [xa|] eqn:E3; [|done]. destruct (superExit v !! b) as [xb|] eqn:E4; [|done].
    cbn in Er. injection Er as Er%Z.leb_le. exists ea, eb, xa, xb. by repeat split.
  - apply hit_equivalent; [done|done|]. unfold hit, mt.reached. by rewrite Z.eqb_refl.
Qed.

(** The search without the index. *)
Definition super_search (a b : TypeIdx) : outcome unit bool :=
  match mv.flatTypeIdxInRecGroup m a (-1), mv.flatTypeIdxInRecGroup m b (-1) with
  | Some aFlat, Some bFlat => fst (mt.visit v (mt.visitFuel v) bFlat aFlat ∅)
  | _, _ => Ok false
  end.

Lemma superSubtype_search a b : intervals_ok -> mt.typeIdxSuperSubtype v a b = super_search a b.
Proof.
  intros Hi. unfold mt.typeIdxSuperSubtype, super_search.
  destruct (mv.flatTypeIdxInRecGroup m a (-1)) as [x|] eqn:Ea; [|done].
  destruct (mv.flatTypeIdxInRecGroup m b (-1)) as [y|] eqn:Eb; [|done].
  apply flatTypeIdx_range in Ea as [Hx _], Eb as [Hy _]. rewrite <- (Z2Nat.id x), <- (Z2Nat.id y) by lia.
  destruct (_ =? _)%nat eqn:E; [done|].
  destruct (interval_declared (Z.to_nat x) (Z.to_nat y)) as (h & -> & Hh); [done|lia|lia|done|]. destruct h; [|done].
  destruct (search_decides (Z.to_nat x) (Z.to_nat y)) as (r & -> & Hr); [lia|lia|]. f_equal. symmetry. by apply Hr, Hh.
Qed.

Lemma super_search_decides a b :
  exists r, super_search a b = Ok r /\
    (r = true <-> exists x y, (x < length flat)%nat /\ (y < length flat)%nat /\
      a = {| Index := Z.of_nat x; Rec := false |} /\ b = {| Index := Z.of_nat y; Rec := false |} /\ declared_super x y).
Proof.
  unfold super_search.
  destruct (mv.flatTypeIdxInRecGroup m a (-1)) as [x|] eqn:Ea.
  2: { exists false. split; [done|]. split; [done|]. intros (x & y & Hx & _ & -> & _).
       by destruct (flat_valid (Z.of_nat x) ltac:(lia)) as [E _]; rewrite E in Ea. }
  destruct (mv.flatTypeIdxInRecGroup m b (-1)) as [y|] eqn:Eb.
  2: { exists false. split; [done|]. split; [done|]. intros (x' & y & _ & Hy & _ & -> & _).
       by destruct (flat_valid (Z.of_nat y) ltac:(lia)) as [E _]; rewrite E in Eb. }
  apply flatTypeIdx_range in Ea as [Hx ->], Eb as [Hy ->]. rewrite <- (Z2Nat.id x), <- (Z2Nat.id y) by lia.
  destruct (search_decides (Z.to_nat x) (Z.to_nat y)) as (r & -> & Hr); [lia|lia|]. exists r. split; [done|].
  rewrite Hr. split.
  - intros Hd. exists (Z.to_nat x), (Z.to_nat y). split; [lia|]. by split; [lia|].
  - intros (x' & y' & _ & _ & [= Ex] & [= Ey] & Hd). by replace x' with (Z.to_nat x) in Hd by lia; replace y' with (Z.to_nat y) in Hd by lia.
Qed.
End Search.

(** ** After the validation of a module *)

Lemma validateModule_supers v0 s v s' :
  superEnter v0 = [] -> supers_typed (vm v0) -> mm.validateModule v0 s = (Ok v, s') ->
  vm v = vm v0 /\ supers_below v /\
  (forall i st g, mv.flatSubTypes (vm v) !! i = Some (st, g) -> (length (Supers st) <= 1)%nat) /\ intervals_ok v /\
  forall a b, super_search v a b = super_search v0 a b.
Proof.
  intros He Ht H. unfold mm.validateModule in H. apply bind_ok in H as ([] & ? & _ & H).
  apply bind_ok in H as ([] & s2 & _ & H). destruct (mm.collectDeclaredFuncs v0) as [bits|]; [|done].
  set (v1 := mm.with_declared v0 bits) in *. apply bind_ok in H as ([] & s3 & Htypes & H).
  apply bind_ok in H as (v2 & s4 & Hmeta & H). apply bind_ok in H as ([] & s5 & _ & H). injection H as <- <-.
  assert (Hb : supers_below v1) by by eapply validateTypes_below.
  assert (H1 : forall i st g, mv.flatSubTypes (vm v1) !! i = Some (st, g) -> (length (Supers st) <= 1)%nat).
  { intros i st g Hi. by destruct (validateTypes_super v1 _ _ i st g Htypes Hi) as (? & ? & _). }
  apply validateSubtypeMetadata_intervals in Hmeta as [->|(en & ex & Hn & Eb & ->)];
    (split; [done|]); (split; [done|]); (split; [done|]); (split; [|done]); [by left|]. right. by split.
Qed.

(** C24: the supertype test returns, and in an accepted module it is right.  It
    returns an answer for every pair of indices on every validator without intervals,
    whatever the module declares (cycles of supertypes included), and on every
    validator [validateSubtypeMetadata] makes of one: no interval lookup is out of
    range, no comparison of types panics and the search ends.  In an accepted module
    the answer says whether some declared ancestor of the first type (the type itself
    included) is equivalent to the second, and the interval index that deep
    hierarchies get never changes it: the validator without intervals answers the
    same. *)
Theorem supertype_test_decides v0 :
  superEnter v0 = [] ->
  (forall a b, exists r, mt.typeIdxSuperSubtype v0 a b = Ok r) /\
  (forall s v s' a b, tv.validateSubtypeMetadata v0 s = (Ok v, s') -> exists r, mt.typeIdxSuperSubtype v a b = Ok r) /\
  (forall s v s' a b, supers_typed (vm v0) -> Z.of_nat (length (mv.flatSubTypes (vm v0))) <= 2 ^ 32 ->
   mm.validateModule v0 s = (Ok v, s') ->
   exists r, mt.typeIdxSuperSubtype v a b = Ok r /\ mt.typeIdxSuperSubtype v0 a b = Ok r /\
     (r = true <->
      exists x y, (x < length (mv.flatSubTypes (vm v)))%nat /\ (y < length (mv.flatSubTypes (vm v)))%nat /\
        a = {| Index := Z.of_nat x; Rec := false |} /\ b = {| Index := Z.of_nat y; Rec := false |} /\
        declared_super v x y)).
Proof.
  intros He. split; [intros a b; apply superSubtype_returns; by left|].
  split; [intros s v s' a b H; by eapply superSubtype_returns, validateSubtypeMetadata_sized|].
  intros s v s' a b Ht Hn H. destruct (validateModule_supers v0 s v s' He Ht H) as (Em & Hb & H1 & Hi & Hsearch).
  rewrite <- Em in Hn. destruct (super_search_decides v Hb H1 Hn a b) as (r & Er & Hr). exists r.
  split; [by rewrite (superSubtype_search v Hb H1 Hn a b Hi)|]. split; [|done].
  rewrite Hsearch in Er. unfold mt.typeIdxSuperSubtype, super_search in *. by rewrite He.
Qed.

(** A chain of 64 struct types, long enough to be numbered. *)
Definition chainType (i : nat) : RecType :=
  {| SubTypes := [{| Final := false;
       Supers := match i with O => [] | S j => [{| Index := Z.of_nat j; Rec := false |}] end;
       Metadata := {| Describes := 0; Descriptor := 0 |};
       Comp := {| CKind := CompStruct; Array := zeroWord; Fields := []; Params := []; Results := [] |};
       HasPrefix := true |}] |}.

Definition chainValidator : moduleValidator :=
  mm.newValidator
    {| Customs := []; NameSec_ := None; RawNameSecPayload := []; Types_ := map chainType (seq 0 64); Imports := [];
       FuncTypes := []; Tables := []; Memories := []; Tags := []; StringRefs := []; Globals := []; Exports := [];
       Start := None; Elements := []; DataCount := None; Code_ := []; Data_ := []; UsesCompactImports := false;
       BranchHints := [] |} None mm.noFeatures mm.defaultValidationLimits.

Example chain_numbered :
  match mm.validateModule chainValidator zeroState with
  | (Ok v, _) => superEnter v = map Z.of_nat (seq 1 64) /\ superExit v = replicate 64 64
  | _ => False
  end.
Proof. vm_compute. split; reflexivity. Qed.

Lemma supertype_test_decides_witness :
  exists v s', mm.validateModule chainValidator zeroState = (Ok v, s') /\ length (superEnter v) = 64%nat /\
    mt.typeIdxSuperSubtype v {| Index := 50; Rec := false |} {| Index := 7; Rec := false |} = Ok true /\
    exists x y, declared_super v x y.
Proof.
  assert (E : match fst (mm.validateModule chainValidator zeroState) with
              | Ok v => length (superEnter v) = 64%nat /\
                  mt.typeIdxSuperSubtype v {| Index := 50; Rec := false |} {| Index := 7; Rec := false |} = Ok true
              | _ => False end) by (vm_compute; split; reflexivity).
  destruct (mm.validateModule chainValidator zeroState) as [[v|e|] s'] eqn:H; [|destruct E..].
  cbn [fst] in E. destruct E as [El E]. exists v, s'. split; [reflexivity|]. split; [exact El|]. split; [exact E|].
  assert (Ht : supers_typed (vm chainValidator)).
  { unfold chainValidator. apply Forall_map, Forall_forall. intros i _. apply Forall_cons_2; [|apply Forall_nil_2].
    destruct i; [apply Forall_nil_2|]. apply Forall_cons_2; [cbn; lia|apply Forall_nil_2]. }
  assert (Hn : Z.of_nat (length (mv.flatSubTypes (vm chainValidator))) <= 2 ^ 32) by (vm_compute; congruence).
  destruct (supertype_test_decides chainValidator eq_refl) as (_ & _ & Hd).
  destruct (Hd zeroState v s' {| Index := 50; Rec := false |} {| Index := 7; Rec := false |} Ht Hn H)
    as (r & Er & _ & Hiff).
  rewrite E in Er. injection Er as <-. destruct (proj1 Hiff eq_refl) as (x & y & _ & _ & _ & _ & Hxy).
  exists x, y. exact Hxy.
Defined.
