(* ===== verification/ModuleTotal.v ===== *)
(** * Validation of a module returns

    Every pass of the module validator ends with a verdict: it indexes nothing out
    of range, its searches do not run out of fuel and its loops over bytes consume
    them.  The passes are followed in the order of [validateModule]. *)

From stdpp Require Import base tactics numbers list gmap relations.
From Stdlib Require Import ZArith Lia.
From S2P Require Import Prelude Reader ReaderLaws Types Decode Kinds Instr InstrLaws Module ModuleDecode.
From S2P Require Import TypeEquiv Subtyping Effects Validator Step ValidatorLaws Streaming FastPath.
From S2P Require Import StreamLaws TypeValid ModuleValid Ancestry SuperLaws.
Local Open Scope Z_scope.

(** ** Computations that return

    [calm c]: from a state whose initialized locals are its log, [c] returns, and
    keeps this when it succeeds. *)

Definition calm {A} (c : V A) : Prop :=
  forall s, init_ok s ->
    match c s with
    | (Ok _, s') => init_ok s'
    | (Err _, _) => True
    | (Panic, _) => False
    end.

Lemma calm_ret {A} (a : A) : calm (ret a).
Proof. by intros s Hs. Qed.

Lemma calm_fail {A} err : calm (@fail fvState error A err).
Proof. by intros s Hs. Qed.

Lemma calm_bind {A B} (c : V A) (k : A -> V B) : calm c -> (forall a, calm (k a)) -> calm (bind c k).
Proof.
  intros Hc Hk s Hs. unfold bind. specialize (Hc s Hs). destruct (c s) as [[a|e|] s']; try done. by apply Hk.
Qed.

Lemma calm_check g : calm (check g).
Proof. destruct g; [apply calm_fail|apply calm_ret]. Qed.

Lemma calm_merr {A} c : calm (@merr A c).
Proof. apply calm_fail. Qed.

Lemma calm_mrequire b c : calm (mrequire b c).
Proof. destruct b; [apply calm_ret|apply calm_merr]. Qed.

Lemma calm_forM {A} (l : list A) (f : A -> V unit) : (forall x, x ∈ l -> calm (f x)) -> calm (forM l f).
Proof.
  induction l as [|x l IH]; intros H; cbn [forM]; [apply calm_ret|].
  apply calm_bind; [apply H; left|]. intros _. apply IH. intros y Hy. apply H. by right.
Qed.

Lemma calm_indexed {A} (l : list A) (f : Z * A -> V unit) :
  (forall i x, l !! i = Some x -> calm (f (Z.of_nat i, x))) -> calm (forM (indexed l) f).
Proof.
  intros H. apply calm_forM. intros [z x] Hx. apply list_elem_of_lookup in Hx as [i Hi].
  unfold indexed in Hi. rewrite list_lookup_imap in Hi. destruct (l !! i) as [y|] eqn:E; [|done].
  injection Hi as <- <-. by apply H.
Qed.

Create HintDb calm.
#[export] Hint Resolve calm_ret calm_fail calm_check calm_merr calm_mrequire : calm.

(** Sequences of checks, by their syntax. *)
Ltac calm_step :=
  lazymatch goal with
  | |- calm (bind _ _) => apply calm_bind; [|intros ?]
  | |- calm (forM _ _) => apply calm_forM; intros ? ?
  | |- calm (match ?x with _ => _ end) => destruct x eqn:?
  | |- _ => solve [auto with calm]
  end.
Ltac calm_go := repeat calm_step.

(** ** The types *)

Section Types.
Context (v : moduleValidator).
Local Abbreviation m := (vm v).
Local Abbreviation flat := (mv.flatSubTypes m).
Local Abbreviation n := (length flat).

Lemma calm_validateTypes : calm (tv.validateTypes v).
Proof.
  unfold tv.validateTypes. apply calm_forM. intros [gi rt] _. apply calm_forM. intros [si st] _.
  unfold tv.validateSubType, tv.validateSuper, tv.validateCompTypeInRecGroup. calm_go.
Qed.

Lemma calm_checkLink st g member idx describes gr :
  Types_ m !! Z.to_nat g = Some gr -> SubTypes gr <> [] -> calm (tv.checkLink v st g member idx describes).
Proof.
  intros Hg Hn. unfold tv.checkLink. rewrite Hg. unfold mrequire at 1.
  destruct (negb (_ || _)) eqn:E; [|by intros s Hs].
  apply negb_true_iff, orb_false_iff in E as [_ E]. apply Z.leb_gt in E.
  assert (Hlt : (Z.to_nat (Index idx) < length (SubTypes gr))%nat).
  { pose proof (to_u32_le (Z.of_nat (length (SubTypes gr))) ltac:(lia)). destruct (SubTypes gr); [done|]. simpl in *. lia. }
  apply calm_bind; [apply calm_ret|]. intros _. destruct (lookup_lt_is_Some_2 _ _ Hlt) as [other ->]. calm_go.
Qed.

Lemma calm_validateFlatType i st g : flat !! i = Some (st, g) -> calm (tv.validateFlatType v (Z.of_nat i) (st, g)).
Proof.
  intros Hi. destruct (flat_located v i st g Hi) as (gr & b & j & Hg & Hb & Hj & _).
  unfold tv.validateFlatType. rewrite Hb.
  assert (Hl : forall member idx d, calm (tv.checkLink v st (Z.of_nat g) member idx d)).
  { intros. eapply calm_checkLink; [by rewrite Nat2Z.id|]. intros E. by rewrite E in Hj. }
  apply calm_bind; [|intros _].
  - destruct (_ || _); [|apply calm_ret]. unfold tv.validateDescriptorMetadata.
    destruct (OptionalTypeIdx_Get _), (OptionalTypeIdx_Get _). calm_go; apply Hl.
  - apply calm_forM. intros sup _.
    unfold tv.validateSuperEdge, tv.validateDescriptorSubtypeMetadata, tv.validateDescriptorSubtypeEdge. calm_go.
Qed.

(** ** The search for cycles *)

Hypothesis Hbelow : supers_below v.
Hypothesis Hsingle : forall i st g, flat !! i = Some (st, g) -> (length (Supers st) <= 1)%nat.

(** A type not visited yet, or one with a depth up to [ancestryDepth]. *)
Definition settled (x : Z) : Prop := x = 0 \/ 2 <= x <= 34.

Lemma parentDepth_bounds y : 2 <= y <= 34 -> 0 <= tv.parentDepth y <= 32.
Proof.
  intros H. unfold tv.parentDepth, tv.ancestryDepth.
  assert (E : to_u8 (y - 2) = y - 2) by (unfold to_u8; rewrite Z.mod_small; lia). rewrite E.
  destruct (Z.ltb_spec (y - 2) 32); [|lia]. unfold to_u8. rewrite Z.mod_small; lia.
Qed.

(** The states up to [i] are settled before and after the visit of [i]; those above
    are kept. *)
Lemma visitChain_ok fuel i s :
  (i < fuel)%nat -> (i < n)%nat -> length (fst s) = n ->
  (forall j x, (j <= i)%nat -> fst s !! j = Some x -> settled x) ->
  exists s', tv.visitChain v fuel (Z.of_nat i) s = (Ok tt, s') /\ length (fst s') = n /\
    (forall j x, (j <= i)%nat -> fst s' !! j = Some x -> settled x) /\
    (forall j, (i < j)%nat -> fst s' !! j = fst s !! j) /\
    (exists x, fst s' !! i = Some x /\ 2 <= x <= 34).
Proof.
  revert i s. induction fuel as [|fuel IH]; intros i [l deep] Hf Hi Hlen Hs; [lia|]. cbn [fst] in Hlen, Hs.
  cbn [tv.visitChain]. unfold bind at 1, get at 1. cbn [fst snd]. rewrite Nat2Z.id.
  destruct (lookup_lt_is_Some_2 l i ltac:(lia)) as [x Hx].
  destruct (lookup_lt_is_Some_2 flat i Hi) as [[st g] Hst]. rewrite Hx, Hst.
  pose proof (Hs i x ltac:(lia) Hx) as Hsx.
  destruct (Z.eqb_spec x 1) as [->|_]; [exfalso; destruct Hsx; lia|].
  destruct (Z.leb_spec 2 x) as [H2|H2].
  { eexists. split; [reflexivity|]. split; [done|]. split; [done|]. split; [done|]. exists x. split; [done|].
    destruct Hsx; lia. }
  unfold bind at 1, modify at 1. cbn [fst snd].
  assert (Hend : forall s1 depth, length (fst s1) = n -> 0 <= depth <= 32 ->
    (forall j x, (j < i)%nat -> fst s1 !! j = Some x -> settled x) ->
    (forall j, (i < j)%nat -> fst s1 !! j = l !! j) ->
    exists s', modify (fun s => (<[i := to_u8 (depth + 2)]> (fst s), snd s || (depth =? tv.ancestryDepth))) s1
               = (@Ok error unit tt, s') /\ length (fst s') = n /\
      (forall j x, (j <= i)%nat -> fst s' !! j = Some x -> settled x) /\
      (forall j, (i < j)%nat -> fst s' !! j = l !! j) /\
      (exists x, fst s' !! i = Some x /\ 2 <= x <= 34)).
  { intros s1 depth Hl1 Hd Hs1 Hk1. eexists. split; [reflexivity|]. cbn [fst].
    assert (E : to_u8 (depth + 2) = depth + 2) by (unfold to_u8; rewrite Z.mod_small; lia). rewrite E.
    split; [by rewrite length_insert|]. split; [|split].
    - intros j y Hj Hy. destruct (decide (j = i)) as [->|Hne].
      + rewrite list_lookup_insert_eq in Hy by lia. injection Hy as <-. right. lia.
      + rewrite list_lookup_insert_ne in Hy by done. apply (Hs1 j); [lia|done].
    - intros j Hj. rewrite list_lookup_insert_ne by lia. by apply Hk1.
    - exists (depth + 2). rewrite list_lookup_insert_eq by lia. split; [done|lia]. }
  destruct (Supers st) as [|sup [|? ?]] eqn:Es; [| |by pose proof (Hsingle i st g Hst) as H; rewrite Es in H; simpl in H; lia].
  - cbn [foldM]. unfold bind at 1, ret at 1. apply Hend; cbn [fst]; [by rewrite length_insert|lia| |].
    + intros j y Hj Hy. rewrite list_lookup_insert_ne in Hy by lia. apply (Hs j); [lia|done].
    + intros j Hj. by rewrite list_lookup_insert_ne by lia.
  - destruct (Hbelow i st g sup Hst ltac:(by rewrite Es)) as (p & Hp & Hlt). cbn [foldM]. rewrite Hp.
    destruct (IH p (<[i := 1]> l, deep)) as ([l1 deep1] & E1 & Hl1 & Hs1 & Hk1 & y & Hy & Hyb);
      [lia|lia|cbn [fst]; by rewrite length_insert| |].
    { cbn [fst]. intros j z Hj Hz. rewrite list_lookup_insert_ne in Hz by lia. apply (Hs j); [lia|done]. }
    cbn [fst] in *. unfold bind at 1. unfold bind at 1. unfold bind at 1. rewrite E1. unfold bind at 1, get at 1.
    cbn [fst]. rewrite Nat2Z.id, Hy. unfold ret at 1. unfold ret at 1. apply Hend; cbn [fst]; [done| | |].
    + pose proof (parentDepth_bounds y Hyb). destruct (_ <? _); lia.
    + intros j z Hj Hz. destruct (decide (j <= p)%nat); [by apply (Hs1 j)|].
      rewrite Hk1, list_lookup_insert_ne in Hz by lia. apply (Hs j); [lia|done].
    + intros j Hj. rewrite Hk1, list_lookup_insert_ne by lia. done.
Qed.

Lemma visitAll_ok : exists s', tv.visitAll v (replicate n 0, false) = (Ok tt, s').
Proof.
  unfold tv.visitAll.
  assert (H : forall k s, (k <= n)%nat -> length (fst s) = n -> (forall j x, fst s !! j = Some x -> settled x) ->
    exists s', forM (map Z.of_nat (seq (n - k) k)) (tv.visitChain v (tv.chainFuel v)) s = (Ok tt, s')).
  { induction k as [|k IH]; intros s Hk Hl Hs; cbn [seq map forM]; [by eexists|].
    destruct (visitChain_ok (tv.chainFuel v) (n - S k) s) as (s1 & E1 & Hl1 & Hs1 & Hk1 & _);
      [unfold tv.chainFuel; lia|lia|done|intros; by eapply Hs|].
    unfold bind. rewrite E1. replace (S (n - S k)) with (n - k)%nat by lia. apply IH; [lia|done|].
    intros j x Hx. destruct (decide (j <= n - S k)%nat); [by eapply Hs1|]. rewrite Hk1 in Hx by lia. by eapply Hs. }
  replace (seqZ 0 (Z.of_nat n)) with (map Z.of_nat (seq (n - n) n)).
  - apply H; [lia|cbn [fst]; apply length_replicate|]. cbn [fst]. intros j x Hx. apply lookup_replicate in Hx as [-> _].
    by left.
  - rewrite Nat.sub_diag. unfold seqZ. rewrite Nat2Z.id. apply map_ext. intros i. lia.
Qed.

Lemma calm_validateSubtypeMetadata : calm (tv.validateSubtypeMetadata v).
Proof.
  unfold tv.validateSubtypeMetadata. apply calm_bind.
  { apply calm_indexed. intros i [st g] Hi. by apply calm_validateFlatType. }
  intros _. destruct (negb _); [apply calm_ret|]. destruct visitAll_ok as ([l deep] & ->).
  destruct (tv.wantsAncestry v deep) eqn:Ew; [|apply calm_ret].
  unfold tv.wantsAncestry in Ew. apply andb_true_iff in Ew as [Ew _]. apply andb_true_iff in Ew as [_ Ew].
  apply Z.leb_le in Ew. destruct (ancestry_built v Hbelow Ew) as (en & ex & -> & _). apply calm_ret.
Qed.
End Types.

(** ** Constant expressions *)

(** An expression given as bytes is one byte per element. *)
Definition expr_ok (e : Expr) : Prop := bytes_ok (BodyBytes e).

Section Consts.
Context (v : moduleValidator).

Lemma rounds_constRound e res : rounds_ok res 1 (mm.constRound e).
Proof.
  apply (rounds_reader res 1 0 _ direct_ok); [apply safe_decodeDirectOp|]. intros op _.
  assert (H : rounds_ok res 0 (on_stacks (sd.stepDirectOp e op))) by apply rounds_stacks, steps_stepDirectOp.
  destruct (dkind op); try exact H; apply rounds_stacks, steps_framed, framed_verr.
Qed.

(** The frame of the expression, on stacks a previous one may have left. *)
Lemma const_frame e want s : init_ok s ->
  exists s1, (sd.beginFunc ;;; fv.pushCtrl e ctrlFunc [] [want]) s = (Ok tt, s1) /\
    disciplined [want] s1 /\ length (ctrls s1) = 1%nat.
Proof.
  intros [Hi Hn]. eexists. split; [unfold bind, sd.beginFunc, modify, fv.pushCtrl, fv.popAll; cbn; reflexivity|].
  split; [|done]. split; [split; cbn; [lia|by split]|by cbn].
Qed.

Lemma const_bind {A} e want (k : V A) s : init_ok s ->
  exists s1, (sd.beginFunc ;;; fv.pushCtrl e ctrlFunc [] [want] ;;; k) s = k s1 /\
    disciplined [want] s1 /\ length (ctrls s1) = 1%nat.
Proof.
  intros Hs. destruct (const_frame e want s Hs) as (s1 & E & H). exists s1. split; [|done].
  revert E. unfold bind. destruct (sd.beginFunc s) as [[[]|?|] s0]; try done. by intros ->.
Qed.

Lemma calm_constDirect body want limit : bytes_ok body ->
  calm (mm.validateConstExprDirectWithGlobalLimit v body want limit).
Proof.
  intros Hb s Hs. unfold mm.validateConstExprDirectWithGlobalLimit. set (e := mm.constEnv v limit).
  destruct (const_bind e want (fun s => let (o, rs) := sd.bodyLoop (S (length body)) (mm.constRound e)
    (reader.newReader body, s) in (o, snd rs)) s Hs) as (s1 & -> & Hd & _).
  pose proof (bodyLoop_total [want] (mm.constRound e) (S (length body)) (reader.newReader body) s1
    (rounds_constRound e [want]) (reader_ok_new body Hb) Hd ltac:(simpl; lia)) as H.
  destruct (sd.bodyLoop _ _ _) as [[[]|err|] [r s2]]; try done. apply H.
Qed.

Lemma calm_constTree ex want limit : expr_ok ex -> calm (mm.validateConstExprWithGlobalLimit v ex want limit).
Proof.
  intros Hb. unfold mm.validateConstExprWithGlobalLimit. destruct (negb _); [by apply calm_constDirect|].
  intros s Hs. cbv zeta. set (e := mm.constEnv v limit).
  destruct (const_bind e want (fs.run (fs.step e) (Instrs ex) ;;; fv.popCtrl e ;;; ret tt) zeroState) as
    (s1 & -> & Hd & Hn); [by split; [|constructor]|].
  assert (Hne : ctrls s1 <> []) by by destruct (ctrls s1).
  pose proof (framed_run (fs.step e) (Instrs ex)
    ltac:(apply Forall_forall; intros; apply framed_step) s1 (proj1 Hd) Hne) as Hst.
  unfold bind at 1. destruct (fs.run _ _ s1) as [[[]|err|] s2]; try done.
  destruct (ctrls s2) as [|f rest] eqn:Ec; [by pose proof (stays_nonempty _ _ Hne Hst)|].
  pose proof (popCtrl_disciplined e _ s2 f rest (disciplined_stays _ _ _ Hne Hst Hd) Ec) as Hp.
  unfold bind. by destruct (fv.popCtrl e s2) as [[f'|err|] s3].
Qed.
End Consts.
#[export] Hint Resolve calm_constDirect calm_constTree : calm.

(** ** The sections *)

(** The bytes a module holds are bytes, its supertype indices are unsigned, and the
    summaries of its tables are aligned. *)
Record module_bytes (m : Module_) (direct : option directValidationEnv) : Prop := {
  mb_types : supers_typed m;
  mb_code : Forall (fun fn => bytes_ok (FBodyBytes fn)) (Code_ m);
  mb_tables : Forall (fun t => forall e, TInit t = Some e -> expr_ok e) (Tables m);
  mb_globals : Forall (fun g => expr_ok (GInit g)) (Globals m);
  mb_elems : Forall (fun e => (EMKind (EMode e) = ElemActive -> expr_ok (EMOffset (EMode e))) /\
    ((EKKind (EElems e) =? ElemFuncExprs) || (EKKind (EElems e) =? ElemTypedExprs) = true ->
     Forall expr_ok (EKExprs (EElems e)))) (Elements m);
  mb_data : Forall (fun d => DMKind (DMode d) = DataActive -> expr_ok (DMOffset (DMode d))) (Data_ m);
  mb_env : forall d, direct = Some d ->
    (forall i, tableHasInit d !! i = Some true -> exists b, tableInits d !! i = Some b /\ bytes_ok b) /\
    Forall bytes_ok (globalInits d) /\
    Forall (fun e => (deMode e = ElemActive -> bytes_ok (deOffset e)) /\ Forall bytes_ok (deExprs e)) (elements d)
}.

Section Sections.
Context (v : moduleValidator).
Hypothesis Hm : module_bytes (vm v) (vdirect v).

Lemma calm_validateTable i t : Tables (vm v) !! i = Some t -> calm (mm.validateTable v (Z.of_nat i) t).
Proof.
  intros Ht. pose proof (Forall_lookup_1 _ _ _ _ (mb_tables _ _ Hm) Ht) as Hi.
  unfold mm.validateTable. calm_step; [auto with calm|]. cbv zeta. calm_step; [|auto with calm].
  destruct (vdirect v) as [d|] eqn:Ed.
  - unfold mm.directHasInit. rewrite Nat2Z.id.
    destruct (tableHasInit d !! i) as [[]|] eqn:Eh; cbn [from_option id]; [|apply calm_ret|apply calm_ret].
    destruct (proj1 (mb_env _ _ Hm d eq_refl) i Eh) as (b & -> & Hb). calm_go.
  - destruct (TInit t) as [ex|] eqn:Et; [|auto with calm]. specialize (Hi ex Et). calm_go.
Qed.

Lemma calm_validateGlobal i g : Globals (vm v) !! i = Some g -> calm (mm.validateGlobal v (Z.of_nat i) g).
Proof.
  intros Hg. pose proof (Forall_lookup_1 _ _ _ _ (mb_globals _ _ Hm) Hg) as Hi.
  unfold mm.validateGlobal. calm_step; [auto with calm|]. cbv zeta.
  destruct (vdirect v) as [d|] eqn:Ed; [|auto with calm]. rewrite Nat2Z.id.
  destruct (globalInits d !! i) as [b|] eqn:Eb; [|auto with calm].
  apply calm_constDirect, (Forall_lookup_1 _ _ _ _ (proj1 (proj2 (mb_env _ _ Hm d eq_refl))) Eb).
Qed.

Lemma calm_validateActive t offset ref : (forall w, calm (offset w)) -> calm (mm.validateActive v t offset ref).
Proof. intros H. unfold mm.validateActive. calm_go. Qed.

Lemma calm_exprs l want : Forall expr_ok l -> calm (forM l (fun ex => mm.validateConstExpr v ex want)).
Proof.
  intros H. apply calm_forM. intros ex Hex. apply calm_constTree. by apply (proj1 (Forall_forall _ _) H).
Qed.

Lemma calm_bodies l want : Forall bytes_ok l -> calm (forM l (fun b => mm.validateConstExprDirect v b want)).
Proof.
  intros H. apply calm_forM. intros b Hb. apply calm_constDirect. by apply (proj1 (Forall_forall _ _) H).
Qed.

(** The three kinds of payload. *)
Ltac elem_kinds exprs :=
  destruct (_ =? ElemFuncs); [calm_go|];
  destruct (_ =? ElemFuncExprs); [apply calm_bind; [apply exprs; auto|auto with calm]|];
  destruct (_ =? ElemTypedExprs); [|auto with calm]; calm_step; [auto with calm|];
  apply calm_bind; [apply exprs; auto|auto with calm].

Lemma calm_validateElements : calm (mm.validateElements v).
Proof.
  unfold mm.validateElements. destruct (vdirect v) as [d|] eqn:Ed.
  - apply calm_forM. intros e He.
    destruct (proj1 (Forall_forall _ _) (proj2 (proj2 (mb_env _ _ Hm d eq_refl))) e He) as [Ho Hx].
    unfold mm.validateDirectElem, mm.validateDirectElemPayload.
    calm_step; [elem_kinds calm_bodies|].
    destruct (Z.eqb_spec (deMode e) ElemActive); [|auto with calm].
    apply calm_validateActive. intros w. by apply calm_constDirect, Ho.
  - apply calm_forM. intros e He. destruct (proj1 (Forall_forall _ _) (mb_elems _ _ Hm) e He) as [Ho Hx].
    unfold mm.validateElem, mm.validateElemPayload.
    calm_step; [elem_kinds calm_exprs|].
    destruct (Z.eqb_spec (EMKind (EMode e)) ElemActive); [|auto with calm].
    apply calm_validateActive. intros w. by apply calm_constTree, Ho.
Qed.

Lemma calm_validateData d : d ∈ Data_ (vm v) -> calm (mm.validateData v d).
Proof.
  intros Hd. pose proof (proj1 (Forall_forall _ _) (mb_data _ _ Hm) d Hd) as Ho.
  unfold mm.validateData. destruct (Z.eqb_spec (DMKind (DMode d)) DataActive) as [E|_]; [|auto with calm].
  specialize (Ho E). destruct (ms.memoryProperties _ _); [|auto with calm].
  destruct (vdirect v).
  - calm_step; [auto with calm|]. by apply calm_constDirect.
  - by apply calm_constTree.
Qed.

Lemma calm_validateExports seen exports : calm (mm.validateExports v seen exports).
Proof. revert seen. induction exports as [|ex rest IH]; intros seen; cbn [mm.validateExports]; calm_go. Qed.

Lemma calm_validateSections : calm (mm.validateSections v).
Proof.
  unfold mm.validateSections. do 2 (apply calm_bind; [calm_go|intros _]).
  apply calm_bind; [apply calm_indexed; intros; by apply calm_validateTable|intros _].
  apply calm_bind; [unfold mm.validateMemories; calm_go|intros _].
  apply calm_bind; [calm_go|intros _].
  apply calm_bind; [apply calm_indexed; intros; by apply calm_validateGlobal|intros _].
  apply calm_bind; [apply calm_validateExports|intros _].
  apply calm_bind; [unfold mm.validateStart; calm_go|intros _].
  apply calm_bind; [apply calm_validateElements|intros _].
  apply calm_bind; [apply calm_forM; intros; by apply calm_validateData|intros _].
  unfold mm.validateDataCount. calm_go.
Qed.
End Sections.

(** ** Declared functions *)

Lemma declaredInBytes_some v fuel bits r :
  reader_ok r -> (length (reader.data r) - reader.pos r <= fuel)%nat ->
  exists bits', mm.declaredInBytes v fuel bits r = Some bits'.
Proof.
  revert bits r. induction fuel as [|fuel IH]; intros bits r Hr Hf; cbn [mm.declaredInBytes];
    destruct (reader.has r) eqn:Eh; cbn [negb]; try by eexists.
  - unfold reader.has, reader.left in Eh. apply Z.ltb_lt in Eh. lia.
  - pose proof (safe_decodeDirectOp (fixedMemargWidths false) false r Hr) as H.
    destruct (decodeDirectOp _ _ r) as [[op|?|] r']; [|by eexists|done]. destruct H as (Hr' & He & _).
    apply IH; [done|]. pose proof (ext_pos _ _ _ He). pose proof (rok_pos _ Hr').
    rewrite (ext_data _ _ _ He) in *. lia.
Qed.

Lemma collectExpr_some v bits ex : expr_ok ex -> exists bits', mm.collectDeclaredFuncsInExpr v bits ex = Some bits'.
Proof.
  intros H. unfold mm.collectDeclaredFuncsInExpr. destruct (_ =? _)%nat; [by eexists|].
  apply declaredInBytes_some; [by apply reader_ok_new|]. simpl. lia.
Qed.

Lemma foldOption_some {A B} (f : B -> A -> option B) l b :
  (forall b x, x ∈ l -> exists b', f b x = Some b') -> exists b', tv.foldOption f l b = Some b'.
Proof.
  revert b. induction l as [|x l IH]; intros b H; [by exists b|].
  destruct (H b x ltac:(left)) as [b' E]. cbn. rewrite E. cbn. apply IH. intros b1 y Hy. apply H. by right.
Qed.

Lemma collectDeclared_some v : module_bytes (vm v) (vdirect v) -> exists bits, mm.collectDeclaredFuncs v = Some bits.
Proof.
  intros [_ _ Ht Hg He _ _]. rewrite Forall_forall in Ht. rewrite Forall_forall in Hg. rewrite Forall_forall in He. unfold mm.collectDeclaredFuncs. cbv zeta.
  destruct (foldOption_some (fun bits t => match TInit t with
    | Some e => mm.collectDeclaredFuncsInExpr v bits e | None => Some bits end) (Tables (vm v))
    (foldl (fun bits ex => if XKind (XIdx ex) =? ExternFunc then mm.declareFunc v bits (XIndex (XIdx ex)) else bits)
       [] (Exports (vm v)))) as [b1 ->].
  { intros b t Hin. specialize (Ht t Hin). destruct (TInit t) as [ex|]; [|by eexists].
    apply collectExpr_some. by apply Ht. }
  cbn [mbind option_bind].
  destruct (foldOption_some (fun bits g => mm.collectDeclaredFuncsInExpr v bits (GInit g)) (Globals (vm v)) b1)
    as [b2 ->].
  { intros b g Hin. by apply collectExpr_some, Hg. }
  cbn [mbind option_bind]. apply foldOption_some. intros b e Hin. unfold mm.collectElem. cbv zeta.
  destruct (_ =? _); [by eexists|]. destruct (_ || _) eqn:Ek; [|by eexists]. apply foldOption_some.
  intros b' ex Hex. apply collectExpr_some. destruct (He e Hin) as [_ Hx].
  by apply (proj1 (Forall_forall _ _) (Hx Ek)).
Qed.

(** ** The whole module *)

(** Only the intervals of the validator change. *)
Lemma metadata_module v s v' s' :
  tv.validateSubtypeMetadata v s = (Ok v', s') -> vm v' = vm v /\ vdirect v' = vdirect v.
Proof.
  intros H. unfold tv.validateSubtypeMetadata in H. apply bind_ok in H as ([] & s1 & _ & H).
  destruct (negb _); [by injection H as <- _|]. destruct (tv.visitAll _ _) as [[[]|?|] [? deep]]; try done.
  destruct (tv.wantsAncestry _ deep); [|by injection H as <- _].
  by destruct (tv.buildSupertypeAncestry _) as [[en ex]|]; [injection H as <- _|].
Qed.

Lemma calm_validateModule v : module_bytes (vm v) (vdirect v) -> calm (mm.validateModule v).
Proof.
  intros Hm. unfold mm.validateModule. do 2 (apply calm_bind; [auto with calm|intros _]).
  destruct (collectDeclared_some v Hm) as [bits ->]. cbv zeta. set (v1 := mm.with_declared v bits).
  intros s Hs. unfold bind at 1. pose proof (calm_validateTypes v1 s Hs) as H.
  destruct (tv.validateTypes v1 s) as [[[]|?|] s1] eqn:Et; try done.
  assert (Hb : supers_below v1) by (eapply validateTypes_below; [apply Hm|exact Et]).
  assert (H1 : forall i st g, mv.flatSubTypes (vm v1) !! i = Some (st, g) -> (length (Supers st) <= 1)%nat).
  { intros i st g Hi. by destruct (validateTypes_super v1 _ _ i st g Et Hi) as (? & ? & _). }
  unfold bind at 1. pose proof (calm_validateSubtypeMetadata v1 Hb H1 s1 H) as H2.
  destruct (tv.validateSubtypeMetadata v1 s1) as [[v2|?|] s2] eqn:Ev; try done.
  apply metadata_module in Ev as [E1 E2].
  apply (calm_bind (mm.validateSections v2)); [|intros; apply calm_ret|done].
  apply calm_validateSections. by rewrite E1, E2.
Qed.

Lemma validateModule_module v s v' s' :
  mm.validateModule v s = (Ok v', s') -> vm v' = vm v /\ vdirect v' = vdirect v.
Proof.
  intros H. unfold mm.validateModule in H. apply bind_ok in H as ([] & ? & _ & H).
  apply bind_ok in H as ([] & s2 & _ & H). destruct (mm.collectDeclaredFuncs v) as [bits|]; [|done].
  apply bind_ok in H as ([] & s3 & _ & H). apply bind_ok in H as (v2 & s4 & Hmeta & H).
  apply bind_ok in H as ([] & s5 & _ & H). injection H as <- _. by apply metadata_module in Hmeta.
Qed.

Lemma serial_returns v : Forall (fun fn => bytes_ok (FBodyBytes fn)) (Code_ (vm v)) -> mm.serialPhase v <> Panic.
Proof.
  intros Hc. unfold mm.serialPhase, mm.validateFunctionsSerial.
  assert (H : forall l s, (forall i, i ∈ l -> (i < length (Code_ (vm v)))%nat) ->
    fst (forM l (sd.validateFunction v (mm.widthsOf v)) s) <> Panic).
  { induction l as [|i l IH]; intros s Hl; cbn [forM]; [done|].
    destruct (lookup_lt_is_Some_2 _ _ (Hl i ltac:(left))) as [fn Hfn].
    pose proof (validateFunction_returns v (mm.widthsOf v) i s fn Hfn (Forall_lookup_1 _ _ _ _ Hc Hfn)) as H.
    unfold bind. destruct (sd.validateFunction _ _ i s) as [[[]|?|] s1]; try done.
    apply IH. intros j Hj. apply Hl. by right. }
  apply H. intros i Hi. apply elem_of_seq in Hi. lia.
Qed.

Lemma validateModuleWith_returns m direct f l :
  module_bytes m direct -> mm.validateModuleWith mm.serialPhase (Some m) direct f l <> Panic.
Proof.
  intros Hm. unfold mm.validateModuleWith. cbv zeta. destruct (_ <? _); [done|]. destruct (_ <? _); [done|].
  pose proof (calm_validateModule (mm.newValidator m direct f (mm.effectiveLimits l)) Hm zeroState) as H.
  specialize (H ltac:(split; [done|constructor])).
  destruct (mm.validateModule _ _) as [[v|?|] s] eqn:E; [|done..]. cbn [fst].
  apply serial_returns. destruct (validateModule_module _ _ _ _ E) as [-> _]. apply Hm.
Qed.

(** The result is a verdict: success or an error. *)
Definition verdict (o : outcome error unit) : Prop := o = Ok tt \/ exists e, o = Err e.

Lemma verdict_iff o : verdict o <-> o <> Panic.
Proof.
  unfold verdict. destruct o as [[]|e|]; split; intros H; try done; try (by left); try (right; by eexists).
  by destruct H as [?|[? ?]].
Qed.
