(* ===== verification/DirectEquiv.v ===== *)
(** * The two sources of initializers

    A module decoded from bytes carries its initializers twice: in the side record
    of the decoder and, once they are copied, in the module.  [validateModule]
    reads the first when the record is present and the second otherwise.  Both give
    the same verdict. *)

From stdpp Require Import base tactics numbers list gmap.
From Stdlib Require Import ZArith Lia.
From S2P Require Import Prelude Reader ReaderLaws Types Decode Kinds Instr InstrLaws Module ModuleDecode.
From S2P Require Import ModuleSafe DecodeTotal TypeEquiv Subtyping Effects Validator Step ValidatorLaws.
From S2P Require Import ValidatorLaws Streaming FastPath StreamLaws TypeValid ModuleValid ModuleTotal.
Local Open Scope Z_scope.

(** ** Steps look at the record only for the types of element segments *)

Definition with_direct (d : option directValidationEnv) (v : moduleValidator) : moduleValidator :=
  {| vm := vm v; vdirect := d; features := features v; limits := limits v;
     declaredFuncBits := declaredFuncBits v; superEnter := superEnter v; superExit := superExit v |}.

Definition with_fmv (v : moduleValidator) (e : fenv) : fenv :=
  {| fmv := v; funcIndex := funcIndex e; constOnly := constOnly e; constGlobalLimit := constGlobalLimit e |}.

Section Env.
Context (v : moduleValidator) (d d' : option directValidationEnv).
Local Abbreviation v1 := (with_direct d v).
Local Abbreviation v2 := (with_direct d' v).
Hypothesis Htype : forall i, ms.elemRefType v1 i = ms.elemRefType v2 i.
Hypothesis Hcount : ms.elemCount v1 = ms.elemCount v2.

Section Step.
Context (e : fenv).
Local Abbreviation e1 := (with_fmv v1 e).
Local Abbreviation e2 := (with_fmv v2 e).

Lemma popExpect_env : fv.popExpect e1 = fv.popExpect e2.
Proof. reflexivity. Qed.
Lemma require_env : fs.require e1 = fs.require e2.
Proof. reflexivity. Qed.
Lemma checkMemArg_env : fs.checkMemArg e1 = fs.checkMemArg e2.
Proof. reflexivity. Qed.

Lemma elemRefType_env i : fs.elemRefType e1 i = fs.elemRefType e2 i.
Proof. unfold fs.elemRefType. cbn [fmv with_fmv]. rewrite Htype. reflexivity. Qed.

Lemma stepArrayNew_env p : fs.stepArrayNew e1 p = fs.stepArrayNew e2 p.
Proof. unfold fs.stepArrayNew. rewrite elemRefType_env. reflexivity. Qed.

Lemma stepArrayInitElem_env p : fs.stepArrayInitElem e1 p = fs.stepArrayInitElem e2 p.
Proof. unfold fs.stepArrayInitElem. rewrite elemRefType_env. reflexivity. Qed.

Lemma stepTableInit_env p : fs.stepTableInit e1 p = fs.stepTableInit e2 p.
Proof. unfold fs.stepTableInit. rewrite elemRefType_env. reflexivity. Qed.

Lemma stepGC_env p : fs.stepGC e1 p = fs.stepGC e2 p.
Proof. unfold fs.stepGC. rewrite stepArrayNew_env, stepArrayInitElem_env. reflexivity. Qed.

Lemma stepSIMD_env p : fs.stepSIMD e1 p = fs.stepSIMD e2 p.
Proof. unfold fs.stepSIMD. rewrite popExpect_env, require_env, checkMemArg_env. reflexivity. Qed.

Lemma proposalStep_env p body : fs.proposalStep e1 p body = fs.proposalStep e2 p body.
Proof. unfold fs.proposalStep. rewrite stepGC_env, stepSIMD_env. reflexivity. Qed.

Lemma stepKind_env p body thn els b : fs.stepKind e1 p body thn els b = fs.stepKind e2 p body thn els b.
Proof.
  unfold fs.stepKind. rewrite proposalStep_env, stepTableInit_env. cbn [fmv with_fmv]. rewrite Hcount. reflexivity.
Qed.

Lemma stepNode_env p body thn els b : fs.stepNode e1 p body thn els b = fs.stepNode e2 p body thn els b.
Proof. unfold fs.stepNode. rewrite stepKind_env. reflexivity. Qed.

Lemma run_env f g l : Forall (fun i => f i = g i) l -> fs.run f l = fs.run g l.
Proof. induction 1 as [|i l H _ IH]; [done|]. cbn [fs.run]. by rewrite H, IH. Qed.

Lemma step_env i : fs.step e1 i = fs.step e2 i.
Proof.
  induction i as [p body thn els Hb Ht He] using Instruction_tree_ind. cbn [fs.step].
  rewrite (run_env _ _ _ Hb), (run_env _ _ _ Ht), (run_env _ _ _ He). apply stepNode_env.
Qed.

Lemma stepDirectOp_env op : sd.stepDirectOp e1 op = sd.stepDirectOp e2 op.
Proof. unfold sd.stepDirectOp. rewrite step_env. reflexivity. Qed.

Lemma constRound_env rs : mm.constRound e1 rs = mm.constRound e2 rs.
Proof.
  unfold mm.constRound. apply bind_ext. intros op rs1 _. rewrite stepDirectOp_env. reflexivity.
Qed.

Lemma generalStep_env w multi rs : sd.generalStep e1 w multi rs = sd.generalStep e2 w multi rs.
Proof. unfold sd.generalStep. apply bind_ext. intros op rs1 _. by rewrite stepDirectOp_env. Qed.

Lemma enterFunc_env locals ft : sd.enterFunc e1 locals ft = sd.enterFunc e2 locals ft.
Proof. reflexivity. Qed.

Lemma validateFunc_env fn ft s : sd.validateFunc e1 fn ft s = sd.validateFunc e2 fn ft s.
Proof.
  unfold sd.validateFunc. rewrite enterFunc_env. apply bind_ext. intros [] s1 _.
  rewrite (run_env (fs.step e1) (fs.step e2)) by (apply Forall_forall; intros; apply step_env). reflexivity.
Qed.

Lemma validateFuncDirect_env locals body ft w multi s : constOnly e = false ->
  sd.validateFuncDirect e1 locals body ft w multi s = sd.validateFuncDirect e2 locals body ft w multi s.
Proof.
  intros He. rewrite !validateFuncDirect_general by done. unfold validateFuncGeneral. rewrite enterFunc_env.
  apply bind_ext. intros [] s1 _. by rewrite (bodyLoop_ext _ _ _ _ (generalStep_env _ _)).
Qed.
End Step.

Lemma validateFunction_env w i s : sd.validateFunction v1 w i s = sd.validateFunction v2 w i s.
Proof.
  unfold sd.validateFunction. cbn [vm with_direct]. destruct (Code_ (vm v) !! i) as [fn|]; [|done].
  change (ms.funcType v1) with (ms.funcType v2). change (ms.importsOfKind v1) with (ms.importsOfKind v2).
  destruct (ms.funcType v2 _) as [ft|]; [|done]. apply bind_ext. intros [] s1 _.
  destruct (negb _).
  - by apply (validateFuncDirect_env {| fmv := v; funcIndex := _; constOnly := false; constGlobalLimit := 0 |}).
  - apply (validateFunc_env {| fmv := v; funcIndex := _; constOnly := false; constGlobalLimit := 0 |}).
Qed.

Lemma constDirect_env body want limit s :
  mm.validateConstExprDirectWithGlobalLimit v1 body want limit s =
  mm.validateConstExprDirectWithGlobalLimit v2 body want limit s.
Proof.
  unfold mm.validateConstExprDirectWithGlobalLimit. apply bind_ext. intros [] s1 _. apply bind_ext. intros [] s2 _.
  by rewrite (bodyLoop_ext _ _ _ _ (constRound_env (mm.constEnv v limit))).
Qed.
End Env.

(** ** Records that agree with a module *)

Record same_elem (e : Elem) (de : directElem) : Prop := {
  se_header : same_header e de;
  se_offset : deMode de = ElemActive -> EMOffset (EMode e) = directExpr (deOffset de) /\ deOffset de <> [];
  se_funcs : deKind de = ElemFuncs -> EKFuncs (EElems e) = deFuncs de;
  se_summary : elem_wf de;
  se_exprs : (deKind de =? ElemFuncExprs) || (deKind de =? ElemTypedExprs) = true ->
    EKExprs (EElems e) = map directExpr (deExprs de);
  se_bodies : Forall (fun b => b <> []) (deExprs de)
}.

Record aligned (m : Module_) (d : directValidationEnv) : Prop := {
  al_tables : forall i t, Tables m !! i = Some t ->
    match tableHasInit d !! i with
    | Some true => exists b, tableInits d !! i = Some b /\ b <> [] /\ TInit t = Some (directExpr b)
    | _ => TInit t = None
    end;
  al_globals : forall i g, Globals m !! i = Some g ->
    exists b, globalInits d !! i = Some b /\ b <> [] /\ GInit g = directExpr b;
  al_elems : Forall2 same_elem (Elements m) (elements d);
  al_data : Forall (fun x => DMKind (DMode x) = DataActive -> BodyBytes (DMOffset (DMode x)) <> []) (Data_ m)
}.

Lemma bind_ext_l {S E A B} (c c' : M S E A) (f g : A -> M S E B) s :
  c s = c' s -> (forall a s', f a s' = g a s') -> bind c f s = bind c' g s.
Proof. intros H Hf. unfold bind. rewrite H. by destruct (c' s) as [[a|?|] s1]. Qed.

Lemma forM_ext {S E A} (l : list A) (f g : A -> M S E unit) s :
  (forall x s, x ∈ l -> f x s = g x s) -> forM l f s = forM l g s.
Proof.
  revert s. induction l as [|x l IH]; intros s H; [done|]. cbn [forM]. unfold bind. rewrite (H x s) by left.
  destruct (g x s) as [[[]|?|] s1]; try done. apply IH. intros y s2 Hy. apply H. by right.
Qed.

Lemma indexed_ext {A} (l : list A) (f g : Z * A -> V unit) s :
  (forall i x s, l !! i = Some x -> f (Z.of_nat i, x) s = g (Z.of_nat i, x) s) ->
  forM (indexed l) f s = forM (indexed l) g s.
Proof.
  intros H. apply forM_ext. intros [z x] s1 Hx. apply list_elem_of_lookup in Hx as [i Hi].
  unfold indexed in Hi. rewrite list_lookup_imap in Hi. destruct (l !! i) as [y|] eqn:E; [|done].
  injection Hi as <- <-. by apply H.
Qed.

Lemma forM_map {S E A B} (l : list A) (h : A -> B) (f : B -> M S E unit) s :
  forM (map h l) f s = forM l (fun x => f (h x)) s.
Proof.
  revert s. induction l as [|x l IH]; intros s; [done|]. cbn [forM map]. unfold bind.
  destruct (f (h x) s) as [[[]|?|] s1]; [apply IH|done..].
Qed.

Lemma forM_forall2 {S E A B} (R : A -> B -> Prop) l k (f : A -> M S E unit) (g : B -> M S E unit) s :
  Forall2 R l k -> (forall x y s, R x y -> f x s = g y s) -> forM l f s = forM k g s.
Proof.
  intros H Hfg. revert s. induction H as [|x y l k Hxy _ IH]; intros s; [done|]. cbn [forM]. unfold bind.
  rewrite (Hfg x y s Hxy). by destruct (g y s) as [[[]|?|] s1].
Qed.

(** One comparison with the greatest index stands for all of them. *)
Lemma forM_below count fs e s : Forall (fun x => x <= e) fs -> (fs = [] \/ e ∈ fs) ->
  forM fs (fun f => mrequire (f <? count) ErrUnknownFunc) s =
  mrequire (negb (negb (length fs =? 0)%nat && (count <=? e))) ErrUnknownFunc s.
Proof.
  intros Hle Hin. destruct Hin as [->|Hin]; [done|].
  assert (Hn : (length fs =? 0)%nat = false) by (destruct fs; [by apply elem_of_nil in Hin|done]).
  rewrite Hn. cbn [negb andb]. destruct (Z.leb_spec count e) as [H|H]; cbn [negb].
  - clear Hle Hn. induction fs as [|x fs IH]; [by apply elem_of_nil in Hin|]. cbn [forM].
    destruct (Z.ltb_spec x count) as [Hx|Hx]; [|done]. apply elem_of_cons in Hin as [->|Hin]; [lia|].
    unfold bind. cbn [mrequire ret]. by apply IH.
  - clear Hin Hn. induction Hle as [|x fs Hx _ IH]; [done|]. cbn [forM].
    destruct (Z.ltb_spec x count); [|lia]. unfold bind. cbn [mrequire ret]. apply IH.
Qed.

(** ** The sections *)

Section Sections.
Context (v : moduleValidator) (d : directValidationEnv).
Local Abbreviation v1 := (with_direct (Some d) v).
Local Abbreviation v2 := (with_direct None v).
Hypothesis Ha : aligned (vm v) d.

Lemma aligned_elemRefType i : ms.elemRefType v1 i = ms.elemRefType v2 i.
Proof.
  unfold ms.elemRefType. cbn [vdirect vm with_direct]. pose proof (al_elems _ _ Ha) as H.
  destruct (Elements (vm v) !! Z.to_nat i) as [e|] eqn:E.
  - destruct (Forall2_lookup_l _ _ _ _ _ H E) as (de & -> & Hs). cbn [fmap option_fmap option_map].
    destruct (se_header _ _ Hs) as (_ & _ & -> & ->). done.
  - apply lookup_ge_None in E. rewrite (Forall2_length _ _ _ H) in E. apply lookup_ge_None in E. by rewrite E.
Qed.

Lemma aligned_elemCount : ms.elemCount v1 = ms.elemCount v2.
Proof. unfold ms.elemCount. cbn [vdirect vm with_direct]. by rewrite (Forall2_length _ _ _ (al_elems _ _ Ha)). Qed.

Lemma constDirect_same body want limit s :
  mm.validateConstExprDirectWithGlobalLimit v1 body want limit s =
  mm.validateConstExprDirectWithGlobalLimit v2 body want limit s.
Proof. apply constDirect_env; [exact aligned_elemRefType|exact aligned_elemCount]. Qed.

(** An expression given as bytes. *)
Lemma constExpr_same body want limit s : body <> [] ->
  mm.validateConstExprDirectWithGlobalLimit v1 body want limit s =
  mm.validateConstExprWithGlobalLimit v2 (directExpr body) want limit s.
Proof.
  intros Hb. rewrite constDirect_same. unfold mm.validateConstExprWithGlobalLimit. cbn [BodyBytes directExpr].
  by destruct body.
Qed.

Lemma validateTable_same i t s : Tables (vm v) !! i = Some t ->
  mm.validateTable v1 (Z.of_nat i) t s = mm.validateTable v2 (Z.of_nat i) t s.
Proof.
  intros Ht. pose proof (al_tables _ _ Ha i t Ht) as H. unfold mm.validateTable.
  change (mm.validateTableType v1) with (mm.validateTableType v2).
  change (mm.importedGlobals v1) with (mm.importedGlobals v2).
  apply bind_ext. intros [] s1 _. cbn [vdirect with_direct]. unfold mm.directHasInit. rewrite Nat2Z.id.
  destruct (tableHasInit d !! i) as [[]|]; cbn [from_option id]; [|by rewrite H..].
  destruct H as (b & -> & Hb & ->). unfold bind. by rewrite (constExpr_same b _ _ s1 Hb).
Qed.

Lemma validateGlobal_same i g s : Globals (vm v) !! i = Some g ->
  mm.validateGlobal v1 (Z.of_nat i) g s = mm.validateGlobal v2 (Z.of_nat i) g s.
Proof.
  intros Hg. destruct (al_globals _ _ Ha i g Hg) as (b & Eb & Hb & Eg). unfold mm.validateGlobal.
  change (mm.validateGlobalType v1) with (mm.validateGlobalType v2).
  change (mm.importedGlobals v1) with (mm.importedGlobals v2).
  apply bind_ext. intros [] s1 _. cbn [vdirect with_direct]. rewrite Nat2Z.id, Eb, Eg. by apply constExpr_same.
Qed.

(** The entries of a segment of expressions. *)
Lemma exprs_same bodies want s : Forall (fun b => b <> []) bodies ->
  forM bodies (fun b => mm.validateConstExprDirect v1 b want) s =
  forM (map directExpr bodies) (fun ex => mm.validateConstExpr v2 ex want) s.
Proof.
  intros H. rewrite forM_map. apply forM_ext. intros b s1 Hb. apply constExpr_same.
  by apply (proj1 (Forall_forall _ _) H).
Qed.

Lemma validateElem_same e de s : same_elem e de -> mm.validateDirectElem v1 de s = mm.validateElem v2 e s.
Proof.
  intros [(Em & Et & Ek & Er) Ho Hf [Hmax (_ & Hno & Hhas)] Hx Hb].
  unfold mm.validateDirectElem, mm.validateElem. rewrite Em, Et.
  assert (Hp : mm.validateDirectElemPayload v1 de s = mm.validateElemPayload v2 e s).
  { unfold mm.validateDirectElemPayload, mm.validateElemPayload. rewrite Ek, Er.
    destruct (Z.eqb_spec (deKind de) ElemFuncs) as [E|_].
    - rewrite (Hf E). unfold bind. change (mm.funcCount v2) with (mm.funcCount v1).
      rewrite (forM_below _ _ (deMaxFunc de)) by (done || (destruct (deHasFuncs de); [right|left]; auto)).
      replace (negb (length (deFuncs de) =? 0)%nat) with (deHasFuncs de); [done|].
      destruct (deHasFuncs de); [|by rewrite Hno]. specialize (Hhas eq_refl).
      destruct (deFuncs de); [by apply elem_of_nil in Hhas|done].
    - destruct (deKind de =? ElemFuncExprs); cbn [orb] in Hx.
      { rewrite (Hx eq_refl). unfold bind. by rewrite exprs_same. }
      destruct (deKind de =? ElemTypedExprs); [|done]. rewrite (Hx eq_refl).
      change (mt.validateRefType v1) with (mt.validateRefType v2). apply bind_ext. intros [] s1 _.
      unfold bind. by rewrite exprs_same. }
  unfold bind. rewrite Hp. destruct (mm.validateElemPayload v2 e s) as [[ref|?|] s1]; [|done..].
  destruct (Z.eqb_spec (deMode de) ElemActive) as [E|_]; [|done]. destruct (Ho E) as [-> Hne].
  unfold mm.validateActive. change (ms.tableType v1) with (ms.tableType v2).
  destruct (ms.tableType v2 (deTable de)) as [tab|]; [|done]. unfold bind.
  unfold mm.validateConstExprDirect, mm.validateConstExpr. change (mm.allGlobals v1) with (mm.allGlobals v2).
  by rewrite constExpr_same.
Qed.

Lemma validateData_same x s : x ∈ Data_ (vm v) -> mm.validateData v1 x s = mm.validateData v2 x s.
Proof.
  intros Hx. pose proof (proj1 (Forall_forall _ _) (al_data _ _ Ha) x Hx) as Hb. unfold mm.validateData.
  destruct (Z.eqb_spec (DMKind (DMode x)) DataActive) as [E|_]; [|done]. specialize (Hb E).
  change (ms.memoryProperties v1) with (ms.memoryProperties v2).
  destruct (ms.memoryProperties v2 _) as [flags|]; [|done]. cbn [vdirect with_direct]. cbv zeta.
  destruct (BodyBytes (DMOffset (DMode x))) as [|b rest] eqn:Eb; [done|]. cbn [length Nat.eqb negb mrequire].
  unfold bind at 1, ret at 1. unfold mm.validateConstExprDirect, mm.validateConstExpr.
  change (mm.allGlobals v1) with (mm.allGlobals v2). rewrite constDirect_same.
  unfold mm.validateConstExprWithGlobalLimit. by rewrite Eb.
Qed.

Lemma validateExports_same seen exports s : mm.validateExports v1 seen exports s = mm.validateExports v2 seen exports s.
Proof.
  revert seen s. induction exports as [|ex rest IH]; intros seen s; [done|]. cbn [mm.validateExports].
  destruct (decide _); [done|]. change (mm.validExternIdx v1) with (mm.validExternIdx v2).
  apply bind_ext. intros [] s1 _. apply IH.
Qed.

Lemma validateSections_same s : mm.validateSections v1 s = mm.validateSections v2 s.
Proof.
  unfold mm.validateSections. cbn [vm with_direct].
  apply bind_ext. intros [] s1 _. apply bind_ext. intros [] s2 _.
  apply bind_ext_l; [apply indexed_ext; intros; by apply validateTable_same|intros [] s3].
  apply bind_ext. intros [] s4 _. apply bind_ext. intros [] s5 _.
  apply bind_ext_l; [apply indexed_ext; intros; by apply validateGlobal_same|intros [] s6].
  apply bind_ext_l; [apply validateExports_same|intros [] s7].
  apply bind_ext. intros [] s8 _.
  apply bind_ext_l.
  { unfold mm.validateElements. cbn [vdirect vm with_direct]. symmetry.
    apply (forM_forall2 same_elem); [apply (al_elems _ _ Ha)|]. intros x y s9 Hxy. symmetry. by apply validateElem_same. }
  intros [] s9. apply bind_ext_l; [apply forM_ext; intros; by apply validateData_same|done].
Qed.
End Sections.

(** ** The module *)

(** The same outcome, with the record back in the validator. *)
Definition redirect (d : directValidationEnv) (o : outcome error moduleValidator * fvState)
  : outcome error moduleValidator * fvState :=
  match o with
  | (Ok v, s) => (Ok (with_direct (Some d) v), s)
  | (Err e, s) => (Err e, s)
  | (Panic, s) => (Panic, s)
  end.

Lemma with_direct_none v : vdirect v = None -> with_direct None v = v.
Proof. destruct v. cbn. by intros ->. Qed.

Section Whole.
Context (v : moduleValidator) (d : directValidationEnv).
Local Abbreviation v1 := (with_direct (Some d) v).
Local Abbreviation v2 := (with_direct None v).

Lemma metadata_same s : tv.validateSubtypeMetadata v1 s = redirect d (tv.validateSubtypeMetadata v2 s).
Proof.
  unfold tv.validateSubtypeMetadata. cbv zeta. cbn [vm with_direct].
  change (tv.validateFlatType v1) with (tv.validateFlatType v2).
  change (tv.hasSuper v1) with (tv.hasSuper v2). change (tv.visitAll v1) with (tv.visitAll v2).
  change (tv.wantsAncestry v1) with (tv.wantsAncestry v2).
  change (tv.buildSupertypeAncestry v1) with (tv.buildSupertypeAncestry v2).
  unfold bind. destruct (forM _ _ s) as [[[]|?|] s1]; [|done..].
  destruct (negb _); [done|]. destruct (tv.visitAll v2 _) as [[[]|?|] [? deep]]; [|done..].
  destruct (tv.wantsAncestry v2 deep); [|done]. by destruct (tv.buildSupertypeAncestry v2).
Qed.
End Whole.

Lemma bind_redirect {A} d (c : V A) (k k' : A -> V moduleValidator) s :
  (forall a s', c s = (Ok a, s') -> k a s' = redirect d (k' a s')) -> bind c k s = redirect d (bind c k' s).
Proof. intros H. unfold bind. destruct (c s) as [[a|?|] s1]; [by apply H|done..]. Qed.

Lemma validateModule_same v d s : aligned (vm v) d ->
  mm.validateModule (with_direct (Some d) v) s = redirect d (mm.validateModule (with_direct None v) s).
Proof.
  intros Ha. unfold mm.validateModule. cbn [vm with_direct features].
  change (mm.collectDeclaredFuncs (with_direct (Some d) v)) with (mm.collectDeclaredFuncs (with_direct None v)).
  do 2 (apply bind_redirect; intros [] ? _).
  destruct (mm.collectDeclaredFuncs (with_direct None v)) as [bits|]; [|done]. cbv zeta.
  set (v0 := mm.with_declared v bits).
  change (mm.with_declared (with_direct (Some d) v) bits) with (with_direct (Some d) v0).
  change (mm.with_declared (with_direct None v) bits) with (with_direct None v0).
  change (tv.validateTypes (with_direct (Some d) v0)) with (tv.validateTypes (with_direct None v0)).
  apply bind_redirect. intros [] s1 _. unfold bind at 1. rewrite metadata_same. unfold bind at 2.
  destruct (tv.validateSubtypeMetadata (with_direct None v0) s1) as [[v'|?|] s2] eqn:E; [|done..]. cbn [redirect].
  apply metadata_module in E as [Em En]. cbn [vm vdirect with_direct] in Em, En.
  unfold bind. rewrite validateSections_same by (by rewrite Em). rewrite (with_direct_none v' En).
  by destruct (mm.validateSections v' s2) as [[[]|?|] s3].
Qed.

Lemma serialPhase_same v d : aligned (vm v) d ->
  mm.serialPhase (with_direct (Some d) v) = mm.serialPhase (with_direct None v).
Proof.
  intros Ha. unfold mm.serialPhase, mm.validateFunctionsSerial.
  change (mm.widthsOf (with_direct (Some d) v)) with (mm.widthsOf (with_direct None v)).
  rewrite (forM_ext _ (sd.validateFunction (with_direct (Some d) v) (mm.widthsOf (with_direct None v)))
    (sd.validateFunction (with_direct None v) (mm.widthsOf (with_direct None v)))); [reflexivity|].
  intros i s _. apply validateFunction_env; [by apply aligned_elemRefType|by apply aligned_elemCount].
Qed.

Lemma validateModuleWith_same m d f l : aligned m d ->
  mm.validateModuleWith mm.serialPhase (Some m) (Some d) f l = mm.validateModuleWith mm.serialPhase (Some m) None f l.
Proof.
  intros Ha. unfold mm.validateModuleWith. cbv zeta. destruct (_ <? _); [done|]. destruct (_ <? _); [done|].
  set (v := mm.newValidator m None f (mm.effectiveLimits l)).
  change (mm.newValidator m (Some d) f (mm.effectiveLimits l)) with (with_direct (Some d) v).
  rewrite (validateModule_same v d) by done. rewrite with_direct_none by done.
  destruct (mm.validateModule v zeroState) as [[v'|?|] s] eqn:E; [|done..]. cbn [redirect fst].
  apply validateModule_module in E as [Em En]. rewrite serialPhase_same by (by rewrite Em).
  by rewrite with_direct_none.
Qed.
