(* ===== verification/FrontEnd.v ===== *)
(** * From bytes to a verdict

    The decoder and the validator composed: what the decoder establishes is what
    the validator relies on, so that every byte string gets a verdict, and the two
    ways to validate a decoded module agree. *)

From stdpp Require Import base tactics numbers list gmap.
From Stdlib Require Import ZArith Lia.
From S2P Require Import Prelude Reader ReaderLaws Types Decode DecodeLaws Kinds Instr Module ModuleDecode.
From S2P Require Import ModuleSafe DecodeTotal TypeEquiv Subtyping Validator Step Streaming StreamLaws.
From S2P Require Import TypeValid ModuleValid SuperLaws ModuleTotal DirectEquiv.
Local Open Scope Z_scope.

(** ** What a decoded module is *)

Lemma mark_supers_typed base types :
  0 <= base -> Forall rec_decoded types ->
  Forall (fun rt => Forall (fun st => Forall (fun sup => 0 <= Index sup) (Supers st)) (SubTypes rt))
    (markRecursiveTypeIndexes_from base types).
Proof.
  intros Hb H. revert base Hb. induction H as [|rt rest Hrt _ IH]; intros base Hb; [apply Forall_nil_2|].
  cbn [markRecursiveTypeIndexes_from]. cbv zeta. apply Forall_cons_2; [|apply IH, Z.mod_pos_bound; lia].
  cbn [SubTypes]. apply Forall_map. eapply Forall_impl; [exact Hrt|]. intros st [Hs _ _ _]. cbn [Supers markRecursiveSubTypeIndexes].
  apply Forall_map. eapply Forall_impl; [exact Hs|]. intros sup [[H0 _] _]. unfold markRecursiveTypeIdx, compose.
  destruct (_ || _) eqn:E; [done|]. apply orb_false_iff in E as [E _]. apply orb_false_iff in E as [_ E].
  apply Z.ltb_ge in E. cbn [Index]. lia.
Qed.

Lemma wf_supers_typed d : module_wf d -> supers_typed (dm d).
Proof.
  intros Hd. destruct (wf_types _ Hd) as (ts & E & Ht & _). unfold supers_typed. rewrite E.
  by apply mark_supers_typed.
Qed.

Section Decoded.
Context (d0 : directModule).
Hypothesis Hd : module_wf d0.
Local Abbreviation d := (populateCodeBodies d0).
Local Abbreviation env := (direct_ d0).

Lemma populated_table i t : Tables (dm d) !! i = Some t ->
  match tableHasInit env !! i with
  | Some true => exists b, tableInits env !! i = Some b /\ const_bytes b /\ TInit t = Some (directExpr b)
  | _ => TInit t = None
  end.
Proof.
  cbn. rewrite list_lookup_imap. intros H. destruct (Tables (dm d0) !! i) as [t0|] eqn:E; [|done].
  injection H as <-. destruct (wf_consts _ Hd) as [Ht Hp _ _ _ _]. specialize (Hp i t0 E). unfold populateTable.
  destruct (tableHasInit env !! i) as [[]|] eqn:Eh; [|by apply Hp..].
  destruct (Forall2_lookup_l _ _ _ _ _ Ht Eh) as (b & -> & Hb). exists b. split; [done|]. split; [by apply Hb|done].
Qed.

Lemma populated_global i g : Globals (dm d) !! i = Some g ->
  exists b, globalInits env !! i = Some b /\ const_bytes b /\ GInit g = directExpr b.
Proof.
  cbn. rewrite list_lookup_imap. intros H. destruct (Globals (dm d0) !! i) as [g0|] eqn:E; [|done].
  injection H as <-. destruct (wf_env _ Hd) as (_ & _ & Hlen & _). unfold populateGlobal.
  destruct (lookup_lt_is_Some_2 (globalInits env) i) as [b Eb]; [rewrite Hlen; by eapply lookup_lt_Some|].
  rewrite Eb. exists b. split; [done|]. split; [|done]. exact (Forall_lookup_1 _ _ _ _ (cw_globals _ (wf_consts _ Hd)) Eb).
Qed.

Lemma populated_elem i e : Elements (dm d) !! i = Some e ->
  exists de, elements env !! i = Some de /\ same_elem e de /\ elem_consts de.
Proof.
  cbn. rewrite list_lookup_imap. intros H. destruct (Elements (dm d0) !! i) as [e0|] eqn:E; [|done].
  injection H as <-. destruct (wf_consts _ Hd) as [_ _ _ Hc Hh _].
  destruct (Forall2_lookup_l _ _ _ _ _ Hh E) as (de & Ede & Hs). exists de. split; [done|].
  pose proof (Forall_lookup_1 _ _ _ _ Hc Ede) as Hcd. split; [|done]. unfold populateElem. rewrite Ede.
  split; cbn [EMode EElems EMOffset EKFuncs EKExprs].
  - exact Hs.
  - intros Ea. rewrite Ea. cbn. split; [done|]. by apply Hcd.
  - by intros ->.
  - exact (Forall_lookup_1 _ _ _ _ (wf_elems _ Hd) Ede).
  - by intros ->.
  - eapply Forall_impl; [apply Hcd|]. by intros b [_ Hb].
Qed.

Lemma decoded_aligned : aligned (dm d) env.
Proof.
  split.
  - intros i t Ht. pose proof (populated_table i t Ht) as H. destruct (tableHasInit env !! i) as [[]|]; [|done..].
    destruct H as (b & ? & [_ ?] & ?). by exists b.
  - intros i g Hg. destruct (populated_global i g Hg) as (b & ? & [_ ?] & ?). by exists b.
  - apply Forall2_same_length_lookup_2.
    + destruct (wf_env _ Hd) as (_ & _ & _ & ->). cbn. apply length_imap.
    + intros i e de He Hde. destruct (populated_elem i e He) as (de' & Hde' & Hs & _).
      rewrite Hde in Hde'. by injection Hde' as ->.
  - cbn. eapply Forall_impl; [exact (cw_data _ (wf_consts _ Hd))|]. intros x H Ea. by apply H.
Qed.

Lemma decoded_bytes direct : direct = None \/ direct = Some env -> module_bytes (dm d) direct.
Proof.
  intros Hdirect. split.
  - apply wf_supers_typed, populate_wf, Hd.
  - cbn. eapply Forall_impl; [exact (wf_code _ Hd)|]. intros f [_ _ (Hb & _)]. exact Hb.
  - apply Forall_lookup_2. intros i t Ht e He. pose proof (populated_table i t Ht) as H.
    destruct (tableHasInit env !! i) as [[]|]; [|by rewrite H in He..].
    destruct H as (b & _ & [Hb _] & Eb). rewrite Eb in He. by injection He as <-.
  - apply Forall_lookup_2. intros i g Hg. destruct (populated_global i g Hg) as (b & _ & [Hb _] & ->). exact Hb.
  - apply Forall_lookup_2. intros i e He. destruct (populated_elem i e He) as (de & _ & Hs & Hc).
    destruct (se_header _ _ Hs) as (Em & _ & Ek & _). split.
    + intros Ea. rewrite Em in Ea. destruct (se_offset _ _ Hs Ea) as [-> _]. by apply Hc.
    + rewrite Ek. intros Hk. rewrite (se_exprs _ _ Hs Hk). apply Forall_map. eapply Forall_impl; [apply Hc|].
      by intros b [Hb _].
  - cbn. eapply Forall_impl; [exact (cw_data _ (wf_consts _ Hd))|]. intros x H Ea. by apply H.
  - intros d' E. destruct Hdirect as [->| ->]; [done|]. injection E as <-.
    destruct (wf_consts _ Hd) as [Ht _ Hg He _ _]. split; [|split].
    + intros i Hi. destruct (Forall2_lookup_l _ _ _ _ _ Ht Hi) as (b & Eb & Hb). exists b. split; [done|]. by apply Hb.
    + eapply Forall_impl; [exact Hg|]. by intros b [Hb _].
    + eapply Forall_impl; [exact He|]. intros de [Ho Hx]. split; [intros Ea; by apply Ho|].
      eapply Forall_impl; [exact Hx|]. by intros b [Hb _].
Qed.
End Decoded.

(** The results of the decoder are of this form. *)
Lemma decoded_form data multi limits defer d :
  bytes_ok data -> limits_ok limits -> decodeAndPopulate data multi limits defer = Ok d ->
  exists d0, module_wf d0 /\ d = populateCodeBodies d0.
Proof.
  intros Hb Hl H. unfold decodeAndPopulate in H. pose proof (decode_safe data multi limits defer Hb Hl) as Hs.
  destruct (decodeDirectModuleInnerLimitsMode data multi limits defer) as [d0|?|]; [|done..]. cbv zeta in H.
  destruct (validateBranchHints _); [|done..]. injection H as <-. exists d0. split; [apply Hs|done].
Qed.

Lemma zeroLimits_ok : limits_ok zeroLimits.
Proof. split; simpl; lia. Qed.

Lemma decoded_validates data multi limits defer d f l :
  bytes_ok data -> limits_ok limits -> decodeAndPopulate data multi limits defer = Ok d ->
  verdict (mm.validateDecodedByteBackedModule (Some d) f l) /\
  mm.validateDecodedByteBackedModule (Some d) f l = mm.validateModuleWith mm.serialPhase (Some (dm d)) None f l.
Proof.
  intros Hb Hl H. destruct (decoded_form _ _ _ _ _ Hb Hl H) as (d0 & Hd & ->).
  unfold mm.validateDecodedByteBackedModule. split.
  - apply verdict_iff, validateModuleWith_returns, (decoded_bytes d0 Hd). by right.
  - apply validateModuleWith_same. exact (decoded_aligned d0 Hd).
Qed.

(** ** The properties *)

(** C1: every byte string gets a verdict.  Decoding and validating a binary, under any
    features and limits, ends with success or an error: no index out of range and no
    endless loop in the decoder, the type section, the search for supertype cycles,
    the numbering of the supertype forest, the constant expressions or the function
    bodies. *)
Theorem front_end_total data f l :
  bytes_ok data -> verdict (mm.validateByteBackedModule data f l).
Proof.
  intros Hb. unfold mm.validateByteBackedModule, DecodeModuleByteBackedWithLimits.
  pose proof (decodeAndPopulate_safe data (MultiMemory f) zeroLimits false Hb zeroLimits_ok) as Hs.
  destruct (decodeAndPopulate data (MultiMemory f) zeroLimits false) as [d|e|] eqn:E; [|right; by exists e|done].
  by apply (decoded_validates _ _ _ _ _ f l Hb zeroLimits_ok E).
Qed.

(** C8: the two ways to validate a decoded module agree.  Validation that reads the
    initializers from the side record of the decoder gives the verdict, error included,
    of validation that reads them from the module alone; so [ValidateModule] on the
    module of a decoded binary and the byte-backed validation of that binary are the
    same check. *)
Theorem direct_is_module_validation data multi limits defer d f l :
  bytes_ok data -> limits_ok limits -> decodeAndPopulate data multi limits defer = Ok d ->
  mm.validateDecodedByteBackedModule (Some d) f l = mm.validateModuleWith mm.serialPhase (Some (dm d)) None f l /\
  mm.validateDecodedByteBackedModule (Some d) f mm.defaultValidationLimits = mm.ValidateModuleWithFeatures (Some (dm d)) f.
Proof. intros Hb Hl H. split; by apply (decoded_validates data multi limits defer). Qed.

(** ** Witnesses *)

(** [(module (type (func (param i32) (result i32))) (table 1 funcref) (memory 1)
      (global i32 (i32.const 7)) (elem (i32.const 0) func 0) (data (i32.const 3) bytes)
      (func (type 0) local.get 0 global.get 0 i32.add))] *)
Definition full_module : list Z :=
  [0; 97; 115; 109; 1; 0; 0; 0;  1; 6; 1; 0x60; 1; 0x7f; 1; 0x7f;  3; 2; 1; 0;  4; 4; 1; 0x70; 0; 1;
   5; 3; 1; 0; 1;  6; 6; 1; 0x7f; 0; 0x41; 7; 0x0b;  9; 7; 1; 0; 0x41; 0; 0x0b; 1; 0;
   10; 9; 1; 7; 0; 0x20; 0; 0x23; 0; 0x6a; 0x0b;  11; 8; 1; 0; 0x41; 3; 0x0b; 2; 5; 6].

Lemma full_module_bytes : bytes_ok full_module.
Proof. unfold full_module. repeat (apply Forall_cons_2; [unfold byte_ok; lia|]). apply Forall_nil_2. Qed.

Example full_module_accepted : mm.ValidateByteBackedModule full_module = Ok tt.
Proof. vm_compute. reflexivity. Qed.

(** The module with [f32.const] for the offset of its data segment. *)
Example bad_offset_rejected :
  mm.ValidateByteBackedModule
    (take 59 full_module ++ [11; 10; 1; 0; 0x43; 0; 0; 0; 0; 0x0b; 1; 5]) = Err (validation_error ErrTypeMismatch (-1)).
Proof. vm_compute. reflexivity. Qed.

Lemma front_end_total_witness : verdict (mm.ValidateByteBackedModule full_module) /\
  mm.ValidateByteBackedModule full_module = Ok tt.
Proof.
  split; [|vm_compute; reflexivity].
  exact (front_end_total full_module mm.noFeatures mm.defaultValidationLimits full_module_bytes).
Defined.

Lemma direct_is_module_validation_witness :
  exists d, decodeAndPopulate full_module true zeroLimits false = Ok d /\ length (elements (direct_ d)) = 1%nat /\
    mm.ValidateModuleWithFeatures (Some (dm d)) mm.noFeatures = Ok tt.
Proof.
  assert (E : match decodeAndPopulate full_module true zeroLimits false with
              | Ok d => length (elements (direct_ d)) = 1%nat /\
                  mm.validateDecodedByteBackedModule (Some d) mm.noFeatures mm.defaultValidationLimits = Ok tt
              | _ => False end) by (vm_compute; split; reflexivity).
  pose proof (fun d => direct_is_module_validation full_module true zeroLimits false d mm.noFeatures
    mm.defaultValidationLimits full_module_bytes zeroLimits_ok) as H.
  destruct (decodeAndPopulate full_module true zeroLimits false) as [d|?|]; [|destruct E|destruct E].
  exists d. split; [reflexivity|]. destruct E as [E1 E2]. split; [exact E1|].
  destruct (H d eq_refl) as [_ H2]. rewrite <- H2. exact E2.
Defined.
