(* ===== verification/Sha256.v ===== *)
(** * SHA-256

    [crypto/sha256] of the Go standard library, as far as the front end uses it:
    [Sum256], and a hash fed in two writes.  Words are integers below 2^32, the
    message a list of bytes. *)

From stdpp Require Import base tactics numbers list.
From Stdlib Require Import ZArith Lia.
From S2P Require Import Prelude.
Local Open Scope Z_scope.

Module sha256.

Definition add32 (x y : Z) : Z := to_u32 (x + y).
Definition rotr (n x : Z) : Z := Z.lor (Z.shiftr x n) (to_u32 (Z.shiftl x (32 - n))).
Definition not32 (x : Z) : Z := Z.lxor x (2 ^ 32 - 1).

Definition ch (x y z : Z) : Z := Z.lxor (Z.land x y) (Z.land (not32 x) z).
Definition maj (x y z : Z) : Z := Z.lxor (Z.land x y) (Z.lxor (Z.land x z) (Z.land y z)).
Definition Sigma0 (x : Z) : Z := Z.lxor (rotr 2 x) (Z.lxor (rotr 13 x) (rotr 22 x)).
Definition Sigma1 (x : Z) : Z := Z.lxor (rotr 6 x) (Z.lxor (rotr 11 x) (rotr 25 x)).
Definition sigma0 (x : Z) : Z := Z.lxor (rotr 7 x) (Z.lxor (rotr 18 x) (Z.shiftr x 3)).
Definition sigma1 (x : Z) : Z := Z.lxor (rotr 17 x) (Z.lxor (rotr 19 x) (Z.shiftr x 10)).

(** The constants are the first 32 bits of the fractional parts of the cube and square
    roots of the first primes. *)
Definition primes : list Z :=
  filter (fun n => forallb (fun d => negb (n mod d =? 0)) (seqZ 2 (n - 2)) = true) (seqZ 2 310).

(** [floor (n ^ (1 / k))] below [2 ^ bits]. *)
Definition root (k bits n : Z) : Z :=
  foldr (fun b r => if (r + 2 ^ b) ^ k <=? n then r + 2 ^ b else r) 0 (seqZ 0 bits).

Definition fraction (k p : Z) : Z := to_u32 (root k 40 (p * 2 ^ (32 * k))).

Definition K : list Z := Eval vm_compute in map (fraction 3) primes.

(** The eight working variables. *)
Record block : Set := { va : Z; vb : Z; vc : Z; vd : Z; ve : Z; vf : Z; vg : Z; vh : Z }.

Definition init : block := Eval vm_compute in
  {| va := fraction 2 2; vb := fraction 2 3; vc := fraction 2 5; vd := fraction 2 7;
     ve := fraction 2 11; vf := fraction 2 13; vg := fraction 2 17; vh := fraction 2 19 |}.

Definition add_block (x y : block) : block :=
  {| va := add32 (va x) (va y); vb := add32 (vb x) (vb y); vc := add32 (vc x) (vc y); vd := add32 (vd x) (vd y);
     ve := add32 (ve x) (ve y); vf := add32 (vf x) (vf y); vg := add32 (vg x) (vg y); vh := add32 (vh x) (vh y) |}.

(** ** The message *)

Definition be32 (x : Z) : list Z :=
  [to_u8 (Z.shiftr x 24); to_u8 (Z.shiftr x 16); to_u8 (Z.shiftr x 8); to_u8 x].

Definition from_be32 (l : list Z) : Z := foldl (fun acc b => acc * 256 + b) 0 l.

(** A one bit, zeros up to a multiple of 64 bytes, and the length in bits. *)
Definition pad (msg : list Z) : list Z :=
  let n := Z.of_nat (length msg) in
  let bits := to_u64 (8 * n) in
  msg ++ 0x80 :: replicate (Z.to_nat ((55 - n) mod 64)) 0 ++ be32 (Z.shiftr bits 32) ++ be32 (to_u32 bits).

Fixpoint words (l : list Z) : list Z :=
  match l with
  | a :: b :: c :: d :: rest => from_be32 [a; b; c; d] :: words rest
  | _ => []
  end.

(** The message schedule, last word first. *)
Fixpoint schedule (n : nat) (w : list Z) : list Z :=
  match n with
  | O => w
  | S n' =>
      let at_ i := nth i w 0 in
      schedule n' (add32 (add32 (sigma1 (at_ 1%nat)) (at_ 6%nat)) (add32 (sigma0 (at_ 14%nat)) (at_ 15%nat)) :: w)
  end.

Definition round (s : block) (kw : Z * Z) : block :=
  let t1 := add32 (add32 (vh s) (Sigma1 (ve s))) (add32 (ch (ve s) (vf s) (vg s)) (add32 (fst kw) (snd kw))) in
  let t2 := add32 (Sigma0 (va s)) (maj (va s) (vb s) (vc s)) in
  {| va := add32 t1 t2; vb := va s; vc := vb s; vd := vc s;
     ve := add32 (vd s) t1; vf := ve s; vg := vf s; vh := vg s |}.

Definition compress (s : block) (w16 : list Z) : block :=
  let w := rev (schedule 48 (rev w16)) in add_block s (foldl round s (combine K w)).

Fixpoint blocks (fuel : nat) (s : block) (w : list Z) : block :=
  match fuel with
  | O => s
  | S fuel' => if (length w <? 16)%nat then s else blocks fuel' (compress s (take 16 w)) (drop 16 w)
  end.

(** [sha256.Sum256] *)
Definition Sum256 (msg : list Z) : list Z :=
  let w := words (pad msg) in
  let s := blocks (length w) init w in
  concat (map be32 [va s; vb s; vc s; vd s; ve s; vf s; vg s; vh s]).

Lemma Sum256_length msg : length (Sum256 msg) = 32%nat.
Proof. reflexivity. Qed.

Lemma Sum256_bytes msg : bytes_ok (Sum256 msg).
Proof.
  unfold Sum256. set (l := map be32 _). assert (H : Forall bytes_ok l).
  { apply Forall_map, Forall_forall. intros x _. unfold compose, be32.
    repeat (apply Forall_cons_2; [apply Z.mod_pos_bound; lia|]). apply Forall_nil_2. }
  clearbody l. induction H as [|x l Hx _ IH]; [apply Forall_nil_2|]. simpl. by apply Forall_app_2.
Qed.
End sha256.

(** ** Test vectors of FIPS 180-4 *)

(** [binary.LittleEndian.Uint64(digest[:8])] *)
Definition le_uint64 (l : list Z) : Z := foldr (fun b acc => b + 256 * acc) 0 (take 8 l).

Example sha256_abc : sha256.Sum256 [0x61; 0x62; 0x63] =
  [0xba; 0x78; 0x16; 0xbf; 0x8f; 0x01; 0xcf; 0xea; 0x41; 0x41; 0x40; 0xde; 0x5d; 0xae; 0x22; 0x23;
   0xb0; 0x03; 0x61; 0xa3; 0x96; 0x17; 0x7a; 0x9c; 0xb4; 0x10; 0xff; 0x61; 0xf2; 0x00; 0x15; 0xad].
Proof. vm_compute. reflexivity. Qed.

Example sha256_empty : take 4 (sha256.Sum256 []) = [0xe3; 0xb0; 0xc4; 0x42].
Proof. vm_compute. reflexivity. Qed.

(** Three blocks. *)
Example sha256_long : take 4 (sha256.Sum256 (replicate 119 0x61)) = [0x31; 0xeb; 0xa5; 0x1c].
Proof. vm_compute. reflexivity. Qed.
