(* ===== verification/Structural.v ===== *)
(** * Structural type identity (structural_type_id.go, module_helpers.go)

    The key that native calls compare to recognise a function type across modules.
    A recursive group is serialized member by member: references into the group by
    position, references to earlier groups by the digest of the member they mean.
    The work is bounded, digests of groups are shared between the queries of a
    module, and keys are cached. *)

From stdpp Require Import base tactics numbers list gmap.
From Stdlib Require Import ZArith Lia.
From S2P Require Import Prelude Types Module Sha256.
Local Open Scope Z_scope.

(** [binary.LittleEndian.AppendUint32] *)
Definition le32 (x : Z) : list Z :=
  [to_u8 x; to_u8 (Z.shiftr x 8); to_u8 (Z.shiftr x 16); to_u8 (Z.shiftr x 24)].

Definition digest : Set := list Z.

(** The local maps of [writeStructuralIndexedFuncType], its budget, and the digests
    of groups it shares with other queries. *)
Record skState : Set := {
  groupBytes : gmap nat (list Z);
  memberDigests : gmap Z digest;
  visiting : gset nat;
  budget : Z;
  groupDigests : gmap nat digest
}.

Definition set_groupBytes f s := {| groupBytes := f (groupBytes s); memberDigests := memberDigests s;
  visiting := visiting s; budget := budget s; groupDigests := groupDigests s |}.
Definition set_memberDigests f s := {| groupBytes := groupBytes s; memberDigests := f (memberDigests s);
  visiting := visiting s; budget := budget s; groupDigests := groupDigests s |}.
Definition set_visiting f s := {| groupBytes := groupBytes s; memberDigests := memberDigests s;
  visiting := f (visiting s); budget := budget s; groupDigests := groupDigests s |}.
Definition set_budget f s := {| groupBytes := groupBytes s; memberDigests := memberDigests s;
  visiting := visiting s; budget := f (budget s); groupDigests := groupDigests s |}.
Definition set_groupDigests f s := {| groupBytes := groupBytes s; memberDigests := memberDigests s;
  visiting := visiting s; budget := budget s; groupDigests := f (groupDigests s) |}.

(** Failure is the boolean [false]. *)
Definition SK (A : Type) : Type := M skState unit A.
Definition no {A} : SK A := fail tt.

Definition maxEncoding : Z := 2 ^ 20.

Module sk.

(** [structuralEncodingBudget] *)
Definition appendByte (dst : list Z) (b : Z) : SK (list Z) :=
  modify (set_budget (Z.add 1)) ;;;
  let! s := get in
  if maxEncoding <? budget s then no else ret (dst ++ [b]).

Definition appendU32 (dst : list Z) (value : Z) : SK (list Z) :=
  let! s := get in
  if maxEncoding - 4 <? budget s then no
  else modify (set_budget (Z.add 4)) ;;; ret (dst ++ le32 value).

Definition appendBytes (dst : list Z) (l : list Z) : SK (list Z) := foldM l appendByte dst.

(** [structuralGroupMemberDigest] and [structuralGroupMemberKey] *)
Definition memberInput (groupSize member : Z) : list Z := 0xf3 :: le32 groupSize ++ le32 member.

Definition structuralGroupMemberDigest (groupDigest : digest) (groupSize member : Z) : digest :=
  sha256.Sum256 (memberInput groupSize member ++ groupDigest).

Definition structuralGroupMemberKey (groupDigest : digest) (groupSize member : Z) : Z :=
  le_uint64 (structuralGroupMemberDigest groupDigest groupSize member).

Definition flag (b : bool) : Z := if b then 1 else 0.

Section Write.
Context (m : Module_) (compactKey : bool).

Definition flatCount : Z := Z.of_nat (length (typeIndex_flat m)).
Definition groupSize (g : nat) : Z := from_option (fun rt => Z.of_nat (length (SubTypes rt))) 0 (Types_ m !! g).
Definition groupBase (g : nat) : Z := from_option id 0 (typeIndex_bases m !! g).

Definition resolveType (idx : TypeIdx) (currentGroup : nat) : option Z :=
  if negb (Rec idx) then if flatCount <=? Index idx then None else Some (Index idx)
  else
    match Types_ m !! currentGroup with
    | None => None
    | Some g =>
        if to_u32 (Z.of_nat (length (SubTypes g))) <=? Index idx then None
        else Some (groupBase currentGroup + Index idx)
    end.

Section Group.
(** [memberDigest], for the groups a reference leads to. *)
Context (memberDigest : Z -> SK digest).

Definition writeRef (dst : list Z) (idx : TypeIdx) (currentGroup : nat) : SK (list Z) :=
  match resolveType idx currentGroup with
  | None => no
  | Some resolved =>
      match (if (resolved <? 0) || (flatCount <=? resolved) then None
             else typeIndex_flat m !! Z.to_nat resolved) with
      | None => no
      | Some (_, targetGroup) =>
          if (targetGroup =? currentGroup)%nat then
            let! dst := appendByte dst 0xf2 in appendU32 dst (to_u32 (resolved - groupBase targetGroup))
          else
            let! d := memberDigest (to_u32 resolved) in
            let! dst := appendByte dst 0xf4 in appendBytes dst d
      end
  end.

Definition writeHeap (dst : list Z) (heap : HeapType) (currentGroup : nat) : SK (list Z) :=
  let! dst := appendByte dst (to_u8 (HeapType_Kind heap)) in
  if HeapType_Kind heap =? HeapAbs then appendByte dst (to_u8 (HeapType_Abs heap))
  else if HeapType_Kind heap =? HeapTypeIndex then writeRef dst (HeapType_Type heap) currentGroup
  else if HeapType_Kind heap =? HeapDefType then
    let '(group, member, _, valid) := HeapType_Def heap in
    if negb valid || (Z.of_nat (length (typeIndex_bases m)) - 1 <=? group)
       || (groupSize (Z.to_nat group) <=? member) then no
    else writeRef dst {| Index := to_u32 (to_u32 (groupBase (Z.to_nat group)) + member); Rec := false |} currentGroup
  else no.

Definition writeValue (dst : list Z) (value : ValType) (currentGroup : nat) : SK (list Z) :=
  let! dst := appendByte dst (to_u8 (ValType_Kind value)) in
  if ValType_Kind value =? ValNum then appendByte dst (to_u8 (ValType_Num value))
  else if (ValType_Kind value =? ValVec) || (ValType_Kind value =? ValBot) then ret dst
  else if ValType_Kind value =? ValRef then
    let rt := ValType_Ref value in
    let! dst := appendByte dst (flag (RefType_Nullable rt)) in
    let! dst := appendByte dst (flag (RefType_Exact rt)) in
    writeHeap dst (RefType_Heap rt) currentGroup
  else no.

Definition writeField (dst : list Z) (field : FieldType) (currentGroup : nat) : SK (list Z) :=
  let storage := FieldType_Storage field in
  let! dst :=
    (if StorageType_Packed storage then
       let! dst := appendByte dst 1 in appendByte dst (to_u8 (StorageType_Pack storage))
     else
       let! dst := appendByte dst 0 in writeValue dst (StorageType_Val storage) currentGroup) in
  appendByte dst (to_u8 (FieldType_Mut field)).

(** A counted list. *)
Definition writeList {A} (write : list Z -> A -> SK (list Z)) (dst : list Z) (l : list A) : SK (list Z) :=
  let! dst := appendU32 dst (to_u32 (Z.of_nat (length l))) in foldM l write dst.

Definition writeOptional (currentGroup : nat) (dst : list Z) (metadata : OptionalTypeIdx) : SK (list Z) :=
  let (idx, present) := OptionalTypeIdx_Get metadata in
  if negb present then appendByte dst 0
  else let! dst := appendByte dst 1 in writeRef dst idx currentGroup.

Definition writeComp (dst : list Z) (ct : CompType) (group : nat) : SK (list Z) :=
  let! dst := appendByte dst (to_u8 (CKind ct)) in
  if CKind ct =? CompFunc then
    let! dst := writeList (fun dst t => writeValue dst t group) dst (Params ct) in
    writeList (fun dst t => writeValue dst t group) dst (Results ct)
  else if CKind ct =? CompStruct then writeList (fun dst f => writeField dst f group) dst (Fields ct)
  else if CKind ct =? CompArray then writeField dst (Array ct) group
  else no.

(** One member of a group. *)
Definition writeMember (group : nat) (dst : list Z) (st : SubType) : SK (list Z) :=
  let! dst := appendByte dst 0xf1 in
  let! dst := appendByte dst (flag (Final st)) in
  let! dst := writeList (fun dst sup => writeRef dst sup group) dst (Supers st) in
  let! dst := foldM [Describes (Metadata st); Descriptor (Metadata st)] (writeOptional group) dst in
  writeComp dst (Comp st) group.

(** [buildGroup] *)
Definition buildGroup (group : nat) : SK (list Z) :=
  let! s := get in
  match groupBytes s !! group with
  | Some encoded => ret encoded
  | None =>
      match Types_ m !! group with
      | None => no
      | Some g =>
          if decide (group ∈ visiting s) then no
          else
            modify (set_visiting (fun v => {[group]} ∪ v)) ;;;
            let! encoded := appendU32 [] (to_u32 (Z.of_nat (length (SubTypes g)))) in
            let! encoded := foldM (SubTypes g) (writeMember group) encoded in
            modify (set_groupBytes (insert group encoded)) ;;;
            modify (set_visiting (fun v => v ∖ {[group]})) ;;;
            ret encoded
      end
  end.

(** [ensureGroupDigest] *)
Definition ensureGroupDigest (group : nat) : SK digest :=
  let! s := get in
  match (if compactKey then groupDigests s !! group else None) with
  | Some d => ret d
  | None =>
      let! encoded := buildGroup group in
      let d := sha256.Sum256 encoded in
      (if compactKey then modify (set_groupDigests (insert group d)) else ret tt) ;;; ret d
  end.
End Group.

(** [memberDigest]; running out of fuel is a panic. *)
Fixpoint memberDigest (fuel : nat) (index : Z) : SK digest :=
  match fuel with
  | O => panic
  | S fuel' =>
      let! s := get in
      match memberDigests s !! index with
      | Some d => ret d
      | None =>
          match (if flatCount <=? index then None else typeIndex_flat m !! Z.to_nat index) with
          | None => no
          | Some (_, group) =>
              let member := to_u32 (index - to_u32 (groupBase group)) in
              let! d :=
                (if compactKey then
                   let! groupDigest := ensureGroupDigest (memberDigest fuel') group in
                   ret (structuralGroupMemberDigest groupDigest (to_u32 (groupSize group)) member)
                 else
                   let! encoded := buildGroup (memberDigest fuel') group in
                   ret (sha256.Sum256 (memberInput (to_u32 (groupSize group)) member ++ encoded))) in
              modify (set_memberDigests (insert index d)) ;;; ret d
          end
      end
  end.

(** Every nested call enters a group that is not being visited. *)
Definition digestFuel : nat := S (S (length (Types_ m))).

Definition start (digests : gmap nat digest) : skState :=
  {| groupBytes := ∅; memberDigests := ∅; visiting := ∅; budget := 0; groupDigests := digests |}.

(** [writeStructuralIndexedFuncType]: the bytes passed to [mix]. *)
Definition writeStructuralIndexedFuncType (typeIdx : Z) : SK (list Z) :=
  match (if flatCount <=? typeIdx then None else typeIndex_flat m !! Z.to_nat typeIdx) with
  | None => no
  | Some (_, group) =>
      match typeFunc m {| Index := typeIdx; Rec := false |} with
      | None => no
      | Some _ =>
          if compactKey then memberDigest digestFuel typeIdx
          else
            let! encoded := buildGroup (memberDigest digestFuel) group in
            ret (memberInput (to_u32 (groupSize group)) (to_u32 (typeIdx - to_u32 (groupBase group))) ++ encoded)
      end
  end.
End Write.

(** ** Keys and their cache *)

(** [structuralTypeKeyCache] of a module that does not change. *)
Record keyCache : Set := { keys : gmap Z (Z * bool); cachedDigests : gmap nat digest }.

Definition emptyCache : keyCache := {| keys := ∅; cachedDigests := ∅ |}.

Definition cacheKey (typeIdx : Z) (result : Z * bool) (c : keyCache) : keyCache :=
  {| keys := <[typeIdx := result]> (keys c); cachedDigests := cachedDigests c |}.

Section Keys.
Context (m : Module_).

(** [structuralIndexedFuncTypeKey]; [None] is a panic. *)
Definition structuralIndexedFuncTypeKey (typeIdx : Z) (c : keyCache) : option (Z * bool) * keyCache :=
  match keys c !! typeIdx with
  | Some result => (Some result, c)
  | None =>
      let shared :=
        match (if flatCount m <=? typeIdx then None else typeIndex_flat m !! Z.to_nat typeIdx) with
        | Some (st, group) =>
            if CKind (Comp st) =? CompFunc
            then (fun d => structuralGroupMemberKey d (groupSize m group) (to_u32 (typeIdx - groupBase m group)))
                   <$> cachedDigests c !! group
            else None
        | None => None
        end in
      match shared with
      | Some key => (Some (key, true), cacheKey typeIdx (key, true) c)
      | None =>
          let (o, s) := writeStructuralIndexedFuncType m true typeIdx (start (cachedDigests c)) in
          let c := {| keys := keys c; cachedDigests := groupDigests s |} in
          match o with
          | Ok canonical =>
              let result := if (length canonical =? 32)%nat then (le_uint64 canonical, true) else (0, false) in
              (Some result, cacheKey typeIdx result c)
          | Err _ => (Some (0, false), cacheKey typeIdx (0, false) c)
          | Panic => (None, c)
          end
      end
  end.

(** [compTypeHasIndexedReferences] *)
Definition compTypeHasIndexedReferences (ft : CompType) : bool :=
  existsb (fun v => (ValType_Kind v =? ValRef) && negb (HeapType_Kind (RefType_Heap (ValType_Ref v)) =? HeapAbs))
    (Params ft ++ Results ft).

Definition typeInNonSingletonRecGroup (typeIdx : Z) : bool :=
  match subtypeByTypeIdxWithRecGroup m {| Index := typeIdx; Rec := false |} with
  | Some (_, group) => 1 <? groupSize m group
  | None => false
  end.

(** [StructuralFuncTypeKey] *)
Definition writePlainValue (t : ValType) : list Z :=
  to_u8 (ValType_Kind t) ::
  (if ValType_Kind t =? ValNum then [to_u8 (ValType_Num t)]
   else if ValType_Kind t =? ValRef then
     let rt := ValType_Ref t in
     [Z.lor (flag (RefType_Nullable rt)) (if RefType_Exact rt then 2 else 0);
      to_u8 (HeapType_Kind (RefType_Heap rt)); to_u8 (HeapType_Abs (RefType_Heap rt))]
   else []).

Definition plainEncoding (ft : CompType) : list Z :=
  le32 (to_u32 (Z.of_nat (length (Params ft)))) ++ concat (map writePlainValue (Params ft)) ++
  0xfe :: le32 (to_u32 (Z.of_nat (length (Results ft)))) ++ concat (map writePlainValue (Results ft)).

Definition StructuralFuncTypeKey (ft : CompType) : Z := le_uint64 (sha256.Sum256 (plainEncoding ft)).

(** [StructuralTypeKeyChecked] *)
Definition StructuralTypeKeyChecked (typeIdx : Z) (c : keyCache) : option (Z * bool) * keyCache :=
  match typeFunc m {| Index := typeIdx; Rec := false |}, subtypeByTypeIdx m {| Index := typeIdx; Rec := false |} with
  | Some ft, Some sub =>
      if compTypeHasIndexedReferences ft || typeInNonSingletonRecGroup typeIdx || negb (Final sub)
         || negb (length (Supers sub) =? 0)%nat || OptionalTypeIdx_Present (Describes (Metadata sub))
         || OptionalTypeIdx_Present (Descriptor (Metadata sub))
      then structuralIndexedFuncTypeKey typeIdx c
      else (Some (StructuralFuncTypeKey ft, true), c)
  | _, _ => (Some (0, false), c)
  end.

(** A sequence of queries. *)
Fixpoint queries (l : list Z) (c : keyCache) : list (option (Z * bool)) * keyCache :=
  match l with
  | [] => ([], c)
  | typeIdx :: rest =>
      let (r, c1) := StructuralTypeKeyChecked typeIdx c in
      let (rs, c2) := queries rest c1 in (r :: rs, c2)
  end.

(** ** The 32-bit id of diagnostics *)

(** FNV-1a *)
Definition fnv (bytes : list Z) : Z :=
  foldl (fun h b => to_u32 (Z.lxor h b * 16777619)) 2166136261 bytes.

Definition structuralIndexedFuncTypeID (typeIdx : Z) : option Z :=
  match fst (writeStructuralIndexedFuncType m false typeIdx (start ∅)) with Ok bytes => Some (fnv bytes) | _ => None end.

Definition structuralLegacyValTypeByte (t : ValType) : Z :=
  if ValType_Kind t =? ValNum then to_u8 (ValType_Num t)
  else if ValType_Kind t =? ValVec then 0x7b
  else if ValType_Kind t =? ValRef then
    let rt := ValType_Ref t in
    if RefType_Nullable rt && negb (RefType_Exact rt) && (HeapType_Kind (RefType_Heap rt) =? HeapAbs)
    then to_u8 (HeapType_Abs (RefType_Heap rt)) else 0
  else 0.

Definition StructuralFuncTypeID (ft : CompType) : Z :=
  fnv (to_u8 (Z.of_nat (length (Params ft))) :: map structuralLegacyValTypeByte (Params ft) ++
       0xfe :: to_u8 (Z.of_nat (length (Results ft))) :: map structuralLegacyValTypeByte (Results ft)).

Definition StructuralTypeID (typeIdx : Z) : Z :=
  match typeFunc m {| Index := typeIdx; Rec := false |} with
  | None => typeIdx
  | Some ft =>
      match (if compTypeHasIndexedReferences ft || typeInNonSingletonRecGroup typeIdx
             then structuralIndexedFuncTypeID typeIdx else None) with
      | Some id => id
      | None => StructuralFuncTypeID ft
      end
  end.
End Keys.
End sk.
