(* ===== verification/StructuralLaws.v ===== *)
(** * What the serializer of types writes

    On the types of an accepted module, [Structural] computes a plain function: the
    encoding of a group, in which a reference to another group is the digest of the
    member it means.  The caches change nothing, the search never meets a group it
    is already writing, and it fails only when the encodings of all groups together
    exceed the budget. *)

From stdpp Require Import base tactics numbers list gmap.
From Stdlib Require Import ZArith Lia.
From S2P Require Import Prelude Reader ReaderLaws Types Module Sha256 Structural.
Local Open Scope Z_scope.

(** ** Groups and flattened types *)

Lemma type_flat_split base group types g gr j st :
  types !! g = Some gr -> SubTypes gr !! j = Some st ->
  exists b, type_bases base types !! g = Some (base + b) /\ 0 <= b /\
    type_flat group types !! (Z.to_nat b + j)%nat = Some (st, (group + g)%nat).
Proof.
  revert base group g. induction types as [|rt rest IH]; intros base group g Hg Hj; [done|].
  destruct g as [|g]; cbn [lookup list_lookup] in Hg.
  - injection Hg as ->. exists 0. split; [simpl; f_equal; lia|]. split; [lia|]. simpl.
    rewrite lookup_app_l by (rewrite length_map; by eapply lookup_lt_Some).
    rewrite list_lookup_fmap, Hj. simpl. by rewrite Nat.add_0_r.
  - destruct (IH (base + Z.of_nat (length (SubTypes rt))) (S group) g Hg Hj) as (b & Hb & Hb0 & Hf).
    exists (Z.of_nat (length (SubTypes rt)) + b). split; [simpl; rewrite Hb; f_equal; lia|]. split; [lia|]. simpl.
    rewrite lookup_app_r by (rewrite length_map; lia). rewrite length_map.
    replace (Z.to_nat (Z.of_nat (length (SubTypes rt)) + b) + j - length (SubTypes rt))%nat
      with (Z.to_nat b + j)%nat by lia. rewrite Hf. f_equal. f_equal. lia.
Qed.

(** A later group starts where the earlier ones end. *)
Lemma type_bases_mono base types g h bg bh gr :
  type_bases base types !! g = Some bg -> type_bases base types !! h = Some bh -> types !! g = Some gr ->
  (g < h)%nat -> bg + Z.of_nat (length (SubTypes gr)) <= bh.
Proof.
  revert base g h. induction types as [|rt rest IH]; intros base g h Hg Hh Hgr Hlt; [done|].
  destruct g as [|g], h as [|h]; try lia; cbn [type_bases lookup list_lookup] in *.
  - injection Hg as <-. injection Hgr as ->.
    assert (H : forall types b h bh, type_bases b types !! h = Some bh -> b <= bh).
    { clear. induction types as [|x l IHl]; intros b h bh H; destruct h; simpl in H; try (injection H as <-; lia); [done|].
      apply IHl in H. lia. }
    by apply (H rest _ h).
  - by eapply (IH _ g h); [..|lia].
Qed.

Lemma type_bases_lookup base types g : (g <= length types)%nat -> exists b, type_bases base types !! g = Some b.
Proof.
  revert base g. induction types as [|rt rest IH]; intros base [|g] H; simpl in *; try (by eexists); [lia|].
  apply IH. lia.
Qed.

Section Scoped.
Context (m : Module_).
Local Abbreviation flat := (typeIndex_flat m).
Local Abbreviation groups := (length (Types_ m)).
Local Abbreviation size := (sk.groupSize m).
Local Abbreviation base := (sk.groupBase m).

Lemma flat_member_at g gr j st :
  Types_ m !! g = Some gr -> SubTypes gr !! j = Some st ->
  0 <= base g /\ flat !! (Z.to_nat (base g) + j)%nat = Some (st, g).
Proof.
  intros Hg Hj. destruct (type_flat_split 0 0 _ g gr j st Hg Hj) as (b & Hb & Hb0 & Hf).
  unfold sk.groupBase, typeIndex_bases. rewrite Hb. cbn. done.
Qed.

Lemma flat_inside k st g : flat !! k = Some (st, g) ->
  exists gr j, Types_ m !! g = Some gr /\ SubTypes gr !! j = Some st /\ Z.of_nat k = base g + Z.of_nat j /\
    0 <= base g /\ Z.of_nat j < size g.
Proof.
  unfold typeIndex_flat, sk.groupBase, sk.groupSize, typeIndex_bases. intros H.
  assert (Hgen : forall types b group k st g, type_flat group types !! k = Some (st, g) ->
    (group <= g)%nat /\ exists gr j, types !! (g - group)%nat = Some gr /\ SubTypes gr !! j = Some st /\
      exists c, type_bases b types !! (g - group)%nat = Some (b + c) /\ 0 <= c /\ Z.of_nat k = c + Z.of_nat j).
  { clear. induction types as [|rt rest IH]; intros b group k st g H; [done|]. simpl in H.
    apply lookup_app_Some in H as [H|[Hle H]].
    - rewrite list_lookup_fmap in H. destruct (SubTypes rt !! k) as [s|] eqn:Es; [|done]. injection H as -> <-.
      split; [done|]. rewrite Nat.sub_diag. exists rt, k. split; [done|]. split; [done|]. exists 0.
      split; [simpl; f_equal; lia|lia].
    - rewrite length_map in H, Hle. destruct (IH (b + Z.of_nat (length (SubTypes rt))) _ _ _ _ H)
        as (Hg & gr & j & H1 & H2 & c & H3 & H4 & H5). split; [lia|]. exists gr, j.
      replace (g - group)%nat with (S (g - S group)) by lia. split; [done|]. split; [done|].
      exists (Z.of_nat (length (SubTypes rt)) + c). split; [simpl; rewrite H3; f_equal; lia|lia]. }
  destruct (Hgen _ 0 _ _ _ _ H) as (_ & gr & j & H1 & H2 & c & H3 & H4 & H5). rewrite Nat.sub_0_r in *.
  exists gr, j. rewrite H1, H3. cbn. split; [done|]. split; [done|]. split; [lia|]. split; [lia|].
  apply lookup_lt_Some in H2. lia.
Qed.

Lemma flat_earlier k st g h : flat !! k = Some (st, g) -> (h < groups)%nat -> Z.of_nat k < base h -> (g < h)%nat.
Proof.
  intros Hk Hh Hlt. destruct (flat_inside k st g Hk) as (gr & j & Hg & Hj & E & Hb & Hs).
  destruct (decide (g < h)%nat) as [|Hge]; [done|]. exfalso.
  assert (base h <= base g).
  { destruct (decide (g = h)) as [->|Hne]; [done|]. unfold sk.groupBase, typeIndex_bases in *.
    destruct (lookup_lt_is_Some_2 (Types_ m) h Hh) as [grh Hgrh].
    destruct (type_bases_lookup 0 (Types_ m) h ltac:(lia)) as [bh Ebh].
    destruct (type_bases_lookup 0 (Types_ m) g) as [bg Ebg]; [apply lookup_lt_Some in Hg; lia|].
    pose proof (type_bases_mono _ _ h g bh bg grh Ebh Ebg Hgrh ltac:(lia)). rewrite Ebh, Ebg. cbn. lia. }
  lia.
Qed.

(** ** Types whose references are in scope *)

(** A relative index is inside its group, another one before it. *)
Definition idx_scoped (g : nat) (i : TypeIdx) : Prop :=
  0 <= Index i /\ if Rec i then Index i < size g else Index i < base g.

Definition val_scoped (g : nat) (v : ValType) : Prop :=
  ValType_Kind v = ValNum \/
  (ValType_Kind v = ValVec /\ ValType_Num v = 0) \/
  (ValType_Kind v = ValRef /\ ValType_Num v = 0 /\
   (HeapType_Kind (RefType_Heap (ValType_Ref v)) = HeapAbs \/
    (HeapType_Kind (RefType_Heap (ValType_Ref v)) = HeapTypeIndex /\
     idx_scoped g (HeapType_Type (RefType_Heap (ValType_Ref v)))))).

Definition field_scoped (g : nat) (f : FieldType) : Prop :=
  StorageType_Packed (FieldType_Storage f) = true \/
  (StorageType_Packed (FieldType_Storage f) = false /\ StorageType_Pack (FieldType_Storage f) = 0 /\
   val_scoped g (StorageType_Val (FieldType_Storage f))).

Definition comp_scoped (g : nat) (ct : CompType) : Prop :=
  (CKind ct = CompFunc /\ (short (Params ct) /\ Forall (val_scoped g) (Params ct)) /\
     short (Results ct) /\ Forall (val_scoped g) (Results ct)) \/
  (CKind ct = CompStruct /\ short (Fields ct) /\ Forall (field_scoped g) (Fields ct)) \/
  (CKind ct = CompArray /\ field_scoped g (Array ct)).

Definition optional_scoped (g : nat) (o : OptionalTypeIdx) : Prop :=
  let (idx, present) := OptionalTypeIdx_Get o in present = true -> idx_scoped g idx.

Record member_scoped (g : nat) (st : SubType) : Prop := {
  ms_supers : short (Supers st) /\ Forall (idx_scoped g) (Supers st);
  ms_describes : optional_scoped g (Describes (Metadata st));
  ms_descriptor : optional_scoped g (Descriptor (Metadata st));
  ms_comp : comp_scoped g (Comp st)
}.

Record module_scoped : Prop := {
  sc_flat : Z.of_nat (length flat) < 2 ^ 32;
  sc_groups : forall g gr, Types_ m !! g = Some gr -> Forall (member_scoped g) (SubTypes gr)
}.

(** ** The encoding *)

Section Encode.
Context (mdig : Z -> digest).

Definition encRef (i : TypeIdx) : list Z := if Rec i then 0xf2 :: le32 (Index i) else 0xf4 :: mdig (Index i).

Definition encHeap (h : HeapType) : list Z :=
  to_u8 (HeapType_Kind h) ::
  (if HeapType_Kind h =? HeapAbs then [to_u8 (HeapType_Abs h)] else encRef (HeapType_Type h)).

Definition encVal (v : ValType) : list Z :=
  to_u8 (ValType_Kind v) ::
  (if ValType_Kind v =? ValNum then [to_u8 (ValType_Num v)]
   else if ValType_Kind v =? ValVec then []
   else [sk.flag (RefType_Nullable (ValType_Ref v)); sk.flag (RefType_Exact (ValType_Ref v))] ++
        encHeap (RefType_Heap (ValType_Ref v))).

Definition encField (f : FieldType) : list Z :=
  (if StorageType_Packed (FieldType_Storage f) then [1; to_u8 (StorageType_Pack (FieldType_Storage f))]
   else 0 :: encVal (StorageType_Val (FieldType_Storage f))) ++ [to_u8 (FieldType_Mut f)].

Definition encList {A} (enc : A -> list Z) (l : list A) : list Z :=
  le32 (to_u32 (Z.of_nat (length l))) ++ concat (map enc l).

Definition encOptional (o : OptionalTypeIdx) : list Z :=
  let (idx, present) := OptionalTypeIdx_Get o in if present then 1 :: encRef idx else [0].

Definition encComp (ct : CompType) : list Z :=
  to_u8 (CKind ct) ::
  (if CKind ct =? CompFunc then encList encVal (Params ct) ++ encList encVal (Results ct)
   else if CKind ct =? CompStruct then encList encField (Fields ct)
   else encField (Array ct)).

Definition encMember (st : SubType) : list Z :=
  [0xf1; sk.flag (Final st)] ++ encList encRef (Supers st) ++
  encOptional (Describes (Metadata st)) ++ encOptional (Descriptor (Metadata st)) ++ encComp (Comp st).

Definition encGroup (gr : RecType) : list Z := encList encMember (SubTypes gr).
End Encode.

(** The digest of a member, from the encodings of the groups. *)
Definition digestOf (genc : nat -> list Z) (i : Z) : digest :=
  match flat !! Z.to_nat i with
  | Some (_, g) => sk.structuralGroupMemberDigest (sha256.Sum256 (genc g)) (size g) (i - base g)
  | None => []
  end.

(** The encoding of a group; only earlier groups are read. *)
Fixpoint groupEncoding (fuel : nat) (g : nat) : list Z :=
  match fuel with
  | O => []
  | S fuel' => from_option (encGroup (digestOf (groupEncoding fuel'))) [] (Types_ m !! g)
  end.

Definition genc (g : nat) : list Z := groupEncoding (S g) g.
Definition mdig (i : Z) : digest := digestOf genc i.

(** Encodings read the digests of earlier groups only. *)
Section Ext.
Context (d d' : Z -> digest) (g : nat).
Hypothesis Hd : forall i, 0 <= i < base g -> d i = d' i.

Lemma encRef_ext i : idx_scoped g i -> encRef d i = encRef d' i.
Proof. intros [H0 H]. unfold encRef. destruct (Rec i); [done|]. by rewrite Hd. Qed.

Lemma encVal_ext v : val_scoped g v -> encVal d v = encVal d' v.
Proof.
  unfold encVal, encHeap. intros [-> |[[-> _]|(-> & _ & [-> |[-> H]])]]; try done. cbn. by rewrite (encRef_ext _ H).
Qed.

Lemma encField_ext f : field_scoped g f -> encField d f = encField d' f.
Proof. unfold encField. intros [-> |(-> & _ & H)]; [done|]. by rewrite (encVal_ext _ H). Qed.

Lemma encList_ext {A} (P : A -> Prop) (e e' : A -> list Z) l :
  (forall x, P x -> e x = e' x) -> Forall P l -> encList e l = encList e' l.
Proof.
  intros He H. unfold encList. f_equal. f_equal. induction H as [|x l Hx _ IH]; [done|]. simpl. by rewrite IH, He.
Qed.

Lemma encOptional_ext o : optional_scoped g o -> encOptional d o = encOptional d' o.
Proof.
  unfold encOptional, optional_scoped. destruct (OptionalTypeIdx_Get o) as [i []]; [|done]. intros H.
  by rewrite (encRef_ext _ (H eq_refl)).
Qed.

Lemma encComp_ext ct : comp_scoped g ct -> encComp d ct = encComp d' ct.
Proof.
  unfold encComp. intros [(-> & [_ H1] & _ & H2)|[(-> & _ & H1)|(-> & H1)]]; cbn [Z.eqb Pos.eqb CompFunc CompStruct CompArray]; f_equal.
  - by rewrite (encList_ext (val_scoped g) (encVal d) (encVal d') (Params ct)),
      (encList_ext (val_scoped g) (encVal d) (encVal d') (Results ct)) by (done || apply encVal_ext).
  - by rewrite (encList_ext (field_scoped g) (encField d) (encField d')) by (done || apply encField_ext).
  - by apply encField_ext.
Qed.

Lemma encMember_ext st : member_scoped g st -> encMember d st = encMember d' st.
Proof.
  intros [[_ H1] H2 H3 H4]. unfold encMember.
  rewrite (encList_ext (idx_scoped g) (encRef d) (encRef d')) by (done || apply encRef_ext).
  by rewrite (encOptional_ext _ H2), (encOptional_ext _ H3), (encComp_ext _ H4).
Qed.

Lemma encGroup_ext gr : Forall (member_scoped g) (SubTypes gr) -> encGroup d gr = encGroup d' gr.
Proof. intros H. unfold encGroup. apply (encList_ext (member_scoped g)); [apply encMember_ext|done]. Qed.
End Ext.

Section Equation.
Hypothesis Hm : module_scoped.

Lemma digestOf_ext e e' g i : (forall h, (h < g)%nat -> e h = e' h) -> (g < groups)%nat -> 0 <= i < base g ->
  digestOf e i = digestOf e' i.
Proof.
  intros He Hg Hi. unfold digestOf. destruct (flat !! Z.to_nat i) as [[st h]|] eqn:E; [|done].
  rewrite He; [done|]. apply (flat_earlier _ _ _ g E Hg). lia.
Qed.

Lemma groupEncoding_enough f f' g : (g < f)%nat -> (g < f')%nat -> groupEncoding f g = groupEncoding f' g.
Proof.
  revert f f'. induction (lt_wf g) as [g _ IH]. intros [|f] [|f'] Hf Hf'; try lia. cbn [groupEncoding].
  destruct (Types_ m !! g) as [gr|] eqn:E; [|cbn [from_option]; reflexivity]. cbn [from_option]. apply (encGroup_ext _ _ g); [|by apply (sc_groups Hm)].
  intros i Hi. apply (digestOf_ext _ _ g); [|by eapply lookup_lt_Some|done].
  intros h Hh. apply IH; lia.
Qed.

Lemma genc_unfold g gr : Types_ m !! g = Some gr -> genc g = encGroup mdig gr.
Proof.
  intros E. unfold genc at 1. cbn [groupEncoding]. rewrite E. cbn [from_option].
  apply (encGroup_ext (digestOf (groupEncoding g)) mdig g); [|by apply (sc_groups Hm)].
  intros i Hi. unfold mdig. apply (digestOf_ext (groupEncoding g) genc g); [|by eapply lookup_lt_Some|done].
  intros h Hh. apply groupEncoding_enough; lia.
Qed.
End Equation.
End Scoped.

(** ** Runs of the encoder *)

Section Run.
Context (m : Module_).
Hypothesis Hm : module_scoped m.
Local Abbreviation flat := (typeIndex_flat m).
Local Abbreviation groups := (length (Types_ m)).
Local Abbreviation size := (sk.groupSize m).
Local Abbreviation base := (sk.groupBase m).
Local Abbreviation genc := (genc m).
Local Abbreviation mdig := (mdig m).

(** ** Right caches *)

Definition digests_ok (ds : gmap nat digest) : Prop := forall g d, ds !! g = Some d -> d = sha256.Sum256 (genc g).

Record inv (s : skState) : Prop := {
  inv_groups : forall g b, groupBytes s !! g = Some b -> b = genc g;
  inv_members : forall i d, memberDigests s !! i = Some d -> d = mdig i;
  inv_digests : digests_ok (groupDigests s)
}.

(** ** The budget

    What is spent, with the encodings of the groups not started. *)

Definition started (s : skState) (g : nat) : bool :=
  bool_decide (g ∈ visiting s) || bool_decide (is_Some (groupBytes s !! g)).

Definition unstarted (s : skState) (g : nat) : Z := if started s g then 0 else Z.of_nat (length (genc g)).

Definition total (f : nat -> Z) : Z := foldr (fun g acc => f g + acc) 0 (seq 0 groups).

Definition due (s : skState) : Z := budget s + total (unstarted s).

Lemma total_ext f f' : (forall g, (g < groups)%nat -> f g = f' g) -> total f = total f'.
Proof.
  intros H. unfold total. assert (Hl : forall l, (forall g, g ∈ l -> f g = f' g) ->
    foldr (fun g acc => f g + acc) 0 l = foldr (fun g acc => f' g + acc) 0 l).
  { induction l as [|g l IH]; intros Hl; [done|]. simpl. rewrite (Hl g) by left. rewrite IH; [done|].
    intros h Hh. apply Hl. by right. }
  apply Hl. intros g Hg. apply H. apply elem_of_seq in Hg. lia.
Qed.

Lemma total_nonneg f : (forall g, 0 <= f g) -> 0 <= total f.
Proof. intros H. unfold total. induction (seq 0 groups) as [|g l IH]; simpl; [lia|]. specialize (H g). lia. Qed.

(** One group gets started. *)
Lemma total_start f f' k : (k < groups)%nat -> f' k = 0 -> (forall g, g <> k -> f' g = f g) ->
  total f' = total f - f k.
Proof.
  intros Hk H0 H. unfold total. assert (Hl : forall l, NoDup l -> k ∈ l ->
    foldr (fun g acc => f' g + acc) 0 l = foldr (fun g acc => f g + acc) 0 l - f k).
  { assert (Hsame : forall l, k ∉ l -> foldr (fun g acc => f' g + acc) 0 l = foldr (fun g acc => f g + acc) 0 l).
    { induction l as [|g l IH]; intros Hn; [done|]. apply not_elem_of_cons in Hn as [Hg Hn]. simpl.
      by rewrite H, IH by done. }
    induction l as [|g l IH]; intros Hd Hin; [by apply elem_of_nil in Hin|]. apply NoDup_cons in Hd as [Hg Hd].
    simpl. destruct (decide (g = k)) as [->|Hne].
    - rewrite Hsame, H0 by done. lia.
    - apply elem_of_cons in Hin as [->|Hin]; [done|]. rewrite IH, H by done. lia. }
  apply Hl; [apply NoDup_seq|]. apply elem_of_seq. lia.
Qed.

Lemma unstarted_nonneg s g : 0 <= unstarted s g.
Proof. unfold unstarted. destruct (started s g); lia. Qed.

Lemma budget_due s : budget s <= due s.
Proof. unfold due. pose proof (total_nonneg (unstarted s) (unstarted_nonneg s)). lia. Qed.

(** ** Runs *)

(** Groups being written are at or above [k]. *)
Definition above (k : nat) (s : skState) : Prop := forall h, h ∈ visiting s -> (k <= h)%nat.

(** [c] appends [bytes], while groups from [k] on are being written. *)
Definition writes (k : nat) (c : list Z -> SK (list Z)) (bytes : list Z) : Prop :=
  forall dst s, inv s -> above k s ->
    match c dst s with
    | (Ok dst', s') => dst' = dst ++ bytes /\ inv s' /\ visiting s' = visiting s /\
        due s' <= due s + Z.of_nat (length bytes)
    | (Err _, s') => inv s' /\ maxEncoding < due s + Z.of_nat (length bytes)
    | (Panic, _) => False
    end.

(** A computation that spends nothing of its own. *)
Definition finds {A} (k : nat) (c : SK A) (a : A) : Prop :=
  forall s, inv s -> above k s ->
    match c s with
    | (Ok a', s') => a' = a /\ inv s' /\ visiting s' = visiting s /\ due s' <= due s
    | (Err _, s') => inv s' /\ maxEncoding < due s
    | (Panic, _) => False
    end.

Lemma writes_nil k : writes k ret [].
Proof. intros dst s Hs Ha. simpl. rewrite app_nil_r. split; [done|]. split; [done|]. split; [done|lia]. Qed.

Lemma writes_bind k c1 c2 b1 b2 : writes k c1 b1 -> writes k c2 b2 ->
  writes k (fun dst => let! dst := c1 dst in c2 dst) (b1 ++ b2).
Proof.
  intros H1 H2 dst s Hs Ha. unfold bind. rewrite length_app. specialize (H1 dst s Hs Ha).
  destruct (c1 dst s) as [[d1|?|] s1]; [|split; [apply H1|lia]|done]. destruct H1 as (-> & Hs1 & Hv & Hd).
  specialize (H2 (dst ++ b1) s1 Hs1 ltac:(unfold above; by rewrite Hv)).
  destruct (c2 _ s1) as [[d2|?|] s2]; [|split; [apply H2|lia]|done]. destruct H2 as (-> & Hs2 & Hv2 & Hd2).
  split; [by rewrite app_assoc|]. split; [done|]. split; [congruence|lia].
Qed.

Lemma writes_ext k c c' b : (forall dst s, c dst s = c' dst s) -> writes k c' b -> writes k c b.
Proof. intros E H dst s Hs Ha. rewrite E. by apply H. Qed.

(** Looking something up first. *)
Lemma writes_find {A} k (c : SK A) a (f : A -> list Z -> SK (list Z)) b :
  finds k c a -> writes k (f a) b -> writes k (fun dst => let! x := c in f x dst) b.
Proof.
  intros Hc Hf dst s Hs Ha. unfold bind. specialize (Hc s Hs Ha).
  destruct (c s) as [[a'|?|] s1]; [|split; [apply Hc|lia]|done]. destruct Hc as (-> & Hs1 & Hv & Hd).
  specialize (Hf dst s1 Hs1 ltac:(unfold above; by rewrite Hv)).
  destruct (f a dst s1) as [[d2|?|] s2]; [|split; [apply Hf|lia]|done]. destruct Hf as (-> & Hs2 & Hv2 & Hd2).
  split; [done|]. split; [done|]. split; [congruence|lia].
Qed.

Lemma inv_budget f s : inv s -> inv (set_budget f s).
Proof. by intros [? ? ?]. Qed.

Lemma due_spend n s : due (set_budget (Z.add n) s) = due s + n.
Proof. unfold due. simpl. change (unstarted (set_budget (Z.add n) s)) with (unstarted s). lia. Qed.

Lemma writes_byte k b : writes k (fun dst => sk.appendByte dst b) [b].
Proof.
  intros dst s Hs Ha. unfold sk.appendByte, bind, modify, get. cbn [budget set_budget].
  pose proof (budget_due s). destruct (Z.ltb_spec maxEncoding (1 + budget s)).
  - split; [by apply inv_budget|]. simpl. lia.
  - simpl. split; [done|]. split; [by apply inv_budget|]. split; [done|]. rewrite due_spend. lia.
Qed.

Lemma writes_u32 k x : writes k (fun dst => sk.appendU32 dst x) (le32 x).
Proof.
  intros dst s Hs Ha. unfold sk.appendU32, bind, modify, get. pose proof (budget_due s).
  destruct (Z.ltb_spec (maxEncoding - 4) (budget s)).
  - split; [done|]. simpl. lia.
  - simpl. split; [done|]. split; [by apply inv_budget|]. split; [done|]. rewrite due_spend. lia.
Qed.

Lemma writes_fold {A} k (P : A -> Prop) (write : list Z -> A -> SK (list Z)) (enc : A -> list Z) l :
  (forall x, P x -> writes k (fun dst => write dst x) (enc x)) -> Forall P l ->
  writes k (foldM l write) (concat (map enc l)).
Proof.
  intros Hw H. induction H as [|x l Hx _ IH]; cbn [foldM map concat]; [apply writes_nil|].
  apply (writes_bind k (fun dst => write dst x)); [by apply Hw|done].
Qed.

Lemma writes_bytes k l : writes k (fun dst => sk.appendBytes dst l) l.
Proof.
  pose proof (writes_fold k (fun _ => True) sk.appendByte (fun b => [b]) l (fun b _ => writes_byte k b)
    ltac:(by apply Forall_true)) as H.
  assert (E : concat (map (fun b : Z => [b]) l) = l) by (clear; induction l; simpl; congruence).
  rewrite E in H. exact H.
Qed.

Lemma writes_list {A} k (P : A -> Prop) (write : list Z -> A -> SK (list Z)) (enc : A -> list Z) l :
  (forall x, P x -> writes k (fun dst => write dst x) (enc x)) -> Forall P l ->
  writes k (fun dst => sk.writeList write dst l) (encList enc l).
Proof. intros Hw H. apply writes_bind; [apply writes_u32|by eapply writes_fold]. Qed.

(** ** The parts of a member *)

Section Parts.
Context (g : nat) (gr : RecType) (md : Z -> SK digest).
Hypothesis Hg : Types_ m !! g = Some gr.
(** Digests of members of earlier groups. *)
Hypothesis Hmd : forall i, 0 <= i < base g -> finds g (md i) (mdig i).

Lemma size_small h gh : Types_ m !! h = Some gh -> 0 <= size h < 2 ^ 32.
Proof.
  intros E. unfold sk.groupSize. rewrite E. cbn [from_option]. split; [lia|].
  pose proof (sc_flat _ Hm) as H. destruct (SubTypes gh) as [|st rest] eqn:Es; [done|]. rewrite <- Es in *.
  destruct (lookup_lt_is_Some_2 (SubTypes gh) (length (SubTypes gh) - 1)) as [x Hx]; [rewrite Es; simpl; lia|].
  destruct (flat_member_at m h gh _ x E Hx) as [Hb Hf]. apply lookup_lt_Some in Hf. rewrite Es in Hf |- *. simpl in *. lia.
Qed.

Lemma base_bound h gh : Types_ m !! h = Some gh -> SubTypes gh <> [] -> 0 <= base h /\ base h + size h <= sk.flatCount m.
Proof.
  intros E Hne. destruct (lookup_lt_is_Some_2 (SubTypes gh) (length (SubTypes gh) - 1)) as [x Hx].
  { destruct (SubTypes gh); [done|simpl; lia]. }
  destruct (flat_member_at m h gh _ x E Hx) as [Hb Hf]. apply lookup_lt_Some in Hf. split; [done|].
  unfold sk.flatCount, sk.groupSize. rewrite E. cbn [from_option]. apply lookup_lt_Some in Hx. lia.
Qed.

Lemma resolve_rec i : idx_scoped m g i -> Rec i = true ->
  sk.resolveType m i g = Some (base g + Index i) /\
  exists st, flat !! Z.to_nat (base g + Index i) = Some (st, g) /\ 0 <= base g + Index i < sk.flatCount m.
Proof.
  intros [H0 Hi] Hr. rewrite Hr in Hi. pose proof (size_small g gr Hg) as Hs. unfold sk.resolveType.
  rewrite Hr, Hg. cbn [negb]. unfold sk.groupSize in *. rewrite Hg in *. cbn [from_option] in *.
  rewrite to_u32_small by lia. destruct (Z.leb_spec (Z.of_nat (length (SubTypes gr))) (Index i)); [lia|].
  split; [done|]. destruct (lookup_lt_is_Some_2 (SubTypes gr) (Z.to_nat (Index i)) ltac:(lia)) as [st Hst].
  destruct (flat_member_at m g gr _ st Hg Hst) as [Hb Hf]. exists st.
  replace (Z.to_nat (base g + Index i)) with (Z.to_nat (base g) + Z.to_nat (Index i))%nat by lia. split; [done|].
  apply lookup_lt_Some in Hf. unfold sk.flatCount. lia.
Qed.

Lemma writes_ref i : idx_scoped m g i -> SubTypes gr <> [] ->
  writes g (fun dst => sk.writeRef m md dst i g) (encRef mdig i).
Proof.
  intros Hi Hne. unfold sk.writeRef, encRef. destruct (Rec i) eqn:Er.
  - destruct (resolve_rec i Hi Er) as (-> & st & Hf & Hlo & Hhi).
    destruct (Z.ltb_spec (base g + Index i) 0); [lia|]. destruct (Z.leb_spec (sk.flatCount m) (base g + Index i)); [lia|].
    cbn [orb]. rewrite Hf, Nat.eqb_refl. replace (base g + Index i - base g) with (Index i) by lia.
    rewrite to_u32_small.
    2: { destruct Hi as [? Hi]. rewrite Er in Hi. pose proof (size_small g gr Hg). lia. }
    apply (writes_bind g (fun dst => sk.appendByte dst 0xf2) (fun dst => sk.appendU32 dst (Index i)) [0xf2]);
      [apply writes_byte|apply writes_u32].
  - destruct Hi as [H0 Hi]. rewrite Er in Hi. destruct (base_bound g gr Hg Hne) as [_ Hb].
    pose proof (size_small g gr Hg). pose proof (sc_flat _ Hm).
    assert (E : (sk.flatCount m <=? Index i) = false) by (apply Z.leb_gt; lia).
    unfold sk.resolveType. rewrite Er. cbn [negb]. rewrite E.
    destruct (Z.ltb_spec (Index i) 0); [lia|]. cbn [orb]. rewrite E.
    destruct (lookup_lt_is_Some_2 flat (Z.to_nat (Index i))) as [[st h] Hf]; [unfold sk.flatCount in *; lia|].
    rewrite Hf. pose proof (flat_earlier m _ st h g Hf ltac:(by eapply lookup_lt_Some) ltac:(lia)).
    destruct (Nat.eqb_spec h g); [lia|]. rewrite to_u32_small by (unfold sk.flatCount in *; lia).
    apply (writes_find g (md (Index i)) (mdig (Index i))
      (fun d dst => let! dst := sk.appendByte dst 0xf4 in sk.appendBytes dst d)); [by apply Hmd|].
    apply (writes_bind g (fun dst => sk.appendByte dst 0xf4) (fun dst => sk.appendBytes dst (mdig (Index i))) [0xf4]);
      [apply writes_byte|apply writes_bytes].
Qed.

Hypothesis Hne : SubTypes gr <> [].

Lemma writes_heap h : HeapType_Kind h = HeapAbs \/ (HeapType_Kind h = HeapTypeIndex /\ idx_scoped m g (HeapType_Type h)) ->
  writes g (fun dst => sk.writeHeap m md dst h g) (encHeap mdig h).
Proof.
  intros H. unfold sk.writeHeap, encHeap.
  apply (writes_bind g (fun dst => sk.appendByte dst (to_u8 (HeapType_Kind h))) _ [_]); [apply writes_byte|].
  destruct H as [-> |[-> Hi]]; cbn [Z.eqb Pos.eqb HeapAbs HeapTypeIndex]; [apply writes_byte|by apply writes_ref].
Qed.

Lemma writes_value v : val_scoped m g v -> writes g (fun dst => sk.writeValue m md dst v g) (encVal mdig v).
Proof.
  intros H. unfold sk.writeValue, encVal. cbv zeta.
  apply (writes_bind g (fun dst => sk.appendByte dst (to_u8 (ValType_Kind v))) _ [_]); [apply writes_byte|].
  destruct H as [-> |[[-> _]|(-> & _ & Hh)]]; cbn [Z.eqb Pos.eqb ValNum ValVec ValBot ValRef orb].
  - apply writes_byte.
  - apply writes_nil.
  - apply (writes_bind g (fun dst => sk.appendByte dst (sk.flag (RefType_Nullable (ValType_Ref v)))) _ [_]);
      [apply writes_byte|].
    apply (writes_bind g (fun dst => sk.appendByte dst (sk.flag (RefType_Exact (ValType_Ref v)))) _ [_]);
      [apply writes_byte|by apply writes_heap].
Qed.

Lemma writes_field f : field_scoped m g f -> writes g (fun dst => sk.writeField m md dst f g) (encField mdig f).
Proof.
  intros H. unfold sk.writeField, encField. cbv zeta.
  apply (writes_bind g (fun dst => if StorageType_Packed (FieldType_Storage f)
     then let! dst := sk.appendByte dst 1 in sk.appendByte dst (to_u8 (StorageType_Pack (FieldType_Storage f)))
     else let! dst := sk.appendByte dst 0 in sk.writeValue m md dst (StorageType_Val (FieldType_Storage f)) g));
    [|apply writes_byte].
  destruct H as [-> |(-> & _ & Hv)].
  - apply (writes_bind g (fun dst => sk.appendByte dst 1) _ [1]); apply writes_byte.
  - apply (writes_bind g (fun dst => sk.appendByte dst 0) _ [0]); [apply writes_byte|by apply writes_value].
Qed.

Lemma writes_optional o : optional_scoped m g o -> writes g (fun dst => sk.writeOptional m md g dst o) (encOptional mdig o).
Proof.
  unfold sk.writeOptional, encOptional, optional_scoped. destruct (OptionalTypeIdx_Get o) as [idx []]; intros H.
  - apply (writes_bind g (fun dst => sk.appendByte dst 1) _ [1]); [apply writes_byte|]. apply writes_ref; [by apply H|done].
  - apply writes_byte.
Qed.

Lemma writes_comp ct : comp_scoped m g ct -> writes g (fun dst => sk.writeComp m md dst ct g) (encComp mdig ct).
Proof.
  intros H. unfold sk.writeComp, encComp.
  apply (writes_bind g (fun dst => sk.appendByte dst (to_u8 (CKind ct))) _ [_]); [apply writes_byte|].
  assert (Hvals : forall l, Forall (val_scoped m g) l ->
    writes g (fun dst => sk.writeList (fun dst t => sk.writeValue m md dst t g) dst l) (encList (encVal mdig) l)).
  { intros l. by apply (writes_list g (val_scoped m g)), writes_value. }
  destruct H as [(-> & [_ H1] & _ & H2)|[(-> & _ & H1)|(-> & H1)]]; cbn [Z.eqb Pos.eqb CompFunc CompStruct CompArray].
  - apply writes_bind; by apply Hvals.
  - by apply (writes_list g (field_scoped m g)); [apply writes_field|].
  - by apply writes_field.
Qed.

Lemma writes_member st : member_scoped m g st -> writes g (fun dst => sk.writeMember m md g dst st) (encMember mdig st).
Proof.
  intros [[_ H1] H2 H3 H4]. unfold sk.writeMember, encMember.
  apply (writes_bind g (fun dst => sk.appendByte dst 0xf1) _ [0xf1]); [apply writes_byte|].
  apply (writes_bind g (fun dst => sk.appendByte dst (sk.flag (Final st))) _ [_]); [apply writes_byte|].
  apply (writes_bind g (fun dst => sk.writeList (fun dst sup => sk.writeRef m md dst sup g) dst (Supers st)));
    [by apply (writes_list g (idx_scoped m g)); [intros; apply writes_ref|]|].
  apply (writes_ext _ _ (fun dst => let! dst := sk.writeOptional m md g dst (Describes (Metadata st)) in
    let! dst := sk.writeOptional m md g dst (Descriptor (Metadata st)) in sk.writeComp m md dst (Comp st) g)).
  { intros dst s. cbn [foldM]. unfold bind, ret. destruct (sk.writeOptional m md g dst _ s) as [[d|?|] s1]; [|done..].
    by destruct (sk.writeOptional m md g d _ s1) as [[d2|?|] s2]. }
  apply (writes_bind g (fun dst => sk.writeOptional m md g dst (Describes (Metadata st)))); [by apply writes_optional|].
  apply (writes_bind g (fun dst => sk.writeOptional m md g dst (Descriptor (Metadata st)))); [by apply writes_optional|].
  by apply writes_comp.
Qed.
End Parts.

(** ** Groups *)

(** Starting a group reserves its encoding. *)
Lemma due_enter s g : (g < groups)%nat -> g ∉ visiting s -> groupBytes s !! g = None ->
  due (set_visiting (fun v => {[g]} ∪ v) s) = due s - Z.of_nat (length (genc g)).
Proof.
  intros Hlt Hv Hb. unfold due. cbn [budget set_visiting].
  rewrite (total_start (unstarted s) (unstarted (set_visiting (fun v => {[g]} ∪ v) s)) g Hlt).
  - unfold unstarted at 2, started. rewrite bool_decide_false by done. rewrite Hb.
    rewrite bool_decide_false by (intros [? ?]; done). cbn [orb]. lia.
  - unfold unstarted, started. cbn [visiting set_visiting]. rewrite bool_decide_true by (apply elem_of_union_l, elem_of_singleton_2; done).
    done.
  - intros h Hne. unfold unstarted, started. cbn [visiting set_visiting groupBytes].
    rewrite (bool_decide_ext (h ∈ {[g]} ∪ visiting s) (h ∈ visiting s)); [done|].
    rewrite elem_of_union, elem_of_singleton. split; [intros [->|]; done|by right].
Qed.

(** Finishing one keeps it started. *)
Lemma due_leave s g b : g ∈ visiting s ->
  due (set_visiting (fun v => v ∖ {[g]}) (set_groupBytes (insert g b) s)) = due s.
Proof.
  intros Hv. unfold due. cbn [budget set_visiting set_groupBytes]. f_equal. apply total_ext. intros h _.
  unfold unstarted, started. cbn [visiting set_visiting set_groupBytes groupBytes].
  destruct (decide (h = g)) as [->|Hne].
  - rewrite lookup_insert_eq, (bool_decide_true (g ∈ visiting s)) by done.
    rewrite (bool_decide_true (is_Some (Some b))) by (by eexists). by rewrite orb_true_r.
  - rewrite lookup_insert_ne by done.
    rewrite (bool_decide_ext (h ∈ visiting s ∖ {[g]}) (h ∈ visiting s)); [done|].
    rewrite elem_of_difference, elem_of_singleton. split; [by intros [? _]|done].
Qed.

Lemma finds_buildGroup g gr md : Types_ m !! g = Some gr -> SubTypes gr <> [] ->
  (forall i, 0 <= i < base g -> finds g (md i) (mdig i)) -> finds (S g) (sk.buildGroup m md g) (genc g).
Proof.
  intros Hg Hne Hmd s Hs Ha. unfold sk.buildGroup, bind at 1, get.
  destruct (groupBytes s !! g) as [b|] eqn:Eb.
  { split; [by apply (inv_groups _ Hs)|]. split; [done|]. split; [done|lia]. }
  rewrite Hg. destruct (decide (g ∈ visiting s)) as [Hv|Hv]; [apply Ha in Hv; lia|].
  unfold bind at 1, modify at 1. set (s1 := set_visiting _ s).
  assert (Hlt : (g < groups)%nat) by (by eapply lookup_lt_Some).
  assert (Hw : writes g (fun dst => let! encoded := sk.appendU32 dst (to_u32 (Z.of_nat (length (SubTypes gr)))) in
      foldM (SubTypes gr) (sk.writeMember m md g) encoded) (genc g)).
  { rewrite (genc_unfold m Hm g gr Hg). unfold encGroup.
    apply (writes_list g (member_scoped m g)); [intros st Hst; by eapply writes_member|by apply (sc_groups _ Hm)]. }
  specialize (Hw [] s1). pose proof (due_enter s g Hlt Hv Eb) as Hdue. fold s1 in Hdue.
  assert (Hs1 : inv s1) by (destruct Hs; by split).
  assert (Ha1 : above g s1).
  { intros h Hh. apply elem_of_union in Hh as [Hh|Hh]; [apply elem_of_singleton in Hh; lia|apply Ha in Hh; lia]. }
  specialize (Hw Hs1 Ha1). cbn beta in Hw. unfold bind in Hw |- *.
  destruct (sk.appendU32 [] _ s1) as [[d|?|] s2]; [|split; [apply Hw|lia]|done].
  destruct (foldM _ _ d s2) as [[enc|?|] s3]; [|split; [apply Hw|lia]|done].
  destruct Hw as (-> & Hs3 & Hv3 & Hd3). cbn [app]. unfold modify, ret.
  assert (Hin : g ∈ visiting s3).
  { rewrite Hv3. by apply elem_of_union_l, elem_of_singleton_2. }
  split; [done|]. split; [|split].
  - destruct Hs3 as [G1 G2 G3]. split; [|done|done]. cbn. intros h b Hb.
    destruct (decide (h = g)) as [->|Hne']; [rewrite lookup_insert_eq in Hb; by injection Hb|].
    rewrite lookup_insert_ne in Hb by done. by apply G1.
  - cbn. rewrite Hv3. cbn. apply leibniz_equiv. intros h. rewrite elem_of_difference, elem_of_union, elem_of_singleton.
    split; [intros [[?|?] ?]; done|]. intros Hh. split; [by right|]. intros ->. done.
  - rewrite due_leave by done. lia.
Qed.

Lemma finds_ensure g gr md : Types_ m !! g = Some gr -> SubTypes gr <> [] ->
  (forall i, 0 <= i < base g -> finds g (md i) (mdig i)) ->
  finds (S g) (sk.ensureGroupDigest m true md g) (sha256.Sum256 (genc g)).
Proof.
  intros Hg Hne Hmd s Hs Ha. unfold sk.ensureGroupDigest, bind at 1, get.
  destruct (groupDigests s !! g) as [d|] eqn:Ed.
  { split; [by apply (inv_digests _ Hs)|]. split; [done|]. split; [done|lia]. }
  unfold bind at 1. pose proof (finds_buildGroup g gr md Hg Hne Hmd s Hs Ha) as H.
  destruct (sk.buildGroup m md g s) as [[enc|?|] s1]; [|done|done]. destruct H as (-> & Hs1 & Hv & Hd).
  unfold bind, modify, ret. split; [done|]. split; [|split; [done|done]].
  destruct Hs1 as [G1 G2 G3]. split; [done|done|]. cbn. intros h d Hh.
  destruct (decide (h = g)) as [->|Hne']; [rewrite lookup_insert_eq in Hh; by injection Hh|].
  rewrite lookup_insert_ne in Hh by done. by apply G3.
Qed.

(** ** Members *)

Lemma finds_memberDigest fuel i st g : 0 <= i -> flat !! Z.to_nat i = Some (st, g) -> (g < fuel)%nat ->
  finds (S g) (sk.memberDigest m true fuel i) (mdig i).
Proof.
  revert i st g. induction fuel as [|fuel IH]; intros i st g Hi Hf Hlt s Hs Ha; [lia|]. cbn [sk.memberDigest].
  unfold bind at 1, get. destruct (memberDigests s !! i) as [d|] eqn:Ed.
  { split; [by apply (inv_members _ Hs)|]. split; [done|]. split; [done|lia]. }
  destruct (flat_inside m _ st g Hf) as (gr & j & Hg & Hj & E & Hb & Hsz).
  pose proof (lookup_lt_Some _ _ _ Hf) as Hin. pose proof (size_small g gr Hg). pose proof (sc_flat _ Hm).
  assert (Ec : (sk.flatCount m <=? i) = false) by (apply Z.leb_gt; unfold sk.flatCount; lia). rewrite Ec, Hf.
  assert (Hne : SubTypes gr <> []) by (intros E0; by rewrite E0 in Hj).
  assert (Hmd : forall k, 0 <= k < base g -> finds g (sk.memberDigest m true fuel k) (mdig k)).
  { intros k Hk. destruct (lookup_lt_is_Some_2 flat (Z.to_nat k)) as [[st' h] Hk'].
    { destruct (base_bound g gr Hg Hne). unfold sk.flatCount in *. lia. }
    pose proof (flat_earlier m _ st' h g Hk' ltac:(by eapply lookup_lt_Some) ltac:(lia)).
    intros s' Hs' Ha'. apply (IH k st' h); [lia|done|lia|done|]. intros x Hx. specialize (Ha' x Hx). lia. }
  pose proof (finds_ensure g gr _ Hg Hne Hmd s Hs Ha) as H'. unfold bind at 1. unfold bind at 1.
  destruct (sk.ensureGroupDigest _ _ _ g s) as [[d|?|] s1]; [|done|done]. destruct H' as (-> & Hs1 & Hv & Hd).
  assert (Edig : sk.structuralGroupMemberDigest (sha256.Sum256 (genc g)) (to_u32 (size g)) (to_u32 (i - to_u32 (base g)))
    = mdig i).
  { unfold mdig, digestOf. rewrite Hf. rewrite !(to_u32_small) by (rewrite ?to_u32_small by lia; lia). reflexivity. }
  unfold ret at 1. cbn beta iota. rewrite Edig. unfold bind, modify, ret.
  split; [done|]. split; [|split; [done|done]].
  destruct Hs1 as [G1 G2 G3]. split; [done| |done]. cbn. intros k d Hk.
  destruct (decide (k = i)) as [->|Hne']; [rewrite lookup_insert_eq in Hk; by injection Hk|].
  rewrite lookup_insert_ne in Hk by done. by apply G2.
Qed.
End Run.
