(* ===== verification/StructuralScope.v ===== *)
(** * The types of an accepted module are in scope

    What the serializer of types relies on: the decoder packs well-formed types and
    makes references into a group relative, and validation leaves a module whose
    relative references lie in their group and whose other references lie before
    it. *)

From stdpp Require Import base tactics numbers list gmap.
From Stdlib Require Import ZArith Lia.
From S2P Require Import Prelude Reader ReaderLaws Types TypesLaws Decode DecodeLaws Module TypeResolve.
From S2P Require Import ModuleDecode ModuleSafe DecodeTotal TypeEquiv Subtyping Validator TypeValid ModuleValid.
From S2P Require Import SuperLaws FrontEnd Sha256 Structural StructuralLaws.
Local Open Scope Z_scope.

(** ** What the decoder leaves *)

Definition marked_val (v : ValType) : Prop := exists t, t <> VTbot /\ val_ty_ok t /\ v = pack_val t.

Definition marked_field (f : FieldType) : Prop :=
  exists s m, (m = Const \/ m = Var) /\ f = NewFieldType s m /\
    ((exists p, byte_ok p /\ s = StoragePacked p) \/ marked_val s).

Record comp_marked (ct : CompType) : Prop := {
  km_kind : CKind ct = CompArray \/ CKind ct = CompStruct \/ CKind ct = CompFunc;
  km_array : CKind ct = CompArray -> marked_field (Array ct);
  km_fields : Forall marked_field (Fields ct);
  km_params : Forall marked_val (Params ct);
  km_results : Forall marked_val (Results ct);
  km_short : short (Params ct) /\ short (Results ct) /\ short (Fields ct)
}.

Record member_marked (st : SubType) : Prop := {
  mk_supers : Forall (fun sup => 0 <= Index sup) (Supers st) /\ short (Supers st);
  mk_comp : comp_marked (Comp st)
}.

Section Mark.
Context (f : TypeIdx -> TypeIdx).
Hypothesis Hf : forall i, idx_ok i -> idx_ok (f i).

Lemma decoded_not_bot v : decoded_val v -> marked_val v.
Proof. intros (t & Ht & ->). exists t. split; [by intros ->|]. split; [by apply val_decodable_ok|done]. Qed.

Lemma map_val_marked v : decoded_val v -> marked_val (map_val f v).
Proof.
  intros (t & Ht & ->). pose proof (val_decodable_ok t Ht) as Hok. exists (map_val_ty f t).
  split; [|split; [by apply map_val_ty_ok|by apply map_val_pack]]. intros E. by destruct t.
Qed.

Lemma decoded_field_marked x : decoded_field x -> marked_field x.
Proof.
  intros (s & m & Hs & Hm & ->). exists s, m. split; [done|]. split; [done|].
  destruct Hs as [-> |[-> |Hv]]; [left; eexists; split; [|reflexivity]; done..|right; by apply decoded_not_bot].
Qed.

Lemma map_field_marked x : decoded_field x -> marked_field (map_field f x).
Proof.
  intros (s & m & Hs & Hm & ->). destruct Hs as [-> |[-> |Hv]].
  - rewrite map_field_packed by done. exists (StoragePacked PackI8), m. split; [done|]. split; [done|]. left. by exists PackI8.
  - rewrite map_field_packed by done. exists (StoragePacked PackI16), m. split; [done|]. split; [done|]. left. by exists PackI16.
  - change s with (StorageVal s). rewrite map_field_pack by (done || by apply decoded_val_ok).
    exists (map_val f s), m. split; [done|]. split; [done|]. right. by apply map_val_marked.
Qed.

Lemma map_comp_marked ct : comp_decoded ct -> comp_marked (map_comp f ct).
Proof.
  intros [Hk Ha Hfs Hp Hr (S1 & S2 & S3)].
  assert (Hv : forall l, Forall decoded_val l -> Forall marked_val l)
    by (intros l Hl; eapply Forall_impl; [exact Hl|apply decoded_not_bot]).
  assert (Hw : forall l, Forall decoded_val l -> Forall marked_val (map (map_val f) l))
    by (intros l Hl; apply Forall_map; eapply Forall_impl; [exact Hl|intros x; apply map_val_marked]).
  assert (Hx : Forall marked_field (Fields ct)) by (eapply Forall_impl; [exact Hfs|apply decoded_field_marked]).
  unfold map_comp, short. destruct Hk as [E|[E|E]]; rewrite E in *; cbn [Z.eqb Pos.eqb CompFunc CompStruct CompArray];
    (split; cbn [CKind Array Fields Params Results]; rewrite ?length_map; auto; try discriminate).
  - intros _. by apply map_field_marked, Ha.
  - apply Forall_map. eapply Forall_impl; [exact Hfs|]. intros x. apply map_field_marked.
  - unfold short. by rewrite length_map.
  - unfold short. by rewrite !length_map.
Qed.
End Mark.

Lemma mark_members base types : 0 <= base -> Forall rec_decoded types ->
  Forall (fun rt => Forall member_marked (SubTypes rt)) (markRecursiveTypeIndexes_from base types).
Proof.
  intros Hb H. pose proof (mark_supers_typed base types Hb H) as Hsup. revert base Hb Hsup.
  induction H as [|rt rest Hrt _ IH]; intros base Hb Hsup; [apply Forall_nil_2|].
  cbn [markRecursiveTypeIndexes_from] in *. cbv zeta in *. apply Forall_cons_1 in Hsup as [H1 H2].
  apply Forall_cons_2; [|apply IH; [apply Z.mod_pos_bound; lia|exact H2]]. cbn [SubTypes] in *.
  apply Forall_map. rewrite Forall_map in H1. rewrite Forall_forall in H1 |- *. intros st Hin.
  pose proof (proj1 (Forall_forall _ _) Hrt st Hin) as [_ Hc _ Hs]. split.
  - split; [exact (H1 st Hin)|]. unfold short, compose. cbn [Supers markRecursiveSubTypeIndexes]. by rewrite length_map.
  - unfold compose. cbn [Comp markRecursiveSubTypeIndexes]. rewrite markRecursiveComp_map.
    apply map_comp_marked; [|done]. intros i. by apply mark_idx_ok.
Qed.

(** ** Scopes *)

Lemma check_ok e s s' : check e s = (Ok tt, s') -> e = None.
Proof. by destruct e. Qed.

Section Scope.
Context (v : moduleValidator) (g : nat) (gr : RecType).
Local Abbreviation m := (vm v).
Hypothesis Hg : Types_ m !! g = Some gr.

Lemma valid_scoped i : 0 <= Index i -> mt.validTypeIdxInRecGroup v i (Z.of_nat g) = true -> idx_scoped m g i.
Proof.
  intros H0 H. split; [done|]. unfold mt.validTypeIdxInRecGroup, mt.subtypeByTypeIdxInRecGroup in H.
  unfold sk.groupSize, sk.groupBase. rewrite Hg. cbn [from_option]. destruct (Rec i); cbn [negb] in H.
  - destruct (_ || _); [done|]. rewrite Nat2Z.id, Hg in H. destruct (Z.leb_spec (to_u32 (Z.of_nat (length (SubTypes gr)))) (Index i)); [done|].
    pose proof (to_u32_le (Z.of_nat (length (SubTypes gr))) ltac:(lia)). lia.
  - destruct (Z.leb_spec 0 (Z.of_nat g)); [|lia]. destruct (_ <=? _); [done|]. rewrite Nat2Z.id in H.
    unfold mv.typeGroupBases in H. destruct (typeIndex_bases m !! g) as [b|]; [|done]. cbn [from_option id].
    destruct (Z.leb_spec b (Index i)); [done|lia].
Qed.

Lemma optional_valid o : tv.validOptional v o (Z.of_nat g) = true -> optional_scoped m g o.
Proof.
  unfold tv.validOptional, optional_scoped, OptionalTypeIdx_Get. intros H Hp. rewrite Hp in H. cbn [andb] in H.
  rewrite negb_involutive in H. apply valid_scoped; [|done]. cbn [Index]. apply to_u32_range.
Qed.

Lemma ref_num rt : ref_ok rt -> ValType_Num (RefVal rt) = 0.
Proof.
  intros [Hw _]. unfold ValType_Num, RefVal. cbn [lo].
  rewrite Z.land_lor_distr_l, (within_disjoint _ _ _ Hw) by reflexivity. reflexivity.
Qed.

Lemma marked_val_scoped x : marked_val x -> mt.validateValTypeInRecGroup v x (Z.of_nat g) = None -> val_scoped m g x.
Proof.
  intros (t & Hb & Ht & ->) Hv.
  assert (Href : forall rt, ref_ok rt -> pack_val t = RefVal rt ->
    (HeapType_Kind (RefType_Heap rt) = HeapAbs \/ HeapType_Kind (RefType_Heap rt) = HeapTypeIndex) ->
    val_scoped m g (pack_val t)).
  { intros rt Hrt E Hk. rewrite E in Hv |- *. destruct (RefVal_ok rt Hrt) as (_ & Ek & Er). right; right.
    rewrite Er. split; [done|]. split; [by apply ref_num|]. destruct Hk as [Hk|Hk]; [by left|right]. split; [done|].
    apply valid_scoped; [apply to_u32_range|]. unfold mt.validateValTypeInRecGroup in Hv. rewrite Ek, Er in Hv.
    cbn [Z.eqb Pos.eqb ValRef ValNum ValVec andb] in Hv.
    unfold mt.validateRefTypeInRecGroup, mt.validateHeapTypeInRecGroup in Hv. rewrite Hk in Hv.
    cbn [Z.eqb Pos.eqb HeapAbs HeapTypeIndex] in Hv. by destruct (mt.validTypeIdxInRecGroup _ _ _). }
  destruct t as [n| | |a|n e h]; cbn [val_ty_ok] in Ht; [left|right; left; by split|done| |].
  - by destruct (newValType_ok ValNum n ltac:(done) Ht) as (_ & E & _).
  - destruct (AbsRef_ok a Ht) as (Hr & _ & _ & _ & Hh). apply (Href (AbsRef a)); [done|done|]. rewrite Hh. left.
    by destruct (AbsHeap_ok a Ht) as (_ & E & _).
  - destruct (Ref_ok n _ e (pack_heap_ok h Ht)) as (Hr & _ & _ & _ & Hh).
    apply (Href (Ref n (pack_heap h) e)); [done|done|]. rewrite Hh. destruct h as [a|i]; cbn [pack_heap heap_ty_ok] in *.
    + left. by destruct (AbsHeap_ok a Ht) as (_ & E & _).
    + right. by destruct (IndexedHeap_ok i Ht) as (_ & E & _).
Qed.

Lemma marked_val_ok x : marked_val x -> val_ok x.
Proof. intros (t & _ & Ht & ->). by apply pack_val_ok. Qed.

Lemma marked_field_scoped x : marked_field x -> tv.validateFieldTypeInRecGroup v x (Z.of_nat g) = None -> field_scoped m g x.
Proof.
  intros (s & mu & Hm & -> & Hs) Hv.
  assert (Hok : storage_ok s).
  { destruct Hs as [(p & Hp & ->)|Hs]; [by apply StoragePacked_ok|]. apply (StorageVal_ok s), marked_val_ok, Hs. }
  destruct (NewFieldType_ok s mu Hok Hm) as [Es _]. unfold tv.validateFieldTypeInRecGroup in Hv. unfold field_scoped.
  rewrite Es in Hv |- *. destruct Hs as [(p & Hp & ->)|Hs]; [left; by destruct (StoragePacked_ok p Hp) as (_ & -> & _)|].
  pose proof (marked_val_ok s Hs) as Hsok. right. destruct (StorageVal_ok s Hsok) as (_ & E1 & E2). unfold StorageVal in *.
  split; [done|]. split.
  - destruct Hsok as [Hw _]. unfold StorageType_Pack. by rewrite (within_disjoint _ _ _ Hw) by reflexivity.
  - unfold tv.validateStorageTypeInRecGroup in Hv. rewrite E1, E2 in *. by apply marked_val_scoped.
Qed.

Lemma each_scoped {A} (P Q : A -> Prop) (val : A -> gerror) l s s' :
  (forall x, P x -> val x = None -> Q x) -> Forall P l -> forM l (fun x => check (val x)) s = (Ok tt, s') -> Forall Q l.
Proof.
  intros HPQ HP H. apply Forall_forall. intros x Hx. destruct (forM_each _ _ _ _ _ H Hx) as (s1 & s2 & H1).
  apply HPQ; [exact (proj1 (Forall_forall _ _) HP x Hx)|by eapply check_ok].
Qed.

Lemma comp_valid ct s s' : comp_marked ct -> tv.validateCompTypeInRecGroup v ct (Z.of_nat g) s = (Ok tt, s') ->
  comp_scoped m g ct.
Proof.
  intros [Hk Ha Hf Hp Hr (S1 & S2 & S3)] H. unfold tv.validateCompTypeInRecGroup in H.
  destruct Hk as [E|[E|E]]; rewrite E in H; cbn [Z.eqb Pos.eqb CompFunc CompStruct CompArray] in H.
  - right; right. split; [done|]. apply marked_field_scoped; [by apply Ha|by eapply check_ok].
  - right; left. split; [done|]. split; [done|]. eapply each_scoped; [apply marked_field_scoped|done|exact H].
  - left. split; [done|]. apply bind_ok in H as ([] & s1 & H1 & H2).
    split; (split; [done|]); (eapply each_scoped; [apply marked_val_scoped|done|eassumption]).
Qed.

Lemma member_valid st si s s' : member_marked st -> tv.validateSubType v (Z.of_nat g) si st s = (Ok tt, s') ->
  member_scoped m g st.
Proof.
  intros [[Hsup Hshort] Hc] H. unfold tv.validateSubType in H. apply bind_ok in H as ([] & s1 & _ & H).
  apply bind_ok in H as ([] & s2 & H1 & H). apply bind_ok in H as ([] & s3 & H2 & H).
  apply bind_ok in H as ([] & s4 & H3 & H). apply mrequire_ok in H2, H3. split.
  - split; [done|]. apply Forall_forall. intros sup Hin. destruct (forM_each _ _ _ _ _ H1 Hin) as (s5 & s6 & H4).
    apply bind_ok in H4 as ([] & s7 & H4 & _). apply mrequire_ok in H4. apply valid_scoped; [|done].
    exact (proj1 (Forall_forall _ _) Hsup sup Hin).
  - by apply optional_valid.
  - by apply optional_valid.
  - by eapply comp_valid.
Qed.
End Scope.

Lemma validateTypes_scoped v s s' :
  Forall (fun rt => Forall member_marked (SubTypes rt)) (Types_ (vm v)) ->
  Z.of_nat (length (typeIndex_flat (vm v))) < 2 ^ 32 ->
  tv.validateTypes v s = (Ok tt, s') -> module_scoped (vm v).
Proof.
  intros Hk Hn H. split; [done|]. intros g gr Hg. apply Forall_lookup_2. intros j st Hj.
  destruct (forM_each _ _ _ _ _ H (elem_of_indexed _ _ _ Hg)) as (s1 & s2 & H1).
  destruct (forM_each _ _ _ _ _ H1 (elem_of_indexed _ _ _ Hj)) as (s3 & s4 & H2).
  eapply member_valid; [exact Hg| |exact H2]. exact (Forall_lookup_1 _ _ _ _ (Forall_lookup_1 _ _ _ _ Hk Hg) Hj).
Qed.

(** ** Accepted modules *)

Lemma wf_scoped d f l : module_wf d ->
  mm.validateModuleWith mm.serialPhase (Some (dm d)) None f l = Ok tt -> module_scoped (dm d).
Proof.
  intros Hd H. destruct (wf_types _ Hd) as (ts & E & Ht & Hn). unfold mm.validateModuleWith in H. cbv zeta in H.
  destruct (_ <? _); [done|]. destruct (_ <? _); [done|].
  destruct (mm.validateModule _ zeroState) as [o s] eqn:Ev. cbn [fst] in H. destruct o as [v|?|]; [|done..].
  unfold mm.validateModule in Ev. apply bind_ok in Ev as ([] & ? & _ & Ev). apply bind_ok in Ev as ([] & s2 & _ & Ev).
  destruct (mm.collectDeclaredFuncs _) as [bits|]; [|done]. apply bind_ok in Ev as ([] & s3 & Htypes & _).
  apply validateTypes_scoped in Htypes; cbn [vm mm.with_declared mm.newValidator] in *; [done| |].
  - rewrite E. by apply mark_members.
  - unfold typeIndex_flat. rewrite E. unfold markRecursiveTypeIndexes. by rewrite mark_flat_length.
Qed.

(** Decoded and accepted. *)
Definition accepted (data : list Z) (f : ValidationFeatures) (l : ValidationLimits) (m : Module_) : Prop :=
  exists d, DecodeModuleByteBackedWithLimits data (MultiMemory f) zeroLimits = Ok d /\ dm d = m /\
    mm.validateDecodedByteBackedModule (Some d) f l = Ok tt.

Lemma accepted_scoped data f l m : bytes_ok data -> accepted data f l m -> module_scoped m.
Proof.
  intros Hb (d & H & <- & Hv). unfold DecodeModuleByteBackedWithLimits in H.
  destruct (decoded_validates _ _ _ _ _ f l Hb zeroLimits_ok H) as [_ E]. rewrite E in Hv.
  destruct (decoded_form _ _ _ _ _ Hb zeroLimits_ok H) as (d0 & Hd & ->).
  eapply wf_scoped; [|exact Hv]. by apply populate_wf.
Qed.
