(* ===== verification/StructuralCode.v ===== *)
(** * The encoding of types is a prefix code for the parts of types

    Two encodings agree exactly when the encoded parts are related as the comparison
    of types relates them, whatever follows them.  The relation of type indexes is a
    parameter that agrees with positions inside the two groups and with digests
    before them. *)

From stdpp Require Import base tactics numbers list gmap.
From Stdlib Require Import ZArith Lia.
From S2P Require Import Prelude Reader ReaderLaws Types Module TypeEquiv TypeEquivLaws Sha256 Structural StructuralLaws.
Local Open Scope Z_scope.

(** ** Prefix codes *)

(** Texts that start with encodings agree exactly when the encoded values are related
    and the rests agree. *)
Definition code {A} (P Q : A -> Prop) (enc : A -> list Z) (rel : A -> A -> Prop) : Prop :=
  forall x y r r', P x -> Q y -> enc x ++ r = enc y ++ r' <-> rel x y /\ r = r'.

Section Codes.
Context {A : Type} (P Q : A -> Prop).

Lemma code_iff (enc : A -> list Z) rel rel' :
  code P Q enc rel' -> (forall x y, P x -> Q y -> rel x y <-> rel' x y) -> code P Q enc rel.
Proof. intros H E x y r r' Hx Hy. rewrite (E x y Hx Hy). by apply H. Qed.

Lemma code_eq (enc : A -> list Z) rel x y : code P Q enc rel -> P x -> Q y -> enc x = enc y <-> rel x y.
Proof.
  intros H Hx Hy. specialize (H x y [] [] Hx Hy). rewrite !app_nil_r in H. rewrite H. split; [by intros [? _]|done].
Qed.

Lemma code_nil : code P Q (fun _ => []) (fun _ _ => True).
Proof. intros x y r r' _ _. simpl. split; [done|by intros [_ ?]]. Qed.

Lemma code_cons (f : A -> Z) enc rel :
  code P Q enc rel -> code P Q (fun x => f x :: enc x) (fun x y => f x = f y /\ rel x y).
Proof.
  intros H x y r r' Hx Hy. specialize (H x y r r' Hx Hy). cbn [app]. split.
  - intros [= E1 E2]. apply H in E2 as [? ?]. done.
  - intros [[E1 E2] E3]. f_equal; [done|]. by apply H.
Qed.

Lemma code_byte (f : A -> Z) : code P Q (fun x => [f x]) (fun x y => f x = f y).
Proof. eapply code_iff; [apply code_cons, code_nil|]. intros x y _ _. tauto. Qed.

Lemma code_app enc1 enc2 rel1 rel2 :
  code P Q enc1 rel1 -> code P Q enc2 rel2 -> code P Q (fun x => enc1 x ++ enc2 x) (fun x y => rel1 x y /\ rel2 x y).
Proof.
  intros H1 H2 x y r r' Hx Hy. rewrite <- !app_assoc, (H1 x y _ _ Hx Hy), (H2 x y r r' Hx Hy). tauto.
Qed.

(** Through a projection. *)
Lemma code_map {B} (P' Q' : B -> Prop) (f : B -> A) enc rel :
  code P Q enc rel -> (forall x, P' x -> P (f x)) -> (forall x, Q' x -> Q (f x)) ->
  code P' Q' (fun x => enc (f x)) (fun x y => rel (f x) (f y)).
Proof. intros H HP HQ x y r r' Hx Hy. by apply H; [apply HP|apply HQ]. Qed.

End Codes.

(** ** Numbers *)

Lemma le32_value x : u32_ok x ->
  to_u8 x + 2 ^ 8 * to_u8 (Z.shiftr x 8) + 2 ^ 16 * to_u8 (Z.shiftr x 16) + 2 ^ 24 * to_u8 (Z.shiftr x 24) = x.
Proof.
  unfold u32_ok, to_u8. intros H. rewrite !Z.shiftr_div_pow2 by lia.
  rewrite (Z.mod_small (x / 2 ^ 24)) by (split; [apply Z.div_pos; lia|apply Z.div_lt_upper_bound; lia]).
  pose proof (Z.div_mod x (2 ^ 8) ltac:(lia)) as E1. pose proof (Z.div_mod (x / 2 ^ 8) (2 ^ 8) ltac:(lia)) as E2.
  pose proof (Z.div_mod (x / 2 ^ 8 / 2 ^ 8) (2 ^ 8) ltac:(lia)) as E3. rewrite !Z.div_div in E2, E3 by lia.
  change (2 ^ 8 * 2 ^ 8) with (2 ^ 16) in *. rewrite Z.div_div in E3 by lia. change (2 ^ 16 * 2 ^ 8) with (2 ^ 24) in E3. lia.
Qed.

Lemma le32_inj x y : u32_ok x -> u32_ok y -> le32 x = le32 y -> x = y.
Proof. intros Hx Hy [= E1 E2 E3 E4]. rewrite <- (le32_value x Hx), <- (le32_value y Hy). congruence. Qed.

Lemma code_u32 {A} (P Q : A -> Prop) (f : A -> Z) : (forall x, P x -> u32_ok (f x)) -> (forall x, Q x -> u32_ok (f x)) ->
  code P Q (fun x => le32 (f x)) (fun x y => f x = f y).
Proof.
  intros HP HQ x y r r' Hx Hy. split; [|by intros [-> ->]]. intros E.
  apply app_inj_1 in E as [E ->]; [|done]. split; [|done]. by apply le32_inj; [apply HP|apply HQ|].
Qed.

Lemma flag_inj a b : sk.flag a = sk.flag b <-> a = b.
Proof. by destruct a, b. Qed.

(** A counted list. *)
Lemma code_list {A} (P Q : A -> Prop) enc rel : code P Q enc rel ->
  code (fun l => short l /\ Forall P l) (fun l => short l /\ Forall Q l) (encList enc) (Forall2 rel).
Proof.
  intros H x y r r' [Sx Fx] [Sy Fy]. unfold encList. rewrite <- !app_assoc. unfold short in *.
  assert (Hc : forall l k, Forall P l -> Forall Q k -> length l = length k ->
    concat (map enc l) ++ r = concat (map enc k) ++ r' <-> Forall2 rel l k /\ r = r').
  { clear -H. intros l k Hl. revert k. induction Hl as [|a l Ha Hl IH]; intros k Hk E; destruct Hk as [|b k Hb Hk]; try done.
    - simpl. split; [done|by intros [_ ?]].
    - cbn [map concat]. rewrite <- !app_assoc, (H a b _ _ Ha Hb), (IH k Hk) by (by injection E). rewrite Forall2_cons_iff. tauto. }
  rewrite !to_u32_small by lia. split.
  - intros E. apply app_inj_1 in E as [E E']; [|done]. apply le32_inj in E; [|unfold u32_ok; lia..].
    apply Hc in E'; [done..|lia].
  - intros [E E']. pose proof (Forall2_length _ _ _ E) as El. rewrite El. f_equal. by apply Hc.
Qed.

(** ** Fields of packed words *)

Lemma packed_byte x n : 0 <= n -> 0 <= Z.shiftr (Z.land x (Z.shiftl 0xff n)) n < 256.
Proof.
  intros Hn. rewrite Z.shiftr_land, Z.shiftr_shiftl_l, Z.sub_diag, Z.shiftl_0_r by lia.
  change 0xff with (Z.ones 8). rewrite Z.land_ones by lia. apply Z.mod_pos_bound. lia.
Qed.

Lemma to_u8_inj x y : 0 <= x < 256 -> 0 <= y < 256 -> to_u8 x = to_u8 y <-> x = y.
Proof. intros Hx Hy. unfold to_u8. rewrite !Z.mod_small by lia. done. Qed.

Lemma ValType_Num_byte v : 0 <= ValType_Num v < 256.
Proof. by apply packed_byte. Qed.

Lemma HeapType_Abs_byte h : 0 <= HeapType_Abs h < 256.
Proof. by apply packed_byte. Qed.

Lemma StorageType_Pack_byte s : 0 <= StorageType_Pack s < 256.
Proof. by apply packed_byte. Qed.

Lemma FieldType_Mut_byte f : 0 <= FieldType_Mut f < 256.
Proof. unfold FieldType_Mut, Var, Const. destruct (has_bit _ _); lia. Qed.

(** ** The parts of two members *)

(** Different tags. *)
Ltac tags_differ := split; [intros E; discriminate E|by intros [[? _] _]].

Section Parts.
Context (m : Module_).
Hypothesis Hm : module_scoped m.
Context (gx gy : nat) (grx gry : RecType).
Hypothesis Hgx : Types_ m !! gx = Some grx.
Hypothesis Hgy : Types_ m !! gy = Some gry.
Hypothesis Hnx : SubTypes grx <> [].
Hypothesis Hny : SubTypes gry <> [].
Context (d : Z -> digest) (R : Z -> Z -> Prop).
Hypothesis Hlen : forall i, 0 <= i < sk.groupBase m gx \/ 0 <= i < sk.groupBase m gy -> length (d i) = 32%nat.
(** Inside the groups, [R] relates the same positions. *)
Hypothesis Hrec : forall i j, 0 <= i < sk.groupSize m gx -> 0 <= j < sk.groupSize m gy ->
  R (sk.groupBase m gx + i) (sk.groupBase m gy + j) <-> i = j.
(** Before them, the same digests. *)
Hypothesis Hdig : forall i j, 0 <= i < sk.groupBase m gx -> 0 <= j < sk.groupBase m gy -> R i j <-> d i = d j.

Lemma flat_scoped g gr i : Types_ m !! g = Some gr -> SubTypes gr <> [] -> idx_scoped m g i ->
  mv.flatTypeIdxInRecGroup m i (Z.of_nat g) = Some (if Rec i then sk.groupBase m g + Index i else Index i).
Proof.
  intros Hg Hne [H0 Hi]. unfold mv.flatTypeIdxInRecGroup. destruct (base_bound m g gr Hg Hne) as [Hb Hbs].
  pose proof (size_small m Hm g gr Hg) as Hs. destruct (Rec i) eqn:Er; cbn [negb].
  - pose proof (lookup_lt_Some _ _ _ Hg). rewrite (proj2 (Z.ltb_ge _ _)) by lia. rewrite (proj2 (Z.leb_gt _ _)) by lia.
    cbn [orb]. unfold mv.groupSize, mv.typeGroupBases. rewrite Nat2Z.id.
    unfold sk.groupSize, sk.groupBase in *. rewrite Hg in *. cbn [fmap option_fmap option_map from_option] in *.
    destruct (type_bases_lookup 0 (Types_ m) g ltac:(lia)) as [b Eb]. unfold typeIndex_bases in *. rewrite Eb in *.
    cbn [from_option id] in *. rewrite to_u32_small by lia. by rewrite (proj2 (Z.leb_gt _ _)) by lia.
  - unfold mv.validTypeIdx, mv.subtypeByTypeIdxWithRecGroup, mv.subtypeByFlatTypeIdx. rewrite Er.
    unfold sk.flatCount in Hbs. fold (mv.flatSubTypes m) in Hbs. rewrite (proj2 (Z.ltb_ge _ _)) by lia.
    rewrite (proj2 (Z.leb_gt _ _)) by lia. cbn [orb].
    destruct (lookup_lt_is_Some_2 (mv.flatSubTypes m) (Z.to_nat (Index i)) ltac:(lia)) as [p ->]. done.
Qed.

Local Abbreviation X := (Z.of_nat gx).
Local Abbreviation Y := (Z.of_nat gy).

Lemma index_rel_scoped x y : idx_scoped m gx x -> idx_scoped m gy y ->
  index_rel m R x y X Y <->
  R (if Rec x then sk.groupBase m gx + Index x else Index x) (if Rec y then sk.groupBase m gy + Index y else Index y).
Proof.
  intros Hx Hy. unfold index_rel. rewrite (flat_scoped gx grx x Hgx Hnx Hx), (flat_scoped gy gry y Hgy Hny Hy). split.
  - by intros (? & ? & [= <-] & [= <-] & H).
  - intros H. by eexists _, _.
Qed.

Lemma code_ref : code (idx_scoped m gx) (idx_scoped m gy) (encRef d) (super_rel m R X Y).
Proof.
  intros x y r r' Hx Hy. unfold super_rel. rewrite (index_rel_scoped x y Hx Hy). destruct Hx as [X0 X1], Hy as [Y0 Y1].
  pose proof (size_small m Hm gx grx Hgx). pose proof (size_small m Hm gy gry Hgy).
  unfold encRef. destruct (Rec x), (Rec y).
  - rewrite (Hrec _ _ (conj X0 X1) (conj Y0 Y1)). cbn [app]. split.
    + intros E. apply (f_equal tail) in E. cbn [tail] in E. apply app_inj_1 in E as [E ->]; [|done].
      apply le32_inj in E; [done|unfold u32_ok; lia..].
    + by intros [[_ ->] ->].
  - split; [discriminate|]. by intros [[? _] _].
  - split; [discriminate|]. by intros [[? _] _].
  - rewrite (Hdig _ _ (conj X0 X1) (conj Y0 Y1)). cbn [app]. split.
    + intros E. apply (f_equal tail) in E. cbn [tail] in E. apply app_inj_1 in E as [E ->]; [done|]. rewrite !Hlen by (by (left + right)). done.
    + by intros [[_ ->] ->].
Qed.

Definition heap_scoped (g : nat) (h : HeapType) : Prop :=
  HeapType_Kind h = HeapAbs \/ (HeapType_Kind h = HeapTypeIndex /\ idx_scoped m g (HeapType_Type h)).

Lemma code_heap : code (heap_scoped gx) (heap_scoped gy) (encHeap d) (fun x y => heap_rel m R x y X Y).
Proof.
  intros x y r r' Hx Hy. unfold encHeap, heap_rel.
  destruct Hx as [Ex|[Ex Ix]], Hy as [Ey|[Ey Iy]]; rewrite Ex, Ey; cbn [Z.eqb Pos.eqb HeapAbs HeapTypeIndex app];
    [|tags_differ..|].
  - pose proof (to_u8_inj _ _ (HeapType_Abs_byte x) (HeapType_Abs_byte y)) as Ha. split.
    + intros [= E ->]. apply Ha in E. split; [|done]. split; [done|by left].
    + intros [[_ [[_ E]|[[? _]|[? _]]]] ->]; [|done..]. by rewrite E.
  - pose proof (code_ref (HeapType_Type x) (HeapType_Type y) r r' Ix Iy) as Hc. unfold super_rel in Hc. split.
    + intros E. apply (f_equal tail) in E. cbn [tail] in E. apply Hc in E as [? ->]. split; [|done]. split; [done|].
      right; left. done.
    + intros [[_ [[? _]|[[_ E]|[? _]]]] E']; [done| |done]. f_equal. by apply Hc.
Qed.

Lemma code_val : code (val_scoped m gx) (val_scoped m gy) (encVal d) (val_rel m R X Y).
Proof.
  intros x y r r' Hx Hy. unfold encVal, val_rel.
  destruct Hx as [Ex|[[Ex Nx]|(Ex & Nx & Hhx)]], Hy as [Ey|[[Ey Ny]|(Ey & Ny & Hhy)]]; rewrite Ex, Ey;
    cbn [Z.eqb Pos.eqb ValNum ValVec ValRef app]; try tags_differ.
  - pose proof (to_u8_inj _ _ (ValType_Num_byte x) (ValType_Num_byte y)) as Hn. split.
    + intros [= E ->]. apply Hn in E. done.
    + intros [(_ & E & _) ->]. by rewrite E.
  - rewrite Nx, Ny. split; [intros [= ->]; done|by intros [_ ->]].
  - rewrite Nx, Ny. pose proof (code_heap _ _ r r' Hhx Hhy) as Hc. split.
    + intros E. pose proof (f_equal (lookup 1%nat) E) as E1. pose proof (f_equal (lookup 2%nat) E) as E2.
      apply (f_equal (drop 3)) in E. cbn [drop lookup list_lookup] in E, E1, E2. injection E1 as E1. injection E2 as E2.
      apply flag_inj in E1, E2. apply Hc in E as [? ->]. done.
    + intros [(_ & _ & H) ->]. destruct (H eq_refl) as (E1 & E2 & E3). rewrite E1, E2. do 3 f_equal. by apply Hc.
Qed.

Lemma code_field : code (field_scoped m gx) (field_scoped m gy) (encField d) (field_rel m R X Y).
Proof.
  intros x y r r' Hx Hy. unfold encField, field_rel, storage_rel.
  pose proof (to_u8_inj _ _ (FieldType_Mut_byte x) (FieldType_Mut_byte y)) as Hmut.
  destruct Hx as [Ex|(Ex & Px & Vx)], Hy as [Ey|(Ey & Py & Vy)]; rewrite Ex, Ey, <- !app_assoc; cbn [app].
  - pose proof (to_u8_inj _ _ (StorageType_Pack_byte (FieldType_Storage x)) (StorageType_Pack_byte (FieldType_Storage y))) as Hp.
    split.
    + intros [= E1 E2 ->]. apply Hp in E1. apply Hmut in E2. done.
    + intros [(E1 & _ & E2 & _) ->]. by rewrite E1, E2.
  - split; [discriminate|]. by intros [(_ & ? & _) _].
  - split; [discriminate|]. by intros [(_ & ? & _) _].
  - rewrite Px, Py. pose proof (code_val _ _ (to_u8 (FieldType_Mut x) :: r) (to_u8 (FieldType_Mut y) :: r') Vx Vy) as Hc.
    split.
    + intros E. apply (f_equal tail) in E. cbn [tail] in E. apply Hc in E as [? [= E ->]]. apply Hmut in E. done.
    + intros [(E1 & _ & _ & E2) ->]. f_equal. apply Hc. rewrite E1. split; [by apply E2|done].
Qed.

Lemma code_optional : code (optional_scoped m gx) (optional_scoped m gy) (encOptional d) (optional_rel m R X Y).
Proof.
  intros x y r r' Hx Hy. unfold optional_scoped, encOptional, optional_rel in *.
  destruct (OptionalTypeIdx_Get x) as [ix []], (OptionalTypeIdx_Get y) as [iy []]; cbn [app].
  - pose proof (code_ref ix iy r r' (Hx eq_refl) (Hy eq_refl)) as Hc. split.
    + intros E. apply (f_equal tail) in E. apply Hc in E as [? ->]. done.
    + intros [[_ E] ->]. f_equal. apply Hc. split; [by apply E|done].
  - split; [discriminate|by intros [[? _] _]].
  - split; [discriminate|by intros [[? _] _]].
  - split; [by intros [= ->]|by intros [_ ->]].
Qed.

Lemma code_comp : code (comp_scoped m gx) (comp_scoped m gy) (encComp d)
  (fun x y => CKind x = CKind y /\ comp_rel m R X Y x y).
Proof.
  intros x y r r' Hx Hy. unfold encComp, comp_rel.
  destruct Hx as [(Ex & [Sx1 Fx1] & Sx2 & Fx2)|[(Ex & Sx & Fx)|(Ex & Fx)]],
    Hy as [(Ey & [Sy1 Fy1] & Sy2 & Fy2)|[(Ey & Sy & Fy)|(Ey & Fy)]]; rewrite Ex, Ey;
    cbn [Z.eqb Pos.eqb CompFunc CompStruct CompArray app]; try tags_differ.
  - rewrite <- !app_assoc. pose proof (code_list _ _ _ _ code_val (Results x) (Results y) r r' (conj Sx2 Fx2) (conj Sy2 Fy2)) as Hc2.
    pose proof (code_list _ _ _ _ code_val (Params x) (Params y) (encList (encVal d) (Results x) ++ r)
      (encList (encVal d) (Results y) ++ r') (conj Sx1 Fx1) (conj Sy1 Fy1)) as Hc. rewrite Hc2 in Hc. split.
    + intros E. apply (f_equal tail) in E. apply Hc in E as (? & ? & ->). split; [|done]. split; [done|by left].
    + intros [[_ [(_ & ? & ?)|[[? _]|[? _]]]] ->]; [|done..]. f_equal. by apply Hc.
  - pose proof (code_list _ _ _ _ code_field (Fields x) (Fields y) r r' (conj Sx Fx) (conj Sy Fy)) as Hc. split.
    + intros E. apply (f_equal tail) in E. apply Hc in E as [? ->]. split; [|done]. split; [done|by right; left].
    + intros [[_ [[? _]|[[_ ?]|[? _]]]] ->]; [done| |done]. f_equal. by apply Hc.
  - pose proof (code_field (Array x) (Array y) r r' Fx Fy) as Hc. split.
    + intros E. apply (f_equal tail) in E. apply Hc in E as [? ->]. split; [|done]. split; [done|by right; right].
    + intros [[_ [[? _]|[[? _]|[_ ?]]]] ->]; [done..|]. f_equal. by apply Hc.
Qed.

(** Two members, compared part by part. *)
Definition member_rel (x y : SubType) : Prop :=
  Final x = Final y /\ Forall2 (super_rel m R X Y) (Supers x) (Supers y) /\
  optional_rel m R X Y (Describes (Metadata x)) (Describes (Metadata y)) /\
  optional_rel m R X Y (Descriptor (Metadata x)) (Descriptor (Metadata y)) /\
  CKind (Comp x) = CKind (Comp y) /\ comp_rel m R X Y (Comp x) (Comp y).

Lemma code_member : code (member_scoped m gx) (member_scoped m gy) (encMember d) member_rel.
Proof.
  unfold encMember, member_rel. eapply code_iff; [apply code_app; [apply (code_cons _ _ (fun _ => 0xf1)), (code_byte _ _ (fun st => sk.flag (Final st)))|];
    apply code_app; [apply (code_map _ _ _ _ Supers _ _ (code_list _ _ _ _ code_ref)); by intros ? []|];
    apply code_app; [apply (code_map _ _ _ _ (fun st => Describes (Metadata st)) _ _ code_optional); by intros ? []|];
    apply code_app; [apply (code_map _ _ _ _ (fun st => Descriptor (Metadata st)) _ _ code_optional); by intros ? []|];
    apply (code_map _ _ _ _ Comp _ _ code_comp); by intros ? []|].
  intros x y _ _. cbn beta. rewrite flag_inj. tauto.
Qed.

Lemma code_members : code (fun gr => short (SubTypes gr) /\ Forall (member_scoped m gx) (SubTypes gr))
  (fun gr => short (SubTypes gr) /\ Forall (member_scoped m gy) (SubTypes gr)) (encGroup d)
  (fun x y => Forall2 member_rel (SubTypes x) (SubTypes y)).
Proof. apply (code_map _ _ _ _ SubTypes _ _ (code_list _ _ _ _ code_member)); done. Qed.
End Parts.
