(* ===== verification/StructuralSpec.v ===== *)
(** * Keys of types decide their equivalence

    Bisimilar types, which are the types the comparison finds equivalent, always get
    the same digest and the same key: a digest for indexed and recursive types, a
    hash of the signature for plain ones.  Conversely, where SHA-256 truncated to the
    64 bits of a key does not collide on the texts of a module, equal keys are keys
    of bisimilar types; so equal keys of other types exhibit a collision. *)

From stdpp Require Import base tactics numbers list gmap.
From Stdlib Require Import ZArith Lia.
From S2P Require Import Prelude Reader ReaderLaws Types Module ModuleLaws TypeEquiv TypeEquivLaws TypeEquivSpec.
From S2P Require Import Sha256 Structural StructuralLaws StructuralCode.
Local Open Scope Z_scope.

(** ** Hashes *)

Lemma le_uint64_inj a b : length a = length b -> bytes_ok a -> bytes_ok b -> le_uint64 a = le_uint64 b -> take 8 a = take 8 b.
Proof.
  intros Hl Ha Hb. unfold le_uint64. pose proof (Forall_take _ 8%nat _ Ha) as Ha'. pose proof (Forall_take _ 8%nat _ Hb) as Hb'.
  assert (Hl' : length (take 8 a) = length (take 8 b)) by (rewrite !length_take; lia). revert Hl' Ha' Hb'. clear.
  generalize (take 8 a) as l, (take 8 b) as k. induction l as [|x l IH]; intros [|y k] Hl Hx Hy E; try done.
  apply Forall_cons_1 in Hx as [Hx Hl1], Hy as [Hy Hl2]. unfold byte_ok in *. cbn [foldr] in E.
  assert (x = y /\ foldr (fun b acc => b + 256 * acc) 0 l = foldr (fun b acc => b + 256 * acc) 0 k) as [-> E'] by lia.
  f_equal. apply IH; [by injection Hl|done..].
Qed.

Section Spec.
Context (m : Module_).
Local Abbreviation flat := (typeIndex_flat m).
Local Abbreviation groups := (length (Types_ m)).
Local Abbreviation size := (sk.groupSize m).
Local Abbreviation base := (sk.groupBase m).
Local Abbreviation genc := (genc m).
Local Abbreviation mdig := (mdig m).

(** What is hashed for a member: its place, and the digest of its group. *)
Definition memberText (i : Z) : list Z :=
  match flat !! Z.to_nat i with
  | Some (_, g) => sk.memberInput (size g) (i - base g) ++ sha256.Sum256 (genc g)
  | None => []
  end.

(** Everything the keys of the module hash. *)
Definition inputs : list (list Z) :=
  map genc (seq 0 groups) ++ map (fun i => memberText (Z.of_nat i)) (seq 0 (length flat)) ++
  map (fun p => sk.plainEncoding (Comp (fst p))) (filter (fun p => CKind (Comp (fst p)) = CompFunc) flat).

(** No two texts of the module share the 64 bits of a key. *)
Definition collision_free : Prop :=
  Forall (fun x => Forall (fun y => take 8 (sha256.Sum256 x) = take 8 (sha256.Sum256 y) -> x = y) inputs) inputs.

#[export] Instance collision_free_dec : Decision collision_free.
Proof. unfold collision_free. apply _. Defined.

(** Two texts of the module that do. *)
Definition collision : Prop :=
  exists x y, x ∈ inputs /\ y ∈ inputs /\ x <> y /\ take 8 (sha256.Sum256 x) = take 8 (sha256.Sum256 y).

Lemma free_or_collision : collision_free \/ collision.
Proof.
  destruct (decide collision_free) as [|H]; [by left|right].
  apply not_Forall_Exists in H; [|intros ?; apply _]. apply Exists_exists in H as (x & Hx & H).
  apply not_Forall_Exists in H; [|intros ?; apply _]. apply Exists_exists in H as (y & Hy & H).
  exists x, y. destruct (decide (take 8 (sha256.Sum256 x) = take 8 (sha256.Sum256 y))); [|by destruct H].
  split; [done|]. split; [done|]. split; [|done]. intros E. by destruct H.
Qed.

Hypothesis Hm : module_scoped m.

(** ** Places of types *)

Record located (x : Z) (st : SubType) (g : nat) (gr : RecType) (j : nat) : Prop := {
  lc_flat : 0 <= x /\ flat !! Z.to_nat x = Some (st, g);
  lc_group : Types_ m !! g = Some gr;
  lc_member : SubTypes gr !! j = Some st;
  lc_place : x = base g + Z.of_nat j
}.

Definition in_types (x : Z) : Prop := 0 <= x < sk.flatCount m.

Lemma located_flat x st g : 0 <= x -> flat !! Z.to_nat x = Some (st, g) -> exists gr j, located x st g gr j.
Proof.
  intros Hx Hf. destruct (flat_inside m _ st g Hf) as (gr & j & Hg & Hj & E & _). exists gr, j.
  split; [done|done|done|lia].
Qed.

Lemma in_located x : in_types x -> exists st g gr j, located x st g gr j.
Proof.
  unfold in_types, sk.flatCount. intros Hx. destruct (lookup_lt_is_Some_2 flat (Z.to_nat x)) as [[st g] E]; [lia|].
  exists st, g. apply located_flat; [lia|done].
Qed.

Lemma located_in x st g gr j : located x st g gr j -> in_types x.
Proof. intros [[Hx Hf] _ _ _]. apply lookup_lt_Some in Hf. unfold in_types, sk.flatCount. lia. Qed.

Lemma located_ne x st g gr j : located x st g gr j -> SubTypes gr <> [].
Proof. intros H E. pose proof (lc_member _ _ _ _ _ H) as Hj. by rewrite E in Hj. Qed.

Lemma located_size x st g gr j : located x st g gr j -> size g = Z.of_nat (length (SubTypes gr)) /\ Z.of_nat j < size g.
Proof.
  intros H. unfold sk.groupSize. rewrite (lc_group _ _ _ _ _ H). cbn [from_option]. split; [done|].
  pose proof (lookup_lt_Some _ _ _ (lc_member _ _ _ _ _ H)). lia.
Qed.

Lemma located_unique x st g gr j st' g' gr' j' : located x st g gr j -> located x st' g' gr' j' -> st = st' /\ g = g' /\ j = j'.
Proof.
  intros H H'. pose proof (proj2 (lc_flat _ _ _ _ _ H)) as E. rewrite (proj2 (lc_flat _ _ _ _ _ H')) in E. injection E as -> ->.
  pose proof (lc_place _ _ _ _ _ H). pose proof (lc_place _ _ _ _ _ H'). split; [done|]. split; [done|lia].
Qed.

(** The members of a group. *)
Lemma member_located x st g gr j i : located x st g gr j -> 0 <= i < size g ->
  exists st', located (base g + i) st' g gr (Z.to_nat i).
Proof.
  intros H Hi. destruct (located_size _ _ _ _ _ H) as [Es _].
  destruct (lookup_lt_is_Some_2 (SubTypes gr) (Z.to_nat i) ltac:(lia)) as [st' Hst].
  destruct (flat_member_at m g gr _ st' (lc_group _ _ _ _ _ H) Hst) as [Hb Hf]. exists st'.
  split; [|by apply H|done|lia]. split; [lia|]. by replace (Z.to_nat (base g + i)) with (Z.to_nat (base g) + Z.to_nat i)%nat by lia.
Qed.

(** Earlier types. *)
Lemma below_located x st g gr j i : located x st g gr j -> 0 <= i < base g ->
  exists st' g' gr' j', located i st' g' gr' j' /\ (g' < g)%nat.
Proof.
  intros H Hi. pose proof (base_bound m g gr (lc_group _ _ _ _ _ H) (located_ne _ _ _ _ _ H)) as [_ Hb].
  destruct (located_size _ _ _ _ _ H). destruct (in_located i) as (st' & g' & gr' & j' & H'); [unfold in_types; lia|].
  exists st', g', gr', j'. split; [done|]. eapply flat_earlier; [apply H'| |].
  - eapply lookup_lt_Some, (lc_group _ _ _ _ _ H).
  - destruct (lc_flat _ _ _ _ _ H'). lia.
Qed.

Lemma located_location x st g gr j : located x st g gr j -> mv.groupLocation m x = Some (Z.of_nat g, x - base g, base g).
Proof.
  intros H. destruct (lc_flat _ _ _ _ _ H) as [Hx Hf]. pose proof (located_in _ _ _ _ _ H) as [_ Hn].
  unfold sk.flatCount in Hn. unfold mv.groupLocation, mv.flatSubTypes. rewrite (proj2 (Z.ltb_ge _ _)) by lia.
  rewrite (proj2 (Z.leb_gt _ _)) by lia. cbn [orb]. rewrite Hf. pose proof (lookup_lt_Some _ _ _ (lc_group _ _ _ _ _ H)).
  destruct (type_bases_lookup 0 (Types_ m) g ltac:(lia)) as [b Eb].
  destruct (type_bases_lookup 0 (Types_ m) (S g) ltac:(lia)) as [b' Eb']. apply lookup_lt_Some in Eb'.
  unfold mv.typeGroupBases. rewrite (proj2 (Nat.leb_gt _ _)) by (unfold typeIndex_bases; lia).
  unfold sk.groupBase, typeIndex_bases. by rewrite Eb.
Qed.

Lemma located_subtype x st g gr j : located x st g gr j -> mv.subtypeByFlatTypeIdx m x = Some (st, Z.of_nat g).
Proof.
  intros H. destruct (lc_flat _ _ _ _ _ H) as [Hx Hf]. pose proof (located_in _ _ _ _ _ H) as [_ Hn].
  unfold sk.flatCount in Hn. unfold mv.subtypeByFlatTypeIdx, mv.flatSubTypes. rewrite (proj2 (Z.ltb_ge _ _)) by lia.
  rewrite (proj2 (Z.leb_gt _ _)) by lia. cbn [orb]. by rewrite Hf.
Qed.

Lemma located_header x stx gx grx jx y sty gy gry jy : located x stx gx grx jx -> located y sty gy gry jy ->
  mv.eqHeader m x y =
    if negb (Z.of_nat jx =? Z.of_nat jy) || negb (size gx =? size gy) then None else Some (base gx, base gy, size gx).
Proof.
  intros Hx Hy. unfold mv.eqHeader. rewrite (located_location _ _ _ _ _ Hx), (located_location _ _ _ _ _ Hy).
  unfold mv.groupSize. rewrite !Nat2Z.id, (lc_group _ _ _ _ _ Hx), (lc_group _ _ _ _ _ Hy).
  cbn [fmap option_fmap option_map]. rewrite (lc_place _ _ _ _ _ Hx), (lc_place _ _ _ _ _ Hy).
  destruct (located_size _ _ _ _ _ Hx) as [-> _], (located_size _ _ _ _ _ Hy) as [-> _].
  by replace (base gx + Z.of_nat jx - base gx) with (Z.of_nat jx) by lia;
    replace (base gy + Z.of_nat jy - base gy) with (Z.of_nat jy) by lia.
Qed.

(** ** Digests *)

Lemma located_text x st g gr j : located x st g gr j ->
  memberText x = sk.memberInput (size g) (Z.of_nat j) ++ sha256.Sum256 (genc g).
Proof.
  intros H. unfold memberText. rewrite (proj2 (lc_flat _ _ _ _ _ H)), (lc_place _ _ _ _ _ H). do 2 f_equal. lia.
Qed.

Lemma mdig_text x : in_types x -> mdig x = sha256.Sum256 (memberText x).
Proof.
  intros H. destruct (in_located x H) as (st & g & gr & j & Hl). unfold StructuralLaws.mdig, digestOf, memberText.
  by rewrite (proj2 (lc_flat _ _ _ _ _ Hl)).
Qed.

Lemma mdig_length x : in_types x -> length (mdig x) = 32%nat.
Proof. intros H. rewrite (mdig_text x H). apply sha256.Sum256_length. Qed.

Lemma text_input x : in_types x -> memberText x ∈ inputs.
Proof.
  intros [H0 H]. apply elem_of_app; right. apply elem_of_app; left. apply list_elem_of_In, in_map_iff.
  exists (Z.to_nat x). split; [by rewrite Z2Nat.id by lia|]. apply list_elem_of_In, elem_of_seq. unfold sk.flatCount in H. lia.
Qed.

Lemma genc_input g : (g < groups)%nat -> genc g ∈ inputs.
Proof.
  intros H. apply elem_of_app; left. apply list_elem_of_In, in_map_iff. exists g. split; [done|].
  apply list_elem_of_In, elem_of_seq. lia.
Qed.

(** Digests agree where places, sizes and group encodings do. *)
Lemma mdig_equal x stx gx grx jx y sty gy gry jy : located x stx gx grx jx -> located y sty gy gry jy ->
  jx = jy -> size gx = size gy -> genc gx = genc gy -> mdig x = mdig y.
Proof.
  intros Hx Hy E1 E2 E3. pose proof (located_in _ _ _ _ _ Hx) as Ix. pose proof (located_in _ _ _ _ _ Hy) as Iy.
  rewrite (mdig_text x Ix), (mdig_text y Iy), (located_text _ _ _ _ _ Hx), (located_text _ _ _ _ _ Hy). by rewrite E1, E2, E3.
Qed.

(** ** Digests and bisimilarity *)

#[local] Opaque sha256.Sum256 StructuralLaws.genc StructuralLaws.mdig.

(** The parts of two groups, compared through any relation with these two
    properties. *)
Lemma groups_code x stx gx grx jx y sty gy gry jy R :
  located x stx gx grx jx -> located y sty gy gry jy ->
  (forall i j, 0 <= i < size gx -> 0 <= j < size gy -> R (base gx + i) (base gy + j) <-> i = j) ->
  (forall i j, 0 <= i < base gx -> 0 <= j < base gy -> R i j <-> mdig i = mdig j) ->
  genc gx = genc gy <-> Forall2 (member_rel m gx gy R) (SubTypes grx) (SubTypes gry).
Proof.
  intros Hx Hy Hrec Hdig. pose proof (lc_group _ _ _ _ _ Hx) as Gx. pose proof (lc_group _ _ _ _ _ Hy) as Gy.
  rewrite (genc_unfold m Hm gx grx Gx), (genc_unfold m Hm gy gry Gy).
  assert (Hshort : forall g gr, Types_ m !! g = Some gr -> short (SubTypes gr)).
  { intros g gr E. pose proof (size_small m Hm g gr E) as H. unfold sk.groupSize in H. rewrite E in H. cbn in H. unfold short. lia. }
  apply (code_eq _ _ _ _ grx gry (code_members m Hm gx gy grx gry Gx Gy (located_ne _ _ _ _ _ Hx) (located_ne _ _ _ _ _ Hy)
    mdig R ltac:(intros i [Hi|Hi]; apply mdig_length;
      [destruct (below_located _ _ _ _ _ i Hx Hi) as (? & ? & ? & ? & H & _)|destruct (below_located _ _ _ _ _ i Hy Hi) as (? & ? & ? & ? & H & _)];
      by eapply located_in) Hrec Hdig)).
  - split; [by eapply Hshort|by apply (sc_groups _ Hm)].
  - split; [by eapply Hshort|by apply (sc_groups _ Hm)].
Qed.

(** From the parts of two members to the types. *)
Lemma member_type R x stx gx grx jx y sty gy gry jy :
  located x stx gx grx jx -> located y sty gy gry jy -> jx = jy -> size gx = size gy ->
  (forall i, 0 <= i < size gx -> R (base gx + i) (base gy + i)) ->
  member_rel m gx gy R stx sty -> type_rel m R x y.
Proof.
  intros Hx Hy Hj Hs Hall (E1 & E2 & E3 & E4 & E5 & E6).
  exists (base gx), (base gy), (size gx), stx, (Z.of_nat gx), sty, (Z.of_nat gy).
  destruct (located_size _ _ _ _ _ Hx) as [_ Hjx]. split.
  { rewrite (located_header _ _ _ _ _ _ _ _ _ _ Hx Hy), Hj, Hs, !Z.eqb_refl. done. }
  split.
  { apply eqTypes_spec. split; [by eapply located_subtype|]. split; [by eapply located_subtype|]. split; [done|].
    split; [by eapply Forall2_length|done]. }
  split; [specialize (Hall 0); rewrite !Z.add_0_r in Hall; apply Hall; lia|]. split; [by intros _|]. done.
Qed.

(** And back. *)
Lemma type_member R x stx gx grx jx y sty gy gry jy :
  located x stx gx grx jx -> located y sty gy gry jy -> type_rel m R x y ->
  jx = jy /\ size gx = size gy /\ R (base gx) (base gy) /\
  (x = base gx -> forall i, 0 <= i < size gx -> R (base gx + i) (base gy + i)) /\ member_rel m gx gy R stx sty.
Proof.
  intros Hx Hy (xb & yb & n & xs & kx & ys & ky & H1 & H2 & H3 & H4 & H5 & H6 & H7 & H8).
  rewrite (located_header _ _ _ _ _ _ _ _ _ _ Hx Hy) in H1. destruct (Z.eqb_spec (Z.of_nat jx) (Z.of_nat jy)) as [Ej|]; [|done].
  destruct (Z.eqb_spec (size gx) (size gy)) as [Es|]; [|done]. injection H1 as <- <- <-.
  apply eqTypes_spec in H2 as (T1 & T2 & T3 & T4 & T5).
  rewrite (located_subtype _ _ _ _ _ Hx) in T1. rewrite (located_subtype _ _ _ _ _ Hy) in T2.
  injection T1 as <- <-. injection T2 as <- <-. split; [lia|]. split; [done|]. split; [done|]. split; [done|].
  split; [done|]. split; [done|]. done.
Qed.

Lemma member_at x y stx sty gx gy grx gry jx jy R : located x stx gx grx jx -> located y sty gy gry jy -> jx = jy ->
  Forall2 (member_rel m gx gy R) (SubTypes grx) (SubTypes gry) -> member_rel m gx gy R stx sty.
Proof.
  intros Hx Hy <- H. eapply Forall2_lookup_lr; [exact H|apply (lc_member _ _ _ _ _ Hx)|apply (lc_member _ _ _ _ _ Hy)].
Qed.

(** Bisimilar types are at the same place of groups of one size. *)
Lemma bisimilar_places x stx gx grx jx y sty gy gry jy : located x stx gx grx jx -> located y sty gy gry jy ->
  bisimilar m x y -> jx = jy.
Proof.
  intros Hx Hy [E|H]%bisimilar_unfold.
  - rewrite <- E in Hy. by destruct (located_unique _ _ _ _ _ _ _ _ _ Hx Hy) as (_ & _ & ?).
  - by apply (type_member _ _ _ _ _ _ _ _ _ _ _ Hx Hy) in H as (? & _).
Qed.

(** The whole groups are bisimilar. *)
Lemma bisimilar_group x stx gx grx jx y sty gy gry jy : located x stx gx grx jx -> located y sty gy gry jy ->
  bisimilar m x y -> x <> y -> jx = jy /\ size gx = size gy /\ base gx <> base gy /\
  forall i, 0 <= i < size gx -> bisimilar m (base gx + i) (base gy + i).
Proof.
  intros Hx Hy [?|H]%bisimilar_unfold Hne; [done|].
  apply (type_member _ _ _ _ _ _ _ _ _ _ _ Hx Hy) in H as (Ej & Es & Hb & _ & _).
  assert (Hbne : base gx <> base gy).
  { intros E. apply Hne. rewrite (lc_place _ _ _ _ _ Hx), (lc_place _ _ _ _ _ Hy), Ej, E. done. }
  split; [done|]. split; [done|]. split; [done|]. apply bisimilar_unfold in Hb as [?|Hb]; [done|].
  destruct (located_size _ _ _ _ _ Hx) as [_ Hs].
  destruct (member_located _ _ _ _ _ 0 Hx ltac:(lia)) as (s1 & L1), (member_located _ _ _ _ _ 0 Hy ltac:(lia)) as (s2 & L2).
  rewrite Z.add_0_r in L1, L2. apply (type_member _ _ _ _ _ _ _ _ _ _ _ L1 L2) in Hb as (_ & _ & _ & Hall & _). by apply Hall.
Qed.

Lemma mono_member gx gy a b : monotone (fun R => member_rel m gx gy R a b).
Proof.
  intros R R' H (E1 & E2 & E3 & E4 & E5 & E6). split; [done|].
  split; [by eapply (mono_forall2 (fun R => super_rel m R _ _)); [intros; apply mono_super|exact H|exact E2]|].
  split; [by eapply mono_optional|]. split; [by eapply mono_optional|]. split; [done|]. by eapply mono_comp.
Qed.

(** What bisimilarity says of references from one group and from another: earlier
    types have equal digests, members of the two groups the same place. *)
Definition referenced (gx gy : nat) (a b : Z) : Prop :=
  (0 <= a < base gx -> 0 <= b < base gy -> mdig a = mdig b) /\
  (forall i j, 0 <= i < size gx -> 0 <= j < size gy -> a = base gx + i -> b = base gy + j -> i = j).

(** Bisimilar types have the same digest. *)
Lemma bisimilar_same_digest x y : in_types x -> in_types y -> bisimilar m x y -> mdig x = mdig y.
Proof.
  intros Ix. destruct (in_located x Ix) as (stx & gx & grx & jx & Hx). clear Ix. revert x y stx grx jx Hx.
  induction (lt_wf gx) as [gx _ IH]. intros x y stx grx jx Hx Iy Hb.
  destruct (in_located y Iy) as (sty & gy & gry & jy & Hy). destruct (decide (x = y)) as [->|Hne]; [done|].
  destruct (bisimilar_group _ _ _ _ _ _ _ _ _ _ Hx Hy Hb Hne) as (Ej & Es & Hbne & Hall).
  apply (mdig_equal _ _ _ _ _ _ _ _ _ _ Hx Hy Ej Es). apply (groups_code _ _ _ _ _ _ _ _ _ _ (referenced gx gy) Hx Hy).
  - intros i j Hi Hj. split; [intros [_ H]; exact (H i j Hi Hj eq_refl eq_refl)|]. intros ->. split; [lia|]. intros i' j'. lia.
  - intros i j Hi Hj. split; [intros [H _]; exact (H Hi Hj)|]. intros E. split; [intros _ _; exact E|]. intros i' j'. lia.
  - assert (Himp : forall a b, bisimilar m a b -> referenced gx gy a b).
    { intros a b Hab. split.
      - intros Ha Hb'. destruct (below_located _ _ _ _ _ a Hx Ha) as (? & ga & ? & ? & La & Hlt).
        destruct (below_located _ _ _ _ _ b Hy Hb') as (? & ? & ? & ? & Lb & _).
        eapply (IH ga Hlt); [exact La|by eapply located_in|done].
      - intros i j Hi Hj -> ->. destruct (member_located _ _ _ _ _ i Hx Hi) as (s1 & L1).
        destruct (member_located _ _ _ _ _ j Hy Hj) as (s2 & L2).
        pose proof (bisimilar_places _ _ _ _ _ _ _ _ _ _ L1 L2 Hab). lia. }
    destruct (located_size _ _ _ _ _ Hx) as [Sx _], (located_size _ _ _ _ _ Hy) as [Sy _].
    apply Forall2_same_length_lookup_2; [lia|]. intros i a b Ha Hb'. apply (mono_member gx gy a b _ _ Himp).
    assert (Hi : 0 <= Z.of_nat i < size gx) by (apply lookup_lt_Some in Ha; lia).
    destruct (member_located _ _ _ _ _ _ Hx Hi) as (s1 & L1).
    destruct (member_located _ _ _ _ _ (Z.of_nat i) Hy ltac:(lia)) as (s2 & L2).
    pose proof (lc_member _ _ _ _ _ L1) as M1. pose proof (lc_member _ _ _ _ _ L2) as M2. rewrite Nat2Z.id in M1, M2.
    rewrite Ha in M1. rewrite Hb' in M2. injection M1 as <-. injection M2 as <-.
    specialize (Hall _ Hi). apply bisimilar_unfold in Hall as [E|Hall]; [lia|].
    by apply (type_member _ _ _ _ _ _ _ _ _ _ _ L1 L2) in Hall as (_ & _ & _ & _ & ?).
Qed.

(** ** Plain signatures *)

Definition plain_val (g : nat) (v : ValType) : Prop :=
  val_scoped m g v /\ (ValType_Kind v =? ValRef) && negb (HeapType_Kind (RefType_Heap (ValType_Ref v)) =? HeapAbs) = false.

Definition abs_val (v : ValType) : Prop :=
  ValType_Kind v = ValNum \/ (ValType_Kind v = ValVec /\ ValType_Num v = 0) \/
  (ValType_Kind v = ValRef /\ ValType_Num v = 0 /\ HeapType_Kind (RefType_Heap (ValType_Ref v)) = HeapAbs).

Lemma plain_abs g v : plain_val g v -> abs_val v.
Proof.
  intros [Hs Hp]. destruct Hs as [E|[E|(E & En & [Eh|[Eh _]])]]; [by left|by right; left|by right; right|].
  rewrite E, Eh in Hp. discriminate Hp.
Qed.

Lemma flags_inj (a b c d : bool) : Z.lor (sk.flag a) (if b then 2 else 0) = Z.lor (sk.flag c) (if d then 2 else 0) <-> a = c /\ b = d.
Proof. destruct a, b, c, d; vm_compute; split; try done; by intros [? ?]. Qed.

Lemma code_plain R gx gy : code abs_val abs_val sk.writePlainValue (val_rel m R gx gy).
Proof.
  intros x y r r' Hx Hy. unfold sk.writePlainValue, val_rel.
  destruct Hx as [Ex|[[Ex Nx]|(Ex & Nx & Hhx)]], Hy as [Ey|[[Ey Ny]|(Ey & Ny & Hhy)]]; rewrite Ex, Ey;
    cbn [Z.eqb Pos.eqb ValNum ValVec ValRef app]; try tags_differ.
  - pose proof (to_u8_inj _ _ (ValType_Num_byte x) (ValType_Num_byte y)) as Hn. split.
    + intros [= E ->]. apply Hn in E. done.
    + intros [(_ & E & _) ->]. by rewrite E.
  - rewrite Nx, Ny. split; [intros [= ->]; done|by intros [_ ->]].
  - rewrite Nx, Ny, Hhx, Hhy. unfold heap_rel. rewrite Hhx, Hhy.
    pose proof (to_u8_inj _ _ (HeapType_Abs_byte (RefType_Heap (ValType_Ref x))) (HeapType_Abs_byte (RefType_Heap (ValType_Ref y)))) as Ha.
    split.
    + intros E. pose proof (f_equal (lookup 1%nat) E) as E1. pose proof (f_equal (lookup 3%nat) E) as E2.
      apply (f_equal (drop 4)) in E. cbn [drop lookup list_lookup] in E, E1, E2. injection E1 as E1. injection E2 as E2.
      apply flags_inj in E1 as [? ?]. apply Ha in E2. split; [|done]. split; [done|]. split; [done|]. intros _.
      split; [done|]. split; [done|]. split; [done|by left].
    + intros [(_ & _ & H) ->]. destruct (H eq_refl) as (E1 & E2 & _ & [[_ E3]|[[? _]|[? _]]]); [|done..].
      by rewrite E1, E2, E3.
Qed.

Lemma plainEncoding_list ft :
  sk.plainEncoding ft = encList sk.writePlainValue (Params ft) ++ 0xfe :: encList sk.writePlainValue (Results ft).
Proof. unfold sk.plainEncoding, encList. by rewrite <- app_assoc. Qed.

Lemma plainEncoding_iff R gx gy a b :
  (short (Params a) /\ Forall abs_val (Params a)) /\ short (Results a) /\ Forall abs_val (Results a) ->
  (short (Params b) /\ Forall abs_val (Params b)) /\ short (Results b) /\ Forall abs_val (Results b) ->
  sk.plainEncoding a = sk.plainEncoding b <->
  Forall2 (val_rel m R gx gy) (Params a) (Params b) /\ Forall2 (val_rel m R gx gy) (Results a) (Results b).
Proof.
  intros [Ha1 Ha2] [Hb1 Hb2]. rewrite !plainEncoding_list.
  rewrite (code_list _ _ _ _ (code_plain R gx gy) _ _ _ _ Ha1 Hb1).
  pose proof (code_eq _ _ _ _ _ _ (code_list _ _ _ _ (code_plain R gx gy)) Ha2 Hb2) as H. rewrite <- H.
  split; (intros [? E]; split; [done|]); [by apply (f_equal tail) in E|by rewrite E].
Qed.

Definition indexed (st : SubType) (g : nat) : bool :=
  sk.compTypeHasIndexedReferences (Comp st) || (1 <? size g) || negb (Final st)
  || negb (length (Supers st) =? 0)%nat || OptionalTypeIdx_Present (Describes (Metadata st))
  || OptionalTypeIdx_Present (Descriptor (Metadata st)).

Lemma indexed_false st g : indexed st g = false -> sk.compTypeHasIndexedReferences (Comp st) = false /\ size g <= 1 /\
  Final st = true /\ Supers st = [] /\ OptionalTypeIdx_Present (Describes (Metadata st)) = false /\
  OptionalTypeIdx_Present (Descriptor (Metadata st)) = false.
Proof.
  unfold indexed. rewrite !orb_false_iff, !negb_false_iff, Z.ltb_ge. intros (((((? & ?) & ?) & E) & ?) & ?).
  split; [done|]. split; [done|]. split; [done|]. split; [|done]. destruct (Supers st); done.
Qed.

Definition func_at (x : Z) (st : SubType) (g : nat) : Prop :=
  (exists gr j, located x st g gr j) /\ CKind (Comp st) = CompFunc.

Lemma func_comp x st g : func_at x st g -> (short (Params (Comp st)) /\ Forall (val_scoped m g) (Params (Comp st))) /\
  short (Results (Comp st)) /\ Forall (val_scoped m g) (Results (Comp st)).
Proof.
  intros [(gr & j & H) Hk]. pose proof (Forall_lookup_1 _ _ _ _ (sc_groups _ Hm _ _ (lc_group _ _ _ _ _ H)) (lc_member _ _ _ _ _ H)) as Hs.
  destruct (ms_comp _ _ _ Hs) as [(_ & ? & ?)|[[E _]|[E _]]]; [done|rewrite E in Hk; discriminate Hk..].
Qed.

Lemma plain_comp x st g : func_at x st g -> indexed st g = false ->
  (short (Params (Comp st)) /\ Forall abs_val (Params (Comp st))) /\ short (Results (Comp st)) /\ Forall abs_val (Results (Comp st)).
Proof.
  intros Hf Hi. destruct (indexed_false _ _ Hi) as (E & _). destruct (func_comp _ _ _ Hf) as [[S1 F1] [S2 F2]].
  unfold sk.compTypeHasIndexedReferences in E. rewrite existsb_app in E. apply orb_false_iff in E as [E1 E2].
  assert (Hall : forall l, Forall (val_scoped m g) l -> existsb (fun v => (ValType_Kind v =? ValRef) &&
      negb (HeapType_Kind (RefType_Heap (ValType_Ref v)) =? HeapAbs)) l = false -> Forall abs_val l).
  { induction 1 as [|v l Hv _ IH]; intros E; [apply Forall_nil_2|]. cbn [existsb] in E. apply orb_false_iff in E as [Ev El].
    apply Forall_cons_2; [by apply (plain_abs g)|by apply IH]. }
  split; (split; [done|]); by apply Hall.
Qed.

(** ** Keys *)

Definition keyOf (x : Z) (st : SubType) (g : nat) : Z :=
  if indexed st g then le_uint64 (mdig x) else sk.StructuralFuncTypeKey (Comp st).

(** A plain type of a group of its own is at its base. *)
Lemma plain_place x st g gr j : located x st g gr j -> size g <= 1 -> j = 0%nat /\ x = base g /\ size g = 1.
Proof.
  intros H Hs. destruct (located_size _ _ _ _ _ H) as [_ Hj]. pose proof (lc_place _ _ _ _ _ H). lia.
Qed.

Lemma indexed_bisimilar x stx gx y sty gy : func_at x stx gx -> func_at y sty gy -> bisimilar m x y ->
  indexed stx gx = indexed sty gy.
Proof.
  intros [(grx & jx & Hx) Kx] [(gry & jy & Hy) Ky] [E|H]%bisimilar_unfold.
  { rewrite <- E in Hy. by destruct (located_unique _ _ _ _ _ _ _ _ _ Hx Hy) as (-> & -> & _). }
  apply (type_member _ _ _ _ _ _ _ _ _ _ _ Hx Hy) in H as (_ & Es & _ & _ & (E1 & E2 & E3 & E4 & _ & E6)).
  unfold indexed, OptionalTypeIdx_Present. unfold optional_rel, OptionalTypeIdx_Get in E3, E4.
  destruct E3 as [-> _], E4 as [-> _]. rewrite Es, E1, (Forall2_length _ _ _ E2). do 5 f_equal.
  destruct E6 as [(_ & P1 & P2)|[[E _]|[E _]]]; [|rewrite E in Kx; discriminate Kx..].
  unfold sk.compTypeHasIndexedReferences.
  pose proof (Forall2_app P1 P2) as P. induction P as [|v w l k Hv _ IH]; [done|]. cbn [existsb].
  rewrite IH. f_equal. destruct Hv as (Ev & _ & Hr). rewrite <- Ev. destruct (Z.eqb_spec (ValType_Kind v) ValRef) as [Er|]; [|done].
  destruct (Hr Er) as (_ & _ & [Eh _]). by rewrite Eh.
Qed.

Lemma plain_decides x stx gx y sty gy : func_at x stx gx -> func_at y sty gy ->
  indexed stx gx = false -> indexed sty gy = false ->
  sk.plainEncoding (Comp stx) = sk.plainEncoding (Comp sty) <-> bisimilar m x y.
Proof.
  intros Fx Fy Px Py. pose proof (plain_comp _ _ _ Fx Px) as Cx. pose proof (plain_comp _ _ _ Fy Py) as Cy.
  destruct Fx as [(grx & jx & Hx) Kx], Fy as [(gry & jy & Hy) Ky].
  destruct (indexed_false _ _ Px) as (_ & Sx & Fx & Ux & Dx & Ex), (indexed_false _ _ Py) as (_ & Sy & Fy & Uy & Dy & Ey).
  destruct (plain_place _ _ _ _ _ Hx Sx) as (Jx & Bx & Zx), (plain_place _ _ _ _ _ Hy Sy) as (Jy & By & Zy).
  split.
  - intros E. apply (plainEncoding_iff (fun a b => a = x /\ b = y) (Z.of_nat gx) (Z.of_nat gy) _ _ Cx Cy) in E as [E1 E2].
    apply (bisimilar_coind m (fun a b => a = x /\ b = y)); [|done]. intros a b [-> ->]. right.
    eapply member_type; [exact Hx|exact Hy|congruence|congruence| |].
    + intros i Hi. lia.
    + unfold member_rel, optional_rel, OptionalTypeIdx_Get, OptionalTypeIdx_Present in *.
      rewrite Fx, Fy, Ux, Uy, Dx, Dy, Ex, Ey, Kx, Ky. split; [done|]. split; [by constructor|]. split; [by split|].
      split; [by split|]. split; [done|]. left. done.
  - intros [E|H]%bisimilar_unfold.
    + rewrite <- E in Hy. by destruct (located_unique _ _ _ _ _ _ _ _ _ Hx Hy) as (-> & _).
    + apply (type_member _ _ _ _ _ _ _ _ _ _ _ Hx Hy) in H as (_ & _ & _ & _ & (_ & _ & _ & _ & _ & E6)).
      destruct E6 as [(_ & P1 & P2)|[[E _]|[E _]]]; [|rewrite E in Kx; discriminate Kx..].
      by apply (plainEncoding_iff (bisimilar m) (Z.of_nat gx) (Z.of_nat gy) _ _ Cx Cy).
Qed.

Lemma plain_input x st g : func_at x st g -> sk.plainEncoding (Comp st) ∈ inputs.
Proof.
  intros [(gr & j & H) Hk]. apply elem_of_app; right. apply elem_of_app; right. apply list_elem_of_In, in_map_iff.
  exists (st, g). split; [done|]. apply list_elem_of_In, list_elem_of_filter. split; [done|].
  eapply list_elem_of_lookup_2, (lc_flat _ _ _ _ _ H).
Qed.

(** A signature with as many parameters as the tag of a member is longer. *)
Lemma plain_not_member x st g y : func_at x st g -> indexed st g = false -> in_types y ->
  sk.plainEncoding (Comp st) <> memberText y.
Proof.
  intros Hf Hi Hy E. destruct (in_located y Hy) as (sty & gy & gry & jy & Hl). rewrite (located_text _ _ _ _ _ Hl) in E.
  destruct (func_comp _ _ _ Hf) as [[Hs _] _]. unfold short in Hs.
  pose proof (f_equal (lookup 0%nat) E) as E0. pose proof (f_equal length E) as El. clear E.
  unfold sk.plainEncoding, sk.memberInput in *. cbn [le32 app lookup list_lookup] in E0. injection E0 as E0.
  rewrite to_u32_small in E0 by lia. unfold to_u8 in E0.
  assert (Hlong : forall l, (length l <= length (concat (map sk.writePlainValue l)))%nat).
  { induction l as [|v l IH]; [done|]. cbn [map concat]. rewrite length_app. cbn [length].
    assert ((1 <= length (sk.writePlainValue v))%nat) by (unfold sk.writePlainValue; cbn [length]; lia). lia. }
  rewrite !length_app in El. cbn [length] in El. rewrite !length_app, sha256.Sum256_length in El. cbn [le32 length] in El.
  pose proof (Hlong (Params (Comp st))). pose proof (Z.mod_le (Z.of_nat (length (Params (Comp st)))) (2 ^ 8) ltac:(lia) ltac:(lia)). lia.
Qed.

Lemma key_hash x y : length x = 32%nat -> length y = 32%nat -> bytes_ok x -> bytes_ok y ->
  le_uint64 x = le_uint64 y <-> take 8 x = take 8 y.
Proof.
  intros Lx Ly Bx By. split; [apply le_uint64_inj; congruence|]. unfold le_uint64. by intros ->.
Qed.

(** Bisimilar types have the same key. *)
Lemma bisimilar_same_key x stx gx y sty gy : func_at x stx gx -> func_at y sty gy ->
  bisimilar m x y -> keyOf x stx gx = keyOf y sty gy.
Proof.
  intros Fx Fy H. assert (Ix : in_types x) by (destruct Fx as [(? & ? & L) _]; by eapply located_in).
  assert (Iy : in_types y) by (destruct Fy as [(? & ? & L) _]; by eapply located_in).
  unfold keyOf. rewrite <- (indexed_bisimilar _ _ _ _ _ _ Fx Fy H). destruct (indexed stx gx) eqn:Ex.
  - by rewrite (bisimilar_same_digest x y Ix Iy H).
  - unfold sk.StructuralFuncTypeKey. pose proof (indexed_bisimilar _ _ _ _ _ _ Fx Fy H) as Ey. rewrite Ex in Ey.
    by rewrite (proj2 (plain_decides _ _ _ _ _ _ Fx Fy Ex (eq_sym Ey)) H).
Qed.

(** ** Without collisions *)

Hypothesis Hfree : collision_free.

Lemma no_collision x y : x ∈ inputs -> y ∈ inputs -> take 8 (sha256.Sum256 x) = take 8 (sha256.Sum256 y) -> x = y.
Proof.
  intros Hx Hy. pose proof (proj1 (Forall_forall _ _) Hfree x Hx) as H. exact (proj1 (Forall_forall _ _) H y Hy).
Qed.

(** Digests agree exactly when places, sizes and group encodings do. *)
Lemma mdig_same x stx gx grx jx y sty gy gry jy : located x stx gx grx jx -> located y sty gy gry jy ->
  mdig x = mdig y <-> jx = jy /\ size gx = size gy /\ genc gx = genc gy.
Proof.
  intros Hx Hy. pose proof (located_in _ _ _ _ _ Hx) as Ix. pose proof (located_in _ _ _ _ _ Hy) as Iy.
  rewrite (mdig_text x Ix), (mdig_text y Iy).
  destruct (located_size _ _ _ _ _ Hx) as [_ Sx], (located_size _ _ _ _ _ Hy) as [_ Sy].
  pose proof (size_small m Hm gx grx (lc_group _ _ _ _ _ Hx)). pose proof (size_small m Hm gy gry (lc_group _ _ _ _ _ Hy)).
  split.
  - intros E. apply (f_equal (take 8)) in E. apply no_collision in E; [|by apply text_input..].
    rewrite (located_text _ _ _ _ _ Hx), (located_text _ _ _ _ _ Hy) in E.
    apply app_inj_1 in E as [E1 E2]; [|done]. unfold sk.memberInput in E1. apply (f_equal tail) in E1. cbn [tail] in E1.
    apply app_inj_1 in E1 as [E1 E3]; [|done].
    apply le32_inj in E1; [|unfold u32_ok; lia..]. apply le32_inj in E3; [|unfold u32_ok; lia..].
    split; [lia|]. split; [done|]. apply no_collision; [..|by rewrite E2];
      apply genc_input; eapply lookup_lt_Some; [apply Hx|apply Hy].
  - intros (E1 & E2 & E3). rewrite <- (mdig_text x Ix), <- (mdig_text y Iy). by eapply mdig_equal.
Qed.

(** Equal digests are a bisimulation. *)
Definition same_digest (x y : Z) : Prop := in_types x /\ in_types y /\ mdig x = mdig y.

Lemma same_digest_places x stx gx grx jx y sty gy gry jy : located x stx gx grx jx -> located y sty gy gry jy ->
  size gx = size gy -> genc gx = genc gy ->
  forall i j, 0 <= i < size gx -> 0 <= j < size gy -> same_digest (base gx + i) (base gy + j) <-> i = j.
Proof.
  intros Hx Hy Hs He i j Hi Hj. destruct (member_located _ _ _ _ _ i Hx Hi) as (s1 & L1), (member_located _ _ _ _ _ j Hy Hj) as (s2 & L2).
  unfold same_digest. rewrite (mdig_same _ _ _ _ _ _ _ _ _ _ L1 L2). split; [intros (_ & _ & ? & _); lia|].
  intros ->. split; [by eapply located_in|]. split; [by eapply located_in|]. split; [reflexivity|]. split; [exact Hs|exact He].
Qed.

Lemma same_digest_bisimilar x y : same_digest x y -> bisimilar m x y.
Proof.
  apply bisimilar_coind. intros a b (Ia & Ib & E). right.
  destruct (in_located a Ia) as (sa & ga & gra & ja & La), (in_located b Ib) as (sb & gb & grb & jb & Lb).
  apply (mdig_same _ _ _ _ _ _ _ _ _ _ La Lb) in E as (Ej & Es & Ee).
  pose proof (same_digest_places _ _ _ _ _ _ _ _ _ _ La Lb Es Ee) as Hp.
  assert (Hd : forall i j, 0 <= i < base ga -> 0 <= j < base gb -> same_digest i j <-> mdig i = mdig j).
  { intros i j Hi Hj. unfold same_digest. split; [by intros (_ & _ & ?)|]. intros E.
    destruct (below_located _ _ _ _ _ i La Hi) as (? & ? & ? & ? & Li & _).
    destruct (below_located _ _ _ _ _ j Lb Hj) as (? & ? & ? & ? & Lj & _).
    split; [by eapply located_in|]. split; [by eapply located_in|done]. }
  eapply member_type; [exact La|exact Lb|done|done| |].
  - intros i Hi. apply Hp; [done|by rewrite <- Es|done].
  - eapply member_at; [exact La|exact Lb|done|]. by apply (groups_code _ _ _ _ _ _ _ _ _ _ _ La Lb Hp Hd).
Qed.

Lemma digest_decides x y : in_types x -> in_types y -> mdig x = mdig y <-> bisimilar m x y.
Proof.
  intros Hx Hy. split; [|exact (bisimilar_same_digest x y Hx Hy)]. intros E. apply same_digest_bisimilar.
  split; [exact Hx|]. split; [exact Hy|exact E].
Qed.

(** Keys agree exactly when the types do. *)
Lemma keys_decide x stx gx y sty gy : func_at x stx gx -> func_at y sty gy ->
  keyOf x stx gx = keyOf y sty gy <-> bisimilar m x y.
Proof.
  intros Fx Fy. assert (Ix : in_types x) by (destruct Fx as [(? & ? & H) _]; by eapply located_in).
  assert (Iy : in_types y) by (destruct Fy as [(? & ? & H) _]; by eapply located_in).
  pose proof (text_input x Ix) as Tx. pose proof (text_input y Iy) as Ty.
  pose proof (plain_input _ _ _ Fx) as Qx. pose proof (plain_input _ _ _ Fy) as Qy.
  assert (Hkey : forall a b, a ∈ inputs -> b ∈ inputs -> le_uint64 (sha256.Sum256 a) = le_uint64 (sha256.Sum256 b) <-> a = b).
  { intros a b Ha Hb. rewrite key_hash by (apply sha256.Sum256_length || apply sha256.Sum256_bytes).
    split; [by apply no_collision|by intros ->]. }
  unfold keyOf, sk.StructuralFuncTypeKey. rewrite (mdig_text x Ix), (mdig_text y Iy).
  destruct (indexed stx gx) eqn:Ex, (indexed sty gy) eqn:Ey.
  - rewrite (Hkey _ _ Tx Ty), <- (digest_decides x y Ix Iy). rewrite (mdig_text x Ix), (mdig_text y Iy).
    split; [by intros ->|]. intros E. apply (f_equal (take 8)) in E. by apply no_collision.
  - rewrite (Hkey _ _ Tx Qy). split; [intros E; symmetry in E; by apply (plain_not_member _ _ _ _ Fy Ey Ix) in E|].
    intros H. apply (indexed_bisimilar _ _ _ _ _ _ Fx Fy) in H. congruence.
  - rewrite (Hkey _ _ Qx Ty). split; [intros E; by apply (plain_not_member _ _ _ _ Fx Ex Iy) in E|].
    intros H. apply (indexed_bisimilar _ _ _ _ _ _ Fx Fy) in H. congruence.
  - rewrite (Hkey _ _ Qx Qy). by apply (plain_decides x stx gx y sty gy).
Qed.
End Spec.
