(* ===== verification/StructuralKeys.v ===== *)
(** * Queries for keys

    The keys of an accepted module, asked for in any order through the cache. *)

From stdpp Require Import base tactics numbers list gmap.
From Stdlib Require Import ZArith Lia.
From S2P Require Import Prelude Reader ReaderLaws Types Module ModuleLaws TypeEquiv TypeEquivLaws TypeEquivSpec.
From S2P Require Import Subtyping Validator ModuleValid Sha256 Structural StructuralLaws StructuralCode StructuralSpec.
From S2P Require Import Decode TypeResolve ModuleDecode StructuralScope.
Local Open Scope Z_scope.

#[local] Opaque sha256.Sum256 StructuralLaws.genc StructuralLaws.mdig.

Section Keys.
Context (m : Module_).
Hypothesis Hm : module_scoped m.
Local Abbreviation flat := (typeIndex_flat m).
Local Abbreviation size := (sk.groupSize m).
Local Abbreviation base := (sk.groupBase m).
Local Abbreviation genc := (genc m).
Local Abbreviation mdig := (mdig m).

(** The encodings of all groups. *)
Definition encodingSize : Z := total m (fun g => Z.of_nat (length (genc g))).

(** ** Lookups *)

Lemma lookup_type x : 0 <= x ->
  (if sk.flatCount m <=? x then None else flat !! Z.to_nat x) = flat !! Z.to_nat x.
Proof.
  intros Hx. destruct (Z.leb_spec (sk.flatCount m) x) as [H|]; [|done]. unfold sk.flatCount in H.
  by rewrite lookup_ge_None_2 by lia.
Qed.

Lemma typeFunc_flat x : 0 <= x -> typeFunc m {| Index := x; Rec := false |} =
  match flat !! Z.to_nat x with
  | Some (st, _) => if CKind (Comp st) =? CompFunc then Some (Comp st) else None
  | None => None
  end.
Proof.
  intros Hx. unfold typeFunc, subtypeByTypeIdx. rewrite subtypeByTypeIdx_flat by done. cbn [Rec Index].
  by destruct (flat !! Z.to_nat x) as [[st g]|].
Qed.

Lemma flat_func x st g : 0 <= x -> flat !! Z.to_nat x = Some (st, g) -> CKind (Comp st) = CompFunc -> func_at m x st g.
Proof. intros Hx Hf Hk. destruct (located_flat m x st g Hx Hf) as (gr & j & H). split; [by exists gr, j|done]. Qed.

Lemma func_flat x st g : func_at m x st g -> 0 <= x /\ flat !! Z.to_nat x = Some (st, g).
Proof. intros [(gr & j & H) _]. apply (lc_flat _ _ _ _ _ _ H). Qed.

(** ** One serialization *)

Lemma due_start ds : due m (sk.start ds) = encodingSize.
Proof.
  unfold due, encodingSize, sk.start. cbn [budget]. rewrite Z.add_0_l. apply total_ext. intros g _.
  unfold unstarted, started. cbn [visiting groupBytes].
  rewrite bool_decide_false by apply not_elem_of_empty. rewrite lookup_empty.
  by rewrite bool_decide_false by (intros [? ?]; done).
Qed.

Lemma start_inv ds : digests_ok m ds -> inv m (sk.start ds).
Proof. intros H. split; [intros g b|intros i d|done]; cbn; by rewrite lookup_empty. Qed.

Lemma write_key ds x st g : digests_ok m ds -> func_at m x st g ->
  exists s, digests_ok m (groupDigests s) /\
    (sk.writeStructuralIndexedFuncType m true x (sk.start ds) = (Ok (mdig x), s) \/
     sk.writeStructuralIndexedFuncType m true x (sk.start ds) = (Err tt, s) /\ maxEncoding < encodingSize).
Proof.
  intros Hds Hf. pose proof (func_flat _ _ _ Hf) as [Hx Hl]. destruct Hf as [(gr & j & H) Hk].
  unfold sk.writeStructuralIndexedFuncType. rewrite lookup_type, Hl, typeFunc_flat, Hl, Hk by done.
  cbn [Z.eqb Pos.eqb CompFunc].
  pose proof (finds_memberDigest m Hm (sk.digestFuel m) x st g Hx Hl) as Hr.
  specialize (Hr ltac:(unfold sk.digestFuel; pose proof (lookup_lt_Some _ _ _ (lc_group _ _ _ _ _ _ H)); lia)
    (sk.start ds) (start_inv ds Hds) ltac:(intros h Hh; by apply elem_of_empty in Hh)).
  destruct (sk.memberDigest m true (sk.digestFuel m) x (sk.start ds)) as [[d|[]|] s]; [| |done].
  - destruct Hr as (-> & Hi & _). exists s. split; [apply Hi|by left].
  - destruct Hr as (Hi & Hd). rewrite due_start in Hd. exists s. split; [apply Hi|]. right. split; [reflexivity|exact Hd].
Qed.

(** ** The cache *)

(** What an answer says. *)
Definition answered (x : Z) (r : Z * bool) : Prop :=
  if snd r then exists st g, func_at m x st g /\ fst r = keyOf m x st g
  else typeFunc m {| Index := x; Rec := false |} = None \/ maxEncoding < encodingSize.

Record cache_ok (c : sk.keyCache) : Prop := {
  co_keys : forall x r, sk.keys c !! x = Some r -> answered x r;
  co_digests : digests_ok m (sk.cachedDigests c)
}.

Lemma emptyCache_ok : cache_ok sk.emptyCache.
Proof. split; intros ? ? H; cbn in H; by rewrite lookup_empty in H. Qed.

Lemma cacheKey_ok x r c : answered x r -> cache_ok c -> cache_ok (sk.cacheKey x r c).
Proof.
  intros Hr [Hk Hd]. split; [|exact Hd]. intros y r' H. cbn in H. destruct (decide (y = x)) as [->|Hne].
  - rewrite lookup_insert_eq in H. injection H as <-. exact Hr.
  - rewrite lookup_insert_ne in H by done. by apply Hk.
Qed.

(** A member key from a group digest. *)
Lemma shared_key x st g : func_at m x st g ->
  sk.structuralGroupMemberKey (sha256.Sum256 (genc g)) (size g) (to_u32 (x - base g)) = le_uint64 (mdig x).
Proof.
  intros [(gr & j & H) _]. pose proof (located_in m _ _ _ _ _ H) as Hin. rewrite (mdig_text m x Hin).
  rewrite (located_text m _ _ _ _ _ H). unfold sk.structuralGroupMemberKey, sk.structuralGroupMemberDigest.
  destruct (located_size m _ _ _ _ _ H) as [_ Hj]. pose proof (size_small m Hm g gr (lc_group _ _ _ _ _ _ H)).
  pose proof (lc_place _ _ _ _ _ _ H). rewrite to_u32_small by lia. by replace (x - base g) with (Z.of_nat j) by lia.
Qed.

Lemma indexed_key_ok x st g c : func_at m x st g -> indexed m st g = true -> cache_ok c ->
  exists r c', sk.structuralIndexedFuncTypeKey m x c = (Some r, c') /\ answered x r /\ cache_ok c'.
Proof.
  intros Hf Hi Hc. pose proof (func_flat _ _ _ Hf) as [Hx Hl].
  assert (Hyes : forall k, k = le_uint64 (mdig x) -> answered x (k, true)).
  { intros k ->. exists st, g. split; [exact Hf|]. unfold keyOf. rewrite Hi. reflexivity. }
  unfold sk.structuralIndexedFuncTypeKey. destruct (sk.keys c !! x) as [r|] eqn:Ek.
  { exists r, c. split; [reflexivity|]. split; [by apply (co_keys _ Hc)|exact Hc]. }
  rewrite lookup_type, Hl by done. cbv zeta. rewrite (proj2 Hf). cbn [Z.eqb Pos.eqb CompFunc].
  destruct (sk.cachedDigests c !! g) as [d|] eqn:Ed; cbn [fmap option_fmap option_map].
  - rewrite (co_digests _ Hc _ _ Ed), (shared_key _ _ _ Hf). eexists _, _. split; [reflexivity|].
    pose proof (Hyes _ eq_refl) as Ha. split; [exact Ha|by apply cacheKey_ok].
  - destruct (write_key _ _ _ _ (co_digests _ Hc) Hf) as (s & Hs & [E|[E Hbig]]); rewrite E.
    + rewrite (mdig_length m x) by (destruct Hf as [(? & ? & H) _]; by eapply located_in). cbn [Nat.eqb].
      eexists _, _. split; [reflexivity|]. pose proof (Hyes _ eq_refl) as Ha. split; [exact Ha|].
      apply cacheKey_ok; [exact Ha|]. split; [exact (co_keys _ Hc)|exact Hs].
    + eexists _, _. split; [reflexivity|]. assert (Ha : answered x (0, false)) by (by right). split; [exact Ha|].
      apply cacheKey_ok; [exact Ha|]. split; [exact (co_keys _ Hc)|exact Hs].
Qed.

Lemma query_ok x c : 0 <= x -> cache_ok c ->
  exists r c', sk.StructuralTypeKeyChecked m x c = (Some r, c') /\ answered x r /\ cache_ok c'.
Proof.
  intros Hx Hc. unfold sk.StructuralTypeKeyChecked.
  pose proof (typeFunc_flat x Hx) as Et.
  unfold sk.typeInNonSingletonRecGroup, subtypeByTypeIdx. rewrite subtypeByTypeIdx_flat by done. cbn [Rec Index].
  destruct (flat !! Z.to_nat x) as [[st g]|] eqn:Hl.
  - destruct (Z.eqb_spec (CKind (Comp st)) CompFunc) as [Hk|]; rewrite Et.
    + cbn [fmap option_fmap option_map fst]. fold (indexed m st g). pose proof (flat_func x st g Hx Hl Hk) as Hf.
      destruct (indexed m st g) eqn:Ei; [by eapply indexed_key_ok|]. eexists _, c. split; [reflexivity|].
      split; [|exact Hc]. exists st, g. split; [exact Hf|]. unfold keyOf. rewrite Ei. reflexivity.
    + eexists _, c. split; [reflexivity|]. split; [by left|exact Hc].
  - rewrite Et. eexists _, c. split; [reflexivity|]. split; [by left|exact Hc].
Qed.

Lemma queries_ok l c : Forall (Z.le 0) l -> cache_ok c ->
  exists rs c', sk.queries m l c = (map Some rs, c') /\ Forall2 answered l rs /\ cache_ok c'.
Proof.
  intros Hl. revert c. induction Hl as [|x l Hx _ IH]; intros c Hc; [by exists [], c|]. cbn [sk.queries].
  destruct (query_ok x c Hx Hc) as (r & c1 & -> & Hr & Hc1). destruct (IH c1 Hc1) as (rs & c2 & -> & Hrs & Hc2).
  exists (r :: rs), c2. split; [reflexivity|]. split; [by constructor|exact Hc2].
Qed.

(** ** The comparison of types *)

Lemma equivalent_flat x y : in_types m x -> in_types m y ->
  mv.typeIdxEquivalent m {| Index := x; Rec := false |} {| Index := y; Rec := false |} = Ok true <-> bisimilar m x y.
Proof.
  intros Hx Hy. rewrite typeIdxEquivalent_iff.
  assert (E : forall z, in_types m z -> mv.flatTypeIdxInRecGroup m {| Index := z; Rec := false |} (-1) = Some z).
  { intros z Hz. destruct (in_located m z Hz) as (st & g & gr & j & H).
    unfold mv.flatTypeIdxInRecGroup, mv.validTypeIdx, mv.subtypeByTypeIdxWithRecGroup. cbn [Rec Index negb].
    by rewrite (located_subtype m _ _ _ _ _ H). }
  split.
  - intros (a & b & Ha & Hb & H). rewrite (E x Hx) in Ha. rewrite (E y Hy) in Hb. by injection Ha as ->; injection Hb as ->.
  - intros H. exists x, y. split; [by apply E|]. split; [by apply E|exact H].
Qed.

Lemma answers_decide x y (a b : Z) : answered x (a, true) -> answered y (b, true) ->
  (mv.typeIdxEquivalent m {| Index := x; Rec := false |} {| Index := y; Rec := false |} = Ok true -> a = b) /\
  (a = b -> mv.typeIdxEquivalent m {| Index := x; Rec := false |} {| Index := y; Rec := false |} = Ok true \/ collision m).
Proof.
  intros (sx & gx & Fx & Ea) (sy & gy & Fy & Eb). cbn [fst] in Ea, Eb. subst a b.
  rewrite equivalent_flat by (destruct Fx as [(? & ? & H) _], Fy as [(? & ? & H') _]; by eapply located_in).
  split; [by apply bisimilar_same_key|]. intros E. destruct (free_or_collision m) as [Hfree|]; [left|by right].
  by apply (keys_decide m Hm Hfree _ _ _ _ _ _ Fx Fy).
Qed.

Lemma answered_func x k : answered x (k, true) -> is_Some (typeFunc m {| Index := x; Rec := false |}).
Proof.
  intros (st & g & Hf & _). pose proof (func_flat _ _ _ Hf) as [Hx Hl]. rewrite typeFunc_flat, Hl, (proj2 Hf) by done.
  by eexists.
Qed.
End Keys.

(** C14: the structural keys of an accepted module identify its function types up to
    collisions of the hash.  Every query, in any order and whatever the cache holds by
    then, returns; it succeeds for every function type unless the encodings of all
    groups exceed the budget of 2^20 bytes, and for nothing else.  Types that the
    comparison of types finds equivalent always get equal keys; and two equal keys are
    keys of equivalent types, or there are two different texts among those the module
    hashes whose SHA-256 digests agree on their first 64 bits. *)
Theorem structural_keys_decide data f l m qs :
  bytes_ok data -> accepted data f l m -> Forall (Z.le 0) qs ->
  exists rs, fst (sk.queries m qs sk.emptyCache) = map Some rs /\ length rs = length qs /\
    (forall i x (k : Z) (ok : bool), qs !! i = Some x -> rs !! i = Some (k, ok) ->
       if ok then is_Some (typeFunc m {| Index := x; Rec := false |})
       else typeFunc m {| Index := x; Rec := false |} = None \/ maxEncoding < encodingSize m) /\
    (forall i j x y (a b : Z), qs !! i = Some x -> qs !! j = Some y -> rs !! i = Some (a, true) -> rs !! j = Some (b, true) ->
       (mv.typeIdxEquivalent m {| Index := x; Rec := false |} {| Index := y; Rec := false |} = Ok true -> a = b) /\
       (a = b -> mv.typeIdxEquivalent m {| Index := x; Rec := false |} {| Index := y; Rec := false |} = Ok true \/
                 collision m)).
Proof.
  intros Hb Ha Hq. pose proof (accepted_scoped _ _ _ _ Hb Ha) as Hm.
  destruct (queries_ok m Hm qs sk.emptyCache Hq (emptyCache_ok m)) as (rs & c & -> & Hrs & _).
  exists rs. split; [reflexivity|]. split; [symmetry; by eapply Forall2_length|]. split.
  - intros i x k ok Hx Hr. pose proof (Forall2_lookup_lr _ _ _ _ _ _ Hrs Hx Hr) as Han.
    destruct ok; [by eapply answered_func|exact Han].
  - intros i j x y a b Hx Hy Hra Hrb. eapply answers_decide; [exact Hm|..]; by eapply Forall2_lookup_lr.
Qed.

(** ** A module with equivalent types *)

(** [(type $a (func (param (ref null $a))))], the same again, a plain signature, and
    two functions that take a reference to the second and the first. *)
Definition keyed_module : list Z :=
  [0; 97; 115; 109; 1; 0; 0; 0;  1; 25; 5;  0x60; 1; 0x63; 0; 0;  0x60; 1; 0x63; 1; 0;  0x60; 1; 0x7f; 0;
   0x60; 1; 0x63; 1; 0;  0x60; 1; 0x63; 0; 0].

Lemma keyed_module_bytes : bytes_ok keyed_module.
Proof. unfold keyed_module. repeat (apply Forall_cons_2; [unfold byte_ok; lia|]). apply Forall_nil_2. Qed.

Definition keyed : Module_ := Eval vm_compute in
  match DecodeModuleByteBackedWithLimits keyed_module false zeroLimits with
  | Ok d => dm d
  | _ => marked_module []
  end.
Definition keyed_texts : list (list Z) := Eval vm_compute in inputs keyed.
Definition keyed_hashes : list (list Z) := Eval vm_compute in map (fun x => take 8 (sha256.Sum256 x)) (inputs keyed).

(** Texts and their hashes, compared in pairs. *)
Definition hashes_distinct (l : list (list Z * list Z)) : bool :=
  forallb (fun p => forallb (fun q => negb (bool_decide (fst p = fst q)) || bool_decide (snd p = snd q)) l) l.

Lemma collision_free_by m texts hashes : inputs m = texts -> map (fun x => take 8 (sha256.Sum256 x)) texts = hashes ->
  hashes_distinct (zip hashes texts) = true -> collision_free m.
Proof.
  intros Ht Hh H. unfold collision_free. rewrite Ht. unfold hashes_distinct in H. rewrite forallb_forall in H.
  assert (Hz : forall x, x ∈ texts -> In (take 8 (sha256.Sum256 x), x) (zip hashes texts)).
  { intros x Hx. rewrite <- Hh. clear -Hx. induction texts as [|t l IH]; [by apply elem_of_nil in Hx|].
    apply elem_of_cons in Hx as [->|Hx]; [by left|right; by apply IH]. }
  apply Forall_forall. intros x Hx. apply Forall_forall. intros y Hy E. specialize (H _ (Hz x Hx)).
  rewrite forallb_forall in H. specialize (H _ (Hz y Hy)). cbn [fst snd] in H.
  rewrite bool_decide_true in H by exact E. cbn [negb orb] in H. by apply bool_decide_eq_true in H.
Qed.

Lemma keyed_collision_free : collision_free keyed.
Proof. apply (collision_free_by keyed keyed_texts keyed_hashes); vm_compute; reflexivity. Qed.

Lemma no_collision_in m : collision_free m -> ~ collision m.
Proof. intros Hf (x & y & Hx & Hy & Hne & E). by apply Hne, (no_collision m Hf). Qed.

Lemma structural_keys_decide_witness :
  exists a b c, fst (sk.queries keyed [3; 2; 0; 4; 1] sk.emptyCache) =
      [Some (a, true); Some (c, true); Some (b, true); Some (a, true); Some (b, true)] /\ a <> b /\
    mv.typeIdxEquivalent keyed {| Index := 3; Rec := false |} {| Index := 4; Rec := false |} = Ok true.
Proof.
  destruct (structural_keys_decide keyed_module mm.noFeatures mm.defaultValidationLimits keyed [3; 2; 0; 4; 1])
    as (rs & E & _ & _ & H).
  - exact keyed_module_bytes.
  - assert (A : match DecodeModuleByteBackedWithLimits keyed_module (MultiMemory mm.noFeatures) zeroLimits with
                | Ok d => dm d = keyed /\ mm.validateDecodedByteBackedModule (Some d) mm.noFeatures mm.defaultValidationLimits = Ok tt
                | _ => False end) by (vm_compute; split; reflexivity).
    unfold accepted.
    destruct (DecodeModuleByteBackedWithLimits keyed_module (MultiMemory mm.noFeatures) zeroLimits) as [d|?|]; [|destruct A|destruct A].
    exists d. split; [reflexivity|exact A].
  - repeat (apply Forall_cons_2; [lia|]). apply Forall_nil_2.
  - assert (Q : fst (sk.queries keyed [3; 2; 0; 4; 1] sk.emptyCache) =
      [Some (15381970005637652199, true); Some (8889869336236059889, true); Some (68769866058862730, true);
       Some (15381970005637652199, true); Some (68769866058862730, true)]) by (vm_compute; reflexivity).
    rewrite Q in E |- *. eexists _, _, _. split; [reflexivity|]. split; [discriminate|].
    do 5 (destruct rs as [|? rs]; [discriminate E|]). injection E as <- <- <- <- <- _.
    destruct (H 0%nat 3%nat 3 4 15381970005637652199 15381970005637652199) as [_ Hd]; [reflexivity..|].
    destruct (Hd eq_refl) as [He|Hc]; [exact He|]. destruct (no_collision_in keyed keyed_collision_free Hc).
Defined.
