(* ===== verification/Bits.v ===== *)
(** * Words as sets of bits (math/bits)

    [bits.TrailingZeros64] and [bits.Len32] of the Go standard library, and the set
    operations the code writes with shifts and masks. *)

From stdpp Require Import base tactics numbers.
From Stdlib Require Import ZArith Lia.
From S2P Require Import Prelude.
Local Open Scope Z_scope.

Fixpoint ctz (p : positive) : Z := match p with xO p => 1 + ctz p | _ => 0 end.

Definition TrailingZeros64 (x : Z) : Z := match x with Zpos p => ctz p | _ => 64 end.

Definition Len32 (x : Z) : Z := if x =? 0 then 0 else Z.log2 x + 1.

(** [1 << n] on 64 bits. *)
Definition bit64 (n : Z) : Z := to_u64 (Z.shiftl 1 n).

(** ** Bits of the operations *)

Lemma bit64_spec n i : 0 <= n -> 0 <= i -> Z.testbit (bit64 n) i = (i =? n) && (i <? 64).
Proof.
  intros Hn Hi. unfold bit64, to_u64. destruct (Z.ltb_spec i 64).
  - rewrite Z.mod_pow2_bits_low, Z.shiftl_1_l, Z.pow2_bits_eqb by lia. by rewrite andb_true_r, Z.eqb_sym.
  - rewrite Z.mod_pow2_bits_high by lia. by rewrite andb_false_r.
Qed.

Lemma bit64_small n : 0 <= n < 64 -> bit64 n = 2 ^ n.
Proof.
  intros H. unfold bit64, to_u64. rewrite Z.shiftl_1_l, Z.mod_small; [done|].
  split; [lia|]. apply Z.pow_lt_mono_r; lia.
Qed.

Lemma or_bit64 x n i : 0 <= n < 64 -> 0 <= i -> Z.testbit (Z.lor x (bit64 n)) i = Z.testbit x i || (i =? n).
Proof.
  intros Hn Hi. rewrite Z.lor_spec, bit64_spec by lia. destruct (Z.eqb_spec i n) as [->|]; [|done].
  rewrite (proj2 (Z.ltb_lt _ _)) by lia. done.
Qed.

Lemma clear_bit64 x n i : 0 <= n < 64 -> 0 <= i -> Z.testbit (Z.ldiff x (bit64 n)) i = Z.testbit x i && negb (i =? n).
Proof.
  intros Hn Hi. rewrite Z.ldiff_spec, bit64_spec by lia. destruct (Z.eqb_spec i n) as [->|]; [|done].
  rewrite (proj2 (Z.ltb_lt _ _)) by lia. done.
Qed.

Lemma and_bit64 x n : 0 <= n -> (Z.land x (bit64 n) =? 0) = negb (Z.testbit x n && (n <? 64)).
Proof.
  intros Hn. destruct (Z.testbit x n && (n <? 64)) eqn:E; cbn [negb].
  - apply Z.eqb_neq. intros E0. apply (f_equal (fun z => Z.testbit z n)) in E0.
    rewrite Z.land_spec, bit64_spec, Z.eqb_refl, Z.bits_0 in E0 by lia. apply andb_true_iff in E as [E1 E2]. by rewrite E1, E2 in E0.
  - apply Z.eqb_eq, Z.bits_inj'. intros i Hi. rewrite Z.land_spec, bit64_spec, Z.bits_0 by lia.
    destruct (Z.eqb_spec i n) as [->|]; [exact E|by rewrite andb_false_r].
Qed.

Lemma land_31 b : Z.land b 31 = b mod 32.
Proof. exact (Z.land_ones b 5 ltac:(lia)). Qed.

Lemma land_63 b : Z.land b 63 = b mod 64.
Proof. exact (Z.land_ones b 6 ltac:(lia)). Qed.

Lemma shiftr_6 b : Z.shiftr b 6 = b / 64.
Proof. exact (Z.shiftr_div_pow2 b 6 ltac:(lia)). Qed.

(** ** The lowest bit *)

Lemma ctz_nonneg p : 0 <= ctz p.
Proof. induction p; simpl; lia. Qed.

Lemma ctz_bit p : Z.testbit (Zpos p) (ctz p) = true /\ forall i, 0 <= i < ctz p -> Z.testbit (Zpos p) i = false.
Proof.
  induction p as [p IH|p IH|]; [split; [done|simpl; lia]| |split; [done|simpl; lia]].
  destruct IH as [IH1 IH2]. pose proof (ctz_nonneg p). cbn [ctz]. change (Zpos (xO p)) with (2 * Zpos p). split.
  - replace (1 + ctz p) with (Z.succ (ctz p)) by lia. by rewrite Z.double_bits_succ.
  - intros i Hi. destruct (Z.eq_dec i 0) as [->|Hne]; [done|]. replace i with (Z.succ (i - 1)) by lia.
    rewrite Z.double_bits_succ. apply IH2. lia.
Qed.

Lemma tz64_spec x : 0 < x -> 0 <= TrailingZeros64 x /\ Z.testbit x (TrailingZeros64 x) = true /\
  forall i, 0 <= i -> Z.testbit x i = true -> TrailingZeros64 x <= i.
Proof.
  intros Hx. destruct x as [|p|]; try lia. cbn [TrailingZeros64]. destruct (ctz_bit p) as [H1 H2].
  split; [apply ctz_nonneg|]. split; [done|]. intros i Hi H. destruct (Z.lt_ge_cases i (ctz p)) as [Hlt|]; [|done].
  rewrite H2 in H by lia. done.
Qed.

(** [x &= x - 1] *)
Lemma drop_lowest x i : 0 < x -> 0 <= i ->
  Z.testbit (Z.land x (x - 1)) i = Z.testbit x i && negb (i =? TrailingZeros64 x).
Proof.
  intros Hx. destruct x as [|p|]; try lia. cbn [TrailingZeros64]. clear Hx. revert i.
  induction p as [p IH|p IH|]; intros i Hi.
  - change (Zpos (xI p) - 1) with (2 * Zpos p). change (Zpos (xI p)) with (2 * Zpos p + 1). cbn [ctz].
    destruct (Z.eq_dec i 0) as [->|Hne]; [by rewrite Z.land_spec, Z.testbit_even_0, andb_false_r, andb_false_r|].
    replace i with (Z.succ (i - 1)) by lia. rewrite Z.land_spec, Z.testbit_odd_succ, Z.double_bits_succ by lia.
    rewrite andb_diag, (proj2 (Z.eqb_neq (Z.succ (i - 1)) 0)) by lia. by rewrite andb_true_r.
  - change (Zpos (xO p)) with (2 * Zpos p). cbn [ctz]. replace (2 * Zpos p - 1) with (2 * (Zpos p - 1) + 1) by lia.
    destruct (Z.eq_dec i 0) as [->|Hne]; [by rewrite Z.land_spec, Z.testbit_even_0|].
    replace i with (Z.succ (i - 1)) by lia. rewrite Z.land_spec, Z.testbit_odd_succ, !Z.double_bits_succ by lia.
    rewrite <- Z.land_spec, IH by lia. do 2 f_equal. apply Bool.eq_iff_eq_true. rewrite !Z.eqb_eq. lia.
  - cbn [ctz]. change (Z.land 1 (1 - 1)) with 0. rewrite Z.bits_0.
    destruct (Z.eq_dec i 0) as [->|Hne]; [done|]. symmetry. apply andb_false_iff; left.
    change 1 with (2 * 0 + 1). replace i with (Z.succ (i - 1)) by lia. rewrite Z.testbit_odd_succ by lia. apply Z.bits_0.
Qed.

(** A word is below [2 ^ n] when its bits are. *)
Lemma bits_below x n : 0 <= n -> 0 <= x -> (forall i, n <= i -> Z.testbit x i = false) -> x < 2 ^ n.
Proof.
  intros Hn Hx H. destruct (Z.eq_dec x 0) as [->|Hne]; [lia|]. apply Z.log2_lt_pow2; [lia|].
  destruct (Z.lt_ge_cases (Z.log2 x) n) as [|Hge]; [done|]. specialize (H _ Hge). rewrite Z.bit_log2 in H by lia. done.
Qed.

Lemma nonzero_bit x : 0 <= x -> x <> 0 -> 0 < x.
Proof. lia. Qed.
