(* ===== verification/RegMoves.v ===== *)
(** * Parallel register moves (backend/railshot/shared/regcopy.go)

    A set of moves that happen at once, scheduled as moves and swaps one after the
    other: first the destinations no remaining move reads, then the cycles. *)

From stdpp Require Import base tactics numbers list.
From Stdlib Require Import ZArith Lia.
From S2P Require Import Prelude Bits.
Local Open Scope Z_scope.

(** What the callbacks [emitMove] and [emitSwap] are called with. *)
Inductive regOp : Set :=
| emitMove (dst src : Z)
| emitSwap (a b : Z).

(** The array [src] and the masks; a panic is [None]. *)
Record moveGraph : Set := { src : list Z; pending : Z; sources : Z }.

Module rm.

Definition addMove (g : moveGraph) (mv : Z * Z) : option moveGraph :=
  let (dst, source) := mv in
  if dst =? source then Some g
  else if 64 <=? dst then None
  else Some {| src := <[Z.to_nat dst := source]> (src g); pending := Z.lor (pending g) (bit64 dst);
               sources := Z.lor (sources g) (bit64 source) |}.

Fixpoint collect (moves : list (Z * Z)) (g : moveGraph) : option moveGraph :=
  match moves with
  | [] => Some g
  | mv :: rest => match addMove g mv with Some g => collect rest g | None => None end
  end.

Section Graph.
Context (source_of : list Z).

(** The scan for another pending move that reads [source]. *)
Fixpoint used (fuel : nat) (d source : Z) : option bool :=
  if d =? 0 then Some false
  else
    match fuel, source_of !! Z.to_nat (TrailingZeros64 d) with
    | S fuel', Some s => if s =? source then Some true else used fuel' (Z.land d (d - 1)) source
    | _, _ => None
    end.

(** The ready destinations, lowest first; the moves that are left and the code. *)
Fixpoint drain (fuel : nat) (pending ready : Z) : option (Z * list regOp) :=
  if ready =? 0 then Some (pending, [])
  else
    let dst := TrailingZeros64 ready in
    match fuel, source_of !! Z.to_nat dst with
    | S fuel', Some source =>
        let pending := Z.ldiff pending (bit64 dst) in
        let ready := Z.land ready (ready - 1) in
        let next :=
          if Z.land pending (bit64 source) =? 0 then Some ready
          else (fun b : bool => if b then ready else Z.lor ready (bit64 source)) <$> used 64 pending source in
        match next with
        | Some ready =>
            match drain fuel' pending ready with
            | Some (p, ops) => Some (p, emitMove dst source :: ops)
            | None => None
            end
        | None => None
        end
    | _, _ => None
    end.

(** The walk around one cycle. *)
Fixpoint rotate (fuel : nat) (pending start dst source : Z) : option (Z * list regOp) :=
  if source =? start then Some (Z.ldiff pending (bit64 dst), [])
  else
    match fuel, source_of !! Z.to_nat source with
    | S fuel', Some next =>
        match rotate fuel' (Z.ldiff pending (bit64 dst)) start source next with
        | Some (p, ops) => Some (p, emitSwap dst source :: ops)
        | None => None
        end
    | _, _ => None
    end.

Fixpoint cycles (fuel : nat) (pending : Z) : option (list regOp) :=
  if pending =? 0 then Some []
  else
    let start := TrailingZeros64 pending in
    match fuel, source_of !! Z.to_nat start with
    | S fuel', Some source =>
        match rotate 64 pending start start source with
        | Some (p, ops) => (app ops) <$> cycles fuel' p
        | None => None
        end
    | _, _ => None
    end.
End Graph.

(** [ResolveRegMoves]: [moveAt] lists the moves.  Every round of every loop clears a
    bit of a 64-bit mask. *)
Definition ResolveRegMoves (moves : list (Z * Z)) : option (list regOp) :=
  match collect moves {| src := replicate 64 0; pending := 0; sources := 0 |} with
  | None => None
  | Some g =>
      match drain (src g) 64 (pending g) (Z.ldiff (pending g) (sources g)) with
      | None => None
      | Some (p, ops) => (app ops) <$> cycles (src g) 64 p
      end
  end.

(** ** Running the code *)

Section Exec.
Context {A : Type}.

Definition step (regs : Z -> A) (op : regOp) : Z -> A :=
  match op with
  | emitMove dst src => fun r => if r =? dst then regs src else regs r
  | emitSwap a b => fun r => if r =? a then regs b else if r =? b then regs a else regs r
  end.

Definition exec (ops : list regOp) (regs : Z -> A) : Z -> A := foldl step regs ops.

(** All moves at once. *)
Definition assigned (moves : list (Z * Z)) (regs : Z -> A) (r : Z) : A :=
  match List.find (fun mv => fst mv =? r) moves with Some mv => regs (snd mv) | None => regs r end.
End Exec.
End rm.

(** ** Masks of registers *)

Definition mask (p : Z) : Prop := 0 <= p /\ forall d, 64 <= d -> Z.testbit p d = false.

Definition regsOf (p : Z) : list Z := filter (fun d => Z.testbit p d = true) (seqZ 0 64).
Definition card (p : Z) : nat := length (regsOf p).

Lemma mask_low p d : mask p -> 0 <= d -> Z.testbit p d = true -> d < 64.
Proof. intros [_ H] Hd Ht. destruct (Z.lt_ge_cases d 64); [done|]. by rewrite H in Ht. Qed.

Lemma in_regsOf p d : mask p -> 0 <= d -> d ∈ regsOf p <-> Z.testbit p d = true.
Proof.
  intros Hp Hd. unfold regsOf. rewrite list_elem_of_filter, elem_of_seqZ. split; [by intros [? _]|].
  intros H. split; [done|]. pose proof (mask_low p d Hp Hd H). lia.
Qed.

Lemma mask_ldiff p d : mask p -> 0 <= d < 64 -> mask (Z.ldiff p (bit64 d)).
Proof.
  intros [H0 H] Hd. split; [by apply Z.ldiff_nonneg; left|]. intros i Hi. rewrite clear_bit64 by lia. by rewrite H.
Qed.

(** Clearing a bit makes the mask smaller. *)
Lemma card_clear p d : mask p -> 0 <= d -> Z.testbit p d = true -> (card (Z.ldiff p (bit64 d)) < card p)%nat.
Proof.
  intros Hp Hd Ht. pose proof (mask_low p d Hp Hd Ht) as Hlt. unfold card.
  apply (Nat.lt_le_trans _ (length (d :: regsOf (Z.ldiff p (bit64 d))))); [simpl; lia|].
  apply submseteq_length, NoDup_submseteq.
  - apply NoDup_cons. split; [|apply NoDup_filter, NoDup_seqZ].
    rewrite in_regsOf by (by apply mask_ldiff || lia). rewrite clear_bit64, Z.eqb_refl by lia. by rewrite andb_false_r.
  - intros i [->|Hi]%elem_of_cons; [by apply in_regsOf|]. unfold regsOf in *. apply list_elem_of_filter in Hi as [Hi Hr].
    apply list_elem_of_filter. split; [|done]. apply elem_of_seqZ in Hr. rewrite clear_bit64 in Hi by lia.
    by apply andb_true_iff in Hi as [? _].
Qed.

Lemma card_pos p : mask p -> p <> 0 -> (0 < card p)%nat.
Proof.
  intros Hp H. destruct (tz64_spec p) as (H0 & Ht & _); [destruct Hp; lia|].
  apply (in_regsOf p _ Hp H0) in Ht. unfold card. destruct (regsOf p); [by apply elem_of_nil in Ht|simpl; lia].
Qed.

Lemma card_max p : (card p <= 64)%nat.
Proof. unfold card, regsOf. etransitivity; [apply length_filter|]. by rewrite length_seqZ. Qed.

Section Graph.
Context (sf : list Z).
Hypothesis Hlen : length sf = 64%nat.

Definition sourceOf (d : Z) : Z := sf !!! Z.to_nat d.

Lemma sf_lookup d : 0 <= d < 64 -> sf !! Z.to_nat d = Some (sourceOf d).
Proof. intros Hd. apply list_lookup_lookup_total_lt. lia. Qed.

Lemma used_spec fuel d source : mask d -> (card d <= fuel)%nat ->
  exists b, rm.used sf fuel d source = Some b /\
    (b = true <-> exists e, 0 <= e /\ Z.testbit d e = true /\ sourceOf e = source).
Proof.
  revert d. induction fuel as [|fuel IH]; intros d Hd Hc; cbn [rm.used].
  - destruct (Z.eqb_spec d 0) as [->|Hne]; [|pose proof (card_pos d Hd Hne); lia].
    exists false. split; [done|]. split; [done|]. intros (e & _ & H & _). by rewrite Z.bits_0 in H.
  - destruct (Z.eqb_spec d 0) as [->|Hne].
    { exists false. split; [done|]. split; [done|]. intros (e & _ & H & _). by rewrite Z.bits_0 in H. }
    destruct (tz64_spec d) as (H0 & Ht & _); [destruct Hd; lia|]. pose proof (mask_low d _ Hd H0 Ht) as Hlt.
    rewrite sf_lookup by lia. destruct (Z.eqb_spec (sourceOf (TrailingZeros64 d)) source) as [E|E].
    { exists true. split; [done|]. split; [|done]. intros _. by exists (TrailingZeros64 d). }
    assert (Ed : Z.land d (d - 1) = Z.ldiff d (bit64 (TrailingZeros64 d))).
    { apply Z.bits_inj'. intros i Hi. rewrite drop_lowest, clear_bit64 by (destruct Hd; lia). done. }
    rewrite Ed. destruct (IH (Z.ldiff d (bit64 (TrailingZeros64 d)))) as (b & -> & Hb).
    { apply mask_ldiff; [done|lia]. }
    { pose proof (card_clear d _ Hd H0 Ht). lia. }
    exists b. split; [done|]. rewrite Hb. split; intros (e & He & Hbit & Es); exists e; (split; [done|]).
    + rewrite clear_bit64 in Hbit by lia. by apply andb_true_iff in Hbit as [? _].
    + split; [|done]. rewrite clear_bit64, Hbit by lia. cbn [andb]. apply negb_true_iff, Z.eqb_neq. intros ->. congruence.
Qed.

(** ** Moves without cycles *)

(** A ready destination is pending and no pending move reads it. *)
Definition ready_ok (p ready : Z) : Prop :=
  forall d, 0 <= d -> Z.testbit ready d = true <->
    Z.testbit p d = true /\ forall e, 0 <= e -> Z.testbit p e = true -> sourceOf e <> d.

Lemma drain_correct {A} fuel p ready : mask p -> 0 <= ready -> (card p <= fuel)%nat -> ready_ok p ready ->
  (forall d, 0 <= d -> Z.testbit p d = true -> sourceOf d <> d /\ 0 <= sourceOf d) ->
  exists p' ops, rm.drain sf fuel p ready = Some (p', ops) /\ mask p' /\
    (forall d, 0 <= d -> Z.testbit p' d = true -> Z.testbit p d = true /\
       exists e, 0 <= e /\ Z.testbit p' e = true /\ sourceOf e = d) /\
    forall (regs : Z -> A) r, 0 <= r -> rm.exec ops regs r =
      if Z.testbit p r && negb (Z.testbit p' r) then regs (sourceOf r) else regs r.
Proof.
  revert p ready. induction fuel as [|fuel IH]; intros p ready Hp Hr0 Hc Hok Hne; cbn [rm.drain].
  all: destruct (Z.eqb_spec ready 0) as [->|Hr].
  1, 3: exists p, []; split; [done|]; split; [done|]; split;
    [intros d Hd Ht; split; [done|]; destruct (used_spec 64 p d Hp (card_max p)) as (b & _ & Hb);
     destruct b; [by apply Hb|]; exfalso; pose proof (proj2 (Hok d Hd)) as Hready; rewrite Z.bits_0 in Hready;
     discriminate Hready; split; [done|]; intros e He Hte Es; discriminate (proj2 Hb); by exists e
    |intros regs r Hr; by rewrite andb_negb_r].
  { exfalso. destruct (tz64_spec ready) as (H0 & Ht & _); [lia|]. apply Hok in Ht as [Ht _]; [|done].
    assert (p <> 0) by (intros ->; by rewrite Z.bits_0 in Ht). pose proof (card_pos p Hp H). lia. }
  destruct (tz64_spec ready) as (H0 & Ht & _); [lia|]. set (dst := TrailingZeros64 ready) in *.
  destruct (proj1 (Hok dst H0) Ht) as [Hd Hfree]. pose proof (mask_low p dst Hp H0 Hd) as Hlt.
  rewrite sf_lookup by lia. set (source := sourceOf dst) in *. destruct (Hne dst H0 Hd) as [Hsd Hs0]. fold source in Hsd, Hs0.
  set (p1 := Z.ldiff p (bit64 dst)). cbv zeta.
  assert (Hp1 : mask p1) by (apply mask_ldiff; [done|lia]).
  assert (Hp1t : forall d, 0 <= d -> Z.testbit p1 d = Z.testbit p d && negb (d =? dst)).
  { intros d Hd0. unfold p1. by rewrite clear_bit64 by lia. }
  set (r1 := Z.land ready (ready - 1)).
  assert (Hr1t : forall d, 0 <= d -> Z.testbit r1 d = Z.testbit ready d && negb (d =? dst)).
  { intros d Hd0. unfold r1. by rewrite drop_lowest by lia. }
  assert (Hr1 : 0 <= r1) by (apply Z.land_nonneg; lia).
  (* the new ready mask *)
  assert (Hnext : exists r2, (if Z.land p1 (bit64 source) =? 0 then Some r1
      else (fun b : bool => if b then r1 else Z.lor r1 (bit64 source)) <$> rm.used sf 64 p1 source) = Some r2 /\
      0 <= r2 /\ ready_ok p1 r2).
  { assert (Hold : forall d, 0 <= d -> d <> source -> Z.testbit r1 d = true <->
        Z.testbit p1 d = true /\ forall e, 0 <= e -> Z.testbit p1 e = true -> sourceOf e <> d).
    { intros d Hd0 Hds. rewrite Hr1t, Hp1t, !andb_true_iff, (Hok d Hd0) by done. split.
      - intros [[Hpd Hfd] Hdd]. split; [done|]. intros e He Hte. rewrite Hp1t in Hte by done.
        apply andb_true_iff in Hte as [Hte _]. by apply Hfd.
      - intros [[Hpd Hdd] Hfd]. split; [|done]. split; [done|]. intros e He Hte Es.
        destruct (Z.eqb_spec e dst) as [->|Hed]; [done|]. apply (Hfd e He); [|done].
        rewrite Hp1t, Hte by done. by rewrite (proj2 (Z.eqb_neq e dst)). }
    assert (Hsrc : Z.testbit r1 source = false).
    { rewrite Hr1t by done. destruct (Z.testbit ready source) eqn:E; [|done]. apply Hok in E as [_ E]; [|done]. by destruct (E dst H0 Hd). }
    rewrite and_bit64 by done. destruct (Z.testbit p1 source && (source <? 64)) eqn:Eps; cbn [negb].
    - apply andb_true_iff in Eps as [Eps E64]. apply Z.ltb_lt in E64.
      destruct (used_spec 64 p1 source Hp1 (card_max p1)) as (b & -> & Hb). cbn [fmap option_fmap option_map].
      exists (if b then r1 else Z.lor r1 (bit64 source)). split; [done|].
      split; [destruct b; [done|]; apply Z.lor_nonneg; split; [done|]; apply Z.mod_pos_bound; lia|].
      intros d Hd0. destruct (Z.eq_dec d source) as [->|Hds].
      + destruct b.
        * rewrite Hsrc. split; [done|]. intros [_ Hf]. destruct (proj1 Hb eq_refl) as (e & He & Hte & Es). by destruct (Hf e He Hte).
        * rewrite or_bit64, Z.eqb_refl, orb_true_r by lia. split; [|done]. intros _. split; [done|]. intros e He Hte Es.
          assert (false = true) by (apply Hb; by exists e). done.
      + rewrite <- (Hold d Hd0 Hds). destruct b; [done|]. rewrite or_bit64 by lia.
        by rewrite (proj2 (Z.eqb_neq d source)), orb_false_r.
    - exists r1. split; [done|]. split; [done|]. intros d Hd0. destruct (Z.eq_dec d source) as [->|Hds]; [|by apply Hold].
      rewrite Hsrc. split; [done|]. intros [Hps _]. rewrite Hps in Eps. apply Z.ltb_ge in Eps.
      destruct Hp1 as [_ Hhi]. by rewrite Hhi in Hps. }
  destruct Hnext as (r2 & -> & Hr2 & Hok2).
  destruct (IH p1 r2 Hp1 Hr2) as (p' & ops & -> & Hp' & Hsub & Hexec).
  { pose proof (card_clear p dst Hp H0 Hd). unfold p1. lia. }
  { done. }
  { intros d Hd0 Hpd. apply Hne; [done|]. rewrite Hp1t in Hpd by done. by apply andb_true_iff in Hpd as [? _]. }
  exists p', (emitMove dst source :: ops). split; [done|]. split; [done|]. split.
  - intros d Hd0 Hpd. destruct (Hsub d Hd0 Hpd) as [H1 H2]. split; [|done]. rewrite Hp1t in H1 by done.
    by apply andb_true_iff in H1 as [? _].
  - intros regs r Hrr. cbn [rm.exec foldl]. fold (@rm.exec A). change (foldl rm.step ?x ops) with (rm.exec ops x).
    rewrite (Hexec _ r Hrr), Hp1t by done. cbn [rm.step].
    destruct (Z.eqb_spec r dst) as [->|Hrd]; cbn [negb]; rewrite ?andb_false_r, ?andb_true_r; cbn [andb].
    + rewrite Hd. assert (Z.testbit p' dst = false) as ->; [|done]. destruct (Z.testbit p' dst) eqn:E; [|done].
      destruct (Hsub dst H0 E) as [E1 _]. rewrite Hp1t, Z.eqb_refl in E1 by done. by rewrite andb_false_r in E1.
    + destruct (Z.testbit p r) eqn:Epr; [|done]. cbn [andb]. destruct (Z.testbit p' r); [done|]. cbn [negb].
      rewrite (proj2 (Z.eqb_neq (sourceOf r) dst)) by (by apply Hfree). done.
Qed.

(** ** Cycles *)

Definition injective_on (p : Z) : Prop := forall d e, 0 <= d -> 0 <= e -> Z.testbit p d = true -> Z.testbit p e = true ->
  sourceOf d = sourceOf e -> d = e.

Definition closed_on (p : Z) : Prop := forall d, 0 <= d -> Z.testbit p d = true ->
  0 <= sourceOf d /\ Z.testbit p (sourceOf d) = true.

Lemma injective_sub p q : injective_on p -> (forall d, 0 <= d -> Z.testbit q d = true -> Z.testbit p d = true) ->
  injective_on q.
Proof. intros H Hs d e Hd He Td Te. by apply H; try done; apply Hs. Qed.

(** When every pending destination is read by a pending move, the moves permute. *)
Lemma residual_cycles p : mask p ->
  (forall d, 0 <= d -> Z.testbit p d = true -> 0 <= sourceOf d /\ exists e, 0 <= e /\ Z.testbit p e = true /\ sourceOf e = d) ->
  injective_on p /\ closed_on p.
Proof.
  intros Hp H. assert (Hin : forall x, x ∈ regsOf p -> 0 <= x /\ Z.testbit p x = true).
  { intros x Hx. pose proof Hx as Hx'. unfold regsOf in Hx'. apply list_elem_of_filter in Hx' as [_ Hx']. apply elem_of_seqZ in Hx'.
    split; [lia|]. apply in_regsOf; [done|lia|done]. }
  assert (Hnd : NoDup (regsOf p)) by apply NoDup_filter, NoDup_seqZ.
  assert (Hperm : regsOf p ≡ₚ map sourceOf (regsOf p)).
  { apply submseteq_length_Permutation; [|by rewrite length_map]. apply NoDup_submseteq; [done|].
    intros x Hx. destruct (Hin x Hx) as [H0 Ht]. destruct (H x H0 Ht) as (_ & e & He & Hte & <-).
    apply list_elem_of_In, in_map, list_elem_of_In. by apply in_regsOf. }
  split.
  - assert (Hnd' : NoDup (map sourceOf (regsOf p))) by by rewrite <- Hperm. clear Hperm H.
    intros d e Hd He Td Te E. apply (in_regsOf p d Hp Hd), list_elem_of_lookup in Td as [i Hi].
    apply (in_regsOf p e Hp He), list_elem_of_lookup in Te as [j Hj].
    assert (i = j) as ->; [|congruence].
    apply (proj1 (NoDup_alt _) Hnd' i j (sourceOf d)); rewrite list_lookup_fmap; [by rewrite Hi|by rewrite Hj, E].
  - intros d Hd Td. split; [by apply H|]. apply (in_regsOf p _ Hp); [by apply H|]. rewrite Hperm.
    apply list_elem_of_In, in_map, list_elem_of_In. by apply in_regsOf.
Qed.

Lemma rotate_correct {A} fuel q start dst : mask q -> (card q <= fuel)%nat -> 0 <= dst -> Z.testbit q dst = true ->
  injective_on q ->
  (forall d, 0 <= d -> Z.testbit q d = true ->
     sourceOf d = start \/ (0 <= sourceOf d /\ Z.testbit q (sourceOf d) = true /\ sourceOf d <> dst)) ->
  exists q' ops, rm.rotate sf fuel q start dst (sourceOf dst) = Some (q', ops) /\ mask q' /\
    (forall d, 0 <= d -> Z.testbit q' d = true -> Z.testbit q d = true /\ d <> dst) /\ closed_on q' /\
    forall (regs : Z -> A) r, 0 <= r -> rm.exec ops regs r =
      if Z.testbit q r && negb (Z.testbit q' r) then (if sourceOf r =? start then regs dst else regs (sourceOf r)) else regs r.
Proof.
  revert q dst. induction fuel as [|fuel IH]; intros q dst Hq Hc Hd0 Hd Hinj Hcl.
  { assert (q <> 0) by (intros ->; by rewrite Z.bits_0 in Hd). pose proof (card_pos q Hq H). lia. }
  pose proof (mask_low q dst Hq Hd0 Hd) as Hlt. cbn [rm.rotate].
  set (q1 := Z.ldiff q (bit64 dst)). assert (Hq1 : mask q1) by (apply mask_ldiff; [done|lia]).
  assert (Hq1t : forall d, 0 <= d -> Z.testbit q1 d = Z.testbit q d && negb (d =? dst)).
  { intros d H. unfold q1. by rewrite clear_bit64 by lia. }
  assert (Hsub : forall d, 0 <= d -> Z.testbit q1 d = true -> Z.testbit q d = true /\ d <> dst).
  { intros d H Ht. rewrite Hq1t in Ht by done. apply andb_true_iff in Ht as [? E]. split; [done|].
    by apply negb_true_iff, Z.eqb_neq in E. }
  destruct (Z.eqb_spec (sourceOf dst) start) as [Es|Es].
  - exists q1, []. split; [done|]. split; [done|]. split; [exact Hsub|]. split.
    + intros d H Ht. destruct (Hsub d H Ht) as [Tq Hne]. destruct (Hcl d H Tq) as [E|(H1 & H2 & H3)].
      * exfalso. apply Hne. apply Hinj; try done. congruence.
      * split; [done|]. rewrite Hq1t, H2 by done. by rewrite (proj2 (Z.eqb_neq _ _)).
    + intros regs r Hr. rewrite Hq1t by done. destruct (Z.eqb_spec r dst) as [->|Hne]; cbn [negb].
      * rewrite Hd, andb_false_r, Es, Z.eqb_refl. done.
      * rewrite andb_true_r. by destruct (Z.testbit q r).
  - destruct (Hcl dst Hd0 Hd) as [E|(Hs0 & Hst & Hsd)]; [done|]. pose proof (mask_low q _ Hq Hs0 Hst) as Hslt.
    rewrite sf_lookup by lia. set (s := sourceOf dst) in *.
    destruct (IH q1 s Hq1) as (q' & ops & E & Hq' & Hsub' & Hcl' & Hexec).
    + pose proof (card_clear q dst Hq Hd0 Hd). unfold q1. lia.
    + done.
    + rewrite Hq1t, Hst by done. by rewrite (proj2 (Z.eqb_neq _ _)).
    + apply (injective_sub q); [done|]. intros d H Ht. by apply Hsub.
    + intros d H Ht. destruct (Hsub d H Ht) as [Tq Hne]. destruct (Hcl d H Tq) as [?|(H1 & H2 & H3)]; [by left|right].
      split; [done|]. split; [rewrite Hq1t, H2 by done; by rewrite (proj2 (Z.eqb_neq _ _))|].
      intros Ess. apply Hne. by apply Hinj.
    + rewrite E. exists q', (emitSwap dst s :: ops). split; [done|]. split; [done|]. split; [|split; [done|]].
      { intros d H Ht. destruct (Hsub' d H Ht) as [H1 _]. by apply Hsub. }
      assert (Hq't : forall d, 0 <= d -> Z.testbit q' d = true -> d <> dst /\ d <> s).
      { intros d H Ht. destruct (Hsub' d H Ht) as [H1 ?]. by destruct (Hsub d H H1). }
      intros regs r Hr. cbn [rm.exec foldl]. change (foldl rm.step ?x ops) with (rm.exec ops x).
      rewrite (Hexec _ r Hr), Hq1t by done. cbn [rm.step].
      destruct (Z.eqb_spec r dst) as [->|Hrd]; cbn [negb]; rewrite ?andb_false_r, ?andb_true_r; cbn [andb].
      * rewrite Hd. destruct (Z.testbit q' dst) eqn:Ed; [by destruct (Hq't dst Hd0 Ed)|]. cbn [andb negb].
        fold s. by rewrite (proj2 (Z.eqb_neq s start)).
      * destruct (Z.testbit q r) eqn:Eq; cbn [andb].
        -- destruct (Z.testbit q' r) eqn:Eq'; cbn [negb].
           ++ destruct (Hq't r Hr Eq') as [_ Hrs]. by rewrite (proj2 (Z.eqb_neq r s)).
           ++ destruct (Z.eqb_spec (sourceOf r) start) as [Er|Er].
              ** rewrite (proj2 (Z.eqb_neq s dst)), Z.eqb_refl by done. done.
              ** destruct (Hcl r Hr Eq) as [?|(H1 & H2 & H3)]; [done|]. rewrite (proj2 (Z.eqb_neq _ dst)) by done.
                 rewrite (proj2 (Z.eqb_neq _ s)); [done|]. intros Ess. apply Hrd. by apply Hinj.
        -- destruct (Z.eqb_spec r s) as [->|]; [congruence|done].
Qed.

Lemma cycles_correct {A} fuel p : mask p -> (card p <= fuel)%nat -> injective_on p -> closed_on p ->
  exists ops, rm.cycles sf fuel p = Some ops /\
    forall (regs : Z -> A) r, 0 <= r -> rm.exec ops regs r = if Z.testbit p r then regs (sourceOf r) else regs r.
Proof.
  revert p. induction fuel as [|fuel IH]; intros p Hp Hc Hinj Hcl; cbn [rm.cycles].
  all: destruct (Z.eqb_spec p 0) as [->|Hne]; [exists []; split; [done|]; intros regs r _; by rewrite Z.bits_0|].
  { pose proof (card_pos p Hp Hne). lia. }
  destruct (tz64_spec p) as (H0 & Ht & _); [destruct Hp; lia|]. set (start := TrailingZeros64 p) in *.
  pose proof (mask_low p start Hp H0 Ht) as Hlt. rewrite sf_lookup by lia.
  destruct (rotate_correct (A:=A) 64 p start start Hp (card_max p) H0 Ht Hinj) as (p' & ops & -> & Hp' & Hsub & Hcl' & Hexec).
  { intros d Hd Td. destruct (Hcl d Hd Td) as [H1 H2]. destruct (Z.eq_dec (sourceOf d) start) as [|Hn]; [by left|by right]. }
  destruct (IH p' Hp') as (ops2 & -> & Hexec2).
  { assert (Hle : (card p' < card p)%nat); [|lia].
    eapply Nat.le_lt_trans; [|exact (card_clear p start Hp H0 Ht)]. unfold card. apply submseteq_length, NoDup_submseteq.
    - apply NoDup_filter, NoDup_seqZ.
    - intros i Hi. unfold regsOf in *. apply list_elem_of_filter in Hi as [Hi Hr]. apply list_elem_of_filter. split; [|done].
      apply elem_of_seqZ in Hr. destruct (Hsub i ltac:(lia) Hi) as [E1 E2]. rewrite clear_bit64, E1 by lia.
      by rewrite (proj2 (Z.eqb_neq _ _)). }
  { apply (injective_sub p); [done|]. intros d Hd Td. by apply Hsub. }
  { done. }
  exists (ops ++ ops2). split; [done|]. intros regs r Hr. unfold rm.exec in *. rewrite foldl_app, Hexec2 by done.
  destruct (Z.testbit p' r) eqn:E.
  - destruct (Hsub r Hr E) as [-> _]. destruct (Hcl' r Hr E) as [H1 H2]. rewrite Hexec, H2 by done. by rewrite andb_false_r.
  - rewrite Hexec, E by done. rewrite andb_true_r. destruct (Z.testbit p r); [|done].
    destruct (Z.eqb_spec (sourceOf r) start) as [->|]; done.
Qed.
End Graph.

(** ** The graph of a set of moves *)

(** [find] on distinct destinations. *)
Definition target (moves : list (Z * Z)) (r : Z) : option Z := snd <$> List.find (fun mv => fst mv =? r) moves.

Lemma collect_correct moves g : length (src g) = 64%nat -> mask (pending g) -> 0 <= sources g ->
  NoDup (map fst moves) -> Forall (fun mv => 0 <= fst mv < 64 /\ 0 <= snd mv) moves ->
  (forall mv, mv ∈ moves -> Z.testbit (pending g) (fst mv) = false) ->
  exists g', rm.collect moves g = Some g' /\ length (src g') = 64%nat /\ mask (pending g') /\ 0 <= sources g' /\
    (forall d, 0 <= d -> match target moves d with
       | Some s => Z.testbit (pending g') d = negb (d =? s) /\ (d <> s -> sourceOf (src g') d = s)
       | None => Z.testbit (pending g') d = Z.testbit (pending g) d /\ sourceOf (src g') d = sourceOf (src g) d
       end) /\
    (forall x, 0 <= x -> Z.testbit (sources g') x = true <->
       Z.testbit (sources g) x = true \/ (x < 64 /\ exists d, target moves d = Some x /\ d <> x)).
Proof.
  revert g. induction moves as [|[dst s] moves IH]; intros g Hl Hp Hs Hnd Hall Hfree.
  { exists g. split; [done|]. split; [done|]. split; [done|]. split; [done|]. split; [done|]. intros x Hx. cbn.
    split; [by left|]. intros [?|(_ & d & E & _)]; done. }
  cbn [map] in Hnd. apply NoDup_cons in Hnd as [Hnew Hnd]. apply Forall_cons_1 in Hall as [[Hd Hs0] Hall]. cbn [fst snd] in Hd, Hs0, Hnew.
  assert (Hnone : target moves dst = None).
  { unfold target. destruct (List.find _ moves) as [[d' s']|] eqn:E; [|done]. exfalso. apply List.find_some in E as [Hin E].
    cbn [fst] in E. apply Z.eqb_eq in E as ->. apply Hnew. apply list_elem_of_In, in_map_iff. by exists (dst, s'). }
  cbn [rm.collect rm.addMove].
  assert (Ht : forall d, target ((dst, s) :: moves) d = if dst =? d then Some s else target moves d).
  { intros d. unfold target. cbn [List.find fst]. by destruct (dst =? d). }
  destruct (Z.eqb_spec dst s) as [E|Hne].
  - subst s. destruct (IH g Hl Hp Hs Hnd Hall) as (g' & -> & Hl' & Hp' & Hs' & H1 & H2).
    { intros mv Hmv. apply Hfree. by right. }
    exists g'. split; [done|]. split; [done|]. split; [done|]. split; [done|]. split.
    + intros d Hd0. rewrite Ht. destruct (Z.eqb_spec dst d) as [->|]; [|by apply H1]. specialize (H1 d Hd0). rewrite Hnone in H1.
      destruct H1 as [-> _]. split; [|done]. rewrite Z.eqb_refl. apply (Hfree (d, d)). by left.
    + intros x Hx. rewrite (H2 x Hx). split; (intros [?|(Hx64 & d & Ed & Hdx)]; [by left|right]); split; try done; exists d; split; try done.
      * rewrite Ht. destruct (Z.eqb_spec dst d) as [->|]; [congruence|done].
      * rewrite Ht in Ed. destruct (Z.eqb_spec dst d) as [->|]; [congruence|done].
  - destruct (Z.leb_spec 64 dst); [lia|]. set (g1 := {| src := _; pending := _; sources := _ |}).
    destruct (IH g1) as (g' & -> & Hl' & Hp' & Hs' & H1 & H2); [cbn [g1 src pending sources]..|].
    { by rewrite length_insert. }
    { split; [apply Z.lor_nonneg; split; [apply Hp|apply Z.mod_pos_bound; lia]|]. intros d Hd64.
      rewrite or_bit64 by lia. destruct Hp as [_ Hp]. rewrite Hp by done. by rewrite (proj2 (Z.eqb_neq _ _)) by lia. }
    { apply Z.lor_nonneg; split; [done|apply Z.mod_pos_bound; lia]. }
    { done. }
    { done. }
    { intros mv Hmv. pose proof (proj1 (Forall_forall _ _) Hall mv Hmv) as [Hm _]. rewrite or_bit64 by lia.
      rewrite (Hfree mv) by (by right). apply Z.eqb_neq. intros E. apply Hnew. rewrite <- E.
      by apply list_elem_of_In, in_map, list_elem_of_In. }
    exists g'. split; [done|]. split; [done|]. split; [done|]. split; [done|]. split.
    + intros d Hd0. rewrite Ht. specialize (H1 d Hd0). destruct (Z.eqb_spec dst d) as [->|Hdd].
      * rewrite Hnone in H1. destruct H1 as [-> E2]. unfold g1. cbn [pending]. rewrite or_bit64, Z.eqb_refl, orb_true_r by lia.
        rewrite (proj2 (Z.eqb_neq _ _)) by done. split; [done|]. intros _. rewrite E2. unfold sourceOf, g1. cbn [src].
        rewrite list_lookup_total_insert_eq by lia. done.
      * destruct (target moves d); [done|]. destruct H1 as [-> E2]. unfold g1. cbn [pending]. rewrite or_bit64 by lia.
        rewrite (proj2 (Z.eqb_neq d dst)), orb_false_r by done. split; [done|]. rewrite E2. unfold sourceOf, g1. cbn [src].
        rewrite list_lookup_total_insert_ne by lia. done.
    + intros x Hx. rewrite (H2 x Hx). unfold g1. cbn [sources]. rewrite Z.lor_spec, bit64_spec, orb_true_iff, andb_true_iff by lia.
      rewrite Z.eqb_eq, Z.ltb_lt. split.
      * intros [[?|[-> ?]]|(Hx64 & d & Ed & Hdx)]; [by left|right|right]; (split; [done|]).
        -- exists dst. rewrite Ht, Z.eqb_refl. done.
        -- exists d. rewrite Ht. split; [|done]. destruct (Z.eqb_spec dst d) as [->|]; [congruence|done].
      * intros [?|(Hx64 & d & Ed & Hdx)]; [by left; left|]. rewrite Ht in Ed. destruct (Z.eqb_spec dst d) as [->|].
        -- injection Ed as ->. left; right. done.
        -- right. split; [done|]. by exists d.
Qed.

(** C16: the schedule performs the moves at once.  For distinct destinations below 64,
    the code emitted for a set of moves (moves first, then swaps around the cycles)
    exists, and leaves in every destination the value its source had before any of it
    ran, and in every other register the value it had; no array access is out of range
    and every loop ends. *)
Theorem moves_parallel {A} (moves : list (Z * Z)) :
  NoDup (map fst moves) -> Forall (fun mv => 0 <= fst mv < 64 /\ 0 <= snd mv < 256) moves ->
  exists ops, rm.ResolveRegMoves moves = Some ops /\
    forall (regs : Z -> A) r, 0 <= r -> rm.exec ops regs r = rm.assigned moves regs r.
Proof.
  intros Hnd Hall. unfold rm.ResolveRegMoves.
  destruct (collect_correct moves {| src := replicate 64 0; pending := 0; sources := 0 |}) as (g & -> & Hl & Hp & Hs & H1 & H2).
  { done. }
  { split; [done|]. intros d _. apply Z.bits_0. }
  { done. }
  { done. }
  { eapply Forall_impl; [exact Hall|]. cbn. lia. }
  { intros mv _. apply Z.bits_0. }
  assert (Hpend : forall d, 0 <= d -> Z.testbit (pending g) d = true <-> exists s, target moves d = Some s /\ d <> s).
  { intros d Hd. specialize (H1 d Hd). destruct (target moves d) as [s|].
    - destruct H1 as [-> _]. rewrite negb_true_iff, Z.eqb_neq. split; [by exists s|]. by intros (? & [= <-] & ?).
    - destruct H1 as [-> _]. cbn. rewrite Z.bits_0. split; [done|]. by intros (? & ? & _). }
  assert (Hsrc : forall d s, 0 <= d -> target moves d = Some s -> d <> s -> sourceOf (src g) d = s).
  { intros d s Hd Ht Hne. specialize (H1 d Hd). rewrite Ht in H1. by apply H1. }
  assert (Hrange : forall d s, target moves d = Some s -> 0 <= d < 64 /\ 0 <= s).
  { intros d s Ht. unfold target in Ht. destruct (List.find _ moves) as [[d' s']|] eqn:E; [|done]. injection Ht as <-.
    apply List.find_some in E as [Hin E]. cbn [fst] in E. apply Z.eqb_eq in E as ->. apply list_elem_of_In in Hin.
    pose proof (proj1 (Forall_forall _ _) Hall _ Hin) as Hr. cbn in Hr |- *. lia. }
  destruct (drain_correct (A:=A) (src g) Hl 64 (pending g) (Z.ldiff (pending g) (sources g)) Hp) as (p & ops & -> & Hp' & Hres & Hexec).
  { apply Z.ldiff_nonneg; left. apply Hp. }
  { apply card_max. }
  { intros d Hd. rewrite Z.ldiff_spec, andb_true_iff, negb_true_iff. split.
    - intros [Tp Ts]. split; [done|]. intros e He Te Es. apply Hpend in Te as (s & Ht & Hne); [|done].
      rewrite (Hsrc e s He Ht Hne) in Es. subst s. assert (Z.testbit (sources g) d = true) as E; [|by rewrite E in Ts].
      apply (H2 d Hd). right. split; [by eapply mask_low|by exists e].
    - intros [Tp Hf]. split; [done|]. destruct (Z.testbit (sources g) d) eqn:E; [|done].
      apply (H2 d Hd) in E as [E|(_ & e & Ht & Hne)]; [cbn in E; by rewrite Z.bits_0 in E|]. destruct (Hrange _ _ Ht).
      exfalso. apply (Hf e ltac:(lia)); [apply Hpend; [lia|by exists d]|by apply Hsrc; [lia|..]]. }
  { intros d Hd Td. apply Hpend in Td as (s & Ht & Hne); [|done]. rewrite (Hsrc d s Hd Ht Hne). destruct (Hrange _ _ Ht). split; [congruence|lia]. }
  destruct (residual_cycles (src g) Hl p Hp') as [Hinj Hcl].
  { intros d Hd Td. destruct (Hres d Hd Td) as [Tp He]. split; [|exact He]. apply Hpend in Tp as (s & Ht & Hne); [|done].
    rewrite (Hsrc d s Hd Ht Hne). by destruct (Hrange _ _ Ht). }
  destruct (cycles_correct (A:=A) (src g) Hl 64 p Hp' (card_max p) Hinj Hcl) as (ops2 & -> & Hexec2).
  exists (ops ++ ops2). split; [done|]. intros regs r Hr. unfold rm.exec in *. rewrite foldl_app, Hexec2 by done.
  assert (Ha : rm.assigned moves regs r = if Z.testbit (pending g) r then regs (sourceOf (src g) r) else regs r).
  { unfold rm.assigned. specialize (H1 r Hr). unfold target in H1. destruct (List.find _ moves) as [[d s]|] eqn:E; cbn in H1 |- *.
    - destruct H1 as [-> H1]. destruct (Z.eqb_spec r s) as [->|Hne]; [done|]. cbn [negb]. by rewrite (H1 Hne).
    - destruct H1 as [-> _]. by rewrite Z.bits_0. }
  rewrite Ha. destruct (Z.testbit p r) eqn:E.
  - destruct (Hres r Hr E) as [-> _]. destruct (Hcl r Hr E) as [Hc1 Hc2]. rewrite Hexec, Hc2 by done. by rewrite andb_false_r.
  - rewrite Hexec, E by done. by rewrite andb_true_r.
Qed.

(** A chain (3 <- 2 <- 9), a cycle (0 <- 1 <- 5 <- 0) with a reader outside it (7 <- 5)
    and a move that does nothing. *)
Definition mixed : list (Z * Z) := [(0, 1); (3, 2); (1, 5); (2, 9); (7, 5); (5, 0); (8, 8)].

Lemma mixed_ops : rm.ResolveRegMoves mixed = Some [emitMove 3 2; emitMove 2 9; emitMove 7 5; emitSwap 0 1; emitSwap 1 5].
Proof. vm_compute. reflexivity. Qed.

Lemma moves_parallel_witness : exists ops, rm.ResolveRegMoves mixed = Some ops /\
  forall (regs : Z -> Z) r, 0 <= r -> rm.exec ops regs r = rm.assigned mixed regs r.
Proof.
  apply (moves_parallel mixed).
  - apply (bool_decide_unpack (NoDup (map fst mixed))). vm_compute. exact I.
  - repeat constructor; cbn; lia.
Defined.
