(* ===== verification/IntFold.v ===== *)
(** * Constant folding and algebraic simplification (backend/railshot)

    The operand stack of the code generator holds trees of deferred operations.  Pushing
    an operation over constants computes it ([shared/intfold.go], [amd64/fold.go]), and
    over one constant or the same local twice it may collapse or become a cheaper
    operation ([amd64/stack.go]).  The integer semantics of the format is the module
    [wasm]; [eval] gives the value a tree stands for, or a trap. *)

From stdpp Require Import base tactics numbers list.
From Stdlib Require Import ZArith Lia.
From S2P Require Import Prelude Bits.
Local Open Scope Z_scope.

Inductive IntOp : Set :=
| IntNone | IntAdd | IntSub | IntAnd | IntOr | IntXor | IntShl | IntShrU | IntShrS | IntRotl | IntRotr
| IntMul | IntDivU | IntDivS | IntRemU | IntRemS | IntClz | IntCtz | IntPopcnt | IntWrap
| IntSExt32 | IntZExt32 | IntSExt8 | IntSExt16 | IntEq | IntNe | IntLtS | IntLtU | IntGtS | IntGtU
| IntLeS | IntLeU | IntGeS | IntGeU | IntEqz.

Inductive machineType : Set := mtNone | mtI32 | mtI64 | mtF32 | mtF64 | mtV128 | mtCustom.

Definition is64 (t : machineType) : bool := match t with mtI64 | mtF64 => true | _ => false end.

(** ** Words of the machine *)

Definition to_i8 (x : Z) : Z := (x + 2 ^ 7) mod 2 ^ 8 - 2 ^ 7.
Definition to_i16 (x : Z) : Z := (x + 2 ^ 15) mod 2 ^ 16 - 2 ^ 15.

(** [math/bits]: the number of leading zeros of a word of [n] bits, of trailing zeros,
    and of ones. *)
Definition LeadingZeros (n x : Z) : Z := if x =? 0 then n else n - 1 - Z.log2 x.
Definition TrailingZeros (n x : Z) : Z := match x with Zpos p => ctz p | _ => n end.
Fixpoint ones (p : positive) : Z := match p with xH => 1 | xO p => ones p | xI p => 1 + ones p end.
Definition OnesCount (x : Z) : Z := match x with Zpos p => ones p | _ => 0 end.

(** ** Folding two constants (shared/intfold.go) *)

Module fold.

(** On [uint32]; [None] is the panic on an operation that is not foldable. *)
Definition FoldI32 (op : IntOp) (a b : Z) : option Z :=
  match op with
  | IntAdd => Some (to_u32 (a + b))
  | IntSub => Some (to_u32 (a - b))
  | IntMul => Some (to_u32 (a * b))
  | IntAnd => Some (Z.land a b)
  | IntOr => Some (Z.lor a b)
  | IntXor => Some (Z.lxor a b)
  | IntShl => Some (to_u32 (Z.shiftl a (Z.land b 31)))
  | IntShrU => Some (Z.shiftr a (Z.land b 31))
  | IntShrS => Some (to_u32 (Z.shiftr (to_i32 a) (Z.land b 31)))
  | IntRotl => let s := Z.land b 31 in
      Some (Z.lor (to_u32 (Z.shiftl a s)) (Z.shiftr a (Z.land (32 - s) 31)))
  | IntRotr => let s := Z.land b 31 in
      Some (Z.lor (Z.shiftr a s) (to_u32 (Z.shiftl a (Z.land (32 - s) 31))))
  | _ => None
  end.

(** On [int64]. *)
Definition FoldI64 (op : IntOp) (a b : Z) : option Z :=
  let ua := to_u64 a in
  let ub := to_u64 b in
  match op with
  | IntAdd => Some (to_i64 (a + b))
  | IntSub => Some (to_i64 (a - b))
  | IntMul => Some (to_i64 (a * b))
  | IntAnd => Some (Z.land a b)
  | IntOr => Some (Z.lor a b)
  | IntXor => Some (Z.lxor a b)
  | IntShl => Some (to_i64 (to_u64 (Z.shiftl ua (Z.land ub 63))))
  | IntShrU => Some (to_i64 (Z.shiftr ua (Z.land ub 63)))
  | IntShrS => Some (Z.shiftr a (Z.land ub 63))
  | IntRotl => let s := Z.land ub 63 in
      Some (to_i64 (Z.lor (to_u64 (Z.shiftl ua s)) (Z.shiftr ua (Z.land (64 - s) 63))))
  | IntRotr => let s := Z.land ub 63 in
      Some (to_i64 (Z.lor (Z.shiftr ua s) (to_u64 (Z.shiftl ua (Z.land (64 - s) 63)))))
  | _ => None
  end.

Definition FoldBin (op : IntOp) (a b : Z) (w : bool) : option Z :=
  if w then FoldI64 op a b else (fun v => to_i64 (to_i32 v)) <$> FoldI32 op (to_u32 a) (to_u32 b).

Definition Foldable (op : IntOp) : bool :=
  match op with
  | IntAdd | IntSub | IntMul | IntAnd | IntOr | IntXor | IntShl | IntShrU | IntShrS | IntRotl | IntRotr => true
  | _ => false
  end.

(** The switch of [FoldCompare], on the operands at the width compared. *)
Definition compareWords (op : IntOp) (sa sb ua ub : Z) : option bool :=
  match op with
  | IntEq => Some (sa =? sb)
  | IntNe => Some (negb (sa =? sb))
  | IntLtS => Some (sa <? sb)
  | IntLtU => Some (ua <? ub)
  | IntGtS => Some (sb <? sa)
  | IntGtU => Some (ub <? ua)
  | IntLeS => Some (sa <=? sb)
  | IntLeU => Some (ua <=? ub)
  | IntGeS => Some (sb <=? sa)
  | IntGeU => Some (ub <=? ua)
  | _ => None
  end.

Definition FoldCompare (op : IntOp) (a b : Z) (w : bool) : option Z :=
  let res := if w then compareWords op a b (to_u64 a) (to_u64 b)
             else compareWords op (to_i32 a) (to_i32 b) (to_u32 a) (to_u32 b) in
  (fun b : bool => if b then 1 else 0) <$> res.

(** [foldUnaryConst] of [amd64/fold.go]; [None] is [ok = false]. *)
Definition foldUnaryConst (op : IntOp) (a : Z) (typ : machineType) : option (Z * machineType) :=
  let w := is64 typ in
  match op with
  | IntEqz => Some (if (w && (a =? 0)) || (negb w && (to_u32 a =? 0)) then 1 else 0, mtI32)
  | IntClz => Some (if w then (LeadingZeros 64 (to_u64 a), mtI64) else (LeadingZeros 32 (to_u32 a), mtI32))
  | IntCtz => Some (if w then (TrailingZeros 64 (to_u64 a), mtI64) else (TrailingZeros 32 (to_u32 a), mtI32))
  | IntPopcnt => Some (if w then (OnesCount (to_u64 a), mtI64) else (OnesCount (to_u32 a), mtI32))
  | IntWrap => Some (to_i32 a, mtI32)
  | IntSExt32 => Some (to_i32 a, mtI64)
  | IntZExt32 => Some (to_u32 a, mtI64)
  | IntSExt8 => Some (to_i8 a, if w then mtI64 else mtI32)
  | IntSExt16 => Some (to_i16 a, if w then mtI64 else mtI32)
  | _ => None
  end.

(** ** The operand stack (amd64/stack.go) *)

(** Where a value is; only what the simplifications look at is kept. *)
Inductive storage : Set :=
| stConst (cval : Z)
| stReg (reg : Z)
| stSlot (slot : Z)
| stLocalRef (idx : Z)
| stLocalReg (idx : Z)
| stGlobalRef (idx : Z)
| stGlobReg (idx : Z)
| stFuncRef (idx : Z)
| stMemRef (load : Z).

(** A valent block: a value, or a deferred operation over the blocks of its operands. *)
Inductive elem : Set :=
| Value (typ : machineType) (st : storage)
| Deferred (op : IntOp) (typ : machineType) (arg0 arg1 : elem)
| Deferred1 (op : IntOp) (typ : machineType) (arg0 : elem).

Definition isCompare (o : IntOp) : bool :=
  match o with
  | IntEq | IntNe | IntLtS | IntLtU | IntGtS | IntGtU | IntLeS | IntLeU | IntGeS | IntGeU => true
  | _ => false
  end.

(** The values whose computation can be dropped. *)
Definition discardSimple (left : elem) : bool :=
  match left with
  | Value _ (stConst _ | stLocalRef _ | stLocalReg _ | stGlobReg _ | stSlot _ | stReg _) => true
  | _ => false
  end.

Fixpoint log2uLoop (fuel : nat) (v n : Z) : Z :=
  match fuel with
  | O => n
  | S fuel => if 1 <? v then log2uLoop fuel (Z.shiftr v 1) (n + 1) else n
  end.

(** The loop halves a 64-bit word. *)
Definition log2u (v : Z) : Z := log2uLoop 64 v 0.

(** What [simplifyConstRHS] leaves: one block, or an operation and its constant. *)
Inductive simplified : Set :=
| Handled (root : elem)
| Pending (op : IntOp) (cval : Z).

Definition simplifyConstRHS (op : IntOp) (typ : machineType) (left : elem) (c : Z) : simplified :=
  let w := is64 typ in
  let cu := if w then to_u64 c else to_u32 c in
  let ones := if w then 2 ^ 64 - 1 else 2 ^ 32 - 1 in
  let shiftMask := if w then 63 else 31 in
  let zero := Value typ (stConst 0) in
  let powerOfTwo := negb (cu =? 0) && (Z.land cu (cu - 1) =? 0) in
  match op with
  | IntAdd | IntSub | IntOr | IntXor => if cu =? 0 then Handled left else Pending op c
  | IntShl | IntShrU | IntShrS | IntRotl | IntRotr => if Z.land c shiftMask =? 0 then Handled left else Pending op c
  | IntAnd =>
      if cu =? ones then Handled left
      else if (cu =? 0) && discardSimple left then Handled zero
      else Pending op c
  | IntMul =>
      if cu =? 1 then Handled left
      else if (cu =? 0) && discardSimple left then Handled zero
      else if powerOfTwo then Pending IntShl (log2u cu)
      else Pending op c
  | IntDivU =>
      if cu =? 1 then Handled left
      else if powerOfTwo then Pending IntShrU (log2u cu)
      else Pending op c
  | IntRemU =>
      if (cu =? 1) && discardSimple left then Handled zero
      else if powerOfTwo then Pending IntAnd (to_i64 (cu - 1))
      else Pending op c
  | _ => Pending op c
  end.

Definition sameLocal (left right : elem) : bool :=
  match left, right with
  | Value _ (stLocalRef i), Value _ (stLocalRef j) => i =? j
  | Value _ (stLocalReg i), Value _ (stLocalReg j) => i =? j
  | _, _ => false
  end.

Definition simplifySameOperand (op : IntOp) (typ : machineType) (left right : elem) : option elem :=
  if negb (sameLocal left right) then None
  else
    match op with
    | IntSub | IntXor => Some (Value typ (stConst 0))
    | IntAnd | IntOr => Some left
    | IntEq | IntLeS | IntLeU | IntGeS | IntGeU => Some (Value mtI32 (stConst 1))
    | IntNe | IntLtS | IntLtU | IntGtS | IntGtU => Some (Value mtI32 (stConst 0))
    | _ => None
    end.

(** Both operands constants. *)
Definition foldOperands (op : IntOp) (typ : machineType) (a b : Z) : option (option elem) :=
  if Foldable op then Some ((fun v => Value typ (stConst v)) <$> FoldBin op a b (is64 typ))
  else if isCompare op then Some ((fun v => Value mtI32 (stConst v)) <$> FoldCompare op a b (is64 typ))
  else None.

Definition defer (op : IntOp) (typ : machineType) (left right : elem) : elem :=
  match simplifySameOperand op typ left right with Some root => root | None => Deferred op typ left right end.

(** The block that replaces the two on top. *)
Definition pushBinOp (op : IntOp) (typ : machineType) (left right : elem) : option elem :=
  match right with
  | Value t (stConst c) =>
      let folded := match left with Value _ (stConst a) => foldOperands op typ a c | _ => None end in
      match folded with
      | Some root => root
      | None =>
          match simplifyConstRHS op typ left c with
          | Handled root => Some root
          | Pending op c => Some (defer op typ left (Value t (stConst c)))
          end
      end
  | _ => Some (defer op typ left right)
  end.

Definition pushUnOp (op : IntOp) (typ : machineType) (operand : elem) : elem :=
  match operand with
  | Value _ (stConst c) =>
      match foldUnaryConst op c typ with
      | Some (v, rtyp) => Value rtyp (stConst v)
      | None => Deferred1 op typ operand
      end
  | _ => Deferred1 op typ operand
  end.
End fold.

(** ** The integer operations of the format

    Words of [n] bits are their residues in [0, 2^n). *)

Module wasm.

Definition width (w : bool) : Z := if w then 64 else 32.

Definition signed (n x : Z) : Z := if x <? 2 ^ (n - 1) then x else x - 2 ^ n.

Definition rotl (n x k : Z) : Z := (x mod 2 ^ (n - k)) * 2 ^ k + x / 2 ^ (n - k).
Definition rotr (n x k : Z) : Z := (x mod 2 ^ k) * 2 ^ (n - k) + x / 2 ^ k.

Definition truth (b : bool) : Z := if b then 1 else 0.

(** A trap is [None]. *)
Definition bin (n : Z) (op : IntOp) (x y : Z) : option Z :=
  let sx := signed n x in
  let sy := signed n y in
  let k := y mod n in
  match op with
  | IntAdd => Some ((x + y) mod 2 ^ n)
  | IntSub => Some ((x - y) mod 2 ^ n)
  | IntMul => Some ((x * y) mod 2 ^ n)
  | IntAnd => Some (Z.land x y)
  | IntOr => Some (Z.lor x y)
  | IntXor => Some (Z.lxor x y)
  | IntShl => Some ((x * 2 ^ k) mod 2 ^ n)
  | IntShrU => Some (x / 2 ^ k)
  | IntShrS => Some ((sx / 2 ^ k) mod 2 ^ n)
  | IntRotl => Some (rotl n x k)
  | IntRotr => Some (rotr n x k)
  | IntDivU => if y =? 0 then None else Some (x / y)
  | IntRemU => if y =? 0 then None else Some (x mod y)
  | IntDivS => if (y =? 0) || (Z.quot sx sy =? 2 ^ (n - 1)) then None else Some (Z.quot sx sy mod 2 ^ n)
  | IntRemS => if y =? 0 then None else Some (Z.rem sx sy mod 2 ^ n)
  | IntEq => Some (truth (x =? y))
  | IntNe => Some (truth (negb (x =? y)))
  | IntLtS => Some (truth (sx <? sy))
  | IntLtU => Some (truth (x <? y))
  | IntGtS => Some (truth (sy <? sx))
  | IntGtU => Some (truth (y <? x))
  | IntLeS => Some (truth (sx <=? sy))
  | IntLeU => Some (truth (x <=? y))
  | IntGeS => Some (truth (sy <=? sx))
  | IntGeU => Some (truth (y <=? x))
  | _ => None
  end.

(** The bits of a word, lowest first. *)
Fixpoint bits (n : nat) (x : Z) : list bool :=
  match n with O => [] | S n => Z.odd x :: bits n (x / 2) end.

Fixpoint zeros (l : list bool) : Z := match l with false :: l => 1 + zeros l | _ => 0 end.

Fixpoint truths (l : list bool) : Z := match l with [] => 0 | b :: l => truth b + truths l end.

(** The operand at the width [n] it is read at, the result a word of [m] bits. *)
Definition un (n m : Z) (op : IntOp) (x : Z) : option Z :=
  match op with
  | IntEqz => Some (truth (x =? 0))
  | IntClz => Some (zeros (reverse (bits (Z.to_nat n) x)))
  | IntCtz => Some (zeros (bits (Z.to_nat n) x))
  | IntPopcnt => Some (truths (bits (Z.to_nat n) x))
  | IntWrap | IntZExt32 => Some (x mod 2 ^ 32)
  | IntSExt32 => Some (signed 32 (x mod 2 ^ 32) mod 2 ^ m)
  | IntSExt8 => Some (signed 8 (x mod 2 ^ 8) mod 2 ^ m)
  | IntSExt16 => Some (signed 16 (x mod 2 ^ 16) mod 2 ^ m)
  | _ => None
  end.

(** The width of a result, and the width an operand of a unary operation is read at. *)
Definition binResult (op : IntOp) (typ : machineType) : bool := if fold.isCompare op then false else is64 typ.

Definition unResult (op : IntOp) (typ : machineType) : bool :=
  match op with
  | IntEqz | IntWrap => false
  | IntSExt32 | IntZExt32 => true
  | _ => is64 typ
  end.

Definition unOperand (op : IntOp) (typ : machineType) : bool :=
  match op with IntWrap => true | IntSExt32 | IntZExt32 => false | _ => is64 typ end.

Section Eval.
(** The value of a place that is not a constant; [None] when the pending load traps. *)
Context (place : fold.storage -> option Z).

(** The value of a block as a word of 64 bits when [w] holds, else of 32 bits. *)
Fixpoint eval (w : bool) (e : fold.elem) : option Z :=
  match e with
  | fold.Value _ (fold.stConst c) => Some (c mod 2 ^ width w)
  | fold.Value _ st => (fun v => v mod 2 ^ width w) <$> place st
  | fold.Deferred op typ a b =>
      x ← eval (is64 typ) a; y ← eval (is64 typ) b;
      (fun v => v mod 2 ^ width w) <$> bin (width (is64 typ)) op x y
  | fold.Deferred1 op typ a =>
      x ← eval (unOperand op typ) a;
      (fun v => v mod 2 ^ width w) <$> un (width (unOperand op typ)) (width (unResult op typ)) op x
  end.
End Eval.
End wasm.

(** Reading a register, a slot, a local or a global cannot trap. *)
Definition noTrap (place : fold.storage -> option Z) : Prop :=
  forall st, (forall c, st <> fold.stConst c) -> (forall m, st <> fold.stMemRef m) -> exists v, place st = Some v.

(** Constants are [int64] values. *)
Fixpoint const_ok (e : fold.elem) : Prop :=
  match e with
  | fold.Value _ (fold.stConst c) => - 2 ^ 63 <= c < 2 ^ 63
  | fold.Value _ _ => True
  | fold.Deferred _ _ a b => const_ok a /\ const_ok b
  | fold.Deferred1 _ _ a => const_ok a
  end.

(** ** Bit lemmas *)

Lemma mod_pow_idem x m n : 0 <= n <= m -> (x mod 2 ^ m) mod 2 ^ n = x mod 2 ^ n.
Proof.
  intros H. replace m with (n + (m - n)) by lia. rewrite Z.pow_add_r by lia.
  rewrite Z.rem_mul_r by (try apply Z.pow_nonzero; try apply Z.pow_pos_nonneg; lia).
  rewrite Z.mul_comm, Z.mod_add by (apply Z.pow_nonzero; lia). apply Z.mod_mod. apply Z.pow_nonzero; lia.
Qed.

Lemma testbit_mod x n i : 0 <= n -> 0 <= i -> Z.testbit (x mod 2 ^ n) i = Z.testbit x i && (i <? n).
Proof.
  intros Hn Hi. destruct (Z.ltb_spec i n); [rewrite Z.mod_pow2_bits_low by lia; by rewrite andb_true_r|].
  rewrite Z.mod_pow2_bits_high by lia. by rewrite andb_false_r.
Qed.

Lemma land_mod x y n : 0 <= n -> Z.land x y mod 2 ^ n = Z.land (x mod 2 ^ n) (y mod 2 ^ n).
Proof.
  intros Hn. apply Z.bits_inj'. intros i Hi. rewrite testbit_mod, !Z.land_spec, !testbit_mod by lia.
  destruct (i <? n); by rewrite ?andb_true_r, ?andb_false_r.
Qed.

Lemma lor_mod x y n : 0 <= n -> Z.lor x y mod 2 ^ n = Z.lor (x mod 2 ^ n) (y mod 2 ^ n).
Proof.
  intros Hn. apply Z.bits_inj'. intros i Hi. rewrite testbit_mod, !Z.lor_spec, !testbit_mod by lia.
  destruct (i <? n); by rewrite ?andb_true_r, ?andb_false_r.
Qed.

Lemma lxor_mod x y n : 0 <= n -> Z.lxor x y mod 2 ^ n = Z.lxor (x mod 2 ^ n) (y mod 2 ^ n).
Proof.
  intros Hn. apply Z.bits_inj'. intros i Hi. rewrite testbit_mod, !Z.lxor_spec, !testbit_mod by lia.
  destruct (i <? n); by rewrite ?andb_true_r, ?andb_false_r.
Qed.

(** The signed reading at [n] bits, as the code converts it. *)
Lemma signed_conv x n : 0 < n -> (x + 2 ^ (n - 1)) mod 2 ^ n - 2 ^ (n - 1) = wasm.signed n (x mod 2 ^ n).
Proof.
  intros Hn. assert (Hp : 2 ^ n = 2 * 2 ^ (n - 1)) by (rewrite <- Z.pow_succ_r by lia; f_equal; lia).
  assert (0 < 2 ^ (n - 1)) by (apply Z.pow_pos_nonneg; lia). unfold wasm.signed.
  pose proof (Z.mod_pos_bound x (2 ^ n) ltac:(lia)). rewrite <- Z.add_mod_idemp_l by lia.
  set (r := x mod 2 ^ n) in *. destruct (Z.ltb_spec r (2 ^ (n - 1))).
  - rewrite Z.mod_small; lia.
  - rewrite <- (Z.mod_unique_pos (r + 2 ^ (n - 1)) (2 ^ n) 1 (r - 2 ^ (n - 1))) by lia. lia.
Qed.

Lemma to_i32_signed x : to_i32 x = wasm.signed 32 (x mod 2 ^ 32).
Proof. exact (signed_conv x 32 ltac:(lia)). Qed.
Lemma to_i64_signed x : to_i64 x = wasm.signed 64 (x mod 2 ^ 64).
Proof. exact (signed_conv x 64 ltac:(lia)). Qed.
Lemma to_i8_signed x : to_i8 x = wasm.signed 8 (x mod 2 ^ 8).
Proof. exact (signed_conv x 8 ltac:(lia)). Qed.
Lemma to_i16_signed x : to_i16 x = wasm.signed 16 (x mod 2 ^ 16).
Proof. exact (signed_conv x 16 ltac:(lia)). Qed.

Lemma signed_mod n r : 0 < n -> wasm.signed n r mod 2 ^ n = r mod 2 ^ n.
Proof.
  intros Hn. unfold wasm.signed. case_match; [done|]. replace (r - 2 ^ n) with (r + (-1) * 2 ^ n) by lia.
  apply Z.mod_add, Z.pow_nonzero; lia.
Qed.

Lemma signed_range n r : 0 < n -> 0 <= r < 2 ^ n -> - 2 ^ (n - 1) <= wasm.signed n r < 2 ^ (n - 1).
Proof.
  intros Hn Hr. assert (Hp : 2 ^ n = 2 * 2 ^ (n - 1)) by (rewrite <- Z.pow_succ_r by lia; f_equal; lia).
  unfold wasm.signed. destruct (Z.ltb_spec r (2 ^ (n - 1))); lia.
Qed.

Lemma to_i64_id x : - 2 ^ 63 <= x < 2 ^ 63 -> to_i64 x = x.
Proof. intros H. unfold to_i64. rewrite Z.mod_small; lia. Qed.

Lemma to_i64_mod x n : 0 <= n <= 64 -> to_i64 x mod 2 ^ n = x mod 2 ^ n.
Proof.
  intros Hn. rewrite <- (mod_pow_idem (to_i64 x) 64), to_i64_signed, signed_mod, Z.mod_mod by lia. by apply mod_pow_idem.
Qed.

Lemma to_i32_mod x n : 0 <= n <= 32 -> to_i32 x mod 2 ^ n = x mod 2 ^ n.
Proof.
  intros Hn. rewrite <- (mod_pow_idem (to_i32 x) 32), to_i32_signed, signed_mod, Z.mod_mod by lia. by apply mod_pow_idem.
Qed.

Lemma to_i32_range x : - 2 ^ 31 <= to_i32 x < 2 ^ 31.
Proof. rewrite to_i32_signed. apply (signed_range 32); [lia|]. apply Z.mod_pos_bound; lia. Qed.

(** ** Rotations *)

Lemma rotate_parts n x k j : 0 < n -> 0 <= k < n -> j = (n - k) mod n -> 0 <= x < 2 ^ n ->
  Z.lor (Z.shiftl x k mod 2 ^ n) (Z.shiftr x j) = wasm.rotl n x k.
Proof.
  intros Hn Hk -> Hx. unfold wasm.rotl. rewrite Z.shiftl_mul_pow2, Z.shiftr_div_pow2 by (try apply Z.mod_pos_bound; lia).
  destruct (Z.eq_dec k 0) as [->|Hne].
  - rewrite Z.sub_0_r, Z.mod_same, Z.pow_0_r, !Z.mul_1_r, Z.div_1_r, Z.lor_comm by lia. rewrite !Z.mod_small, Z.div_small by lia.
    by rewrite Z.lor_diag, Z.add_0_r.
  - rewrite (Z.mod_small (n - k)) by lia. pose proof (Z.pow_pos_nonneg 2 (n - k) ltac:(lia) ltac:(lia)).
    assert (Hn2 : 2 ^ n = 2 ^ (n - k) * 2 ^ k) by (rewrite <- Z.pow_add_r by lia; f_equal; lia).
    pose proof (Z.pow_pos_nonneg 2 k ltac:(lia) ltac:(lia)).
    rewrite Hn2, Z.mul_mod_distr_r, Z.lor_comm by lia. rewrite <- Z.shiftl_mul_pow2 by lia.
    rewrite lor_shiftl_add; [rewrite Z.shiftl_mul_pow2; lia|lia|]. split; [apply Z.div_pos; lia|]. apply Z.div_lt_upper_bound; lia.
Qed.

Lemma rotr_rotl n x k : 0 < n -> 0 <= k < n -> 0 <= x < 2 ^ n -> wasm.rotr n x k = wasm.rotl n x ((n - k) mod n).
Proof.
  intros Hn Hk Hx. unfold wasm.rotl, wasm.rotr. destruct (Z.eq_dec k 0) as [->|Hne].
  - rewrite !Z.sub_0_r, Z.mod_same, Z.sub_0_r, Z.pow_0_r, Z.mod_1_r, Z.div_1_r by lia.
    rewrite Z.mod_small, Z.div_small by lia. lia.
  - rewrite (Z.mod_small (n - k)) by lia. by replace (n - (n - k)) with k by lia.
Qed.

Lemma back_and_forth n k : 0 <= k < n -> k = (n - (n - k) mod n) mod n.
Proof.
  intros Hk. destruct (Z.eq_dec k 0) as [->|Hne]; [by rewrite Z.sub_0_r, Z.mod_same, Z.sub_0_r, Z.mod_same by lia|].
  rewrite (Z.mod_small (n - k)), Z.mod_small; lia.
Qed.

(** ** Counting *)

Lemma bits_length n x : length (wasm.bits n x) = n.
Proof. revert x. induction n; intros x; cbn; [done|]. by rewrite IHn. Qed.

Lemma bits_lookup n x i : (i < n)%nat -> wasm.bits n x !! i = Some (Z.testbit x (Z.of_nat i)).
Proof.
  revert x i. induction n as [|n IH]; intros x i Hi; [lia|]. cbn [wasm.bits]. destruct i as [|i]; cbn [lookup list_lookup].
  - by rewrite Z.bit0_odd.
  - etransitivity; [apply IH; lia|]. f_equal. rewrite <- Z.div2_div, Z.div2_spec, Z.shiftr_spec by lia. f_equal. lia.
Qed.

Lemma zeros_all l : (forall i b, l !! i = Some b -> b = false) -> wasm.zeros l = Z.of_nat (length l).
Proof.
  induction l as [|b l IH]; intros H; [done|]. rewrite (H O b) by done. cbn [wasm.zeros length]. rewrite IH; [lia|].
  intros i. apply (H (S i)).
Qed.

Lemma zeros_first l k : l !! k = Some true -> (forall i, (i < k)%nat -> l !! i = Some false) -> wasm.zeros l = Z.of_nat k.
Proof.
  revert l. induction k as [|k IH]; intros [|b l] Hk H; try done.
  - by injection Hk as ->.
  - pose proof (H O ltac:(lia)) as H0. injection H0 as ->. cbn [wasm.zeros]. rewrite (IH l); [lia|done|].
    intros i Hi. apply (H (S i)). lia.
Qed.

Lemma zeros_ctz n x : 0 <= x < 2 ^ Z.of_nat n -> wasm.zeros (wasm.bits n x) = TrailingZeros (Z.of_nat n) x.
Proof.
  intros Hx. destruct x as [|p|]; [| |lia].
  - rewrite zeros_all; [by rewrite bits_length|]. intros i b Hb. pose proof (lookup_lt_Some _ _ _ Hb) as Hl. rewrite bits_length in Hl.
    rewrite bits_lookup in Hb by done. injection Hb as <-. apply Z.bits_0.
  - cbn [TrailingZeros]. destruct (ctz_bit p) as [Hb Hlow]. pose proof (ctz_nonneg p) as H0.
    assert (ctz p < Z.of_nat n). { destruct (Z.lt_ge_cases (ctz p) (Z.of_nat n)) as [|Hge]; [done|]. rewrite (testbit_above _ (Z.of_nat n)) in Hb by lia. done. }
    rewrite (zeros_first _ (Z.to_nat (ctz p))); [lia| |].
    + rewrite bits_lookup, Z2Nat.id by lia. by rewrite Hb.
    + intros i Hi. rewrite bits_lookup by lia. by rewrite Hlow by lia.
Qed.

Lemma zeros_clz n x : 0 <= x < 2 ^ Z.of_nat n -> wasm.zeros (reverse (wasm.bits n x)) = LeadingZeros (Z.of_nat n) x.
Proof.
  intros Hx. unfold LeadingZeros.
  assert (Hrev : forall i, (i < n)%nat -> reverse (wasm.bits n x) !! i = Some (Z.testbit x (Z.of_nat n - 1 - Z.of_nat i))).
  { intros i Hi. rewrite reverse_lookup, bits_length by (by rewrite bits_length). rewrite bits_lookup by lia. do 2 f_equal. lia. }
  destruct (Z.eqb_spec x 0) as [->|Hne].
  - rewrite zeros_all; [by rewrite length_reverse, bits_length|]. intros i b Hb. pose proof (lookup_lt_Some _ _ _ Hb) as Hl.
    rewrite length_reverse, bits_length in Hl. rewrite Hrev in Hb by done. injection Hb as <-. apply Z.bits_0.
  - pose proof (Z.log2_nonneg x). assert (Z.log2 x < Z.of_nat n) by (apply Z.log2_lt_pow2; lia).
    rewrite (zeros_first _ (Z.to_nat (Z.of_nat n - 1 - Z.log2 x))); [lia| |].
    + rewrite Hrev by lia. f_equal. replace (_ - _ - _) with (Z.log2 x) by lia. apply Z.bit_log2. lia.
    + intros i Hi. rewrite Hrev by lia. f_equal. apply Z.bits_above_log2; lia.
Qed.

Lemma truths_ones n x : 0 <= x < 2 ^ Z.of_nat n -> wasm.truths (wasm.bits n x) = OnesCount x.
Proof.
  revert x. induction n as [|n IH]; intros x Hx; cbn [wasm.bits wasm.truths].
  - change (0 <= x < 1) in Hx. by replace x with 0 by lia.
  - rewrite Nat2Z.inj_succ, Z.pow_succ_r in Hx by lia. rewrite IH by (split; [apply Z.div_pos|apply Z.div_lt_upper_bound]; lia).
    rewrite <- Z.div2_div. destruct x as [|[p|p|]|]; try done; lia.
Qed.

(** ** Folding computes *)

Lemma word_range n x : 0 < n -> 0 <= x mod 2 ^ n < 2 ^ n.
Proof. intros H. apply Z.mod_pos_bound, Z.pow_pos_nonneg; lia. Qed.

Lemma bitwise_range n x y : 0 < n -> 0 <= x < 2 ^ n -> 0 <= y < 2 ^ n ->
  Z.land x y mod 2 ^ n = Z.land x y /\ Z.lor x y mod 2 ^ n = Z.lor x y /\ Z.lxor x y mod 2 ^ n = Z.lxor x y.
Proof.
  intros Hn Hx Hy. rewrite land_mod, lor_mod, lxor_mod by lia. by rewrite (Z.mod_small x), (Z.mod_small y) by lia.
Qed.

Lemma rotl_range n x k : 0 < n -> 0 <= k < n -> 0 <= x < 2 ^ n -> 0 <= wasm.rotl n x k < 2 ^ n.
Proof.
  intros Hn Hk Hx. unfold wasm.rotl.
  assert (Hn2 : 2 ^ n = 2 ^ (n - k) * 2 ^ k) by (rewrite <- Z.pow_add_r by lia; f_equal; lia).
  pose proof (Z.pow_pos_nonneg 2 (n - k) ltac:(lia) ltac:(lia)). pose proof (Z.pow_pos_nonneg 2 k ltac:(lia) ltac:(lia)).
  pose proof (Z.mod_pos_bound x (2 ^ (n - k)) ltac:(lia)).
  assert (0 <= x / 2 ^ (n - k) < 2 ^ k) by (split; [apply Z.div_pos; lia|apply Z.div_lt_upper_bound; lia]). nia.
Qed.

Lemma shiftr_range n x k : 0 <= k -> 0 <= x < 2 ^ n -> 0 <= x / 2 ^ k < 2 ^ n.
Proof.
  intros Hk Hx. pose proof (Z.pow_pos_nonneg 2 k ltac:(lia) ltac:(lia)).
  split; [apply Z.div_pos; lia|]. apply Z.div_lt_upper_bound; [lia|]. nia.
Qed.

(** On 32 bits, the words are the residues. *)
Lemma FoldI32_bin op x y : 0 <= x < 2 ^ 32 -> 0 <= y < 2 ^ 32 -> fold.Foldable op = true ->
  exists v, fold.FoldI32 op x y = Some v /\ wasm.bin 32 op x y = Some v /\ 0 <= v < 2 ^ 32.
Proof.
  intros Hx Hy Hf. pose proof (Z.mod_pos_bound y 32 ltac:(lia)) as Hk. pose proof (bitwise_range 32 x y ltac:(lia) Hx Hy) as (E1 & E2 & E3).
  destruct op; try done; cbn [fold.FoldI32 wasm.bin]; rewrite ?land_31; eexists; (split; [done|]); unfold to_u32.
  1-2,11: split; [done|apply word_range; lia].
  1: rewrite <- E1; split; [by rewrite E1|apply word_range; lia].
  1: rewrite <- E2; split; [by rewrite E2|apply word_range; lia].
  1: rewrite <- E3; split; [by rewrite E3|apply word_range; lia].
  - rewrite Z.shiftl_mul_pow2 by lia. split; [done|apply word_range; lia].
  - rewrite Z.shiftr_div_pow2 by lia. split; [done|]. apply shiftr_range; lia.
  - rewrite Z.shiftr_div_pow2, to_i32_signed, (Z.mod_small x) by lia. split; [done|apply word_range; lia].
  - rewrite (rotate_parts 32) by first [done|lia|by rewrite land_31]. split; [done|]. apply rotl_range; lia.
  - pose proof (Z.mod_pos_bound (32 - y mod 32) 32 ltac:(lia)). rewrite Z.lor_comm, (rotate_parts 32), rotr_rotl; try done; try lia.
    + split; [done|]. apply rotl_range; lia.
    + by apply back_and_forth.
Qed.

(** The words of [n + 1] bits with sign are closed under the bitwise operations. *)
Lemma signed_sign n v : 0 <= n -> (- 2 ^ n <= v < 2 ^ n) <-> (Z.shiftr v n = 0 \/ Z.shiftr v n = -1).
Proof.
  intros Hn. pose proof (Z.pow_pos_nonneg 2 n ltac:(lia) Hn) as Hp. rewrite Z.shiftr_div_pow2 by lia.
  pose proof (Z.div_mod v (2 ^ n) ltac:(lia)) as E. pose proof (Z.mod_pos_bound v (2 ^ n) Hp) as Hm. nia.
Qed.

Lemma signed_bitwise n a b : 0 <= n -> - 2 ^ n <= a < 2 ^ n -> - 2 ^ n <= b < 2 ^ n ->
  - 2 ^ n <= Z.land a b < 2 ^ n /\ - 2 ^ n <= Z.lor a b < 2 ^ n /\ - 2 ^ n <= Z.lxor a b < 2 ^ n.
Proof.
  intros Hn Ha Hb. rewrite !signed_sign in * by done. rewrite Z.shiftr_land, Z.shiftr_lor, Z.shiftr_lxor.
  destruct Ha as [-> | ->], Hb as [-> | ->]; cbn; tauto.
Qed.

Lemma signed_shiftr n v k : 0 <= n -> 0 <= k -> - 2 ^ n <= v < 2 ^ n -> - 2 ^ n <= Z.shiftr v k < 2 ^ n.
Proof.
  intros Hn Hk Hv. rewrite signed_sign in * by done. rewrite Z.shiftr_shiftr, Z.add_comm, <- Z.shiftr_shiftr by lia.
  destruct Hv as [-> | ->]; [rewrite Z.shiftr_0_l; by left|]. right. rewrite Z.shiftr_div_pow2 by lia.
  pose proof (Z.pow_pos_nonneg 2 k ltac:(lia) ltac:(lia)). symmetry. apply (Z.div_unique_pos _ _ _ (2 ^ k - 1)); lia.
Qed.

Lemma signed_id n v : 0 < n -> - 2 ^ (n - 1) <= v < 2 ^ (n - 1) -> wasm.signed n (v mod 2 ^ n) = v.
Proof.
  intros Hn Hv. assert (Hp : 2 ^ n = 2 * 2 ^ (n - 1)) by (rewrite <- Z.pow_succ_r by lia; f_equal; lia).
  rewrite <- signed_conv by lia. rewrite Z.mod_small; lia.
Qed.

(** On 64 bits, the words of the code are signed. *)
Lemma FoldI64_bin op a b : - 2 ^ 63 <= a < 2 ^ 63 -> - 2 ^ 63 <= b < 2 ^ 63 -> fold.Foldable op = true ->
  exists v, fold.FoldI64 op a b = Some v /\ wasm.bin 64 op (a mod 2 ^ 64) (b mod 2 ^ 64) = Some (v mod 2 ^ 64) /\ - 2 ^ 63 <= v < 2 ^ 63.
Proof.
  intros Ha Hb Hf. pose proof (word_range 64 a ltac:(lia)) as Hx. pose proof (word_range 64 b ltac:(lia)) as Hy.
  set (x := a mod 2 ^ 64) in *. set (y := b mod 2 ^ 64) in *. pose proof (Z.mod_pos_bound y 64 ltac:(lia)) as Hk.
  assert (Hs : forall v, - 2 ^ 63 <= to_i64 v < 2 ^ 63) by apply to_i64_range.
  assert (Hz : forall v, to_i64 v mod 2 ^ 64 = v mod 2 ^ 64) by (intros v; apply to_i64_mod; lia).
  pose proof (signed_bitwise 63 a b ltac:(lia) Ha Hb) as (B1 & B2 & B3).
  destruct op; try done; cbn [fold.FoldI64 wasm.bin]; rewrite ?land_63; eexists; (split; [done|]); unfold to_u64; fold x y; rewrite ?Hz.
  - split; [by rewrite (Z.add_mod a)|done].
  - split; [by rewrite (Zminus_mod a)|done].
  - by rewrite land_mod.
  - by rewrite lor_mod.
  - by rewrite lxor_mod.
  - rewrite Z.mod_mod, Z.shiftl_mul_pow2 by lia. done.
  - rewrite Z.shiftr_div_pow2 by lia. rewrite (Z.mod_small (x / _)) by (apply shiftr_range; lia). done.
  - assert (wasm.signed 64 x = a) as -> by (by apply signed_id; lia). rewrite <- Z.shiftr_div_pow2 by lia.
    split; [done|]. apply signed_shiftr; lia.
  - rewrite (rotate_parts 64) by first [done|lia|by rewrite land_63]. rewrite (Z.mod_small (wasm.rotl _ _ _)) by (apply rotl_range; lia). done.
  - pose proof (Z.mod_pos_bound (64 - y mod 64) 64 ltac:(lia)). rewrite Z.lor_comm, (rotate_parts 64), <- rotr_rotl; try done; try lia.
    + rewrite rotr_rotl by lia. rewrite (Z.mod_small (wasm.rotl _ _ _)) by (apply rotl_range; lia). done.
    + by apply back_and_forth.
  - split; [by rewrite (Z.mul_mod a)|done].
Qed.

Lemma FoldBin_bin op a b w : - 2 ^ 63 <= a < 2 ^ 63 -> - 2 ^ 63 <= b < 2 ^ 63 -> fold.Foldable op = true ->
  exists v, fold.FoldBin op a b w = Some v /\ - 2 ^ 63 <= v < 2 ^ 63 /\
    wasm.bin (wasm.width w) op (a mod 2 ^ wasm.width w) (b mod 2 ^ wasm.width w) = Some (v mod 2 ^ wasm.width w).
Proof.
  intros Ha Hb Hf. destruct w; cbn [wasm.width]; unfold fold.FoldBin.
  - destruct (FoldI64_bin op a b Ha Hb Hf) as (v & -> & E & Hv). by exists v.
  - destruct (FoldI32_bin op (to_u32 a) (to_u32 b)) as (v & -> & E & Hv); [apply word_range; lia..|done|].
    exists (to_i64 (to_i32 v)). split; [done|]. split; [apply to_i64_range|]. unfold to_u32 in E. rewrite E. f_equal.
    rewrite to_i64_mod, to_i32_mod, Z.mod_small by lia. done.
Qed.

Lemma signed_inj n x y : 0 < n -> 0 <= x < 2 ^ n -> 0 <= y < 2 ^ n -> (wasm.signed n x =? wasm.signed n y) = (x =? y).
Proof.
  intros Hn Hx Hy. destruct (Z.eqb_spec x y) as [->|Hne]; [apply Z.eqb_refl|]. apply Z.eqb_neq. intros E. apply Hne.
  rewrite <- (Z.mod_small x (2 ^ n)), <- (Z.mod_small y (2 ^ n)) by lia. rewrite <- (signed_mod n x), <- (signed_mod n y) by lia. by rewrite E.
Qed.

Lemma FoldCompare_bin op a b w : - 2 ^ 63 <= a < 2 ^ 63 -> - 2 ^ 63 <= b < 2 ^ 63 -> fold.isCompare op = true ->
  exists v, fold.FoldCompare op a b w = Some (wasm.truth v) /\
    wasm.bin (wasm.width w) op (a mod 2 ^ wasm.width w) (b mod 2 ^ wasm.width w) = Some (wasm.truth v).
Proof.
  intros Ha Hb Hf. unfold fold.FoldCompare.
  assert ((if w then fold.compareWords op a b (to_u64 a) (to_u64 b) else fold.compareWords op (to_i32 a) (to_i32 b) (to_u32 a) (to_u32 b)) =
    fold.compareWords op (wasm.signed (wasm.width w) (a mod 2 ^ wasm.width w)) (wasm.signed (wasm.width w) (b mod 2 ^ wasm.width w))
      (a mod 2 ^ wasm.width w) (b mod 2 ^ wasm.width w)) as ->.
  { destruct w; cbn [wasm.width]; [by rewrite !signed_id by lia|by rewrite <- !to_i32_signed]. }
  pose proof (word_range (wasm.width w) a ltac:(by destruct w)). pose proof (word_range (wasm.width w) b ltac:(by destruct w)).
  destruct op; try done; cbn [fold.compareWords wasm.bin]; rewrite ?signed_inj by (done || by destruct w); by eexists.
Qed.

(** The counts and extensions, on the bits they read. *)
Lemma truth_cases b : 0 <= wasm.truth b <= 1.
Proof. by destruct b. Qed.

Lemma count_range n x : 0 < n -> 0 <= x < 2 ^ n -> 0 <= LeadingZeros n x <= n /\ 0 <= TrailingZeros n x <= n.
Proof.
  intros Hn Hx. unfold LeadingZeros. split.
  - destruct (Z.eqb_spec x 0); [lia|]. pose proof (Z.log2_nonneg x). assert (Z.log2 x < n) by (apply Z.log2_lt_pow2; lia). lia.
  - pose proof (zeros_ctz (Z.to_nat n) x) as E. rewrite Z2Nat.id in E by lia. rewrite <- E by done.
    assert (Hz : forall l, 0 <= wasm.zeros l <= Z.of_nat (length l)) by (intros l; induction l as [|[] l IH]; cbn; lia).
    pose proof (Hz (wasm.bits (Z.to_nat n) x)) as H. rewrite bits_length in H. lia.
Qed.

Lemma ones_range n x : 0 < n -> 0 <= x < 2 ^ n -> 0 <= OnesCount x <= n.
Proof.
  intros Hn Hx. rewrite <- (truths_ones (Z.to_nat n)) by (rewrite Z2Nat.id by lia; done).
  assert (Hz : forall l, 0 <= wasm.truths l <= Z.of_nat (length l)) by (intros l; induction l as [|[] l IH]; cbn; lia).
  pose proof (Hz (wasm.bits (Z.to_nat n) x)) as H. rewrite bits_length in H. lia.
Qed.

Definition unOp (op : IntOp) : bool :=
  match op with IntEqz | IntClz | IntCtz | IntPopcnt | IntWrap | IntSExt32 | IntZExt32 | IntSExt8 | IntSExt16 => true | _ => false end.

Lemma count_un w op x : op = IntClz \/ op = IntCtz \/ op = IntPopcnt -> 0 <= x < 2 ^ wasm.width w -> exists v,
  wasm.un (wasm.width w) (wasm.width w) op x = Some v /\ 0 <= v <= wasm.width w /\
  v = match op with IntClz => LeadingZeros (wasm.width w) x | IntCtz => TrailingZeros (wasm.width w) x | _ => OnesCount x end.
Proof.
  intros Hop Hx. assert (0 < wasm.width w) by (by destruct w).
  pose proof (count_range (wasm.width w) x ltac:(lia) Hx). pose proof (ones_range (wasm.width w) x ltac:(lia) Hx).
  assert (Hx' : 0 <= x < 2 ^ Z.of_nat (Z.to_nat (wasm.width w))) by (rewrite Z2Nat.id by lia; done).
  destruct Hop as [->|[->| ->]]; cbn [wasm.un]; rewrite ?zeros_clz, ?zeros_ctz, ?truths_ones, ?Z2Nat.id by (done || lia); eexists; (split; [done|]); split; (done || lia).
Qed.

Lemma foldUnaryConst_un op a typ : - 2 ^ 63 <= a < 2 ^ 63 -> unOp op = true ->
  exists v rtyp r, fold.foldUnaryConst op a typ = Some (v, rtyp) /\ - 2 ^ 63 <= v < 2 ^ 63 /\ is64 rtyp = wasm.unResult op typ /\
    wasm.un (wasm.width (wasm.unOperand op typ)) (wasm.width (wasm.unResult op typ)) op (a mod 2 ^ wasm.width (wasm.unOperand op typ)) = Some r /\
    r mod 2 ^ wasm.width (wasm.unResult op typ) = v mod 2 ^ wasm.width (wasm.unResult op typ).
Proof.
  intros Ha Hop.
  assert (Hcount : forall w op, op = IntClz \/ op = IntCtz \/ op = IntPopcnt -> exists v,
    wasm.un (wasm.width w) (wasm.width w) op (a mod 2 ^ wasm.width w) = Some v /\ 0 <= v <= wasm.width w /\
    v = match op with IntClz => LeadingZeros (wasm.width w) (a mod 2 ^ wasm.width w) | IntCtz => TrailingZeros (wasm.width w) (a mod 2 ^ wasm.width w) | _ => OnesCount (a mod 2 ^ wasm.width w) end).
  { intros w o Ho. apply count_un; [done|]. apply word_range. by destruct w. }
  pose proof (to_i32_range a).
  destruct op; try done; cbn [fold.foldUnaryConst wasm.unResult wasm.unOperand wasm.width].
  1-3: match goal with |- context [wasm.un _ _ ?o _] => destruct (Hcount (is64 typ) o ltac:(tauto)) as (v & E & Hv & Hd) end;
    destruct (is64 typ) eqn:Et; cbn [wasm.width] in *; unfold to_u32, to_u64; subst v;
    eexists _, _, _; (split; [reflexivity|]); (split; [lia|]); (split; [done|]); (split; [exact E|done]).
  - do 3 eexists. split; [done|]. split; [lia|]. split; [done|]. split; [done|]. rewrite Z.mod_mod, mod_pow_idem, to_i32_mod by lia. done.
  - do 3 eexists. split; [done|]. split; [lia|]. split; [done|]. split; [done|]. rewrite !Z.mod_mod, <- to_i32_signed by lia. done.
  - pose proof (to_u32_range a). do 3 eexists. split; [done|]. split; [lia|]. split; [done|]. split; [done|].
    unfold to_u32. rewrite (Z.mod_mod a) by lia. done.
  - assert (- 2 ^ 7 <= to_i8 a < 2 ^ 7) by (rewrite to_i8_signed; apply (signed_range 8); [lia|apply word_range; lia]).
    do 3 eexists. split; [done|]. split; [lia|]. split; [by destruct (is64 typ)|]. split; [done|].
    rewrite Z.mod_mod by (by destruct (is64 typ)). rewrite mod_pow_idem, <- to_i8_signed by (by destruct (is64 typ)). done.
  - assert (- 2 ^ 15 <= to_i16 a < 2 ^ 15) by (rewrite to_i16_signed; apply (signed_range 16); [lia|apply word_range; lia]).
    do 3 eexists. split; [done|]. split; [lia|]. split; [by destruct (is64 typ)|]. split; [done|].
    rewrite Z.mod_mod by (by destruct (is64 typ)). rewrite mod_pow_idem, <- to_i16_signed by (by destruct (is64 typ)). done.
  - do 3 eexists. split; [done|]. split; [by case_match|]. split; [done|]. split; [done|].
    destruct (is64 typ); cbn [wasm.width andb orb negb]; [|done]. rewrite orb_false_r.
    destruct (Z.eqb_spec a 0) as [->|Hne]; [done|]. rewrite (proj2 (Z.eqb_neq _ _)); [done|].
    intros E. apply Hne. rewrite <- (signed_id 64 a), E by lia. done.
Qed.

(** ** Simplifications *)

Lemma eval_word place w e v : wasm.eval place w e = Some v -> 0 <= v < 2 ^ wasm.width w.
Proof.
  assert (forall x, 0 <= x mod 2 ^ wasm.width w < 2 ^ wasm.width w) as Hx by (intros x; apply word_range; by destruct w).
  destruct e as [t []|op t a b|op t a]; cbn [wasm.eval]; intros E; simplify_option_eq; auto.
  all: repeat match goal with H : _ ≫= _ = Some _ |- _ => apply bind_Some in H as (? & ? & H) | H : _ <$> _ = Some _ |- _ => apply fmap_Some in H as (? & ? & ->) end; auto.
Qed.

Lemma simple_eval place w e : noTrap place -> fold.discardSimple e = true -> exists v, wasm.eval place w e = Some v.
Proof.
  intros Hp He. destruct e as [t st| |]; try done. destruct st; try done; cbn [wasm.eval]; [by eexists|..];
    match goal with |- context [place ?st] => destruct (Hp st) as [v ->]; [done|done|] end; by eexists.
Qed.

Lemma power_of_two c : 0 < c -> Z.land c (c - 1) = 0 -> c = 2 ^ Z.log2 c.
Proof.
  intros Hc H. destruct (tz64_spec c Hc) as (H0 & Ht & _). set (k := TrailingZeros64 c) in *.
  assert (c = 2 ^ k) as E.
  { apply Z.bits_inj'. intros i Hi. rewrite Z.pow2_bits_eqb by done. pose proof (drop_lowest c i Hc Hi) as D.
    rewrite H, Z.bits_0 in D. fold k in D. destruct (Z.eqb_spec k i) as [->|Hne]; [done|].
    rewrite (proj2 (Z.eqb_neq i k)) in D by done. cbn in D. by rewrite andb_true_r in D. }
  rewrite E at 2. by rewrite Z.log2_pow2.
Qed.

Lemma log2uLoop_log2 fuel v n : 1 <= v < 2 ^ (Z.of_nat fuel + 1) -> fold.log2uLoop fuel v n = n + Z.log2 v.
Proof.
  revert v n. induction fuel as [|fuel IH]; intros v n Hv; cbn [fold.log2uLoop].
  - change (2 ^ (Z.of_nat 0 + 1)) with 2 in Hv. replace v with 1 by lia. cbn. lia.
  - destruct (Z.ltb_spec 1 v); [|replace v with 1 by lia; cbn; lia].
    pose proof (Z.log2_shiftr v 1 ltac:(lia)) as E. pose proof (Z.log2_le_mono 2 v ltac:(lia)) as E2. change (Z.log2 2) with 1 in E2.
    rewrite IH; [lia|]. rewrite Z.shiftr_div_pow2 by lia. rewrite Nat2Z.inj_succ in Hv. unfold Z.succ in Hv. rewrite (Z.pow_add_r _ (_ + 1)) in Hv by lia.
    change (2 ^ 1) with 2 in *. split; [apply Z.div_le_lower_bound; lia|apply Z.div_lt_upper_bound; lia].
Qed.

Lemma log2u_log2 v : 1 <= v < 2 ^ 64 -> fold.log2u v = Z.log2 v.
Proof.
  intros H. unfold fold.log2u. rewrite log2uLoop_log2; [lia|]. change (Z.of_nat 64 + 1) with 65. lia.
Qed.

Lemma shift_zero n op x : 0 < n -> 0 <= x < 2 ^ n -> op ∈ [IntShl; IntShrU; IntShrS; IntRotl; IntRotr] ->
  forall y, y mod n = 0 -> wasm.bin n op x y = Some x.
Proof.
  intros Hn Hx Hop y Hy. unfold wasm.bin. rewrite Hy. rewrite !elem_of_cons, elem_of_nil in Hop.
  destruct Hop as [->|[->|[->|[->|[->|[]]]]]]; f_equal.
  - by rewrite Z.mul_1_r, Z.mod_small.
  - by rewrite Z.div_1_r.
  - by rewrite Z.div_1_r, signed_mod, Z.mod_small by lia.
  - unfold wasm.rotl. rewrite Z.sub_0_r, Z.mod_small, Z.div_small by lia. lia.
  - unfold wasm.rotr. rewrite Z.pow_0_r, Z.mod_1_r, Z.div_1_r. lia.
Qed.

(** The operation and constant that replace an operation agree with it on every word. *)
Definition agrees (n : Z) (op op' : IntOp) (y y' : Z) : Prop :=
  forall x, 0 <= x < 2 ^ n -> wasm.bin n op' x y' = wasm.bin n op x y.

Lemma mul_power w c : let n := wasm.width w in let cu := c mod 2 ^ n in
  cu <> 0 -> Z.land cu (cu - 1) = 0 ->
  agrees n IntMul IntShl cu (fold.log2u cu mod 2 ^ n) /\ agrees n IntDivU IntShrU cu (fold.log2u cu mod 2 ^ n) /\ 0 <= fold.log2u cu < 64.
Proof.
  intros n cu Hne Hp. pose proof (word_range n c ltac:(by destruct w)) as Hr. fold cu in Hr.
  assert (Hn : 0 < n <= 64) by (by destruct w). pose proof (Z.pow_le_mono_r 2 n 64 ltac:(lia) ltac:(lia)).
  rewrite log2u_log2 by lia. pose proof (power_of_two cu ltac:(lia) Hp) as E. pose proof (Z.log2_nonneg cu).
  assert (Z.log2 cu < n) by (apply Z.log2_lt_pow2; lia). pose proof (Z.pow_gt_lin_r 2 n ltac:(lia) ltac:(lia)).
  rewrite (Z.mod_small (Z.log2 cu)) by lia. split; [|split; [|lia]]; intros x Hx; cbn [wasm.bin]; rewrite (Z.mod_small (Z.log2 cu)) by lia; rewrite <- E.
  - done.
  - by rewrite (proj2 (Z.eqb_neq cu 0)).
Qed.

Lemma rem_power w c : let n := wasm.width w in let cu := c mod 2 ^ n in
  cu <> 0 -> Z.land cu (cu - 1) = 0 -> agrees n IntRemU IntAnd cu (to_i64 (cu - 1) mod 2 ^ n).
Proof.
  intros n cu Hne Hp x Hx. pose proof (word_range n c ltac:(by destruct w)) as Hr. fold cu in Hr.
  rewrite to_i64_mod, Z.mod_small by (by destruct w) || lia. cbn [wasm.bin]. rewrite (proj2 (Z.eqb_neq cu 0)) by done.
  rewrite (power_of_two cu ltac:(lia) Hp) at 1 2. rewrite <- Z.land_ones by apply Z.log2_nonneg. by rewrite Z.ones_equiv, <- Z.sub_1_r.
Qed.

Definition simplified_ok (place : fold.storage -> option Z) (op : IntOp) (typ : machineType) (left : fold.elem) (c : Z) (s : fold.simplified) : Prop :=
  let n := wasm.width (is64 typ) in
  match s with
  | fold.Handled root =>
      wasm.eval place (wasm.binResult op typ) root = (x ← wasm.eval place (is64 typ) left; wasm.bin n op x (c mod 2 ^ n)) /\
      (const_ok left -> const_ok root)
  | fold.Pending op' c' => - 2 ^ 63 <= c' < 2 ^ 63 /\ wasm.binResult op' typ = wasm.binResult op typ /\
      agrees n op op' (c mod 2 ^ n) (c' mod 2 ^ n)
  end.

Lemma keeps_left place op typ left c : wasm.binResult op typ = is64 typ ->
  (forall x, 0 <= x < 2 ^ wasm.width (is64 typ) -> wasm.bin (wasm.width (is64 typ)) op x (c mod 2 ^ wasm.width (is64 typ)) = Some x) ->
  simplified_ok place op typ left c (fold.Handled left).
Proof.
  intros Hr H. split; [|done]. rewrite Hr. destruct (wasm.eval place (is64 typ) left) as [x|] eqn:E; cbn; [|done].
  symmetry. apply H. by eapply eval_word.
Qed.

Lemma becomes_zero place op typ left c : noTrap place -> fold.discardSimple left = true -> wasm.binResult op typ = is64 typ ->
  (forall x, wasm.bin (wasm.width (is64 typ)) op x (c mod 2 ^ wasm.width (is64 typ)) = Some 0) ->
  simplified_ok place op typ left c (fold.Handled (fold.Value typ (fold.stConst 0))).
Proof.
  intros Hp Hd Hr H. split; [|cbn; lia]. destruct (simple_eval place (is64 typ) left Hp Hd) as [x ->]. cbn [wasm.eval mbind option_bind].
  by rewrite H.
Qed.

Lemma stays place op typ left c : - 2 ^ 63 <= c < 2 ^ 63 -> simplified_ok place op typ left c (fold.Pending op c).
Proof. done. Qed.

Lemma simplifyConstRHS_sound place op typ left c : noTrap place -> - 2 ^ 63 <= c < 2 ^ 63 ->
  simplified_ok place op typ left c (fold.simplifyConstRHS op typ left c).
Proof.
  intros Hp Hc. pose proof (stays place op typ left c Hc) as Hstay. unfold fold.simplifyConstRHS. set (w := is64 typ) in *.
  assert ((if w then to_u64 c else to_u32 c) = c mod 2 ^ wasm.width w) as -> by (by destruct w).
  assert ((if w then 2 ^ 64 - 1 else 2 ^ 32 - 1) = 2 ^ wasm.width w - 1) as -> by (by destruct w).
  assert (Z.land c (if w then 63 else 31) = c mod 2 ^ wasm.width w mod wasm.width w) as ->.
  { destruct w; cbn [wasm.width]; [rewrite land_63; symmetry; exact (mod_pow_idem c 64 6 ltac:(lia))|rewrite land_31; symmetry; exact (mod_pow_idem c 32 5 ltac:(lia))]. }
  pose proof (mul_power w c) as Hmul. pose proof (rem_power w c) as Hrem. cbn zeta in Hmul, Hrem.
  pose proof (word_range (wasm.width w) c ltac:(by destruct w)) as Hcu. assert (Hn : 0 < wasm.width w) by (by destruct w).
  set (cu := c mod 2 ^ wasm.width w) in *. set (n := wasm.width w) in *.
  assert (Hshift : forall o, o ∈ [IntShl; IntShrU; IntShrS; IntRotl; IntRotr] ->
    simplified_ok place o typ left c (if cu mod n =? 0 then fold.Handled left else fold.Pending o c)).
  { intros o Ho. destruct (Z.eqb_spec (cu mod n) 0) as [E|]; [|by apply stays]. apply keeps_left; [|intros x Hx; by apply shift_zero].
    rewrite !elem_of_cons, elem_of_nil in Ho. by destruct Ho as [->|[->|[->|[->|[->|[]]]]]]. }
  assert (Hunit : forall o, o ∈ [IntAdd; IntSub; IntOr; IntXor] ->
    simplified_ok place o typ left c (if cu =? 0 then fold.Handled left else fold.Pending o c)).
  { intros o Ho. destruct (Z.eqb_spec cu 0) as [E|]; [|by apply stays]. rewrite !elem_of_cons, elem_of_nil in Ho.
    apply keeps_left; [by destruct Ho as [->|[->|[->|[->|[]]]]]|]. intros x Hx. fold w n cu in Hx |- *. rewrite E.
    destruct Ho as [->|[->|[->|[->|[]]]]]; cbn [wasm.bin]; rewrite ?Z.add_0_r, ?Z.sub_0_r, ?Z.lor_0_r, ?Z.lxor_0_r, ?Z.mod_small by done; done. }
  destruct op; try exact Hstay; try (apply Hunit; rewrite !elem_of_cons; tauto); try (apply Hshift; rewrite !elem_of_cons; tauto).
  - destruct (Z.eqb_spec cu (2 ^ n - 1)) as [E|_].
    { apply keeps_left; [done|]. intros x Hx. fold w n cu in Hx |- *. rewrite E. cbn [wasm.bin]. f_equal.
      replace (2 ^ n - 1) with (Z.ones n) by (rewrite Z.ones_equiv; lia). rewrite Z.land_ones, Z.mod_small by lia. done. }
    destruct (Z.eqb_spec cu 0) as [E|_]; [|exact Hstay]. destruct (fold.discardSimple left) eqn:Ed; [|exact Hstay].
    apply becomes_zero; try done. intros x. fold w n cu. rewrite E. cbn [wasm.bin]. by rewrite Z.land_0_r.
  - destruct (Z.eqb_spec cu 1) as [E|_].
    { apply keeps_left; [done|]. intros x Hx. fold w n cu in Hx |- *. rewrite E. cbn [wasm.bin]. by rewrite Z.mul_1_r, Z.mod_small. }
    destruct (Z.eqb_spec cu 0) as [E|Hne]; cbn [negb andb].
    { destruct (fold.discardSimple left) eqn:Ed; [|exact Hstay]. apply becomes_zero; try done. intros x. fold w n cu. rewrite E.
      cbn [wasm.bin]. by rewrite Z.mul_0_r, Z.mod_0_l by lia. }
    destruct (Z.eqb_spec (Z.land cu (cu - 1)) 0) as [E|_]; [|exact Hstay]. destruct (Hmul Hne E) as (H1 & _ & H3). split; [lia|done].
  - destruct (Z.eqb_spec cu 1) as [E|_].
    { apply keeps_left; [done|]. intros x Hx. fold w n cu in Hx |- *. rewrite E. cbn [wasm.bin]. by rewrite Z.div_1_r. }
    destruct (Z.eqb_spec cu 0) as [E|Hne]; [exact Hstay|]. cbn [negb andb].
    destruct (Z.eqb_spec (Z.land cu (cu - 1)) 0) as [E|_]; [|exact Hstay]. destruct (Hmul Hne E) as (_ & H2 & H3). split; [lia|done].
  - destruct (Z.eqb_spec cu 1) as [E|_]; destruct (fold.discardSimple left) eqn:Ed; cbn [andb].
    { apply becomes_zero; try done. intros x. fold w n cu. rewrite E. cbn [wasm.bin]. by rewrite Z.mod_1_r. }
    all: destruct (Z.eqb_spec cu 0) as [E0|Hne]; [exact Hstay|]; cbn [negb andb];
      destruct (Z.eqb_spec (Z.land cu (cu - 1)) 0) as [E1|_]; [|exact Hstay]; split; [apply to_i64_range|split; [done|by apply Hrem]].
Qed.

Lemma same_operand_sound place op typ left right root : noTrap place -> fold.simplifySameOperand op typ left right = Some root ->
  wasm.eval place (wasm.binResult op typ) root =
    (x ← wasm.eval place (is64 typ) left; y ← wasm.eval place (is64 typ) right; wasm.bin (wasm.width (is64 typ)) op x y) /\
  (const_ok left -> const_ok root).
Proof.
  intros Hp. unfold fold.simplifySameOperand. destruct (fold.sameLocal left right) eqn:Hs; [|done]. cbn [negb].
  assert (exists x, wasm.eval place (is64 typ) left = Some x /\ wasm.eval place (is64 typ) right = Some x) as (x & El & Er).
  { destruct left as [t1 []| |]; try done; destruct right as [t2 []| |]; try done; cbn [fold.sameLocal] in Hs; apply Z.eqb_eq in Hs as ->;
    cbn [wasm.eval]; match goal with |- context [place ?st] => destruct (Hp st) as [v ->]; [done|done|] end; by eexists. }
  rewrite Er. pose proof (eval_word _ _ _ _ El) as Hx. assert (0 < wasm.width (is64 typ)) by (by destruct (is64 typ)).
  destruct op; intros [= <-]; cbn [wasm.binResult fold.isCompare]; rewrite El;
    cbn [mbind option_bind wasm.bin wasm.eval const_ok wasm.truth]; (split; [|done || lia || (intros _; lia)]); f_equal.
  all: rewrite ?Z.sub_diag, ?Z.land_diag, ?Z.lor_diag, ?Z.lxor_nilpotent, ?Z.eqb_refl, ?Z.ltb_irrefl, ?Z.leb_refl; done.
Qed.

(** A value of the operation is a word already. *)
Lemma eval_deferred place op typ left right root :
  wasm.eval place (wasm.binResult op typ) root =
    (x ← wasm.eval place (is64 typ) left; y ← wasm.eval place (is64 typ) right; wasm.bin (wasm.width (is64 typ)) op x y) ->
  wasm.eval place (wasm.binResult op typ) root = wasm.eval place (wasm.binResult op typ) (fold.Deferred op typ left right).
Proof.
  intros E. pose proof (eval_word place (wasm.binResult op typ) root) as Hw. cbn [wasm.eval]. rewrite E in *.
  destruct (wasm.eval place (is64 typ) left) as [x|]; [|done]. destruct (wasm.eval place (is64 typ) right) as [y|]; [|done].
  cbn [mbind option_bind] in *. destruct (wasm.bin _ _ _ _) as [v|]; [|done]. cbn [fmap option_fmap option_map].
  by rewrite Z.mod_small by (by apply Hw).
Qed.

(** Deferring the operation, or the one that replaces it. *)
Lemma defer_sound place op typ left right : noTrap place -> const_ok left -> const_ok right ->
  wasm.eval place (wasm.binResult op typ) (fold.defer op typ left right) = wasm.eval place (wasm.binResult op typ) (fold.Deferred op typ left right) /\
  const_ok (fold.defer op typ left right).
Proof.
  intros Hp Hl Hr. unfold fold.defer. destruct (fold.simplifySameOperand op typ left right) as [root|] eqn:E; [|done].
  destruct (same_operand_sound place op typ left right root Hp E) as [H1 H2]. split; [by apply eval_deferred|by apply H2].
Qed.

Lemma foldOperands_sound place op typ tl tr a b root : - 2 ^ 63 <= a < 2 ^ 63 -> - 2 ^ 63 <= b < 2 ^ 63 ->
  fold.foldOperands op typ a b = Some root -> exists r, root = Some r /\ const_ok r /\
  wasm.eval place (wasm.binResult op typ) r =
    wasm.eval place (wasm.binResult op typ) (fold.Deferred op typ (fold.Value tl (fold.stConst a)) (fold.Value tr (fold.stConst b))).
Proof.
  intros Ha Hb. unfold fold.foldOperands. destruct (fold.Foldable op) eqn:Ef; [|destruct (fold.isCompare op) eqn:Ec; [|done]]; intros [= <-].
  - destruct (FoldBin_bin op a b (is64 typ) Ha Hb Ef) as (v & -> & Hv & E). eexists. split; [reflexivity|]. split; [done|].
    assert (wasm.binResult op typ = is64 typ) as -> by (unfold wasm.binResult; by destruct op).
    cbn [wasm.eval mbind option_bind]. rewrite E. cbn. rewrite Z.mod_mod; [done|]. by destruct (is64 typ).
  - destruct (FoldCompare_bin op a b (is64 typ) Ha Hb Ec) as (v & -> & E). pose proof (truth_cases v). eexists. split; [reflexivity|]. split; [cbn; lia|].
    cbn [wasm.eval mbind option_bind]. by rewrite E.
Qed.

(** C15: folding and simplification keep the meaning.  For any operands of a binary
    operation (trees of deferred operations over constants, locals, registers, slots and
    pending loads) the block [pushBinOp] leaves evaluates to what the operation itself
    evaluates to, traps included: constants folded at the width of the operation, a
    product or quotient or remainder by a power of two turned into a shift or a mask, an
    operand dropped only when it cannot trap.  The same holds of [pushUnOp]; no fold
    panics and constants stay within 64 bits. *)
Theorem simplification_sound place op typ : noTrap place ->
  (forall left right, const_ok left -> const_ok right -> exists root, fold.pushBinOp op typ left right = Some root /\ const_ok root /\
     wasm.eval place (wasm.binResult op typ) root = wasm.eval place (wasm.binResult op typ) (fold.Deferred op typ left right)) /\
  (forall operand, const_ok operand -> const_ok (fold.pushUnOp op typ operand) /\
     wasm.eval place (wasm.unResult op typ) (fold.pushUnOp op typ operand) = wasm.eval place (wasm.unResult op typ) (fold.Deferred1 op typ operand)).
Proof.
  intros Hp. split.
  - intros left right Hl Hr. unfold fold.pushBinOp.
    assert (Hdef : exists root, Some (fold.defer op typ left right) = Some root /\ const_ok root /\
      wasm.eval place (wasm.binResult op typ) root = wasm.eval place (wasm.binResult op typ) (fold.Deferred op typ left right)).
    { destruct (defer_sound place op typ left right Hp Hl Hr). eexists. split; [reflexivity|done]. }
    destruct right as [t [c| | | | | | | |]|op' t' r1 r2|op' t' r1]; try exact Hdef. clear Hdef.
    assert (Hsimp : exists root, match fold.simplifyConstRHS op typ left c with fold.Handled root => Some root
        | fold.Pending op c => Some (fold.defer op typ left (fold.Value t (fold.stConst c))) end = Some root /\ const_ok root /\
      wasm.eval place (wasm.binResult op typ) root = wasm.eval place (wasm.binResult op typ) (fold.Deferred op typ left (fold.Value t (fold.stConst c)))).
    { pose proof (simplifyConstRHS_sound place op typ left c Hp Hr) as H. destruct (fold.simplifyConstRHS op typ left c) as [root|op' c'].
      - destruct H as [H1 H2]. exists root. split; [done|]. split; [by apply H2|]. by apply eval_deferred.
      - destruct H as (Hc' & Hres & Hag). destruct (defer_sound place op' typ left (fold.Value t (fold.stConst c')) Hp Hl Hc') as [H1 H2].
        eexists. split; [reflexivity|]. split; [done|]. rewrite <- Hres, H1. cbn [wasm.eval].
        destruct (wasm.eval place (is64 typ) left) as [x|] eqn:Ex; [|done]. cbn [mbind option_bind]. rewrite Hag by (by eapply eval_word). done. }
    destruct left as [tl [a| | | | | | | |]|opl tyl l1 l2|opl tyl l1]; try exact Hsimp.
    destruct (fold.foldOperands op typ a c) as [root|] eqn:Ef; [|exact Hsimp].
    destruct (foldOperands_sound place op typ tl t a c root Hl Hr Ef) as (r & -> & Hok & E). by exists r.
  - intros operand Ho. unfold fold.pushUnOp. destruct operand as [t [c| | | | | | | |]|op' t' r1 r2|op' t' r1]; try done.
    destruct (unOp op) eqn:Eu; [|by destruct op].
    destruct (foldUnaryConst_un op c typ Ho Eu) as (v & rtyp & r & -> & Hv & _ & E & Er). split; [done|].
    cbn [wasm.eval mbind option_bind]. rewrite E. cbn. by rewrite Er.
Qed.

(** The quotient by 8 of an i32 read from a local; [rotl 0x80000001 33] folded. *)
Definition somePlace (st : fold.storage) : option Z :=
  match st with fold.stLocalRef i => Some (2 ^ 31 + i) | fold.stMemRef _ => None | _ => Some 7 end.

Lemma simplification_sound_witness :
  exists root, fold.pushBinOp IntDivU mtI32 (fold.Value mtI32 (fold.stLocalRef 5)) (fold.Value mtI32 (fold.stConst 8)) = Some root /\
    const_ok root /\ wasm.eval somePlace false root = Some ((2 ^ 31 + 5) / 8).
Proof.
  assert (Hp : noTrap somePlace). { intros st Hc Hm. destruct st; try (by eexists); exfalso; first [by eapply Hc|by eapply Hm]. }
  destruct (simplification_sound somePlace IntDivU mtI32 Hp) as [H _].
  destruct (H (fold.Value mtI32 (fold.stLocalRef 5)) (fold.Value mtI32 (fold.stConst 8))) as (root & E & Hok & Ev); [exact I|cbn; lia|].
  exists root. split; [exact E|]. split; [exact Hok|]. etransitivity; [exact Ev|]. vm_compute. reflexivity.
Defined.

Lemma rotl_folded : fold.pushBinOp IntRotl mtI32 (fold.Value mtI32 (fold.stConst 0x80000001)) (fold.Value mtI32 (fold.stConst 33)) =
  Some (fold.Value mtI32 (fold.stConst 3)).
Proof. vm_compute. reflexivity. Qed.
