(* ===== verification/Tiny.v ===== *)
(** * The block allocator of the tiny heap (core/runtime/gc/native/tiny_alloc.go)

    A heap of equal blocks cut into spans.  A span is marked by its size at its first
    and last block (boundary tags), so freeing finds its neighbours; free spans are
    doubly linked through their own first eight bytes, one list per size class, and a
    two-level bitmap finds the next class that is not empty. *)

From stdpp Require Import base tactics numbers list.
From Stdlib Require Import ZArith Lia.
From S2P Require Import Prelude Bits.
Local Open Scope Z_scope.

Definition tinyNoBlock : Z := 2 ^ 32 - 1.
Definition tinyExactBins : Z := 64.
Definition tinySecondLevelBits : Z := 3.
Definition tinySecondLevelBins : Z := Z.shiftl 1 tinySecondLevelBits.
Definition tinyFreeLinkBytes : Z := 8.
Definition tinyNearExhaustionStepLimit : Z := 32.

Inductive tinyError : Set :=
| errBlockSize
| errSizeOverflow
| errTinyHeapExhausted
| errFreeOffset
| errFreeSpan.

(** [span16] is [None] for the nil slice of a heap with 32-bit tags. *)
Record tinyHeap : Set := {
  mem : list Z; span16 : option (list Z); span32 : list Z; usedStarts : list Z;
  binHeads : list Z; binWords : list Z; binSummary : Z;
  blockCount : Z; blockBytes : Z; poisonFreed : bool }.

Definition set_mem v h := {| mem := v; span16 := span16 h; span32 := span32 h; usedStarts := usedStarts h; binHeads := binHeads h;
  binWords := binWords h; binSummary := binSummary h; blockCount := blockCount h; blockBytes := blockBytes h; poisonFreed := poisonFreed h |}.
Definition set_spans v w h := {| mem := mem h; span16 := v; span32 := w; usedStarts := usedStarts h; binHeads := binHeads h;
  binWords := binWords h; binSummary := binSummary h; blockCount := blockCount h; blockBytes := blockBytes h; poisonFreed := poisonFreed h |}.
Definition set_usedStarts v h := {| mem := mem h; span16 := span16 h; span32 := span32 h; usedStarts := v; binHeads := binHeads h;
  binWords := binWords h; binSummary := binSummary h; blockCount := blockCount h; blockBytes := blockBytes h; poisonFreed := poisonFreed h |}.
Definition set_binHeads v h := {| mem := mem h; span16 := span16 h; span32 := span32 h; usedStarts := usedStarts h; binHeads := v;
  binWords := binWords h; binSummary := binSummary h; blockCount := blockCount h; blockBytes := blockBytes h; poisonFreed := poisonFreed h |}.
Definition set_bins v w h := {| mem := mem h; span16 := span16 h; span32 := span32 h; usedStarts := usedStarts h; binHeads := binHeads h;
  binWords := v; binSummary := w; blockCount := blockCount h; blockBytes := blockBytes h; poisonFreed := poisonFreed h |}.

(** [encoding/binary]: little-endian 32-bit words. *)
Definition putU32 (v : Z) : list Z := [v mod 256; v / 2 ^ 8 mod 256; v / 2 ^ 16 mod 256; v / 2 ^ 24 mod 256].
Definition getU32 (bs : list Z) : option Z :=
  match bs with b0 :: b1 :: b2 :: b3 :: _ => Some (b0 + b1 * 2 ^ 8 + b2 * 2 ^ 16 + b3 * 2 ^ 24) | _ => None end.

Module tiny.

Definition H (A : Type) : Type := M tinyHeap tinyError A.

(** An index, and an indexed assignment, that panic out of range. *)
Definition idx (l : list Z) (i : Z) : H Z :=
  match l !! Z.to_nat i with Some v => ret v | None => panic end.

Definition assign (l : list Z) (i v : Z) (k : list Z -> H unit) : H unit :=
  if i <? Z.of_nat (length l) then k (<[Z.to_nat i := v]> l) else panic.

(** ** Boundary tags *)

Definition spanSize (b : Z) : H Z :=
  let! h := get in
  if blockCount h <=? b then ret 0
  else match span16 h with Some s => idx s b | None => idx (span32 h) b end.

Definition putSpanSize (b size : Z) : H unit :=
  let! h := get in
  match span16 h with
  | Some s => assign s b (to_u16 size) (fun s => modify (set_spans (Some s) (span32 h)))
  | None => assign (span32 h) b size (fun s => modify (set_spans None s))
  end.

Definition isUsedStart (b : Z) : H bool :=
  let! h := get in
  let! w := idx (usedStarts h) (Z.shiftr b 6) in
  ret (negb (Z.land w (bit64 (Z.land b 63)) =? 0)).

Definition setUsedStart (b : Z) (used : bool) : H unit :=
  let word := Z.shiftr b 6 in
  let bit := bit64 (Z.land b 63) in
  let! h := get in
  let! w := idx (usedStarts h) word in
  assign (usedStarts h) word (if used then Z.lor w bit else Z.ldiff w bit) (fun u => modify (set_usedStarts u)).

Definition setSpan (b size : Z) (used : bool) : H unit :=
  putSpanSize b size ;;;
  putSpanSize (to_u32 (b + size - 1)) size ;;;
  setUsedStart b used.

Definition clearSpan (b size : Z) : H unit :=
  putSpanSize b 0 ;;;
  (if 1 <? size then putSpanSize (to_u32 (b + size - 1)) 0 else ret tt) ;;;
  setUsedStart b false.

(** ** Size classes *)

Definition tinyBinForSize (size : Z) : Z :=
  if size <=? tinyExactBins then to_u32 (size - 1)
  else
    let fl := Len32 size - 1 in
    let base := to_u32 (Z.shiftl 1 fl) in
    let width := Z.shiftr base tinySecondLevelBits in
    let sl := (size - base) / width in
    to_u32 (tinyExactBins + (fl - 6) * tinySecondLevelBins + sl).

(** ** Free lists *)

Definition readU32 (off : Z) : H Z :=
  let! h := get in
  match getU32 (drop (Z.to_nat off) (mem h)) with Some v => ret v | None => panic end.

Definition writeU32 (off v : Z) : H unit :=
  let! h := get in
  if off + 4 <=? Z.of_nat (length (mem h)) then modify (set_mem (list_inserts (Z.to_nat off) (putU32 v) (mem h)))
  else panic.

Definition freeLinks (b : Z) : H (Z * Z) :=
  let! h := get in
  let off := to_u32 (b * blockBytes h) in
  let! next := readU32 off in
  let! prev := readU32 (to_u32 (off + 4)) in
  ret (next, prev).

Definition setFreeLinks (b next prev : Z) : H unit :=
  let! h := get in
  let off := to_u32 (b * blockBytes h) in
  writeU32 off next ;;;
  writeU32 (to_u32 (off + 4)) prev.

Definition markBin (bin : Z) (nonempty : bool) : H unit :=
  let word := Z.shiftr bin 6 in
  let bit := bit64 (Z.land bin 63) in
  let! h := get in
  let! w := idx (binWords h) word in
  if nonempty then
    assign (binWords h) word (Z.lor w bit) (fun ws => modify (set_bins ws (Z.lor (binSummary h) (bit64 word))))
  else
    assign (binWords h) word (Z.ldiff w bit) (fun ws =>
      modify (set_bins ws (if Z.ldiff w bit =? 0 then Z.ldiff (binSummary h) (bit64 word) else binSummary h))).

Definition setHead (bin b : Z) : H unit :=
  let! h := get in
  assign (binHeads h) bin b (fun heads => modify (set_binHeads heads)).

Definition head (bin : Z) : H Z := let! h := get in idx (binHeads h) bin.

Definition insertFree (b size : Z) : H unit :=
  let bin := tinyBinForSize size in
  let! first := head bin in
  setFreeLinks b first tinyNoBlock ;;;
  (if first =? tinyNoBlock then ret tt
   else let! links := freeLinks first in setFreeLinks first (fst links) b) ;;;
  setHead bin b ;;;
  markBin bin true.

Definition removeFree (b size : Z) : H unit :=
  let bin := tinyBinForSize size in
  let! links := freeLinks b in
  let (next, prev) := links in
  (if prev =? tinyNoBlock then setHead bin next
   else let! l := freeLinks prev in setFreeLinks prev next (snd l)) ;;;
  (if next =? tinyNoBlock then ret tt
   else let! l := freeLinks next in setFreeLinks next (fst l) prev) ;;;
  let! first := head bin in
  if first =? tinyNoBlock then markBin bin false else ret tt.

Definition firstSpanAfterBin (bin : Z) : H Z :=
  let word := Z.shiftr bin 6 in
  let shift := Z.land bin 63 + 1 in
  let! h := get in
  let! candidates := (if shift <? 64
                      then let! w := idx (binWords h) word in ret (Z.land w (to_u64 (Z.shiftl (2 ^ 64 - 1) shift)))
                      else ret 0) in
  if negb (candidates =? 0) then head (word * 64 + TrailingZeros64 candidates)
  else
    let remaining := Z.land (binSummary h) (to_u64 (Z.shiftl (2 ^ 64 - 1) (word + 1))) in
    if remaining =? 0 then ret tinyNoBlock
    else
      let word := TrailingZeros64 remaining in
      let! w := idx (binWords h) word in
      head (word * 64 + TrailingZeros64 w).

(** The walk of the request's own class; a list of free spans has no more than
    [blockCount] elements, and the walk that runs out of fuel is a panic of the model. *)
Fixpoint walkBin (fuel : nat) (need b : Z) : H (option Z) :=
  if b =? tinyNoBlock then ret None
  else
    match fuel with
    | O => panic
    | S fuel =>
        let! links := freeLinks b in
        let! size := spanSize b in
        if need <=? size then ret (Some b) else walkBin fuel need (fst links)
    end.

Definition findFreeSpan (need : Z) : H Z :=
  let bin := tinyBinForSize need in
  let! first := head bin in
  let! h := get in
  let! found := walkBin (Z.to_nat (blockCount h)) need first in
  match found with Some b => ret b | None => firstSpanAfterBin bin end.

(** ** Allocation *)

(** [alloc]: the offset and the size of the span in bytes. *)
Definition alloc (size : Z) : H (Z * Z) :=
  let! h := get in
  if blockBytes h =? 0 then fail errBlockSize
  else
    let need64 := to_u64 (size + blockBytes h - 1) / blockBytes h in
    if (need64 =? 0) || (2 ^ 32 - 1 <? need64) then fail errSizeOverflow
    else
      let need := to_u32 need64 in
      if blockCount h <? need then fail errTinyHeapExhausted
      else
        let! b := findFreeSpan need in
        if b =? tinyNoBlock then fail errTinyHeapExhausted
        else
          let! span := spanSize b in
          removeFree b span ;;;
          (if span =? need then setUsedStart b true
           else
             clearSpan b span ;;;
             setSpan b need true ;;;
             let rem := to_u32 (b + need) in
             setSpan rem (to_u32 (span - need)) false ;;;
             insertFree rem (to_u32 (span - need))) ;;;
          ret (to_u32 (b * blockBytes h), to_u32 (need * blockBytes h)).

(** ** Release *)

(** [mem[lo:hi]] overwritten with 0xdd. *)
Definition poison (lo hi : Z) : H unit :=
  let! h := get in
  if (lo <=? hi) && (hi <=? Z.of_nat (length (mem h)))
  then modify (set_mem (list_inserts (Z.to_nat lo) (replicate (Z.to_nat (hi - lo)) 0xdd) (mem h)))
  else panic.

Definition poisonLinks (b : Z) : H unit :=
  let! h := get in
  if poisonFreed h then poison (to_u32 (b * blockBytes h)) (to_u32 (to_u32 (b * blockBytes h) + tinyFreeLinkBytes)) else ret tt.

(** Merging with the free span that ends before [b]; the start and size that result. *)
Definition mergePrev (b span : Z) : H (Z * Z) :=
  if 0 <? b then
    let! prevSize := spanSize (b - 1) in
    if (0 <? prevSize) && (prevSize <=? b) then
      let prev := b - prevSize in
      let! used := isUsedStart prev in
      if used then ret (b, span)
      else
        let! size := spanSize prev in
        if (size =? prevSize) && (prev + prevSize =? b) then
          removeFree prev prevSize ;;;
          poisonLinks prev ;;;
          clearSpan prev prevSize ;;;
          clearSpan b span ;;;
          setSpan prev (to_u32 (prevSize + span)) false ;;;
          ret (prev, to_u32 (prevSize + span))
        else ret (b, span)
    else ret (b, span)
  else ret (b, span).

(** Merging with the free span that starts at the end; the size that results. *)
Definition mergeNext (b span : Z) : H Z :=
  let! h := get in
  let next := to_u32 (b + span) in
  if next <? blockCount h then
    let! nextSize := spanSize next in
    if (0 <? nextSize) && (nextSize <=? blockCount h - next) then
      let! used := isUsedStart next in
      if used then ret span
      else
        removeFree next nextSize ;;;
        poisonLinks next ;;;
        clearSpan b span ;;;
        clearSpan next nextSize ;;;
        setSpan b (to_u32 (span + nextSize)) false ;;;
        ret (to_u32 (span + nextSize))
    else ret span
  else ret span.

Definition freeSpan (off : Z) (poisoned : bool) : H unit :=
  let! h := get in
  if (blockBytes h =? 0) || negb (off mod blockBytes h =? 0) then fail errFreeOffset
  else
    let b := off / blockBytes h in
    let! valid := (if blockCount h <=? b then ret false
                   else let! used := isUsedStart b in
                        if used then let! size := spanSize b in ret (negb (size =? 0)) else ret false) in
    if negb valid then fail errFreeSpan
    else
      let! span := spanSize b in
      (if poisoned then poison (to_u32 (b * blockBytes h)) (to_u32 (to_u32 (b + span) * blockBytes h)) else ret tt) ;;;
      setUsedStart b false ;;;
      let! merged := mergePrev b span in
      let (b, span) := merged in
      let! span := mergeNext b span in
      insertFree b span.

Definition free (off : Z) : H unit := let! h := get in freeSpan off (poisonFreed h).
Definition freeWithoutPoison (off : Z) : H unit := freeSpan off false.

(** ** A new heap *)

Definition emptyHeap (m : list Z) (blocks bytes : Z) (poison : bool) : tinyHeap :=
  let bins := tinyBinForSize blocks + 1 in
  {| mem := m;
     span16 := if blocks <=? 2 ^ 16 - 1 then Some (replicate (Z.to_nat blocks) 0) else None;
     span32 := if blocks <=? 2 ^ 16 - 1 then [] else replicate (Z.to_nat blocks) 0;
     usedStarts := replicate (Z.to_nat ((blocks + 63) / 64)) 0;
     binHeads := replicate (Z.to_nat bins) tinyNoBlock;
     binWords := replicate (Z.to_nat ((bins + 63) / 64)) 0;
     binSummary := 0; blockCount := blocks; blockBytes := bytes; poisonFreed := poison |}.

Definition newTinyHeap (m : list Z) (blocks bytes : Z) (poison : bool) : outcome tinyError unit * tinyHeap :=
  (setSpan 0 blocks false ;;; insertFree 0 blocks) (emptyHeap m blocks bytes poison).

(** [validateTinyConfig]: the sizes [newTinyCollector] builds a heap from. *)
Record Config : Set := { TinyHeapBytes : Z; TinyBlockBytes : Z; TinyPacingStepLimit : Z; PoisonFreed : bool }.

Inductive configError : Set :=
| errHeapZero | errNotPowerOfTwo | errBlockTooSmall | errStepLimit | errNotMultiple | errBlockRange.

Definition validateTinyConfig (c : Config) : option configError :=
  if TinyHeapBytes c =? 0 then Some errHeapZero
  else if (TinyBlockBytes c =? 0) || negb (Z.land (TinyBlockBytes c) (TinyBlockBytes c - 1) =? 0) then Some errNotPowerOfTwo
  else if TinyBlockBytes c <? 8 then Some errBlockTooSmall
  else if tinyNearExhaustionStepLimit <? TinyPacingStepLimit c then Some errStepLimit
  else if negb (TinyHeapBytes c mod TinyBlockBytes c =? 0) then Some errNotMultiple
  else
    let blocks := TinyHeapBytes c / TinyBlockBytes c in
    if (blocks =? 0) || (blocks =? tinyNoBlock) then Some errBlockRange else None.

Definition heapOf (c : Config) (m : list Z) : outcome tinyError unit * tinyHeap :=
  newTinyHeap m (TinyHeapBytes c / TinyBlockBytes c) (TinyBlockBytes c) (PoisonFreed c).
End tiny.
