(* ===== verification/TinyLayout.v ===== *)
(** * The memory, the tags and the free lists of the tiny heap

    Each primitive of [Tiny] on the concrete fields of the heap, as a weakest
    precondition: it neither panics nor fails when its block is in range.  A free list
    is a [chain] through the link words of its blocks; [binsok] ties the two-level bitmap
    to the classes that are not empty. *)

From stdpp Require Import base tactics numbers list.
From Stdlib Require Import ZArith Lia.
From S2P Require Import Prelude Bits Tiny.
Local Open Scope Z_scope.

(** The call returns a value, and [Q] holds of it and of the heap it leaves. *)
Definition wp {A} (m : tiny.H A) (Q : A -> tinyHeap -> Prop) (h : tinyHeap) : Prop :=
  match m h with (Ok a, h') => Q a h' | _ => False end.

Lemma wp_ret {A} (a : A) (Q : A -> tinyHeap -> Prop) h : Q a h -> wp (ret a) Q h.
Proof. done. Qed.

Lemma wp_get (Q : tinyHeap -> tinyHeap -> Prop) h : Q h h -> wp get Q h.
Proof. done. Qed.

Lemma wp_modify f (Q : unit -> tinyHeap -> Prop) h : Q tt (f h) -> wp (modify f) Q h.
Proof. done. Qed.

Lemma wp_bind {A B} (m : tiny.H A) (k : A -> tiny.H B) (Q : B -> tinyHeap -> Prop) h :
  wp m (fun a => wp (k a) Q) h -> wp (bind m k) Q h.
Proof. unfold wp, bind. destruct (m h) as [[] ?]; done. Qed.

Lemma wp_mono {A} (m : tiny.H A) (P Q : A -> tinyHeap -> Prop) h : wp m P h -> (forall a h', P a h' -> Q a h') -> wp m Q h.
Proof. unfold wp. destruct (m h) as [[] ?]; auto. Qed.

(** ** Words in memory *)

Lemma getU32_putU32 v l : u32_ok v -> getU32 (putU32 v ++ l) = Some v.
Proof.
  intros [H0 H]. cbn [putU32 app getU32]. f_equal.
  rewrite (Z.mod_small (v / 2 ^ 24)) by (split; [apply Z.div_pos; lia|apply Z.div_lt_upper_bound; lia]).
  pose proof (Z.div_mod v (2 ^ 8) ltac:(lia)). pose proof (Z.div_mod (v / 2 ^ 8) (2 ^ 8) ltac:(lia)).
  pose proof (Z.div_mod (v / 2 ^ 8 / 2 ^ 8) (2 ^ 8) ltac:(lia)). rewrite !Z.div_div in * by lia.
  change (2 ^ 8 * 2 ^ 8) with (2 ^ 16) in *. change (2 ^ 16 * 2 ^ 8) with (2 ^ 24) in *. change (2 ^ 8) with 256 in *. lia.
Qed.

(** The word at an offset; in range it is what [readU32] returns. *)
Definition wordAt (m : list Z) (off : Z) : Z := default 0 (getU32 (drop (Z.to_nat off) m)).

Lemma getU32_some l : (4 <= length l)%nat -> exists v, getU32 l = Some v.
Proof. intros H. destruct l as [|a [|b [|c [|d l]]]]; cbn in H; try lia. by eexists. Qed.

(** Words are the four bytes from their offset. *)
Lemma wordAt_ext m m' off : 0 <= off -> (forall i, off <= Z.of_nat i < off + 4 -> m' !! i = m !! i) -> length m' = length m ->
  off + 4 <= Z.of_nat (length m) -> wordAt m' off = wordAt m off.
Proof.
  intros H0 H Hl Hr. unfold wordAt. f_equal.
  assert (forall k : nat, (k < 4)%nat -> drop (Z.to_nat off) m' !! k = drop (Z.to_nat off) m !! k) as Hk.
  { intros k Hk. rewrite !lookup_drop. apply H. lia. }
  assert (length (drop (Z.to_nat off) m') = length (drop (Z.to_nat off) m)) as El by (rewrite !length_drop; lia).
  assert (4 <= length (drop (Z.to_nat off) m))%nat as El4 by (rewrite length_drop; lia).
  destruct (drop (Z.to_nat off) m) as [|a [|b [|c [|d l]]]]; cbn in El4; try lia.
  destruct (drop (Z.to_nat off) m') as [|a' [|b' [|c' [|d' l']]]]; cbn in El; try lia.
  pose proof (Hk 0%nat ltac:(lia)) as E0. pose proof (Hk 1%nat ltac:(lia)) as E1. pose proof (Hk 2%nat ltac:(lia)) as E2. pose proof (Hk 3%nat ltac:(lia)) as E3.
  injection E0 as ->. injection E1 as ->. injection E2 as ->. injection E3 as ->. done.
Qed.

Lemma wordAt_inserts m off v : 0 <= off -> off + 4 <= Z.of_nat (length m) -> u32_ok v ->
  wordAt (list_inserts (Z.to_nat off) (putU32 v) m) off = v.
Proof.
  intros H0 Hr Hv. unfold wordAt.
  assert (list_inserts (Z.to_nat off) (putU32 v) m = take (Z.to_nat off) m ++ putU32 v ++ drop (Z.to_nat off + 4) m) as ->.
  { apply list_eq. intros i. destruct (decide (i < Z.to_nat off)%nat) as [Hi|Hi].
    - rewrite list_lookup_inserts_lt, lookup_app_l, lookup_take_lt by (rewrite ?length_take; lia). done.
    - rewrite lookup_app_r, length_take, Nat.min_l by (rewrite ?length_take; lia).
      destruct (decide (i < Z.to_nat off + 4)%nat) as [Hi2|Hi2].
      + rewrite list_lookup_inserts by (cbn; lia). rewrite lookup_app_l by (cbn; lia). done.
      + rewrite list_lookup_inserts_ge by (cbn; lia). rewrite lookup_app_r by (cbn; lia). rewrite lookup_drop. f_equal. cbn. lia. }
  rewrite drop_app_length' by (rewrite length_take; lia). rewrite getU32_putU32; done.
Qed.

(** ** Bytes a step may change *)

Definition touched (bb : Z) (K : Z -> Prop) (m m' : list Z) : Prop :=
  length m' = length m /\ forall i, ~ K (Z.of_nat i / bb) -> m' !! i = m !! i.

Lemma touched_refl bb K m : touched bb K m m.
Proof. done. Qed.

Lemma touched_trans bb (K : Z -> Prop) m1 m2 m3 : touched bb K m1 m2 -> touched bb K m2 m3 -> touched bb K m1 m3.
Proof. intros [H1 H2] [H3 H4]. split; [congruence|]. intros i Hi. rewrite H4, H2 by done. done. Qed.

Lemma touched_weaken bb (K K' : Z -> Prop) m m' : touched bb K m m' -> (forall b, K b -> K' b) -> touched bb K' m m'.
Proof. intros [H1 H2] H. split; [done|]. intros i Hi. apply H2. auto. Qed.

Lemma touched_inserts bb b off (l m : list Z) : 0 < bb -> 0 <= b -> b * bb <= off -> off + Z.of_nat (length l) <= (b + 1) * bb ->
  touched bb (eq b) m (list_inserts (Z.to_nat off) l m).
Proof.
  intros Hbb Hb Ho He. split; [apply length_inserts|]. intros i Hi.
  destruct (decide (i < Z.to_nat off)%nat); [by rewrite list_lookup_inserts_lt|].
  destruct (decide (Z.to_nat off + length l <= i)%nat); [by rewrite list_lookup_inserts_ge|].
  exfalso. apply Hi. apply (Z.div_unique_pos _ _ _ (Z.of_nat i - b * bb)); lia.
Qed.

(** ** The fields of a heap *)

Section Prims.
Context (N bb : Z) (HN : 0 < N < tinyNoBlock) (Hbb : 8 <= bb) (Htot : N * bb < 2 ^ 32).

(** The heap has [N] blocks of [bb] bytes, tags [tg], used starts [um], class heads [hs],
    bitmap [ws] with summary [sm], and memory [m]. *)
Record conc (h : tinyHeap) (tg : list Z) (um : list bool) (hs ws : list Z) (sm : Z) (m : list Z) : Prop := {
  c_count : blockCount h = N;
  c_bytes : blockBytes h = bb;
  c_mem : mem h = m;
  c_len : Z.of_nat (length m) = N * bb;
  c_tags : match span16 h with Some s => s | None => span32 h end = tg;
  c_tlen : Z.of_nat (length tg) = N;
  c_narrow : span16 h <> None -> N < 2 ^ 16;
  c_ulen : Z.of_nat (length um) = N;
  c_words : Z.of_nat (length (usedStarts h)) = (N + 63) / 64;
  c_used : forall i u, um !! i = Some u -> exists w, usedStarts h !! Z.to_nat (Z.of_nat i / 64) = Some w /\ Z.testbit w (Z.of_nat i mod 64) = u;
  c_heads : binHeads h = hs;
  c_bwords : binWords h = ws;
  c_sum : binSummary h = sm }.

Lemma block_range b : 0 <= b < N -> 0 <= b * bb /\ b * bb + bb <= N * bb.
Proof. nia. Qed.

Lemma to_nat_lt (x : Z) n : 0 <= x < Z.of_nat n -> (Z.to_nat x < n)%nat.
Proof. lia. Qed.

Lemma wp_spanSize h tg um hs ws sm m b s (Q : Z -> tinyHeap -> Prop) : conc h tg um hs ws sm m -> 0 <= b ->
  tg !! Z.to_nat b = Some s -> Q s h -> wp (tiny.spanSize b) Q h.
Proof.
  intros C Hb Hs HQ. unfold wp, tiny.spanSize, bind, get. cbn beta iota.
  pose proof (lookup_lt_Some _ _ _ Hs) as Hl. rewrite (c_count _ _ _ _ _ _ _ C), (proj2 (Z.leb_gt _ _)) by (pose proof (c_tlen _ _ _ _ _ _ _ C); lia).
  pose proof (c_tags _ _ _ _ _ _ _ C) as Ht. destruct (span16 h); subst tg; unfold tiny.idx; by rewrite Hs.
Qed.

Lemma wp_putSpanSize h tg um hs ws sm m b s (Q : unit -> tinyHeap -> Prop) : conc h tg um hs ws sm m -> 0 <= b < N -> 0 <= s <= N ->
  (forall h', poisonFreed h' = poisonFreed h -> conc h' (<[Z.to_nat b := s]> tg) um hs ws sm m -> Q tt h') -> wp (tiny.putSpanSize b s) Q h.
Proof.
  intros C Hb Hs HQ. unfold wp, tiny.putSpanSize, bind, get. cbn beta iota.
  destruct C as [C1 C2 C3 C4 Ht C6 Hn C8 C9 C10 C11 C12 C13].
  destruct (span16 h) as [sp|] eqn:E; unfold tiny.assign; subst tg; rewrite (proj2 (Z.ltb_lt _ _)) by lia; cbn.
  - assert (to_u16 s = s) as -> by (apply Z.mod_small; specialize (Hn ltac:(done)); lia).
    apply HQ; [done|]. split; cbn; rewrite ?length_insert; try done. intros _. by apply Hn.
  - apply HQ; [done|]. split; cbn; rewrite ?length_insert; done.
Qed.

Lemma split64 i j : 0 <= i -> 0 <= j -> i / 64 = j / 64 -> i mod 64 = j mod 64 -> i = j.
Proof. intros. rewrite (Z.div_mod i 64), (Z.div_mod j 64) by lia. congruence. Qed.

Lemma wp_isUsedStart h tg um hs ws sm m b u (Q : bool -> tinyHeap -> Prop) : conc h tg um hs ws sm m -> 0 <= b ->
  um !! Z.to_nat b = Some u -> Q u h -> wp (tiny.isUsedStart b) Q h.
Proof.
  intros C Hb Hu HQ. unfold wp, tiny.isUsedStart, bind, get. cbn beta iota.
  destruct (c_used _ _ _ _ _ _ _ C _ _ Hu) as (w & Hw & Ht). rewrite Z2Nat.id in Hw, Ht by lia.
  rewrite shiftr_6. unfold tiny.idx. rewrite Hw. cbn. rewrite land_63. pose proof (Z.mod_pos_bound b 64 ltac:(lia)).
  rewrite and_bit64, Ht by lia. rewrite (proj2 (Z.ltb_lt _ _)), andb_true_r, negb_involutive by lia. done.
Qed.

Lemma wp_setUsedStart h tg um hs ws sm m b u (Q : unit -> tinyHeap -> Prop) : conc h tg um hs ws sm m -> 0 <= b < N ->
  (forall h', poisonFreed h' = poisonFreed h -> conc h' tg (<[Z.to_nat b := u]> um) hs ws sm m -> Q tt h') -> wp (tiny.setUsedStart b u) Q h.
Proof.
  intros C Hb HQ. destruct C as [C1 C2 C3 C4 C5 C6 C7 C8 C9 Hu C11 C12 C13].
  destruct (lookup_lt_is_Some_2 um (Z.to_nat b)) as [u0 Hu0]; [lia|].
  destruct (Hu _ _ Hu0) as (w & Hw & _). rewrite Z2Nat.id in Hw by lia. pose proof (Z.mod_pos_bound b 64 ltac:(lia)) as Hmod.
  unfold wp, tiny.setUsedStart, bind, get. cbn beta iota. rewrite shiftr_6, land_63.
  unfold tiny.idx. rewrite Hw. cbn [ret]. unfold tiny.assign. pose proof (lookup_lt_Some _ _ _ Hw) as Hl.
  pose proof (Z.div_pos b 64 ltac:(lia) ltac:(lia)) as Hdiv. rewrite (proj2 (Z.ltb_lt _ _)) by lia. cbn.
  apply HQ; [done|]. split; try done; cbn; rewrite ?length_insert; try done.
  intros i v Hv. destruct (decide (Z.of_nat i / 64 = b / 64)) as [Ed|Ed].
  - rewrite Ed, list_lookup_insert_eq by lia. eexists. split; [done|].
    pose proof (Z.mod_pos_bound (Z.of_nat i) 64 ltac:(lia)) as Hm2.
    destruct (decide (i = Z.to_nat b)) as [->|Hne].
    + rewrite list_lookup_insert_eq in Hv by (rewrite <- Nat2Z.id; lia). injection Hv as <-. rewrite Z2Nat.id in * by lia.
      destruct u; [rewrite or_bit64 by lia|rewrite clear_bit64 by lia]; rewrite Z.eqb_refl; [by rewrite orb_true_r|by rewrite andb_false_r].
    + rewrite list_lookup_insert_ne in Hv by done. destruct (Hu _ _ Hv) as (w' & Hw' & Ht). rewrite Ed, Hw in Hw'. injection Hw' as <-.
      assert ((Z.of_nat i mod 64 =? b mod 64) = false) as Enb.
      { apply Z.eqb_neq. intros Em. apply Hne. pose proof (split64 (Z.of_nat i) b ltac:(lia) ltac:(lia) Ed Em). lia. }
      destruct u; [rewrite or_bit64 by lia|rewrite clear_bit64 by lia]; rewrite Enb; [by rewrite orb_false_r|by rewrite andb_true_r].
  - rewrite list_lookup_insert_ne by (intros E; apply Ed; pose proof (Z.div_pos (Z.of_nat i) 64); lia).
    apply Hu. by rewrite list_lookup_insert_ne in Hv by (intros E; apply Ed; f_equal; lia).
Qed.

(** ** Links *)

Definition links (m : list Z) (b : Z) : Z * Z := (wordAt m (b * bb), wordAt m (b * bb + 4)).

Lemma wp_freeLinks h tg um hs ws sm m b (Q : Z * Z -> tinyHeap -> Prop) : conc h tg um hs ws sm m -> 0 <= b < N ->
  Q (links m b) h -> wp (tiny.freeLinks b) Q h.
Proof.
  intros C Hb HQ. pose proof (block_range b Hb). pose proof (c_len _ _ _ _ _ _ _ C).
  unfold wp, tiny.freeLinks, tiny.readU32, bind, get. cbn beta iota.
  rewrite (c_bytes _ _ _ _ _ _ _ C), (c_mem _ _ _ _ _ _ _ C), !to_u32_small by (rewrite ?to_u32_small; lia).
  destruct (getU32_some (drop (Z.to_nat (b * bb)) m)) as [v1 E1]; [rewrite length_drop; lia|].
  destruct (getU32_some (drop (Z.to_nat (b * bb + 4)) m)) as [v2 E2]; [rewrite length_drop; lia|].
  rewrite E1. cbn. rewrite (c_mem _ _ _ _ _ _ _ C), E2. cbn. unfold links, wordAt in HQ. by rewrite E1, E2 in HQ.
Qed.

(** Memory of the heap, replaced. *)
Lemma conc_mem h tg um hs ws sm m m' : conc h tg um hs ws sm m -> length m' = length m -> conc (set_mem m' h) tg um hs ws sm m'.
Proof. intros [] Hl. split; try done. by rewrite Hl. Qed.

Definition linked (m m' : list Z) (b next prev : Z) : Prop :=
  touched bb (eq b) m m' /\ links m' b = (next, prev) /\ forall b', 0 <= b' < N -> b' <> b -> links m' b' = links m b'.

Lemma links_touched m m' K b : Z.of_nat (length m) = N * bb -> 0 <= b < N -> touched bb K m m' -> ~ K b -> links m' b = links m b.
Proof.
  intros Hl Hb [H1 H2] HK. pose proof (block_range b Hb).
  assert (forall off, b * bb <= off -> off + 4 <= b * bb + bb -> wordAt m' off = wordAt m off) as Hw.
  { intros off Ho1 Ho2. apply wordAt_ext; [lia| |done|lia]. intros i Hi. apply H2.
    rewrite <- (Z.div_unique_pos (Z.of_nat i) bb b (Z.of_nat i - b * bb)) by lia. done. }
  unfold links. f_equal; apply Hw; lia.
Qed.

Lemma wp_writeU32 h tg um hs ws sm m off v (Q : unit -> tinyHeap -> Prop) : conc h tg um hs ws sm m -> off + 4 <= N * bb ->
  (conc (set_mem (list_inserts (Z.to_nat off) (putU32 v) m) h) tg um hs ws sm (list_inserts (Z.to_nat off) (putU32 v) m) ->
   Q tt (set_mem (list_inserts (Z.to_nat off) (putU32 v) m) h)) -> wp (tiny.writeU32 off v) Q h.
Proof.
  intros C Ho HQ. unfold tiny.writeU32. apply wp_bind, wp_get. rewrite (c_mem _ _ _ _ _ _ _ C).
  rewrite (proj2 (Z.leb_le _ _)) by (pose proof (c_len _ _ _ _ _ _ _ C); lia). apply HQ.
  apply (conc_mem h _ _ _ _ _ m); [done|apply length_inserts].
Qed.

Lemma wp_setFreeLinks h tg um hs ws sm m b next prev (Q : unit -> tinyHeap -> Prop) : conc h tg um hs ws sm m -> 0 <= b < N ->
  u32_ok next -> u32_ok prev ->
  (forall h' m', poisonFreed h' = poisonFreed h -> conc h' tg um hs ws sm m' -> linked m m' b next prev -> Q tt h') ->
  wp (tiny.setFreeLinks b next prev) Q h.
Proof.
  intros C Hb Hn Hp HQ. pose proof (block_range b Hb). pose proof (c_len _ _ _ _ _ _ _ C) as Hl.
  unfold tiny.setFreeLinks. apply wp_bind, wp_get. rewrite (c_bytes _ _ _ _ _ _ _ C), !to_u32_small by (rewrite ?to_u32_small; lia).
  apply wp_bind. apply (wp_writeU32 _ _ _ _ _ _ _ _ _ _ C); [lia|]. set (m1 := list_inserts (Z.to_nat (b * bb)) (putU32 next) m). intros C1.
  apply (wp_writeU32 _ _ _ _ _ _ _ _ _ _ C1); [lia|]. set (m2 := list_inserts (Z.to_nat (b * bb + 4)) (putU32 prev) m1). intros C2.
  assert (Hl1 : length m1 = length m) by apply length_inserts. assert (Hl2 : length m2 = length m) by (unfold m2; rewrite length_inserts; done).
  assert (T : touched bb (eq b) m m2).
  { eapply touched_trans; [apply (touched_inserts bb b (b * bb) (putU32 next)); cbn; lia|apply (touched_inserts bb b (b * bb + 4) (putU32 prev)); cbn; lia]. }
  apply (HQ _ m2); [done|done|].
  split; [done|]. split; [|intros b' Hb' Hne; by apply (links_touched m m2 (eq b))].
  unfold links. f_equal.
  - transitivity (wordAt m1 (b * bb)); [|apply wordAt_inserts; [lia|lia|done]]. apply wordAt_ext; try lia.
    intros i Hi. apply list_lookup_inserts_lt. lia.
  - apply wordAt_inserts; [lia|lia|done].
Qed.

Lemma wp_poison h tg um hs ws sm m lo hi (K : Z -> Prop) (Q : unit -> tinyHeap -> Prop) : conc h tg um hs ws sm m ->
  0 <= lo <= hi -> hi <= N * bb -> (forall i, lo <= i < hi -> K (i / bb)) ->
  (forall h' m', poisonFreed h' = poisonFreed h -> conc h' tg um hs ws sm m' -> touched bb K m m' -> Q tt h') -> wp (tiny.poison lo hi) Q h.
Proof.
  intros C Hlo Hhi HK HQ. pose proof (c_len _ _ _ _ _ _ _ C) as Hl. unfold wp, tiny.poison, bind, get. cbn beta iota.
  rewrite (c_mem _ _ _ _ _ _ _ C), (proj2 (Z.leb_le lo hi)), (proj2 (Z.leb_le hi _)) by lia. cbn.
  eapply HQ; [done|apply (conc_mem h _ _ _ _ _ m); [done|apply length_inserts]|]. split; [apply length_inserts|]. intros i Hi.
  destruct (decide (i < Z.to_nat lo)%nat); [by rewrite list_lookup_inserts_lt|].
  rewrite list_lookup_inserts_ge; [done|]. rewrite length_replicate. destruct (Z.lt_ge_cases (Z.of_nat i) hi); [|lia].
  exfalso. apply Hi, HK. lia.
Qed.

(** ** Heads and bitmap *)

Lemma wp_head h tg um hs ws sm m bin b (Q : Z -> tinyHeap -> Prop) : conc h tg um hs ws sm m ->
  hs !! Z.to_nat bin = Some b -> Q b h -> wp (tiny.head bin) Q h.
Proof.
  intros C Hb HQ. apply wp_bind, wp_get. rewrite (c_heads _ _ _ _ _ _ _ C). unfold tiny.idx. by rewrite Hb.
Qed.

Lemma wp_setHead h tg um hs ws sm m bin b (Q : unit -> tinyHeap -> Prop) : conc h tg um hs ws sm m ->
  0 <= bin < Z.of_nat (length hs) ->
  (forall h', poisonFreed h' = poisonFreed h -> conc h' tg um (<[Z.to_nat bin := b]> hs) ws sm m -> Q tt h') -> wp (tiny.setHead bin b) Q h.
Proof.
  intros C Hb HQ. apply wp_bind, wp_get. destruct C. unfold tiny.assign. subst hs. rewrite (proj2 (Z.ltb_lt _ _)) by lia.
  apply wp_modify, HQ; [done|]. by split.
Qed.

(** The class [bin] is not empty exactly when its bit is set; a bit of the summary says
    that its word is not zero. *)
Record binsok (ws : list Z) (sm : Z) (ne : list bool) : Prop := {
  b_len : Z.of_nat (length ws) = (Z.of_nat (length ne) + 63) / 64;
  b_max : Z.of_nat (length ne) <= 64 * 63;
  b_word : forall w x, ws !! w = Some x -> 0 <= x < 2 ^ 64 /\
    forall j, 0 <= j < 64 -> Z.testbit x j = default false (ne !! Z.to_nat (64 * Z.of_nat w + j));
  b_sum0 : 0 <= sm;
  b_sum : forall w : nat, Z.testbit sm (Z.of_nat w) = match ws !! w with Some x => negb (x =? 0) | None => false end }.

Lemma or_bit64_range x n : 0 <= n < 64 -> 0 <= x < 2 ^ 64 -> 0 <= Z.lor x (bit64 n) < 2 ^ 64.
Proof.
  intros Hn Hx. assert (0 <= bit64 n) by (rewrite bit64_small by lia; lia). assert (0 <= Z.lor x (bit64 n)) by (apply Z.lor_nonneg; lia).
  split; [done|]. apply bits_below; [lia|done|]. intros i Hi. rewrite or_bit64 by lia. rewrite (testbit_above x 64) by lia.
  apply Z.eqb_neq. lia.
Qed.

Lemma clear_bit64_range x n : 0 <= n < 64 -> 0 <= x < 2 ^ 64 -> 0 <= Z.ldiff x (bit64 n) < 2 ^ 64.
Proof.
  intros Hn Hx. assert (0 <= Z.ldiff x (bit64 n)) by (apply Z.ldiff_nonneg; lia).
  split; [done|]. apply bits_below; [lia|done|]. intros i Hi. rewrite clear_bit64 by lia. by rewrite (testbit_above x 64) by lia.
Qed.

Lemma or_bit64_neq0 x n : 0 <= n < 64 -> Z.lor x (bit64 n) <> 0.
Proof. intros Hn E. apply (f_equal (fun z => Z.testbit z n)) in E. rewrite or_bit64, Z.bits_0, Z.eqb_refl, orb_true_r in E by lia. done. Qed.

(** The bits of one word after one of them is set or cleared. *)
Lemma word_bits (ne : list bool) (bin j : Z) (u : bool) (x x' : Z) : 0 <= bin < Z.of_nat (length ne) -> 0 <= j < 64 ->
  Z.testbit x j = default false (ne !! Z.to_nat (64 * (bin / 64) + j)) ->
  Z.testbit x' j = (if u then Z.testbit x j || (j =? bin mod 64) else Z.testbit x j && negb (j =? bin mod 64)) ->
  Z.testbit x' j = default false (<[Z.to_nat bin := u]> ne !! Z.to_nat (64 * (bin / 64) + j)).
Proof.
  intros Hb Hj Hx ->. pose proof (Z.div_mod bin 64 ltac:(lia)) as Ed. pose proof (Z.mod_pos_bound bin 64 ltac:(lia)).
  destruct (Z.eqb_spec j (bin mod 64)) as [->|Hne].
  - rewrite <- Ed, list_lookup_insert_eq by lia. destruct u; cbn; [by rewrite orb_true_r|by rewrite andb_false_r].
  - rewrite list_lookup_insert_ne, <- Hx by lia. destruct u; cbn; [by rewrite orb_false_r|by rewrite andb_true_r].
Qed.

Lemma binsok_update (ws : list Z) (sm : Z) (ne : list bool) (bin : Z) (u : bool) (x x' sm' : Z) : binsok ws sm ne -> 0 <= bin < Z.of_nat (length ne) ->
  ws !! Z.to_nat (bin / 64) = Some x -> 0 <= x' < 2 ^ 64 ->
  (forall j, 0 <= j < 64 -> Z.testbit x' j = if u then Z.testbit x j || (j =? bin mod 64) else Z.testbit x j && negb (j =? bin mod 64)) ->
  0 <= sm' -> (forall w, 0 <= w -> Z.testbit sm' w = if w =? bin / 64 then negb (x' =? 0) else Z.testbit sm w) ->
  binsok (<[Z.to_nat (bin / 64) := x']> ws) sm' (<[Z.to_nat bin := u]> ne).
Proof.
  intros B Hb Hx Hr Hbits H0 Hsum. pose proof (Z.div_pos bin 64 ltac:(lia) ltac:(lia)) as Hq. pose proof (lookup_lt_Some _ _ _ Hx) as Hl.
  split; rewrite ?length_insert; [apply B|apply B| |done|].
  - intros w y Hy. destruct (decide (w = Z.to_nat (bin / 64))) as [->|Hne].
    + rewrite list_lookup_insert_eq in Hy by done. injection Hy as <-. split; [done|]. intros j Hj. rewrite Z2Nat.id by lia.
      apply (word_bits _ _ _ _ x); [done|done| |by apply Hbits]. destruct (b_word _ _ _ B _ _ Hx) as [_ E]. rewrite E, Z2Nat.id by lia. done.
    + rewrite list_lookup_insert_ne in Hy by done. destruct (b_word _ _ _ B _ _ Hy) as [H1 E]. split; [done|]. intros j Hj. rewrite E by done.
      rewrite list_lookup_insert_ne; [done|]. intros Ei. apply Hne. pose proof (Z.div_mod bin 64 ltac:(lia)). pose proof (Z.mod_pos_bound bin 64 ltac:(lia)). lia.
  - intros w. rewrite Hsum by lia. destruct (Z.eqb_spec (Z.of_nat w) (bin / 64)) as [Ew|Hne].
    + replace w with (Z.to_nat (bin / 64)) by lia. by rewrite list_lookup_insert_eq.
    + rewrite list_lookup_insert_ne by lia. apply B.
Qed.

Lemma bin_word ws sm ne bin : binsok ws sm ne -> 0 <= bin < Z.of_nat (length ne) ->
  exists x, ws !! Z.to_nat (bin / 64) = Some x /\ 0 <= x < 2 ^ 64 /\ 0 <= bin / 64 < 63.
Proof.
  intros B Hb. pose proof (b_len _ _ _ B) as Hl. pose proof (b_max _ _ _ B). pose proof (Z.div_pos bin 64 ltac:(lia) ltac:(lia)).
  assert (bin / 64 < Z.of_nat (length ws)).
  { rewrite Hl. apply Z.div_lt_upper_bound; [lia|]. pose proof (Z.div_mod (Z.of_nat (length ne) + 63) 64 ltac:(lia)) as E.
    pose proof (Z.mod_pos_bound (Z.of_nat (length ne) + 63) 64 ltac:(lia)). lia. }
  destruct (lookup_lt_is_Some_2 ws (Z.to_nat (bin / 64))) as [x Hx]; [lia|]. exists x. split; [done|].
  split; [by apply (b_word _ _ _ B _ _ Hx)|]. split; [lia|]. apply Z.div_lt_upper_bound; lia.
Qed.

(** A class is not empty when its bit is set. *)
Lemma bin_bit ws sm ne j : binsok ws sm ne -> 0 <= j ->
  (ne !! Z.to_nat j = Some true <-> exists x, ws !! Z.to_nat (j / 64) = Some x /\ Z.testbit x (j mod 64) = true).
Proof.
  intros B Hj. pose proof (Z.div_mod j 64 ltac:(lia)) as E. pose proof (Z.mod_pos_bound j 64 ltac:(lia)) as Hm. pose proof (Z.div_pos j 64 Hj ltac:(lia)).
  split.
  - intros Hne. pose proof (lookup_lt_Some _ _ _ Hne). destruct (bin_word _ _ _ j B ltac:(lia)) as (x & Hx & _). exists x. split; [done|].
    destruct (b_word _ _ _ B _ _ Hx) as [_ Hb]. rewrite Hb, Z2Nat.id, <- E, Hne by lia. done.
  - intros (x & Hx & Ht). destruct (b_word _ _ _ B _ _ Hx) as [_ Hb]. rewrite Hb, Z2Nat.id, <- E in Ht by lia.
    destruct (ne !! Z.to_nat j) as [[]|]; done.
Qed.

Lemma wp_markBin h tg um hs ws sm m ne bin u (Q : unit -> tinyHeap -> Prop) : conc h tg um hs ws sm m -> binsok ws sm ne ->
  0 <= bin < Z.of_nat (length ne) ->
  (forall h' ws' sm', poisonFreed h' = poisonFreed h -> conc h' tg um hs ws' sm' m -> binsok ws' sm' (<[Z.to_nat bin := u]> ne) -> Q tt h') ->
  wp (tiny.markBin bin u) Q h.
Proof.
  intros C B Hb HQ. destruct (bin_word _ _ _ _ B Hb) as (x & Hx & Hr & Hq). pose proof (Z.mod_pos_bound bin 64 ltac:(lia)) as Hm.
  pose proof (lookup_lt_Some _ _ _ Hx) as Hl. pose proof (b_sum0 _ _ _ B) as H0.
  unfold tiny.markBin. rewrite shiftr_6, land_63. apply wp_bind, wp_get. apply wp_bind.
  rewrite (c_bwords _ _ _ _ _ _ _ C), (c_sum _ _ _ _ _ _ _ C). unfold tiny.idx. rewrite Hx. apply wp_ret.
  pose proof (b_sum _ _ _ B (Z.to_nat (bin / 64))) as Hs. rewrite Hx, Z2Nat.id in Hs by lia.
  destruct u; unfold tiny.assign; rewrite (proj2 (Z.ltb_lt _ _)) by lia; apply wp_modify.
  - eapply HQ; [done|by destruct C; split|]. eapply binsok_update; try done.
    + apply or_bit64_range; lia.
    + intros j Hj. apply or_bit64; lia.
    + cbn. apply Z.lor_nonneg. split; [done|]. rewrite bit64_small by lia. lia.
    + intros w Hw. cbn. rewrite or_bit64 by lia. rewrite (proj2 (Z.eqb_neq _ 0)) by (apply or_bit64_neq0; lia).
      destruct (Z.eqb_spec w (bin / 64)); [by rewrite orb_true_r|by rewrite orb_false_r].
  - eapply HQ; [done|by destruct C; split|]. eapply binsok_update; try done.
    + apply clear_bit64_range; lia.
    + intros j Hj. apply clear_bit64; lia.
    + cbn. case_match; [|done]. apply Z.ldiff_nonneg. lia.
    + intros w Hw. cbn. destruct (Z.eqb_spec (Z.ldiff x (bit64 (bin mod 64))) 0) as [E|E].
      * rewrite clear_bit64 by lia. destruct (Z.eqb_spec w (bin / 64)); [by rewrite andb_false_r|by rewrite andb_true_r].
      * destruct (Z.eqb_spec w (bin / 64)) as [->|]; [|done]. rewrite Hs. apply negb_true_iff, Z.eqb_neq. intros ->. by rewrite Z.ldiff_0_l in E.
Qed.

(** [^uint64(0) << k], for [k <= 64]. *)
Lemma above_mask x k i : 0 <= k -> 0 <= i < 64 -> Z.testbit (Z.land x (to_u64 (Z.shiftl (2 ^ 64 - 1) k))) i = Z.testbit x i && (k <=? i).
Proof.
  intros Hk Hi. rewrite Z.land_spec. f_equal. unfold to_u64. rewrite Z.mod_pow2_bits_low, Z.shiftl_spec by lia.
  destruct (Z.leb_spec k i); [|by rewrite Z.testbit_neg_r by lia].
  replace (2 ^ 64 - 1) with (Z.ones 64) by (rewrite Z.ones_equiv; lia). apply Z.ones_spec_low. lia.
Qed.

Lemma above_mask_range x k : 0 <= k -> 0 <= x -> 0 <= Z.land x (to_u64 (Z.shiftl (2 ^ 64 - 1) k)) < 2 ^ 64.
Proof.
  intros Hk Hx. pose proof (to_u64_range (Z.shiftl (2 ^ 64 - 1) k)) as Hr. assert (0 <= Z.land x (to_u64 (Z.shiftl (2 ^ 64 - 1) k))) by (apply Z.land_nonneg; lia).
  split; [done|]. apply bits_below; [lia|done|]. intros i Hi. rewrite Z.land_spec, (testbit_above (to_u64 _) 64), andb_false_r by lia. done.
Qed.

(** The first class after [bin] that is not empty. *)
Lemma wp_firstSpanAfterBin h tg um hs ws sm m ne bin (Q : Z -> tinyHeap -> Prop) : conc h tg um hs ws sm m -> binsok ws sm ne ->
  0 <= bin < Z.of_nat (length ne) -> length hs = length ne ->
  ((forall j, bin < j -> ne !! Z.to_nat j <> Some true) -> Q tinyNoBlock h) ->
  (forall j b, bin < j -> ne !! Z.to_nat j = Some true -> (forall i, bin < i < j -> ne !! Z.to_nat i <> Some true) ->
     hs !! Z.to_nat j = Some b -> Q b h) ->
  wp (tiny.firstSpanAfterBin bin) Q h.
Proof.
  intros C B Hb Hlen Hnone Hsome. destruct (bin_word _ _ _ _ B Hb) as (x & Hx & Hr & Hq). pose proof (Z.mod_pos_bound bin 64 ltac:(lia)) as Hm.
  pose proof (Z.div_mod bin 64 ltac:(lia)) as Ebin.
  assert (Hfound : forall j, bin < j -> ne !! Z.to_nat j = Some true -> (forall i, bin < i < j -> ne !! Z.to_nat i <> Some true) -> wp (tiny.head j) Q h).
  { intros j Hj Hne Hi. destruct (lookup_lt_is_Some_2 hs (Z.to_nat j)) as [b Hh]; [rewrite Hlen; by eapply lookup_lt_Some|].
    eapply wp_head; [done|done|by eapply Hsome]. }
  unfold tiny.firstSpanAfterBin. rewrite shiftr_6, land_63. apply wp_bind, wp_get. apply wp_bind.
  assert (Hcand : forall P : Z -> tinyHeap -> Prop,
    (forall c, 0 <= c < 2 ^ 64 -> (forall j, 0 <= j < 64 -> Z.testbit c j = Z.testbit x j && (bin mod 64 + 1 <=? j)) -> P c h) ->
    wp (if bin mod 64 + 1 <? 64 then bind (tiny.idx (binWords h) (bin / 64)) (fun w => ret (Z.land w (to_u64 (Z.shiftl (2 ^ 64 - 1) (bin mod 64 + 1))))) else ret 0) P h).
  { intros P HP. destruct (Z.ltb_spec (bin mod 64 + 1) 64).
    - apply wp_bind. rewrite (c_bwords _ _ _ _ _ _ _ C). unfold tiny.idx. rewrite Hx. apply wp_ret, wp_ret, HP; [apply above_mask_range; lia|].
      intros j Hj. apply above_mask; lia.
    - apply wp_ret, HP; [lia|]. intros j Hj. rewrite Z.bits_0, (proj2 (Z.leb_gt _ j)), andb_false_r by lia. done. }
  apply Hcand. intros c Hc Hcb. clear Hcand. destruct (Z.eqb_spec c 0) as [->|Hc0]; cbn [negb].
  - assert (Hword : forall j, bin < j -> j / 64 = bin / 64 -> ne !! Z.to_nat j <> Some true).
    { intros j Hj Ej E. apply (bin_bit _ _ _ j B ltac:(lia)) in E as (y & Hy & Ht). rewrite Ej, Hx in Hy. injection Hy as <-.
      pose proof (Z.div_mod j 64 ltac:(lia)). pose proof (Z.mod_pos_bound j 64 ltac:(lia)) as Hjm. specialize (Hcb _ Hjm).
      rewrite Z.bits_0, Ht, (proj2 (Z.leb_le _ _)) in Hcb by lia. done. }
    rewrite (c_sum _ _ _ _ _ _ _ C), (c_bwords _ _ _ _ _ _ _ C).
    pose proof (above_mask_range sm (bin / 64 + 1) ltac:(lia) (b_sum0 _ _ _ B)) as Hrr.
    pose proof (fun i => above_mask sm (bin / 64 + 1) i ltac:(lia)) as Hrb. set (rest := Z.land sm _) in *.
    destruct (Z.eqb_spec rest 0) as [E0|Hne0].
    + apply wp_ret, Hnone. intros j Hj E. destruct (Z.eq_dec (j / 64) (bin / 64)) as [Ej|Ej]; [by eapply Hword|].
      pose proof E as E'. apply (bin_bit _ _ _ j B ltac:(lia)) in E' as (y & Hy & Ht).
      pose proof (lookup_lt_Some _ _ _ E) as Hjl. destruct (bin_word _ _ _ j B ltac:(lia)) as (_ & _ & _ & Hjq).
      specialize (Hrb (j / 64) ltac:(lia)). rewrite E0, Z.bits_0 in Hrb. pose proof (b_sum _ _ _ B (Z.to_nat (j / 64))) as Hs.
      rewrite Hy, Z2Nat.id in Hs by lia. rewrite Hs in Hrb. pose proof (Z.div_le_mono bin j 64 ltac:(lia) ltac:(lia)).
      rewrite (proj2 (Z.leb_le _ _)), andb_true_r in Hrb by lia. symmetry in Hrb. apply negb_false_iff, Z.eqb_eq in Hrb as ->. by rewrite Z.bits_0 in Ht.
    + destruct (tz64_spec rest ltac:(lia)) as (Hw0 & Hwt & Hwmin). set (w1 := TrailingZeros64 rest) in *.
      assert (w1 < 64) by (destruct (Z.lt_ge_cases w1 64) as [|Hge]; [done|by rewrite (testbit_above rest 64) in Hwt by lia]).
      pose proof (Hrb w1 ltac:(lia)) as Hw1. rewrite Hwt in Hw1. symmetry in Hw1. apply andb_true_iff in Hw1 as [Hs1 Hle1]. apply Z.leb_le in Hle1.
      pose proof (b_sum _ _ _ B (Z.to_nat w1)) as Hs. rewrite Z2Nat.id in Hs by lia. rewrite Hs1 in Hs.
      apply wp_bind. unfold tiny.idx. destruct (ws !! Z.to_nat w1) as [x1|] eqn:Ex1; [|done]. apply wp_ret.
      symmetry in Hs. apply negb_true_iff, Z.eqb_neq in Hs. destruct (b_word _ _ _ B _ _ Ex1) as [Hx1 _].
      destruct (tz64_spec x1 ltac:(lia)) as (Hk0 & Hkt & Hkmin). set (k := TrailingZeros64 x1) in *.
      assert (k < 64) by (destruct (Z.lt_ge_cases k 64) as [|Hge]; [done|by rewrite (testbit_above x1 64) in Hkt by lia]).
      assert (Ediv : (w1 * 64 + k) / 64 = w1) by (symmetry; apply (Z.div_unique_pos _ _ _ k); lia).
      assert (Emod : (w1 * 64 + k) mod 64 = k) by (symmetry; apply (Z.mod_unique_pos _ _ w1); lia).
      apply Hfound; [lia|apply (bin_bit _ _ _ _ B); [lia|]; exists x1; by rewrite Ediv, Emod|].
      intros i Hi E. destruct (Z.eq_dec (i / 64) (bin / 64)) as [Ej|Ej]; [eapply Hword; [|done|done]; lia|].
      pose proof E as E'. apply (bin_bit _ _ _ i B ltac:(lia)) in E' as (y & Hy & Ht).
      pose proof (lookup_lt_Some _ _ _ E) as Hjl. destruct (bin_word _ _ _ i B ltac:(lia)) as (_ & _ & _ & Hjq).
      pose proof (Z.div_le_mono bin i 64 ltac:(lia) ltac:(lia)). pose proof (Z.div_le_mono i (w1 * 64 + k) 64 ltac:(lia) ltac:(lia)).
      pose proof (Z.div_mod i 64 ltac:(lia)). pose proof (Z.mod_pos_bound i 64 ltac:(lia)).
      pose proof (b_sum _ _ _ B (Z.to_nat (i / 64))) as Hsi. rewrite Hy, Z2Nat.id in Hsi by lia.
      assert (y <> 0) by (intros ->; by rewrite Z.bits_0 in Ht). rewrite (proj2 (Z.eqb_neq y 0)) in Hsi by done.
      assert (w1 <= i / 64). { apply Hwmin; [lia|]. rewrite Hrb, Hsi by lia. apply Z.leb_le. lia. }
      assert (i / 64 = w1) as Ei by lia. rewrite Ei, Ex1 in Hy. injection Hy as <-. pose proof (Hkmin (i mod 64) ltac:(lia) Ht). lia.
  - destruct (tz64_spec c ltac:(lia)) as (Hk0 & Hkt & Hkmin). set (k := TrailingZeros64 c) in *.
    assert (k < 64) by (destruct (Z.lt_ge_cases k 64) as [|Hge]; [done|by rewrite (testbit_above c 64) in Hkt by lia]).
    pose proof (Hcb k ltac:(lia)) as Hk. rewrite Hkt in Hk. symmetry in Hk. apply andb_true_iff in Hk as [Hxk Hle]. apply Z.leb_le in Hle.
    assert (Ediv : (bin / 64 * 64 + k) / 64 = bin / 64) by (symmetry; apply (Z.div_unique_pos _ _ _ k); lia).
    assert (Emod : (bin / 64 * 64 + k) mod 64 = k) by (symmetry; apply (Z.mod_unique_pos _ _ (bin / 64)); lia).
    apply Hfound; [lia|apply (bin_bit _ _ _ _ B); [lia|]; exists x; by rewrite Ediv, Emod|].
    intros i Hi E. apply (bin_bit _ _ _ i B ltac:(lia)) in E as (y & Hy & Ht).
    pose proof (Z.div_mod i 64 ltac:(lia)). pose proof (Z.mod_pos_bound i 64 ltac:(lia)).
    pose proof (Z.div_le_mono bin i 64 ltac:(lia) ltac:(lia)). pose proof (Z.div_le_mono i (bin / 64 * 64 + k) 64 ltac:(lia) ltac:(lia)).
    assert (i / 64 = bin / 64) as Ei by lia. rewrite Ei, Hx in Hy. injection Hy as <-.
    assert (k <= i mod 64); [|lia]. apply Hkmin; [lia|]. rewrite Hcb, Ht by lia. apply Z.leb_le. lia.
Qed.

(** ** Doubly linked lists *)

Fixpoint chain (lk : Z -> Z * Z) (prev next : Z) (L : list Z) : Prop :=
  match L with [] => True | b :: L => lk b = (hd next L, prev) /\ chain lk b next L end.

(** The last element, or what precedes the list. *)
Fixpoint lastOr (prev : Z) (L : list Z) : Z := match L with [] => prev | b :: L => lastOr b L end.

Lemma chain_ext lk lk' prev next L : (forall b, b ∈ L -> lk' b = lk b) -> chain lk prev next L -> chain lk' prev next L.
Proof.
  revert prev. induction L as [|b L IH]; intros prev H; [done|]. intros [H1 H2]. split; [by rewrite H by (by left)|].
  apply IH; [|done]. intros x Hx. apply H. by right.
Qed.

Lemma chain_app lk prev next L1 L2 : chain lk prev next (L1 ++ L2) <-> chain lk prev (hd next L2) L1 /\ chain lk (lastOr prev L1) next L2.
Proof.
  revert prev. induction L1 as [|b L1 IH]; intros prev; cbn; [tauto|]. rewrite IH.
  assert (hd next (L1 ++ L2) = hd (hd next L2) L1) as -> by (by destruct L1). tauto.
Qed.

Lemma lastOr_in prev L : lastOr prev L = prev /\ L = [] \/ lastOr prev L ∈ L.
Proof.
  revert prev. induction L as [|b L IH]; intros prev; [by left|]. right. cbn. destruct (IH b) as [[-> _]|]; [by left|by right].
Qed.

Lemma chain_snd lk prev next L b : chain lk prev next L -> b ∈ L -> snd (lk b) = prev \/ snd (lk b) ∈ L.
Proof.
  revert prev. induction L as [|a L IH]; intros prev; [by intros _ ?%elem_of_nil|]. intros [H1 H2] [->|Hb]%elem_of_cons; [left; by rewrite H1|].
  right. destruct (IH a H2 Hb) as [->|]; [by left|by right].
Qed.

(** The link of the last element changes its next. *)
Lemma chain_relast lk lk' prev next next' L : L <> [] -> NoDup L -> chain lk prev next L ->
  lk' (lastOr prev L) = (next', snd (lk (lastOr prev L))) -> (forall b, b ∈ L -> b <> lastOr prev L -> lk' b = lk b) -> chain lk' prev next' L.
Proof.
  revert prev. induction L as [|b L IH]; intros prev Hne Hnd; [done|]. intros [H1 H2] Hl Ho. apply NoDup_cons in Hnd as [Hnb Hnd].
  cbn in Hl, Ho |- *. destruct L as [|c L]; [cbn in *; by rewrite Hl, H1|]. cbn [lastOr] in Hl, Ho. split.
  - rewrite Ho; [done|by left|]. intros Eb. apply Hnb. rewrite Eb. destruct (lastOr_in c L) as [[-> _]|Hin]; [by left|by right].
  - apply IH; [done|done|done|done|]. intros x Hx. apply Ho. by right.
Qed.

(** The link of the first element changes its prev. *)
Lemma chain_refirst lk lk' prev prev' next b L : NoDup (b :: L) -> chain lk prev next (b :: L) ->
  lk' b = (fst (lk b), prev') -> (forall x, x ∈ L -> lk' x = lk x) -> chain lk' prev' next (b :: L).
Proof.
  intros Hnd [H1 H2] Hb Ho. split; [by rewrite Hb, H1|]. by apply (chain_ext lk).
Qed.

(** ** The free lists *)

Definition inFl (fl : list (list Z)) (i : nat) (b : Z) : Prop := exists L, fl !! i = Some L /\ b ∈ L.

Definition nonempty (L : list Z) : bool := match L with [] => false | _ => true end.

Record linv (hs ws : list Z) (sm : Z) (m : list Z) (fl : list (list Z)) : Prop := {
  l_heads : hs = map (hd tinyNoBlock) fl;
  l_chain : forall i L, fl !! i = Some L -> chain (links m) tinyNoBlock tinyNoBlock L;
  l_nodup : forall i L, fl !! i = Some L -> NoDup L;
  l_disj : forall i j b, inFl fl i b -> inFl fl j b -> i = j;
  l_range : forall i b, inFl fl i b -> 0 <= b < N;
  l_bins : binsok ws sm (map nonempty fl) }.

Lemma range_u32 b : 0 <= b < N -> u32_ok b /\ b <> tinyNoBlock.
Proof. unfold u32_ok, tinyNoBlock in *. lia. Qed.

Lemma noBlock_u32 : u32_ok tinyNoBlock.
Proof. unfold u32_ok, tinyNoBlock. lia. Qed.

Lemma hd_range hs ws sm m fl i L : linv hs ws sm m fl -> fl !! i = Some L -> L <> [] -> 0 <= hd tinyNoBlock L < N.
Proof. intros I Hi Hne. destruct L as [|b L]; [done|]. apply (l_range _ _ _ _ _ I i). exists (b :: L). split; [done|by left]. Qed.

Lemma hd_u32 hs ws sm m fl i L1 L2 : linv hs ws sm m fl -> fl !! i = Some (L1 ++ L2) -> u32_ok (hd tinyNoBlock L2).
Proof.
  intros I Hi. destruct L2 as [|b L2]; [apply noBlock_u32|]. apply range_u32, (l_range _ _ _ _ _ I i). exists (L1 ++ b :: L2).
  split; [done|]. cbn. apply elem_of_app. right. by left.
Qed.

Lemma inFl_insert fl i j L b : (i < length fl)%nat -> inFl (<[i := L]> fl) j b <-> (j = i /\ b ∈ L) \/ (j <> i /\ inFl fl j b).
Proof.
  intros Hi. unfold inFl. destruct (decide (j = i)) as [->|Hne].
  - rewrite list_lookup_insert_eq by done. split; [intros (M & [= <-] & H); by left|intros [[_ H]|[H _]]; [by exists L|done]].
  - rewrite list_lookup_insert_ne by done. split; [intros H; by right|intros [[H _]|[_ H]]; done].
Qed.

(** Free lists after one of them changed, with the memory changed in blocks that are
    in none of the others. *)
Lemma linv_update hs ws sm m fl i L L' ws' sm' m' : linv hs ws sm m fl -> fl !! i = Some L ->
  chain (links m') tinyNoBlock tinyNoBlock L' -> NoDup L' ->
  (forall b, b ∈ L' -> 0 <= b < N /\ forall j, inFl fl j b -> j = i) ->
  (forall j b, j <> i -> inFl fl j b -> links m' b = links m b) ->
  binsok ws' sm' (<[i := nonempty L']> (map nonempty fl)) ->
  linv (<[i := hd tinyNoBlock L']> hs) ws' sm' m' (<[i := L']> fl).
Proof.
  intros I Hi Hc Hnd Hr Ho Hb. pose proof (lookup_lt_Some _ _ _ Hi) as Hlt. split.
  - rewrite (l_heads _ _ _ _ _ I). by rewrite list_fmap_insert.
  - intros j M Hj. destruct (decide (j = i)) as [->|Hne].
    + rewrite list_lookup_insert_eq in Hj by done. by injection Hj as <-.
    + rewrite list_lookup_insert_ne in Hj by done. apply (chain_ext (links m)); [|by eapply l_chain].
      intros b Hbm. apply (Ho j); [done|]. by exists M.
  - intros j M Hj. destruct (decide (j = i)) as [->|Hne].
    + rewrite list_lookup_insert_eq in Hj by done. by injection Hj as <-.
    + rewrite list_lookup_insert_ne in Hj by done. by eapply l_nodup.
  - intros j k b. rewrite !inFl_insert by done. intros [[-> H1]|[H1 H1']] [[-> H2]|[H2 H2']].
    + done.
    + exfalso. apply H2. by apply (Hr b H1).
    + exfalso. apply H1. by apply (Hr b H2).
    + by eapply l_disj.
  - intros j b. rewrite inFl_insert by done. intros [[-> H1]|[H1 H1']]; [by apply Hr|by eapply l_range].
  - by rewrite list_fmap_insert.
Qed.

(** [insertFree]: the block becomes the first of its class. *)
Lemma wp_insertFree h tg um hs ws sm m fl b size L (Q : unit -> tinyHeap -> Prop) : conc h tg um hs ws sm m -> linv hs ws sm m fl ->
  0 <= b < N -> (forall i, ~ inFl fl i b) -> 0 <= tiny.tinyBinForSize size -> fl !! Z.to_nat (tiny.tinyBinForSize size) = Some L ->
  (forall h' hs' ws' sm' m', poisonFreed h' = poisonFreed h -> conc h' tg um hs' ws' sm' m' ->
     linv hs' ws' sm' m' (<[Z.to_nat (tiny.tinyBinForSize size) := b :: L]> fl) ->
     touched bb (fun k => k = b \/ exists i, inFl fl i k) m m' -> Q tt h') ->
  wp (tiny.insertFree b size) Q h.
Proof.
  intros C I Hb Hnot Hbin0 HL HQ. unfold tiny.insertFree. set (bin := tiny.tinyBinForSize size) in *. pose proof (lookup_lt_Some _ _ _ HL) as Hlt.
  assert (Hh : hs !! Z.to_nat bin = Some (hd tinyNoBlock L)) by (by rewrite (l_heads _ _ _ _ _ I), list_lookup_fmap, HL).
  apply wp_bind. eapply wp_head; [done|exact Hh|]. set (K := fun k => k = b \/ exists i, inFl fl i k).
  apply wp_bind. eapply wp_setFreeLinks; [done|done|apply (hd_u32 _ _ _ _ _ _ [] L I HL)|apply noBlock_u32|].
  intros h1 m1 P1 C1 (T1 & L1 & O1). apply wp_bind.
  assert (Hcont : forall h2 m2, poisonFreed h2 = poisonFreed h -> conc h2 tg um hs ws sm m2 -> touched bb K m m2 ->
    chain (links m2) tinyNoBlock tinyNoBlock (b :: L) -> (forall j c, j <> Z.to_nat bin -> inFl fl j c -> links m2 c = links m c) ->
    wp (bind (tiny.setHead bin b) (fun _ => tiny.markBin bin true)) Q h2).
  { intros h2 m2 P2 C2 T2 Hch Hoth. apply wp_bind. eapply wp_setHead; [done|apply lookup_lt_Some in Hh; lia|]. intros h3 P3 C3.
    eapply wp_markBin; [done|apply (l_bins _ _ _ _ _ I)|rewrite length_map; lia|]. intros h4 ws4 sm4 P4 C4 B4.
    eapply HQ; [congruence|done| |exact T2]. eapply (linv_update hs ws sm m fl (Z.to_nat bin) L (b :: L)); try done.
    - apply NoDup_cons. split; [|by eapply l_nodup]. intros Hin. apply (Hnot (Z.to_nat bin)). by exists L.
    - intros c Hc. apply elem_of_cons in Hc as [->|Hc]; [split; [done|]; intros j Hj; by destruct (Hnot j)|].
      assert (inFl fl (Z.to_nat bin) c) by (by exists L). split; [by eapply l_range|]. intros j Hj. by eapply l_disj. }
  destruct L as [|c L]; cbn [hd] in *.
  - rewrite Z.eqb_refl. apply wp_ret. apply (Hcont h1 m1); [done|done|eapply touched_weaken; [exact T1|]; intros k <-; by left|done|].
    intros j x Hj Hx. apply O1; [by eapply l_range|]. intros ->. by destruct (Hnot j).
  - assert (Hcin : inFl fl (Z.to_nat bin) c) by (exists (c :: L); split; [done|by left]). pose proof (l_range _ _ _ _ _ I _ _ Hcin) as Hc.
    destruct (range_u32 c Hc) as [Huc Hcn]. rewrite (proj2 (Z.eqb_neq c tinyNoBlock)) by done.
    assert (Hcb : c <> b) by (intros ->; by apply (Hnot (Z.to_nat bin))).
    pose proof (l_chain _ _ _ _ _ I _ _ HL) as Hchain. pose proof Hchain as [Hlc _]. pose proof (l_nodup _ _ _ _ _ I _ _ HL) as Hnd.
    apply wp_bind. eapply wp_freeLinks; [done|done|]. rewrite (O1 c Hc Hcb), Hlc. cbn [fst].
    eapply wp_setFreeLinks; [done|done|apply (hd_u32 _ _ _ _ _ _ [c] L I HL)|by apply range_u32|]. intros h2 m2 P2 C2 (T2 & L2 & O2).
    assert (Hold : forall j x, inFl fl j x -> x <> c -> links m2 x = links m x).
    { intros j x Hx Hne. pose proof (l_range _ _ _ _ _ I _ _ Hx). rewrite O2 by done. apply O1; [done|]. intros ->. by destruct (Hnot j). }
    apply (Hcont h2 m2); [congruence|done| | |].
    + eapply touched_trans; [eapply touched_weaken; [exact T1|]; intros k <-; by left|eapply touched_weaken; [exact T2|]; intros k <-; right; by eexists].
    + split; [by rewrite O2, L1 by congruence|]. apply (chain_refirst (links m) _ tinyNoBlock); [done|done|by rewrite L2, Hlc|].
      intros x Hx. apply (Hold (Z.to_nat bin)); [exists (c :: L); split; [done|by right]|]. intros ->. by apply NoDup_cons in Hnd as [? _].
    + intros j x Hj Hx. apply (Hold j); [done|]. intros ->. apply Hj. by eapply l_disj.
Qed.

(** [removeFree]: the block leaves its class. *)
Lemma wp_removeFree h tg um hs ws sm m fl b size L1 L2 (Q : unit -> tinyHeap -> Prop) : conc h tg um hs ws sm m -> linv hs ws sm m fl ->
  0 <= tiny.tinyBinForSize size -> fl !! Z.to_nat (tiny.tinyBinForSize size) = Some (L1 ++ b :: L2) ->
  (forall h' hs' ws' sm' m', poisonFreed h' = poisonFreed h -> conc h' tg um hs' ws' sm' m' ->
     linv hs' ws' sm' m' (<[Z.to_nat (tiny.tinyBinForSize size) := L1 ++ L2]> fl) ->
     touched bb (fun k => k <> b /\ exists i, inFl fl i k) m m' -> Q tt h') ->
  wp (tiny.removeFree b size) Q h.
Proof.
  intros C I Hbin0 HL HQ. unfold tiny.removeFree. set (bin := tiny.tinyBinForSize size) in *. pose proof (lookup_lt_Some _ _ _ HL) as Hlt.
  set (K := fun k => k <> b /\ exists i, inFl fl i k). set (prev := lastOr tinyNoBlock L1). set (next := hd tinyNoBlock L2).
  pose proof (l_nodup _ _ _ _ _ I _ _ HL) as Hnd. pose proof Hnd as (Hnd1 & Hd12 & Hnd2)%NoDup_app. apply NoDup_cons in Hnd2 as [Hb2 Hnd2].
  pose proof (l_chain _ _ _ _ _ I _ _ HL) as Hch. apply chain_app in Hch as [Hch1 [Hlb Hch2]]. cbn [hd] in Hch1.
  assert (Hin : forall x, x ∈ L1 ++ b :: L2 -> 0 <= x < N /\ inFl fl (Z.to_nat bin) x).
  { intros x Hx. assert (inFl fl (Z.to_nat bin) x) by (by exists (L1 ++ b :: L2)). split; [by eapply l_range|done]. }
  assert (Hin1 : forall x, x ∈ L1 -> 0 <= x < N /\ K x /\ x ∉ L2).
  { intros x Hx. destruct (Hin x) as [? ?]; [apply elem_of_app; by left|]. pose proof (Hd12 x Hx) as Hn. rewrite not_elem_of_cons in Hn.
    split; [done|]. split; [split; [tauto|by eexists]|tauto]. }
  assert (Hin2 : forall x, x ∈ L2 -> 0 <= x < N /\ K x /\ x ∉ L1).
  { intros x Hx. destruct (Hin x) as [? ?]; [apply elem_of_app; right; by right|]. split; [done|]. split; [split; [by intros ->|by eexists]|].
    intros Hx1. by apply Hin1 in Hx1 as (_ & _ & ?). }
  assert (Hbr : 0 <= b < N) by (apply Hin, elem_of_app; right; by left).
  assert (Hun : u32_ok next) by (by apply (hd_u32 _ _ _ _ _ (Z.to_nat bin) (L1 ++ [b]) L2 I); rewrite <- app_assoc).
  assert (Hup : u32_ok prev).
  { destruct (lastOr_in tinyNoBlock L1) as [[E _]|E]; unfold prev; [rewrite E; apply noBlock_u32|]. by apply range_u32, Hin1. }
  apply wp_bind. eapply wp_freeLinks; [done|done|]. rewrite Hlb. apply wp_bind.
  (* the end: the head is read back, and the class marked empty *)
  assert (Hend : forall h2 m2, poisonFreed h2 = poisonFreed h -> conc h2 tg um (<[Z.to_nat bin := hd tinyNoBlock (L1 ++ L2)]> hs) ws sm m2 ->
    touched bb K m m2 -> chain (links m2) tinyNoBlock next L1 -> chain (links m2) prev tinyNoBlock L2 ->
    (forall x, 0 <= x < N -> x ∉ L1 -> x ∉ L2 -> links m2 x = links m x) ->
    wp (bind (tiny.head bin) (fun first => if first =? tinyNoBlock then tiny.markBin bin false else ret tt)) Q h2).
  { intros h2 m2 P2 C2 T2 H1 H2 Ho. apply wp_bind. eapply wp_head; [done|apply list_lookup_insert_eq; rewrite (l_heads _ _ _ _ _ I), length_map; lia|].
    assert (Hfin : forall ws' sm', binsok ws' sm' (<[Z.to_nat bin := nonempty (L1 ++ L2)]> (map nonempty fl)) ->
      linv (<[Z.to_nat bin := hd tinyNoBlock (L1 ++ L2)]> hs) ws' sm' m2 (<[Z.to_nat bin := L1 ++ L2]> fl)).
    { intros ws' sm' B. eapply linv_update; try done.
      - by apply chain_app.
      - apply NoDup_app. split; [done|]. split; [|done]. intros x Hx. by apply Hin1.
      - intros x Hx. destruct (Hin x) as [? ?]; [apply elem_of_app in Hx as [|]; apply elem_of_app; [by left|right; by right]|].
        split; [done|]. intros j Hj. by eapply l_disj.
      - intros j x Hj Hx. pose proof (l_range _ _ _ _ _ I _ _ Hx). apply Ho; [done| |]; intros Hx'; apply Hj;
          (eapply l_disj; [done|done|]); apply Hin, elem_of_app; [by left|right; by right]. }
    destruct (Z.eqb_spec (hd tinyNoBlock (L1 ++ L2)) tinyNoBlock) as [E|E].
    - assert (nonempty (L1 ++ L2) = false) as En.
      { destruct (L1 ++ L2) as [|x M] eqn:EL; [done|]. exfalso. cbn in E. subst x.
        assert (tinyNoBlock ∈ L1 ++ L2) as Hx by (rewrite EL; by left). destruct (Hin tinyNoBlock) as [? _]; [|lia].
        apply elem_of_app in Hx as [|]; apply elem_of_app; [by left|right; by right]. }
      eapply wp_markBin; [done|apply (l_bins _ _ _ _ _ I)|rewrite length_map; lia|]. intros h3 ws3 sm3 P3 C3 B3.
      eapply HQ; [congruence|done|apply Hfin; by rewrite En|done].
    - assert (nonempty (L1 ++ L2) = true) as En by (by destruct (L1 ++ L2)).
      apply wp_ret. eapply HQ; [done|done|apply Hfin|done]. rewrite En, list_insert_id; [apply (l_bins _ _ _ _ _ I)|].
      rewrite list_lookup_fmap, HL. cbn. by destruct L1. }
  (* the next block is told its new predecessor *)
  assert (Hnext : forall h1 m1, poisonFreed h1 = poisonFreed h -> conc h1 tg um (<[Z.to_nat bin := hd tinyNoBlock (L1 ++ L2)]> hs) ws sm m1 ->
    touched bb K m m1 -> chain (links m1) tinyNoBlock next L1 -> (forall x, 0 <= x < N -> x ∉ L1 -> links m1 x = links m x) ->
    wp (bind (if next =? tinyNoBlock then ret tt else bind (tiny.freeLinks next) (fun l => tiny.setFreeLinks next (fst l) prev))
         (fun _ => bind (tiny.head bin) (fun first => if first =? tinyNoBlock then tiny.markBin bin false else ret tt))) Q h1).
  { intros h1 m1 P1 C1 T1 H1 Ho. apply wp_bind. destruct L2 as [|c L2]; cbn [hd] in next; subst next.
    - rewrite Z.eqb_refl. apply wp_ret. by apply (Hend h1 m1); auto.
    - destruct (Hin2 c) as (Hc & HKc & Hc1); [by left|]. destruct (range_u32 c Hc) as [Huc Hcn]. rewrite (proj2 (Z.eqb_neq c tinyNoBlock)) by done.
      apply wp_bind. eapply wp_freeLinks; [done|done|]. rewrite Ho by done. pose proof Hch2 as [Hlc _]. rewrite Hlc. cbn [fst].
      eapply wp_setFreeLinks; [done|done|by apply (hd_u32 _ _ _ _ _ (Z.to_nat bin) (L1 ++ [b; c]) L2 I); rewrite <- app_assoc|done|].
      intros h2 m2 P2 C2 (T2 & Lc & O2). apply (Hend h2 m2); [congruence|done| | | |].
      + eapply touched_trans; [exact T1|]. eapply touched_weaken; [exact T2|]. by intros k <-.
      + apply (chain_ext (links m1)); [|done]. intros x Hx. apply O2; [by apply Hin1|]. by intros ->.
      + apply (chain_refirst (links m) _ b); [done|done|by rewrite Lc, Hlc|]. intros x Hx. apply NoDup_cons in Hnd2 as [Hcn2 _].
        rewrite O2; [apply Ho; apply Hin2; by right|apply Hin2; by right|by intros ->].
      + intros x Hx Hx1 Hx2. rewrite not_elem_of_cons in Hx2. rewrite O2 by tauto. by apply Ho. }
  destruct L1 as [|a L1]; subst prev.
  - rewrite Z.eqb_refl. eapply wp_setHead; [done|rewrite (l_heads _ _ _ _ _ I), length_map; lia|]. intros h1 P1 C1. by apply (Hnext h1 m).
  - set (prev := lastOr tinyNoBlock (a :: L1)) in *. assert (Hp : prev ∈ a :: L1) by (change prev with (lastOr a L1); destruct (lastOr_in a L1) as [[-> _]|]; [by left|by right]).
    destruct (Hin1 prev Hp) as (Hpr & HKp & _). destruct (range_u32 prev Hpr) as [_ Hpn]. rewrite (proj2 (Z.eqb_neq prev tinyNoBlock)) by done.
    apply wp_bind. eapply wp_freeLinks; [done|done|].
    assert (Hu : u32_ok (snd (links m prev))).
    { destruct (chain_snd _ _ _ _ _ Hch1 Hp) as [->|E]; [apply noBlock_u32|]. by apply range_u32, Hin1. }
    eapply wp_setFreeLinks; [done|done|done|done|]. intros h1 m1 P1 C1 (T1 & Lp & O1). apply (Hnext h1 m1); [done| | | |].
    + rewrite list_insert_id; [done|]. rewrite (l_heads _ _ _ _ _ I), list_lookup_fmap, HL. done.
    + eapply touched_weaken; [exact T1|]. by intros k <-.
    + apply (chain_relast (links m) _ _ b); [done|done|done|exact Lp|]. intros x Hx Hne. apply O1; [by apply Hin1|done].
    + intros x Hx Hx1. apply O1; [done|]. by intros ->.
Qed.

(** ** Finding a span *)

(** The walk of a class finds its first span that is large enough. *)
Lemma wp_walkBin h tg um hs ws sm m need (size : Z -> Z) (Q : option Z -> tinyHeap -> Prop) fuel prev L : conc h tg um hs ws sm m ->
  chain (links m) prev tinyNoBlock L -> (forall b, b ∈ L -> 0 <= b < N /\ tg !! Z.to_nat b = Some (size b)) -> (length L <= fuel)%nat ->
  ((forall b, b ∈ L -> size b < need) -> Q None h) ->
  (forall b, b ∈ L -> need <= size b -> Q (Some b) h) ->
  wp (tiny.walkBin fuel need (hd tinyNoBlock L)) Q h.
Proof.
  intros C. revert fuel prev. induction L as [|b L IH]; intros fuel prev Hch Hs Hf Hnone Hsome.
  - destruct fuel; cbn [tiny.walkBin hd]; rewrite Z.eqb_refl; apply wp_ret, Hnone; intros b Hb; by apply elem_of_nil in Hb.
  - destruct fuel as [|fuel]; cbn in Hf; [lia|]. destruct (Hs b) as [Hb Ht]; [by left|]. destruct (range_u32 b Hb) as [_ Hn].
    cbn [tiny.walkBin hd]. rewrite (proj2 (Z.eqb_neq b tinyNoBlock)) by done. destruct Hch as [Hl Hch].
    apply wp_bind. eapply wp_freeLinks; [done|done|]. apply wp_bind. eapply wp_spanSize; [done|lia|done|]. rewrite Hl. cbn [fst].
    destruct (Z.leb_spec need (size b)); [apply wp_ret, Hsome; [by left|done]|].
    apply (IH fuel b); [done|intros x Hx; apply Hs; by right|lia| |].
    + intros Hall. apply Hnone. intros x [->|Hx]%elem_of_cons; [done|by apply Hall].
    + intros x Hx. apply Hsome. by right.
Qed.
End Prims.

(** ** The layout of the blocks *)

Definition layout : Type := list (Z * bool).

Fixpoint total (l : layout) : Z := match l with [] => 0 | (s, _) :: l => s + total l end.

Definition zeros (s : Z) : list Z := replicate (Z.to_nat s) 0.
Definition tag (s : Z) : list Z := if s =? 1 then [s] else s :: zeros (s - 2) ++ [s].
Definition tags (l : layout) : list Z := concat (map (fun x => tag (fst x)) l).

Definition mark (s : Z) (u : bool) : list bool := u :: replicate (Z.to_nat (s - 1)) false.
Definition marks (l : layout) : list bool := concat (map (fun x => mark (fst x) (snd x)) l).

(** Whether each block belongs to an allocated span. *)
Definition owned (l : layout) : list bool := concat (map (fun x => replicate (Z.to_nat (fst x)) (snd x)) l).

(** A free span of [s] blocks starts at [b]. *)
Fixpoint freeAt (l : layout) (b s : Z) : Prop :=
  match l with [] => False | (s0, u) :: l => (u = false /\ b = 0 /\ s = s0) \/ freeAt l (b - s0) s end.

Definition layout_ok (l : layout) : Prop := Forall (fun x => 0 < fst x) l.

(** No two free spans are neighbours; [free] tells that a free span comes before. *)
Fixpoint coalesced (free : bool) (l : layout) : Prop :=
  match l with [] => True | (_, u) :: l => (free = true -> u = true) /\ coalesced (negb u) l end.

Fixpoint endsFree (free : bool) (l : layout) : bool := match l with [] => free | (_, u) :: l => endsFree (negb u) l end.

(** ** Sizes *)

Lemma total_app l1 l2 : total (l1 ++ l2) = total l1 + total l2.
Proof. induction l1 as [|[s u] l1 IH]; cbn; [lia|]. rewrite IH. lia. Qed.

Lemma blocks_nonneg l : layout_ok l -> 0 <= total l.
Proof. induction 1 as [|[s u] l H _ IH]; cbn in *; lia. Qed.

Lemma length_tag s : 0 < s -> Z.of_nat (length (tag s)) = s.
Proof.
  intros H. unfold tag, zeros. destruct (Z.eqb_spec s 1) as [->|]; [done|].
  cbn [length]. rewrite length_app, length_replicate. cbn [length]. lia.
Qed.

Lemma length_tags l : layout_ok l -> Z.of_nat (length (tags l)) = total l.
Proof.
  induction 1 as [|[s u] l H _ IH]; [done|]. cbn [tags map concat total fst] in *.
  rewrite length_app, Nat2Z.inj_add, length_tag by done. unfold tags in IH. lia.
Qed.

Lemma length_mark s u : 0 < s -> Z.of_nat (length (mark s u)) = s.
Proof. intros H. cbn [mark length]. rewrite length_replicate. lia. Qed.

Lemma length_marks l : layout_ok l -> Z.of_nat (length (marks l)) = total l.
Proof.
  induction 1 as [|[s u] l H _ IH]; [done|]. cbn [marks map concat total fst snd] in *.
  rewrite length_app, Nat2Z.inj_add, length_mark by done. unfold marks in IH. lia.
Qed.

Lemma length_owned l : layout_ok l -> Z.of_nat (length (owned l)) = total l.
Proof.
  induction 1 as [|[s u] l H _ IH]; [done|]. cbn [owned map concat total fst snd] in *.
  rewrite length_app, Nat2Z.inj_add, length_replicate by done. unfold owned in IH. lia.
Qed.

Lemma tags_app l1 l2 : tags (l1 ++ l2) = tags l1 ++ tags l2.
Proof. unfold tags. by rewrite map_app, concat_app. Qed.
Lemma marks_app l1 l2 : marks (l1 ++ l2) = marks l1 ++ marks l2.
Proof. unfold marks. by rewrite map_app, concat_app. Qed.
Lemma owned_app l1 l2 : owned (l1 ++ l2) = owned l1 ++ owned l2.
Proof. unfold owned. by rewrite map_app, concat_app. Qed.

(** ** Writing tags and marks *)

Lemma zeros_split s : 2 <= s -> zeros s = 0 :: zeros (s - 2) ++ [0].
Proof.
  intros H. unfold zeros. replace (Z.to_nat s) with (S (Z.to_nat (s - 2) + 1)) by lia. cbn. by rewrite replicate_add.
Qed.

Lemma insert_first {A} (P S : list A) (b : Z) (x x' : A) : Z.of_nat (length P) = b -> <[Z.to_nat b := x']> (P ++ x :: S) = P ++ x' :: S.
Proof. intros Hb. replace (Z.to_nat b) with (length P + 0)%nat by lia. by rewrite insert_app_r. Qed.

(** The writes at both ends of a span of two or more blocks. *)
Lemma insert_ends {A} (P M S : list A) (b s : Z) (x y x' y' : A) : Z.of_nat (length P) = b -> Z.of_nat (length M) + 2 = s ->
  <[Z.to_nat (b + s - 1) := y']> (<[Z.to_nat b := x']> (P ++ (x :: M ++ [y]) ++ S)) = P ++ (x' :: M ++ [y']) ++ S.
Proof.
  intros Hb Hs. assert (forall v w, P ++ (v :: M ++ [w]) ++ S = (P ++ v :: M) ++ w :: S) as E.
  { intros v w. cbn [app]. by rewrite <- !app_assoc. }
  cbn [app] in E |- *. rewrite (insert_first P _ b x x') by done.
  rewrite !E. apply insert_first. rewrite length_app. cbn [length]. lia.
Qed.

Lemma set_tag P S b s : Z.of_nat (length P) = b -> 0 < s ->
  <[Z.to_nat (b + s - 1) := s]> (<[Z.to_nat b := s]> (P ++ zeros s ++ S)) = P ++ tag s ++ S.
Proof.
  intros Hb Hs. unfold tag. destruct (Z.eqb_spec s 1) as [->|Hne].
  - replace (b + 1 - 1) with b by lia. cbn [zeros]. change (zeros 1) with [0]. cbn [app]. by rewrite !insert_first.
  - rewrite zeros_split by lia. apply insert_ends; [done|]. unfold zeros. rewrite length_replicate. lia.
Qed.

Lemma clear_tag P S b s : Z.of_nat (length P) = b -> 0 < s ->
  (if 1 <? s then <[Z.to_nat (b + s - 1) := 0]> (<[Z.to_nat b := 0]> (P ++ tag s ++ S)) else <[Z.to_nat b := 0]> (P ++ tag s ++ S)) = P ++ zeros s ++ S.
Proof.
  intros Hb Hs. unfold tag. destruct (Z.eqb_spec s 1) as [->|Hne]; [by apply insert_first|]. rewrite (proj2 (Z.ltb_lt _ _)), (zeros_split s) by lia.
  apply insert_ends; [done|]. unfold zeros. rewrite length_replicate. lia.
Qed.

Lemma zeros_add a b : 0 <= a -> 0 <= b -> zeros (a + b) = zeros a ++ zeros b.
Proof. intros. unfold zeros. by rewrite Z2Nat.inj_add, replicate_add by lia. Qed.

Lemma mark_false s : 0 < s -> mark s false = replicate (Z.to_nat s) false.
Proof. intros H. unfold mark. replace (Z.to_nat s) with (S (Z.to_nat (s - 1))) by lia. done. Qed.

Lemma mark_false_add a b : 0 < a -> 0 < b -> mark (a + b) false = mark a false ++ mark b false.
Proof. intros. rewrite !mark_false by lia. by rewrite Z2Nat.inj_add, replicate_add by lia. Qed.

Lemma set_mark P S b s u u' : Z.of_nat (length P) = b -> <[Z.to_nat b := u']> (P ++ mark s u ++ S) = P ++ mark s u' ++ S.
Proof. intros Hb. unfold mark. cbn [app]. by apply insert_first. Qed.

Lemma tag_first P S b s : Z.of_nat (length P) = b -> (P ++ tag s ++ S) !! Z.to_nat b = Some s.
Proof.
  intros Hb. rewrite lookup_app_r by lia. replace (Z.to_nat b - length P)%nat with 0%nat by lia.
  unfold tag. by destruct (s =? 1).
Qed.

Lemma tag_last P S b s : Z.of_nat (length P) = b -> 0 < s -> (P ++ tag s ++ S) !! Z.to_nat (b + s - 1) = Some s.
Proof.
  intros Hb Hs. unfold tag. destruct (Z.eqb_spec s 1) as [->|Hne].
  - apply list_lookup_middle. lia.
  - assert (P ++ (s :: zeros (s - 2) ++ [s]) ++ S = (P ++ s :: zeros (s - 2)) ++ s :: S) as -> by (cbn [app]; by rewrite <- !app_assoc).
    apply list_lookup_middle. unfold zeros. rewrite length_app. cbn [length]. rewrite length_replicate. lia.
Qed.

Lemma mark_first P S b s u : Z.of_nat (length P) = b -> (P ++ mark s u ++ S) !! Z.to_nat b = Some u.
Proof. intros Hb. rewrite lookup_app_r by lia. by replace (Z.to_nat b - length P)%nat with 0%nat by lia. Qed.

(** ** Free spans *)

Lemma freeAt_app l1 l2 b s : freeAt (l1 ++ l2) b s <-> freeAt l1 b s \/ freeAt l2 (b - total l1) s.
Proof.
  revert b. induction l1 as [|[s0 u] l1 IH]; intros b; cbn; [rewrite Z.sub_0_r; tauto|]. rewrite IH.
  replace (b - s0 - total l1) with (b - (s0 + total l1)) by lia. tauto.
Qed.

Lemma freeAt_range l b s : layout_ok l -> freeAt l b s -> 0 <= b /\ 0 < s /\ b + s <= total l.
Proof.
  intros Hok. revert b. induction Hok as [|[s0 u] l H Hl IH]; intros b; cbn in *; [done|]. pose proof (blocks_nonneg l Hl).
  intros [(_ & -> & ->)|Hf]; [lia|]. apply IH in Hf. lia.
Qed.

Lemma freeAt_split l b s : freeAt l b s -> exists pre post, l = pre ++ (s, false) :: post /\ total pre = b.
Proof.
  revert b. induction l as [|[s0 u] l IH]; intros b; cbn; [done|]. intros [(-> & -> & ->)|Hf]; [by exists [], l|].
  destruct (IH _ Hf) as (pre & post & -> & E). exists ((s0, u) :: pre), post. split; [done|]. cbn. lia.
Qed.

Lemma layout_ok_app l1 l2 : layout_ok (l1 ++ l2) <-> layout_ok l1 /\ layout_ok l2.
Proof. apply Forall_app. Qed.

Lemma layout_ok_cons s u l : layout_ok ((s, u) :: l) <-> 0 < s /\ layout_ok l.
Proof. unfold layout_ok. by rewrite Forall_cons. Qed.

(** The free spans around one whose parts are given. *)
Lemma freeAt_around pre mid post b s : layout_ok pre -> layout_ok mid -> layout_ok post ->
  (b < total pre \/ total pre + total mid <= b) ->
  freeAt (pre ++ mid ++ post) b s <-> freeAt pre b s \/ freeAt post (b - total pre - total mid) s.
Proof.
  intros H1 H2 H3 Hb. rewrite !freeAt_app. split; [|tauto]. intros [?|[Hm|?]]; [tauto| |tauto].
  apply freeAt_range in Hm; [lia|done].
Qed.

Lemma freeAt_unique l b s s' : layout_ok l -> freeAt l b s -> freeAt l b s' -> s = s'.
Proof.
  intros Hok. revert b. induction Hok as [|[s0 u] l H Hl IH]; intros b; cbn in *; [done|].
  intros [(-> & -> & ->)|H1] [(E & E2 & ->)|H2].
  - done.
  - apply freeAt_range in H2; [lia|done].
  - apply freeAt_range in H1; [lia|done].
  - by eapply IH.
Qed.

(** The blocks of a free span are not owned. *)
Lemma freeAt_owned l b s k : layout_ok l -> freeAt l b s -> b <= k < b + s -> owned l !! Z.to_nat k = Some false.
Proof.
  intros Hok Hf Hk. destruct (freeAt_split l b s Hf) as (pre & post & -> & E). apply layout_ok_app in Hok as [Hp _].
  rewrite owned_app. cbn [owned map concat fst snd]. pose proof (length_owned pre Hp) as Hl. pose proof (blocks_nonneg pre Hp).
  rewrite lookup_app_r by lia. rewrite lookup_app_l by (rewrite length_replicate; lia). apply lookup_replicate. split; [done|lia].
Qed.

(** ** Coalescing *)

Lemma coalesced_app free l1 l2 : coalesced free (l1 ++ l2) <-> coalesced free l1 /\ coalesced (endsFree free l1) l2.
Proof. revert free. induction l1 as [|[s u] l1 IH]; intros free; cbn; [tauto|]. rewrite IH. tauto. Qed.

Lemma endsFree_app free l1 l2 : endsFree free (l1 ++ l2) = endsFree (endsFree free l1) l2.
Proof. revert free. induction l1 as [|[s u] l1 IH]; intros free; cbn; [done|]. by rewrite IH. Qed.

Lemma coalesced_weaken l : coalesced true l -> coalesced false l.
Proof. destruct l as [|[s u] l]; cbn; [done|]. tauto. Qed.

(** ** Size classes *)

Lemma large_bin s : 64 < s < 2 ^ 32 ->
  let fl := Z.log2 s in 6 <= fl <= 31 /\ 2 ^ fl <= s < 2 * 2 ^ fl /\ 0 < 2 ^ fl / 8 /\ 2 ^ fl = 8 * (2 ^ fl / 8) /\
  tiny.tinyBinForSize s = 64 + (fl - 6) * 8 + (s - 2 ^ fl) / (2 ^ fl / 8) /\ 0 <= (s - 2 ^ fl) / (2 ^ fl / 8) < 8.
Proof.
  intros Hs fl. pose proof (Z.log2_spec s ltac:(lia)) as [H1 H2]. fold fl in H1, H2. rewrite Z.pow_succ_r in H2 by apply Z.log2_nonneg.
  assert (6 <= fl) by (apply (Z.log2_le_mono 64 s); lia). assert (fl < 32) by (apply Z.log2_lt_pow2; lia).
  assert (Hd : 2 ^ fl = 8 * 2 ^ (fl - 3)) by (change 8 with (2 ^ 3); rewrite <- Z.pow_add_r by lia; f_equal; lia).
  pose proof (Z.pow_pos_nonneg 2 (fl - 3) ltac:(lia) ltac:(lia)).
  assert (Ed : 2 ^ fl / 8 = 2 ^ (fl - 3)) by (rewrite Hd, Z.mul_comm; apply Z.div_mul; lia).
  assert (0 <= (s - 2 ^ fl) / (2 ^ fl / 8) < 8) by (split; [apply Z.div_pos; lia|apply Z.div_lt_upper_bound; lia]).
  split; [lia|]. split; [lia|]. split; [lia|]. split; [lia|]. split; [|done].
  unfold tiny.tinyBinForSize, tinyExactBins, Len32. rewrite (proj2 (Z.leb_gt s 64)), (proj2 (Z.eqb_neq s 0)) by lia. fold fl.
  replace (fl + 1 - 1) with fl by lia. rewrite Z.shiftl_1_l, (to_u32_small (2 ^ fl)) by lia.
  change tinySecondLevelBins with 8. unfold tinySecondLevelBits. rewrite Z.shiftr_div_pow2 by lia. change (2 ^ 3) with 8.
  apply to_u32_small. lia.
Qed.

Lemma small_bin s : 0 < s <= 64 -> tiny.tinyBinForSize s = s - 1.
Proof. intros H. unfold tiny.tinyBinForSize, tinyExactBins. rewrite (proj2 (Z.leb_le s 64)) by lia. apply to_u32_small. lia. Qed.

Lemma bin_range s : 0 < s < 2 ^ 32 -> 0 <= tiny.tinyBinForSize s < 272.
Proof.
  intros H. destruct (Z.le_gt_cases s 64); [rewrite small_bin; lia|]. destruct (large_bin s) as (H1 & _ & _ & _ & -> & H2); lia.
Qed.

(** A later class has larger spans only. *)
Lemma bin_mono s s' : 0 < s -> s <= s' < 2 ^ 32 -> tiny.tinyBinForSize s <= tiny.tinyBinForSize s'.
Proof.
  intros Hs Hle. destruct (Z.le_gt_cases s 64); [rewrite (small_bin s) by lia; destruct (Z.le_gt_cases s' 64); [rewrite small_bin; lia|]|].
  - destruct (large_bin s') as (H1 & _ & _ & _ & -> & H2); lia.
  - destruct (large_bin s) as (H1 & H2 & H3 & H4 & -> & H5); [lia|]. destruct (large_bin s') as (H1' & H2' & H3' & H4' & -> & H5'); [lia|].
    pose proof (Z.log2_le_mono s s' ltac:(lia)). destruct (Z.eq_dec (Z.log2 s) (Z.log2 s')) as [E|]; [|lia].
    rewrite <- E in *. pose proof (Z.div_le_mono (s - 2 ^ Z.log2 s) (s' - 2 ^ Z.log2 s) (2 ^ Z.log2 s / 8) ltac:(lia) ltac:(lia)). lia.
Qed.
