(* ===== verification/TinyLaws.v ===== *)
(** * The allocator refines its layout

    [rep] ties a heap to a layout: tags, marks and free lists are those of its spans.
    Allocation and release are followed on the layout; neither panics, and neither
    writes a byte of a span that stays allocated. *)

From stdpp Require Import base tactics numbers list.
From Stdlib Require Import ZArith Lia.
From S2P Require Import Prelude Bits Tiny TinyLayout.
Local Open Scope Z_scope.

Section Heap.
Context (N bb : Z) (HN : 0 < N < tinyNoBlock) (Hbb : 8 <= bb) (Htot : N * bb < 2 ^ 32).

(** Tags [tg], marks [um], and free lists that hold the free spans of [l] outside [X],
    each in the class of its size. *)
Definition core (X : Z -> Prop) (h : tinyHeap) (tg : list Z) (um : list bool) (l : layout) : Prop :=
  exists hs ws sm fl, conc N bb h tg um hs ws sm (mem h) /\ linv N bb hs ws sm (mem h) fl /\
    Z.of_nat (length fl) = tiny.tinyBinForSize N + 1 /\
    (forall i b, inFl fl i b <-> ~ X b /\ exists s, freeAt l b s /\ i = Z.to_nat (tiny.tinyBinForSize s)) /\
    layout_ok l /\ total l = N.

Definition rep (X : Z -> Prop) (h : tinyHeap) (l : layout) : Prop := core X h (tags l) (marks l) l.

(** The blocks of [K] may change, and poisoning is as it was. *)
Definition keeps (K : Z -> Prop) (h h' : tinyHeap) : Prop := touched bb K (mem h) (mem h') /\ poisonFreed h' = poisonFreed h.

Lemma keeps_refl K h : keeps K h h.
Proof. done. Qed.

Lemma keeps_trans K h1 h2 h3 : keeps K h1 h2 -> keeps K h2 h3 -> keeps K h1 h3.
Proof. intros [H1 H2] [H3 H4]. split; [by eapply touched_trans|congruence]. Qed.

Lemma keeps_mem K h h' : mem h' = mem h -> poisonFreed h' = poisonFreed h -> keeps K h h'.
Proof. intros E Ep. split; [|done]. rewrite E. apply touched_refl. Qed.

Lemma core_relabel X X' h tg um l l' : core X h tg um l -> layout_ok l' -> total l' = N ->
  (forall b s, ~ X' b /\ freeAt l' b s <-> ~ X b /\ freeAt l b s) -> core X' h tg um l'.
Proof.
  intros (hs & ws & sm & fl & C & I & Hl & Hm & _ & _) Hok Ht H. exists hs, ws, sm, fl. split; [done|]. split; [done|]. split; [done|].
  split; [|done]. intros i b. rewrite Hm. split; intros (Hx & s & Hf & ->).
  - destruct (proj2 (H b s) (conj Hx Hf)). split; [done|]. by exists s.
  - destruct (proj1 (H b s) (conj Hx Hf)). split; [done|]. by exists s.
Qed.

(** ** Tags and marks *)

Lemma conc_same_mem h tg um hs ws sm m : conc N bb h tg um hs ws sm m -> mem h = m.
Proof. by intros []. Qed.

Lemma core_spanSize X h tg um l b s (Q : Z -> tinyHeap -> Prop) : core X h tg um l -> 0 <= b -> tg !! Z.to_nat b = Some s -> Q s h ->
  wp (tiny.spanSize b) Q h.
Proof. intros (hs & ws & sm & fl & C & _) Hb Hs HQ. by eapply (wp_spanSize N bb HN). Qed.

Lemma core_isUsedStart X h tg um l b u (Q : bool -> tinyHeap -> Prop) : core X h tg um l -> 0 <= b -> um !! Z.to_nat b = Some u -> Q u h ->
  wp (tiny.isUsedStart b) Q h.
Proof. intros (hs & ws & sm & fl & C & _) Hb Hs HQ. by eapply (wp_isUsedStart N bb). Qed.

Lemma core_putSpanSize X h tg um l b s K (Q : unit -> tinyHeap -> Prop) : core X h tg um l -> 0 <= b < N -> 0 <= s <= N ->
  (forall h', core X h' (<[Z.to_nat b := s]> tg) um l -> keeps K h h' -> Q tt h') -> wp (tiny.putSpanSize b s) Q h.
Proof.
  intros (hs & ws & sm & fl & C & I & Hr) Hb Hs HQ. eapply (wp_putSpanSize N bb); [done|done|done|]. intros h' Hp C'.
  pose proof (conc_same_mem _ _ _ _ _ _ _ C') as Em. apply HQ; [|by apply keeps_mem]. exists hs, ws, sm, fl. rewrite Em. done.
Qed.

Lemma core_setUsedStart X h tg um l b u K (Q : unit -> tinyHeap -> Prop) : core X h tg um l -> 0 <= b < N ->
  (forall h', core X h' tg (<[Z.to_nat b := u]> um) l -> keeps K h h' -> Q tt h') -> wp (tiny.setUsedStart b u) Q h.
Proof.
  intros (hs & ws & sm & fl & C & I & Hr) Hb HQ. eapply (wp_setUsedStart N bb HN Hbb); [done|done|]. intros h' Hp C'.
  pose proof (conc_same_mem _ _ _ _ _ _ _ C') as Em. apply HQ; [|by apply keeps_mem]. exists hs, ws, sm, fl. rewrite Em. done.
Qed.

(** A span that takes the place of blocks with no tags. *)
Lemma core_setSpan X h P S MP MS l b s u u0 K (Q : unit -> tinyHeap -> Prop) : core X h (P ++ zeros s ++ S) (MP ++ mark s u0 ++ MS) l ->
  Z.of_nat (length P) = b -> Z.of_nat (length MP) = b -> 0 < s -> b + s <= N ->
  (forall h', core X h' (P ++ tag s ++ S) (MP ++ mark s u ++ MS) l -> keeps K h h' -> Q tt h') -> wp (tiny.setSpan b s u) Q h.
Proof.
  intros C Hb Hm Hs Hle HQ. unfold tiny.setSpan, tinyNoBlock in *. rewrite to_u32_small by lia.
  apply wp_bind. eapply (core_putSpanSize _ _ _ _ _ _ _ K); [done|lia|lia|]. intros h1 C1 K1.
  apply wp_bind. eapply (core_putSpanSize _ _ _ _ _ _ _ K); [done|lia|lia|]. intros h2 C2 K2. rewrite set_tag in C2 by done.
  eapply (core_setUsedStart _ _ _ _ _ _ _ K); [done|lia|]. intros h3 C3 K3. rewrite (set_mark MP MS) in C3 by done.
  apply HQ; [done|]. by repeat (eapply keeps_trans; [eassumption|]).
Qed.

(** A span whose tags are removed. *)
Lemma core_clearSpan X h P S MP MS l b s u0 K (Q : unit -> tinyHeap -> Prop) : core X h (P ++ tag s ++ S) (MP ++ mark s u0 ++ MS) l ->
  Z.of_nat (length P) = b -> Z.of_nat (length MP) = b -> 0 < s -> b + s <= N ->
  (forall h', core X h' (P ++ zeros s ++ S) (MP ++ mark s false ++ MS) l -> keeps K h h' -> Q tt h') -> wp (tiny.clearSpan b s) Q h.
Proof.
  intros C Hb Hm Hs Hle HQ. unfold tiny.clearSpan, tinyNoBlock in *. rewrite to_u32_small by lia. pose proof (clear_tag P S b s Hb Hs) as E.
  assert (Hlast : forall h2, core X h2 (P ++ zeros s ++ S) (MP ++ mark s u0 ++ MS) l -> keeps K h h2 -> wp (tiny.setUsedStart b false) Q h2).
  { intros h2 C2 K2. eapply (core_setUsedStart _ _ _ _ _ _ _ K); [done|lia|]. intros h3 C3 K3. rewrite (set_mark MP MS) in C3 by done.
    apply HQ; [done|]. by eapply keeps_trans. }
  apply wp_bind. eapply (core_putSpanSize _ _ _ _ _ _ _ K); [done|lia|lia|]. intros h1 C1 K1. apply wp_bind.
  destruct (1 <? s).
  - eapply (core_putSpanSize _ _ _ _ _ _ _ K); [done|lia|lia|]. intros h2 C2 K2. rewrite E in C2. apply Hlast; [done|by eapply keeps_trans].
  - apply wp_ret. rewrite E in C1. by apply Hlast.
Qed.

(** ** Free lists *)

Lemma free_bin l b s (fl : list (list Z)) : layout_ok l -> total l = N -> Z.of_nat (length fl) = tiny.tinyBinForSize N + 1 -> freeAt l b s ->
  0 <= b < N /\ 0 < s <= N /\ 0 <= tiny.tinyBinForSize s /\ exists L, fl !! Z.to_nat (tiny.tinyBinForSize s) = Some L.
Proof.
  intros Hok Ht Hl Hf. pose proof (freeAt_range l b s Hok Hf). unfold tinyNoBlock in *. pose proof (bin_range s ltac:(lia)).
  pose proof (bin_mono s N ltac:(lia) ltac:(lia)). split; [lia|]. split; [lia|]. split; [lia|].
  destruct (lookup_lt_is_Some_2 fl (Z.to_nat (tiny.tinyBinForSize s))) as [L HL]; [lia|]. by exists L.
Qed.

Lemma core_insertFree X h tg um l b s (K : Z -> Prop) (Q : unit -> tinyHeap -> Prop) : core X h tg um l -> freeAt l b s -> X b ->
  (forall c s, freeAt l c s -> K c) ->
  (forall h', core (fun c => X c /\ c <> b) h' tg um l -> keeps K h h' -> Q tt h') -> wp (tiny.insertFree b s) Q h.
Proof.
  intros (hs & ws & sm & fl & C & I & Hl & Hm & Hok & Ht) Hf Hx HK HQ. destruct (free_bin l b s fl Hok Ht Hl Hf) as (Hb & Hs & Hbin & L & HL).
  eapply (wp_insertFree N bb HN Hbb Htot); [exact C|exact I|done| |done|exact HL|].
  { intros i [Hn _]%Hm. by apply Hn. }
  intros h' hs' ws' sm' m' Hp C' I' T'. pose proof (conc_same_mem _ _ _ _ _ _ _ C') as <-. apply HQ.
  - exists hs', ws', sm'. eexists. split; [exact C'|]. split; [exact I'|]. rewrite length_insert. split; [done|]. split; [|done].
    intros i c. rewrite inFl_insert by (by eapply lookup_lt_Some). rewrite elem_of_cons. split.
    + intros [[-> [->|Hc]]|[Hne Hc]].
      * split; [intros [_ ?]; done|]. by exists s.
      * destruct (proj1 (Hm (Z.to_nat (tiny.tinyBinForSize s)) c)) as [Hnx Hex]; [by exists L|]. split; [tauto|done].
      * apply Hm in Hc as [Hnx Hex]. split; [tauto|done].
    + intros [Hn (s' & Hf' & ->)]. destruct (decide (c = b)) as [->|Hcb].
      * rewrite (freeAt_unique l b s' s) by done. left. split; [done|by left].
      * assert (inFl fl (Z.to_nat (tiny.tinyBinForSize s')) c) as Hin by (apply Hm; split; [tauto|by exists s']).
        destruct (decide (Z.to_nat (tiny.tinyBinForSize s') = Z.to_nat (tiny.tinyBinForSize s))) as [E|E]; [|by right].
        left. split; [done|]. right. rewrite E in Hin. destruct Hin as (L' & HL' & Hc). rewrite HL in HL'. by injection HL' as <-.
  - split; [|done]. eapply touched_weaken; [exact T'|]. intros k [->|[i Hk]]; [by eapply HK|]. apply Hm in Hk as (_ & s' & Hf' & _). by eapply HK.
Qed.

Lemma core_removeFree X h tg um l b s (K : Z -> Prop) (Q : unit -> tinyHeap -> Prop) : core X h tg um l -> freeAt l b s -> ~ X b ->
  (forall c s, freeAt l c s -> K c) ->
  (forall h', core (fun c => X c \/ c = b) h' tg um l -> keeps K h h' -> Q tt h') -> wp (tiny.removeFree b s) Q h.
Proof.
  intros (hs & ws & sm & fl & C & I & Hl & Hm & Hok & Ht) Hf Hx HK HQ. destruct (free_bin l b s fl Hok Ht Hl Hf) as (Hb & Hs & Hbin & L & HL).
  destruct (proj2 (Hm (Z.to_nat (tiny.tinyBinForSize s)) b)) as (L' & HL' & Hin); [split; [done|by exists s]|]. rewrite HL in HL'. injection HL' as <-.
  apply list_elem_of_split in Hin as (L1 & L2 & ->).
  eapply (wp_removeFree N bb HN Hbb Htot); [exact C|exact I|done|exact HL|].
  intros h' hs' ws' sm' m' Hp C' I' T'. pose proof (conc_same_mem _ _ _ _ _ _ _ C') as <-. apply HQ.
  - exists hs', ws', sm'. eexists. split; [exact C'|]. split; [exact I'|]. rewrite length_insert. split; [done|]. split; [|done].
    pose proof (l_nodup _ _ _ _ _ _ _ I _ _ HL) as Hnd. apply NoDup_app in Hnd as (_ & Hd & Hnd2). apply NoDup_cons in Hnd2 as [Hb2 _].
    assert (Hother : forall c, c ∈ L1 ++ L2 <-> c ∈ L1 ++ b :: L2 /\ c <> b).
    { intros c. rewrite !elem_of_app, elem_of_cons. split; [|tauto]. intros [Hc|Hc]; (split; [tauto|]); intros ->; [|done].
      apply (Hd b Hc). by left. }
    intros i c. rewrite inFl_insert by (by eapply lookup_lt_Some). split.
    + intros [[-> Hc]|[Hne Hc]].
      * apply Hother in Hc as [Hc Hcb]. destruct (proj1 (Hm (Z.to_nat (tiny.tinyBinForSize s)) c)) as [Hnx Hex]; [by eexists|]. split; [tauto|done].
      * apply Hm in Hc as [Hnx Hex]. split; [|done]. intros [?| ->]; [done|]. destruct Hex as (s' & Hf' & ->).
        apply Hne. by rewrite (freeAt_unique l b s s').
    + intros [Hn (s' & Hf' & ->)]. assert (inFl fl (Z.to_nat (tiny.tinyBinForSize s')) c) as Hc by (apply Hm; split; [tauto|by exists s']).
      destruct (decide (Z.to_nat (tiny.tinyBinForSize s') = Z.to_nat (tiny.tinyBinForSize s))) as [E|E]; [|by right].
      left. split; [done|]. rewrite E in Hc. destruct Hc as (L' & HL' & Hc). rewrite HL in HL'. injection HL' as <-. apply Hother. tauto.
  - split; [|done]. eapply touched_weaken; [exact T'|]. intros k [_ [i Hk]]. apply Hm in Hk as (_ & s' & Hf' & _). by eapply HK.
Qed.

(** ** Finding a span *)

Lemma total_pos (L : list Z) : NoDup L -> (forall b, b ∈ L -> 0 <= b < N) -> (length L <= Z.to_nat N)%nat.
Proof.
  intros Hnd Hr. rewrite <- (length_seqZ 0 N). apply submseteq_length, NoDup_submseteq; [done|]. intros b Hb. apply elem_of_seqZ. specialize (Hr b Hb). lia.
Qed.

(** The span found is free and large enough, and no class before its own has one. *)
Lemma rep_findFreeSpan h l need (Q : Z -> tinyHeap -> Prop) : rep (fun _ => False) h l -> 0 < need <= N ->
  ((forall b s, freeAt l b s -> s < need) -> Q tinyNoBlock h) ->
  (forall b s, freeAt l b s -> need <= s ->
     (forall b' s', freeAt l b' s' -> need <= s' -> tiny.tinyBinForSize s <= tiny.tinyBinForSize s') -> Q b h) ->
  wp (tiny.findFreeSpan need) Q h.
Proof.
  intros (hs & ws & sm & fl & C & I & Hl & Hm & Hok & Ht) Hneed Hnone Hsome. unfold tiny.findFreeSpan. unfold tinyNoBlock in HN.
  pose proof (bin_range need ltac:(lia)) as Hb0. pose proof (bin_mono need N ltac:(lia) ltac:(lia)) as Hb1.
  set (bin := tiny.tinyBinForSize need) in *. destruct (lookup_lt_is_Some_2 fl (Z.to_nat bin)) as [L HL]; [lia|].
  assert (Hclass : forall b s, freeAt l b s -> need <= s -> bin <= tiny.tinyBinForSize s).
  { intros b s Hf Hle. pose proof (freeAt_range l b s Hok Hf). apply bin_mono; lia. }
  assert (Hspan : forall i b, inFl fl i b -> exists s, freeAt l b s /\ i = Z.to_nat (tiny.tinyBinForSize s) /\ 0 <= tiny.tinyBinForSize s).
  { intros i b [_ (s & Hf & ->)]%Hm. exists s. split; [done|]. split; [done|]. destruct (free_bin l b s fl Hok Ht Hl Hf) as (_ & _ & ? & _). done. }
  apply wp_bind. eapply (wp_head N bb); [exact C|by rewrite (l_heads _ _ _ _ _ _ _ I), list_lookup_fmap, HL|].
  apply wp_bind, wp_get. apply wp_bind. rewrite (c_count _ _ _ _ _ _ _ _ _ C).
  assert (Htag : forall b s, freeAt l b s -> tags l !! Z.to_nat b = Some s).
  { intros b s Hf. destruct (freeAt_split l b s Hf) as (pre & post & -> & E). apply layout_ok_app in Hok as [Hp _]. rewrite tags_app.
    apply (tag_first (tags pre) (tags post)). by rewrite length_tags. }
  set (size := fun b => default 0 (tags l !! Z.to_nat b)).
  assert (HL_ : forall b, b ∈ L -> exists s, freeAt l b s /\ size b = s /\ bin = tiny.tinyBinForSize s).
  { intros b Hb. destruct (Hspan (Z.to_nat bin) b) as (s & Hf & E & H0); [by exists L|]. exists s. split; [done|]. unfold size. rewrite (Htag b s Hf). split; [done|]. lia. }
  eapply (wp_walkBin N bb HN Hbb Htot h _ _ _ _ _ _ need size); [exact C|by eapply l_chain| | | |].
  - intros b Hb. destruct (HL_ b Hb) as (s & Hf & E & _). rewrite E. split; [|by apply Htag]. by eapply free_bin.
  - apply total_pos; [by eapply l_nodup|]. intros b Hb. eapply (l_range _ _ _ _ _ _ _ I (Z.to_nat bin)). by exists L.
  - intros Hsmall. eapply (wp_firstSpanAfterBin N bb); [exact C|apply (l_bins _ _ _ _ _ _ _ I)|rewrite length_map; lia|by rewrite (l_heads _ _ _ _ _ _ _ I), !length_map| |].
    + intros Hempty. apply Hnone. intros b s Hf. destruct (Z.lt_ge_cases s need) as [|Hge]; [done|]. exfalso.
      assert (Hin : inFl fl (Z.to_nat (tiny.tinyBinForSize s)) b) by (apply Hm; split; [by intros []|by exists s]).
      pose proof (Hclass b s Hf Hge) as Hc. destruct (Z.eq_dec (tiny.tinyBinForSize s) bin) as [E|E].
      * rewrite E in Hin. destruct Hin as (L' & HL' & Hb). rewrite HL in HL'. injection HL' as <-. specialize (Hsmall b Hb). unfold size in Hsmall. rewrite (Htag b s Hf) in Hsmall. cbn in Hsmall. lia.
      * apply (Hempty (tiny.tinyBinForSize s)); [lia|]. destruct Hin as (L' & HL' & Hb). rewrite list_lookup_fmap, HL'. destruct L'; [by apply elem_of_nil in Hb|done].
    + intros j b Hj Hne Hmin Hb. rewrite (l_heads _ _ _ _ _ _ _ I) in Hb. rewrite list_lookup_fmap in Hb. change (map nonempty fl) with (nonempty <$> fl) in Hne. rewrite list_lookup_fmap in Hne.
      destruct (fl !! Z.to_nat j) as [M|] eqn:EM; [|done]. destruct M as [|b' M]; [done|]. injection Hb as <-.
      destruct (Hspan (Z.to_nat j) b') as (s & Hf & E & H0); [exists (b' :: M); split; [done|by left]|]. assert (j = tiny.tinyBinForSize s) as -> by lia.
      eapply Hsome; [exact Hf| |].
      * destruct (Z.le_gt_cases need s) as [|Hlt]; [done|]. pose proof (freeAt_range l b' s Hok Hf). pose proof (bin_mono s need ltac:(lia) ltac:(lia)). lia.
      * intros c s' Hf' Hle'. pose proof (Hclass c s' Hf' Hle'). destruct (Z.le_gt_cases (tiny.tinyBinForSize s) (tiny.tinyBinForSize s')) as [|Hlt]; [done|]. exfalso.
        assert (Hin : inFl fl (Z.to_nat (tiny.tinyBinForSize s')) c) by (apply Hm; split; [by intros []|by exists s']).
        destruct (Z.eq_dec (tiny.tinyBinForSize s') bin) as [E'|E'].
        -- rewrite E' in Hin. destruct Hin as (L' & HL' & Hb). rewrite HL in HL'. injection HL' as <-. specialize (Hsmall c Hb). unfold size in Hsmall. rewrite (Htag c s' Hf') in Hsmall. cbn in Hsmall. lia.
        -- apply (Hmin (tiny.tinyBinForSize s')); [lia|]. destruct Hin as (L' & HL' & Hb). rewrite list_lookup_fmap, HL'. destruct L'; [by apply elem_of_nil in Hb|done].
  - intros b Hb Hle. destruct (HL_ b Hb) as (s & Hf & E & E'). apply wp_ret. eapply Hsome; [exact Hf|lia|]. intros c s' Hf' Hle'. rewrite <- E'. by eapply Hclass.
Qed.

(** ** Allocation *)

(** The layout after a span of [need] blocks is cut from the start of a free one. *)
Definition cut (need s : Z) : layout := if s =? need then [(s, true)] else [(need, true); (s - need, false)].

Lemma freeAt_middle pre s u post b s' : layout_ok pre -> layout_ok post -> 0 < s ->
  freeAt (pre ++ (s, u) :: post) b s' /\ b <> total pre <-> freeAt pre b s' \/ freeAt post (b - total pre - s) s'.
Proof.
  intros Hp Hq Hs. rewrite freeAt_app. cbn [freeAt]. split; [intros [[?|[(_ & ? & _)|?]] ?]; [tauto|lia|tauto]|].
  intros [Hf|Hf]; (split; [tauto|]); apply freeAt_range in Hf; try done; lia.
Qed.

Lemma freeAt_at pre s u post s' : layout_ok pre -> layout_ok post -> 0 < s ->
  freeAt (pre ++ (s, u) :: post) (total pre) s' <-> u = false /\ s' = s.
Proof.
  intros Hp Hq Hs. rewrite freeAt_app. cbn [freeAt]. split; [|intros [-> ->]; right; left; split; [done|lia]].
  intros [Hf|[(-> & _ & ->)|Hf]]; [|done|]; apply freeAt_range in Hf; try done; lia.
Qed.

Lemma rep_alloc_blocks h pre s post need (Q : unit -> tinyHeap -> Prop) : let l := pre ++ (s, false) :: post in let b := total pre in
  rep (fun _ => False) h l -> 0 < need <= s ->
  (forall h', rep (fun _ => False) h' (pre ++ cut need s ++ post) -> keeps (fun k => owned l !! Z.to_nat k = Some false) h h' -> Q tt h') ->
  wp (bind (tiny.removeFree b s) (fun _ => if s =? need then tiny.setUsedStart b true else
       bind (tiny.clearSpan b s) (fun _ => bind (tiny.setSpan b need true) (fun _ =>
       bind (tiny.setSpan (to_u32 (b + need)) (to_u32 (s - need)) false) (fun _ => tiny.insertFree (to_u32 (b + need)) (to_u32 (s - need)))))))  Q h.
Proof.
  intros l b R Hneed HQ. set (K := fun k => owned l !! Z.to_nat k = Some false) in *. pose proof R as (_ & _ & _ & _ & _ & _ & _ & _ & Hok & Ht).
  pose proof Hok as [Hp [Hs Hq]%layout_ok_cons]%layout_ok_app. unfold tinyNoBlock in HN. pose proof (blocks_nonneg pre Hp). pose proof (blocks_nonneg post Hq).
  assert (Hbs : b + s <= N) by (unfold b, l in *; rewrite total_app in Ht; cbn in Ht; lia).
  assert (HK : forall c s', freeAt l c s' -> K c).
  { intros c s' Hf. pose proof (freeAt_range l c s' Hok Hf). eapply freeAt_owned; [done|exact Hf|lia]. }
  apply wp_bind. eapply (core_removeFree _ _ _ _ _ b s K); [exact R|by apply freeAt_at|by intros []|exact HK|]. intros h1 R1 K1.
  unfold l in R1. rewrite tags_app, marks_app in R1. change (tags ((s, false) :: post)) with (tag s ++ tags post) in R1.
  change (marks ((s, false) :: post)) with (mark s false ++ marks post) in R1. fold l in R1.
  assert (Hlp : Z.of_nat (length (tags pre)) = b) by by apply length_tags. assert (Hlm : Z.of_nat (length (marks pre)) = b) by by apply length_marks.
  unfold cut in HQ. destruct (Z.eqb_spec s need) as [E|Hne].
  - eapply (core_setUsedStart _ _ _ _ _ _ _ K); [exact R1|lia|]. intros h2 R2 K2. rewrite (set_mark (marks pre) (marks post)) in R2 by done.
    apply HQ; [|by eapply keeps_trans]. unfold rep. rewrite tags_app, marks_app.
    eapply core_relabel; [exact R2|apply layout_ok_app; split; [done|]; apply layout_ok_cons; done|rewrite total_app; cbn; unfold l in Ht; rewrite total_app in Ht; cbn in Ht; lia|].
    intros c s'. cbn [app]. split.
    + intros [_ Hf]. destruct (Z.eq_dec c b) as [->|Hcb]; [apply freeAt_at in Hf; try done; lia|].
      destruct (proj1 (freeAt_middle pre s true post c s' Hp Hq Hs) (conj Hf Hcb)) as [Hx|Hx]; (split; [tauto|]);
        eapply (freeAt_middle pre s false post c s' Hp Hq Hs); tauto.
    + intros [Hcb Hf]. split; [tauto|]. eapply (freeAt_middle pre s true post c s' Hp Hq Hs). eapply (freeAt_middle pre s false post c s' Hp Hq Hs).
      split; [done|tauto].
  - rewrite !to_u32_small by lia. apply wp_bind. eapply (core_clearSpan _ _ _ _ _ _ _ _ _ _ K); [exact R1|done|done|done|done|]. intros h2 R2 K2.
    replace s with (need + (s - need)) in R2 at 1 2 by lia. rewrite zeros_add, mark_false_add, <- !app_assoc in R2 by lia.
    apply wp_bind. eapply (core_setSpan _ _ _ _ _ _ _ _ _ _ _ K); [exact R2|done|done|lia|lia|]. intros h3 R3 K3. rewrite (app_assoc _ (tag need)), (app_assoc _ (mark need true)) in R3.
    apply wp_bind. eapply (core_setSpan _ _ _ _ _ _ _ _ _ _ _ K); [exact R3| | |lia|lia|].
    { rewrite length_app, Nat2Z.inj_add, length_tag by lia. lia. }
    { rewrite length_app, Nat2Z.inj_add, length_mark by lia. lia. }
    intros h4 R4 K4. rewrite <- !app_assoc in R4. set (l' := pre ++ [(need, true); (s - need, false)] ++ post) in *.
    assert (Hok' : layout_ok l'). { apply layout_ok_app. split; [done|]. cbn [app]. rewrite !layout_ok_cons. split; [lia|]. split; [lia|done]. }
    assert (Ht' : total l' = N). { unfold l'. unfold l in Ht. rewrite total_app in *. cbn in *. lia. }
    assert (El' : l' = (pre ++ [(need, true)]) ++ (s - need, false) :: post) by (unfold l'; by rewrite <- app_assoc).
    assert (Hp' : layout_ok (pre ++ [(need, true)])) by (apply layout_ok_app; split; [done|]; apply layout_ok_cons; split; [lia|constructor]).
    assert (Htp : total (pre ++ [(need, true)]) = b + need) by (rewrite total_app; cbn; lia).
    assert (F : forall c s', freeAt l' c s' /\ c <> b + need <-> freeAt l c s' /\ c <> b).
    { intros c s'. pose proof (freeAt_middle pre s false post c s' Hp Hq Hs) as F1. pose proof (freeAt_middle _ (s - need) false post c s' Hp' Hq ltac:(lia)) as F2.
      rewrite Htp, <- El' in F2. replace (c - (b + need) - (s - need)) with (c - b - s) in F2 by lia. fold l b in F1. rewrite F1, F2.
      rewrite freeAt_app. cbn [freeAt]. split; [|tauto]. intros [[?|[[? _]|[]]]|?]; [tauto|done|tauto]. }
    eapply (core_insertFree (fun c => c = b + need) _ (tags l') (marks l') l' (b + need) (s - need) K).
    + unfold l'. rewrite tags_app, marks_app. eapply core_relabel; [exact R4|done|done|]. intros c s'. specialize (F c s'). tauto.
    + rewrite El', <- Htp. apply freeAt_at; [done|done|lia|done].
    + done.
    + intros c s' Hf. destruct (Z.eq_dec c (b + need)) as [->|Hc]; [|by eapply HK; apply (proj1 (F c s'))].
      apply (freeAt_owned l b s); [done|by apply freeAt_at|lia].
    + intros h5 R5 K5. apply HQ; [|by repeat (eapply keeps_trans; [eassumption|])]. eapply core_relabel; [exact R5|done|done|].
      intros c s'. tauto.
Qed.

(** ** Release *)

Lemma linv_touched hs ws sm m m' fl K0 : linv N bb hs ws sm m fl -> Z.of_nat (length m) = N * bb -> touched bb K0 m m' ->
  (forall i b, inFl fl i b -> ~ K0 b) -> linv N bb hs ws sm m' fl.
Proof.
  intros I Hl T HK. destruct I as [I1 I2 I3 I4 I5 I6]. split; try done. intros i L HL. apply (chain_ext (links bb m)); [|by apply (I2 i)].
  intros b Hb. assert (inFl fl i b) by (by exists L). eapply (links_touched N bb Hbb); [done|by eapply I5|exact T|by eapply HK].
Qed.

Lemma core_poison X h tg um l lo hi (K0 K : Z -> Prop) (Q : unit -> tinyHeap -> Prop) : core X h tg um l -> 0 <= lo <= hi -> hi <= N * bb ->
  (forall i, lo <= i < hi -> K0 (i / bb)) -> (forall c s, ~ X c -> freeAt l c s -> ~ K0 c) -> (forall k, K0 k -> K k) ->
  (forall h', core X h' tg um l -> keeps K h h' -> Q tt h') -> wp (tiny.poison lo hi) Q h.
Proof.
  intros (hs & ws & sm & fl & C & I & Hl & Hm & Hr) Hlo Hhi H0 HX HK HQ. eapply (wp_poison N bb _ _ _ _ _ _ _ _ _ K0); [exact C|done|done|done|].
  intros h' m' Hp C' T. pose proof (conc_same_mem _ _ _ _ _ _ _ C') as <-. apply HQ.
  - exists hs, ws, sm, fl. split; [done|]. split; [|done]. eapply linv_touched; [exact I|by apply C|exact T|].
    intros i b [Hx (s & Hf & _)]%Hm. by eapply HX.
  - split; [|done]. by eapply touched_weaken.
Qed.

Lemma core_poisonLinks X h tg um l b (K : Z -> Prop) (Q : unit -> tinyHeap -> Prop) : core X h tg um l -> 0 <= b < N -> X b -> K b ->
  (forall h', core X h' tg um l -> keeps K h h' -> Q tt h') -> wp (tiny.poisonLinks b) Q h.
Proof.
  intros R Hb Hx HK HQ. pose proof R as (hs & ws & sm & fl & C & _). unfold tiny.poisonLinks. apply wp_bind, wp_get.
  destruct (poisonFreed h); [|by apply wp_ret, HQ]. rewrite (c_bytes _ _ _ _ _ _ _ _ _ C). unfold tinyFreeLinkBytes.
  pose proof (block_range N bb Hbb b Hb). rewrite !to_u32_small by (rewrite ?to_u32_small; lia).
  eapply (core_poison _ _ _ _ _ _ _ (eq b) K); [exact R|lia|lia| | | |exact HQ].
  - intros i Hi. apply (Z.div_unique_pos _ _ _ (i - b * bb)); lia.
  - by intros c s Hn _ ->.
  - by intros k <-.
Qed.

(** The layout when a span of [s] blocks between [pre] and [post] becomes free. *)
Definition mergeLeft (pre : layout) (s : Z) : layout * Z :=
  match last pre with Some (s0, false) => (removelast pre, s0 + s) | _ => (pre, s) end.

Definition mergeRight (s : Z) (post : layout) : Z * layout :=
  match post with (s1, false) :: post => (s + s1, post) | _ => (s, post) end.

(** Two free neighbours that become one span. *)
Lemma rep_join {A} X h p s0 s post K (k : tiny.H A) (Q : A -> tinyHeap -> Prop) : let l := p ++ (s0, false) :: (s, false) :: post in
  rep X h l -> (forall c, X c <-> c = total p \/ c = total p + s0) ->
  (forall h', rep (fun c => c = total p) h' (p ++ (s0 + s, false) :: post) -> keeps K h h' -> wp k Q h') ->
  wp (tiny.clearSpan (total p) s0 ;;; tiny.clearSpan (total p + s0) s ;;; tiny.setSpan (total p) (s0 + s) false ;;; k) Q h.
Proof.
  intros l R HX HQ. pose proof R as (_ & _ & _ & _ & _ & _ & _ & _ & Hok & Ht).
  pose proof Hok as [Hp [Hs0 [Hs Hq]%layout_ok_cons]%layout_ok_cons]%layout_ok_app.
  pose proof (blocks_nonneg p Hp). pose proof (blocks_nonneg post Hq). assert (Hle : total p + s0 + s <= N) by (unfold l in Ht; rewrite total_app in Ht; cbn in Ht; lia).
  pose proof (length_tags p Hp) as Hlp. pose proof (length_marks p Hp) as Hlm.
  unfold rep, l in R. rewrite tags_app, marks_app in R.
  change (tags ((s0, false) :: (s, false) :: post)) with (tag s0 ++ tag s ++ tags post) in R.
  change (marks ((s0, false) :: (s, false) :: post)) with (mark s0 false ++ mark s false ++ marks post) in R. fold l in R.
  apply wp_bind. eapply (core_clearSpan _ _ _ _ _ _ _ _ _ _ K); [exact R|done|done|done|lia|]. intros h1 R1 K1.
  rewrite (app_assoc _ (zeros s0)), (app_assoc _ (mark s0 false)) in R1.
  apply wp_bind. eapply (core_clearSpan _ _ _ _ _ _ _ _ _ _ K); [exact R1| | |done|done|].
  { unfold zeros. rewrite length_app, length_replicate. lia. }
  { rewrite length_app, Nat2Z.inj_add, length_mark by lia. lia. }
  intros h2 R2 K2. rewrite <- !app_assoc, (app_assoc (zeros s0)), <- zeros_add, (app_assoc (mark s0 false)), <- mark_false_add in R2 by lia.
  apply wp_bind. eapply (core_setSpan _ _ _ _ _ _ _ _ _ _ _ K); [exact R2|done|done|lia|lia|]. intros h3 R3 K3.
  apply HQ; [|by repeat (eapply keeps_trans; [eassumption|])]. unfold rep. rewrite tags_app, marks_app.
  eapply core_relabel; [exact R3|apply layout_ok_app; split; [done|]; apply layout_ok_cons; split; [lia|done]| |].
  { unfold l in Ht. rewrite total_app in *. cbn in *. lia. }
  intros c s'. rewrite HX. assert (Hp0 : layout_ok (p ++ [(s0, false)])) by (apply layout_ok_app; split; [done|]; apply layout_ok_cons; split; [done|constructor]).
  assert (El : l = (p ++ [(s0, false)]) ++ (s, false) :: post) by (unfold l; by rewrite <- app_assoc).
  assert (Htp : total (p ++ [(s0, false)]) = total p + s0) by (rewrite total_app; cbn; lia).
  pose proof (freeAt_middle p (s0 + s) false post c s' Hp Hq ltac:(lia)) as F1. pose proof (freeAt_middle _ s false post c s' Hp0 Hq Hs) as F2.
  rewrite Htp, <- El in F2. replace (c - (total p + s0) - s) with (c - total p - (s0 + s)) in F2 by lia.
  rewrite freeAt_app in F2. cbn [freeAt] in F2. destruct (Z.eq_dec c (total p)) as [->|Hc]; [tauto|].
  split; [intros [_ Hf]; destruct (proj1 F1 (conj Hf Hc)) as [Hx|Hx]|].
  - destruct (proj2 F2) as [Hl Hn]; [tauto|]. tauto.
  - destruct (proj2 F2) as [Hl Hn]; [tauto|]. tauto.
  - intros [Hn Hf]. split; [done|]. apply F1. destruct (proj1 F2) as [[Hx|[(_ & Hx & _)|[]]]|Hx]; [split; [done|tauto]|tauto|lia|tauto].
Qed.

Lemma owned_join p s0 s post : 0 <= s0 -> 0 <= s -> owned (p ++ (s0, false) :: (s, false) :: post) = owned (p ++ (s0 + s, false) :: post).
Proof.
  intros H0 H1. rewrite !owned_app. f_equal. cbn [owned map concat fst snd]. by rewrite Z2Nat.inj_add, replicate_add, <- app_assoc by lia.
Qed.

Lemma rep_mergePrev h pre s post K (Q : Z * Z -> tinyHeap -> Prop) : let l := pre ++ (s, false) :: post in
  rep (fun c => c = total pre) h l -> (forall c s', freeAt l c s' -> K c) ->
  (forall h' pre' s', mergeLeft pre s = (pre', s') -> rep (fun c => c = total pre') h' (pre' ++ (s', false) :: post) ->
     owned (pre' ++ (s', false) :: post) = owned l -> keeps K h h' -> Q (total pre', s') h') ->
  wp (tiny.mergePrev (total pre) s) Q h.
Proof.
  intros l R HK HQ. pose proof R as (_ & _ & _ & _ & _ & _ & _ & _ & Hok & Ht).
  pose proof Hok as [Hp [Hs Hq]%layout_ok_cons]%layout_ok_app. unfold tiny.mergePrev, mergeLeft in *.
  destruct pre as [|[s0 u0] p _] using rev_ind.
  { cbn [total]. apply wp_ret. apply (HQ h [] s); done. }
  rewrite last_snoc, removelast_last in HQ. apply layout_ok_app in Hp as [Hp [Hs0 _]%layout_ok_cons].
  assert (Htp : total (p ++ [(s0, u0)]) = total p + s0) by (rewrite total_app; cbn; lia).
  pose proof (blocks_nonneg p Hp). pose proof (blocks_nonneg post Hq). assert (Hle : total p + s0 + s <= N) by (unfold l in Ht; rewrite total_app, Htp in Ht; cbn in Ht; lia).
  assert (El : l = p ++ (s0, u0) :: (s, false) :: post) by (unfold l; by rewrite <- app_assoc).
  pose proof (length_tags p Hp) as Hlp. pose proof (length_marks p Hp) as Hlm.
  assert (Htags : tags l = tags p ++ tag s0 ++ tags ((s, false) :: post)) by (rewrite El, tags_app; done).
  assert (Hmarks : marks l = marks p ++ mark s0 u0 ++ marks ((s, false) :: post)) by (rewrite El, marks_app; done).
  rewrite Htp in *. rewrite (proj2 (Z.ltb_lt 0 _)) by lia. apply wp_bind.
  eapply core_spanSize; [exact R|lia|rewrite Htags; by apply tag_last|].
  rewrite (proj2 (Z.ltb_lt 0 s0)), (proj2 (Z.leb_le s0 _)) by lia. cbn [andb]. replace (total p + s0 - s0) with (total p) by lia.
  apply wp_bind. eapply core_isUsedStart; [exact R|lia|rewrite Hmarks; by apply mark_first|].
  destruct u0.
  { apply wp_ret. rewrite <- Htp. apply (HQ h (p ++ [(s0, true)]) s); first [done|by rewrite Htp]. }
  apply wp_bind. eapply core_spanSize; [exact R|lia|rewrite Htags; by apply tag_first|]. rewrite !Z.eqb_refl. cbn [andb].
  assert (Hf : freeAt l (total p) s0) by (rewrite El; by apply freeAt_at; [|apply layout_ok_cons|..]).
  apply wp_bind. eapply (core_removeFree _ _ _ _ _ (total p) s0 K); [exact R|exact Hf|cbn; lia|exact HK|]. intros h1 R1 K1.
  apply wp_bind. eapply (core_poisonLinks _ _ _ _ _ (total p) K); [exact R1|lia|by right|by eapply HK|]. intros h2 R2 K2.
  rewrite !to_u32_small by (unfold tinyNoBlock in HN; lia).
  eapply (rep_join _ _ p s0 s post K); [unfold rep; rewrite <- El; exact R2|intros c; cbn; tauto|].
  intros h3 R3 K3. apply wp_ret. apply (HQ h3 p (s0 + s)); [done|done|rewrite El, owned_join by lia; done|].
  by repeat (eapply keeps_trans; [eassumption|]).
Qed.

Lemma rep_mergeNext h pre s post K (Q : Z -> tinyHeap -> Prop) : let l := pre ++ (s, false) :: post in
  rep (fun c => c = total pre) h l -> (forall c s', freeAt l c s' -> K c) ->
  (forall h' post' s', mergeRight s post = (s', post') -> rep (fun c => c = total pre) h' (pre ++ (s', false) :: post') ->
     owned (pre ++ (s', false) :: post') = owned l -> keeps K h h' -> Q s' h') ->
  wp (tiny.mergeNext (total pre) s) Q h.
Proof.
  intros l R HK HQ. pose proof R as (hs & ws & sm & fl & C & _ & _ & _ & Hok & Ht). pose proof (c_count _ _ _ _ _ _ _ _ _ C) as Hcount.
  clear hs ws sm fl C.
  pose proof Hok as [Hp [Hs Hq]%layout_ok_cons]%layout_ok_app. unfold tiny.mergeNext, mergeRight in *.
  pose proof (blocks_nonneg pre Hp). pose proof (blocks_nonneg post Hq).
  assert (Hle : total pre + s + total post = N) by (unfold l in Ht; rewrite total_app in Ht; cbn in Ht; lia).
  apply wp_bind, wp_get. rewrite Hcount, to_u32_small by (unfold tinyNoBlock in HN; lia).
  destruct post as [|[s1 u1] post].
  { cbn [total] in Hle. rewrite (proj2 (Z.ltb_ge _ _)) by lia. apply wp_ret. apply (HQ h [] s); done. }
  pose proof Hq as [Hs1 Hq1]%layout_ok_cons. cbn [total] in Hle. pose proof (blocks_nonneg post Hq1).
  rewrite (proj2 (Z.ltb_lt _ _)) by lia.
  assert (El : l = (pre ++ [(s, false)]) ++ (s1, u1) :: post) by (unfold l; by rewrite <- app_assoc).
  assert (Hp' : layout_ok (pre ++ [(s, false)])) by (apply layout_ok_app; split; [done|]; apply layout_ok_cons; split; [done|constructor]).
  assert (Htp : total (pre ++ [(s, false)]) = total pre + s) by (rewrite total_app; cbn; lia).
  pose proof (length_tags _ Hp') as Hlp. pose proof (length_marks _ Hp') as Hlm. rewrite Htp in *.
  assert (Htags : tags l = tags (pre ++ [(s, false)]) ++ tag s1 ++ tags post) by (rewrite El, tags_app; done).
  assert (Hmarks : marks l = marks (pre ++ [(s, false)]) ++ mark s1 u1 ++ marks post) by (rewrite El, marks_app; done).
  apply wp_bind. eapply core_spanSize; [exact R|lia|rewrite Htags; by apply tag_first|].
  rewrite (proj2 (Z.ltb_lt 0 s1)), (proj2 (Z.leb_le s1 _)) by lia. cbn [andb].
  apply wp_bind. eapply core_isUsedStart; [exact R|lia|rewrite Hmarks; by apply mark_first|].
  destruct u1; [apply wp_ret; apply (HQ h ((s1, true) :: post) s); done|].
  assert (Hf : freeAt l (total pre + s) s1) by (rewrite El, <- Htp; by apply freeAt_at).
  apply wp_bind. eapply (core_removeFree _ _ _ _ _ (total pre + s) s1 K); [exact R|exact Hf|cbn; lia|exact HK|]. intros h1 R1 K1.
  apply wp_bind. eapply (core_poisonLinks _ _ _ _ _ (total pre + s) K); [exact R1|lia|by right|by eapply HK|]. intros h2 R2 K2.
  rewrite !to_u32_small by (unfold tinyNoBlock in HN; lia).
  eapply (rep_join _ _ pre s s1 post K); [exact R2|intros c; cbn; tauto|].
  intros h3 R3 K3. apply wp_ret. apply (HQ h3 post (s + s1)); [done|done|unfold l; rewrite owned_join by lia; done|].
  by repeat (eapply keeps_trans; [eassumption|]).
Qed.

Definition release (pre : layout) (s : Z) (post : layout) : layout :=
  let (pre', s1) := mergeLeft pre s in
  let (s2, post') := mergeRight s1 post in
  pre' ++ (s2, false) :: post'.

(** A span that is allocated becomes one that is in no list yet. *)
Lemma rep_unused h pre s post K (Q : unit -> tinyHeap -> Prop) : rep (fun _ => False) h (pre ++ (s, true) :: post) ->
  (forall h', rep (fun c => c = total pre) h' (pre ++ (s, false) :: post) -> keeps K h h' -> Q tt h') ->
  wp (tiny.setUsedStart (total pre) false) Q h.
Proof.
  intros R HQ. pose proof R as (_ & _ & _ & _ & _ & _ & _ & _ & Hok & Ht).
  pose proof Hok as [Hp [Hs Hq]%layout_ok_cons]%layout_ok_app. pose proof (blocks_nonneg pre Hp). pose proof (blocks_nonneg post Hq).
  assert (Hle : total pre + s <= N) by (rewrite total_app in Ht; cbn in Ht; lia).
  eapply (core_setUsedStart _ _ _ _ _ _ _ K); [exact R|lia|]. intros h' R' K'. apply HQ; [|done].
  unfold rep. rewrite tags_app, !marks_app in *. change (marks ((s, true) :: post)) with (mark s true ++ marks post) in R'.
  rewrite (set_mark (marks pre) (marks post)) in R' by by apply length_marks.
  eapply core_relabel; [exact R'|by apply layout_ok_app; split; [|apply layout_ok_cons]|rewrite total_app in *; done|].
  intros c s'. pose proof (freeAt_middle pre s false post c s' Hp Hq Hs) as F1. pose proof (freeAt_middle pre s true post c s' Hp Hq Hs) as F2.
  destruct (Z.eq_dec c (total pre)) as [->|Hc]; [|tauto]. pose proof (freeAt_at pre s true post s' Hp Hq Hs) as F3.
  split; [tauto|]. intros [_ Hf]. by apply F3 in Hf as [? _].
Qed.

Lemma rep_freeSpan h pre s post poisoned (Q : unit -> tinyHeap -> Prop) : rep (fun _ => False) h (pre ++ (s, true) :: post) ->
  (forall h', rep (fun _ => False) h' (release pre s post) ->
     keeps (fun k => owned (pre ++ (s, false) :: post) !! Z.to_nat k = Some false) h h' -> Q tt h') ->
  wp (tiny.freeSpan (total pre * bb) poisoned) Q h.
Proof.
  intros R HQ. set (l1 := pre ++ (s, false) :: post) in *. set (K := fun k => owned l1 !! Z.to_nat k = Some false) in *.
  pose proof R as (hs & ws & sm & fl & C & _ & _ & _ & Hok & Ht). pose proof (c_bytes _ _ _ _ _ _ _ _ _ C) as Hbytes.
  pose proof (c_count _ _ _ _ _ _ _ _ _ C) as Hcount. clear hs ws sm fl C.
  pose proof Hok as [Hp [Hs Hq]%layout_ok_cons]%layout_ok_app. pose proof (blocks_nonneg pre Hp). pose proof (blocks_nonneg post Hq).
  assert (Hle : total pre + s <= N) by (rewrite total_app in Ht; cbn in Ht; lia). set (b := total pre) in *.
  assert (Hok1 : layout_ok l1) by (by apply layout_ok_app; split; [|apply layout_ok_cons]).
  assert (HK : forall l', owned l' = owned l1 -> layout_ok l' -> forall c s', freeAt l' c s' -> K c).
  { intros l' E Hok' c s' Hf. unfold K. rewrite <- E. pose proof (freeAt_range l' c s' Hok' Hf). eapply freeAt_owned; [done|exact Hf|lia]. }
  assert (Hmine : forall k, b <= k < b + s -> K k) by (intros k Hk; apply (freeAt_owned l1 b s); [done|by apply freeAt_at|done]).
  pose proof (length_tags pre Hp) as Hlp. pose proof (length_marks pre Hp) as Hlm.
  assert (Htag : tags (pre ++ (s, true) :: post) !! Z.to_nat b = Some s) by (rewrite tags_app; by apply tag_first).
  assert (Hmark : marks (pre ++ (s, true) :: post) !! Z.to_nat b = Some true) by (rewrite marks_app; by apply (mark_first (marks pre) (marks post))).
  unfold tiny.freeSpan. apply wp_bind, wp_get. rewrite Hbytes, Hcount. rewrite (proj2 (Z.eqb_neq bb 0)), Z.mod_mul by lia. cbn [orb negb Z.eqb].
  rewrite Z.div_mul by lia. rewrite (proj2 (Z.leb_gt N b)) by lia. apply wp_bind, wp_bind. eapply core_isUsedStart; [exact R|lia|exact Hmark|].
  apply wp_bind. eapply core_spanSize; [exact R|lia|exact Htag|]. apply wp_ret. rewrite (proj2 (Z.eqb_neq s 0)) by lia. cbn [negb].
  apply wp_bind. eapply core_spanSize; [exact R|lia|exact Htag|]. apply wp_bind.
  assert (Hrest : forall h1, rep (fun _ => False) h1 (pre ++ (s, true) :: post) -> keeps K h h1 ->
    wp (bind (tiny.setUsedStart b false) (fun _ => bind (tiny.mergePrev b s) (fun merged => let (b, span) := merged in
      bind (tiny.mergeNext b span) (fun span => tiny.insertFree b span)))) Q h1).
  { intros h1 R1 K1. apply wp_bind. eapply (rep_unused _ _ _ _ K); [exact R1|]. intros h2 R2 K2. apply wp_bind.
    eapply (rep_mergePrev _ _ _ _ K); [exact R2|by apply HK|]. intros h3 pre' s1 E1 R3 Ho3 K3. cbn beta iota.
    pose proof R3 as (_ & _ & _ & _ & _ & _ & _ & _ & Hok3 & _).
    apply wp_bind. eapply (rep_mergeNext _ _ _ _ K); [exact R3|by apply HK|]. intros h4 post' s2 E2 R4 Ho4 K4.
    pose proof R4 as (_ & _ & _ & _ & _ & _ & _ & _ & Hok4 & Ht4). pose proof Hok4 as [Hp4 [Hs4 Hq4]%layout_ok_cons]%layout_ok_app.
    eapply (core_insertFree _ _ _ _ _ (total pre') s2 K); [exact R4|by apply freeAt_at|done|apply HK; [by rewrite Ho4, Ho3|done]|].
    intros h5 R5 K5. apply HQ; [|by repeat (eapply keeps_trans; [eassumption|])]. unfold release. rewrite E1, E2.
    eapply core_relabel; [exact R5|done|done|]. intros c s'. tauto. }
  destruct poisoned; [|apply wp_ret; by apply Hrest].
  rewrite !to_u32_small by (rewrite ?to_u32_small; unfold tinyNoBlock in HN; nia).
  eapply (core_poison _ _ _ _ _ _ _ (fun k => b <= k < b + s) K); [exact R|nia|nia| | |exact Hmine|by intros h1 R1 K1; apply Hrest].
  - intros i Hi. split; [apply Z.div_le_lower_bound; nia|apply Z.div_lt_upper_bound; nia].
  - intros c s' _ Hf Hc. pose proof (freeAt_range _ c s' Hok Hf). pose proof (freeAt_owned _ c s' c Hok Hf ltac:(lia)) as Ho.
    pose proof (length_owned pre Hp). rewrite owned_app, lookup_app_r in Ho by lia. cbn [owned map concat fst snd] in Ho.
    rewrite lookup_app_l in Ho by (rewrite length_replicate; lia). apply lookup_replicate in Ho as [? _]. done.
Qed.

(** ** A new heap *)

Lemma lookup_zeros n i (x : Z) : replicate n 0 !! i = Some x -> x = 0.
Proof. intros H. by apply lookup_replicate in H as [-> _]. Qed.

Lemma rep_newTinyHeap m pf : Z.of_nat (length m) = N * bb ->
  exists h, tiny.newTinyHeap m N bb pf = (Ok tt, h) /\ rep (fun _ => False) h [(N, false)].
Proof.
  intros Hl. unfold tinyNoBlock in HN. pose proof (bin_range N ltac:(lia)) as Hbin.
  set (h0 := tiny.emptyHeap m N bb pf). set (l := [(N, false)]). set (n := Z.to_nat (tiny.tinyBinForSize N + 1)).
  assert (Hok : layout_ok l) by (apply layout_ok_cons; split; [lia|constructor]).
  assert (R0 : core (fun c => c = 0) h0 ([] ++ zeros N ++ []) ([] ++ mark N false ++ []) l).
  { rewrite !app_nil_r. cbn [app]. exists (replicate n tinyNoBlock), (replicate (Z.to_nat ((tiny.tinyBinForSize N + 1 + 63) / 64)) 0), 0, (replicate n []).
    split; [split|split; [split|]]; try done.
    - cbn [span16 span32 h0 tiny.emptyHeap]. by destruct (N <=? 2 ^ 16 - 1).
    - unfold zeros. rewrite length_replicate. lia.
    - cbn [span16 h0 tiny.emptyHeap]. destruct (Z.leb_spec N (2 ^ 16 - 1)); [lia|done].
    - rewrite length_mark; lia.
    - cbn. rewrite length_replicate, Z2Nat.id; [done|]. apply Z.div_pos; lia.
    - intros i u Hu. rewrite mark_false in Hu by lia. apply lookup_replicate in Hu as [-> Hi]. exists 0. split; [|apply Z.bits_0]. cbn.
      apply lookup_replicate. split; [done|]. apply Z2Nat.inj_lt; [apply Z.div_pos; lia|apply Z.div_pos; lia|].
      apply Z.div_lt_upper_bound; [lia|]. pose proof (Z.div_mod (N + 63) 64 ltac:(lia)). pose proof (Z.mod_pos_bound (N + 63) 64 ltac:(lia)). lia.
    - change (map (hd tinyNoBlock) (replicate n [])) with (hd tinyNoBlock <$> replicate n []). by rewrite fmap_replicate.
    - intros i L HL. apply lookup_replicate in HL as [-> _]. done.
    - intros i L HL. apply lookup_replicate in HL as [-> _]. apply NoDup_nil_2.
    - intros i j b (L & HL & Hb). apply lookup_replicate in HL as [-> _]. by apply elem_of_nil in Hb.
    - intros i b (L & HL & Hb). apply lookup_replicate in HL as [-> _]. by apply elem_of_nil in Hb.
    - split.
      + rewrite length_map, !length_replicate. unfold n. rewrite !Z2Nat.id; [done|lia|apply Z.div_pos; lia].
      + rewrite length_map, length_replicate. lia.
      + intros w x Hx. apply lookup_zeros in Hx as ->. split; [lia|]. intros j Hj. rewrite Z.bits_0.
        change (map nonempty (replicate n [])) with (nonempty <$> replicate n []). rewrite fmap_replicate.
        destruct (replicate n (nonempty []) !! _) eqn:E; [|done]. apply lookup_replicate in E as [-> _]. done.
      + done.
      + intros w. rewrite Z.bits_0. destruct (replicate _ 0 !! w) eqn:E; [|done]. by apply lookup_zeros in E as ->.
    - split; [rewrite length_replicate; unfold n; lia|]. split; [|split; [done|cbn; lia]]. intros i b. split.
      + intros (L & HL & Hb). apply lookup_replicate in HL as [-> _]. by apply elem_of_nil in Hb.
      + intros [Hb (s & [(_ & -> & _)|[]] & _)]. done. }
  assert (Hwp : wp (bind (tiny.setSpan 0 N false) (fun _ => tiny.insertFree 0 N)) (fun _ h => rep (fun _ => False) h l) h0).
  { apply wp_bind. eapply (core_setSpan _ _ _ _ _ _ _ _ _ _ _ (fun _ => True)); [exact R0|done|done|lia|lia|]. intros h1 R1 _.
    eapply (core_insertFree _ _ _ _ _ 0 N (fun _ => True)); [exact R1|by left|done|done|]. intros h2 R2 _.
    unfold rep, l. cbn [tags marks map concat fst snd]. eapply core_relabel; [exact R2|done|cbn; lia|]. intros c s'. tauto. }
  unfold wp in Hwp. change (tiny.newTinyHeap m N bb pf) with (bind (tiny.setSpan 0 N false) (fun _ => tiny.insertFree 0 N) h0).
  destruct (bind _ _ h0) as [[[]| |] h]; [by exists h|done|done].
Qed.
End Heap.
