(* ===== verification/TinyRefines.v ===== *)
(** * The tiny heap as an allocator of spans

    The promise of the allocator, on layouts ([served]), and the theorem that every
    sequence of calls on a heap of a valid configuration keeps it. *)

From stdpp Require Import base tactics numbers list.
From Stdlib Require Import ZArith Lia.
From S2P Require Import Prelude Bits Tiny TinyLayout TinyLaws.
Local Open Scope Z_scope.

Inductive call : Set :=
| Alloc (size : Z)
| Free (off : Z)
| FreeWithoutPoison (off : Z).

Definition call_ok (c : call) : Prop := match c with Alloc n | Free n | FreeWithoutPoison n => u32_ok n end.

(** The offset and size of an allocation, nothing of a release. *)
Definition perform (c : call) : tiny.H (option (Z * Z)) :=
  match c with
  | Alloc size => let! r := tiny.alloc size in ret (Some r)
  | Free off => tiny.free off ;;; ret None
  | FreeWithoutPoison off => tiny.freeWithoutPoison off ;;; ret None
  end.

Definition offsetOf (c : call) : option Z := match c with Alloc _ => None | Free off | FreeWithoutPoison off => Some off end.

(** What a call may return on a layout of blocks of [bb] bytes, and the layout after. *)
Inductive served (bb : Z) (l : layout) : call -> outcome tinyError (option (Z * Z)) -> layout -> Prop :=
| served_zero : served bb l (Alloc 0) (Err errSizeOverflow) l
| served_full size : 0 < size -> (forall b s, freeAt l b s -> s * bb < size) -> served bb l (Alloc size) (Err errTinyHeapExhausted) l
| served_alloc size need pre s post : l = pre ++ (s, false) :: post ->
    0 < size -> (need - 1) * bb < size <= need * bb -> need <= s ->
    (forall b' s', freeAt l b' s' -> need <= s' -> tiny.tinyBinForSize s <= tiny.tinyBinForSize s') ->
    served bb l (Alloc size) (Ok (Some (total pre * bb, need * bb))) (pre ++ cut need s ++ post)
| served_free c pre s post : l = pre ++ (s, true) :: post -> offsetOf c = Some (total pre * bb) ->
    served bb l c (Ok None) (release pre s post)
| served_misaligned c off : offsetOf c = Some off -> off mod bb <> 0 -> served bb l c (Err errFreeOffset) l
| served_unknown c off : offsetOf c = Some off -> off mod bb = 0 ->
    (forall pre s post, l = pre ++ (s, true) :: post -> off <> total pre * bb) -> served bb l c (Err errFreeSpan) l.

(** The layout covers [N] blocks with spans that are not empty, and no two free spans
    are neighbours. *)
Definition layout_wf (N : Z) (l : layout) : Prop := layout_ok l /\ total l = N /\ coalesced false l.

(** The bytes of the spans allocated before and after a call. *)
Definition preserved (bb : Z) (l l' : layout) (h h' : tinyHeap) : Prop := forall i,
  owned l !! Z.to_nat (Z.of_nat i / bb) = Some true -> owned l' !! Z.to_nat (Z.of_nat i / bb) = Some true -> mem h' !! i = mem h !! i.

(** Every run of the calls from [h] is served from [l]. *)
Inductive refines (N bb : Z) : tinyHeap -> layout -> list call -> Prop :=
| refines_nil h l : layout_wf N l -> refines N bb h l []
| refines_cons h l c calls r h' l' : layout_wf N l -> perform c h = (r, h') -> served bb l c r l' -> preserved bb l l' h h' ->
    refines N bb h' l' calls -> refines N bb h l (c :: calls).

(** ** Coalescing is kept *)

Lemma coalesced_cut pre s post need : coalesced false (pre ++ (s, false) :: post) -> coalesced false (pre ++ cut need s ++ post).
Proof.
  rewrite !coalesced_app. cbn [coalesced negb]. intros (H1 & H2 & H3). split; [done|]. unfold cut.
  destruct (s =? need); cbn [coalesced negb endsFree]; rewrite ?coalesced_app; cbn [coalesced negb endsFree].
  - split; [split; done|by apply coalesced_weaken].
  - split; [split; [done|split; done]|done].
Qed.

Lemma coalesced_release pre s post : coalesced false (pre ++ (s, true) :: post) -> coalesced false (release pre s post).
Proof.
  rewrite coalesced_app. cbn [coalesced negb]. intros (H1 & _ & H3). unfold release.
  assert (HL : exists pre' s1, mergeLeft pre s = (pre', s1) /\ coalesced false pre' /\ endsFree false pre' = false).
  { unfold mergeLeft. destruct pre as [|[s0 u0] p _] using rev_ind; [by exists [], s|]. rewrite last_snoc, removelast_last.
    rewrite coalesced_app in H1. cbn [coalesced negb] in H1. destruct H1 as (H1 & H2 & _). destruct u0.
    - eexists _, _. split; [done|]. rewrite coalesced_app, endsFree_app. done.
    - exists p, (s0 + s). split; [done|]. split; [done|]. destruct (endsFree false p); [by specialize (H2 eq_refl)|done]. }
  destruct HL as (pre' & s1 & -> & H4 & H5).
  assert (HR : exists s2 post', mergeRight s1 post = (s2, post') /\ coalesced true post').
  { unfold mergeRight. destruct post as [|[s2 []] post]; cbn in H3; eexists _, _; (split; [done|]); cbn; tauto. }
  destruct HR as (s2 & post' & -> & H6). rewrite coalesced_app. cbn [coalesced negb]. rewrite H5. done.
Qed.

(** ** One call *)

Section Step.
Context (N bb : Z) (HN : 0 < N < tinyNoBlock) (Hbb : 8 <= bb) (Htot : N * bb < 2 ^ 32).

Definition heapRep : tinyHeap -> layout -> Prop := rep N bb (fun _ => False).

Lemma wp_eq {A} (m : tiny.H A) (Q : A -> tinyHeap -> Prop) h : wp m Q h -> exists a h', m h = (Ok a, h') /\ Q a h'.
Proof. unfold wp. destruct (m h) as [[a| |] h']; [|done|done]. intros H. by exists a, h'. Qed.

Lemma rep_fields h l : heapRep h l -> blockCount h = N /\ blockBytes h = bb /\ layout_ok l /\ total l = N.
Proof. intros (hs & ws & sm & fl & C & _ & _ & _ & Hok & Ht). by destruct C. Qed.

Lemma ceil_spec size : 0 < size -> let need := (size + bb - 1) / bb in 0 < need /\ (need - 1) * bb < size <= need * bb.
Proof.
  intros Hs need. pose proof (Z.div_mod (size + bb - 1) bb ltac:(lia)) as E. pose proof (Z.mod_pos_bound (size + bb - 1) bb ltac:(lia)). fold need in E. nia.
Qed.

(** Blocks that only free spans lose keep the bytes of the others. *)
Lemma keeps_preserved l l1 l' h h' : keeps bb (fun k => owned l1 !! Z.to_nat k = Some false) h h' ->
  (forall k, owned l !! k = Some true -> owned l' !! k = Some true -> owned l1 !! k = Some true) -> preserved bb l l' h h'.
Proof. intros [[_ H] _] Ho i H1 H2. apply H. rewrite (Ho _ H1 H2). done. Qed.

Lemma wp_then_ret {A B} (m : tiny.H A) (k : A -> tiny.H unit) (x : B) (Q : B -> tinyHeap -> Prop) h :
  wp (bind m k) (fun _ h' => Q x h') h -> wp (bind m (fun a => bind (k a) (fun _ => ret x))) Q h.
Proof. unfold wp, bind. destruct (m h) as [[a| |] h1]; try done. by destruct (k a h1) as [[]]. Qed.

(** Allocation, on the number of blocks it needs. *)
Lemma alloc_eq h l size : heapRep h l -> 0 < size < 2 ^ 32 -> let need := (size + bb - 1) / bb in
  tiny.alloc size h =
    if N <? need then (Err errTinyHeapExhausted, h)
    else bind (tiny.findFreeSpan need) (fun b => if b =? tinyNoBlock then fail errTinyHeapExhausted
      else bind (tiny.spanSize b) (fun span => bind (tiny.removeFree b span) (fun _ => bind (if span =? need then tiny.setUsedStart b true else
        bind (tiny.clearSpan b span) (fun _ => bind (tiny.setSpan b need true) (fun _ =>
        bind (tiny.setSpan (to_u32 (b + need)) (to_u32 (span - need)) false) (fun _ => tiny.insertFree (to_u32 (b + need)) (to_u32 (span - need))))))
        (fun _ => ret (to_u32 (b * bb), to_u32 (need * bb)))))) h.
Proof.
  intros R Hs need. destruct (rep_fields h l R) as (Hc & Hb & _). unfold tiny.alloc. unfold bind at 1, get at 1. cbn beta iota. rewrite Hb, Hc.
  rewrite (proj2 (Z.eqb_neq bb 0)) by lia. assert (Hbb32 : bb < 2 ^ 32) by (unfold tinyNoBlock in *; nia).
  rewrite to_u64_small by lia. fold need. pose proof (ceil_spec size ltac:(lia)) as [Hn0 Hn1]. fold need in Hn0, Hn1.
  assert (need < 2 ^ 32) by nia. rewrite (proj2 (Z.eqb_neq need 0)), (proj2 (Z.ltb_ge _ need)), (to_u32_small need) by lia. cbn [orb].
  by destruct (N <? need).
Qed.

Lemma alloc_served h l size : heapRep h l -> coalesced false l -> u32_ok size -> exists r h' l',
  perform (Alloc size) h = (r, h') /\ served bb l (Alloc size) r l' /\ heapRep h' l' /\ coalesced false l' /\ preserved bb l l' h h'.
Proof.
  intros R Hco Hsize. destruct (rep_fields h l R) as (Hc & Hb & Hok & Ht). unfold u32_ok in Hsize.
  assert (Hsame : forall r, tiny.alloc size h = (Err r, h) -> served bb l (Alloc size) (Err r) l -> exists r h' l',
    perform (Alloc size) h = (r, h') /\ served bb l (Alloc size) r l' /\ heapRep h' l' /\ coalesced false l' /\ preserved bb l l' h h').
  { intros r E Hs. exists (Err r), h, l. split; [cbn; unfold bind; by rewrite E|]. done. }
  destruct (Z.eq_dec size 0) as [->|Hne].
  { apply (Hsame errSizeOverflow); [|constructor]. unfold tiny.alloc. unfold bind at 1, get at 1. cbn beta iota. rewrite Hb.
    assert (bb < 2 ^ 32) by (unfold tinyNoBlock in *; nia). rewrite (proj2 (Z.eqb_neq bb 0)), to_u64_small, (Z.div_small (0 + bb - 1)) by lia. done. }
  pose proof (alloc_eq h l size R ltac:(lia)) as E. pose proof (ceil_spec size ltac:(lia)) as [Hn0 Hn1]. cbn zeta in E, Hn0, Hn1.
  set (need := (size + bb - 1) / bb) in *.
  assert (Hfull : (forall b s, freeAt l b s -> s < need) -> served bb l (Alloc size) (Err errTinyHeapExhausted) l).
  { intros H. apply served_full; [lia|]. intros b s Hf. specialize (H b s Hf). nia. }
  destruct (Z.ltb_spec N need) as [HNn|HNn].
  { apply (Hsame _ E), Hfull. intros b s Hf. pose proof (freeAt_range l b s Hok Hf). lia. }
  destruct (wp_eq (tiny.findFreeSpan need) (fun b h' => h' = h /\ ((b = tinyNoBlock /\ forall b s, freeAt l b s -> s < need) \/
      exists s, freeAt l b s /\ need <= s /\ forall b' s', freeAt l b' s' -> need <= s' -> tiny.tinyBinForSize s <= tiny.tinyBinForSize s')) h) as (b & h1 & Ef & -> & Hcase).
  { eapply (rep_findFreeSpan N bb HN Hbb Htot); [exact R|lia|intros H; split; [done|]; by left|]. intros b s H1 H2 H3. split; [done|]. right. by exists s. }
  unfold bind at 1 in E. rewrite Ef in E. destruct Hcase as [[-> Hnone]|(s & Hf & Hle & Hbest)].
  { rewrite Z.eqb_refl in E. by apply (Hsame _ E), Hfull. }
  pose proof (freeAt_range l b s Hok Hf) as Hrange. rewrite (proj2 (Z.eqb_neq b tinyNoBlock)) in E by (unfold tinyNoBlock in *; lia).
  destruct (freeAt_split l b s Hf) as (pre & post & -> & <-). pose proof Hok as [Hp [Hs Hq]%layout_ok_cons]%layout_ok_app.
  assert (Hw : wp (tiny.alloc size) (fun r h' => r = (total pre * bb, need * bb) /\ heapRep h' (pre ++ cut need s ++ post) /\
    keeps bb (fun k => owned (pre ++ (s, false) :: post) !! Z.to_nat k = Some false) h h') h).
  { unfold wp. rewrite E. match goal with |- context [bind ?m ?f h] => change (wp (bind m f) (fun r h' => r = (total pre * bb, need * bb) /\
      heapRep h' (pre ++ cut need s ++ post) /\ keeps bb (fun k => owned (pre ++ (s, false) :: post) !! Z.to_nat k = Some false) h h') h) end.
    apply wp_bind. eapply (core_spanSize N bb HN); [exact R|lia|rewrite tags_app; apply (tag_first (tags pre) (tags post) _ s); by apply length_tags|].
    apply wp_then_ret. eapply (rep_alloc_blocks N bb HN Hbb Htot); [exact R|lia|]. intros h' R' K'. rewrite !to_u32_small by nia. done. }
  apply wp_eq in Hw as (r & h' & E' & -> & R' & K'). exists (Ok (Some (total pre * bb, need * bb))), h', (pre ++ cut need s ++ post).
  split; [cbn; unfold bind; by rewrite E'|]. split; [eapply served_alloc; [reflexivity|lia|lia|lia|exact Hbest]|]. split; [done|]. split; [by apply coalesced_cut|].
  by eapply keeps_preserved.
Qed.

(** A mark that is set is the start of an allocated span. *)
Lemma marks_used l k : layout_ok l -> marks l !! k = Some true -> exists pre s post, l = pre ++ (s, true) :: post /\ total pre = Z.of_nat k.
Proof.
  intros Hok. revert k. induction Hok as [|[s u] l Hs Hl IH]; intros k; [done|]. cbn [marks map concat fst snd] in *. intros H.
  apply lookup_app_Some in H as [H|[Hge H]].
  - destruct k as [|k]; cbn in H; [injection H as ->; by exists [], s, l|]. apply lookup_replicate in H as [? _]. done.
  - pose proof (length_mark s u Hs) as Hm. destruct (IH _ H) as (pre & s' & post & -> & E). exists ((s, u) :: pre), s', post. split; [done|]. cbn. lia.
Qed.

Lemma owned_release pre s post : layout_ok (pre ++ (s, true) :: post) -> owned (release pre s post) = owned (pre ++ (s, false) :: post).
Proof.
  intros [Hp [Hs Hq]%layout_ok_cons]%layout_ok_app. unfold release.
  assert (HR : forall p s, 0 < s -> owned (let (s2, post') := mergeRight s post in p ++ (s2, false) :: post') = owned (p ++ (s, false) :: post)).
  { intros p s' Hs'. unfold mergeRight. destruct post as [|[s1 []] post]; try done. apply layout_ok_cons in Hq as [Hs1 _]. by rewrite owned_join by lia. }
  unfold mergeLeft. destruct pre as [|[s0 u0] p _] using rev_ind; [by apply HR|]. rewrite last_snoc, removelast_last.
  apply layout_ok_app in Hp as [_ [Hs0 _]%layout_ok_cons]. destruct u0; [by apply HR|]. rewrite HR by lia. rewrite <- app_assoc. cbn [app]. by rewrite owned_join by lia.
Qed.

Lemma free_served h l c off poisoned : heapRep h l -> coalesced false l -> u32_ok off -> offsetOf c = Some off ->
  perform c h = (tiny.freeSpan off poisoned ;;; ret None) h -> exists r h' l',
  perform c h = (r, h') /\ served bb l c r l' /\ heapRep h' l' /\ coalesced false l' /\ preserved bb l l' h h'.
Proof.
  intros R Hco Hoff Hc Hperf. destruct (rep_fields h l R) as (HcN & Hb & Hok & Ht). unfold u32_ok in Hoff. rewrite Hperf.
  assert (Hsame : forall r, tiny.freeSpan off poisoned h = (Err r, h) -> served bb l c (Err r) l -> exists r h' l',
    (tiny.freeSpan off poisoned ;;; ret None) h = (r, h') /\ served bb l c r l' /\ heapRep h' l' /\ coalesced false l' /\ preserved bb l l' h h').
  { intros r E Hs. exists (Err r), h, l. split; [unfold bind; by rewrite E|]. done. }
  assert (E : tiny.freeSpan off poisoned h = tiny.freeSpan off poisoned h) by done.
  unfold tiny.freeSpan at 2 in E. unfold bind at 1, get at 1 in E. cbn beta iota in E. rewrite Hb, HcN, (proj2 (Z.eqb_neq bb 0)) in E by lia. cbn [orb] in E.
  destruct (Z.eqb_spec (off mod bb) 0) as [Hmod|Hmod]; cbn [negb] in E.
  2: { apply (Hsame _ E). by apply (served_misaligned bb l c off). }
  pose proof (Z.div_mod off bb ltac:(lia)) as Hdiv. rewrite Hmod, Z.add_0_r in Hdiv. pose proof (Z.div_pos off bb ltac:(lia) ltac:(lia)).
  assert (Hunused : (forall pre s post, l = pre ++ (s, true) :: post -> total pre <> off / bb) -> served bb l c (Err errFreeSpan) l).
  { intros H'. apply (served_unknown bb l c off); [done|done|]. intros pre s post El Eo. apply (H' pre s post El). rewrite Eo. by rewrite Z.div_mul by lia. }
  destruct (Z.leb_spec N (off / bb)) as [HNb|HNb].
  { apply (Hsame _ E), Hunused. intros pre s post -> Eb. apply layout_ok_app in Hok as [Hp [Hs Hq]%layout_ok_cons].
    rewrite total_app in Ht. cbn in Ht. pose proof (blocks_nonneg post Hq). lia. }
  destruct (lookup_lt_is_Some_2 (marks l) (Z.to_nat (off / bb))) as [u Hu]; [pose proof (length_marks l Hok); lia|].
  destruct u.
  - destruct (marks_used l _ Hok Hu) as (pre & s & post & -> & Eb). rewrite Z2Nat.id in Eb by lia.
    assert (off = total pre * bb) as -> by (rewrite Eb; lia).
    assert (Hw : wp (tiny.freeSpan (total pre * bb) poisoned) (fun _ h' => heapRep h' (release pre s post) /\
      keeps bb (fun k => owned (pre ++ (s, false) :: post) !! Z.to_nat k = Some false) h h') h).
    { eapply (rep_freeSpan N bb HN Hbb Htot); [exact R|]. intros h' R' K'. done. }
    apply wp_eq in Hw as ([] & h' & E' & R' & K'). exists (Ok None), h', (release pre s post). split; [unfold bind; by rewrite E'|].
    split; [by eapply served_free|]. split; [done|]. split; [by apply coalesced_release|]. eapply keeps_preserved; [exact K'|].
    intros k H1 H2. by rewrite owned_release in H2.
  - apply (Hsame errFreeSpan).
    + rewrite E. destruct (wp_eq (tiny.isUsedStart (off / bb)) (fun u h' => u = false /\ h' = h) h) as (u & h1 & Eu & -> & ->).
      { eapply (core_isUsedStart N bb); [exact R|done|exact Hu|done]. }
      unfold bind. by rewrite Eu.
    + apply Hunused. intros pre s post -> Eb. apply layout_ok_app in Hok as [Hp _]. rewrite marks_app, <- Eb in Hu.
      change (marks ((s, true) :: post)) with (mark s true ++ marks post) in Hu. rewrite (mark_first (marks pre) (marks post)) in Hu by by apply length_marks. done.
Qed.

Lemma call_served h l c : heapRep h l -> coalesced false l -> call_ok c -> exists r h' l',
  perform c h = (r, h') /\ served bb l c r l' /\ heapRep h' l' /\ coalesced false l' /\ preserved bb l l' h h'.
Proof.
  intros R Hco Hc. destruct c as [size|off|off]; cbn in Hc.
  - by apply alloc_served.
  - by apply (free_served h l (Free off) off (poisonFreed h)).
  - by apply (free_served h l (FreeWithoutPoison off) off false).
Qed.

Lemma calls_refine calls h l : heapRep h l -> coalesced false l -> Forall call_ok calls -> refines N bb h l calls.
Proof.
  revert h l. induction calls as [|c calls IH]; intros h l R Hco Hc; destruct (rep_fields h l R) as (_ & _ & Hok & Ht); [by constructor|].
  apply Forall_cons in Hc as [Hc Hcs]. destruct (call_served h l c R Hco Hc) as (r & h' & l' & Hp & Hs & R' & Hco' & Hb).
  eapply refines_cons; [done|exact Hp|exact Hs|exact Hb|]. by apply IH.
Qed.
End Step.

(** C17: the tiny heap is an allocator of spans.  A heap of a valid configuration starts
    as one free span, and every sequence of allocations and releases on it is served:
    no call panics or loops; an allocation takes the start of a free span of the least
    size class that has one large enough, and fails only when no free span is large
    enough; a release is refused unless its offset is the start of an allocated span, and
    merges the span with its free neighbours, so no two free spans ever touch; and no
    call changes a byte of a span that stays allocated. *)
Theorem tiny_heap_refines c m calls : tiny.validateTinyConfig c = None ->
  u32_ok (tiny.TinyHeapBytes c) -> 0 <= tiny.TinyBlockBytes c -> Z.of_nat (length m) = tiny.TinyHeapBytes c -> Forall call_ok calls ->
  exists h, tiny.heapOf c m = (Ok tt, h) /\
    refines (tiny.TinyHeapBytes c / tiny.TinyBlockBytes c) (tiny.TinyBlockBytes c) h [(tiny.TinyHeapBytes c / tiny.TinyBlockBytes c, false)] calls.
Proof.
  intros Hv Hu Hb0 Hm Hcalls. unfold tiny.validateTinyConfig in Hv. unfold tiny.heapOf. set (bb := tiny.TinyBlockBytes c) in *.
  destruct (tiny.TinyHeapBytes c =? 0) eqn:E0; [done|]. destruct ((bb =? 0) || negb (Z.land bb (bb - 1) =? 0)) eqn:E1; [done|].
  destruct (bb <? 8) eqn:E2; [done|]. destruct (tinyNearExhaustionStepLimit <? tiny.TinyPacingStepLimit c) eqn:E3; [done|].
  destruct (Z.eqb_spec (tiny.TinyHeapBytes c mod bb) 0) as [Emod|]; [|done]. cbn [negb] in Hv.
  destruct ((tiny.TinyHeapBytes c / bb =? 0) || (tiny.TinyHeapBytes c / bb =? tinyNoBlock)) eqn:E5; [done|]. bool_to_prop. unfold u32_ok in Hu.
  pose proof (Z.div_mod (tiny.TinyHeapBytes c) bb ltac:(lia)) as Ed. rewrite Emod, Z.add_0_r in Ed. set (N := tiny.TinyHeapBytes c / bb) in *.
  assert (HN : 0 < N < tinyNoBlock) by (unfold tinyNoBlock in *; nia).
  destruct (rep_newTinyHeap N bb HN ltac:(lia) ltac:(lia) m (tiny.PoisonFreed c)) as (h & E & R); [lia|]. exists h. split; [done|].
  apply calls_refine; try done; lia.
Qed.

(** Sixteen blocks of 16 bytes: allocations, a release in the middle, one merged on both
    sides, refused releases and an allocation that cannot be served. *)
Definition tinyConfig : tiny.Config :=
  {| tiny.TinyHeapBytes := 256; tiny.TinyBlockBytes := 16; tiny.TinyPacingStepLimit := 1; tiny.PoisonFreed := true |}.

Definition someCalls : list call :=
  [Alloc 40; Alloc 16; Alloc 0; Alloc 100; Free 48; Free 0; Free 48; FreeWithoutPoison 8; Alloc 200; Free 64; Alloc 256].

Fixpoint performAll (calls : list call) (h : tinyHeap) : list (outcome tinyError (option (Z * Z))) :=
  match calls with [] => [] | c :: calls => let (r, h) := perform c h in r :: performAll calls h end.

Lemma someCalls_results : performAll someCalls (snd (tiny.heapOf tinyConfig (replicate 256 0))) =
  [Ok (Some (0, 48)); Ok (Some (48, 16)); Err errSizeOverflow; Ok (Some (64, 112)); Ok None; Ok None; Err errFreeSpan;
   Err errFreeOffset; Err errTinyHeapExhausted; Ok None; Ok (Some (0, 256))].
Proof. vm_compute. reflexivity. Qed.

Lemma tiny_heap_refines_witness : exists h, tiny.heapOf tinyConfig (replicate 256 0) = (Ok tt, h) /\
  refines 16 16 h [(16, false)] someCalls.
Proof.
  apply (tiny_heap_refines tinyConfig (replicate 256 0) someCalls).
  - vm_compute. reflexivity.
  - split; cbn; lia.
  - cbn. lia.
  - vm_compute. reflexivity.
  - repeat constructor; cbn; lia.
Defined.
