(* ===== verification/Semver.v ===== *)
(** * Semantic versions (core/semver)

    Parsing and printing of versions, their precedence ([semver.go]), and the range
    constraints of package dependencies ([constraint.go]).  A Go string is the list of
    its bytes; an error is a value of [semverError]. *)

From Stdlib Require Import Ascii String.
From stdpp Require Import base tactics numbers list.
From Stdlib Require Import ZArith Lia.
From S2P Require Import Prelude.
Local Open Scope Z_scope.
Local Open Scope list_scope.

Definition bytes : Set := list Z.

(** A string literal. *)
Definition str (s : string) : bytes := map (fun c => Z.of_nat (nat_of_ascii c)) (list_ascii_of_string s).
Arguments str s%_string.

Inductive semverError : Set :=
| errEmptyNumber
| errLeadingZero
| errNumber
| errEmpty
| errEmptyIdentifier
| errCharacter
| errNumericPre
| errBuild (e : semverError)
| errPreRelease (e : semverError)
| errComponents
| errMajor (e : semverError)
| errMinor (e : semverError)
| errPatch (e : semverError)
| errMalformedRange
| errOperator
| errSuccessor
| errTooMany
| errEmptyComponent
| errPartialPre.

Definition res (A : Type) : Type := outcome semverError A.

(** [if err != nil { return err }] *)
Definition andThen {A B} (o : res A) (k : A -> res B) : res B :=
  match o with Ok a => k a | Err e => Err e | Panic => Panic end.

Definition wrapErr {A} (w : semverError -> semverError) (o : res A) : res A :=
  match o with Err e => Err (w e) | o => o end.

Notation "'let?' x := m 'in' k" := (andThen m (fun x => k)) (at level 10, x pattern, m at level 100, k at level 200) : go_scope.

(** ** The Go string library *)

Definition digit (c : Z) : bool := (48 <=? c) && (c <=? 57).

(** [strings.IndexByte] and the slices on both sides of the byte. *)
Fixpoint cutByte (c : Z) (s : bytes) : option (bytes * bytes) :=
  match s with
  | [] => None
  | x :: s => if x =? c then Some ([], s) else (fun p => (x :: fst p, snd p)) <$> cutByte c s
  end.

(** [strings.Split] with a separator of one byte. *)
Fixpoint splitByte (c : Z) (s : bytes) : list bytes :=
  match s with
  | [] => [[]]
  | x :: s =>
      if x =? c then [] :: splitByte c s
      else match splitByte c s with p :: ps => (x :: p) :: ps | [] => [[x]] end
  end.

(** [strings.Split(s, "||")]. *)
Fixpoint splitOr (s : bytes) : list bytes :=
  match s with
  | [] => [[]]
  | [x] => [[x]]
  | x :: (y :: s') as t =>
      if (x =? 124) && (y =? 124) then [] :: splitOr s'
      else match splitOr t with p :: ps => (x :: p) :: ps | [] => [[x]] end
  end.

(** [strings.Join] with a separator of one byte. *)
Fixpoint join (c : Z) (l : list bytes) : bytes :=
  match l with [] => [] | [s] => s | s :: l => s ++ c :: join c l end.

(** [strings.TrimSpace]: the UTF-8 forms of the white space of Unicode. *)
Definition spaces : list bytes :=
  [[9]; [10]; [11]; [12]; [13]; [32]; [0xc2; 0x85]; [0xc2; 0xa0]; [0xe1; 0x9a; 0x80]]
  ++ map (fun k => [0xe2; 0x80; k]) (seqZ 0x80 11)
  ++ [[0xe2; 0x80; 0xa8]; [0xe2; 0x80; 0xa9]; [0xe2; 0x80; 0xaf]; [0xe2; 0x81; 0x9f]; [0xe3; 0x80; 0x80]].

Fixpoint stripPrefix (p s : bytes) : option bytes :=
  match p, s with
  | [], _ => Some s
  | x :: p, y :: s => if x =? y then stripPrefix p s else None
  | _ :: _, [] => None
  end.

Fixpoint trimLeft (fuel : nat) (sps : list bytes) (s : bytes) : bytes :=
  match fuel with
  | O => s
  | S fuel => match list_find (fun sp => is_Some (stripPrefix sp s)) sps with
              | Some (_, sp) => trimLeft fuel sps (drop (length sp) s)
              | None => s
              end
  end.

Definition TrimSpace (s : bytes) : bytes :=
  let s := trimLeft (length s) spaces s in
  reverse (trimLeft (length s) (map reverse spaces) (reverse s)).

(** [strconv.ParseUint(s, 10, 64)]; [None] is a syntax or range error. *)
Fixpoint decimal (acc : Z) (s : bytes) : option Z :=
  match s with [] => Some acc | c :: s => if digit c then decimal (10 * acc + (c - 48)) s else None end.

Definition ParseUint (s : bytes) : option Z :=
  match s with
  | [] => None
  | _ => match decimal 0 s with Some n => if n <? 2 ^ 64 then Some n else None | None => None end
  end.

(** [strconv.FormatUint(n, 10)]; a 64-bit number has at most twenty digits. *)
Fixpoint digitsOf (fuel : nat) (n : Z) (acc : bytes) : bytes :=
  match fuel with
  | O => acc
  | S fuel => let acc := (48 + n mod 10) :: acc in if n / 10 =? 0 then acc else digitsOf fuel (n / 10) acc
  end.
Definition FormatUint (n : Z) : bytes := digitsOf 20 n [].

(** The order of Go on strings. *)
Fixpoint less (a b : bytes) : bool :=
  match a, b with
  | _, [] => false
  | [], _ :: _ => true
  | x :: a, y :: b => if x =? y then less a b else x <? y
  end.

Definition beq (a b : bytes) : bool := bool_decide (a = b).

(** ** Versions (semver.go) *)

Record Version : Set := { Major : Z; Minor : Z; Patch : Z; Pre : list bytes; Build : list bytes }.

Module sv.

Definition parseNumeric (s : bytes) : res Z :=
  match s with
  | [] => Err errEmptyNumber
  | c :: t => if (1 <? Z.of_nat (length s)) && (c =? 48) then Err errLeadingZero
              else match ParseUint s with Some n => Ok n | None => Err errNumber end
  end.

Definition identByte (c : Z) : bool :=
  digit c || ((97 <=? c) && (c <=? 122)) || ((65 <=? c) && (c <=? 90)) || (c =? 45).

Definition checkIdentifier (prerelease : bool) (id : bytes) : res unit :=
  match id with
  | [] => Err errEmptyIdentifier
  | c :: _ =>
      if negb (forallb identByte id) then Err errCharacter
      else if prerelease && forallb digit id && (1 <? Z.of_nat (length id)) && (c =? 48) then Err errNumericPre
      else Ok tt
  end.

Fixpoint checkIdentifiers (prerelease : bool) (ids : list bytes) : res unit :=
  match ids with
  | [] => Ok tt
  | id :: ids => let? _ := checkIdentifier prerelease id in checkIdentifiers prerelease ids
  end.

Definition parseIdentifiers (s : bytes) (prerelease : bool) : res (list bytes) :=
  match s with
  | [] => Err errEmpty
  | _ => let ids := splitByte 46 s in let? _ := checkIdentifiers prerelease ids in Ok ids
  end.

(** The suffix from a separator on: its identifiers and the text before. *)
Definition parseSuffix (c : Z) (prerelease : bool) (w : semverError -> semverError) (s : bytes) : res (list bytes * bytes) :=
  match cutByte c s with
  | Some (before, after) => let? ids := wrapErr w (parseIdentifiers after prerelease) in Ok (ids, before)
  | None => Ok ([], s)
  end.

Definition stripV (s : bytes) : bytes :=
  match s with c :: t => if (c =? 118) || (c =? 86) then t else s | [] => s end.

Definition Parse (s : bytes) : res Version :=
  let s := stripV s in
  let? (build, s) := parseSuffix 43 false errBuild s in
  let? (pre, s) := parseSuffix 45 true errPreRelease s in
  match splitByte 46 s with
  | [a; b; c] =>
      let? maj := wrapErr errMajor (parseNumeric a) in
      let? min := wrapErr errMinor (parseNumeric b) in
      let? pat := wrapErr errPatch (parseNumeric c) in
      Ok {| Major := maj; Minor := min; Patch := pat; Pre := pre; Build := build |}
  | _ => Err errComponents
  end.

Definition MustParse (s : bytes) : res Version :=
  match Parse s with Ok v => Ok v | _ => Panic end.

Definition String_ (v : Version) : bytes :=
  FormatUint (Major v) ++ [46] ++ FormatUint (Minor v) ++ [46] ++ FormatUint (Patch v)
  ++ (match Pre v with [] => [] | _ => 45 :: join 46 (Pre v) end)
  ++ (match Build v with [] => [] | _ => 43 :: join 46 (Build v) end).

(** ** Precedence *)

(** [cmpUint], and [cmpInt] on lengths. *)
Definition cmpUint (a b : Z) : Z := if a <? b then -1 else if b <? a then 1 else 0.
Definition cmpInt (a b : nat) : Z := cmpUint (Z.of_nat a) (Z.of_nat b).

Definition numericID (s : bytes) : bool := match s with [] => false | _ => forallb digit s end.

Fixpoint dropZeros (s : bytes) : bytes :=
  match s with c :: (_ :: _) as t => if c =? 48 then dropZeros t else s | _ => s end.

Definition compareNumericID (a b : bytes) : Z :=
  let a := dropZeros a in
  let b := dropZeros b in
  let c := cmpInt (length a) (length b) in
  if negb (c =? 0) then c else if less a b then -1 else if less b a then 1 else 0.

(** The loop over the identifiers both have, then the lengths. *)
Fixpoint compareIDs (a b : list bytes) : Z :=
  match a, b with
  | ai :: a, bi :: b =>
      let aNum := numericID ai in
      let bNum := numericID bi in
      if aNum && bNum then
        let c := compareNumericID ai bi in if negb (c =? 0) then c else compareIDs a b
      else if aNum && negb bNum then -1
      else if negb aNum && bNum then 1
      else if negb (beq ai bi) then (if less ai bi then -1 else 1)
      else compareIDs a b
  | [], [] => 0
  | [], _ :: _ => -1
  | _ :: _, [] => 1
  end.

Definition comparePre (a b : list bytes) : Z :=
  match a, b with
  | [], [] => 0
  | [], _ :: _ => 1
  | _ :: _, [] => -1
  | _, _ => compareIDs a b
  end.

Definition Compare (v o : Version) : Z :=
  let c := cmpUint (Major v) (Major o) in
  if negb (c =? 0) then c
  else
    let c := cmpUint (Minor v) (Minor o) in
    if negb (c =? 0) then c
    else
      let c := cmpUint (Patch v) (Patch o) in
      if negb (c =? 0) then c else comparePre (Pre v) (Pre o).

(** ** Constraints (constraint.go) *)

Inductive rangeOp : Set := opNone | opGt | opGe | opLt | opLe | opEq | opCaret | opTilde.

Record comparator : Set := { op : rangeOp; bound : Version }.

Record Constraint : Set := { groups : list (list comparator); raw : bytes }.

Record partial : Set := { major : Z; minor : Z; patch : Z; pre : list bytes; n : Z }.

Definition version (p : partial) : Version := {| Major := major p; Minor := minor p; Patch := patch p; Pre := pre p; Build := [] |}.

Definition ver (maj min pat : Z) : Version := {| Major := maj; Minor := min; Patch := pat; Pre := []; Build := [] |}.

Definition anyRange : list comparator := [{| op := opGe; bound := ver 0 0 0 |}].

Definition exclusiveUpper (v : Version) : comparator :=
  {| op := opLt; bound := {| Major := Major v; Minor := Minor v; Patch := Patch v; Pre := [[48]]; Build := Build v |} |}.

(** [c.v.Major+1] and the like wrap at 64 bits. *)
Definition succ64 (x : Z) : Z := to_u64 (x + 1).

Definition test (c : comparator) (v : Version) : bool :=
  let r := Compare v (bound c) in
  match op c with
  | opGt => 0 <? r
  | opGe => 0 <=? r
  | opLt => r <? 0
  | opLe => r <=? 0
  | _ => r =? 0
  end.

Definition sameCore (v w : Version) : bool := (Major w =? Major v) && (Minor w =? Minor v) && (Patch w =? Patch v).

Definition hasPre (v : Version) : bool := match Pre v with [] => false | _ => true end.

Definition checkGroup (group : list comparator) (v : Version) : bool :=
  forallb (fun c => test c v) group &&
  (negb (hasPre v) || existsb (fun c => hasPre (bound c) && sameCore v (bound c)) group).

Definition Check_ (c : Constraint) (v : Version) : bool := existsb (fun group => checkGroup group v) (groups c).

(** ** Parsing a range *)

Definition wildcard (s : bytes) : bool := beq s (str "*") || beq s (str "x") || beq s (str "X").

(** The loop of [strings.Cut] into at most three parts. *)
Fixpoint cutParts (k : nat) (main : bytes) : res (list bytes) :=
  match k with
  | O => Err errTooMany
  | S k =>
      match cutByte 46 main with
      | None => Ok [main]
      | Some (part, rest) => let? parts := cutParts k rest in Ok (part :: parts)
      end
  end.

Fixpoint checkTail (parts : list bytes) : res unit :=
  match parts with
  | [] => Ok tt
  | tail :: parts => if wildcard tail then checkTail parts else let? _ := parseNumeric tail in checkTail parts
  end.

Definition setPart (idx : Z) (x : Z) (p : partial) : partial :=
  {| major := if idx =? 0 then x else major p; minor := if idx =? 1 then x else minor p;
     patch := if idx =? 2 then x else patch p; pre := pre p; n := idx + 1 |}.

Fixpoint fillParts (idx : Z) (parts : list bytes) (out : partial) : res partial :=
  match parts with
  | [] => Ok out
  | part :: parts =>
      if beq part [] then Err errEmptyComponent
      else if wildcard part then let? _ := checkTail parts in Ok out
      else let? x := parseNumeric part in fillParts (idx + 1) parts (setPart idx x out)
  end.

Definition noPartial : partial := {| major := 0; minor := 0; patch := 0; pre := []; n := 0 |}.

Definition parsePartial (s : bytes) : res partial :=
  let s := TrimSpace s in
  if beq s [] || wildcard s then Ok noPartial
  else
    let? (_, main) := parseSuffix 43 false errBuild s in
    let? (pre, main) := parseSuffix 45 true (fun e => e) main in
    let? parts := cutParts 3 main in
    let? out := fillParts 0 parts noPartial in
    match pre with
    | [] => Ok out
    | _ => if negb (n out =? 3) then Err errPartialPre
           else Ok {| major := major out; minor := minor out; patch := patch out; pre := pre; n := n out |}
    end.

Definition maxComponent : Z := 2 ^ 64 - 1.

(** The component that the expansion increments, if any. *)
Definition successorComponent (o : rangeOp) (p : partial) : option Z :=
  match o with
  | opCaret =>
      Some (if negb (major p =? 0) || (n p =? 1) then major p
            else if negb (minor p =? 0) || (n p =? 2) then minor p
            else patch p)
  | opTilde => Some (if 2 <=? n p then minor p else major p)
  | opNone | opEq | opGt | opLe =>
      if n p =? 1 then Some (major p) else if n p =? 2 then Some (minor p) else None
  | _ => None
  end.

Definition validateRangeSuccessor (o : rangeOp) (p : partial) : res unit :=
  if n p =? 0 then Ok tt
  else match successorComponent o p with
       | Some component => if component =? maxComponent then Err errSuccessor else Ok tt
       | None => Ok tt
       end.

Definition eqRange (p : partial) : list comparator :=
  if n p =? 0 then anyRange
  else if n p =? 1 then [{| op := opGe; bound := ver (major p) 0 0 |}; exclusiveUpper (ver (succ64 (major p)) 0 0)]
  else if n p =? 2 then [{| op := opGe; bound := ver (major p) (minor p) 0 |}; exclusiveUpper (ver (major p) (succ64 (minor p)) 0)]
  else [{| op := opEq; bound := version p |}].

Definition caretRange (p : partial) : list comparator :=
  if n p =? 0 then anyRange
  else
    let upper :=
      if negb (major p =? 0) then ver (succ64 (major p)) 0 0
      else if n p =? 1 then ver 1 0 0
      else if negb (minor p =? 0) then ver 0 (succ64 (minor p)) 0
      else if n p =? 2 then ver 0 1 0
      else ver 0 0 (succ64 (patch p)) in
    [{| op := opGe; bound := version p |}; exclusiveUpper upper].

Definition tildeRange (p : partial) : list comparator :=
  if n p =? 0 then anyRange
  else
    let upper := if 2 <=? n p then ver (major p) (succ64 (minor p)) 0 else ver (succ64 (major p)) 0 0 in
    [{| op := opGe; bound := version p |}; exclusiveUpper upper].

Definition compRange (o : rangeOp) (p : partial) : list comparator :=
  match o with
  | opGe => [{| op := opGe; bound := version p |}]
  | opLt => if n p <? 3 then [exclusiveUpper (version p)] else [{| op := opLt; bound := version p |}]
  | opGt =>
      if n p =? 0 then [exclusiveUpper (ver 0 0 0)]
      else if n p =? 3 then [{| op := opGt; bound := version p |}]
      else if n p =? 2 then [{| op := opGe; bound := ver (major p) (succ64 (minor p)) 0 |}]
      else [{| op := opGe; bound := ver (succ64 (major p)) 0 0 |}]
  | opLe =>
      if n p =? 0 then anyRange
      else if n p =? 3 then [{| op := opLe; bound := version p |}]
      else if n p =? 2 then [exclusiveUpper (ver (major p) (succ64 (minor p)) 0)]
      else [exclusiveUpper (ver (succ64 (major p)) 0 0)]
  | _ => []
  end.

Definition hyphenRange (a b : partial) : res (list comparator) :=
  let? _ := validateRangeSuccessor opNone b in
  Ok ({| op := opGe; bound := if n a =? 0 then ver 0 0 0 else version a |}
      :: (if n b =? 0 then []
          else if n b =? 3 then [{| op := opLe; bound := version b |}]
          else if n b =? 2 then [exclusiveUpper (ver (major b) (succ64 (minor b)) 0)]
          else [exclusiveUpper (ver (succ64 (major b)) 0 0)])).

Definition parseHyphen (aTok bTok : bytes) : res (list comparator) :=
  let? a := parsePartial aTok in
  let? b := parsePartial bTok in
  hyphenRange a b.

(** The operator a token starts with. *)
Definition splitOperator (t : bytes) : rangeOp * bytes :=
  match t with
  | 62 :: 61 :: t => (opGe, t)
  | 60 :: 61 :: t => (opLe, t)
  | 62 :: t => (opGt, t)
  | 60 :: t => (opLt, t)
  | 61 :: t => (opEq, t)
  | 94 :: t => (opCaret, t)
  | 126 :: t => (opTilde, t)
  | _ => (opNone, t)
  end.

Definition expand (o : rangeOp) (p : partial) : list comparator :=
  match o with
  | opCaret => caretRange p
  | opTilde => tildeRange p
  | opGt | opGe | opLt | opLe => compRange o p
  | _ => eqRange p
  end.

Definition isOperator (o : rangeOp) : bool := match o with opNone => false | _ => true end.

Definition expandToken (t : bytes) : res (list comparator) :=
  let (o, t) := splitOperator t in
  if isOperator o && beq (TrimSpace t) [] then Err errOperator
  else
    let? p := parsePartial t in
    let? _ := validateRangeSuccessor o p in
    Ok (expand o p).

(** [tokenizeRange]: every round takes a byte at least. *)
Fixpoint takeWhile (f : Z -> bool) (s : bytes) : bytes :=
  match s with c :: s => if f c then c :: takeWhile f s else [] | [] => [] end.
Fixpoint dropWhile (f : Z -> bool) (s : bytes) : bytes :=
  match s with c :: t => if f c then dropWhile f t else s | [] => [] end.

Definition space (c : Z) : bool := c =? 32.
Definition opByte (c : Z) : bool := existsb (Z.eqb c) (str "<>=~^").

Fixpoint tokens (fuel : nat) (s : bytes) : list bytes :=
  match fuel with
  | O => []
  | S fuel =>
      match dropWhile space s with
      | [] => []
      | (c :: t) as s =>
          if c =? 45 then str "-" :: tokens fuel t
          else
            let rest := dropWhile space (dropWhile opByte s) in
            let visible := fun c => negb (space c) in
            (takeWhile opByte s ++ takeWhile visible rest) :: tokens fuel (dropWhile visible rest)
      end
  end.

Definition tokenizeRange (s : bytes) : list bytes := tokens (length s) s.

Fixpoint expandAll (toks : list bytes) : res (list comparator) :=
  match toks with
  | [] => Ok []
  | t :: toks =>
      if beq t (str "-") || beq t [] then Err errMalformedRange
      else let? cs := expandToken t in let? rest := expandAll toks in Ok (cs ++ rest)
  end.

Definition parseRange (s : bytes) : res (list comparator) :=
  let s := TrimSpace s in
  if beq s [] || wildcard s then Ok anyRange
  else
    match tokenizeRange s with
    | [a; h; b] as toks => if beq h (str "-") then parseHyphen a b else expandAll toks
    | toks => expandAll toks
    end.

Fixpoint parseGroups (parts : list bytes) : res (list (list comparator)) :=
  match parts with
  | [] => Ok []
  | part :: parts => let? g := parseRange (TrimSpace part) in let? gs := parseGroups parts in Ok (g :: gs)
  end.

Definition ParseConstraint (s : bytes) : res Constraint :=
  let? gs := parseGroups (splitOr s) in Ok {| groups := gs; raw := TrimSpace s |}.

Definition Satisfies (v c : bytes) : res bool :=
  let? v := Parse v in let? c := ParseConstraint c in Ok (Check_ c v).
End sv.

Example caret_ok : sv.Satisfies (str "v1.9.3+b") (str " ^1.2.3 || >= 3 <4 ") = Ok true.
Proof. vm_compute. reflexivity. Qed.

Example hyphen_ok : sv.Satisfies (str "2.3.9") (str "1.2 - 2.3") = Ok true.
Proof. vm_compute. reflexivity. Qed.

Example prerelease_ok : sv.Satisfies (str "2.0.0-beta") (str ">=1.0.0") = Ok false.
Proof. vm_compute. reflexivity. Qed.
