(* ===== verification/SemverOrder.v ===== *)
(** * Precedence of versions

    The order of the specification (semver.org, section 11) as relations on the numbers
    and identifiers of a version, and [Compare] as its decision. *)

From stdpp Require Import base tactics numbers list.
From Stdlib Require Import ZArith Lia.
From S2P Require Import Prelude Semver.
Local Open Scope Z_scope.

(** ** Three-way comparisons

    [c] compares the keys of its arguments by the strict order [lt]. *)

Class Compares {A K} (c : A -> A -> Z) (key : A -> K) (lt : K -> K -> Prop) : Prop :=
  compares x y : (c x y = -1 /\ lt (key x) (key y)) \/ (c x y = 0 /\ key x = key y) \/ (c x y = 1 /\ lt (key y) (key x)).

Section Compares.
Context {A K} (c : A -> A -> Z) (key : A -> K) (lt : K -> K -> Prop) `{!StrictOrder lt, !Compares c key lt}.

Lemma compares_lt x y : c x y = -1 <-> lt (key x) (key y).
Proof.
  destruct (compares (c := c) (key := key) (lt := lt) x y) as [[-> H]|[[-> H]|[-> H]]]; split; intros H'; try done.
  - rewrite H in H'. by destruct (irreflexivity lt (key y)).
  - destruct (irreflexivity lt (key x)). by transitivity (key y).
Qed.

Lemma compares_eq x y : c x y = 0 <-> key x = key y.
Proof.
  destruct (compares (c := c) (key := key) (lt := lt) x y) as [[-> H]|[[-> H]|[-> H]]]; split; intros H'; try done.
  all: rewrite H' in H; by destruct (irreflexivity lt (key y)).
Qed.

Lemma compares_gt x y : c x y = 1 <-> lt (key y) (key x).
Proof.
  destruct (compares (c := c) (key := key) (lt := lt) x y) as [[-> H]|[[-> H]|[-> H]]]; split; intros H'; try done.
  - destruct (irreflexivity lt (key x)). by transitivity (key y).
  - rewrite H in H'. by destruct (irreflexivity lt (key y)).
Qed.
End Compares.

#[export] Instance cmpUint_compares : Compares sv.cmpUint id Z.lt.
Proof.
  intros x y. unfold sv.cmpUint, id. destruct (Z.ltb_spec x y); [by left|]. right. destruct (Z.ltb_spec y x); [by right|]. left. split; [done|lia].
Qed.

#[export] Instance cmpInt_compares : Compares sv.cmpInt Z.of_nat Z.lt.
Proof. intros x y. apply (cmpUint_compares (Z.of_nat x) (Z.of_nat y)). Qed.

(** ** Strings *)

(** The order of bytes, at the first difference. *)
Inductive bytes_lt : bytes -> bytes -> Prop :=
| bytes_prefix x a : bytes_lt [] (x :: a)
| bytes_here x y a b : x < y -> bytes_lt (x :: a) (y :: b)
| bytes_later x a b : bytes_lt a b -> bytes_lt (x :: a) (x :: b).

#[export] Instance bytes_lt_order : StrictOrder bytes_lt.
Proof.
  split.
  - intros a. induction a as [|x a IH]; inversion 1; [lia|done].
  - intros a b c H. revert c. induction H as [|x y a b Hxy|x a b H IH]; intros c Hc; inversion Hc; subst.
    + constructor.
    + constructor.
    + apply bytes_here. lia.
    + by apply bytes_here.
    + by apply bytes_here.
    + by apply bytes_later, IH.
Qed.

Lemma less_lt a b : less a b = true <-> bytes_lt a b.
Proof.
  split.
  - revert b. induction a as [|x a IH]; intros [|y b]; cbn; try done; [constructor|].
    destruct (Z.eqb_spec x y) as [->|]; intros H; [by apply bytes_later, IH|]. apply bytes_here. by apply Z.ltb_lt.
  - induction 1 as [|x y a b Hxy|x a b H IH]; cbn; [done| |by rewrite Z.eqb_refl]. rewrite (proj2 (Z.eqb_neq x y)) by lia. by apply Z.ltb_lt.
Qed.

Lemma less_total a b : a <> b -> less a b = false -> bytes_lt b a.
Proof.
  revert b. induction a as [|x a IH]; intros [|y b] Hne; cbn; try done; [constructor|].
  destruct (Z.eqb_spec x y) as [->|Hxy]; intros H; [apply bytes_later, IH; [congruence|done]|]. apply bytes_here. apply Z.ltb_ge in H. lia.
Qed.

(** ** Decimal numbers *)

Definition value (s : bytes) : Z := default 0 (decimal 0 s).

Lemma decimal_some acc s : forallb digit s = true -> exists v, decimal acc s = Some v.
Proof.
  revert acc. induction s as [|c s IH]; intros acc; cbn; [by eexists|]. destruct (digit c); [|done]. apply IH.
Qed.

Lemma decimal_digits acc s v : decimal acc s = Some v -> forallb digit s = true.
Proof. revert acc. induction s as [|c s IH]; intros acc; cbn; [done|]. destruct (digit c); [|done]. apply IH. Qed.

Lemma digit_range c : digit c = true -> 0 <= c - 48 < 10.
Proof. unfold digit. intros [H1 H2]%andb_prop. apply Z.leb_le in H1, H2. lia. Qed.

(** The digits after a number shift it. *)
Lemma decimal_acc acc s v : decimal acc s = Some v -> exists w, decimal 0 s = Some w /\ v = acc * 10 ^ Z.of_nat (length s) + w /\ 0 <= w < 10 ^ Z.of_nat (length s).
Proof.
  revert acc v. induction s as [|c s IH]; intros acc v; cbn [decimal length].
  - intros [= <-]. exists 0. cbn. split; [done|lia].
  - destruct (digit c) eqn:Ec; [|done]. intros H. apply digit_range in Ec. destruct (IH _ _ H) as (w & Hw & -> & Hr).
    destruct (decimal_some (10 * 0 + (c - 48)) s) as [v0 Hv0]; [by eapply decimal_digits|]. destruct (IH _ _ Hv0) as (w0 & Hw0 & -> & _).
    rewrite Hw in Hw0. injection Hw0 as <-. eexists. split; [done|]. rewrite Nat2Z.inj_succ, Z.pow_succ_r by lia. split; [lia|]. nia.
Qed.

Lemma value_cons c s : forallb digit (c :: s) = true -> value (c :: s) = (c - 48) * 10 ^ Z.of_nat (length s) + value s /\ 0 <= value s < 10 ^ Z.of_nat (length s).
Proof.
  intros H. unfold value. destruct (decimal_some 0 (c :: s) H) as [v Hv]. rewrite Hv. cbn [decimal] in Hv. cbn [forallb] in H.
  apply andb_prop in H as [Hc Hs]. rewrite Hc in Hv. destruct (decimal_acc _ _ _ Hv) as (w & -> & -> & Hr). unfold default, from_option, id. split; [lia|done].
Qed.

Lemma value_range s : forallb digit s = true -> 0 <= value s < 10 ^ Z.of_nat (length s).
Proof.
  intros H. destruct s as [|c s]; [done|]. destruct (value_cons c s H) as [-> Hr]. cbn [forallb] in H. apply andb_prop in H as [Hc _].
  apply digit_range in Hc. cbn [length]. rewrite Nat2Z.inj_succ, Z.pow_succ_r by lia. nia.
Qed.

(** Digit strings of one length are ordered as their numbers. *)
Lemma value_lt a b : forallb digit a = true -> forallb digit b = true -> length a = length b -> bytes_lt a b -> value a < value b.
Proof.
  intros Ha Hb Hl H. induction H as [|x y a b Hxy|x a b H IH]; [done| |].
  - injection Hl as Hl. destruct (value_cons x a Ha) as [-> Hra]. destruct (value_cons y b Hb) as [-> Hrb]. rewrite <- Hl in *. nia.
  - injection Hl as Hl. destruct (value_cons x a Ha) as [-> _]. destruct (value_cons x b Hb) as [-> _]. rewrite Hl.
    cbn [forallb] in Ha, Hb. apply andb_prop in Ha as [_ Ha], Hb as [_ Hb]. specialize (IH Ha Hb Hl). lia.
Qed.

(** No leading zero: a single digit, or a first digit that is not zero. *)
Definition canonical (s : bytes) : bool := match s with c :: _ :: _ => negb (c =? 48) | _ => true end.

Lemma value_canonical s : forallb digit s = true -> canonical s = true -> (1 < length s)%nat -> 10 ^ (Z.of_nat (length s) - 1) <= value s.
Proof.
  intros H Hc Hl. destruct s as [|c s]; [cbn in Hl; lia|]. destruct (value_cons c s H) as [-> Hr]. destruct s as [|d s]; [cbn in Hl; lia|].
  cbn [canonical] in Hc. apply negb_true_iff, Z.eqb_neq in Hc. cbn [forallb] in H. apply andb_prop in H as [Hd _]. apply digit_range in Hd.
  replace (Z.of_nat (length (c :: d :: s)) - 1) with (Z.of_nat (length (d :: s))) by (cbn [length]; lia).
  pose proof (Z.pow_pos_nonneg 10 (Z.of_nat (length (d :: s))) ltac:(lia) ltac:(lia)). nia.
Qed.

(** A longer canonical number is larger. *)
Lemma value_longer a b : forallb digit a = true -> forallb digit b = true -> canonical b = true -> a <> [] -> (length a < length b)%nat -> value a < value b.
Proof.
  intros Ha Hb Hc Hne Hl. pose proof (value_range a Ha) as Hra. assert (0 < length a)%nat by (by destruct a as [|]; cbn; [|lia]).
  pose proof (value_canonical b Hb Hc ltac:(lia)) as Hrb.
  pose proof (Z.pow_le_mono_r 10 (Z.of_nat (length a)) (Z.of_nat (length b) - 1) ltac:(lia) ltac:(lia)). lia.
Qed.

Lemma dropZeros_spec s : forallb digit s = true -> s <> [] ->
  forallb digit (sv.dropZeros s) = true /\ sv.dropZeros s <> [] /\ canonical (sv.dropZeros s) = true /\ value (sv.dropZeros s) = value s.
Proof.
  induction s as [|c [|d s] IH]; intros H Hne; [done|by cbn|]. cbn [sv.dropZeros]. destruct (Z.eqb_spec c 48) as [->|Hc].
  - destruct (value_cons 48 (d :: s) H) as [-> _]. cbn [forallb] in H. apply andb_prop in H as [_ H]. destruct (IH H) as (H1 & H2 & H3 & H4); [done|].
    split; [done|]. split; [done|]. split; [done|]. etransitivity; [exact H4|]. lia.
  - split; [done|]. split; [done|]. split; [|done]. cbn. by apply negb_true_iff, Z.eqb_neq.
Qed.

Lemma dropZeros_canonical s : canonical s = true -> sv.dropZeros s = s.
Proof. destruct s as [|c [|d s]]; try done. cbn. intros H. apply negb_true_iff in H. by rewrite H. Qed.

(** [compareNumericID] compares the numbers. *)
Lemma compareNumericID_value a b : sv.numericID a = true -> sv.numericID b = true -> sv.compareNumericID a b = sv.cmpUint (value a) (value b).
Proof.
  intros Ha Hb. assert (forall s, sv.numericID s = true -> forallb digit s = true /\ s <> []) as Hn by (by intros []).
  destruct (Hn a Ha) as [Hda Hna]. destruct (Hn b Hb) as [Hdb Hnb]. clear Hn.
  destruct (dropZeros_spec a Hda Hna) as (H1 & H2 & H3 & <-). destruct (dropZeros_spec b Hdb Hnb) as (H1' & H2' & H3' & <-).
  unfold sv.compareNumericID. set (a' := sv.dropZeros a) in *. set (b' := sv.dropZeros b) in *.
  assert (Hlt : value a' < value b' -> sv.cmpUint (value a') (value b') = -1) by (intros H; by apply (compares_lt sv.cmpUint id Z.lt)).
  assert (Hgt : value b' < value a' -> sv.cmpUint (value a') (value b') = 1) by (intros H; by apply (compares_gt sv.cmpUint id Z.lt)).
  destruct (cmpInt_compares (length a') (length b')) as [[-> H]|[[-> H]|[-> H]]]; cbn [Z.eqb negb].
  - symmetry. apply Hlt, value_longer; try done. lia.
  - apply Nat2Z.inj in H. destruct (less a' b') eqn:E; [symmetry; apply Hlt, value_lt; try done; by apply less_lt|].
    destruct (decide (a' = b')) as [->|Hne].
    + assert (less b' b' = false) as -> by (destruct (less b' b') eqn:E2; [apply less_lt in E2; by destruct (irreflexivity bytes_lt b')|done]).
      symmetry. by apply (compares_eq sv.cmpUint id Z.lt).
    + pose proof (less_total a' b' Hne E) as Hba. rewrite (proj2 (less_lt b' a') Hba). symmetry. apply Hgt, value_lt; done.
  - symmetry. apply Hgt, value_longer; try done. lia.
Qed.

(** ** Identifiers *)

(** A number, or text. *)
Inductive ident : Set := Num (x : Z) | Alpha (s : bytes).

Definition identOf (s : bytes) : ident := if sv.numericID s then Num (value s) else Alpha s.

(** Numbers by value, before text; text by its bytes. *)
Inductive ident_lt : ident -> ident -> Prop :=
| ident_num x y : x < y -> ident_lt (Num x) (Num y)
| ident_mixed x s : ident_lt (Num x) (Alpha s)
| ident_alpha s t : bytes_lt s t -> ident_lt (Alpha s) (Alpha t).

#[export] Instance ident_lt_order : StrictOrder ident_lt.
Proof.
  split; [intros [x|s]; inversion 1; subst; [lia|by destruct (irreflexivity bytes_lt s)]|].
  intros a b c H1 H2. destruct H1 as [x y H|x s|s t H]; inversion H2; subst; constructor; [lia|by transitivity t].
Qed.

(** At the first identifier that differs; a list that continues follows its prefix. *)
Inductive idents_lt : list ident -> list ident -> Prop :=
| idents_prefix k l : idents_lt [] (k :: l)
| idents_here k k' l l' : ident_lt k k' -> idents_lt (k :: l) (k' :: l')
| idents_later k l l' : idents_lt l l' -> idents_lt (k :: l) (k :: l').

#[export] Instance idents_lt_order : StrictOrder idents_lt.
Proof.
  split.
  - intros a. induction a as [|x a IH]; inversion 1; subst; [by destruct (irreflexivity ident_lt x)|done].
  - intros a b c H. revert c. induction H as [|x y a b Hxy|x a b H IH]; intros c Hc; inversion Hc; subst.
    + constructor.
    + constructor.
    + apply idents_here. by transitivity y.
    + by apply idents_here.
    + by apply idents_here.
    + by apply idents_later, IH.
Qed.

#[export] Instance compareIDs_compares : Compares sv.compareIDs (map identOf) idents_lt.
Proof.
  intros a. induction a as [|x a IH]; intros [|y b]; cbn [sv.compareIDs map]; [right; by left|left; split; [done|constructor]|right; right; split; [done|constructor]|].
  assert (Hrest : identOf x = identOf y -> (sv.compareIDs a b = -1 /\ idents_lt (identOf x :: map identOf a) (identOf y :: map identOf b)) \/
    (sv.compareIDs a b = 0 /\ identOf x :: map identOf a = identOf y :: map identOf b) \/
    (sv.compareIDs a b = 1 /\ idents_lt (identOf y :: map identOf b) (identOf x :: map identOf a))).
  { intros ->. destruct (IH b) as [[-> H]|[[-> H]|[-> H]]]; [left|right; left|right; right]; (split; [done|]); [by apply idents_later|congruence|by apply idents_later]. }
  unfold identOf in Hrest |- *. destruct (sv.numericID x) eqn:Ex, (sv.numericID y) eqn:Ey; cbn [andb negb] in *.
  - rewrite compareNumericID_value by done. destruct (cmpUint_compares (value x) (value y)) as [[-> H]|[[-> H]|[-> H]]]; cbn [Z.eqb negb]; unfold id in H.
    + left. split; [done|]. by apply idents_here, ident_num.
    + apply Hrest. by rewrite H.
    + right; right. split; [done|]. by apply idents_here, ident_num.
  - left. split; [done|]. apply idents_here, ident_mixed.
  - right; right. split; [done|]. apply idents_here, ident_mixed.
  - unfold beq. case_bool_decide as E; cbn [negb]; [apply Hrest; by rewrite E|]. destruct (less x y) eqn:El.
    + left. split; [done|]. by apply idents_here, ident_alpha, less_lt.
    + right; right. split; [done|]. by apply idents_here, ident_alpha, less_total.
Qed.

(** ** Precedence *)

(** What precedence looks at: the three numbers, and the pre-release identifiers. *)
Definition rank (v : Version) : Z * Z * Z * list ident := (Major v, Minor v, Patch v, map identOf (Pre v)).

Inductive core_lt : Z * Z * Z -> Z * Z * Z -> Prop :=
| core_major a b c a' b' c' : a < a' -> core_lt (a, b, c) (a', b', c')
| core_minor a b c b' c' : b < b' -> core_lt (a, b, c) (a, b', c')
| core_patch a b c c' : c < c' -> core_lt (a, b, c) (a, b, c').

(** A release follows its pre-releases. *)
Inductive pre_lt : list ident -> list ident -> Prop :=
| pre_release k l : pre_lt (k :: l) []
| pre_idents k l k' l' : idents_lt (k :: l) (k' :: l') -> pre_lt (k :: l) (k' :: l').

Inductive rank_lt : Z * Z * Z * list ident -> Z * Z * Z * list ident -> Prop :=
| rank_core c l c' l' : core_lt c c' -> rank_lt (c, l) (c', l')
| rank_pre c l l' : pre_lt l l' -> rank_lt (c, l) (c, l').

Definition precedes (v w : Version) : Prop := rank_lt (rank v) (rank w).

#[export] Instance core_lt_order : StrictOrder core_lt.
Proof.
  split; [intros [[a b] c]; inversion 1; lia|]. intros x y z H1 H2.
  destruct H1; inversion H2; subst; first [apply core_major; lia|apply core_minor; lia|apply core_patch; lia].
Qed.

#[export] Instance pre_lt_order : StrictOrder pre_lt.
Proof.
  split; [intros l; inversion 1; subst; by eapply (irreflexivity idents_lt)|]. intros x y z H1 H2.
  destruct H1; inversion H2; subst; constructor. by etransitivity.
Qed.

#[export] Instance rank_lt_order : StrictOrder rank_lt.
Proof.
  split; [intros l; inversion 1; subst; [by eapply (irreflexivity core_lt)|by eapply (irreflexivity pre_lt)]|]. intros x y z H1 H2.
  destruct H1; inversion H2; subst; first [apply rank_core; (done || by etransitivity)|apply rank_pre; by etransitivity].
Qed.

#[export] Instance precedes_order : StrictOrder precedes.
Proof. split; [intros v; apply (irreflexivity rank_lt)|intros u v w; apply (transitivity (R := rank_lt))]. Qed.

#[export] Instance comparePre_compares : Compares sv.comparePre (map identOf) pre_lt.
Proof.
  intros [|x a] [|y b]; [right; by left|right; right; split; [done|constructor]|left; split; [done|constructor]|].
  change (sv.comparePre (x :: a) (y :: b)) with (sv.compareIDs (x :: a) (y :: b)).
  destruct (compareIDs_compares (x :: a) (y :: b)) as [[-> H]|[[-> H]|[-> H]]]; [left|right; left|right; right]; (split; [done|]); try done; by constructor.
Qed.

#[export] Instance Compare_compares : Compares sv.Compare rank rank_lt.
Proof.
  intros v w. unfold sv.Compare, rank.
  destruct (cmpUint_compares (Major v) (Major w)) as [[-> H]|[[-> H]|[-> H]]]; cbn [Z.eqb negb]; unfold id in H.
  { left. split; [done|]. by apply rank_core, core_major. }
  2: { right; right. split; [done|]. by apply rank_core, core_major. }
  rewrite H. clear H. destruct (cmpUint_compares (Minor v) (Minor w)) as [[-> H]|[[-> H]|[-> H]]]; cbn [Z.eqb negb]; unfold id in H.
  { left. split; [done|]. by apply rank_core, core_minor. }
  2: { right; right. split; [done|]. by apply rank_core, core_minor. }
  rewrite H. clear H. destruct (cmpUint_compares (Patch v) (Patch w)) as [[-> H]|[[-> H]|[-> H]]]; cbn [Z.eqb negb]; unfold id in H.
  { left. split; [done|]. by apply rank_core, core_patch. }
  2: { right; right. split; [done|]. by apply rank_core, core_patch. }
  rewrite H. clear H. destruct (comparePre_compares (Pre v) (Pre w)) as [[-> H]|[[-> H]|[-> H]]]; [left|right; left|right; right]; (split; [done|]).
  - by apply rank_pre.
  - by rewrite H.
  - by apply rank_pre.
Qed.

(** ** The comparators of constraints *)

Lemma Compare_lt v w : (sv.Compare v w <? 0) = true <-> precedes v w.
Proof. unfold precedes. destruct (Compare_compares v w) as [[E H]|[[E H]|[E H]]]; rewrite <- (compares_lt sv.Compare rank rank_lt), E; done. Qed.

Lemma Compare_gt v w : (0 <? sv.Compare v w) = true <-> precedes w v.
Proof. unfold precedes. destruct (Compare_compares v w) as [[E H]|[[E H]|[E H]]]; rewrite <- (compares_gt sv.Compare rank rank_lt), E; done. Qed.

Lemma Compare_le v w : (sv.Compare v w <=? 0) = true <-> ~ precedes w v.
Proof. rewrite <- Compare_gt. destruct (Z.leb_spec (sv.Compare v w) 0), (Z.ltb_spec 0 (sv.Compare v w)); split; try done; lia. Qed.

Lemma Compare_ge v w : (0 <=? sv.Compare v w) = true <-> ~ precedes v w.
Proof. rewrite <- Compare_lt. destruct (Z.leb_spec 0 (sv.Compare v w)), (Z.ltb_spec (sv.Compare v w) 0); split; try done; lia. Qed.

Lemma Compare_eq v w : (sv.Compare v w =? 0) = true <-> rank v = rank w.
Proof. rewrite Z.eqb_eq. apply (compares_eq sv.Compare rank rank_lt). Qed.

(** C37: [Compare] decides precedence.  Precedence (numbers first, a release after its
    pre-releases, numeric identifiers by value and before text, text by bytes, a longer
    list after its prefix) is a strict order, and [Compare] is -1 when the first version
    precedes, 1 when the second does, and 0 exactly when both have the same numbers and
    pre-release identifiers: build metadata never matters, numbers of any length and
    with any leading zeros compare by value. *)
Theorem Compare_precedence :
  StrictOrder precedes /\ forall v w,
    (sv.Compare v w = -1 <-> precedes v w) /\ (sv.Compare v w = 1 <-> precedes w v) /\
    (sv.Compare v w = 0 <-> rank v = rank w) /\ sv.Compare w v = - sv.Compare v w.
Proof.
  split; [apply precedes_order|]. intros v w. split; [apply (compares_lt sv.Compare rank rank_lt)|]. split; [apply (compares_gt sv.Compare rank rank_lt)|].
  split; [apply (compares_eq sv.Compare rank rank_lt)|].
  destruct (Compare_compares v w) as [[-> H]|[[-> H]|[-> H]]].
  - by apply (compares_gt sv.Compare rank rank_lt).
  - by apply (compares_eq sv.Compare rank rank_lt).
  - by apply (compares_lt sv.Compare rank rank_lt).
Qed.
