(* ===== verification/SemverParse.v ===== *)
(** * Printing and parsing versions

    [Parse] accepts exactly the printed forms of well-formed versions, with an optional
    leading v. *)

From stdpp Require Import base tactics numbers list.
From Stdlib Require Import ZArith Lia.
From S2P Require Import Prelude Semver SemverOrder.
Local Open Scope Z_scope.

(** ** Cutting and joining *)

Lemma cutByte_Some c s a b : cutByte c s = Some (a, b) <-> s = a ++ c :: b /\ c ∉ a.
Proof.
  revert a b. induction s as [|x s IH]; intros a b; cbn [cutByte].
  - split; [done|]. intros [E _]. by destruct a.
  - destruct (Z.eqb_spec x c) as [->|Hne].
    + split; [intros [= <- <-]; split; [done|apply not_elem_of_nil]|]. intros [E Hn]. destruct a as [|y a]; [by injection E as ->|].
      injection E as -> _. exfalso. apply Hn. by left.
    + split.
      * destruct (cutByte c s) as [[a' b']|]; [|done]. intros [= <- <-]. destruct (proj1 (IH a' b') eq_refl) as [-> Hn]. split; [done|].
        cbn. rewrite not_elem_of_cons. split; [congruence|done].
      * intros [E Hn]. destruct a as [|y a]; [injection E as -> _; done|]. injection E as -> E. rewrite not_elem_of_cons in Hn.
        rewrite (proj2 (IH a b)); [done|tauto].
Qed.

Lemma cutByte_None c s : cutByte c s = None <-> c ∉ s.
Proof.
  induction s as [|x s IH]; cbn [cutByte]; [split; [intros _; apply not_elem_of_nil|done]|]. rewrite not_elem_of_cons.
  destruct (Z.eqb_spec x c) as [->|Hne]; [split; [done|tauto]|]. rewrite <- IH. destruct (cutByte c s) as [[]|]; cbn; split; try done. by intros [_ ?].
Qed.

Lemma splitByte_nonempty c s : splitByte c s <> [].
Proof. destruct s as [|x s]; [done|]. cbn. case_match; [done|]. by case_match. Qed.

Lemma join_cons c x ids : ids <> [] -> join c (x :: ids) = x ++ c :: join c ids.
Proof. by destruct ids. Qed.

Lemma join_split c s : join c (splitByte c s) = s.
Proof.
  induction s as [|x s IH]; [done|]. cbn [splitByte]. pose proof (splitByte_nonempty c s) as Hne. destruct (Z.eqb_spec x c) as [->|Hx].
  - rewrite join_cons by done. by rewrite IH.
  - destruct (splitByte c s) as [|p ps]; [done|]. destruct ps as [|q ps]; [cbn in *; by rewrite IH|]. rewrite join_cons in * by done. cbn [app]. by rewrite IH.
Qed.

Lemma split_free c s : Forall (fun p => c ∉ p) (splitByte c s).
Proof.
  induction s as [|x s IH]; cbn [splitByte]; [constructor; [apply not_elem_of_nil|done]|]. destruct (Z.eqb_spec x c) as [->|Hx].
  - constructor; [apply not_elem_of_nil|done].
  - destruct (splitByte c s) as [|p ps]; [constructor; [by rewrite not_elem_of_cons; split; [congruence|apply not_elem_of_nil]|done]|].
    apply Forall_cons in IH as [H1 H2]. constructor; [|done]. rewrite not_elem_of_cons. split; [congruence|done].
Qed.

Lemma split_append c a s : c ∉ a -> splitByte c (a ++ c :: s) = a :: splitByte c s.
Proof.
  induction a as [|x a IH]; intros Hn; cbn [app splitByte]; [by rewrite Z.eqb_refl|]. rewrite not_elem_of_cons in Hn.
  rewrite (proj2 (Z.eqb_neq x c)) by (intros ->; tauto). by rewrite IH by tauto.
Qed.

Lemma split_single c a : c ∉ a -> splitByte c a = [a].
Proof.
  induction a as [|x a IH]; intros Hn; cbn [splitByte]; [done|]. rewrite not_elem_of_cons in Hn.
  rewrite (proj2 (Z.eqb_neq x c)) by (intros ->; tauto). by rewrite IH by tauto.
Qed.

Lemma split_join c ids : ids <> [] -> Forall (fun p => c ∉ p) ids -> splitByte c (join c ids) = ids.
Proof.
  induction ids as [|x ids IH]; intros Hne H; [done|]. apply Forall_cons in H as [Hx H]. destruct ids as [|y ids]; [by apply split_single|].
  rewrite join_cons by done. rewrite split_append by done. by rewrite IH.
Qed.

(** ** Numbers *)

Definition number_ok (x : Z) : Prop := 0 <= x < 2 ^ 64.

Lemma value_app s t : forallb digit s = true -> forallb digit t = true -> value (s ++ t) = value s * 10 ^ Z.of_nat (length t) + value t.
Proof.
  induction s as [|c s IH]; intros Hs Ht; [cbn [app]; change (value []) with 0; lia|]. cbn [app]. destruct (value_cons c s Hs) as [-> _].
  destruct (value_cons c (s ++ t)) as [-> _]; [cbn [app forallb] in *; apply andb_prop in Hs as [-> Hs]; by rewrite forallb_app, Hs|].
  cbn [forallb] in Hs. apply andb_prop in Hs as [_ Hs]. rewrite IH, length_app, Nat2Z.inj_add, Z.pow_add_r by (done || lia). lia.
Qed.

(** The digits of a number before [acc]. *)
Lemma digitsOf_spec fuel x acc : 0 <= x < 10 ^ Z.of_nat fuel -> (0 < fuel)%nat -> exists s, digitsOf fuel x acc = s ++ acc /\
  forallb digit s = true /\ s <> [] /\ canonical s = true /\ value s = x.
Proof.
  revert x acc. induction fuel as [|fuel IH]; intros x acc Hx Hf; [lia|]. cbn [digitsOf].
  pose proof (Z.mod_pos_bound x 10 ltac:(lia)) as Hm. pose proof (Z.div_mod x 10 ltac:(lia)) as Hd. pose proof (Z.div_pos x 10 ltac:(lia) ltac:(lia)) as Hq.
  assert (Hdig : digit (48 + x mod 10) = true) by (unfold digit; rewrite andb_true_iff, !Z.leb_le; lia).
  destruct (Z.eqb_spec (x / 10) 0) as [E|E].
  - exists [48 + x mod 10]. split; [done|]. cbn [forallb]. rewrite Hdig. split; [done|]. split; [done|]. split; [done|].
    unfold value. cbn [decimal]. rewrite Hdig. cbn [default]. unfold default, from_option, id. lia.
  - rewrite Nat2Z.inj_succ, Z.pow_succ_r in Hx by lia. destruct fuel as [|fuel]; [cbn in Hx; lia|].
    destruct (IH (x / 10) ((48 + x mod 10) :: acc)) as (s & -> & H1 & H2 & H3 & H4); [split; [lia|apply Z.div_lt_upper_bound; lia]|lia|].
    exists (s ++ [48 + x mod 10]). split; [by rewrite <- app_assoc|]. split; [rewrite forallb_app; cbn; by rewrite H1, Hdig|]. split; [by destruct s|]. split.
    + destruct s as [|a [|b s]]; [done| |done]. cbn. apply negb_true_iff, Z.eqb_neq. intros ->. unfold value in H4. cbn in H4. lia.
    + rewrite value_app; [|done|cbn [forallb]; by rewrite Hdig]. rewrite H4. unfold value at 1. cbn [decimal]. rewrite Hdig. cbn [length]. unfold default, from_option, id. change (Z.of_nat 1) with 1. lia.
Qed.

Lemma FormatUint_spec x : number_ok x ->
  forallb digit (FormatUint x) = true /\ FormatUint x <> [] /\ canonical (FormatUint x) = true /\ value (FormatUint x) = x.
Proof.
  intros Hx. unfold number_ok in Hx. destruct (digitsOf_spec 20 x []) as (s & E & H); [change (Z.of_nat 20) with 20; lia|lia|].
  unfold FormatUint. rewrite E, app_nil_r. done.
Qed.

(** A canonical number is determined by its value. *)
Lemma value_inj a b : forallb digit a = true -> forallb digit b = true -> a <> [] -> b <> [] -> canonical a = true -> canonical b = true ->
  value a = value b -> a = b.
Proof.
  intros Ha Hb Hna Hnb Hca Hcb E. destruct (lt_eq_lt_dec (length a) (length b)) as [[Hl|Hl]|Hl].
  - pose proof (value_longer a b Ha Hb Hcb Hna Hl). lia.
  - destruct (decide (a = b)) as [|Hne]; [done|]. destruct (less a b) eqn:El.
    + apply less_lt in El. pose proof (value_lt a b Ha Hb Hl El). lia.
    + pose proof (value_lt b a Hb Ha (eq_sym Hl) (less_total a b Hne El)). lia.
  - pose proof (value_longer b a Hb Ha Hca Hnb Hl). lia.
Qed.

(** Numeric identifiers are read back, and are written in one way only. *)
Lemma parseNumeric_spec s x : sv.parseNumeric s = Ok x <-> number_ok x /\ s = FormatUint x.
Proof.
  assert (Hgood : forall s, forallb digit s = true -> s <> [] -> canonical s = true -> number_ok (value s) -> sv.parseNumeric s = Ok (value s)).
  { intros t Hd Hne Hc Hr. destruct t as [|c t]; [done|]. unfold sv.parseNumeric, ParseUint.
    assert ((1 <? Z.of_nat (length (c :: t))) && (c =? 48) = false) as ->.
    { destruct t as [|d t]; [done|]. cbn [canonical] in Hc. apply negb_true_iff in Hc. by rewrite Hc, andb_false_r. }
    destruct (decimal_some 0 (c :: t) Hd) as [v Hv]. unfold value in Hr |- *. rewrite Hv in Hr |- *. unfold default, from_option, id in *.
    unfold number_ok in Hr. by rewrite (proj2 (Z.ltb_lt v _)) by lia. }
  split.
  - intros H. destruct s as [|c t]; [done|]. unfold sv.parseNumeric, ParseUint in H.
    destruct ((1 <? Z.of_nat (length (c :: t))) && (c =? 48)) eqn:Ez; [done|]. destruct (decimal 0 (c :: t)) as [v|] eqn:Ev; [|done].
    destruct (Z.ltb_spec v (2 ^ 64)) as [Hlt|]; [|done]. injection H as <-. pose proof (decimal_digits _ _ _ Ev) as Hd.
    assert (Hval : value (c :: t) = v) by (unfold value; by rewrite Ev). pose proof (value_range _ Hd) as Hr. rewrite Hval in Hr.
    assert (Hv : number_ok v) by (split; [lia|done]). split; [done|]. destruct (FormatUint_spec v Hv) as (H1 & H2 & H3 & H4).
    apply value_inj; try done; [|congruence]. destruct t as [|d t]; [done|]. cbn [canonical]. apply andb_false_iff in Ez as [Ez|Ez]; [apply Z.ltb_ge in Ez; cbn [length] in Ez; lia|].
    by rewrite Ez.
  - intros [Hx ->]. destruct (FormatUint_spec x Hx) as (H1 & H2 & H3 & H4). rewrite <- H4 at 2. apply Hgood; try done. by rewrite H4.
Qed.

(** ** Identifiers *)

(** Letters, digits and hyphens, and in a pre-release no leading zero of a number. *)
Definition ident_ok (prerelease : bool) (s : bytes) : Prop :=
  s <> [] /\ forallb sv.identByte s = true /\ (prerelease = true -> forallb digit s = true -> canonical s = true).

Lemma checkIdentifier_spec pr s : sv.checkIdentifier pr s = Ok tt <-> ident_ok pr s.
Proof.
  unfold sv.checkIdentifier, ident_ok. destruct s as [|c s]; [split; [done|by intros [? _]]|].
  destruct (forallb sv.identByte (c :: s)); cbn [negb]; [|split; [done|by intros (_ & ? & _)]].
  destruct pr; cbn [andb]; [|done]. destruct (forallb digit (c :: s)); cbn [andb]; [|done].
  destruct s as [|d s]; cbn [length canonical].
  - rewrite (proj2 (Z.ltb_ge _ _)) by lia. cbn [andb]. done.
  - rewrite (proj2 (Z.ltb_lt _ _)) by lia. cbn [andb]. destruct (c =? 48); cbn [negb]; [|done].
    split; [done|]. intros (_ & _ & H). by specialize (H eq_refl eq_refl).
Qed.

Lemma checkIdentifiers_spec pr ids : sv.checkIdentifiers pr ids = Ok tt <-> Forall (ident_ok pr) ids.
Proof.
  induction ids as [|s ids IH]; cbn [sv.checkIdentifiers]; [done|]. rewrite Forall_cons, <- checkIdentifier_spec, <- IH.
  destruct (sv.checkIdentifier pr s) as [[]| |]; cbn [andThen]; [tauto|split; [done|by intros [? _]]|split; [done|by intros [? _]]].
Qed.

Lemma ident_free pr c s : ident_ok pr s -> sv.identByte c = false -> c ∉ s.
Proof.
  intros (_ & H & _) Hc Hin. rewrite forallb_forall in H. apply list_elem_of_In, H in Hin. congruence.
Qed.

Lemma parseIdentifiers_spec pr s ids : sv.parseIdentifiers s pr = Ok ids <-> ids <> [] /\ Forall (ident_ok pr) ids /\ s = join 46 ids.
Proof.
  split.
  - intros H. unfold sv.parseIdentifiers in H. destruct s as [|c s]; [done|]. cbn zeta in H.
    destruct (sv.checkIdentifiers pr (splitByte 46 (c :: s))) as [[]| |] eqn:E; try done. assert (splitByte 46 (c :: s) = ids) as <- by (cbn [andThen] in H; congruence).
    split; [apply splitByte_nonempty|]. split; [by apply checkIdentifiers_spec|]. by rewrite join_split.
  - intros (Hne & Hids & ->). assert (Hfree : Forall (fun p => 46 ∉ p) ids) by (eapply Forall_impl; [exact Hids|]; intros x Hx; by eapply ident_free).
    pose proof (split_join 46 ids Hne Hfree) as Hs. unfold sv.parseIdentifiers.
    destruct (join 46 ids) as [|c t] eqn:Ej.
    + exfalso. destruct ids as [|x ids]; [done|]. apply Forall_cons in Hids as [(Hx & _) _]. destruct ids; [by cbn in Ej; subst|]. rewrite join_cons in Ej by done. by destruct x.
    + rewrite Hs. by rewrite (proj2 (checkIdentifiers_spec pr ids) Hids).
Qed.

(** A separator and the identifiers after it, or nothing. *)
Definition suffix (c : Z) (ids : list bytes) : bytes := match ids with [] => [] | _ => c :: join 46 ids end.

Lemma parseSuffix_spec c pr w s ids before :
  sv.parseSuffix c pr w s = Ok (ids, before) <-> (Forall (ident_ok pr) ids /\ (c ∉ before) /\ s = before ++ suffix c ids).
Proof.
  unfold sv.parseSuffix. destruct (cutByte c s) as [[a b]|] eqn:E.
  - apply cutByte_Some in E as [-> Ha]. split.
    + intros H. destruct (sv.parseIdentifiers b pr) as [ids'|e|] eqn:Ei; try done. injection H as -> ->.
      apply parseIdentifiers_spec in Ei as (Hne & Hids & ->). split; [done|]. split; [done|]. by destruct ids.
    + intros (Hids & Hb & E). assert (cutByte c (before ++ suffix c ids) = Some (a, b)) as Ec by (rewrite <- E; by apply cutByte_Some).
      destruct ids as [|x ids]; cbn [suffix] in Ec.
      * rewrite app_nil_r in Ec. rewrite (proj2 (cutByte_None c before)) in Ec by done. done.
      * rewrite (proj2 (cutByte_Some c _ before (join 46 (x :: ids)))) in Ec by done. injection Ec as <- <-.
        rewrite (proj2 (parseIdentifiers_spec pr _ (x :: ids))); done.
  - apply cutByte_None in E. split.
    + intros [= <- <-]. split; [constructor|]. split; [done|]. cbn. by rewrite app_nil_r.
    + intros (_ & Hb & ->). destruct ids as [|x ids]; [cbn; by rewrite app_nil_r|]. exfalso. apply E. cbn [suffix]. apply elem_of_app. right. by left.
Qed.

(** ** Versions *)

Definition version_ok (v : Version) : Prop :=
  number_ok (Major v) /\ number_ok (Minor v) /\ number_ok (Patch v) /\ Forall (ident_ok true) (Pre v) /\ Forall (ident_ok false) (Build v).

Definition core (v : Version) : bytes := FormatUint (Major v) ++ 46 :: FormatUint (Minor v) ++ 46 :: FormatUint (Patch v).

Lemma String_parts v : sv.String_ v = (core v ++ suffix 45 (Pre v)) ++ suffix 43 (Build v).
Proof. unfold sv.String_, core. cbn [app]. by rewrite <- !app_assoc; cbn [app]; rewrite <- !app_assoc. Qed.

Lemma format_free c x : number_ok x -> digit c = false -> c ∉ FormatUint x.
Proof.
  intros Hx Hc Hin. destruct (FormatUint_spec x Hx) as (H & _). rewrite forallb_forall in H. apply list_elem_of_In, H in Hin. congruence.
Qed.

Lemma core_free c v : version_ok v -> digit c = false -> c <> 46 -> c ∉ core v.
Proof.
  intros (H1 & H2 & H3 & _) Hc Hne. unfold core. rewrite elem_of_app, elem_of_cons, elem_of_app, elem_of_cons.
  intros [H|[H|[H|[H|H]]]]; [by eapply format_free in H|by apply Hne|by eapply format_free in H|by apply Hne|by eapply format_free in H].
Qed.

Lemma core_split v : version_ok v -> splitByte 46 (core v) = [FormatUint (Major v); FormatUint (Minor v); FormatUint (Patch v)].
Proof.
  intros (H1 & H2 & H3 & _). unfold core. rewrite split_append by by apply format_free. rewrite split_append by by apply format_free.
  by rewrite split_single by by apply format_free.
Qed.

Lemma join_free c ids : Forall (fun p => c ∉ p) ids -> c <> 46 -> c ∉ join 46 ids.
Proof.
  intros H Hc. induction H as [|x ids Hx H IH]; [apply not_elem_of_nil|]. destruct ids as [|y ids]; [done|]. rewrite join_cons by done.
  rewrite elem_of_app, elem_of_cons. tauto.
Qed.

Lemma String_first v : version_ok v -> exists c t, sv.String_ v = c :: t /\ digit c = true.
Proof.
  intros (H1 & _). destruct (FormatUint_spec _ H1) as (Hd & Hne & _). rewrite String_parts. unfold core.
  destruct (FormatUint (Major v)) as [|c t]; [done|]. cbn [app forallb] in *. apply andb_prop in Hd as [Hc _]. by eexists _, _.
Qed.

(** The text without its v. *)
Lemma parse_body s v : sv.Parse s = Ok v <-> version_ok v /\ sv.stripV s = sv.String_ v.
Proof.
  unfold sv.Parse. set (t := sv.stripV s). split.
  - intros H. destruct (sv.parseSuffix 43 false errBuild t) as [[bld s1]| |] eqn:E1; try done. cbn [andThen] in H.
    apply parseSuffix_spec in E1 as (Hb & Hn1 & Et). destruct (sv.parseSuffix 45 true errPreRelease s1) as [[pr s2]| |] eqn:E2; try done.
    cbn [andThen] in H. apply parseSuffix_spec in E2 as (Hp & Hn2 & E2).
    destruct (splitByte 46 s2) as [|a [|b [|c [|]]]] eqn:E3; try done. pose proof (join_split 46 s2) as Ej. rewrite E3 in Ej.
    destruct (sv.parseNumeric a) as [x| |] eqn:Ea; try done. destruct (sv.parseNumeric b) as [y| |] eqn:Eb; try done.
    destruct (sv.parseNumeric c) as [z| |] eqn:Ec; try done. cbn in H. injection H as <-.
    apply parseNumeric_spec in Ea as [Hx ->], Eb as [Hy ->], Ec as [Hz ->]. split; [done|]. rewrite String_parts. cbn [Pre Build]. rewrite Et, E2. by rewrite <- Ej.
  - intros [Hv E]. pose proof Hv as (H1 & H2 & H3 & H4 & H5). rewrite String_parts in E.
    assert (Hn : 43 ∉ core v ++ suffix 45 (Pre v)).
    { rewrite elem_of_app. intros [Hc|Hc]; [by apply (core_free 43 v) in Hc|]. unfold suffix in Hc. destruct (Pre v) as [|x l] eqn:Ep; [by apply elem_of_nil in Hc|].
      apply elem_of_cons in Hc as [|Hc]; [done|]. revert Hc. apply join_free; [|done]. eapply Forall_impl; [exact H4|]. intros p Hp. by eapply ident_free. }
    rewrite (proj2 (parseSuffix_spec 43 false errBuild t (Build v) (core v ++ suffix 45 (Pre v)))) by done. cbn [andThen].
    rewrite (proj2 (parseSuffix_spec 45 true errPreRelease _ (Pre v) (core v))) by (split; [done|split; [by apply core_free|done]]). cbn [andThen].
    rewrite core_split by done. rewrite (proj2 (parseNumeric_spec _ (Major v)) (conj H1 eq_refl)), (proj2 (parseNumeric_spec _ (Minor v)) (conj H2 eq_refl)),
      (proj2 (parseNumeric_spec _ (Patch v)) (conj H3 eq_refl)). cbn [wrapErr andThen]. by destruct v.
Qed.

(** C38: parsing and printing are inverse.  [Parse] returns a version exactly when the
    text is the printed form of a well-formed version (64-bit numbers, identifiers of
    letters, digits and hyphens, no number of a pre-release with a leading zero), with or
    without one leading v or V; so nothing else is accepted, no text has two readings,
    and printing what was parsed gives the text back. *)
Theorem Parse_String s v :
  sv.Parse s = Ok v <-> version_ok v /\ (s = sv.String_ v \/ s = 118 :: sv.String_ v \/ s = 86 :: sv.String_ v).
Proof.
  rewrite parse_body. split; intros [Hv H]; (split; [done|]); destruct (String_first v Hv) as (c & t & E & Hc).
  - unfold sv.stripV in H. destruct s as [|x s]; [by left|]. destruct (Z.eqb_spec x 118) as [->|]; [right; left; cbn in H; by rewrite H|].
    destruct (Z.eqb_spec x 86) as [->|]; [right; right; cbn in H; by rewrite H|]. by left.
  - destruct H as [->|[->| ->]]; [|done|done]. rewrite E. unfold sv.stripV.
    destruct (Z.eqb_spec c 118) as [->|]; [done|]. destruct (Z.eqb_spec c 86) as [->|]; [done|]. done.
Qed.
