(* ===== verification/SemverRange.v ===== *)
(** * The meaning of range constraints

    Each form of a range (exact, x-range, comparators, caret, tilde, hyphen) as a
    condition on the numbers and the precedence of a version, and the theorem that the
    comparators a range expands to test exactly that condition. *)

From Stdlib Require Import Ascii String.
From stdpp Require Import base tactics numbers list.
From Stdlib Require Import ZArith Lia.
From S2P Require Import Prelude Semver SemverOrder SemverParse.
Local Open Scope Z_scope.
Local Open Scope list_scope.
Local Open Scope go_scope.

(** ** What a range says *)

Inductive range : Set :=
| Single (o : sv.rangeOp) (p : sv.partial)
| Hyphen (a b : sv.partial).

(** The first [k] numbers. *)
Definition agrees (k : Z) (p : sv.partial) (v : Version) : Prop :=
  (1 <= k -> Major v = sv.major p) /\ (2 <= k -> Minor v = sv.minor p) /\ (3 <= k -> Patch v = sv.patch p).

(** The first [k] numbers come before those of [p], in order. *)
Definition before (k : Z) (p : sv.partial) (v : Version) : Prop :=
  (1 <= k /\ Major v < sv.major p) \/
  (2 <= k /\ Major v = sv.major p /\ Minor v < sv.minor p) \/
  (3 <= k /\ Major v = sv.major p /\ Minor v = sv.minor p /\ Patch v < sv.patch p).

(** The least release above all versions that agree with [p] on [k] numbers. *)
Definition next (k : Z) (p : sv.partial) : Version :=
  if k =? 1 then sv.ver (sv.major p + 1) 0 0
  else if k =? 2 then sv.ver (sv.major p) (sv.minor p + 1) 0
  else sv.ver (sv.major p) (sv.minor p) (sv.patch p + 1).

(** The numbers a caret keeps: up to the first that is not zero. *)
Definition caretDepth (p : sv.partial) : Z :=
  if sv.n p =? 0 then 0
  else if negb (sv.major p =? 0) || (sv.n p =? 1) then 1
  else if negb (sv.minor p =? 0) || (sv.n p =? 2) then 2
  else 3.

Definition tildeDepth (p : sv.partial) : Z := if sv.n p =? 0 then 0 else if 2 <=? sv.n p then 2 else 1.

Definition atLeast (w v : Version) : Prop := ~ precedes v w.

(** At most [p], where the numbers that [p] leaves out are free. *)
Definition upTo (p : sv.partial) (v : Version) : Prop :=
  if sv.n p =? 3 then ~ precedes (sv.version p) v else before (sv.n p) p v \/ agrees (sv.n p) p v.

Definition in_range (r : range) (v : Version) : Prop :=
  match r with
  | Single o p =>
      match o with
      | sv.opCaret => agrees (caretDepth p) p v /\ atLeast (sv.version p) v
      | sv.opTilde => agrees (tildeDepth p) p v /\ atLeast (sv.version p) v
      | sv.opGe => atLeast (sv.version p) v
      | sv.opGt =>
          if sv.n p =? 0 then False
          else if sv.n p =? 3 then precedes (sv.version p) v
          else atLeast (next (sv.n p) p) v
      | sv.opLt => if sv.n p =? 3 then precedes v (sv.version p) else before 3 p v
      | sv.opLe => if sv.n p =? 0 then atLeast (sv.version p) v else upTo p v
      | sv.opNone | sv.opEq =>
          if sv.n p =? 3 then rank v = rank (sv.version p) else agrees (sv.n p) p v /\ atLeast (sv.version p) v
      end
  | Hyphen a b => atLeast (sv.version a) v /\ upTo b v
  end.

(** The range names a pre-release with the numbers of [v]. *)
Definition names (p : sv.partial) (v : Version) : Prop := sv.pre p <> [] /\ agrees 3 p v.

Definition admits (r : range) (v : Version) : Prop :=
  match r with Single _ p => names p v | Hyphen a b => names a v \/ names b v end.

(** A version meets a conjunction of ranges when it is in each, and a pre-release only
    when one of them names a pre-release of its numbers. *)
Definition meets (rs : list range) (v : Version) : Prop :=
  Forall (fun r => in_range r v) rs /\ (Pre v = [] \/ Exists (fun r => admits r v) rs).

(** The incomplete versions the parser returns. *)
Definition partial_ok (p : sv.partial) : Prop :=
  0 <= sv.n p <= 3 /\ number_ok (sv.major p) /\ number_ok (sv.minor p) /\ number_ok (sv.patch p) /\
  (sv.n p < 1 -> sv.major p = 0) /\ (sv.n p < 2 -> sv.minor p = 0) /\ (sv.n p < 3 -> sv.patch p = 0) /\
  (sv.pre p <> [] -> sv.n p = 3).

(** The number the upper bound of the range increments, if any, is not the largest. *)
Definition representable (r : range) : Prop :=
  match r with
  | Single o p => sv.n p = 0 \/ sv.successorComponent o p <> Some sv.maxComponent
  | Hyphen _ b => sv.n b = 0 \/ sv.successorComponent sv.opNone b <> Some sv.maxComponent
  end.

(** ** The comparators *)

Definition tests (cs : list sv.comparator) (v : Version) : Prop := Forall (fun c => sv.test c v = true) cs.
Definition allows (cs : list sv.comparator) (v : Version) : Prop :=
  Exists (fun c => Pre (sv.bound c) <> [] /\ sv.sameCore v (sv.bound c) = true) cs.

Lemma hasPre_spec v : sv.hasPre v = true <-> Pre v <> [].
Proof. unfold sv.hasPre. by destruct (Pre v). Qed.

Lemma checkGroup_spec cs v : sv.checkGroup cs v = true <-> tests cs v /\ (Pre v = [] \/ allows cs v).
Proof.
  unfold sv.checkGroup, tests, allows. rewrite andb_true_iff, orb_true_iff, negb_true_iff, forallb_forall, existsb_exists, Forall_forall, Exists_exists.
  assert (sv.hasPre v = false <-> Pre v = []) as -> by (unfold sv.hasPre; by destruct (Pre v)).
  assert ((exists c, In c cs /\ sv.hasPre (sv.bound c) && sv.sameCore v (sv.bound c) = true) <->
    exists c, c ∈ cs /\ Pre (sv.bound c) <> [] /\ sv.sameCore v (sv.bound c) = true) as ->.
  { split; intros (c & H1 & H2); exists c; rewrite list_elem_of_In in *; rewrite andb_true_iff, hasPre_spec in *; done. }
  assert ((forall c, In c cs -> sv.test c v = true) <-> forall c, c ∈ cs -> sv.test c v = true) as ->; [|done].
  split; intros H c Hc; apply H; by apply list_elem_of_In.
Qed.

Definition core3 (v : Version) : Z * Z * Z := (Major v, Minor v, Patch v).

Lemma sameCore_spec v w : sv.sameCore v w = true <-> core3 v = core3 w.
Proof. unfold sv.sameCore, core3. rewrite !andb_true_iff, !Z.eqb_eq. split; [intros [[-> ->] ->]; done|by intros [= -> -> ->]]. Qed.

Lemma core_lt_spec a b c a' b' c' : core_lt (a, b, c) (a', b', c') <-> a < a' \/ (a = a' /\ (b < b' \/ (b = b' /\ c < c'))).
Proof.
  split; [inversion 1; subst; lia|]. intros [H|[-> [H|[-> H]]]]; [by apply core_major|by apply core_minor|by apply core_patch].
Qed.

Lemma identOf_nonneg s x : identOf s = Num x -> 0 <= x.
Proof.
  unfold identOf. destruct (sv.numericID s) eqn:E; [|done]. intros [= <-]. apply value_range. unfold sv.numericID in E. by destruct s.
Qed.

(** A generated upper bound excludes a release and all its pre-releases. *)
Lemma test_upper u v : sv.test (sv.exclusiveUpper u) v = true <-> core_lt (core3 v) (core3 u).
Proof.
  unfold sv.test. cbn [sv.op sv.bound sv.exclusiveUpper]. rewrite Compare_lt. unfold precedes, rank. cbn [Major Minor Patch Pre map].
  change (identOf [48]) with (Num 0). split; [|intros H; by apply rank_core]. inversion 1 as [? ? ? ? Hc|? ? ? Hp]; subst; [done|]. exfalso.
  destruct (Pre v) as [|s l]; inversion Hp as [|? ? ? ? Hi]; subst. inversion Hi as [|? ? ? ? Hk|? ? ? Hl]; subst; [|inversion Hl].
  destruct (identOf s) as [x|t] eqn:E; inversion Hk; subst. apply identOf_nonneg in E. lia.
Qed.

Lemma test_ge w v : sv.test {| sv.op := sv.opGe; sv.bound := w |} v = true <-> atLeast w v.
Proof. apply Compare_ge. Qed.

Lemma atLeast_core w v : atLeast w v -> ~ core_lt (core3 v) (core3 w).
Proof. intros H Hc. apply H. by apply rank_core. Qed.

Lemma succ64_small x : number_ok x -> x <> sv.maxComponent -> sv.succ64 x = x + 1.
Proof. intros H Hne. unfold number_ok, sv.maxComponent in *. apply to_u64_small. lia. Qed.

Section Expand.
Context (v : Version) (Hv : version_ok v).

Lemma core_nonneg : 0 <= Major v /\ 0 <= Minor v /\ 0 <= Patch v.
Proof. destruct Hv as (H1 & H2 & H3 & _). unfold number_ok in *. lia. Qed.

(** Below the release after a prefix: before it or agreeing with it. *)
Lemma below_next k p : 1 <= k <= 3 -> core_lt (core3 v) (core3 (next k p)) <-> before k p v \/ agrees k p v.
Proof.
  intros Hk. pose proof core_nonneg. unfold core3, next, before, agrees.
  assert (k = 1 \/ k = 2 \/ k = 3) as [->|[->| ->]] by lia; cbn [Z.eqb Pos.eqb sv.ver Major Minor Patch]; rewrite core_lt_spec; split; lia.
Qed.

Lemma before_core k p : k <= 3 -> before k p v -> core_lt (core3 v) (core3 (sv.version p)).
Proof. intros Hk. unfold before, core3. cbn [sv.version Major Minor Patch]. rewrite core_lt_spec. lia. Qed.

(** A lower bound and the generated upper bound keep the first [k] numbers. *)
Lemma window k p u : 1 <= k <= 3 -> core3 u = core3 (next k p) ->
  tests [{| sv.op := sv.opGe; sv.bound := sv.version p |}; sv.exclusiveUpper u] v <-> agrees k p v /\ atLeast (sv.version p) v.
Proof.
  intros Hk Hu. unfold tests. rewrite !Forall_cons, Forall_nil, test_ge, test_upper, Hu, below_next by done. split.
  - intros (Ha & [Hb|Hb] & _); [|done]. exfalso. apply (atLeast_core _ _ Ha). apply (before_core k); [lia|done].
  - intros [H1 H2]. split; [done|]. split; [by right|done].
Qed.

(** The pre-releases that one comparator admits. *)
Lemma bound_version p : Pre (sv.version p) <> [] /\ sv.sameCore v (sv.version p) = true <-> names p v.
Proof.
  unfold names. rewrite sameCore_spec. unfold core3, agrees. cbn [sv.version Pre Major Minor Patch].
  split; intros [H1 H2]; (split; [done|]); [injection H2 as -> -> ->; lia|]. destruct H2 as (-> & -> & ->); done || lia.
Qed.

Lemma bound_upper u : sv.test (sv.exclusiveUpper u) v = true ->
  ~ (Pre (sv.bound (sv.exclusiveUpper u)) <> [] /\ sv.sameCore v (sv.bound (sv.exclusiveUpper u)) = true).
Proof.
  rewrite test_upper, sameCore_spec. intros H [_ E]. cbn [sv.exclusiveUpper sv.bound] in E. unfold core3 in *. cbn [Major Minor Patch] in E. rewrite E in H.
  by apply (irreflexivity core_lt) in H.
Qed.

(** What a list of comparators tests, and which pre-releases it admits. *)
Definition implements (cs : list sv.comparator) (P Q : Prop) : Prop :=
  (tests cs v <-> P) /\ (tests cs v -> (allows cs v <-> Q)).

Lemma implements_nil : implements [] True False.
Proof. split; [split; [done|by constructor]|]. intros _. unfold allows. by rewrite Exists_nil. Qed.

Lemma implements_cons c cs P Q P' Q' :
  (sv.test c v = true <-> P) -> (sv.test c v = true -> (Pre (sv.bound c) <> [] /\ sv.sameCore v (sv.bound c) = true <-> Q)) ->
  implements cs P' Q' -> implements (c :: cs) (P /\ P') (Q \/ Q').
Proof.
  unfold implements, tests, allows. intros H1 H2 [H3 H4]. rewrite Forall_cons, Exists_cons, H1, H3. split; [done|].
  intros [Hp Hp']. by rewrite H2, H4 by (by rewrite ?H1, ?H3).
Qed.

Lemma implements_iff cs P Q P' Q' : implements cs P Q -> (P <-> P') -> (P -> (Q <-> Q')) -> implements cs P' Q'.
Proof. intros [H1 H2] HP HQ. split; [by rewrite H1|]. intros H. rewrite H2 by done. apply HQ. by apply H1. Qed.

#[global] Instance implements_proper cs : Proper (iff ==> iff ==> iff) (implements cs).
Proof. intros P P' HP Q Q' HQ. unfold implements. by rewrite HP, HQ. Qed.

Lemma implements_one c P Q : (sv.test c v = true <-> P) -> (sv.test c v = true -> (Pre (sv.bound c) <> [] /\ sv.sameCore v (sv.bound c) = true <-> Q)) ->
  implements [c] P Q.
Proof. intros H1 H2. eapply implements_iff; [by eapply implements_cons; [..|apply implements_nil]|tauto|tauto]. Qed.

Lemma implements_app cs cs' P Q P' Q' : implements cs P Q -> implements cs' P' Q' -> implements (cs ++ cs') (P /\ P') (Q \/ Q').
Proof.
  unfold implements, tests, allows. intros [H1 H2] [H3 H4]. rewrite Forall_app, Exists_app, H1, H3. split; [done|].
  intros [Hp Hp']. by rewrite H2, H4 by (by rewrite ?H1, ?H3).
Qed.

Lemma implements_upper u P : (core_lt (core3 v) (core3 u) <-> P) -> implements [sv.exclusiveUpper u] P False.
Proof. intros H. apply implements_one; [by rewrite test_upper|]. intros Ht. split; [by apply bound_upper|done]. Qed.

Lemma implements_ge p : implements [{| sv.op := sv.opGe; sv.bound := sv.version p |}] (atLeast (sv.version p) v) (names p v).
Proof. apply implements_one; [apply test_ge|]. intros _. apply bound_version. Qed.

Lemma implements_window k p u : 1 <= k <= 3 -> core3 u = core3 (next k p) ->
  implements [{| sv.op := sv.opGe; sv.bound := sv.version p |}; sv.exclusiveUpper u] (agrees k p v /\ atLeast (sv.version p) v) (names p v).
Proof.
  intros Hk Hu. split; [by apply window|]. unfold tests, allows. rewrite !Forall_cons, !Exists_cons, Exists_nil. intros (_ & H2 & _).
  cbn [sv.bound]. rewrite bound_version. pose proof (bound_upper _ H2). tauto.
Qed.

(** ** Incomplete versions *)

Lemma partial_pre p : partial_ok p -> sv.n p <> 3 -> sv.pre p = [].
Proof. intros (_ & _ & _ & _ & _ & _ & _ & H) Hn. destruct (sv.pre p); [done|]. exfalso. by apply Hn, H. Qed.

Lemma names_none p : partial_ok p -> sv.n p <> 3 -> names p v <-> False.
Proof. intros Hp Hn. unfold names. rewrite partial_pre by done. split; [by intros [? _]|done]. Qed.

Lemma version_ver p : partial_ok p -> sv.n p <> 3 -> sv.version p = sv.ver (sv.major p) (sv.minor p) 0.
Proof. intros Hp Hn. pose proof (partial_pre _ Hp Hn) as Hpre. unfold sv.version, sv.ver. rewrite Hpre. destruct Hp as (? & _ & _ & _ & _ & _ & Hz & _). by rewrite Hz by lia. Qed.

Lemma version_any p : partial_ok p -> sv.n p = 0 -> sv.version p = sv.ver 0 0 0.
Proof. intros Hp Hn. rewrite version_ver by (done || lia). destruct Hp as (_ & _ & _ & _ & Hz & Hz' & _). by rewrite Hz, Hz' by lia. Qed.

Lemma agrees_0 p : agrees 0 p v.
Proof. unfold agrees. lia. Qed.

Lemma implements_any p : partial_ok p -> sv.n p = 0 -> implements sv.anyRange (atLeast (sv.version p) v) (names p v).
Proof. intros Hp Hn. unfold sv.anyRange. rewrite <- (version_any p) by done. apply implements_ge. Qed.

(** The release that an expansion counts up to. *)
Lemma core_next k p : partial_ok p -> 1 <= k <= 2 -> (if k =? 1 then sv.major p else sv.minor p) <> sv.maxComponent ->
  (if k =? 1 then sv.ver (sv.succ64 (sv.major p)) 0 0 else sv.ver (sv.major p) (sv.succ64 (sv.minor p)) 0) = next k p.
Proof.
  intros (_ & H1 & H2 & _) Hk Hne. assert (k = 1 \/ k = 2) as [->| ->] by lia; cbn in *; unfold next; cbn [Z.eqb Pos.eqb]; by rewrite succ64_small.
Qed.

Lemma partial_cases p : partial_ok p -> sv.n p = 0 \/ sv.n p = 1 \/ sv.n p = 2 \/ sv.n p = 3.
Proof. intros [H _]. lia. Qed.

Lemma next_1 p : number_ok (sv.major p) -> sv.major p <> sv.maxComponent -> sv.ver (sv.succ64 (sv.major p)) 0 0 = next 1 p.
Proof. intros H Hne. by rewrite succ64_small. Qed.

Lemma next_2 p : number_ok (sv.minor p) -> sv.minor p <> sv.maxComponent -> sv.ver (sv.major p) (sv.succ64 (sv.minor p)) 0 = next 2 p.
Proof. intros H Hne. by rewrite succ64_small. Qed.

Lemma next_3 p : number_ok (sv.patch p) -> sv.patch p <> sv.maxComponent -> sv.ver (sv.major p) (sv.minor p) (sv.succ64 (sv.patch p)) = next 3 p.
Proof. intros H Hne. by rewrite succ64_small. Qed.

Lemma caret_spec p : partial_ok p -> representable (Single sv.opCaret p) ->
  implements (sv.caretRange p) (in_range (Single sv.opCaret p) v) (names p v).
Proof.
  intros Hp Hr. cbn [representable sv.successorComponent in_range] in *. unfold sv.caretRange, caretDepth.
  pose proof Hp as (Hn & H1 & H2 & H3 & _). destruct (Z.eqb_spec (sv.n p) 0) as [E|E].
  { eapply implements_iff; [by apply implements_any|pose proof (agrees_0 p); tauto|done]. }
  destruct Hr as [Hr|Hr]; [done|].
  destruct (Z.eqb_spec (sv.major p) 0) as [E1|E1], (Z.eqb_spec (sv.n p) 1) as [En1|En1]; cbn [negb orb] in *.
  2: destruct (Z.eqb_spec (sv.minor p) 0) as [E2|E2], (Z.eqb_spec (sv.n p) 2) as [En2|En2]; cbn [negb orb] in *.
  all: apply implements_window; [done|]; unfold next; cbn [Z.eqb Pos.eqb]; rewrite ?succ64_small by (done || congruence).
  all: rewrite ?E1; try done; try (by rewrite E2).
Qed.

Lemma tilde_spec p : partial_ok p -> representable (Single sv.opTilde p) ->
  implements (sv.tildeRange p) (in_range (Single sv.opTilde p) v) (names p v).
Proof.
  intros Hp Hr. cbn [representable sv.successorComponent in_range] in *. unfold sv.tildeRange, tildeDepth.
  pose proof Hp as (Hn & H1 & H2 & H3 & _). destruct (Z.eqb_spec (sv.n p) 0) as [E|E].
  { eapply implements_iff; [by apply implements_any|pose proof (agrees_0 p); tauto|done]. }
  destruct Hr as [Hr|Hr]; [done|]. destruct (Z.leb_spec 2 (sv.n p)); apply implements_window; try done; rewrite ?next_1, ?next_2 by congruence; done.
Qed.

Lemma eq_spec p : partial_ok p -> representable (Single sv.opEq p) ->
  implements (sv.eqRange p) (in_range (Single sv.opEq p) v) (names p v).
Proof.
  intros Hp Hr. cbn [representable sv.successorComponent in_range] in *. unfold sv.eqRange.
  pose proof Hp as (_ & H1 & H2 & _ & H4 & H5 & _). destruct (partial_cases p Hp) as [E|[E|[E|E]]]; rewrite E in *; cbn [Z.eqb Pos.eqb] in *.
  - eapply implements_iff; [by apply implements_any|pose proof (agrees_0 p); tauto|done].
  - destruct Hr as [Hr|Hr]; [lia|]. assert (sv.ver (sv.major p) 0 0 = sv.version p) as -> by (rewrite version_ver, H5 by (done || lia); done).
    apply implements_window; [done|]. by rewrite next_1 by congruence.
  - destruct Hr as [Hr|Hr]; [lia|]. rewrite <- version_ver by (done || lia). apply implements_window; [done|]. by rewrite next_2 by congruence.
  - apply implements_one; [apply Compare_eq|]. intros _. apply bound_version.
Qed.

(** Up to an incomplete version: the comparators of [<=] and of a hyphen range. *)
Definition upper (p : sv.partial) : list sv.comparator :=
  if sv.n p =? 0 then []
  else if sv.n p =? 3 then [{| sv.op := sv.opLe; sv.bound := sv.version p |}]
  else if sv.n p =? 2 then [sv.exclusiveUpper (sv.ver (sv.major p) (sv.succ64 (sv.minor p)) 0)]
  else [sv.exclusiveUpper (sv.ver (sv.succ64 (sv.major p)) 0 0)].

Lemma upper_spec p : partial_ok p -> representable (Single sv.opNone p) -> implements (upper p) (upTo p v) (names p v).
Proof.
  intros Hp Hr. cbn [representable sv.successorComponent] in *. unfold upper, upTo.
  pose proof Hp as (_ & H1 & H2 & _). destruct (partial_cases p Hp) as [E|[E|[E|E]]]; rewrite E in *; cbn [Z.eqb Pos.eqb] in *.
  - eapply implements_iff; [apply implements_nil|pose proof (agrees_0 p); tauto|]. intros _. by rewrite names_none by (done || lia).
  - destruct Hr as [Hr|Hr]; [lia|]. rewrite next_1 by congruence. rewrite names_none by (done || lia). by apply implements_upper, below_next.
  - destruct Hr as [Hr|Hr]; [lia|]. rewrite next_2 by congruence. rewrite names_none by (done || lia). by apply implements_upper, below_next.
  - apply implements_one; [apply Compare_le|]. intros _. apply bound_version.
Qed.

(** The comparisons [>=], [<], [>] and [<=]. *)
Lemma comp_spec o p : partial_ok p -> representable (Single o p) -> o = sv.opGt \/ o = sv.opGe \/ o = sv.opLt \/ o = sv.opLe ->
  implements (sv.compRange o p) (in_range (Single o p) v) (names p v).
Proof.
  intros Hp Hr Ho. pose proof Hp as (_ & H1 & H2 & _ & _ & H5 & _). destruct Ho as [->|[->|[->| ->]]]; cbn [sv.compRange in_range].
  - cbn [representable sv.successorComponent] in Hr. destruct (partial_cases p Hp) as [E|[E|[E|E]]]; rewrite E in *; cbn [Z.eqb Pos.eqb] in *.
    + rewrite names_none by (done || lia). apply implements_upper. unfold core3. cbn. rewrite core_lt_spec. pose proof core_nonneg. lia.
    + destruct Hr as [Hr|Hr]; [lia|]. rewrite next_1 by congruence. rewrite names_none by (done || lia).
      apply implements_one; [apply test_ge|]. intros _. split; [by intros [? _]|done].
    + destruct Hr as [Hr|Hr]; [lia|]. rewrite next_2 by congruence. rewrite names_none by (done || lia).
      apply implements_one; [apply test_ge|]. intros _. split; [by intros [? _]|done].
    + apply implements_one; [apply Compare_gt|]. intros _. apply bound_version.
  - apply implements_ge.
  - destruct (Z.ltb_spec (sv.n p) 3) as [E|E].
    + rewrite (proj2 (Z.eqb_neq (sv.n p) 3)) by lia. rewrite names_none by (done || lia). apply implements_upper.
      unfold core3, before. cbn [sv.version Major Minor Patch]. rewrite core_lt_spec. lia.
    + rewrite (proj2 (Z.eqb_eq (sv.n p) 3)) by (destruct Hp; lia). apply implements_one; [apply Compare_lt|]. intros _. apply bound_version.
  - destruct (Z.eqb_spec (sv.n p) 0) as [E|E]; [by apply implements_any|].
    pose proof (upper_spec p Hp Hr) as H. unfold upper in H. by rewrite (proj2 (Z.eqb_neq _ _) E) in H.
Qed.

Lemma expand_spec o p : partial_ok p -> representable (Single o p) -> implements (sv.expand o p) (in_range (Single o p) v) (names p v).
Proof.
  intros Hp Hr. destruct o; cbn [sv.expand].
  - by apply eq_spec.
  - apply comp_spec; auto.
  - apply comp_spec; auto.
  - apply comp_spec; auto.
  - apply comp_spec; auto 6.
  - by apply eq_spec.
  - by apply caret_spec.
  - by apply tilde_spec.
Qed.

Lemma hyphen_spec a b : partial_ok a -> partial_ok b -> representable (Hyphen a b) ->
  implements ({| sv.op := sv.opGe; sv.bound := if sv.n a =? 0 then sv.ver 0 0 0 else sv.version a |} :: upper b)
    (in_range (Hyphen a b) v) (admits (Hyphen a b) v).
Proof.
  intros Ha Hb Hr. cbn [in_range admits]. assert ((if sv.n a =? 0 then sv.ver 0 0 0 else sv.version a) = sv.version a) as ->.
  { destruct (Z.eqb_spec (sv.n a) 0); [|done]. by rewrite version_any. }
  apply implements_cons; [apply test_ge|intros _; apply bound_version|by apply upper_spec].
Qed.
End Expand.

(** ** The meaning of a constraint *)

(** ** The ranges of a text *)

Definition rangeOf (t : bytes) : res range :=
  let (o, t) := sv.splitOperator t in
  if sv.isOperator o && beq (TrimSpace t) [] then Err errOperator
  else let? p := sv.parsePartial t in Ok (Single o p).

Fixpoint rangeAll (toks : list bytes) : res (list range) :=
  match toks with
  | [] => Ok []
  | t :: toks =>
      if beq t (str "-") || beq t [] then Err errMalformedRange
      else let? r := rangeOf t in let? rs := rangeAll toks in Ok (r :: rs)
  end.

Definition hyphenOf (a b : bytes) : res (list range) :=
  let? a := sv.parsePartial a in let? b := sv.parsePartial b in Ok [Hyphen a b].

Definition rangesOf (s : bytes) : res (list range) :=
  let s := TrimSpace s in
  if beq s [] || sv.wildcard s then Ok [Single sv.opNone sv.noPartial]
  else
    match sv.tokenizeRange s with
    | [a; h; b] as toks => if beq h (str "-") then hyphenOf a b else rangeAll toks
    | toks => rangeAll toks
    end.

(** The alternatives of a constraint. *)
Definition reads (s : bytes) (rss : list (list range)) : Prop :=
  Forall2 (fun part rs => rangesOf (TrimSpace part) = Ok rs) (splitOr s) rss.

(** ** The fuel of the tokenizer *)

Lemma dropWhile_length f s : (length (sv.dropWhile f s) <= length s)%nat.
Proof. induction s as [|c s IH]; cbn; [done|]. destruct (f c); cbn; lia. Qed.

Lemma dropWhile_head f s c t : sv.dropWhile f s = c :: t -> f c = false.
Proof. induction s as [|x s IH]; cbn; [done|]. destruct (f x) eqn:E; [done|]. by intros [= <- <-]. Qed.

(** A token takes a byte at least. *)
Lemma token_progress c t : sv.space c = false ->
  (length (sv.dropWhile (fun c => negb (sv.space c)) (sv.dropWhile sv.space (sv.dropWhile sv.opByte (c :: t)))) <= length t)%nat.
Proof.
  intros Hc. cbn [sv.dropWhile]. destruct (sv.opByte c).
  - etransitivity; [apply dropWhile_length|]. etransitivity; [apply dropWhile_length|]. apply dropWhile_length.
  - cbn [sv.dropWhile]. rewrite Hc. cbn [sv.dropWhile]. rewrite Hc. cbn [negb]. apply dropWhile_length.
Qed.

(** More fuel than bytes changes nothing: [tokenizeRange] reads all of its text. *)
Lemma tokens_enough fuel fuel' s : (length s <= fuel)%nat -> (length s <= fuel')%nat -> sv.tokens fuel s = sv.tokens fuel' s.
Proof.
  revert fuel' s. induction fuel as [|fuel IH]; intros [|fuel'] s H H'; [done| | |].
  1, 2: by destruct s; [|cbn in *; lia].
  cbn [sv.tokens]. pose proof (dropWhile_length sv.space s) as Hl. destruct (sv.dropWhile sv.space s) as [|c t] eqn:E; [done|].
  apply dropWhile_head in E. cbn [length] in Hl. destruct (Z.eqb c 45); f_equal; [apply IH; lia|].
  pose proof (token_progress c t E). apply IH; lia.
Qed.

(** ** Results of the parser *)

Lemma andThen_Ok {A B} (m : res A) (k : A -> res B) b : andThen m k = Ok b <-> exists a, m = Ok a /\ k a = Ok b.
Proof. destruct m; cbn; split; try done; [by eexists|by intros (? & [= <-] & ?)|by intros (? & ? & _)|by intros (? & ? & _)]. Qed.

Lemma cutParts_length k s parts : sv.cutParts k s = Ok parts -> (length parts <= k)%nat.
Proof.
  revert s parts. induction k as [|k IH]; intros s parts; cbn [sv.cutParts]; [done|].
  destruct (cutByte 46 s) as [[a b]|]; [|intros [= <-]; cbn; lia].
  rewrite andThen_Ok. intros (ps & H & [= <-]). apply IH in H. cbn. lia.
Qed.

Lemma setPart_ok idx x p : partial_ok p -> sv.pre p = [] -> sv.n p = idx -> idx < 3 -> number_ok x -> partial_ok (sv.setPart idx x p).
Proof.
  intros (H0 & H1 & H2 & H3 & H4 & H5 & H6 & _) Hpre <- Hi Hx. unfold partial_ok, sv.setPart. cbn [sv.major sv.minor sv.patch sv.pre sv.n].
  rewrite Hpre. assert (sv.n p = 0 \/ sv.n p = 1 \/ sv.n p = 2) as [E|[E|E]] by lia; rewrite E in *; cbn [Z.eqb Pos.eqb]; split_and!; try done; lia || (intros; auto with lia).
Qed.

Lemma fillParts_ok parts : forall idx out p, sv.fillParts idx parts out = Ok p ->
  partial_ok out -> sv.pre out = [] -> sv.n out = idx -> idx + Z.of_nat (length parts) <= 3 -> partial_ok p /\ sv.pre p = [].
Proof.
  induction parts as [|part parts IH]; intros idx out p; cbn [sv.fillParts]; [by intros [= <-]|].
  destruct (beq part []); [done|]. destruct (sv.wildcard part); rewrite andThen_Ok; intros (x & Hx & H) Ho Hpre Hn Hl; [by injection H as <-|].
  cbn [length] in Hl. apply (IH _ _ _ H); try done; cbn; [|lia]. apply parseNumeric_spec in Hx as [Hx _]. apply setPart_ok; done || lia.
Qed.

Lemma noPartial_ok : partial_ok sv.noPartial.
Proof. unfold partial_ok, number_ok. cbn. split_and!; done || lia. Qed.

Lemma parsePartial_ok s p : sv.parsePartial s = Ok p -> partial_ok p.
Proof.
  unfold sv.parsePartial. destruct (beq (TrimSpace s) [] || sv.wildcard (TrimSpace s)); [intros [= <-]; apply noPartial_ok|]. rewrite andThen_Ok. intros ([bld main] & _ & H).
  apply andThen_Ok in H as ([pr main'] & _ & H). apply andThen_Ok in H as (parts & Hp & H). apply andThen_Ok in H as (out & Ho & H).
  apply cutParts_length in Hp. destruct (fillParts_ok _ _ _ _ Ho noPartial_ok) as [Hok Hpre]; [done|done|lia|].
  destruct pr as [|i pr]; [by injection H as <-|]. destruct (Z.eqb_spec (sv.n out) 3) as [E|]; [|done]. injection H as <-.
  destruct Hok as (H0 & H1 & H2 & H3 & H4 & H5 & H6 & _). unfold partial_ok. cbn [sv.major sv.minor sv.patch sv.pre sv.n]. split_and!; done || lia.
Qed.

(** ** Expansion of the ranges of a text *)

Lemma validate_spec o p : sv.validateRangeSuccessor o p = Ok tt <-> sv.n p = 0 \/ sv.successorComponent o p <> Some sv.maxComponent.
Proof.
  unfold sv.validateRangeSuccessor. destruct (Z.eqb_spec (sv.n p) 0) as [E|E]; [split; [by left|done]|].
  destruct (sv.successorComponent o p) as [x|]; [|split; [by right|done]].
  destruct (Z.eqb_spec x sv.maxComponent) as [->|Hx]; split; try done; [by intros [?|[]]|]. intros _. right. congruence.
Qed.

(** Comparators that implement a conjunction of ranges, for every version. *)
Definition implement (cs : list sv.comparator) (rs : list range) : Prop :=
  forall v, version_ok v -> implements v cs (Forall (fun r => in_range r v) rs) (Exists (fun r => admits r v) rs).

Lemma implement_one cs r : (forall v, version_ok v -> implements v cs (in_range r v) (admits r v)) -> implement cs [r].
Proof. intros H v Hv. rewrite Forall_singleton, Exists_cons, Exists_nil. eapply implements_iff; [by apply H|done|tauto]. Qed.

Lemma implement_app cs cs' rs rs' : implement cs rs -> implement cs' rs' -> implement (cs ++ cs') (rs ++ rs').
Proof. intros H1 H2 v Hv. rewrite Forall_app, Exists_app. apply implements_app; [by apply H1|by apply H2]. Qed.

(** A parser of comparators agrees with a parser of ranges. *)
Definition expands (cs : res (list sv.comparator)) (rs : res (list range)) : Prop :=
  (forall l, cs = Ok l -> exists r, rs = Ok r /\ Forall representable r /\ implement l r) /\
  (forall r, rs = Ok r -> Forall representable r -> exists l, cs = Ok l).

Lemma expands_one p o : partial_ok p ->
  expands (let? _ := sv.validateRangeSuccessor o p in Ok (sv.expand o p)) (Ok [Single o p]).
Proof.
  intros Hp. split.
  - intros l (u & Hu & [= <-])%andThen_Ok. destruct u. apply validate_spec in Hu. exists [Single o p]. rewrite Forall_singleton.
    split_and!; [done|done|]. apply implement_one. intros v Hv. by apply expand_spec.
  - intros r [= <-] Hr%Forall_inv. eexists. apply andThen_Ok. exists tt. split; [by apply validate_spec|done].
Qed.

Lemma expands_token t : expands (sv.expandToken t) (let? r := rangeOf t in Ok [r]).
Proof.
  unfold sv.expandToken, rangeOf. destruct (sv.splitOperator t) as [o u]. destruct (_ && _); [by split|].
  destruct (sv.parsePartial u) as [p| |] eqn:E; cbn [andThen]; [|by split|by split]. by apply expands_one, (parsePartial_ok u).
Qed.

Lemma expands_all toks : expands (sv.expandAll toks) (rangeAll toks).
Proof.
  induction toks as [|t toks [IH1 IH2]]; cbn [sv.expandAll rangeAll].
  - split; [|by eexists]. intros l [= <-]. exists []. split_and!; [done|done|]. intros v Hv.
    rewrite Forall_nil, Exists_nil. apply implements_nil.
  - destruct (_ || _); [by split|]. destruct (expands_token t) as [H1 H2]. split.
    + intros l (cs & Hcs & (cs' & Hcs' & [= <-])%andThen_Ok)%andThen_Ok. destruct (H1 _ Hcs) as (r & (r0 & -> & [= <-])%andThen_Ok & Hr & Hi).
      destruct (IH1 _ Hcs') as (rs & -> & Hrs & His). cbn [andThen]. exists ([r0] ++ rs). rewrite Forall_app. split_and!; [done..|]. by apply implement_app.
    + intros l (r0 & Hr0 & (rs & Hrs & [= <-])%andThen_Ok)%andThen_Ok Hr. apply Forall_cons in Hr as [Hr Hr'].
      destruct (H2 [r0]) as [cs ->]; [by rewrite Hr0|by constructor|]. destruct (IH2 rs) as [cs' ->]; [done|done|]. by eexists.
Qed.

Lemma expands_hyphen a b : expands (sv.parseHyphen a b) (hyphenOf a b).
Proof.
  unfold sv.parseHyphen, hyphenOf. destruct (sv.parsePartial a) as [pa| |] eqn:Ea; cbn [andThen]; [|by split|by split].
  destruct (sv.parsePartial b) as [pb| |] eqn:Eb; cbn [andThen]; [|by split|by split]. apply parsePartial_ok in Ea, Eb. unfold sv.hyphenRange. split.
  - intros l (u & Hu & [= <-])%andThen_Ok. destruct u. apply validate_spec in Hu. exists [Hyphen pa pb]. rewrite Forall_singleton.
    split_and!; [done|done|]. apply implement_one. intros v Hv. by apply hyphen_spec.
  - intros r [= <-] Hr%Forall_inv. eexists. apply andThen_Ok. exists tt. split; [by apply validate_spec|done].
Qed.

Lemma expands_range s : expands (sv.parseRange s) (rangesOf s).
Proof.
  unfold sv.parseRange, rangesOf. destruct (_ || _).
  - apply (expands_one sv.noPartial sv.opNone noPartial_ok).
  - destruct (sv.tokenizeRange (TrimSpace s)) as [|a [|h [|b [|c toks]]]]; try apply expands_all. destruct (beq h (str "-")); [apply expands_hyphen|apply expands_all].
Qed.

Lemma expands_groups parts : forall gs, sv.parseGroups parts = Ok gs ->
  exists rss, Forall2 (fun part rs => rangesOf (TrimSpace part) = Ok rs) parts rss /\ Forall (Forall representable) rss /\ Forall2 implement gs rss.
Proof.
  induction parts as [|part parts IH]; intros gs; cbn [sv.parseGroups]; [intros [= <-]; exists []; by split_and!|].
  intros (g & Hg & (gs' & Hgs & [= <-])%andThen_Ok)%andThen_Ok. destruct (expands_range (TrimSpace part)) as [H _].
  destruct (H _ Hg) as (rs & Hrs & Hr & Hi). destruct (IH _ Hgs) as (rss & H1 & H2 & H3). exists (rs :: rss). split_and!; by constructor.
Qed.

Lemma groups_parse parts rss : Forall2 (fun part rs => rangesOf (TrimSpace part) = Ok rs) parts rss -> Forall (Forall representable) rss ->
  exists gs, sv.parseGroups parts = Ok gs.
Proof.
  induction 1 as [|part rs parts rss Hrs _ IH]; intros Hr; cbn [sv.parseGroups]; [by eexists|]. apply Forall_cons in Hr as [Hr Hr'].
  destruct (expands_range (TrimSpace part)) as [_ H]. destruct (H _ Hrs Hr) as [g ->]. destruct (IH Hr') as [gs ->]. by eexists.
Qed.

Lemma implement_check g rs v : implement g rs -> version_ok v -> sv.checkGroup g v = true <-> meets rs v.
Proof. intros Hi Hv. destruct (Hi v Hv) as [H1 H2]. rewrite checkGroup_spec. unfold meets. rewrite H1. split; intros [H [Hp|Hp]]; (split; [done|]); tauto. Qed.

Lemma groups_check gs rss v : Forall2 implement gs rss -> version_ok v ->
  existsb (fun g => sv.checkGroup g v) gs = true <-> Exists (fun rs => meets rs v) rss.
Proof.
  intros H Hv. induction H as [|g rs gs rss Hg _ IH]; cbn [existsb]; [by rewrite Exists_nil|].
  by rewrite orb_true_iff, Exists_cons, IH, (implement_check g rs).
Qed.

(** C36: A constraint accepts exactly the versions its text describes.  [ParseConstraint]
    fails when a part of the text is not a range or when the release above a range has a
    number beyond 64 bits, and on nothing else.  When it returns, [Check] accepts a
    version if and only if, in one of the alternatives, the version is in every range
    (caret, tilde, x-range, comparison, exact or hyphen, each stated on the numbers and on
    precedence) and, if it is a pre-release, a range names a pre-release of the same
    numbers. *)
Theorem constraint_meaning s :
  (forall c, sv.ParseConstraint s = Ok c -> exists rss, reads s rss /\ Forall (Forall representable) rss /\
     forall v, version_ok v -> (sv.Check_ c v = true <-> Exists (fun rs => meets rs v) rss)) /\
  (forall rss, reads s rss -> Forall (Forall representable) rss -> exists c, sv.ParseConstraint s = Ok c).
Proof.
  unfold sv.ParseConstraint, reads. split.
  - intros c (gs & Hgs & [= <-])%andThen_Ok. destruct (expands_groups _ _ Hgs) as (rss & H1 & H2 & H3). exists rss. split_and!; [done..|].
    intros v Hv. by apply groups_check.
  - intros rss H1 H2. destruct (groups_parse _ _ H1 H2) as [gs ->]. by eexists.
Qed.

(** [^1.2 || 3.x] is a caret range and an x-range, and accepts 3.4.0. *)
Lemma constraint_meaning_witness :
  exists c, sv.ParseConstraint (str "^1.2 || 3.x") = Ok c /\ sv.Check_ c (sv.ver 3 4 0) = true /\
  exists rss, reads (str "^1.2 || 3.x") rss /\ length rss = 2%nat /\ Exists (fun rs => meets rs (sv.ver 3 4 0)) rss.
Proof.
  assert (match sv.ParseConstraint (str "^1.2 || 3.x") with Ok c => sv.Check_ c (sv.ver 3 4 0) | _ => false end = true) as Hc by (vm_compute; reflexivity).
  destruct (sv.ParseConstraint (str "^1.2 || 3.x")) as [c| |] eqn:E; [|discriminate|discriminate].
  exists c. split; [reflexivity|]. split; [exact Hc|]. destruct (proj1 (constraint_meaning _) _ E) as (rss & H1 & _ & H3).
  exists rss. split; [exact H1|]. split.
  - apply Forall2_length in H1. rewrite <- H1. reflexivity.
  - apply H3; [|exact Hc]. unfold version_ok, number_ok. cbn. repeat split; try lia; constructor.
Defined.
