(* ===== verification/MagicNum.v ===== *)
(** * Magic numbers for constant division (backend/railshot/magicnum.go)

    A division by a constant becomes a multiplication whose high half is shifted.  The
    derivation of the factor and the shift, at the width of the Go integers, and the
    theorem on integers that makes it right. *)

From stdpp Require Import base tactics numbers list option.
From Stdlib Require Import ZArith Lia.
From S2P Require Import Prelude Bits IntFold.
Local Open Scope Z_scope.

(** [math/bits]: the length of a word, and the division of 128 bits by 64, which panics
    ([None]) when the quotient does not fit. *)
Definition Len64 (x : Z) : Z := if x =? 0 then 0 else Z.log2 x + 1.
Definition Div64 (hi lo y : Z) : option (Z * Z) :=
  if (y =? 0) || (y <=? hi) then None else Some ((hi * 2 ^ 64 + lo) / y, (hi * 2 ^ 64 + lo) mod y).

(** A shift of a 64-bit word. *)
Definition shl64 (x k : Z) : Z := to_u64 (Z.shiftl x k).

Module magic.

Definition truncW (v W : Z) : Z := if 64 <=? W then v else Z.land v (to_u64 (shl64 1 W - 1)).

Definition signW (m W : Z) : Z :=
  if 64 <=? W then to_i64 m
  else if negb (Z.land m (shl64 1 (W - 1)) =? 0) then to_i64 (to_i64 m - Z.shiftl 1 W)
  else to_i64 m.

Definition divPow2By64 (exp d : Z) : option (Z * Z) :=
  if exp <? 64 then Div64 0 (shl64 1 exp) d else Div64 (shl64 1 (exp - 64)) 0 d.

(** The factor doubled, with the bit that the remainder decides. *)
Definition doubled (pm d rem : Z) : Z :=
  let pm := to_u64 (pm * 2) in
  let pm := if to_u64 (d - rem) <=? rem then to_u64 (pm + 1) else pm in
  to_u64 (pm + 1).

(** The factor, the shift and whether the dividend is added. *)
Definition MagicU (d W : Z) : option (Z * Z * bool) :=
  let fl := to_u64 (Len64 d - 1) in
  '(pm, rem) ← divPow2By64 (W + fl) d;
  let e := to_u64 (d - rem) in
  if e <? shl64 1 fl then Some (truncW (to_u64 (pm + 1)) W, fl, false)
  else Some (truncW (doubled pm d rem) W, fl, true).

Definition MagicS (ad W : Z) : option (Z * Z * bool) :=
  let fl := to_u64 (Len64 ad - 1) in
  '(pm, rem) ← divPow2By64 (W - 1 + fl) ad;
  let e := to_u64 (ad - rem) in
  if e <? shl64 1 fl then Some (signW (truncW (to_u64 (pm + 1)) W) W, to_u64 (fl - 1), false)
  else Some (signW (truncW (doubled pm ad rem) W) W, fl, true).
End magic.

(** ** Division by a scaled reciprocal

    [m / S] is [1 / d] rounded up, with the error [e / (d * S)]. *)

Section Reciprocal.
Context (S m d e : Z) (Hd : 0 < d) (HS : 0 < S) (Hm : m * d = S + e).

Lemma reciprocal_div n : 0 <= n -> 0 <= e -> n * e < S -> n * m / S = n / d.
Proof using All.
  intros Hn He Hne. pose proof (Z.div_mod n d ltac:(lia)) as Hq. pose proof (Z.mod_pos_bound n d ltac:(lia)) as Hr.
  set (q := n / d) in *. set (r := n mod d) in *. symmetry. apply Z.div_unique_pos with (n * m - S * q); [|ring].
  assert (n * m * d = n * S + n * e) as E by (rewrite <- Z.mul_assoc, Hm; ring). split.
  - enough (0 <= (n * m - S * q) * d) by nia. replace ((n * m - S * q) * d) with (n * S + n * e - S * (d * q)) by (rewrite <- E; ring). nia.
  - enough ((n * m - S * q) * d < S * d) by nia. replace ((n * m - S * q) * d) with (n * S + n * e - S * (d * q)) by (rewrite <- E; ring). nia.
Qed.

Lemma reciprocal_div_neg a : 0 < a -> 0 < e -> a * e < S -> (- a) * m / S = - (a / d) - 1.
Proof using All.
  intros Ha He Hae. pose proof (Z.div_mod a d ltac:(lia)) as Hq. pose proof (Z.mod_pos_bound a d ltac:(lia)) as Hr.
  set (q := a / d) in *. set (r := a mod d) in *. symmetry. apply Z.div_unique_pos with ((q + 1) * S - a * m); [|ring].
  assert (a * m * d = a * S + a * e) as E by (rewrite <- Z.mul_assoc, Hm; ring). split.
  - enough (0 <= ((q + 1) * S - a * m) * d) by nia. replace (((q + 1) * S - a * m) * d) with (S * (d * q) + d * S - a * S - a * e) by (rewrite <- Z.sub_add_distr, <- E; ring). nia.
  - enough (((q + 1) * S - a * m) * d < S * d) by nia. replace (((q + 1) * S - a * m) * d) with (S * (d * q) + d * S - a * S - a * e) by (rewrite <- Z.sub_add_distr, <- E; ring). nia.
Qed.
End Reciprocal.

(** ** The derivation *)

Definition mixed_divisor (d : Z) : Prop := 2 <= d /\ Z.land d (d - 1) <> 0.

(** A divisor that is not a power of two lies strictly between two of them. *)
Lemma mixed_between d W : mixed_divisor d -> d < 2 ^ W -> let fl := Z.log2 d in 2 ^ fl < d < 2 ^ (fl + 1) /\ 1 <= fl < W.
Proof.
  intros [Hd Hl] HW fl. pose proof (Z.log2_spec d ltac:(lia)) as [H1 H2]. fold fl in H1, H2. rewrite <- Z.add_1_r in H2. split.
  - split; [|done]. destruct (Z.eq_dec (2 ^ fl) d) as [E|]; [|lia]. exfalso. apply Hl. rewrite <- E.
    assert (0 <= fl) by apply Z.log2_nonneg. replace (2 ^ fl - 1) with (Z.ones fl) by (rewrite Z.ones_equiv; lia).
    rewrite Z.land_ones by done. apply Z.mod_same. lia.
  - split; [apply Z.log2_le_pow2; lia|]. apply Z.log2_lt_pow2; lia.
Qed.

Lemma pow2_split a b : 0 <= a -> 0 <= b -> 2 ^ (a + b) = 2 ^ a * 2 ^ b.
Proof. apply Z.pow_add_r. Qed.

Lemma Len64_log2 d W : 2 <= d < 2 ^ W -> 0 <= W <= 64 -> to_u64 (Len64 d - 1) = Z.log2 d.
Proof.
  intros Hd HW. unfold Len64. rewrite (proj2 (Z.eqb_neq d 0)) by lia. replace (Z.log2 d + 1 - 1) with (Z.log2 d) by lia.
  apply Z.mod_small. split; [apply Z.log2_nonneg|]. assert (Z.log2 d < W) by (apply Z.log2_lt_pow2; lia). lia.
Qed.

Lemma shl64_pow k : 0 <= k < 64 -> shl64 1 k = 2 ^ k.
Proof.
  intros Hk. unfold shl64, to_u64. rewrite Z.shiftl_1_l. apply Z.mod_small. split; [lia|]. apply Z.pow_lt_mono_r; lia.
Qed.

(** The division of the power is exact: no word overflows. *)
Lemma divPow2By64_spec exp d : 0 <= exp < 128 -> 0 < d < 2 ^ 64 -> 2 ^ exp / d < 2 ^ 64 ->
  magic.divPow2By64 exp d = Some (2 ^ exp / d, 2 ^ exp mod d).
Proof.
  intros He Hd Hq. unfold magic.divPow2By64, Div64. rewrite (proj2 (Z.eqb_neq d 0)) by lia. cbn [orb].
  destruct (Z.ltb_spec exp 64) as [Hl|Hl].
  - rewrite shl64_pow by lia. rewrite (proj2 (Z.leb_gt d 0)) by lia. done.
  - rewrite shl64_pow by lia. assert (2 ^ exp = 2 ^ (exp - 64) * 2 ^ 64) as E by (rewrite <- Z.pow_add_r by lia; f_equal; lia).
    rewrite Z.add_0_r, <- E. destruct (Z.leb_spec d (2 ^ (exp - 64))) as [Hle|]; [|done]. exfalso.
    assert (2 ^ 64 <= 2 ^ exp / d); [|lia]. apply Z.div_le_lower_bound; [lia|]. rewrite E. nia.
Qed.

Lemma truncW_mod v W : 0 < W <= 64 -> 0 <= v < 2 ^ 64 -> magic.truncW v W = v mod 2 ^ W.
Proof.
  intros HW Hv. unfold magic.truncW. destruct (Z.leb_spec 64 W) as [H|H].
  - replace W with 64 by lia. by rewrite Z.mod_small.
  - rewrite shl64_pow by lia. assert (2 ^ W < 2 ^ 64) by (apply Z.pow_lt_mono_r; lia). pose proof (Z.pow_pos_nonneg 2 W).
    unfold to_u64. rewrite (Z.mod_small (2 ^ W - 1)) by lia. replace (2 ^ W - 1) with (Z.ones W) by (rewrite Z.ones_equiv; lia).
    apply Z.land_ones. lia.
Qed.

(** The signed reading of a factor. *)
Lemma signW_signed m W : 0 < W <= 64 -> 0 <= m < 2 ^ W -> magic.signW m W = wasm.signed W m.
Proof.
  intros HW Hm. unfold magic.signW. destruct (Z.leb_spec 64 W) as [H|H].
  - replace W with 64 in * by lia. by rewrite to_i64_signed, Z.mod_small.
  - assert (2 ^ W <= 2 ^ 63) by (apply Z.pow_le_mono_r; lia). assert (0 < 2 ^ (W - 1)) by (apply Z.pow_pos_nonneg; lia).
    assert (2 ^ W = 2 * 2 ^ (W - 1)) as Hp by (rewrite <- Z.pow_succ_r by lia; f_equal; lia).
    rewrite shl64_pow, Z.shiftl_1_l, (to_i64_id m) by lia. unfold wasm.signed.
    assert (Z.land m (2 ^ (W - 1)) = if m <? 2 ^ (W - 1) then 0 else 2 ^ (W - 1)) as ->.
    { apply Z.bits_inj'. intros i Hi. rewrite Z.land_spec, Z.pow2_bits_eqb by lia. destruct (Z.eqb_spec (W - 1) i) as [<-|Hne].
      - rewrite andb_true_r. destruct (Z.ltb_spec m (2 ^ (W - 1))) as [Hl|Hl].
        + rewrite Z.bits_0. destruct (Z.eq_dec m 0) as [->|]; [apply Z.bits_0|]. apply Z.bits_above_log2; [lia|]. apply Z.log2_lt_pow2; lia.
        + rewrite Z.pow2_bits_true by lia. rewrite <- (Z.bit_log2 m) by lia. f_equal. symmetry. apply Z.log2_unique; [lia|]. replace (Z.succ (W - 1)) with W by lia. lia.
      - rewrite andb_false_r. destruct (m <? 2 ^ (W - 1)); [by rewrite Z.bits_0|]. by rewrite Z.pow2_bits_false by lia. }
    destruct (m <? 2 ^ (W - 1)); [done|]. rewrite (proj2 (Z.eqb_neq _ 0)) by lia. cbn [negb]. apply to_i64_id. lia.
Qed.

Section Factor.
Context (k d : Z) (Hk : 1 <= k <= 64) (Hmix : mixed_divisor d) (Hlt : d < 2 ^ k).
Let fl := Z.log2 d.
Let P := 2 ^ (k + fl).
Let pm := P / d.
Let rem := P mod d.

Lemma factor_facts : P = 2 ^ k * 2 ^ fl /\ 0 < 2 ^ fl < d /\ d < 2 * 2 ^ fl /\ 2 ^ fl < 2 ^ k /\ 2 ^ k <= 2 ^ 64 /\ 1 <= fl < k /\
  P = d * pm + rem /\ 0 <= rem < d /\ 0 <= pm < 2 ^ k.
Proof using All.
  destruct (mixed_between d k Hmix Hlt) as [[H1 H2] H3]. fold fl in H1, H2, H3. rewrite Z.pow_add_r in H2 by lia.
  assert (P = 2 ^ k * 2 ^ fl) as E by (unfold P; apply Z.pow_add_r; lia).
  assert (0 < 2 ^ fl) by (apply Z.pow_pos_nonneg; lia). assert (2 ^ k <= 2 ^ 64) by (apply Z.pow_le_mono_r; lia).
  split_and!; try lia; try apply Z.div_mod; try apply Z.mod_pos_bound; try lia.
  - apply Z.div_pos; lia.
  - apply Z.div_lt_upper_bound; [lia|]. rewrite E. nia.
Qed.

Lemma factor_div : magic.divPow2By64 (k + fl) d = Some (pm, rem).
Proof using All.
  destruct factor_facts as (E & H1 & H2 & H3 & H4 & H5 & H6 & H7 & H8). apply divPow2By64_spec; [lia|lia|fold P; fold pm; lia].
Qed.

(** The factor fits its width. *)
Lemma factor_small : to_u64 (d - rem) < shl64 1 fl ->
  exists m e, to_u64 (pm + 1) = m /\ m * d = P + e /\ 0 < e < 2 ^ fl /\ 0 < m < 2 ^ k.
Proof using All.
  destruct factor_facts as (E & H1 & H2 & H3 & H4 & H5 & H6 & H7 & H8). rewrite shl64_pow by lia.
  unfold to_u64. rewrite (Z.mod_small (d - rem)) by lia. intros He. exists (pm + 1), (d - rem).
  assert ((pm + 1) * d = P + (d - rem)) as Em by lia. assert (pm + 1 < 2 ^ k); [|by rewrite Z.mod_small by lia; split_and!; lia].
  destruct (Z.lt_ge_cases (pm + 1) (2 ^ k)); [done|]. exfalso. nia.
Qed.

(** The factor needs a bit more. *)
Lemma factor_doubled : shl64 1 fl <= to_u64 (d - rem) ->
  exists m e, magic.doubled pm d rem = to_u64 m /\ m * d = 2 * P + e /\ 0 < e < 2 * 2 ^ fl /\ 2 ^ k < m < 2 * 2 ^ k.
Proof using All.
  destruct factor_facts as (E & H1 & H2 & H3 & H4 & H5 & H6 & H7 & H8). rewrite shl64_pow by lia.
  unfold to_u64 at 1. rewrite (Z.mod_small (d - rem)) by lia. intros He.
  set (m := pm * 2 + (if d - rem <=? rem then 1 else 0) + 1). exists m, (m * d - 2 * P).
  assert (0 < m * d - 2 * P <= d) by (unfold m; destruct (Z.leb_spec (d - rem) rem); lia). split_and!; try lia.
  - unfold magic.doubled, m, to_u64. rewrite (Z.mod_small (d - rem)) by lia. destruct (d - rem <=? rem).
    + rewrite Z.add_mod_idemp_l by lia. rewrite <- !Z.add_assoc. by rewrite Z.add_mod_idemp_l by lia.
    + rewrite Z.add_mod_idemp_l by lia. f_equal. lia.
  - destruct (Z.lt_ge_cases (2 ^ k) m); [done|]. exfalso. nia.
  - destruct (Z.lt_ge_cases m (2 * 2 ^ k)); [done|]. exfalso. nia.
Qed.
End Factor.

(** ** The quotients *)

Lemma div_div_pow a i j : 0 <= i -> 0 <= j -> a / 2 ^ i / 2 ^ j = a / 2 ^ (i + j).
Proof.
  intros Hi Hj. rewrite Z.pow_add_r by done. apply Z.div_div; [apply Z.pow_nonzero; lia|apply Z.pow_pos_nonneg; lia].
Qed.

(** The unsigned quotient by multiply-high, correction and shift. *)
Lemma MagicU_spec d W : mixed_divisor d -> d < 2 ^ W -> 1 <= W <= 64 -> exists m shift add,
  magic.MagicU d W = Some (m, shift, add) /\ 0 <= m < 2 ^ W /\ 0 <= shift < W /\
  forall n, 0 <= n < 2 ^ W ->
    let q := n * m / 2 ^ W in
    0 <= q <= n /\ (if add then ((n - q) / 2 + q) / 2 ^ shift = n / d else q / 2 ^ shift = n / d).
Proof.
  intros Hmix Hlt HW. pose proof (factor_facts W d HW Hmix Hlt) as (E & H1 & H2 & H3 & H4 & H5 & H6 & H7 & H8).
  unfold magic.MagicU. rewrite (Len64_log2 d W) by (destruct Hmix; lia). rewrite (factor_div W d HW Hmix Hlt). cbn -[Z.pow Z.ltb].
  set (fl := Z.log2 d) in *. set (P := 2 ^ (W + fl)) in *.
  assert (forall n m, 0 <= n < 2 ^ W -> 0 <= m < 2 ^ W -> 0 <= n * m / 2 ^ W <= n) as Hhigh.
  { intros n m Hn Hm. split; [apply Z.div_pos; nia|]. apply Z.div_le_upper_bound; nia. }
  destruct (Z.ltb_spec (to_u64 (d - P mod d)) (shl64 1 fl)) as [He|He].
  - destruct (factor_small W d HW Hmix Hlt He) as (m & e & Ed & Em & Hr & Hm). fold fl P in Ed, Em, Hr. rewrite Ed. eexists _, _, _.
    split; [done|]. rewrite truncW_mod, Z.mod_small by lia. split_and!; try lia. intros n Hn. split; [by apply Hhigh; lia|].
    rewrite div_div_pow by lia. fold P. apply (reciprocal_div P m d e); try lia. nia.
  - destruct (factor_doubled W d HW Hmix Hlt He) as (m & e & Ed & Em & Hr & Hm). fold fl P in Ed, Em, Hr. rewrite Ed.
    eexists _, _, _. split; [done|]. rewrite truncW_mod by (lia || apply Z.mod_pos_bound; lia). unfold to_u64. rewrite mod_pow_idem by lia.
    rewrite <- (Z.mod_unique_pos m (2 ^ W) 1 (m - 2 ^ W)) by lia. split_and!; try lia. intros n Hn. split; [by apply Hhigh; lia|].
    set (q := n * (m - 2 ^ W) / 2 ^ W).
    assert (n + q = n * m / 2 ^ W) as Eq by (unfold q; replace (n * (m - 2 ^ W)) with (n * m + (- n) * 2 ^ W) by ring; rewrite Z.div_add by lia; ring).
    assert ((n - q) / 2 + q = (n + q) / 2) as -> by (replace (n + q) with (n - q + q * 2) by ring; by rewrite Z.div_add by lia).
    rewrite Eq. change (n * m / 2 ^ W / 2) with (n * m / 2 ^ W / 2 ^ 1). rewrite !div_div_pow by lia.
    replace (2 ^ (W + (1 + fl))) with (2 * P) by (unfold P; rewrite <- Z.pow_succ_r by lia; f_equal; lia).
    apply (reciprocal_div (2 * P) m d e); try lia. nia.
Qed.

(** The high half of a product of two signed words is a signed word. *)
Lemma high_half H n m : 0 < H -> - H <= n < H -> - (2 * H) < m < 2 * H -> - H <= n * m / (2 * H) < H.
Proof.
  intros HH Hn Hm. split; [apply Z.div_le_lower_bound; nia|]. apply Z.div_lt_upper_bound; [lia|].
  destruct (Z.le_gt_cases 0 m), (Z.le_gt_cases 0 n); nia.
Qed.

(** A quotient rounded down becomes the quotient truncated towards zero when a negative
    one is incremented. *)
Lemma reciprocal_quot S m d e n : 0 < d -> 0 < S -> m * d = S + e -> 0 < e -> Z.abs n * e < S ->
  let q := n * m / S in q + (if q <? 0 then 1 else 0) = Z.quot n d.
Proof.
  intros Hd HS Hm He Hn q. unfold q. destruct (Z.lt_ge_cases n 0) as [Hneg|Hpos].
  - rewrite <- (Z.opp_involutive n), Z.quot_opp_l, Z.quot_div_nonneg by lia.
    rewrite (reciprocal_div_neg S m d e Hd HS Hm) by lia. pose proof (Z.div_pos (- n) d). rewrite (proj2 (Z.ltb_lt _ 0)) by lia. lia.
  - rewrite Z.quot_div_nonneg by lia. rewrite (reciprocal_div S m d e Hd HS Hm) by lia. pose proof (Z.div_pos n d). rewrite (proj2 (Z.ltb_ge _ 0)) by lia. lia.
Qed.

(** The signed quotient by multiply-high, correction, shift and rounding. *)
Lemma MagicS_spec d W : mixed_divisor d -> d < 2 ^ (W - 1) -> 2 <= W <= 64 -> exists m shift add,
  magic.MagicS d W = Some (m, shift, add) /\ - 2 ^ (W - 1) <= m < 2 ^ (W - 1) /\ 0 <= shift < W /\
  forall n, - 2 ^ (W - 1) <= n < 2 ^ (W - 1) ->
    let h := n * m / 2 ^ W in
    let q := if add then h + n else h in
    - 2 ^ (W - 1) <= h < 2 ^ (W - 1) /\ - 2 ^ (W - 1) <= q < 2 ^ (W - 1) /\
    q / 2 ^ shift + (if q / 2 ^ shift <? 0 then 1 else 0) = Z.quot n d.
Proof.
  intros Hmix Hlt HW. assert (1 <= W - 1 <= 64) as Hk by lia.
  pose proof (factor_facts (W - 1) d Hk Hmix Hlt) as (E & H1 & H2 & H3 & H4 & H5 & H6 & H7 & H8).
  unfold magic.MagicS. rewrite (Len64_log2 d (W - 1)) by (destruct Hmix; lia). rewrite (factor_div (W - 1) d Hk Hmix Hlt). cbn -[Z.pow Z.ltb].
  set (fl := Z.log2 d) in *. set (P := 2 ^ (W - 1 + fl)) in *. set (H := 2 ^ (W - 1)) in *.
  assert (2 ^ W = 2 * H) as EW by (unfold H; rewrite <- Z.pow_succ_r by lia; f_equal; lia). assert (2 ^ W <= 2 ^ 64) by (apply Z.pow_le_mono_r; lia).
  destruct (Z.ltb_spec (to_u64 (d - P mod d)) (shl64 1 fl)) as [He|He].
  - destruct (factor_small (W - 1) d Hk Hmix Hlt He) as (m & e & Ed & Em & Hr & Hm). fold fl P in Ed, Em, Hr. fold H in Hm. rewrite Ed.
    eexists _, _, _. split; [done|]. rewrite truncW_mod, Z.mod_small by lia. rewrite signW_signed by lia.
    assert (wasm.signed W m = m) as -> by (unfold wasm.signed; fold H; by rewrite (proj2 (Z.ltb_lt _ _)) by lia).
    assert (to_u64 (fl - 1) = fl - 1) as -> by (apply Z.mod_small; lia). split_and!; try lia. intros n Hn. cbn zeta.
    assert (- H <= n * m / 2 ^ W < H) as Hh by (rewrite EW; destruct (high_half H n m); lia).
    split; [done|]. split; [done|]. rewrite !div_div_pow by lia.
    replace (2 ^ (W + (fl - 1))) with P by (unfold P; f_equal; lia). apply (reciprocal_quot P m d e); try lia. nia.
  - destruct (factor_doubled (W - 1) d Hk Hmix Hlt He) as (m & e & Ed & Em & Hr & Hm). fold fl P in Ed, Em, Hr. fold H in Hm. rewrite Ed.
    eexists _, _, _. split; [done|]. rewrite truncW_mod by (lia || apply Z.mod_pos_bound; lia).
    assert (to_u64 m mod 2 ^ W = m) as -> by (unfold to_u64; rewrite mod_pow_idem by lia; apply Z.mod_small; lia). rewrite signW_signed by lia.
    assert (wasm.signed W m = m - 2 ^ W) as -> by (unfold wasm.signed; fold H; by rewrite (proj2 (Z.ltb_ge _ _)) by lia).
    split_and!; try lia. intros n Hn. cbn zeta.
    replace (n * (m - 2 ^ W)) with (n * m + (- n) * 2 ^ W) by ring. rewrite Z.div_add by lia. replace (n * m / 2 ^ W + - n + n) with (n * m / 2 ^ W) by ring.
    assert (- H <= n * m / 2 ^ W + - n < H) as Hh.
    { rewrite <- Z.div_add by lia. replace (n * m + - n * 2 ^ W) with (n * (m - 2 ^ W)) by ring. rewrite EW. destruct (high_half H n (m - 2 * H)); lia. }
    assert (- H <= n * m / 2 ^ W < H) as Hq by (rewrite EW; destruct (high_half H n m); lia).
    split; [done|]. split; [done|]. rewrite !div_div_pow by lia.
    replace (2 ^ (W + fl)) with (2 * P) by (unfold P; rewrite <- Z.pow_succ_r by lia; f_equal; lia).
    apply (reciprocal_quot (2 * P) m d e); try lia. nia.
Qed.

(** Every 32-bit dividend, by a reciprocal of 64 bits. *)
Lemma wide_reciprocal d n : mixed_divisor d -> d < 2 ^ 32 -> 0 <= n < 2 ^ 32 ->
  let f := (2 ^ 64 - 1) / d + 1 in 0 <= f < 2 ^ 64 /\ n * f / 2 ^ 64 = n / d.
Proof.
  intros Hmix Hd Hn f. destruct (mixed_between d 32 Hmix Hd) as [[H1 H2] [H3 H4]].
  pose proof (Z.div_mod (2 ^ 64 - 1) d ltac:(lia)) as Hdm. pose proof (Z.mod_pos_bound (2 ^ 64 - 1) d ltac:(lia)) as Hr.
  assert (f * d = 2 ^ 64 + (d - 1 - (2 ^ 64 - 1) mod d)) as Hf by (unfold f; lia). split.
  - split; [unfold f; pose proof (Z.div_pos (2 ^ 64 - 1) d); lia|]. destruct (Z.lt_ge_cases f (2 ^ 64)); [done|]. nia.
  - apply (reciprocal_div (2 ^ 64) f d (d - 1 - (2 ^ 64 - 1) mod d)); try lia. nia.
Qed.
