(* ===== verification/DivConst.v ===== *)
(** * Division by constants (backend/railshot/amd64)

    [tryDivByConst] replaces a division or remainder by a constant with shifts, masks or
    a multiply-high ([magicdiv.go], [bounded_unsigned_div.go]).  A method of the generator
    [fn] appends machine instructions; the instructions used here run on [machine], whose
    semantics is that of the processor: a write of 32 bits clears the upper half. *)

From stdpp Require Import base tactics numbers list functions.
From Stdlib Require Import ZArith Lia.
From S2P Require Import Prelude Bits IntFold MagicNum.
Local Open Scope Z_scope.

(** ** The machine *)

Definition RAX : Z := 0.
Definition RDX : Z := 2.

(** The instructions, by the methods of the encoder that append them.  [Spill r] stands
    for the code, empty when no value lives in [r], that stores the value in [r] to its
    slot of the frame. *)
Inductive insn : Set :=
| MovRegReg32 (dst src : Z)
| MovReg64 (dst src : Z)
| MovImm32 (r v : Z)
| MovImm64 (r v : Z)
| AluRR (opcode dst src : Z) (w : bool)
| AluRI (digit dst imm : Z) (w : bool)
| ShiftImm (digit dst count : Z) (w : bool)
| IMul (dst src : Z) (w : bool)
| ImulRI (dst imm : Z) (w : bool)
| ImulRRI (dst src imm : Z) (w : bool)
| Mul (r : Z) (w : bool)
| IMulHigh (r : Z) (w : bool)
| Neg (r : Z) (w : bool)
| Cmp (x y : Z) (w : bool)
| TrapIfE (code : Z)
| Spill (r : Z).

(** The general registers, the flag of equality, and the code of a trap.  An opcode
    without a meaning here stops the machine with code -1.  The frame is not
    shown, no instruction here reads it. *)
Record machine : Type := { rf : Z -> Z; zf : bool; fault : option Z }.

Module x86.

Definition set_reg (r v : Z) (m : machine) : machine := {| rf := <[r := v]> (rf m); zf := zf m; fault := fault m |}.
Definition set_zf (b : bool) (m : machine) : machine := {| rf := rf m; zf := b; fault := fault m |}.
Definition trap (code : Z) (m : machine) : machine := {| rf := rf m; zf := zf m; fault := Some code |}.

(** A register at the width of an operation, and its signed reading. *)
Definition rd (w : bool) (m : machine) (r : Z) : Z := rf m r mod 2 ^ wasm.width w.
Definition rds (w : bool) (m : machine) (r : Z) : Z := wasm.signed (wasm.width w) (rd w m r).
Definition wr (w : bool) (r v : Z) (m : machine) : machine := set_reg r (v mod 2 ^ wasm.width w) m.

Definition alu (opcode : Z) : option (Z -> Z -> Z) :=
  match opcode with 0x01 => Some Z.add | 0x21 => Some Z.land | 0x29 => Some Z.sub | 0x31 => Some Z.lxor | _ => None end.

Definition step (i : insn) (m : machine) : machine :=
  match fault m with
  | Some _ => m
  | None =>
      match i with
      | MovRegReg32 dst src => wr false dst (rf m src) m
      | MovReg64 dst src => set_reg dst (rf m src) m
      | MovImm32 r v => wr false r v m
      | MovImm64 r v => wr true r v m
      | AluRR opcode dst src w => match alu opcode with Some f => wr w dst (f (rd w m dst) (rd w m src)) m | None => trap (-1) m end
      | AluRI digit dst imm w =>
          match digit with
          | 4 => wr w dst (Z.land (rd w m dst) (imm mod 2 ^ wasm.width w)) m
          | 7 => set_zf (rd w m dst =? imm mod 2 ^ wasm.width w) m
          | _ => trap (-1) m
          end
      | ShiftImm digit dst count w =>
          match digit with
          | 5 => wr w dst (Z.shiftr (rd w m dst) (count mod wasm.width w)) m
          | 7 => wr w dst (Z.shiftr (rds w m dst) (count mod wasm.width w)) m
          | _ => trap (-1) m
          end
      | IMul dst src w => wr w dst (rd w m dst * rd w m src) m
      | ImulRI dst imm w => wr w dst (rd w m dst * imm) m
      | ImulRRI dst src imm w => wr w dst (rd w m src * imm) m
      | Mul r w => let p := rd w m RAX * rd w m r in wr w RDX (p / 2 ^ wasm.width w) (wr w RAX p m)
      | IMulHigh r w => let p := rds w m RAX * rds w m r in wr w RDX (p / 2 ^ wasm.width w) (wr w RAX p m)
      | Neg r w => wr w r (- rd w m r) m
      | Cmp x y w => set_zf (rd w m x =? rd w m y) m
      | TrapIfE code => if zf m then trap code m else m
      | Spill r => m
      end
  end.

Definition exec (l : list insn) (m : machine) : machine := fold_left (fun m i => step i m) l m.
End x86.

(** ** The generator *)

(** The code, the pinned registers, and the registers handed out so far. *)
Record gen : Set := { code : list insn; pinned : list Z; asked : nat }.

(** The register allocator: the [n]-th request for a register outside a list. *)
Class RegAlloc : Set := {
  alloc : nat -> list Z -> option Z;
  alloc_fresh n l r : alloc n l = Some r -> r ∉ l;
  alloc_available n l : (length l <= 12)%nat -> alloc n l <> None
}.

Definition trapDivOverflow : Z := 10.

Module dc.

Definition Gen (A : Type) : Type := M gen unit A.

Definition emit (i : insn) : Gen unit := modify (fun g => {| code := code g ++ [i]; pinned := pinned g; asked := asked g |}).
Definition set_pinned (f : list Z -> list Z) : Gen unit := modify (fun g => {| code := code g; pinned := f (pinned g); asked := asked g |}).
Definition pin (r : Z) : Gen unit := set_pinned (cons r).
Definition unpin (r : Z) : Gen unit := set_pinned (filter (fun x => x <> r)).

(** The encoder drops a shift by zero. *)
Definition shiftImm (digit dst count : Z) (w : bool) : Gen unit := if count =? 0 then ret tt else emit (ShiftImm digit dst count w).
Definition spillIfUsed (r : Z) : Gen unit := emit (Spill r).
Definition xorSelf32 (r : Z) : Gen unit := emit (AluRR 0x31 r r false).

Section Alloc.
Context `{RegAlloc}.

(** The register found is freed before it is handed out; no register left is a panic. *)
Definition allocReg (avoid : list Z) : Gen Z := fun g =>
  match alloc (asked g) (avoid ++ pinned g) with
  | Some r => (Ok r, {| code := code g ++ [Spill r]; pinned := pinned g; asked := S (asked g) |})
  | None => (Panic, g)
  end.

Definition andImm (reg imm : Z) (w : bool) : Gen unit :=
  if (- 2 ^ 31 <=? imm) && (imm <? 2 ^ 31) then emit (AluRI 4 reg imm w)
  else let! t := allocReg [reg] in emit (MovImm64 t imm) ;;; emit (AluRR 0x21 reg t w).

Definition signBias (res k W : Z) (w : bool) : Gen Z :=
  let! t := allocReg [res] in
  pin t ;;; emit (MovReg64 t res) ;;; shiftImm 7 t (W - 1) w ;;; shiftImm 5 t (W - k) w ;;; ret t.

Definition magicMulHigh (res factor : Z) (w signed : bool) : Gen Z :=
  spillIfUsed RAX ;;; spillIfUsed RDX ;;; pin RAX ;;; pin RDX ;;;
  let! mr := allocReg [RAX; RDX; res] in
  pin mr ;;; emit (MovImm64 mr factor) ;;; emit (MovReg64 RAX res) ;;;
  emit (if signed then IMulHigh mr w else Mul mr w) ;;;
  unpin mr ;;; unpin RAX ;;; unpin RDX ;;;
  let! hi := allocReg [res] in
  pin hi ;;; emit (MovReg64 hi RDX) ;;; ret hi.

Definition remFromQuot (nreg q d : Z) (w : bool) : Gen unit :=
  let! t := allocReg [nreg; q] in
  pin t ;;; emit (MovImm64 t d) ;;; emit (IMul t q w) ;;; emit (AluRR 0x29 nreg t w) ;;; unpin t.

Definition unsignedMagic32Wide (res d : Z) (wantRem : bool) : Gen unit :=
  emit (MovRegReg32 res res) ;;;
  let! q := magicMulHigh res ((2 ^ 64 - 1) / d + 1) true false in
  (if wantRem then emit (ImulRI q (to_i32 d) false) ;;; emit (AluRR 0x29 res q false)
   else emit (MovRegReg32 res q)) ;;;
  unpin q.

Definition unsignedMagic32ProductShift (res d factor shift : Z) (wantRem : bool) : Gen unit :=
  let! q := (if wantRem then let! q := allocReg [res] in pin q ;;; ret q else ret res) in
  emit (MovRegReg32 q res) ;;;
  let! mr := allocReg [res; q] in
  pin mr ;;; emit (MovImm32 mr (to_i32 factor)) ;;; emit (IMul q mr true) ;;; unpin mr ;;;
  shiftImm 5 q (32 + shift) true ;;;
  if wantRem then emit (ImulRI q (to_i32 d) false) ;;; emit (AluRR 0x29 res q false) ;;; unpin q else ret tt.

Definition divConstUnsignedMagic (res d : Z) (w wantRem : bool) : Gen unit :=
  match magic.MagicU d (wasm.width w) with
  | None => panic
  | Some (factor, shift, add) =>
      if negb w && negb add then unsignedMagic32ProductShift res (to_u32 d) (to_u32 factor) (to_u8 shift) wantRem
      else if negb w then unsignedMagic32Wide res (to_u32 d) wantRem
      else
        let! q := magicMulHigh res factor w false in
        (if add then
           let! t := allocReg [res; q] in
           pin t ;;; emit (MovReg64 t res) ;;; emit (AluRR 0x29 t q w) ;;; shiftImm 5 t 1 w ;;;
           emit (AluRR 0x01 t q w) ;;; emit (MovReg64 q t) ;;; unpin t
         else ret tt) ;;;
        (if 0 <? shift then shiftImm 5 q (to_u8 shift) w else ret tt) ;;;
        (if wantRem then remFromQuot res q (to_i64 d) w else emit (MovReg64 res q)) ;;;
        unpin q
  end.

Definition divConstSignedMagic (res d : Z) (w wantRem : bool) : Gen unit :=
  let neg := d <? 0 in
  let ad := to_u64 (if neg then to_i64 (- d) else d) in
  match magic.MagicS ad (wasm.width w) with
  | None => panic
  | Some (factor, shift, addN) =>
      let! q := magicMulHigh res (to_u64 factor) w true in
      (if addN then emit (AluRR 0x01 q res w) else ret tt) ;;;
      (if 0 <? shift then shiftImm 7 q (to_u8 shift) w else ret tt) ;;;
      let! sign := allocReg [res; q] in
      pin sign ;;; emit (MovReg64 sign q) ;;; shiftImm 5 sign (wasm.width w - 1) w ;;; emit (AluRR 0x01 q sign w) ;;; unpin sign ;;;
      (if neg then emit (Neg q w) else ret tt) ;;;
      (if wantRem then remFromQuot res q d w else emit (MovReg64 res q)) ;;;
      unpin q
  end.

Definition divConstUnsigned (res d : Z) (w wantRem : bool) : Gen unit :=
  if d =? 1 then if wantRem then xorSelf32 res else ret tt
  else if Z.land d (to_u64 (d - 1)) =? 0 then
    if wantRem then andImm res (to_i64 (to_u64 (d - 1))) w else shiftImm 5 res (to_u8 (fold.log2u d)) w
  else divConstUnsignedMagic res d w wantRem.

Definition divConstSigned (res d : Z) (w wantRem : bool) : Gen unit :=
  if wantRem && ((d =? 1) || (d =? -1)) then xorSelf32 res
  else if d =? 1 then ret tt
  else if d =? -1 then
    (if w then let! min := allocReg [res] in emit (MovImm64 min 0x8000000000000000) ;;; emit (Cmp res min true)
     else emit (AluRI 7 res (-2147483648) false)) ;;;
    emit (TrapIfE trapDivOverflow) ;;; emit (Neg res w)
  else
    let W := wasm.width w in
    let neg := d <? 0 in
    let ad := if neg then to_i64 (- d) else d in
    if Z.land ad (to_i64 (ad - 1)) =? 0 then
      let k := fold.log2u (to_u64 ad) in
      let! bias := signBias res k W w in
      (if wantRem then
         emit (AluRR 0x01 res bias w) ;;; andImm res (to_i64 (to_u64 ad - 1)) w ;;; emit (AluRR 0x29 res bias w)
       else
         emit (AluRR 0x01 res bias w) ;;; shiftImm 7 res (to_u8 k) w ;;; if neg then emit (Neg res w) else ret tt) ;;;
      unpin bias
    else divConstSignedMagic res d w wantRem.

Definition divConstUnsignedBounded (res d max multiplier shift : Z) (rem : bool) : Gen unit :=
  let! q := (if rem then let! q := allocReg [res] in pin q ;;; ret q else ret res) in
  let wide := 0xffffffff <? to_u64 (max * multiplier) in
  (if wide then emit (MovRegReg32 res res) else ret tt) ;;;
  emit (ImulRRI q res (to_i32 multiplier) wide) ;;;
  (if negb (shift =? 0) then shiftImm 5 q shift wide else ret tt) ;;;
  if rem then emit (ImulRI q (to_i32 d) false) ;;; emit (AluRR 0x29 res q false) ;;; unpin q else ret tt.
End Alloc.

(** ** Which divisions are reduced *)

(** The bound a constant mask puts on the dividend. *)
Definition constMask (e : fold.elem) : option Z :=
  match e with
  | fold.Value _ (fold.stConst c) => let mask := to_u32 c in if (0 <? mask) && (mask <=? 65535) then Some mask else None
  | _ => None
  end.

Definition boundedUnsignedDividend (e : fold.elem) : option Z :=
  match e with
  | fold.Deferred IntAnd mtI32 arg0 arg1 => match constMask arg0 with Some mask => Some mask | None => constMask arg1 end
  | _ => None
  end.

(** The first shift whose reciprocal is exact enough for every dividend up to [max]. *)
Fixpoint reciprocalFrom (fuel : nat) (s max d : Z) : option (Z * Z) :=
  match fuel with
  | O => None
  | S fuel =>
      let power := shl64 1 s in
      let m := to_u64 (power + d - 1) / d in
      let error := to_u64 (m * d - power) in
      if (m <=? 0x7fffffff) && (to_u64 (max * error) <? power) then Some (m, s) else reciprocalFrom fuel (s + 1) max d
  end.

Definition boundedUnsignedReciprocal (max d : Z) : option (Z * Z) :=
  if (max =? 0) || (65535 <? max) || (d <? 3) || (0x7fffffff <? d) || (Z.land d (to_u32 (d - 1)) =? 0) then None
  else reciprocalFrom 32 0 max d.

(** [optMagic] is the option, [magicSigned] the switch of the signed form. *)
Definition strengthReducibleWithMagic (c : Z) (w signed optMagic magicSigned : bool) : bool :=
  if c =? 0 then false
  else
    let ad := if signed then to_u64 (if c <? 0 then to_i64 (- c) else c) else if w then to_u64 c else to_u32 c in
    if Z.land ad (to_u64 (ad - 1)) =? 0 then true
    else if signed then optMagic && magicSigned else optMagic.

Definition isSigned (op : IntOp) : bool := match op with IntDivS | IntRemS => true | _ => false end.
Definition isRem (op : IntOp) : bool := match op with IntRemU | IntRemS => true | _ => false end.

(** The switches of the generator. *)
Record options : Set := { optMagicDiv : bool; magicDivSignedEnabled : bool; boundedUnsignedDivEnabled : bool }.

Definition boundedPlan (o : options) (w signed : bool) (c : Z) (arg0 : fold.elem) : option (Z * Z * Z) :=
  if boundedUnsignedDivEnabled o && negb w && negb signed then
    bound ← boundedUnsignedDividend arg0;
    '(mult, shift) ← boundedUnsignedReciprocal bound (to_u32 c);
    Some (bound, mult, shift)
  else None.

(** What the code that computes an operand into a register promises. *)
Class Condense `{RegAlloc} : Type := { condenseInto : fold.elem -> Z -> Gen unit }.

Definition divideRegister `{RegAlloc} (plan : option (Z * Z * Z)) (res c : Z) (w signed wantRem : bool) : Gen unit :=
  match plan with
  | Some (bound, mult, shift) => divConstUnsignedBounded res (to_u32 c) bound mult shift wantRem
  | None =>
      if signed then divConstSigned res c w wantRem
      else divConstUnsigned res (if w then to_u64 c else to_u32 c) w wantRem
  end.

(** The node [arg0 op c] into a register, [dest] when it is asked for; [None] leaves the
    division to the general path. *)
Definition tryDivByConst `{Condense} (o : options) (op : IntOp) (typ : machineType) (arg0 : fold.elem) (c : Z) (dest : option Z) :
    option (Gen Z) :=
  let w := is64 typ in
  let signed := isSigned op in
  if c =? 0 then None
  else if negb (strengthReducibleWithMagic c w signed (optMagicDiv o) (magicDivSignedEnabled o)) then None
  else
    let plan := boundedPlan o w signed c arg0 in
    Some (let! res := allocReg [RAX; RDX] in
          pin res ;;; condenseInto arg0 res ;;; divideRegister plan res c w signed (isRem op) ;;; unpin res ;;;
          match dest with
          | Some d => if d =? res then ret res else emit (MovReg64 d res) ;;; ret d
          | None => ret res
          end).
End dc.
