(* ===== verification/DivConstUnsigned.v ===== *)
(** * Generated code, and unsigned division by a constant

    A generator step is described by what its code does to the machine when it runs
    ([runs]); the rules follow the steps of the generator, and the rewriting base
    [machine] computes registers.  The second part applies them to the code of unsigned
    division and remainder. *)

From stdpp Require Import base tactics numbers list functions.
From Stdlib Require Import ZArith Lia.
From S2P Require Import Prelude Bits IntFold MagicNum DivConst.
Local Open Scope Z_scope.
Local Open Scope list_scope.

(** ** Registers *)

Section Machine.
Context (m : machine).

Lemma rf_set_eq r v : rf (x86.set_reg r v m) r = v.
Proof. apply fn_lookup_insert. Qed.

Lemma rf_set_ne r r' v : r' <> r -> rf (x86.set_reg r v m) r' = rf m r'.
Proof. intros H. by apply fn_lookup_insert_ne. Qed.

Lemma fault_set r v : fault (x86.set_reg r v m) = fault m.
Proof. done. Qed.

Lemma fault_zf b : fault (x86.set_zf b m) = fault m.
Proof. done. Qed.

Lemma rf_zf b r : rf (x86.set_zf b m) r = rf m r.
Proof. done. Qed.

Lemma zf_zf b : zf (x86.set_zf b m) = b.
Proof. done. Qed.

Lemma rd_zf w b r : x86.rd w (x86.set_zf b m) r = x86.rd w m r.
Proof. done. Qed.

Lemma step_spill r : x86.step (Spill r) m = m.
Proof. unfold x86.step. by destruct (fault m). Qed.

Lemma exec_app l l' : x86.exec (l ++ l') m = x86.exec l' (x86.exec l m).
Proof. apply fold_left_app. Qed.
End Machine.

Create Rewrite HintDb machine.
Create Rewrite HintDb steps.
#[export] Hint Rewrite rf_set_eq rf_zf zf_zf rd_zf fault_set fault_zf : machine.
#[export] Hint Rewrite rf_set_ne using done : machine.

(** ** The rules *)

Section Rules.
Context `{RegAlloc}.

Definition runs {A} (prog : dc.Gen A) (Q : A -> list Z -> machine -> Prop) (p : list Z) (m : machine) : Prop :=
  forall g, pinned g = p -> match prog g with
    | (Ok a, g') => exists new, code g' = code g ++ new /\ Q a (pinned g') (x86.exec new m)
    | _ => False
    end.

Lemma runs_ret {A} (a : A) Q p m : Q a p m -> runs (ret a) Q p m.
Proof. intros HQ g <-. exists []. by rewrite app_nil_r. Qed.

Lemma runs_bind {A B} (prog : dc.Gen A) (k : A -> dc.Gen B) Q p m :
  runs prog (fun a p m => runs (k a) Q p m) p m -> runs (bind prog k) Q p m.
Proof.
  intros Hp g Hg. specialize (Hp g Hg). unfold bind. destruct (prog g) as [[a| |] g'] eqn:E; [|done|done]. destruct Hp as (new & Hc & Hk).
  specialize (Hk g' eq_refl). destruct (k a g') as [[b| |] g'']; [|done|done]. destruct Hk as (new' & Hc' & HQ).
  exists (new ++ new'). by rewrite Hc', Hc, app_assoc, exec_app.
Qed.

Lemma runs_mono {A} (prog : dc.Gen A) (Q Q' : A -> list Z -> machine -> Prop) p m :
  runs prog Q p m -> (forall a p m, Q a p m -> Q' a p m) -> runs prog Q' p m.
Proof.
  intros Hp HQ g Hg. specialize (Hp g Hg). destruct (prog g) as [[a| |] g']; [|done|done]. destruct Hp as (new & Hc & Ha). exists new. by split; [|apply HQ].
Qed.

Lemma runs_emit i (Q : unit -> list Z -> machine -> Prop) p m : Q tt p (x86.step i m) -> runs (dc.emit i) Q p m.
Proof. intros HQ g <-. by exists [i]. Qed.

Lemma runs_pin r (Q : unit -> list Z -> machine -> Prop) p m : Q tt (r :: p) m -> runs (dc.pin r) Q p m.
Proof. intros HQ g <-. exists []. by rewrite app_nil_r. Qed.

Lemma runs_unpin r (Q : unit -> list Z -> machine -> Prop) p m : Q tt (filter (fun x => x <> r) p) m -> runs (dc.unpin r) Q p m.
Proof. intros HQ g <-. exists []. by rewrite app_nil_r. Qed.

Lemma runs_alloc avoid (Q : Z -> list Z -> machine -> Prop) p m :
  (length avoid + length p <= 12)%nat -> (forall r, r ∉ avoid -> r ∉ p -> Q r p m) -> runs (dc.allocReg avoid) Q p m.
Proof.
  intros Hl HQ g <-. unfold dc.allocReg. destruct (alloc (asked g) (avoid ++ pinned g)) as [r|] eqn:E.
  - exists [Spill r]. split; [done|]. unfold x86.exec. cbn [fold_left pinned]. rewrite step_spill. apply alloc_fresh in E. rewrite elem_of_app in E. apply HQ; tauto.
  - exfalso. apply (alloc_available (asked g) (avoid ++ pinned g)); [|done]. by rewrite length_app.
Qed.

Lemma runs_shift digit dst count w (Q : unit -> list Z -> machine -> Prop) p m :
  Q tt p (if count =? 0 then m else x86.step (ShiftImm digit dst count w) m) -> runs (dc.shiftImm digit dst count w) Q p m.
Proof. intros HQ. unfold dc.shiftImm. destruct (count =? 0); [by apply runs_ret|by apply runs_emit]. Qed.

Lemma runs_shift_some digit dst count w (Q : unit -> list Z -> machine -> Prop) p m :
  count <> 0 -> Q tt p (x86.step (ShiftImm digit dst count w) m) -> runs (dc.shiftImm digit dst count w) Q p m.
Proof. intros Hc HQ. apply runs_shift. by rewrite (proj2 (Z.eqb_neq _ 0) Hc). Qed.
End Rules.

(** ** Pins *)

Lemma unpin_here (r : Z) p : r ∉ p -> filter (fun x => x <> r) (r :: p) = p.
Proof.
  intros Hr. rewrite filter_cons_False by tauto. induction p as [|x p IH]; [done|]. rewrite not_elem_of_cons in Hr.
  rewrite filter_cons_True by (intros ->; tauto). by rewrite IH by tauto.
Qed.

Lemma unpin_later (r x : Z) p : x <> r -> filter (fun x => x <> r) (x :: p) = x :: filter (fun x => x <> r) p.
Proof. intros Hx. by rewrite filter_cons_True. Qed.

(** ** Steps *)

Section Steps.
Context (m : machine) (Hm : fault m = None).

Lemma step_mov32 d s : x86.step (MovRegReg32 d s) m = x86.wr false d (rf m s) m.
Proof. unfold x86.step. by rewrite Hm. Qed.
Lemma step_mov64 d s : x86.step (MovReg64 d s) m = x86.set_reg d (rf m s) m.
Proof. unfold x86.step. by rewrite Hm. Qed.
Lemma step_imm32 r v : x86.step (MovImm32 r v) m = x86.wr false r v m.
Proof. unfold x86.step. by rewrite Hm. Qed.
Lemma step_imm64 r v : x86.step (MovImm64 r v) m = x86.wr true r v m.
Proof. unfold x86.step. by rewrite Hm. Qed.
Lemma step_add d s w : x86.step (AluRR 0x01 d s w) m = x86.wr w d (x86.rd w m d + x86.rd w m s) m.
Proof. unfold x86.step. by rewrite Hm. Qed.
Lemma step_sub d s w : x86.step (AluRR 0x29 d s w) m = x86.wr w d (x86.rd w m d - x86.rd w m s) m.
Proof. unfold x86.step. by rewrite Hm. Qed.
Lemma step_and d s w : x86.step (AluRR 0x21 d s w) m = x86.wr w d (Z.land (x86.rd w m d) (x86.rd w m s)) m.
Proof. unfold x86.step. by rewrite Hm. Qed.
Lemma step_xor d s w : x86.step (AluRR 0x31 d s w) m = x86.wr w d (Z.lxor (x86.rd w m d) (x86.rd w m s)) m.
Proof. unfold x86.step. by rewrite Hm. Qed.
Lemma step_andImm d imm w : x86.step (AluRI 4 d imm w) m = x86.wr w d (Z.land (x86.rd w m d) (imm mod 2 ^ wasm.width w)) m.
Proof. unfold x86.step. by rewrite Hm. Qed.
Lemma step_cmpImm d imm w : x86.step (AluRI 7 d imm w) m = x86.set_zf (x86.rd w m d =? imm mod 2 ^ wasm.width w) m.
Proof. unfold x86.step. by rewrite Hm. Qed.
Lemma step_shr d k w : x86.step (ShiftImm 5 d k w) m = x86.wr w d (Z.shiftr (x86.rd w m d) (k mod wasm.width w)) m.
Proof. unfold x86.step. by rewrite Hm. Qed.
Lemma step_sar d k w : x86.step (ShiftImm 7 d k w) m = x86.wr w d (Z.shiftr (x86.rds w m d) (k mod wasm.width w)) m.
Proof. unfold x86.step. by rewrite Hm. Qed.
Lemma step_imul d s w : x86.step (IMul d s w) m = x86.wr w d (x86.rd w m d * x86.rd w m s) m.
Proof. unfold x86.step. by rewrite Hm. Qed.
Lemma step_imulImm d imm w : x86.step (ImulRI d imm w) m = x86.wr w d (x86.rd w m d * imm) m.
Proof. unfold x86.step. by rewrite Hm. Qed.
Lemma step_imul3 d s imm w : x86.step (ImulRRI d s imm w) m = x86.wr w d (x86.rd w m s * imm) m.
Proof. unfold x86.step. by rewrite Hm. Qed.
Lemma step_mul r w : x86.step (Mul r w) m =
  x86.wr w RDX (x86.rd w m RAX * x86.rd w m r / 2 ^ wasm.width w) (x86.wr w RAX (x86.rd w m RAX * x86.rd w m r) m).
Proof. unfold x86.step. by rewrite Hm. Qed.
Lemma step_imulHigh r w : x86.step (IMulHigh r w) m =
  x86.wr w RDX (x86.rds w m RAX * x86.rds w m r / 2 ^ wasm.width w) (x86.wr w RAX (x86.rds w m RAX * x86.rds w m r) m).
Proof. unfold x86.step. by rewrite Hm. Qed.
Lemma step_neg r w : x86.step (Neg r w) m = x86.wr w r (- x86.rd w m r) m.
Proof. unfold x86.step. by rewrite Hm. Qed.
Lemma step_cmp x y w : x86.step (Cmp x y w) m = x86.set_zf (x86.rd w m x =? x86.rd w m y) m.
Proof. unfold x86.step. by rewrite Hm. Qed.
Lemma step_trap c : x86.step (TrapIfE c) m = if zf m then x86.trap c m else m.
Proof. unfold x86.step. by rewrite Hm. Qed.

(** A machine that has trapped does nothing. *)
Lemma step_trapped i c : x86.step i (x86.trap c m) = x86.trap c m.
Proof using. done. Qed.

(** Reads after writes. *)
Lemma rd_set_eq w r v : x86.rd w (x86.set_reg r v m) r = v mod 2 ^ wasm.width w.
Proof using. unfold x86.rd. by rewrite rf_set_eq. Qed.
Lemma rd_set_ne w r r' v : r' <> r -> x86.rd w (x86.set_reg r v m) r' = x86.rd w m r'.
Proof using. intros H. unfold x86.rd. by rewrite rf_set_ne. Qed.
Lemma rd_range w r : 0 <= x86.rd w m r < 2 ^ wasm.width w.
Proof using. apply Z.mod_pos_bound. by destruct w. Qed.
Lemma rd_mod w r : x86.rd w m r mod 2 ^ wasm.width w = x86.rd w m r.
Proof using. apply Z.mod_small, rd_range. Qed.
Lemma rf_rd w r : rf m r mod 2 ^ wasm.width w = x86.rd w m r.
Proof using. done. Qed.
End Steps.

#[export] Hint Rewrite step_mov32 step_mov64 step_imm32 step_imm64 step_add step_sub step_and step_xor step_andImm step_cmpImm step_shr step_sar
  step_imul step_imulImm step_imul3 step_mul step_imulHigh step_neg step_cmp step_trap step_spill using done : steps.
Lemma mod_twice w v : v mod 2 ^ wasm.width w mod 2 ^ wasm.width w = v mod 2 ^ wasm.width w.
Proof. by rewrite Z.mod_mod by (by destruct w). Qed.

#[export] Hint Rewrite rd_set_eq rd_mod rf_rd mod_twice : machine.
#[export] Hint Rewrite rd_set_ne using done : machine.

(** Compute the machine. *)
Ltac machine := unfold x86.wr, x86.rds in *; autorewrite with machine.

(** Follow a generator up to its next request for a register. *)
Ltac follow := repeat first [apply runs_bind | apply runs_pin | apply runs_unpin | apply runs_ret
  | apply runs_emit; autorewrite with steps; machine | apply runs_shift_some; [lia|autorewrite with steps; machine]].

(** Split the facts about a fresh register. *)
Ltac fresh_regs := repeat (match goal with
  | H : _ ∉ _ :: _ |- _ => apply not_elem_of_cons in H as [? ?]
  | H : _ ∉ [] |- _ => clear H
  end).

(** ** Unsigned division *)

(** A register written, the other pinned registers kept. *)
Definition wrote (w : bool) (res v : Z) (p : list Z) (m m' : machine) : Prop :=
  fault m' = None /\ x86.rd w m' res = v /\ forall r, r ∈ p -> r <> res -> rf m' r = rf m r.

Lemma width_pos w : 0 < wasm.width w.
Proof. by destruct w. Qed.
#[export] Hint Resolve width_pos : core.

Lemma width_pow w : 0 < 2 ^ wasm.width w.
Proof. by destruct w. Qed.
#[export] Hint Resolve width_pow : core.

(** A pinned register is not a fresh one. *)
Lemma pinned_ne (p : list Z) r r' : r ∈ p -> r' ∉ p -> r <> r'.
Proof. by intros H H' ->. Qed.
#[export] Hint Resolve pinned_ne : core.

(** Shifting out all bits but the sign. *)
Lemma sar_sign n s : 0 < n -> - 2 ^ (n - 1) <= s < 2 ^ (n - 1) -> Z.shiftr s (n - 1) = if s <? 0 then -1 else 0.
Proof.
  intros Hn Hs. rewrite Z.shiftr_div_pow2 by lia. assert (0 < 2 ^ (n - 1)) by (apply Z.pow_pos_nonneg; lia). destruct (Z.ltb_spec s 0).
  - symmetry. apply Z.div_unique_pos with (s + 2 ^ (n - 1)); lia.
  - by rewrite Z.div_small by lia.
Qed.

(** A 64-bit immediate at the width it is used at. *)
Lemma imm64_mod w v : v mod 2 ^ wasm.width true mod 2 ^ wasm.width w = v mod 2 ^ wasm.width w.
Proof. apply mod_pow_idem. by destruct w. Qed.

Definition quotient_or_rem (wantRem : bool) (n d : Z) : Z := if wantRem then n mod d else n / d.

Lemma qr_range wantRem n d W : 0 <= n < W -> 0 < d -> 0 <= quotient_or_rem wantRem n d < W.
Proof.
  intros Hn Hd. unfold quotient_or_rem. destruct wantRem.
  - pose proof (Z.mod_pos_bound n d Hd). pose proof (Z.mod_le n d). lia.
  - split; [apply Z.div_pos; lia|]. apply Z.div_lt_upper_bound; nia.
Qed.

(** The remainder from the quotient, in words. *)
Lemma rem_word W n d d' : 0 < W -> 0 <= n < 2 ^ W -> 0 < d -> d' mod 2 ^ W = d mod 2 ^ W -> (n - n / d * d') mod 2 ^ W = n mod d.
Proof.
  intros HW Hn Hd Hdd. assert (0 < 2 ^ W) by (apply Z.pow_pos_nonneg; lia).
  rewrite <- Zminus_mod_idemp_r, <- Z.mul_mod_idemp_r, Hdd, Z.mul_mod_idemp_r, Zminus_mod_idemp_r by lia.
  rewrite (Z.mul_comm (n / d)), <- Z.mod_eq by lia. apply Z.mod_small. pose proof (qr_range true n d (2 ^ W) Hn Hd). done.
Qed.

Ltac widths := change (wasm.width true) with 64 in *; change (wasm.width false) with 32 in *.

Lemma to_u32_mod x n : 0 <= n <= 32 -> to_u32 x mod 2 ^ n = x mod 2 ^ n.
Proof. apply mod_pow_idem. Qed.

Section Helpers.
Context `{RegAlloc} (p : list Z) (m : machine) (Hm : fault m = None) (Hlen : (length p <= 7)%nat).

Lemma andImm_runs reg imm w : reg ∈ p -> 0 <= imm < 2 ^ wasm.width w ->
  runs (dc.andImm reg imm w) (fun _ p' m' => p' = p /\ wrote w reg (Z.land (x86.rd w m reg) imm) p m m') p m.
Proof using All.
  intros Hreg Himm. assert (forall x, 0 <= x < 2 ^ wasm.width w -> Z.land x imm mod 2 ^ wasm.width w = Z.land x imm) as Hl.
  { intros x Hx. rewrite land_mod by (pose proof (width_pos w); lia). by rewrite !Z.mod_small. }
  unfold dc.andImm. destruct (_ && _).
  - follow. machine. split; [done|]. split_and!; machine; [done| |].
    + rewrite (Z.mod_small imm) by done. apply Hl, rd_range.
    + intros r Hr Hne. by machine.
  - follow. apply runs_alloc; [cbn; lia|]. intros t Ht Htp. fresh_regs. follow. machine. split; [done|].
    assert (reg <> t) by eauto. split_and!; machine; [done| |].
    + assert (imm mod 2 ^ wasm.width true mod 2 ^ wasm.width w = imm) as ->; [|apply Hl, rd_range].
      rewrite (Z.mod_small imm (2 ^ wasm.width true)); [by rewrite Z.mod_small|]. split; [lia|]. destruct w; [apply Himm|]. cbn in *. lia.
    + intros r Hr Hne. assert (r <> t) by eauto. by machine.
Qed.

Lemma signBias_runs res k w : res ∈ p -> 1 <= k < wasm.width w ->
  runs (dc.signBias res k (wasm.width w) w) (fun t p' m' => p' = t :: p /\ (t ∉ p) /\ fault m' = None /\
    x86.rd w m' t = (if x86.rds w m res <? 0 then 2 ^ k - 1 else 0) /\ forall r, r ∈ p -> rf m' r = rf m r) p m.
Proof using All.
  intros Hres Hk. follow. apply runs_alloc; [cbn; lia|]. intros t Ht Htp. fresh_regs. follow. assert (res <> t) by eauto.
  machine. split; [done|]. split; [done|]. split; [by machine|]. split.
  - machine. rewrite (Z.mod_small (wasm.width w - 1)), (Z.mod_small (wasm.width w - k)) by lia.
    pose proof (signed_range (wasm.width w) (x86.rd w m res) (width_pos w) (rd_range m w res)) as Hs.
    set (s := wasm.signed (wasm.width w) (x86.rd w m res)) in *. rewrite sar_sign by (pose proof (width_pos w); done || lia).
    destruct (s <? 0); [|by rewrite Z.mod_0_l, Z.shiftr_0_l, Z.mod_0_l by (pose proof (width_pow w); lia)].
    pose proof (width_pow w). rewrite <- (Z.mod_unique_pos (-1) (2 ^ wasm.width w) (-1) (2 ^ wasm.width w - 1)) by lia.
    assert (Z.shiftr (2 ^ wasm.width w - 1) (wasm.width w - k) = 2 ^ k - 1) as ->.
    { rewrite Z.shiftr_div_pow2 by lia. assert (2 ^ wasm.width w = 2 ^ (wasm.width w - k) * 2 ^ k) as -> by (rewrite <- Z.pow_add_r by lia; f_equal; lia).
      assert (0 < 2 ^ (wasm.width w - k)) by (apply Z.pow_pos_nonneg; lia). symmetry. apply Z.div_unique_pos with (2 ^ (wasm.width w - k) - 1); lia. }
    apply Z.mod_small. assert (0 < 2 ^ k <= 2 ^ wasm.width w) by (split; [apply Z.pow_pos_nonneg; lia|apply Z.pow_le_mono_r; lia]). lia.
  - intros r Hr. assert (r <> t) by eauto. by machine.
Qed.

Lemma remFromQuot_runs nreg q d w : nreg ∈ p -> q ∈ p -> nreg <> q ->
  runs (dc.remFromQuot nreg q d w) (fun _ p' m' => p' = p /\
    wrote w nreg ((x86.rd w m nreg - d * x86.rd w m q) mod 2 ^ wasm.width w) p m m') p m.
Proof using All.
  intros Hn Hq Hnq. follow. apply runs_alloc; [cbn; lia|]. intros t Ht Htp. fresh_regs. follow. rewrite unpin_here by done. split; [done|].
  assert (nreg <> t) by eauto. assert (q <> t) by eauto. machine. split_and!; machine; [done| |].
  - rewrite imm64_mod. rewrite Zminus_mod_idemp_r. rewrite <- (Zminus_mod_idemp_r _ (d mod _ * _)), Z.mul_mod_idemp_l by (pose proof (width_pow w); lia).
    by rewrite Zminus_mod_idemp_r.
  - intros r Hr Hne. assert (r <> t) by eauto. by machine.
Qed.

(** The high half of a product, unsigned and signed. *)
Definition high (w signed : bool) (x y : Z) : Z :=
  let W := wasm.width w in
  if signed then (wasm.signed W x * wasm.signed W y / 2 ^ W) mod 2 ^ W else (x * y / 2 ^ W) mod 2 ^ W.

Lemma magicMulHigh_runs res factor w signed : res ∈ p -> RAX ∉ p -> RDX ∉ p ->
  runs (dc.magicMulHigh res factor w signed) (fun q p' m' => p' = q :: p /\ (q ∉ p) /\ fault m' = None /\
    x86.rd w m' q = high w signed (x86.rd w m res) (factor mod 2 ^ wasm.width w) /\ forall r, r ∈ p -> rf m' r = rf m r) p m.
Proof using All.
  intros Hres Ha Hd. assert (res <> RAX) by eauto. assert (res <> RDX) by eauto. assert (RAX <> RDX) by done.
  destruct signed; (follow; apply runs_alloc; [cbn; lia|]; intros mr Hmr Hmp; fresh_regs; assert (res <> mr) by done;
    follow; rewrite (unpin_here mr) by (by rewrite !not_elem_of_cons); rewrite unpin_later, (unpin_here RAX), (unpin_here RDX) by done;
    apply runs_alloc; [cbn; lia|]; intros hi Hhi Hhp; fresh_regs; follow; split; [done|]; split; [done|]; split; [done|]; split;
    [|intros r Hr; assert (r <> mr) by eauto; assert (r <> hi) by eauto; assert (r <> RAX) by eauto; assert (r <> RDX) by eauto; by machine];
    machine; by rewrite imm64_mod).
Qed.

End Helpers.

#[local] Opaque dc.andImm dc.signBias dc.magicMulHigh dc.remFromQuot.

(** ** Unsigned division *)

Section Unsigned.
Context `{RegAlloc} (p : list Z) (m : machine) (Hm : fault m = None) (Hlen : (length p <= 6)%nat).

Lemma productShift_runs res d factor shift wantRem : res ∈ p -> mixed_divisor d -> d < 2 ^ 32 -> magic.MagicU d 32 = Some (factor, shift, false) ->
  runs (dc.unsignedMagic32ProductShift res (to_u32 d) (to_u32 factor) (to_u8 shift) wantRem)
    (fun _ p' m' => p' = p /\ wrote false res (quotient_or_rem wantRem (x86.rd false m res) d) p m m') p m.
Proof using All.
  intros Hres Hmix Hd HM. destruct (MagicU_spec d 32 Hmix Hd) as (f & s & a & HM' & Hf & Hs & Hq); [lia|].
  rewrite HM in HM'. injection HM' as <- <- <-. assert (0 < d) by (destruct Hmix; lia).
  set (n := x86.rd false m res). assert (0 <= n < 2 ^ 32) as Hn by apply rd_range. destruct (Hq n Hn) as [_ Hdiv].
  rewrite div_div_pow in Hdiv by lia. assert (to_u8 shift = shift) as -> by (apply Z.mod_small; lia). assert (to_u32 factor = factor) as -> by (apply Z.mod_small; lia).
  assert (Hval : forall x y, x = n -> y = factor -> Z.shiftr ((x * y) mod 2 ^ 64) ((32 + shift) mod 64) = n / d).
  { intros x y -> ->. rewrite (Z.mod_small (n * factor)) by nia. rewrite Z.mod_small by lia. rewrite Z.shiftr_div_pow2 by lia. exact Hdiv. }
  assert (Hn64 : n mod 2 ^ 64 = n) by (apply Z.mod_small; lia).
  assert (Hf64 : (to_i32 factor) mod 2 ^ 32 mod 2 ^ 64 = factor) by (rewrite to_i32_mod, (Z.mod_small factor (2 ^ 32)) by lia; apply Z.mod_small; lia).
  assert (0 <= n / d < 2 ^ 32) as Hr by apply (qr_range false n d (2 ^ 32) Hn H0).
  unfold dc.unsignedMagic32ProductShift. destruct wantRem.
  - follow. apply runs_alloc; [cbn; lia|]. intros q Hq' Hqp. fresh_regs. assert (res <> q) by done. follow.
    apply runs_alloc; [cbn; lia|]. intros mr Hmr Hmp. fresh_regs. follow. rewrite (unpin_here mr) by (by rewrite not_elem_of_cons). rewrite unpin_here by done.
    split; [done|]. split_and!; [by machine| |].
    + machine. widths. fold n. rewrite Hn64, Hf64, (Hval n factor), !(Z.mod_small (n / d)) by (done || lia).
      rewrite Zminus_mod_idemp_r. apply rem_word; try done; try lia. by rewrite to_i32_mod, to_u32_mod by lia.
    + intros r Hr' Hne. assert (r <> q) by eauto. assert (r <> mr) by eauto. by machine.
  - follow. apply runs_alloc; [cbn; lia|]. intros mr Hmr Hmp. fresh_regs. follow. rewrite (unpin_here mr) by done.
    split; [done|]. split_and!; [by machine| |].
    + machine. widths. fold n. rewrite Hn64, Hf64, (Hval n factor), !(Z.mod_small (n / d)) by (done || lia). done.
    + intros r Hr' Hne. assert (r <> mr) by eauto. by machine.
Qed.

Lemma wide_runs res d wantRem : res ∈ p -> RAX ∉ p -> RDX ∉ p -> mixed_divisor d -> d < 2 ^ 32 ->
  runs (dc.unsignedMagic32Wide res (to_u32 d) wantRem)
    (fun _ p' m' => p' = p /\ wrote false res (quotient_or_rem wantRem (x86.rd false m res) d) p m m') p m.
Proof using All.
  intros Hres Ha Hd' Hmix Hd. assert (to_u32 d = d) as Hd32 by (apply Z.mod_small; destruct Hmix; lia). rewrite Hd32.
  set (n := x86.rd false m res). assert (0 <= n < 2 ^ 32) as Hn by apply rd_range. destruct (wide_reciprocal d n Hmix Hd Hn) as [Hf Hq].
  assert (0 < d) as H0 by (destruct Hmix; lia). assert (0 <= n / d < 2 ^ 32) as Hr by apply (qr_range false n d (2 ^ 32) Hn H0).
  follow. eapply runs_mono; [apply magicMulHigh_runs; done || lia|]. intros q p' m' (-> & Hqp & Hf' & Hval & Hkeep).
  assert (res <> q) by eauto. assert (x86.rd true m' q = n / d) as Hq'.
  { rewrite Hval. unfold high. machine. widths. fold n. rewrite (Z.mod_small n), (Z.mod_small (_ + 1)), Hq by lia. apply Z.mod_small. lia. }
  assert (x86.rd false m' q = n / d) as Hq32.
  { unfold x86.rd in *. rewrite <- (imm64_mod false), Hq'. apply Z.mod_small. done. }
  assert (x86.rd false m' res = n) as Hn' by (unfold x86.rd at 1; rewrite Hkeep by done; by machine).
  destruct wantRem; follow; rewrite unpin_here by done; (split; [done|]); split_and!; try done; machine.
  - rewrite Hq32, Hn'. widths. rewrite Zminus_mod_idemp_r. apply rem_word; try done; try lia. by rewrite to_i32_mod by lia.
  - intros r Hr' Hne. assert (r <> q) by eauto. machine. rewrite Hkeep by done. by machine.
  - by rewrite Hq32.
  - intros r Hr' Hne. machine. rewrite Hkeep by done. by machine.
Qed.

(** From the quotient in its own register to the result. *)
Lemma finish_runs (w wantRem : bool) res q d d' n m' : res ∈ p -> q ∉ p -> fault m' = None -> (forall r, r ∈ p -> rf m' r = rf m r) ->
  x86.rd w m res = n -> 0 < d -> d' mod 2 ^ wasm.width w = d mod 2 ^ wasm.width w -> x86.rd w m' q = n / d ->
  runs (bind (if wantRem then dc.remFromQuot res q d' w else dc.emit (MovReg64 res q)) (fun _ => dc.unpin q))
    (fun (_ : unit) p' m'' => p' = p /\ wrote w res (quotient_or_rem wantRem n d) p m m'') (q :: p) m'.
Proof using All.
  intros Hres Hq Hf Hkeep Hn Hd Hdd Hqv. assert (res <> q) by eauto.
  assert (x86.rd w m' res = n) as Hn' by (unfold x86.rd in *; by rewrite Hkeep). destruct wantRem.
  - apply runs_bind. eapply runs_mono.
    { apply remFromQuot_runs; [done|cbn; lia|by right|by left|done]. }
    intros ? p' m'' [-> (Hf' & Hv & Hk)]. follow. rewrite unpin_here by done. split; [done|]. split_and!; [done| |].
    + rewrite Hv, Hn', Hqv, (Z.mul_comm d'). subst n. apply rem_word; [by destruct w|apply rd_range|done|done].
    + intros r Hr Hne. rewrite Hk; [by apply Hkeep|by right|done].
  - follow. rewrite unpin_here by done. split; [done|]. split_and!; [done|by machine|].
    intros r Hr Hne. machine. by apply Hkeep.
Qed.

Lemma unsignedMagic_runs w res d wantRem : res ∈ p -> RAX ∉ p -> RDX ∉ p -> mixed_divisor d -> d < 2 ^ wasm.width w ->
  runs (dc.divConstUnsignedMagic res d w wantRem)
    (fun _ p' m' => p' = p /\ wrote w res (quotient_or_rem wantRem (x86.rd w m res) d) p m m') p m.
Proof using All.
  intros Hres Ha Hd' Hmix Hd. unfold dc.divConstUnsignedMagic.
  destruct (MagicU_spec d (wasm.width w) Hmix Hd) as (f & s & add & HM & Hf & Hs & Hq); [by destruct w|]. rewrite HM.
  destruct w; cbn [negb andb]; [|destruct add; cbn [negb]; [by apply wide_runs|by apply productShift_runs]]. widths.
  set (n := x86.rd true m res). assert (0 <= n < 2 ^ 64) as Hn by apply rd_range. specialize (Hq n Hn). destruct Hq as [Hq0 Hq].
  set (q0 := n * f / 2 ^ 64) in *. apply runs_bind. eapply runs_mono; [apply magicMulHigh_runs; done || lia|].
  intros q p' m' (-> & Hqp & Hf' & Hval & Hkeep). assert (res <> q) by eauto.
  assert (x86.rd true m' q = q0) as Hq'.
  { rewrite Hval. unfold high. widths. fold n. rewrite (Z.mod_small f) by done. fold q0. apply Z.mod_small. lia. }
  assert (x86.rd true m' res = n) as Hn' by (unfold x86.rd in *; by rewrite Hkeep). assert (0 < d) by (destruct Hmix; lia).
  apply runs_bind. eapply (runs_mono _ (fun _ p' m' => p' = q :: p /\ fault m' = None /\ x86.rd true m' q / 2 ^ s = n / d /\ forall r, r ∈ p -> rf m' r = rf m r)).
  - destruct add.
    + apply runs_bind, runs_alloc; [cbn; lia|]. intros t Ht Htp. fresh_regs. follow. rewrite unpin_here by (by rewrite not_elem_of_cons).
      split; [done|]. split; [done|]. split.
      * machine. rewrite Hn', Hq'. widths. change (1 mod 64) with 1. rewrite Z.shiftr_div_pow2 by lia. change (2 ^ 1) with 2.
        rewrite (Z.mod_small (n - q0)) by lia. pose proof (Z.div_pos (n - q0) 2 ltac:(lia) ltac:(lia)). pose proof (Z.mul_div_le (n - q0) 2 ltac:(lia)).
        rewrite (Z.mod_small ((n - q0) / 2)), (Z.mod_small (_ + _)) by lia. done.
      * intros r Hr. assert (r <> t) by eauto. assert (r <> q) by eauto. machine. by apply Hkeep.
    + follow. split_and!; try done. by rewrite Hq'.
  - intros ? p' m'' (-> & Hf2 & Hq2 & Hk2). apply runs_bind.
    eapply (runs_mono _ (fun _ p' m' => p' = q :: p /\ fault m' = None /\ x86.rd true m' q = n / d /\ forall r, r ∈ p -> rf m' r = rf m r)).
    + assert (to_u8 s = s) as -> by (apply Z.mod_small; lia). destruct (Z.ltb_spec 0 s) as [Hs0|Hs0]; follow.
      * split; [done|]. split; [done|]. split; [|intros r Hr; assert (r <> q) by eauto; machine; by apply Hk2].
        machine. widths. rewrite (Z.mod_small s), Z.shiftr_div_pow2, Hq2 by lia. apply Z.mod_small. apply (qr_range false n d); lia.
      * split_and!; try done. rewrite <- Hq2. replace s with 0 by lia. by rewrite Z.div_1_r.
    + intros ? p' m3 (-> & Hf3 & Hq3 & Hk3). apply finish_runs; try done. apply to_i64_mod. by widths.
Qed.

Lemma powerOfTwo_log d : 2 <= d < 2 ^ 64 -> Z.land d (d - 1) = 0 -> let k := Z.log2 d in d = 2 ^ k /\ 1 <= k < 64 /\ fold.log2u d = k.
Proof using.
  clear. intros Hd Hl k. split; [by apply power_of_two; [lia|]|]. split; [split|].
  - apply Z.log2_le_pow2; lia.
  - apply Z.log2_lt_pow2; lia.
  - apply log2u_log2. lia.
Qed.

(** [divConstUnsigned]: every divisor. *)
Lemma unsigned_runs w res d wantRem : res ∈ p -> RAX ∉ p -> RDX ∉ p -> 0 < d < 2 ^ wasm.width w ->
  runs (dc.divConstUnsigned res d w wantRem)
    (fun _ p' m' => p' = p /\ wrote w res (quotient_or_rem wantRem (x86.rd w m res) d) p m m') p m.
Proof using All.
  intros Hres Ha Hd' Hd. pose proof (rd_range m w res) as Hn. set (n := x86.rd w m res) in *. pose proof (width_pow w).
  assert (2 ^ wasm.width w <= 2 ^ 64) by (by destruct w). assert (to_u64 (d - 1) = d - 1) as Hd1 by (apply Z.mod_small; lia).
  unfold dc.divConstUnsigned, dc.xorSelf32. rewrite Hd1. destruct (Z.eqb_spec d 1) as [->|Hne]; [destruct wantRem; follow; (split; [done|])|].
  - split_and!; [by machine| |intros r Hr Hrr; by machine]. machine. cbn [quotient_or_rem]. rewrite Z.lxor_nilpotent, Z.mod_1_r. by rewrite !Z.mod_0_l by (pose proof (width_pow false); lia).
  - split_and!; try done. cbn [quotient_or_rem]. by rewrite Z.div_1_r.
  - destruct (Z.eqb_spec (Z.land d (d - 1)) 0) as [Hl|Hl]; [|by apply unsignedMagic_runs; [..|split|]; try done; lia].
    destruct (powerOfTwo_log d ltac:(lia) Hl) as (Ed & Hk & Elog). rewrite Elog. set (k := Z.log2 d) in *.
    assert (k < wasm.width w) as Hkw by (apply (Z.pow_lt_mono_r_iff 2); [lia|pose proof (width_pos w); lia|lia]). destruct wantRem.
    + assert (d <= 2 ^ 63) by (rewrite Ed; apply Z.pow_le_mono_r; lia). rewrite to_i64_id by lia.
      eapply runs_mono; [apply andImm_runs; done || lia|]. intros ? p' m' [-> (Hf & Hv & Hk')]. split; [done|]. split_and!; [done| |done].
      rewrite Hv. fold n. cbn [quotient_or_rem]. rewrite Ed. replace (2 ^ k - 1) with (Z.ones k) by (rewrite Z.ones_equiv; lia). apply Z.land_ones. lia.
    + assert (to_u8 k = k) as -> by (apply Z.mod_small; lia). follow. split; [done|]. split_and!; [by machine| |intros r Hr Hrr; by machine].
      machine. fold n. rewrite (Z.mod_small k), Z.shiftr_div_pow2 by lia. cbn [quotient_or_rem]. rewrite <- Ed. apply Z.mod_small. apply (qr_range false n d); lia.
Qed.
End Unsigned.
