(* ===== verification/DivConstSigned.v ===== *)
(** * Constant division: the signed forms

    Division towards zero by any constant: the overflow check for -1, the biased shift
    for powers of two, and the signed multiply-high. *)

From stdpp Require Import base tactics numbers list functions.
From Stdlib Require Import ZArith Lia.
From S2P Require Import Prelude Bits IntFold MagicNum DivConst DivConstUnsigned.
Local Open Scope Z_scope.
Local Open Scope list_scope.

#[local] Opaque dc.andImm dc.signBias dc.magicMulHigh dc.remFromQuot.

(** Quotient and remainder of signed words, as words. *)
Definition signed_qr (w wantRem : bool) (s d : Z) : Z := (if wantRem then Z.rem s d else Z.quot s d) mod 2 ^ wasm.width w.

Definition in_signed (w : bool) (x : Z) : Prop := - 2 ^ (wasm.width w - 1) <= x < 2 ^ (wasm.width w - 1).

Lemma width_double w : 2 ^ wasm.width w = 2 * 2 ^ (wasm.width w - 1).
Proof. by destruct w. Qed.

Lemma half_pow w : 0 < 2 ^ (wasm.width w - 1).
Proof. by destruct w. Qed.
#[local] Hint Resolve half_pow : core.

Lemma half_le w : 2 ^ (wasm.width w - 1) <= 2 ^ 63.
Proof. by destruct w. Qed.

Lemma signed_word w x : in_signed w x -> wasm.signed (wasm.width w) (x mod 2 ^ wasm.width w) = x.
Proof. intros Hx. apply signed_id; [by destruct w|done]. Qed.

Lemma word_signed w x : 0 <= x < 2 ^ wasm.width w -> wasm.signed (wasm.width w) x mod 2 ^ wasm.width w = x.
Proof. intros Hx. rewrite signed_mod by (by destruct w). by apply Z.mod_small. Qed.

(** Sums, differences and products of words only depend on the residues. *)
Lemma add_words W x y x' y' : x mod W = x' mod W -> y mod W = y' mod W -> (x + y) mod W = (x' + y') mod W.
Proof. intros Hx Hy. by rewrite Zplus_mod, Hx, Hy, <- Zplus_mod. Qed.

Lemma sub_words W x y x' y' : x mod W = x' mod W -> y mod W = y' mod W -> (x - y) mod W = (x' - y') mod W.
Proof. intros Hx Hy. by rewrite Zminus_mod, Hx, Hy, <- Zminus_mod. Qed.

Lemma mul_words W x y x' y' : x mod W = x' mod W -> y mod W = y' mod W -> (x * y) mod W = (x' * y') mod W.
Proof. intros Hx Hy. by rewrite Zmult_mod, Hx, Hy, <- Zmult_mod. Qed.

(** The absolute value of the divisor, as the generator computes it. *)
Lemma abs_divisor w d : in_signed w d -> to_u64 (if d <? 0 then to_i64 (- d) else d) = Z.abs d.
Proof.
  intros Hd. unfold in_signed in Hd. pose proof (half_le w). destruct (Z.ltb_spec d 0) as [Hneg|Hpos].
  - unfold to_u64. rewrite to_i64_mod by lia. rewrite Z.mod_small; lia.
  - unfold to_u64. rewrite Z.mod_small; lia.
Qed.

Lemma abs_power w d : in_signed w d -> let ad := if d <? 0 then to_i64 (- d) else d in
  d <> 0 -> Z.land ad (to_i64 (ad - 1)) = 0 <-> Z.land (Z.abs d) (Z.abs d - 1) = 0.
Proof.
  intros Hd ad H0. unfold in_signed in Hd. pose proof (half_le w). destruct (Z.eq_dec d (- 2 ^ 63)) as [->|Hne]; [vm_compute; tauto|].
  assert (ad = Z.abs d) as -> by (unfold ad; destruct (Z.ltb_spec d 0); [rewrite to_i64_id by lia|]; lia). rewrite to_i64_id by lia. done.
Qed.

Lemma quot_m1 s : Z.quot s (-1) = - s.
Proof. change (-1) with (- (1)). by rewrite Z.quot_opp_r, Z.quot_1_r by done. Qed.

(** Division towards zero by a power of two, with the bias. *)
Lemma biased_quot s k : 0 <= k -> (s + (if s <? 0 then 2 ^ k - 1 else 0)) / 2 ^ k = Z.quot s (2 ^ k).
Proof.
  intros Hk. assert (0 < 2 ^ k) by (apply Z.pow_pos_nonneg; lia). destruct (Z.ltb_spec s 0).
  - rewrite <- (Z.opp_involutive s) at 2. rewrite Z.quot_opp_l, Z.quot_div_nonneg by lia.
    pose proof (Z.div_mod (- s) (2 ^ k) ltac:(lia)). pose proof (Z.mod_pos_bound (- s) (2 ^ k) ltac:(lia)).
    symmetry. apply Z.div_unique_pos with (2 ^ k - 1 - (- s) mod 2 ^ k); lia.
  - rewrite Z.add_0_r, Z.quot_div_nonneg by lia. done.
Qed.

Lemma biased_rem s k : 0 <= k -> let b := if s <? 0 then 2 ^ k - 1 else 0 in (s + b) mod 2 ^ k - b = Z.rem s (2 ^ k).
Proof.
  intros Hk b. assert (0 < 2 ^ k) by (apply Z.pow_pos_nonneg; lia). pose proof (biased_quot s k Hk) as Hq. fold b in Hq.
  rewrite Z.rem_eq by lia. rewrite <- Hq. rewrite Z.mod_eq by lia. lia.
Qed.

Section Signed.
Context `{RegAlloc} (p : list Z) (m : machine) (Hm : fault m = None) (Hlen : (length p <= 6)%nat).

(** The quotient register holds the residue of [v]; the pinned registers are kept. *)
Definition holds (w : bool) (q v : Z) (p' : list Z) (m' : machine) : Prop :=
  p' = q :: p /\ fault m' = None /\ x86.rd w m' q = v mod 2 ^ wasm.width w /\ forall r, r ∈ p -> rf m' r = rf m r.

Lemma finish_signed_runs (w wantRem : bool) res q d p' m' : res ∈ p -> q ∉ p -> d <> 0 -> let s := x86.rds w m res in
  holds w q (Z.quot s d) p' m' ->
  runs (bind (if wantRem then dc.remFromQuot res q d w else dc.emit (MovReg64 res q)) (fun _ => dc.unpin q))
    (fun (_ : unit) p'' m'' => p'' = p /\ wrote w res (signed_qr w wantRem s d) p m m'') p' m'.
Proof using All.
  intros Hres Hq Hd s (-> & Hf & Hqv & Hkeep). assert (res <> q) by eauto. pose proof (rd_range m w res) as Hn.
  assert (x86.rd w m' res = x86.rd w m res) as Hn' by (unfold x86.rd in *; by rewrite Hkeep). unfold signed_qr. destruct wantRem.
  - apply runs_bind. eapply runs_mono.
    { apply remFromQuot_runs; [done|cbn; lia|by right|by left|done]. }
    intros ? p' m'' [-> (Hf' & Hv & Hk)]. follow. rewrite unpin_here by done. split; [done|]. split_and!; [done| |].
    + rewrite Hv, Hn', Hqv, Z.rem_eq by done. apply sub_words.
      * unfold s, x86.rds. rewrite word_signed by done. by apply Z.mod_small.
      * apply mul_words; [done|]. apply mod_twice.
    + intros r Hr Hne. rewrite Hk; [by apply Hkeep|by right|done].
  - follow. rewrite unpin_here by done. split; [done|]. split_and!; [done|by machine|].
    intros r Hr Hne. machine. by apply Hkeep.
Qed.

(** The stages of the signed multiply-high. *)
Lemma addN_runs w (addN : bool) q res h p' m' : res ∈ p -> q ∉ p -> holds w q h p' m' ->
  runs (if addN then dc.emit (AluRR 0x01 q res w) else ret tt) (fun _ => holds w q (if addN then h + x86.rds w m res else h)) p' m'.
Proof using All.
  intros Hres Hq (-> & Hf & Hv & Hk). assert (res <> q) by eauto. pose proof (rd_range m w res) as Hn.
  assert (x86.rd w m' res = x86.rd w m res) as Hn' by (unfold x86.rd in *; by rewrite Hk). destruct addN; follow; [|by split_and!].
  split_and!; [done|done| |intros r Hr; assert (r <> q) by eauto; machine; by apply Hk].
  machine. rewrite Hv, Hn'. apply add_words; [apply mod_twice|]. unfold x86.rds. rewrite word_signed by done. by apply Z.mod_small.
Qed.

Lemma sarShift_runs w q v s p' m' : q ∉ p -> in_signed w v -> 0 <= s < wasm.width w -> holds w q v p' m' ->
  runs (if 0 <? s then dc.shiftImm 7 q (to_u8 s) w else ret tt) (fun _ => holds w q (v / 2 ^ s)) p' m'.
Proof using All.
  intros Hq Hv Hs (-> & Hf & Hqv & Hk). assert (to_u8 s = s) as -> by (apply Z.mod_small; destruct w; cbn in Hs; lia).
  destruct (Z.ltb_spec 0 s) as [Hs0|Hs0]; follow.
  - split_and!; [done|done| |intros r Hr; assert (r <> q) by eauto; machine; by apply Hk].
    machine. rewrite Hqv, signed_word, (Z.mod_small s), Z.shiftr_div_pow2 by (done || lia). done.
  - split_and!; try done. replace s with 0 by lia. by rewrite Z.div_1_r.
Qed.

Lemma roundUp_runs w q v res (k : dc.Gen unit) Q p' m' : res ∈ p -> q ∉ p -> in_signed w v -> holds w q v p' m' ->
  (forall p'' m'', holds w q (v + if v <? 0 then 1 else 0) p'' m'' -> runs k Q p'' m'') ->
  runs (let! sign := dc.allocReg [res; q] in
        dc.pin sign ;;; dc.emit (MovReg64 sign q) ;;; dc.shiftImm 5 sign (wasm.width w - 1) w ;;; dc.emit (AluRR 0x01 q sign w) ;;;
        dc.unpin sign ;;; k) Q p' m'.
Proof using All.
  intros Hres Hq Hv (-> & Hf & Hqv & Hk) Hrest. apply runs_bind, runs_alloc; [cbn; lia|]. intros t Ht Htp. fresh_regs.
  assert (wasm.width w - 1 <> 0) by (by destruct w). follow. rewrite unpin_here by (by rewrite not_elem_of_cons). apply Hrest.
  split_and!; [done|done| |intros r Hr; assert (r <> q) by eauto; assert (r <> t) by eauto; machine; by apply Hk].
  machine. rewrite Hqv. apply add_words; [apply mod_twice|]. rewrite mod_twice. f_equal.
  unfold in_signed in Hv. pose proof (width_double w). pose proof (half_pow w). pose proof (width_pos w).
  rewrite (Z.mod_small (wasm.width w - 1)), Z.shiftr_div_pow2 by lia. destruct (Z.ltb_spec v 0).
  - rewrite <- (Z.mod_unique_pos v (2 ^ wasm.width w) (-1) (v + 2 ^ wasm.width w)) by lia. symmetry. apply Z.div_unique_pos with (v + 2 ^ (wasm.width w - 1)); lia.
  - rewrite Z.mod_small by lia. apply Z.div_small. lia.
Qed.

Lemma negate_runs w (neg : bool) q v p' m' : q ∉ p -> holds w q v p' m' ->
  runs (if neg then dc.emit (Neg q w) else ret tt) (fun _ => holds w q (if neg then - v else v)) p' m'.
Proof using All.
  intros Hq (-> & Hf & Hqv & Hk). destruct neg; follow; [|by split_and!].
  split_and!; [done|done| |intros r Hr; assert (r <> q) by eauto; machine; by apply Hk].
  machine. rewrite Hqv. rewrite <- (Z.sub_0_l (v mod _)), <- (Z.sub_0_l v). apply sub_words; [done|apply mod_twice].
Qed.

(** [divConstSignedMagic]: a divisor whose absolute value is not a power of two. *)
Lemma signedMagic_runs w res d wantRem : res ∈ p -> RAX ∉ p -> RDX ∉ p -> in_signed w d -> mixed_divisor (Z.abs d) ->
  runs (dc.divConstSignedMagic res d w wantRem)
    (fun (_ : unit) p' m' => p' = p /\ wrote w res (signed_qr w wantRem (x86.rds w m res) d) p m m') p m.
Proof using All.
  intros Hres Ha Hd' Hd Hmix. unfold dc.divConstSignedMagic. cbv zeta. rewrite (abs_divisor w d Hd).
  assert (Z.abs d < 2 ^ (wasm.width w - 1)) as Hlt.
  { unfold in_signed in Hd. destruct (Z.eq_dec d (- 2 ^ (wasm.width w - 1))) as [->|]; [|lia]. exfalso. destruct Hmix as [_ Hl]. apply Hl. by destruct w. }
  destruct (MagicS_spec (Z.abs d) (wasm.width w) Hmix Hlt) as (f & s & addN & HM & Hf & Hs & Hq); [by destruct w|]. rewrite HM.
  pose proof (rd_range m w res) as Hn. set (x := x86.rds w m res).
  assert (in_signed w x) as Hx by (apply signed_range; [by destruct w|done]). destruct (Hq x Hx) as (Hh & Hqr & Hquot). cbn zeta in Hh, Hqr, Hquot.
  set (h := x * f / 2 ^ wasm.width w) in *. set (v := if addN then h + x else h) in *.
  apply runs_bind. eapply runs_mono; [apply magicMulHigh_runs; done || lia|]. intros q p' m' (-> & Hqp & Hf' & Hval & Hkeep).
  assert (holds w q h (q :: p) m') as H1.
  { split_and!; try done. rewrite Hval. unfold high. fold (x86.rds w m res). fold x. change (to_u64 f) with (f mod 2 ^ wasm.width true). by rewrite imm64_mod, signed_word. }
  apply runs_bind. eapply runs_mono; [by apply addN_runs|]. intros ? p1 m1 H2. cbn beta in H2. fold x v in H2.
  apply runs_bind. eapply runs_mono; [by apply sarShift_runs|]. intros ? p2 m2 H3. cbn beta in H3.
  assert (in_signed w (v / 2 ^ s)) as Hvs.
  { unfold in_signed in *. assert (0 < 2 ^ s) by (apply Z.pow_pos_nonneg; lia). split; [apply Z.div_le_lower_bound; nia|apply Z.div_lt_upper_bound; nia]. }
  apply (roundUp_runs w q (v / 2 ^ s)); try done. intros p3 m3 H4. rewrite Hquot in H4.
  apply runs_bind. eapply runs_mono; [by apply negate_runs|]. intros ? p4 m4 H5. cbn beta in H5.
  apply (finish_signed_runs w wantRem res q d); [done|done|destruct Hmix; lia|]. fold x.
  assert ((if d <? 0 then - Z.quot x (Z.abs d) else Z.quot x (Z.abs d)) = Z.quot x d) as <-; [|done].
  destruct (Z.ltb_spec d 0); [|by rewrite Z.abs_eq]. rewrite Z.abs_neq, Z.quot_opp_r by lia. lia.
Qed.

(** What the signed division leaves: a trap when the quotient does not fit. *)
Definition signed_done (w : bool) (res : Z) (wantRem : bool) (d : Z) (m' : machine) : Prop :=
  let s := x86.rds w m res in
  if negb wantRem && (Z.quot s d =? 2 ^ (wasm.width w - 1)) then fault m' = Some trapDivOverflow
  else wrote w res (signed_qr w wantRem s d) p m m'.

Lemma signed_done_wrote w res wantRem d m' : in_signed w (x86.rds w m res) -> d <> 0 -> d <> -1 \/ wantRem = true ->
  wrote w res (signed_qr w wantRem (x86.rds w m res) d) p m m' -> signed_done w res wantRem d m'.
Proof using.
  clear. intros Hs Hd Hne Hw. unfold signed_done. destruct (negb wantRem && _) eqn:E; [|done]. exfalso.
  apply andb_true_iff in E as [E1 E2]. apply Z.eqb_eq in E2. destruct Hne as [Hne| ->]; [|done]. unfold in_signed in Hs.
  pose proof (half_pow w). set (s := x86.rds w m res) in *. set (B := 2 ^ (wasm.width w - 1)) in *.
  pose proof (Z.quot_rem s d Hd) as Hqr. pose proof (Z.rem_bound_abs s d Hd) as Hb. rewrite E2 in Hqr.
  assert (d = 1 \/ 2 <= Z.abs d) as [->|Ha] by lia; [rewrite Z.quot_1_r in E2; lia|].
  pose proof (Z.quot_abs_l s d Hd). assert (Z.abs (Z.quot s d) * 2 <= Z.abs s); [|lia].
  rewrite <- Z.quot_abs by done. pose proof (Z.mul_quot_le (Z.abs s) (Z.abs d) ltac:(lia) ltac:(lia)).
  pose proof (Z.quot_pos (Z.abs s) (Z.abs d) ltac:(lia) ltac:(lia)). nia.
Qed.

(** Division by -1: the check for the least word, then a negation. *)
Lemma minusOne_runs (w : bool) res : res ∈ p ->
  runs (bind (if w then let! min := dc.allocReg [res] in dc.emit (MovImm64 min 0x8000000000000000) ;;; dc.emit (Cmp res min true)
              else dc.emit (AluRI 7 res (-2147483648) false))
         (fun _ => bind (dc.emit (TrapIfE trapDivOverflow)) (fun _ => dc.emit (Neg res w))))
    (fun (_ : unit) p' m' => p' = p /\ signed_done w res false (-1) m') p m.
Proof using All.
  intros Hres. set (n := x86.rd w m res). pose proof (rd_range m w res) as Hn. fold n in Hn.
  assert (forall b m', b = (n =? 2 ^ (wasm.width w - 1)) -> fault m' = None -> x86.rd w m' res = n -> (forall r, r ∈ p -> rf m' r = rf m r) ->
    signed_done w res false (-1) (x86.step (Neg res w) (x86.step (TrapIfE trapDivOverflow) (x86.set_zf b m')))) as Hgo.
  { intros b m' Hb Hf Hv Hk. rewrite step_trap by done. rewrite zf_zf. unfold signed_done. cbn [negb andb]. rewrite quot_m1.
    pose proof (half_pow w). pose proof (width_double w). assert ((- x86.rds w m res =? 2 ^ (wasm.width w - 1)) = b) as ->.
    { subst b. unfold x86.rds. fold n. unfold wasm.signed. destruct (Z.ltb_spec n (2 ^ (wasm.width w - 1))); destruct (Z.eqb_spec n (2 ^ (wasm.width w - 1))); lia. }
    destruct b; [done|]. rewrite step_neg by done. machine. split_and!; [done| |intros r Hr Hne; machine; by apply Hk].
    machine. rewrite Hv. unfold signed_qr. rewrite quot_m1. rewrite <- (Z.sub_0_l n), <- (Z.sub_0_l (wasm.signed _ _)).
    apply sub_words; [done|]. fold n. rewrite word_signed by done. by apply Z.mod_small. }
  destruct w.
  - apply runs_bind, runs_bind, runs_alloc; [cbn; lia|]. intros t Ht Htp. fresh_regs. assert (res <> t) by done.
    apply runs_bind, runs_emit. rewrite step_imm64 by done. apply runs_emit. rewrite step_cmp by done. apply runs_bind, runs_emit, runs_emit. split; [done|].
    apply Hgo; [by machine|done|by machine|]. intros r Hr. assert (r <> t) by eauto. by machine.
  - apply runs_bind, runs_emit. rewrite step_cmpImm by done. apply runs_bind, runs_emit, runs_emit. split; [done|]. by apply Hgo.
Qed.

(** Powers of two: bias, then mask or shift. *)
Lemma signedPower_runs w res d (wantRem : bool) : res ∈ p -> in_signed w d -> 2 <= Z.abs d -> Z.land (Z.abs d) (Z.abs d - 1) = 0 ->
  let ad := if d <? 0 then to_i64 (- d) else d in
  runs (let! bias := dc.signBias res (fold.log2u (to_u64 ad)) (wasm.width w) w in
        (if wantRem then
           dc.emit (AluRR 0x01 res bias w) ;;; dc.andImm res (to_i64 (to_u64 ad - 1)) w ;;; dc.emit (AluRR 0x29 res bias w)
         else
           dc.emit (AluRR 0x01 res bias w) ;;; dc.shiftImm 7 res (to_u8 (fold.log2u (to_u64 ad))) w ;;;
           if d <? 0 then dc.emit (Neg res w) else ret tt) ;;;
        dc.unpin bias)
    (fun _ p' m' => p' = p /\ wrote w res (signed_qr w wantRem (x86.rds w m res) d) p m m') p m.
Proof using All.
  intros Hres Hd Had Hl ad. unfold ad. rewrite (abs_divisor w d Hd). unfold in_signed in Hd. pose proof (half_pow w). pose proof (half_le w).
  destruct (powerOfTwo_log (Z.abs d) ltac:(lia) Hl) as (Ed & Hk & ->). set (k := Z.log2 (Z.abs d)) in *.
  assert (k <= wasm.width w - 1) as Hkw by (apply (Z.pow_le_mono_r_iff 2); [lia|pose proof (width_pos w); lia|lia]). pose proof (width_double w) as Hdbl.
  pose proof (rd_range m w res) as Hn. set (s := x86.rds w m res). assert (in_signed w s) as Hs by (apply signed_range; [by destruct w|done]).
  assert (x86.rd w m res = s mod 2 ^ wasm.width w) as Hns by (unfold s, x86.rds; rewrite word_signed by done; done). unfold in_signed in Hs.
  apply runs_bind. eapply runs_mono; [apply signBias_runs; done || lia|]. intros t p' m' (-> & Htp & Hf & Hb & Hkeep). fold s in Hb.
  assert (res <> t) by eauto. assert (0 < 2 ^ k) by (apply Z.pow_pos_nonneg; lia). set (b := if s <? 0 then 2 ^ k - 1 else 0) in *.
  assert (in_signed w (s + b)) as Hsb by (unfold in_signed, b; destruct (Z.ltb_spec s 0); lia).
  assert (x86.rd w m' res = s mod 2 ^ wasm.width w) as Hn' by (rewrite <- Hns; unfold x86.rd; by rewrite Hkeep).
  assert ((x86.rd w m' res + x86.rd w m' t) mod 2 ^ wasm.width w = (s + b) mod 2 ^ wasm.width w) as Hsum.
  { rewrite Hn', Hb. by apply add_words; [apply mod_twice|]. }
  assert (forall r, r ∈ p -> r <> t) as Hpt by eauto.
  destruct wantRem.
  - apply runs_bind, runs_bind, runs_emit. rewrite step_add by done. unfold x86.wr. rewrite Hsum. rewrite to_i64_id by lia.
    apply runs_bind. eapply runs_mono; [apply andImm_runs; [done|cbn; lia|by right|lia]|]. intros ? p' m'' [-> (Hf2 & Hv2 & Hk2)]. cbn beta.
    assert (x86.rd w m'' t = b) as Ht2 by (rewrite <- Hb; unfold x86.rd; rewrite Hk2 by (by left || done); by machine).
    follow. rewrite unpin_here by done. split; [done|]. split_and!; [done| |].
    + machine. rewrite Hv2, Ht2. machine. unfold signed_qr. f_equal. rewrite Ed. replace (2 ^ k - 1) with (Z.ones k) by (rewrite Z.ones_equiv; lia).
      rewrite Z.land_ones, mod_pow_idem by lia. pose proof (biased_rem s k ltac:(lia)) as Hbr. cbn zeta in Hbr. fold b in Hbr. rewrite Hbr, <- Ed.
      destruct (Z.le_gt_cases 0 d); [by rewrite Z.abs_eq|]. rewrite Z.abs_neq by lia. by rewrite Z.rem_opp_r by lia.
    + intros r Hr Hne. machine. rewrite Hk2 by (by right || done). machine. by apply Hkeep.
  - apply runs_bind, runs_bind, runs_emit. rewrite step_add by done. unfold x86.wr. rewrite Hsum. assert (to_u8 k = k) as -> by (apply Z.mod_small; lia).
    apply runs_bind, runs_shift_some; [lia|]. rewrite step_sar by done. unfold x86.wr.
    assert (x86.rds w (x86.set_reg res ((s + b) mod 2 ^ wasm.width w) m') res = s + b) as -> by (unfold x86.rds; rewrite rd_set_eq, mod_twice; by apply signed_word).
    rewrite (Z.mod_small k), Z.shiftr_div_pow2 by lia. pose proof (biased_quot s k ltac:(lia)) as Hbq. fold b in Hbq. rewrite Hbq, <- Ed. unfold signed_qr.
    destruct (Z.ltb_spec d 0); follow; rewrite unpin_here by done; (split; [done|]); (split_and!; [done| |intros r Hr Hne; machine; by apply Hkeep]); machine.
    + rewrite <- (Z.sub_0_l (_ mod _)), Z.abs_neq, Z.quot_opp_r by lia. rewrite <- (Z.opp_involutive (Z.quot s d)) at 2. rewrite <- (Z.sub_0_l (- Z.quot s d)).
      apply sub_words; [done|apply mod_twice].
    + by rewrite Z.abs_eq by lia.
Qed.

(** [divConstSigned]: every divisor. *)
Lemma signed_runs w res d (wantRem : bool) : res ∈ p -> RAX ∉ p -> RDX ∉ p -> in_signed w d -> d <> 0 ->
  runs (dc.divConstSigned res d w wantRem) (fun (_ : unit) p' m' => p' = p /\ signed_done w res wantRem d m') p m.
Proof using All.
  intros Hres Ha Hd' Hd H0. pose proof (rd_range m w res) as Hn.
  assert (in_signed w (x86.rds w m res)) as Hs by (apply signed_range; [by destruct w|done]).
  unfold dc.divConstSigned, dc.xorSelf32. destruct (wantRem && ((d =? 1) || (d =? -1))) eqn:E1.
  { apply andb_true_iff in E1 as [-> E1]. apply orb_true_iff in E1. rewrite !Z.eqb_eq in E1. follow. split; [done|]. apply signed_done_wrote; auto.
    split_and!; [by machine| |intros r Hr Hne; by machine]. machine. rewrite Z.lxor_nilpotent. unfold signed_qr. rewrite !Z.mod_0_l by (pose proof (width_pow false); lia).
    destruct E1 as [->| ->]; [by rewrite Z.rem_1_r|]. change (-1) with (- (1)). by rewrite Z.rem_opp_r, Z.rem_1_r by done. }
  destruct (Z.eqb_spec d 1) as [->|H1].
  { destruct wantRem; [done|]. follow. split; [done|]. apply signed_done_wrote; [done|done|by left|]. split_and!; try done.
    unfold signed_qr. rewrite Z.quot_1_r. unfold x86.rds. by rewrite word_signed. }
  destruct (Z.eqb_spec d (-1)) as [->|H2].
  { destruct wantRem; [done|]. by apply minusOne_runs. }
  cbv zeta. destruct (Z.eqb_spec (Z.land (if d <? 0 then to_i64 (- d) else d) (to_i64 ((if d <? 0 then to_i64 (- d) else d) - 1))) 0) as [Hl|Hl].
  - apply (abs_power w d Hd H0) in Hl. eapply runs_mono; [apply signedPower_runs; done || lia|]. intros ? p' m' [-> Hw]. split; [done|]. apply signed_done_wrote; auto.
  - assert (Z.land (Z.abs d) (Z.abs d - 1) <> 0) as Hl' by (intros E; apply Hl; by apply (abs_power w d Hd H0)).
    eapply runs_mono; [apply signedMagic_runs; try done; split; [lia|done]|]. intros ? p' m' [-> Hw]. split; [done|]. apply signed_done_wrote; auto.
Qed.
End Signed.
