(* ===== verification/DivConstRefines.v ===== *)
(** * Constant division refines the operations of the format

    The bounded form for masked dividends, and [tryDivByConst]: whatever the option, the
    operation, the divisor and the registers, the code computes what the deferred node
    stands for, or traps where it traps. *)

From stdpp Require Import base tactics numbers list functions.
From Stdlib Require Import ZArith Lia.
From S2P Require Import Prelude Bits IntFold MagicNum DivConst DivConstUnsigned DivConstSigned.
Local Open Scope Z_scope.
Local Open Scope list_scope.

#[local] Opaque dc.andImm dc.signBias dc.magicMulHigh dc.remFromQuot.

(** ** Dividends below a mask *)

Lemma reciprocalFrom_spec fuel s max d mult shift : 0 <= max < 2 ^ 16 -> 3 <= d < 2 ^ 31 -> 0 <= s -> s + Z.of_nat fuel <= 32 ->
  dc.reciprocalFrom fuel s max d = Some (mult, shift) ->
  exists e, mult * d = 2 ^ shift + e /\ 0 <= e /\ max * e < 2 ^ shift /\ 0 <= mult < 2 ^ 31 /\ 0 <= shift < 32.
Proof.
  intros Hmax Hd. revert s. induction fuel as [|fuel IH]; intros s Hs Hf; [done|]. cbn [dc.reciprocalFrom].
  assert (0 < 2 ^ s <= 2 ^ 31) as Hp by (split; [apply Z.pow_pos_nonneg; lia|apply Z.pow_le_mono_r; lia]).
  rewrite shl64_pow by lia. assert (to_u64 (2 ^ s + d - 1) = 2 ^ s + d - 1) as -> by (apply Z.mod_small; lia).
  set (f := (2 ^ s + d - 1) / d). pose proof (Z.div_mod (2 ^ s + d - 1) d ltac:(lia)) as Hdm. pose proof (Z.mod_pos_bound (2 ^ s + d - 1) d ltac:(lia)) as Hr.
  fold f in Hdm. assert (0 <= f) by (apply Z.div_pos; lia). assert (to_u64 (f * d - 2 ^ s) = f * d - 2 ^ s) as -> by (apply Z.mod_small; lia).
  assert (to_u64 (max * (f * d - 2 ^ s)) = max * (f * d - 2 ^ s)) as -> by (apply Z.mod_small; nia).
  destruct (_ && _) eqn:E; [|by apply IH; lia]. intros [= <- <-]. apply andb_true_iff in E as [E1%Z.leb_le E2%Z.ltb_lt]. exists (f * d - 2 ^ s). lia.
Qed.

Lemma land_below x y : 0 <= x -> 0 <= y -> Z.land x y <= y.
Proof.
  intros Hx Hy. destruct x as [|a|a]; [by rewrite Z.land_0_l|destruct y as [|b|b]; [by rewrite Z.land_0_r| |lia]|lia].
  change (Z.land (Zpos a) (Zpos b)) with (Z.of_N (N.land (Npos a) (Npos b))). pose proof (N.land_le_r (Npos a) (Npos b)). lia.
Qed.

(** The mask bounds the dividend. *)
Lemma constMask_eval place e b : dc.constMask e = Some b -> wasm.eval place false e = Some b /\ 0 < b <= 65535.
Proof.
  destruct e as [t [c| | | | | | | |]| |]; try done. cbn [dc.constMask wasm.eval]. change (c mod 2 ^ wasm.width false) with (to_u32 c).
  destruct (_ && _) eqn:E; [|done]. intros [= <-]. apply andb_true_iff in E as [E1%Z.ltb_lt E2%Z.leb_le]. done.
Qed.

Lemma dividend_bound place e bound n : dc.boundedUnsignedDividend e = Some bound -> wasm.eval place false e = Some n ->
  n <= bound /\ 0 < bound <= 65535.
Proof.
  destruct e as [|op typ a b|]; try done. unfold dc.boundedUnsignedDividend. destruct op; try done. destruct typ; try done.
  cbn [wasm.eval is64]. intros Hb He. destruct (wasm.eval place false a) as [x|] eqn:Ea; [|done]. destruct (wasm.eval place false b) as [y|] eqn:Eb; [|done].
  pose proof (eval_word place false a x Ea) as Hx. pose proof (eval_word place false b y Eb) as Hy. cbn -[Z.pow Z.land] in He. injection He as <-.
  assert (n_land : Z.land x y mod 2 ^ wasm.width false = Z.land x y) by (by apply bitwise_range). change (2 ^ 32) with (2 ^ wasm.width false). rewrite n_land.
  destruct (dc.constMask a) as [m|] eqn:Em.
  - injection Hb as <-. apply (constMask_eval place) in Em as [Em Hm]. rewrite Ea in Em. injection Em as ->. split; [|done]. rewrite Z.land_comm. apply land_below; lia.
  - apply (constMask_eval place) in Hb as [Eb' Hm]. rewrite Eb in Eb'. injection Eb' as ->. split; [|done]. apply land_below; lia.
Qed.

Section Divide.
Context `{RegAlloc} (p : list Z) (m : machine) (Hm : fault m = None) (Hlen : (length p <= 6)%nat).

(** The multiplication and the shift of the bounded form. *)
Lemma bounded_quotient n max mult shift d e : 0 <= n <= max -> max < 2 ^ 16 -> 0 < d -> mult * d = 2 ^ shift + e -> 0 <= e -> max * e < 2 ^ shift ->
  0 <= shift -> n * mult / 2 ^ shift = n / d.
Proof using.
  clear. intros Hn Hmax Hd Hm He Hme Hs. apply (reciprocal_div (2 ^ shift) mult d e); try done; try lia; try (apply Z.pow_pos_nonneg; lia). nia.
Qed.

(** The product, narrow or wide, and its shift; the code goes on with [k]. *)
Lemma product_runs (wide : bool) res q mult shift d (k : dc.Gen unit) Q p' :
  let n := x86.rd false m res in
  q = res \/ q <> res -> 0 <= mult < 2 ^ 31 -> 0 <= shift < 32 -> 0 <= n * mult < 2 ^ wasm.width wide -> n * mult / 2 ^ shift = n / d -> 0 <= n / d < 2 ^ 32 ->
  (forall m', fault m' = None -> x86.rd false m' q = n / d -> (q <> res -> x86.rd false m' res = n) ->
     (forall r, r <> res -> r <> q -> rf m' r = rf m r) -> runs k Q p' m') ->
  runs ((if wide then dc.emit (MovRegReg32 res res) else ret tt) ;;; dc.emit (ImulRRI q res (to_i32 mult) wide) ;;;
        (if negb (shift =? 0) then dc.shiftImm 5 q shift wide else ret tt) ;;; k) Q p' m.
Proof using All.
  intros n Hq Hmult Hs Hprod Hquot Hr Hk. assert (to_i32 mult = mult) as -> by (unfold to_i32; rewrite Z.mod_small; lia).
  pose proof (rd_range m false res) as Hn. fold n in Hn. widths.
  set (m1 := if wide then x86.set_reg res n m else m).
  assert (fault m1 = None /\ x86.rd wide m1 res = n /\ x86.rd false m1 res = n /\ forall r, r <> res -> rf m1 r = rf m r) as (H1 & H2 & H3 & H4).
  { unfold m1. destruct wide; [|by split_and!]. rewrite !rd_set_eq. widths. rewrite !Z.mod_small by lia. split_and!; try done. intros r Hrr. by machine. }
  apply runs_bind. eapply (runs_mono _ (fun _ p'' m'' => p'' = p' /\ m'' = m1)).
  { unfold m1. destruct wide; [|by apply runs_ret]. apply runs_emit. rewrite step_mov32 by done. split; [done|]. unfold x86.wr. f_equal. }
  intros ? p'' m'' [-> ->]. apply runs_bind, runs_emit. rewrite step_imul3, H2 by done. unfold x86.wr. rewrite Z.mod_small by done.
  set (m2 := x86.set_reg q (n * mult) m1). apply runs_bind.
  assert (forall m3, fault m3 = None -> x86.rd false m3 q = n / d -> (forall r, r <> q -> rf m3 r = rf m1 r) -> runs k Q p' m3) as Hgo.
  { intros m3 Hf3 Hq3 Hk3. apply Hk; [done|done| |].
    - intros Hne. unfold x86.rd. rewrite Hk3 by done. exact H3.
    - intros r Hr1 Hr2. rewrite Hk3 by done. by apply H4. }
  destruct (Z.eqb_spec shift 0) as [->|Hs0]; cbn [negb].
  - apply runs_ret, Hgo; [done| |intros r Hr'; unfold m2; by machine]. unfold m2. rewrite rd_set_eq. widths. rewrite Z.div_1_r in Hquot. rewrite Hquot. by apply Z.mod_small.
  - apply runs_shift_some; [done|]. rewrite step_shr by done. unfold x86.wr. apply Hgo; [done| |intros r Hr'; unfold m2; by machine].
    rewrite rd_set_eq. unfold m2. rewrite rd_set_eq. rewrite (Z.mod_small (n * mult)) by done. rewrite (Z.mod_small shift), Z.shiftr_div_pow2, Hquot by (destruct wide; cbn; lia).
    rewrite (Z.mod_small (n / d)) by (destruct wide; widths; lia). widths. by apply Z.mod_small.
Qed.

Lemma bounded_runs res max d mult shift rem : res ∈ p -> 0 < max <= 65535 -> dc.boundedUnsignedReciprocal max d = Some (mult, shift) ->
  x86.rd false m res <= max ->
  runs (dc.divConstUnsignedBounded res d max mult shift rem)
    (fun (_ : unit) p' m' => p' = p /\ wrote false res (quotient_or_rem rem (x86.rd false m res) d) p m m') p m.
Proof using All.
  intros Hres Hmax HR Hbound. unfold dc.boundedUnsignedReciprocal in HR. destruct (_ || _) eqn:E; [done|]. rewrite !orb_false_iff in E.
  destruct E as [[[[_ _] E3%Z.ltb_ge] E4%Z.ltb_ge] _]. assert (3 <= d < 2 ^ 31) as Hd by lia.
  destruct (reciprocalFrom_spec 32 0 max d mult shift ltac:(lia) Hd ltac:(lia) ltac:(lia) HR) as (e & He & He0 & Hme & Hmult & Hs).
  pose proof (rd_range m false res) as Hn. widths. set (n := x86.rd false m res) in *.
  pose proof (bounded_quotient n max mult shift d e ltac:(lia) ltac:(lia) ltac:(lia) He He0 Hme ltac:(lia)) as Hq.
  assert (0 <= n * mult <= max * mult) as Hprod by nia. assert (max * mult < 2 ^ 47) as Hsmall by nia.
  assert (0 <= n / d < 2 ^ 32) as Hr by (apply (qr_range false n d); lia).
  unfold dc.divConstUnsignedBounded. assert (to_u64 (max * mult) = max * mult) as -> by (apply Z.mod_small; nia).
  assert (0 <= n * mult < 2 ^ wasm.width (0xffffffff <? max * mult)) as Hfit by (destruct (Z.ltb_spec 0xffffffff (max * mult)); cbn [wasm.width]; lia).
  destruct rem.
  - apply runs_bind, runs_bind, runs_alloc; [cbn; lia|]. intros q Hq' Hqp. fresh_regs. assert (res <> q) by done. apply runs_bind, runs_pin, runs_ret.
    apply (product_runs _ res q mult shift d); try done; [by right|]. intros m' Hf Hv Hn' Hk. specialize (Hn' ltac:(done)). follow. rewrite unpin_here by done.
    split; [done|]. split_and!; [done| |intros r Hr' Hne; assert (r <> q) by eauto; machine; by apply Hk].
    machine. rewrite Hv, Hn'. widths. rewrite Zminus_mod_idemp_r. apply rem_word; try done; try lia. by rewrite to_i32_mod by lia.
  - apply runs_bind, runs_ret. apply (product_runs _ res res mult shift d); try done; [by left|]. intros m' Hf Hv _ Hk. follow. split; [done|].
    split_and!; [done|done|]. intros r Hr' Hne. by apply Hk.
Qed.
End Divide.

(** ** The whole rewriting *)

(** A machine that trapped does not go on. *)
Lemma step_stays i m c : fault m = Some c -> x86.step i m = m.
Proof. intros Hf. unfold x86.step. by rewrite Hf. Qed.

(** The code leaves the value of an operation in a register, or traps. *)
Definition delivers (w : bool) (r : Z) (spec : option Z) (p : list Z) (m m' : machine) : Prop :=
  match spec with Some v => wrote w r v p m m' | None => fault m' = Some trapDivOverflow end.

Definition divisions : list IntOp := [IntDivU; IntDivS; IntRemU; IntRemS].

(** A divisor other than zero is not zero as a word. *)
Lemma residue_pos w c : in_signed w c -> c <> 0 -> 0 < c mod 2 ^ wasm.width w < 2 ^ wasm.width w.
Proof.
  unfold in_signed. intros Hc H0. pose proof (half_pow w). pose proof (width_double w). destruct (Z.lt_ge_cases c 0).
  - rewrite <- (Z.mod_unique_pos c (2 ^ wasm.width w) (-1) (c + 2 ^ wasm.width w)); lia.
  - rewrite Z.mod_small; lia.
Qed.

(** The operation of the format on a register and a constant, by the four cases. *)
Lemma bin_division w op x c : op ∈ divisions -> 0 <= x < 2 ^ wasm.width w -> in_signed w c -> c <> 0 ->
  let d := c mod 2 ^ wasm.width w in let s := wasm.signed (wasm.width w) x in
  wasm.bin (wasm.width w) op x d =
    if dc.isSigned op then
      if negb (dc.isRem op) && (Z.quot s c =? 2 ^ (wasm.width w - 1)) then None else Some (signed_qr w (dc.isRem op) s c)
    else Some (quotient_or_rem (dc.isRem op) x d).
Proof.
  intros Hop Hx Hc H0 d s. pose proof (residue_pos w c Hc H0) as Hd. fold d in Hd.
  assert (wasm.signed (wasm.width w) d = c) as Hdc by (by apply signed_word).
  unfold divisions in Hop. rewrite !elem_of_cons in Hop. destruct Hop as [->|[->|[->|[->|Hop]]]]; [..|by apply not_elem_of_nil in Hop];
    cbn [wasm.bin dc.isSigned dc.isRem negb andb]; rewrite (proj2 (Z.eqb_neq d 0)) by lia; cbn [orb]; rewrite ?Hdc; fold s; done.
Qed.

(** What the generator of operands promises: the value of the operand in a pinned
    register, the other pinned registers kept. *)
Class CondenseOk `{dc.Condense} (place : fold.storage -> option Z) : Prop :=
  condense_ok e w v res p m : wasm.eval place w e = Some v -> res ∈ p -> RAX ∉ p -> RDX ∉ p -> (length p <= 7)%nat -> fault m = None ->
    runs (dc.condenseInto e res) (fun _ p' m' => p' = p /\ wrote w res v p m m') p m.

Section Divide.
Context `{dc.Condense} (place : fold.storage -> option Z) `{!CondenseOk place}.

Lemma plan_range o w signed c arg0 bound mult shift x : dc.boundedPlan o w signed c arg0 = Some (bound, mult, shift) -> wasm.eval place w arg0 = Some x ->
  w = false /\ signed = false /\ x <= bound /\ 0 < bound <= 65535 /\ dc.boundedUnsignedReciprocal bound (to_u32 c) = Some (mult, shift).
Proof.
  unfold dc.boundedPlan. destruct (dc.boundedUnsignedDivEnabled o), w, signed; cbn [negb andb]; try done. intros HP Hx.
  destruct (dc.boundedUnsignedDividend arg0) as [b|] eqn:Eb; [|done]. cbn in HP. destruct (dc.boundedUnsignedReciprocal b (to_u32 c)) as [[mu sh]|] eqn:Er; [|done].
  injection HP as <- <- <-. destruct (dividend_bound place arg0 b x Eb Hx). done.
Qed.

(** The division of a register that holds the dividend. *)
Lemma divideRegister_runs o op (w : bool) c arg0 x res p m : op ∈ divisions -> in_signed w c -> c <> 0 -> wasm.eval place w arg0 = Some x ->
  x86.rd w m res = x -> res ∈ p -> RAX ∉ p -> RDX ∉ p -> (length p <= 6)%nat -> fault m = None ->
  runs (dc.divideRegister (dc.boundedPlan o w (dc.isSigned op) c arg0) res c w (dc.isSigned op) (dc.isRem op))
    (fun (_ : unit) p' m' => p' = p /\ delivers w res (wasm.bin (wasm.width w) op x (c mod 2 ^ wasm.width w)) p m m') p m.
Proof.
  intros Hop Hc Hc0 He Hx Hres Ha Hd Hlen Hm. pose proof (rd_range m w res) as Hr. rewrite Hx in Hr. pose proof (width_pow w).
  pose proof (bin_division w op x c Hop Hr Hc Hc0) as Hbin. cbn zeta in Hbin.
  pose proof (residue_pos w c Hc Hc0) as Hd0.
  unfold dc.divideRegister. destruct (dc.boundedPlan o w (dc.isSigned op) c arg0) as [[[bound mult] shift]|] eqn:EP.
  - destruct (plan_range o w _ c arg0 bound mult shift x EP He) as (-> & Hs & Hle & Hb & HR). rewrite Hs in Hbin. rewrite Hbin.
    eapply runs_mono; [apply (bounded_runs p m Hm Hlen res bound (to_u32 c) mult shift); try done; by rewrite Hx|]. intros ? p' m' [-> Hw]. split; [done|]. by rewrite Hx in Hw.
  - destruct (dc.isSigned op) eqn:Es.
    + eapply runs_mono; [by apply signed_runs|]. intros ? p' m' [-> Hw]. split; [done|]. rewrite Hbin. unfold signed_done, x86.rds in Hw. rewrite Hx in Hw.
      destruct (negb (dc.isRem op) && _); done.
    + rewrite Hbin. assert ((if w then to_u64 c else to_u32 c) = c mod 2 ^ wasm.width w) as -> by (by destruct w).
      eapply runs_mono; [by apply unsigned_runs|]. intros ? p' m' [-> Hw]. split; [done|]. by rewrite Hx in Hw.
Qed.

(** C18: Division by a constant is compiled correctly.  Whenever [tryDivByConst] takes a
    division or remainder node (unsigned or signed, 32 or 64 bits, any divisor but zero,
    any setting of the options), it appends code, with any register allocator, after
    which the result register holds the value of the node, the registers pinned on entry
    are kept and the pins are those of the entry; and the code traps with an overflow
    exactly when the node does.  The dividend is any tree that does not trap. *)
Theorem division_by_constant o op typ arg0 c x dest prog p m :
  let w := is64 typ in
  op ∈ divisions -> in_signed w c -> wasm.eval place w arg0 = Some x ->
  dc.tryDivByConst o op typ arg0 c dest = Some prog ->
  RAX ∉ p -> RDX ∉ p -> (length p <= 5)%nat -> fault m = None ->
  runs prog (fun r p' m' => p' = p /\ (forall d, dest = Some d -> r = d) /\ (dest = None -> r ∉ p) /\
    delivers w r (wasm.eval place w (fold.Deferred op typ arg0 (fold.Value typ (fold.stConst c)))) p m m') p m.
Proof.
  intros w Hop Hc Hx HP Ha Hd Hlen Hm. unfold dc.tryDivByConst in HP. fold w in HP. destruct (Z.eqb_spec c 0) as [|Hc0]; [done|].
  destruct (dc.strengthReducibleWithMagic _ _ _ _ _); [|done]. injection HP as <-.
  assert (wasm.eval place w (fold.Deferred op typ arg0 (fold.Value typ (fold.stConst c))) = wasm.bin (wasm.width w) op x (c mod 2 ^ wasm.width w)) as ->.
  { cbn [wasm.eval]. fold w. rewrite Hx. cbn [mbind option_bind]. pose proof (eval_word place w arg0 x Hx) as Hr. pose proof (bin_division w op x c Hop Hr Hc Hc0) as Hb.
    cbn zeta in Hb. rewrite Hb. destruct (dc.isSigned op); [destruct (negb _ && _); [done|]|]; cbn; f_equal; [apply mod_twice|].
    pose proof (residue_pos w c Hc Hc0). apply Z.mod_small, qr_range; [done|lia]. }
  set (spec := wasm.bin _ op x _). apply runs_bind, runs_alloc; [cbn; lia|]. intros res Hres Hresp. fresh_regs. apply runs_bind, runs_pin, runs_bind.
  assert (RAX ∉ res :: p) as Ha' by (by rewrite not_elem_of_cons). assert (RDX ∉ res :: p) as Hd' by (by rewrite not_elem_of_cons).
  eapply runs_mono; [apply (condense_ok arg0 w x); [done|by left|done|done|cbn; lia|done]|]. intros ? p1 m1 [-> (Hf1 & Hv1 & Hk1)]. apply runs_bind.
  eapply runs_mono; [apply (divideRegister_runs o op w c arg0 x); [done|done|done|done|done|by left|done|done|cbn; lia|done]|].
  intros ? p2 m2 [-> Hout]. fold spec in Hout. apply runs_bind, runs_unpin. rewrite unpin_here by done.
  assert (forall r, r ∈ p -> r <> res) as Hne by eauto.
  assert (delivers w res spec p m m2) as Hdel.
  { unfold delivers in *. destruct spec; [|done]. destruct Hout as (Hf2 & Hv2 & Hk2). split_and!; [done|done|].
    intros r Hr Hrr. rewrite Hk2 by (by right || done). apply Hk1; [by right|done]. }
  clear Hout. destruct dest as [d|]; [|apply runs_ret; by split_and!].
  destruct (Z.eqb_spec d res) as [->|Hdr]; [apply runs_ret; split_and!; [done| |done|done]; by intros ? [= ->]|].
  apply runs_bind, runs_emit, runs_ret. split; [done|]. split; [by intros ? [= ->]|]. split; [done|]. unfold delivers in *. destruct spec as [v|].
  - destruct Hdel as (Hf2 & Hv2 & Hk2). rewrite step_mov64 by done. split_and!; [done|by machine|]. intros r Hr Hrd. machine. by apply Hk2; [|apply Hne].
  - by rewrite (step_stays _ _ _ Hdel).
Qed.
End Divide.

(** ** A concrete generator *)

(** The allocatable registers, in the order of preference. *)
Definition gpAlloc : list Z := [7; 6; 5; 9; 10; 11; 12; 13; 14; 15; RAX; RDX; 1; 8].

(** The allocator with no value in a register: the first register that is not blocked. *)
Definition allocRegOrNone (block : list Z) : option Z := snd <$> list_find (fun r => r ∉ block) gpAlloc.

Lemma first_fresh block r : allocRegOrNone block = Some r -> r ∉ block.
Proof.
  unfold allocRegOrNone. destruct (list_find _ gpAlloc) as [[i x]|] eqn:E; [|done].
  apply list_find_Some in E as (_ & Hx & _). by intros [= <-].
Qed.

(** Twelve blocked registers leave one of the fourteen. *)
Lemma first_available block : (length block <= 12)%nat -> allocRegOrNone block <> None.
Proof.
  unfold allocRegOrNone. destruct (list_find _ gpAlloc) as [[i x]|] eqn:E; [done|]. apply list_find_None in E. intros Hl _.
  assert (gpAlloc ⊆+ block) as Hsub%submseteq_length.
  { apply NoDup_submseteq; [by apply (bool_decide_unpack _); vm_compute|]. intros r Hr. pose proof (proj1 (List.Forall_forall _ _) E r (proj1 (list_elem_of_In _ _) Hr)) as Hb. by apply dec_stable. }
  cbn in Hsub. lia.
Qed.

#[export] Instance firstFit : RegAlloc := {|
  alloc := fun _ => allocRegOrNone;
  alloc_fresh := fun _ => first_fresh;
  alloc_available := fun _ => first_available
|}.

(** The locals in registers hold a thousand and their index; an operand is computed by
    loading its value. *)
Definition locals (st : fold.storage) : option Z := match st with fold.stLocalReg i => Some (1000 + i) | _ => None end.

#[local] Instance loadValue : dc.Condense := {|
  dc.condenseInto := fun e r => match wasm.eval locals true e with Some v => dc.emit (MovImm64 r v) | None => panic end
|}.

Lemma eval_low (place : fold.storage -> option Z) w e v : wasm.eval place w e = Some v -> exists v', wasm.eval place true e = Some v' /\ v = v' mod 2 ^ wasm.width w.
Proof.
  assert (forall o, (fun x => x mod 2 ^ wasm.width w) <$> o = Some v -> exists v', (fun x => x mod 2 ^ 64) <$> o = Some v' /\ v = v' mod 2 ^ wasm.width w) as Hlow.
  { intros [x|]; [|done]. cbn. intros [= <-]. eexists. split; [done|]. symmetry. apply mod_pow_idem. by destruct w. }
  destruct e as [typ st|op typ a b|op typ a]; cbn [wasm.eval].
  - destruct st; try apply Hlow. apply (Hlow (Some cval)).
  - destruct (wasm.eval place (is64 typ) a), (wasm.eval place (is64 typ) b); cbn [mbind option_bind]; [apply Hlow|done..].
  - destruct (wasm.eval place _ a); cbn [mbind option_bind]; [apply Hlow|done].
Qed.

#[local] Instance loadValue_ok : CondenseOk locals.
Proof.
  intros e w v res p m He Hres Ha Hd Hl Hm. destruct (eval_low locals w e v He) as (v' & He' & ->). cbn. rewrite He'.
  apply runs_emit. split; [done|]. rewrite step_imm64 by done. split_and!; [done| |].
  - machine. apply mod_pow_idem. by destruct w.
  - intros r _ Hr. by machine.
Qed.

Definition allOptions : dc.options := {| dc.optMagicDiv := true; dc.magicDivSignedEnabled := true; dc.boundedUnsignedDivEnabled := true |}.

(** Example: the fifth local, 1005, divided by 7 as a signed number of 32 bits. *)
Lemma division_by_constant_witness :
  match dc.tryDivByConst allOptions IntDivS mtI32 (fold.Value mtI32 (fold.stLocalReg 5)) 7 None with
  | Some prog => runs prog (fun r p' m' => p' = [] /\ x86.rd false m' r = 143) [] {| rf := fun _ => 0; zf := false; fault := None |}
  | None => False
  end.
Proof.
  destruct (dc.tryDivByConst _ _ _ _ _ _) as [prog|] eqn:E; [|discriminate E].
  eapply runs_mono.
  - apply (division_by_constant locals allOptions IntDivS mtI32 (fold.Value mtI32 (fold.stLocalReg 5)) 7 1005 None prog [] {| rf := fun _ => 0; zf := false; fault := None |}).
    + by do 2 constructor.
    + by split.
    + reflexivity.
    + exact E.
    + apply not_elem_of_nil.
    + apply not_elem_of_nil.
    + cbn. lia.
    + reflexivity.
  - intros r p' m' (Hp & _ & _ & Hd). split; [exact Hp|]. vm_compute wasm.eval in Hd. apply Hd.
Defined.
