(* ===== verification/RvAsm.v ===== *)
(** * The RISC-V encoder (src/core/encoder/riscv64)

    [Asm] accumulates fixed-width RV64 instructions; every method appends one word, or
    records the first error and appends nothing more.  A method of [*Asm] is a function
    on the record; one that returns a site returns it beside the record.  The hooks of the
    register-allocation checker are compiled out of the ordinary build
    (regalloc_disabled.go) and are not shown. *)

From stdpp Require Import base tactics numbers list.
From Stdlib Require Import ZArith Lia.
From S2P Require Import Prelude.
Local Open Scope Z_scope.
Local Open Scope list_scope.

(** The messages of [fail]. *)
Inductive rvError : Set :=
| RegisterRange | UnalignedBuffer | Imm12Range | Upper20Range | FenceSet | ShiftCount | StoreOffset
| BranchInvalid | JalInvalid | LongBranchInvalid | RoundingReserved | AtomicBits.

(** The errors of [PatchLong]. *)
Inductive patchError : Set := Emission (e : rvError) | BadSite | NotEnvelope | DisplacementOverflow | DisplacementRange.

Record Asm : Set := { B : list Z; err : option rvError }.

Module rv.

Definition X5 : Z := 5.
Definition X6 : Z := 6.
Definition X7 : Z := 7.
Definition X10 : Z := 10.
Definition X28 : Z := 28.
Definition X31 : Z := 31.
Definition Zero : Z := 0.
Definition RA : Z := 1.
Definition SP : Z := 2.
Definition Scratch0 : Z := 30.
Definition Scratch1 : Z := 31.

Definition EQ : Z := 0.
Definition NE : Z := 1.
Definition LT : Z := 4.
Definition GE : Z := 5.
Definition LTU : Z := 6.
Definition GEU : Z := 7.

Definition valid (c : Z) : bool := (c =? EQ) || (c =? NE) || ((LT <=? c) && (c <=? GEU)).

(** A shift of a [uint32]. *)
Definition shl (x k : Z) : Z := to_u32 (Z.shiftl x k).

Definition Len (a : Asm) : Z := Z.of_nat (length (B a)).

Definition fail (e : rvError) (a : Asm) : Asm :=
  match err a with None => {| B := B a; err := Some e |} | Some _ => a end.

Definition registers (regs : list Z) (a : Asm) : bool * Asm :=
  match err a with
  | Some _ => (false, a)
  | None => if existsb (fun r => X31 <? r) regs then (false, fail RegisterRange a) else (true, a)
  end.

(** The four bytes of a word, the lowest first. *)
Definition le (w : Z) : list Z := [to_u8 w; to_u8 (Z.shiftr w 8); to_u8 (Z.shiftr w 16); to_u8 (Z.shiftr w 24)].

Definition word (w : Z) (a : Asm) : Asm :=
  let a := if negb (Z.land (Len a) 3 =? 0) then fail UnalignedBuffer a else a in
  match err a with None => {| B := B a ++ le w; err := None |} | Some _ => a end.

Definition r (op f3 f7 dst left right : Z) (a : Asm) : Asm :=
  let '(ok, a) := registers [dst; left; right] a in
  if ok then
    word (Z.lor (Z.lor (Z.lor (Z.lor (Z.lor op (shl dst 7)) (shl f3 12)) (shl left 15)) (shl right 20)) (shl f7 25)) a
  else a.

Definition i (op f3 dst src imm : Z) (a : Asm) : Asm :=
  let '(ok, a) := registers [dst; src] a in
  if negb ok then a
  else if (imm <? -2048) || (2047 <? imm) then fail Imm12Range a
  else word (Z.lor (Z.lor (Z.lor (Z.lor op (shl dst 7)) (shl f3 12)) (shl src 15)) (shl (Z.land (to_u32 imm) 0xfff) 20)) a.

Definition u (op dst imm20 : Z) (a : Asm) : Asm :=
  let '(ok, a) := registers [dst] a in
  if negb ok then a
  else if 0xfffff <? imm20 then fail Upper20Range a
  else word (Z.lor (Z.lor op (shl dst 7)) (shl imm20 12)) a.

Definition Add (dst left right : Z) : Asm -> Asm := r 0x33 0 0x0 dst left right.
Definition Sub (dst left right : Z) : Asm -> Asm := r 0x33 0 0x20 dst left right.
Definition Mul (dst left right : Z) : Asm -> Asm := r 0x33 0 0x1 dst left right.
Definition Mulh (dst left right : Z) : Asm -> Asm := r 0x33 1 0x1 dst left right.
Definition Mulhu (dst left right : Z) : Asm -> Asm := r 0x33 3 0x1 dst left right.
Definition Div (dst left right : Z) : Asm -> Asm := r 0x33 4 0x1 dst left right.
Definition Divu (dst left right : Z) : Asm -> Asm := r 0x33 5 0x1 dst left right.
Definition Rem (dst left right : Z) : Asm -> Asm := r 0x33 6 0x1 dst left right.
Definition Remu (dst left right : Z) : Asm -> Asm := r 0x33 7 0x1 dst left right.
Definition And (dst left right : Z) : Asm -> Asm := r 0x33 7 0x0 dst left right.
Definition Or (dst left right : Z) : Asm -> Asm := r 0x33 6 0x0 dst left right.
Definition Xor (dst left right : Z) : Asm -> Asm := r 0x33 4 0x0 dst left right.
Definition Slt (dst left right : Z) : Asm -> Asm := r 0x33 2 0x0 dst left right.
Definition Sltu (dst left right : Z) : Asm -> Asm := r 0x33 3 0x0 dst left right.
Definition Sll (dst left right : Z) : Asm -> Asm := r 0x33 1 0x0 dst left right.
Definition Srl (dst left right : Z) : Asm -> Asm := r 0x33 5 0x0 dst left right.
Definition Sra (dst left right : Z) : Asm -> Asm := r 0x33 5 0x20 dst left right.
Definition Addw (dst left right : Z) : Asm -> Asm := r 0x3b 0 0x0 dst left right.
Definition Subw (dst left right : Z) : Asm -> Asm := r 0x3b 0 0x20 dst left right.
Definition Mulw (dst left right : Z) : Asm -> Asm := r 0x3b 0 0x1 dst left right.
Definition Divw (dst left right : Z) : Asm -> Asm := r 0x3b 4 0x1 dst left right.
Definition Divuw (dst left right : Z) : Asm -> Asm := r 0x3b 5 0x1 dst left right.
Definition Remw (dst left right : Z) : Asm -> Asm := r 0x3b 6 0x1 dst left right.
Definition Remuw (dst left right : Z) : Asm -> Asm := r 0x3b 7 0x1 dst left right.
Definition Sllw (dst left right : Z) : Asm -> Asm := r 0x3b 1 0x0 dst left right.
Definition Srlw (dst left right : Z) : Asm -> Asm := r 0x3b 5 0x0 dst left right.
Definition Sraw (dst left right : Z) : Asm -> Asm := r 0x3b 5 0x20 dst left right.

Definition Addi (dst src imm : Z) : Asm -> Asm := i 0x13 0 dst src imm.
Definition Andi (dst src imm : Z) : Asm -> Asm := i 0x13 7 dst src imm.
Definition Addiw (dst src imm : Z) : Asm -> Asm := i 0x1b 0 dst src imm.
Definition Xori (dst src imm : Z) : Asm -> Asm := i 0x13 4 dst src imm.
Definition Sltiu (dst src imm : Z) : Asm -> Asm := i 0x13 3 dst src imm.

Definition Fence (predecessor successor : Z) (a : Asm) : Asm :=
  if (15 <? predecessor) || (15 <? successor) then fail FenceSet a
  else word (Z.lor (Z.lor 0x0f (shl predecessor 24)) (shl successor 20)) a.

Definition Lui (dst imm20 : Z) : Asm -> Asm := u 0x37 dst imm20.
Definition Auipc (dst imm20 : Z) : Asm -> Asm := u 0x17 dst imm20.

(** [narrow] is the flag [word] of the source. *)
Definition shift (dst src count : Z) (right arithmetic narrow : bool) (a : Asm) : Asm :=
  let '(limit, op) := if narrow then (32, 0x1b) else (64, 0x13) in
  if limit <=? count then fail ShiftCount a
  else i op (if right then 5 else 1) dst src (if arithmetic then Z.lor count 0x400 else count) a.

Definition Slli (dst src count : Z) : Asm -> Asm := shift dst src count false false false.
Definition Srli (dst src count : Z) : Asm -> Asm := shift dst src count true false false.
Definition Srai (dst src count : Z) : Asm -> Asm := shift dst src count true true false.
Definition Slliw (dst src count : Z) : Asm -> Asm := shift dst src count false false true.
Definition Srliw (dst src count : Z) : Asm -> Asm := shift dst src count true false true.
Definition Sraiw (dst src count : Z) : Asm -> Asm := shift dst src count true true true.

Definition ZeroExtend32 (dst src : Z) (a : Asm) : Asm :=
  let '(ok, a) := registers [dst; src] a in
  if ok then Srli dst dst 32 (Slli dst src 32 a) else a.

Definition Ld (dst base offset : Z) : Asm -> Asm := i 0x03 3 dst base offset.
Definition Lbu (dst base offset : Z) : Asm -> Asm := i 0x03 4 dst base offset.
Definition Lhu (dst base offset : Z) : Asm -> Asm := i 0x03 5 dst base offset.
Definition Lwu (dst base offset : Z) : Asm -> Asm := i 0x03 6 dst base offset.
Definition Lw (dst base offset : Z) : Asm -> Asm := i 0x03 2 dst base offset.

Definition store (f3 src base offset : Z) (a : Asm) : Asm :=
  let '(ok, a) := registers [src; base] a in
  if negb ok then a
  else if (offset <? -2048) || (2047 <? offset) then fail StoreOffset a
  else
    let u := Z.land (to_u32 offset) 0xfff in
    word (Z.lor (Z.lor (Z.lor (Z.lor (Z.lor 0x23 (shl (Z.land u 31) 7)) (shl f3 12)) (shl base 15)) (shl src 20)) (shl (Z.shiftr u 5) 25)) a.

Definition Sd (src base offset : Z) : Asm -> Asm := store 3 src base offset.
Definition Sw (src base offset : Z) : Asm -> Asm := store 2 src base offset.
Definition Sb (src base offset : Z) : Asm -> Asm := store 0 src base offset.
Definition Sh (src base offset : Z) : Asm -> Asm := store 1 src base offset.
Definition Jalr (link base offset : Z) : Asm -> Asm := i 0x67 0 link base offset.
Definition Ret : Asm -> Asm := Jalr Zero RA 0.
Definition Nop : Asm -> Asm := Addi Zero Zero 0.

(** ** Constants (constant.go) *)

(** The low twelve bits, signed. *)
Definition lowPart (value : Z) : Z := Z.shiftr (to_i32 (shl (to_u32 value) 20)) 20.

(** Each call drops twelve bits of the value, so an [int64] takes at most four. *)
Fixpoint constantFrom (fuel : nat) (dst value : Z) (a : Asm) : Asm :=
  match fuel with
  | O => a
  | S fuel =>
      let '(ok, a) := registers [dst] a in
      if negb ok then a
      else if (-2048 <=? value) && (value <=? 2047) then Addi dst Zero value a
      else
        let low := lowPart value in
        if (- 2 ^ 31 <=? value) && (value <=? 2 ^ 31 - 1) then
          let a := Lui dst (Z.land (to_u32 (Z.shiftr (to_i64 (value + 2048)) 12)) 0xfffff) a in
          if negb (low =? 0) then Addiw dst dst low a else a
        else
          let upper := Z.shiftr value 12 in
          let upper := if low <? 0 then upper + 1 else upper in
          let a := Slli dst dst 12 (constantFrom fuel dst upper a) in
          if negb (low =? 0) then Addi dst dst low a else a
  end.

Definition Constant64 (dst value : Z) : Asm -> Asm := constantFrom 4 dst value.

Definition Constant32 (dst value : Z) (a : Asm) : Asm :=
  let a := Constant64 dst (to_i32 value) a in
  if negb (Z.shiftr value 31 =? 0) then ZeroExtend32 dst dst a else a.

(** ** Branches (branch.go) *)

Definition Branch (cond left right displacement : Z) (a : Asm) : Asm :=
  let '(ok, a) := registers [left; right] a in
  if negb ok then a
  else if negb (valid cond) || negb (Z.land displacement 3 =? 0) || (displacement <? -4096) || (4092 <? displacement) then fail BranchInvalid a
  else
    let u := Z.land (to_u32 displacement) 0x1fff in
    word (Z.lor (Z.lor (Z.lor (Z.lor (Z.lor (Z.lor (Z.lor 0x63 (shl (Z.land (Z.shiftr u 11) 1) 7)) (shl (Z.land (Z.shiftr u 1) 15) 8)) (shl cond 12))
      (shl left 15)) (shl right 20)) (shl (Z.land (Z.shiftr u 5) 63) 25)) (shl (Z.land (Z.shiftr u 12) 1) 31)) a.

Definition Jal (link displacement : Z) (a : Asm) : Asm :=
  let '(ok, a) := registers [link] a in
  if negb ok then a
  else if negb (Z.land displacement 3 =? 0) || (displacement <? - 2 ^ 20) || (2 ^ 20 - 4 <? displacement) then fail JalInvalid a
  else
    let u := Z.land (to_u32 displacement) 0x1fffff in
    word (Z.lor (Z.lor (Z.lor (Z.lor (Z.lor 0x6f (shl link 7)) (shl (Z.land (Z.shiftr u 12) 255) 12)) (shl (Z.land (Z.shiftr u 11) 1) 20))
      (shl (Z.land (Z.shiftr u 1) 1023) 21)) (shl (Z.land (Z.shiftr u 20) 1) 31)) a.

Definition JumpLong (call : bool) (a : Asm) : Z * Asm :=
  let pos := Len a in
  let link := if call then RA else Zero in
  let a := Jalr link Scratch1 0 (Auipc Scratch1 0 a) in
  match err a with Some _ => (-1, a) | None => (pos, a) end.

Definition BranchLong (cond left right : Z) (a : Asm) : Z * Asm :=
  let '(ok, a) := registers [left; right] a in
  if negb ok || negb (valid cond) then (-1, fail LongBranchInvalid a)
  else JumpLong false (Branch (Z.lxor cond 1) left right 12 a).

(** A little-endian word of the buffer; [None] is an index out of range. *)
Definition Uint32 (b : list Z) (site : Z) : option Z :=
  match take 4 (drop (Z.to_nat site) b) with
  | [b0; b1; b2; b3] => Some (Z.lor (Z.lor (Z.lor b0 (shl b1 8)) (shl b2 16)) (shl b3 24))
  | _ => None
  end.

Definition PutUint32 (b : list Z) (site w : Z) : list Z :=
  take (Z.to_nat site) b ++ le w ++ drop (Z.to_nat site + 4) b.

Definition envelope (hiWord loWord : Z) : bool :=
  (Z.land hiWord 0xfff =? Z.lor 0x17 (shl Scratch1 7)) &&
  ((Z.land loWord 0xfffff =? Z.lor 0x67 (shl Scratch1 15)) || (Z.land loWord 0xfffff =? Z.lor (Z.lor 0x67 (shl RA 7)) (shl Scratch1 15))).

Definition PatchLong (site target : Z) : M Asm patchError unit := fun a =>
  match err a with
  | Some e => (Err (Emission e), a)
  | None =>
      if (site <? 0) || negb (Z.land site 3 =? 0) || negb (Z.land target 3 =? 0) || (Len a - 8 <? site) then (Err BadSite, a)
      else
        match Uint32 (B a) site, Uint32 (B a) (site + 4) with
        | Some hiWord, Some loWord =>
            if negb (envelope hiWord loWord) then (Err NotEnvelope, a)
            else if target <? - 2 ^ 63 + site then (Err DisplacementOverflow, a)
            else
              let delta := target - site in
              if (delta <? - 2 ^ 31 - 2048) || (2 ^ 31 - 2048 - 1 <? delta) then (Err DisplacementRange, a)
              else
                let high := Z.shiftr (delta + 2048) 12 in
                let low := delta - Z.shiftl high 12 in
                let b := PutUint32 (B a) site (Z.lor (Z.land hiWord 0xfff) (shl (Z.land (to_u32 high) 0xfffff) 12)) in
                let b := PutUint32 b (site + 4) (Z.lor (Z.land loWord 0xfffff) (shl (Z.land (to_u32 low) 0xfff) 20)) in
                (Ok tt, {| B := b; err := None |})
        | _, _ => (Panic, a)
        end
  end.

(** ** Atomics (atomic.go) *)

Definition atomic (function width dst value base order : Z) (a : Asm) : Asm :=
  let '(ok, a) := registers [dst; value; base] a in
  if negb ok then a
  else if 3 <? order then fail AtomicBits a
  else word (Z.lor (Z.lor (Z.lor (Z.lor (Z.lor (Z.lor 0x2f (shl dst 7)) (shl width 12)) (shl base 15)) (shl value 20)) (shl order 25)) (shl function 27)) a.

Definition LrW (dst base order : Z) : Asm -> Asm := atomic 2 2 dst Zero base order.
Definition LrD (dst base order : Z) : Asm -> Asm := atomic 2 3 dst Zero base order.
Definition ScW (status value base order : Z) : Asm -> Asm := atomic 3 2 status value base order.
Definition ScD (status value base order : Z) : Asm -> Asm := atomic 3 3 status value base order.

(** ** Floating point (float.go) *)

Definition rounding (mode : Z) (a : Asm) : bool * Asm :=
  let a := if (4 <? mode) && negb (mode =? 7) then fail RoundingReserved a else a in
  (match err a with None => true | Some _ => false end, a).

Definition floatWord (f3 f7 dst left right : Z) (a : Asm) : Asm :=
  let '(ok, a) := registers [dst; left; right] a in
  if negb ok then a
  else word (Z.lor (Z.lor (Z.lor (Z.lor (Z.lor 0x53 (shl dst 7)) (shl f3 12)) (shl left 15)) (shl right 20)) (shl f7 25)) a.

(** The methods that check a rounding mode. *)
Definition rounded (mode f7 dst left right : Z) (a : Asm) : Asm :=
  let '(ok, a) := rounding mode a in
  if ok then floatWord mode f7 dst left right a else a.

Definition FaddS (dst left right mode : Z) : Asm -> Asm := rounded mode 0x0 dst left right.
Definition FsubS (dst left right mode : Z) : Asm -> Asm := rounded mode 0x4 dst left right.
Definition FmulS (dst left right mode : Z) : Asm -> Asm := rounded mode 0x8 dst left right.
Definition FdivS (dst left right mode : Z) : Asm -> Asm := rounded mode 0xc dst left right.
Definition FsqrtS (dst src mode : Z) : Asm -> Asm := rounded mode 0x2c dst src 0.
Definition FsgnjS (dst left right : Z) : Asm -> Asm := floatWord 0 0x10 dst left right.
Definition FsgnjnS (dst left right : Z) : Asm -> Asm := floatWord 1 0x10 dst left right.
Definition FsgnjxS (dst left right : Z) : Asm -> Asm := floatWord 2 0x10 dst left right.
Definition FminS (dst left right : Z) : Asm -> Asm := floatWord 0 0x14 dst left right.
Definition FmaxS (dst left right : Z) : Asm -> Asm := floatWord 1 0x14 dst left right.
Definition FeqS (dst left right : Z) : Asm -> Asm := floatWord 2 0x50 dst left right.
Definition FltS (dst left right : Z) : Asm -> Asm := floatWord 1 0x50 dst left right.
Definition FleS (dst left right : Z) : Asm -> Asm := floatWord 0 0x50 dst left right.
Definition FclassS (dst src : Z) : Asm -> Asm := floatWord 1 0x70 dst src 0.
Definition FcvtWS (dst src mode : Z) : Asm -> Asm := rounded mode 0x60 dst src 0.
Definition FcvtSW (dst src mode : Z) : Asm -> Asm := rounded mode 0x68 dst src 0.
Definition FcvtWuS (dst src mode : Z) : Asm -> Asm := rounded mode 0x60 dst src 1.
Definition FcvtSWu (dst src mode : Z) : Asm -> Asm := rounded mode 0x68 dst src 1.
Definition FcvtLS (dst src mode : Z) : Asm -> Asm := rounded mode 0x60 dst src 2.
Definition FcvtSL (dst src mode : Z) : Asm -> Asm := rounded mode 0x68 dst src 2.
Definition FcvtLuS (dst src mode : Z) : Asm -> Asm := rounded mode 0x60 dst src 3.
Definition FcvtSLu (dst src mode : Z) : Asm -> Asm := rounded mode 0x68 dst src 3.

Definition FaddD (dst left right mode : Z) : Asm -> Asm := rounded mode 0x1 dst left right.
Definition FsubD (dst left right mode : Z) : Asm -> Asm := rounded mode 0x5 dst left right.
Definition FmulD (dst left right mode : Z) : Asm -> Asm := rounded mode 0x9 dst left right.
Definition FdivD (dst left right mode : Z) : Asm -> Asm := rounded mode 0xd dst left right.
Definition FsqrtD (dst src mode : Z) : Asm -> Asm := rounded mode 0x2d dst src 0.
Definition FsgnjD (dst left right : Z) : Asm -> Asm := floatWord 0 0x11 dst left right.
Definition FsgnjnD (dst left right : Z) : Asm -> Asm := floatWord 1 0x11 dst left right.
Definition FsgnjxD (dst left right : Z) : Asm -> Asm := floatWord 2 0x11 dst left right.
Definition FminD (dst left right : Z) : Asm -> Asm := floatWord 0 0x15 dst left right.
Definition FmaxD (dst left right : Z) : Asm -> Asm := floatWord 1 0x15 dst left right.
Definition FeqD (dst left right : Z) : Asm -> Asm := floatWord 2 0x51 dst left right.
Definition FltD (dst left right : Z) : Asm -> Asm := floatWord 1 0x51 dst left right.
Definition FleD (dst left right : Z) : Asm -> Asm := floatWord 0 0x51 dst left right.
Definition FclassD (dst src : Z) : Asm -> Asm := floatWord 1 0x71 dst src 0.
Definition FcvtWD (dst src mode : Z) : Asm -> Asm := rounded mode 0x61 dst src 0.
Definition FcvtDW (dst src mode : Z) : Asm -> Asm := rounded mode 0x69 dst src 0.
Definition FcvtWuD (dst src mode : Z) : Asm -> Asm := rounded mode 0x61 dst src 1.
Definition FcvtDWu (dst src mode : Z) : Asm -> Asm := rounded mode 0x69 dst src 1.
Definition FcvtLD (dst src mode : Z) : Asm -> Asm := rounded mode 0x61 dst src 2.
Definition FcvtDL (dst src mode : Z) : Asm -> Asm := rounded mode 0x69 dst src 2.
Definition FcvtLuD (dst src mode : Z) : Asm -> Asm := rounded mode 0x61 dst src 3.
Definition FcvtDLu (dst src mode : Z) : Asm -> Asm := rounded mode 0x69 dst src 3.

Definition FmvXW (dst src : Z) : Asm -> Asm := floatWord 0 0x70 dst src 0.
Definition FmvWX (dst src : Z) : Asm -> Asm := floatWord 0 0x78 dst src 0.
Definition FmvXD (dst src : Z) : Asm -> Asm := floatWord 0 0x71 dst src 0.
Definition FmvDX (dst src : Z) : Asm -> Asm := floatWord 0 0x79 dst src 0.
Definition FcvtSD (dst src mode : Z) : Asm -> Asm := rounded mode 0x20 dst src 1.
Definition FcvtDS (dst src mode : Z) : Asm -> Asm := rounded mode 0x21 dst src 0.

Definition floatCSR (csr dst src : Z) (write : bool) (a : Asm) : Asm :=
  let '(ok, a) := registers [dst; src] a in
  if negb ok then a
  else
    let f3 := if write then 1 else 2 in
    word (Z.lor (Z.lor (Z.lor (Z.lor 0x73 (shl dst 7)) (shl f3 12)) (shl src 15)) (shl csr 20)) a.

Definition ReadFcsr (dst : Z) : Asm -> Asm := floatCSR 3 dst Zero false.
Definition WriteFcsr (src : Z) : Asm -> Asm := floatCSR 3 Zero src true.
Definition ReadFflags (dst : Z) : Asm -> Asm := floatCSR 1 dst Zero false.
Definition WriteFflags (src : Z) : Asm -> Asm := floatCSR 1 Zero src true.
End rv.
