(* ===== verification/RvIsa.v ===== *)
(** * The RV64 instruction set

    The reference the encoder and the code it emits are judged by, from the architecture:
    a decoder of the 32-bit words of RV64IMAFD, restricted to the instructions the encoder
    has, and the meaning of the integer instructions that touch no memory on a machine of a
    program counter and 31 registers.  A word of 64 bits is a [Z] in [0, 2^64). *)

From stdpp Require Import base tactics numbers list functions.
From Stdlib Require Import ZArith Lia.
From S2P Require Import Prelude Bits IntFold RvAsm.
Local Open Scope Z_scope.

(** ** Instructions *)

Inductive rop : Set :=
| ADD | SUB | SLL | SLT | SLTU | XOR | SRL | SRA | OR | AND | MUL | MULH | MULHU | DIV | DIVU | REM | REMU
| ADDW | SUBW | SLLW | SRLW | SRAW | MULW | DIVW | DIVUW | REMW | REMUW.
Inductive iop : Set := ADDI | SLTIU | XORI | ANDI | ADDIW.
Inductive sop : Set := SLLI | SRLI | SRAI | SLLIW | SRLIW | SRAIW.
Inductive lop : Set := LW | LD | LBU | LHU | LWU.
Inductive wop : Set := SB | SH | SW | SD.
Inductive cop : Set := BEQ | BNE | BLT | BGE | BLTU | BGEU.
Inductive fop : Set := FADD | FSUB | FMUL | FDIV.
Inductive gop : Set := FSGNJ | FSGNJN | FSGNJX | FMIN | FMAX | FEQ | FLT | FLE.
Inductive ity : Set := TW | TWU | TL | TLU.
Inductive csr : Set := FFLAGS | FCSR.

(** [d] is true for double precision, and for a double word. *)
Inductive instr : Set :=
| ROp (o : rop) (rd rs1 rs2 : Z)
| IOp (o : iop) (rd rs1 imm : Z)
| Shift (o : sop) (rd rs1 count : Z)
| LUI (rd imm20 : Z)
| AUIPC (rd imm20 : Z)
| JAL (rd imm : Z)
| JALR (rd rs1 imm : Z)
| BranchOp (o : cop) (rs1 rs2 imm : Z)
| LoadOp (o : lop) (rd rs1 imm : Z)
| StoreOp (o : wop) (rs2 rs1 imm : Z)
| FENCE (pred succ : Z)
| LR (d : bool) (rd rs1 order : Z)
| SC (d : bool) (rd rs2 rs1 order : Z)
| FArith (o : fop) (d : bool) (rd rs1 rs2 rm : Z)
| FSqrt (d : bool) (rd rs1 rm : Z)
| FFixed (o : gop) (d : bool) (rd rs1 rs2 : Z)
| FClass (d : bool) (rd rs1 : Z)
| FToInt (t : ity) (d : bool) (rd rs1 rm : Z)
| FFromInt (t : ity) (d : bool) (rd rs1 rm : Z)
| FMvToInt (d : bool) (rd rs1 : Z)
| FMvFromInt (d : bool) (rd rs1 : Z)
| FToDouble (rd rs1 rm : Z)
| FToSingle (rd rs1 rm : Z)
| CsrRead (c : csr) (rd : Z)
| CsrWrite (c : csr) (rs1 : Z).

(** ** Decoding *)

Definition bits (w i n : Z) : Z := (w / 2 ^ i) mod 2 ^ n.

(** The immediates, from the fields of a word. *)
Definition immI (rs2 f7 : Z) : Z := wasm.signed 12 (rs2 + 2 ^ 5 * f7).
Definition immS (rd f7 : Z) : Z := wasm.signed 12 (rd + 2 ^ 5 * f7).
Definition immB (rd f7 : Z) : Z := wasm.signed 13 (2 * (rd / 2) + 2 ^ 5 * (f7 mod 64) + 2 ^ 11 * (rd mod 2) + 2 ^ 12 * (f7 / 64)).
Definition immU (f3 rs1 rs2 f7 : Z) : Z := f3 + 2 ^ 3 * rs1 + 2 ^ 8 * rs2 + 2 ^ 13 * f7.
Definition immJ (v : Z) : Z := wasm.signed 21 (2 * (v / 2 ^ 9 mod 2 ^ 10) + 2 ^ 11 * (v / 2 ^ 8 mod 2) + 2 ^ 12 * (v mod 2 ^ 8) + 2 ^ 20 * (v / 2 ^ 19)).

Definition decodeOp (f3 f7 : Z) : option rop :=
  match f7, f3 with
  | 0, 0 => Some ADD | 0, 1 => Some SLL | 0, 2 => Some SLT | 0, 3 => Some SLTU | 0, 4 => Some XOR | 0, 5 => Some SRL | 0, 6 => Some OR | 0, 7 => Some AND
  | 0x20, 0 => Some SUB | 0x20, 5 => Some SRA
  | 1, 0 => Some MUL | 1, 1 => Some MULH | 1, 3 => Some MULHU | 1, 4 => Some DIV | 1, 5 => Some DIVU | 1, 6 => Some REM | 1, 7 => Some REMU
  | _, _ => None
  end.

Definition decodeOpW (f3 f7 : Z) : option rop :=
  match f7, f3 with
  | 0, 0 => Some ADDW | 0, 1 => Some SLLW | 0, 5 => Some SRLW
  | 0x20, 0 => Some SUBW | 0x20, 5 => Some SRAW
  | 1, 0 => Some MULW | 1, 4 => Some DIVW | 1, 5 => Some DIVUW | 1, 6 => Some REMW | 1, 7 => Some REMUW
  | _, _ => None
  end.

(** Immediate operations; a shift of 64 bits has a count of six bits and a function of
    six, one of 32 bits a count of five and a function of seven. *)
Definition decodeImm (rd f3 rs1 rs2 f7 : Z) : option instr :=
  match f3 with
  | 0 => Some (IOp ADDI rd rs1 (immI rs2 f7))
  | 3 => Some (IOp SLTIU rd rs1 (immI rs2 f7))
  | 4 => Some (IOp XORI rd rs1 (immI rs2 f7))
  | 7 => Some (IOp ANDI rd rs1 (immI rs2 f7))
  | 1 => match f7 / 2 with 0 => Some (Shift SLLI rd rs1 (rs2 + 32 * (f7 mod 2))) | _ => None end
  | 5 => match f7 / 2 with 0 => Some (Shift SRLI rd rs1 (rs2 + 32 * (f7 mod 2))) | 16 => Some (Shift SRAI rd rs1 (rs2 + 32 * (f7 mod 2))) | _ => None end
  | _ => None
  end.

Definition decodeImmW (rd f3 rs1 rs2 f7 : Z) : option instr :=
  match f3 with
  | 0 => Some (IOp ADDIW rd rs1 (immI rs2 f7))
  | 1 => match f7 with 0 => Some (Shift SLLIW rd rs1 rs2) | _ => None end
  | 5 => match f7 with 0 => Some (Shift SRLIW rd rs1 rs2) | 0x20 => Some (Shift SRAIW rd rs1 rs2) | _ => None end
  | _ => None
  end.

Definition decodeLoad (f3 : Z) : option lop :=
  match f3 with 2 => Some LW | 3 => Some LD | 4 => Some LBU | 5 => Some LHU | 6 => Some LWU | _ => None end.
Definition decodeStore (f3 : Z) : option wop :=
  match f3 with 0 => Some SB | 1 => Some SH | 2 => Some SW | 3 => Some SD | _ => None end.
Definition decodeCond (f3 : Z) : option cop :=
  match f3 with 0 => Some BEQ | 1 => Some BNE | 4 => Some BLT | 5 => Some BGE | 6 => Some BLTU | 7 => Some BGEU | _ => None end.

(** Load-reserved has no second source; the low bits of the function are the ordering. *)
Definition decodeAtomic (rd f3 rs1 rs2 f7 : Z) : option instr :=
  if negb ((f3 =? 2) || (f3 =? 3)) then None
  else
    match f7 / 4 with
    | 2 => if rs2 =? 0 then Some (LR (f3 =? 3) rd rs1 (f7 mod 4)) else None
    | 3 => Some (SC (f3 =? 3) rd rs2 rs1 (f7 mod 4))
    | _ => None
    end.

(** Rounding modes 5 and 6 are reserved. *)
Definition roundingOk (rm : Z) : bool := (rm <=? 4) || (rm =? 7).

Definition decodeIty (rs2 : Z) : option ity := match rs2 with 0 => Some TW | 1 => Some TWU | 2 => Some TL | 3 => Some TLU | _ => None end.

(** The low bits of the function of a floating-point operation are its format. *)
Definition decodeFloat (rd f3 rs1 rs2 f7 : Z) : option instr :=
  let d := f7 mod 4 =? 1 in
  if negb (f7 mod 4 <=? 1) then None
  else
    match f7 / 4 with
    | 0x00 => if roundingOk f3 then Some (FArith FADD d rd rs1 rs2 f3) else None
    | 0x01 => if roundingOk f3 then Some (FArith FSUB d rd rs1 rs2 f3) else None
    | 0x02 => if roundingOk f3 then Some (FArith FMUL d rd rs1 rs2 f3) else None
    | 0x03 => if roundingOk f3 then Some (FArith FDIV d rd rs1 rs2 f3) else None
    | 0x0b => if roundingOk f3 && (rs2 =? 0) then Some (FSqrt d rd rs1 f3) else None
    | 0x04 => match f3 with 0 => Some (FFixed FSGNJ d rd rs1 rs2) | 1 => Some (FFixed FSGNJN d rd rs1 rs2) | 2 => Some (FFixed FSGNJX d rd rs1 rs2) | _ => None end
    | 0x05 => match f3 with 0 => Some (FFixed FMIN d rd rs1 rs2) | 1 => Some (FFixed FMAX d rd rs1 rs2) | _ => None end
    | 0x14 => match f3 with 0 => Some (FFixed FLE d rd rs1 rs2) | 1 => Some (FFixed FLT d rd rs1 rs2) | 2 => Some (FFixed FEQ d rd rs1 rs2) | _ => None end
    | 0x08 =>
        if roundingOk f3 then
          match d, rs2 with false, 1 => Some (FToSingle rd rs1 f3) | true, 0 => Some (FToDouble rd rs1 f3) | _, _ => None end
        else None
    | 0x18 => if roundingOk f3 then (fun t => FToInt t d rd rs1 f3) <$> decodeIty rs2 else None
    | 0x1a => if roundingOk f3 then (fun t => FFromInt t d rd rs1 f3) <$> decodeIty rs2 else None
    | 0x1c => match rs2, f3 with 0, 0 => Some (FMvToInt d rd rs1) | 0, 1 => Some (FClass d rd rs1) | _, _ => None end
    | 0x1e => match rs2, f3 with 0, 0 => Some (FMvFromInt d rd rs1) | _, _ => None end
    | _ => None
    end.

Definition decodeCsr (v : Z) : option csr := match v with 1 => Some FFLAGS | 3 => Some FCSR | _ => None end.

Definition decodeSystem (rd f3 rs1 rs2 f7 : Z) : option instr :=
  match f3 with
  | 1 => if rd =? 0 then (fun c => CsrWrite c rs1) <$> decodeCsr (rs2 + 32 * f7) else None
  | 2 => if rs1 =? 0 then (fun c => CsrRead c rd) <$> decodeCsr (rs2 + 32 * f7) else None
  | _ => None
  end.

Definition decodeFields (op rd f3 rs1 rs2 f7 : Z) : option instr :=
  match op with
  | 0x33 => (fun o => ROp o rd rs1 rs2) <$> decodeOp f3 f7
  | 0x3b => (fun o => ROp o rd rs1 rs2) <$> decodeOpW f3 f7
  | 0x13 => decodeImm rd f3 rs1 rs2 f7
  | 0x1b => decodeImmW rd f3 rs1 rs2 f7
  | 0x37 => Some (LUI rd (immU f3 rs1 rs2 f7))
  | 0x17 => Some (AUIPC rd (immU f3 rs1 rs2 f7))
  | 0x6f => Some (JAL rd (immJ (immU f3 rs1 rs2 f7)))
  | 0x67 => match f3 with 0 => Some (JALR rd rs1 (immI rs2 f7)) | _ => None end
  | 0x63 => (fun o => BranchOp o rs1 rs2 (immB rd f7)) <$> decodeCond f3
  | 0x03 => (fun o => LoadOp o rd rs1 (immI rs2 f7)) <$> decodeLoad f3
  | 0x23 => (fun o => StoreOp o rs2 rs1 (immS rd f7)) <$> decodeStore f3
  | 0x0f => if (rd =? 0) && (f3 =? 0) && (rs1 =? 0) && (f7 / 8 =? 0) then Some (FENCE ((rs2 + 32 * f7) / 16) (rs2 mod 16)) else None
  | 0x2f => decodeAtomic rd f3 rs1 rs2 f7
  | 0x53 => decodeFloat rd f3 rs1 rs2 f7
  | 0x73 => decodeSystem rd f3 rs1 rs2 f7
  | _ => None
  end.

Definition decode (w : Z) : option instr := decodeFields (bits w 0 7) (bits w 7 5) (bits w 12 3) (bits w 15 5) (bits w 20 5) (bits w 25 7).

(** ** The machine *)

Record cpu : Type := { pc : Z; xs : Z -> Z }.

Definition rget (x : Z -> Z) (r : Z) : Z := if r =? 0 then 0 else x r.
Definition rput (r v : Z) (x : Z -> Z) : Z -> Z := if r =? 0 then x else <[r := v]> x.

Definition u64 (v : Z) : Z := v mod 2 ^ 64.
(** The low word of a value, extended with its sign. *)
Definition sx32 (v : Z) : Z := wasm.signed 32 (v mod 2 ^ 32) mod 2 ^ 64.
Definition s64 (v : Z) : Z := wasm.signed 64 v.
Definition s32 (v : Z) : Z := wasm.signed 32 (v mod 2 ^ 32).
Definition flag (b : bool) : Z := if b then 1 else 0.

Definition aluR (o : rop) (a b : Z) : Z :=
  match o with
  | ADD => u64 (a + b)
  | SUB => u64 (a - b)
  | SLL => u64 (a * 2 ^ (b mod 64))
  | SLT => flag (s64 a <? s64 b)
  | SLTU => flag (a <? b)
  | XOR => Z.lxor a b
  | SRL => a / 2 ^ (b mod 64)
  | SRA => u64 (s64 a / 2 ^ (b mod 64))
  | OR => Z.lor a b
  | AND => Z.land a b
  | MUL => u64 (a * b)
  | MULH => u64 (s64 a * s64 b / 2 ^ 64)
  | MULHU => a * b / 2 ^ 64
  | DIV => if b =? 0 then 2 ^ 64 - 1 else u64 (Z.quot (s64 a) (s64 b))
  | DIVU => if b =? 0 then 2 ^ 64 - 1 else a / b
  | REM => if b =? 0 then a else u64 (Z.rem (s64 a) (s64 b))
  | REMU => if b =? 0 then a else a mod b
  | ADDW => sx32 (a + b)
  | SUBW => sx32 (a - b)
  | SLLW => sx32 (a * 2 ^ (b mod 32))
  | SRLW => sx32 (a mod 2 ^ 32 / 2 ^ (b mod 32))
  | SRAW => sx32 (s32 a / 2 ^ (b mod 32))
  | MULW => sx32 (a * b)
  | DIVW => if b mod 2 ^ 32 =? 0 then 2 ^ 64 - 1 else sx32 (Z.quot (s32 a) (s32 b))
  | DIVUW => if b mod 2 ^ 32 =? 0 then 2 ^ 64 - 1 else sx32 (a mod 2 ^ 32 / (b mod 2 ^ 32))
  | REMW => if b mod 2 ^ 32 =? 0 then sx32 a else sx32 (Z.rem (s32 a) (s32 b))
  | REMUW => if b mod 2 ^ 32 =? 0 then sx32 a else sx32 (a mod 2 ^ 32 mod (b mod 2 ^ 32))
  end.

Definition aluI (o : iop) (a imm : Z) : Z :=
  match o with
  | ADDI => u64 (a + imm)
  | SLTIU => flag (a <? u64 imm)
  | XORI => Z.lxor a (u64 imm)
  | ANDI => Z.land a (u64 imm)
  | ADDIW => sx32 (a + imm)
  end.

Definition aluS (o : sop) (a count : Z) : Z :=
  match o with
  | SLLI => u64 (a * 2 ^ count)
  | SRLI => a / 2 ^ count
  | SRAI => u64 (s64 a / 2 ^ count)
  | SLLIW => sx32 (a * 2 ^ count)
  | SRLIW => sx32 (a mod 2 ^ 32 / 2 ^ count)
  | SRAIW => sx32 (s32 a / 2 ^ count)
  end.

Definition taken (o : cop) (a b : Z) : bool :=
  match o with
  | BEQ => a =? b
  | BNE => negb (a =? b)
  | BLT => s64 a <? s64 b
  | BGE => s64 b <=? s64 a
  | BLTU => a <? b
  | BGEU => b <=? a
  end.

(** The upper immediate, as the sign-extended multiple of 2^12 it stands for. *)
Definition upper (imm20 : Z) : Z := wasm.signed 32 (imm20 * 2 ^ 12).

(** [None]: an instruction this machine leaves out. *)
Definition exec (i : instr) (m : cpu) : option cpu :=
  let next := u64 (pc m + 4) in
  match i with
  | ROp o rd a b => Some {| pc := next; xs := rput rd (aluR o (rget (xs m) a) (rget (xs m) b)) (xs m) |}
  | IOp o rd a imm => Some {| pc := next; xs := rput rd (aluI o (rget (xs m) a) imm) (xs m) |}
  | Shift o rd a n => Some {| pc := next; xs := rput rd (aluS o (rget (xs m) a) n) (xs m) |}
  | LUI rd v => Some {| pc := next; xs := rput rd (u64 (upper v)) (xs m) |}
  | AUIPC rd v => Some {| pc := next; xs := rput rd (u64 (pc m + upper v)) (xs m) |}
  | JAL rd imm => Some {| pc := u64 (pc m + imm); xs := rput rd next (xs m) |}
  | JALR rd a imm => Some {| pc := 2 * (u64 (rget (xs m) a + imm) / 2); xs := rput rd next (xs m) |}
  | BranchOp o a b imm => Some {| pc := if taken o (rget (xs m) a) (rget (xs m) b) then u64 (pc m + imm) else next; xs := xs m |}
  | _ => None
  end.

(** The instruction at an aligned address of a code image. *)
Definition fetch (image : list Z) (a : Z) : option instr :=
  if (a <? 0) || negb (a mod 4 =? 0) then None else w ← rv.Uint32 image a; decode w.

Definition step (image : list Z) (m : cpu) : option cpu := i ← fetch image (pc m); exec i m.
