(* ===== verification/RvEncode.v ===== *)
(** * The encoder writes what the architecture reads

    Every method of [RvAsm] against the decoder of [RvIsa]: the word it appends decodes to
    the instruction it is named after, with its operands; operands out of range record an
    error and append nothing. *)

From stdpp Require Import base tactics numbers list functions.
From Stdlib Require Import ZArith Lia.
From S2P Require Import Prelude Bits IntFold RvAsm RvIsa.
Local Open Scope Z_scope.

(** ** Fields *)

Definition pack (op rd f3 rs1 rs2 f7 : Z) : Z := op + 2 ^ 7 * rd + 2 ^ 12 * f3 + 2 ^ 15 * rs1 + 2 ^ 20 * rs2 + 2 ^ 25 * f7.

Definition fields_ok (op rd f3 rs1 rs2 f7 : Z) : Prop :=
  0 <= op < 2 ^ 7 /\ 0 <= rd < 2 ^ 5 /\ 0 <= f3 < 2 ^ 3 /\ 0 <= rs1 < 2 ^ 5 /\ 0 <= rs2 < 2 ^ 5 /\ 0 <= f7 < 2 ^ 7.

Lemma bits_mid lo v hi i n : 0 <= i -> 0 <= n -> 0 <= lo < 2 ^ i -> 0 <= v < 2 ^ n -> bits (lo + 2 ^ i * (v + 2 ^ n * hi)) i n = v.
Proof.
  intros Hi Hn Hlo Hv. unfold bits. rewrite (Z.mul_comm (2 ^ i)), Z.div_add by lia. rewrite (Z.div_small lo) by lia.
  rewrite Z.add_0_l, (Z.mul_comm (2 ^ n)), Z.mod_add by lia. by apply Z.mod_small.
Qed.

Lemma decode_pack op rd f3 rs1 rs2 f7 : fields_ok op rd f3 rs1 rs2 f7 -> decode (pack op rd f3 rs1 rs2 f7) = decodeFields op rd f3 rs1 rs2 f7.
Proof.
  intros (H1 & H2 & H3 & H4 & H5 & H6). unfold decode, pack. f_equal.
  - rewrite <- (bits_mid 0 op (rd + 2 ^ 5 * f3 + 2 ^ 8 * rs1 + 2 ^ 13 * rs2 + 2 ^ 18 * f7) 0 7) at 2 by lia. f_equal. lia.
  - rewrite <- (bits_mid op rd (f3 + 2 ^ 3 * rs1 + 2 ^ 8 * rs2 + 2 ^ 13 * f7) 7 5) at 2 by lia. f_equal. lia.
  - rewrite <- (bits_mid (op + 2 ^ 7 * rd) f3 (rs1 + 2 ^ 5 * rs2 + 2 ^ 10 * f7) 12 3) at 2 by lia. f_equal. lia.
  - rewrite <- (bits_mid (op + 2 ^ 7 * rd + 2 ^ 12 * f3) rs1 (rs2 + 2 ^ 5 * f7) 15 5) at 2 by lia. f_equal. lia.
  - rewrite <- (bits_mid (op + 2 ^ 7 * rd + 2 ^ 12 * f3 + 2 ^ 15 * rs1) rs2 f7 20 5) at 2 by lia. f_equal. lia.
  - rewrite <- (bits_mid (op + 2 ^ 7 * rd + 2 ^ 12 * f3 + 2 ^ 15 * rs1 + 2 ^ 20 * rs2) f7 0 25 7) at 2 by lia. f_equal. lia.
Qed.

Lemma pack_range op rd f3 rs1 rs2 f7 : fields_ok op rd f3 rs1 rs2 f7 -> 0 <= pack op rd f3 rs1 rs2 f7 < 2 ^ 32.
Proof. unfold fields_ok, pack. lia. Qed.

Lemma or_shl lo v k : 0 <= k -> 0 <= lo < 2 ^ k -> 0 <= v -> v * 2 ^ k < 2 ^ 32 -> Z.lor lo (rv.shl v k) = lo + 2 ^ k * v.
Proof.
  intros Hk Hlo Hv Hb. unfold rv.shl, to_u32. rewrite Z.mod_small by (rewrite Z.shiftl_mul_pow2 by lia; nia).
  rewrite lor_shiftl_add by lia. lia.
Qed.

(** ** What a method does *)

Definition aligned (a : Asm) : bool := Z.land (rv.Len a) 3 =? 0.

(** [x] is the result of a method on [a] for the instruction [i], its operands in range
    when [ok] holds. *)
Definition encodes (ok : bool) (i : instr) (a x : Asm) : Prop :=
  match err a with
  | Some _ => x = a
  | None =>
      if ok && aligned a then exists w, x = {| B := B a ++ rv.le w; err := None |} /\ 0 <= w < 2 ^ 32 /\ decode w = Some i
      else B x = B a /\ err x <> None
  end.

Lemma encodes_pack op rd f3 rs1 rs2 f7 i a : fields_ok op rd f3 rs1 rs2 f7 -> decodeFields op rd f3 rs1 rs2 f7 = Some i ->
  encodes true i a (rv.word (pack op rd f3 rs1 rs2 f7) a).
Proof.
  intros Hf Hd. unfold encodes, rv.word, rv.fail. fold (aligned a). destruct (err a) eqn:Ea.
  - destruct (negb (aligned a)); by rewrite Ea.
  - destruct (aligned a); cbn [negb andb]; [|done]. rewrite Ea. eexists. split; [done|]. split; [by apply pack_range|]. by rewrite decode_pack.
Qed.

Lemma encodes_fail e i a : encodes false i a (rv.fail e a).
Proof. unfold encodes, rv.fail. by destruct (err a) eqn:Ea. Qed.

(** A check of registers in front of a method. *)
Lemma encodes_registers regs ok i a (k : Asm -> Asm) : (forallb (fun r => r <? 32) regs = true -> encodes ok i a (k a)) ->
  encodes (forallb (fun r => r <? 32) regs && ok) i a (let '(b, a') := rv.registers regs a in if b then k a' else a').
Proof.
  intros Hk. unfold rv.registers. destruct (err a) eqn:Ea; [by unfold encodes; rewrite Ea|].
  assert (existsb (fun r => rv.X31 <? r) regs = negb (forallb (fun r => r <? 32) regs)) as ->.
  { clear. induction regs as [|r regs IH]; [done|]. cbn [existsb forallb]. rewrite IH, negb_andb. f_equal. unfold rv.X31. destruct (Z.ltb_spec 31 r), (Z.ltb_spec r 32); done || lia. }
  destruct (forallb _ regs); cbn [negb andb]; [by apply Hk|apply encodes_fail].
Qed.

Lemma encodes_registers' regs ok i a (k : Asm -> Asm) : (forallb (fun r => r <? 32) regs = true -> encodes ok i a (k a)) ->
  encodes (forallb (fun r => r <? 32) regs && ok) i a (let '(b, a') := rv.registers regs a in if negb b then a' else k a').
Proof. intros Hk. apply encodes_registers in Hk. destruct (rv.registers regs a) as [[] a']; exact Hk. Qed.

(** A check of an operand. *)
Lemma encodes_check (bad ok : bool) e i a x : (bad = false -> encodes ok i a x) -> encodes (negb bad && ok) i a (if bad then rv.fail e a else x).
Proof. destruct bad; cbn [negb andb]; [intros _; apply encodes_fail|eauto]. Qed.

Lemma encodes_ok (ok ok' : bool) i a x : ok = ok' -> encodes ok i a x -> encodes ok' i a x.
Proof. by intros ->. Qed.

(** ** The formats *)

Definition reg_ok (r : Z) : Prop := 0 <= r < 256.

Ltac regs_in := repeat match goal with H : forallb _ _ = true |- _ => cbn [forallb] in H end; bool_to_prop; unfold reg_ok, fields_ok in *.

Lemma r_word op f3 f7 d l r : fields_ok op d f3 l r f7 ->
  Z.lor (Z.lor (Z.lor (Z.lor (Z.lor op (rv.shl d 7)) (rv.shl f3 12)) (rv.shl l 15)) (rv.shl r 20)) (rv.shl f7 25) = pack op d f3 l r f7.
Proof. unfold fields_ok. intros. unfold pack. rewrite (or_shl op), (or_shl _ f3), (or_shl _ l), (or_shl _ r), (or_shl _ f7) by lia. lia. Qed.

Definition const_ok (op f3 f7 : Z) : Prop := 0 <= op < 2 ^ 7 /\ 0 <= f3 < 2 ^ 3 /\ 0 <= f7 < 2 ^ 7.

Lemma encodes_r op f3 f7 d l r i a : const_ok op f3 f7 -> reg_ok d -> reg_ok l -> reg_ok r -> decodeFields op d f3 l r f7 = Some i ->
  encodes ((d <? 32) && (l <? 32) && (r <? 32)) i a (rv.r op f3 f7 d l r a).
Proof.
  intros Hc Hd Hl Hr Hi. unfold rv.r. eapply encodes_ok; [|apply (encodes_registers [d; l; r] true)].
  - cbn. by rewrite !andb_true_r, !andb_assoc.
  - intros Hrg. rewrite r_word by (unfold const_ok in *; regs_in; lia). apply encodes_pack; [unfold const_ok in *; regs_in; lia|done].
Qed.

(** Twelve bits over the fields of a second source and a function. *)
Lemma low12 imm : let v := Z.land (to_u32 imm) 0xfff in v = imm mod 2 ^ 12 /\ 0 <= v < 2 ^ 12 /\ 0 <= v mod 2 ^ 5 < 2 ^ 5 /\ 0 <= v / 2 ^ 5 < 2 ^ 7 /\ v = v mod 2 ^ 5 + 2 ^ 5 * (v / 2 ^ 5).
Proof.
  intros v. assert (v = imm mod 2 ^ 12) as Hv by (unfold v, to_u32; change 0xfff with (Z.ones 12); rewrite Z.land_ones by lia; by rewrite mod_pow_idem by lia).
  pose proof (Z.mod_pos_bound imm (2 ^ 12) ltac:(lia)). split; [done|]. rewrite Hv. split; [lia|]. split; [apply Z.mod_pos_bound; lia|].
  split; [split; [apply Z.div_pos; lia|apply Z.div_lt_upper_bound; lia]|]. rewrite Z.add_comm. apply Z.div_mod. lia.
Qed.

Lemma i_word op f3 d s v : 0 <= v < 2 ^ 12 -> fields_ok op d f3 s 0 0 ->
  Z.lor (Z.lor (Z.lor (Z.lor op (rv.shl d 7)) (rv.shl f3 12)) (rv.shl s 15)) (rv.shl v 20) = pack op d f3 s (v mod 2 ^ 5) (v / 2 ^ 5).
Proof. unfold fields_ok. intros Hv Hf. unfold pack. rewrite (or_shl op), (or_shl _ f3), (or_shl _ s), (or_shl _ v) by lia. pose proof (Z.div_mod v (2 ^ 5) ltac:(lia)). lia. Qed.

Lemma signed_imm n imm : 0 < n -> - 2 ^ (n - 1) <= imm < 2 ^ (n - 1) -> wasm.signed n (imm mod 2 ^ n) = imm.
Proof. apply signed_id. Qed.

Lemma encodes_i op f3 d s imm i a : 0 <= op < 2 ^ 7 -> 0 <= f3 < 2 ^ 3 -> reg_ok d -> reg_ok s ->
  (d < 32 -> s < 32 -> -2048 <= imm <= 2047 -> let v := imm mod 2 ^ 12 in decodeFields op d f3 s (v mod 2 ^ 5) (v / 2 ^ 5) = Some i) ->
  encodes ((d <? 32) && (s <? 32) && ((-2048 <=? imm) && (imm <=? 2047))) i a (rv.i op f3 d s imm a).
Proof.
  intros Ho H3 Hd Hs Hi. unfold rv.i.
  eapply encodes_ok; [|apply (encodes_registers' [d; s]); intros Hrg; apply encodes_check; intros Him; cbn beta].
  - instantiate (1 := true). cbn [forallb]. rewrite !andb_true_r. f_equal.
    destruct (Z.ltb_spec imm (-2048)), (Z.ltb_spec 2047 imm), (Z.leb_spec (-2048) imm), (Z.leb_spec imm 2047); done || lia.
  - destruct (low12 imm) as (Hv & Hr & Hm & Hq & _). cbn zeta in *. rewrite i_word by (regs_in; lia). rewrite Hv in *. apply encodes_pack; [regs_in; lia|].
    apply Hi; regs_in; lia.
Qed.

(** Twenty bits over the upper fields. *)
Lemma u_word op d v : 0 <= op < 2 ^ 7 -> 0 <= d < 2 ^ 5 -> 0 <= v < 2 ^ 20 -> exists f3 rs1 rs2 f7,
  fields_ok op d f3 rs1 rs2 f7 /\ immU f3 rs1 rs2 f7 = v /\ op + 2 ^ 7 * d + 2 ^ 12 * v = pack op d f3 rs1 rs2 f7.
Proof.
  intros Ho Hd Hv. exists (v mod 2 ^ 3), (v / 2 ^ 3 mod 2 ^ 5), (v / 2 ^ 8 mod 2 ^ 5), (v / 2 ^ 13).
  assert (v = v mod 2 ^ 3 + 2 ^ 3 * (v / 2 ^ 3 mod 2 ^ 5) + 2 ^ 8 * (v / 2 ^ 8 mod 2 ^ 5) + 2 ^ 13 * (v / 2 ^ 13)) as E by (Z.to_euclidean_division_equations; lia).
  assert (0 <= v mod 2 ^ 3 < 2 ^ 3 /\ 0 <= v / 2 ^ 3 mod 2 ^ 5 < 2 ^ 5 /\ 0 <= v / 2 ^ 8 mod 2 ^ 5 < 2 ^ 5 /\ 0 <= v / 2 ^ 13 < 2 ^ 7) as H
    by (Z.to_euclidean_division_equations; lia).
  unfold fields_ok, immU, pack. lia.
Qed.

Lemma encodes_u op d v i a : 0 <= op < 2 ^ 7 -> reg_ok d -> 0 <= v ->
  (forall f3 rs1 rs2 f7, immU f3 rs1 rs2 f7 = v -> decodeFields op d f3 rs1 rs2 f7 = Some i) ->
  encodes ((d <? 32) && (v <=? 0xfffff)) i a (rv.u op d v a).
Proof.
  intros Ho Hd Hv Hi. unfold rv.u. eapply encodes_ok; [|apply (encodes_registers' [d]); intros Hrg; apply encodes_check; intros Him; cbn beta].
  - instantiate (1 := true). cbn [forallb]. rewrite !andb_true_r. f_equal. destruct (Z.ltb_spec 0xfffff v), (Z.leb_spec v 0xfffff); done || lia.
  - regs_in. destruct (u_word op d v) as (f3 & rs1 & rs2 & f7 & Hf & HU & HW); [lia..|]. rewrite (or_shl op), (or_shl _ v), HW by lia. apply encodes_pack; auto.
Qed.

Lemma or_400 n : 0 <= n < 256 -> Z.lor n 0x400 = n + 0x400.
Proof. intros Hn. change (Z.lor n 0x400) with (Z.lor n (Z.shiftl 1 10)). rewrite lor_shiftl_add by lia. lia. Qed.

Lemma encodes_shift (right arithmetic narrow : bool) d s n i a : reg_ok d -> reg_ok s -> 0 <= n < 256 ->
  (n < (if narrow then 32 else 64) -> d < 32 -> s < 32 -> let v := if arithmetic then n + 0x400 else n in
    decodeFields (if narrow then 0x1b else 0x13) d (if right then 5 else 1) s (v mod 2 ^ 5) (v / 2 ^ 5) = Some i) ->
  encodes ((d <? 32) && (s <? 32) && (n <? (if narrow then 32 else 64))) i a (rv.shift d s n right arithmetic narrow a).
Proof.
  intros Hd Hs Hn Hi. unfold rv.shift.
  assert (forall limit op : Z, limit = (if narrow then 32 else 64) -> op = (if narrow then 0x1b else 0x13) ->
    encodes ((d <? 32) && (s <? 32) && (n <? limit)) i a
      (if limit <=? n then rv.fail ShiftCount a else rv.i op (if right then 5 else 1) d s (if arithmetic then Z.lor n 0x400 else n) a)) as H.
  { intros limit op -> ->. set (limit := if narrow then 32 else 64) in *. assert (limit <= 64) by (by destruct narrow).
    eapply encodes_ok; [|apply encodes_check; intros Hc; apply encodes_i]; try done; [|by destruct narrow|by destruct right|].
    - assert ((-2048 <=? (if arithmetic then Z.lor n 0x400 else n)) && ((if arithmetic then Z.lor n 0x400 else n) <=? 2047) = true \/ (limit <=? n) = true) as [E|E].
      { destruct (Z.leb_spec limit n); [by right|left]. rewrite or_400 by lia. destruct arithmetic; zbool. }
      + rewrite E, andb_true_r. rewrite (andb_comm (negb _)). f_equal. destruct (Z.leb_spec limit n), (Z.ltb_spec n limit); done || lia.
      + rewrite E. cbn [negb andb]. apply Z.leb_le in E. rewrite (proj2 (Z.ltb_ge n limit)) by lia. by rewrite andb_false_r.
    - intros Hd32 Hs32 _. apply Z.leb_gt in Hc. rewrite or_400 by lia.
      rewrite Z.mod_small by (destruct arithmetic; lia). apply Hi; lia. }
  destruct narrow; by apply H.
Qed.

Lemma encodes_store f3 s b off i a : 0 <= f3 < 2 ^ 3 -> reg_ok s -> reg_ok b ->
  (-2048 <= off <= 2047 -> let v := off mod 2 ^ 12 in decodeFields 0x23 (v mod 2 ^ 5) f3 b s (v / 2 ^ 5) = Some i) ->
  encodes ((s <? 32) && (b <? 32) && ((-2048 <=? off) && (off <=? 2047))) i a (rv.store f3 s b off a).
Proof.
  intros H3 Hs Hb Hi. unfold rv.store.
  eapply encodes_ok; [|apply (encodes_registers' [s; b]); intros Hrg; apply encodes_check; intros Him; cbn beta zeta].
  - instantiate (1 := true). cbn [forallb]. rewrite !andb_true_r. f_equal.
    destruct (Z.ltb_spec off (-2048)), (Z.ltb_spec 2047 off), (Z.leb_spec (-2048) off), (Z.leb_spec off 2047); done || lia.
  - destruct (low12 off) as (Hv & Hr & Hm & Hq & _). cbn zeta in *. change 31 with (Z.ones 5). rewrite Z.land_ones, Z.shiftr_div_pow2 by lia.
    rewrite r_word by (regs_in; lia). rewrite Hv in *. apply encodes_pack; [regs_in; lia|]. apply Hi. regs_in; lia.
Qed.

(** Masks of the low bits. *)
Lemma land_1 x : Z.land x 1 = x mod 2 ^ 1.
Proof. by apply (Z.land_ones x 1). Qed.
Lemma land_3 x : Z.land x 3 = x mod 4.
Proof. by apply (Z.land_ones x 2). Qed.
Lemma land_15 x : Z.land x 15 = x mod 2 ^ 4.
Proof. by apply (Z.land_ones x 4). Qed.
Lemma land_low_63 x : Z.land x 63 = x mod 2 ^ 6.
Proof. by apply (Z.land_ones x 6). Qed.
Lemma land_255 x : Z.land x 255 = x mod 2 ^ 8.
Proof. by apply (Z.land_ones x 8). Qed.
Lemma land_1023 x : Z.land x 1023 = x mod 2 ^ 10.
Proof. by apply (Z.land_ones x 10). Qed.

(** The bits of a branch displacement over the fields of a destination and a function. *)
Lemma b_word c l r v : 0 <= v < 2 ^ 13 -> v mod 4 = 0 -> fields_ok 0x63 0 c l r 0 -> exists rd f7, fields_ok 0x63 rd c l r f7 /\ immB rd f7 = wasm.signed 13 v /\
  Z.lor (Z.lor (Z.lor (Z.lor (Z.lor (Z.lor (Z.lor 0x63 (rv.shl (Z.land (Z.shiftr v 11) 1) 7)) (rv.shl (Z.land (Z.shiftr v 1) 15) 8)) (rv.shl c 12))
      (rv.shl l 15)) (rv.shl r 20)) (rv.shl (Z.land (Z.shiftr v 5) 63) 25)) (rv.shl (Z.land (Z.shiftr v 12) 1) 31) = pack 0x63 rd c l r f7.
Proof.
  intros Hv H4 Hf. rewrite !land_1, land_15, land_low_63, !Z.shiftr_div_pow2 by lia.
  set (b11 := v / 2 ^ 11 mod 2 ^ 1). set (b1 := v / 2 ^ 1 mod 2 ^ 4). set (b5 := v / 2 ^ 5 mod 2 ^ 6). set (b12 := v / 2 ^ 12 mod 2 ^ 1).
  assert (v = 2 * b1 + 2 ^ 5 * b5 + 2 ^ 11 * b11 + 2 ^ 12 * b12 /\ 0 <= b11 < 2 /\ 0 <= b1 < 16 /\ 0 <= b5 < 64 /\ 0 <= b12 < 2) as (Ev & R11 & R1 & R5 & R12)
    by (unfold b11, b1, b5, b12; Z.to_euclidean_division_equations; lia).
  clearbody b11 b1 b5 b12. unfold fields_ok in *. exists (b11 + 2 * b1), (b5 + 2 ^ 6 * b12). split; [lia|]. split.
  - unfold immB. rewrite Ev. f_equal. assert ((b11 + 2 * b1) / 2 = b1 /\ (b11 + 2 * b1) mod 2 = b11 /\ (b5 + 2 ^ 6 * b12) mod 64 = b5 /\ (b5 + 2 ^ 6 * b12) / 64 = b12) as (-> & -> & -> & ->)
      by (Z.to_euclidean_division_equations; lia). lia.
  - unfold pack. rewrite (or_shl 0x63), (or_shl _ b1), (or_shl _ c), (or_shl _ l), (or_shl _ r), (or_shl _ b5), (or_shl _ b12) by lia. lia.
Qed.

Definition branch_ok (c : Z) (disp : Z) : bool := rv.valid c && (disp mod 4 =? 0) && ((-4096 <=? disp) && (disp <=? 4092)).

Lemma encodes_branch c l r disp i a : 0 <= c < 8 -> reg_ok l -> reg_ok r ->
  (rv.valid c = true -> forall rd f7, immB rd f7 = disp -> decodeFields 0x63 rd c l r f7 = Some i) ->
  encodes ((l <? 32) && (r <? 32) && branch_ok c disp) i a (rv.Branch c l r disp a).
Proof.
  intros Hc Hl Hr Hi. unfold rv.Branch, branch_ok.
  eapply encodes_ok; [|apply (encodes_registers' [l; r]); intros Hrg; apply encodes_check; intros Him; cbn beta zeta].
  - instantiate (1 := true). cbn [forallb]. rewrite !andb_true_r, !negb_orb, !negb_involutive, land_3. f_equal. rewrite <- !andb_assoc. do 2 f_equal.
    destruct (Z.ltb_spec disp (-4096)), (Z.ltb_spec 4092 disp), (Z.leb_spec (-4096) disp), (Z.leb_spec disp 4092); done || lia.
  - rewrite !orb_false_iff, !negb_false_iff, land_3 in Him. destruct Him as [[[Hval H4%Z.eqb_eq] Hlo%Z.ltb_ge] Hhi%Z.ltb_ge]. regs_in.
    assert (Z.land (to_u32 disp) 0x1fff = disp mod 2 ^ 13) as -> by (unfold to_u32; change 0x1fff with (Z.ones 13); rewrite Z.land_ones by lia; by rewrite mod_pow_idem by lia).
    destruct (b_word c l r (disp mod 2 ^ 13)) as (rd & f7 & Hf & HB & HW); [apply Z.mod_pos_bound; lia| |unfold fields_ok; lia|].
    { change 4 with (2 ^ 2). rewrite mod_pow_idem by lia. exact H4. }
    rewrite HW. apply encodes_pack; [done|]. apply Hi; [done|]. rewrite HB. apply signed_imm; lia.
Qed.

Lemma j_word d v : 0 <= d < 2 ^ 5 -> 0 <= v < 2 ^ 21 -> v mod 4 = 0 -> exists t, 0 <= t < 2 ^ 20 /\ immJ t = wasm.signed 21 v /\
  Z.lor (Z.lor (Z.lor (Z.lor (Z.lor 0x6f (rv.shl d 7)) (rv.shl (Z.land (Z.shiftr v 12) 255) 12)) (rv.shl (Z.land (Z.shiftr v 11) 1) 20))
      (rv.shl (Z.land (Z.shiftr v 1) 1023) 21)) (rv.shl (Z.land (Z.shiftr v 20) 1) 31) = 0x6f + 2 ^ 7 * d + 2 ^ 12 * t.
Proof.
  intros Hd Hv H4. rewrite !land_1, land_255, land_1023, !Z.shiftr_div_pow2 by lia.
  set (b12 := v / 2 ^ 12 mod 2 ^ 8). set (b11 := v / 2 ^ 11 mod 2 ^ 1). set (b1 := v / 2 ^ 1 mod 2 ^ 10). set (b20 := v / 2 ^ 20 mod 2 ^ 1).
  assert (v = 2 * b1 + 2 ^ 11 * b11 + 2 ^ 12 * b12 + 2 ^ 20 * b20 /\ 0 <= b11 < 2 /\ 0 <= b1 < 1024 /\ 0 <= b12 < 256 /\ 0 <= b20 < 2) as (Ev & R11 & R1 & R12 & R20)
    by (unfold b11, b1, b12, b20; Z.to_euclidean_division_equations; lia).
  clearbody b11 b1 b12 b20. exists (b12 + 2 ^ 8 * b11 + 2 ^ 9 * b1 + 2 ^ 19 * b20). split; [lia|]. split.
  - unfold immJ. rewrite Ev. f_equal. set (t := b12 + _ + _ + _).
    assert (t / 2 ^ 9 mod 2 ^ 10 = b1 /\ t / 2 ^ 8 mod 2 = b11 /\ t mod 2 ^ 8 = b12 /\ t / 2 ^ 19 = b20) as (-> & -> & -> & ->)
      by (unfold t; Z.to_euclidean_division_equations; lia). lia.
  - rewrite (or_shl 0x6f), (or_shl _ b12), (or_shl _ b11), (or_shl _ b1), (or_shl _ b20) by lia. lia.
Qed.

Lemma encodes_jal d disp a : reg_ok d ->
  encodes ((d <? 32) && ((disp mod 4 =? 0) && ((- 2 ^ 20 <=? disp) && (disp <=? 2 ^ 20 - 4)))) (JAL d disp) a (rv.Jal d disp a).
Proof.
  intros Hd. unfold rv.Jal. eapply encodes_ok; [|apply (encodes_registers' [d]); intros Hrg; apply encodes_check; intros Him; cbn beta zeta].
  - instantiate (1 := true). cbn [forallb]. rewrite !andb_true_r, !negb_orb, !negb_involutive, land_3. f_equal. rewrite <- !andb_assoc. f_equal.
    destruct (Z.ltb_spec disp (- 2 ^ 20)), (Z.ltb_spec (2 ^ 20 - 4) disp), (Z.leb_spec (- 2 ^ 20) disp), (Z.leb_spec disp (2 ^ 20 - 4)); done || lia.
  - rewrite !orb_false_iff, !negb_false_iff, land_3 in Him. destruct Him as [[H4%Z.eqb_eq Hlo%Z.ltb_ge] Hhi%Z.ltb_ge]. regs_in.
    assert (Z.land (to_u32 disp) 0x1fffff = disp mod 2 ^ 21) as -> by (unfold to_u32; change 0x1fffff with (Z.ones 21); rewrite Z.land_ones by lia; by rewrite mod_pow_idem by lia).
    destruct (j_word d (disp mod 2 ^ 21)) as (t & Ht & HJ & HW); [lia|apply Z.mod_pos_bound; lia| |].
    { change 4 with (2 ^ 2). rewrite mod_pow_idem by lia. exact H4. }
    destruct (u_word 0x6f d t) as (f3 & rs1 & rs2 & f7 & Hf & HU & HP); [lia..|]. rewrite HW, HP. apply encodes_pack; [done|].
    cbn [decodeFields]. rewrite HU, HJ. by rewrite signed_imm by lia.
Qed.

Lemma encodes_atomic (sc d : bool) rd v b ord a : reg_ok rd -> reg_ok v -> reg_ok b -> 0 <= ord < 256 -> (sc = false -> v = 0) ->
  encodes ((rd <? 32) && (v <? 32) && (b <? 32) && (ord <=? 3)) (if sc then SC d rd v b ord else LR d rd b ord) a
    (rv.atomic (if sc then 3 else 2) (if d then 3 else 2) rd v b ord a).
Proof.
  intros Hrd Hv Hb Ho Hz. unfold rv.atomic. eapply encodes_ok; [|apply (encodes_registers' [rd; v; b]); intros Hrg; apply encodes_check; intros Him; cbn beta zeta].
  - instantiate (1 := true). cbn [forallb]. rewrite !andb_true_r, !andb_assoc. f_equal. destruct (Z.ltb_spec 3 ord), (Z.leb_spec ord 3); done || lia.
  - regs_in. set (fn := if sc then 3 else 2). set (f3 := if d then 3 else 2). assert (0 <= fn < 4 /\ 0 <= f3 < 4) by (unfold fn, f3; destruct sc, d; lia).
    rewrite (or_shl 0x2f), (or_shl _ f3), (or_shl _ b), (or_shl _ v), (or_shl _ ord), (or_shl _ fn) by lia.
    match goal with |- encodes _ _ _ (rv.word ?w _) => replace w with (pack 0x2f rd f3 b v (ord + 4 * fn)) by (unfold pack; lia) end.
    apply encodes_pack; [unfold fields_ok; lia|]. cbn [decodeFields]. unfold decodeAtomic.
    assert ((ord + 4 * fn) / 4 = fn /\ (ord + 4 * fn) mod 4 = ord) as [-> ->] by (Z.to_euclidean_division_equations; lia).
    unfold fn, f3. destruct sc, d; cbn; try done; by rewrite Hz.
Qed.

Lemma encodes_fence pr su a : 0 <= pr < 256 -> 0 <= su < 256 -> encodes ((pr <=? 15) && (su <=? 15)) (FENCE pr su) a (rv.Fence pr su a).
Proof.
  intros Hp Hs. unfold rv.Fence. eapply encodes_ok; [|apply encodes_check; intros Him].
  - instantiate (1 := true). rewrite andb_true_r. destruct (Z.ltb_spec 15 pr), (Z.ltb_spec 15 su), (Z.leb_spec pr 15), (Z.leb_spec su 15); done || lia.
  - bool_to_prop. rewrite <- Z.lor_assoc, (Z.lor_comm (rv.shl pr 24)), Z.lor_assoc. rewrite (or_shl 0x0f), (or_shl _ pr) by lia.
    match goal with |- encodes _ _ _ (rv.word ?w _) => replace w with (pack 0x0f 0 0 0 (su + 16 * (pr mod 2)) (pr / 2)) by (unfold pack; Z.to_euclidean_division_equations; lia) end.
    apply encodes_pack; [unfold fields_ok; Z.to_euclidean_division_equations; lia|]. cbn [decodeFields].
    assert (pr / 2 / 8 = 0) as -> by (Z.to_euclidean_division_equations; lia). cbn. do 2 f_equal; Z.to_euclidean_division_equations; lia.
Qed.

Lemma encodes_float f3 f7 d l r i a : 0 <= f3 < 2 ^ 3 -> 0 <= f7 < 2 ^ 7 -> reg_ok d -> reg_ok l -> reg_ok r -> decodeFloat d f3 l r f7 = Some i ->
  encodes ((d <? 32) && (l <? 32) && (r <? 32)) i a (rv.floatWord f3 f7 d l r a).
Proof.
  intros H3 H7 Hd Hl Hr Hi. unfold rv.floatWord. eapply encodes_ok; [|apply (encodes_registers' [d; l; r] true)].
  - cbn. by rewrite !andb_true_r, !andb_assoc.
  - intros Hrg. rewrite r_word by (regs_in; lia). apply encodes_pack; [regs_in; lia|done].
Qed.

Lemma encodes_rounded mode f7 d l r i a : 0 <= mode -> 0 <= f7 < 2 ^ 7 -> reg_ok d -> reg_ok l -> reg_ok r ->
  (roundingOk mode = true -> decodeFloat d mode l r f7 = Some i) ->
  encodes (roundingOk mode && ((d <? 32) && (l <? 32) && (r <? 32))) i a (rv.rounded mode f7 d l r a).
Proof.
  intros Hm H7 Hd Hl Hr Hi. assert ((4 <? mode) && negb (mode =? 7) = negb (roundingOk mode)) as Hb.
  { unfold roundingOk. destruct (Z.ltb_spec 4 mode), (Z.leb_spec mode 4), (mode =? 7); done || lia. }
  assert (rv.rounded mode f7 d l r a = if negb (roundingOk mode) then rv.fail RoundingReserved a else rv.floatWord mode f7 d l r a) as ->.
  { unfold rv.rounded, rv.rounding. rewrite Hb. destruct (roundingOk mode); cbn [negb].
    - destruct (err a) eqn:Ea; [|done]. unfold rv.floatWord, rv.registers. by rewrite Ea.
    - unfold rv.fail. destruct (err a) eqn:Ea; [by rewrite Ea|done]. }
  eapply encodes_ok; [|apply encodes_check; intros Hk%negb_false_iff; apply encodes_float; try done; [|by apply Hi]].
  - by rewrite negb_involutive.
  - unfold roundingOk in Hk. apply orb_true_iff in Hk as [Hk%Z.leb_le|Hk%Z.eqb_eq]; lia.
Qed.

Lemma encodes_csr (wr : bool) c v rd rs a : decodeCsr v = Some c -> reg_ok rd -> reg_ok rs -> (if wr then rd else rs) = 0 ->
  encodes ((rd <? 32) && (rs <? 32)) (if wr then CsrWrite c rs else CsrRead c rd) a (rv.floatCSR v rd rs wr a).
Proof.
  intros Hc Hrd Hrs Hz. unfold rv.floatCSR. eapply encodes_ok; [|apply (encodes_registers' [rd; rs] true)].
  - cbn. by rewrite !andb_true_r.
  - intros Hrg. assert (0 <= v < 32) by (unfold decodeCsr in Hc; repeat case_go; done || lia). cbn zeta.
    rewrite i_word by (destruct wr; regs_in; lia). rewrite Z.mod_small, Z.div_small by lia. apply encodes_pack; [destruct wr; regs_in; lia|].
    cbn [decodeFields]. unfold decodeSystem. destruct wr; rewrite Hz, Z.add_0_r, Hc; done.
Qed.

(** ** All the methods *)

(** The method for an instruction. *)
Definition emit (i : instr) : Asm -> Asm :=
  match i with
  | ROp o d l r =>
      match o with
      | ADD => rv.Add | SUB => rv.Sub | SLL => rv.Sll | SLT => rv.Slt | SLTU => rv.Sltu | XOR => rv.Xor | SRL => rv.Srl | SRA => rv.Sra | OR => rv.Or | AND => rv.And
      | MUL => rv.Mul | MULH => rv.Mulh | MULHU => rv.Mulhu | DIV => rv.Div | DIVU => rv.Divu | REM => rv.Rem | REMU => rv.Remu
      | ADDW => rv.Addw | SUBW => rv.Subw | SLLW => rv.Sllw | SRLW => rv.Srlw | SRAW => rv.Sraw | MULW => rv.Mulw | DIVW => rv.Divw | DIVUW => rv.Divuw
      | REMW => rv.Remw | REMUW => rv.Remuw
      end d l r
  | IOp o d s imm => match o with ADDI => rv.Addi | SLTIU => rv.Sltiu | XORI => rv.Xori | ANDI => rv.Andi | ADDIW => rv.Addiw end d s imm
  | Shift o d s n => match o with SLLI => rv.Slli | SRLI => rv.Srli | SRAI => rv.Srai | SLLIW => rv.Slliw | SRLIW => rv.Srliw | SRAIW => rv.Sraiw end d s n
  | LUI d v => rv.Lui d v
  | AUIPC d v => rv.Auipc d v
  | JAL d imm => rv.Jal d imm
  | JALR d s imm => rv.Jalr d s imm
  | BranchOp o l r imm => rv.Branch (match o with BEQ => rv.EQ | BNE => rv.NE | BLT => rv.LT | BGE => rv.GE | BLTU => rv.LTU | BGEU => rv.GEU end) l r imm
  | LoadOp o d b imm => match o with LW => rv.Lw | LD => rv.Ld | LBU => rv.Lbu | LHU => rv.Lhu | LWU => rv.Lwu end d b imm
  | StoreOp o s b imm => match o with SB => rv.Sb | SH => rv.Sh | SW => rv.Sw | SD => rv.Sd end s b imm
  | FENCE p s => rv.Fence p s
  | LR d rd b o => (if d then rv.LrD else rv.LrW) rd b o
  | SC d rd v b o => (if d then rv.ScD else rv.ScW) rd v b o
  | FArith o d rd l r m =>
      match o with
      | FADD => if d then rv.FaddD else rv.FaddS | FSUB => if d then rv.FsubD else rv.FsubS
      | FMUL => if d then rv.FmulD else rv.FmulS | FDIV => if d then rv.FdivD else rv.FdivS
      end rd l r m
  | FSqrt d rd s m => (if d then rv.FsqrtD else rv.FsqrtS) rd s m
  | FFixed o d rd l r =>
      match o with
      | FSGNJ => if d then rv.FsgnjD else rv.FsgnjS | FSGNJN => if d then rv.FsgnjnD else rv.FsgnjnS | FSGNJX => if d then rv.FsgnjxD else rv.FsgnjxS
      | FMIN => if d then rv.FminD else rv.FminS | FMAX => if d then rv.FmaxD else rv.FmaxS
      | FEQ => if d then rv.FeqD else rv.FeqS | FLT => if d then rv.FltD else rv.FltS | FLE => if d then rv.FleD else rv.FleS
      end rd l r
  | FClass d rd s => (if d then rv.FclassD else rv.FclassS) rd s
  | FToInt t d rd s m =>
      match t with
      | TW => if d then rv.FcvtWD else rv.FcvtWS | TWU => if d then rv.FcvtWuD else rv.FcvtWuS
      | TL => if d then rv.FcvtLD else rv.FcvtLS | TLU => if d then rv.FcvtLuD else rv.FcvtLuS
      end rd s m
  | FFromInt t d rd s m =>
      match t with
      | TW => if d then rv.FcvtDW else rv.FcvtSW | TWU => if d then rv.FcvtDWu else rv.FcvtSWu
      | TL => if d then rv.FcvtDL else rv.FcvtSL | TLU => if d then rv.FcvtDLu else rv.FcvtSLu
      end rd s m
  | FMvToInt d rd s => (if d then rv.FmvXD else rv.FmvXW) rd s
  | FMvFromInt d rd s => (if d then rv.FmvDX else rv.FmvWX) rd s
  | FToDouble rd s m => rv.FcvtDS rd s m
  | FToSingle rd s m => rv.FcvtSD rd s m
  | CsrRead c rd => match c with FFLAGS => rv.ReadFflags | FCSR => rv.ReadFcsr end rd
  | CsrWrite c rs => match c with FFLAGS => rv.WriteFflags | FCSR => rv.WriteFcsr end rs
  end.

Definition below32 (l : list Z) : bool := forallb (fun r => r <? 32) l.
Definition imm12 (imm : Z) : bool := (-2048 <=? imm) && (imm <=? 2047).

(** The operands the architecture can express. *)
Definition operands_ok (i : instr) : bool :=
  match i with
  | ROp _ d l r => below32 [d; l; r]
  | IOp _ d s imm | JALR d s imm | LoadOp _ d s imm | StoreOp _ d s imm => below32 [d; s] && imm12 imm
  | Shift o d s n => below32 [d; s] && (n <? match o with SLLI | SRLI | SRAI => 64 | _ => 32 end)
  | LUI d v | AUIPC d v => below32 [d] && (v <=? 0xfffff)
  | JAL d imm => below32 [d] && ((imm mod 4 =? 0) && ((- 2 ^ 20 <=? imm) && (imm <=? 2 ^ 20 - 4)))
  | BranchOp _ l r imm => below32 [l; r] && ((imm mod 4 =? 0) && ((-4096 <=? imm) && (imm <=? 4092)))
  | FENCE p s => (p <=? 15) && (s <=? 15)
  | LR _ d b o => below32 [d; b] && (o <=? 3)
  | SC _ d v b o => below32 [d; v; b] && (o <=? 3)
  | FArith _ _ d l r m => roundingOk m && below32 [d; l; r]
  | FSqrt _ d s m | FToInt _ _ d s m | FFromInt _ _ d s m | FToDouble d s m | FToSingle d s m => roundingOk m && below32 [d; s]
  | FFixed _ _ d l r => below32 [d; l; r]
  | FClass _ d s | FMvToInt _ d s | FMvFromInt _ d s => below32 [d; s]
  | CsrRead _ d => below32 [d]
  | CsrWrite _ s => below32 [s]
  end.

Definition bytes8 (l : list Z) : Prop := Forall (fun x => 0 <= x < 256) l.

(** The operands the Go types can express: registers, counts, modes and sets are bytes,
    an upper immediate is unsigned. *)
Definition go_typed (i : instr) : Prop :=
  match i with
  | ROp _ d l r | FFixed _ _ d l r => bytes8 [d; l; r]
  | IOp _ d s _ | JALR d s _ | LoadOp _ d s _ | StoreOp _ d s _ | BranchOp _ d s _ => bytes8 [d; s]
  | Shift _ d s n => bytes8 [d; s; n]
  | LUI d v | AUIPC d v => bytes8 [d] /\ 0 <= v
  | JAL d _ => bytes8 [d]
  | FENCE p s => bytes8 [p; s]
  | LR _ d b o => bytes8 [d; b; o]
  | SC _ d v b o => bytes8 [d; v; b; o]
  | FArith _ _ d l r m => bytes8 [d; l; r; m]
  | FSqrt _ d s m | FToInt _ _ d s m | FFromInt _ _ d s m | FToDouble d s m | FToSingle d s m => bytes8 [d; s; m]
  | FClass _ d s | FMvToInt _ d s | FMvFromInt _ d s => bytes8 [d; s]
  | CsrRead _ d => bytes8 [d]
  | CsrWrite _ s => bytes8 [s]
  end.

Ltac typed := unfold bytes8 in *; repeat match goal with
  | H : Forall _ (_ :: _) |- _ => apply Forall_cons_1 in H; destruct H
  | H : Forall _ [] |- _ => clear H
  | H : _ /\ _ |- _ => destruct H
  end.

(** The shape of the checks of [operands_ok]. *)
Ltac same_checks := unfold operands_ok, below32, imm12; cbn [forallb]; rewrite ?andb_true_r, ?andb_assoc; reflexivity.

Ltac euclid := Z.to_euclidean_division_equations; lia.

Ltac side := first [done | unfold const_ok, reg_ok; lia].

(** An immediate of twelve bits, put together again. *)
Lemma imm_back imm : -2048 <= imm <= 2047 -> immI (imm mod 2 ^ 12 mod 2 ^ 5) (imm mod 2 ^ 12 / 2 ^ 5) = imm.
Proof. intros Hi. unfold immI. rewrite Z.add_comm, <- Z.div_mod by lia. apply signed_imm; lia. Qed.

Lemma emit_encodes i a : go_typed i -> encodes (operands_ok i) i a (emit i a).
Proof.
  destruct i; cbn [go_typed]; intros Ht; typed; cbn [emit].
  - eapply encodes_ok; [|destruct o; apply encodes_r; side]. same_checks.
  - eapply encodes_ok; [|destruct o; apply encodes_i; try side; intros ? ? ?; cbn zeta; cbn [decodeFields decodeImm decodeImmW]; by rewrite imm_back]. same_checks.
  - destruct o; (eapply encodes_ok; [|apply encodes_shift; try side; intros Hn Hd Hs; cbn zeta iota in *; cbn [decodeFields decodeImm decodeImmW]]; [same_checks|]).
    + by replace (count / 2 ^ 5 / 2) with 0 by euclid; cbn; do 2 f_equal; euclid.
    + by replace (count / 2 ^ 5 / 2) with 0 by euclid; cbn; do 2 f_equal; euclid.
    + by replace ((count + 1024) / 2 ^ 5 / 2) with 16 by euclid; cbn; do 2 f_equal; euclid.
    + replace (count / 2 ^ 5) with 0 by euclid. do 2 f_equal. euclid.
    + replace (count / 2 ^ 5) with 0 by euclid. do 2 f_equal. euclid.
    + replace ((count + 1024) / 2 ^ 5) with 32 by euclid. do 2 f_equal. euclid.
  - eapply encodes_ok; [|apply encodes_u; try side; intros f3 rs1 rs2 f7 HU; cbn [decodeFields]; by rewrite HU]. same_checks.
  - eapply encodes_ok; [|apply encodes_u; try side; intros f3 rs1 rs2 f7 HU; cbn [decodeFields]; by rewrite HU]. same_checks.
  - eapply encodes_ok; [|apply encodes_jal; side]. same_checks.
  - eapply encodes_ok; [|apply encodes_i; try side; intros ? ? ?; cbn zeta; cbn [decodeFields]; by rewrite imm_back]. same_checks.
  - eapply encodes_ok; [|apply encodes_branch; try (destruct o; side); intros _ rd f7 HB; destruct o; cbn [decodeFields]; rewrite HB; done].
    unfold branch_ok. destruct o; cbn [rv.valid andb]; rewrite andb_true_l; same_checks.
  - eapply encodes_ok; [|destruct o; apply encodes_i; try side; intros ? ? ?; cbn zeta; cbn [decodeFields]; by rewrite imm_back]. same_checks.
  - eapply encodes_ok; [|destruct o; apply encodes_store; try side; intros ?; cbn zeta; cbn [decodeFields]; unfold immS; fold (immI (imm mod 2 ^ 12 mod 2 ^ 5) (imm mod 2 ^ 12 / 2 ^ 5)); by rewrite imm_back]. same_checks.
  - by apply encodes_fence.
  - eapply encodes_ok; [|destruct d; [apply (encodes_atomic false true rd 0)|apply (encodes_atomic false false rd 0)]; side]. same_checks.
  - eapply encodes_ok; [|destruct d; [apply (encodes_atomic true true)|apply (encodes_atomic true false)]; side]. same_checks.
  - eapply encodes_ok; [|destruct o, d; apply encodes_rounded; try side; intros Hm; unfold decodeFloat; cbn; by rewrite Hm]. same_checks.
  - eapply encodes_ok; [|destruct d; apply encodes_rounded; try side; intros Hm; unfold decodeFloat; cbn; by rewrite Hm]. same_checks.
  - eapply encodes_ok; [|destruct o, d; apply encodes_float; side]. same_checks.
  - eapply encodes_ok; [|destruct d; apply encodes_float; side]. same_checks.
  - destruct t, d; (eapply encodes_ok; [|apply encodes_rounded; try side; intros Hm; unfold decodeFloat; cbn; by rewrite Hm]); same_checks.
  - destruct t, d; (eapply encodes_ok; [|apply encodes_rounded; try side; intros Hm; unfold decodeFloat; cbn; by rewrite Hm]); same_checks.
  - eapply encodes_ok; [|destruct d; apply encodes_float; side]. same_checks.
  - eapply encodes_ok; [|destruct d; apply encodes_float; side]. same_checks.
  - eapply encodes_ok; [|apply encodes_rounded; try side; intros Hm; unfold decodeFloat; cbn; by rewrite Hm]. same_checks.
  - eapply encodes_ok; [|apply encodes_rounded; try side; intros Hm; unfold decodeFloat; cbn; by rewrite Hm]. same_checks.
  - eapply encodes_ok; [|destruct c; [apply (encodes_csr false FFLAGS 1 rd 0)|apply (encodes_csr false FCSR 3 rd 0)]; side]. same_checks.
  - eapply encodes_ok; [|destruct c; [apply (encodes_csr true FFLAGS 1 0 rs1)|apply (encodes_csr true FCSR 3 0 rs1)]; side]. same_checks.
Qed.

(** C21: Every method of the assembler encodes its instruction.  On an assembler that has
    failed a method does nothing.  Otherwise, if its operands pass the checks and the code
    is aligned, it appends the four bytes of one word which the architecture decodes as
    exactly that instruction, operands included; if not, it appends nothing and records
    the error.  This covers the integer, branch, memory, atomic, floating-point and
    control-register instructions. *)
Theorem methods_encode i a : go_typed i ->
  match err a with
  | Some _ => emit i a = a
  | None =>
      if operands_ok i && aligned a then exists w, emit i a = {| B := B a ++ rv.le w; err := None |} /\ 0 <= w < 2 ^ 32 /\ decode w = Some i
      else B (emit i a) = B a /\ err (emit i a) <> None
  end.
Proof. apply emit_encodes. Qed.

Lemma methods_encode_witness : go_typed (BranchOp BLTU 10 11 (-4096)) /\
  exists w, emit (BranchOp BLTU 10 11 (-4096)) {| B := [1; 2; 3; 4]; err := None |} = {| B := [1; 2; 3; 4] ++ rv.le w; err := None |} /\ 0 <= w < 2 ^ 32 /\ decode w = Some (BranchOp BLTU 10 11 (-4096)).
Proof.
  assert (go_typed (BranchOp BLTU 10 11 (-4096))) as Ht by (unfold go_typed, bytes8; repeat constructor; lia).
  split; [exact Ht|]. exact (methods_encode (BranchOp BLTU 10 11 (-4096)) {| B := [1; 2; 3; 4]; err := None |} Ht).
Defined.
