(* ===== verification/RvCode.v ===== *)
(** * Running emitted code

    The bytes of the assembler as a code image of the machine of [RvIsa]: straight-line
    code, the constants of constant.go, and the long branches of branch.go. *)

From stdpp Require Import base tactics numbers list functions relations.
From Stdlib Require Import ZArith Lia.
From S2P Require Import Prelude Bits IntFold RvAsm RvIsa RvEncode.
Local Open Scope Z_scope.
Local Open Scope list_scope.

(** ** Words of an image *)

Lemma Uint32_le w b : 0 <= w < 2 ^ 32 -> rv.Uint32 (rv.le w ++ b) 0 = Some w.
Proof.
  intros Hw. unfold rv.Uint32, rv.le. cbn [Z.to_nat drop take app]. f_equal. rewrite !Z.shiftr_div_pow2 by lia. unfold to_u8.
  assert (forall x, 0 <= x mod 2 ^ 8 < 2 ^ 8) as Hb by (intros; apply Z.mod_pos_bound; lia).
  pose proof (Hb w). pose proof (Hb (w / 2 ^ 8)). pose proof (Hb (w / 2 ^ 16)). pose proof (Hb (w / 2 ^ 24)).
  rewrite (or_shl (w mod 2 ^ 8)), (or_shl _ (w / 2 ^ 16 mod _)), (or_shl _ (w / 2 ^ 24 mod _)) by lia. euclid.
Qed.

Lemma Uint32_app b0 b o : 0 <= o -> rv.Uint32 (b0 ++ b) (Z.of_nat (length b0) + o) = rv.Uint32 b o.
Proof. intros Ho. unfold rv.Uint32. rewrite Z2Nat.inj_add, Nat2Z.id by lia. by rewrite drop_app_add. Qed.

Lemma Uint32_cons w b o : 4 <= o -> rv.Uint32 (rv.le w ++ b) o = rv.Uint32 b (o - 4).
Proof. intros Ho. rewrite <- (Uint32_app (rv.le w) b (o - 4)) by lia. f_equal. cbn. lia. Qed.

Definition alignedTo4 (b : list Z) : Prop := Z.of_nat (length b) mod 4 = 0.

Lemma aligned_spec a : aligned a = true <-> alignedTo4 (B a).
Proof. unfold aligned, rv.Len, alignedTo4. rewrite land_3. apply Z.eqb_eq. Qed.

Lemma fetch_app b0 b o : 0 <= o -> alignedTo4 b0 -> fetch (b0 ++ b) (Z.of_nat (length b0) + o) = fetch b o.
Proof.
  intros Ho H4. unfold fetch. rewrite Uint32_app by done. rewrite (proj2 (Z.ltb_ge (_ + o) 0)), (proj2 (Z.ltb_ge o 0)) by lia.
  assert ((Z.of_nat (length b0) + o) mod 4 = o mod 4) as ->; [|done]. unfold alignedTo4 in H4. rewrite <- Z.add_mod_idemp_l, H4 by lia. by rewrite Z.add_0_l.
Qed.

(** [image] has the code [l] at [pos]. *)
Definition code_at (image : list Z) (pos : Z) (l : list instr) : Prop :=
  forall k i, l !! k = Some i -> fetch image (pos + 4 * Z.of_nat k) = Some i.

Lemma code_at_cons image pos i l : code_at image pos (i :: l) -> fetch image pos = Some i /\ code_at image (pos + 4) l.
Proof.
  intros H. split; [rewrite <- (H 0%nat i eq_refl); f_equal; lia|]. intros k j Hk. rewrite <- (H (S k) j Hk). f_equal. lia.
Qed.

(** ** What an assembler has written *)

Definition word_is (w : Z) (i : instr) : Prop := 0 <= w < 2 ^ 32 /\ decode w = Some i.

(** After the bytes [b0], the code [l]. *)
Definition written (b0 : list Z) (l : list instr) (a : Asm) : Prop :=
  err a = None /\ exists ws, B a = b0 ++ concat (rv.le <$> ws) /\ Forall2 word_is ws l.

Lemma concat_length ws : Z.of_nat (length (concat (rv.le <$> ws))) = 4 * Z.of_nat (length ws).
Proof. induction ws as [|w ws IH]; [done|]. rewrite fmap_cons. cbn [concat]. rewrite length_app. cbn [rv.le length]. lia. Qed.

Lemma concat_code ws l : Forall2 word_is ws l -> code_at (concat (rv.le <$> ws)) 0 l.
Proof.
  intros H. induction H as [|w i ws l [Hw Hd] _ IH]; [done|]. intros [|k] j Hj.
  - injection Hj as <-. rewrite fmap_cons. cbn [concat].
    change ((rv.Uint32 (rv.le w ++ concat (rv.le <$> ws)) 0 ≫= fun w => decode w) = Some i). by rewrite Uint32_le.
  - specialize (IH k j Hj). rewrite fmap_cons. cbn [concat]. rewrite <- IH. replace (0 + 4 * Z.of_nat (S k)) with (Z.of_nat (length (rv.le w)) + (0 + 4 * Z.of_nat k)) by (cbn [rv.le length]; lia).
    apply fetch_app; [lia|done].
Qed.

Section Written.
Context (b0 : list Z) (H0 : alignedTo4 b0).

Lemma written_length l a : written b0 l a -> rv.Len a = Z.of_nat (length b0) + 4 * Z.of_nat (length l).
Proof. intros (_ & ws & HB & HF). unfold rv.Len. rewrite HB, length_app, <- (Forall2_length _ _ _ HF). pose proof (concat_length ws). lia. Qed.

Lemma written_aligned l a : written b0 l a -> aligned a = true.
Proof using H0.
  intros Hw. unfold aligned. rewrite land_3, (written_length l a Hw). apply Z.eqb_eq. unfold alignedTo4 in H0. rewrite <- Z.add_mod_idemp_l, H0 by lia.
  rewrite Z.add_0_l, Z.mul_comm. apply Z.mod_mul. lia.
Qed.

Lemma written_emit l a i : go_typed i -> operands_ok i = true -> written b0 l a -> written b0 (l ++ [i]) (emit i a).
Proof using H0.
  intros Ht Ho Hw. pose proof (emit_encodes i a Ht) as He. pose proof (written_aligned l a Hw) as Ha. destruct Hw as (Hn & ws & HB & HF). unfold encodes in He.
  rewrite Hn, Ho, Ha in He. cbn [andb] in He. destruct He as (w & -> & Hr & Hd). split; [done|]. exists (ws ++ [w]). cbn [B]. split.
  - by rewrite HB, fmap_app, concat_app, app_assoc.
  - apply Forall2_app; [done|]. constructor; [by split|constructor].
Qed.

Lemma written_code l a : written b0 l a -> code_at (B a) (Z.of_nat (length b0)) l.
Proof using H0.
  intros (_ & ws & HB & HF) k i Hk. rewrite HB. rewrite fetch_app by (done || lia). rewrite <- (concat_code ws l HF k i Hk). f_equal.
Qed.
End Written.

Lemma written_start a : err a = None -> written (B a) [] a.
Proof. intros He. split; [done|]. exists []. by rewrite app_nil_r. Qed.

(** ** Runs *)

Definition steps (image : list Z) : relation cpu := rtc (fun m m' => step image m = Some m').

(** The effect of an instruction that does not transfer control. *)
Definition effect (i : instr) (x : Z -> Z) : option (Z -> Z) :=
  match i with
  | ROp o rd a b => Some (rput rd (aluR o (rget x a) (rget x b)) x)
  | IOp o rd a imm => Some (rput rd (aluI o (rget x a) imm) x)
  | Shift o rd a n => Some (rput rd (aluS o (rget x a) n) x)
  | LUI rd v => Some (rput rd (u64 (upper v)) x)
  | _ => None
  end.

Definition run (l : list instr) (x : Z -> Z) : option (Z -> Z) := foldl (fun o i => o ≫= effect i) (Some x) l.

Lemma run_cons i l x : run (i :: l) x = effect i x ≫= run l.
Proof.
  unfold run. cbn. destruct (effect i x) as [x'|]; [done|]. cbn. induction l as [|j l IH]; [done|]. exact IH.
Qed.

Lemma run_app l l' x : run (l ++ l') x = run l x ≫= run l'.
Proof. revert x. induction l as [|i l IH]; intros x; [done|]. rewrite <- app_comm_cons, !run_cons. destruct (effect i x); [|done]. apply IH. Qed.

Lemma step_effect image i p x x' : fetch image p = Some i -> effect i x = Some x' -> 0 <= p < 2 ^ 64 - 4 ->
  step image {| pc := p; xs := x |} = Some {| pc := p + 4; xs := x' |}.
Proof.
  intros Hf He Hp. unfold step. cbn [pc]. rewrite Hf. cbn [mbind option_bind].
  assert (u64 (p + 4) = p + 4) as Hu by (apply Z.mod_small; lia). destruct i; try discriminate He; injection He as <-; unfold exec; cbn [pc xs]; by rewrite Hu.
Qed.

Lemma run_steps image l p x x' : code_at image p l -> run l x = Some x' -> 0 <= p -> p + 4 * Z.of_nat (length l) < 2 ^ 63 ->
  steps image {| pc := p; xs := x |} {| pc := p + 4 * Z.of_nat (length l); xs := x' |}.
Proof.
  revert p x. induction l as [|i l IH]; intros p x Hc Hr Hp Hl.
  - cbn in Hr. injection Hr as <-. cbn [length Z.of_nat Z.mul]. rewrite Z.add_0_r. apply rtc_refl.
  - apply code_at_cons in Hc as [Hf Hc]. rewrite run_cons in Hr. destruct (effect i x) as [x1|] eqn:Ee; [|done]. cbn [length] in Hl.
    eapply rtc_l; [eapply step_effect; [done|done|lia]|]. specialize (IH (p + 4) x1 Hc Hr ltac:(lia) ltac:(lia)).
    replace (p + 4 * Z.of_nat (length (i :: l))) with (p + 4 + 4 * Z.of_nat (length l)) by (cbn [length]; lia). exact IH.
Qed.

(** Registers after a write. *)
Lemma rget_put r v x : r <> 0 -> rget (rput r v x) r = v.
Proof. intros Hr. unfold rget, rput. rewrite (proj2 (Z.eqb_neq r 0) Hr). apply fn_lookup_insert. Qed.

Lemma rget_put_ne r r' v x : r' <> r -> rget (rput r v x) r' = rget x r'.
Proof. intros Hr. unfold rget, rput. destruct (r' =? 0); [done|]. destruct (r =? 0); [done|]. by apply fn_lookup_insert_ne. Qed.

(** ** Constants *)

(** The code of a constant. *)
Fixpoint constCode (fuel : nat) (dst v : Z) : list instr :=
  match fuel with
  | O => []
  | S fuel =>
      if (-2048 <=? v) && (v <=? 2047) then [IOp ADDI dst 0 v]
      else
        let low := rv.lowPart v in
        if (- 2 ^ 31 <=? v) && (v <=? 2 ^ 31 - 1) then
          LUI dst (Z.land (to_u32 (Z.shiftr (to_i64 (v + 2048)) 12)) 0xfffff) :: (if negb (low =? 0) then [IOp ADDIW dst dst low] else [])
        else
          constCode fuel dst (if low <? 0 then Z.shiftr v 12 + 1 else Z.shiftr v 12) ++ Shift SLLI dst dst 12 :: (if negb (low =? 0) then [IOp ADDI dst dst low] else [])
  end.

(** The value split at its low twelve bits. *)
Lemma lowPart_spec v : rv.lowPart v = wasm.signed 12 (v mod 2 ^ 12).
Proof.
  unfold rv.lowPart, rv.shl. rewrite to_i32_signed. unfold to_u32. rewrite Z.mod_mod by lia. rewrite !Z.shiftl_mul_pow2, Z.shiftr_div_pow2 by lia.
  assert ((v mod 2 ^ 32 * 2 ^ 20) mod 2 ^ 32 = (v mod 2 ^ 12) * 2 ^ 20) as ->.
  { change (2 ^ 32) with (2 ^ 12 * 2 ^ 20) at 2. rewrite Z.mul_mod_distr_r by lia. by rewrite mod_pow_idem by lia. }
  pose proof (Z.mod_pos_bound v (2 ^ 12) ltac:(lia)). set (m := v mod 2 ^ 12) in *. unfold wasm.signed.
  destruct (Z.ltb_spec (m * 2 ^ 20) (2 ^ (32 - 1))), (Z.ltb_spec m (2 ^ (12 - 1))); try (exfalso; lia); [by rewrite Z.div_mul by lia|].
  replace (m * 2 ^ 20 - 2 ^ 32) with ((m - 2 ^ 12) * 2 ^ 20) by lia. by rewrite Z.div_mul by lia.
Qed.

Lemma split12 v : let low := rv.lowPart v in let up := if low <? 0 then Z.shiftr v 12 + 1 else Z.shiftr v 12 in
  v = 2 ^ 12 * up + low /\ -2048 <= low <= 2047.
Proof.
  cbn zeta. rewrite lowPart_spec, Z.shiftr_div_pow2 by lia. pose proof (Z.mod_pos_bound v (2 ^ 12) ltac:(lia)). pose proof (Z.div_mod v (2 ^ 12) ltac:(lia)).
  unfold wasm.signed. change (2 ^ (12 - 1)) with 2048. destruct (Z.ltb_spec (v mod 2 ^ 12) 2048); [destruct (Z.ltb_spec (v mod 2 ^ 12) 0)|destruct (Z.ltb_spec (v mod 2 ^ 12 - 2 ^ 12) 0)]; lia.
Qed.

Definition fits (fuel : nat) (v : Z) : Prop := - 2 ^ (15 + 12 * Z.of_nat fuel) <= v <= 2 ^ (15 + 12 * Z.of_nat fuel).

Lemma fits_up fuel v : let low := rv.lowPart v in fits (S fuel) v -> fits fuel (if low <? 0 then Z.shiftr v 12 + 1 else Z.shiftr v 12).
Proof.
  cbn zeta. unfold fits. intros Hv. destruct (split12 v) as [E Hl]. cbn zeta in E. set (up := if rv.lowPart v <? 0 then _ else _) in *.
  replace (15 + 12 * Z.of_nat (S fuel)) with (12 + (15 + 12 * Z.of_nat fuel)) in Hv by lia. rewrite Z.pow_add_r in Hv by lia.
  assert (0 < 2 ^ (15 + 12 * Z.of_nat fuel)) by (apply Z.pow_pos_nonneg; lia). lia.
Qed.

(** A constant of one call has 32 bits. *)
Lemma fits_last v : fits 1 v -> (- 2 ^ 31 <=? v) && (v <=? 2 ^ 31 - 1) = true.
Proof. unfold fits. cbn. intros. zbool. Qed.

Section Constant.
Context (dst : Z) (Hdst : 0 < dst < 32).

Ltac reg_typed := unfold bytes8; repeat constructor; lia.

Lemma constant_written b0 fuel v l a : alignedTo4 b0 -> fits fuel v -> fuel <> O -> written b0 l a ->
  written b0 (l ++ constCode fuel dst v) (rv.constantFrom fuel dst v a).
Proof using Hdst.
  intros H0. revert v l a. induction fuel as [|fuel IH]; intros v l a Hv Hf Hw; [done|]. clear Hf. cbn [rv.constantFrom constCode].
  unfold rv.registers. rewrite (proj1 Hw). cbn [existsb]. assert ((rv.X31 <? dst) = false) as -> by (apply Z.ltb_ge; unfold rv.X31; lia). cbn [orb negb].
  assert (forall i l a, match i with IOp _ d s imm => d = dst /\ (s = dst \/ s = 0) /\ imm12 imm = true | Shift _ d s n => d = dst /\ s = dst /\ n = 12
    | LUI d v => d = dst /\ 0 <= v <= 0xfffff | _ => False end -> written b0 l a -> written b0 (l ++ [i]) (emit i a)) as Hput.
  { intros i l' a' Hi. apply written_emit; [done| |].
    - destruct i; try done; cbn [go_typed]; [destruct Hi as (-> & [->| ->] & _)|destruct Hi as (-> & -> & ->)|destruct Hi as (-> & ?); split; [|lia]]; reg_typed.
    - destruct i; try done; cbn [operands_ok below32 forallb]; [destruct Hi as (-> & [->| ->] & ->)|destruct Hi as (-> & -> & ->)|destruct Hi as (-> & ?)];
        rewrite ?(proj2 (Z.ltb_lt dst 32)) by lia; try done; [by destruct o|]. cbn. apply Z.leb_le. lia. }
  destruct ((-2048 <=? v) && (v <=? 2047)) eqn:E12.
  { apply (Hput (IOp ADDI dst 0 v)); [|done]. split_and!; auto. }
  destruct (split12 v) as [Es Hl]. cbn zeta in Es. set (low := rv.lowPart v) in *.
  assert (imm12 low = true) as Hl12 by (unfold imm12; zbool).
  destruct ((- 2 ^ 31 <=? v) && (v <=? 2 ^ 31 - 1)) eqn:E32.
  - set (u := Z.land _ 0xfffff). assert (0 <= u <= 0xfffff) as Hu.
    { unfold u. change 0xfffff with (Z.ones 20). rewrite Z.land_ones by lia. pose proof (Z.mod_pos_bound (to_u32 (Z.shiftr (to_i64 (v + 2048)) 12)) (2 ^ 20) ltac:(lia)). change (Z.ones 20) with (2 ^ 20 - 1). lia. }
    assert (written b0 (l ++ [LUI dst u]) (rv.Lui dst u a)) as Hw1 by (by apply (Hput (LUI dst u))). destruct (low =? 0); cbn [negb]; [done|].
    replace (l ++ [LUI dst u; IOp ADDIW dst dst low]) with ((l ++ [LUI dst u]) ++ [IOp ADDIW dst dst low]) by (by rewrite <- app_assoc).
    apply (Hput (IOp ADDIW dst dst low)); [|done]. split_and!; auto.
  - destruct fuel as [|fuel]; [by rewrite fits_last in E32|]. pose proof (fits_up (S fuel) v Hv) as Hup. cbn zeta in Hup. fold low in Hup.
    set (up := if low <? 0 then _ else _) in *. pose proof (IH up l a Hup ltac:(done) Hw) as Hw1. set (cc := constCode (S fuel) dst up) in *. rewrite app_assoc.
    replace ((l ++ cc) ++ Shift SLLI dst dst 12 :: (if negb (low =? 0) then [IOp ADDI dst dst low] else []))
      with (((l ++ cc) ++ [Shift SLLI dst dst 12]) ++ (if negb (low =? 0) then [IOp ADDI dst dst low] else [])) by (by rewrite <- (app_assoc (l ++ cc))).
    pose proof (Hput (Shift SLLI dst dst 12) _ _ ltac:(by split_and!) Hw1) as Hw2. destruct (low =? 0); cbn [negb]; [by rewrite app_nil_r|].
    apply (Hput (IOp ADDI dst dst low)); [|done]. split_and!; auto.
Qed.

(** What a piece of code leaves in [dst]. *)
Definition loads (l : list instr) (v : Z) : Prop :=
  forall x, exists x', run l x = Some x' /\ rget x' dst = v mod 2 ^ 64 /\ forall r, r <> dst -> rget x' r = rget x r.

Lemma loads_more l v i v' : loads l v -> (forall x, rget x dst = v mod 2 ^ 64 -> exists v'', effect i x = Some (rput dst v'' x) /\ v'' = v' mod 2 ^ 64) -> loads (l ++ [i]) v'.
Proof using Hdst.
  intros Hl Hi x. destruct (Hl x) as (x1 & Hr & Hv & Hk). destruct (Hi x1 Hv) as (v'' & He & ->). exists (rput dst (v' mod 2 ^ 64) x1). split_and!.
  - rewrite run_app, Hr. cbn [mbind option_bind]. rewrite run_cons, He. done.
  - apply rget_put. lia.
  - intros r Hne. rewrite rget_put_ne by done. by apply Hk.
Qed.

Lemma loads_one i v : (forall x, exists v'', effect i x = Some (rput dst v'' x) /\ v'' = v mod 2 ^ 64) -> loads [i] v.
Proof using Hdst.
  intros Hi x. destruct (Hi x) as (v'' & He & ->). exists (rput dst (v mod 2 ^ 64) x). split_and!; [by rewrite run_cons, He|apply rget_put; lia|].
  intros r Hne. by rewrite rget_put_ne.
Qed.

Lemma constant_loads fuel v : fits fuel v -> fuel <> O -> loads (constCode fuel dst v) v /\ (length (constCode fuel dst v) <= 2 * fuel)%nat.
Proof using Hdst.
  revert v. induction fuel as [|fuel IH]; intros v Hv Hf; [done|]. clear Hf. cbn [constCode]. destruct ((-2048 <=? v) && (v <=? 2047)) eqn:E12.
  { split; [|cbn; lia]. apply loads_one. intros x. eexists. split; [done|]. done. }
  destruct (split12 v) as [Es Hl]. cbn zeta in Es. set (low := rv.lowPart v) in *. set (up := if low <? 0 then _ else _) in *.
  destruct ((- 2 ^ 31 <=? v) && (v <=? 2 ^ 31 - 1)) eqn:E32.
  - apply andb_true_iff in E32 as [H1%Z.leb_le H2%Z.leb_le]. set (u := Z.land _ 0xfffff).
    assert (u = up mod 2 ^ 20) as Hu.
    { unfold u. change 0xfffff with (Z.ones 20). rewrite Z.land_ones, to_i64_id, Z.shiftr_div_pow2 by lia. unfold to_u32. rewrite mod_pow_idem by lia. f_equal.
      symmetry. apply Z.div_unique_pos with (low + 2048); lia. }
    assert (upper u = wasm.signed 32 ((2 ^ 12 * up) mod 2 ^ 32)) as Hup.
    { unfold upper. f_equal. rewrite Hu. change (2 ^ 32) with (2 ^ 12 * 2 ^ 20). rewrite Z.mul_mod_distr_l by lia. lia. }
    assert (forall t, (wasm.signed 32 ((2 ^ 12 * up) mod 2 ^ 32) mod 2 ^ 64 + t) mod 2 ^ 32 = (2 ^ 12 * up + t) mod 2 ^ 32) as Hsum.
    { intros t. rewrite <- Z.add_mod_idemp_l, mod_pow_idem, signed_mod, Z.mod_mod, Z.add_mod_idemp_l by lia. done. }
    destruct (Z.eqb_spec low 0) as [Hz|Hz]; cbn [negb].
    + split; [|cbn; lia]. apply loads_one. intros x. eexists. split; [done|]. unfold u64. rewrite Hup. replace (2 ^ 12 * up) with v by lia.
      by rewrite signed_id by lia.
    + split; [|cbn; lia]. apply (loads_more [_] (upper u)); [apply loads_one; intros x; by eexists|]. intros x Hx. eexists. split; [done|]. cbn [aluI].
      unfold sx32. rewrite Hx, Hup, Hsum, <- Es. by rewrite signed_id by lia.
  - destruct fuel as [|fuel]; [by rewrite fits_last in E32|]. pose proof (fits_up (S fuel) v Hv) as Hup. cbn zeta in Hup. fold low in Hup. fold up in Hup.
    destruct (IH up Hup ltac:(done)) as [HL Hn]. set (cc := constCode (S fuel) dst up) in *.
    assert (loads (cc ++ [Shift SLLI dst dst 12]) (2 ^ 12 * up)) as HL1.
    { apply (loads_more cc up); [done|]. intros x Hx. eexists. split; [done|]. cbn [aluS]. unfold u64. rewrite Hx, Z.mul_mod_idemp_l by lia. f_equal. lia. }
    destruct (Z.eqb_spec low 0) as [Hz|Hz]; cbn [negb]; (split; [|rewrite length_app; cbn [length]; lia]).
    + by replace v with (2 ^ 12 * up) by lia.
    + replace (cc ++ [Shift SLLI dst dst 12; IOp ADDI dst dst low]) with ((cc ++ [Shift SLLI dst dst 12]) ++ [IOp ADDI dst dst low]) by (by rewrite <- app_assoc).
      apply (loads_more _ (2 ^ 12 * up)); [done|]. intros x Hx. eexists. split; [done|]. cbn [aluI]. unfold u64. rewrite Hx, Z.add_mod_idemp_l by lia. by rewrite <- Es.
Qed.
End Constant.

(** [image] holds the words of [b] between two offsets. *)
Definition carries (image b : list Z) (from to : Z) : Prop := forall o, from <= o < to -> o mod 4 = 0 -> fetch image o = fetch b o.

Lemma carries_code image b from to l : from mod 4 = 0 -> carries image b from to -> from + 4 * Z.of_nat (length l) <= to -> code_at b from l -> code_at image from l.
Proof.
  intros H4 Hc Hl Hb k i Hk. pose proof (lookup_lt_Some l k i Hk). rewrite Hc; [by apply Hb|lia|]. rewrite <- Z.add_mod_idemp_l, H4 by lia. rewrite Z.mul_comm. by apply Z.mod_mul.
Qed.

Lemma zeroExtend_written b0 l a d s : alignedTo4 b0 -> 0 <= d < 32 -> 0 <= s < 32 -> written b0 l a ->
  written b0 (l ++ [Shift SLLI d s 32; Shift SRLI d d 32]) (rv.ZeroExtend32 d s a).
Proof.
  intros H0 Hd Hs Hw. unfold rv.ZeroExtend32, rv.registers. rewrite (proj1 Hw). cbn [existsb]. unfold rv.X31.
  rewrite (proj2 (Z.ltb_ge 31 d)), (proj2 (Z.ltb_ge 31 s)) by lia. cbn [orb].
  assert (forall d s l a o, 0 <= d < 32 -> 0 <= s < 32 -> o = SLLI \/ o = SRLI -> written b0 l a -> written b0 (l ++ [Shift o d s 32]) (emit (Shift o d s 32) a)) as Hput.
  { intros d' s' l' a' o Hd' Hs' Ho. apply written_emit; [done|cbn; unfold bytes8; repeat constructor; lia|]. cbn [operands_ok below32 forallb].
    rewrite !(proj2 (Z.ltb_lt _ 32)) by lia. by destruct Ho as [->| ->]. }
  replace (l ++ [Shift SLLI d s 32; Shift SRLI d d 32]) with ((l ++ [Shift SLLI d s 32]) ++ [Shift SRLI d d 32]) by (by rewrite <- app_assoc).
  apply (Hput d d _ _ SRLI); auto. apply (Hput d s _ _ SLLI); auto.
Qed.

(** The two shifts keep the low word. *)
Lemma low_word v : u64 (v * 2 ^ 32) / 2 ^ 32 = v mod 2 ^ 32.
Proof. unfold u64. change (2 ^ 64) with (2 ^ 32 * 2 ^ 32). rewrite Z.mul_mod_distr_r by lia. by apply Z.div_mul. Qed.

Lemma zeroExtend_loads dst v l : 0 < dst < 32 -> loads dst l v -> loads dst (l ++ [Shift SLLI dst dst 32; Shift SRLI dst dst 32]) (v mod 2 ^ 32).
Proof.
  intros Hd Hl. replace (l ++ [Shift SLLI dst dst 32; Shift SRLI dst dst 32]) with ((l ++ [Shift SLLI dst dst 32]) ++ [Shift SRLI dst dst 32]) by (by rewrite <- app_assoc).
  apply (loads_more dst Hd _ (v * 2 ^ 32)).
  - apply (loads_more dst Hd _ v); [done|]. intros x Hx. eexists. split; [done|]. cbn [aluS]. unfold u64. by rewrite Hx, Z.mul_mod_idemp_l by lia.
  - intros x Hx. eexists. split; [done|]. cbn [aluS]. rewrite Hx. fold (u64 (v * 2 ^ 32)). rewrite low_word. symmetry. apply Z.mod_small. pose proof (Z.mod_pos_bound v (2 ^ 32)). lia.
Qed.

Lemma const32_short dst v : - 2 ^ 31 <= v < 2 ^ 31 -> (length (constCode 4 dst v) <= 2)%nat.
Proof.
  intros Hv. cbn [constCode]. destruct (_ && _); [cbn; lia|]. assert ((- 2 ^ 31 <=? v) && (v <=? 2 ^ 31 - 1) = true) as -> by zbool.
  destruct (negb _); cbn; lia.
Qed.

(** What a method that loads a constant does: it appends at most [n] instructions to the
    code, and running them leaves [v] in [dst] and the other registers as they were. *)
Definition loads_constant (f : Asm -> Asm) (dst v n : Z) : Prop :=
  forall a, err a = None -> alignedTo4 (B a) ->
    err (f a) = None /\ B a `prefix_of` B (f a) /\ rv.Len (f a) <= rv.Len a + 4 * n /\
    forall image x, carries image (B (f a)) (rv.Len a) (rv.Len (f a)) -> rv.Len (f a) < 2 ^ 63 ->
      exists x', steps image {| pc := rv.Len a; xs := x |} {| pc := rv.Len (f a); xs := x' |} /\ rget x' dst = v /\ forall r, r <> dst -> rget x' r = rget x r.

Lemma loads_constant_code f dst v l n : (forall a, err a = None -> alignedTo4 (B a) -> written (B a) l (f a)) -> loads dst l v -> Z.of_nat (length l) <= n -> 0 <= v < 2 ^ 64 ->
  loads_constant f dst v n.
Proof.
  intros Hw Hl Hn Hv a He Ha. specialize (Hw a He Ha). pose proof (written_length (B a) l (f a) Hw) as HL. fold (rv.Len a) in HL. split_and!; [apply Hw| |lia|].
  - destruct Hw as (_ & ws & -> & _). by exists (concat (rv.le <$> ws)).
  - intros image x Hc Hs. destruct (Hl x) as (x' & Hr & Hg & Hk). exists x'. split_and!; [|by rewrite Hg; apply Z.mod_small|done]. rewrite HL in *. apply run_steps; [|done|unfold rv.Len; lia|done].
    eapply carries_code; [exact Ha|done|done|]. by apply written_code.
Qed.

(** C22: Constants are materialized exactly.  For every [int64] value [Constant64] appends
    at most eight instructions, and executing them as the architecture decodes them
    leaves the value in the destination and every other register as it was; for every
    [uint32] value [Constant32] does so with the zero-extended value in at most four.  The
    bytes written before are kept, and no call of the recursion is missing. *)
Theorem constants_load dst : 0 < dst < 32 ->
  (forall v, - 2 ^ 63 <= v < 2 ^ 63 -> loads_constant (rv.Constant64 dst v) dst (v mod 2 ^ 64) 8) /\
  (forall v, 0 <= v < 2 ^ 32 -> loads_constant (rv.Constant32 dst v) dst v 4).
Proof.
  intros Hd. assert (forall v, - 2 ^ 63 <= v < 2 ^ 63 -> fits 4 v) as Hfit by (intros v Hv; unfold fits; change (15 + 12 * Z.of_nat 4) with 63; lia). split; intros v Hv.
  - destruct (constant_loads dst Hd 4 v (Hfit v Hv) ltac:(done)) as [HL Hn]. apply (loads_constant_code _ _ _ (constCode 4 dst v)); [| |lia|apply Z.mod_pos_bound; lia].
    + intros a He Ha. apply (constant_written dst Hd (B a) 4 v [] a); auto using written_start.
    + intros x. destruct (HL x) as (x' & ? & Hg & ?). exists x'. by rewrite Z.mod_mod by lia.
  - pose proof (to_i32_range v). assert (to_i32 v mod 2 ^ 32 = v) as Hm by (rewrite to_i32_mod by lia; by apply Z.mod_small).
    destruct (constant_loads dst Hd 4 (to_i32 v) (Hfit (to_i32 v) ltac:(lia)) ltac:(done)) as [HL _]. pose proof (const32_short dst (to_i32 v) ltac:(lia)) as Hn.
    unfold rv.Constant32. destruct (Z.eqb_spec (Z.shiftr v 31) 0) as [Hs|Hs]; cbn [negb].
    + rewrite Z.shiftr_div_pow2 in Hs by lia. assert (v < 2 ^ 31) by euclid. assert (to_i32 v = v) as Hi by (unfold to_i32; rewrite Z.mod_small; lia). rewrite Hi in *.
      apply (loads_constant_code _ _ _ (constCode 4 dst v)); [|done|lia|lia]. intros a He Ha. apply (constant_written dst Hd (B a) 4 v [] a); auto using written_start. apply Hfit. lia.
    + apply (loads_constant_code _ _ _ (constCode 4 dst (to_i32 v) ++ [Shift SLLI dst dst 32; Shift SRLI dst dst 32])); [| |rewrite length_app; cbn [length]; lia|lia].
      * intros a He Ha. apply (zeroExtend_written (B a)); [done|lia|lia|]. apply (constant_written dst Hd (B a) 4 _ [] a); auto using written_start. apply Hfit. lia.
      * rewrite <- Hm at 2. by apply zeroExtend_loads.
Qed.

Lemma constants_load_witness : 0 < 7 < 32 /\ loads_constant (rv.Constant64 7 (- 2 ^ 63 + 1)) 7 (2 ^ 63 + 1) 8 /\ loads_constant (rv.Constant32 7 (2 ^ 32 - 1)) 7 (2 ^ 32 - 1) 4.
Proof.
  split; [lia|]. destruct (constants_load 7 ltac:(lia)) as [H64 H32]. split; [|apply H32; lia].
  change (2 ^ 63 + 1) with ((- 2 ^ 63 + 1) mod 2 ^ 64). apply H64. lia.
Defined.

(** ** Long transfers *)

(** The words of a patched envelope. *)
Lemma auipc_word v : 0 <= v < 2 ^ 20 -> word_is (0xf97 + 2 ^ 12 * v) (AUIPC 31 v).
Proof.
  intros Hv. destruct (u_word 0x17 31 v) as (f3 & rs1 & rs2 & f7 & Hf & HU & HP); [lia..|]. split; [lia|]. replace (0xf97 + 2 ^ 12 * v) with (pack 0x17 31 f3 rs1 rs2 f7) by lia.
  rewrite decode_pack by done. cbn [decodeFields]. by rewrite HU.
Qed.

Lemma jalr_word link imm : link = 0 \/ link = 1 -> -2048 <= imm <= 2047 -> word_is (0x67 + 2 ^ 7 * link + 2 ^ 15 * 31 + 2 ^ 20 * (imm mod 2 ^ 12)) (JALR link 31 imm).
Proof.
  intros Hl Hi. pose proof (Z.mod_pos_bound imm (2 ^ 12) ltac:(lia)). set (v := imm mod 2 ^ 12) in *. split; [lia|].
  assert (0x67 + 2 ^ 7 * link + 2 ^ 15 * 31 + 2 ^ 20 * v = pack 0x67 link 0 31 (v mod 2 ^ 5) (v / 2 ^ 5)) as -> by (unfold pack; euclid).
  rewrite decode_pack by (unfold fields_ok; euclid). cbn [decodeFields]. unfold v. by rewrite imm_back.
Qed.

(** The high and the low part of a displacement. *)
Lemma parts delta : - 2 ^ 31 - 2048 <= delta <= 2 ^ 31 - 2049 -> let high := Z.shiftr (delta + 2048) 12 in
  let low := delta - Z.shiftl high 12 in -2048 <= low <= 2047 /\ upper (high mod 2 ^ 20) + low = delta.
Proof.
  intros Hd. cbn zeta. rewrite Z.shiftl_mul_pow2, Z.shiftr_div_pow2 by lia. set (h := (delta + 2048) / 2 ^ 12).
  assert (0 <= delta + 2048 - 2 ^ 12 * h < 2 ^ 12) as Hm by (unfold h; euclid). assert (- 2 ^ 19 <= h < 2 ^ 19) by lia. split; [lia|].
  unfold upper. assert (h mod 2 ^ 20 * 2 ^ 12 = (h * 2 ^ 12) mod 2 ^ 32) as -> by (change (2 ^ 32) with (2 ^ 20 * 2 ^ 12); by rewrite Z.mul_mod_distr_r by lia).
  rewrite signed_id by lia. lia.
Qed.

(** Running an envelope. *)
Lemma envelope_steps image s t link low hi x : fetch image s = Some (AUIPC 31 hi) -> fetch image (s + 4) = Some (JALR link 31 low) ->
  0 <= s < 2 ^ 63 -> 0 <= t < 2 ^ 63 -> t mod 4 = 0 -> upper hi + low = t - s ->
  steps image {| pc := s; xs := x |} {| pc := t; xs := rput link (s + 8) (rput 31 (u64 (s + upper hi)) x) |}.
Proof.
  intros H1 H2 Hs Ht H4 HE. eapply rtc_l.
  { unfold step. cbn [pc]. rewrite H1. reflexivity. }
  cbn [pc xs]. assert (u64 (s + 4) = s + 4) as -> by (apply Z.mod_small; lia). apply rtc_once. unfold step. cbn [pc]. rewrite H2. cbn [mbind option_bind exec pc xs].
  rewrite rget_put by done. f_equal. f_equal.
  - unfold u64. rewrite Z.add_mod_idemp_l by lia. replace (s + upper hi + low) with t by lia. rewrite Z.mod_small by lia. euclid.
  - f_equal. unfold u64. rewrite Z.mod_small by lia. lia.
Qed.

Lemma word_ok w a : err a = None -> alignedTo4 (B a) -> rv.word w a = {| B := B a ++ rv.le w; err := None |}.
Proof. intros He Ha. unfold rv.word. apply aligned_spec in Ha. unfold aligned in Ha. rewrite Ha. cbn [negb]. by rewrite He. Qed.

Lemma aligned_word b w : alignedTo4 b -> alignedTo4 (b ++ rv.le w).
Proof. unfold alignedTo4. intros Hb. rewrite length_app, Nat2Z.inj_add. change (Z.of_nat (length (rv.le w))) with (1 * 4). by rewrite Z.mod_add by lia. Qed.

Definition linkOf (call : bool) : Z := if call then 1 else 0.

Lemma JumpLong_ok call a : err a = None -> alignedTo4 (B a) ->
  rv.JumpLong call a = (rv.Len a, {| B := B a ++ rv.le 0xf97 ++ rv.le (0x67 + 2 ^ 7 * linkOf call + 2 ^ 15 * 31); err := None |}).
Proof.
  intros He Ha. unfold rv.JumpLong, rv.Auipc, rv.u, rv.registers. rewrite He. cbn [existsb]. cbn -[rv.word rv.Jalr rv.Len]. rewrite (word_ok _ a) by done.
  unfold rv.Jalr, rv.i, rv.registers. cbn [err]. destruct call; cbn -[rv.word rv.Len rv.le]; (rewrite word_ok; [|done|by apply aligned_word]); cbn [err B]; by rewrite <- app_assoc.
Qed.

Lemma Uint32_middle pre w post s : 0 <= w < 2 ^ 32 -> s = Z.of_nat (length pre) -> rv.Uint32 (pre ++ rv.le w ++ post) s = Some w.
Proof. intros Hw ->. rewrite <- (Z.add_0_r (Z.of_nat _)), Uint32_app by lia. by apply Uint32_le. Qed.

Lemma PutUint32_middle pre w w' post s : s = Z.of_nat (length pre) -> rv.PutUint32 (pre ++ rv.le w ++ post) s w' = pre ++ rv.le w' ++ post.
Proof.
  intros ->. unfold rv.PutUint32. rewrite Nat2Z.id, take_app_length. do 2 f_equal. rewrite <- drop_drop, drop_app_length. by rewrite (drop_app_length' (rv.le w)).
Qed.

Definition jalrWord (link low : Z) : Z := 0x67 + 2 ^ 7 * link + 2 ^ 15 * 31 + 2 ^ 20 * (low mod 2 ^ 12).

(** A patch of an envelope rewrites its two words and nothing else. *)
Lemma PatchLong_ok pre post call h l s t : alignedTo4 pre -> s = Z.of_nat (length pre) -> 0 <= h < 2 ^ 20 ->
  t mod 4 = 0 -> - 2 ^ 31 - 2048 <= t - s <= 2 ^ 31 - 2049 -> s < 2 ^ 62 ->
  let high := Z.shiftr (t - s + 2048) 12 in
  rv.PatchLong s t {| B := pre ++ rv.le (0xf97 + 2 ^ 12 * h) ++ rv.le (jalrWord (linkOf call) l) ++ post; err := None |} =
    (Ok tt, {| B := pre ++ rv.le (0xf97 + 2 ^ 12 * (high mod 2 ^ 20)) ++ rv.le (jalrWord (linkOf call) (t - s - Z.shiftl high 12)) ++ post; err := None |}).
Proof.
  intros H4 Hs Hh Ht Hd Hb. cbn zeta. set (high := Z.shiftr (t - s + 2048) 12). set (low := t - s - Z.shiftl high 12). unfold rv.PatchLong. cbn [err B].
  assert (linkOf call = 0 \/ linkOf call = 1) as Hl by (destruct call; auto).
  assert (forall v, 0 <= v mod 2 ^ 12 < 2 ^ 12) as H12 by (intros; apply Z.mod_pos_bound; lia).
  assert (Z.land s 3 = 0) as -> by (rewrite land_3, Hs; exact H4). assert (Z.land t 3 = 0) as -> by (by rewrite land_3).
  set (hw := 0xf97 + 2 ^ 12 * h). set (lw := jalrWord (linkOf call) l). assert (0 <= hw < 2 ^ 32) as Rhw by (unfold hw; lia).
  assert (0 <= lw < 2 ^ 32) as Rlw by (unfold lw, jalrWord; pose proof (H12 l); lia).
  rewrite (proj2 (Z.ltb_ge s 0)), (proj2 (Z.ltb_ge (_ - 8) s)) by (unfold rv.Len; cbn [B]; rewrite ?length_app; cbn [length rv.le]; lia). cbn [negb orb].
  rewrite (Uint32_middle pre hw) by done. rewrite app_assoc, (Uint32_middle (pre ++ rv.le hw) lw) by (done || rewrite length_app; cbn [length rv.le]; lia). rewrite <- app_assoc.
  assert (Z.land hw 0xfff = 0xf97) as Hhi by (change 0xfff with (Z.ones 12); rewrite Z.land_ones by lia; unfold hw; euclid).
  assert (Z.land lw 0xfffff = 0x67 + 2 ^ 7 * linkOf call + 2 ^ 15 * 31) as Hlo.
  { change 0xfffff with (Z.ones 20). rewrite Z.land_ones by lia. unfold lw, jalrWord. rewrite (Z.mul_comm (2 ^ 20)), Z.mod_add by lia. apply Z.mod_small. lia. }
  assert (rv.envelope hw lw = true) as -> by (unfold rv.envelope; rewrite Hhi, Hlo; by destruct call).
  rewrite (proj2 (Z.ltb_ge t (- 2 ^ 63 + s))), (proj2 (Z.ltb_ge (t - s) (- 2 ^ 31 - 2048))), (proj2 (Z.ltb_ge (2 ^ 31 - 2048 - 1) (t - s))) by lia. cbn [negb orb].
  rewrite Hhi, Hlo, (PutUint32_middle pre) by done. fold high low. do 2 f_equal.
  rewrite app_assoc, (PutUint32_middle (pre ++ _)) by (rewrite length_app; cbn [length rv.le]; lia). rewrite <- app_assoc. unfold jalrWord.
  assert (forall v n m, 0 <= n <= 32 -> m = 2 ^ n - 1 -> Z.land (to_u32 v) m = v mod 2 ^ n) as Hland.
  { intros v n m Hn ->. replace (2 ^ n - 1) with (Z.ones n) by (rewrite Z.ones_equiv; lia). rewrite Z.land_ones by lia. by apply mod_pow_idem. }
  rewrite (Hland high 20), (Hland low 12) by (done || lia). pose proof (Z.mod_pos_bound high (2 ^ 20) ltac:(lia)). pose proof (H12 low).
  by rewrite !or_shl by lia.
Qed.

(** Words beside a rewritten one are read as before. *)
Lemma fetch_beside pre w w' post o : alignedTo4 pre -> o <> Z.of_nat (length pre) -> fetch (pre ++ rv.le w ++ post) o = fetch (pre ++ rv.le w' ++ post) o.
Proof.
  intros H4 Ho. unfold fetch. destruct (Z.ltb_spec o 0) as [|Hp]; [done|]. destruct (Z.eqb_spec (o mod 4) 0) as [H0|]; [|done]. cbn [negb orb]. f_equal. unfold rv.Uint32.
  unfold alignedTo4 in H4. destruct (Z.lt_ge_cases o (Z.of_nat (length pre))) as [Hlt|Hge].
  - assert (o + 4 <= Z.of_nat (length pre)) by euclid. rewrite !drop_app_le by lia. by rewrite !take_app_le by (rewrite length_drop; lia).
  - assert (exists k, o = Z.of_nat (length pre) + (4 + Z.of_nat k)) as [k ->] by (exists (Z.to_nat (o - Z.of_nat (length pre) - 4)); euclid).
    replace (Z.to_nat (Z.of_nat (length pre) + (4 + Z.of_nat k))) with (length pre + (4 + k))%nat by lia. by rewrite !drop_app_add.
Qed.

Lemma cond_cases c o : decodeCond c = Some o -> (c = 0 \/ c = 1 \/ c = 4 \/ c = 5 \/ c = 6 \/ c = 7) /\ rv.valid c = true /\
  exists o', decodeCond (Z.lxor c 1) = Some o' /\ forall x y, taken o' x y = negb (taken o x y).
Proof.
  intros Hc. assert (c = 0 \/ c = 1 \/ c = 4 \/ c = 5 \/ c = 6 \/ c = 7) as Hcs by (unfold decodeCond in Hc; repeat (case_match; try discriminate Hc); tauto).
  split; [done|]. destruct Hcs as [->|[->|[->|[->|[->| ->]]]]]; injection Hc as <-; (split; [done|]); eexists; (split; [reflexivity|]); intros x y; cbn [taken];
    rewrite ?negb_involutive; try done; by rewrite Z.leb_antisym, ?negb_involutive.
Qed.

Lemma BranchLong_ok c o l r a : decodeCond c = Some o -> 0 <= l < 32 -> 0 <= r < 32 -> err a = None -> alignedTo4 (B a) -> exists w o',
  word_is w (BranchOp o' l r 12) /\ (forall x y, taken o' x y = negb (taken o x y)) /\
  rv.BranchLong c l r a = (rv.Len a + 4, {| B := (B a ++ rv.le w) ++ rv.le (0xf97 + 2 ^ 12 * 0) ++ rv.le (jalrWord (linkOf false) 0); err := None |}).
Proof.
  intros Hc Hl Hr He Ha. destruct (cond_cases c o Hc) as (Hcs & Hv & o' & Ho' & Hneg). unfold rv.BranchLong, rv.registers. rewrite He. cbn [existsb]. unfold rv.X31.
  rewrite (proj2 (Z.ltb_ge 31 l)), (proj2 (Z.ltb_ge 31 r)), Hv by lia. cbn [orb negb].
  assert (rv.Branch (Z.lxor c 1) l r 12 a = emit (BranchOp o' l r 12) a) as ->.
  { cbn [emit]. f_equal. destruct Hcs as [->|[->|[->|[->|[->| ->]]]]]; injection Ho' as <-; done. }
  pose proof (emit_encodes (BranchOp o' l r 12) a) as Hen. unfold encodes in Hen. rewrite He in Hen.
  assert (operands_ok (BranchOp o' l r 12) = true) as Hok by (cbn [operands_ok below32 forallb]; rewrite !(proj2 (Z.ltb_lt _ 32)) by lia; done).
  rewrite Hok, (proj2 (aligned_spec a) Ha) in Hen. destruct Hen as (w & -> & Hw & Hd); [cbn; unfold bytes8; repeat constructor; lia|].
  exists w, o'. split; [done|]. split; [done|]. rewrite JumpLong_ok by (done || by apply aligned_word). unfold rv.Len. cbn [B]. rewrite length_app. cbn [length rv.le]. f_equal. lia.
Qed.

Lemma fetch_middle pre w i post : alignedTo4 pre -> word_is w i -> fetch (pre ++ rv.le w ++ post) (Z.of_nat (length pre)) = Some i.
Proof.
  intros H4 [Hw Hd]. unfold fetch. rewrite (proj2 (Z.ltb_ge _ 0)), H4 by lia. cbn [negb orb Z.eqb]. by rewrite Uint32_middle.
Qed.

(** A short branch around an envelope. *)
Lemma branch_steps image p t o o' l r hi low x : fetch image p = Some (BranchOp o' l r 12) -> fetch image (p + 4) = Some (AUIPC 31 hi) -> fetch image (p + 8) = Some (JALR 0 31 low) ->
  (forall x y, taken o' x y = negb (taken o x y)) -> 0 <= p < 2 ^ 62 -> 0 <= t < 2 ^ 63 -> t mod 4 = 0 -> upper hi + low = t - (p + 4) -> exists x',
  steps image {| pc := p; xs := x |} {| pc := if taken o (rget x l) (rget x r) then t else p + 12; xs := x' |} /\ forall q, q <> rv.Scratch1 -> rget x' q = rget x q.
Proof.
  intros F0 F1 F2 Hneg Hp Ht H4 HE.
  assert (forall b : bool, b = taken o (rget x l) (rget x r) -> step image {| pc := p; xs := x |} = Some {| pc := if b then p + 4 else p + 12; xs := x |}) as Hbr.
  { intros b Hb. unfold step. cbn [pc]. rewrite F0. cbn [mbind option_bind exec pc xs]. rewrite Hneg, <- Hb. destruct b; cbn [negb]; do 2 f_equal; apply Z.mod_small; lia. }
  destruct (taken o (rget x l) (rget x r)) eqn:Et.
  - eexists. split; [eapply rtc_l; [by apply (Hbr true)|]; cbn iota; eapply (envelope_steps image (p + 4) t 0 low hi); [done| |lia|lia|done|done]|].
    + by replace (p + 4 + 4) with (p + 8) by lia.
    + intros q Hq. change (rget (rput 31 (u64 (p + 4 + upper hi)) x) q = rget x q). by apply rget_put_ne.
  - exists x. split; [|done]. apply rtc_once. by apply (Hbr false).
Qed.

(** A target out of reach. *)
Lemma PatchLong_far pre post s t : alignedTo4 pre -> s = Z.of_nat (length pre) -> t mod 4 = 0 -> - 2 ^ 63 + s <= t ->
  (- 2 ^ 31 - 2048 <=? t - s) && (t - s <=? 2 ^ 31 - 2049) = false ->
  let a := {| B := pre ++ rv.le (0xf97 + 2 ^ 12 * 0) ++ rv.le (jalrWord (linkOf false) 0) ++ post; err := None |} in rv.PatchLong s t a = (Err DisplacementRange, a).
Proof.
  intros H4 Hs Ht Ho Er. cbn zeta. unfold rv.PatchLong. cbn [err B]. assert (Z.land s 3 = 0) as -> by (rewrite land_3, Hs; exact H4). assert (Z.land t 3 = 0) as -> by (by rewrite land_3).
  rewrite (proj2 (Z.ltb_ge s 0)), (proj2 (Z.ltb_ge (_ - 8) s)) by (unfold rv.Len; cbn [B]; rewrite ?length_app; cbn [length rv.le]; lia). cbn [negb orb].
  rewrite (Uint32_middle pre) by (done || lia). rewrite app_assoc, (Uint32_middle (pre ++ _)) by (done || rewrite length_app; cbn [length rv.le]; lia). rewrite <- app_assoc.
  change (rv.envelope (0xf97 + 2 ^ 12 * 0) (jalrWord (linkOf false) 0)) with true. cbn [negb]. rewrite (proj2 (Z.ltb_ge t (- 2 ^ 63 + s))) by lia.
  assert ((t - s <? - 2 ^ 31 - 2048) || (2 ^ 31 - 2048 - 1 <? t - s) = true) as ->; [|done].
  apply andb_false_iff in Er as [Er%Z.leb_gt|Er%Z.leb_gt]; zbool.
Qed.

Lemma branch_lands c o l r a a2 t : decodeCond c = Some o -> 0 <= l < 32 -> 0 <= r < 32 -> err a = None -> alignedTo4 (B a) ->
  let '(s, a1) := rv.BranchLong c l r a in
  s = rv.Len a + 4 /\ rv.Len a1 = rv.Len a + 12 /\ err a1 = None /\
  (err a2 = None -> B a1 `prefix_of` B a2 -> rv.Len a < 2 ^ 61 -> 0 <= t < 2 ^ 63 -> t mod 4 = 0 ->
   if (- 2 ^ 31 - 2048 <=? t - s) && (t - s <=? 2 ^ 31 - 2049) then
     exists a3, rv.PatchLong s t a2 = (Ok tt, a3) /\ err a3 = None /\ rv.Len a3 = rv.Len a2 /\
       (forall p, p <> s -> p <> s + 4 -> fetch (B a3) p = fetch (B a2) p) /\
       forall image x, carries image (B a3) (rv.Len a) (rv.Len a + 12) -> exists x',
         steps image {| pc := rv.Len a; xs := x |} {| pc := if taken o (rget x l) (rget x r) then t else rv.Len a + 12; xs := x' |} /\
         forall q, q <> rv.Scratch1 -> rget x' q = rget x q
   else exists e, rv.PatchLong s t a2 = (Err e, a2)).
Proof.
  intros Hc Hl Hr He Ha. destruct (BranchLong_ok c o l r a Hc Hl Hr He Ha) as (w & o' & Hw & Hneg & ->). split; [done|].
  split; [unfold rv.Len; cbn [B]; rewrite !length_app; cbn [length rv.le]; lia|]. split; [done|]. intros He2 [post HB] Hsm Ht Ht4. cbn [B] in HB.
  set (pre := B a ++ rv.le w) in *. assert (alignedTo4 pre) as Hpre by (by apply aligned_word).
  assert (rv.Len a + 4 = Z.of_nat (length pre)) as Hs by (unfold pre, rv.Len; rewrite length_app; cbn [length rv.le]; lia).
  set (s := rv.Len a + 4) in *. rewrite <- app_assoc, <- (app_assoc (rv.le (0xf97 + _))) in HB. destruct a2 as [b2 e2]. cbn [err B] in He2, HB. subst e2 b2.
  assert (0 <= rv.Len a) by (unfold rv.Len; lia). destruct ((- 2 ^ 31 - 2048 <=? t - s) && (t - s <=? 2 ^ 31 - 2049)) eqn:Er; [|exists DisplacementRange; apply PatchLong_far; done || lia].
  apply andb_true_iff in Er as [H1%Z.leb_le H2%Z.leb_le]. pose proof (PatchLong_ok pre post false 0 0 s t Hpre Hs ltac:(lia) Ht4 (conj H1 H2) ltac:(lia)) as HP.
  destruct (parts (t - s) (conj H1 H2)) as [Hlow Hsum]. cbn zeta in HP, Hlow, Hsum. set (high := Z.shiftr (t - s + 2048) 12) in *. set (low := t - s - Z.shiftl high 12) in *.
  set (hw := 0xf97 + 2 ^ 12 * (high mod 2 ^ 20)) in *. set (lw := jalrWord (linkOf false) low) in *. set (b3 := pre ++ rv.le hw ++ rv.le lw ++ post) in *.
  exists {| B := b3; err := None |}. split; [exact HP|]. split; [done|]. split; [unfold rv.Len; cbn [B]; unfold b3; by rewrite !length_app|]. split.
  - intros p Hp1 Hp2. cbn [B]. unfold b3. rewrite (fetch_beside pre _ (0xf97 + 2 ^ 12 * 0)) by (done || lia).
    rewrite (app_assoc pre _ (rv.le lw ++ post)), (app_assoc pre _ (rv.le (jalrWord _ 0) ++ post)).
    apply fetch_beside; [by apply aligned_word|]. rewrite length_app. cbn [length rv.le]. lia.
  - intros image x Hcar. cbn [B] in Hcar. assert (rv.Len a mod 4 = 0) as Ha4 by exact Ha.
    assert (fetch image (rv.Len a) = Some (BranchOp o' l r 12)) as F0.
    { rewrite Hcar by (done || lia). unfold b3, pre. rewrite <- app_assoc. by apply fetch_middle. }
    assert (fetch image s = Some (AUIPC 31 (high mod 2 ^ 20))) as F1.
    { rewrite Hcar by (unfold s in *; euclid). rewrite Hs. apply fetch_middle; [done|]. apply auipc_word. apply Z.mod_pos_bound. lia. }
    assert (fetch image (rv.Len a + 8) = Some (JALR 0 31 low)) as F2.
    { rewrite Hcar by euclid. unfold b3. rewrite app_assoc. replace (rv.Len a + 8) with (Z.of_nat (length (pre ++ rv.le hw))) by (rewrite length_app; cbn [length rv.le]; lia).
      apply fetch_middle; [by apply aligned_word|]. apply jalr_word; auto. }
    apply (branch_steps image (rv.Len a) t o o' l r (high mod 2 ^ 20) low); try done; lia.
Qed.

(** C23: Long conditional branches land.  The twelve bytes of [BranchLong] can be patched
    later, whatever was appended in between, to any aligned target within the reach of the
    pair of instructions: the patch succeeds, changes no other word, and running the
    branch then leads to the target when the condition holds of the two registers and
    past the branch when it does not, writing no register but the scratch register 31.
    A target out of reach is an error and nothing is written. *)
Theorem long_branch_lands c o l r a a2 t : decodeCond c = Some o -> 0 <= l < 32 -> 0 <= r < 32 -> err a = None -> alignedTo4 (B a) ->
  let '(s, a1) := rv.BranchLong c l r a in
  s = rv.Len a + 4 /\ rv.Len a1 = rv.Len a + 12 /\ err a1 = None /\
  (err a2 = None -> B a1 `prefix_of` B a2 -> rv.Len a < 2 ^ 61 -> 0 <= t < 2 ^ 63 -> t mod 4 = 0 ->
   if (- 2 ^ 31 - 2048 <=? t - s) && (t - s <=? 2 ^ 31 - 2049) then
     exists a3, rv.PatchLong s t a2 = (Ok tt, a3) /\ err a3 = None /\ rv.Len a3 = rv.Len a2 /\
       (forall p, p <> s -> p <> s + 4 -> fetch (B a3) p = fetch (B a2) p) /\
       forall image x, carries image (B a3) (rv.Len a) (rv.Len a + 12) -> exists x',
         steps image {| pc := rv.Len a; xs := x |} {| pc := if taken o (rget x l) (rget x r) then t else rv.Len a + 12; xs := x' |} /\
         forall q, q <> rv.Scratch1 -> rget x' q = rget x q
   else exists e, rv.PatchLong s t a2 = (Err e, a2)).
Proof. apply branch_lands. Qed.

Lemma long_branch_lands_witness : let a := {| B := []; err := None |} in
  rv.BranchLong rv.EQ 5 0 a = (4, {| B := rv.le 0x00029663 ++ rv.le 0x00000f97 ++ rv.le 0x000f8067; err := None |}) /\
  exists a3, rv.PatchLong 4 4096 {| B := rv.le 0x00029663 ++ rv.le 0x00000f97 ++ rv.le 0x000f8067 ++ rv.le 0x13; err := None |} = (Ok tt, a3) /\
    forall image x, carries image (B a3) 0 12 -> exists x',
      steps image {| pc := 0; xs := x |} {| pc := if rget x 5 =? 0 then 4096 else 12; xs := x' |} /\ forall q, q <> rv.Scratch1 -> rget x' q = rget x q.
Proof.
  cbv zeta. split; [vm_compute; reflexivity|]. pose proof (long_branch_lands rv.EQ BEQ 5 0 {| B := []; err := None |}
    {| B := rv.le 0x00029663 ++ rv.le 0x00000f97 ++ rv.le 0x000f8067 ++ rv.le 0x13; err := None |} 4096 eq_refl ltac:(lia) ltac:(lia) eq_refl eq_refl) as H.
  replace (rv.BranchLong rv.EQ 5 0 {| B := []; err := None |}) with (4, {| B := rv.le 0x00029663 ++ rv.le 0x00000f97 ++ rv.le 0x000f8067; err := None |}) in H by (vm_compute; reflexivity).
  cbv beta iota in H. destruct H as (_ & _ & _ & H). specialize (H eq_refl ltac:(by exists (rv.le 0x13)) ltac:(done) ltac:(lia) eq_refl).
  change ((- 2 ^ 31 - 2048 <=? 4096 - 4) && (4096 - 4 <=? 2 ^ 31 - 2049)) with true in H. cbv iota in H. destruct H as (a3 & HP & _ & _ & _ & HR). exists a3. split; [exact HP|exact HR].
Defined.
