(* ===== verification/RvLower.v ===== *)
(** * Lowering of integer operations to RV64 (backend/railshot/riscv64)

    [operation] emits the code of one WebAssembly integer operation on the operands in
    registers 5 and 6, result in register 5: the arithmetic, the checks that trap, and
    the loops of the bit counts, which the base instruction set has no instruction for
    (integer.go, scalar.go).  [integerOpcode] says which operation, width and arity an
    opcode has.  The emitter is the assembler, the first error and the trap sites. *)

From stdpp Require Import base tactics numbers list.
From Stdlib Require Import ZArith Lia.
From S2P Require Import Prelude IntFold RvAsm.
Local Open Scope Z_scope.
Local Open Scope list_scope.

Inductive lowerError : Set :=
| PatchFailed (e : patchError) | NonRegisterOperand | NonRegisterBranch | UnsupportedScalar (op : IntOp) | UnsupportedUnary (op : IntOp)
| UnsupportedComparison (op : IntOp).

Record integerTrap : Set := { site : Z; tcode : Z; tpc : Z }.

Record emitter : Set := { asm : Asm; ferr : option lowerError; traps : list integerTrap; sourcePC : Z }.

(** Where a scalar operand is. *)
Inductive ScalarLocation : Set := ScalarConstant | ScalarRegister | ScalarFrame | scalarBorrow | scalarDeferred.
Record ScalarOperand : Set := { Kind : ScalarLocation; Reg : Z; Offset : Z; Constant_ : Z }.

Definition TrapDivideByZero : Z := 3.
Definition TrapIntegerOverflow : Z := 4.

Module lower.

(** A method of the emitter; a panic is that of a slice out of range. *)
Definition L (A : Type) : Type := M emitter Empty_set A.

Definition on (f : Asm -> Asm) : L unit :=
  modify (fun e => {| asm := f (asm e); ferr := ferr e; traps := traps e; sourcePC := sourcePC e |}).

Definition site_of (f : Asm -> Z * Asm) : L Z := fun e =>
  let '(s, a) := f (asm e) in (Ok s, {| asm := a; ferr := ferr e; traps := traps e; sourcePC := sourcePC e |}).

Definition set_err (x : lowerError) : L unit :=
  modify (fun e => {| asm := asm e; ferr := Some x; traps := traps e; sourcePC := sourcePC e |}).

(** ** The target (scalar.go) *)

Definition Constant (r v : Z) (w : bool) : L unit :=
  if w then on (rv.Constant64 r v) else on (rv.Constant32 r (to_u32 v)).

Definition Move (d s : Z) (w : bool) : L unit :=
  if negb w then on (rv.ZeroExtend32 d s) else if negb (d =? s) then on (rv.Addi d s 0) else ret tt.

Definition NormalizeI32 (r : Z) : L unit := on (rv.ZeroExtend32 r r).

Definition signedCompare (op : IntOp) : bool := match op with IntLtS | IntGtS | IntLeS | IntGeS => true | _ => false end.

Definition compareOperands (op : IntOp) (w : bool) (l r : Z) : L (Z * Z) :=
  if negb w then
    (if signedCompare op then on (rv.Addiw rv.Scratch0 l 0) ;;; on (rv.Addiw rv.Scratch1 r 0)
     else on (rv.ZeroExtend32 rv.Scratch0 l) ;;; on (rv.ZeroExtend32 rv.Scratch1 r)) ;;;
    ret (rv.Scratch0, rv.Scratch1)
  else ret (l, r).

Definition compareInto (op : IntOp) (dst left right : Z) : L unit :=
  match op with
  | IntEq => on (rv.Xor dst left right) ;;; on (rv.Sltiu dst dst 1)
  | IntNe => on (rv.Xor dst left right) ;;; on (rv.Sltu dst rv.Zero dst)
  | IntLtS => on (rv.Slt dst left right)
  | IntLtU => on (rv.Sltu dst left right)
  | IntGtS => on (rv.Slt dst right left)
  | IntGtU => on (rv.Sltu dst right left)
  | IntLeS => on (rv.Slt dst right left) ;;; on (rv.Xori dst dst 1)
  | IntLeU => on (rv.Sltu dst right left) ;;; on (rv.Xori dst dst 1)
  | IntGeS => on (rv.Slt dst left right) ;;; on (rv.Xori dst dst 1)
  | IntGeU => on (rv.Sltu dst left right) ;;; on (rv.Xori dst dst 1)
  | _ => ret tt
  end.

Definition Binary (op : IntOp) (w : bool) (dst left : Z) (o : ScalarOperand) : L unit :=
  match Kind o with
  | ScalarRegister =>
      let right := Reg o in
      if fold.isCompare op then let! lr := compareOperands op w left right in compareInto op dst (fst lr) (snd lr)
      else if w then
        match op with
        | IntAdd => on (rv.Add dst left right)
        | IntSub => on (rv.Sub dst left right)
        | IntMul => on (rv.Mul dst left right)
        | IntAnd => on (rv.And dst left right)
        | IntOr => on (rv.Or dst left right)
        | IntXor => on (rv.Xor dst left right)
        | IntShl => on (rv.Sll dst left right)
        | IntShrS => on (rv.Sra dst left right)
        | IntShrU => on (rv.Srl dst left right)
        | _ => set_err (UnsupportedScalar op)
        end
      else
        match op with
        | IntAdd => on (rv.Addw dst left right)
        | IntSub => on (rv.Subw dst left right)
        | IntMul => on (rv.Mulw dst left right)
        | IntAnd => on (rv.And dst left right)
        | IntOr => on (rv.Or dst left right)
        | IntXor => on (rv.Xor dst left right)
        | IntShl => on (rv.Sllw dst left right)
        | IntShrS => on (rv.Sraw dst left right)
        | IntShrU => on (rv.Srlw dst left right)
        | _ => set_err (UnsupportedScalar op)
        end ;;;
        NormalizeI32 dst
  | _ => set_err NonRegisterOperand
  end.

Definition BranchZero (r : Z) : L Z :=
  on (rv.ZeroExtend32 rv.Scratch0 r) ;;; site_of (rv.BranchLong rv.EQ rv.Scratch0 rv.Zero).

(** The branch of the false edge: the condition, and whether the operands are swapped. *)
Definition falseEdge (op : IntOp) : option (Z * bool) :=
  match op with
  | IntEq => Some (rv.NE, false)
  | IntNe => Some (rv.EQ, false)
  | IntLtS => Some (rv.GE, false)
  | IntLtU => Some (rv.GEU, false)
  | IntGtS => Some (rv.GE, true)
  | IntGtU => Some (rv.GEU, true)
  | IntLeS => Some (rv.LT, true)
  | IntLeU => Some (rv.LTU, true)
  | IntGeS => Some (rv.LT, false)
  | IntGeU => Some (rv.LTU, false)
  | _ => None
  end.

Definition BranchCompare (op : IntOp) (w : bool) (l : Z) (o : ScalarOperand) : L Z :=
  match Kind o with
  | ScalarRegister =>
      let! lr := compareOperands op w l (Reg o) in
      match falseEdge op with
      | Some (cond, swap) =>
          let lr := if swap : bool then (snd lr, fst lr) else lr in
          site_of (rv.BranchLong cond (fst lr) (snd lr))
      | None => set_err (UnsupportedComparison op) ;;; ret (-1)
      end
  | _ => set_err NonRegisterBranch ;;; ret (-1)
  end.

Definition Jump : L Z := site_of (rv.JumpLong false).
Definition Position : L Z := let! e := get in ret (rv.Len (asm e)).

(** [Patch], its error kept in the emitter as the callers do. *)
Definition Patch (s pos : Z) : L unit := fun e =>
  match rv.PatchLong s pos (asm e) with
  | (Ok _, a) => (Ok tt, {| asm := a; ferr := ferr e; traps := traps e; sourcePC := sourcePC e |})
  | (Err x, a) => (Ok tt, {| asm := a; ferr := Some (PatchFailed x); traps := traps e; sourcePC := sourcePC e |})
  | (Panic, a) => (Panic, e)
  end.

(** ** Operations (integer.go) *)

Definition trap (code s : Z) : L unit :=
  modify (fun e => {| asm := asm e; ferr := ferr e; traps := traps e ++ [{| site := s; tcode := code; tpc := sourcePC e |}]; sourcePC := sourcePC e |}).

Definition divide (op : IntOp) (w : bool) : L unit :=
  let! zero := site_of (rv.BranchLong rv.EQ rv.X6 rv.Zero) in
  trap TrapDivideByZero zero ;;;
  match op with
  | IntDivS =>
      Constant 7 (if w then - 2 ^ 63 else - 2 ^ 31) w ;;;
      let! skip := site_of (rv.BranchLong rv.NE rv.X5 rv.X7) in
      Constant 7 (-1) w ;;;
      let! over := site_of (rv.BranchLong rv.EQ rv.X6 rv.X7) in
      trap TrapIntegerOverflow over ;;;
      let! here := Position in
      Patch skip here
  | _ => ret tt
  end ;;;
  if w then
    match op with
    | IntDivS => on (rv.Div rv.X5 rv.X5 rv.X6)
    | IntDivU => on (rv.Divu rv.X5 rv.X5 rv.X6)
    | IntRemS => on (rv.Rem rv.X5 rv.X5 rv.X6)
    | IntRemU => on (rv.Remu rv.X5 rv.X5 rv.X6)
    | _ => ret tt
    end
  else
    match op with
    | IntDivS => on (rv.Divw rv.X5 rv.X5 rv.X6)
    | IntDivU => on (rv.Divuw rv.X5 rv.X5 rv.X6)
    | IntRemS => on (rv.Remw rv.X5 rv.X5 rv.X6)
    | IntRemU => on (rv.Remuw rv.X5 rv.X5 rv.X6)
    | _ => ret tt
    end.

Definition rotate (left w : bool) : L unit :=
  on (rv.Sub rv.X28 rv.Zero rv.X6) ;;;
  (if w then
     if left then on (rv.Sll rv.X7 rv.X5 rv.X6) ;;; on (rv.Srl rv.X28 rv.X5 rv.X28)
     else on (rv.Srl rv.X7 rv.X5 rv.X6) ;;; on (rv.Sll rv.X28 rv.X5 rv.X28)
   else
     if left then on (rv.Sllw rv.X7 rv.X5 rv.X6) ;;; on (rv.Srlw rv.X28 rv.X5 rv.X28)
     else on (rv.Srlw rv.X7 rv.X5 rv.X6) ;;; on (rv.Sllw rv.X28 rv.X5 rv.X28)) ;;;
  on (rv.Or rv.X5 rv.X7 rv.X28).

(** The loops of the bit counts. *)
Definition popcntLoop (start : Z) : L unit :=
  on (rv.Addi rv.X6 rv.X5 (-1)) ;;;
  on (rv.And rv.X5 rv.X5 rv.X6) ;;;
  on (rv.Addi rv.X7 rv.X7 1) ;;;
  let! again := site_of (rv.BranchLong rv.NE rv.X5 rv.Zero) in
  Patch again start.

Definition zerosLoop (clz w : bool) (width start : Z) : L unit :=
  (if clz then on (rv.Srli rv.X6 rv.X5 (to_u8 (width - 1)))
   else on (rv.Addi rv.X28 rv.Zero 1) ;;; on (rv.And rv.X6 rv.X5 rv.X28)) ;;;
  let! stop := site_of (rv.BranchLong rv.NE rv.X6 rv.Zero) in
  (if clz then on (rv.Slli rv.X5 rv.X5 1) ;;; if negb w then NormalizeI32 5 else ret tt
   else on (rv.Srli rv.X5 rv.X5 1)) ;;;
  on (rv.Addi rv.X7 rv.X7 1) ;;;
  let! back := Jump in
  Patch back start ;;;
  let! here := Position in
  Patch stop here.

Definition count (op : IntOp) (w : bool) : L unit :=
  let width := if w then 64 else 32 in
  let initial := match op with IntPopcnt => 0 | _ => width end in
  Constant 7 initial true ;;;
  let! done := site_of (rv.BranchLong rv.EQ rv.X5 rv.Zero) in
  Constant 7 0 true ;;;
  let! start := Position in
  match op with
  | IntPopcnt => popcntLoop start
  | IntClz => zerosLoop true w width start
  | _ => zerosLoop false w width start
  end ;;;
  let! here := Position in
  Patch done here ;;;
  Move 5 7 true.

Definition unary (op : IntOp) (w : bool) : L unit :=
  match op with
  | IntEqz => on (rv.Sltiu rv.X5 rv.X5 1)
  | IntWrap | IntZExt32 => NormalizeI32 5
  | IntSExt8 => on (rv.Slli rv.X5 rv.X5 56) ;;; on (rv.Srai rv.X5 rv.X5 56)
  | IntSExt16 => on (rv.Slli rv.X5 rv.X5 48) ;;; on (rv.Srai rv.X5 rv.X5 48)
  | IntSExt32 => on (rv.Addiw rv.X5 rv.X5 0)
  | IntClz | IntCtz | IntPopcnt => count op w
  | _ => set_err (UnsupportedUnary op)
  end.

Definition binary (op : IntOp) (w : bool) : L unit :=
  match op with
  | IntDivS | IntDivU | IntRemS | IntRemU => divide op w
  | IntRotl => rotate true w
  | IntRotr => rotate false w
  | _ => Binary op w 5 5 {| Kind := ScalarRegister; Reg := 6; Offset := 0; Constant_ := 0 |}
  end.

Definition operation (op : IntOp) (w isUnary resultWide : bool) : L unit :=
  (if isUnary then unary op w else binary op w) ;;;
  if negb resultWide then NormalizeI32 5 else ret tt.

(** ** Opcodes *)

Definition pick (l : list IntOp) (k : Z) : IntOp := default IntNone (l !! Z.to_nat k).

(** [ScalarOpcode] of shared/scalar.go: the operation and whether it is on 64 bits. *)
Definition ScalarOpcode (op : Z) : option (IntOp * bool) :=
  let arith := [IntAdd; IntSub; IntMul] in
  let logic := [IntAnd; IntOr; IntXor; IntShl; IntShrS; IntShrU] in
  let compare := [IntEq; IntNe; IntLtS; IntLtU; IntGtS; IntGtU; IntLeS; IntLeU; IntGeS; IntGeU] in
  if (0x6a <=? op) && (op <=? 0x6c) then Some (pick arith (op - 0x6a), false)
  else if (0x7c <=? op) && (op <=? 0x7e) then Some (pick arith (op - 0x7c), true)
  else if (0x71 <=? op) && (op <=? 0x76) then Some (pick logic (op - 0x71), false)
  else if (0x83 <=? op) && (op <=? 0x88) then Some (pick logic (op - 0x83), true)
  else if (0x46 <=? op) && (op <=? 0x4f) then Some (pick compare (op - 0x46), false)
  else if (0x51 <=? op) && (op <=? 0x5a) then Some (pick compare (op - 0x51), true)
  else None.

(** The operation, whether its operands are of 64 bits, whether it is unary, whether its
    result is of 64 bits. *)
Definition integerOpcode (op : Z) : option (IntOp * bool * bool * bool) :=
  match ScalarOpcode op with
  | Some (o, w) => Some (o, w, false, w && negb (fold.isCompare o))
  | None =>
      match op with
      | 0x45 => Some (IntEqz, false, true, false)
      | 0x50 => Some (IntEqz, true, true, false)
      | 0x67 | 0x68 | 0x69 => Some (pick [IntClz; IntCtz; IntPopcnt] (op - 0x67), false, true, false)
      | 0x79 | 0x7a | 0x7b => Some (pick [IntClz; IntCtz; IntPopcnt] (op - 0x79), true, true, true)
      | 0x6d | 0x6e | 0x6f | 0x70 => Some (pick [IntDivS; IntDivU; IntRemS; IntRemU] (op - 0x6d), false, false, false)
      | 0x7f | 0x80 | 0x81 | 0x82 => Some (pick [IntDivS; IntDivU; IntRemS; IntRemU] (op - 0x7f), true, false, true)
      | 0x77 | 0x78 => Some (pick [IntRotl; IntRotr] (op - 0x77), false, false, false)
      | 0x89 | 0x8a => Some (pick [IntRotl; IntRotr] (op - 0x89), true, false, true)
      | 0xa7 => Some (IntWrap, true, true, false)
      | 0xac => Some (IntSExt32, false, true, true)
      | 0xad => Some (IntZExt32, false, true, true)
      | 0xc0 | 0xc1 => Some (pick [IntSExt8; IntSExt16] (op - 0xc0), false, true, false)
      | 0xc2 | 0xc3 | 0xc4 => Some (pick [IntSExt8; IntSExt16; IntSExt32] (op - 0xc2), true, true, true)
      | _ => None
      end
  end.
End lower.
