(* ===== verification/RvLowerLaws.v ===== *)
(** * Lowered code does not depend on its place

    The code [operation] emits behind other code is that of an empty buffer, its sites
    moved ([operation_moves]); so it is known once it is known at the start of an empty
    buffer, where it can be computed. *)

From stdpp Require Import base tactics numbers list functions relations.
From Stdlib Require Import ZArith Lia.
From S2P Require Import Prelude Bits IntFold RvAsm RvIsa RvEncode RvCode RvLower.
Local Open Scope Z_scope.
Local Open Scope list_scope.

(** ** Position independence *)

Section Move.
Context (b0 : list Z) (H0 : alignedTo4 b0).

(** The same assembler behind the bytes [b0]. *)
Definition behind (a0 a : Asm) : Prop := err a = err a0 /\ B a = b0 ++ B a0.

(** A method that only appends. *)
Definition moves (f : Asm -> Asm) : Prop := forall a0 a, behind a0 a -> behind (f a0) (f a).

Lemma behind_len a0 a : behind a0 a -> rv.Len a = Z.of_nat (length b0) + rv.Len a0.
Proof. intros [_ HB]. unfold rv.Len. rewrite HB, length_app. lia. Qed.

Lemma moves_fail e : moves (rv.fail e).
Proof. intros a0 a Hb. pose proof Hb as [He HB]. unfold rv.fail. rewrite He. destruct (err a0); [done|]. by split. Qed.

Lemma moves_word w : moves (rv.word w).
Proof using H0.
  intros a0 a Hb. unfold rv.word. assert (Z.land (rv.Len a) 3 = Z.land (rv.Len a0) 3) as ->.
  { rewrite !land_3, (behind_len a0 a Hb). unfold alignedTo4 in H0. rewrite <- Z.add_mod_idemp_l, H0 by lia. by rewrite Z.add_0_l. }
  assert (forall a0 a, behind a0 a -> behind (match err a0 with None => {| B := B a0 ++ rv.le w; err := None |} | Some _ => a0 end)
    (match err a with None => {| B := B a ++ rv.le w; err := None |} | Some _ => a end)) as Hput.
  { clear a0 a Hb. intros a0 a Hb. pose proof Hb as [He HB]. rewrite He. destruct (err a0); [done|]. split; [done|]. cbn [B]. by rewrite HB, app_assoc. }
  apply Hput. destruct (negb _); [by apply moves_fail|done].
Qed.

Lemma moves_registers regs (k : Asm -> Asm) : moves k -> moves (fun a => let '(b, a') := rv.registers regs a in if b then k a' else a').
Proof.
  intros Hk a0 a Hb. unfold rv.registers. pose proof Hb as [He HB]. rewrite He. destruct (err a0); [done|]. destruct (existsb _ regs); [by apply moves_fail|by apply Hk].
Qed.

Lemma moves_registers' regs (k : Asm -> Asm) : moves k -> moves (fun a => let '(b, a') := rv.registers regs a in if negb b then a' else k a').
Proof. intros Hk a0 a Hb. apply (moves_registers regs) in Hk. specialize (Hk a0 a Hb). cbv beta in *. destruct (rv.registers regs a0) as [[] ?], (rv.registers regs a) as [[] ?]; exact Hk. Qed.

Lemma moves_if (b : bool) f g : moves f -> moves g -> moves (fun a => if b then f a else g a).
Proof. by destruct b. Qed.

Lemma moves_comp f g : moves f -> moves g -> moves (fun a => g (f a)).
Proof. intros Hf Hg a0 a Hb. by apply Hg, Hf. Qed.

Lemma moves_id : moves (fun a => a).
Proof. by intros a0 a Hb. Qed.

Lemma moves_r op f3 f7 d l r : moves (rv.r op f3 f7 d l r).
Proof using H0. apply (moves_registers [d; l; r]), moves_word. Qed.

Lemma moves_i op f3 d s imm : moves (rv.i op f3 d s imm).
Proof using H0. apply (moves_registers' [d; s]), moves_if; [apply moves_fail|apply moves_word]. Qed.

Lemma moves_u op d v : moves (rv.u op d v).
Proof using H0. apply (moves_registers' [d]), moves_if; [apply moves_fail|apply moves_word]. Qed.

Lemma moves_shift d s n right arithmetic narrow : moves (rv.shift d s n right arithmetic narrow).
Proof using H0. unfold rv.shift. destruct narrow; (apply moves_if; [apply moves_fail|apply moves_i]). Qed.

Lemma moves_branch c l r v : moves (rv.Branch c l r v).
Proof using H0. apply (moves_registers' [l; r]), moves_if; [apply moves_fail|apply moves_word]. Qed.

Lemma moves_zeroExtend d s : moves (rv.ZeroExtend32 d s).
Proof using H0. apply (moves_registers [d; s]), (moves_comp (rv.Slli d s 32)); apply moves_shift. Qed.

Lemma moves_constant fuel d v : moves (rv.constantFrom fuel d v).
Proof using H0.
  revert v. induction fuel as [|fuel IH]; intros v; [apply moves_id|]. cbn [rv.constantFrom]. apply (moves_registers' [d]), moves_if; [apply moves_i|].
  apply moves_if.
  - destruct (negb _); [apply (moves_comp (rv.Lui d _)); [apply moves_u|apply moves_i]|apply moves_u].
  - assert (forall up, moves (fun a => rv.Slli d d 12 (rv.constantFrom fuel d up a))) as Hs by (intros up; apply (moves_comp (rv.constantFrom fuel d up)); [apply IH|apply moves_shift]).
    destruct (negb _); [apply (moves_comp (fun a => rv.Slli d d 12 (rv.constantFrom fuel d _ a))); [apply Hs|apply moves_i]|apply Hs].
Qed.

Lemma moves_constant32 d v : moves (rv.Constant32 d v).
Proof using H0.
  unfold rv.Constant32. cbv zeta. destruct (negb _); [apply (moves_comp (rv.Constant64 d _)); [apply moves_constant|apply moves_zeroExtend]|apply moves_constant].
Qed.

(** Methods that return a site. *)
Lemma moves_jump call a0 a : behind a0 a -> err (snd (rv.JumpLong call a0)) = None ->
  behind (snd (rv.JumpLong call a0)) (snd (rv.JumpLong call a)) /\ fst (rv.JumpLong call a) = Z.of_nat (length b0) + fst (rv.JumpLong call a0).
Proof using H0.
  intros Hb. unfold rv.JumpLong. set (f := fun a => rv.Jalr (if call then rv.RA else rv.Zero) rv.Scratch1 0 (rv.Auipc rv.Scratch1 0 a)).
  assert (moves f) as Hf by (apply (moves_comp (rv.Auipc rv.Scratch1 0)); [apply moves_u|apply moves_i]). specialize (Hf a0 a Hb). unfold f in Hf. pose proof (proj1 Hf) as He. rewrite He.
  destruct (err (rv.Jalr _ _ _ (rv.Auipc _ _ a0))) eqn:E; cbn [snd fst]; [by rewrite E|]. intros _. split; [done|]. by apply behind_len.
Qed.

Lemma moves_branchLong c l r a0 a : behind a0 a -> err (snd (rv.BranchLong c l r a0)) = None ->
  behind (snd (rv.BranchLong c l r a0)) (snd (rv.BranchLong c l r a)) /\ fst (rv.BranchLong c l r a) = Z.of_nat (length b0) + fst (rv.BranchLong c l r a0).
Proof using H0.
  intros Hb. unfold rv.BranchLong, rv.registers. pose proof Hb as [He HB]. rewrite He. destruct (err a0) eqn:E0.
  { cbn [negb orb snd]. unfold rv.fail. rewrite E0. by rewrite E0. }
  destruct (existsb _ [l; r]); cbn [negb orb].
  { cbn [snd]. unfold rv.fail. rewrite E0. cbn [err]. done. }
  destruct (rv.valid c); cbn [negb]; [|cbn [snd]; unfold rv.fail; by rewrite E0]. intros Hn. apply moves_jump; [by apply moves_branch|done].
Qed.

Lemma moves_patch s t a0 a a0' : behind a0 a -> rv.PatchLong s t a0 = (Ok tt, a0') ->
  exists a', rv.PatchLong (Z.of_nat (length b0) + s) (Z.of_nat (length b0) + t) a = (Ok tt, a') /\ behind a0' a'.
Proof using H0.
  intros [He HB] HP. unfold rv.PatchLong in *. rewrite He. destruct (err a0) eqn:E0; [done|]. set (n := Z.of_nat (length b0)) in *.
  assert (forall v, Z.land (n + v) 3 = Z.land v 3) as H3.
  { intros v. rewrite !land_3, <- (Z.add_mod_idemp_l n v) by lia. unfold n. pose proof H0 as H4. unfold alignedTo4 in H4. by rewrite H4, Z.add_0_l. }
  rewrite !H3. assert (rv.Len a = n + rv.Len a0) as HL by (unfold rv.Len; rewrite HB, length_app; unfold n; lia). rewrite HL.
  assert ((n + rv.Len a0 - 8 <? n + s) = (rv.Len a0 - 8 <? s)) as -> by (destruct (Z.ltb_spec (n + rv.Len a0 - 8) (n + s)), (Z.ltb_spec (rv.Len a0 - 8) s); done || lia).
  destruct (Z.ltb_spec s 0) as [|Hs]; [done|]. rewrite (proj2 (Z.ltb_ge (n + s) 0)) by lia. cbn [orb] in *. destruct (_ || _); [done|]. rewrite HB, <- Z.add_assoc, !Uint32_app by lia.
  destruct (rv.Uint32 (B a0) s) as [hw|], (rv.Uint32 (B a0) (s + 4)) as [lw|]; try done. destruct (negb _); [done|]. replace (n + t - (n + s)) with (t - s) by lia.
  assert ((n + t <? - 2 ^ 63 + (n + s)) = (t <? - 2 ^ 63 + s)) as -> by (destruct (Z.ltb_spec (n + t) (- 2 ^ 63 + (n + s))), (Z.ltb_spec t (- 2 ^ 63 + s)); done || lia).
  destruct (t <? _); [done|]. destruct (_ || _); [done|]. injection HP as <-. eexists. split; [done|]. split; [done|]. cbn [B].
  assert (forall b w o, 0 <= o -> rv.PutUint32 (b0 ++ b) (n + o) w = b0 ++ rv.PutUint32 b o w) as Hput.
  { intros b w o Ho. unfold rv.PutUint32. replace (Z.to_nat (n + o)) with (length b0 + Z.to_nat o)%nat by (unfold n; lia). rewrite <- Nat.add_assoc, take_app_add, drop_app_add. by rewrite <- app_assoc. }
  rewrite !Hput by lia. done.
Qed.
End Move.

(** ** The emitter *)

Section MoveEmitter.
Context (b0 : list Z) (H0 : alignedTo4 b0) (before : list integerTrap).
Let n : Z := Z.of_nat (length b0).

Definition dead (e : emitter) : Prop := ferr e <> None \/ err (asm e) <> None.
Definition movedTrap (t : integerTrap) : integerTrap := {| site := n + site t; tcode := tcode t; tpc := tpc t |}.
Definition moved (e0 e : emitter) : Prop :=
  behind b0 (asm e0) (asm e) /\ ferr e = ferr e0 /\ traps e = before ++ (movedTrap <$> traps e0) /\ sourcePC e = sourcePC e0.

(** An error, once recorded, stays. *)
Definition keeps {A} (m : lower.L A) : Prop := forall e v e', dead e -> m e = (Ok v, e') -> dead e'.

(** [m0] at the start of an empty buffer and [m] behind [b0] do the same, unless an error
    is recorded. *)
Definition same {A} (V : A -> A -> Prop) (m0 m : lower.L A) : Prop :=
  forall e0 e v0 e0', moved e0 e -> m0 e0 = (Ok v0, e0') -> dead e0' \/ exists v e', m e = (Ok v, e') /\ moved e0' e' /\ V v0 v.

Definition siteV (s0 s : Z) : Prop := s = n + s0.
Definition any {A} (_ _ : A) : Prop := True.

Lemma sticky_ret {A} (v : A) : keeps (ret v).
Proof. by intros e ? ? He [= <- <-]. Qed.

Lemma sticky_bind {A C} (m : lower.L A) (k : A -> lower.L C) : keeps m -> (forall v, keeps (k v)) -> keeps (bind m k).
Proof. intros Hm Hk e c e' He HB. unfold bind in HB. destruct (m e) as [[v| |] e1] eqn:E; try done. eapply Hk; [|done]. by eapply Hm. Qed.

Lemma keeps_on f : (forall a, err a <> None -> err (f a) <> None) -> keeps (lower.on f).
Proof. intros Hs e v e' [He|He] [= <- <-]; [by left|right; by apply Hs]. Qed.

Lemma keeps_site f : (forall a, err a <> None -> err (snd (f a)) <> None) -> keeps (lower.site_of f).
Proof.
  intros Hs e v e' He. unfold lower.site_of. specialize (Hs (asm e)). destruct (f (asm e)) as [s a]. intros [= <- <-]. destruct He as [He|He]; [by left|right]. by apply Hs.
Qed.

Lemma keeps_trap code s : keeps (lower.trap code s).
Proof. by intros e v e' [He|He] [= <- <-]; [left|right]. Qed.

Lemma keeps_err x : keeps (lower.set_err x).
Proof. by intros e v e' He [= <- <-]; left. Qed.

Lemma keeps_position : keeps lower.Position.
Proof. by intros e v e' He [= <- <-]. Qed.

Lemma keeps_patch s t : keeps (lower.Patch s t).
Proof.
  intros e v e' He. unfold lower.Patch. destruct (rv.PatchLong s t (asm e)) as [[u|x|] a] eqn:E; intros HE; try done; injection HE as <- <-; [|by left].
  destruct He as [He|He]; [by left|]. unfold rv.PatchLong in E. by destruct (err (asm e)).
Qed.

Lemma alike_ret {A} (V : A -> A -> Prop) v0 v : V v0 v -> same V (ret v0) (ret v).
Proof. intros HV e0 e ? ? Hm [= <- <-]. right. by exists v, e. Qed.

Lemma alike_bind {A C} (V : A -> A -> Prop) (W : C -> C -> Prop) m0 m k0 k : same V m0 m -> (forall v0 v, V v0 v -> same W (k0 v0) (k v)) ->
  (forall v0, keeps (k0 v0)) -> same W (bind m0 k0) (bind m k).
Proof.
  intros Hm Hk Hdk e0 e c0 e0' Hmv HB. unfold bind in HB. destruct (m0 e0) as [[v0| |] e1] eqn:E; try done.
  destruct (Hm e0 e v0 e1 Hmv E) as [Hdead|(v & e2 & E2 & Hmv2 & HV)]; [left; by eapply Hdk|].
  destruct (Hk v0 v HV e1 e2 c0 e0' Hmv2 HB) as [|(c & e3 & E3 & ?)]; [by left|right]. exists c, e3. unfold bind. by rewrite E2.
Qed.

Lemma same_on f : moves b0 f -> same any (lower.on f) (lower.on f).
Proof.
  intros Hf e0 e v0 e0' (Hb & H1 & H2 & H3) [= <- <-]. right. eexists _, _. split; [done|]. split; [|done]. split_and!; try done. by apply Hf.
Qed.

Lemma same_trap code s0 s : siteV s0 s -> same any (lower.trap code s0) (lower.trap code s).
Proof.
  intros HV e0 e v0 e0' (Hb & H1 & H2 & H3) [= <- <-]. right. eexists _, _. split; [done|]. split; [|done]. split_and!; try done. cbn [traps]. rewrite H2, fmap_app, app_assoc. do 2 f_equal.
  unfold movedTrap. cbn. by rewrite H3, HV.
Qed.

Lemma same_site f : (forall a0 a, behind b0 a0 a -> err (snd (f a0)) = None -> behind b0 (snd (f a0)) (snd (f a)) /\ fst (f a) = n + fst (f a0)) ->
  same siteV (lower.site_of f) (lower.site_of f).
Proof.
  intros Hf e0 e v0 e0' (Hb & H1 & H2 & H3). unfold lower.site_of. specialize (Hf _ _ Hb). destruct (f (asm e0)) as [s0 a0] eqn:E0, (f (asm e)) as [s a] eqn:E. cbn in Hf. intros [= <- <-].
  destruct (err a0) eqn:Ea; [left; right; cbn; by rewrite Ea|]. destruct (Hf eq_refl). right. exists s. eexists. split; [done|]. by split_and!.
Qed.

Lemma same_err x : same any (lower.set_err x) (lower.set_err x).
Proof. intros e0 e v0 e0' Hm [= <- <-]. by left; left. Qed.

Lemma same_position : same siteV lower.Position lower.Position.
Proof.
  intros e0 e v0 e0' Hm [= <- <-]. right. eexists _, _. split; [done|]. split; [done|]. destruct Hm as [Hb _]. by apply behind_len.
Qed.

Lemma same_patch s0 s t0 t : siteV s0 s -> siteV t0 t -> same any (lower.Patch s0 t0) (lower.Patch s t).
Proof using H0.
  intros HS HT e0 e v0 e0' (Hb & H1 & H2 & H3). unfold lower.Patch. destruct (rv.PatchLong s0 t0 (asm e0)) as [[[]|x|] a0] eqn:E; intros HE; try done; injection HE as <- <-; [right|by left; left].
  destruct (moves_patch b0 H0 s0 t0 (asm e0) (asm e) a0 Hb E) as (a & EP & Hb'). unfold siteV, n in *. subst s t. rewrite EP. eexists _, _. split; [done|]. by split_and!.
Qed.

(** The methods used by the lowering. *)
Lemma inert_registers regs k a : err a <> None -> err (let '(b, a') := rv.registers regs a in if b then k a' else a') <> None.
Proof. intros He. unfold rv.registers. destruct (err a) eqn:E; [|done]. cbn. by rewrite E. Qed.

Lemma inert_registers' regs k a : err a <> None -> err (let '(b, a') := rv.registers regs a in if negb b then a' else k a') <> None.
Proof. intros He. unfold rv.registers. destruct (err a) eqn:E; [|done]. cbn. by rewrite E. Qed.

Lemma inert_fail x a : err a <> None -> err (rv.fail x a) <> None.
Proof. intros He. unfold rv.fail. destruct (err a) eqn:E; [|done]. by rewrite E. Qed.

Lemma inert_shift d s c r a w x : err x <> None -> err (rv.shift d s c r a w x) <> None.
Proof. intros He. unfold rv.shift. destruct w; (destruct (_ <=? c); [by apply inert_fail|by apply inert_registers']). Qed.

Lemma inert_constant fuel d v a : err a <> None -> err (rv.constantFrom fuel d v a) <> None.
Proof. intros He. destruct fuel; [done|]. by apply inert_registers'. Qed.

Lemma inert_constant32 d v a : err a <> None -> err (rv.Constant32 d v a) <> None.
Proof. intros He. unfold rv.Constant32. destruct (negb _); [apply inert_registers|]; by apply inert_constant. Qed.

Lemma inert_jump c a : err a <> None -> err (snd (rv.JumpLong c a)) <> None.
Proof.
  intros He. unfold rv.JumpLong. assert (err (rv.Jalr (if c then rv.RA else rv.Zero) rv.Scratch1 0 (rv.Auipc rv.Scratch1 0 a)) <> None) as Hj.
  { apply inert_registers', inert_registers', He. }
  by destruct (err (rv.Jalr _ _ _ _)) eqn:E; cbn [snd]; rewrite ?E.
Qed.

Lemma inert_branchLong c l r a : err a <> None -> err (snd (rv.BranchLong c l r a)) <> None.
Proof. intros He. unfold rv.BranchLong, rv.registers. destruct (err a) eqn:E; [|done]. cbn [negb orb snd]. apply inert_fail. by rewrite E. Qed.

Ltac inert := intros ? ?; first [by apply inert_registers | by apply inert_registers' | by apply inert_shift | by apply inert_constant | by apply inert_constant32
  | by apply inert_jump | by apply inert_branchLong].

Ltac keeps := repeat first [apply sticky_ret | apply keeps_trap | apply keeps_err | apply keeps_position | apply keeps_patch | apply keeps_on; inert | apply keeps_site; inert
  | apply sticky_bind; [|intros ?] | progress cbn beta iota].

Ltac moving := first [by apply moves_r | by apply moves_i | by apply moves_shift | by apply moves_zeroExtend | by apply moves_constant | by apply moves_constant32].

Ltac same := repeat first [apply same_err | apply same_position | by apply same_patch | by apply same_trap | apply same_on; moving
  | apply same_site; [intros ? ? ? ?; by (apply moves_branchLong || apply moves_jump)] | by apply (alike_ret eq) | by apply alike_ret | progress match goal with H : @eq (Z * Z) _ _ |- _ => subst end
  | eapply alike_bind; [|intros ? ? ?|intros ?; keeps] | progress cbn beta iota].

Lemma operation_moves op w u wide : same any (lower.operation op w u wide) (lower.operation op w u wide).
Proof using H0.
  destruct u, w, wide, op; unfold lower.operation, lower.unary, lower.binary, lower.divide, lower.rotate, lower.count, lower.popcntLoop, lower.zerosLoop, lower.Binary,
    lower.compareOperands, lower.compareInto, lower.Constant, lower.Move, lower.NormalizeI32, lower.Jump; cbn -[lower.on lower.site_of bind ret lower.Patch lower.Position lower.trap rv.Constant64 rv.Constant32]; same.
Qed.
End MoveEmitter.
