(* ===== verification/RvRun.v ===== *)
(** * Running the code of an integer operation

    What the code [operation] emits does, run on the machine of [RvIsa]: straight-line code,
    the checks of the divisions and the loops of the bit counts, each compared with the
    operation as [IntFold] defines it.  The code is computed at the start of an empty
    buffer ([lowered]); [RvLowerLaws] moves it to where it is emitted. *)

From stdpp Require Import base tactics numbers list functions relations.
From Stdlib Require Import ZArith Lia.
From S2P Require Import Prelude Bits IntFold RvAsm RvIsa RvEncode RvCode RvLower RvLowerLaws.
Local Open Scope Z_scope.
Local Open Scope list_scope.

(** ** Code with trap sites *)

(** The words of the trap sites, patched later. *)
Definition holes (ts : list integerTrap) : list Z := ts ≫= fun t => [site t; site t + 4].

(** [image] has the code [l] at [p], the words of the sites [ts] (relative to [p]) apart. *)
Definition code_but (image : list Z) (p : Z) (l : list instr) (ts : list integerTrap) : Prop :=
  forall k i, l !! k = Some i -> (4 * Z.of_nat k ∉ holes ts) -> fetch image (p + 4 * Z.of_nat k) = Some i.

(** The registers an operation may change. *)
Definition clobbered : list Z := [5; 6; 7; 28; 30; 31].
Definition frame (x x' : Z -> Z) : Prop := forall r, (r ∉ clobbered) -> rget x' r = rget x r.

Definition dom (w : bool) (x : Z -> Z) : Prop := 0 <= rget x 5 < 2 ^ wasm.width w /\ 0 <= rget x 6 < 2 ^ wasm.width w.
Definition dom1 (w : bool) (x : Z -> Z) : Prop := 0 <= rget x 5 < 2 ^ wasm.width w.

(** The code computes the value, or stops at a site with the code of the trap. *)
Definition computes (l : list instr) (ts : list integerTrap) (pre : (Z -> Z) -> Prop) (value : (Z -> Z) -> option Z) (code : (Z -> Z) -> Z) : Prop :=
  forall image p x, 0 <= p -> p + 4 * Z.of_nat (length l) < 2 ^ 62 -> code_but image p l ts -> pre x ->
    match value x with
    | Some v => exists x', steps image {| pc := p; xs := x |} {| pc := p + 4 * Z.of_nat (length l); xs := x' |} /\ rget x' 5 = v /\ frame x x'
    | None => exists t x', t ∈ ts /\ tcode t = code x /\ steps image {| pc := p; xs := x |} {| pc := p + site t; xs := x' |} /\ frame x x'
    end.

(** ** Straight-line code *)

Lemma rget_0 x : rget x 0 = 0.
Proof. done. Qed.

Create Rewrite HintDb rv.
#[export] Hint Rewrite rget_0 : rv.
#[export] Hint Rewrite rget_put using done : rv.
#[export] Hint Rewrite rget_put_ne using done : rv.

Lemma frame_put r v x x' : r ∈ clobbered -> frame x x' -> frame x (rput r v x').
Proof. intros Hr Hf q Hq. rewrite rget_put_ne; [by apply Hf|]. by intros ->. Qed.

Lemma frame_refl x : frame x x.
Proof. by intros r Hr. Qed.

Ltac framed := repeat (apply frame_put; [by apply (bool_decide_unpack _); vm_compute|]); first [apply frame_refl | assumption].

Lemma straight_computes l pre value code : (forall x, pre x -> exists x', run l x = Some x' /\ value x = Some (rget x' 5) /\ frame x x') -> computes l [] pre value code.
Proof.
  intros H image p x Hp Hl Hc Hx. destruct (H x Hx) as (x' & Hr & -> & Hf). exists x'. split_and!; [|done|done]. apply run_steps; [|done|done|lia].
  intros k i Hk. apply Hc; [done|]. apply not_elem_of_nil.
Qed.

(** ** Words *)

Lemma sx32_low v : sx32 v mod 2 ^ 32 = v mod 2 ^ 32.
Proof. unfold sx32. rewrite mod_pow_idem, signed_mod, Z.mod_mod by lia. done. Qed.

Lemma s64_sx32 v : s64 (sx32 v) = s32 v.
Proof.
  unfold s64, sx32, s32. pose proof (signed_range 32 (v mod 2 ^ 32) ltac:(lia) ltac:(apply Z.mod_pos_bound; lia)). apply signed_id; lia.
Qed.

Lemma s32_small v : 0 <= v < 2 ^ 32 -> s32 v = wasm.signed 32 v.
Proof. intros Hv. unfold s32. by rewrite Z.mod_small. Qed.

Lemma flag_truth b : flag b = wasm.truth b.
Proof. done. Qed.

Lemma truth_low b : wasm.truth b mod 2 ^ 32 = wasm.truth b.
Proof. by destruct b. Qed.

Lemma truth_not b : Z.lxor (wasm.truth b) (u64 1) = wasm.truth (negb b).
Proof. by destruct b. Qed.

Lemma xor_zero a b : 0 <= a -> 0 <= b -> (Z.lxor a b <? u64 1) = (a =? b).
Proof.
  intros Ha Hb. change (u64 1) with 1. assert (0 <= Z.lxor a b) by (apply Z.lxor_nonneg; lia). destruct (Z.eqb_spec a b) as [->|Hne]; [by rewrite Z.lxor_nilpotent|].
  apply Z.ltb_ge. assert (Z.lxor a b <> 0) by (by rewrite Z.lxor_eq_0_iff). lia.
Qed.

Lemma xor_nonzero a b : 0 <= a -> 0 <= b -> (0 <? Z.lxor a b) = negb (a =? b).
Proof.
  intros Ha Hb. assert (0 <= Z.lxor a b) by (apply Z.lxor_nonneg; lia). destruct (Z.eqb_spec a b) as [->|Hne]; [by rewrite Z.lxor_nilpotent|].
  apply Z.ltb_lt. assert (Z.lxor a b <> 0) by (by rewrite Z.lxor_eq_0_iff). lia.
Qed.

(** A sign extension by two shifts. *)
Lemma sext_shifts k a : 0 < k < 64 -> s64 (u64 (a * 2 ^ (64 - k))) / 2 ^ (64 - k) = wasm.signed k (a mod 2 ^ k).
Proof.
  intros Hk. unfold s64, u64. set (j := 64 - k). assert (0 < 2 ^ j) by (apply Z.pow_pos_nonneg; lia). assert (0 < 2 ^ k) by (apply Z.pow_pos_nonneg; lia).
  assert (2 ^ 64 = 2 ^ k * 2 ^ j) as E by (rewrite <- Z.pow_add_r by lia; f_equal; lia). rewrite E, Z.mul_mod_distr_r by lia.
  pose proof (Z.mod_pos_bound a (2 ^ k) ltac:(lia)). set (m := a mod 2 ^ k) in *. unfold wasm.signed.
  assert (2 ^ (64 - 1) = 2 ^ (k - 1) * 2 ^ j) as E1 by (rewrite <- Z.pow_add_r by lia; f_equal; lia). rewrite E1, E.
  destruct (Z.ltb_spec (m * 2 ^ j) (2 ^ (k - 1) * 2 ^ j)), (Z.ltb_spec m (2 ^ (k - 1))); try (exfalso; nia); [by apply Z.div_mul; lia|].
  replace (m * 2 ^ j - 2 ^ k * 2 ^ j) with ((m - 2 ^ k) * 2 ^ j) by lia. apply Z.div_mul. lia.
Qed.

(** ** The operations without a branch *)

(** The code of an operation at the start of an empty buffer. *)
Definition start (spc : Z) : emitter := {| asm := {| B := []; err := None |}; ferr := None; traps := []; sourcePC := spc |}.

Definition lowered (spc : Z) (op : IntOp) (w u wide : bool) : option (list instr * list integerTrap) :=
  match lower.operation op w u wide (start spc) with
  | (Ok _, e) =>
      match ferr e, err (asm e) with
      | None, None => let n := (length (B (asm e)) / 4)%nat in if negb (length (B (asm e)) =? 4 * n)%nat then None else (fun l => (l, traps e)) <$> mapM (fun k => fetch (B (asm e)) (4 * Z.of_nat k)) (seq 0 n)
      | _, _ => None
      end
  | _ => None
  end.

Definition bin_value (w : bool) (op : IntOp) (x : Z -> Z) : option Z := wasm.bin (wasm.width w) op (rget x 5) (rget x 6).
Definition un_value (w wide : bool) (op : IntOp) (x : Z -> Z) : option Z := wasm.un (wasm.width w) (wasm.width wide) op (rget x 5).

(** The trap an operation may take. *)
Definition trap_code (x : Z -> Z) : Z := if rget x 6 =? 0 then TrapDivideByZero else TrapIntegerOverflow.

(** What the code of an operation has to do. *)
Definition lowering_ok (op : IntOp) (w u wide : bool) : Prop := forall spc, exists l ts, lowered spc op w u wide = Some (l, ts) /\
  computes l ts (if u then dom1 w else dom w) (if u then un_value w wide op else bin_value w op) trap_code.

Lemma mod32_twice v : v mod 2 ^ 32 mod 2 ^ 32 = v mod 2 ^ 32.
Proof. by rewrite Z.mod_mod. Qed.

Create Rewrite HintDb words.
#[export] Hint Rewrite low_word sx32_low mod32_twice s64_sx32 flag_truth truth_low truth_not Z.add_0_r : words.

Ltac lower_straight := intros spc; eexists _, _; split; [vm_compute; reflexivity|]; apply straight_computes; intros x Hx;
  eexists; split; [reflexivity|]; split; [|framed]; cbn [aluR aluI aluS]; autorewrite with rv words;
  unfold bin_value, un_value, dom, dom1 in *; cbn [wasm.bin wasm.un wasm.width] in *; f_equal.

(** The count of the second half of a rotation. *)
Lemma neg_count n b : n = 32 \/ n = 64 -> u64 (0 - b) mod n = (n - b mod n) mod n.
Proof.
  intros Hn. assert (exists k, n = 2 ^ k /\ 0 <= k <= 64) as (k & -> & Hk) by (destruct Hn as [->| ->]; [exists 5|exists 6]; done).
  unfold u64. rewrite mod_pow_idem by done. assert (0 < 2 ^ k) by (apply Z.pow_pos_nonneg; lia).
  rewrite Zminus_mod_idemp_r, <- (Z.mod_add (0 - b) 1 (2 ^ k)) by lia. f_equal. lia.
Qed.


Ltac lower_bin := lower_straight; match goal with H : _ /\ _ |- _ => destruct H as [Ha Hb] end.

Lemma low_small v : 0 <= v < 2 ^ 32 -> v mod 2 ^ 32 = v.
Proof. apply Z.mod_small. Qed.

Lemma arith_ok op w : op ∈ [IntAdd; IntSub; IntMul; IntAnd; IntOr; IntXor; IntShl] -> lowering_ok op w false w.
Proof.
  intros Hop. rewrite !elem_of_cons in Hop. destruct Hop as [->|[->|[->|[->|[->|[->|[->|Hop]]]]]]]; [..|by apply not_elem_of_nil in Hop]; destruct w; lower_bin; try done.
  all: destruct (bitwise_range 32 (rget x 5) (rget x 6) ltac:(lia) Ha Hb) as (? & ? & ?); congruence.
Qed.

Lemma shiftr_low x k : 0 <= k -> 0 <= x < 2 ^ 32 -> (x mod 2 ^ 32 / 2 ^ k) mod 2 ^ 32 = x / 2 ^ k.
Proof. intros Hk Hx. rewrite (low_small x) by done. apply low_small, shiftr_range; done. Qed.

Lemma shr_ok op w : op ∈ [IntShrU; IntShrS] -> lowering_ok op w false w.
Proof.
  intros Hop. rewrite !elem_of_cons in Hop. destruct Hop as [->|[->|Hop]]; [..|by apply not_elem_of_nil in Hop]; destruct w; lower_bin; try done.
  - rewrite shiftr_low; [done| |done]. apply Z.mod_pos_bound. lia.
  - by rewrite s32_small.
Qed.

Lemma not_less a b : negb (a <? b) = (b <=? a).
Proof. symmetry. apply Z.leb_antisym. Qed.

Lemma compare_ok op w : op ∈ [IntEq; IntNe; IntLtS; IntLtU; IntGtS; IntGtU; IntLeS; IntLeU; IntGeS; IntGeU] -> lowering_ok op w false false.
Proof.
  intros Hop. rewrite !elem_of_cons in Hop. destruct Hop as [->|[->|[->|[->|[->|[->|[->|[->|[->|[->|Hop]]]]]]]]]]; [..|by apply not_elem_of_nil in Hop]; destruct w; lower_bin.
  all: rewrite ?s32_small, ?(low_small (rget x 5)), ?(low_small (rget x 6)), ?not_less, ?xor_zero, ?xor_nonzero by (done || lia); done.
Qed.

(** The two halves of a rotation. *)
Lemma rotl_code n x b : n = 32 \/ n = 64 -> 0 <= x < 2 ^ n -> Z.lor ((x * 2 ^ (b mod n)) mod 2 ^ n) (x / 2 ^ (u64 (0 - b) mod n)) = wasm.rotl n x (b mod n).
Proof.
  intros Hn Hx. assert (0 < n) by lia. pose proof (Z.mod_pos_bound b n ltac:(lia)). pose proof (Z.mod_pos_bound (u64 (0 - b)) n ltac:(lia)).
  rewrite <- Z.shiftl_mul_pow2, <- Z.shiftr_div_pow2 by lia. apply rotate_parts; [lia..| |done]. by apply neg_count.
Qed.

Lemma rotr_code n x b : n = 32 \/ n = 64 -> 0 <= x < 2 ^ n -> Z.lor (x / 2 ^ (b mod n)) ((x * 2 ^ (u64 (0 - b) mod n)) mod 2 ^ n) = wasm.rotr n x (b mod n).
Proof.
  intros Hn Hx. assert (0 < n) by lia. pose proof (Z.mod_pos_bound b n ltac:(lia)). pose proof (Z.mod_pos_bound (n - b mod n) n ltac:(lia)).
  rewrite rotr_rotl, neg_count, Z.lor_comm by (done || lia). rewrite <- Z.shiftl_mul_pow2, <- Z.shiftr_div_pow2 by lia.
  apply rotate_parts; [lia..| |done]. by apply back_and_forth.
Qed.

Lemma rotate_ok op w : op ∈ [IntRotl; IntRotr] -> lowering_ok op w false w.
Proof.
  intros Hop. rewrite !elem_of_cons in Hop. destruct Hop as [->|[->|Hop]]; [..|by apply not_elem_of_nil in Hop]; destruct w; lower_bin.
  - symmetry. apply rotl_code; auto.
  - rewrite lor_mod, !sx32_low, shiftr_low by (done || apply Z.mod_pos_bound; lia). symmetry. apply rotl_code; auto.
  - symmetry. apply rotr_code; auto.
  - rewrite lor_mod, !sx32_low, shiftr_low by (done || apply Z.mod_pos_bound; lia). symmetry. apply rotr_code; auto.
Qed.

Lemma extend_ok op w wide : (op, w, wide) ∈ [(IntEqz, false, false); (IntEqz, true, false); (IntWrap, true, false); (IntSExt32, false, true); (IntZExt32, false, true);
  (IntSExt8, false, false); (IntSExt16, false, false); (IntSExt8, true, true); (IntSExt16, true, true); (IntSExt32, true, true)] -> lowering_ok op w true wide.
Proof.
  intros Hop. rewrite !elem_of_cons in Hop. repeat (destruct Hop as [[= -> -> ->]|Hop]; [|]); [..|by apply not_elem_of_nil in Hop]; lower_straight.
  1,2: f_equal; destruct (Z.eqb_spec (rget x 5) 0), (Z.ltb_spec (rget x 5) (u64 1)) as [Hlt|Hge]; try done; (change (u64 1) with 1 in *; lia).
  all: first [rewrite (sext_shifts 8) by lia | rewrite (sext_shifts 16) by lia]; unfold u64; rewrite ?mod_pow_idem by lia; done.
Qed.

(** ** Code with branches *)

Lemma fetch_aligned image a i : fetch image a = Some i -> 0 <= a /\ a mod 4 = 0.
Proof.
  unfold fetch. destruct (Z.ltb_spec a 0); [done|]. destruct (Z.eqb_spec (a mod 4) 0); [done|]. done.
Qed.

Section Branches.
Context (image : list Z) (p : Z) (l : list instr) (ts : list integerTrap).
Context (Hp : 0 <= p) (Hl : p + 4 * Z.of_nat (length l) < 2 ^ 62) (Hcode : code_but image p l ts).

Definition at_ (k : nat) (x : Z -> Z) : cpu := {| pc := p + 4 * Z.of_nat k; xs := x |}.

(** From the instruction [k] the code comes to the instruction [e] in a state of [Q]. *)
Definition reaches (k : nat) (x : Z -> Z) (e : nat) (Q : (Z -> Z) -> Prop) : Prop := exists x', steps image (at_ k x) (at_ e x') /\ Q x'.

Definition free (k : nat) : Prop := 4 * Z.of_nat k ∉ holes ts.

Lemma code_end e x (Q : (Z -> Z) -> Prop) : Q x -> reaches e x e Q.
Proof. intros HQ. exists x. split; [apply rtc_refl|done]. Qed.

Lemma reaches_step k x k' x' e Q : step image (at_ k x) = Some (at_ k' x') -> reaches k' x' e Q -> reaches k x e Q.
Proof. intros Hs (x2 & Hr & HQ). exists x2. split; [|done]. by eapply rtc_l. Qed.

Lemma reaches_op k i x x' e Q : l !! k = Some i -> free k -> effect i x = Some x' -> reaches (S k) x' e Q -> reaches k x e Q.
Proof using Hp Hl Hcode.
  intros Hi Hf He. apply reaches_step. pose proof (lookup_lt_Some _ _ _ Hi). unfold at_. rewrite (step_effect image i _ x x'); [|by apply Hcode|done|lia]. do 2 f_equal. lia.
Qed.

Lemma reaches_branch k o a b imm k' x e Q : l !! k = Some (BranchOp o a b imm) -> free k -> 4 * Z.of_nat k' = 4 * Z.of_nat k + imm -> (k' <= length l)%nat ->
  (taken o (rget x a) (rget x b) = true -> reaches k' x e Q) -> (taken o (rget x a) (rget x b) = false -> reaches (S k) x e Q) -> reaches k x e Q.
Proof using Hp Hl Hcode.
  intros Hi Hf Hk Hle Ht Hn. pose proof (lookup_lt_Some _ _ _ Hi). assert (step image (at_ k x) = Some (if taken o (rget x a) (rget x b) then at_ k' x else at_ (S k) x)) as Hs.
  { unfold step, at_. cbn [pc]. rewrite (Hcode k _ Hi Hf). cbn [mbind option_bind exec pc xs]. f_equal. unfold u64. rewrite !Z.mod_small by lia. destruct (taken _ _ _); f_equal; lia. }
  destruct (taken _ _ _); (eapply reaches_step; [exact Hs|auto]).
Qed.

Lemma reaches_far k high low k' x e Q : l !! k = Some (AUIPC 31 high) -> l !! S k = Some (JALR 0 31 low) -> free k -> free (S k) ->
  4 * Z.of_nat k' = 4 * Z.of_nat k + upper high + low -> (k' <= length l)%nat -> (forall v, reaches k' (rput 31 v x) e Q) -> reaches k x e Q.
Proof using Hp Hl Hcode.
  intros Hi Hj Hf Hg Hk Hle Hr. pose proof (lookup_lt_Some _ _ _ Hj). set (v := u64 (p + 4 * Z.of_nat k + upper high)). pose proof (Hcode k _ Hi Hf) as F. destruct (fetch_aligned _ _ _ F) as [_ H4].
  apply (reaches_step k x (S k) (rput 31 v x)).
  { unfold step, at_. cbn [pc]. rewrite F. cbn [mbind option_bind exec pc xs]. do 2 f_equal. unfold u64. rewrite Z.mod_small by lia. lia. }
  apply (reaches_step _ _ k' (rput 31 v x)); [|apply Hr]. unfold step, at_. cbn [pc]. rewrite (Hcode (S k) _ Hj Hg). cbn [mbind option_bind exec pc xs]. rewrite rget_put by done.
  assert (2 * (u64 (v + low) / 2) = p + 4 * Z.of_nat k') as ->; [|done]. unfold v, u64. rewrite Z.add_mod_idemp_l by lia. rewrite Z.mod_small by lia. euclid.
Qed.
End Branches.

Lemma branches_compute l ts pre value code :
  (forall image p x, 0 <= p -> p + 4 * Z.of_nat (length l) < 2 ^ 62 -> code_but image p l ts -> pre x ->
    match value x with
    | Some v => reaches image p 0 x (length l) (fun x' => rget x' 5 = v /\ frame x x')
    | None => exists t k, t ∈ ts /\ tcode t = code x /\ site t = 4 * Z.of_nat k /\ reaches image p 0 x k (frame x)
    end) -> computes l ts pre value code.
Proof.
  intros H image p x Hp Hl Hc Hx. specialize (H image p x Hp Hl Hc Hx). unfold reaches, at_ in H. cbn [Z.of_nat Z.mul] in H. rewrite Z.add_0_r in H. destruct (value x).
  - by destruct H as (x' & ? & ? & ?); exists x'.
  - destruct H as (t & k & ? & ? & E & x' & ? & ?). exists t, x'. by rewrite E.
Qed.

Ltac free := by apply (bool_decide_unpack _); vm_compute.
Ltac op_step := eapply reaches_op; [done..|reflexivity|free|reflexivity|]; cbn [aluR aluI aluS]; autorewrite with rv.
Ltac branch_step j := repeat match goal with H : taken _ _ _ = _ |- _ => clear H end; eapply (reaches_branch _ _ _ _) with (k' := j); [done..|reflexivity|free|lia|cbn; lia|intros Ht|intros Hn].
Ltac far_step j := eapply (reaches_far _ _ _ _) with (k' := j); [done..|reflexivity|reflexivity|free|free|reflexivity|cbn; lia|intros ?].

(** The trap of a zero divisor, the first site of every division. *)
Ltac zero_divisor := match goal with E0 : rget _ 6 = 0 |- _ =>
  eexists _, 1%nat; split; [by left|]; split; [unfold trap_code; by rewrite E0|]; split; [reflexivity|];
  branch_step 3%nat; [match goal with H : taken _ _ _ = true |- _ => cbn [taken] in H; by rewrite E0 in H end|]; apply code_end, frame_refl end.

Lemma unsigned_division_ok op w : op ∈ [IntDivU; IntRemU; IntRemS] -> lowering_ok op w false w.
Proof.
  intros Hop. rewrite !elem_of_cons in Hop. destruct Hop as [->|[->|[->|Hop]]]; [..|by apply not_elem_of_nil in Hop]; destruct w; intros spc; eexists _, _; (split; [vm_compute; reflexivity|]);
  apply branches_compute; intros image p x Hp Hl Hc [Ha Hb]; cbn [wasm.width] in *; unfold bin_value; cbn [wasm.bin].
  all: destruct (Z.eqb_spec (rget x 6) 0) as [E0|E0].
  all: try zero_divisor.
  all: branch_step 3%nat; [|cbn [taken] in Hn; apply negb_false_iff, Z.eqb_eq in Hn; done].
  all: repeat op_step.
  all: apply code_end; split; [|framed]; autorewrite with rv.
  2,4,6: rewrite low_word, (low_small (rget x 6)) by done.
  all: rewrite (proj2 (Z.eqb_neq _ _) E0), ?sx32_low, ?s32_small, ?(low_small (rget x 5)) by done; try done.
  - apply low_small. split; [apply Z.div_pos; lia|]. apply Z.div_lt_upper_bound; nia.
  - apply low_small. pose proof (Z.mod_pos_bound (rget x 5) (rget x 6) ltac:(lia)). lia.
Qed.

(** The one signed quotient out of range. *)
Lemma quot_overflow n a b : 1 < n -> 0 <= a < 2 ^ n -> 0 <= b < 2 ^ n -> b <> 0 ->
  (Z.quot (wasm.signed n a) (wasm.signed n b) =? 2 ^ (n - 1)) = (a =? 2 ^ (n - 1)) && (b =? 2 ^ n - 1).
Proof.
  intros Hn Ha Hb Hb0. pose proof (signed_range n a ltac:(lia) Ha) as Hsa. assert (2 ^ n = 2 * 2 ^ (n - 1)) as E by (rewrite <- Z.pow_succ_r by lia; f_equal; lia).
  assert (2 <= 2 ^ (n - 1)) by (apply (Z.pow_le_mono_r 2 1); lia). apply Bool.eq_iff_eq_true. rewrite andb_true_iff, !Z.eqb_eq.
  assert (wasm.signed n b <> 0) as Hs0 by (unfold wasm.signed; destruct (Z.ltb_spec b (2 ^ (n - 1))); lia).
  assert (forall c, wasm.signed n b = c -> c < 0 -> b = c + 2 ^ n) as Hneg by (intros c <-; unfold wasm.signed; destruct (Z.ltb_spec b (2 ^ (n - 1))); lia).
  split.
  - intros Hq. assert (wasm.signed n b = -1) as H1.
    { destruct (decide (wasm.signed n b = 1)) as [H1|H1]; [rewrite H1, Z.quot_1_r in Hq; lia|]. destruct (decide (wasm.signed n b = -1)) as [|H2]; [done|exfalso].
      pose proof (Z.quot_abs (wasm.signed n a) (wasm.signed n b) Hs0) as HA. rewrite Hq, Z.quot_div_nonneg in HA by lia.
      assert (Z.abs (wasm.signed n a) / Z.abs (wasm.signed n b) < 2 ^ (n - 1)) by (apply Z.div_lt_upper_bound; nia). lia. }
    split; [|specialize (Hneg _ H1); lia]. rewrite H1 in Hq. change (-1) with (- (1)) in Hq. rewrite Z.quot_opp_r, Z.quot_1_r in Hq by lia.
    unfold wasm.signed in *. destruct (Z.ltb_spec a (2 ^ (n - 1))); lia.
  - intros [-> ->]. unfold wasm.signed. rewrite (proj2 (Z.ltb_ge _ _)), (proj2 (Z.ltb_ge (2 ^ n - 1) _)) by lia. replace (2 ^ n - 1 - 2 ^ n) with (- (1)) by lia.
    rewrite Z.quot_opp_r, Z.quot_1_r by lia. lia.
Qed.

(** A branch on a value that is known, and the comparison of a register with one. *)
Ltac refuted H := exfalso; try done; cbn [taken] in H; autorewrite with rv in H; rewrite ?negb_true_iff, ?negb_false_iff, ?Z.eqb_eq, ?Z.eqb_neq in H; first [done | congruence | (vm_compute in H; congruence) | (apply H; vm_compute; congruence)].

Lemma signed_division_ok w : lowering_ok IntDivS w false w.
Proof.
  destruct w; intros spc; eexists _, _; (split; [vm_compute; reflexivity|]);
  apply branches_compute; intros image p x Hp Hl Hc [Ha Hb]; cbn [wasm.width] in *; unfold bin_value; cbn [wasm.bin].
  all: destruct (Z.eqb_spec (rget x 6) 0) as [E0|E0]; cbn [orb].
  all: try zero_divisor.
  all: cbn [wasm.width]; rewrite quot_overflow by (done || lia).
  - destruct (Z.eqb_spec (rget x 5) (2 ^ (64 - 1))) as [E5|E5]; cbn [andb].
    + destruct (Z.eqb_spec (rget x 6) (2 ^ 64 - 1)) as [E6|E6].
      * eexists _, 12%nat. split; [by right; left|]. split; [unfold trap_code; by rewrite (proj2 (Z.eqb_neq _ _) E0)|]. split; [reflexivity|].
        branch_step 3%nat; [|refuted Hn]. repeat op_step. branch_step 10%nat; [|refuted Hn]. repeat op_step.
        branch_step 14%nat; [refuted Ht|]. apply code_end. framed.
      * branch_step 3%nat; [|refuted Hn]. repeat op_step. branch_step 10%nat; [|refuted Hn]. repeat op_step.
        branch_step 14%nat; [|refuted Hn]. repeat op_step. apply code_end. split; [|framed]. autorewrite with rv. by rewrite (proj2 (Z.eqb_neq _ _) E0).
    + branch_step 3%nat; [|refuted Hn]. repeat op_step. branch_step 10%nat; [refuted Ht|]. far_step 14%nat. repeat op_step. apply code_end. split; [|framed].
      autorewrite with rv. by rewrite (proj2 (Z.eqb_neq _ _) E0).
  - destruct (Z.eqb_spec (rget x 5) (2 ^ (32 - 1))) as [E5|E5]; cbn [andb].
    + destruct (Z.eqb_spec (rget x 6) (2 ^ 32 - 1)) as [E6|E6].
      * eexists _, 13%nat. split; [by right; left|]. split; [unfold trap_code; by rewrite (proj2 (Z.eqb_neq _ _) E0)|]. split; [reflexivity|].
        branch_step 3%nat; [|refuted Hn]. repeat op_step. branch_step 9%nat; [|refuted Hn]. repeat op_step.
        branch_step 15%nat; [refuted Ht|]. apply code_end. framed.
      * branch_step 3%nat; [|refuted Hn]. repeat op_step. branch_step 9%nat; [|refuted Hn]. repeat op_step.
        branch_step 15%nat; [|refuted Hn]. repeat op_step. apply code_end. split; [|framed]. autorewrite with rv.
        rewrite low_word, (low_small (rget x 6)), (proj2 (Z.eqb_neq _ _) E0), sx32_low, !s32_small by done. done.
    + branch_step 3%nat; [|refuted Hn]. repeat op_step. branch_step 9%nat; [refuted Ht|]. far_step 15%nat. repeat op_step. apply code_end. split; [|framed].
      autorewrite with rv. rewrite low_word, (low_small (rget x 6)), (proj2 (Z.eqb_neq _ _) E0), sx32_low, !s32_small by done. done.
Qed.

(** ** The loops of the bit counts *)

Lemma frame_trans x y z : frame x y -> frame y z -> frame x z.
Proof. intros H1 H2 r Hr. by rewrite H2, H1. Qed.

Lemma reaches_trans image p k x m Q e R : reaches image p k x m Q -> (forall x', Q x' -> reaches image p m x' e R) -> reaches image p k x e R.
Proof. intros (x1 & Hr & HQ) H. destruct (H x1 HQ) as (x2 & Hr2 & HR). exists x2. split; [|done]. by eapply rtc_trans. Qed.

Lemma land_even_odd u v : Z.land (2 * u) (2 * v + 1) = 2 * Z.land u v.
Proof.
  apply Z.bits_inj'. intros i Hi. rewrite Z.land_spec. destruct (Z.eq_dec i 0) as [->|Hne]; [by rewrite !Z.testbit_even_0|].
  replace i with (Z.succ (i - 1)) by lia. rewrite Z.testbit_odd_succ, !Z.testbit_even_succ by lia. by rewrite Z.land_spec.
Qed.

(** The lowest bit that is set, cleared. *)
Lemma ones_drop q : OnesCount (Z.land (Zpos q) (Zpos q - 1)) = ones q - 1 /\ 0 <= Z.land (Zpos q) (Zpos q - 1) < Zpos q.
Proof.
  induction q as [q _|q [IH1 IH2]|]; [| |done].
  - replace (Zpos q~1 - 1) with (2 * Zpos q) by lia. change (Zpos q~1) with (2 * Zpos q + 1). rewrite Z.land_comm, land_even_odd, Z.land_diag. split; [|lia]. change (ones q = 1 + ones q - 1). lia.
  - replace (Zpos q~0 - 1) with (2 * (Zpos q - 1) + 1) by lia. change (Zpos q~0) with (2 * Zpos q). rewrite land_even_odd.
    cbn [ones]. split; [|lia]. rewrite <- IH1. by destruct (Z.land (Zpos q) (Zpos q - 1)).
Qed.

Definition popcntCode : list instr :=
  [IOp ADDI 7 0 0; BranchOp BNE 5 0 12; AUIPC 31 0; JALR 0 31 36; IOp ADDI 7 0 0; IOp ADDI 6 5 (-1); ROp AND 5 5 6; IOp ADDI 7 7 1; BranchOp BEQ 5 0 12; AUIPC 31 0; JALR 0 31 (-16)].

Lemma popcnt_loop image p tail : 0 <= p -> p + 4 * Z.of_nat (length (popcntCode ++ tail)) < 2 ^ 62 -> code_but image p (popcntCode ++ tail) [] ->
  forall a x, rget x 5 = a -> 0 < a < 2 ^ 64 -> 0 <= rget x 7 -> rget x 7 + OnesCount a < 2 ^ 64 ->
  reaches image p 5 x 11 (fun x' => rget x' 7 = rget x 7 + OnesCount a /\ frame x x').
Proof.
  intros Hp Hl Hc a. induction (Z.lt_wf 0 a) as [a _ IH]. intros x E5 Ha H7 Hs. destruct a as [|q|]; try lia. destruct (ones_drop q) as [Ho Hr]. cbn [OnesCount] in *.
  assert (0 <= OnesCount (Z.land (Zpos q) (Zpos q - 1))) by (destruct (Z.land (Zpos q) (Zpos q - 1)) as [|r|] eqn:E; [done| |lia]; apply (ones_range 64); lia).
  do 3 op_step. rewrite E5. replace (u64 (Zpos q + -1)) with (Zpos q - 1) by (unfold u64; rewrite Z.mod_small; lia).
  replace (u64 (rget x 7 + 1)) with (rget x 7 + 1) by (unfold u64; rewrite Z.mod_small; lia). set (b := Z.land _ _) in *. set (x1 := rput 7 _ _).
  assert (rget x1 5 = b /\ rget x1 7 = rget x 7 + 1 /\ frame x x1) as (F5 & F7 & Ff) by (unfold x1; split_and!; [by autorewrite with rv..|framed]). clearbody x1.
  branch_step 11%nat.
  - apply code_end. split; [|done]. cbn [taken] in Ht. autorewrite with rv in Ht. apply Z.eqb_eq in Ht. rewrite F5 in Ht. rewrite Ht in Ho. cbn in Ho. lia.
  - cbn [taken] in Hn. autorewrite with rv in Hn. apply Z.eqb_neq in Hn. rewrite F5 in Hn. far_step 5%nat. eapply reaches_trans.
    + apply (IH b); autorewrite with rv; [lia|done|lia..].
    + cbv beta. autorewrite with rv. intros x2 [G7 Gf]. apply code_end. split; [lia|]. eapply frame_trans; [|done]. framed.
Qed.

Lemma u64_small v : 0 <= v < 2 ^ 64 -> u64 v = v.
Proof. apply Z.mod_small. Qed.

Definition ctzCode (n : Z) : list instr :=
  [IOp ADDI 7 0 n; BranchOp BNE 5 0 12; AUIPC 31 0; JALR 0 31 48; IOp ADDI 7 0 0; IOp ADDI 28 0 1; ROp AND 6 5 28; BranchOp BEQ 6 0 12; AUIPC 31 0; JALR 0 31 24;
   Shift SRLI 5 5 1; IOp ADDI 7 7 1; AUIPC 31 0; JALR 0 31 (-28)].

Lemma ctz_loop image p n tail : 0 <= p -> p + 4 * Z.of_nat (length (ctzCode n ++ tail)) < 2 ^ 62 -> code_but image p (ctzCode n ++ tail) [] ->
  forall q x, rget x 5 = Zpos q -> 0 <= rget x 7 -> rget x 7 + ctz q < 2 ^ 64 ->
  reaches image p 5 x 14 (fun x' => rget x' 7 = rget x 7 + ctz q /\ frame x x').
Proof.
  intros Hp Hl Hc q. induction q as [q _|q IH|]; intros x E5 H7 Hs; cbn [ctz] in *.
  all: do 2 op_step; rewrite E5.
  1,3: branch_step 10%nat; [refuted Ht|]; far_step 14%nat; apply code_end; split; [autorewrite with rv; lia|framed].
  pose proof (ctz_nonneg q). branch_step 10%nat; [|refuted Hn]. do 2 op_step. rewrite E5. rewrite (u64_small (rget x 7 + 1)) by lia. far_step 5%nat. eapply reaches_trans.
  - apply IH; autorewrite with rv; [|lia..]. change (Zpos q~0) with (2 * Zpos q). rewrite Z.mul_comm. by apply Z.div_mul.
  - cbv beta. autorewrite with rv. intros x2 [G7 Gf]. apply code_end. split; [lia|]. eapply frame_trans; [|done]. framed.
Qed.

(** One step to the left of a word whose highest bit is clear. *)
Lemma clz_double n a : 0 < n -> 0 < a < 2 ^ n -> a / 2 ^ (n - 1) = 0 -> 0 < 2 * a < 2 ^ n /\ LeadingZeros n a = 1 + LeadingZeros n (2 * a).
Proof.
  intros Hn Ha Hz. assert (0 < 2 ^ (n - 1)) by (apply Z.pow_pos_nonneg; lia). assert (2 ^ n = 2 * 2 ^ (n - 1)) by (rewrite <- Z.pow_succ_r by lia; f_equal; lia).
  apply Z.div_small_iff in Hz; [|lia]. split; [lia|]. unfold LeadingZeros. rewrite (proj2 (Z.eqb_neq a 0)), (proj2 (Z.eqb_neq (2 * a) 0)), Z.log2_double by lia. lia.
Qed.

Lemma clz_none n a : 0 < n -> 0 < a < 2 ^ n -> a / 2 ^ (n - 1) <> 0 -> LeadingZeros n a = 0.
Proof.
  intros Hn Ha Hz. assert (2 ^ (n - 1) <= a) by (destruct (Z.le_gt_cases (2 ^ (n - 1)) a); [done|]; exfalso; apply Hz, Z.div_small; lia).
  unfold LeadingZeros. rewrite (proj2 (Z.eqb_neq a 0)) by lia. assert (Z.log2 a = n - 1) as ->; [|lia]. apply Z.log2_unique; [lia|]. replace (Z.succ (n - 1)) with n by lia. lia.
Qed.

Definition clzCode (w : bool) : list instr :=
  let n := wasm.width w in
  [IOp ADDI 7 0 n; BranchOp BNE 5 0 12; AUIPC 31 0; JALR 0 31 (if w then 44 else 52); IOp ADDI 7 0 0; Shift SRLI 6 5 (n - 1); BranchOp BEQ 6 0 12; AUIPC 31 0;
   JALR 0 31 (if w then 24 else 32); Shift SLLI 5 5 1] ++ (if w then [] else [Shift SLLI 5 5 32; Shift SRLI 5 5 32]) ++ [IOp ADDI 7 7 1; AUIPC 31 0; JALR 0 31 (if w then -24 else -32)].

Lemma clz_loop image p w tail : 0 <= p -> p + 4 * Z.of_nat (length (clzCode w ++ tail)) < 2 ^ 62 -> code_but image p (clzCode w ++ tail) [] ->
  forall k x, LeadingZeros (wasm.width w) (rget x 5) = Z.of_nat k -> 0 < rget x 5 < 2 ^ wasm.width w -> 0 <= rget x 7 -> rget x 7 + Z.of_nat k < 2 ^ 64 ->
  reaches image p 5 x (if w then 13 else 15) (fun x' => rget x' 7 = rget x 7 + Z.of_nat k /\ frame x x').
Proof.
  intros Hp Hl Hc k. induction k as [|k IH]; intros x Ek Ha H7 Hs; destruct (decide (rget x 5 / 2 ^ (wasm.width w - 1) = 0)) as [Hz|Hz].
  - destruct (clz_double (wasm.width w) (rget x 5) ltac:(by destruct w) Ha Hz) as [Hd Hz1]. pose proof (count_range (wasm.width w) (2 * rget x 5) ltac:(by destruct w) ltac:(lia)). lia.
  - destruct w; cbn [wasm.width] in *; op_step.
    1: branch_step 9%nat; [cbn [taken] in Ht; autorewrite with rv in Ht; exfalso; apply Hz; by apply Z.eqb_eq in Ht|]; far_step 13%nat.
    2: branch_step 9%nat; [cbn [taken] in Ht; autorewrite with rv in Ht; exfalso; apply Hz; by apply Z.eqb_eq in Ht|]; far_step 15%nat.
    all: apply code_end; split; [autorewrite with rv; lia|framed].
  - destruct (clz_double (wasm.width w) (rget x 5) ltac:(by destruct w) Ha Hz) as [Hd Hz1]. rewrite Nat2Z.inj_succ in *. destruct w; cbn [wasm.width] in *; op_step.
    + branch_step 9%nat; [|cbn [taken] in Hn; autorewrite with rv in Hn; apply Z.eqb_neq in Hn; exfalso; apply Hn; exact Hz]. do 2 op_step. rewrite (u64_small (rget x 7 + 1)), (u64_small (rget x 5 * 2 ^ 1)) by lia.
      far_step 5%nat. eapply reaches_trans.
      * apply (IH _); autorewrite with rv; change (2 ^ 1) with 2; rewrite ?(Z.mul_comm (rget x 5)); lia.
      * cbv beta. autorewrite with rv. intros x2 [G7 Gf]. apply code_end. split; [lia|]. eapply frame_trans; [|done]. framed.
    + branch_step 9%nat; [|cbn [taken] in Hn; autorewrite with rv in Hn; apply Z.eqb_neq in Hn; exfalso; apply Hn; exact Hz]. do 4 op_step. rewrite low_word, (u64_small (rget x 7 + 1)), (u64_small (rget x 5 * 2 ^ 1)), (low_small (rget x 5 * 2 ^ 1)) by lia.
      far_step 5%nat. eapply reaches_trans.
      * apply (IH _); autorewrite with rv; change (2 ^ 1) with 2; rewrite ?(Z.mul_comm (rget x 5)); lia.
      * cbv beta. autorewrite with rv. intros x2 [G7 Gf]. apply code_end. split; [lia|]. eapply frame_trans; [|done]. framed.
  - rewrite clz_none in Ek; [lia|by destruct w|done|done].
Qed.

(** What the code after a loop does with the count. *)
Ltac absurd_branch := match goal with H : taken _ _ _ = _ |- _ => refuted H end.

Ltac count_end := repeat op_step; apply code_end; split; [autorewrite with rv; rewrite ?low_word|first [framed | repeat (apply frame_put; [free|]); eapply frame_trans; [|eassumption]; framed]].

(** The count of zero, and any other, left by the loop. *)
Ltac count_zero e := op_step; branch_step 4%nat; [absurd_branch|]; far_step e; count_end.
Ltac count_loop loop := op_step; branch_step 4%nat; [|absurd_branch]; op_step; eapply reaches_trans; [loop; autorewrite with rv; cbn [wasm.width]|cbv beta; autorewrite with rv; intros x2 [G7 Gf]; count_end].

(** The count in a register of 64 bits. *)
Lemma count_kept c v : 0 <= v <= 64 -> c = u64 (0 + 0) + v -> u64 (c + 0) = v /\ u64 (c + 0) mod 2 ^ 32 = v.
Proof. intros Hv ->. change (u64 (0 + 0)) with 0. rewrite u64_small by lia. split; [|rewrite low_small]; lia. Qed.

Ltac count_done := first [by eapply count_kept; [lia|] | change (u64 (0 + 0)) with 0; lia].

(** The count moved to register 5, as a word of 32 bits when it is one. *)
Definition moveCode (w : bool) : list instr := IOp ADDI 5 7 0 :: if w then [] else [Shift SLLI 5 5 32; Shift SRLI 5 5 32].

Section Count.
Context (image : list Z) (p : Z) (x : Z -> Z) (w : bool) (Hp : 0 <= p) (Ha : dom1 w x).

Lemma clz_code : let l := clzCode w ++ moveCode w in p + 4 * Z.of_nat (length l) < 2 ^ 62 -> code_but image p l [] ->
  reaches image p 0 x (length l) (fun x' => rget x' 5 = LeadingZeros (wasm.width w) (rget x 5) /\ frame x x').
Proof using Hp Ha.
  intros l Hl Hc. unfold l, dom1 in *. pose proof (proj1 (count_range (wasm.width w) (rget x 5) ltac:(by destruct w) Ha)) as Hv. destruct (Z.eq_dec (rget x 5) 0) as [E5|E5].
  - destruct w; [count_zero 13%nat|count_zero 15%nat]; by rewrite E5.
  - remember (LeadingZeros (wasm.width w) (rget x 5)) as v eqn:Ev. destruct w; cbn [wasm.width] in *;
      [count_loop ltac:(apply (clz_loop image p true (moveCode true) Hp Hl Hc (Z.to_nat v)))|count_loop ltac:(apply (clz_loop image p false (moveCode false) Hp Hl Hc (Z.to_nat v)))];
      rewrite ?Z2Nat.id in * by lia; count_done.
Qed.

Lemma ctz_code : let l := ctzCode (wasm.width w) ++ moveCode w in p + 4 * Z.of_nat (length l) < 2 ^ 62 -> code_but image p l [] ->
  reaches image p 0 x (length l) (fun x' => rget x' 5 = TrailingZeros (wasm.width w) (rget x 5) /\ frame x x').
Proof using Hp Ha.
  intros l Hl Hc. unfold l, dom1 in *. pose proof (proj2 (count_range (wasm.width w) (rget x 5) ltac:(by destruct w) Ha)) as Hv. destruct (rget x 5) as [|q|] eqn:E5; [| |lia].
  - destruct w; count_zero 14%nat; done.
  - cbn [TrailingZeros] in *. destruct w; cbn [wasm.width] in *;
      [count_loop ltac:(apply (ctz_loop image p 64 (moveCode true) Hp Hl Hc q))|count_loop ltac:(apply (ctz_loop image p 32 (moveCode false) Hp Hl Hc q))]; count_done.
Qed.

Lemma popcnt_code : let l := popcntCode ++ moveCode w in p + 4 * Z.of_nat (length l) < 2 ^ 62 -> code_but image p l [] ->
  reaches image p 0 x (length l) (fun x' => rget x' 5 = OnesCount (rget x 5) /\ frame x x').
Proof using Hp Ha.
  intros l Hl Hc. unfold l, dom1 in *. pose proof (ones_range (wasm.width w) (rget x 5) ltac:(by destruct w) Ha) as Hv. destruct (Z.eq_dec (rget x 5) 0) as [E5|E5].
  - destruct w; count_zero 11%nat; by rewrite E5.
  - destruct w; cbn [wasm.width] in *;
      [count_loop ltac:(apply (popcnt_loop image p (moveCode true) Hp Hl Hc (rget x 5)))|count_loop ltac:(apply (popcnt_loop image p (moveCode false) Hp Hl Hc (rget x 5)))]; done || count_done.
Qed.
End Count.

Lemma counts_ok op w : op = IntClz \/ op = IntCtz \/ op = IntPopcnt -> lowering_ok op w true w.
Proof.
  intros Hop spc. pose proof (fun x => count_un w op x Hop) as Hu. destruct Hop as [->|[->| ->]].
  1: exists (clzCode w ++ moveCode w), []. 2: exists (ctzCode (wasm.width w) ++ moveCode w), []. 3: exists (popcntCode ++ moveCode w), [].
  all: split; [by destruct w; vm_compute|]; apply branches_compute; intros image p x Hp Hl Hc Ha; destruct (Hu (rget x 5) Ha) as (v & E & _ & ->); unfold un_value; rewrite E.
  - by apply clz_code.
  - by apply ctz_code.
  - by apply popcnt_code.
Qed.
