(* ===== verification/RvOps.v ===== *)
(** * Lowered integer operations and comparisons are correct

    Every opcode of the integer lowering, put where the emitter is, computes its operation or
    reaches a trap site ([operation_correct]); a comparison that branches takes its false
    edge exactly when it does not hold ([compare_branches]). *)

From stdpp Require Import base tactics numbers list functions relations.
From Stdlib Require Import ZArith Lia.
From S2P Require Import Prelude Bits IntFold RvAsm RvIsa RvEncode RvCode RvLower RvLowerLaws RvRun.
Local Open Scope Z_scope.
Local Open Scope list_scope.

(** ** Every opcode *)

Definition covered (q : IntOp * bool * bool * bool) : bool :=
  let '(op, w, u, wide) := q in
  match op with
  | IntAdd | IntSub | IntMul | IntAnd | IntOr | IntXor | IntShl | IntShrU | IntShrS | IntRotl | IntRotr | IntDivU | IntDivS | IntRemU | IntRemS => negb u && eqb w wide
  | IntClz | IntCtz | IntPopcnt => u && eqb w wide
  | IntSExt8 | IntSExt16 => u && eqb w wide
  | IntEqz => u && negb wide
  | IntWrap => u && w && negb wide
  | IntSExt32 => u && wide
  | IntZExt32 => u && negb w && wide
  | IntNone => false
  | _ => negb u && negb wide
  end.

#[local] Opaque lowering_ok.

Ltac member := rewrite !elem_of_cons; tauto.

Lemma covered_ok op w u wide : covered (op, w, u, wide) = true -> lowering_ok op w u wide.
Proof.
  intros H. destruct op, u; try discriminate H; destruct wide; try discriminate H; destruct w; try discriminate H;
    first [apply arith_ok; member | apply shr_ok; member | apply compare_ok; member | apply rotate_ok; member | apply extend_ok; member | apply unsigned_division_ok; member | apply signed_division_ok | apply counts_ok; tauto].
Qed.

Lemma opcodes_covered opcode q : lower.integerOpcode opcode = Some q -> covered q = true.
Proof.
  destruct (decide (0x45 <= opcode < 0xc5)) as [Hin|Hout].
  - assert (forallb (fun o => match lower.integerOpcode o with Some q => covered q | None => true end) (seqZ 0x45 0x80) = true) as Hall by (vm_compute; reflexivity).
    rewrite forallb_forall in Hall. specialize (Hall opcode). rewrite <- list_elem_of_In, elem_of_seqZ in Hall. specialize (Hall ltac:(lia)). intros Hq. by rewrite Hq in Hall.
  - assert (lower.ScalarOpcode opcode = None) as Hs.
    { unfold lower.ScalarOpcode. repeat (rewrite (proj2 (andb_false_iff _ _)); [|rewrite !Z.leb_gt; lia]). done. }
    unfold lower.integerOpcode. rewrite Hs. destruct opcode as [|q'|q']; try done. do 8 (try (destruct q' as [q'|q'|]; try done)); exfalso; lia.
Qed.

#[local] Transparent lowering_ok.

(** ** Where the code is put *)

Lemma lowered_start spc op w u wide l ts : lowered spc op w u wide = Some (l, ts) -> exists r e0, lower.operation op w u wide (start spc) = (Ok r, e0) /\ ~ dead e0 /\ traps e0 = ts /\
  length (B (asm e0)) = (4 * length l)%nat /\ forall k i, l !! k = Some i -> fetch (B (asm e0)) (4 * Z.of_nat k) = Some i.
Proof.
  unfold lowered. destruct (lower.operation _ _ _ _ _) as [[r| |] e0]; try done. destruct (ferr e0) eqn:Ef; [done|]. destruct (err (asm e0)) eqn:Ea; [done|]. cbn zeta.
  set (n := (length (B (asm e0)) / 4)%nat). destruct (Nat.eqb_spec (length (B (asm e0))) (4 * n)) as [En|]; [|done]. cbn [negb].
  destruct (mapM _ _) as [l'|] eqn:Em; [|done]. cbn. intros [= -> <-]. exists r, e0. apply mapM_Some in Em. pose proof (Forall2_length _ _ _ Em) as HL. rewrite length_seq in HL.
  split_and!; [done|intros [?|?]; congruence|done|lia|]. intros k i Hk. destruct (Forall2_lookup_r _ _ _ _ _ Em Hk) as (k' & Hk' & HF). by apply lookup_seq in Hk' as [-> _].
Qed.

Lemma lowered_pc spc op w u wide l ts : lowered spc op w u wide = Some (l, ts) -> Forall (fun t => tpc t = spc) ts.
Proof. intros H. destruct u, op, w, wide; vm_compute in H; try discriminate H; injection H as <- <-; repeat constructor. Qed.

(** The code of an operation, from [Len] of the emitter before to [Len] of the one after. *)
Definition runs_as (op : IntOp) (w u wide : bool) (e e' : emitter) (ts : list integerTrap) : Prop :=
  forall image x, (forall o, rv.Len (asm e) <= o < rv.Len (asm e') -> (o ∉ holes ts) -> fetch image o = fetch (B (asm e')) o) -> (if u then dom1 w x else dom w x) ->
    match (if u then un_value w wide op x else bin_value w op x) with
    | Some v => exists x', steps image {| pc := rv.Len (asm e); xs := x |} {| pc := rv.Len (asm e'); xs := x' |} /\ rget x' 5 = v /\ frame x x'
    | None => exists t x', t ∈ ts /\ tcode t = trap_code x /\ steps image {| pc := rv.Len (asm e); xs := x |} {| pc := site t; xs := x' |} /\ frame x x'
    end.

Lemma operation_runs op w u wide e : lowering_ok op w u wide -> ferr e = None -> err (asm e) = None -> aligned (asm e) = true ->
  exists e' code ts, lower.operation op w u wide e = (Ok tt, e') /\ ferr e' = None /\ err (asm e') = None /\ aligned (asm e') = true /\
    B (asm e') = B (asm e) ++ code /\ traps e' = traps e ++ ts /\ Forall (fun t => tpc t = sourcePC e) ts /\
    (rv.Len (asm e') < 2 ^ 62 -> runs_as op w u wide e e' ts).
Proof.
  intros Hok Hf He Ha. destruct (Hok (sourcePC e)) as (l & ts & HL & HC). destruct (lowered_start _ _ _ _ _ _ _ HL) as (r & e0 & H0 & Hd & Ht & Hlen & Hfe).
  pose proof (proj1 (aligned_spec (asm e)) Ha) as H4.
  assert (moved (B (asm e)) (traps e) (start (sourcePC e)) e) as Hm.
  { split_and!; [split; [done|by rewrite app_nil_r]|done|by rewrite app_nil_r|done]. }
  destruct (operation_moves (B (asm e)) H4 (traps e) op w u wide _ _ _ _ Hm H0) as [|([] & e' & H1 & ([Hb1 Hb2] & Hm2 & Hm3 & Hm4) & _)]; [done|].
  assert (ferr e0 = None /\ err (asm e0) = None) as [Z1 Z2].
  { unfold dead in Hd. destruct (ferr e0), (err (asm e0)); [exfalso; apply Hd; by left..|exfalso; apply Hd; by right|done]. }
  exists e', (B (asm e0)), (movedTrap (B (asm e)) <$> ts). rewrite <- Ht in *. 
  assert (rv.Len (asm e') = rv.Len (asm e) + 4 * Z.of_nat (length l)) as HLen by (unfold rv.Len; rewrite Hb2, length_app; lia).
  split_and!; [done|congruence|congruence| |done|done| |].
  { apply aligned_spec. apply aligned_spec in Ha. unfold alignedTo4 in *. unfold rv.Len in HLen. rewrite HLen. euclid. }
  { apply Forall_fmap. apply (lowered_pc _ op w u wide l). congruence. }
  intros Hmax image x Him Hx. rewrite HLen. 
  assert (code_but image (rv.Len (asm e)) l (traps e0)) as Hcode.
  { intros k i Hk Hh. pose proof (lookup_lt_Some _ _ _ Hk). rewrite Him; [|lia|].
    - rewrite Hb2. unfold rv.Len. rewrite fetch_app by (done || lia). by apply Hfe.
    - intros Hin. apply Hh. unfold holes in *. apply list_elem_of_bind in Hin as (t & Hin & (t0 & -> & Ht0)%list_elem_of_fmap). apply list_elem_of_bind. exists t0. split; [|done].
      cbn [movedTrap site] in Hin. unfold rv.Len in Hin. rewrite !elem_of_cons in *. destruct Hin as [?|[?|?%not_elem_of_nil]]; [left; lia|right; left; lia|done]. }
  assert (0 <= rv.Len (asm e)) by (unfold rv.Len; lia). specialize (HC image (rv.Len (asm e)) x ltac:(done) ltac:(lia) Hcode). destruct u.
  all: specialize (HC Hx); match goal with |- match ?v with _ => _ end => destruct v end; [done|].
  all: destruct HC as (t & x' & Hin & Hcd & Hst & Hfr); exists (movedTrap (B (asm e)) t), x'; split_and!; [by apply list_elem_of_fmap_2|done|done|done].
Qed.

(** C19: the code emitted for an integer opcode computes it.  On an emitter without error
    whose code is aligned, [operation] appends its code and its trap sites, each with the
    source position of the opcode, and records no error.  On a machine whose code carries
    the new words, the sites apart, started at the new code with operands of the opcode's
    width in registers 5 and 6: if the operation has a value the machine comes to the end
    of the code with the value in register 5, the loops of the bit counts included; if it
    traps the machine comes to a site recorded with the code of that trap.  Only the
    scratch registers change. *)
Theorem operation_correct opcode op w u wide e : lower.integerOpcode opcode = Some (op, w, u, wide) -> ferr e = None -> err (asm e) = None -> aligned (asm e) = true ->
  exists e' code ts, lower.operation op w u wide e = (Ok tt, e') /\ ferr e' = None /\ err (asm e') = None /\ aligned (asm e') = true /\
    B (asm e') = B (asm e) ++ code /\ traps e' = traps e ++ ts /\ Forall (fun t => tpc t = sourcePC e) ts /\
    (rv.Len (asm e') < 2 ^ 62 -> runs_as op w u wide e e' ts).
Proof. intros Hop. by apply operation_runs, covered_ok, (opcodes_covered opcode). Qed.

Lemma operation_correct_witness : lower.integerOpcode 0x6d = Some (IntDivS, false, false, false) /\
  exists e' code ts, lower.operation IntDivS false false false (start 7) = (Ok tt, e') /\ ferr e' = None /\ err (asm e') = None /\ aligned (asm e') = true /\
    B (asm e') = [] ++ code /\ traps e' = [] ++ ts /\ Forall (fun t => tpc t = 7) ts /\ (rv.Len (asm e') < 2 ^ 62 -> runs_as IntDivS false false false (start 7) e' ts).
Proof. split; [reflexivity|]. apply (operation_correct 0x6d IntDivS false false false (start 7)); reflexivity. Defined.

(** ** Comparisons that branch *)

(** What a branch with its operands prepared by [pre] does once it is patched. *)
Definition branch_does (a : Asm) (s : Z) (a1 : Asm) (falls : (Z -> Z) -> bool) : Prop :=
  forall a2 t, err a2 = None -> B a1 `prefix_of` B a2 -> rv.Len a1 < 2 ^ 61 -> 0 <= t < 2 ^ 62 -> t mod 4 = 0 -> - 2 ^ 31 - 2048 <= t - s <= 2 ^ 31 - 2049 ->
  exists a3, rv.PatchLong s t a2 = (Ok tt, a3) /\ err a3 = None /\ rv.Len a3 = rv.Len a2 /\ (forall p, p <> s -> p <> s + 4 -> fetch (B a3) p = fetch (B a2) p) /\
    forall image x, carries image (B a3) (rv.Len a) (s + 8) -> (forall r, 0 <= rget x r < 2 ^ 64) -> exists x',
      steps image {| pc := rv.Len a; xs := x |} {| pc := if falls x then s + 8 else t; xs := x' |} /\ forall q, q <> rv.Scratch0 -> q <> rv.Scratch1 -> rget x' q = rget x q.

Lemma carries_within image b from to from' to' : from <= from' -> to' <= to -> carries image b from to -> carries image b from' to'.
Proof. intros H1 H2 H o Ho. apply H. lia. Qed.

Lemma fetch_more b c p i : fetch b p = Some i -> fetch (b ++ c) p = Some i.
Proof.
  unfold fetch. destruct (_ || _); [done|]. destruct (rv.Uint32 b p) as [w|] eqn:E; [|done]. assert (rv.Uint32 (b ++ c) p = Some w) as ->; [|done]. unfold rv.Uint32 in *.
  assert (4 <= length (drop (Z.to_nat p) b))%nat as Hd by (destruct (drop (Z.to_nat p) b) as [|b0 [|b1 [|b2 [|b3 l]]]]; cbn in *; done || lia).
  rewrite length_drop in Hd. rewrite drop_app_le, take_app_le by (rewrite ?length_drop; lia). done.
Qed.

Lemma branch_after a pre a' c o l r falls : err a = None -> alignedTo4 (B a) -> written (B a) pre a' -> decodeCond c = Some o -> 0 <= l < 32 -> 0 <= r < 32 ->
  (forall x, (forall r, 0 <= rget x r < 2 ^ 64) -> exists x', run pre x = Some x' /\ taken o (rget x' l) (rget x' r) = negb (falls x) /\ forall q, q <> rv.Scratch0 -> q <> rv.Scratch1 -> rget x' q = rget x q) ->
  let '(s, a1) := rv.BranchLong c l r a' in err a1 = None /\ aligned a1 = true /\ B a `prefix_of` B a1 /\ rv.Len a1 = s + 8 /\ branch_does a s a1 falls.
Proof.
  intros He H4 Hw Hc Hl Hr Hrun. pose proof (written_aligned (B a) H4 pre a' Hw) as Ha'. apply aligned_spec in Ha'.
  pose proof (written_length (B a) pre a' Hw) as HL. fold (rv.Len a) in HL.
  pose proof (fun a2 t => branch_lands c o l r a' a2 t Hc Hl Hr (proj1 Hw) Ha') as HB. 
  assert (B a' `prefix_of` B (snd (rv.BranchLong c l r a'))) as Hpre.
  { destruct (BranchLong_ok c o l r a' Hc Hl Hr (proj1 Hw) Ha') as (wd & o' & _ & _ & ->). cbn [snd B]. rewrite <- ?app_assoc. by eexists. }
  destruct (rv.BranchLong c l r a') as [s a1]. cbn [snd] in Hpre. destruct (HB a1 0) as (Hs & HL1 & He1 & _). split_and!; [done| | |lia|].
  - apply aligned_spec. unfold alignedTo4 in *. fold (rv.Len a') in Ha'. fold (rv.Len a1). rewrite HL1. euclid.
  - destruct Hw as (_ & ws & Hb & _). etrans; [|exact Hpre]. rewrite Hb. by eexists.
  - intros a2 t He2 Hp2 Hm Ht Ht4 Hreach. destruct (HB a2 t) as (_ & _ & _ & HP). specialize (HP He2 Hp2 ltac:(lia) ltac:(lia) Ht4).
    rewrite (proj2 (andb_true_iff _ _)) in HP by (rewrite !Z.leb_le; lia). destruct HP as (a3 & HP & He3 & HL3 & Hk & Hst). exists a3. split_and!; try done.
    intros image x Hcar Hx. destruct (Hrun x Hx) as (x1 & Hr1 & Htk & Hf1). destruct (Hst image x1) as (x2 & Hs2 & Hf2); [eapply carries_within; [| |exact Hcar]; lia|].
    rewrite Htk in Hs2. exists x2. split; [|intros q H30 H31; rewrite Hf2 by done; by apply Hf1]. eapply rtc_trans.
    + apply (run_steps image pre); [|done|unfold rv.Len; lia|lia]. eapply carries_code; [exact H4|exact Hcar|lia|].
      intros k i Hki. pose proof (lookup_lt_Some _ _ _ Hki). rewrite Hk by lia. 
      destruct Hpre as [m1 E1], Hp2 as [m2 E2]. rewrite E2, E1. by apply fetch_more, fetch_more, (written_code (B a) H4 pre a' Hw).
    + rewrite HL in Hs2. replace (s + 8) with (rv.Len a' + 12) by lia. rewrite HL. by destruct (falls x).
Qed.

(** The code that brings the operands of a comparison to the width it is made at. *)
Definition compareCode (op : IntOp) (w : bool) (l r : Z) : list instr :=
  if w then []
  else if lower.signedCompare op then [IOp ADDIW 30 l 0; IOp ADDIW 31 r 0]
  else [Shift SLLI 30 l 32; Shift SRLI 30 30 32; Shift SLLI 31 r 32; Shift SRLI 31 31 32].

Lemma written_more b0 l a i : alignedTo4 b0 -> go_typed i -> operands_ok i = true -> written b0 l a -> written b0 (l ++ [i]) (emit i a).
Proof. intros H0. by apply written_emit. Qed.

Lemma addiw_written b0 l a d s : alignedTo4 b0 -> 0 <= d < 32 -> 0 <= s < 32 -> written b0 l a -> written b0 (l ++ [IOp ADDIW d s 0]) (rv.Addiw d s 0 a).
Proof.
  intros H0 Hd Hs. apply (written_more b0 l a (IOp ADDIW d s 0)); [done|unfold go_typed, bytes8; repeat constructor; lia|].
  cbn [operands_ok below32 forallb]. by rewrite (proj2 (Z.ltb_lt d 32)), (proj2 (Z.ltb_lt s 32)) by lia.
Qed.

Definition holds (n : Z) (op : IntOp) (x y : Z) : bool := bool_decide (wasm.bin n op x y = Some 1).

Lemma holds_truth n op x y b : wasm.bin n op x y = Some (wasm.truth b) -> holds n op x y = b.
Proof. intros E. unfold holds. rewrite E. by destruct b. Qed.

Lemma operands_written op w l r e : err (asm e) = None -> alignedTo4 (B (asm e)) -> 0 <= l < 30 -> 0 <= r < 30 -> exists e1,
  lower.compareOperands op w l r e = (Ok (if w then (l, r) else (30, 31)), e1) /\ written (B (asm e)) (compareCode op w l r) (asm e1) /\ ferr e1 = ferr e /\ traps e1 = traps e /\ sourcePC e1 = sourcePC e.
Proof.
  intros He H4 Hl Hr. pose proof (written_start (asm e) He) as Hw. unfold lower.compareOperands, compareCode. destruct w; cbn [negb]; [by eexists|].
  destruct (lower.signedCompare op); (eexists; split; [reflexivity|]; split; [|done]); cbn [asm]; unfold rv.Scratch0, rv.Scratch1 in *.
  - apply (addiw_written _ [IOp ADDIW 30 l 0]); [done|lia..|]. apply (addiw_written _ []); done || lia.
  - apply (zeroExtend_written _ [Shift SLLI 30 l 32; Shift SRLI 30 30 32]); [done|lia..|]. apply (zeroExtend_written _ []); done || lia.
Qed.

(** The false edge is taken when the comparison does not hold. *)
Lemma edge_taken op w l r c swap x : fold.isCompare op = true -> lower.falseEdge op = Some (c, swap) -> 0 <= l < 30 -> 0 <= r < 30 -> (forall r, 0 <= rget x r < 2 ^ 64) ->
  exists o x', decodeCond c = Some o /\ run (compareCode op w l r) x = Some x' /\ (forall q, q <> rv.Scratch0 -> q <> rv.Scratch1 -> rget x' q = rget x q) /\
    let lr := if w then (l, r) else (30, 31) in let ab := if swap : bool then (snd lr, fst lr) else lr in
    taken o (rget x' (fst ab)) (rget x' (snd ab)) = negb (holds (wasm.width w) op (rget x l mod 2 ^ wasm.width w) (rget x r mod 2 ^ wasm.width w)).
Proof.
  intros Hop He Hl Hr Hx. pose proof (Hx l) as Hxl. pose proof (Hx r) as Hxr.
  destruct op; try discriminate Hop; injection He as <- <-; destruct w; eexists _, _; (split; [reflexivity|]); (split; [reflexivity|]); (split; [intros q H30 H31; rewrite ?rget_put_ne by done; reflexivity|]); cbn [fst snd wasm.width].
  all: erewrite holds_truth by reflexivity; cbn [taken aluS aluI]; repeat first [rewrite rget_put by lia | rewrite rget_put_ne by lia].
  all: rewrite ?low_word, ?Z.add_0_r, ?s64_sx32, ?(Z.mod_small _ (2 ^ 64)), ?negb_involutive by done; unfold s32, s64; rewrite <- ?Z.leb_antisym, <- ?Z.ltb_antisym; reflexivity.
Qed.

(** C20: A comparison that branches takes its false edge exactly when it does not hold.  On
    an emitter without error whose code is aligned, [BranchCompare] on two registers
    returns the site of its long branch.  Whatever is appended later, patching the site to
    an aligned target within reach succeeds and changes no other word; the code run
    from where it was emitted then comes to its end when the operands, taken at the width
    of the comparison, satisfy it, and to the target when they do not, changing no
    register but the two scratch registers. *)
Theorem compare_branches op w l o e : fold.isCompare op = true -> Kind o = ScalarRegister -> 0 <= l < 30 -> 0 <= Reg o < 30 -> err (asm e) = None -> aligned (asm e) = true ->
  exists s e1, lower.BranchCompare op w l o e = (Ok s, e1) /\ ferr e1 = ferr e /\ traps e1 = traps e /\ err (asm e1) = None /\ aligned (asm e1) = true /\
    B (asm e) `prefix_of` B (asm e1) /\ rv.Len (asm e1) = s + 8 /\
    branch_does (asm e) s (asm e1) (fun x => holds (wasm.width w) op (rget x l mod 2 ^ wasm.width w) (rget x (Reg o) mod 2 ^ wasm.width w)).
Proof.
  intros Hop Hk Hl Hr He Ha. apply aligned_spec in Ha. destruct (operands_written op w l (Reg o) e He Ha Hl Hr) as (e1 & Ho & Hw & Hf & Ht & _).
  assert (exists c swap, lower.falseEdge op = Some (c, swap)) as (c & swap & Hc) by (destruct op; try discriminate Hop; by eexists _, _).
  set (lr := if w then (l, Reg o) else (30, 31)) in *. set (ab := if swap then (snd lr, fst lr) else lr).
  assert (0 <= fst ab < 32 /\ 0 <= snd ab < 32) as [Hfa Hsa] by (unfold ab, lr; destruct swap, w; cbn [fst snd]; lia).
  assert (exists oc, decodeCond c = Some oc) as (oc & Hoc) by (destruct op; try discriminate Hop; injection Hc as <- <-; by eexists).
  pose proof (branch_after (asm e) (compareCode op w l (Reg o)) (asm e1) c oc (fst ab) (snd ab) (fun x => holds (wasm.width w) op (rget x l mod 2 ^ wasm.width w) (rget x (Reg o) mod 2 ^ wasm.width w))
    He Ha Hw Hoc Hfa Hsa) as HB.
  assert (exists s, lower.BranchCompare op w l o e = (Ok s, {| asm := snd (rv.BranchLong c (fst ab) (snd ab) (asm e1)); ferr := ferr e1; traps := traps e1; sourcePC := sourcePC e1 |}) /\
    s = fst (rv.BranchLong c (fst ab) (snd ab) (asm e1))) as (s & HC & Hs).
  { unfold lower.BranchCompare. rewrite Hk. unfold bind. rewrite Ho, Hc. unfold lower.site_of. fold lr. fold ab. destruct (rv.BranchLong c (fst ab) (snd ab) (asm e1)). by eexists. }
  rewrite HC. exists s. eexists. split; [done|]. cbn [asm ferr traps]. destruct (rv.BranchLong c (fst ab) (snd ab) (asm e1)) as [s' a1]. cbn [fst snd] in *. subst s'.
  destruct HB as (H1 & H2 & H3 & H4 & H5).
  - intros x Hx. destruct (edge_taken op w l (Reg o) c swap x Hop Hc Hl Hr Hx) as (o' & x' & Ho' & Hrun & Hfr & Htk). rewrite Hoc in Ho'. injection Ho' as <-. exists x'. split_and!; [done| |done]. exact Htk.
  - by split_and!.
Qed.

Lemma compare_branches_witness : fold.isCompare IntLtS = true /\ exists s e1,
  lower.BranchCompare IntLtS false 5 {| Kind := ScalarRegister; Reg := 6; Offset := 0; Constant_ := 0 |} (start 0) = (Ok s, e1) /\
  branch_does (asm (start 0)) s (asm e1) (fun x => holds 32 IntLtS (rget x 5 mod 2 ^ 32) (rget x 6 mod 2 ^ 32)).
Proof.
  split; [reflexivity|]. destruct (compare_branches IntLtS false 5 {| Kind := ScalarRegister; Reg := 6; Offset := 0; Constant_ := 0 |} (start 0) eq_refl eq_refl
    ltac:(lia) ltac:(cbn [Reg]; lia) eq_refl eq_refl) as (s & e1 & H & _ & _ & _ & _ & _ & _ & HB). exists s, e1. split; [exact H|exact HB].
Defined.

(** The branch of a condition that is a word of 32 bits. *)
Lemma zero_branches r e : 0 <= r < 30 -> err (asm e) = None -> aligned (asm e) = true ->
  exists s e1, lower.BranchZero r e = (Ok s, e1) /\ ferr e1 = ferr e /\ traps e1 = traps e /\ err (asm e1) = None /\ aligned (asm e1) = true /\
    branch_does (asm e) s (asm e1) (fun x => negb (rget x r mod 2 ^ 32 =? 0)).
Proof.
  intros Hr He Ha. apply aligned_spec in Ha. pose proof (zeroExtend_written (B (asm e)) [] (asm e) 30 r Ha ltac:(lia) ltac:(lia) (written_start (asm e) He)) as Hw. cbn [app] in Hw.
  pose proof (branch_after (asm e) _ _ rv.EQ BEQ 30 0 (fun x => negb (rget x r mod 2 ^ 32 =? 0)) He Ha Hw eq_refl ltac:(lia) ltac:(lia)) as HB.
  unfold lower.BranchZero, bind, lower.site_of. cbn [lower.on modify asm]. change rv.Scratch0 with 30. change rv.Zero with 0. destruct (rv.BranchLong rv.EQ 30 0 _) as [s a1].
  eexists _, _. split; [reflexivity|]. cbn [asm ferr traps]. destruct HB as (H1 & H2 & H3 & H4 & H5); [|by split_and!].
  intros x Hx. eexists. split; [reflexivity|]. split; [|intros q H30 H31; rewrite ?rget_put_ne by done; reflexivity].
  cbn [taken aluS]. autorewrite with rv. by rewrite low_word, negb_involutive.
Qed.
